(* ===== verification/_CoqProject ===== *)
-Q . S2P
Prelude.v
Core.v
Endian.v
Book.v
BookSpec.v
BookRun.v
OrderBook.v
BookTheorems.v
Contiguous.v
ContiguousSpec.v
Pool.v
Intrusive.v
IntrusiveSpec.v
IntrusiveLaws.v
Storage.v
StorageTheorems.v
Text.v
Command.v
Protocol.v
Fix.v
FixSpec.v
EventLog.v
LogFile.v
Engine.v
EngineSpec.v
Feed.v
Gateway.v
GatewaySpec.v
Recovery.v
Shrink.v
Renumber.v
Flow.v
Fixture.v
ReplayEngine.v
StreamParser.v
ReplayBook.v
ReplaySpec.v
FixtureSpec.v
FlowSpec.v
Verifier.v
ExportFixture.v
ExportStream.v
ReplayApp.v
ExportSpec.v
Session.v
SessionSpec.v
Sys.v
Epoll.v
Server.v
Tcp.v
Perf.v
BenchRecovery.v
BenchStorage.v
Bench.v
MdFeed.v
GatewayApp.v
Client.v
Ring.v
Pipeline.v
PipelineSpec.v
EngineTheorems.v
LogTheorems.v
SessionTheorems.v
EpollTheorems.v
TcpTheorems.v
PipelineTheorems.v
FixTheorems.v
ShrinkTheorems.v
DiffTheorems.v
GoldenTheorems.v
VerifierTheorems.v
ReplayAppTheorems.v
PerfTheorems.v
BenchRecoveryTheorems.v
BenchStorageTheorems.v
BenchTheorems.v
Flame.v
MdFeedTheorems.v
GatewayAppTheorems.v
ClientTheorems.v
