(* ===== verification/Prelude.v ===== *)
(** * Quant Systems Lab: a verification library for the exchange simulator

    The program is a deterministic exchange simulator in C++ (src/, include/,
    apps/, benchmarks/), with a second, independent replay engine in OCaml
    (ocaml/).  An order book matches orders in price-time priority; a matching
    engine keeps one book per symbol and numbers the events; a risk gateway decides
    which orders reach the engine.  Requests enter as bytes: a session frames a
    binary protocol, two socket servers (one epoll loop, one thread per connection)
    carry sessions, and a threaded pipeline joins gateway, engine and feed by
    lock-free rings.  Commands are logged, recovered after a crash and replayed;
    engine events are published as market data; generated command streams are
    replayed by both engines, compared, and shrunk when they differ.

    ** How the code is modelled

    Every definition translates the lines of one function, method or type and keeps
    its name where possible.  An object is a record and a method a function that
    returns the updated record; an exception or error code is a value; a loop is
    structural recursion or [while] with a bound that a lemma shows to be enough.
    Integers are [Z] with the wrap-around of their width written out ([u32], [u64],
    ...).  Bytes are [list Z].  [std::map] is an association list in key order (the
    [om_] functions below), [std::unordered_map] a [gmap], [std::vector] and
    [std::list] lists.  What the operating system, the clock or a scheduler decides
    is an argument, so theorems quantify over it.

    ** The files

    Prelude            machine integers, ordered maps, [while], lists, tactics.
    Core, Endian, Text include/qsl/core, protocol/endian.hpp, and decimal numbers of
                       the standard library.
    Book, BookSpec     include/qsl/engine/order.hpp and the matching templates of
                       src/engine/order_book.cpp; the abstract price-time-priority
                       book, the interface [BookStore] of a storage and its contract
                       [BookStoreLaws].
    BookRun            runs of book operations, and renaming of order ids.
    OrderBook          the baseline storage (ordered maps of FIFO levels) and its
                       instance of the contract.
    Contiguous, ContiguousSpec
                       src/engine/contiguous_store.hpp: bitmaps, flat levels with
                       tombstones, compaction; its instance.
    Pool, Intrusive, IntrusiveSpec, IntrusiveLaws
                       include/qsl/memory/order_pool.hpp and the intrusive pooled
                       storage of src/engine/order_book.cpp; its instance, by a
                       simulation with the baseline storage.
    Storage            the public [OrderBook], which dispatches to a storage; its
                       instance.
    Command, Protocol, Fix, FixSpec
                       src/replay/command.cpp, src/protocol/codec.cpp and
                       src/protocol/fix.cpp: the three encodings.
    EventLog, LogFile  src/replay/event_log.cpp: framing, recovery and repair; files,
                       the writer and its durability modes.
    Engine, EngineSpec src/engine/matching_engine.cpp against [BookStore], and the
                       abstract engine it refines.
    Feed               src/feed: messages, publisher, gap detector, UDP endpoints.
    Gateway, GatewaySpec
                       src/engine/risk.cpp, src/gateway/order_gateway.cpp and
                       replay/dispatch.hpp; the gateway as a function of the
                       abstract engine, and where its events come from.
    Recovery, Flow, FlowSpec
                       src/replay/recovery.cpp: replay of a log, mt19937_64 and the
                       flow generators.
    Shrink, Renumber   src/replay/shrink.cpp.
    Fixture, FixtureSpec
                       src/replay/fixture.cpp.
    ReplayEngine, ReplayBook, ReplaySpec, StreamParser
                       ocaml/lib/replay_engine.ml, stream_parser.ml and
                       diff_report.ml, with their commands.
    Verifier, ExportSpec
                       ocaml/lib/{event,parser,invariant}.ml and
                       ocaml/bin/verify_replay.ml; the log it is given.
    Session, SessionSpec
                       src/gateway/session.cpp.
    Sys, Server, Epoll, Tcp
                       programs over system calls; the specification of an
                       order-entry server; src/gateway/epoll_server.cpp and
                       src/gateway/tcp_server.cpp.
    Ring, Pipeline, PipelineSpec
                       include/qsl/concurrency.
    ExportFixture, ExportStream, ReplayApp, MdFeed, GatewayApp, Client, Perf
                       the applications under apps/.
    BenchRecovery      benchmarks/bench_recovery.cpp.
    BenchStorage       benchmarks/bench_storage.cpp: its workloads, the checks on their
                       shape and the timed runs on the three storages.
    Bench              benchmarks/bench_order_pool.cpp and the operations that
                       qsl-bench times.
    Flame              scripts/flamegraph.py: parsing and folding of profiles, the
                       layout and the text of the picture, with its theorems.
    *Theorems          the properties, with the lemmas only they need and, for each
                       property with hypotheses, an instance.

    ** How the parts fit together

    The engine is written against [BookStore]; its theorems use only the laws, so
    they hold for the three storages and for the dispatching [OrderBook].  Sessions,
    servers, replay, fixtures and applications run the engine model itself, and
    their theorems go through the abstract engine of EngineSpec.  The server
    specification of Server uses the session model, and both servers, under any
    kernel and any schedule, refine it; GatewayApp runs them and Client talks to
    what they promise.

    ** What the theorems show

    Books and storages (BookTheorems, StorageTheorems): every sequence of operations
    returns the trades and leaves the orders of the abstract book; books never
    cross; admission is exact; pools hand out free slots only.
    Engine, gateway, recovery and feed (EngineTheorems): refinement of the abstract
    engine; a command is applied unchanged or rejected without effect; replaying the
    log of accepted commands gives the same events and the same engine; a
    subscriber's view is the engine's top of book.
    Wire formats and logs (LogTheorems, FixTheorems): round trips, ranges,
    detection of corrupted bytes, recovery of a cut log, survival of acknowledged
    records.
    Sessions and servers (SessionTheorems, EpollTheorems, TcpTheorems,
    GatewayAppTheorems, ClientTheorems): answers in order however the bytes are
    split, output limits, descriptors closed once, stale events ignored, progress
    except for the kernel.
    Concurrency (PipelineTheorems): under every schedule and every delay of the
    visibility of stores the pipeline computes what one thread computes, completes
    under fair schedules, and its rings are free of races.
    Differential testing (DiffTheorems, GoldenTheorems, ShrinkTheorems,
    VerifierTheorems): both engines agree on every stream; the exporter's files are
    read back and never reported as divergent; shrinking ends in a stream that no
    reduction makes smaller; the verifier is exact and accepts every exported log.
    Applications and benchmarks (ReplayAppTheorems, MdFeedTheorems, PerfTheorems,
    BenchRecoveryTheorems): what they print, acknowledge, send and measure is what
    the components they drive did.
    Benchmarks (BenchStorageTheorems, BenchTheorems): a stream of commands gives the
    same events and the same orders on the three storages; the synthetic workloads
    of the storage benchmark have the size and the mix they claim and every storage
    reports the same figures for them; no operation qsl-bench times fails, and the
    counts behind its rates are exact.
    Flame graphs (Flame): the folded text of a profile is read back as the same
    counts; the picture has one frame for each call path, as wide as the samples
    that share it, inside the frame of its caller.

    ** Bounds and fuel

    Matching loops run on the number of resting orders, tokenizers and framing loops
    on the number of bytes; the lemmas of each loop show that this many iterations
    are enough.  A program over system calls runs as long as its script of answers:
    it can only end, or wait for the kernel.  Theorems on both engines take streams
    of fewer than 2^30 commands, so that no OCaml integer (63 bits) or C++ counter
    overflows; theorems on event numbers take fewer than 2^64 events.  The warm-up of
    qsl-perfeval ends within 4608 orders whatever the random numbers are.  The
    storage benchmark builds a workload of 5004 commands within 50040 iterations.
    The Python integers of Flame are [Z], its floats the binary64 numbers of the
    Standard Library's SpecFloat.

    ** Not modelled

    Wall-clock time, elapsed seconds and rates (floating point); the counting
    allocators of qsl-perfeval; exhaustion of memory and failure to create a thread;
    text written to standard error; signals; the branches for systems other than
    Linux; byte order conversion of socket addresses.  Of the
    benchmarks, the clocks, the averages and the printed lines are left out, and the
    generated flow of bench_storage.cpp is run but its mix is not characterised.
    benchmarks/bench_false_sharing.cpp measures the cache and computes nothing else.
    The argument parsing of flamegraph.py is Python's argparse.  The shell scripts
    and the tests are not part of the program. *)

From stdpp Require Export base gmap list strings sorting relations.
From Stdlib Require Export ZArith Lia.

Declare Scope qsl_scope.
Delimit Scope qsl_scope with qsl.
Open Scope Z_scope.

(** ** Machine integers *)

(** Unsigned integers of the source are [Z] values in [0, 2^w); conversions and
    arithmetic that can leave the range are written with [wrap]. *)
Definition wrap (w z : Z) : Z := z mod 2 ^ w.
Definition u8 (z : Z) : Z := wrap 8 z.
Definition u16 (z : Z) : Z := wrap 16 z.
Definition u32 (z : Z) : Z := wrap 32 z.
Definition u64 (z : Z) : Z := wrap 64 z.

(** [static_cast<std::int64_t>] of an unsigned 64-bit value. *)
Definition i64_of_u64 (z : Z) : Z := if z <? 2 ^ 63 then z else z - 2 ^ 64.

Definition in_u8 (z : Z) : Prop := 0 <= z < 2 ^ 8.
Definition in_u16 (z : Z) : Prop := 0 <= z < 2 ^ 16.
Definition in_u32 (z : Z) : Prop := 0 <= z < 2 ^ 32.
Definition in_u64 (z : Z) : Prop := 0 <= z < 2 ^ 64.
Definition in_i64 (z : Z) : Prop := - 2 ^ 63 <= z < 2 ^ 63.

(** [std::numeric_limits<std::size_t>::max()] on the 64-bit targets of the project. *)
Definition size_max : Z := 2 ^ 64 - 1.

(** ** Loops *)

(** [while (cond(s)) s = body(s);] with a bound on the number of iterations.
    Every use chooses a bound that [while_exits] proves sufficient: the loop is
    left because its condition is false, never because the bound is spent. *)
Fixpoint while {S : Type} (fuel : nat) (cond : S -> bool) (body : S -> S) (s : S) : S :=
  match fuel with
  | O => s
  | Datatypes.S fuel' => if cond s then while fuel' cond body (body s) else s
  end.

(** [container.empty()]. *)
Definition is_nil {A : Type} (l : list A) : bool :=
  match l with [] => true | _ :: _ => false end.

(** ** [std::map] *)

(** An ordered map is the list of its entries in iteration order; [before a b]
    is the comparator ([std::less] or [std::greater] on integer keys). *)
Section OrderedMap.
Context {V : Type} (before : Z -> Z -> bool).

Fixpoint om_find (k : Z) (m : list (Z * V)) : option V :=
  match m with
  | [] => None
  | (k', v) :: r => if k =? k' then Some v else om_find k r
  end.

(** [try_emplace(k, v)]: inserts in order, keeps an existing entry. *)
Fixpoint om_try_emplace (k : Z) (v : V) (m : list (Z * V)) : list (Z * V) :=
  match m with
  | [] => [(k, v)]
  | (k', v') :: r =>
      if before k k' then (k, v) :: m
      else if k =? k' then m
      else (k', v') :: om_try_emplace k v r
  end.

(** An update through a reference or iterator to the entry of key [k]. *)
Fixpoint om_alter (f : V -> V) (k : Z) (m : list (Z * V)) : list (Z * V) :=
  match m with
  | [] => []
  | (k', v) :: r => if k =? k' then (k', f v) :: r else (k', v) :: om_alter f k r
  end.

Fixpoint om_erase (k : Z) (m : list (Z * V)) : list (Z * V) :=
  match m with
  | [] => []
  | (k', v) :: r => if k =? k' then r else (k', v) :: om_erase k r
  end.

(** The iteration order agrees with the comparator. *)
Definition om_sorted (m : list (Z * V)) : Prop :=
  StronglySorted (fun a b => before a.1 b.1 = true) m.
End OrderedMap.

(** ** Tactics and hints *)

Create HintDb qsl.

(** Turn the conditionals of a translated function into cases, keeping the
    boolean equations for [lia]. *)
Ltac case_if :=
  match goal with
  | |- context [if ?b then _ else _] => destruct b eqn:?
  | H : context [if ?b then _ else _] |- _ => destruct b eqn:?
  end.
Ltac bool_cases := repeat (case_if; simplify_eq/=).

(** ** Loop rules *)

Section While.
Context {S : Type} (cond : S -> bool) (body : S -> S).

Lemma while_exits (m : S -> nat) :
  (forall s, cond s = true -> (m (body s) < m s)%nat) ->
  forall fuel s, (m s <= fuel)%nat -> cond (while fuel cond body s) = false.
Proof.
  intros Hdec fuel; induction fuel as [|fuel IH]; intros s Hm; simpl.
  - destruct (cond s) eqn:E; [|done]. specialize (Hdec s E). lia.
  - destruct (cond s) eqn:E; [|done]. apply IH. specialize (Hdec s E). lia.
Qed.

Lemma while_inv (P : S -> Prop) :
  (forall s, P s -> cond s = true -> P (body s)) ->
  forall fuel s, P s -> P (while fuel cond body s).
Proof.
  intros Hstep fuel; induction fuel as [|fuel IH]; intros s HP; simpl; [done|].
  destruct (cond s) eqn:E; auto.
Qed.

(** The bound with an invariant. *)
Lemma while_exits_inv (P : S -> Prop) (m : S -> nat) :
  (forall s, P s -> cond s = true -> P (body s) /\ (m (body s) < m s)%nat) ->
  forall fuel s, P s -> (m s <= fuel)%nat -> cond (while fuel cond body s) = false.
Proof.
  intros Hdec fuel; induction fuel as [|fuel IH]; intros s HP Hm; simpl.
  - destruct (cond s) eqn:E; [|done]. destruct (Hdec s HP E). lia.
  - destruct (cond s) eqn:E; [|done]. destruct (Hdec s HP E). apply IH; [done|lia].
Qed.

Lemma while_false fuel s : cond s = false -> while fuel cond body s = s.
Proof. intros E. destruct fuel; simpl; [done|]. by rewrite E. Qed.
End While.

(** Two loops in lockstep. *)
Lemma while_simulation {S T : Type} (R : S -> T -> Prop) cond body cond' body' :
  (forall s t, R s t -> cond s = cond' t /\ (cond s = true -> R (body s) (body' t))) ->
  forall fuel s t, R s t -> R (while fuel cond body s) (while fuel cond' body' t).
Proof.
  intros Hstep fuel; induction fuel as [|fuel IH]; intros s t HR; simpl; [done|].
  destruct (Hstep s t HR) as [Hc Hb]. rewrite <- Hc. destruct (cond s); auto.
Qed.

(** ** Ordered-map rules *)

Section OrderedMapRules.
Context {V : Type}.
Implicit Types m l r : list (Z * V).

Lemma om_find_Some k m v : om_find k m = Some v -> exists l r, m = l ++ (k, v) :: r /\ om_find k l = None.
Proof.
  induction m as [|[k' v'] m IH]; simpl; [done|]. case_if; intros H; simplify_eq.
  - apply Z.eqb_eq in Heqb as ->. by exists [], m.
  - destruct (IH H) as (l & r & -> & Hl). exists ((k', v') :: l), r. simpl. by rewrite Heqb.
Qed.

Lemma om_find_None k m : om_find k m = None <-> k ∉ m.*1.
Proof.
  induction m as [|[k' v'] m IH]; simpl; [set_solver|].
  destruct (Z.eqb_spec k k') as [->|Hne]; [set_solver|]. rewrite IH. set_solver.
Qed.

Lemma om_find_app_None k l r : om_find k l = None -> om_find k (l ++ r) = om_find k r.
Proof. induction l as [|[k' v'] l IH]; simpl; [done|]. by case_if. Qed.

Lemma om_alter_app_None f k l r : om_find k l = None -> om_alter f k (l ++ r) = l ++ om_alter f k r.
Proof. induction l as [|[k' v'] l IH]; simpl; [done|]. case_if; [done|]. intros; by rewrite IH. Qed.

Lemma om_erase_app_None k l r : om_find k l = None -> om_erase k (l ++ r) = l ++ om_erase k r.
Proof. induction l as [|[k' v'] l IH]; simpl; [done|]. case_if; [done|]. intros; by rewrite IH. Qed.
End OrderedMapRules.

#[export] Hint Rewrite @om_find_app_None @om_alter_app_None @om_erase_app_None using assumption : qsl.

(** ** Lists *)

Lemma sublist_map {A B} (f : A -> B) l k : sublist l k -> sublist (map f l) (map f k).
Proof. induction 1; simpl; by constructor. Qed.

(** Elements of a list are determined by a key without duplicates. *)
Lemma NoDup_map_inj {A B} (f : A -> B) l x y :
  NoDup (map f l) -> x ∈ l -> y ∈ l -> f x = f y -> x = y.
Proof.
  induction l as [|z l IH]; [set_solver|]. simpl. intros [Hz Hn]%NoDup_cons.
  intros [->|Hx]%elem_of_cons [->|Hy]%elem_of_cons Heq; [done|..|auto]; exfalso; apply Hz.
  - rewrite Heq. by apply (list_elem_of_fmap_2 f).
  - rewrite <- Heq. by apply (list_elem_of_fmap_2 f).
Qed.

(** ** More on ordered maps *)

Section OrderedMapLemmas.
Context {V V' : Type}.
Implicit Types m : list (Z * V).

(** [om_map f m] applies [f] to every value. *)
Definition om_map (f : V -> V') m : list (Z * V') := map (fun e => (e.1, f e.2)) m.

Lemma om_map_keys (f : V -> V') m : (om_map f m).*1 = m.*1.
Proof. change (map fst (om_map f m) = map fst m). unfold om_map. by rewrite map_map. Qed.

Lemma om_find_map (f : V -> V') k m : om_find k (om_map f m) = f <$> om_find k m.
Proof. induction m as [|[k' v] m IH]; simpl; [done|]. by case_if. Qed.

Lemma om_alter_map (f : V -> V') g g' k m :
  (forall v, f (g v) = g' (f v)) -> om_map f (om_alter g k m) = om_alter g' k (om_map f m).
Proof.
  intros Hg. induction m as [|[k' v] m IH]; simpl; [done|]. case_if; simpl; [by rewrite Hg|].
  by rewrite IH.
Qed.

Lemma om_try_emplace_map before (f : V -> V') k v m :
  om_map f (om_try_emplace before k v m) = om_try_emplace before k (f v) (om_map f m).
Proof.
  induction m as [|[k' v'] m IH]; simpl; [done|]. case_if; simpl; [done|]. case_if; simpl; [done|].
  by rewrite IH.
Qed.

Lemma om_erase_map (f : V -> V') k m : om_map f (om_erase k m) = om_erase k (om_map f m).
Proof. induction m as [|[k' v] m IH]; simpl; [done|]. case_if; simpl; [done|]. by rewrite IH. Qed.

Lemma om_map_app (f : V -> V') l r : om_map f (l ++ r) = om_map f l ++ om_map f r.
Proof. apply map_app. Qed.
Lemma om_map_cons (f : V -> V') k v m : om_map f ((k, v) :: m) = (k, f v) :: om_map f m.
Proof. done. Qed.

Lemma om_alter_keys f k m : (om_alter f k m).*1 = m.*1.
Proof. induction m as [|[k' v] m IH]; [done|]. cbn [om_alter]. case_if; [done|]. csimpl. by rewrite IH. Qed.

Lemma om_sorted_keys before m : om_sorted before m <-> StronglySorted (fun a b => before a b = true) m.*1.
Proof.
  unfold om_sorted. induction m as [|[k v] m IH]; [split; constructor|].
  csimpl. split; intros Hs; apply StronglySorted_inv in Hs as [Hs Hf];
    (constructor; [tauto|]); apply Forall_forall.
  - intros y Hy. apply list_elem_of_fmap in Hy as (e & -> & He). rewrite Forall_forall in Hf. by apply (Hf e).
  - intros e He. rewrite Forall_forall in Hf. apply Hf. by apply (list_elem_of_fmap_2 fst).
Qed.

Lemma om_find_alter_eq f k m : om_find k (om_alter f k m) = f <$> om_find k m.
Proof.
  induction m as [|[k' v] m IH]; simpl; [done|]. destruct (k =? k') eqn:E; simpl; rewrite E; done.
Qed.
Lemma om_find_alter_ne f k k' m : k <> k' -> om_find k' (om_alter f k m) = om_find k' m.
Proof.
  intros Hne. induction m as [|[k1 v] m IH]; simpl; [done|]. destruct (Z.eqb_spec k k1) as [->|]; simpl.
  - by rewrite (proj2 (Z.eqb_neq k' k1)) by done.
  - by rewrite IH.
Qed.

Lemma om_alter_Forall (P : V -> Prop) f k m :
  Forall (fun e => P e.2) m -> (forall v, om_find k m = Some v -> P v -> P (f v)) ->
  Forall (fun e => P e.2) (om_alter f k m).
Proof.
  intros Hm Hf. induction m as [|[k' v] m IH]; simpl; [constructor|].
  apply Forall_cons in Hm as [Hv Hm]. simpl in Hf. destruct (k =? k'); constructor; auto.
  simpl. by apply Hf.
Qed.

Lemma om_try_emplace_Forall before (P : V -> Prop) k v m :
  Forall (fun e => P e.2) m -> P v -> Forall (fun e => P e.2) (om_try_emplace before k v m).
Proof.
  intros Hm Hv. induction m as [|[k' v'] m IH]; simpl; [by repeat constructor|].
  apply Forall_cons in Hm as [Hv' Hm]. repeat case_if; repeat constructor; auto.
Qed.

Lemma om_try_emplace_keys before k v m k' :
  k' ∈ (om_try_emplace before k v m).*1 <-> k' = k \/ k' ∈ m.*1.
Proof.
  induction m as [|[k1 v1] m IH]; simpl; [set_solver|]. case_if; simpl; [set_solver|].
  destruct (Z.eqb_spec k k1) as [->|]; simpl; set_solver.
Qed.
End OrderedMapLemmas.

(** [try_emplace] keeps a map sorted by a strict total order. *)
Lemma om_try_emplace_sorted {V} before k (v : V) m :
  (forall a b c, before a b = true -> before b c = true -> before a c = true) ->
  (forall a b, before a b = false -> a <> b -> before b a = true) ->
  om_sorted before m -> om_sorted before (om_try_emplace before k v m).
Proof.
  intros Htr Htot Hs. unfold om_sorted in *. induction Hs as [|[k' v'] m Hs IH Hf]; simpl; [by repeat constructor|].
  destruct (before k k') eqn:E1; [|destruct (Z.eqb_spec k k') as [->|Hne]].
  - constructor; [by constructor|]. constructor; [done|]. eapply Forall_impl; [exact Hf|].
    intros e He. by eapply Htr.
  - by constructor.
  - constructor; [done|]. rewrite Forall_forall in *. intros e He.
    apply (list_elem_of_fmap_2 fst), om_try_emplace_keys in He as [He|He].
    + simpl. rewrite He. by apply Htot.
    + apply list_elem_of_fmap in He as (e' & -> & He). by apply (Hf e').
Qed.

Lemma om_find_try_emplace {V} before k (v : V) m k' :
  (forall a, before a a = false) ->
  (forall a b c, before a b = true -> before b c = true -> before a c = true) ->
  om_sorted before m ->
  om_find k' (om_try_emplace before k v m) =
    if k' =? k then Some (default v (om_find k m)) else om_find k' m.
Proof.
  intros Hirr Htr Hs. unfold om_sorted in Hs. induction Hs as [|[k1 v1] m Hs IH Hf].
  { simpl. by destruct (k' =? k). }
  cbn [om_try_emplace om_find]. destruct (before k k1) eqn:E1.
  - cbn [om_find]. destruct (Z.eqb_spec k' k) as [->|]; [|done].
    change (Some v = Some (default v (om_find k ((k1, v1) :: m)))).
    rewrite (proj2 (om_find_None k ((k1, v1) :: m))); [done|]. intros Hin. apply list_elem_of_fmap in Hin as ([k2 v2] & -> & Hin).
    simpl in *. apply elem_of_cons in Hin as [Heq|Hin]; [simplify_eq; by rewrite Hirr in E1|].
    rewrite Forall_forall in Hf. specialize (Hf _ Hin). simpl in Hf.
    specialize (Hirr k2). by rewrite (Htr _ _ _ E1 Hf) in Hirr.
  - destruct (Z.eqb_spec k k1) as [->|Hne]; cbn [om_find].
    + by destruct (Z.eqb_spec k' k1) as [->|].
    + rewrite IH. destruct (Z.eqb_spec k' k1) as [->|]; [|done].
      by replace (k1 =? k) with false by lia.
Qed.

(** ** Numberings *)

Lemma seqZ_sorted n : forall m, StronglySorted Z.lt (m :: seqZ (m + 1) (Z.of_nat n)).
Proof.
  induction n as [|n IH]; intros m; [by repeat constructor|]. rewrite seqZ_cons by lia. replace (Z.pred (Z.of_nat (S n))) with (Z.of_nat n) by lia.
  specialize (IH (m + 1)). replace (Z.succ (m + 1)) with (m + 1 + 1) by lia. constructor; [done|]. inv IH. constructor; [lia|].
  eapply Forall_impl; [eassumption|]. cbn. lia.
Qed.
