(* ===== verification/Core.v ===== *)
(** * Core: the domain types of [qsl::core]

    Translates include/qsl/core (types.hpp, result.hpp, invariants.hpp,
    clock.hpp) and src/core/types.cpp.

    A C++ [enum class] over [std::uint8_t] can hold any byte: [static_cast]
    makes values that are not enumerators, and the code tests for them with
    [is_valid].  Each enumeration therefore has one constructor per enumerator
    and one, [..Raw v], for every other value of the underlying type. *)
From S2P Require Import Prelude.

(** ** types.hpp *)

Abbreviation SymbolId := Z (only parsing).
Abbreviation Price := Z (only parsing).
Abbreviation Quantity := Z (only parsing).
Abbreviation QuantityTotal := Z (only parsing).
Abbreviation OrderId := Z (only parsing).
Abbreviation SeqNo := Z (only parsing).
Abbreviation Timestamp := Z (only parsing).

Definition kTickScale : Z := 100.

Inductive Side := Buy | Sell | SideRaw (v : Z).
Inductive OrderType := Limit | Market | OrderTypeRaw (v : Z).
Inductive TimeInForce := GTC | IOC | TimeInForceRaw (v : Z).

#[export] Instance Side_eq_dec : EqDecision Side.
Proof. solve_decision. Defined.
#[export] Instance OrderType_eq_dec : EqDecision OrderType.
Proof. solve_decision. Defined.
#[export] Instance TimeInForce_eq_dec : EqDecision TimeInForce.
Proof. solve_decision. Defined.

(** The conversions to and from the underlying byte. *)
Definition byte_of_side (s : Side) : Z :=
  match s with Buy => 0 | Sell => 1 | SideRaw v => v end.
Definition side_of_byte (v : Z) : Side :=
  if v =? 0 then Buy else if v =? 1 then Sell else SideRaw v.
Definition byte_of_order_type (t : OrderType) : Z :=
  match t with Limit => 0 | Market => 1 | OrderTypeRaw v => v end.
Definition order_type_of_byte (v : Z) : OrderType :=
  if v =? 0 then Limit else if v =? 1 then Market else OrderTypeRaw v.
Definition byte_of_tif (t : TimeInForce) : Z :=
  match t with GTC => 0 | IOC => 1 | TimeInForceRaw v => v end.
Definition tif_of_byte (v : Z) : TimeInForce :=
  if v =? 0 then GTC else if v =? 1 then IOC else TimeInForceRaw v.

Definition is_valid_side (s : Side) : bool :=
  bool_decide (s = Buy) || bool_decide (s = Sell).
Definition is_valid_order_type (t : OrderType) : bool :=
  bool_decide (t = Limit) || bool_decide (t = Market).
Definition is_valid_tif (t : TimeInForce) : bool :=
  bool_decide (t = GTC) || bool_decide (t = IOC).

Definition side_to_string (s : Side) : string :=
  match s with Buy => "Buy" | Sell => "Sell" | SideRaw _ => "Unknown" end.
Definition order_type_to_string (t : OrderType) : string :=
  match t with Limit => "Limit" | Market => "Market" | OrderTypeRaw _ => "Unknown" end.
Definition tif_to_string (t : TimeInForce) : string :=
  match t with GTC => "GTC" | IOC => "IOC" | TimeInForceRaw _ => "Unknown" end.

(** ** types.cpp *)

Definition version : string := "0.1.0".

(** ** result.hpp *)

Inductive RejectReason :=
| ReasonNone
| UnknownSymbol
| InvalidPrice
| InvalidQuantity
| InvalidSide
| MaxQuantityExceeded
| MaxNotionalExceeded
| DuplicateOrderId
| UnknownOrder
| StorageExhausted
| RejectReasonRaw (v : Z).

#[export] Instance RejectReason_eq_dec : EqDecision RejectReason.
Proof. solve_decision. Defined.

Definition byte_of_reason (r : RejectReason) : Z :=
  match r with
  | ReasonNone => 0 | UnknownSymbol => 1 | InvalidPrice => 2 | InvalidQuantity => 3
  | InvalidSide => 4 | MaxQuantityExceeded => 5 | MaxNotionalExceeded => 6
  | DuplicateOrderId => 7 | UnknownOrder => 8 | StorageExhausted => 9
  | RejectReasonRaw v => v
  end.
Definition reason_of_byte (v : Z) : RejectReason :=
  match v with
  | 0 => ReasonNone | 1 => UnknownSymbol | 2 => InvalidPrice | 3 => InvalidQuantity
  | 4 => InvalidSide | 5 => MaxQuantityExceeded | 6 => MaxNotionalExceeded
  | 7 => DuplicateOrderId | 8 => UnknownOrder | 9 => StorageExhausted
  | _ => RejectReasonRaw v
  end.

Definition reason_to_string (r : RejectReason) : string :=
  match r with
  | ReasonNone => "None"
  | UnknownSymbol => "UnknownSymbol"
  | InvalidPrice => "InvalidPrice"
  | InvalidQuantity => "InvalidQuantity"
  | InvalidSide => "InvalidSide"
  | MaxQuantityExceeded => "MaxQuantityExceeded"
  | MaxNotionalExceeded => "MaxNotionalExceeded"
  | DuplicateOrderId => "DuplicateOrderId"
  | UnknownOrder => "UnknownOrder"
  | StorageExhausted => "StorageExhausted"
  | RejectReasonRaw _ => "Unknown"
  end.

Definition is_valid_reason (r : RejectReason) : bool :=
  byte_of_reason r <=? byte_of_reason StorageExhausted.

Record Result := mkResult { ok : bool; reason : RejectReason }.
Definition success : Result := mkResult true ReasonNone.
Definition reject (r : RejectReason) : Result := mkResult false r.

(** ** invariants.hpp *)

Definition is_valid_price (p : Price) : bool := 0 <? p.
Definition is_valid_quantity (q : Quantity) : bool := 0 <? q.

Definition validate_limit (price : Price) (qty : Quantity) : Result :=
  if negb (is_valid_price price) then reject InvalidPrice
  else if negb (is_valid_quantity qty) then reject InvalidQuantity
  else success.

(** ** clock.hpp *)

Record LogicalClock := mkLogicalClock { time_ : Timestamp }.
Definition now (c : LogicalClock) : Timestamp := time_ c.
Definition tick (c : LogicalClock) : Timestamp * LogicalClock :=
  let t := u64 (time_ c + 1) in (t, mkLogicalClock t).
Definition advance (c : LogicalClock) (by_ : Timestamp) : LogicalClock :=
  mkLogicalClock (u64 (time_ c + by_)).

(** ** Facts about the enumerations *)

Lemma side_of_byte_of_side s : is_valid_side s = true -> side_of_byte (byte_of_side s) = s.
Proof. by destruct s. Qed.
Lemma order_type_of_byte_of_type t :
  is_valid_order_type t = true -> order_type_of_byte (byte_of_order_type t) = t.
Proof. by destruct t. Qed.
Lemma tif_of_byte_of_tif t : is_valid_tif t = true -> tif_of_byte (byte_of_tif t) = t.
Proof. by destruct t. Qed.

Lemma byte_of_side_range s : is_valid_side s = true -> in_u8 (byte_of_side s).
Proof. destruct s; try done; intros _; unfold in_u8; simpl; lia. Qed.
Lemma byte_of_order_type_range t : is_valid_order_type t = true -> in_u8 (byte_of_order_type t).
Proof. destruct t; try done; intros _; unfold in_u8; simpl; lia. Qed.
Lemma byte_of_tif_range t : is_valid_tif t = true -> in_u8 (byte_of_tif t).
Proof. destruct t; try done; intros _; unfold in_u8; simpl; lia. Qed.

#[export] Hint Resolve byte_of_side_range byte_of_order_type_range byte_of_tif_range : qsl.

(** A byte that decodes to an enumerator is that enumerator's byte. *)
Lemma byte_of_side_of_byte v : is_valid_side (side_of_byte v) = true -> byte_of_side (side_of_byte v) = v.
Proof. unfold side_of_byte. destruct (Z.eqb_spec v 0); [done|]. by destruct (Z.eqb_spec v 1). Qed.
Lemma byte_of_order_type_of_byte v :
  is_valid_order_type (order_type_of_byte v) = true -> byte_of_order_type (order_type_of_byte v) = v.
Proof. unfold order_type_of_byte. destruct (Z.eqb_spec v 0); [done|]. by destruct (Z.eqb_spec v 1). Qed.
Lemma byte_of_tif_of_byte v : is_valid_tif (tif_of_byte v) = true -> byte_of_tif (tif_of_byte v) = v.
Proof. unfold tif_of_byte. destruct (Z.eqb_spec v 0); [done|]. by destruct (Z.eqb_spec v 1). Qed.
