(* ===== verification/Endian.v ===== *)
(** * Endian: big-endian integers in byte buffers

    include/qsl/protocol/endian.hpp.  A buffer ([std::vector<std::byte>] or a
    span of it) is the list of its bytes as integers; a pointer into it is an
    offset.  Every caller checks the size first, so reads and writes stay in
    range; [byte_at] is 0 outside. *)
From S2P Require Import Prelude.

Abbreviation bytes := (list Z) (only parsing).

Definition byte_at (buf : bytes) (i : nat) : Z := default 0 (buf !! i).

(** [p[i] = static_cast<std::byte>(b)]. *)
Definition set_byte (buf : bytes) (i : nat) (b : Z) : bytes := <[i := u8 b]> buf.

(** One iteration of the store loop: the low byte, then the shift. *)
Definition store_byte (w off : nat) (s : bytes * Z) (i : nat) : bytes * Z :=
  let '(buf, v) := s in
  (<[(off + (w - 1 - i))%nat := u8 v]> buf, wrap (8 * Z.of_nat w) (Z.shiftr v 8)).

Definition store_be (w : nat) (buf : bytes) (off : nat) (v : Z) : bytes :=
  (fold_left (store_byte w off) (seq 0 w) (buf, v)).1.

Definition load_be (w : nat) (buf : bytes) (off : nat) : Z :=
  fold_left (fun v i => wrap (8 * Z.of_nat w) (Z.lor (Z.shiftl v 8) (byte_at buf (off + i)%nat)))
    (seq 0 w) 0.

(** A buffer of [n] zero bytes, [std::vector<std::byte> buf(n)]. *)
Definition zeros (n : nat) : bytes := replicate n 0.

(** ** Store *)

Lemma store_loop_spec w off n : forall i buf v,
  (i + n <= w)%nat -> (off + w <= length buf)%nat -> 0 <= v < 2 ^ (8 * Z.of_nat w) ->
  let r := (fold_left (store_byte w off) (seq i n) (buf, v)).1 in
  length r = length buf /\
  forall j, r !! j =
    if decide (off + (w - i - n) <= j < off + (w - i))%nat
    then Some (u8 (Z.shiftr v (8 * Z.of_nat (off + (w - 1 - i) - j))))
    else buf !! j.
Proof.
  induction n as [|n IH]; intros i buf v Hi Hlen Hv; cbn [seq fold_left].
  { split; [done|]. intros j. by rewrite decide_False by lia. }
  cbn [store_byte].
  assert (0 <= Z.shiftr v 8 < 2 ^ (8 * Z.of_nat w)) as Hv'.
  { rewrite Z.shiftr_div_pow2 by lia. change (2 ^ 8) with 256. split; [apply Z.div_pos; lia|].
    apply Z.div_lt_upper_bound; lia. }
  assert (wrap (8 * Z.of_nat w) (Z.shiftr v 8) = Z.shiftr v 8) as -> by (apply Z.mod_small; lia).
  destruct (IH (S i) (<[(off + (w - 1 - i))%nat:=u8 v]> buf) (Z.shiftr v 8)) as [Hl Hj];
    [lia|rewrite length_insert; lia|done|].
  split; [by rewrite Hl, length_insert|]. intros j. rewrite Hj.
  destruct (decide (j = off + (w - 1 - i))%nat) as [->|Hne].
  - rewrite decide_False, decide_True by lia. rewrite list_lookup_insert_eq by lia. do 2 f_equal.
    rewrite Nat.sub_diag. by rewrite Z.shiftr_0_r.
  - rewrite list_lookup_insert_ne by done. repeat case_decide; try lia; [|done].
    rewrite Z.shiftr_shiftr by lia. do 3 f_equal. lia.
Qed.

Lemma store_be_spec w off buf v :
  (off + w <= length buf)%nat -> 0 <= v < 2 ^ (8 * Z.of_nat w) ->
  length (store_be w buf off v) = length buf /\
  forall j, store_be w buf off v !! j =
    if decide (off <= j < off + w)%nat
    then Some (u8 (Z.shiftr v (8 * Z.of_nat (off + (w - 1) - j))))
    else buf !! j.
Proof.
  intros Hlen Hv. destruct (store_loop_spec w off w 0 buf v) as [Hl Hj]; [lia|done|done|].
  split; [done|]. intros j. unfold store_be. rewrite Hj.
  replace (off + (w - 0 - w))%nat with off by lia. replace (off + (w - 0))%nat with (off + w)%nat by lia.
  by replace (w - 1 - 0)%nat with (w - 1)%nat by lia.
Qed.

Lemma length_store_loop w off l : forall s, length (fold_left (store_byte w off) l s).1 = length s.1.
Proof.
  induction l as [|i l IH]; intros [buf v]; [done|]. cbn [fold_left store_byte].
  rewrite IH. apply length_insert.
Qed.

Lemma length_store_be w buf off v : length (store_be w buf off v) = length buf.
Proof. apply length_store_loop. Qed.

Lemma length_set_byte buf i b : length (set_byte buf i b) = length buf.
Proof. apply length_insert. Qed.

Lemma length_zeros n : length (zeros n) = n.
Proof. apply length_replicate. Qed.

(** ** Load *)

Lemma load_be_ext w buf buf' off off' :
  (forall i, (i < w)%nat -> byte_at buf (off + i) = byte_at buf' (off' + i)) ->
  load_be w buf off = load_be w buf' off'.
Proof.
  intros H. unfold load_be. assert (Forall (fun i => i < w)%nat (seq 0 w)) as Hs.
  { apply Forall_forall. intros i Hi. apply elem_of_seq in Hi. lia. }
  revert Hs. generalize (seq 0 w), 0. intros l. induction l as [|i l IH]; intros v Hs; [done|].
  apply Forall_cons in Hs as [Hi Hs]. cbn [fold_left]. rewrite (H i Hi). by apply IH.
Qed.

Lemma load_be_range w buf off : 0 <= load_be w buf off < 2 ^ (8 * Z.of_nat w).
Proof.
  unfold load_be. assert (0 < 2 ^ (8 * Z.of_nat w)) as Hp by (apply Z.pow_pos_nonneg; lia).
  assert (forall l v, 0 <= v < 2 ^ (8 * Z.of_nat w) ->
    0 <= fold_left (fun v i => wrap (8 * Z.of_nat w) (Z.lor (Z.shiftl v 8) (byte_at buf (off + i)%nat)))
      l v < 2 ^ (8 * Z.of_nat w)) as Hl.
  { induction l as [|i l IH]; intros v Hv; [done|]. cbn [fold_left]. apply IH.
    unfold wrap. by apply Z.mod_pos_bound. }
  apply Hl. lia.
Qed.

(** Reassembling a value from its bytes, most significant first. *)
Lemma shift_or_byte x : 0 <= x -> Z.lor (Z.shiftl (Z.shiftr x 8) 8) (u8 x) = x.
Proof.
  intros Hx. apply Z.bits_inj'. intros n Hn. rewrite Z.lor_spec. unfold u8, wrap.
  destruct (Z.ltb_spec n 8).
  - rewrite Z.shiftl_spec_low by lia. by rewrite Z.mod_pow2_bits_low by lia.
  - rewrite Z.shiftl_spec by lia. rewrite Z.shiftr_spec by lia.
    rewrite Z.mod_pow2_bits_high by lia. rewrite orb_false_r. f_equal. lia.
Qed.

Lemma load_loop_value w buf off v n : forall i,
  0 <= v < 2 ^ (8 * Z.of_nat w) -> (i + n = w)%nat ->
  (forall k, (k < w)%nat -> byte_at buf (off + k) = u8 (Z.shiftr v (8 * Z.of_nat (w - 1 - k)))) ->
  fold_left (fun v i => wrap (8 * Z.of_nat w) (Z.lor (Z.shiftl v 8) (byte_at buf (off + i)%nat)))
    (seq i n) (Z.shiftr v (8 * Z.of_nat (w - i))) = v.
Proof.
  induction n as [|n IH]; intros i Hv Hi Hb; cbn [seq fold_left].
  { replace (w - i)%nat with O by lia. by rewrite Z.shiftr_0_r. }
  rewrite (Hb i) by lia.
  replace (8 * Z.of_nat (w - i)) with (8 * Z.of_nat (w - 1 - i) + 8) by lia.
  rewrite <- Z.shiftr_shiftr by lia. rewrite shift_or_byte by (apply Z.shiftr_nonneg; lia).
  replace (wrap _ _) with (Z.shiftr v (8 * Z.of_nat (w - 1 - i))).
  - replace (w - 1 - i)%nat with (w - S i)%nat by lia. apply IH; [done|lia|done].
  - symmetry. apply Z.mod_small. split; [apply Z.shiftr_nonneg; lia|].
    rewrite Z.shiftr_div_pow2 by lia. eapply Z.le_lt_trans; [|apply Hv].
    apply Z.div_le_upper_bound; [apply Z.pow_pos_nonneg; lia|].
    assert (0 < 2 ^ (8 * Z.of_nat (w - 1 - i))) by (apply Z.pow_pos_nonneg; lia). nia.
Qed.

Lemma load_store_eq w buf off v :
  (off + w <= length buf)%nat -> 0 <= v < 2 ^ (8 * Z.of_nat w) ->
  load_be w (store_be w buf off v) off = v.
Proof.
  intros Hlen Hv. destruct (store_be_spec w off buf v Hlen Hv) as [_ Hj].
  pose proof (load_loop_value w (store_be w buf off v) off v w 0 Hv eq_refl) as H.
  replace (Z.shiftr v (8 * Z.of_nat (w - 0))) with 0 in H.
  - apply H. intros k Hk. unfold byte_at. rewrite Hj, decide_True by lia. simpl.
    do 3 f_equal. lia.
  - symmetry. replace (w - 0)%nat with w by lia. rewrite Z.shiftr_div_pow2 by lia. by apply Z.div_small.
Qed.

Lemma byte_at_store_ne w buf off v j :
  (j < off \/ off + w <= j)%nat -> byte_at (store_be w buf off v) j = byte_at buf j.
Proof.
  intros Hd. unfold store_be, byte_at. f_equal. assert (Forall (fun i => i < w)%nat (seq 0 w)) as Hs.
  { apply Forall_forall. intros i Hi. apply elem_of_seq in Hi. lia. }
  revert buf v Hs. induction (seq 0 w) as [|i l IH]; intros buf v Hs; [done|].
  apply Forall_cons in Hs as [Hi Hs]. cbn [fold_left store_byte]. rewrite IH by done.
  apply list_lookup_insert_ne. lia.
Qed.

Lemma load_store_ne w w' buf off off' v :
  (off' + w' <= off \/ off + w <= off')%nat ->
  load_be w' (store_be w buf off v) off' = load_be w' buf off'.
Proof. intros Hd. apply load_be_ext. intros i Hi. apply byte_at_store_ne. lia. Qed.

Lemma load_set_byte_ne w buf off i b :
  (off + w <= i \/ i < off)%nat -> load_be w (set_byte buf i b) off = load_be w buf off.
Proof.
  intros Hd. apply load_be_ext. intros k Hk. unfold byte_at, set_byte.
  rewrite list_lookup_insert_ne; [done|lia].
Qed.

Lemma byte_at_set_eq buf i b : (i < length buf)%nat -> byte_at (set_byte buf i b) i = u8 b.
Proof. intros Hi. unfold byte_at, set_byte. by rewrite list_lookup_insert_eq. Qed.
Lemma byte_at_set_ne buf i j b : i <> j -> byte_at (set_byte buf i b) j = byte_at buf j.
Proof. intros Hi. unfold byte_at, set_byte. by rewrite list_lookup_insert_ne. Qed.

Lemma u8_small b : in_u8 b -> u8 b = b.
Proof. intros Hb. apply Z.mod_small. exact Hb. Qed.

(** Signed 64-bit fields travel as their unsigned representation. *)
Lemma i64_u64 p : in_i64 p -> i64_of_u64 (u64 p) = p.
Proof.
  unfold in_i64, i64_of_u64, u64, wrap. intros Hp. destruct (Z.ltb_spec p 0).
  - replace (p mod 2 ^ 64) with (p + 2 ^ 64).
    + destruct (Z.ltb_spec (p + 2 ^ 64) (2 ^ 63)); lia.
    + rewrite <- (Z.mod_small (p + 2 ^ 64) (2 ^ 64)) by lia.
      rewrite <- (Z_mod_plus_full p 1 (2 ^ 64)). f_equal.
  - rewrite Z.mod_small by lia. destruct (Z.ltb_spec p (2 ^ 63)); lia.
Qed.

Lemma u64_range p : 0 <= u64 p < 2 ^ 64.
Proof. by apply Z.mod_pos_bound. Qed.

(** ** Appending behind a frame *)

Lemma byte_at_app_l buf buf' j : (j < length buf)%nat -> byte_at (buf ++ buf') j = byte_at buf j.
Proof. intros Hj. unfold byte_at. by rewrite lookup_app_l. Qed.

Lemma load_be_app_l w buf buf' off :
  (off + w <= length buf)%nat -> load_be w (buf ++ buf') off = load_be w buf off.
Proof. intros Hl. apply load_be_ext. intros i Hi. apply byte_at_app_l. lia. Qed.

Lemma load_be_drop w buf n off : load_be w (drop n buf) off = load_be w buf (n + off).
Proof.
  apply load_be_ext. intros i Hi. unfold byte_at. rewrite lookup_drop. do 2 f_equal. lia.
Qed.

Lemma store_be_app_r w buf buf' off v :
  store_be w (buf ++ buf') (length buf + off) v = buf ++ store_be w buf' off v.
Proof.
  unfold store_be. revert buf' v. induction (seq 0 w) as [|i l IH]; intros buf' v; [done|].
  cbn [fold_left store_byte]. rewrite <- IH. do 4 f_equal.
  rewrite insert_app_r_alt by lia. do 2 f_equal. lia.
Qed.

Lemma load_be_app_r w buf buf' off : load_be w (buf ++ buf') (length buf + off) = load_be w buf' off.
Proof.
  apply load_be_ext. intros i Hi. unfold byte_at. rewrite lookup_app_r by lia. do 2 f_equal. lia.
Qed.

(** ** Writing back what was read *)

Definition bytes_ok (buf : bytes) : Prop := Forall in_u8 buf.

Lemma byte_at_range buf i : bytes_ok buf -> in_u8 (byte_at buf i).
Proof.
  intros Hok. unfold byte_at. destruct (buf !! i) as [b|] eqn:E; [|done].
  simpl. by eapply Forall_lookup_1.
Qed.

Lemma shiftl_or_byte v b : 0 <= v -> in_u8 b -> Z.lor (Z.shiftl v 8) b = v * 256 + b.
Proof.
  unfold in_u8. intros Hv Hb. assert (Z.land (Z.shiftl v 8) b = 0) as Hl.
  { apply Z.bits_inj'. intros n Hn. rewrite Z.land_spec, Z.bits_0. destruct (Z.ltb_spec n 8).
    - by rewrite Z.shiftl_spec_low.
    - rewrite (Z.bits_above_log2 b n), andb_false_r; [done|lia|].
      destruct (Z.eq_dec b 0) as [->|]; [simpl; lia|]. apply Z.log2_lt_pow2; [lia|].
      eapply Z.lt_le_trans; [apply Hb|]. apply Z.pow_le_mono_r; lia. }
  rewrite <- Z.add_nocarry_lor by done. by rewrite Z.shiftl_mul_pow2.
Qed.

(** The value of the first [n] bytes, and each byte out of it again. *)
Lemma load_loop_bytes w buf off n :
  bytes_ok buf -> (n <= w)%nat ->
  let v := fold_left (fun v i => wrap (8 * Z.of_nat w) (Z.lor (Z.shiftl v 8) (byte_at buf (off + i)%nat)))
             (seq 0 n) 0 in
  0 <= v < 2 ^ (8 * Z.of_nat n) /\
  forall i, (i < n)%nat -> u8 (Z.shiftr v (8 * Z.of_nat (n - 1 - i))) = byte_at buf (off + i).
Proof.
  intros Hok. induction n as [|n IH]; intros Hn; [split; [simpl; lia|lia]|].
  rewrite seq_S, fold_left_app. cbn [fold_left Nat.add]. destruct (IH ltac:(lia)) as [Hv Hb].
  set (v := fold_left _ (seq 0 n) 0) in *. pose proof (byte_at_range buf (off + n) Hok) as Hx.
  set (b := byte_at buf (off + n)) in *. rewrite shiftl_or_byte by (done || lia). unfold in_u8 in Hx.
  assert (2 ^ (8 * Z.of_nat (S n)) = 256 * 2 ^ (8 * Z.of_nat n)) as Hp.
  { replace (8 * Z.of_nat (S n)) with (8 + 8 * Z.of_nat n) by lia. by rewrite Z.pow_add_r by lia. }
  assert (2 ^ (8 * Z.of_nat (S n)) <= 2 ^ (8 * Z.of_nat w)) as Hle by (apply Z.pow_le_mono_r; lia).
  assert (wrap (8 * Z.of_nat w) (v * 256 + b) = v * 256 + b) as -> by (apply Z.mod_small; lia).
  split; [lia|]. intros i Hi. destruct (decide (i = n)) as [->|Hne].
  - replace (S n - 1 - n)%nat with O by lia. rewrite Z.shiftr_0_r. unfold u8, wrap.
    rewrite Z.add_comm, Z.mod_add by lia. apply Z.mod_small. lia.
  - rewrite <- Hb by lia. replace (8 * Z.of_nat (S n - 1 - i)) with (8 + 8 * Z.of_nat (n - 1 - i)) by lia.
    rewrite <- Z.shiftr_shiftr by lia. do 2 f_equal. rewrite Z.shiftr_div_pow2 by lia.
    change (2 ^ 8) with 256. rewrite Z.div_add_l by lia. rewrite Z.div_small by lia. lia.
Qed.

Lemma byte_at_store_load w buf frame off j :
  bytes_ok frame -> (off + w <= length buf)%nat -> (off <= j < off + w)%nat ->
  byte_at (store_be w buf off (load_be w frame off)) j = byte_at frame j.
Proof.
  intros Hok Hlen Hj. destruct (store_be_spec w off buf (load_be w frame off) Hlen (load_be_range _ _ _)) as [_ Hs].
  unfold byte_at at 1. rewrite Hs, decide_True by lia. simpl.
  destruct (load_loop_bytes w frame off w Hok ltac:(lia)) as [_ Hb].
  replace (byte_at frame j) with (byte_at frame (off + (j - off))) by (f_equal; lia).
  rewrite <- Hb by lia. unfold load_be. do 3 f_equal. lia.
Qed.

(** [buf] holds the first [n] bytes of [frame]. *)
Definition agrees (buf frame : bytes) (n : nat) : Prop :=
  forall j, (j < n)%nat -> byte_at buf j = byte_at frame j.

Lemma agrees_store w buf frame off v :
  bytes_ok frame -> (off + w <= length buf)%nat -> v = load_be w frame off ->
  agrees buf frame off -> agrees (store_be w buf off v) frame (off + w).
Proof.
  intros Hok Hlen -> Ha j Hj. destruct (decide (off <= j)%nat).
  - by apply byte_at_store_load; [..|lia].
  - rewrite byte_at_store_ne by lia. apply Ha. lia.
Qed.

Lemma agrees_set_byte buf frame i b :
  bytes_ok frame -> (i < length buf)%nat -> b = byte_at frame i ->
  agrees buf frame i -> agrees (set_byte buf i b) frame (i + 1).
Proof.
  intros Hok Hlen -> Ha j Hj. destruct (decide (j = i)) as [->|].
  - rewrite byte_at_set_eq by done. apply u8_small, byte_at_range, Hok.
  - rewrite byte_at_set_ne by done. apply Ha. lia.
Qed.

Lemma agrees_take buf frame n :
  agrees buf frame n -> length buf = n -> (n <= length frame)%nat -> buf = take n frame.
Proof.
  intros Ha Hl Hn. apply list_eq. intros j. destruct (decide (j < n)%nat) as [Hj|Hj].
  - rewrite lookup_take_lt by done. specialize (Ha j Hj). unfold byte_at in Ha.
    destruct (lookup_lt_is_Some_2 buf j) as [x Hx]; [lia|]. destruct (lookup_lt_is_Some_2 frame j) as [y Hy]; [lia|].
    rewrite Hx, Hy in *. by simpl in Ha; subst.
  - rewrite lookup_take_ge by lia. apply lookup_ge_None. lia.
Qed.

Lemma u64_i64 v : in_u64 v -> u64 (i64_of_u64 v) = v.
Proof.
  unfold in_u64, i64_of_u64, u64, wrap. intros Hv. destruct (Z.ltb_spec v (2 ^ 63)).
  - by apply Z.mod_small.
  - rewrite <- (Z_mod_plus_full (v - 2 ^ 64) 1 (2 ^ 64)). rewrite Z.mod_small; lia.
Qed.

(** [be_solve] reads a field back out of a buffer that is a sequence of stores
    at literal offsets. *)
Ltac closed_nat := first [apply Nat.leb_le; reflexivity | apply Nat.ltb_lt; reflexivity].
Ltac be_side :=
  rewrite ?length_store_be, ?length_set_byte, ?length_zeros; first [closed_nat | simpl; lia].
Ltac be_step :=
  match goal with
  | |- context [load_be ?w (store_be ?w ?buf ?off ?v) ?off] =>
      rewrite (load_store_eq w buf off v) by first [be_side | (unfold in_u8, in_u16, in_u32, in_u64 in *; simpl; first [lia | apply u64_range])]
  | |- context [load_be ?w (store_be ?w' ?buf ?off' ?v) ?off] =>
      rewrite (load_store_ne w' w buf off' off v) by (simpl; lia)
  | |- context [load_be ?w (set_byte ?buf ?i ?b) ?off] =>
      rewrite (load_set_byte_ne w buf off i b) by (simpl; lia)
  | |- context [byte_at (set_byte ?buf ?i ?b) ?i] => rewrite (byte_at_set_eq buf i b) by be_side
  | |- context [byte_at (set_byte ?buf ?i ?b) ?j] => rewrite (byte_at_set_ne buf i j b) by (simpl; lia)
  | |- context [byte_at (store_be ?w ?buf ?off ?v) ?j] =>
      rewrite (byte_at_store_ne w buf off v j) by (simpl; lia)
  end.
Ltac be_solve := repeat be_step.
