(* ===== verification/Book.v ===== *)
(** * Book: what every order-book storage shares

    The value types of include/qsl/engine/order.hpp, the argument and result
    bundles of include/qsl/engine/order_book.hpp and the storage-independent
    helpers of src/engine/order_book.cpp: [fill_maker], [can_match_level],
    [should_rest_limit] and the templates [match_incoming],
    [match_ordered_levels] and [cancel_indexed_order].

    The templates take callables that capture the store by reference; here a
    callable takes the captured state [St] and returns it updated. *)
From S2P Require Import Prelude Core.

(** ** order.hpp *)

Record Order := mkOrder {
  o_id : OrderId;
  o_side : Side;
  o_price : Price;
  o_quantity : Quantity (* remaining *)
}.

Record Trade := mkTrade {
  t_taker_id : OrderId;
  t_maker_id : OrderId;
  t_price : Price;
  t_quantity : Quantity
}.

Record LevelView := mkLevelView {
  lv_price : Price;
  lv_quantity : QuantityTotal
}.

#[export] Instance Order_eq_dec : EqDecision Order.
Proof. solve_decision. Defined.
#[export] Instance Trade_eq_dec : EqDecision Trade.
Proof. solve_decision. Defined.
#[export] Instance LevelView_eq_dec : EqDecision LevelView.
Proof. solve_decision. Defined.

Definition set_quantity (q : Quantity) (o : Order) : Order :=
  mkOrder (o_id o) (o_side o) (o_price o) q.

(** ** order_book.hpp *)

Inductive Storage := Baseline | Pooled | IntrusivePooled | Contiguous.

Definition kContiguousMinPrice : Price := 1.
Definition kContiguousMaxPrice : Price := 1024.

Record MatchContext := mkMatchContext {
  c_taker_id : OrderId;
  c_taker_is_buy : bool;
  c_limit : Price;
  c_is_market : bool;
  c_quantity : Quantity;
  c_trades : list Trade
}.

Record MatchQuery := mkMatchQuery {
  q_taker_is_buy : bool;
  q_limit : Price;
  q_is_market : bool;
  q_quantity : Quantity
}.

Record MatchResult := mkMatchResult {
  r_trades : list Trade;
  r_remainder : Quantity;
  r_accepted : bool
}.

Record LimitInput := mkLimitInput {
  in_id : OrderId;
  in_side : Side;
  in_price : Price;
  in_quantity : Quantity;
  in_tif : TimeInForce
}.

(** The comparison [side == Side::Buy] every two-sided operation branches on. *)
Definition is_buy (s : Side) : bool := bool_decide (s = Buy).

(** ** order_book.cpp, storage-independent part *)

Definition can_match_level (taker_is_buy is_market : bool) (limit level_price : Price) : bool :=
  if is_market then true
  else if taker_is_buy then level_price <=? limit else limit <=? level_price.

(** Trades the smaller of the two quantities at the maker's price.  Returns the
    context, the maker's remaining quantity and whether the maker is filled. *)
Definition fill_maker (ctx : MatchContext) (maker_id : OrderId) (maker_quantity : Quantity)
    (level_price : Price) : MatchContext * Quantity * bool :=
  let traded := Z.min (c_quantity ctx) maker_quantity in
  let ctx' :=
    mkMatchContext (c_taker_id ctx) (c_taker_is_buy ctx) (c_limit ctx) (c_is_market ctx)
      (c_quantity ctx - traded)
      (c_trades ctx ++ [mkTrade (c_taker_id ctx) maker_id level_price traded]) in
  let maker_quantity' := maker_quantity - traded in
  (ctx', maker_quantity', maker_quantity' =? 0).

Definition should_rest_limit (result : MatchResult) (tif : TimeInForce) : bool :=
  if negb (r_accepted result) then false
  else if r_remainder result =? 0 then false
  else bool_decide (tif = GTC).

Definition match_incoming {St : Type} (id : OrderId) (side : Side) (limit : Price)
    (is_market : bool) (quantity : Quantity)
    (contains_fn : St -> bool)
    (match_fn : Side -> St -> MatchContext -> St * MatchContext)
    (st : St) : MatchResult * St :=
  if contains_fn st then (mkMatchResult [] quantity false, st)
  else
    let ctx := mkMatchContext id (is_buy side) limit is_market quantity [] in
    let '(st', ctx') := match_fn side st ctx in
    (mkMatchResult (c_trades ctx') (c_quantity ctx') true, st').

(** The matching loop over an ordered level map.  The flag of the loop state is
    lowered by the [break].  One iteration either erases the first level or
    leaves no quantity, so [length opposite + 1] iterations are enough. *)
Section MatchOrderedLevels.
Context {St L : Type}.
Context (fill_level_fn : St -> L -> Price -> MatchContext -> St * L * MatchContext).
Context (erase_empty_fn : Price -> list (Price * L) -> list (Price * L)).

Definition mol_cond (s : St * list (Price * L) * MatchContext * bool) : bool :=
  let '(_, opposite, ctx, running) := s in
  running && (0 <? c_quantity ctx) && negb (is_nil opposite).

Definition mol_body (s : St * list (Price * L) * MatchContext * bool) :
    St * list (Price * L) * MatchContext * bool :=
  let '(st, opposite, ctx, _) := s in
  match opposite with
  | [] => s
  | (level_price, level) :: rest =>
      if negb (can_match_level (c_taker_is_buy ctx) (c_is_market ctx) (c_limit ctx) level_price)
      then (st, opposite, ctx, false)
      else
        let '(st', level', ctx') := fill_level_fn st level level_price ctx in
        (st', erase_empty_fn level_price ((level_price, level') :: rest), ctx', true)
  end.

Definition match_ordered_levels (st : St) (opposite : list (Price * L)) (ctx : MatchContext) :
    St * list (Price * L) * MatchContext :=
  let '(st', opposite', ctx', _) :=
    while (S (length opposite)) mol_cond mol_body (st, opposite, ctx, true) in
  (st', opposite', ctx').
End MatchOrderedLevels.

(** [remove_fn] runs after the id has left the index. *)
Definition cancel_indexed_order {St Loc : Type}
    (get_index : St -> gmap Z Loc) (set_index : gmap Z Loc -> St -> St)
    (remove_fn : Loc -> St -> St) (id : OrderId) (st : St) : bool * St :=
  match get_index st !! id with
  | None => (false, st)
  | Some loc => (true, remove_fn loc (set_index (delete id (get_index st)) st))
  end.

