(* ===== verification/BookSpec.v ===== *)
(** * BookSpec: the abstract order book

    What every storage of [OrderBook] promises, without price-level maps,
    indexes or memory: a side of the book is the list of its resting orders in
    price-time priority, matching consumes a prefix of the opposite side, and a
    remainder is inserted behind every order of the same or a better price.
    [BookStore] is the operation record the engine is written against and
    [BookStoreLaws] the contract each storage discharges. *)
From S2P Require Import Prelude Core Book.

(** ** The abstract state *)

Record ABook := mkABook { a_bids : list Order; a_asks : list Order }.

Definition a_empty : ABook := mkABook [] [].
Definition a_orders (b : ABook) : list Order := a_bids b ++ a_asks b.

(** [x] has strictly better price priority than [y] on its side of the book. *)
Definition better (is_bid : bool) (x y : Price) : bool := if is_bid then y <? x else x <? y.

Definition a_side (is_bid : bool) (b : ABook) : list Order :=
  if is_bid then a_bids b else a_asks b.
Definition a_set_side (is_bid : bool) (l : list Order) (b : ABook) : ABook :=
  if is_bid then mkABook l (a_asks b) else mkABook (a_bids b) l.

(** ** Matching and resting *)

(** Match [q] units against the queue [opp] while [cross] accepts the price. *)
Fixpoint a_match (taker : OrderId) (cross : Price -> bool) (q : Quantity) (opp : list Order) :
    list Trade * Quantity * list Order :=
  match opp with
  | [] => ([], q, [])
  | o :: rest =>
      if (0 <? q) && cross (o_price o) then
        if o_quantity o <=? q then
          let '(ts, q', rest') := a_match taker cross (q - o_quantity o) rest in
          (mkTrade taker (o_id o) (o_price o) (o_quantity o) :: ts, q', rest')
        else
          ([mkTrade taker (o_id o) (o_price o) q], 0, set_quantity (o_quantity o - q) o :: rest)
      else ([], q, opp)
  end.

(** Insert behind every order whose price is not strictly worse. *)
Fixpoint a_insert (is_bid : bool) (o : Order) (l : list Order) : list Order :=
  match l with
  | [] => [o]
  | x :: r => if better is_bid (o_price o) (o_price x) then o :: l else x :: a_insert is_bid o r
  end.

Definition a_ids (b : ABook) : list OrderId := map o_id (a_orders b).
Definition a_contains (b : ABook) (id : OrderId) : bool := bool_decide (id ∈ a_ids b).
Definition a_find (b : ABook) (id : OrderId) : option Order :=
  snd <$> list_find (fun o => o_id o = id) (a_orders b).

Definition a_remove (id : OrderId) (b : ABook) : ABook :=
  mkABook (filter (fun o => o_id o <> id) (a_bids b)) (filter (fun o => o_id o <> id) (a_asks b)).

Definition a_assign (id : OrderId) (q : Quantity) (b : ABook) : ABook :=
  let f := fun o => if o_id o =? id then set_quantity q o else o in
  mkABook (map f (a_bids b)) (map f (a_asks b)).

(** ** The operations *)

Definition a_take (b : ABook) (id : OrderId) (side : Side) (limit : Price) (is_market : bool)
    (q : Quantity) : list Trade * Quantity * ABook :=
  let '(ts, r, opp) :=
    a_match id (can_match_level (is_buy side) is_market limit) q
      (a_side (negb (is_buy side)) b) in
  (ts, r, a_set_side (negb (is_buy side)) opp b).

Definition a_rest (o : Order) (b : ABook) : ABook :=
  a_set_side (is_buy (o_side o))
    (a_insert (is_buy (o_side o)) o (a_side (is_buy (o_side o)) b)) b.

Definition a_add_limit (b : ABook) (id : OrderId) (side : Side) (price : Price) (q : Quantity)
    (tif : TimeInForce) : list Trade * ABook :=
  if a_contains b id then ([], b)
  else
    let '(ts, r, b1) := a_take b id side price false q in
    if (0 <? r) && bool_decide (tif = GTC)
    then (ts, a_rest (mkOrder id side price r) b1)
    else (ts, b1).

Definition a_add_market (b : ABook) (id : OrderId) (side : Side) (q : Quantity) :
    list Trade * ABook :=
  if a_contains b id then ([], b)
  else let '(ts, _, b1) := a_take b id side 0 true q in (ts, b1).

Definition a_cancel (b : ABook) (id : OrderId) : bool * ABook :=
  if a_contains b id then (true, a_remove id b) else (false, b).

Definition a_modify (b : ABook) (id : OrderId) (new_price : Price) (new_quantity : Quantity) :
    list Trade * ABook :=
  match a_find b id with
  | None => ([], b)
  | Some o =>
      if new_quantity =? 0 then ([], a_remove id b)
      else if (new_price =? o_price o) && (new_quantity <=? o_quantity o)
      then ([], a_assign id new_quantity b)
      else a_add_limit (a_remove id b) id (o_side o) new_price new_quantity GTC
  end.

(** ** The queries *)

Definition a_best (l : list Order) : option Price := o_price <$> head l.

Fixpoint sum_quantity (l : list Order) : Z :=
  match l with [] => 0 | o :: r => o_quantity o + sum_quantity r end.
Definition at_price (p : Price) (l : list Order) : list Order := filter (fun o => o_price o = p) l.

(** The prices of a queue, each once, best first. *)
Fixpoint a_prices (l : list Order) : list Price :=
  match l with
  | [] => []
  | o :: r =>
      match a_prices r with
      | p :: ps => if p =? o_price o then p :: ps else o_price o :: p :: ps
      | [] => [o_price o]
      end
  end.
Definition a_levels (l : list Order) : list LevelView :=
  map (fun p => mkLevelView p (u64 (sum_quantity (at_price p l)))) (a_prices l).

(** ** Well-formed books *)

(** [x] may stand in front of [y] in the queue of its side. *)
Definition in_order (is_bid : bool) (x y : Order) : Prop :=
  better is_bid (o_price y) (o_price x) = false.

Record side_wf (is_bid : bool) (l : list Order) : Prop := {
  sw_sorted : StronglySorted (in_order is_bid) l;
  sw_quantity : Forall (fun o => in_u32 (o_quantity o) /\ 0 < o_quantity o) l;
  sw_side : Forall (fun o => is_buy (o_side o) = is_bid) l
}.

(** No resting bid is at or above a resting ask. *)
Definition uncrossed (b : ABook) : Prop :=
  forall x y, x ∈ a_bids b -> y ∈ a_asks b -> o_price x < o_price y.

Record a_wf (b : ABook) : Prop := {
  aw_bids : side_wf true (a_bids b);
  aw_asks : side_wf false (a_asks b);
  aw_ids : NoDup (a_ids b);
  aw_uncrossed : uncrossed b
}.

(** ** The price-time priority of matching *)

Definition full_trade (taker : OrderId) (o : Order) : Trade :=
  mkTrade taker (o_id o) (o_price o) (o_quantity o).

(** [q] units consume the queue [opp] front to back: a prefix [filled] of
    acceptable orders trades in full and leaves the book; then either the next
    order trades partially and keeps its place with the rest of its quantity, or
    nothing more trades because the quantity is spent or the next price is not
    acceptable. *)
Definition consumes (taker : OrderId) (cross : Price -> bool) (q : Quantity) (opp : list Order)
    (ts : list Trade) (r : Quantity) (opp' : list Order) : Prop :=
  exists filled tail,
    opp = filled ++ tail /\
    Forall (fun o => cross (o_price o) = true) filled /\
    ((ts = map (full_trade taker) filled /\ r = q - sum_quantity filled /\ opp' = tail /\
      0 <= r /\ (r = 0 \/ (forall o, head tail = Some o -> cross (o_price o) = false))) \/
     (exists o tail' p, tail = o :: tail' /\ cross (o_price o) = true /\
       p = q - sum_quantity filled /\ 0 < p < o_quantity o /\
       ts = map (full_trade taker) filled ++ [mkTrade taker (o_id o) (o_price o) p] /\
       r = 0 /\ opp' = set_quantity (o_quantity o - p) o :: tail')).

Definition sum_trades (ts : list Trade) : Z := foldr (fun t s => t_quantity t + s) 0 ts.

Lemma a_match_consumes taker cross opp : forall q ts r opp',
  0 <= q -> a_match taker cross q opp = (ts, r, opp') -> consumes taker cross q opp ts r opp'.
Proof.
  induction opp as [|o opp IH]; intros q ts r opp' Hq; cbn [a_match].
  - intros [= <- <- <-]. exists [], []. repeat split; try done. left.
    repeat split; simpl; auto with lia. right; done.
  - destruct ((0 <? q) && cross (o_price o)) eqn:E; [destruct (o_quantity o <=? q) eqn:E2|].
    + destruct (a_match _ _ _ _) as [[ts0 r0] opp0] eqn:Em. intros [= <- <- <-].
      apply IH in Em as (filled & tail & -> & Hf & Hcase); [|lia].
      exists (o :: filled), tail. apply andb_true_iff in E as [_ Ec].
      split; [done|]. split; [by constructor|].
      destruct Hcase as [(-> & -> & -> & Hr & Hx)|(o' & tl & p & -> & Hc' & -> & Hp & -> & -> & ->)].
      * left. simpl. repeat split; auto with lia.
      * right. exists o', tl, (q - o_quantity o - sum_quantity filled). simpl in *.
        repeat split; auto with lia.
    + intros [= <- <- <-]. exists [], (o :: opp). split; [done|]. split; [done|]. right.
      exists o, opp, q. simpl. apply andb_true_iff in E as [? ?].
      repeat split; auto with lia.
    + intros [= <- <- <-]. exists [], (o :: opp). split; [done|]. split; [done|]. left.
      simpl. repeat split; auto with lia.
      apply andb_false_iff in E as [?|?]; [left; lia|right]. by intros ? [= <-].
Qed.

Lemma sum_trades_app ts ts' : sum_trades (ts ++ ts') = sum_trades ts + sum_trades ts'.
Proof. induction ts as [|t ts IH]; simpl; lia. Qed.
Lemma sum_trades_full taker l : sum_trades (map (full_trade taker) l) = sum_quantity l.
Proof. induction l as [|o l IH]; simpl; lia. Qed.

Lemma consumes_sum taker cross q opp ts r opp' :
  consumes taker cross q opp ts r opp' -> sum_trades ts + r = q.
Proof.
  intros (filled & tail & -> & _ & [(-> & -> & _)|(o & tl & p & _ & _ & -> & _ & -> & -> & _)]);
    rewrite ?sum_trades_app, sum_trades_full; simpl; lia.
Qed.

Lemma consumes_remainder taker cross q opp ts r opp' :
  consumes taker cross q opp ts r opp' -> 0 <= r.
Proof.
  intros (filled & tail & -> & _ & [(_ & _ & _ & ? & _)|(? & ? & ? & _ & _ & _ & _ & _ & -> & _)]); lia.
Qed.

(** ** Queue order *)

Lemma in_order_trans is_bid x y z : in_order is_bid x y -> in_order is_bid y z -> in_order is_bid x z.
Proof. unfold in_order, better. destruct is_bid; lia. Qed.

Lemma in_order_price is_bid x x' y y' :
  o_price x = o_price x' -> o_price y = o_price y' -> in_order is_bid x y -> in_order is_bid x' y'.
Proof. unfold in_order. by intros -> ->. Qed.

Lemma in_order_Forall is_bid x x' l :
  o_price x = o_price x' -> Forall (in_order is_bid x) l -> Forall (in_order is_bid x') l.
Proof. intros Hp H. eapply Forall_impl; [exact H|]. intros y. by apply in_order_price. Qed.

Lemma StronglySorted_filter {A} (R : relation A) (P : A -> Prop) `{!forall x, Decision (P x)} l :
  StronglySorted R l -> StronglySorted R (filter P l).
Proof.
  induction 1 as [|x l Hs IH Hx]; simpl; [constructor|].
  rewrite filter_cons. case_decide; [|done]. constructor; [done|].
  rewrite Forall_forall in *. intros y [_ Hy]%list_elem_of_filter. auto.
Qed.

Lemma a_insert_Permutation is_bid o l : a_insert is_bid o l ≡ₚ o :: l.
Proof.
  induction l as [|x l IH]; simpl; [done|]. case_if; [done|]. rewrite IH. by apply Permutation_swap.
Qed.

Lemma a_insert_sorted is_bid o l :
  StronglySorted (in_order is_bid) l -> StronglySorted (in_order is_bid) (a_insert is_bid o l).
Proof.
  induction 1 as [|x l Hs IH Hx]; simpl; [by repeat constructor|]. case_if.
  - constructor; [by constructor|]. assert (in_order is_bid o x) as Hox.
    { unfold in_order, better in *. destruct is_bid; lia. }
    constructor; [done|]. eapply Forall_impl; [done|]. intros y. by apply in_order_trans.
  - constructor; [done|]. rewrite a_insert_Permutation. by constructor.
Qed.

(** ** Matching keeps a side well formed *)

Lemma consumes_side_wf taker cross q opp ts r opp' is_bid :
  consumes taker cross q opp ts r opp' -> side_wf is_bid opp -> side_wf is_bid opp'.
Proof.
  intros (filled & tail & -> & _ & Hcase) [Hs Hq Hd].
  apply StronglySorted_app_1_r in Hs. apply Forall_app in Hq as [_ Hq], Hd as [_ Hd].
  destruct Hcase as [(_ & _ & -> & _)|(o & tl & p & -> & _ & -> & Hp & _ & _ & ->)]; [done|].
  inv Hs. inv Hq. inv Hd. split; constructor; auto; simpl.
  unfold in_u32 in *; lia.
Qed.

Lemma consumes_ids taker cross q opp ts r opp' :
  consumes taker cross q opp ts r opp' -> sublist (map o_id opp') (map o_id opp).
Proof.
  intros (filled & tail & -> & _ & [(_ & _ & -> & _)|(o & tl & p & -> & _ & _ & _ & _ & _ & ->)]);
    rewrite map_app; simpl; by apply sublist_inserts_l.
Qed.

(** The acceptable prices of a limit or market order are a prefix of the
    opposite side's priority order. *)
Lemma can_match_level_mono taker_is_buy is_market limit x y :
  in_order (negb taker_is_buy) x y ->
  can_match_level taker_is_buy is_market limit (o_price y) = true ->
  can_match_level taker_is_buy is_market limit (o_price x) = true.
Proof.
  unfold in_order, better, can_match_level. destruct is_market, taker_is_buy; simpl; lia.
Qed.

Lemma consumes_uncrossed taker taker_is_buy is_market limit q opp ts r opp' :
  consumes taker (can_match_level taker_is_buy is_market limit) q opp ts r opp' ->
  StronglySorted (in_order (negb taker_is_buy)) opp -> 0 < r ->
  Forall (fun o => can_match_level taker_is_buy is_market limit (o_price o) = false) opp'.
Proof.
  intros (filled & tail & -> & _ & Hcase) Hs Hr. apply StronglySorted_app_1_r in Hs.
  destruct Hcase as [(_ & _ & -> & _ & [->|Hx])|(? & ? & ? & _ & _ & _ & _ & _ & -> & _)]; try lia.
  destruct tail as [|o tail]; [done|]. specialize (Hx o eq_refl). constructor; [done|].
  inv Hs. eapply Forall_impl; [done|]. intros y Hy.
  destruct (can_match_level _ _ _ (o_price y)) eqn:E; [|done].
  apply (can_match_level_mono _ _ _ o) in E; [congruence|done].
Qed.

(** ** The operations preserve well-formedness *)

Lemma a_wf_empty : a_wf a_empty.
Proof. split; [by repeat constructor..|]. intros x y Hx. set_solver. Qed.

Lemma a_contains_spec b id : a_contains b id = true <-> id ∈ a_ids b.
Proof. unfold a_contains. by rewrite bool_decide_eq_true. Qed.
Lemma a_contains_false b id : a_contains b id = false <-> id ∉ a_ids b.
Proof. unfold a_contains. by rewrite bool_decide_eq_false. Qed.

Lemma a_ids_sides b is_bid :
  a_ids b ≡ₚ map o_id (a_side is_bid b) ++ map o_id (a_side (negb is_bid) b).
Proof.
  unfold a_ids, a_orders. rewrite map_app. destruct is_bid; simpl; [done|]. apply Permutation_app_comm.
Qed.

Lemma a_side_wf b is_bid : a_wf b -> side_wf is_bid (a_side is_bid b).
Proof. intros []. by destruct is_bid. Qed.

(** Replacing one side: the other facts follow from the side's own. *)
Lemma a_wf_set_side b is_bid l :
  a_wf b -> side_wf is_bid l ->
  NoDup (map o_id l ++ map o_id (a_side (negb is_bid) b)) ->
  (forall x y, x ∈ l -> y ∈ a_side (negb is_bid) b ->
    better is_bid (o_price y) (o_price x) = true) ->
  a_wf (a_set_side is_bid l b).
Proof.
  intros Hwf Hl Hnd Hx. pose proof (a_side_wf b (negb is_bid) Hwf) as Ho. split.
  - by destruct is_bid.
  - by destruct is_bid.
  - rewrite (a_ids_sides _ is_bid). by destruct is_bid.
  - intros x y. destruct is_bid; simpl; intros Hxi Hyi;
      [specialize (Hx x y Hxi Hyi)|specialize (Hx y x Hyi Hxi)]; unfold better in *; simpl in *; lia.
Qed.

Lemma a_sides_apart b is_bid x y :
  a_wf b -> x ∈ a_side is_bid b -> y ∈ a_side (negb is_bid) b ->
  better is_bid (o_price y) (o_price x) = true.
Proof.
  intros [_ _ _ Hu] Hx Hy. unfold better.
  destruct is_bid; simpl in *; [specialize (Hu x y Hx Hy)|specialize (Hu y x Hy Hx)]; lia.
Qed.

Lemma a_take_consumes b id side limit is_market q ts r b' :
  0 <= q -> a_take b id side limit is_market q = (ts, r, b') ->
  exists opp, b' = a_set_side (negb (is_buy side)) opp b /\
    consumes id (can_match_level (is_buy side) is_market limit) q
      (a_side (negb (is_buy side)) b) ts r opp.
Proof.
  unfold a_take. destruct (a_match _ _ _ _) as [[ts0 r0] opp] eqn:E. intros Hq [= <- <- <-].
  exists opp. split; [done|]. by apply a_match_consumes.
Qed.

Lemma consumes_prices taker cross q opp ts r opp' y :
  consumes taker cross q opp ts r opp' -> y ∈ opp' -> exists y', y' ∈ opp /\ o_price y' = o_price y.
Proof.
  intros (filled & tail & -> & _ & [(_ & _ & -> & _)|(o & tl & p & -> & _ & _ & _ & _ & _ & ->)]) Hy.
  - exists y. set_solver.
  - apply elem_of_cons in Hy as [->|Hy]; [exists o; set_solver|exists y; set_solver].
Qed.

Lemma a_take_wf b id side limit is_market q ts r b' :
  a_wf b -> 0 <= q -> a_take b id side limit is_market q = (ts, r, b') -> a_wf b'.
Proof.
  intros Hwf Hq H. apply a_take_consumes in H as (opp & -> & Hc); [|done].
  apply a_wf_set_side; [done| | |].
  - eapply consumes_side_wf; [done|]. by apply a_side_wf.
  - pose proof (aw_ids _ Hwf) as Hn. rewrite (a_ids_sides _ (negb (is_buy side))) in Hn.
    eapply sublist_NoDup; [exact Hn|]. apply sublist_app; [|done]. by eapply consumes_ids.
  - intros x y Hx Hy. apply (consumes_prices _ _ _ _ _ _ _ _ Hc) in Hx as (x' & Hx' & <-).
    by apply a_sides_apart with b.
Qed.

Lemma a_take_ids b id side limit is_market q ts r b' :
  0 <= q -> a_take b id side limit is_market q = (ts, r, b') -> forall i, i ∈ a_ids b' -> i ∈ a_ids b.
Proof.
  intros Hq H i. apply a_take_consumes in H as (opp & -> & Hc); [|done].
  apply consumes_ids in Hc. rewrite !(a_ids_sides _ (negb (is_buy side))), !elem_of_app.
  destruct (is_buy side); simpl in *; intros [Hi|Hi]; auto; left; by eapply elem_of_sublist.
Qed.

(** The remainder of an order that has stopped matching does not cross. *)
Lemma a_take_rests_uncrossed b id side limit q ts r b' y :
  a_wf b -> 0 <= q -> a_take b id side limit false q = (ts, r, b') -> 0 < r ->
  y ∈ a_side (negb (is_buy side)) b' -> better (is_buy side) (o_price y) limit = true.
Proof.
  intros Hwf Hq H Hr Hy. apply a_take_consumes in H as (opp & -> & Hc); [|done].
  apply consumes_uncrossed in Hc; [|by apply a_side_wf|done].
  assert (y ∈ opp) as Hyo by (by destruct (is_buy side)).
  rewrite Forall_forall in Hc. specialize (Hc y Hyo). unfold can_match_level, better in *.
  destruct (is_buy side); lia.
Qed.

Lemma a_rest_wf o b :
  a_wf b -> in_u32 (o_quantity o) -> 0 < o_quantity o -> o_id o ∉ a_ids b ->
  (forall y, y ∈ a_side (negb (is_buy (o_side o))) b ->
    better (is_buy (o_side o)) (o_price y) (o_price o) = true) ->
  a_wf (a_rest o b).
Proof.
  intros Hwf Hq Hq' Hid Hx. unfold a_rest. pose proof (a_side_wf b (is_buy (o_side o)) Hwf) as [Hs Hqs Hd].
  apply a_wf_set_side; [done| | |].
  - split; [by apply a_insert_sorted|..]; rewrite a_insert_Permutation; by constructor.
  - rewrite (a_insert_Permutation _ _ _). simpl. constructor.
    + by rewrite <- (a_ids_sides b (is_buy (o_side o))).
    + rewrite <- (a_ids_sides b (is_buy (o_side o))). apply Hwf.
  - intros x y Hxi Hy. rewrite a_insert_Permutation in Hxi.
    apply elem_of_cons in Hxi as [->|Hxi]; [by apply Hx|]. by apply a_sides_apart with b.
Qed.

Lemma sum_quantity_nonneg l : Forall (fun o => 0 < o_quantity o) l -> 0 <= sum_quantity l.
Proof. induction 1; simpl; lia. Qed.

Lemma side_wf_positive is_bid l : side_wf is_bid l -> Forall (fun o => 0 < o_quantity o) l.
Proof. intros [_ H _]. eapply Forall_impl; [exact H|]. by intros o []. Qed.

Lemma consumes_le taker cross q opp ts r opp' :
  consumes taker cross q opp ts r opp' -> Forall (fun o => 0 < o_quantity o) opp -> 0 <= q -> r <= q.
Proof.
  intros (filled & tail & -> & _ & Hcase) [Hf _]%Forall_app Hq.
  apply sum_quantity_nonneg in Hf.
  destruct Hcase as [(_ & -> & _)|(? & ? & ? & _ & _ & _ & _ & _ & -> & _)]; lia.
Qed.

Lemma a_take_le b id side limit is_market q ts r b' :
  a_wf b -> 0 <= q -> a_take b id side limit is_market q = (ts, r, b') -> 0 <= r <= q.
Proof.
  intros Hwf Hq H. apply a_take_consumes in H as (opp & -> & Hc); [|done]. split.
  - by eapply consumes_remainder.
  - eapply consumes_le; eauto. by eapply side_wf_positive, a_side_wf.
Qed.

Lemma a_add_limit_wf b id side price q tif :
  a_wf b -> in_u32 q -> a_wf (a_add_limit b id side price q tif).2.
Proof.
  intros Hwf Hq. unfold a_add_limit. destruct (a_contains b id) eqn:Hc; [done|].
  destruct (a_take _ _ _ _ _ _) as [[ts r] b1] eqn:E. apply a_contains_false in Hc.
  assert (0 <= q) by (unfold in_u32 in *; lia).
  assert (0 <= r <= q) by (by eapply a_take_le).
  assert (a_wf b1) by (by eapply a_take_wf).
  destruct ((0 <? r) && _) eqn:Er; [|done]. apply andb_true_iff in Er as [Er _]. simpl.
  apply a_rest_wf; simpl; [done|unfold in_u32 in *; lia|lia| |].
  - intros Hi. eapply a_take_ids in Hi; eauto.
  - intros y. apply (a_take_rests_uncrossed _ _ _ _ _ _ _ _ _ Hwf ltac:(done) E). lia.
Qed.

Lemma a_add_market_wf b id side q : a_wf b -> in_u32 q -> a_wf (a_add_market b id side q).2.
Proof.
  intros Hwf Hq. unfold a_add_market. destruct (a_contains b id); [done|].
  destruct (a_take _ _ _ _ _ _) as [[ts r] b1] eqn:E. unfold in_u32 in *.
  eapply a_take_wf; [done| |done]. lia.
Qed.

Lemma side_wf_filter is_bid (P : Order -> Prop) `{!forall x, Decision (P x)} l :
  side_wf is_bid l -> side_wf is_bid (filter P l).
Proof.
  intros [Hs Hq Hd]. split; [by apply StronglySorted_filter|..];
    rewrite Forall_forall in *; intros o [_ Ho]%list_elem_of_filter; auto.
Qed.

Lemma map_id_filter id (l : list Order) :
  map o_id (filter (fun o => o_id o <> id) l) = filter (fun i => i <> id) (map o_id l).
Proof.
  induction l as [|o l IH]; [done|]. rewrite filter_cons. simpl. rewrite filter_cons.
  repeat case_decide; try done; simpl; by rewrite IH.
Qed.

Lemma a_ids_remove id b : a_ids (a_remove id b) = filter (fun i => i <> id) (a_ids b).
Proof.
  unfold a_ids, a_orders, a_remove. simpl. by rewrite !map_app, filter_app, !map_id_filter.
Qed.

Lemma a_remove_wf id b : a_wf b -> a_wf (a_remove id b).
Proof.
  intros [Hb Ha Hn Hu]. split; simpl; [by apply side_wf_filter..| |].
  - rewrite a_ids_remove. by apply NoDup_filter.
  - intros x y; simpl. intros [_ ?]%list_elem_of_filter [_ ?]%list_elem_of_filter. auto.
Qed.

Lemma side_wf_map is_bid f l :
  (forall o, o_id (f o) = o_id o /\ o_side (f o) = o_side o /\ o_price (f o) = o_price o) ->
  (forall o, o ∈ l -> in_u32 (o_quantity (f o)) /\ 0 < o_quantity (f o)) ->
  side_wf is_bid l -> side_wf is_bid (map f l).
Proof.
  intros Hf Hq [Hs _ Hd]. split.
  - clear Hq Hd. induction Hs as [|x l Hs IH Hx]; simpl; constructor; [done|].
    apply Forall_map. eapply Forall_impl; [exact Hx|]. intros y. simpl.
    apply in_order_price; symmetry; apply Hf.
  - apply Forall_map, Forall_forall. auto.
  - apply Forall_map. eapply Forall_impl; [exact Hd|]. simpl. intros o <-. by rewrite (proj1 (proj2 (Hf o))).
Qed.

Lemma a_assign_wf id q b : a_wf b -> in_u32 q -> 0 < q -> a_wf (a_assign id q b).
Proof.
  intros [Hb Ha Hn Hu] Hq Hq'. unfold a_assign.
  set (f := fun o => if o_id o =? id then set_quantity q o else o).
  assert (forall o, o_id (f o) = o_id o /\ o_side (f o) = o_side o /\ o_price (f o) = o_price o) as Hf.
  { intros o. unfold f. by case_if. }
  assert (forall l o, Forall (fun o => in_u32 (o_quantity o) /\ 0 < o_quantity o) l -> o ∈ l ->
    in_u32 (o_quantity (f o)) /\ 0 < o_quantity (f o)) as Hfq.
  { intros l o Hl Ho. rewrite Forall_forall in Hl. unfold f. case_if; simpl; [done|]. by apply Hl. }
  split; simpl.
  - apply side_wf_map; [done| |done]. intros o. apply Hfq, Hb.
  - apply side_wf_map; [done| |done]. intros o. apply Hfq, Ha.
  - unfold a_ids, a_orders in *. simpl. rewrite <- map_app, map_map.
    erewrite map_ext; [exact Hn|]. intros o. apply Hf.
  - intros x y; simpl. intros (x' & -> & Hx)%list_elem_of_fmap (y' & -> & Hy)%list_elem_of_fmap.
    rewrite (proj2 (proj2 (Hf x'))), (proj2 (proj2 (Hf y'))). auto.
Qed.

Lemma a_modify_wf b id new_price new_quantity :
  a_wf b -> in_u32 new_quantity -> a_wf (a_modify b id new_price new_quantity).2.
Proof.
  intros Hwf Hq. unfold a_modify. destruct (a_find b id) as [o|]; [|done].
  destruct (new_quantity =? 0) eqn:E; [by apply a_remove_wf|].
  case_if; simpl.
  - apply a_assign_wf; [done..|]. unfold in_u32 in *; lia.
  - apply a_add_limit_wf; [by apply a_remove_wf|done].
Qed.

Lemma a_cancel_wf b id : a_wf b -> a_wf (a_cancel b id).2.
Proof. intros Hwf. unfold a_cancel. case_if; [by apply a_remove_wf|done]. Qed.

#[export] Hint Resolve a_wf_empty a_add_limit_wf a_add_market_wf a_cancel_wf a_modify_wf
  a_remove_wf : qsl.

(** ** Matching a concatenated queue *)

Lemma a_match_stop taker cross q opp : q <= 0 -> a_match taker cross q opp = ([], q, opp).
Proof. intros Hq. destruct opp as [|o opp]; [done|]. simpl. by replace (0 <? q) with false by lia. Qed.

Lemma a_match_no_cross taker cross q o opp :
  cross (o_price o) = false -> a_match taker cross q (o :: opp) = ([], q, o :: opp).
Proof. intros Hc. simpl. by rewrite Hc, andb_false_r. Qed.

Lemma a_match_ext taker cross cross' opp : forall q,
  Forall (fun o => cross (o_price o) = cross' (o_price o)) opp ->
  a_match taker cross q opp = a_match taker cross' q opp.
Proof.
  induction opp as [|o opp IH]; intros q Hall; [done|]. inv Hall. simpl.
  rewrite H1. case_if; [|done]. case_if; [|done]. by rewrite IH.
Qed.

Lemma a_match_app taker cross l1 l2 : forall q,
  Forall (fun o => cross (o_price o) = true) l1 ->
  a_match taker cross q (l1 ++ l2) =
    let '(ts1, q1, l1') := a_match taker cross q l1 in
    match l1' with
    | [] => let '(ts2, q2, l2') := a_match taker cross q1 l2 in (ts1 ++ ts2, q2, l2')
    | _ => (ts1, q1, l1' ++ l2)
    end.
Proof.
  induction l1 as [|o l1 IH]; intros q Hall.
  - simpl. by destruct (a_match _ _ _ _) as [[? ?] ?].
  - inv Hall. cbn [app a_match]. rewrite H1, andb_true_r. case_if; [|done].
    case_if; [|done]. rewrite IH by done.
    destruct (a_match taker cross (q - o_quantity o) l1) as [[ts1 q1] l1'].
    destruct l1'; [|done]. by destruct (a_match _ _ _ _) as [[? ?] ?].
Qed.

Lemma a_match_left taker cross l q ts r l' :
  0 <= q -> a_match taker cross q l = (ts, r, l') ->
  Forall (fun o => cross (o_price o) = true) l -> l' <> [] -> r = 0.
Proof.
  intros Hq Hm Hall Hne. apply a_match_consumes in Hm; [|done].
  destruct Hm as (filled & tail & -> & _ & [(_ & _ & -> & _ & [->|Hx])|(? & ? & ? & _ & _ & _ & _ & _ & -> & _)]);
    [done| |done].
  destruct tail as [|o tail]; [done|]. specialize (Hx o eq_refl).
  apply Forall_app in Hall as [_ Hall]. inv Hall. congruence.
Qed.

(** The match context after trading: what is left and the trades appended. *)
Definition ctx_after (ctx : MatchContext) (q : Quantity) (ts : list Trade) : MatchContext :=
  mkMatchContext (c_taker_id ctx) (c_taker_is_buy ctx) (c_limit ctx) (c_is_market ctx) q
    (c_trades ctx ++ ts).

Lemma ctx_after_id ctx : ctx_after ctx (c_quantity ctx) [] = ctx.
Proof. destruct ctx. unfold ctx_after. simpl. by rewrite app_nil_r. Qed.

Lemma ctx_after_after ctx q ts q' ts' :
  ctx_after (ctx_after ctx q ts) q' ts' = ctx_after ctx q' (ts ++ ts').
Proof. unfold ctx_after. cbn. by rewrite app_assoc. Qed.

(** ** The storage interface *)

(** The public operations of [OrderBook] (include/qsl/engine/order_book.hpp);
    [bs_new] is its constructor. *)
Class BookStore (B : Type) := {
  bs_new : Storage -> B;
  bs_add_limit : B -> OrderId -> Side -> Price -> Quantity -> TimeInForce -> list Trade * B;
  bs_add_market : B -> OrderId -> Side -> Quantity -> list Trade * B;
  bs_cancel : B -> OrderId -> bool * B;
  bs_modify : B -> OrderId -> Price -> Quantity -> list Trade * B;
  bs_best_bid : B -> option Price;
  bs_best_ask : B -> option Price;
  bs_quantity_at : B -> Side -> Price -> QuantityTotal;
  bs_order_count : B -> Z;
  bs_contains : B -> OrderId -> bool;
  bs_fill_count : B -> Side -> Price -> bool -> Quantity -> Z;
  bs_can_store_limit : B -> Side -> Price -> Quantity -> TimeInForce -> bool;
  bs_can_apply_modify : B -> OrderId -> Price -> Quantity -> bool;
  bs_bid_levels : B -> list LevelView;
  bs_ask_levels : B -> list LevelView;
  bs_resting_orders : B -> list Order
}.

(** The contract of a storage.  [bs_room] is the resource assumption under which
    a storage can take one more order (machine-width positions). *)
Class BookStoreLaws (B : Type) `{BookStore B} := {
  bs_wf : B -> Prop;
  bs_room : B -> Prop;
  bs_abs : B -> ABook;
  bs_abs_wf : forall b, bs_wf b -> a_wf (bs_abs b);
  bs_new_ok : forall st, bs_wf (bs_new st) /\ bs_abs (bs_new st) = a_empty;
  bs_add_limit_ok : forall b id side price q tif,
    bs_wf b -> bs_room b -> is_valid_side side = true -> in_u32 q ->
    bs_can_store_limit b side price q tif = true ->
    let r := bs_add_limit b id side price q tif in
    bs_wf r.2 /\ (r.1, bs_abs r.2) = a_add_limit (bs_abs b) id side price q tif;
  bs_add_market_ok : forall b id side q,
    bs_wf b -> bs_room b -> is_valid_side side = true -> in_u32 q ->
    let r := bs_add_market b id side q in
    bs_wf r.2 /\ (r.1, bs_abs r.2) = a_add_market (bs_abs b) id side q;
  bs_cancel_ok : forall b id,
    bs_wf b -> bs_room b ->
    let r := bs_cancel b id in
    bs_wf r.2 /\ (r.1, bs_abs r.2) = a_cancel (bs_abs b) id;
  bs_modify_ok : forall b id new_price new_quantity,
    bs_wf b -> bs_room b -> in_u32 new_quantity ->
    bs_can_apply_modify b id new_price new_quantity = true ->
    let r := bs_modify b id new_price new_quantity in
    bs_wf r.2 /\ (r.1, bs_abs r.2) = a_modify (bs_abs b) id new_price new_quantity;
  bs_can_apply_cancel : forall b id new_price,
    bs_wf b -> bs_can_apply_modify b id new_price 0 = true;
  bs_contains_ok : forall b id, bs_wf b -> bs_contains b id = a_contains (bs_abs b) id;
  bs_order_count_ok : forall b,
    bs_wf b -> bs_order_count b = Z.of_nat (length (a_orders (bs_abs b)));
  bs_best_bid_ok : forall b, bs_wf b -> bs_best_bid b = a_best (a_bids (bs_abs b));
  bs_best_ask_ok : forall b, bs_wf b -> bs_best_ask b = a_best (a_asks (bs_abs b));
  bs_quantity_at_ok : forall b side price,
    bs_wf b -> is_valid_side side = true ->
    bs_quantity_at b side price =
      u64 (sum_quantity (at_price price (a_side (is_buy side) (bs_abs b))));
  bs_fill_count_ok : forall b id side price is_market q,
    bs_wf b -> is_valid_side side = true -> 0 <= q ->
    bs_fill_count b side price is_market q =
      Z.of_nat (length (a_take (bs_abs b) id side price is_market q).1.1);
  bs_bid_levels_ok : forall b, bs_wf b -> bs_bid_levels b = a_levels (a_bids (bs_abs b));
  bs_ask_levels_ok : forall b, bs_wf b -> bs_ask_levels b = a_levels (a_asks (bs_abs b));
  bs_resting_orders_ok : forall b, bs_wf b -> bs_resting_orders b = a_orders (bs_abs b)
}.

(** ** Looking an order up by id *)

Lemma a_find_Some b id o :
  NoDup (a_ids b) -> a_find b id = Some o <-> o ∈ a_orders b /\ o_id o = id.
Proof.
  intros Hn. unfold a_find, a_ids in *. rewrite fmap_Some. split.
  - intros ([i x] & Hf & ->). apply list_find_Some in Hf as (Hl & Hi & _). simpl.
    split; [by eapply list_elem_of_lookup_2|done].
  - intros [Hin Hid]. apply list_elem_of_lookup_1 in Hin as [i Hi].
    exists (i, o). split; [|done]. apply list_find_Some. split; [done|]. split; [done|].
    intros j y Hj Hlt Hy. assert (i = j); [|lia].
    eapply NoDup_lookup; [exact Hn|..].
    + change (map o_id) with (fmap (M := list) o_id). rewrite list_lookup_fmap, Hi. done.
    + change (map o_id) with (fmap (M := list) o_id). rewrite list_lookup_fmap, Hj. simpl. congruence.
Qed.

Lemma a_find_None b id : a_find b id = None <-> a_contains b id = false.
Proof.
  unfold a_find. rewrite a_contains_false, fmap_None, list_find_None. unfold a_ids.
  rewrite Forall_forall. split.
  - intros H Hin. apply list_elem_of_fmap in Hin as (o & -> & Hin). by apply (H o Hin).
  - intros H o Hin Heq. apply H. rewrite <- Heq. by apply (list_elem_of_fmap_2 o_id).
Qed.

(** ** Aggregates *)

Lemma sum_quantity_app l l' : sum_quantity (l ++ l') = sum_quantity l + sum_quantity l'.
Proof. induction l as [|o l IH]; simpl; lia. Qed.

(** Summing with 64-bit wrap-around at every step is wrapping the sum. *)
Lemma fold_quantity_wrap (l : list Order) : forall acc,
  fold_left (fun total o => u64 (total + o_quantity o)) l (u64 acc) = u64 (acc + sum_quantity l).
Proof.
  induction l as [|o l IH]; intros acc; simpl; [by rewrite Z.add_0_r|].
  replace (u64 (u64 acc + o_quantity o)) with (u64 (acc + o_quantity o)).
  - rewrite IH. f_equal. lia.
  - unfold u64, wrap. by rewrite Zplus_mod_idemp_l.
Qed.

Lemma at_price_app p l l' : at_price p (l ++ l') = at_price p l ++ at_price p l'.
Proof. unfold at_price. apply filter_app. Qed.
Lemma at_price_all p l : Forall (fun o => o_price o = p) l -> at_price p l = l.
Proof. intros H. unfold at_price. induction H; [done|]. rewrite filter_cons, decide_True by done. by f_equal. Qed.
Lemma at_price_none p l : Forall (fun o => o_price o <> p) l -> at_price p l = [].
Proof. intros H. unfold at_price. induction H; [done|]. by rewrite filter_cons, decide_False. Qed.

(** A block of orders of one price in front of a queue of other prices. *)
Lemma a_prices_block p l l' :
  l <> [] -> Forall (fun o => o_price o = p) l -> head (a_prices l') <> Some p ->
  a_prices (l ++ l') = p :: a_prices l'.
Proof.
  intros Hne Hl Hh. induction Hl as [|o l Ho Hl IH]; [done|]. simpl.
  destruct l as [|o' l].
  - simpl. rewrite Ho. destruct (a_prices l') as [|p' ps]; [done|].
    destruct (Z.eqb_spec p' p) as [->|]; done.
  - rewrite IH by done. rewrite Ho. by rewrite Z.eqb_refl.
Qed.

(** ** Inserting into a queue *)

(** Appending at the end of the level of [o]'s price is inserting behind every
    order whose price is not worse. *)
Lemma a_insert_level is_bid o l l' :
  Forall (fun x => better is_bid (o_price o) (o_price x) = false) l ->
  a_insert is_bid o (l ++ l') = l ++ a_insert is_bid o l'.
Proof. induction 1 as [|x l Hx Hl IH]; simpl; [done|]. by rewrite Hx, IH. Qed.

Lemma filter_absent_id id (l : list Order) :
  id ∉ map o_id l -> filter (fun x => o_id x <> id) l = l.
Proof.
  induction l as [|o l IH]; [done|]. simpl. intros Hn. rewrite filter_cons, decide_True by set_solver.
  f_equal. apply IH. set_solver.
Qed.

(** ** One order of a side *)

Lemma a_side_split_ids b is_bid l1 o l2 :
  NoDup (a_ids b) -> a_side is_bid b = l1 ++ o :: l2 ->
  o_id o ∉ map o_id l1 /\ o_id o ∉ map o_id l2 /\ o_id o ∉ map o_id (a_side (negb is_bid) b).
Proof.
  intros Hn Hs. rewrite (a_ids_sides b is_bid), Hs, map_app in Hn. cbn [map] in Hn.
  rewrite <- app_assoc in Hn. apply NoDup_app in Hn as (_ & Hd & Hn). cbn [app] in Hn.
  apply NoDup_cons in Hn as [Hn _]. rewrite elem_of_app in Hn. split_and!; [|tauto|tauto].
  intros Hin. apply (Hd _ Hin). set_solver.
Qed.

Lemma a_remove_split b is_bid l1 o l2 :
  NoDup (a_ids b) -> a_side is_bid b = l1 ++ o :: l2 ->
  a_remove (o_id o) b = a_set_side is_bid (l1 ++ l2) b.
Proof.
  intros Hn Hs. destruct (a_side_split_ids _ _ _ _ _ Hn Hs) as (H1 & H2 & H3).
  assert (filter (fun x => o_id x <> o_id o) (a_side is_bid b) = l1 ++ l2) as Hf.
  { rewrite Hs, filter_app, filter_cons, decide_False by naive_solver. by rewrite !filter_absent_id. }
  apply filter_absent_id in H3. unfold a_remove. destruct is_bid; cbn [a_side negb a_set_side] in *; by rewrite Hf, H3.
Qed.

Lemma map_absent_id id q (l : list Order) :
  id ∉ map o_id l -> map (fun o => if o_id o =? id then set_quantity q o else o) l = l.
Proof.
  induction l as [|o l IH]; [done|]. cbn [map]. intros Hn. rewrite IH by set_solver.
  destruct (Z.eqb_spec (o_id o) id); [set_solver|done].
Qed.

Lemma a_assign_split b is_bid l1 o l2 q :
  NoDup (a_ids b) -> a_side is_bid b = l1 ++ o :: l2 ->
  a_assign (o_id o) q b = a_set_side is_bid (l1 ++ set_quantity q o :: l2) b.
Proof.
  intros Hn Hs. destruct (a_side_split_ids _ _ _ _ _ Hn Hs) as (H1 & H2 & H3).
  assert (map (fun x => if o_id x =? o_id o then set_quantity q x else x) (a_side is_bid b) =
    l1 ++ set_quantity q o :: l2) as Hf.
  { rewrite Hs, map_app. cbn [map]. by rewrite Z.eqb_refl, !map_absent_id. }
  apply (map_absent_id _ q) in H3. unfold a_assign. destruct is_bid; cbn [a_side negb a_set_side] in *; by rewrite Hf, H3.
Qed.

(** ** How many orders rest *)

Lemma a_take_length b id side limit mkt q ts r b' :
  a_take b id side limit mkt q = (ts, r, b') ->
  let '(_, _, opp') := a_match id (can_match_level (is_buy side) mkt limit) q (a_side (negb (is_buy side)) b) in
  (length (a_orders b') + length (a_side (negb (is_buy side)) b) = length (a_orders b) + length opp')%nat.
Proof.
  unfold a_take. destruct (a_match _ _ _ _) as [[ts0 r0] opp']. intros [= -> -> <-]. unfold a_orders.
  destruct (is_buy side); cbn [negb a_side a_set_side a_bids a_asks]; rewrite !length_app; lia.
Qed.

Lemma a_rest_length o b : length (a_orders (a_rest o b)) = S (length (a_orders b)).
Proof.
  unfold a_rest, a_orders. destruct (is_buy (o_side o)); cbn [a_set_side a_side a_bids a_asks];
    rewrite !length_app, (Permutation_length (a_insert_Permutation _ _ _)); cbn [length]; lia.
Qed.

Lemma a_take_shrinks b id side limit mkt q ts r b' :
  0 <= q -> a_take b id side limit mkt q = (ts, r, b') -> (length (a_orders b') <= length (a_orders b))%nat.
Proof.
  intros Hq Ht. pose proof (a_take_length _ _ _ _ _ _ _ _ _ Ht) as Hlen.
  destruct (a_match id _ q _) as [[ts0 r0] opp'] eqn:Em.
  pose proof (sublist_length _ _ (consumes_ids _ _ _ _ _ _ _ (a_match_consumes _ _ _ _ _ _ _ Hq Em))) as Hsh.
  rewrite !List.length_map in Hsh. lia.
Qed.

Lemma a_remove_length id b : (length (a_orders (a_remove id b)) <= length (a_orders b))%nat.
Proof.
  unfold a_remove, a_orders. cbn [a_bids a_asks]. rewrite !length_app.
  pose proof (length_filter (fun o => o_id o <> id) (a_bids b)). pose proof (length_filter (fun o => o_id o <> id) (a_asks b)). lia.
Qed.

Lemma a_assign_length id q b : length (a_orders (a_assign id q b)) = length (a_orders b).
Proof. unfold a_assign, a_orders. cbn [a_bids a_asks]. by rewrite !length_app, !List.length_map. Qed.

Lemma a_add_limit_length b id side price q tif :
  0 <= q -> (length (a_orders (a_add_limit b id side price q tif).2) <= S (length (a_orders b)))%nat.
Proof.
  intros Hq. unfold a_add_limit. destruct (a_contains b id); [cbn; lia|].
  destruct (a_take b id side price false q) as [[ts r] b'] eqn:Ht. pose proof (a_take_shrinks _ _ _ _ _ _ _ _ _ Hq Ht).
  destruct (_ && _); cbn [snd]; [rewrite a_rest_length|]; lia.
Qed.

Lemma a_remove_length_lt id b : a_contains b id = true -> (length (a_orders (a_remove id b)) < length (a_orders b))%nat.
Proof.
  intros Hc%bool_decide_eq_true. rewrite <- !(List.length_map o_id). fold (a_ids (a_remove id b)) (a_ids b). rewrite a_ids_remove.
  by apply (length_filter_lt _ _ id); [|intros ?].
Qed.

Lemma a_modify_length b id p q : 0 <= q -> (length (a_orders (a_modify b id p q).2) <= length (a_orders b))%nat.
Proof.
  intros Hq. unfold a_modify. destruct (a_find b id) as [o|] eqn:Ef; [|cbn [snd]; lia].
  assert (a_contains b id = true) as Hc.
  { destruct (a_contains b id) eqn:Hc; [done|]. apply a_find_None in Hc. congruence. }
  pose proof (a_remove_length_lt id b Hc) as Hlt. destruct (q =? 0); [cbn [snd]; lia|]. destruct (_ && _); [cbn [snd]; by rewrite a_assign_length|].
  pose proof (a_add_limit_length (a_remove id b) id (o_side o) p q GTC Hq). lia.
Qed.

(** ** How many trades *)

Lemma a_match_count taker cross opp : forall q, (length (a_match taker cross q opp).1.1 <= length opp)%nat.
Proof.
  induction opp as [|o opp IH]; intros q; cbn [a_match]; [done|]. case_if; [|cbn; lia]. case_if; [|cbn; lia].
  specialize (IH (q - o_quantity o)). destruct (a_match _ _ _ _) as [[ts r] l]. cbn in *. lia.
Qed.

Lemma a_take_count b id side limit mkt q : (length (a_take b id side limit mkt q).1.1 <= length (a_orders b))%nat.
Proof.
  unfold a_take. pose proof (a_match_count id (can_match_level (is_buy side) mkt limit) (a_side (negb (is_buy side)) b) q) as H.
  destruct (a_match _ _ _ _) as [[ts r] l]. cbn in *. unfold a_orders. rewrite length_app. destruct (is_buy side); cbn in *; lia.
Qed.

Lemma a_add_limit_count b id side price q tif : (length (a_add_limit b id side price q tif).1 <= length (a_orders b))%nat.
Proof.
  unfold a_add_limit. case_if; [cbn; lia|]. pose proof (a_take_count b id side price false q) as H. destruct (a_take _ _ _ _ _ _) as [[ts r] b']. by case_if.
Qed.
Lemma a_add_market_count b id side q : (length (a_add_market b id side q).1 <= length (a_orders b))%nat.
Proof.
  unfold a_add_market. case_if; [cbn; lia|]. pose proof (a_take_count b id side 0 true q) as H. by destruct (a_take _ _ _ _ _ _) as [[ts r] b'].
Qed.
Lemma a_modify_count b id p q : (length (a_modify b id p q).1 <= length (a_orders b))%nat.
Proof.
  unfold a_modify. destruct (a_find b id) as [o|]; [|cbn; lia]. case_if; [cbn; lia|]. case_if; [cbn; lia|].
  pose proof (a_add_limit_count (a_remove id b) id (o_side o) p q GTC). pose proof (a_remove_length id b). lia.
Qed.
Lemma a_add_market_length b id side q : 0 <= q -> (length (a_orders (a_add_market b id side q).2) <= length (a_orders b))%nat.
Proof.
  intros Hq. unfold a_add_market. case_if; [done|]. destruct (a_take _ _ _ _ _ _) as [[ts r] b'] eqn:E. cbn. by eapply a_take_shrinks.
Qed.
