(* ===== verification/BookRun.v ===== *)
(** * BookRun: sequences of book operations

    Labelled steps of any storage that satisfies [BookStoreLaws]: a step is one
    public mutator applied to a book that has room for it and whose admission
    checks accept it, labelled with the command and the trades it returned.
    Whole runs refine runs of the abstract book, so two storages that take the
    same commands return the same trades and answer every query alike. *)
From S2P Require Import Prelude Core Book BookSpec.

(** ** Rename: the abstract book under a renaming of order ids

    Matching, resting, canceling and modifying do not depend on the numbers used
    as order ids, only on which of them are equal. *)

Section Rename.
Context (f : OrderId -> OrderId) (P : OrderId -> Prop).
Context (Hinj : forall a b, P a -> P b -> f a = f b -> a = b).

Definition rename_order (o : Order) : Order := mkOrder (f (o_id o)) (o_side o) (o_price o) (o_quantity o).
Definition rename_trade (t : Trade) : Trade := mkTrade (f (t_taker_id t)) (f (t_maker_id t)) (t_price t) (t_quantity t).
Definition rename_book (b : ABook) : ABook := mkABook (map rename_order (a_bids b)) (map rename_order (a_asks b)).

(** Every id of the book is one the renaming keeps apart. *)
Definition known (b : ABook) : Prop := Forall (fun o => P (o_id o)) (a_orders b).

Lemma rename_side is_bid b : a_side is_bid (rename_book b) = map rename_order (a_side is_bid b).
Proof. by destruct is_bid. Qed.
Lemma rename_set_side is_bid l b : a_set_side is_bid (map rename_order l) (rename_book b) = rename_book (a_set_side is_bid l b).
Proof. by destruct is_bid. Qed.
Lemma rename_orders b : a_orders (rename_book b) = map rename_order (a_orders b).
Proof. unfold a_orders, rename_book. cbn. by rewrite map_app. Qed.

Lemma rename_match taker cross opp : forall q,
  a_match (f taker) cross q (map rename_order opp) =
    let '(ts, r, l) := a_match taker cross q opp in (map rename_trade ts, r, map rename_order l).
Proof.
  induction opp as [|o opp IH]; intros q; cbn [a_match map rename_order o_id o_price o_quantity]; [done|].
  destruct (_ && _); [|done]. destruct (o_quantity o <=? q); [|done]. rewrite IH. by destruct (a_match taker cross (q - o_quantity o) opp) as [[ts r] l].
Qed.

Lemma rename_insert is_bid o l : a_insert is_bid (rename_order o) (map rename_order l) = map rename_order (a_insert is_bid o l).
Proof.
  induction l as [|x l IH]; cbn [a_insert map]; [done|]. cbn [rename_order o_price]. destruct (better _ _ _); [done|]. cbn [map]. by rewrite <- IH.
Qed.

Lemma rename_take b id side limit is_market q :
  a_take (rename_book b) (f id) side limit is_market q =
    let '(ts, r, b') := a_take b id side limit is_market q in (map rename_trade ts, r, rename_book b').
Proof.
  unfold a_take. rewrite rename_side, rename_match. destruct (a_match _ _ _ _) as [[ts r] l]. by rewrite rename_set_side.
Qed.

Lemma rename_rest o b : a_rest (rename_order o) (rename_book b) = rename_book (a_rest o b).
Proof. unfold a_rest. change (o_side (rename_order o)) with (o_side o). by rewrite rename_side, rename_insert, rename_set_side. Qed.

Lemma elem_of_ids b id : id ∈ a_ids b <-> exists o, o ∈ a_orders b /\ o_id o = id.
Proof. unfold a_ids. rewrite list_elem_of_fmap. split; intros (o & H1 & H2); by exists o. Qed.

Lemma rename_contains b id : known b -> P id -> a_contains (rename_book b) (f id) = a_contains b id.
Proof.
  intros Hk Hid. unfold a_contains. apply bool_decide_ext. rewrite !elem_of_ids, rename_orders. unfold known in Hk. rewrite Forall_forall in Hk. split.
  - intros (o & (o' & -> & Ho)%list_elem_of_fmap & He). exists o'. split; [done|]. apply Hinj; [by apply Hk|done|done].
  - intros (o & Ho & <-). exists (rename_order o). split; [|done]. apply list_elem_of_fmap. by exists o.
Qed.

Lemma rename_find b id : known b -> P id -> a_find (rename_book b) (f id) = rename_order <$> a_find b id.
Proof.
  intros Hk Hid. unfold a_find, known in *. rewrite rename_orders. induction Hk as [|o l Ho Hk IH]; [done|]. cbn [map list_find rename_order o_id].
  destruct (decide (o_id o = id)) as [->|Hne].
  - by rewrite decide_True.
  - rewrite decide_False by (intros H; apply Hne; by apply Hinj).
    destruct (list_find _ (map _ l)) as [[i x]|], (list_find _ l) as [[j y]|]; cbn in *; try done; by injection IH as ->.
Qed.

Lemma rename_filter id l : Forall (fun o => P (o_id o)) l -> P id ->
  filter (fun o => o_id o <> f id) (map rename_order l) = map rename_order (filter (fun o => o_id o <> id) l).
Proof.
  intros Hk Hid. induction Hk as [|o l Ho Hk IH]; [done|]. cbn [map]. destruct (decide (o_id o = id)) as [<-|Hne].
  - rewrite !filter_cons_False by (cbn; tauto). done.
  - rewrite !filter_cons_True; [cbn [map]; by rewrite IH|done|]. cbn. intros H. apply Hne. by apply Hinj.
Qed.

Lemma known_sides b : known b -> Forall (fun o => P (o_id o)) (a_bids b) /\ Forall (fun o => P (o_id o)) (a_asks b).
Proof. by intros H%Forall_app. Qed.

Lemma rename_remove b id : known b -> P id -> a_remove (f id) (rename_book b) = rename_book (a_remove id b).
Proof. intros [Hb Ha]%known_sides Hid. unfold a_remove, rename_book. cbn. by rewrite !rename_filter. Qed.

Lemma rename_assign b id q : known b -> P id -> a_assign (f id) q (rename_book b) = rename_book (a_assign id q b).
Proof.
  intros [Hb Ha]%known_sides Hid. unfold a_assign, rename_book. cbn. rewrite !map_map.
  assert (forall o, P (o_id o) -> (if f (o_id o) =? f id then set_quantity q (rename_order o) else rename_order o) =
    rename_order (if o_id o =? id then set_quantity q o else o)) as Ho.
  { intros o Hp. destruct (Z.eqb_spec (o_id o) id) as [->|Hne]; [by rewrite Z.eqb_refl|]. rewrite (proj2 (Z.eqb_neq _ _)); [done|].
    intros H. apply Hne. by apply Hinj. }
  f_equal; apply map_ext_in; intros o Hin%list_elem_of_In; apply Ho; [rewrite Forall_forall in Hb; by apply Hb|rewrite Forall_forall in Ha; by apply Ha].
Qed.

Lemma rename_add_limit b id side price q tif : known b -> P id ->
  a_add_limit (rename_book b) (f id) side price q tif =
    let '(ts, b') := a_add_limit b id side price q tif in (map rename_trade ts, rename_book b').
Proof.
  intros Hk Hid. unfold a_add_limit. rewrite rename_contains by done. destruct (a_contains b id); [done|]. rewrite rename_take.
  destruct (a_take b id side price false q) as [[ts r] b1]. destruct (_ && _); [|done].
  by rewrite <- (rename_rest (mkOrder id side price r)).
Qed.

Lemma rename_add_market b id side q : known b -> P id ->
  a_add_market (rename_book b) (f id) side q = let '(ts, b') := a_add_market b id side q in (map rename_trade ts, rename_book b').
Proof.
  intros Hk Hid. unfold a_add_market. rewrite rename_contains by done. destruct (a_contains b id); [done|]. rewrite rename_take.
  by destruct (a_take b id side 0 true q) as [[ts r] b1].
Qed.

(** ** The ids of a book after an operation *)

Lemma known_remove b id : known b -> known (a_remove id b).
Proof.
  intros [Hb Ha]%known_sides. unfold known, a_remove, a_orders. cbn. apply Forall_app.
  split; apply Forall_forall; intros o [_ Ho]%list_elem_of_filter; [rewrite Forall_forall in Hb; by apply Hb|rewrite Forall_forall in Ha; by apply Ha].
Qed.

Lemma known_assign b id q : known b -> known (a_assign id q b).
Proof.
  intros [Hb Ha]%known_sides. unfold known, a_assign, a_orders. cbn. apply Forall_app.
  split; apply Forall_map; [eapply Forall_impl; [exact Hb|]|eapply Forall_impl; [exact Ha|]]; intros o Ho; cbn; by destruct (o_id o =? id).
Qed.

Lemma known_match taker cross opp : forall q, Forall (fun o => P (o_id o)) opp -> Forall (fun o => P (o_id o)) (a_match taker cross q opp).2.
Proof.
  induction opp as [|o opp IH]; intros q Hk; cbn [a_match]; [done|]. apply Forall_cons in Hk as [Ho Hk].
  destruct (_ && _); [|by constructor]. destruct (_ <=? _); [|by constructor]. specialize (IH (q - o_quantity o) Hk).
  by destruct (a_match _ _ _ _) as [[ts r] l].
Qed.

Lemma known_take b id side limit is_market q : known b -> known (a_take b id side limit is_market q).2.
Proof.
  intros [Hb Ha]%known_sides. unfold a_take.
  assert (Forall (fun o => P (o_id o)) (a_side (negb (is_buy side)) b)) as Hs by (by destruct (is_buy side)).
  pose proof (known_match id (can_match_level (is_buy side) is_market limit) _ q Hs) as Hm.
  destruct (a_match _ _ _ _) as [[ts r] l]. cbn [snd] in *. unfold known, a_orders. destruct (is_buy side); cbn; apply Forall_app; by split.
Qed.

Lemma known_insert is_bid o l : Forall (fun o => P (o_id o)) l -> P (o_id o) -> Forall (fun o => P (o_id o)) (a_insert is_bid o l).
Proof.
  intros Hl Ho. induction Hl as [|x l Hx Hl IH]; cbn [a_insert]; [by constructor|]. destruct (better _ _ _); by repeat constructor.
Qed.

Lemma known_add_limit b id side price q tif : known b -> P id -> known (a_add_limit b id side price q tif).2.
Proof.
  intros Hk Hid. unfold a_add_limit. destruct (a_contains b id); [done|]. pose proof (known_take b id side price false q Hk) as Ht.
  destruct (a_take _ _ _ _ _ _) as [[ts r] b1]. cbn [snd] in Ht. destruct (_ && _); [|done]. cbn [snd].
  apply known_sides in Ht as [Hb Ha]. unfold a_rest, known, a_orders. cbn [o_side]. destruct (is_buy side); cbn; apply Forall_app; split; try done; by apply known_insert.
Qed.

Lemma known_add_market b id side q : known b -> known (a_add_market b id side q).2.
Proof.
  intros Hk. unfold a_add_market. destruct (a_contains b id); [done|]. pose proof (known_take b id side 0 true q Hk) as Ht.
  by destruct (a_take _ _ _ _ _ _) as [[ts r] b1].
Qed.

Lemma rename_modify b id price q : known b -> P id ->
  a_modify (rename_book b) (f id) price q = let '(ts, b') := a_modify b id price q in (map rename_trade ts, rename_book b').
Proof.
  intros Hk Hid. unfold a_modify. rewrite rename_find by done. destruct (a_find b id) as [o|]; cbn; [|done].
  destruct (q =? 0); [by rewrite rename_remove|]. destruct (_ && _); [by rewrite rename_assign|].
  rewrite rename_remove by done. apply rename_add_limit; [by apply known_remove|done].
Qed.

Lemma known_modify b id price q : known b -> P id -> known (a_modify b id price q).2.
Proof.
  intros Hk Hid. unfold a_modify. destruct (a_find b id) as [o|]; [|done]. destruct (q =? 0); [by apply known_remove|].
  destruct (_ && _); [by apply known_assign|]. apply known_add_limit; [by apply known_remove|done].
Qed.
End Rename.

(** ** Sequences of book operations *)

Inductive BookCmd :=
| BookLimit (id : OrderId) (side : Side) (price : Price) (quantity : Quantity) (tif : TimeInForce)
| BookMarket (id : OrderId) (side : Side) (quantity : Quantity)
| BookCancel (id : OrderId)
| BookModify (id : OrderId) (new_price : Price) (new_quantity : Quantity).

(** Arguments in the ranges of their C++ types, sides that are enumerators. *)
Definition cmd_ok (c : BookCmd) : Prop :=
  match c with
  | BookLimit _ side _ q _ => is_valid_side side = true /\ in_u32 q
  | BookMarket _ side q => is_valid_side side = true /\ in_u32 q
  | BookCancel _ => True
  | BookModify _ _ q => in_u32 q
  end.

Definition a_exec (b : ABook) (c : BookCmd) : list Trade * ABook :=
  match c with
  | BookLimit id side price q tif => a_add_limit b id side price q tif
  | BookMarket id side q => a_add_market b id side q
  | BookCancel id => ([], (a_cancel b id).2)
  | BookModify id p q => a_modify b id p q
  end.

Fixpoint a_run (b : ABook) (cmds : list BookCmd) : list (list Trade) * ABook :=
  match cmds with
  | [] => ([], b)
  | c :: cmds' =>
      let '(ts, b1) := a_exec b c in
      let '(tss, b2) := a_run b1 cmds' in
      (ts :: tss, b2)
  end.

Lemma a_exec_wf b c : a_wf b -> cmd_ok c -> a_wf (a_exec b c).2.
Proof.
  intros Hwf. destruct c; simpl.
  - intros [_ ?]. by apply a_add_limit_wf.
  - intros [_ ?]. by apply a_add_market_wf.
  - intros _. by apply a_cancel_wf.
  - intros ?. by apply a_modify_wf.
Qed.

(** A command adds at most one resting order. *)
Lemma a_exec_length b c : cmd_ok c -> (length (a_orders (a_exec b c).2) <= S (length (a_orders b)))%nat.
Proof.
  destruct c as [id side price q tif|id side q|id|id p q]; cbn [cmd_ok a_exec snd]; unfold in_u32.
  - intros [_ Hq]. apply a_add_limit_length. lia.
  - intros [_ Hq]. unfold a_add_market. destruct (a_contains b id); [cbn; lia|].
    destruct (a_take b id side 0 true q) as [[ts r] b'] eqn:Ht. apply a_take_shrinks in Ht; [cbn; lia|lia].
  - intros _. unfold a_cancel. pose proof (a_remove_length id b). destruct (a_contains b id); cbn [snd]; lia.
  - intros Hq. pose proof (a_modify_length b id p q). lia.
Qed.

Section Runs.
Context {B : Type} `{HL : BookStoreLaws B}.

Definition bs_exec (b : B) (c : BookCmd) : list Trade * B :=
  match c with
  | BookLimit id side price q tif => bs_add_limit b id side price q tif
  | BookMarket id side q => bs_add_market b id side q
  | BookCancel id => ([], (bs_cancel b id).2)
  | BookModify id p q => bs_modify b id p q
  end.

(** The admission checks callers run before a mutator. *)
Definition bs_admits (b : B) (c : BookCmd) : bool :=
  match c with
  | BookLimit _ side price q tif => bs_can_store_limit b side price q tif
  | BookModify id p q => bs_can_apply_modify b id p q
  | _ => true
  end.

Inductive book_step (b : B) (c : BookCmd) (ts : list Trade) (b' : B) : Prop :=
| book_step_intro :
    cmd_ok c -> bs_room b -> bs_admits b c = true -> bs_exec b c = (ts, b') ->
    book_step b c ts b'.

Inductive book_steps : B -> list BookCmd -> list (list Trade) -> B -> Prop :=
| book_steps_nil b : book_steps b [] [] b
| book_steps_cons b c ts b1 cmds tss b2 :
    book_step b c ts b1 -> book_steps b1 cmds tss b2 ->
    book_steps b (c :: cmds) (ts :: tss) b2.

Lemma bs_exec_refines b c :
  bs_wf b -> cmd_ok c -> bs_room b -> bs_admits b c = true ->
  let r := bs_exec b c in bs_wf r.2 /\ (r.1, bs_abs r.2) = a_exec (bs_abs b) c.
Proof.
  intros Hwf Hok Hroom Hadm. destruct c as [id side price q tif|id side q|id|id p q]; simpl in *.
  - destruct Hok. by apply bs_add_limit_ok.
  - destruct Hok. by apply bs_add_market_ok.
  - destruct (bs_cancel_ok b id Hwf Hroom) as [? Hc]. split; [done|]. by rewrite <- Hc.
  - by apply bs_modify_ok.
Qed.

Lemma book_step_refines b c ts b' :
  bs_wf b -> book_step b c ts b' -> bs_wf b' /\ a_exec (bs_abs b) c = (ts, bs_abs b').
Proof.
  intros Hwf [Hok Hroom Hadm He].
  pose proof (bs_exec_refines b c Hwf Hok Hroom Hadm) as [Hwf' Hr]. by rewrite He in Hwf', Hr.
Qed.

Lemma book_steps_refine b cmds tss b' :
  bs_wf b -> book_steps b cmds tss b' -> bs_wf b' /\ a_run (bs_abs b) cmds = (tss, bs_abs b').
Proof.
  intros Hwf Hs. induction Hs as [b|b c ts b1 cmds tss b2 H1 Hs IH]; [done|].
  destruct (book_step_refines _ _ _ _ Hwf H1) as [Hwf1 He].
  destruct (IH Hwf1) as [Hwf2 Hr]. simpl. by rewrite He, Hr.
Qed.

(** The run as a function: it stops being a run of [book_steps] only where an
    admission check refuses a command, which is then skipped. *)
Fixpoint bs_run (b : B) (cmds : list BookCmd) : list (list Trade) * B :=
  match cmds with
  | [] => ([], b)
  | c :: cmds' =>
      let '(ts, b1) := if bs_admits b c then bs_exec b c else ([], b) in
      let '(tss, b2) := bs_run b1 cmds' in
      (ts :: tss, b2)
  end.

Lemma bs_run_wf cmds : forall b,
  (forall b, bs_room b) -> bs_wf b -> Forall cmd_ok cmds -> bs_wf (bs_run b cmds).2.
Proof.
  induction cmds as [|c cmds IH]; intros b Hroom Hwf Hok; [done|].
  apply Forall_cons in Hok as [Hc Hok]. simpl.
  destruct (bs_admits b c) eqn:Ea.
  - pose proof (bs_exec_refines b c Hwf Hc (Hroom b) Ea) as [Hwf1 _].
    destruct (bs_exec b c) as [ts b1]. specialize (IH b1 Hroom Hwf1 Hok).
    by destruct (bs_run b1 cmds).
  - specialize (IH b Hroom Hwf Hok). by destruct (bs_run b cmds).
Qed.

Lemma bs_run_steps cmds : forall b,
  (forall b, bs_room b) -> (forall b c, bs_admits b c = true) -> Forall cmd_ok cmds ->
  book_steps b cmds (bs_run b cmds).1 (bs_run b cmds).2.
Proof.
  induction cmds as [|c cmds IH]; intros b Hroom Hadm Hok; [constructor|].
  apply Forall_cons in Hok as [Hc Hok]. simpl. rewrite Hadm.
  destruct (bs_exec b c) as [ts b1] eqn:E. specialize (IH b1 Hroom Hadm Hok).
  destruct (bs_run b1 cmds) as [tss b2]. econstructor; [by constructor|done].
Qed.
End Runs.

(** ** Re-adding the resting orders *)

Definition relimit (o : Order) : BookCmd := BookLimit (o_id o) (o_side o) (o_price o) (o_quantity o) GTC.

Lemma a_insert_last is_bid o l :
  Forall (fun x => in_order is_bid x o) l -> a_insert is_bid o l = l ++ [o].
Proof. induction 1 as [|x l Hx Hl IH]; simpl; [done|]. by rewrite Hx, IH. Qed.

Lemma a_add_resting b o :
  o_id o ∉ a_ids b -> 0 < o_quantity o ->
  Forall (fun y => can_match_level (is_buy (o_side o)) false (o_price o) (o_price y) = false)
    (a_side (negb (is_buy (o_side o))) b) ->
  a_exec b (relimit o) = ([], a_rest o b).
Proof.
  intros Hid Hq Hx. simpl. unfold a_add_limit, a_take.
  rewrite (proj2 (a_contains_false _ _) Hid).
  assert (a_match (o_id o) (can_match_level (is_buy (o_side o)) false (o_price o)) (o_quantity o)
    (a_side (negb (is_buy (o_side o))) b) = ([], o_quantity o, a_side (negb (is_buy (o_side o))) b)) as ->.
  { destruct Hx as [|y l Hy Hl]; [done|]. by rewrite a_match_no_cross. }
  replace (0 <? o_quantity o) with true by lia. simpl.
  replace (a_set_side _ _ b) with b; [by destruct o|]. by destruct b, (is_buy (o_side o)).
Qed.

(** Appending the tail of a well-formed side to its head, order by order. *)
Lemma a_restore_side is_bid b l2 : forall l1,
  side_wf is_bid (l1 ++ l2) -> a_side is_bid b = l1 ->
  NoDup (map o_id (l1 ++ l2)) ->
  Forall (fun o => o_id o ∉ map o_id (a_side (negb is_bid) b)) l2 ->
  Forall (fun o => Forall (fun y => can_match_level is_bid false (o_price o) (o_price y) = false)
    (a_side (negb is_bid) b)) l2 ->
  a_run b (map relimit l2) = (replicate (length l2) [], a_set_side is_bid (l1 ++ l2) b).
Proof.
  revert b. induction l2 as [|o l2 IH]; intros b l1 Hwf Hl1 Hnd Hids Hx.
  { rewrite app_nil_r, <- Hl1. by destruct b, is_bid. }
  apply Forall_cons in Hids as [Hid Hids], Hx as [Hxo Hx]. pose proof Hwf as [Hs Hq Hd].
  apply Forall_app in Hq as [_ [[_ Hq] _]%Forall_cons], Hd as [_ [Hd _]%Forall_cons].
  assert (a_rest o b = a_set_side is_bid (l1 ++ [o]) b) as Hrest.
  { unfold a_rest. rewrite Hd, Hl1, a_insert_last; [done|].
    apply Forall_forall. intros x Hin. apply list_elem_of_split in Hin as (k1 & k2 & ->).
    rewrite <- app_assoc in Hs. apply StronglySorted_app_1_r in Hs. inv Hs.
    apply Forall_app in H2 as [_ H2]. by apply Forall_cons in H2 as [H2 _]. }
  cbn [map a_run]. rewrite a_add_resting; [| |done|by rewrite Hd].
  - rewrite Hrest. erewrite IH with (l1 := l1 ++ [o]); try (by rewrite <- app_assoc).
    + rewrite <- app_assoc. simpl. by destruct b, is_bid.
    + by destruct b, is_bid.
    + by destruct b, is_bid.
    + by destruct b, is_bid.
  - unfold a_ids, a_orders. rewrite (a_ids_sides b is_bid). intros [Hin|Hin]%elem_of_app; [|done].
    rewrite map_app in Hnd. apply NoDup_app in Hnd as (_ & Hnd & _).
    rewrite Hl1 in Hin. apply (Hnd _ Hin). simpl. apply elem_of_cons. by left.
Qed.

Lemma a_run_app b cmds1 cmds2 :
  a_run b (cmds1 ++ cmds2) =
    let '(t1, b1) := a_run b cmds1 in let '(t2, b2) := a_run b1 cmds2 in (t1 ++ t2, b2).
Proof.
  revert b. induction cmds1 as [|c cmds1 IH]; intros b; simpl; [by destruct (a_run b cmds2)|].
  destruct (a_exec b c) as [ts b1]. rewrite IH. destruct (a_run b1 cmds1) as [t1 b2].
  by destruct (a_run b2 cmds2).
Qed.

Lemma a_restore b :
  a_wf b -> a_run a_empty (map relimit (a_orders b)) = (replicate (length (a_orders b)) [], b).
Proof.
  intros [Hb Ha Hn Hu]. unfold a_ids, a_orders in *. rewrite map_app in Hn.
  apply NoDup_app in Hn as (Hnb & Hd & Hna). rewrite map_app, a_run_app.
  rewrite (a_restore_side true a_empty (a_bids b) []); try done; simpl.
  2:{ apply Forall_forall. intros o _. simpl. apply not_elem_of_nil. }
  2:{ apply Forall_forall. intros o _. constructor. }
  rewrite (a_restore_side false (mkABook (a_bids b) []) (a_asks b) []); try done; simpl.
  - rewrite length_app, replicate_add. by destruct b.
  - apply Forall_forall. intros o Ho Hin. apply (Hd _ Hin). by apply (list_elem_of_fmap_2 o_id).
  - apply Forall_forall. intros o Ho. apply Forall_forall. intros y Hy. specialize (Hu y o Hy Ho).
    simpl. lia.
Qed.

(** ** Where an order comes to rest *)

(** The queue [l'] is [l] with [o] inserted behind every order of the same or a
    better price and in front of every order of a worse one. *)
Definition queued (is_bid : bool) (o : Order) (l l' : list Order) : Prop :=
  exists ahead behind, l = ahead ++ behind /\ l' = ahead ++ o :: behind /\
    Forall (fun x => better is_bid (o_price o) (o_price x) = false) ahead /\
    Forall (fun x => better is_bid (o_price o) (o_price x) = true) behind.

Lemma a_insert_queued is_bid o l : StronglySorted (in_order is_bid) l -> queued is_bid o l (a_insert is_bid o l).
Proof.
  induction 1 as [|x l Hs IH Hx]; [by exists [], []|]. cbn [a_insert]. case_if.
  - exists [], (x :: l). split_and!; try done. constructor; [done|]. eapply Forall_impl; [exact Hx|].
    intros y. unfold in_order, better in *. destruct is_bid; lia.
  - destruct IH as (ahead & behind & -> & -> & Ha & Hb). exists (x :: ahead), behind. split_and!; try done. by constructor.
Qed.

(** What a limit order did to a book: the opposite side was consumed in
    priority order, every unit of the order was either traded or left over, and
    the remainder of a GTC order was queued on its own side at its price. *)
Definition limit_outcome (id : OrderId) (side : Side) (price : Price) (q : Quantity)
    (tif : TimeInForce) (b : ABook) (ts : list Trade) (b' : ABook) : Prop :=
  let own := is_buy side in
  exists r,
    consumes id (can_match_level own false price) q (a_side (negb own) b) ts r (a_side (negb own) b') /\
    sum_trades ts + r = q /\
    (if (0 <? r) && bool_decide (tif = GTC)
     then queued own (mkOrder id side price r) (a_side own b) (a_side own b')
     else a_side own b' = a_side own b).

Lemma a_add_limit_outcome b id side price q tif :
  a_wf b -> 0 <= q -> a_contains b id = false ->
  limit_outcome id side price q tif b (a_add_limit b id side price q tif).1 (a_add_limit b id side price q tif).2.
Proof.
  intros Hwf Hq Hc. unfold a_add_limit. rewrite Hc.
  destruct (a_take b id side price false q) as [[ts r] b1] eqn:Et.
  apply a_take_consumes in Et as (opp & -> & Hcons); [|done]. pose proof (consumes_sum _ _ _ _ _ _ _ Hcons) as Hsum.
  exists r. destruct ((0 <? r) && bool_decide (tif = GTC)); cbn [fst snd]; split_and!; try done.
  - by destruct b, (is_buy side) eqn:E; unfold a_rest; cbn [o_side]; rewrite E.
  - pose proof (sw_sorted _ _ (a_side_wf _ (is_buy side) Hwf)) as Hs. apply (a_insert_queued _ (mkOrder id side price r)) in Hs.
    by destruct b, (is_buy side) eqn:E; unfold a_rest; cbn [o_side]; rewrite E.
  - by destruct b, (is_buy side).
  - by destruct b, (is_buy side).
Qed.

(** The totals of a side with fewer than 2^32 orders do not wrap. *)
Lemma sum_quantity_bound l :
  Forall (fun o => in_u32 (o_quantity o) /\ 0 < o_quantity o) l ->
  0 <= sum_quantity l <= Z.of_nat (length l) * (2 ^ 32 - 1).
Proof. induction 1 as [|o l [Ho Hp] Hl IH]; cbn [sum_quantity length]; unfold in_u32 in *; lia. Qed.

Lemma at_price_exact is_bid l p :
  side_wf is_bid l -> Z.of_nat (length l) <= 2 ^ 32 ->
  u64 (sum_quantity (at_price p l)) = sum_quantity (at_price p l).
Proof.
  intros [_ Hq _] Hl. unfold at_price.
  assert (length (filter (fun o => o_price o = p) l) <= length l)%nat by apply length_filter.
  assert (Forall (fun o => in_u32 (o_quantity o) /\ 0 < o_quantity o) (filter (fun o => o_price o = p) l)) as Hf.
  { rewrite Forall_forall in *. intros o [_ Ho]%list_elem_of_filter. auto. }
  apply sum_quantity_bound in Hf. unfold u64, wrap. apply Z.mod_small. nia.
Qed.
