(* ===== verification/OrderBook.v ===== *)
(** * OrderBook: the baseline storage of [qsl::engine::OrderBook]

    Translates the baseline (and pooled: same containers, another allocator)
    paths of include/qsl/engine/order_book.hpp and src/engine/order_book.cpp:
    two ordered maps of price levels, a FIFO [std::list] per level and a hash
    index from order id to (side, price, list iterator). *)
From S2P Require Import Prelude Core Book BookSpec.

(** A [std::list] node is its identity (what an iterator denotes) and the order
    it holds.  Iterators stay valid while other nodes come and go, so the
    identity, not the position, is what a locator stores. *)
Abbreviation node := Z (only parsing).
Abbreviation Level := (list (Z * Order)) (only parsing).

Record Locator := mkLocator {
  loc_side : Side;
  loc_price : Price;
  loc_it : node
}.

(** [next_node] stands for the allocator: the identity of the next list node. *)
Record OrderBook := mkOrderBook {
  bids_ : list (Price * Level);
  asks_ : list (Price * Level);
  index_ : gmap Z Locator;
  next_node : node
}.

(** [std::greater] for bids, [std::less] for asks: best price first. *)
Definition bid_before (a b : Price) : bool := b <? a.
Definition ask_before (a b : Price) : bool := a <? b.
Definition before_of (is_bid : bool) : Price -> Price -> bool :=
  if is_bid then bid_before else ask_before.

Definition empty_book : OrderBook := mkOrderBook [] [] ∅ 0.

Definition set_bids (m : list (Price * Level)) (b : OrderBook) : OrderBook :=
  mkOrderBook m (asks_ b) (index_ b) (next_node b).
Definition set_asks (m : list (Price * Level)) (b : OrderBook) : OrderBook :=
  mkOrderBook (bids_ b) m (index_ b) (next_node b).
Definition set_index (i : gmap Z Locator) (b : OrderBook) : OrderBook :=
  mkOrderBook (bids_ b) (asks_ b) i (next_node b).

(** ** Matching *)

(** The captured state of the loop over one level is the index. *)
Definition fill_front_order (level_price : Price) (s : gmap Z Locator * Level * MatchContext) :
    gmap Z Locator * Level * MatchContext :=
  let '(index, level, ctx) := s in
  match level with
  | [] => s (* not reached: the loop tests [!level.empty()] *)
  | (n, maker) :: rest =>
      let '(ctx', maker_quantity, filled) :=
        fill_maker ctx (o_id maker) (o_quantity maker) level_price in
      if filled then (delete (o_id maker) index, rest, ctx')
      else (index, (n, set_quantity maker_quantity maker) :: rest, ctx')
  end.

Definition fill_level_cond (s : gmap Z Locator * Level * MatchContext) : bool :=
  let '(_, level, ctx) := s in (0 <? c_quantity ctx) && negb (is_nil level).

(** One iteration pops the front order or leaves no quantity. *)
Definition fill_level (index : gmap Z Locator) (level : Level) (level_price : Price)
    (ctx : MatchContext) : gmap Z Locator * Level * MatchContext :=
  while (S (length level)) fill_level_cond (fill_front_order level_price) (index, level, ctx).

Definition erase_level_if_empty (price : Price) (levels : list (Price * Level)) :
    list (Price * Level) :=
  match om_find price levels with
  | Some [] => om_erase price levels
  | _ => levels
  end.

Definition match_against (index : gmap Z Locator) (opposite : list (Price * Level))
    (ctx : MatchContext) : gmap Z Locator * list (Price * Level) * MatchContext :=
  match_ordered_levels fill_level erase_level_if_empty index opposite ctx.

Definition match_baseline (side : Side) (b : OrderBook) (ctx : MatchContext) :
    OrderBook * MatchContext :=
  if is_buy side then
    let '(index, asks, ctx') := match_against (index_ b) (asks_ b) ctx in
    (set_index index (set_asks asks b), ctx')
  else
    let '(index, bids, ctx') := match_against (index_ b) (bids_ b) ctx in
    (set_index index (set_bids bids b), ctx').

Fixpoint count_level_matches (level : Level) (quantity : Quantity) : Z * Quantity :=
  match level with
  | [] => (0, quantity)
  | (_, maker) :: rest =>
      if 0 <? quantity then
        let traded := Z.min quantity (o_quantity maker) in
        let '(count, quantity') := count_level_matches rest (quantity - traded) in
        (count + 1, quantity')
      else (0, quantity)
  end.

Fixpoint count_matches (opposite : list (Price * Level)) (query : MatchQuery) : Z :=
  match opposite with
  | [] => 0
  | (level_price, level) :: rest =>
      if 0 <? q_quantity query then
        if negb (can_match_level (q_taker_is_buy query) (q_is_market query) (q_limit query)
                   level_price)
        then 0
        else
          let '(count, quantity') := count_level_matches level (q_quantity query) in
          count + count_matches rest
            (mkMatchQuery (q_taker_is_buy query) (q_limit query) (q_is_market query) quantity')
      else 0
  end.

(** ** Resting *)

Definition level_for (side : Side) (price : Price) (b : OrderBook) : OrderBook :=
  if is_buy side then set_bids (om_try_emplace bid_before price [] (bids_ b)) b
  else set_asks (om_try_emplace ask_before price [] (asks_ b)) b.

(** [level.push_back(Order{..})] on the level [level_for] returned, then the
    index entry with the iterator to the new last node. *)
Definition rest (id : OrderId) (side : Side) (price : Price) (quantity : Quantity)
    (b : OrderBook) : OrderBook :=
  let b1 := level_for side price b in
  let n := next_node b1 in
  let push := fun level : Level => level ++ [(n, mkOrder id side price quantity)] in
  let b2 :=
    if is_buy side then set_bids (om_alter push price (bids_ b1)) b1
    else set_asks (om_alter push price (asks_ b1)) b1 in
  mkOrderBook (bids_ b2) (asks_ b2) (<[id := mkLocator side price n]> (index_ b2)) (n + 1).

(** ** Queries *)

Definition contains (b : OrderBook) (id : OrderId) : bool :=
  bool_decide (is_Some (index_ b !! id)).

Definition order_count (b : OrderBook) : Z := Z.of_nat (size (index_ b)).

Definition best_price (levels : list (Price * Level)) : option Price :=
  match levels with [] => None | (p, _) :: _ => Some p end.
Definition best_bid (b : OrderBook) : option Price := best_price (bids_ b).
Definition best_ask (b : OrderBook) : option Price := best_price (asks_ b).

Definition find_level (b : OrderBook) (side : Side) (price : Price) : option Level :=
  if is_buy side then om_find price (bids_ b) else om_find price (asks_ b).

Definition level_quantity (level : Level) : QuantityTotal :=
  fold_left (fun total e => u64 (total + o_quantity e.2)) level 0.

Definition quantity_at (b : OrderBook) (side : Side) (price : Price) : QuantityTotal :=
  match find_level b side price with None => 0 | Some level => level_quantity level end.

Definition fill_count (b : OrderBook) (taker_side : Side) (limit : Price) (is_market : bool)
    (quantity : Quantity) : Z :=
  match taker_side with
  | Buy => count_matches (asks_ b) (mkMatchQuery true limit is_market quantity)
  | Sell => count_matches (bids_ b) (mkMatchQuery false limit is_market quantity)
  | SideRaw _ => 0
  end.

Definition can_store_limit (b : OrderBook) (side : Side) (price : Price) (quantity : Quantity)
    (tif : TimeInForce) : bool := true.
Definition can_apply_modify (b : OrderBook) (id : OrderId) (new_price : Price)
    (new_quantity : Quantity) : bool := true.

Definition collect_levels (book : list (Price * Level)) : list LevelView :=
  map (fun e => mkLevelView e.1 (level_quantity e.2)) book.
Definition bid_levels (b : OrderBook) : list LevelView := collect_levels (bids_ b).
Definition ask_levels (b : OrderBook) : list LevelView := collect_levels (asks_ b).

Definition append_orders (book : list (Price * Level)) (out : list Order) : list Order :=
  fold_left (fun out e => fold_left (fun out o => out ++ [o.2]) e.2 out) book out.
Definition resting_orders (b : OrderBook) : list Order :=
  append_orders (asks_ b) (append_orders (bids_ b) []).

(** ** Mutators *)

Definition add_limit (b : OrderBook) (id : OrderId) (side : Side) (price : Price)
    (quantity : Quantity) (tif : TimeInForce) : list Trade * OrderBook :=
  let '(result, b1) :=
    match_incoming id side price false quantity (fun b => contains b id) match_baseline b in
  if should_rest_limit result tif
  then (r_trades result, rest id side price (r_remainder result) b1)
  else (r_trades result, b1).

Definition add_market (b : OrderBook) (id : OrderId) (side : Side) (quantity : Quantity) :
    list Trade * OrderBook :=
  let '(result, b1) :=
    match_incoming id side 0 true quantity (fun b => contains b id) match_baseline b in
  (r_trades result, b1).

Definition erase_from_side (levels : list (Price * Level)) (loc : Locator) :
    list (Price * Level) :=
  erase_level_if_empty (loc_price loc)
    (om_alter (filter (fun e : Z * Order => e.1 <> loc_it loc)) (loc_price loc) levels).

Definition erase_resting_order (loc : Locator) (b : OrderBook) : OrderBook :=
  if is_buy (loc_side loc) then set_bids (erase_from_side (bids_ b) loc) b
  else set_asks (erase_from_side (asks_ b) loc) b.

Definition cancel (b : OrderBook) (id : OrderId) : bool * OrderBook :=
  cancel_indexed_order index_ set_index erase_resting_order id b.

Fixpoint level_get (n : node) (level : Level) : option Order :=
  match level with
  | [] => None
  | (n', o) :: rest => if n =? n' then Some o else level_get n rest
  end.
Fixpoint level_set (n : node) (quantity : Quantity) (level : Level) : Level :=
  match level with
  | [] => []
  | (n', o) :: rest =>
      if n =? n' then (n', set_quantity quantity o) :: rest
      else (n', o) :: level_set n quantity rest
  end.

(** [*loc.it].  [None] is a dangling iterator, which [wf] below excludes. *)
Definition deref (b : OrderBook) (loc : Locator) : option Order :=
  match find_level b (loc_side loc) (loc_price loc) with
  | None => None
  | Some level => level_get (loc_it loc) level
  end.

(** [loc.it->quantity = quantity]. *)
Definition assign_quantity (b : OrderBook) (loc : Locator) (quantity : Quantity) : OrderBook :=
  let f := level_set (loc_it loc) quantity in
  if is_buy (loc_side loc) then set_bids (om_alter f (loc_price loc) (bids_ b)) b
  else set_asks (om_alter f (loc_price loc) (asks_ b)) b.

Definition modify (b : OrderBook) (id : OrderId) (new_price : Price) (new_quantity : Quantity) :
    list Trade * OrderBook :=
  match index_ b !! id with
  | None => ([], b)
  | Some loc =>
      if new_quantity =? 0 then ([], (cancel b id).2)
      else
        match deref b loc with
        | None => ([], b)
        | Some o =>
            if (new_price =? loc_price loc) && (new_quantity <=? o_quantity o)
            then ([], assign_quantity b loc new_quantity)
            else add_limit (cancel b id).2 id (loc_side loc) new_price new_quantity GTC
        end
  end.

(** ** The representation invariant *)

Definition entries (m : list (Price * Level)) : Level := concat (map snd m).
Definition flat (m : list (Price * Level)) : list Order := map snd (entries m).

Definition loc_pair (e : node * Order) : Z * Locator :=
  (o_id e.2, mkLocator (o_side e.2) (o_price e.2) e.1).

(** A level map: ordered by its comparator, no empty level, every order filed
    under its own price. *)
Record levels_ok (before : Price -> Price -> bool) (m : list (Price * Level)) : Prop := {
  lo_sorted : om_sorted before m;
  lo_levels : Forall (fun e => e.2 <> [] /\ Forall (fun x => o_price x.2 = e.1) e.2) m
}.

Definition abs (b : OrderBook) : ABook := mkABook (flat (bids_ b)) (flat (asks_ b)).
Definition all_entries (b : OrderBook) : Level := entries (bids_ b) ++ entries (asks_ b).

Record wf (b : OrderBook) : Prop := {
  wf_bids : levels_ok bid_before (bids_ b);
  wf_asks : levels_ok ask_before (asks_ b);
  wf_index : index_ b = list_to_map (map loc_pair (all_entries b));
  wf_nodes : NoDup (all_entries b).*1;
  wf_next : Forall (fun e => e.1 < next_node b) (all_entries b);
  wf_abs : a_wf (abs b)
}.

(** ** Filling one level *)

(** Popping the first order: the index loses exactly its entry. *)
Lemma index_pop e es :
  o_id e.2 ∉ map (fun x => o_id x.2) es ->
  delete (o_id e.2) (list_to_map (map loc_pair (e :: es)) : gmap Z Locator) =
  list_to_map (map loc_pair es).
Proof.
  intros Hni. simpl. apply delete_insert_id, not_elem_of_list_to_map.
  intros Hin. apply Hni. rewrite <- list_fmap_compose in Hin. exact Hin.
Qed.

Lemma fill_level_while (p : Price) (es : Level) (level : Level) : forall fuel ctx,
  (length level < fuel)%nat -> 0 <= c_quantity ctx ->
  Forall (fun e => o_price e.2 = p /\ 0 < o_quantity e.2) level ->
  NoDup (map (fun e => o_id e.2) (level ++ es)) ->
  exists ts q' level',
    while fuel fill_level_cond (fill_front_order p)
      (list_to_map (map loc_pair (level ++ es)), level, ctx) =
      (list_to_map (map loc_pair (level' ++ es)), level', ctx_after ctx q' ts) /\
    a_match (c_taker_id ctx) (fun _ => true) (c_quantity ctx) (map snd level) =
      (ts, q', map snd level') /\
    sublist level'.*1 level.*1 /\
    Forall (fun e => o_price e.2 = p) level'.
Proof.
  induction level as [|[n o] level IH]; intros fuel ctx Hf Hq Hall Hnd.
  - exists [], (c_quantity ctx), []. rewrite while_false by (simpl; lia).
    by rewrite ctx_after_id.
  - assert (Forall (fun e => o_price e.2 = p) ((n, o) :: level)) as Hps.
    { eapply Forall_impl; [exact Hall|]. by intros ? []. }
    destruct fuel as [|fuel]; [simpl in Hf; lia|].
    cbn [while fill_level_cond is_nil negb]. rewrite andb_true_r. cbn [map a_match].
    apply Forall_cons in Hall as [[Hp Hpos] Hall]. simpl in Hp, Hpos. rewrite andb_true_r.
    destruct (0 <? c_quantity ctx) eqn:Eq.
    2:{ exists [], (c_quantity ctx), ((n, o) :: level). by rewrite ctx_after_id. }
    cbn [fill_front_order fill_maker]. cbn [snd].
    destruct (o_quantity o <=? c_quantity ctx) eqn:Ele.
    + replace (Z.min (c_quantity ctx) (o_quantity o)) with (o_quantity o) by lia.
      replace (o_quantity o - o_quantity o =? 0) with true by lia.
      cbn [app map] in Hnd. apply NoDup_cons in Hnd as [Hni Hnd]. cbn [app].
      rewrite (index_pop (n, o)) by done.
      destruct (IH fuel (ctx_after ctx (c_quantity ctx - o_quantity o)
        [mkTrade (c_taker_id ctx) (o_id o) p (o_quantity o)]))
        as (ts & q' & level' & Hw & Hm & Hs & Hp'); simpl in *; [lia|lia|done|done|].
      unfold ctx_after at 1 in Hw. simpl in Hw. rewrite Hw, Hm, Hp.
      eexists _, _, _. split; [|split; [done|split; [by apply sublist_cons|done]]].
      unfold ctx_after; simpl. by rewrite <- app_assoc.
    + replace (Z.min (c_quantity ctx) (o_quantity o)) with (c_quantity ctx) by lia.
      replace (o_quantity o - c_quantity ctx =? 0) with false by lia.
      rewrite while_false by (simpl; lia).
      exists [mkTrade (c_taker_id ctx) (o_id o) (o_price o) (c_quantity ctx)], 0,
        ((n, set_quantity (o_quantity o - c_quantity ctx) o) :: level).
      apply Forall_cons in Hps as [_ Hps].
      split; [|split; [done|split; [done|by constructor]]].
      unfold ctx_after. rewrite Hp. repeat f_equal; lia.
Qed.

Lemma entries_cons p level m : entries ((p, level) :: m) = level ++ entries m.
Proof. done. Qed.
Lemma flat_cons p level m : flat ((p, level) :: m) = map snd level ++ flat m.
Proof. unfold flat. by rewrite entries_cons, map_app. Qed.

Lemma levels_ok_cons before p level m :
  levels_ok before ((p, level) :: m) <->
    level <> [] /\ Forall (fun x => o_price x.2 = p) level /\
    Forall (fun e => before p e.1 = true) m /\ levels_ok before m.
Proof.
  split.
  - intros [Hs Hl]. inv Hs. apply Forall_cons in Hl as [[? ?] ?]. by repeat split.
  - intros (? & ? & ? & [Hs Hl]). by split; constructor.
Qed.

Lemma erase_front_if_empty p level m :
  erase_level_if_empty p ((p, level) :: m) = match level with [] => m | _ => (p, level) :: m end.
Proof. unfold erase_level_if_empty. cbn [om_find om_erase]. rewrite Z.eqb_refl. by destruct level. Qed.

Lemma match_levels_while before (es : Level) (m : list (Price * Level)) : forall fuel ctx,
  (length m < fuel)%nat -> 0 <= c_quantity ctx -> levels_ok before m ->
  Forall (fun o => 0 < o_quantity o) (flat m) ->
  NoDup (map (fun e => o_id e.2) (entries m ++ es)) ->
  exists ts q' m' running,
    while fuel mol_cond (mol_body fill_level erase_level_if_empty)
      (list_to_map (map loc_pair (entries m ++ es)), m, ctx, true) =
      (list_to_map (map loc_pair (entries m' ++ es)), m', ctx_after ctx q' ts, running) /\
    a_match (c_taker_id ctx)
      (can_match_level (c_taker_is_buy ctx) (c_is_market ctx) (c_limit ctx))
      (c_quantity ctx) (flat m) = (ts, q', flat m') /\
    levels_ok before m' /\ sublist (entries m').*1 (entries m).*1.
Proof.
  induction m as [|[p level] m IH]; intros fuel ctx Hf Hq Hok Hpos Hnd.
  - exists [], (c_quantity ctx), [], true. rewrite while_false by (simpl; lia).
    by rewrite ctx_after_id.
  - destruct fuel as [|fuel]; [simpl in Hf; lia|].
    pose proof Hok as (Hne & Hp & Hb & Hok')%levels_ok_cons.
    cbn [while mol_cond is_nil negb andb]. rewrite andb_true_r.
    destruct (0 <? c_quantity ctx) eqn:Eq.
    2:{ exists [], (c_quantity ctx), ((p, level) :: m), true.
        rewrite ctx_after_id, a_match_stop by lia. done. }
    cbn [mol_body].
    set (cross := can_match_level (c_taker_is_buy ctx) (c_is_market ctx) (c_limit ctx)) in *.
    rewrite flat_cons in Hpos |- *. apply Forall_app in Hpos as [Hpl Hpm].
    destruct (cross p) eqn:Ec; cbn [negb].
    2:{ rewrite while_false by done.
        exists [], (c_quantity ctx), ((p, level) :: m), false. rewrite ctx_after_id, flat_cons.
        destruct level as [|[n o] level]; [done|]. cbn [map app snd].
        apply Forall_cons in Hp as [Hp _]. rewrite a_match_no_cross by (simpl in Hp; by rewrite Hp).
        done. }
    destruct (fill_level_while p (entries m ++ es) level (S (length level)) ctx)
      as (ts & q' & level' & Hw & Hm & Hs & Hp'); [lia|done| | |].
    { apply Forall_forall. intros e He. rewrite Forall_forall in Hp. split; [by apply Hp|].
      rewrite Forall_forall in Hpl. apply Hpl. by apply list_elem_of_fmap_2. }
    { by rewrite app_assoc. }
    fold (fill_level (list_to_map (map loc_pair (level ++ entries m ++ es))) level p ctx) in Hw.
    rewrite entries_cons, <- app_assoc, Hw, erase_front_if_empty.
    assert (Forall (fun o => cross (o_price o) = true) (map snd level)) as Hcl.
    { apply Forall_map. eapply Forall_impl; [exact Hp|]. intros e He; simpl in *. by rewrite He. }
    rewrite a_match_app by done. rewrite (a_match_ext _ cross (fun _ => true)) by done. rewrite Hm.
    destruct level' as [|e level'].
    + destruct (IH fuel (ctx_after ctx q' ts)) as (ts2 & q2 & m2 & running & Hw2 & Hm2 & Hok2 & Hs2);
        [simpl in Hf; lia| |done|done| |].
      { simpl. apply a_match_consumes in Hm; [|done]. by eapply consumes_remainder. }
      { rewrite entries_cons, <- app_assoc, map_app in Hnd. by apply NoDup_app in Hnd as (_ & _ & ?). }
      simpl app. rewrite Hw2. simpl in Hm2. fold cross in Hm2. simpl. rewrite Hm2.
      exists (ts ++ ts2), q2, m2, running. split; [|split; [done|split; [done|]]].
      * unfold ctx_after; simpl. by rewrite app_assoc.
      * rewrite fmap_app. by apply sublist_inserts_l.
    + assert (q' = 0) as ->.
      { eapply (a_match_left _ _ _ _ _ _ _ Hq Hm); [|done]. by apply Forall_true. }
      rewrite while_false by (simpl; lia).
      exists ts, 0, ((p, e :: level') :: m), true. rewrite flat_cons, entries_cons, app_assoc.
      split; [done|]. split; [done|]. split.
      * by apply levels_ok_cons.
      * rewrite !fmap_app. by apply sublist_app.
Qed.

(** ** Matching refines [a_take] *)

Definition entry_ids (es : Level) : list OrderId := map (fun e => o_id e.2) es.

#[export] Instance entry_ids_proper : Proper ((≡ₚ) ==> (≡ₚ)) entry_ids.
Proof. intros es es' H. unfold entry_ids. by rewrite H. Qed.

Lemma entry_ids_flat m : entry_ids (entries m) = map o_id (flat m).
Proof. unfold entry_ids, flat. by rewrite map_map. Qed.

Lemma wf_entry_ids b : wf b -> NoDup (entry_ids (all_entries b)).
Proof.
  intros Hwf. pose proof (aw_ids _ (wf_abs _ Hwf)) as Hn. unfold all_entries, entry_ids.
  unfold a_ids, a_orders in Hn. simpl in Hn. rewrite map_app in *.
  by rewrite <- !entry_ids_flat in Hn.
Qed.

Lemma loc_pair_ids es : (map loc_pair es).*1 = entry_ids es.
Proof. unfold entry_ids. change (fst <$> map loc_pair es) with (map fst (map loc_pair es)). by rewrite map_map. Qed.

(** The index of a set of entries does not depend on their order. *)
Lemma index_perm es es' :
  NoDup (entry_ids es) -> es ≡ₚ es' ->
  (list_to_map (map loc_pair es) : gmap Z Locator) = list_to_map (map loc_pair es').
Proof.
  intros Hn Hp. apply list_to_map_proper; [by rewrite loc_pair_ids|by rewrite Hp].
Qed.

Lemma side_levels b is_bid : wf b -> levels_ok (before_of is_bid) (if is_bid then bids_ b else asks_ b).
Proof. intros []. by destruct is_bid. Qed.

Definition with_side (is_bid : bool) (index : gmap Z Locator) (m : list (Price * Level))
    (b : OrderBook) : OrderBook :=
  set_index index (if is_bid then set_bids m b else set_asks m b).

Lemma match_baseline_spec b side ctx :
  wf b -> 0 <= c_quantity ctx -> c_taker_is_buy ctx = is_buy side ->
  exists ts q' b',
    match_baseline side b ctx = (b', ctx_after ctx q' ts) /\
    a_take (abs b) (c_taker_id ctx) side (c_limit ctx) (c_is_market ctx) (c_quantity ctx) =
      (ts, q', abs b') /\
    wf b' /\ next_node b' = next_node b.
Proof.
  intros Hwf Hq Hbuy. set (is_bid := negb (is_buy side)).
  set (m := if is_bid then bids_ b else asks_ b).
  set (es := entries (if is_bid then asks_ b else bids_ b)).
  assert (entries m ++ es ≡ₚ all_entries b) as Hperm.
  { unfold m, es, all_entries. destruct is_bid; [done|apply Permutation_app_comm]. }
  pose proof (wf_entry_ids _ Hwf) as Hids.
  assert (a_side is_bid (abs b) = flat m) as Hflat by (by unfold m; destruct is_bid).
  destruct (match_levels_while (before_of is_bid) es m (S (length m)) ctx)
    as (ts & q' & m' & running & Hw & Hm & Hok & Hs); [lia|done|by apply side_levels| | |].
  { rewrite <- Hflat. by eapply side_wf_positive, a_side_wf, wf_abs. }
  { fold (entry_ids (entries m ++ es)). by rewrite Hperm. }
  set (b' := with_side is_bid (list_to_map (map loc_pair (entries m' ++ es))) m' b).
  exists ts, q', b'.
  assert (all_entries b' ≡ₚ entries m' ++ es) as Hperm'.
  { unfold b', all_entries, es. destruct is_bid; simpl; [done|apply Permutation_app_comm]. }
  assert (a_take (abs b) (c_taker_id ctx) side (c_limit ctx) (c_is_market ctx) (c_quantity ctx) =
    (ts, q', abs b')) as Htake.
  { unfold a_take. fold is_bid. rewrite Hflat, <- Hbuy, Hm. f_equal. unfold b'. by destruct is_bid. }
  assert (a_wf (abs b')) as Hawf by (eapply a_take_wf; [apply Hwf|exact Hq|exact Htake]).
  assert (NoDup (entry_ids (all_entries b'))) as Hids'.
  { unfold all_entries, entry_ids. rewrite map_app. fold (entry_ids (entries (bids_ b'))).
    fold (entry_ids (entries (asks_ b'))). rewrite !entry_ids_flat, <- map_app. apply Hawf. }
  split; [|split; [done|split; [|by unfold b'; destruct is_bid]]].
  - unfold match_baseline, match_against, match_ordered_levels.
    rewrite (wf_index _ Hwf), (index_perm _ (entries m ++ es)) by (done || by rewrite Hperm).
    unfold m, es, b', is_bid in *. destruct (is_buy side); simpl in *; by rewrite Hw.
  - assert (sublist (entries m' ++ es).*1 (entries m ++ es).*1) as Hsub.
    { rewrite !fmap_app. by apply sublist_app. }
    split.
    + unfold b'. destruct is_bid; [done|apply Hwf].
    + unfold b'. destruct is_bid; [apply Hwf|done].
    + rewrite (index_perm _ _ Hids' Hperm'). by unfold b'; destruct is_bid.
    + rewrite Hperm'. eapply sublist_NoDup; [|exact Hsub]. rewrite Hperm. apply Hwf.
    + apply Forall_forall. intros e He. rewrite Hperm' in He.
      assert (e.1 ∈ (all_entries b).*1) as He'.
      { rewrite <- Hperm. eapply elem_of_sublist; [|exact Hsub]. by apply list_elem_of_fmap_2. }
      apply list_elem_of_fmap in He' as (e' & Heq & He'). pose proof (wf_next _ Hwf) as Hn.
      rewrite Forall_forall in Hn. specialize (Hn e' He'). rewrite Heq.
      unfold b'. by destruct is_bid.
    + done.
Qed.

(** ** Resting refines [a_rest] *)

Definition push_order (is_bid : bool) (n : node) (o : Order) (m : list (Price * Level)) :
    list (Price * Level) :=
  om_alter (fun level => level ++ [(n, o)]) (o_price o)
    (om_try_emplace (before_of is_bid) (o_price o) [] m).

Lemma before_of_better is_bid a b : before_of is_bid a b = better is_bid a b.
Proof. by destruct is_bid. Qed.

Lemma push_order_cons is_bid n o p level m :
  push_order is_bid n o ((p, level) :: m) =
    if before_of is_bid (o_price o) p then (o_price o, [(n, o)]) :: (p, level) :: m
    else if o_price o =? p then (p, level ++ [(n, o)]) :: m
    else (p, level) :: push_order is_bid n o m.
Proof.
  unfold push_order. simpl. destruct (before_of is_bid (o_price o) p); simpl; [by rewrite Z.eqb_refl|].
  destruct (o_price o =? p) eqn:E; simpl; by rewrite E.
Qed.

Lemma a_insert_front is_bid o m :
  levels_ok (before_of is_bid) m ->
  Forall (fun e => before_of is_bid (o_price o) e.1 = true) m ->
  a_insert is_bid o (flat m) = o :: flat m.
Proof.
  intros Hok Hall. destruct m as [|[p level] m]; [done|].
  apply levels_ok_cons in Hok as (Hne & Hp & _). apply Forall_cons in Hall as [Hb _].
  destruct level as [|[n x] level]; [done|]. rewrite flat_cons. simpl.
  apply Forall_cons in Hp as [Hx _]. simpl in *. by rewrite Hx, <- before_of_better, Hb.
Qed.

Lemma push_order_spec is_bid n o m :
  levels_ok (before_of is_bid) m ->
  levels_ok (before_of is_bid) (push_order is_bid n o m) /\
  flat (push_order is_bid n o m) = a_insert is_bid o (flat m) /\
  entries (push_order is_bid n o m) ≡ₚ (n, o) :: entries m /\
  (forall k, k ∈ (push_order is_bid n o m).*1 -> k = o_price o \/ k ∈ m.*1).
Proof.
  induction m as [|[p level] m IH]; intros Hok.
  - unfold push_order. simpl. rewrite Z.eqb_refl. split; [|split; [done|split; [done|set_solver]]].
    apply levels_ok_cons. by repeat constructor.
  - rewrite push_order_cons. pose proof Hok as (Hne & Hp & Hb & Hok')%levels_ok_cons.
    destruct (before_of is_bid (o_price o) p) eqn:E1; [|destruct (Z.eqb_spec (o_price o) p) as [<-|Hnp]].
    + assert (Forall (fun e => before_of is_bid (o_price o) e.1 = true) ((p, level) :: m)) as Hall.
      { constructor; [done|]. eapply Forall_impl; [exact Hb|]. intros e. simpl.
        revert E1. destruct is_bid; unfold before_of, bid_before, ask_before; lia. }
      split; [|split; [|split; [done|set_solver]]].
      * apply levels_ok_cons. split_and!; [done|by constructor|done|done].
      * by rewrite (a_insert_front _ _ _ Hok Hall).
    + split; [|split; [|split; [|set_solver]]].
      * apply levels_ok_cons. split; [by destruct level|]. split; [|done].
        apply Forall_app. split; [done|]. by repeat constructor.
      * rewrite !flat_cons, a_insert_level.
        -- rewrite (a_insert_front _ _ m Hok' Hb). by rewrite map_app, <- app_assoc.
        -- apply Forall_map. eapply Forall_impl; [exact Hp|]. simpl. intros e ->.
           by rewrite <- before_of_better.
      * rewrite !entries_cons, <- app_assoc. simpl. by rewrite <- Permutation_middle.
    + destruct (IH Hok') as (Hok2 & Hfl & Hen & Hk). split; [|split; [|split]].
      * apply levels_ok_cons. split; [done|]. split; [done|]. split; [|done].
        apply Forall_forall. intros e He. assert (e.1 ∈ (push_order is_bid n o m).*1) as He1.
        { by apply list_elem_of_fmap_2. }
        apply Hk in He1 as [->|He1].
        -- revert E1 Hnp. destruct is_bid; unfold before_of, bid_before, ask_before; lia.
        -- apply list_elem_of_fmap in He1 as (e' & -> & He1). rewrite Forall_forall in Hb. by apply Hb.
      * rewrite !flat_cons, Hfl, a_insert_level; [done|].
        apply Forall_map. eapply Forall_impl; [exact Hp|]. simpl. intros e ->.
        by rewrite <- before_of_better.
      * rewrite !entries_cons, Hen. by rewrite <- Permutation_middle.
      * intros k. simpl. set_solver.
Qed.

(** A new order at a node that is not in use, with the next node at [next']. *)
Definition push_at (n next' : node) (o : Order) (b : OrderBook) : OrderBook :=
  let m := push_order (is_buy (o_side o)) n o (if is_buy (o_side o) then bids_ b else asks_ b) in
  let b1 := with_side (is_buy (o_side o)) (<[o_id o := mkLocator (o_side o) (o_price o) n]> (index_ b)) m b in
  mkOrderBook (bids_ b1) (asks_ b1) (index_ b1) next'.

Lemma push_at_spec n next' o b :
  wf b -> a_wf (a_rest o (abs b)) -> o_id o ∉ a_ids (abs b) ->
  n ∉ (all_entries b).*1 -> n < next' -> next_node b <= next' ->
  wf (push_at n next' o b) /\ abs (push_at n next' o b) = a_rest o (abs b).
Proof.
  intros Hwf Hawf Hid Hn Hlt Hle. set (b' := push_at n next' o b).
  set (is_bid := is_buy (o_side o)). set (m := if is_bid then bids_ b else asks_ b).
  destruct (push_order_spec is_bid n o m) as (Hok & Hfl & Hen & _); [by apply side_levels|].
  set (m' := push_order is_bid n o m) in *.
  assert (bids_ b' = (if is_bid then m' else bids_ b) /\ asks_ b' = (if is_bid then asks_ b else m') /\
    index_ b' = <[o_id o := mkLocator (o_side o) (o_price o) n]> (index_ b) /\
    next_node b' = next') as (Hbids & Hasks & Hidx & Hnext).
  { unfold b', push_at. fold is_bid m m'. by destruct is_bid. }
  assert (all_entries b' ≡ₚ (n, o) :: all_entries b) as Hperm.
  { unfold all_entries. rewrite Hbids, Hasks. unfold m', m in *. destruct is_bid; rewrite Hen; [done|].
    by rewrite <- Permutation_middle. }
  assert (abs b' = a_rest o (abs b)) as Habs.
  { unfold abs, a_rest. change (is_buy (o_side o)) with is_bid. rewrite Hbids, Hasks. unfold m', m in *.
    destruct is_bid; simpl; by rewrite Hfl. }
  assert (NoDup (entry_ids (all_entries b'))) as Hids.
  { rewrite Hperm. simpl. constructor; [|by apply wf_entry_ids].
    unfold all_entries, entry_ids. rewrite map_app.
    fold (entry_ids (entries (bids_ b))) (entry_ids (entries (asks_ b))).
    by rewrite !entry_ids_flat, <- map_app. }
  split; [|done]. split.
  - rewrite Hbids. unfold m' in *. by destruct is_bid; [|apply Hwf].
  - rewrite Hasks. unfold m' in *. by destruct is_bid; [apply Hwf|].
  - rewrite Hidx, (index_perm _ _ Hids Hperm). simpl. by rewrite (wf_index _ Hwf).
  - rewrite Hperm. simpl. constructor; [done|apply Hwf].
  - rewrite Hperm, Hnext. constructor; [done|]. eapply Forall_impl; [apply Hwf|]. simpl. lia.
  - by rewrite Habs.
Qed.

Lemma rest_unfold id side price q b :
  rest id side price q b = push_at (next_node b) (next_node b + 1) (mkOrder id side price q) b.
Proof. unfold rest, level_for, push_at, with_side, push_order. cbn [o_side o_price o_id]. by destruct (is_buy side). Qed.

Lemma rest_spec id side price q b :
  wf b -> a_wf (a_rest (mkOrder id side price q) (abs b)) -> id ∉ a_ids (abs b) ->
  let b' := rest id side price q b in
  wf b' /\ abs b' = a_rest (mkOrder id side price q) (abs b).
Proof.
  intros Hwf Hawf Hid b'. unfold b'. rewrite rest_unfold.
  apply (push_at_spec (next_node b) (next_node b + 1)); try done; [|lia|lia]. intros Hin.
  apply list_elem_of_fmap in Hin as (e & He & Hin). pose proof (wf_next _ Hwf) as Hn.
  rewrite Forall_forall in Hn. specialize (Hn e Hin). lia.
Qed.

(** ** The index *)

Lemma a_ids_entries b : a_ids (abs b) = entry_ids (all_entries b).
Proof.
  unfold a_ids, a_orders, all_entries, entry_ids. simpl. rewrite !map_app.
  fold (entry_ids (entries (bids_ b))) (entry_ids (entries (asks_ b))). by rewrite !entry_ids_flat.
Qed.

Lemma index_lookup b id loc :
  wf b -> index_ b !! id = Some loc <->
  exists e, e ∈ all_entries b /\ o_id e.2 = id /\ loc = mkLocator (o_side e.2) (o_price e.2) e.1.
Proof.
  intros Hwf. rewrite (wf_index _ Hwf), <- elem_of_list_to_map
    by (rewrite loc_pair_ids; by apply wf_entry_ids).
  split.
  - intros Hin. apply list_elem_of_fmap in Hin as (e & He & Hin). inv He. eauto.
  - intros (e & Hin & <- & ->). change (o_id e.2, _) with (loc_pair e). by apply list_elem_of_fmap_2.
Qed.

Lemma contains_spec b id : wf b -> contains b id = a_contains (abs b) id.
Proof.
  intros Hwf. unfold contains, a_contains. apply bool_decide_ext. rewrite a_ids_entries. split.
  - intros [loc Hl]. apply index_lookup in Hl as (e & Hin & <- & _); [|done].
    by apply (list_elem_of_fmap_2 (fun e => o_id e.2)).
  - intros Hin. apply list_elem_of_fmap in Hin as (e & -> & Hin).
    exists (mkLocator (o_side e.2) (o_price e.2) e.1). apply index_lookup; eauto.
Qed.

Lemma order_count_spec b : wf b -> order_count b = Z.of_nat (length (a_orders (abs b))).
Proof.
  intros Hwf. unfold order_count. f_equal. rewrite (wf_index _ Hwf).
  rewrite map_size_list_to_map by (rewrite loc_pair_ids; by apply wf_entry_ids).
  unfold a_orders, all_entries, abs, flat. cbn [a_bids a_asks].
  by rewrite List.length_map, !length_app, !List.length_map.
Qed.

(** ** New orders refine the specification *)

Lemma match_incoming_spec b id side limit is_market q :
  wf b -> in_u32 q -> a_contains (abs b) id = false ->
  exists ts r b',
    match_incoming id side limit is_market q (fun b => contains b id) match_baseline b =
      (mkMatchResult ts r true, b') /\
    a_take (abs b) id side limit is_market q = (ts, r, abs b') /\ wf b' /\ 0 <= r <= q.
Proof.
  intros Hwf Hq Hc. unfold match_incoming. rewrite contains_spec, Hc by done.
  set (ctx := mkMatchContext id (is_buy side) limit is_market q []).
  assert (0 <= q) as Hq' by (unfold in_u32 in *; lia).
  destruct (match_baseline_spec b side ctx) as (ts & r & b' & Hm & Ht & Hwf' & _); [done..|].
  rewrite Hm. exists ts, r, b'. simpl in Ht. split; [done|]. split; [done|]. split; [done|].
  eapply a_take_le; [apply Hwf|done..].
Qed.

Lemma add_limit_refines b id side price q tif :
  wf b -> in_u32 q ->
  let r := add_limit b id side price q tif in
  wf r.2 /\ (r.1, abs r.2) = a_add_limit (abs b) id side price q tif.
Proof.
  intros Hwf Hq. unfold add_limit, a_add_limit. destruct (a_contains (abs b) id) eqn:Hc.
  - unfold match_incoming. by rewrite contains_spec, Hc.
  - destruct (match_incoming_spec b id side price false q) as (ts & r & b' & Hm & Ht & Hwf' & Hr);
      [done..|]. rewrite Hm, Ht. unfold should_rest_limit. simpl.
    assert (a_wf (a_add_limit (abs b) id side price q tif).2) as Hawf.
    { apply a_add_limit_wf; [apply Hwf|done]. }
    unfold a_add_limit in Hawf. rewrite Hc, Ht in Hawf.
    destruct (r =? 0) eqn:Er; [by replace (0 <? r) with false by lia|].
    replace (0 <? r) with true in * by lia. simpl in *. case_bool_decide; [|done]. simpl in *.
    assert (id ∉ a_ids (abs b')) as Hid.
    { apply a_contains_false in Hc. intros Hin. eapply a_take_ids in Hin; [done| |exact Ht].
      unfold in_u32 in *; lia. }
    destruct (rest_spec id side price r b') as [? ->]; done.
Qed.

Lemma add_market_refines b id side q :
  wf b -> in_u32 q ->
  let r := add_market b id side q in
  wf r.2 /\ (r.1, abs r.2) = a_add_market (abs b) id side q.
Proof.
  intros Hwf Hq. unfold add_market, a_add_market. destruct (a_contains (abs b) id) eqn:Hc.
  - unfold match_incoming. by rewrite contains_spec, Hc.
  - destruct (match_incoming_spec b id side 0 true q) as (ts & r & b' & Hm & Ht & Hwf' & Hr);
      [done..|]. by rewrite Hm, Ht.
Qed.

(** ** Erasing a node *)

Lemma erase_level_if_empty_cons k p level m :
  erase_level_if_empty k ((p, level) :: m) =
    if k =? p then match level with [] => m | _ => (p, level) :: m end
    else (p, level) :: erase_level_if_empty k m.
Proof.
  unfold erase_level_if_empty. simpl. destruct (k =? p); [by destruct level|].
  by destruct (om_find k m) as [[|]|].
Qed.

Lemma filter_not_in n (es : Level) :
  n ∉ es.*1 -> filter (fun e : node * Order => e.1 <> n) es = es.
Proof.
  induction es as [|e es IH]; [done|]. intros Hn. rewrite filter_cons. simpl in Hn.
  rewrite decide_True by set_solver. f_equal. apply IH. set_solver.
Qed.

Lemma erase_from_side_spec is_bid m n o :
  levels_ok (before_of is_bid) m -> (n, o) ∈ entries m -> NoDup (entries m).*1 ->
  let m' := erase_from_side m (mkLocator (o_side o) (o_price o) n) in
  levels_ok (before_of is_bid) m' /\
  entries m' = filter (fun e : node * Order => e.1 <> n) (entries m) /\
  (forall k, k ∈ m'.*1 -> k ∈ m.*1).
Proof.
  unfold erase_from_side. simpl. induction m as [|[p level] m IH]; intros Hok Hin Hnd; [set_solver|].
  apply levels_ok_cons in Hok as (Hne & Hp & Hb & Hok). rewrite entries_cons in *.
  rewrite fmap_app in Hnd. apply NoDup_app in Hnd as (Hnl & Hdisj & Hnm). rewrite filter_app.
  cbn [om_alter]. destruct (Z.eqb_spec (o_price o) p) as [<-|Hnp].
  - assert (n ∉ (entries m).*1) as Hn.
    { apply elem_of_app in Hin as [Hin|Hin].
      - apply Hdisj. by apply (list_elem_of_fmap_2 fst) in Hin.
      - exfalso. unfold entries in Hin. apply list_elem_of_In, in_concat in Hin as (l & Hl & Hin).
        apply list_elem_of_In, list_elem_of_fmap in Hl as (e & -> & He).
        rewrite Forall_forall in Hb. specialize (Hb e He).
        destruct Hok as [_ Hok]. rewrite Forall_forall in Hok. destruct (Hok e He) as [_ Hpe].
        apply list_elem_of_In in Hin. rewrite Forall_forall in Hpe. specialize (Hpe _ Hin).
        simpl in Hpe. revert Hb. rewrite Hpe. destruct is_bid; unfold before_of, bid_before, ask_before; lia. }
    rewrite (filter_not_in n (entries m)) by done.
    rewrite erase_level_if_empty_cons, Z.eqb_refl.
    destruct (filter _ level) as [|e l] eqn:E; simpl; [split; [done|split; [done|set_solver]]|].
    split; [|split; [done|set_solver]]. apply levels_ok_cons. split_and!; try done.
    rewrite <- E. apply Forall_forall. intros x [_ Hx]%list_elem_of_filter.
    rewrite Forall_forall in Hp. auto.
  - assert ((n, o) ∈ entries m) as Hin'.
    { apply elem_of_app in Hin as [Hin|Hin]; [|done]. rewrite Forall_forall in Hp.
      specialize (Hp _ Hin). by simpl in Hp. }
    assert (n ∉ level.*1) as Hn.
    { intros Hl. apply (Hdisj n Hl). by apply (list_elem_of_fmap_2 fst) in Hin'. }
    destruct (IH Hok Hin' Hnm) as (Hok2 & Hen & Hk).
    rewrite erase_level_if_empty_cons, (proj2 (Z.eqb_neq _ _) Hnp), (filter_not_in n level) by done.
    rewrite entries_cons, Hen. split; [|split; [done|set_solver]].
    apply levels_ok_cons. split_and!; try done. apply Forall_forall. intros e He.
    apply (list_elem_of_fmap_2 fst), Hk, list_elem_of_fmap in He as (e' & -> & He).
    rewrite Forall_forall in Hb. by apply Hb.
Qed.

(** With unique nodes and ids, dropping the node is dropping the order. *)
Lemma map_filter_node (es : Level) n o :
  NoDup es.*1 -> NoDup (entry_ids es) -> (n, o) ∈ es ->
  map snd (filter (fun e : node * Order => e.1 <> n) es) =
  filter (fun x => o_id x <> o_id o) (map snd es).
Proof.
  induction es as [|[n' o'] es IH]; intros Hn Hi Hin; [set_solver|].
  simpl in *. apply NoDup_cons in Hn as [Hn Hns], Hi as [Hi His]. rewrite !filter_cons. simpl.
  apply elem_of_cons in Hin as [Heq|Hin].
  - simplify_eq. rewrite !decide_False by naive_solver. rewrite filter_not_in by done.
    clear -Hi. induction es as [|[n1 o1] es IH]; [done|]. simpl in *. rewrite filter_cons.
    rewrite decide_True by set_solver. f_equal. apply IH. set_solver.
  - rewrite !decide_True; [simpl; by rewrite IH| |].
    + intros Heq. apply Hi. rewrite Heq. by apply (list_elem_of_fmap_2 (fun e => o_id e.2)) in Hin.
    + intros ->. apply Hn. by apply (list_elem_of_fmap_2 fst) in Hin.
Qed.


(** An indexed order is on the side its locator names. *)
Lemma entry_on_side b e :
  wf b -> e ∈ all_entries b ->
  e ∈ entries (if is_buy (o_side e.2) then bids_ b else asks_ b).
Proof.
  intros Hwf Hin. destruct (wf_abs _ Hwf) as [[_ _ Hb] [_ _ Ha] _ _]. simpl in Hb, Ha.
  rewrite Forall_forall in Hb, Ha.
  apply elem_of_app in Hin as [Hin|Hin]; apply (list_elem_of_fmap_2 snd) in Hin as Hin';
    [rewrite (Hb e.2)|rewrite (Ha e.2)]; done.
Qed.

Lemma erase_resting_order_spec b e :
  wf b -> e ∈ all_entries b ->
  let loc := mkLocator (o_side e.2) (o_price e.2) e.1 in
  let b' := erase_resting_order loc (set_index (delete (o_id e.2) (index_ b)) b) in
  wf b' /\ abs b' = a_remove (o_id e.2) (abs b).
Proof.
  intros Hwf Hin loc b'. pose proof (entry_on_side b e Hwf Hin) as Hside.
  set (is_bid := is_buy (o_side e.2)) in *. set (m := if is_bid then bids_ b else asks_ b) in *.
  set (es := entries (if is_bid then asks_ b else bids_ b)).
  assert (all_entries b ≡ₚ entries m ++ es) as Hperm.
  { unfold m, es, all_entries. destruct is_bid; [done|apply Permutation_app_comm]. }
  pose proof (wf_nodes _ Hwf) as Hnd. rewrite Hperm, fmap_app in Hnd.
  apply NoDup_app in Hnd as (Hnm & Hdisj & Hne).
  pose proof (wf_entry_ids _ Hwf) as Hid. rewrite Hperm in Hid. unfold entry_ids in Hid.
  rewrite map_app in Hid. apply NoDup_app in Hid as (Him & Hidd & Hie).
  destruct e as [n o]. simpl in *.
  destruct (erase_from_side_spec is_bid m n o) as (Hok & Hen & _); [by apply side_levels|done|done|].
  fold loc in Hok, Hen. set (m' := erase_from_side m loc) in *.
  assert (bids_ b' = (if is_bid then m' else bids_ b) /\ asks_ b' = (if is_bid then asks_ b else m') /\
    index_ b' = delete (o_id o) (index_ b) /\ next_node b' = next_node b)
    as (Hbids & Hasks & Hidx & Hnext).
  { unfold b', erase_resting_order. simpl. fold is_bid. unfold m', m. by destruct is_bid. }
  assert (all_entries b' ≡ₚ filter (fun e : node * Order => e.1 <> n) (all_entries b)) as Hperm'.
  { assert (filter (fun e : node * Order => e.1 <> n) es = es) as Hfe.
    { apply filter_not_in. intros Hx. apply (Hdisj n); [|done].
      by apply (list_elem_of_fmap_2 fst) in Hside. }
    rewrite Hperm, filter_app, Hfe, <- Hen. unfold all_entries, es. rewrite Hbids, Hasks.
    destruct is_bid; [done|apply Permutation_app_comm]. }
  assert (abs b' = a_remove (o_id o) (abs b)) as Habs.
  { assert (flat m' = filter (fun x => o_id x <> o_id o) (flat m)) as Hf.
    { unfold flat. rewrite Hen. by apply map_filter_node. }
    assert (filter (fun x => o_id x <> o_id o) (map snd es) = map snd es) as Hfe.
    { apply filter_absent_id. rewrite map_map. intros Hx. apply (Hidd (o_id o)); [|done].
      by apply (list_elem_of_fmap_2 (fun e => o_id e.2)) in Hside. }
    unfold abs, a_remove. rewrite Hbids, Hasks. unfold m', m, es, flat in *. simpl.
    destruct is_bid; simpl; by rewrite Hf, Hfe. }
  split; [|done].
  assert (a_wf (abs b')) as Hawf by (rewrite Habs; apply a_remove_wf, Hwf).
  assert (NoDup (entry_ids (all_entries b'))) as Hids by (rewrite <- a_ids_entries; apply Hawf).
  split.
  - rewrite Hbids. by destruct is_bid; [|apply Hwf].
  - rewrite Hasks. by destruct is_bid; [apply Hwf|].
  - rewrite Hidx, (wf_index _ Hwf). rewrite (index_perm _ _ Hids Hperm').
    assert (all_entries b ≡ₚ (n, o) :: filter (fun e : node * Order => e.1 <> n) (all_entries b)) as Hsplit.
    { apply elem_of_Permutation in Hin as [l Hl]. rewrite Hl, filter_cons.
      rewrite decide_False by naive_solver. rewrite filter_not_in; [done|].
      pose proof (wf_nodes _ Hwf) as Hn. rewrite Hl in Hn. by apply NoDup_cons in Hn as [? _]. }
    rewrite (index_perm _ _ (wf_entry_ids _ Hwf) Hsplit). apply (index_pop (n, o)).
    pose proof (wf_entry_ids _ Hwf) as Hn. rewrite Hsplit in Hn. by apply NoDup_cons in Hn as [? _].
  - rewrite Hperm'. eapply sublist_NoDup; [apply (wf_nodes _ Hwf)|]. apply (sublist_map fst), sublist_filter.
  - rewrite Hperm', Hnext. apply Forall_forall. intros x [_ Hx]%list_elem_of_filter.
    pose proof (wf_next _ Hwf) as Hn. rewrite Forall_forall in Hn. auto.
  - done.
Qed.

Lemma cancel_refines b id :
  wf b -> let r := cancel b id in wf r.2 /\ (r.1, abs r.2) = a_cancel (abs b) id.
Proof.
  intros Hwf. unfold cancel, cancel_indexed_order, a_cancel. rewrite <- contains_spec by done.
  unfold contains. destruct (index_ b !! id) as [loc|] eqn:E; simpl; [|done].
  apply index_lookup in E as (e & Hin & <- & ->); [|done].
  destruct (erase_resting_order_spec b e Hwf Hin) as [? ->]. done.
Qed.

(** ** Modifying an order *)

Lemma entries_split is_bid m n o :
  levels_ok (before_of is_bid) m -> (n, o) ∈ entries m ->
  exists l level r, m = l ++ (o_price o, level) :: r /\ om_find (o_price o) l = None /\ (n, o) ∈ level.
Proof.
  induction m as [|[p level] m IH]; intros Hok Hin; [set_solver|].
  apply levels_ok_cons in Hok as (_ & Hp & Hb & Hok). rewrite Forall_forall in Hp. rewrite Forall_forall in Hb.
  rewrite entries_cons in Hin. apply elem_of_app in Hin as [Hin|Hin].
  - specialize (Hp _ Hin). simpl in Hp. subst p. exists [], level, m. done.
  - destruct (IH Hok Hin) as (l & level' & r & -> & Hl & Hin').
    exists ((p, level) :: l), level', r. split; [done|]. split; [|done]. simpl.
    assert (before_of is_bid p (o_price o) = true) as Hbp.
    { apply (Hb (o_price o, level')). set_solver. }
    replace (o_price o =? p) with false; [done|].
    revert Hbp. destruct is_bid; unfold before_of, bid_before, ask_before; lia.
Qed.

Lemma entries_app l r : entries (l ++ r) = entries l ++ entries r.
Proof. unfold entries. by rewrite map_app, concat_app. Qed.

Lemma level_get_spec n o level : NoDup level.*1 -> (n, o) ∈ level -> level_get n level = Some o.
Proof.
  induction level as [|[n' o'] level IH]; intros Hnd Hin; [set_solver|]. simpl in *.
  apply NoDup_cons in Hnd as [Hn Hnd]. apply elem_of_cons in Hin as [Heq|Hin].
  - simplify_eq. by rewrite Z.eqb_refl.
  - replace (n =? n') with false; [auto|]. symmetry. apply Z.eqb_neq. intros ->.
    apply Hn. by apply (list_elem_of_fmap_2 fst) in Hin.
Qed.

Definition assign_entry (n : node) (q : Quantity) (e : node * Order) : node * Order :=
  if n =? e.1 then (e.1, set_quantity q e.2) else e.

Lemma assign_entry_absent n q (es : Level) : n ∉ es.*1 -> map (assign_entry n q) es = es.
Proof.
  induction es as [|e es IH]; [done|]. simpl. intros Hn. unfold assign_entry at 1.
  replace (n =? e.1) with false by (symmetry; apply Z.eqb_neq; set_solver). f_equal. apply IH. set_solver.
Qed.

Lemma assign_entry_nodes n q (es : Level) : (map (assign_entry n q) es).*1 = es.*1.
Proof.
  change (map fst (map (assign_entry n q) es) = map fst es). rewrite map_map. apply map_ext.
  intros e. unfold assign_entry. by case_if.
Qed.

Lemma level_set_map n q level : NoDup level.*1 -> level_set n q level = map (assign_entry n q) level.
Proof.
  induction level as [|[n' o] level IH]; [done|]. simpl. intros [Hn Hnd]%NoDup_cons.
  unfold assign_entry at 1. simpl. destruct (Z.eqb_spec n n') as [<-|]; [|by rewrite IH].
  by rewrite assign_entry_absent.
Qed.

Lemma assign_levels is_bid m n o q :
  levels_ok (before_of is_bid) m -> (n, o) ∈ entries m -> NoDup (entries m).*1 ->
  let m' := om_alter (level_set n q) (o_price o) m in
  levels_ok (before_of is_bid) m' /\ entries m' = map (assign_entry n q) (entries m).
Proof.
  intros Hok Hin Hnd m'. destruct (entries_split _ _ _ _ Hok Hin) as (l & level & r & -> & Hl & Hin').
  rewrite entries_app, entries_cons, !fmap_app in Hnd. apply NoDup_app in Hnd as (_ & Hd1 & Hnd).
  apply NoDup_app in Hnd as (Hnl & Hd2 & _).
  assert (n ∈ level.*1) as Hnin by (by apply (list_elem_of_fmap_2 fst) in Hin').
  unfold m'. rewrite om_alter_app_None by done. simpl. rewrite Z.eqb_refl, level_set_map by done. split.
  - destruct Hok as [Hs Hf]. split.
    + clear -Hs. unfold om_sorted in *. induction l as [|e l IH]; simpl in *; inv Hs.
      * by constructor.
      * constructor; [by apply IH|]. rewrite Forall_app, Forall_cons in *. done.
    + rewrite Forall_app, Forall_cons in *. destruct Hf as (? & [Hne Hp] & ?). split_and!; try done; simpl in *; [by destruct level|].
      apply Forall_map. eapply Forall_impl; [exact Hp|].
      intros e. unfold assign_entry. simpl. by case_if.
  - rewrite !entries_app, !entries_cons, !map_app.
    rewrite (assign_entry_absent n q (entries l)), (assign_entry_absent n q (entries r)); [done| |].
    + intros Hx. by apply (Hd2 n).
    + intros Hx. apply (Hd1 n); [done|]. apply elem_of_app. by left.
Qed.

(** Through unique nodes and ids, assigning to the node is assigning to the
    order of that id. *)
Lemma assign_entry_orders b n o q l :
  wf b -> (n, o) ∈ all_entries b -> (forall x, x ∈ l -> x ∈ all_entries b) ->
  map snd (map (assign_entry n q) l) =
  map (fun x => if o_id x =? o_id o then set_quantity q x else x) (map snd l).
Proof.
  intros Hwf Hin Hl. rewrite !map_map. apply map_ext_in. intros x Hx%list_elem_of_In%Hl.
  unfold assign_entry.
  destruct (Z.eqb_spec n x.1) as [Hn|Hn], (Z.eqb_spec (o_id x.2) (o_id o)) as [Hi|Hi]; [done| | |done].
  - destruct Hi. by rewrite (NoDup_map_inj fst _ x (n, o) (wf_nodes _ Hwf)).
  - destruct Hn. by rewrite (NoDup_map_inj _ _ x (n, o) (wf_entry_ids _ Hwf)).
Qed.

Lemma assign_quantity_entries b e q :
  wf b -> e ∈ all_entries b ->
  let b' := assign_quantity b (mkLocator (o_side e.2) (o_price e.2) e.1) q in
  levels_ok bid_before (bids_ b') /\ levels_ok ask_before (asks_ b') /\
  entries (bids_ b') = map (assign_entry e.1 q) (entries (bids_ b)) /\
  entries (asks_ b') = map (assign_entry e.1 q) (entries (asks_ b)) /\
  index_ b' = index_ b /\ next_node b' = next_node b.
Proof.
  intros Hwf Hin. destruct e as [n o]. pose proof (entry_on_side b (n, o) Hwf Hin) as Hside.
  pose proof (wf_nodes _ Hwf) as Hnd. unfold all_entries in Hnd. rewrite fmap_app in Hnd.
  apply NoDup_app in Hnd as (Hnb & Hdisj & Hna). cbn [fst snd] in *.
  unfold assign_quantity. cbn [loc_side loc_price loc_it].
  apply (list_elem_of_fmap_2 fst) in Hside as Hn. simpl in Hn.
  destruct (is_buy (o_side o)); simpl;
    [pose proof (assign_levels true _ n o q (wf_bids _ Hwf) Hside Hnb) as [Hok Hen]
    |pose proof (assign_levels false _ n o q (wf_asks _ Hwf) Hside Hna) as [Hok Hen]].
  - split_and!; try done; [apply Hwf|]. symmetry. apply assign_entry_absent. by apply Hdisj.
  - split_and!; try done; [apply Hwf|]. symmetry. apply assign_entry_absent.
    intros Hb. by apply (Hdisj n).
Qed.

Lemma assign_quantity_spec b e q :
  wf b -> e ∈ all_entries b -> in_u32 q -> 0 < q ->
  let b' := assign_quantity b (mkLocator (o_side e.2) (o_price e.2) e.1) q in
  wf b' /\ abs b' = a_assign (o_id e.2) q (abs b).
Proof.
  intros Hwf Hin Hq Hq' b'.
  pose proof (assign_quantity_entries b e q Hwf Hin) as (Hb & Ha & Heb & Hea & Hidx & Hnext).
  fold b' in Hb, Ha, Heb, Hea, Hidx, Hnext. destruct e as [n o]. simpl in Heb, Hea.
  assert (all_entries b' = map (assign_entry n q) (all_entries b)) as Hall.
  { unfold all_entries. by rewrite Heb, Hea, map_app. }
  assert (abs b' = a_assign (o_id o) q (abs b)) as Habs.
  { unfold abs, a_assign, flat. rewrite Heb, Hea. simpl.
    f_equal; eapply assign_entry_orders; try done; unfold all_entries; set_solver. }
  split; [|done]. split; try done.
  - rewrite Hidx, (wf_index _ Hwf), Hall, map_map. f_equal. apply map_ext. intros x.
    unfold assign_entry. by case_if.
  - rewrite Hall, assign_entry_nodes. apply Hwf.
  - rewrite Hall, Hnext. apply Forall_map. eapply Forall_impl; [apply (wf_next _ Hwf)|].
    intros x. unfold assign_entry. simpl. by case_if.
  - rewrite Habs. by apply a_assign_wf; [apply Hwf|..].
Qed.

Lemma find_level_spec b e :
  wf b -> e ∈ all_entries b ->
  exists level, find_level b (o_side e.2) (o_price e.2) = Some level /\ e ∈ level /\ NoDup level.*1.
Proof.
  intros Hwf Hin. pose proof (entry_on_side b e Hwf Hin) as Hside. destruct e as [n o].
  pose proof (wf_nodes _ Hwf) as Hnd. unfold all_entries in Hnd. rewrite fmap_app in Hnd.
  apply NoDup_app in Hnd as (Hnb & _ & Hna). unfold find_level. simpl in *.
  assert (NoDup (entries (if is_buy (o_side o) then bids_ b else asks_ b)).*1) as Hn by (by case_if).
  destruct (entries_split (is_buy (o_side o)) _ _ _ (side_levels _ _ Hwf) Hside)
    as (l & level & r & Hm & Hl & Hin').
  exists level. rewrite Hm, entries_app, entries_cons, !fmap_app in Hn.
  apply NoDup_app in Hn as (_ & _ & Hn). apply NoDup_app in Hn as (Hn & _ & _). split; [|done].
  assert (om_find (o_price o) (if is_buy (o_side o) then bids_ b else asks_ b) = Some level) as <-
    by (rewrite Hm, om_find_app_None by done; simpl; by rewrite Z.eqb_refl).
  by case_if.
Qed.

Lemma deref_spec b e :
  wf b -> e ∈ all_entries b -> deref b (mkLocator (o_side e.2) (o_price e.2) e.1) = Some e.2.
Proof.
  intros Hwf Hin. destruct (find_level_spec b e Hwf Hin) as (level & Hf & Hin' & Hn).
  unfold deref. simpl. rewrite Hf. apply level_get_spec; [done|]. by destruct e.
Qed.

Lemma a_find_entry b e : wf b -> e ∈ all_entries b -> a_find (abs b) (o_id e.2) = Some e.2.
Proof.
  intros Hwf Hin. apply a_find_Some; [apply Hwf|]. split; [|done].
  unfold a_orders, abs, flat. simpl. unfold all_entries in Hin. rewrite <- map_app.
  by apply (list_elem_of_fmap_2 snd).
Qed.

Lemma modify_refines b id new_price new_quantity :
  wf b -> in_u32 new_quantity ->
  let r := modify b id new_price new_quantity in
  wf r.2 /\ (r.1, abs r.2) = a_modify (abs b) id new_price new_quantity.
Proof.
  intros Hwf Hq. unfold modify, a_modify. pose proof (cancel_refines b id Hwf) as [Hwc Hc].
  unfold a_cancel in Hc. rewrite <- contains_spec in Hc by done. unfold contains in Hc.
  destruct (index_ b !! id) as [loc|] eqn:E.
  - apply index_lookup in E as (e & Hin & <- & ->); [|done]. apply (f_equal snd) in Hc.
    rewrite bool_decide_true in Hc by done. cbn [snd] in Hc.
    rewrite deref_spec, a_find_entry by done. simpl.
    destruct (new_quantity =? 0) eqn:Eq; [cbn [fst snd]; by rewrite Hc|].
    destruct ((new_price =? o_price e.2) && (new_quantity <=? o_quantity e.2)) eqn:E2.
    + destruct (assign_quantity_spec b e new_quantity) as [? Ha]; [done|done|done| |cbn [fst snd]; by rewrite Ha].
      unfold in_u32 in Hq. lia.
    + rewrite <- Hc. by apply add_limit_refines.
  - assert (a_find (abs b) id = None) as ->; [|done]. apply a_find_None.
    rewrite <- contains_spec by done. unfold contains. by rewrite E.
Qed.

(** ** Queries refine the specification *)

Lemma best_price_spec before m : levels_ok before m -> best_price m = a_best (flat m).
Proof.
  destruct m as [|[p level] m]; [done|]. intros (Hne & Hp & _)%levels_ok_cons.
  rewrite flat_cons. destruct level as [|[n o] level]; [done|].
  apply Forall_cons in Hp as [Hp _]. simpl in *. by rewrite <- Hp.
Qed.

Lemma level_quantity_spec level : level_quantity level = u64 (sum_quantity (map snd level)).
Proof.
  unfold level_quantity. rewrite <- (Z.add_0_l (sum_quantity _)), <- fold_quantity_wrap.
  change (u64 0) with 0. generalize 0. induction level as [|e level IH]; intros acc; [done|]. apply IH.
Qed.

(** Levels behind the first hold other prices. *)
Lemma later_prices is_bid p m :
  Forall (fun e => before_of is_bid p e.1 = true) m -> levels_ok (before_of is_bid) m ->
  Forall (fun o => o_price o <> p) (flat m).
Proof.
  intros Hb. induction m as [|[p' level] m IH]; [done|]. apply Forall_cons in Hb as [Hp' Hb].
  intros (_ & Hp & _ & Hok)%levels_ok_cons. rewrite flat_cons. apply Forall_app. split; [|by apply IH].
  apply Forall_map. eapply Forall_impl; [exact Hp|]. simpl in *. intros e ->.
  revert Hp'. destruct is_bid; unfold before_of, bid_before, ask_before; lia.
Qed.

Lemma level_at_price is_bid p m :
  levels_ok (before_of is_bid) m ->
  at_price p (flat m) = match om_find p m with Some level => map snd level | None => [] end.
Proof.
  induction m as [|[p' level] m IH]; intros Hok; [done|].
  apply levels_ok_cons in Hok as (_ & Hp & Hb & Hok). rewrite flat_cons, at_price_app. simpl.
  destruct (Z.eqb_spec p p') as [->|Hne].
  - rewrite at_price_all, at_price_none, app_nil_r; [done| |].
    + by eapply later_prices.
    + apply Forall_map. exact Hp.
  - rewrite at_price_none, IH; [done|done|]. apply Forall_map. eapply Forall_impl; [exact Hp|].
    simpl. by intros e ->.
Qed.

Lemma quantity_at_spec b side price :
  wf b ->
  quantity_at b side price = u64 (sum_quantity (at_price price (a_side (is_buy side) (abs b)))).
Proof.
  intros Hwf. unfold quantity_at, find_level.
  destruct (is_buy side); simpl; [rewrite (level_at_price true) by apply Hwf
    |rewrite (level_at_price false) by apply Hwf];
    (destruct (om_find _ _) as [level|]; [apply level_quantity_spec|done]).
Qed.

Lemma flat_prices is_bid m : levels_ok (before_of is_bid) m -> a_prices (flat m) = m.*1.
Proof.
  induction m as [|[p level] m IH]; intros Hok; [done|].
  apply levels_ok_cons in Hok as (Hne & Hp & Hb & Hok). rewrite flat_cons, (a_prices_block p).
  - simpl. f_equal. by apply IH.
  - by destruct level.
  - by apply Forall_map.
  - rewrite IH by done. destruct m as [|[p' l'] m]; [done|]. simpl. apply Forall_cons in Hb as [Hb _].
    simpl in Hb. intros [= ->]. revert Hb. destruct is_bid; unfold before_of, bid_before, ask_before; lia.
Qed.

Lemma collect_levels_spec is_bid m :
  levels_ok (before_of is_bid) m -> collect_levels m = a_levels (flat m).
Proof.
  intros Hok. unfold a_levels. rewrite (flat_prices is_bid) by done. unfold collect_levels.
  change (m.*1) with (map fst m). rewrite map_map. apply map_ext_in. intros [p level] Hin. simpl.
  rewrite level_quantity_spec, (level_at_price is_bid) by done.
  apply list_elem_of_In, list_elem_of_split in Hin as (l & r & ->).
  replace (om_find p (l ++ (p, level) :: r)) with (Some level); [done|].
  symmetry. rewrite om_find_app_None; [simpl; by rewrite Z.eqb_refl|].
  apply om_find_None. intros Hin. destruct Hok as [Hs _]. unfold om_sorted in Hs.
  apply list_elem_of_fmap in Hin as ([p' l'] & Heq & Hin). simpl in Heq. subst p'.
  apply list_elem_of_split in Hin as (l1 & l2 & ->). rewrite <- app_assoc in Hs.
  apply StronglySorted_app_1_r in Hs. inv Hs. apply Forall_app in H2 as [_ H2].
  apply Forall_cons in H2 as [H2 _]. simpl in H2.
  revert H2. destruct is_bid; unfold before_of, bid_before, ask_before; lia.
Qed.

Lemma count_level_matches_spec taker level : forall q,
  0 <= q -> Forall (fun e => 0 < o_quantity e.2) level ->
  let '(ts, r, _) := a_match taker (fun _ => true) q (map snd level) in
  count_level_matches level q = (Z.of_nat (length ts), r).
Proof.
  induction level as [|[n o] level IH]; intros q Hq Hpos; [done|].
  apply Forall_cons in Hpos as [Ho Hpos]. simpl in *. rewrite andb_true_r.
  destruct (0 <? q) eqn:Eq; [|done]. destruct (o_quantity o <=? q) eqn:El.
  - replace (Z.min q (o_quantity o)) with (o_quantity o) by lia.
    specialize (IH (q - o_quantity o) ltac:(lia) Hpos).
    destruct (a_match _ _ _ _) as [[ts r] l']. rewrite IH. simpl. f_equal. lia.
  - replace (q - Z.min q (o_quantity o)) with 0 by lia. specialize (IH 0 ltac:(lia) Hpos).
    rewrite a_match_stop in IH by lia. by rewrite IH.
Qed.

Lemma count_matches_spec taker before m : forall query,
  0 <= q_quantity query -> levels_ok before m -> Forall (fun o => 0 < o_quantity o) (flat m) ->
  count_matches m query =
  Z.of_nat (length (a_match taker
    (can_match_level (q_taker_is_buy query) (q_is_market query) (q_limit query))
    (q_quantity query) (flat m)).1.1).
Proof.
  induction m as [|[p level] m IH]; intros query Hq Hok Hpos; [done|].
  apply levels_ok_cons in Hok as (Hne & Hp & _ & Hok). rewrite flat_cons in Hpos |- *.
  apply Forall_app in Hpos as [Hpl Hpm]. cbn [count_matches].
  destruct (0 <? q_quantity query) eqn:Eq; [|by rewrite a_match_stop by lia].
  set (cross := can_match_level (q_taker_is_buy query) (q_is_market query) (q_limit query)) in *.
  destruct (cross p) eqn:Ec; cbn [negb].
  - assert (Forall (fun o => cross (o_price o) = true) (map snd level)) as Hcl.
    { apply Forall_map. eapply Forall_impl; [exact Hp|]. simpl. intros e ->. done. }
    rewrite a_match_app by done. rewrite (a_match_ext _ cross (fun _ => true)) by done.
    pose proof (count_level_matches_spec taker level (q_quantity query) Hq) as Hc.
    specialize (Hc (proj1 (Forall_map _ _ _) Hpl)).
    destruct (a_match taker (fun _ => true) _ _) as [[ts r] l'] eqn:Em. rewrite Hc.
    assert (0 <= r) as Hr by (eapply consumes_remainder, a_match_consumes; done).
    rewrite IH by done. cbn [q_taker_is_buy q_is_market q_limit q_quantity]. fold cross.
    destruct l' as [|o l'].
    + destruct (a_match taker cross r (flat m)) as [[ts2 r2] l2]. simpl. rewrite length_app. lia.
    + assert (r = 0) as ->.
      { eapply (a_match_left _ _ _ _ _ _ _ Hq Em); [|done]. by apply Forall_true. }
      rewrite a_match_stop by lia. simpl. lia.
  - destruct level as [|[n o] level]; [done|]. apply Forall_cons in Hp as [Hp _]. simpl in *.
    by rewrite Hp, Ec, andb_false_r.
Qed.

Lemma fill_count_spec b id side price is_market q :
  wf b -> is_valid_side side = true -> 0 <= q ->
  fill_count b side price is_market q =
    Z.of_nat (length (a_take (abs b) id side price is_market q).1.1).
Proof.
  intros Hwf Hs Hq. unfold fill_count, a_take.
  destruct side; [| |done]; simpl;
    [erewrite (count_matches_spec id) by first [done|apply Hwf|by eapply side_wf_positive, wf_abs]..].
  - by destruct (a_match _ _ _ _) as [[? ?] ?].
  - by destruct (a_match _ _ _ _) as [[? ?] ?].
Qed.

Lemma append_orders_spec m out : append_orders m out = out ++ flat m.
Proof.
  assert (forall (l : Level) out, fold_left (fun out o => out ++ [o.2]) l out = out ++ map snd l) as Hl.
  { induction l as [|e l IH]; intros o; simpl; [by rewrite app_nil_r|]. by rewrite IH, <- app_assoc. }
  revert out. induction m as [|[p level] m IH]; intros out; simpl; [by rewrite app_nil_r|].
  unfold append_orders in IH. by rewrite Hl, IH, flat_cons, app_assoc.
Qed.

Lemma resting_orders_spec b : resting_orders b = a_orders (abs b).
Proof. unfold resting_orders. by rewrite !append_orders_spec. Qed.

Lemma empty_book_wf : wf empty_book.
Proof. split; try done; try (by split; constructor). - constructor. - apply a_wf_empty. Qed.

(** ** The baseline store implements the interface *)

#[export] Instance baseline_store : BookStore OrderBook := {
  bs_new := fun _ => empty_book;
  bs_add_limit := add_limit;
  bs_add_market := add_market;
  bs_cancel := cancel;
  bs_modify := modify;
  bs_best_bid := best_bid;
  bs_best_ask := best_ask;
  bs_quantity_at := quantity_at;
  bs_order_count := order_count;
  bs_contains := contains;
  bs_fill_count := fill_count;
  bs_can_store_limit := can_store_limit;
  bs_can_apply_modify := can_apply_modify;
  bs_bid_levels := bid_levels;
  bs_ask_levels := ask_levels;
  bs_resting_orders := resting_orders
}.

#[export] Instance baseline_laws : BookStoreLaws OrderBook.
Proof.
  refine {| bs_wf := wf; bs_room := fun _ => True; bs_abs := abs |}; simpl; intros.
  - by apply wf_abs.
  - split; [apply empty_book_wf|done].
  - by apply add_limit_refines.
  - by apply add_market_refines.
  - by apply cancel_refines.
  - by apply modify_refines.
  - done.
  - by apply contains_spec.
  - by apply order_count_spec.
  - by eapply best_price_spec, wf_bids.
  - by eapply best_price_spec, wf_asks.
  - by apply quantity_at_spec.
  - by apply fill_count_spec.
  - by apply (collect_levels_spec true), wf_bids.
  - by apply (collect_levels_spec false), wf_asks.
  - by apply resting_orders_spec.
Defined.
