(* ===== verification/BookTheorems.v ===== *)
(** * BookTheorems: what the order book guarantees

    The properties of [OrderBook], proved from the refinement of each storage to
    the abstract book of BookSpec. *)
From S2P Require Import Prelude Core Book BookSpec BookRun OrderBook.

Lemma baseline_admits (b : OrderBook) (c : BookCmd) : bs_admits b c = true.
Proof. by destruct c. Qed.

Lemma baseline_steps_wf (cmds : list BookCmd) tss b :
  book_steps empty_book cmds tss b -> wf b /\ a_run a_empty cmds = (tss, abs b).
Proof. apply (book_steps_refine (HL := baseline_laws)). apply empty_book_wf. Qed.

Lemma baseline_run_steps (cmds : list BookCmd) :
  Forall cmd_ok cmds ->
  book_steps empty_book cmds (bs_run empty_book cmds).1 (bs_run empty_book cmds).2.
Proof. apply bs_run_steps; [done|apply baseline_admits]. Qed.

(** A small book with two price levels on each side and a shared level. *)
Definition sample_cmds : list BookCmd :=
  [BookLimit 1 Buy 99 10 GTC; BookLimit 2 Buy 100 7 GTC; BookLimit 3 Sell 102 5 GTC;
   BookLimit 4 Sell 102 8 GTC; BookLimit 5 Sell 103 4 GTC].
Definition sample_book : OrderBook := (bs_run empty_book sample_cmds).2.

Lemma sample_cmds_ok : Forall cmd_ok sample_cmds.
Proof. repeat constructor; done. Qed.
Lemma sample_book_wf : wf sample_book.
Proof. eapply baseline_steps_wf, baseline_run_steps, sample_cmds_ok. Qed.

(** C1: Every command sequence runs on the baseline order book, from the empty
    book, to a well-formed book; the trades of every command and the resting
    orders at the end are those of the abstract price-time-priority book. *)
Theorem baseline_refines_spec (cmds : list BookCmd) :
  Forall cmd_ok cmds ->
  exists b, book_steps empty_book cmds (a_run a_empty cmds).1 b /\
    wf b /\ abs b = (a_run a_empty cmds).2.
Proof.
  intros Hs%baseline_run_steps. destruct (baseline_steps_wf _ _ _ Hs) as [Hwf Hr].
  exists (bs_run empty_book cmds).2. by rewrite Hr.
Qed.

Lemma baseline_refines_spec_witness :
  exists b, book_steps empty_book sample_cmds (a_run a_empty sample_cmds).1 b /\
    wf b /\ abs b = (a_run a_empty sample_cmds).2.
Proof. apply (baseline_refines_spec sample_cmds). apply sample_cmds_ok. Defined.

(** ** Invariants over whole runs *)

Lemma baseline_run_wf cmds : Forall cmd_ok cmds -> wf (bs_run empty_book cmds).2.
Proof. apply (bs_run_wf (HL := baseline_laws)); [done|apply empty_book_wf]. Qed.

Lemma best_bid_spec b : wf b -> best_bid b = a_best (a_bids (abs b)).
Proof. apply (bs_best_bid_ok (BookStoreLaws := baseline_laws)). Qed.
Lemma best_ask_spec b : wf b -> best_ask b = a_best (a_asks (abs b)).
Proof. apply (bs_best_ask_ok (BookStoreLaws := baseline_laws)). Qed.

Lemma bid_levels_spec b : wf b -> bid_levels b = a_levels (a_bids (abs b)).
Proof. apply (bs_bid_levels_ok (BookStoreLaws := baseline_laws)). Qed.
Lemma ask_levels_spec b : wf b -> ask_levels b = a_levels (a_asks (abs b)).
Proof. apply (bs_ask_levels_ok (BookStoreLaws := baseline_laws)). Qed.

(** C26: Whatever commands a book has executed, its best bid is strictly below its
    best ask, no two resting orders share an id, and every resting order has a
    positive quantity. *)
Theorem book_never_crossed (cmds : list BookCmd) :
  Forall cmd_ok cmds ->
  let b := (bs_run empty_book cmds).2 in
  (forall bid ask, best_bid b = Some bid -> best_ask b = Some ask -> bid < ask) /\
  NoDup (map o_id (resting_orders b)) /\
  Forall (fun o => 0 < o_quantity o) (resting_orders b).
Proof.
  intros Hok b. pose proof (baseline_run_wf cmds Hok) as Hwf. fold b in Hwf.
  pose proof (wf_abs _ Hwf) as [Hb Ha Hids Hu]. rewrite resting_orders_spec. split_and!; [|done|].
  - intros bid ask. rewrite best_bid_spec, best_ask_spec by done. unfold a_best.
    destruct (a_bids (abs b)) as [|x l] eqn:Eb; [done|]. destruct (a_asks (abs b)) as [|y k] eqn:Ek; [done|].
    intros [= <-] [= <-]. apply Hu; rewrite ?Eb, ?Ek; apply list_elem_of_here.
  - apply Forall_app. split; by eapply side_wf_positive.
Qed.

Lemma book_never_crossed_witness :
  (forall bid ask, best_bid sample_book = Some bid -> best_ask sample_book = Some ask -> bid < ask) /\
  NoDup (map o_id (resting_orders sample_book)) /\
  Forall (fun o => 0 < o_quantity o) (resting_orders sample_book).
Proof. apply (book_never_crossed sample_cmds). apply sample_cmds_ok. Defined.

(** ** Matching *)

(** C23: A limit order trades against the opposite side strictly in price-time
    priority: a prefix of the queue at acceptable prices is consumed front to
    back, at the makers' prices, with at most the last maker filled partially;
    traded and left-over quantity add up to the order; the remainder rests only
    for GTC, behind every order of the same or a better price. *)
Theorem limit_order_priority (b : OrderBook) id side price q tif :
  wf b -> in_u32 q -> contains b id = false ->
  let r := add_limit b id side price q tif in
  wf r.2 /\ limit_outcome id side price q tif (abs b) r.1 (abs r.2).
Proof.
  intros Hwf Hq Hc r. destruct (add_limit_refines b id side price q tif Hwf Hq) as [Hwf' Hr].
  fold r in Hwf', Hr. split; [done|].
  pose proof (a_add_limit_outcome (abs b) id side price q tif) as Ho. rewrite <- Hr in Ho. cbn [fst snd] in Ho.
  apply Ho; [by apply wf_abs|unfold in_u32 in Hq; lia|]. by rewrite <- contains_spec.
Qed.

Lemma limit_order_priority_witness :
  let r := add_limit sample_book 9 Buy 102 10 GTC in
  wf r.2 /\ limit_outcome 9 Buy 102 10 GTC (abs sample_book) r.1 (abs r.2).
Proof. apply (limit_order_priority sample_book); [apply sample_book_wf|done|vm_compute; reflexivity]. Defined.

(** [fill_count] predicts a limit order exactly: it is the number of trades
    [add_limit] returns, for any order id that does not rest. *)
Theorem fill_count_predicts (b : OrderBook) id side price q tif :
  wf b -> is_valid_side side = true -> in_u32 q -> contains b id = false ->
  fill_count b side price false q = Z.of_nat (length (add_limit b id side price q tif).1).
Proof.
  intros Hwf Hs Hq Hc. destruct (add_limit_refines b id side price q tif Hwf Hq) as [_ Hr].
  apply (f_equal fst) in Hr. cbn [fst] in Hr. rewrite Hr.
  rewrite (fill_count_spec b id) by (done || (unfold in_u32 in Hq; lia)).
  unfold a_add_limit. rewrite <- contains_spec, Hc by done.
  destruct (a_take _ _ _ _ _ _) as [[ts r] b']. by case_if.
Qed.

Lemma fill_count_predicts_witness :
  fill_count sample_book Buy 103 false 15 = Z.of_nat (length (add_limit sample_book 9 Buy 103 15 GTC).1).
Proof. apply (fill_count_predicts sample_book); [apply sample_book_wf|done|done|vm_compute; reflexivity]. Defined.

(** ** Modify *)

Lemma resting_lookup b o : wf b -> o ∈ resting_orders b -> a_find (abs b) (o_id o) = Some o.
Proof.
  intros Hwf Hin. rewrite resting_orders_spec in Hin. apply a_find_Some; [|done]. apply wf_abs in Hwf. apply Hwf.
Qed.

(** Modifying a resting order to quantity zero cancels it; reducing it at
    its price keeps its place in the queue and trades nothing; anything else is a
    cancel followed by a new GTC order, which loses its place. *)
Theorem modify_priority (b : OrderBook) o new_price new_quantity :
  wf b -> o ∈ resting_orders b -> in_u32 new_quantity ->
  let r := modify b (o_id o) new_price new_quantity in
  if new_quantity =? 0
  then r.1 = [] /\ resting_orders r.2 = filter (fun x => o_id x <> o_id o) (resting_orders b)
  else if (new_price =? o_price o) && (new_quantity <=? o_quantity o)
  then r.1 = [] /\ resting_orders r.2 =
    map (fun x => if o_id x =? o_id o then set_quantity new_quantity x else x) (resting_orders b)
  else let r' := add_limit (cancel b (o_id o)).2 (o_id o) (o_side o) new_price new_quantity GTC in
    r.1 = r'.1 /\ resting_orders r.2 = resting_orders r'.2.
Proof.
  intros Hwf Hin Hq r. destruct (modify_refines b (o_id o) new_price new_quantity Hwf Hq) as [_ Hr].
  fold r in Hr. pose proof (resting_lookup b o Hwf Hin) as Hf. unfold a_modify in Hr. rewrite Hf in Hr.
  rewrite !resting_orders_spec. unfold a_orders.
  destruct (new_quantity =? 0); [|destruct ((new_price =? o_price o) && _)].
  - apply pair_equal_spec in Hr as [H1 H2]. rewrite H2, H1. split; [done|]. simpl. by rewrite filter_app.
  - apply pair_equal_spec in Hr as [H1 H2]. rewrite H2, H1. split; [done|]. simpl. by rewrite map_app.
  - destruct (cancel_refines b (o_id o) Hwf) as [Hwf1 Hc]. unfold a_cancel in Hc.
    assert (a_contains (abs b) (o_id o) = true) as Hcont.
    { destruct (a_contains (abs b) (o_id o)) eqn:E; [done|]. apply a_find_None in E. congruence. }
    rewrite Hcont in Hc. apply (f_equal snd) in Hc. cbn [snd] in Hc. rewrite <- Hc in Hr.
    destruct (add_limit_refines (cancel b (o_id o)).2 (o_id o) (o_side o) new_price new_quantity GTC Hwf1 Hq) as [_ Ha].
    rewrite <- Ha in Hr. apply pair_equal_spec in Hr as [H1 H2]. cbn zeta. rewrite !resting_orders_spec. unfold a_orders. by rewrite H1, H2.
Qed.

Lemma modify_priority_witness :
  let r := modify sample_book 3 102 2 in
  r.1 = [] /\ resting_orders r.2 =
    map (fun x => if o_id x =? 3 then set_quantity 2 x else x) (resting_orders sample_book).
Proof.
  apply (modify_priority sample_book (mkOrder 3 Sell 102 5) 102 2); [apply sample_book_wf| |done].
  apply (bool_decide_unpack _). vm_compute. exact I.
Defined.

(** ** Depth *)

(** With at most 2^32 resting orders the 64-bit level totals are exact: the
    quantity reported at a price, and in the depth of both sides, is the sum of
    the quantities of the orders resting there. *)
Theorem level_totals_exact (b : OrderBook) side price :
  wf b -> order_count b <= 2 ^ 32 ->
  let queue := a_side (is_buy side) (abs b) in
  quantity_at b side price = sum_quantity (at_price price queue) /\
  bid_levels b = map (fun p => mkLevelView p (sum_quantity (at_price p (a_bids (abs b))))) (a_prices (a_bids (abs b))) /\
  ask_levels b = map (fun p => mkLevelView p (sum_quantity (at_price p (a_asks (abs b))))) (a_prices (a_asks (abs b))).
Proof.
  intros Hwf Hn queue. rewrite order_count_spec in Hn by done. unfold a_orders in Hn. rewrite length_app in Hn.
  pose proof (wf_abs _ Hwf) as Ha. pose proof Ha as [Hbids Hasks _ _]. split_and!.
  - rewrite quantity_at_spec by done. eapply at_price_exact; [by apply a_side_wf|].
    subst queue. destruct (is_buy side); cbn [a_side]; lia.
  - rewrite bid_levels_spec by done. apply map_ext. intros p. f_equal.
    eapply at_price_exact; [done|]. lia.
  - rewrite ask_levels_spec by done. apply map_ext. intros p. f_equal.
    eapply at_price_exact; [done|]. lia.
Qed.

Lemma level_totals_exact_witness :
  quantity_at sample_book Sell 102 = sum_quantity (at_price 102 (a_asks (abs sample_book))) /\
  bid_levels sample_book = map (fun p => mkLevelView p (sum_quantity (at_price p (a_bids (abs sample_book)))))
    (a_prices (a_bids (abs sample_book))) /\
  ask_levels sample_book = map (fun p => mkLevelView p (sum_quantity (at_price p (a_asks (abs sample_book)))))
    (a_prices (a_asks (abs sample_book))).
Proof. apply (level_totals_exact sample_book Sell 102); [apply sample_book_wf|by vm_compute]. Defined.

(** ** Rebuilding *)

Lemma relimit_run os : forall b,
  wf b -> Forall (fun o => in_u32 (o_quantity o)) os ->
  let r := bs_run b (map relimit os) in
  wf r.2 /\ (r.1, abs r.2) = a_run (abs b) (map relimit os).
Proof.
  induction os as [|o os IH]; intros b Hwf Hq; [done|]. apply Forall_cons in Hq as [Ho Hq].
  cbn [map bs_run a_run]. rewrite baseline_admits.
  destruct (add_limit_refines b (o_id o) (o_side o) (o_price o) (o_quantity o) GTC Hwf Ho) as [Hwf1 Hr].
  cbn [relimit bs_exec a_exec] in *. cbn [bs_add_limit baseline_store].
  destruct (add_limit b _ _ _ _ _) as [ts b1]. cbn [fst snd] in *. rewrite <- Hr.
  specialize (IH b1 Hwf1 Hq). destruct (bs_run b1 (map relimit os)) as [tss b2]. cbn [fst snd] in *.
  destruct IH as [Hwf2 IH]. by rewrite <- IH.
Qed.

(** Re-entering the resting orders of a book, in the order
    [resting_orders] lists them, as GTC limit orders into an empty book trades
    nothing and rebuilds the book: the same orders in the same priority, and so
    the same depth. *)
Theorem resting_orders_restore (b : OrderBook) :
  wf b ->
  let r := bs_run empty_book (map relimit (resting_orders b)) in
  r.1 = replicate (length (resting_orders b)) [] /\
  resting_orders r.2 = resting_orders b /\
  bid_levels r.2 = bid_levels b /\ ask_levels r.2 = ask_levels b.
Proof.
  intros Hwf r. pose proof (wf_abs _ Hwf) as Ha.
  destruct (relimit_run (resting_orders b) empty_book empty_book_wf) as [Hwf' Hr].
  { rewrite resting_orders_spec. apply Forall_app. destruct Ha as [[_ Hb _] [_ Hk _] _ _].
    split; (eapply Forall_impl; [eassumption|]); by intros o [? _]. }
  fold r in Hwf', Hr. change (abs empty_book) with a_empty in Hr.
  rewrite (resting_orders_spec b), (a_restore (abs b) Ha) in Hr.
  apply pair_equal_spec in Hr as [H1 H2]. rewrite !resting_orders_spec. rewrite H1, H2. split_and!; try done.
  - rewrite !bid_levels_spec by done. by rewrite H2.
  - rewrite !ask_levels_spec by done. by rewrite H2.
Qed.

Lemma resting_orders_restore_witness :
  let r := bs_run empty_book (map relimit (resting_orders sample_book)) in
  r.1 = replicate (length (resting_orders sample_book)) [] /\
  resting_orders r.2 = resting_orders sample_book /\
  bid_levels r.2 = bid_levels sample_book /\ ask_levels r.2 = ask_levels sample_book.
Proof. apply (resting_orders_restore sample_book). apply sample_book_wf. Defined.
