(* ===== verification/Contiguous.v ===== *)
(** * Contiguous: the contiguous storage of [qsl::engine::OrderBook]

    [OrderBook::ContiguousStore] of src/engine/contiguous_store.hpp: a flat array
    of price levels per side indexed by price tick, an occupancy bitmap per side,
    each level's queue a vector with a head cursor and tombstones for canceled
    and filled orders, compacted when the tombstones outnumber the live orders. *)
From S2P Require Import Prelude Core Book BookSpec.

(** ** Bitmap: the occupancy bitmaps of the contiguous storage

    [set_bit], [clear_bit], [next_up] and [next_down] of
    src/engine/contiguous_store.hpp over an array of 64-bit words, and what the
    two searches return: the nearest set bit at or above, and at or below, a
    slot. *)

Abbreviation Bitmap := (list Z) (only parsing).

Definition kBandWidth : nat := Z.to_nat 1024.
Definition kBitmapWords : nat := ((kBandWidth + 63) / 64)%nat.

(** ** <bit> *)

Fixpoint ctz_pos (p : positive) : nat :=
  match p with xO p' => S (ctz_pos p') | _ => O end.

(** [std::countr_zero] and [std::countl_zero] on 64-bit words. *)
Definition countr_zero (v : Z) : nat := match v with Zpos p => ctz_pos p | _ => 64 end.
Definition countl_zero (v : Z) : nat := if v =? 0 then 64 else Z.to_nat (63 - Z.log2 v).

(** ** The operations *)

Definition word_at (bits : Bitmap) (w : nat) : Z := default 0 (bits !! w).

Definition set_bit (bits : Bitmap) (slot : nat) : Bitmap :=
  <[(slot / 64)%nat := Z.lor (word_at bits (slot / 64)%nat) (u64 (Z.shiftl 1 (Z.of_nat (slot mod 64)%nat)))]> bits.

Definition clear_bit (bits : Bitmap) (slot : nat) : Bitmap :=
  <[(slot / 64)%nat := Z.land (word_at bits (slot / 64)%nat)
                   (u64 (Z.lnot (u64 (Z.shiftl 1 (Z.of_nat (slot mod 64)%nat)))))]> bits.

(** The loop [for (word = from / 64; word < kBitmapWords; ++word)], with [n]
    words to go. *)
Fixpoint next_up_loop (bits : Bitmap) (from n word : nat) : option nat :=
  match n with
  | O => None
  | S n' =>
      let value := word_at bits word in
      let value :=
        if (word =? from / 64)%nat
        then Z.land value (u64 (Z.shiftl (u64 (Z.lnot 0)) (Z.of_nat (from mod 64)%nat))) else value in
      if negb (value =? 0) then Some (word * 64 + countr_zero value)%nat
      else next_up_loop bits from n' (S word)
  end.

Definition next_up (bits : Bitmap) (from : nat) : option nat :=
  next_up_loop bits from (kBitmapWords - from / 64)%nat (from / 64)%nat.

(** The loop [for (word = from / 64 + 1; word-- > 0;)]. *)
Fixpoint next_down_loop (bits : Bitmap) (from word : nat) : option nat :=
  match word with
  | O => None
  | S word' =>
      let value := word_at bits word' in
      let value :=
        if (word' =? from / 64)%nat && negb (from mod 64 =? 63)%nat
        then Z.land value (u64 (Z.shiftl 1 (Z.of_nat (from mod 64)%nat + 1) - 1)) else value in
      if negb (value =? 0) then Some (word' * 64 + (63 - countl_zero value))%nat
      else next_down_loop bits from word'
  end.

Definition next_down (bits : Bitmap) (from : nat) : option nat :=
  next_down_loop bits from (from / 64 + 1)%nat.

(** ** Occupied slots *)

Definition occupied (bits : Bitmap) (slot : nat) : bool :=
  Z.testbit (word_at bits (slot / 64)%nat) (Z.of_nat (slot mod 64)%nat).

Record bits_ok (bits : Bitmap) : Prop := {
  bo_length : length bits = kBitmapWords;
  bo_words : Forall in_u64 bits
}.

Lemma word_at_ok bits w : bits_ok bits -> in_u64 (word_at bits w).
Proof.
  intros [_ Hw]. unfold word_at. destruct (bits !! w) as [v|] eqn:E; [|by unfold in_u64].
  by eapply Forall_lookup_1 in E.
Qed.

Lemma slot_split slot : slot = (slot / 64 * 64 + slot mod 64)%nat /\ (slot mod 64 < 64)%nat.
Proof. pose proof (Nat.div_mod_eq slot 64). pose proof (Nat.mod_upper_bound slot 64). lia. Qed.

Lemma slot_of_word w i : (i < 64)%nat -> ((w * 64 + i) / 64 = w)%nat /\ ((w * 64 + i) mod 64 = i)%nat.
Proof.
  intros Hi. split.
  - rewrite Nat.div_add_l by lia. rewrite Nat.div_small by lia. lia.
  - rewrite Nat.add_comm, Nat.Div0.mod_add. by apply Nat.mod_small.
Qed.

(** *** Bits of 64-bit words *)

Lemma u64_testbit v i : 0 <= i < 64 -> Z.testbit (u64 v) i = Z.testbit v i.
Proof. intros Hi. unfold u64, wrap. by rewrite Z.mod_pow2_bits_low by lia. Qed.

Lemma u64_testbit_high v i : 64 <= i -> Z.testbit (u64 v) i = false.
Proof. intros Hi. unfold u64, wrap. by rewrite Z.mod_pow2_bits_high by lia. Qed.

Lemma in_u64_bits v : in_u64 v -> forall i, 64 <= i -> Z.testbit v i = false.
Proof. intros Hv i Hi. rewrite <- (Z.mod_small v (2 ^ 64)) by done. apply Z.mod_pow2_bits_high. lia. Qed.

Lemma bits_in_u64 v : 0 <= v -> (forall i, 64 <= i -> Z.testbit v i = false) -> in_u64 v.
Proof.
  intros H0 Hb. split; [done|]. destruct (Z.eq_dec v 0) as [->|Hne]; [done|].
  apply Z.log2_lt_pow2; [lia|]. destruct (Z.lt_ge_cases (Z.log2 v) 64) as [|Hge]; [done|].
  pose proof (Z.bit_log2 v ltac:(lia)) as Ht. rewrite Hb in Ht by done. discriminate Ht.
Qed.

Lemma bit_mask_testbit k i :
  0 <= k < 64 -> 0 <= i < 64 -> Z.testbit (u64 (Z.shiftl 1 k)) i = (i =? k).
Proof.
  intros Hk Hi. rewrite u64_testbit, Z.shiftl_spec by lia. destruct (Z.eqb_spec i k) as [->|Hne].
  - by rewrite Z.sub_diag.
  - destruct (Z.lt_ge_cases i k); [by rewrite Z.testbit_neg_r by lia|].
    apply Z.bits_above_log2; [done|]. cbn. lia.
Qed.

(** *** Setting and clearing *)

Lemma word_at_insert bits w v w' :
  (w < length bits)%nat -> word_at (<[w := v]> bits) w' = if (w' =? w)%nat then v else word_at bits w'.
Proof.
  intros Hw. unfold word_at. destruct (Nat.eqb_spec w' w) as [->|Hne].
  - by rewrite list_lookup_insert_eq.
  - by rewrite list_lookup_insert_ne by done.
Qed.

Lemma slot_word slot : (slot < kBandWidth)%nat -> (slot / 64 < kBitmapWords)%nat.
Proof. intros Hs. apply Nat.Div0.div_lt_upper_bound. unfold kBitmapWords. change (kBandWidth + 63)%nat with 1087%nat. unfold kBandWidth in Hs. change (1087 / 64)%nat with 16%nat. lia. Qed.

Lemma same_slot i j : (i =? j)%nat = (i / 64 =? j / 64)%nat && (i mod 64 =? j mod 64)%nat.
Proof.
  destruct (Nat.eqb_spec i j) as [->|Hne]; [by rewrite !Nat.eqb_refl|]. symmetry. apply andb_false_iff.
  destruct (Nat.eqb_spec (i / 64) (j / 64)) as [E|]; [right|by left]. apply Nat.eqb_neq. intros E2.
  apply Hne. destruct (slot_split i) as [-> _], (slot_split j) as [-> _]. congruence.
Qed.

Lemma bits_ok_insert bits w v : bits_ok bits -> in_u64 v -> bits_ok (<[w := v]> bits).
Proof. intros [Hl Hw] Hv. split; [by rewrite length_insert|]. by apply Forall_insert. Qed.

Lemma set_bit_ok bits slot : bits_ok bits -> bits_ok (set_bit bits slot).
Proof.
  intros Hok. apply bits_ok_insert; [done|]. pose proof (word_at_ok bits (slot / 64) Hok) as Hw.
  set (k := Z.of_nat (slot mod 64)). apply bits_in_u64.
  - apply Z.lor_nonneg. split; [apply Hw|]. apply Z.mod_pos_bound. done.
  - intros i Hi. by rewrite Z.lor_spec, (in_u64_bits _ Hw), u64_testbit_high.
Qed.

Lemma clear_bit_ok bits slot : bits_ok bits -> bits_ok (clear_bit bits slot).
Proof.
  intros Hok. apply bits_ok_insert; [done|]. pose proof (word_at_ok bits (slot / 64) Hok) as Hw. apply bits_in_u64.
  - apply Z.land_nonneg. left. apply Hw.
  - intros i Hi. by rewrite Z.land_spec, (in_u64_bits _ Hw).
Qed.

Lemma occupied_set bits slot j :
  bits_ok bits -> (slot < kBandWidth)%nat -> occupied (set_bit bits slot) j = (j =? slot)%nat || occupied bits j.
Proof.
  intros [Hl _] Hs. unfold occupied, set_bit. rewrite word_at_insert by (rewrite Hl; by apply slot_word).
  rewrite (same_slot j slot). destruct (Nat.eqb_spec (j / 64) (slot / 64)) as [E|]; [|done]. cbn [andb].
  destruct (slot_split j) as [_ Hj], (slot_split slot) as [_ Hk].
  rewrite Z.lor_spec, bit_mask_testbit by lia. rewrite E, orb_comm. f_equal.
  destruct (Nat.eqb_spec (j mod 64) (slot mod 64)); lia.
Qed.

Lemma occupied_clear bits slot j :
  bits_ok bits -> (slot < kBandWidth)%nat -> occupied (clear_bit bits slot) j = negb (j =? slot)%nat && occupied bits j.
Proof.
  intros [Hl _] Hs. unfold occupied, clear_bit. rewrite word_at_insert by (rewrite Hl; by apply slot_word).
  rewrite (same_slot j slot). destruct (Nat.eqb_spec (j / 64) (slot / 64)) as [E|]; [|done]. cbn [andb].
  destruct (slot_split j) as [_ Hj], (slot_split slot) as [_ Hk].
  rewrite Z.land_spec, u64_testbit, Z.lnot_spec, bit_mask_testbit by lia. rewrite E, andb_comm. do 2 f_equal.
  destruct (Nat.eqb_spec (j mod 64) (slot mod 64)); lia.
Qed.

(** *** Searching *)

Lemma ctz_pos_spec p :
  Z.testbit (Zpos p) (Z.of_nat (ctz_pos p)) = true /\
  forall i, 0 <= i < Z.of_nat (ctz_pos p) -> Z.testbit (Zpos p) i = false.
Proof.
  induction p as [p IH|p IH|]; [split; [done|intros i Hi; cbn in Hi; lia]| |split; [done|intros i Hi; cbn in Hi; lia]].
  destruct IH as [H1 H2]. change (Zpos (xO p)) with (2 * Zpos p). cbn [ctz_pos].
  rewrite Nat2Z.inj_succ. split.
  - by rewrite Z.double_bits_succ.
  - intros i Hi. destruct (Z.eq_dec i 0) as [->|Hne]; [by rewrite Z.testbit_even_0|].
    replace i with (Z.succ (i - 1)) by lia. rewrite Z.double_bits_succ. apply H2. lia.
Qed.

Lemma countr_zero_spec v :
  in_u64 v -> v <> 0 ->
  (countr_zero v < 64)%nat /\ Z.testbit v (Z.of_nat (countr_zero v)) = true /\
  forall i, (i < countr_zero v)%nat -> Z.testbit v (Z.of_nat i) = false.
Proof.
  intros Hv Hne. destruct v as [|p|p]; [done| |unfold in_u64 in Hv; lia]. cbn [countr_zero].
  destruct (ctz_pos_spec p) as [H1 H2]. split_and!; [|done|intros i Hi; apply H2; lia].
  destruct (Nat.lt_ge_cases (ctz_pos p) 64) as [|Hge]; [done|].
  rewrite (in_u64_bits _ Hv) in H1 by lia. done.
Qed.

Lemma countl_zero_spec v :
  in_u64 v -> v <> 0 ->
  (63 - countl_zero v < 64)%nat /\ Z.testbit v (Z.of_nat (63 - countl_zero v)) = true /\
  forall i, (63 - countl_zero v < i)%nat -> Z.testbit v (Z.of_nat i) = false.
Proof.
  intros Hv Hne. unfold countl_zero. replace (v =? 0) with false by lia.
  assert (0 <= Z.log2 v < 64) as Hlog.
  { split; [apply Z.log2_nonneg|]. apply Z.log2_lt_pow2; unfold in_u64 in Hv; lia. }
  replace (63 - Z.to_nat (63 - Z.log2 v))%nat with (Z.to_nat (Z.log2 v)) by lia.
  split_and!; [lia| |].
  - rewrite Z2Nat.id by lia. apply Z.bit_log2. unfold in_u64 in Hv. lia.
  - intros i Hi. apply Z.bits_above_log2; unfold in_u64 in Hv; lia.
Qed.

(** The masked word the searches look at. *)
Definition up_value (bits : Bitmap) (from word : nat) : Z :=
  if (word =? from / 64)%nat
  then Z.land (word_at bits word) (u64 (Z.shiftl (u64 (Z.lnot 0)) (Z.of_nat (from mod 64)%nat)))
  else word_at bits word.

Definition down_value (bits : Bitmap) (from word : nat) : Z :=
  if (word =? from / 64)%nat && negb (from mod 64 =? 63)%nat
  then Z.land (word_at bits word) (u64 (Z.shiftl 1 (Z.of_nat (from mod 64)%nat + 1) - 1))
  else word_at bits word.

Lemma up_value_bits bits from word i :
  bits_ok bits -> (from / 64 <= word)%nat -> (i < 64)%nat ->
  in_u64 (up_value bits from word) /\
  Z.testbit (up_value bits from word) (Z.of_nat i) =
    (from <=? word * 64 + i)%nat && occupied bits (word * 64 + i).
Proof.
  intros Hok Hw Hi. pose proof (word_at_ok bits word Hok) as Hu. destruct (slot_of_word word i Hi) as [Hd Hm].
  destruct (slot_split from) as [Hf Hfm]. unfold occupied. rewrite Hd, Hm. unfold up_value.
  destruct (Nat.eqb_spec word (from / 64)) as [E|Hne].
  - split.
    + apply bits_in_u64; [apply Z.land_nonneg; left; apply Hu|]. intros k Hk. by rewrite Z.land_spec, (in_u64_bits _ Hu).
    + rewrite Z.land_spec, u64_testbit, Z.shiftl_spec by lia. rewrite andb_comm. f_equal.
      destruct (Nat.leb_spec from (word * 64 + i)) as [Hle|Hgt].
      * rewrite u64_testbit, Z.lnot_spec by lia. by rewrite Z.bits_0.
      * apply Z.testbit_neg_r. lia.
  - split; [done|]. rewrite (proj2 (Nat.leb_le _ _)) by lia. done.
Qed.

Lemma down_value_bits bits from word i :
  bits_ok bits -> (word <= from / 64)%nat -> (i < 64)%nat ->
  in_u64 (down_value bits from word) /\
  Z.testbit (down_value bits from word) (Z.of_nat i) =
    (word * 64 + i <=? from)%nat && occupied bits (word * 64 + i).
Proof.
  intros Hok Hw Hi. pose proof (word_at_ok bits word Hok) as Hu. destruct (slot_of_word word i Hi) as [Hd Hm].
  destruct (slot_split from) as [Hf Hfm]. unfold occupied. rewrite Hd, Hm. unfold down_value.
  destruct (Nat.eqb_spec word (from / 64)) as [E|Hne]; cbn [andb].
  2:{ split; [done|]. rewrite (proj2 (Nat.leb_le _ _)) by lia. done. }
  destruct (Nat.eqb_spec (from mod 64) 63) as [E63|Hn63]; cbn [negb].
  { split; [done|]. rewrite (proj2 (Nat.leb_le _ _)) by lia. done. }
  split.
  - apply bits_in_u64; [apply Z.land_nonneg; left; apply Hu|]. intros k Hk. by rewrite Z.land_spec, (in_u64_bits _ Hu).
  - rewrite Z.land_spec, u64_testbit, andb_comm by lia. f_equal.
    replace (Z.shiftl 1 (Z.of_nat (from mod 64) + 1) - 1) with (Z.ones (Z.of_nat (from mod 64) + 1))
      by (rewrite Z.shiftl_1_l, Z.ones_equiv; lia).
    rewrite Z.testbit_ones_nonneg by lia.
    destruct (Nat.leb_spec (word * 64 + i) from); lia.
Qed.

Lemma zero_no_bits v i : v = 0 -> Z.testbit v i = false.
Proof. intros ->. apply Z.bits_0. Qed.

(** A slot of the band is in one of the words. *)
Lemma band_words : kBandWidth = (kBitmapWords * 64)%nat.
Proof. vm_compute. reflexivity. Qed.

(** What an upward search from [from] returned: the first occupied slot. *)
Definition first_up (bits : Bitmap) (from : nat) (r : option nat) : Prop :=
  match r with
  | Some i => (from <= i < kBandWidth)%nat /\ occupied bits i = true /\
      forall k, (from <= k < i)%nat -> occupied bits k = false
  | None => forall k, (from <= k < kBandWidth)%nat -> occupied bits k = false
  end.

Lemma next_up_loop_spec bits from n : forall word,
  bits_ok bits -> (from / 64 <= word)%nat -> (word + n = kBitmapWords)%nat ->
  (forall k, (from <= k < word * 64)%nat -> occupied bits k = false) ->
  first_up bits from (next_up_loop bits from n word).
Proof.
  induction n as [|n IH]; intros word Hok Hw Hn Hbelow; cbn [next_up_loop].
  - intros k Hk. apply Hbelow. rewrite band_words in Hk. lia.
  - fold (up_value bits from word).
    assert (forall i, (i < 64)%nat -> in_u64 (up_value bits from word) /\ Z.testbit (up_value bits from word) (Z.of_nat i) =
      (from <=? word * 64 + i)%nat && occupied bits (word * 64 + i)) as Hbits by (intros; by apply up_value_bits).
    destruct (Z.eqb_spec (up_value bits from word) 0) as [E|Hne]; cbn [negb].
    + apply IH; [done|lia|lia|]. intros k Hk.
      destruct (Nat.lt_ge_cases k (word * 64)) as [|Hge]; [apply Hbelow; lia|].
      destruct (Hbits (k - word * 64)%nat) as [_ Hb]; [lia|]. rewrite zero_no_bits in Hb by done.
      replace (word * 64 + (k - word * 64))%nat with k in Hb by lia.
      rewrite (proj2 (Nat.leb_le _ _)) in Hb by lia. by symmetry.
    + destruct (countr_zero_spec _ (proj1 (Hbits O ltac:(lia))) Hne) as (Hc & Ht & Hlow).
      destruct (Hbits _ Hc) as [_ Hb]. rewrite Ht in Hb. symmetry in Hb. apply andb_true_iff in Hb as [Hle Ho].
      apply Nat.leb_le in Hle. split_and!; [lia| |done|].
      * rewrite band_words. lia.
      * intros k Hk. destruct (Nat.lt_ge_cases k (word * 64)) as [|Hge]; [apply Hbelow; lia|].
        destruct (Hbits (k - word * 64)%nat) as [_ Hb]; [lia|]. rewrite Hlow in Hb by lia.
        replace (word * 64 + (k - word * 64))%nat with k in Hb by lia.
        rewrite (proj2 (Nat.leb_le _ _)) in Hb by lia. by symmetry.
Qed.

Lemma next_up_spec bits from :
  bits_ok bits -> (from < kBandWidth)%nat -> first_up bits from (next_up bits from).
Proof.
  intros Hok Hf. pose proof (slot_word from Hf). destruct (slot_split from) as [E _].
  apply next_up_loop_spec; [done|lia|lia|]. intros k Hk. lia.
Qed.

(** What a downward search returned: the last occupied slot. *)
Definition first_down (bits : Bitmap) (from : nat) (r : option nat) : Prop :=
  match r with
  | Some i => (i <= from)%nat /\ occupied bits i = true /\
      forall k, (i < k <= from)%nat -> occupied bits k = false
  | None => forall k, (k <= from)%nat -> occupied bits k = false
  end.

Lemma next_down_loop_spec bits from word :
  bits_ok bits -> (word <= from / 64 + 1)%nat ->
  (forall k, (word * 64 <= k <= from)%nat -> occupied bits k = false) ->
  first_down bits from (next_down_loop bits from word).
Proof.
  induction word as [|word IH]; intros Hok Hw Habove; cbn [next_down_loop].
  - intros k Hk. apply Habove. lia.
  - fold (down_value bits from word).
    assert (forall i, (i < 64)%nat -> in_u64 (down_value bits from word) /\ Z.testbit (down_value bits from word) (Z.of_nat i) =
      (word * 64 + i <=? from)%nat && occupied bits (word * 64 + i)) as Hbits by (intros; apply down_value_bits; [done|lia|done]).
    destruct (Z.eqb_spec (down_value bits from word) 0) as [E|Hne]; cbn [negb].
    + apply IH; [done|lia|]. intros k Hk.
      destruct (Nat.lt_ge_cases k (S word * 64)) as [Hlt|]; [|apply Habove; lia].
      destruct (Hbits (k - word * 64)%nat) as [_ Hb]; [lia|]. rewrite zero_no_bits in Hb by done.
      replace (word * 64 + (k - word * 64))%nat with k in Hb by lia.
      rewrite (proj2 (Nat.leb_le _ _)) in Hb by lia. by symmetry.
    + destruct (countl_zero_spec _ (proj1 (Hbits O ltac:(lia))) Hne) as (Hc & Ht & Hhigh).
      destruct (Hbits _ Hc) as [_ Hb]. rewrite Ht in Hb. symmetry in Hb. apply andb_true_iff in Hb as [Hle Ho].
      apply Nat.leb_le in Hle. split_and!; [lia|done|].
      intros k Hk. destruct (Nat.lt_ge_cases k (S word * 64)) as [Hlt|]; [|apply Habove; lia].
      destruct (Hbits (k - word * 64)%nat) as [_ Hb]; [lia|]. rewrite Hhigh in Hb by lia.
      replace (word * 64 + (k - word * 64))%nat with k in Hb by lia.
      rewrite (proj2 (Nat.leb_le _ _)) in Hb by lia. by symmetry.
Qed.

Lemma next_down_spec bits from :
  bits_ok bits -> first_down bits from (next_down bits from).
Proof.
  intros Hok. destruct (slot_split from) as [E Hm].
  apply next_down_loop_spec; [done|lia|]. intros k Hk. lia.
Qed.

(** ** The contiguous storage of [qsl::engine::OrderBook] *)

Definition kMinPrice : Price := kContiguousMinPrice.
Definition kMaxPrice : Price := kContiguousMaxPrice.
Definition kCompactMinSize : Z := 16.

Record FlatOrder := mkFlatOrder { fo_id : OrderId; fo_quantity : Quantity }.

(** [head] and [alive] are 32-bit counters. *)
Record FlatLevel := mkFlatLevel { fl_orders : list FlatOrder; fl_head : Z; fl_alive : Z }.

Record Locator := mkLocator { cl_side : Side; cl_price : Price; cl_pos : Z }.

Record BookSide := mkBookSide { sd_levels : list FlatLevel; sd_bits : Bitmap }.

Record ContiguousStore := mkContiguousStore {
  bids : BookSide;
  asks : BookSide;
  index : gmap Z Locator
}.

Definition empty_level : FlatLevel := mkFlatLevel [] 0 0.
Definition empty_side : BookSide := mkBookSide (replicate kBandWidth empty_level) (replicate kBitmapWords 0).
Definition empty_store : ContiguousStore := mkContiguousStore empty_side empty_side ∅.

Definition in_band (price : Price) : bool := (kMinPrice <=? price) && (price <=? kMaxPrice).
Definition slot_of (price : Price) : nat := Z.to_nat (price - kMinPrice).
Definition price_of (slot : nat) : Price := kMinPrice + Z.of_nat slot.

Definition side_ref (c : ContiguousStore) (side : Side) : BookSide := if is_buy side then bids c else asks c.
Definition set_side (side : Side) (s : BookSide) (c : ContiguousStore) : ContiguousStore :=
  if is_buy side then mkContiguousStore s (asks c) (index c) else mkContiguousStore (bids c) s (index c).
Definition set_index (i : gmap Z Locator) (c : ContiguousStore) : ContiguousStore :=
  mkContiguousStore (bids c) (asks c) i.

(** [side.levels[slot]] and an assignment through a reference to it. *)
Definition level_at (s : BookSide) (slot : nat) : FlatLevel := default empty_level (sd_levels s !! slot).
Definition set_level (slot : nat) (level : FlatLevel) (s : BookSide) : BookSide :=
  mkBookSide (<[slot := level]> (sd_levels s)) (sd_bits s).

Definition best_slot (s : BookSide) (is_bid : bool) : option nat :=
  if is_bid then next_down (sd_bits s) (kBandWidth - 1) else next_up (sd_bits s) 0.

Definition next_worse (bits : Bitmap) (is_bid : bool) (slot : nat) : option nat :=
  if is_bid then (if (slot =? 0)%nat then None else next_down bits (slot - 1))
  else if (kBandWidth <=? slot + 1)%nat then None else next_up bits (slot + 1).

(** The loop of [for_each_occupied]; [fn] returns the captured state and whether
    to go on.  Slots strictly worsen, so [kBandWidth] iterations are enough. *)
Fixpoint for_each_loop {A : Type} (s : BookSide) (is_bid : bool)
    (fn : nat -> FlatLevel -> A -> A * bool) (fuel : nat) (slot : option nat) (a : A) : A :=
  match fuel, slot with
  | S fuel', Some i =>
      let '(a', go_on) := fn i (level_at s i) a in
      if negb go_on then a' else for_each_loop s is_bid fn fuel' (next_worse (sd_bits s) is_bid i) a'
  | _, _ => a
  end.

Definition for_each_occupied {A : Type} (s : BookSide) (is_bid : bool)
    (fn : nat -> FlatLevel -> A -> A * bool) (a : A) : A :=
  for_each_loop s is_bid fn (S kBandWidth) (best_slot s is_bid) a.

(** [level.orders[i].quantity], zero out of range (never read there). *)
Definition quantity_of (level : FlatLevel) (i : nat) : Quantity :=
  match fl_orders level !! i with Some o => fo_quantity o | None => 0 end.

Definition advance_cond (level : FlatLevel) : bool :=
  (fl_head level <? Z.of_nat (length (fl_orders level))) &&
  (quantity_of level (Z.to_nat (fl_head level)) =? 0).
Definition advance_body (level : FlatLevel) : FlatLevel :=
  mkFlatLevel (fl_orders level) (u32 (fl_head level + 1)) (fl_alive level).
Definition advance_head (level : FlatLevel) : FlatLevel :=
  while (S (length (fl_orders level))) advance_cond advance_body level.

Definition clear_level (s : BookSide) (slot : nat) : BookSide :=
  mkBookSide (<[slot := empty_level]> (sd_levels s)) (clear_bit (sd_bits s) slot).

(** The loop over [level.orders] from the head: the live orders so far and the
    index with their new positions. *)
Definition compact_order (s : list FlatOrder * gmap Z Locator) (o : FlatOrder) :
    list FlatOrder * gmap Z Locator :=
  let '(live, index) := s in
  if 0 <? fo_quantity o then
    let index :=
      match index !! fo_id o with
      | Some loc => <[fo_id o := mkLocator (cl_side loc) (cl_price loc) (u32 (Z.of_nat (length live)))]> index
      | None => index
      end in
    (live ++ [o], index)
  else s.

Definition compact_level (level : FlatLevel) (index : gmap Z Locator) : FlatLevel * gmap Z Locator :=
  let '(live, index) :=
    fold_left compact_order (drop (Z.to_nat (fl_head level)) (fl_orders level)) ([], index) in
  (mkFlatLevel live 0 (fl_alive level), index).

Definition maybe_compact (level : FlatLevel) (index : gmap Z Locator) : FlatLevel * gmap Z Locator :=
  let size := Z.of_nat (length (fl_orders level)) in
  let dead := u64 (size - fl_alive level) in
  if (kCompactMinSize <=? size) && (fl_alive level <? dead) then compact_level level index
  else (level, index).

Definition rest (id : OrderId) (side : Side) (price : Price) (quantity : Quantity)
    (c : ContiguousStore) : bool * ContiguousStore :=
  if negb (in_band price) then (false, c)
  else
    let s := side_ref c side in
    let slot := slot_of price in
    let level := level_at s slot in
    let s := if fl_alive level =? 0 then mkBookSide (sd_levels s) (set_bit (sd_bits s) slot) else s in
    let index := <[id := mkLocator side price (u32 (Z.of_nat (length (fl_orders level))))]> (index c) in
    let level := mkFlatLevel (fl_orders level ++ [mkFlatOrder id quantity]) (fl_head level)
                   (u32 (fl_alive level + 1)) in
    (true, set_side side (set_level slot level s) (set_index index c)).

(** ** Matching *)

Definition fill_front_order (level_price : Price) (s : gmap Z Locator * FlatLevel * MatchContext) :
    gmap Z Locator * FlatLevel * MatchContext :=
  let '(index, level, ctx) := s in
  let head := Z.to_nat (fl_head level) in
  match fl_orders level !! head with
  | None => s (* not reached: [alive > 0] *)
  | Some maker =>
      let '(ctx, maker_quantity, filled) := fill_maker ctx (fo_id maker) (fo_quantity maker) level_price in
      let orders := <[head := mkFlatOrder (fo_id maker) maker_quantity]> (fl_orders level) in
      if filled
      then (delete (fo_id maker) index,
            advance_head (mkFlatLevel orders (fl_head level) (u32 (fl_alive level - 1))), ctx)
      else (index, mkFlatLevel orders (fl_head level) (fl_alive level), ctx)
  end.

Definition fill_level_cond (s : gmap Z Locator * FlatLevel * MatchContext) : bool :=
  let '(_, level, ctx) := s in (0 <? c_quantity ctx) && (0 <? fl_alive level).

(** One iteration kills the front order or leaves no quantity. *)
Definition fill_level (index : gmap Z Locator) (level : FlatLevel) (level_price : Price)
    (ctx : MatchContext) : gmap Z Locator * FlatLevel * MatchContext :=
  while (S (length (fl_orders level))) fill_level_cond (fill_front_order level_price) (index, level, ctx).

(** The loop of [match_against]; the flag is lowered by its [return]s. *)
Definition match_cond (s : gmap Z Locator * BookSide * MatchContext * bool) : bool :=
  let '(_, _, ctx, running) := s in running && (0 <? c_quantity ctx).

Definition match_body (opposite_is_bid : bool) (s : gmap Z Locator * BookSide * MatchContext * bool) :
    gmap Z Locator * BookSide * MatchContext * bool :=
  let '(index, opposite, ctx, _) := s in
  match best_slot opposite opposite_is_bid with
  | None => (index, opposite, ctx, false)
  | Some slot =>
      let level_price := price_of slot in
      if negb (can_match_level (c_taker_is_buy ctx) (c_is_market ctx) (c_limit ctx) level_price)
      then (index, opposite, ctx, false)
      else
        let '(index, level, ctx) := fill_level index (level_at opposite slot) level_price ctx in
        if fl_alive level =? 0 then (index, clear_level (set_level slot level opposite) slot, ctx, true)
        else
          let '(level, index) := maybe_compact level index in
          (index, set_level slot level opposite, ctx, true)
  end.

(** One iteration clears a level or leaves no quantity. *)
Definition match_against (index : gmap Z Locator) (opposite : BookSide) (opposite_is_bid : bool)
    (ctx : MatchContext) : gmap Z Locator * BookSide * MatchContext :=
  let '(index, opposite, ctx, _) :=
    while (S kBandWidth) match_cond (match_body opposite_is_bid) (index, opposite, ctx, true) in
  (index, opposite, ctx).

Definition match_opposite (side : Side) (c : ContiguousStore) (ctx : MatchContext) :
    ContiguousStore * MatchContext :=
  let taker_is_buy := is_buy side in
  let '(index, opposite, ctx) :=
    match_against (index c) (if taker_is_buy then asks c else bids c) (negb taker_is_buy) ctx in
  (if taker_is_buy then mkContiguousStore (bids c) opposite index
   else mkContiguousStore opposite (asks c) index, ctx).

Definition contains (c : ContiguousStore) (id : OrderId) : bool := bool_decide (is_Some (index c !! id)).

(** ** What a limit order would leave *)

(** The loop over one level's queue: tombstones take nothing. *)
Fixpoint drain (orders : list FlatOrder) (quantity : Quantity) : Quantity :=
  match orders with
  | [] => quantity
  | o :: orders' => if 0 <? quantity then drain orders' (quantity - Z.min quantity (fo_quantity o)) else quantity
  end.

Definition simulate_remainder (c : ContiguousStore) (side : Side) (limit : Price) (quantity : Quantity) :
    Quantity :=
  let taker_is_buy := is_buy side in
  let opposite := if taker_is_buy then asks c else bids c in
  for_each_occupied opposite (negb taker_is_buy)
    (fun slot level quantity =>
       if (quantity =? 0) || negb (can_match_level taker_is_buy false limit (price_of slot))
       then (quantity, false)
       else
         let quantity := drain (drop (Z.to_nat (fl_head level)) (fl_orders level)) quantity in
         (quantity, 0 <? quantity)) quantity.

Definition can_store_limit (c : ContiguousStore) (side : Side) (price : Price) (quantity : Quantity)
    (tif : TimeInForce) : bool :=
  if bool_decide (tif = IOC) || in_band price then true
  else simulate_remainder c side price quantity =? 0.

(** ** Mutators *)

Definition add_limit (c : ContiguousStore) (input : LimitInput) : list Trade * ContiguousStore :=
  if negb (can_store_limit c (in_side input) (in_price input) (in_quantity input) (in_tif input)) then ([], c)
  else
    let '(result, c) :=
      match_incoming (in_id input) (in_side input) (in_price input) false (in_quantity input)
        (fun c => contains c (in_id input)) match_opposite c in
    if should_rest_limit result (in_tif input)
    then (r_trades result, (rest (in_id input) (in_side input) (in_price input) (r_remainder result) c).2)
    else (r_trades result, c).

Definition add_market (c : ContiguousStore) (id : OrderId) (side : Side) (quantity : Quantity) :
    list Trade * ContiguousStore :=
  let '(result, c) :=
    match_incoming id side 0 true quantity (fun c => contains c id) match_opposite c in
  (r_trades result, c).

(** [level.orders[pos].quantity = quantity]. *)
Definition assign_quantity (pos : nat) (quantity : Quantity) (level : FlatLevel) : FlatLevel :=
  match fl_orders level !! pos with
  | Some o => mkFlatLevel (<[pos := mkFlatOrder (fo_id o) quantity]> (fl_orders level)) (fl_head level)
                (fl_alive level)
  | None => level (* not reached: an indexed position is in range *)
  end.

Definition remove_resting (loc : Locator) (c : ContiguousStore) : ContiguousStore :=
  let s := side_ref c (cl_side loc) in
  let slot := slot_of (cl_price loc) in
  let level := assign_quantity (Z.to_nat (cl_pos loc)) 0 (level_at s slot) in
  let level := mkFlatLevel (fl_orders level) (fl_head level) (u32 (fl_alive level - 1)) in
  if fl_alive level =? 0 then set_side (cl_side loc) (clear_level (set_level slot level s) slot) c
  else
    let level := if cl_pos loc =? fl_head level then advance_head level else level in
    let '(level, index) := maybe_compact level (index c) in
    set_side (cl_side loc) (set_level slot level s) (set_index index c).

Definition cancel (c : ContiguousStore) (id : OrderId) : bool * ContiguousStore :=
  cancel_indexed_order index set_index remove_resting id c.

Definition reduces_in_place (c : ContiguousStore) (loc : Locator) (new_price : Price)
    (new_quantity : Quantity) : bool :=
  let quantity :=
    quantity_of (level_at (side_ref c (cl_side loc)) (slot_of (cl_price loc))) (Z.to_nat (cl_pos loc)) in
  (new_price =? cl_price loc) && (new_quantity <=? quantity).

Definition can_apply_modify (c : ContiguousStore) (id : OrderId) (new_price : Price)
    (new_quantity : Quantity) : bool :=
  match index c !! id with
  | None => true
  | Some loc =>
      if new_quantity =? 0 then true
      else if reduces_in_place c loc new_price new_quantity then true
      else if in_band new_price then true
      else simulate_remainder c (cl_side loc) new_price new_quantity =? 0
  end.

Definition modify (c : ContiguousStore) (id : OrderId) (new_price : Price) (new_quantity : Quantity) :
    list Trade * ContiguousStore :=
  match index c !! id with
  | None => ([], c)
  | Some loc =>
      if negb (can_apply_modify c id new_price new_quantity) then ([], c)
      else if new_quantity =? 0 then ([], (cancel c id).2)
      else if reduces_in_place c loc new_price new_quantity then
        let s := side_ref c (cl_side loc) in
        let slot := slot_of (cl_price loc) in
        ([], set_side (cl_side loc)
               (set_level slot (assign_quantity (Z.to_nat (cl_pos loc)) new_quantity (level_at s slot)) s) c)
      else add_limit (cancel c id).2 (mkLimitInput id (cl_side loc) new_price new_quantity GTC)
  end.

(** ** Queries *)

Definition count_flat_order (s : Z * Quantity) (o : FlatOrder) : Z * Quantity :=
  let '(count, quantity) := s in
  if (0 <? quantity) && (0 <? fo_quantity o)
  then (count + 1, quantity - Z.min quantity (fo_quantity o)) else s.

Definition count_flat_level (level : FlatLevel) (quantity : Quantity) : Z * Quantity :=
  fold_left count_flat_order (drop (Z.to_nat (fl_head level)) (fl_orders level)) (0, quantity).

Definition count_flat_matches (opposite : BookSide) (opposite_is_bid : bool) (query : MatchQuery) : Z :=
  (for_each_occupied opposite opposite_is_bid
     (fun slot level (s : Z * Quantity) =>
        let '(count, quantity) := s in
        if (quantity =? 0) ||
           negb (can_match_level (q_taker_is_buy query) (q_is_market query) (q_limit query) (price_of slot))
        then (s, false)
        else
          let '(n, quantity) := count_flat_level level quantity in
          ((count + n, quantity), 0 <? quantity)) (0, q_quantity query)).1.

Definition best_bid (c : ContiguousStore) : option Price := price_of <$> best_slot (bids c) true.
Definition best_ask (c : ContiguousStore) : option Price := price_of <$> best_slot (asks c) false.

Definition level_total (level : FlatLevel) : QuantityTotal :=
  fold_left (fun total o => u64 (total + fo_quantity o)) (drop (Z.to_nat (fl_head level)) (fl_orders level)) 0.

Definition quantity_at (c : ContiguousStore) (side : Side) (price : Price) : QuantityTotal :=
  if negb (in_band price) then 0 else level_total (level_at (side_ref c side) (slot_of price)).

Definition order_count (c : ContiguousStore) : Z := Z.of_nat (size (index c)).

Definition fill_count (c : ContiguousStore) (taker_side : Side) (limit : Price) (is_market : bool)
    (quantity : Quantity) : Z :=
  if negb (bool_decide (taker_side = Buy)) && negb (bool_decide (taker_side = Sell)) then 0
  else
    let taker_is_buy := is_buy taker_side in
    count_flat_matches (if taker_is_buy then asks c else bids c) (negb taker_is_buy)
      (mkMatchQuery taker_is_buy limit is_market quantity).

Definition collect_levels (s : BookSide) (is_bid : bool) : list LevelView :=
  for_each_occupied s is_bid
    (fun slot level levels => (levels ++ [mkLevelView (price_of slot) (level_total level)], true)) [].

Definition bid_levels (c : ContiguousStore) : list LevelView := collect_levels (bids c) true.
Definition ask_levels (c : ContiguousStore) : list LevelView := collect_levels (asks c) false.

Definition append_orders (s : BookSide) (is_bid : bool) (side_value : Side) (out : list Order) : list Order :=
  for_each_occupied s is_bid
    (fun slot level out =>
       (fold_left (fun out o =>
          if 0 <? fo_quantity o
          then out ++ [mkOrder (fo_id o) side_value (price_of slot) (fo_quantity o)] else out)
          (drop (Z.to_nat (fl_head level)) (fl_orders level)) out, true)) out.

Definition resting_orders (c : ContiguousStore) : list Order :=
  append_orders (asks c) false Sell (append_orders (bids c) true Buy []).
