(* ===== verification/ContiguousSpec.v ===== *)
(** * ContiguousSpec: the contiguous storage implements the order book

    The representation invariant of [ContiguousStore] (queues with dead prefixes
    and tombstones, live counters, occupancy bitmaps, locators), its abstraction
    to the price-time-priority book, and the proof that every operation keeps the
    invariant and refines the abstract one: the [BookStoreLaws] instance of the
    storage. *)
From S2P Require Import Prelude Core Book BookSpec Contiguous.

(** ** Live orders of a level *)

Definition is_live (o : FlatOrder) : Prop := 0 < fo_quantity o.
#[export] Instance is_live_dec o : Decision (is_live o).
Proof. unfold is_live. apply _. Defined.

Definition live (l : list FlatOrder) : list FlatOrder := filter is_live l.

Definition side_of (is_bid : bool) : Side := if is_bid then Buy else Sell.
Definition to_order (is_bid : bool) (slot : nat) (o : FlatOrder) : Order :=
  mkOrder (fo_id o) (side_of is_bid) (price_of slot) (fo_quantity o).
Definition level_orders (is_bid : bool) (slot : nat) (level : FlatLevel) : list Order :=
  map (to_order is_bid slot) (live (fl_orders level)).

Lemma live_app l l' : live (l ++ l') = live l ++ live l'.
Proof. apply filter_app. Qed.
Lemma live_cons o l : live (o :: l) = if decide (is_live o) then o :: live l else live l.
Proof. apply filter_cons. Qed.

Lemma live_insert l p o o' :
  l !! p = Some o -> live (<[p := o']> l) = live (take p l) ++ live [o'] ++ live (drop (S p) l).
Proof.
  intros Hl. rewrite insert_take_drop by (by eapply lookup_lt_Some).
  change (o' :: drop (S p) l) with ([o'] ++ drop (S p) l). by rewrite !live_app.
Qed.

Lemma live_split l p o :
  l !! p = Some o -> live l = live (take p l) ++ live [o] ++ live (drop (S p) l).
Proof. intros Hl. rewrite <- (live_insert _ _ _ _ Hl). by rewrite list_insert_id. Qed.

Lemma live_all l : live (live l) = live l.
Proof. apply list_filter_filter_l. done. Qed.

(** ** The level invariant *)

(** Counters in range, the orders before the head dead, [alive] counts the live
    orders, and [tombstone]s have quantity zero. *)
Record level_base (level : FlatLevel) : Prop := {
  lb_width : Z.of_nat (length (fl_orders level)) < 2 ^ 32;
  lb_quantity : Forall (fun o => in_u32 (fo_quantity o)) (fl_orders level);
  lb_head : 0 <= fl_head level <= Z.of_nat (length (fl_orders level));
  lb_dead : live (take (Z.to_nat (fl_head level)) (fl_orders level)) = [];
  lb_alive : fl_alive level = Z.of_nat (length (live (fl_orders level)))
}.

(** [head] is the first live order while there is one. *)
Definition front_live (level : FlatLevel) : Prop :=
  live (fl_orders level) <> [] ->
  exists o, fl_orders level !! Z.to_nat (fl_head level) = Some o /\ is_live o.

Definition level_inv (level : FlatLevel) : Prop := level_base level /\ front_live level.

(** Between operations a level without live orders is reset, and the tombstones
    do not outnumber the live orders beyond the compaction threshold. *)
Record level_ok (level : FlatLevel) : Prop := {
  lk_inv : level_inv level;
  lk_empty : live (fl_orders level) = [] -> level = empty_level;
  lk_bounded : Z.of_nat (length (fl_orders level)) - fl_alive level <= Z.max 15 (fl_alive level)
}.

Lemma empty_level_ok : level_ok empty_level.
Proof.
  split; [split; [split|]|done|cbn; lia]; try done. intros H. by contradiction H.
Qed.

Lemma u32_small z : in_u32 z -> u32 z = z.
Proof. apply Z.mod_small. Qed.
Lemma u32_u64_small z : 0 <= z < 2 ^ 32 -> u64 z = z.
Proof. intros Hz. apply Z.mod_small. lia. Qed.

Lemma live_after_head level :
  level_base level -> live (drop (Z.to_nat (fl_head level)) (fl_orders level)) = live (fl_orders level).
Proof.
  intros Hb. rewrite <- (take_drop (Z.to_nat (fl_head level)) (fl_orders level)) at 2.
  by rewrite live_app, (lb_dead _ Hb).
Qed.

Lemma live_length_le l : (length (live l) <= length l)%nat.
Proof. apply length_filter. Qed.

(** ** [advance_head] *)

Lemma advance_body_base level :
  level_base level -> advance_cond level = true -> level_base (advance_body level).
Proof.
  intros Hb Hc. pose proof (lb_head _ Hb) as Hh. pose proof (lb_width _ Hb) as Hw.
  unfold advance_cond, quantity_of in Hc. apply andb_true_iff in Hc as [Hlt Hq].
  assert (u32 (fl_head level + 1) = fl_head level + 1) as Hu by (apply u32_small; unfold in_u32; lia).
  destruct Hb as [_ Hqs _ Hd Ha]. unfold advance_body. split; cbn [fl_orders fl_head fl_alive]; rewrite ?Hu; try done; [lia|].
  replace (Z.to_nat (fl_head level + 1)) with (S (Z.to_nat (fl_head level))) by lia.
  destruct (fl_orders level !! Z.to_nat (fl_head level)) as [o|] eqn:E.
  - rewrite (take_S_r _ _ _ E), live_app, Hd, live_cons. unfold is_live. rewrite decide_False by lia. done.
  - apply lookup_ge_None in E. lia.
Qed.

Lemma advance_head_spec level :
  level_base level ->
  level_inv (advance_head level) /\ fl_orders (advance_head level) = fl_orders level /\
  fl_alive (advance_head level) = fl_alive level.
Proof.
  intros Hb. unfold advance_head.
  set (P := fun l => level_base l /\ fl_orders l = fl_orders level /\ fl_alive l = fl_alive level).
  assert (forall l, P l -> advance_cond l = true -> P (advance_body l)) as Hstep.
  { intros l (Hl & Ho & Ha) Hc. split; [by apply advance_body_base|done]. }
  assert (forall n l, P l -> (Z.to_nat (Z.of_nat (length (fl_orders l)) - fl_head l) < n)%nat ->
    P (while n advance_cond advance_body l) /\ advance_cond (while n advance_cond advance_body l) = false) as Hw.
  { induction n as [|n IH]; intros l HP Hn; [lia|]. cbn [while]. destruct (advance_cond l) eqn:Ec; [|done].
    apply IH; [by apply Hstep|]. pose proof (Hstep l HP Ec) as (Hb' & Ho' & _). destruct HP as (Hbl & Ho & _).
    pose proof (lb_head _ Hbl). pose proof (lb_width _ Hbl). unfold advance_cond in Ec. apply andb_true_iff in Ec as [Ec _].
    unfold advance_body. cbn [fl_orders fl_head]. rewrite u32_small by (unfold in_u32; lia). lia. }
  destruct (Hw (S (length (fl_orders level))) level) as [(Hb' & Ho & Ha) Hc].
  { split; [done|]. done. }
  { pose proof (lb_head _ Hb). lia. }
  split; [|done]. split; [done|]. intros Hne. rewrite Ho in Hne |- *. set (l := while _ _ _ _) in *.
  unfold advance_cond, quantity_of in Hc. rewrite Ho in Hc. pose proof (lb_head _ Hb') as Hh.
  pose proof (live_after_head _ Hb') as Hd. rewrite Ho in Hd, Hh.
  destruct (fl_orders level !! Z.to_nat (fl_head l)) as [o|] eqn:E.
  - exists o. split; [done|]. apply lookup_lt_Some in E as Hlt. pose proof (lb_quantity _ Hb') as Hq. rewrite Ho in Hq.
    eapply Forall_lookup_1 in Hq; [|exact E]. unfold is_live, in_u32 in *. lia.
  - apply lookup_ge_None in E. rewrite drop_ge in Hd by done. by rewrite <- Hd in Hne.
Qed.

(** The head of the queue is the first live order. *)
Lemma front_spec level o tl :
  level_inv level -> live (fl_orders level) = o :: tl ->
  fl_orders level !! Z.to_nat (fl_head level) = Some o /\ is_live o /\
  live (drop (S (Z.to_nat (fl_head level))) (fl_orders level)) = tl.
Proof.
  intros [Hb Hf] Hl. destruct Hf as (o' & Ho & Hlive); [by rewrite Hl|].
  rewrite (live_split _ _ _ Ho), (lb_dead _ Hb), live_cons, decide_True in Hl by done. cbn in Hl. by simplify_eq.
Qed.

(** ** What the index knows of one level *)

Definition locator (is_bid : bool) (slot pos : nat) : Locator :=
  mkLocator (side_of is_bid) (price_of slot) (Z.of_nat pos).

Definition lsees (is_bid : bool) (slot : nat) (level : FlatLevel) (id : OrderId) (loc : Locator) : Prop :=
  exists pos o, fl_orders level !! pos = Some o /\ is_live o /\ fo_id o = id /\ loc = locator is_bid slot pos.

(** The index holds exactly the live orders of this level and the locators of
    [R], which point elsewhere. *)
Record covers (R : OrderId -> Locator -> Prop) (is_bid : bool) (slot : nat) (level : FlatLevel)
    (index : gmap Z Locator) : Prop := {
  cv_index : forall id loc, index !! id = Some loc <-> R id loc \/ lsees is_bid slot level id loc;
  cv_apart : forall id pos, ~ R id (locator is_bid slot pos)
}.

Lemma locator_inj is_bid slot p p' : locator is_bid slot p = locator is_bid slot p' -> p = p'.
Proof. intros [= H]. lia. Qed.

Section Covers.
Context (R : OrderId -> Locator -> Prop) (is_bid : bool) (slot : nat).
Implicit Types (level : FlatLevel) (index : gmap Z Locator).

Lemma covers_at level index pos o :
  covers R is_bid slot level index -> fl_orders level !! pos = Some o -> is_live o ->
  index !! fo_id o = Some (locator is_bid slot pos).
Proof. intros Hc Ho Hl. apply (cv_index _ _ _ _ _ Hc). right. by exists pos, o. Qed.

(** An id sits at one live position only, and nowhere else. *)
Lemma covers_unique level index pos o pos' o' :
  covers R is_bid slot level index -> fl_orders level !! pos = Some o -> is_live o ->
  fl_orders level !! pos' = Some o' -> is_live o' -> fo_id o' = fo_id o -> pos' = pos.
Proof.
  intros Hc Ho Hl Ho' Hl' Hid. pose proof (covers_at _ _ _ _ Hc Ho Hl) as H1.
  pose proof (covers_at _ _ _ _ Hc Ho' Hl') as H2. rewrite Hid, H1 in H2. injection H2 as H2. lia.
Qed.

Lemma covers_not_elsewhere level index pos o loc :
  covers R is_bid slot level index -> fl_orders level !! pos = Some o -> is_live o -> ~ R (fo_id o) loc.
Proof.
  intros Hc Ho Hl HR. pose proof (covers_at _ _ _ _ Hc Ho Hl) as H1.
  assert (index !! fo_id o = Some loc) as H2 by (apply (cv_index _ _ _ _ _ Hc); by left).
  rewrite H1 in H2. injection H2 as <-. by apply (cv_apart _ _ _ _ _ Hc) in HR.
Qed.

(** Killing an order and dropping its index entry. *)
Lemma covers_kill level level' index pos o :
  covers R is_bid slot level index -> fl_orders level !! pos = Some o -> is_live o ->
  fl_orders level' = <[pos := mkFlatOrder (fo_id o) 0]> (fl_orders level) ->
  covers R is_bid slot level' (delete (fo_id o) index).
Proof.
  intros Hc Ho Hl Hl'. split; [|apply Hc]. intros id loc. rewrite lookup_delete_Some, (cv_index _ _ _ _ _ Hc).
  unfold lsees. rewrite Hl'. split.
  - intros [Hne [HR|(p & o1 & H1 & Hl1 & <- & ->)]]; [by left|]. right. exists p, o1.
    rewrite list_lookup_insert_ne; [done|]. intros ->. by simplify_eq.
  - intros [HR|(p & o1 & H1 & Hl1 & <- & ->)].
    + split; [|by left]. intros <-. by eapply covers_not_elsewhere.
    + apply list_lookup_insert_Some in H1 as [(-> & <- & _)|[Hne H1]]; [unfold is_live in Hl1; cbn in Hl1; lia|].
      split; [|right; by exists p, o1]. intros Heq. apply Hne. symmetry. by eapply covers_unique.
Qed.

(** Changing the quantity of a live order. *)
Lemma covers_assign level level' index pos o q :
  covers R is_bid slot level index -> fl_orders level !! pos = Some o -> is_live o -> 0 < q ->
  fl_orders level' = <[pos := mkFlatOrder (fo_id o) q]> (fl_orders level) ->
  covers R is_bid slot level' index.
Proof.
  intros Hc Ho Hl Hq Hl'. split; [|apply Hc]. intros id loc. rewrite (cv_index _ _ _ _ _ Hc).
  unfold lsees. rewrite Hl'. apply lookup_lt_Some in Ho as Hlt. split; (intros [HR|(p & o1 & H1 & Hl1 & <- & ->)]; [by left|right]).
  - destruct (decide (p = pos)) as [->|Hne].
    + rewrite Ho in H1. injection H1 as <-. exists pos, (mkFlatOrder (fo_id o) q). by rewrite list_lookup_insert_eq.
    + exists p, o1. by rewrite list_lookup_insert_ne.
  - apply list_lookup_insert_Some in H1 as [(-> & <- & _)|[Hne H1]]; [by exists p, o|by exists p, o1].
Qed.

(** Appending a new order. *)
Lemma covers_push level level' index id q :
  covers R is_bid slot level index -> index !! id = None -> 0 < q ->
  fl_orders level' = fl_orders level ++ [mkFlatOrder id q] ->
  covers R is_bid slot level' (<[id := locator is_bid slot (length (fl_orders level))]> index).
Proof.
  intros Hc Hn Hq Hl'. split; [|apply Hc]. intros id' loc. unfold lsees. rewrite Hl'.
  assert (forall loc, ~ (R id loc \/ lsees is_bid slot level id loc)) as Hno.
  { intros l Hl. apply (cv_index _ _ _ _ _ Hc) in Hl. congruence. }
  destruct (decide (id' = id)) as [->|Hne].
  - rewrite lookup_insert_eq. split.
    + intros [= <-]. right. exists (length (fl_orders level)), (mkFlatOrder id q). by rewrite list_lookup_middle.
    + intros [HR|(p & o & Ho & Hl & Hid & ->)]; [exfalso; apply (Hno loc); by left|]. f_equal.
      apply lookup_app_Some in Ho as [Ho|[Hge Ho]]; [exfalso; apply (Hno (locator is_bid slot p)); right; by exists p, o|].
      apply list_lookup_singleton_Some in Ho as [Ho _]. f_equal. lia.
  - rewrite lookup_insert_ne by done. rewrite (cv_index _ _ _ _ _ Hc). split; (intros [HR|(p & o & Ho & Hl & Hid & ->)]; [by left|right]).
    + exists p, o. by rewrite lookup_app_l by (by eapply lookup_lt_Some).
    + apply lookup_app_Some in Ho as [Ho|[Hge Ho]]; [by exists p, o|].
      apply list_lookup_singleton_Some in Ho as [_ <-]. by cbn in Hid.
Qed.

(** A level without live orders shows nothing. *)
Lemma covers_dead level level' index :
  covers R is_bid slot level index -> live (fl_orders level) = [] -> live (fl_orders level') = [] ->
  covers R is_bid slot level' index.
Proof.
  intros Hc Hd Hd'. split; [|apply Hc]. intros id loc. rewrite (cv_index _ _ _ _ _ Hc).
  split; (intros [HR|(p & o & Ho & Hl & _)]; [by left|]); exfalso;
    (assert (o ∈ live (fl_orders level) \/ o ∈ live (fl_orders level')) as Hin;
      [|rewrite Hd, Hd' in Hin; set_solver]);
    [left|right]; (apply list_elem_of_filter; split; [done|by eapply list_elem_of_lookup_2]).
Qed.
End Covers.

(** ** Changing one order of a level *)

Lemma live_pos_ge level pos o :
  level_base level -> fl_orders level !! pos = Some o -> is_live o -> fl_head level <= Z.of_nat pos.
Proof.
  intros Hb Ho Hl. destruct (Z.le_gt_cases (fl_head level) (Z.of_nat pos)) as [|Hlt]; [done|]. exfalso.
  assert (o ∈ live (take (Z.to_nat (fl_head level)) (fl_orders level))) as Hin.
  { apply list_elem_of_filter. split; [done|]. apply list_elem_of_lookup. exists pos. rewrite lookup_take_lt; [done|lia]. }
  rewrite (lb_dead _ Hb) in Hin. set_solver.
Qed.

Lemma update_base level pos o q alive :
  level_base level -> fl_orders level !! pos = Some o -> is_live o -> in_u32 q ->
  alive = Z.of_nat (length (live (<[pos := mkFlatOrder (fo_id o) q]> (fl_orders level)))) ->
  level_base (mkFlatLevel (<[pos := mkFlatOrder (fo_id o) q]> (fl_orders level)) (fl_head level) alive).
Proof.
  intros Hb Ho Hl Hq Ha. pose proof (live_pos_ge _ _ _ Hb Ho Hl) as Hge.
  split; cbn [fl_orders fl_head fl_alive]; rewrite ?length_insert; try apply Hb; [|rewrite take_insert_ge by lia; apply Hb|done].
  apply Forall_insert; [apply Hb|done].
Qed.

Lemma kill_length l pos o :
  l !! pos = Some o -> is_live o ->
  Z.of_nat (length (live (<[pos := mkFlatOrder (fo_id o) 0]> l))) = Z.of_nat (length (live l)) - 1.
Proof.
  intros Ho Hl. rewrite (live_insert _ _ _ _ Ho), (live_split _ _ _ Ho), !length_app.
  rewrite !live_cons, decide_False, decide_True by done. cbn. lia.
Qed.

(** The tombstone [remove_resting] and [fill_front_order] leave. *)
Definition killed (pos : nat) (o : FlatOrder) (level : FlatLevel) : FlatLevel :=
  mkFlatLevel (<[pos := mkFlatOrder (fo_id o) 0]> (fl_orders level)) (fl_head level) (u32 (fl_alive level - 1)).

Lemma killed_base level pos o :
  level_base level -> fl_orders level !! pos = Some o -> is_live o -> level_base (killed pos o level).
Proof.
  intros Hb Ho Hl. apply update_base; try done. rewrite (kill_length _ _ _ Ho Hl), (lb_alive _ Hb).
  apply u32_small. pose proof (live_length_le (fl_orders level)). pose proof (lb_width _ Hb).
  rewrite (live_split _ _ _ Ho), !length_app, live_cons, decide_True in * by done. cbn [length] in *. unfold in_u32. lia.
Qed.

Lemma killed_orders is_bid slot level pos o :
  fl_orders level !! pos = Some o -> is_live o ->
  exists l1 l2, level_orders is_bid slot level = l1 ++ to_order is_bid slot o :: l2 /\
    level_orders is_bid slot (killed pos o level) = l1 ++ l2.
Proof.
  intros Ho Hl. exists (map (to_order is_bid slot) (live (take pos (fl_orders level)))),
    (map (to_order is_bid slot) (live (drop (S pos) (fl_orders level)))).
  unfold level_orders, killed. cbn [fl_orders]. rewrite (live_insert _ _ _ _ Ho), (live_split _ _ _ Ho), !map_app, !live_cons.
  by rewrite decide_True, decide_False.
Qed.

(** An in-place change of a live quantity. *)
Definition assigned (pos : nat) (o : FlatOrder) (q : Quantity) (level : FlatLevel) : FlatLevel :=
  mkFlatLevel (<[pos := mkFlatOrder (fo_id o) q]> (fl_orders level)) (fl_head level) (fl_alive level).

Lemma assigned_inv level pos o q :
  level_inv level -> fl_orders level !! pos = Some o -> is_live o -> in_u32 q -> 0 < q ->
  level_inv (assigned pos o q level).
Proof.
  intros [Hb Hf] Ho Hl Hq Hp. split.
  - apply update_base; try done. rewrite (lb_alive _ Hb), (live_insert _ _ _ _ Ho), (live_split _ _ _ Ho), !length_app, !live_cons.
    by rewrite !decide_True.
  - intros _. destruct Hf as (o1 & Ho1 & Hl1).
    { rewrite (live_split _ _ _ Ho), (live_cons o []), decide_True by done. by destruct (live (take _ _)). }
    unfold assigned. cbn [fl_orders fl_head]. destruct (decide (Z.to_nat (fl_head level) = pos)) as [->|Hne].
    + exists (mkFlatOrder (fo_id o) q). rewrite list_lookup_insert_eq; [done|by eapply lookup_lt_Some].
    + exists o1. by rewrite list_lookup_insert_ne.
Qed.

Lemma assigned_orders is_bid slot level pos o q :
  fl_orders level !! pos = Some o -> is_live o -> 0 < q ->
  exists l1 l2, level_orders is_bid slot level = l1 ++ to_order is_bid slot o :: l2 /\
    level_orders is_bid slot (assigned pos o q level) = l1 ++ set_quantity q (to_order is_bid slot o) :: l2.
Proof.
  intros Ho Hl Hq. exists (map (to_order is_bid slot) (live (take pos (fl_orders level)))),
    (map (to_order is_bid slot) (live (drop (S pos) (fl_orders level)))).
  unfold level_orders, assigned. cbn [fl_orders]. rewrite (live_insert _ _ _ _ Ho), (live_split _ _ _ Ho), !map_app, !live_cons.
  by rewrite !decide_True.
Qed.

(** ** Compaction *)

Lemma compact_fold sd p l : forall acc index,
  NoDup (map fo_id (live l)) ->
  (forall o, o ∈ live l -> exists pos, index !! fo_id o = Some (mkLocator sd p pos)) ->
  exists index', fold_left compact_order l (acc, index) = (acc ++ live l, index') /\
    (forall k o, live l !! k = Some o ->
      index' !! fo_id o = Some (mkLocator sd p (u32 (Z.of_nat (length acc + k))))) /\
    (forall id, id ∉ map fo_id (live l) -> index' !! id = index !! id).
Proof.
  induction l as [|o l IH]; intros acc index Hn Hi.
  { exists index. by rewrite app_nil_r. }
  cbn [fold_left compact_order]. rewrite live_cons in *. destruct (decide (is_live o)) as [Hl|Hl]; unfold is_live in Hl.
  2:{ replace (0 <? fo_quantity o) with false by lia. by apply IH. }
  replace (0 <? fo_quantity o) with true by lia. cbn [map] in Hn. apply NoDup_cons in Hn as [Hno Hn].
  destruct (Hi o) as [pos Hpos]; [set_solver|]. rewrite Hpos. cbn [cl_side cl_price].
  set (index1 := <[fo_id o := _]> index).
  destruct (IH (acc ++ [o]) index1 Hn) as (index' & Hf & Hk & Hid).
  { intros o' Ho'. destruct (Hi o') as [pos' Hpos']; [set_solver|]. exists pos'. unfold index1.
    rewrite lookup_insert_ne; [done|]. intros Heq. apply Hno. rewrite Heq. by apply (list_elem_of_fmap_2 fo_id). }
  exists index'. rewrite Hf, <- app_assoc. split; [done|]. split.
  - intros [|k] o' Ho'; cbn in Ho'.
    + injection Ho' as <-. rewrite Hid by done. unfold index1. rewrite lookup_insert_eq. by rewrite Nat.add_0_r.
    + rewrite (Hk _ _ Ho'), length_app. cbn [length]. do 4 f_equal. lia.
  - intros id Hnid. cbn [map] in Hnid. rewrite Hid by set_solver. unfold index1. rewrite lookup_insert_ne; [done|set_solver].
Qed.

Lemma live_ids_unique l :
  (forall p p' o o', l !! p = Some o -> is_live o -> l !! p' = Some o' -> is_live o' -> fo_id o' = fo_id o -> p' = p) ->
  NoDup (map fo_id (live l)).
Proof.
  induction l as [|o l IH]; intros Hu; [constructor|]. rewrite live_cons.
  assert (NoDup (map fo_id (live l))) as Hn.
  { apply IH. intros p p' o1 o2 H1 L1 H2 L2 E. apply (Hu (S p) (S p') o1 o2) in E; try done. lia. }
  case_decide as Hl; [|done]. cbn [map]. constructor; [|done].
  intros Hin. apply list_elem_of_fmap in Hin as (o' & Hid & Hin). apply list_elem_of_filter in Hin as [Hl' Hin].
  apply list_elem_of_lookup in Hin as [p Hp]. by assert (S p = 0%nat) by (by eapply (Hu 0%nat (S p) o o')).
Qed.

Lemma covers_live_ids R is_bid slot level index :
  covers R is_bid slot level index -> NoDup (map fo_id (live (fl_orders level))).
Proof. intros Hc. apply live_ids_unique. intros p p' o o' H1 L1 H2 L2 E. by eapply covers_unique. Qed.

(** Rewriting the queue with its live orders only. *)
Lemma compact_level_spec R is_bid slot level index :
  level_base level -> covers R is_bid slot level index ->
  exists index', compact_level level index = (mkFlatLevel (live (fl_orders level)) 0 (fl_alive level), index') /\
    covers R is_bid slot (mkFlatLevel (live (fl_orders level)) 0 (fl_alive level)) index'.
Proof.
  intros Hb Hc. unfold compact_level. pose proof (covers_live_ids _ _ _ _ _ Hc) as Hn.
  pose proof (live_after_head _ Hb) as Hd.
  assert (forall o, o ∈ live (fl_orders level) -> exists pos, fl_orders level !! pos = Some o /\ is_live o) as Hin.
  { intros o [Hl Ho]%list_elem_of_filter. apply list_elem_of_lookup in Ho as [pos Ho]. by exists pos. }
  destruct (compact_fold (side_of is_bid) (price_of slot) (drop (Z.to_nat (fl_head level)) (fl_orders level)) [] index)
    as (index' & -> & Hk & Hid); rewrite ?Hd in *; [done| |].
  { intros o (pos & Ho & Hl)%Hin. exists (Z.of_nat pos). by eapply covers_at. }
  exists index'. split; [done|]. split; [|apply Hc].
  assert (forall k o, live (fl_orders level) !! k = Some o -> index' !! fo_id o = Some (locator is_bid slot k)) as Hk'.
  { intros k o Ho. rewrite (Hk _ _ Ho). cbn [length Nat.add]. rewrite u32_small; [done|].
    apply lookup_lt_Some in Ho. pose proof (live_length_le (fl_orders level)). pose proof (lb_width _ Hb). unfold in_u32. lia. }
  intros id loc. unfold lsees. cbn [fl_orders]. destruct (decide (id ∈ map fo_id (live (fl_orders level)))) as [Hi|Hi].
  - apply list_elem_of_fmap in Hi as (o & -> & Ho). apply Hin in Ho as Hpos. destruct Hpos as (pos & Hpo & Hpl).
    apply list_elem_of_lookup in Ho as [k Ho]. rewrite (Hk' _ _ Ho). split.
    + intros [= <-]. right. by exists k, o.
    + intros [HR|(k' & o' & Ho' & _ & He & ->)]; [by apply (covers_not_elsewhere _ _ _ _ _ _ _ _ Hc Hpo) in HR|].
      by rewrite <- (Hk' _ _ Ho'), He, (Hk' _ _ Ho).
  - rewrite Hid by done. rewrite (cv_index _ _ _ _ _ Hc). split; (intros [HR|(p & o & Ho & Hl & <- & ->)]; [by left|]);
      exfalso; apply Hi, (list_elem_of_fmap_2 fo_id).
    + apply list_elem_of_filter. split; [done|by eapply list_elem_of_lookup_2].
    + by eapply list_elem_of_lookup_2.
Qed.

Lemma compacted_inv level :
  level_inv level -> level_inv (mkFlatLevel (live (fl_orders level)) 0 (fl_alive level)).
Proof.
  intros [[Hw Hq Hh Hd Ha] _]. pose proof (live_length_le (fl_orders level)). split; [split|]; cbn [fl_orders fl_head fl_alive].
  - lia.
  - apply Forall_forall. intros o [_ Ho]%list_elem_of_filter. rewrite Forall_forall in Hq. auto.
  - lia.
  - done.
  - by rewrite live_all.
  - unfold front_live. cbn [fl_orders fl_head]. rewrite live_all. intros Hne. destruct (live (fl_orders level)) as [|o l] eqn:E; [done|].
    exists o. split; [done|]. assert (o ∈ live (fl_orders level)) as Hin by (rewrite E; set_solver).
    by apply list_elem_of_filter in Hin as [? _].
Qed.

Lemma maybe_compact_spec R is_bid slot level index :
  level_inv level -> live (fl_orders level) <> [] -> covers R is_bid slot level index ->
  exists level' index', maybe_compact level index = (level', index') /\
    level_ok level' /\ covers R is_bid slot level' index' /\
    live (fl_orders level') = live (fl_orders level) /\ fl_alive level' = fl_alive level.
Proof.
  intros Hinv Hne Hc. unfold maybe_compact. pose proof (proj1 Hinv) as Hb.
  pose proof (live_length_le (fl_orders level)) as Hlen. pose proof (lb_alive _ Hb) as Ha.
  rewrite u32_u64_small by (pose proof (lb_width _ Hb); lia).
  destruct ((kCompactMinSize <=? _) && _) eqn:E.
  - destruct (compact_level_spec _ _ _ _ _ Hb Hc) as (index' & -> & Hc').
    eexists _, index'. split; [done|]. split_and!; try done; [|by cbn [fl_orders]; rewrite live_all].
    split; [by apply compacted_inv|cbn [fl_orders]; by rewrite live_all|]. cbn [fl_orders fl_alive]. lia.
  - exists level, index. split_and!; try done. split; [done|done|]. unfold kCompactMinSize in E.
    apply andb_false_iff in E as [E|E]; lia.
Qed.

(** ** Filling a level *)

Lemma to_order_price is_bid slot l :
  Forall (fun o => o_price o = price_of slot) (map (to_order is_bid slot) l).
Proof. apply Forall_map, Forall_forall. done. Qed.

(** Filling the front order of a level completely. *)
Lemma front_killed R is_bid slot level index o tl :
  level_inv level -> covers R is_bid slot level index -> live (fl_orders level) = o :: tl ->
  let level' := advance_head (killed (Z.to_nat (fl_head level)) o level) in
  level_inv level' /\ covers R is_bid slot level' (delete (fo_id o) index) /\
  live (fl_orders level') = tl /\ length (fl_orders level') = length (fl_orders level).
Proof.
  intros Hinv Hc Hl. destruct (front_spec _ _ _ Hinv Hl) as (Ho & Hlo & Htl).
  pose proof (killed_base _ _ _ (proj1 Hinv) Ho Hlo) as Hb.
  destruct (advance_head_spec _ Hb) as (Hi & Hor & Ha). split; [done|].
  assert (fl_orders (advance_head (killed (Z.to_nat (fl_head level)) o level)) =
    <[Z.to_nat (fl_head level) := mkFlatOrder (fo_id o) 0]> (fl_orders level)) as Hk by (by rewrite Hor).
  rewrite Hk, length_insert, (live_insert _ _ _ _ Ho), Htl. split_and!; [by eapply covers_kill| |done].
  by rewrite (lb_dead _ (proj1 Hinv)), live_cons, decide_False by done.
Qed.

Lemma flat_fill_while R is_bid slot : forall fuel index level ctx,
  (length (live (fl_orders level)) < fuel)%nat -> 0 <= c_quantity ctx ->
  level_inv level -> covers R is_bid slot level index ->
  exists ts r index' level',
    while fuel fill_level_cond (fill_front_order (price_of slot)) (index, level, ctx) =
      (index', level', ctx_after ctx r ts) /\
    a_match (c_taker_id ctx) (fun _ => true) (c_quantity ctx) (level_orders is_bid slot level) =
      (ts, r, level_orders is_bid slot level') /\
    level_inv level' /\ covers R is_bid slot level' index'.
Proof.
  induction fuel as [|fuel IH]; intros index level ctx Hf Hq Hinv Hc; [lia|].
  cbn [while fill_level_cond]. rewrite (lb_alive _ (proj1 Hinv)). unfold level_orders at 1.
  destruct (live (fl_orders level)) as [|o tl] eqn:El.
  { rewrite andb_false_r. exists [], (c_quantity ctx), index, level. rewrite ctx_after_id. unfold level_orders. by rewrite El. }
  cbn [length map a_match]. rewrite !andb_true_r.
  destruct (0 <? c_quantity ctx) eqn:Eq.
  2:{ exists [], (c_quantity ctx), index, level. rewrite ctx_after_id. unfold level_orders. by rewrite El. }
  destruct (front_spec _ _ _ Hinv El) as (Ho & Hl & Htl).
  cbn [fill_front_order fill_maker]. rewrite Ho. cbn [to_order o_quantity o_price o_id].
  destruct (fo_quantity o <=? c_quantity ctx) eqn:Ele.
  - replace (Z.min (c_quantity ctx) (fo_quantity o)) with (fo_quantity o) by lia.
    replace (fo_quantity o - fo_quantity o) with 0 by lia. cbn [Z.eqb].
    fold (killed (Z.to_nat (fl_head level)) o level).
    destruct (front_killed _ _ _ _ _ _ _ Hinv Hc El) as (Hi' & Hc' & Hl' & _).
    set (ctx1 := ctx_after ctx (c_quantity ctx - fo_quantity o)
      [mkTrade (c_taker_id ctx) (fo_id o) (price_of slot) (fo_quantity o)]).
    destruct (IH (delete (fo_id o) index) (advance_head (killed (Z.to_nat (fl_head level)) o level)) ctx1)
      as (ts & r & index' & level' & Hw & Hm & Hi2 & Hc2); try done; [rewrite Hl'; cbn [length] in Hf; lia|cbn; lia|].
    unfold ctx1 in Hw at 1. unfold ctx_after in Hw at 1. rewrite Hw. unfold level_orders in Hm at 1. rewrite Hl' in Hm. cbn in Hm. rewrite Hm.
    eexists _, r, index', level'. split_and!; try done. unfold ctx_after, ctx1. cbn. by rewrite <- app_assoc.
  - replace (Z.min (c_quantity ctx) (fo_quantity o)) with (c_quantity ctx) by lia.
    replace (fo_quantity o - c_quantity ctx =? 0) with false by lia.
    rewrite while_false by (cbn; lia).
    set (q := fo_quantity o - c_quantity ctx). fold (assigned (Z.to_nat (fl_head level)) o q level).
    assert (in_u32 q /\ 0 < q) as [Hq1 Hq2].
    { pose proof (lb_quantity _ (proj1 Hinv)) as Hqs. eapply Forall_lookup_1 in Hqs; [|exact Ho]. unfold q, in_u32 in *. lia. }
    exists [mkTrade (c_taker_id ctx) (fo_id o) (price_of slot) (c_quantity ctx)], 0, index, (assigned (Z.to_nat (fl_head level)) o q level).
    split_and!; [by rewrite Z.sub_diag| |by apply assigned_inv|by eapply covers_assign].
    unfold level_orders, assigned. cbn [fl_orders]. rewrite (live_insert _ _ _ _ Ho), Htl, (lb_dead _ (proj1 Hinv)).
    by rewrite live_cons, decide_True by done.
Qed.

Lemma flat_fill_level R is_bid slot index level ctx :
  0 <= c_quantity ctx -> level_inv level -> covers R is_bid slot level index ->
  exists ts r index' level',
    fill_level index level (price_of slot) ctx = (index', level', ctx_after ctx r ts) /\
    a_match (c_taker_id ctx) (fun _ => true) (c_quantity ctx) (level_orders is_bid slot level) =
      (ts, r, level_orders is_bid slot level') /\
    level_inv level' /\ covers R is_bid slot level' index'.
Proof.
  intros. apply flat_fill_while; try done. pose proof (live_length_le (fl_orders level)). lia.
Qed.

(** ** Sides *)

Definition side_b (c : ContiguousStore) (is_bid : bool) : BookSide := if is_bid then bids c else asks c.

Record side_ok (s : BookSide) : Prop := {
  so_length : length (sd_levels s) = kBandWidth;
  so_bits : bits_ok (sd_bits s);
  so_occupied : forall i, (i < kBandWidth)%nat -> occupied (sd_bits s) i = (0 <? fl_alive (level_at s i));
  so_levels : forall i, (i < kBandWidth)%nat -> level_ok (level_at s i)
}.

Lemma level_at_insert lv bits i level j :
  (i < length lv)%nat ->
  level_at (mkBookSide (<[i := level]> lv) bits) j =
    if (j =? i)%nat then level else level_at (mkBookSide lv bits) j.
Proof.
  intros Hi. unfold level_at. cbn [sd_levels]. destruct (Nat.eqb_spec j i) as [->|Hne].
  - by rewrite list_lookup_insert_eq.
  - by rewrite list_lookup_insert_ne by done.
Qed.

Lemma side_ok_update s i level bits :
  side_ok s -> (i < kBandWidth)%nat -> level_ok level -> bits_ok bits ->
  (forall j, (j < kBandWidth)%nat ->
    occupied bits j = if (j =? i)%nat then 0 <? fl_alive level else occupied (sd_bits s) j) ->
  side_ok (mkBookSide (<[i := level]> (sd_levels s)) bits) /\
  level_at (mkBookSide (<[i := level]> (sd_levels s)) bits) i = level /\
  forall j, j <> i -> level_at (mkBookSide (<[i := level]> (sd_levels s)) bits) j = level_at s j.
Proof.
  intros [Hl Hb Ho Hlv] Hi Hok Hbits Hocc.
  assert (forall j, level_at (mkBookSide (<[i := level]> (sd_levels s)) bits) j =
    if (j =? i)%nat then level else level_at s j) as Hat by (intros j; rewrite level_at_insert by lia; done).
  split_and!.
  - split; cbn [sd_levels sd_bits]; [by rewrite length_insert|done|..]; intros j Hj; rewrite Hat.
    + rewrite Hocc by done. destruct (j =? i)%nat; [done|by apply Ho].
    + destruct (j =? i)%nat; [done|by apply Hlv].
  - by rewrite Hat, Nat.eqb_refl.
  - intros j Hj. by rewrite Hat, (proj2 (Nat.eqb_neq j i)).
Qed.

Lemma alive_live level : level_base level -> (0 <? fl_alive level) = negb (is_nil (live (fl_orders level))).
Proof. intros Hb. rewrite (lb_alive _ Hb). by destruct (live (fl_orders level)). Qed.

Lemma level_live_nil is_bid slot level : level_orders is_bid slot level = [] <-> live (fl_orders level) = [].
Proof. unfold level_orders. by destruct (live (fl_orders level)). Qed.

(** Storing a level that still has live orders in an occupied slot. *)
Lemma set_level_ok s i level :
  side_ok s -> (i < kBandWidth)%nat -> 0 < fl_alive (level_at s i) -> level_ok level -> 0 < fl_alive level ->
  side_ok (set_level i level s) /\ level_at (set_level i level s) i = level /\
  forall j, j <> i -> level_at (set_level i level s) j = level_at s j.
Proof.
  intros Hs Hi Ha Hok Ha'. apply side_ok_update; try done; [apply Hs|]. intros j Hj.
  destruct (Nat.eqb_spec j i) as [->|]; [|done]. rewrite (so_occupied _ Hs) by done. lia.
Qed.

Lemma clear_level_ok s i level :
  side_ok s -> (i < kBandWidth)%nat ->
  side_ok (clear_level (set_level i level s) i) /\ level_at (clear_level (set_level i level s) i) i = empty_level /\
  forall j, j <> i -> level_at (clear_level (set_level i level s) i) j = level_at s j.
Proof.
  intros Hs Hi. unfold clear_level, set_level. cbn [sd_levels sd_bits]. rewrite list_insert_insert_eq.
  apply side_ok_update; try done; [apply empty_level_ok|apply clear_bit_ok, Hs|]. intros j Hj.
  rewrite occupied_clear by (done || apply Hs). by destruct (j =? i)%nat.
Qed.

(** ** The index and the two sides *)

Definition index_ok (f : bool -> BookSide) (index : gmap Z Locator) : Prop :=
  forall id loc, index !! id = Some loc <->
    exists b i, (i < kBandWidth)%nat /\ lsees b i (level_at (f b) i) id loc.

(** Seen at a level other than [slot] of side [is_bid]. *)
Definition elsewhere (f : bool -> BookSide) (is_bid : bool) (slot : nat) (id : OrderId) (loc : Locator) : Prop :=
  exists b i, (b, i) <> (is_bid, slot) /\ (i < kBandWidth)%nat /\ lsees b i (level_at (f b) i) id loc.

Lemma locator_apart b i p b' i' p' : locator b i p = locator b' i' p' -> (b, i) = (b', i').
Proof.
  unfold locator, price_of. intros [= Hs Hp _]. f_equal; [by destruct b, b'|]. lia.
Qed.

Lemma focus f index is_bid slot :
  index_ok f index -> (slot < kBandWidth)%nat ->
  covers (elsewhere f is_bid slot) is_bid slot (level_at (f is_bid) slot) index.
Proof.
  intros Hi Hs. split.
  - intros id loc. rewrite (Hi id loc). split.
    + intros (b & i & Hib & Hl). destruct (decide ((b, i) = (is_bid, slot))) as [[= -> ->]|Hne]; [by right|].
      left. by exists b, i.
    + intros [(b & i & _ & Hib & Hl)|Hl]; [by exists b, i|by exists is_bid, slot].
  - intros id pos (b & i & Hne & _ & (p & o & _ & _ & _ & Hl)). apply Hne. symmetry. by eapply locator_apart.
Qed.

Lemma unfocus f f' index is_bid slot level :
  covers (elsewhere f is_bid slot) is_bid slot level index -> (slot < kBandWidth)%nat ->
  level_at (f' is_bid) slot = level ->
  (forall b i, (b, i) <> (is_bid, slot) -> level_at (f' b) i = level_at (f b) i) ->
  index_ok f' index.
Proof.
  intros Hc Hs Hl Hother id loc. rewrite (cv_index _ _ _ _ _ Hc). split.
  - intros [(b & i & Hne & Hib & Hl')|Hl']; [exists b, i; by rewrite Hother|exists is_bid, slot; by rewrite Hl].
  - intros (b & i & Hib & Hl'). destruct (decide ((b, i) = (is_bid, slot))) as [[= -> ->]|Hne].
    + right. by rewrite <- Hl.
    + left. exists b, i. by rewrite Hother in Hl'.
Qed.

(** Replacing one side. *)
Definition upd (f : bool -> BookSide) (is_bid : bool) (s : BookSide) : bool -> BookSide :=
  fun b => if Bool.eqb b is_bid then s else f b.

Lemma upd_eq f is_bid s : upd f is_bid s is_bid = s.
Proof. unfold upd. by rewrite Bool.eqb_reflx. Qed.

Lemma upd_level f is_bid s slot :
  (forall j, j <> slot -> level_at s j = level_at (f is_bid) j) ->
  forall b i, (b, i) <> (is_bid, slot) -> level_at (upd f is_bid s b) i = level_at (f b) i.
Proof.
  intros Hs b i Hne. unfold upd. destruct (Bool.eqb b is_bid) eqn:E; [|done].
  apply Bool.eqb_prop in E as ->. apply Hs. by intros ->.
Qed.

(** What [match_against] and [remove_resting] do with a level they have changed:
    reset it when it has no live order, compact it when needed otherwise. *)
Definition settle (slot : nat) (level : FlatLevel) (s : BookSide) (index : gmap Z Locator) :
    BookSide * gmap Z Locator :=
  if fl_alive level =? 0 then (clear_level (set_level slot level s) slot, index)
  else let '(level, index) := maybe_compact level index in (set_level slot level s, index).

Lemma settle_spec f is_bid slot level s index :
  f is_bid = s -> side_ok s -> (slot < kBandWidth)%nat -> 0 < fl_alive (level_at s slot) ->
  level_inv level -> covers (elsewhere f is_bid slot) is_bid slot level index ->
  let '(s', index') := settle slot level s index in
  side_ok s' /\ index_ok (upd f is_bid s') index' /\
  (forall j, j <> slot -> level_at s' j = level_at s j) /\
  live (fl_orders (level_at s' slot)) = live (fl_orders level).
Proof.
  intros Hf Hs Hslot Ha Hinv Hc. unfold settle. pose proof (lb_alive _ (proj1 Hinv)) as Hal.
  destruct (Z.eqb_spec (fl_alive level) 0) as [E|E].
  - destruct (clear_level_ok s slot level Hs Hslot) as (Hs' & Hat & Hother). split_and!; try done.
    + apply (unfocus f _ _ is_bid slot empty_level); try done.
      * eapply covers_dead; [exact Hc| |done]. destruct (live (fl_orders level)); [done|]. cbn in Hal. lia.
      * by rewrite upd_eq.
      * apply upd_level. by rewrite Hf.
    + rewrite Hat. by destruct (live (fl_orders level)); [|cbn in Hal; lia].
  - assert (live (fl_orders level) <> []) as Hne by (intros Hnil; by rewrite Hnil in Hal).
    destruct (maybe_compact_spec _ _ _ _ _ Hinv Hne Hc) as (level' & index' & -> & Hok & Hc' & Hl & Hal').
    destruct (set_level_ok s slot level' Hs Hslot Ha Hok) as (Hs' & Hat & Hother); [lia|]. split_and!; try done.
    + apply (unfocus f _ _ is_bid slot level'); try done; [by rewrite upd_eq|]. apply upd_level. by rewrite Hf.
    + by rewrite Hat.
Qed.

(** ** Slots in priority order *)

Lemma band_positive : (0 < kBandWidth)%nat.
Proof. unfold kBandWidth. lia. Qed.

Lemma band_width : Z.of_nat kBandWidth = 1024.
Proof. done. Qed.

#[local] Opaque kBandWidth.

Definition side_slots (is_bid : bool) : list nat :=
  if is_bid then rev (seq 0 kBandWidth) else seq 0 kBandWidth.

(** The slots in front of and behind [slot]. *)
Definition slots_before (is_bid : bool) (slot : nat) : list nat :=
  if is_bid then rev (seq (S slot) (kBandWidth - S slot)) else seq 0 slot.
Definition slots_after (is_bid : bool) (slot : nat) : list nat :=
  if is_bid then rev (seq 0 slot) else seq (S slot) (kBandWidth - S slot).

Lemma side_slots_split is_bid slot :
  (slot < kBandWidth)%nat -> side_slots is_bid = slots_before is_bid slot ++ slot :: slots_after is_bid slot.
Proof.
  intros Hs. assert (seq 0 kBandWidth = seq 0 slot ++ slot :: seq (S slot) (kBandWidth - S slot)) as E.
  { replace kBandWidth with (slot + S (kBandWidth - S slot))%nat at 1 by lia. by rewrite seq_app. }
  unfold side_slots, slots_before, slots_after. destruct is_bid; [|done].
  rewrite E, rev_app_distr. cbn [rev]. by rewrite <- app_assoc.
Qed.

Lemma in_side_slots is_bid slot : slot ∈ side_slots is_bid <-> (slot < kBandWidth)%nat.
Proof.
  unfold side_slots. destruct is_bid; rewrite !list_elem_of_In, <- ?in_rev, in_seq; lia.
Qed.

Lemma in_slots_before is_bid slot j :
  (slot < kBandWidth)%nat -> j ∈ slots_before is_bid slot -> better is_bid (price_of slot) (price_of j) = false /\ j <> slot.
Proof.
  unfold slots_before, better, price_of. destruct is_bid; rewrite !list_elem_of_In, <- ?in_rev, in_seq; lia.
Qed.

Lemma in_slots_after is_bid slot j :
  (slot < kBandWidth)%nat -> j ∈ slots_after is_bid slot -> better is_bid (price_of slot) (price_of j) = true /\ j <> slot.
Proof.
  unfold slots_after, better, price_of. destruct is_bid; rewrite !list_elem_of_In, <- ?in_rev, in_seq; lia.
Qed.

(** [r] is the first element of [l] that satisfies [P]. *)
Definition first_in (P : nat -> bool) (l : list nat) (r : option nat) : Prop :=
  match r with
  | Some i => exists l1 l2, l = l1 ++ i :: l2 /\ Forall (fun j => P j = false) l1 /\ P i = true
  | None => Forall (fun j => P j = false) l
  end.

Lemma first_up_in bits from r :
  (from <= kBandWidth)%nat -> first_up bits from r -> first_in (occupied bits) (seq from (kBandWidth - from)) r.
Proof.
  intros Hf. unfold first_up, first_in. destruct r as [i|].
  - intros (Hi & Ho & Hbefore). exists (seq from (i - from)), (seq (S i) (kBandWidth - S i)). split_and!; [|apply Forall_forall|done].
    + replace (kBandWidth - from)%nat with ((i - from) + S (kBandWidth - S i))%nat by lia. rewrite seq_app. cbn [seq].
      by replace (from + (i - from))%nat with i by lia.
    + intros j. rewrite list_elem_of_In, in_seq. intros Hj. apply Hbefore. lia.
  - intros Hno. apply Forall_forall. intros j. rewrite list_elem_of_In, in_seq. intros Hj. apply Hno. lia.
Qed.

Lemma first_down_in bits from r :
  first_down bits from r -> first_in (occupied bits) (rev (seq 0 (S from))) r.
Proof.
  unfold first_down, first_in. destruct r as [i|].
  - intros (Hi & Ho & Habove). exists (rev (seq (S i) (from - i))), (rev (seq 0 i)). split_and!; [|apply Forall_forall|done].
    + replace (S from) with (i + S (from - i))%nat by lia. rewrite seq_app. cbn [seq Nat.add].
      rewrite rev_app_distr. cbn [rev]. by rewrite <- app_assoc.
    + intros j. rewrite list_elem_of_In, <- in_rev, in_seq. intros Hj. apply Habove. lia.
  - intros Hno. apply Forall_forall. intros j. rewrite list_elem_of_In, <- in_rev, in_seq. intros Hj. apply Hno. lia.
Qed.

Lemma best_slot_spec s is_bid :
  side_ok s -> first_in (occupied (sd_bits s)) (side_slots is_bid) (best_slot s is_bid).
Proof.
  intros Hs. pose proof band_positive. unfold best_slot, side_slots. destruct is_bid.
  - replace kBandWidth with (S (kBandWidth - 1)) at 1 by lia. apply first_down_in, next_down_spec, Hs.
  - replace (seq 0 kBandWidth) with (seq 0 (kBandWidth - 0)) by (f_equal; lia). apply first_up_in; [lia|].
    apply next_up_spec; [apply Hs|lia].
Qed.

Lemma next_worse_spec s is_bid slot :
  side_ok s -> (slot < kBandWidth)%nat ->
  first_in (occupied (sd_bits s)) (slots_after is_bid slot) (next_worse (sd_bits s) is_bid slot).
Proof.
  intros Hs Hslot. unfold next_worse, slots_after. destruct is_bid.
  - destruct (Nat.eqb_spec slot 0) as [->|Hne]; [by constructor|].
    replace slot with (S (slot - 1)) at 1 by lia. apply first_down_in, next_down_spec, Hs.
  - destruct (Nat.leb_spec kBandWidth (slot + 1)) as [Hge|Hlt].
    + replace (kBandWidth - S slot)%nat with 0%nat by lia. by constructor.
    + rewrite Nat.add_1_r in *. apply first_up_in; [lia|]. apply next_up_spec; [apply Hs|lia].
Qed.

(** ** The orders of a side *)

Definition flat_of (is_bid : bool) (s : BookSide) (slots : list nat) : list Order :=
  concat (map (fun i => level_orders is_bid i (level_at s i)) slots).
Definition flat (is_bid : bool) (s : BookSide) : list Order := flat_of is_bid s (side_slots is_bid).

Lemma flat_of_app is_bid s l l' : flat_of is_bid s (l ++ l') = flat_of is_bid s l ++ flat_of is_bid s l'.
Proof. unfold flat_of. by rewrite map_app, concat_app. Qed.
Lemma flat_of_cons is_bid s i l :
  flat_of is_bid s (i :: l) = level_orders is_bid i (level_at s i) ++ flat_of is_bid s l.
Proof. done. Qed.

Lemma flat_of_ext is_bid s s' l :
  (forall i, i ∈ l -> level_orders is_bid i (level_at s' i) = level_orders is_bid i (level_at s i)) ->
  flat_of is_bid s' l = flat_of is_bid s l.
Proof. intros H. unfold flat_of. f_equal. apply map_ext_in. intros i Hi. by apply H, list_elem_of_In. Qed.

Lemma unoccupied_nil s is_bid i :
  side_ok s -> (i < kBandWidth)%nat -> occupied (sd_bits s) i = false -> level_orders is_bid i (level_at s i) = [].
Proof.
  intros Hs Hi. rewrite (so_occupied _ Hs), (alive_live _ (proj1 (lk_inv _ (so_levels _ Hs i Hi)))) by done.
  rewrite level_live_nil. by destruct (live _).
Qed.

Lemma occupied_not_nil s is_bid i :
  side_ok s -> (i < kBandWidth)%nat -> occupied (sd_bits s) i = true -> level_orders is_bid i (level_at s i) <> [].
Proof.
  intros Hs Hi. rewrite (so_occupied _ Hs), (alive_live _ (proj1 (lk_inv _ (so_levels _ Hs i Hi)))) by done.
  rewrite level_live_nil. by destruct (live _).
Qed.

Lemma flat_of_nil s is_bid l :
  side_ok s -> Forall (fun i => (i < kBandWidth)%nat) l -> Forall (fun j => occupied (sd_bits s) j = false) l ->
  flat_of is_bid s l = [].
Proof.
  intros Hs Hl Ho. induction l as [|i l IH]; [done|]. apply Forall_cons in Hl as [Hi Hl], Ho as [Hoi Ho].
  by rewrite flat_of_cons, unoccupied_nil, IH by done.
Qed.

(** The orders of a side around one of its levels. *)
Lemma flat_split is_bid s slot :
  (slot < kBandWidth)%nat ->
  flat is_bid s = flat_of is_bid s (slots_before is_bid slot) ++ level_orders is_bid slot (level_at s slot) ++
    flat_of is_bid s (slots_after is_bid slot).
Proof. intros Hs. unfold flat. by rewrite (side_slots_split is_bid slot), flat_of_app, flat_of_cons by done. Qed.

Lemma flat_update is_bid s s' slot :
  (slot < kBandWidth)%nat -> (forall j, j <> slot -> level_at s' j = level_at s j) ->
  flat is_bid s' = flat_of is_bid s (slots_before is_bid slot) ++ level_orders is_bid slot (level_at s' slot) ++
    flat_of is_bid s (slots_after is_bid slot).
Proof.
  intros Hs Hother. rewrite (flat_split is_bid s' slot Hs). f_equal; [|f_equal]; apply flat_of_ext; intros i Hi; f_equal; apply Hother.
  - by apply in_slots_before in Hi as [_ ?].
  - by apply in_slots_after in Hi as [_ ?].
Qed.

(** ** Matching against a side *)

Lemma app_cons_unique {A} (x : A) l1 l2 : forall k1 k2,
  NoDup (l1 ++ x :: l2) -> l1 ++ x :: l2 = k1 ++ x :: k2 -> l1 = k1 /\ l2 = k2.
Proof.
  induction l1 as [|y l1 IH]; intros [|z k1] k2 Hn He; cbn in *; simplify_eq; try done.
  - apply NoDup_cons in Hn as [Hn _]. set_solver.
  - apply NoDup_cons in Hn as [Hn _]. set_solver.
  - apply NoDup_cons in Hn as [_ Hn]. destruct (IH k1 k2 Hn) as [-> ->]; done.
Qed.

Lemma side_slots_NoDup is_bid : NoDup (side_slots is_bid).
Proof. unfold side_slots. destruct is_bid; [rewrite <- Permutation_rev|]; apply NoDup_seq. Qed.

Lemma best_slot_cases s is_bid :
  side_ok s ->
  match best_slot s is_bid with
  | Some i => (i < kBandWidth)%nat /\ occupied (sd_bits s) i = true /\
      flat is_bid s = level_orders is_bid i (level_at s i) ++ flat_of is_bid s (slots_after is_bid i) /\
      flat_of is_bid s (slots_before is_bid i) = []
  | None => flat is_bid s = []
  end.
Proof.
  intros Hs. pose proof (best_slot_spec s is_bid Hs) as Hb.
  assert (Forall (fun i => (i < kBandWidth)%nat) (side_slots is_bid)) as Hall.
  { apply Forall_forall. intros i. by rewrite in_side_slots. }
  destruct (best_slot s is_bid) as [i|]; cbn in Hb; [|by apply flat_of_nil].
  destruct Hb as (l1 & l2 & E & Hl1 & Hi). assert (i < kBandWidth)%nat as Hlt.
  { apply (in_side_slots is_bid). rewrite E. set_solver. }
  pose proof (side_slots_NoDup is_bid) as Hn. rewrite E in Hn.
  destruct (app_cons_unique i l1 l2 (slots_before is_bid i) (slots_after is_bid i) Hn) as [-> ->].
  { rewrite <- E. by apply side_slots_split. }
  assert (flat_of is_bid s (slots_before is_bid i) = []) as Hnil.
  { apply flat_of_nil; try done. rewrite E in Hall. by apply Forall_app in Hall as [? _]. }
  split_and!; try done. by rewrite (flat_split is_bid s i Hlt), Hnil.
Qed.

Lemma match_body_settle is_bid index s ctx running i :
  best_slot s is_bid = Some i ->
  can_match_level (c_taker_is_buy ctx) (c_is_market ctx) (c_limit ctx) (price_of i) = true ->
  match_body is_bid (index, s, ctx, running) =
    let '(index1, level, ctx1) := fill_level index (level_at s i) (price_of i) ctx in
    let '(s', index') := settle i level s index1 in (index', s', ctx1, true).
Proof.
  intros Hb Hc. unfold match_body, settle. rewrite Hb, Hc. cbn [negb].
  destruct (fill_level _ _ _ _) as [[index1 level] ctx1]. destruct (fl_alive level =? 0); [done|].
  by destruct (maybe_compact level index1).
Qed.

Definition occupied_count (s : BookSide) (l : list nat) : nat :=
  length (List.filter (occupied (sd_bits s)) l).

(** Emptying an occupied level leaves one occupied slot less. *)
Lemma occupied_count_less is_bid s s' i :
  side_ok s -> side_ok s' -> (i < kBandWidth)%nat -> occupied (sd_bits s) i = true ->
  (forall j, j <> i -> level_at s' j = level_at s j) -> live (fl_orders (level_at s' i)) = [] ->
  (occupied_count s' (side_slots is_bid) < occupied_count s (side_slots is_bid))%nat.
Proof.
  intros Hs Hs' Hi Ho Hother Hnil. unfold occupied_count.
  assert (forall j, (j < kBandWidth)%nat -> j <> i -> occupied (sd_bits s') j = occupied (sd_bits s) j) as Hsame.
  { intros j Hj Hne. rewrite (so_occupied _ Hs'), (so_occupied _ Hs), Hother by done. done. }
  assert (forall l : list nat, (forall j, j ∈ l -> (j < kBandWidth)%nat /\ j <> i) ->
    List.filter (occupied (sd_bits s')) l = List.filter (occupied (sd_bits s)) l) as Hext.
  { intros l Hl. apply filter_ext_in. intros j Hj. apply list_elem_of_In, Hl in Hj as [Hj Hne]. by apply Hsame. }
  assert (occupied (sd_bits s') i = false) as Ho'.
  { rewrite (so_occupied _ Hs'), (alive_live _ (proj1 (lk_inv _ (so_levels _ Hs' i Hi)))), Hnil by done. done. }
  rewrite (side_slots_split is_bid i Hi), !List.filter_app, !length_app. cbn [List.filter]. rewrite Ho, Ho'.
  rewrite !Hext; [cbn [length]; lia|..]; intros j Hj; (split; [apply (in_side_slots is_bid); rewrite (side_slots_split is_bid i Hi); set_solver|]);
    by (apply in_slots_after in Hj as [_ ?] || apply in_slots_before in Hj as [_ ?]).
Qed.

Section MatchAgainst.
Context (f : bool -> BookSide) (is_bid : bool).

Lemma flat_match_while fuel : forall s index ctx,
  (occupied_count s (side_slots is_bid) < fuel)%nat -> 0 <= c_quantity ctx ->
  side_ok s -> index_ok (upd f is_bid s) index ->
  exists ts r index' s' running,
    while fuel match_cond (match_body is_bid) (index, s, ctx, true) = (index', s', ctx_after ctx r ts, running) /\
    a_match (c_taker_id ctx) (can_match_level (c_taker_is_buy ctx) (c_is_market ctx) (c_limit ctx))
      (c_quantity ctx) (flat is_bid s) = (ts, r, flat is_bid s') /\
    side_ok s' /\ index_ok (upd f is_bid s') index'.
Proof.
  induction fuel as [|fuel IH]; intros s index ctx Hf Hq Hs Hi; [lia|].
  set (cross := can_match_level (c_taker_is_buy ctx) (c_is_market ctx) (c_limit ctx)).
  cbn [while match_cond]. destruct (0 <? c_quantity ctx) eqn:Eq; cbn [andb].
  2:{ exists [], (c_quantity ctx), index, s, true. rewrite ctx_after_id, a_match_stop by lia. done. }
  pose proof (best_slot_cases s is_bid Hs) as Hbest. destruct (best_slot s is_bid) as [i|] eqn:Eb.
  2:{ exists [], (c_quantity ctx), index, s, false. cbn [match_body]. rewrite Eb, while_false by done.
      by rewrite ctx_after_id, Hbest. }
  destruct Hbest as (Hlt & Hocc & Hflat & _). rewrite Hflat.
  pose proof (to_order_price is_bid i (live (fl_orders (level_at s i)))) as Hprices.
  destruct (cross (price_of i)) eqn:Ec.
  2:{ exists [], (c_quantity ctx), index, s, false. cbn [match_body]. rewrite Eb. fold cross. rewrite Ec. cbn [negb].
      rewrite while_false, ctx_after_id by done. split; [done|]. split; [|done]. rewrite Hflat.
      pose proof (occupied_not_nil s is_bid i Hs Hlt Hocc) as Hne. fold (level_orders is_bid i (level_at s i)) in Hprices.
      destruct (level_orders is_bid i (level_at s i)) as [|o l]; [done|]. apply Forall_cons in Hprices as [Hp _].
      cbn [app]. by rewrite a_match_no_cross by (by rewrite Hp). }
  rewrite (match_body_settle _ _ _ _ _ i) by done.
  pose proof (focus _ _ is_bid i Hi Hlt) as Hfoc. rewrite upd_eq in Hfoc.
  destruct (flat_fill_level _ _ _ _ _ ctx Hq (lk_inv _ (so_levels _ Hs i Hlt)) Hfoc)
    as (ts & r & index1 & level & Hfill & Hm & Hinv & Hc). rewrite Hfill.
  assert (0 < fl_alive (level_at s i)) as Hal by (rewrite (so_occupied _ Hs) in Hocc by done; lia).
  pose proof (settle_spec _ is_bid i level s index1 (upd_eq _ _ _) Hs Hlt Hal Hinv Hc) as Hset.
  destruct (settle i level s index1) as [s' index'] eqn:Es. destruct Hset as (Hs' & Hi' & Hother & Hlive).
  assert (index_ok (upd f is_bid s') index') as Hi2.
  { intros id loc. rewrite (Hi' id loc). unfold upd. by do 2 (f_equiv; intros ?); destruct (Bool.eqb _ _). }
  assert (flat is_bid s' = level_orders is_bid i level ++ flat_of is_bid s (slots_after is_bid i)) as Hflat'.
  { pose proof (best_slot_cases s is_bid Hs) as Hbest. rewrite Eb in Hbest. destruct Hbest as (_ & _ & _ & Hnil).
    rewrite (flat_update is_bid s s' i) by done. rewrite Hnil. unfold level_orders at 1. by rewrite Hlive. }
  rewrite a_match_app by (eapply Forall_impl; [exact Hprices|]; by intros o ->).
  rewrite (a_match_ext _ cross (fun _ => true)) by (eapply Forall_impl; [exact Hprices|]; by intros o ->).
  rewrite Hm. destruct (level_orders is_bid i level) as [|o l] eqn:El.
  - apply level_live_nil in El. rewrite El in Hlive.
    destruct (IH s' index' (ctx_after ctx r ts)) as (ts2 & r2 & index2 & s2 & running & Hw & Hm2 & Hs2 & Hi3); try done.
    { pose proof (occupied_count_less is_bid s s' i Hs Hs' Hlt Hocc Hother Hlive). lia. }
    { eapply consumes_remainder, a_match_consumes; done. }
    rewrite Hw, ctx_after_after. cbn in Hm2. fold cross in Hm2. rewrite Hflat' in Hm2. cbn [app] in Hm2. rewrite Hm2.
    by eexists _, r2, index2, s2, running.
  - assert (r = 0) as ->.
    { eapply (a_match_left _ _ _ _ _ _ _ Hq Hm); [|done]. by apply Forall_true. }
    rewrite while_false by (cbn; lia). eexists ts, 0, index', s', true. split_and!; try done. by rewrite Hflat'.
Qed.
End MatchAgainst.

(** ** ContiguousLaws: the contiguous storage satisfies the storage contract

    The invariant of a whole [ContiguousStore], the refinement of its mutators
    and queries, and the [BookStore] and [BookStoreLaws] instances. *)

#[local] Opaque kBandWidth.

Definition contiguous_abs (c : ContiguousStore) : ABook := mkABook (flat true (bids c)) (flat false (asks c)).

Record contiguous_wf (c : ContiguousStore) : Prop := {
  cw_sides : forall b, side_ok (side_b c b);
  cw_index : index_ok (side_b c) (index c);
  cw_abs : a_wf (contiguous_abs c)
}.

(** Machine-width positions: a level never grows past 2^32 orders while fewer
    than 2^31 - 8 orders rest. *)
Definition contiguous_room (c : ContiguousStore) : Prop := 2 * order_count c + 16 < 2 ^ 32.

Lemma abs_side c b : a_side b (contiguous_abs c) = flat b (side_b c b).
Proof. by destruct b. Qed.

Lemma side_ref_b c side : side_ref c side = side_b c (is_buy side).
Proof. done. Qed.

(** ** Visiting the occupied levels *)

(** [for_each_occupied] is a fold over the occupied slots in priority order. *)
Fixpoint visit {A : Type} (s : BookSide) (fn : nat -> FlatLevel -> A -> A * bool) (l : list nat) (a : A) : A :=
  match l with
  | [] => a
  | i :: l' =>
      if occupied (sd_bits s) i then
        let '(a', go_on) := fn i (level_at s i) a in if go_on then visit s fn l' a' else a'
      else visit s fn l' a
  end.

Lemma visit_skip {A} s (fn : nat -> FlatLevel -> A -> A * bool) l1 l2 a :
  Forall (fun j => occupied (sd_bits s) j = false) l1 -> visit s fn (l1 ++ l2) a = visit s fn l2 a.
Proof. induction 1 as [|i l1 Hi Hl IH]; cbn [app visit]; [done|]. by rewrite Hi. Qed.

Lemma for_each_loop_visit {A} s is_bid (fn : nat -> FlatLevel -> A -> A * bool) : side_ok s ->
  forall fuel l r a, (length l < fuel)%nat ->
  Forall (fun i => (i < kBandWidth)%nat) l ->
  (forall l1 i l2, l = l1 ++ i :: l2 -> slots_after is_bid i = l2) ->
  first_in (occupied (sd_bits s)) l r ->
  for_each_loop s is_bid fn fuel r a = visit s fn l a.
Proof.
  intros Hs. induction fuel as [|fuel IH]; intros l r a Hf Hl Hafter Hr; [lia|]. destruct r as [i|]; cbn [for_each_loop].
  - destruct Hr as (l1 & l2 & -> & Hl1 & Hi). rewrite visit_skip by done. cbn [visit]. rewrite Hi.
    destruct (fn i (level_at s i) a) as [a' go_on]. destruct go_on; cbn [negb]; [|done].
    apply Forall_app in Hl as [_ [Hlt Hl]%Forall_cons]. pose proof (next_worse_spec s is_bid i Hs Hlt) as Hn.
    rewrite (Hafter l1 i l2 eq_refl) in Hn. apply IH; try done.
    + rewrite length_app in Hf. cbn [length] in Hf. lia.
    + intros k1 j k2 ->. apply (Hafter (l1 ++ i :: k1) j k2). by rewrite <- app_assoc.
  - cbn in Hr. rewrite <- (app_nil_r l), visit_skip by done. done.
Qed.

Lemma for_each_visit {A} s is_bid (fn : nat -> FlatLevel -> A -> A * bool) a :
  side_ok s -> for_each_occupied s is_bid fn a = visit s fn (side_slots is_bid) a.
Proof.
  intros Hs. unfold for_each_occupied. apply for_each_loop_visit; [done|..|by apply best_slot_spec].
  - unfold side_slots. destruct is_bid; rewrite ?length_rev, length_seq; lia.
  - apply Forall_forall. intros i. by rewrite in_side_slots.
  - intros l1 i l2 E. assert (i < kBandWidth)%nat by (apply (in_side_slots is_bid); rewrite E; set_solver).
    pose proof (side_slots_NoDup is_bid) as Hn. rewrite E in Hn. symmetry.
    eapply (app_cons_unique i l1 l2 (slots_before is_bid i)); [done|]. rewrite <- E. by apply side_slots_split.
Qed.

(** ** Counting fills without performing them *)

Lemma drain_spec taker is_bid slot l : forall q,
  0 <= q -> Forall (fun o => in_u32 (fo_quantity o)) l ->
  drain l q = (a_match taker (fun _ => true) q (map (to_order is_bid slot) (live l))).1.2.
Proof.
  induction l as [|o l IH]; intros q Hq Hl; [done|]. apply Forall_cons in Hl as [Ho Hl]. unfold in_u32 in Ho.
  cbn [drain]. rewrite live_cons. unfold is_live at 1.
  destruct (0 <? q) eqn:Eq; [|by rewrite a_match_stop by lia].
  case_decide; [|replace (q - Z.min q (fo_quantity o)) with q by lia; by apply IH].
  cbn [map a_match to_order o_quantity o_price]. rewrite Eq. cbn [andb]. destruct (fo_quantity o <=? q) eqn:El.
  - replace (Z.min q (fo_quantity o)) with (fo_quantity o) by lia. rewrite IH by (lia || done).
    by destruct (a_match _ _ _ _) as [[ts r] l'].
  - replace (q - Z.min q (fo_quantity o)) with 0 by lia. rewrite IH by (lia || done). by rewrite a_match_stop.
Qed.

Lemma count_flat_spec taker is_bid slot l : forall n q,
  0 <= q -> Forall (fun o => in_u32 (fo_quantity o)) l ->
  let '(ts, r, _) := a_match taker (fun _ => true) q (map (to_order is_bid slot) (live l)) in
  fold_left count_flat_order l (n, q) = (n + Z.of_nat (length ts), r).
Proof.
  induction l as [|o l IH]; intros n q Hq Hl; [cbn; f_equal; lia|]. apply Forall_cons in Hl as [Ho Hl]. unfold in_u32 in Ho.
  cbn [fold_left count_flat_order]. rewrite live_cons. unfold is_live at 1.
  destruct (0 <? q) eqn:Eq; cbn [andb].
  2:{ specialize (IH n q Hq Hl). rewrite a_match_stop in IH |- * by lia. exact IH. }
  case_decide as Hlive; [|replace (0 <? fo_quantity o) with false by lia; by apply IH].
  replace (0 <? fo_quantity o) with true by lia.
  cbn [map a_match to_order o_quantity o_price]. rewrite Eq. cbn [andb]. destruct (fo_quantity o <=? q) eqn:El.
  - replace (Z.min q (fo_quantity o)) with (fo_quantity o) by lia. specialize (IH (n + 1) (q - fo_quantity o) ltac:(lia) Hl).
    destruct (a_match _ _ _ _) as [[ts r] l']. rewrite IH. cbn [length]. f_equal. lia.
  - replace (q - Z.min q (fo_quantity o)) with 0 by lia. specialize (IH (n + 1) 0 ltac:(lia) Hl).
    rewrite a_match_stop in IH by lia. rewrite IH. cbn [length]. f_equal. lia.
Qed.

(** A visit that consumes quantity level by level computes what matching the
    side would leave and how many trades it would make.  [rel] relates the
    captured state to the count and the quantity. *)
Section VisitMatch.
Context {St : Type} (rel : St -> Z -> Quantity -> Prop).
Context (cross : Price -> bool) (taker : OrderId) (is_bid : bool) (s : BookSide).
Context (stop : St -> bool) (step : FlatLevel -> St -> St) (more : St -> bool).
Hypothesis Hok : side_ok s.
Hypothesis Hstop : forall st n q, rel st n q -> stop st = (q =? 0).
Hypothesis Hmore : forall st n q, rel st n q -> more st = (0 <? q).
Hypothesis Hstep : forall st n q i, (i < kBandWidth)%nat -> 0 <= q -> rel st n q ->
  let '(ts, r, _) := a_match taker (fun _ => true) q (level_orders is_bid i (level_at s i)) in
  rel (step (level_at s i) st) (n + Z.of_nat (length ts)) r.

Lemma visit_match l : forall st n q,
  Forall (fun i => (i < kBandWidth)%nat) l -> 0 <= q -> rel st n q ->
  let '(ts, r, _) := a_match taker cross q (flat_of is_bid s l) in
  rel (visit s (fun slot level st =>
         if stop st || negb (cross (price_of slot)) then (st, false)
         else let st := step level st in (st, more st)) l st) (n + Z.of_nat (length ts)) r.
Proof.
  induction l as [|i l IH]; intros st n q Hl Hq Hrel; [cbn; by rewrite Z.add_0_r|].
  apply Forall_cons in Hl as [Hi Hl]. rewrite flat_of_cons. cbn [visit].
  destruct (occupied (sd_bits s) i) eqn:Eo; [|rewrite unoccupied_nil by done; by apply IH].
  rewrite (Hstop _ _ _ Hrel). destruct (Z.eqb_spec q 0) as [->|Hne]; cbn [orb].
  { rewrite a_match_stop by lia. by rewrite Z.add_0_r. }
  pose proof (to_order_price is_bid i (live (fl_orders (level_at s i)))) as Hp.
  pose proof (occupied_not_nil s is_bid i Hok Hi Eo) as Hnil. fold (level_orders is_bid i (level_at s i)) in Hp.
  destruct (cross (price_of i)) eqn:Ec; cbn [negb].
  2:{ destruct (level_orders is_bid i (level_at s i)) as [|o l0]; [done|]. apply Forall_cons in Hp as [Hp _].
      cbn [app]. rewrite a_match_no_cross by (by rewrite Hp). by rewrite Z.add_0_r. }
  rewrite a_match_app by (eapply Forall_impl; [exact Hp|]; by intros o ->).
  rewrite (a_match_ext _ cross (fun _ => true)) by (eapply Forall_impl; [exact Hp|]; by intros o ->).
  specialize (Hstep st n q i Hi Hq Hrel). destruct (a_match taker (fun _ => true) q _) as [[ts r] l1] eqn:Em.
  assert (0 <= r) as Hr by (eapply consumes_remainder, a_match_consumes; done).
  rewrite (Hmore _ _ _ Hstep). specialize (IH _ _ r Hl Hr Hstep). destruct l1 as [|o l1].
  - destruct (0 <? r) eqn:Er.
    + destruct (a_match taker cross r _) as [[ts2 r2] l2]. by rewrite length_app, Nat2Z.inj_add, Z.add_assoc.
    + by rewrite a_match_stop, app_nil_r by lia.
  - assert (r = 0) as ->; [|done]. eapply (a_match_left _ _ _ _ _ _ _ Hq Em); [|done]. by apply Forall_true.
Qed.
End VisitMatch.

Lemma side_slots_lt is_bid : Forall (fun i => (i < kBandWidth)%nat) (side_slots is_bid).
Proof. apply Forall_forall. intros i. by rewrite in_side_slots. Qed.

Lemma level_quantities s i : side_ok s -> (i < kBandWidth)%nat ->
  Forall (fun o => in_u32 (fo_quantity o)) (drop (Z.to_nat (fl_head (level_at s i))) (fl_orders (level_at s i))) /\
  live (drop (Z.to_nat (fl_head (level_at s i))) (fl_orders (level_at s i))) = live (fl_orders (level_at s i)).
Proof.
  intros Hs Hi. pose proof (proj1 (lk_inv _ (so_levels _ Hs i Hi))) as Hb. split; [|by apply live_after_head].
  apply Forall_drop, Hb.
Qed.

Lemma simulate_remainder_spec c id side limit q :
  contiguous_wf c -> 0 <= q ->
  simulate_remainder c side limit q = (a_take (contiguous_abs c) id side limit false q).1.2.
Proof.
  intros Hwf Hq. unfold simulate_remainder, a_take. set (b := negb (is_buy side)). rewrite abs_side.
  replace (if is_buy side then asks c else bids c) with (side_b c b) by (by unfold b; destruct (is_buy side)).
  pose proof (cw_sides _ Hwf b) as Hs. rewrite for_each_visit by done.
  pose proof (visit_match (fun st (_ : Z) q => st = q) (can_match_level (is_buy side) false limit) id b (side_b c b)
    (fun q => q =? 0) (fun level q => drain (drop (Z.to_nat (fl_head level)) (fl_orders level)) q) (fun q => 0 <? q) Hs)
    as Hv. unfold flat.
  specialize (Hv ltac:(by intros ? ? ? ->) ltac:(by intros ? ? ? ->)).
  assert (forall (st : Z) (n : Z) q i, (i < kBandWidth)%nat -> 0 <= q -> st = q ->
    let '(ts, r, _) := a_match id (fun _ => true) q (level_orders b i (level_at (side_b c b) i)) in
    drain (drop (Z.to_nat (fl_head (level_at (side_b c b) i))) (fl_orders (level_at (side_b c b) i))) st = r) as Hstep.
  { intros st n q0 i Hi Hq0 ->. destruct (level_quantities _ i Hs Hi) as [Hqs Hlive].
    rewrite (drain_spec id b i) by done. rewrite Hlive. unfold level_orders. by destruct (a_match _ _ _ _) as [[? ?] ?]. }
  specialize (Hv Hstep (side_slots b) q 0 q (side_slots_lt b) Hq eq_refl).
  destruct (a_match id (can_match_level _ _ _) q _) as [[ts r] l]. exact Hv.
Qed.

Lemma flat_fill_count c id side limit is_market q :
  contiguous_wf c -> is_valid_side side = true -> 0 <= q ->
  fill_count c side limit is_market q =
    Z.of_nat (length (a_take (contiguous_abs c) id side limit is_market q).1.1).
Proof.
  intros Hwf Hside Hq. unfold fill_count, a_take. set (b := negb (is_buy side)). rewrite abs_side.
  replace (negb _ && negb _) with false by (by destruct side).
  replace (if is_buy side then asks c else bids c) with (side_b c b) by (by unfold b; destruct (is_buy side)).
  pose proof (cw_sides _ Hwf b) as Hs. unfold count_flat_matches. rewrite for_each_visit by done.
  pose proof (visit_match (fun (st : Z * Quantity) n q => st = (n, q)) (can_match_level (is_buy side) is_market limit) id b (side_b c b)
    (fun st => st.2 =? 0) (fun level st => let r := count_flat_level level st.2 in (st.1 + r.1, r.2)) (fun st => 0 <? st.2) Hs)
    as Hv. unfold flat.
  specialize (Hv ltac:(by intros ? ? ? ->) ltac:(by intros ? ? ? ->)).
  assert (forall (st : Z * Quantity) n q i, (i < kBandWidth)%nat -> 0 <= q -> st = (n, q) ->
    let '(ts, r, _) := a_match id (fun _ => true) q (level_orders b i (level_at (side_b c b) i)) in
    (let r := count_flat_level (level_at (side_b c b) i) st.2 in (st.1 + r.1, r.2)) = (n + Z.of_nat (length ts), r)) as Hstep.
  { intros st n q0 i Hi Hq0 ->. destruct (level_quantities _ i Hs Hi) as [Hqs Hlive].
    pose proof (count_flat_spec id b i _ 0 q0 Hq0 Hqs) as Hc. rewrite Hlive in Hc. unfold count_flat_level, level_orders. cbn [snd fst].
    destruct (a_match _ _ _ _) as [[ts r] l]. by rewrite Hc. }
  specialize (Hv Hstep (side_slots b) (0, q) 0 q (side_slots_lt b) Hq eq_refl).
  destruct (a_match id (can_match_level _ _ _) q _) as [[ts r] l]. cbn [fst]. rewrite Z.add_0_l in Hv.
  apply (f_equal fst) in Hv. cbn [fst] in Hv. rewrite <- Hv. clear.
  cbn [q_quantity]. generalize (0, q). induction (side_slots b) as [|i l IH]; intros [n q']; cbn [visit]; [done|].
  destruct (occupied _ i); [|apply IH]. cbn [fst snd]. destruct ((q' =? 0) || _); [done|].
  unfold count_flat_level. destruct (fold_left _ _ _) as [n1 q1]. cbn [fst snd]. destruct (0 <? q1); [apply IH|done].
Qed.

(** ** The index and the resting orders *)

Lemma in_flat is_bid s o :
  o ∈ flat is_bid s <->
  exists i pos fo, (i < kBandWidth)%nat /\ fl_orders (level_at s i) !! pos = Some fo /\ is_live fo /\ o = to_order is_bid i fo.
Proof.
  unfold flat, flat_of. rewrite list_elem_of_In, in_concat. split.
  - intros (l & Hl & Ho). apply list_elem_of_In, list_elem_of_fmap in Hl as (i & -> & Hi). apply in_side_slots in Hi.
    apply list_elem_of_In, list_elem_of_fmap in Ho as (fo & -> & Hfo). apply list_elem_of_filter in Hfo as [Hl Hfo].
    apply list_elem_of_lookup in Hfo as [pos Hfo]. by exists i, pos, fo.
  - intros (i & pos & fo & Hi & Hfo & Hl & ->). exists (level_orders is_bid i (level_at s i)).
    split; apply list_elem_of_In.
    + apply (list_elem_of_fmap_2 (fun i => level_orders is_bid i (level_at s i))). by apply in_side_slots.
    + apply (list_elem_of_fmap_2 (to_order is_bid i)), list_elem_of_filter. split; [done|by eapply list_elem_of_lookup_2].
Qed.

Lemma in_flat_of is_bid s l o : o ∈ flat_of is_bid s l -> exists j, j ∈ l /\ o_price o = price_of j.
Proof.
  unfold flat_of. rewrite list_elem_of_In, in_concat. intros (k & Hk & Ho).
  apply list_elem_of_In, list_elem_of_fmap in Hk as (i & -> & Hi). exists i. split; [done|].
  by apply list_elem_of_In, list_elem_of_fmap in Ho as (fo & -> & _).
Qed.

Lemma index_ids c id : contiguous_wf c -> is_Some (index c !! id) <-> id ∈ a_ids (contiguous_abs c).
Proof.
  intros Hwf. unfold a_ids, a_orders. cbn [contiguous_abs a_bids a_asks]. rewrite list_elem_of_fmap. split.
  - intros [loc Hl]. apply (cw_index _ Hwf) in Hl as (b & i & Hi & pos & fo & Hfo & Hl & <- & _).
    exists (to_order b i fo). split; [done|]. apply elem_of_app.
    assert (to_order b i fo ∈ flat b (side_b c b)) by (apply in_flat; by exists i, pos, fo). destruct b; [by left|by right].
  - intros (o & -> & Ho). assert (exists b, o ∈ flat b (side_b c b)) as (b & Hb).
    { apply elem_of_app in Ho as [Ho|Ho]; [by exists true|by exists false]. }
    apply in_flat in Hb as (i & pos & fo & Hi & Hfo & Hl & ->). exists (locator b i pos).
    apply (cw_index _ Hwf). exists b, i. split; [done|]. by exists pos, fo.
Qed.

Lemma flat_contains c id : contiguous_wf c -> contains c id = a_contains (contiguous_abs c) id.
Proof. intros Hwf. apply bool_decide_ext. by apply index_ids. Qed.

Lemma index_none c id : contiguous_wf c -> id ∉ a_ids (contiguous_abs c) -> index c !! id = None.
Proof. intros Hwf Hn. apply eq_None_not_Some. by rewrite index_ids. Qed.

Lemma flat_order_count c :
  contiguous_wf c -> order_count c = Z.of_nat (length (a_orders (contiguous_abs c))).
Proof.
  intros Hwf. unfold order_count. f_equal. rewrite <- size_dom.
  assert (dom (index c) = list_to_set (a_ids (contiguous_abs c)) :> gset Z) as ->.
  { apply set_eq. intros id. by rewrite elem_of_dom, elem_of_list_to_set, index_ids. }
  rewrite size_list_to_set by apply (cw_abs _ Hwf). unfold a_ids. by rewrite List.length_map.
Qed.

(** With room, no level has 2^32 positions even after one more order. *)
Lemma room_level c b i :
  contiguous_wf c -> contiguous_room c -> (i < kBandWidth)%nat ->
  Z.of_nat (length (fl_orders (level_at (side_b c b) i))) + 1 < 2 ^ 32.
Proof.
  intros Hwf Hroom Hi. unfold contiguous_room in Hroom. rewrite flat_order_count in Hroom by done.
  destruct (so_levels _ (cw_sides _ Hwf b) i Hi) as [[Hb _] _ Hbd]. pose proof (lb_alive _ Hb) as Ha.
  assert (length (live (fl_orders (level_at (side_b c b) i))) <= length (a_orders (contiguous_abs c)))%nat as Hle; [|lia].
  transitivity (length (flat b (side_b c b))).
  - rewrite (flat_split _ _ i Hi), !length_app. unfold level_orders. rewrite List.length_map. lia.
  - unfold a_orders. rewrite length_app. destruct b; cbn; lia.
Qed.

(** ** Replacing one side *)

Lemma set_side_wf c b s index' :
  contiguous_wf c -> side_ok s -> index_ok (upd (side_b c) b s) index' ->
  let c' := set_side (side_of b) s (set_index index' c) in
  a_wf (contiguous_abs c') ->
  contiguous_wf c' /\ contiguous_abs c' = a_set_side b (flat b s) (contiguous_abs c).
Proof.
  intros Hwf Hs Hi c' Ha. split; [|by destruct b]. split; [| |done].
  - intros b'. pose proof (cw_sides _ Hwf b') as Hb'. unfold c'. by destruct b, b'.
  - intros id loc. unfold c'. replace (index (set_side _ _ _)) with index' by (by destruct b). rewrite (Hi id loc).
    do 2 (f_equiv; intros ?). unfold upd. by destruct b, a.
Qed.

Lemma set_side_abs c b s index' :
  contiguous_abs (set_side (side_of b) s (set_index index' c)) = a_set_side b (flat b s) (contiguous_abs c).
Proof. by destruct b. Qed.

Lemma side_of_buy side : is_valid_side side = true -> side_of (is_buy side) = side.
Proof. by destruct side. Qed.

(** ** Matching *)

Lemma flat_match_opposite c side ctx :
  contiguous_wf c -> 0 <= c_quantity ctx -> c_taker_is_buy ctx = is_buy side ->
  exists ts r c', match_opposite side c ctx = (c', ctx_after ctx r ts) /\
    a_take (contiguous_abs c) (c_taker_id ctx) side (c_limit ctx) (c_is_market ctx) (c_quantity ctx) =
      (ts, r, contiguous_abs c') /\
    contiguous_wf c'.
Proof.
  intros Hwf Hq Hbuy. set (b := negb (is_buy side)).
  destruct (flat_match_while (side_b c) b (S kBandWidth) (side_b c b) (index c) ctx)
    as (ts & r & index' & s' & running & Hw & Hm & Hs & Hi); [|done|apply (cw_sides _ Hwf)| |].
  { unfold occupied_count. pose proof (List.filter_length_le (occupied (sd_bits (side_b c b))) (side_slots b)) as Hle.
    enough (length (side_slots b) = kBandWidth) by lia. unfold side_slots. by destruct b; rewrite ?length_rev, length_seq. }
  { intros id loc. rewrite (cw_index _ Hwf id loc). do 2 (f_equiv; intros ?). unfold upd.
    destruct (Bool.eqb a b) eqn:E; [|done]. by apply Bool.eqb_prop in E as ->. }
  assert (match_opposite side c ctx = (set_side (side_of b) s' (set_index index' c), ctx_after ctx r ts)) as Heq.
  { unfold match_opposite, match_against. unfold b in *. destruct (is_buy side); cbn [negb side_b] in *; by rewrite Hw. }
  assert (a_take (contiguous_abs c) (c_taker_id ctx) side (c_limit ctx) (c_is_market ctx) (c_quantity ctx) =
    (ts, r, contiguous_abs (set_side (side_of b) s' (set_index index' c)))) as Ht.
  { unfold a_take. fold b. rewrite abs_side, <- Hbuy, Hm. by rewrite set_side_abs. }
  exists ts, r, (set_side (side_of b) s' (set_index index' c)). split_and!; try done.
  apply set_side_wf; try done. eapply a_take_wf; [apply (cw_abs _ Hwf)|exact Hq|exact Ht].
Qed.

Lemma flat_match_incoming c id side limit is_market q :
  contiguous_wf c -> in_u32 q -> a_contains (contiguous_abs c) id = false ->
  exists ts r c',
    match_incoming id side limit is_market q (fun c => contains c id) match_opposite c =
      (mkMatchResult ts r true, c') /\
    a_take (contiguous_abs c) id side limit is_market q = (ts, r, contiguous_abs c') /\
    contiguous_wf c' /\ 0 <= r <= q.
Proof.
  intros Hwf Hq Hc. unfold match_incoming. rewrite flat_contains, Hc by done.
  assert (0 <= q) as Hq' by (unfold in_u32 in *; lia).
  destruct (flat_match_opposite c side (mkMatchContext id (is_buy side) limit is_market q []))
    as (ts & r & c' & Hm & Ht & Hwf'); [done..|].
  pose proof (a_take_le _ _ _ _ _ _ _ _ _ (cw_abs _ Hwf) Hq' Ht). rewrite Hm. by exists ts, r, c'.
Qed.

(** ** Resting *)

Definition pushed (id : OrderId) (q : Quantity) (level : FlatLevel) : FlatLevel :=
  mkFlatLevel (fl_orders level ++ [mkFlatOrder id q]) (fl_head level) (u32 (fl_alive level + 1)).

Lemma pushed_live id q level :
  0 < q -> live (fl_orders (pushed id q level)) = live (fl_orders level) ++ [mkFlatOrder id q].
Proof. intros Hq. unfold pushed. cbn [fl_orders]. by rewrite live_app, live_cons, decide_True. Qed.

Lemma pushed_alive id q level :
  level_ok level -> Z.of_nat (length (fl_orders level)) + 1 < 2 ^ 32 -> fl_alive (pushed id q level) = fl_alive level + 1.
Proof.
  intros [[Hb _] _ _] Hw. pose proof (live_length_le (fl_orders level)). apply u32_small.
  rewrite (lb_alive _ Hb). unfold in_u32. lia.
Qed.

Lemma pushed_ok id q level :
  level_ok level -> Z.of_nat (length (fl_orders level)) + 1 < 2 ^ 32 -> in_u32 q -> 0 < q ->
  level_ok (pushed id q level).
Proof.
  intros Hok Hw Hq Hp. pose proof (pushed_live id q level Hp) as Hlive. pose proof (pushed_alive id q level Hok Hw) as Ha.
  destruct Hok as [[Hb Hf] He Hbd]. pose proof (lb_head _ Hb) as Hh.
  split; [split; [split|]|..]; rewrite ?Hlive, ?Ha; unfold pushed; cbn [fl_orders fl_head fl_alive]; rewrite ?length_app; cbn [length].
  - lia.
  - apply Forall_app. split; [apply Hb|by apply Forall_singleton].
  - lia.
  - rewrite take_app_le by lia. apply Hb.
  - rewrite (lb_alive _ Hb). lia.
  - intros _. cbn [fl_orders fl_head]. destruct (decide (live (fl_orders level) = [])) as [E|E].
    + rewrite (He E). by exists (mkFlatOrder id q).
    + destruct (Hf E) as (o & Ho & Hl). exists o. by rewrite lookup_app_l by (by eapply lookup_lt_Some).
  - intros E. by destruct (live (fl_orders level)).
  - lia.
Qed.

Lemma slot_in_band price : in_band price = true -> (slot_of price < kBandWidth)%nat /\ price_of (slot_of price) = price.
Proof.
  unfold in_band, slot_of, price_of, kMinPrice, kMaxPrice, kContiguousMinPrice, kContiguousMaxPrice.
  pose proof band_width. lia.
Qed.

Lemma rest_side s slot id q :
  side_ok s -> (slot < kBandWidth)%nat -> level_ok (pushed id q (level_at s slot)) ->
  fl_alive (pushed id q (level_at s slot)) = fl_alive (level_at s slot) + 1 ->
  let s' := set_level slot (pushed id q (level_at s slot))
    (if fl_alive (level_at s slot) =? 0 then mkBookSide (sd_levels s) (set_bit (sd_bits s) slot) else s) in
  side_ok s' /\ level_at s' slot = pushed id q (level_at s slot) /\ forall j, j <> slot -> level_at s' j = level_at s j.
Proof.
  intros Hs Hslot Hok Ha. pose proof (lb_alive _ (proj1 (lk_inv _ (so_levels _ Hs slot Hslot)))) as Hal.
  unfold set_level. destruct (Z.eqb_spec (fl_alive (level_at s slot)) 0) as [E|E]; cbn [sd_levels sd_bits]; cbv zeta;
    (apply side_ok_update; try done; [first [apply set_bit_ok, Hs|apply Hs]|]); intros j Hj; rewrite Ha.
  - rewrite occupied_set by (done || apply Hs). destruct (j =? slot)%nat; [|done]. cbn [orb]. lia.
  - destruct (Nat.eqb_spec j slot) as [->|]; [|done]. rewrite (so_occupied _ Hs) by done. lia.
Qed.

(** Appending to a level inserts behind the orders of no worse price. *)
Lemma flat_insert b s s' slot o :
  (slot < kBandWidth)%nat -> o_price o = price_of slot -> (forall j, j <> slot -> level_at s' j = level_at s j) ->
  level_orders b slot (level_at s' slot) = level_orders b slot (level_at s slot) ++ [o] ->
  flat b s' = a_insert b o (flat b s).
Proof.
  intros Hslot Hp Hother Hl. rewrite (flat_update b _ s' slot Hslot Hother), (flat_split b _ slot Hslot), Hl.
  rewrite <- app_assoc, app_assoc, (app_assoc _ (level_orders _ _ _)), a_insert_level.
  - f_equal. cbn [app]. destruct (flat_of b s (slots_after b slot)) as [|x l] eqn:El; [done|]. cbn [a_insert].
    assert (x ∈ flat_of b s (slots_after b slot)) as Hin by (rewrite El; apply elem_of_cons; by left).
    apply in_flat_of in Hin as (j & Hj & Hx). apply in_slots_after in Hj as [Hj _]; [|done]. by rewrite Hp, Hx, Hj.
  - apply Forall_app. split; apply Forall_forall; intros x Hx; rewrite Hp.
    + apply in_flat_of in Hx as (j & Hj & ->). by apply in_slots_before in Hj as [Hj _].
    + apply list_elem_of_fmap in Hx as (fo & -> & _). cbn [to_order o_price]. unfold better. destruct b; lia.
Qed.

Lemma flat_rest c id side price q :
  contiguous_wf c -> contiguous_room c -> is_valid_side side = true -> in_band price = true ->
  in_u32 q -> 0 < q -> id ∉ a_ids (contiguous_abs c) ->
  a_wf (a_rest (mkOrder id side price q) (contiguous_abs c)) ->
  let c' := (rest id side price q c).2 in
  contiguous_wf c' /\ contiguous_abs c' = a_rest (mkOrder id side price q) (contiguous_abs c).
Proof.
  intros Hwf Hroom Hside Hband Hq Hp Hid Ha. destruct (slot_in_band _ Hband) as [Hslot Hprice].
  set (b := is_buy side). set (slot := slot_of price) in *. pose proof (cw_sides _ Hwf b) as Hs.
  set (level := level_at (side_b c b) slot). pose proof (room_level c b slot Hwf Hroom Hslot) as Hw. fold level in Hw.
  pose proof (pushed_ok id q level (so_levels _ Hs slot Hslot) Hw Hq Hp) as Hok.
  pose proof (pushed_alive id q level (so_levels _ Hs slot Hslot) Hw) as Hal.
  destruct (rest_side (side_b c b) slot id q Hs Hslot Hok Hal) as (Hs' & Hat & Hother). set (s' := set_level _ _ _) in *.
  set (index' := <[id := locator b slot (length (fl_orders level))]> (index c)).
  assert ((rest id side price q c).2 = set_side (side_of b) s' (set_index index' c)) as Heq.
  { unfold rest. rewrite Hband. cbn [negb snd]. rewrite side_ref_b. fold b slot level.
    rewrite (u32_small (Z.of_nat (length (fl_orders level)))) by (unfold in_u32; lia). unfold s', index', locator, pushed. fold level.
    rewrite Hprice. unfold b. by rewrite side_of_buy. }
  assert (a_set_side b (flat b s') (contiguous_abs c) = a_rest (mkOrder id side price q) (contiguous_abs c)) as Habs.
  { unfold a_rest. cbn [o_side]. fold b. rewrite abs_side. f_equal. apply flat_insert with slot; try done.
    rewrite Hat. unfold level_orders. fold level. rewrite pushed_live, map_app by done. f_equal. cbn [map]. unfold to_order.
    cbn [fo_id fo_quantity]. rewrite Hprice. unfold b. by rewrite side_of_buy. }
  cbv zeta. rewrite Heq, <- Habs. apply set_side_wf; [done|done| |by rewrite set_side_abs, Habs].
  pose proof (focus _ _ b slot (cw_index _ Hwf) Hslot) as Hfoc. apply (covers_push _ _ _ _ (pushed id q level) _ id q) in Hfoc;
    [|by apply index_none|done|done].
  eapply unfocus; [exact Hfoc|done|by rewrite upd_eq|by apply upd_level].
Qed.

(** ** New orders refine the specification *)

Lemma flat_add_limit c id side price q tif :
  contiguous_wf c -> contiguous_room c -> is_valid_side side = true -> in_u32 q ->
  can_store_limit c side price q tif = true ->
  let r := add_limit c (mkLimitInput id side price q tif) in
  contiguous_wf r.2 /\ (r.1, contiguous_abs r.2) = a_add_limit (contiguous_abs c) id side price q tif.
Proof.
  intros Hwf Hroom Hside Hq Hstore. unfold add_limit, a_add_limit. cbn [in_id in_side in_price in_quantity in_tif].
  rewrite Hstore. cbn [negb]. destruct (a_contains (contiguous_abs c) id) eqn:Hc.
  { unfold match_incoming. by rewrite flat_contains, Hc. }
  destruct (flat_match_incoming c id side price false q Hwf Hq Hc) as (ts & r & c' & Hm & Ht & Hwf' & Hr).
  rewrite Hm, Ht. unfold should_rest_limit. cbn [r_accepted r_remainder r_trades negb].
  pose proof (a_add_limit_wf (contiguous_abs c) id side price q tif (cw_abs _ Hwf) Hq) as Hawf.
  unfold a_add_limit in Hawf. rewrite Hc, Ht in Hawf.
  destruct (r =? 0) eqn:Er; [by replace (0 <? r) with false by lia|].
  replace (0 <? r) with true in * by lia. cbn [andb] in *. case_bool_decide as Htif; [|done]. cbn [snd fst] in *.
  assert (in_band price = true) as Hband.
  { unfold can_store_limit in Hstore. rewrite bool_decide_false in Hstore by (by rewrite Htif). cbn [orb] in Hstore.
    destruct (in_band price); [done|]. rewrite (simulate_remainder_spec c id) in Hstore by (done || (unfold in_u32 in Hq; lia)).
    rewrite Ht in Hstore. cbn in Hstore. lia. }
  assert (forall i, i ∈ a_ids (contiguous_abs c') -> i ∈ a_ids (contiguous_abs c)) as Hsub.
  { eapply a_take_ids; [|exact Ht]. unfold in_u32 in Hq; lia. }
  assert (id ∉ a_ids (contiguous_abs c')) as Hid by (apply a_contains_false in Hc; auto).
  assert (contiguous_room c') as Hroom'.
  { unfold contiguous_room in *. rewrite flat_order_count in * by done.
    assert (length (a_ids (contiguous_abs c')) <= length (a_ids (contiguous_abs c)))%nat as Hle.
    { apply submseteq_length, NoDup_submseteq; [apply Hwf'|done]. }
    unfold a_ids in Hle. rewrite !List.length_map in Hle. lia. }
  destruct (flat_rest c' id side price r) as [? ->]; try done; unfold in_u32 in *; lia.
Qed.

Lemma flat_add_market c id side q :
  contiguous_wf c -> in_u32 q ->
  let r := add_market c id side q in
  contiguous_wf r.2 /\ (r.1, contiguous_abs r.2) = a_add_market (contiguous_abs c) id side q.
Proof.
  intros Hwf Hq. unfold add_market, a_add_market. destruct (a_contains (contiguous_abs c) id) eqn:Hc.
  { unfold match_incoming. by rewrite flat_contains, Hc. }
  destruct (flat_match_incoming c id side 0 true q Hwf Hq Hc) as (ts & r & c' & Hm & Ht & Hwf' & Hr). by rewrite Hm, Ht.
Qed.

(** ** Removing an order *)

(** A live order at position [pos] of slot [i]. *)
Record held (c : ContiguousStore) (b : bool) (i pos : nat) (fo : FlatOrder) : Prop := {
  hd_slot : (i < kBandWidth)%nat;
  hd_at : fl_orders (level_at (side_b c b) i) !! pos = Some fo;
  hd_live : is_live fo
}.

Lemma index_held c id loc :
  contiguous_wf c -> index c !! id = Some loc ->
  exists b i pos fo, held c b i pos fo /\ fo_id fo = id /\ loc = locator b i pos.
Proof.
  intros Hwf Hl. apply (cw_index _ Hwf) in Hl as (b & i & Hi & pos & fo & Hfo & Hl & Hid & Hloc).
  by exists b, i, pos, fo.
Qed.

(** The level after the removal: its head is live again. *)
Definition removed_level (pos : nat) (fo : FlatOrder) (level : FlatLevel) : FlatLevel :=
  let l := killed pos fo level in
  if fl_alive l =? 0 then l else if Z.of_nat pos =? fl_head l then advance_head l else l.

Lemma removed_level_spec pos fo level :
  level_inv level -> fl_orders level !! pos = Some fo -> is_live fo ->
  level_inv (removed_level pos fo level) /\
  fl_orders (removed_level pos fo level) = fl_orders (killed pos fo level) /\
  fl_alive (removed_level pos fo level) = fl_alive (killed pos fo level).
Proof.
  intros [Hb Hf] Ho Hl. pose proof (killed_base _ _ _ Hb Ho Hl) as Hk. unfold removed_level.
  destruct (Z.eqb_spec (fl_alive (killed pos fo level)) 0) as [E|E].
  { split; [|done]. split; [done|]. intros Hne. rewrite (lb_alive _ Hk) in E. by destruct (live _). }
  destruct (Z.eqb_spec (Z.of_nat pos) (fl_head (killed pos fo level))) as [Eh|Eh]; [by apply advance_head_spec|].
  split; [|done]. split; [done|]. intros _. destruct Hf as (o1 & Ho1 & Hl1).
  { rewrite (live_split _ _ _ Ho), (live_cons fo []), decide_True by done. by destruct (live (take _ _)). }
  exists o1. unfold killed in *. cbn [fl_orders fl_head] in *. pose proof (lb_head _ Hb). rewrite list_lookup_insert_ne; [done|lia].
Qed.

Lemma remove_resting_settle c c1 b i pos fo :
  held c b i pos fo -> level_inv (level_at (side_b c b) i) -> side_b c1 b = side_b c b ->
  remove_resting (locator b i pos) c1 =
    let '(s', index') := settle i (removed_level pos fo (level_at (side_b c b) i)) (side_b c b) (index c1) in
    set_side (side_of b) s' (set_index index' c1).
Proof.
  intros [Hi Ho Hl] Hinv Hs. unfold remove_resting, settle. cbn [cl_side cl_price cl_pos locator]. rewrite side_ref_b.
  replace (is_buy (side_of b)) with b by (by destruct b). rewrite Hs.
  replace (slot_of (price_of i)) with i by (unfold slot_of, price_of; lia). rewrite Nat2Z.id. unfold assign_quantity. rewrite Ho.
  destruct (removed_level_spec pos fo _ Hinv Ho Hl) as (_ & _ & Ha). rewrite Ha. unfold removed_level.
  cbn [fl_orders fl_head fl_alive]. fold (killed pos fo (level_at (side_b c b) i)).
  set (k := killed pos fo (level_at (side_b c b) i)) in *.
  change (u32 (fl_alive (level_at (side_b c b) i) - 1)) with (fl_alive k).
  change (fl_head (level_at (side_b c b) i)) with (fl_head k).
  destruct (fl_alive k =? 0) eqn:E.
  - unfold clear_level, set_level. cbn [sd_levels sd_bits]. rewrite !list_insert_insert_eq. by destruct c1, b.
  - by destruct (maybe_compact _ _).
Qed.

Lemma flat_remove_resting c b i pos fo :
  contiguous_wf c -> held c b i pos fo ->
  let c' := remove_resting (locator b i pos) (set_index (delete (fo_id fo) (index c)) c) in
  contiguous_wf c' /\ contiguous_abs c' = a_remove (fo_id fo) (contiguous_abs c).
Proof.
  intros Hwf Hh. pose proof Hh as [Hi Ho Hl]. pose proof (cw_sides _ Hwf b) as Hs.
  pose proof (lk_inv _ (so_levels _ Hs i Hi)) as Hinv. cbv zeta.
  rewrite (remove_resting_settle c _ b i pos fo Hh Hinv) by (by destruct b).
  set (level := level_at (side_b c b) i) in *. cbn [index set_index].
  destruct (removed_level_spec pos fo level Hinv Ho Hl) as (Hinv' & Hor & Hal).
  pose proof (focus _ _ b i (cw_index _ Hwf) Hi) as Hfoc. fold level in Hfoc.
  apply (covers_kill _ _ _ _ (removed_level pos fo level) _ pos fo) in Hfoc; [|done|done|by rewrite Hor].
  assert (0 < fl_alive level) as Ha.
  { rewrite (lb_alive _ (proj1 Hinv)). rewrite (live_split _ _ _ Ho), (live_cons fo []), decide_True, !length_app by done. cbn [length]. lia. }
  pose proof (settle_spec (side_b c) b i (removed_level pos fo level) (side_b c b) (delete (fo_id fo) (index c)) eq_refl Hs Hi Ha Hinv' Hfoc) as Hset.
  destruct (settle _ _ _ _) as [s' index']. destruct Hset as (Hs' & Hi' & Hother & Hlive).
  replace (set_index index' (set_index _ c)) with (set_index index' c) by done.
  destruct (killed_orders b i level pos fo Ho Hl) as (l1 & l2 & E1 & E2).
  assert (level_orders b i (level_at s' i) = l1 ++ l2) as E3 by (unfold level_orders; rewrite Hlive, Hor; exact E2).
  assert (a_set_side b (flat b s') (contiguous_abs c) = a_remove (fo_id fo) (contiguous_abs c)) as Habs.
  { change (fo_id fo) with (o_id (to_order b i fo)). symmetry. rewrite (flat_update b _ s' i Hi Hother), E3, <- app_assoc, app_assoc.
    apply a_remove_split; [apply (cw_abs _ Hwf)|]. rewrite abs_side, (flat_split b _ i Hi). fold level. by rewrite E1, <- !app_assoc. }
  rewrite <- Habs. apply set_side_wf; try done. rewrite set_side_abs, Habs. apply a_remove_wf, Hwf.
Qed.

Lemma flat_cancel c id :
  contiguous_wf c ->
  let r := cancel c id in contiguous_wf r.2 /\ (r.1, contiguous_abs r.2) = a_cancel (contiguous_abs c) id.
Proof.
  intros Hwf. unfold cancel, cancel_indexed_order, a_cancel. rewrite <- flat_contains by done. unfold contains.
  destruct (index c !! id) as [loc|] eqn:E; [|by rewrite bool_decide_false by (by intros [? ?])].
  rewrite bool_decide_true by done. destruct (index_held _ _ _ Hwf E) as (b & i & pos & fo & Hh & <- & ->).
  destruct (flat_remove_resting c b i pos fo Hwf Hh) as [? Ha]. cbn [fst snd]. by rewrite Ha.
Qed.

(** ** Modifying an order *)

Lemma held_split c b i pos fo :
  held c b i pos fo -> exists l1 l2, a_side b (contiguous_abs c) = l1 ++ to_order b i fo :: l2.
Proof.
  intros [Hi Ho Hl]. destruct (killed_orders b i _ pos fo Ho Hl) as (l1 & l2 & E & _).
  exists (flat_of b (side_b c b) (slots_before b i) ++ l1), (l2 ++ flat_of b (side_b c b) (slots_after b i)).
  rewrite abs_side, (flat_split b _ i Hi), E. by rewrite <- !app_assoc.
Qed.

Lemma held_find c b i pos fo :
  contiguous_wf c -> held c b i pos fo -> a_find (contiguous_abs c) (fo_id fo) = Some (to_order b i fo).
Proof.
  intros Hwf Hh. apply a_find_Some; [apply (cw_abs _ Hwf)|]. split; [|done].
  destruct (held_split _ _ _ _ _ Hh) as (l1 & l2 & E). unfold a_orders. apply elem_of_app.
  assert (to_order b i fo ∈ l1 ++ to_order b i fo :: l2) as Hin by (apply elem_of_app; right; apply list_elem_of_here).
  rewrite <- E in Hin. destruct b; [by left|by right].
Qed.

Lemma held_reduces c b i pos fo new_price new_quantity :
  held c b i pos fo ->
  reduces_in_place c (locator b i pos) new_price new_quantity =
    (new_price =? price_of i) && (new_quantity <=? fo_quantity fo).
Proof.
  intros [Hi Ho Hl]. unfold reduces_in_place. cbn [cl_side cl_price cl_pos locator]. rewrite side_ref_b.
  replace (is_buy (side_of b)) with b by (by destruct b).
  replace (slot_of (price_of i)) with i by (unfold slot_of, price_of; lia). rewrite Nat2Z.id. unfold quantity_of. by rewrite Ho.
Qed.

Lemma flat_assign c b i pos fo q :
  contiguous_wf c -> held c b i pos fo -> in_u32 q -> 0 < q ->
  let c' := set_side (side_of b) (set_level i (assign_quantity pos q (level_at (side_b c b) i)) (side_b c b)) c in
  contiguous_wf c' /\ contiguous_abs c' = a_assign (fo_id fo) q (contiguous_abs c).
Proof.
  intros Hwf [Hi Ho Hl] Hq Hp. pose proof (cw_sides _ Hwf b) as Hs. pose proof (so_levels _ Hs i Hi) as Hok.
  unfold assign_quantity. rewrite Ho. set (level := level_at (side_b c b) i) in *. fold (assigned pos fo q level).
  assert (live (fl_orders level) <> []) as Hne.
  { rewrite (live_split _ _ _ Ho), (live_cons fo []), decide_True by done. by destruct (live (take _ _)). }
  assert (0 < fl_alive level) as Ha.
  { rewrite (lb_alive _ (proj1 (lk_inv _ Hok))). by destruct (live (fl_orders level)). }
  destruct (assigned_orders b i level pos fo q Ho Hl Hp) as (l1 & l2 & E1 & E2).
  assert (level_ok (assigned pos fo q level)) as Hok'.
  { split; [by apply assigned_inv; [apply Hok|..]| |].
    - intros E. apply (level_live_nil b i) in E. rewrite E2 in E. by destruct l1.
    - unfold assigned. cbn [fl_orders fl_alive]. rewrite length_insert. apply Hok. }
  destruct (set_level_ok (side_b c b) i (assigned pos fo q level) Hs Hi Ha Hok' Ha) as (Hs' & Hat & Hother).
  set (s' := set_level i (assigned pos fo q level) (side_b c b)) in *.
  assert (a_set_side b (flat b s') (contiguous_abs c) = a_assign (fo_id fo) q (contiguous_abs c)) as Habs.
  { change (fo_id fo) with (o_id (to_order b i fo)). symmetry. rewrite (flat_update b _ s' i Hi Hother), Hat, E2, <- app_assoc, app_assoc.
    apply a_assign_split; [apply (cw_abs _ Hwf)|]. rewrite abs_side, (flat_split b _ i Hi). fold level. by rewrite E1, <- !app_assoc. }
  cbv zeta. replace (set_side (side_of b) s' c) with (set_side (side_of b) s' (set_index (index c) c)) by (by destruct c, b).
  rewrite <- Habs. apply set_side_wf; try done.
  - pose proof (focus _ _ b i (cw_index _ Hwf) Hi) as Hfoc. fold level in Hfoc.
    apply (covers_assign _ _ _ _ (assigned pos fo q level) _ pos fo q) in Hfoc; try done.
    eapply unfocus; [exact Hfoc|done|by rewrite upd_eq|by apply upd_level].
  - rewrite set_side_abs, Habs. apply a_assign_wf; [apply Hwf|done..].
Qed.

(** Removing an order leaves what its own side would match against. *)
Lemma take_after_remove c b i pos fo price q :
  contiguous_wf c -> held c b i pos fo ->
  (a_take (a_remove (fo_id fo) (contiguous_abs c)) (fo_id fo) (side_of b) price false q).1.2 =
  (a_take (contiguous_abs c) (fo_id fo) (side_of b) price false q).1.2.
Proof.
  intros Hwf Hh. destruct (held_split _ _ _ _ _ Hh) as (l1 & l2 & E).
  change (fo_id fo) with (o_id (to_order b i fo)) at 1. rewrite (a_remove_split _ _ _ _ _ (aw_ids _ (cw_abs _ Hwf)) E).
  unfold a_take. by destruct b; cbn; destruct (a_match _ _ _ _) as [[? ?] ?].
Qed.

Lemma room_remove c c' id :
  contiguous_wf c -> contiguous_wf c' -> contiguous_abs c' = a_remove id (contiguous_abs c) ->
  contiguous_room c -> contiguous_room c'.
Proof.
  intros Hwf Hwf' Ha. unfold contiguous_room. rewrite !flat_order_count, Ha by done. unfold a_orders, a_remove. cbn [a_bids a_asks].
  rewrite !length_app. pose proof (length_filter (fun o => o_id o <> id) (a_bids (contiguous_abs c))).
  pose proof (length_filter (fun o => o_id o <> id) (a_asks (contiguous_abs c))). lia.
Qed.

Lemma flat_modify c id new_price new_quantity :
  contiguous_wf c -> contiguous_room c -> in_u32 new_quantity ->
  can_apply_modify c id new_price new_quantity = true ->
  let r := modify c id new_price new_quantity in
  contiguous_wf r.2 /\ (r.1, contiguous_abs r.2) = a_modify (contiguous_abs c) id new_price new_quantity.
Proof.
  intros Hwf Hroom Hq Hadm. unfold modify, a_modify. pose proof (flat_cancel c id Hwf) as [Hwc Hc].
  unfold a_cancel in Hc. rewrite <- flat_contains in Hc by done. unfold contains in Hc. rewrite Hadm. cbn [negb].
  destruct (index c !! id) as [loc|] eqn:E.
  2:{ assert (a_find (contiguous_abs c) id = None) as ->; [|done]. apply a_find_None.
      rewrite <- flat_contains by done. unfold contains. by rewrite E. }
  rewrite bool_decide_true in Hc by done. apply (f_equal snd) in Hc. cbn [snd] in Hc.
  unfold can_apply_modify in Hadm. rewrite E in Hadm.
  destruct (index_held _ _ _ Hwf E) as (b & i & pos & fo & Hh & <- & ->).
  rewrite (held_find _ _ _ _ _ Hwf Hh). rewrite (held_reduces _ _ _ _ _ _ _ Hh) in Hadm |- *. cbn [to_order o_price o_quantity o_side].
  destruct (Z.eqb_spec new_quantity 0) as [Hz|Hz]; [cbn [fst snd]; by rewrite Hc|].
  destruct ((new_price =? price_of i) && (new_quantity <=? fo_quantity fo)) eqn:Er.
  { destruct (flat_assign c b i pos fo new_quantity Hwf Hh Hq) as [? Ha]; [unfold in_u32 in Hq; lia|].
    cbn [locator cl_side cl_price cl_pos]. rewrite side_ref_b, Nat2Z.id. replace (is_buy (side_of b)) with b by (by destruct b).
    replace (slot_of (price_of i)) with i by (unfold slot_of, price_of; lia). cbn [fst snd]. by rewrite Ha. }
  cbn [locator cl_side] in Hadm |- *. rewrite <- Hc. apply flat_add_limit; [done|exact (room_remove c _ (fo_id fo) Hwf Hwc Hc Hroom)|by destruct b|done|].
  unfold can_store_limit. destruct (in_band new_price); [by rewrite orb_true_r|]. cbn [bool_decide orb].
  assert (0 <= new_quantity) by (unfold in_u32 in Hq; lia).
  rewrite (simulate_remainder_spec _ (fo_id fo)), Hc, take_after_remove with (i := i) (pos := pos) by done.
  by rewrite (simulate_remainder_spec _ (fo_id fo)) in Hadm by done.
Qed.

(** ** Queries refine the specification *)

Lemma flat_best b s : side_ok s -> price_of <$> best_slot s b = a_best (flat b s).
Proof.
  intros Hs. pose proof (best_slot_cases s b Hs) as Hb. destruct (best_slot s b) as [i|]; cbn [fmap option_fmap option_map]; [|by rewrite Hb].
  destruct Hb as (Hi & Ho & -> & _). pose proof (occupied_not_nil s b i Hs Hi Ho) as Hne.
  pose proof (to_order_price b i (live (fl_orders (level_at s i)))) as Hp. fold (level_orders b i (level_at s i)) in Hp.
  destruct (level_orders b i (level_at s i)) as [|o l]; [done|]. apply Forall_cons in Hp as [Hp _]. cbn. by rewrite Hp.
Qed.

Lemma level_total_spec b s i :
  side_ok s -> (i < kBandWidth)%nat -> level_total (level_at s i) = u64 (sum_quantity (level_orders b i (level_at s i))).
Proof.
  intros Hs Hi. unfold level_total. destruct (level_quantities s i Hs Hi) as [Hq Hl]. unfold level_orders. rewrite <- Hl.
  set (l := drop _ _) in *. clearbody l. clear Hl. rewrite <- (Z.add_0_l (sum_quantity _)), <- fold_quantity_wrap.
  change (u64 0) with (u64 0 : Z). replace (u64 0) with 0 by done.
  assert (forall acc, acc = u64 acc -> fold_left (fun total o => u64 (total + fo_quantity o)) l acc =
    fold_left (fun total o => u64 (total + o_quantity o)) (map (to_order b i) (live l)) acc) as H; [|by apply H].
  induction Hq as [|o l Ho Hl IH]; intros acc Hacc; [done|]. rewrite live_cons. cbn [fold_left].
  assert (u64 (acc + fo_quantity o) = u64 (u64 (acc + fo_quantity o))) as Hidem.
  { unfold u64, wrap. by rewrite Z.mod_mod. }
  case_decide as Hlive; [cbn [map fold_left to_order o_quantity]; by apply IH|].
  replace (fo_quantity o) with 0 by (unfold is_live, in_u32 in *; lia). rewrite Z.add_0_r, <- Hacc. by apply IH.
Qed.

Lemma level_prices b s i p : p <> price_of i -> at_price p (level_orders b i (level_at s i)) = [].
Proof.
  intros Hp. apply at_price_none. eapply Forall_impl; [apply to_order_price|]. intros o ->. congruence.
Qed.

Lemma flat_of_prices b s l p : p ∉ map price_of l -> at_price p (flat_of b s l) = [].
Proof.
  intros Hp. apply at_price_none, Forall_forall. intros o (j & Hj & Ho)%in_flat_of E. apply Hp.
  rewrite <- E, Ho. by apply (list_elem_of_fmap_2 price_of).
Qed.

Lemma price_of_inj i j : price_of i = price_of j -> i = j.
Proof. unfold price_of. lia. Qed.

Lemma flat_quantity_at c side price :
  contiguous_wf c -> quantity_at c side price = u64 (sum_quantity (at_price price (a_side (is_buy side) (contiguous_abs c)))).
Proof.
  intros Hwf. set (b := is_buy side). rewrite abs_side. unfold quantity_at. rewrite side_ref_b. fold b.
  pose proof (cw_sides _ Hwf b) as Hs. destruct (in_band price) eqn:E; cbn [negb].
  - destruct (slot_in_band _ E) as [Hi Hp]. rewrite (level_total_spec b) by done. set (i := slot_of price) in *.
    rewrite (flat_split b _ i Hi), !at_price_app. rewrite !flat_of_prices.
    + rewrite app_nil_r. cbn [app]. rewrite at_price_all; [done|]. rewrite <- Hp. apply to_order_price.
    + rewrite <- Hp. intros (j & Hj%price_of_inj & Hin)%list_elem_of_fmap. apply in_slots_after in Hin as [_ ?]; congruence.
    + rewrite <- Hp. intros (j & Hj%price_of_inj & Hin)%list_elem_of_fmap. apply in_slots_before in Hin as [_ ?]; congruence.
  - unfold flat. rewrite flat_of_prices; [done|]. intros (j & -> & Hin)%list_elem_of_fmap. apply in_side_slots in Hin.
    revert E. unfold in_band, price_of, kMinPrice, kMaxPrice, kContiguousMinPrice, kContiguousMaxPrice. pose proof band_width. lia.
Qed.

(** The occupied slots of a list, and the prices of its orders. *)
Lemma flat_of_a_prices b s l :
  side_ok s -> Forall (fun i => (i < kBandWidth)%nat) l -> NoDup l ->
  a_prices (flat_of b s l) = map price_of (List.filter (occupied (sd_bits s)) l).
Proof.
  intros Hs. induction l as [|i l IH]; intros Hl Hn; [done|]. apply Forall_cons in Hl as [Hi Hl]. apply NoDup_cons in Hn as [Hni Hn].
  rewrite flat_of_cons. cbn [List.filter]. destruct (occupied (sd_bits s) i) eqn:E; [|rewrite unoccupied_nil by done; by apply IH].
  rewrite (a_prices_block (price_of i)); [by rewrite IH|by apply occupied_not_nil|apply to_order_price|].
  rewrite IH by done. intros Hh. apply Hni. destruct (List.filter _ l) as [|j l'] eqn:El; [done|].
  cbn in Hh. injection Hh as Hh%price_of_inj. subst j.
  assert (In i (List.filter (occupied (sd_bits s)) l)) as Hin by (rewrite El; by left).
  apply filter_In in Hin as [Hin _]. by apply list_elem_of_In.
Qed.

Lemma flat_collect_levels b s : side_ok s -> collect_levels s b = a_levels (flat b s).
Proof.
  intros Hs. unfold collect_levels, a_levels, flat. rewrite for_each_visit by done.
  rewrite flat_of_a_prices, map_map by (done || apply side_slots_lt || apply side_slots_NoDup).
  assert (forall l out, visit s (fun slot level levels => (levels ++ [mkLevelView (price_of slot) (level_total level)], true)) l out =
    out ++ map (fun i => mkLevelView (price_of i) (level_total (level_at s i))) (List.filter (occupied (sd_bits s)) l)) as Hv.
  { induction l as [|i l IH]; intros out; cbn [visit List.filter]; [by rewrite app_nil_r|]. destruct (occupied _ i); [|apply IH].
    rewrite IH, <- app_assoc. done. }
  rewrite Hv. cbn [app]. apply map_ext_in. intros i Hin. apply filter_In in Hin as [Hin _]. apply list_elem_of_In, in_side_slots in Hin as Hi.
  f_equal. rewrite (level_total_spec b) by done. rewrite (side_slots_split b i Hi), flat_of_app, flat_of_cons, !at_price_app.
  rewrite !flat_of_prices.
  - rewrite app_nil_r. cbn [app]. rewrite at_price_all; [done|]. apply to_order_price.
  - intros (j & Hj%price_of_inj & Hjn)%list_elem_of_fmap. apply in_slots_after in Hjn as [_ ?]; congruence.
  - intros (j & Hj%price_of_inj & Hjn)%list_elem_of_fmap. apply in_slots_before in Hjn as [_ ?]; congruence.
Qed.

Lemma flat_append_orders b s out : side_ok s -> append_orders s b (side_of b) out = out ++ flat b s.
Proof.
  intros Hs. unfold append_orders. rewrite for_each_visit by done. unfold flat.
  pose proof (side_slots_lt b) as Hlt. revert out. induction Hlt as [|i l Hi Hl IH]; intros out; cbn [visit]; [by rewrite app_nil_r|].
  rewrite flat_of_cons. destruct (occupied (sd_bits s) i) eqn:E; [|rewrite unoccupied_nil by done; apply IH].
  rewrite IH, app_assoc. f_equal. destruct (level_quantities s i Hs Hi) as [_ Hlive]. unfold level_orders. rewrite <- Hlive.
  set (k := drop _ _). clearbody k. revert out. induction k as [|o k IHk]; intros out; [by rewrite app_nil_r|].
  cbn [fold_left]. rewrite live_cons, IHk. unfold is_live at 1. case_decide.
  - replace (0 <? fo_quantity o) with true by lia. by rewrite <- app_assoc.
  - by replace (0 <? fo_quantity o) with false by lia.
Qed.

Lemma flat_resting_orders c : contiguous_wf c -> resting_orders c = a_orders (contiguous_abs c).
Proof.
  intros Hwf. unfold resting_orders. rewrite (flat_append_orders true), (flat_append_orders false); [done|..].
  - apply (cw_sides _ Hwf false).
  - apply (cw_sides _ Hwf true).
Qed.

(** ** The empty store *)

Lemma empty_side_level i : level_at empty_side i = empty_level.
Proof.
  unfold level_at, empty_side. cbn [sd_levels]. destruct (replicate _ _ !! i) as [l|] eqn:E; [|done].
  apply lookup_replicate in E as [-> _]. done.
Qed.

Lemma empty_side_ok : side_ok empty_side.
Proof.
  split.
  - unfold empty_side. cbn [sd_levels]. apply length_replicate.
  - split; [apply length_replicate|]. by apply Forall_replicate.
  - intros i Hi. rewrite empty_side_level. unfold occupied, word_at, empty_side. cbn [sd_bits].
    destruct (replicate _ _ !! _) as [w|] eqn:E; [apply lookup_replicate in E as [-> _]|]; apply Z.bits_0.
  - intros i Hi. rewrite empty_side_level. apply empty_level_ok.
Qed.

Lemma empty_flat b : flat b empty_side = [].
Proof.
  apply flat_of_nil; [apply empty_side_ok|apply side_slots_lt|]. apply Forall_forall. intros i Hi%in_side_slots.
  by rewrite (so_occupied _ empty_side_ok), empty_side_level by done.
Qed.

Lemma empty_store_wf : contiguous_wf empty_store /\ contiguous_abs empty_store = a_empty.
Proof.
  assert (contiguous_abs empty_store = a_empty) as E.
  { unfold contiguous_abs. cbn [empty_store bids asks]. by rewrite !empty_flat. }
  split; [|done]. split.
  - intros []; apply empty_side_ok.
  - intros id loc. cbn [empty_store index]. rewrite lookup_empty. split; [done|].
    intros (b & i & Hi & pos & o & Ho & _). replace (side_b empty_store b) with empty_side in Ho by (by destruct b).
    by rewrite empty_side_level in Ho.
  - rewrite E. apply a_wf_empty.
Qed.

(** ** The contiguous store implements the interface *)

#[export] Instance contiguous_store : BookStore ContiguousStore := {
  bs_new := fun _ => empty_store;
  bs_add_limit := fun c id side price q tif => add_limit c (mkLimitInput id side price q tif);
  bs_add_market := add_market;
  bs_cancel := cancel;
  bs_modify := modify;
  bs_best_bid := best_bid;
  bs_best_ask := best_ask;
  bs_quantity_at := quantity_at;
  bs_order_count := order_count;
  bs_contains := contains;
  bs_fill_count := fill_count;
  bs_can_store_limit := can_store_limit;
  bs_can_apply_modify := can_apply_modify;
  bs_bid_levels := bid_levels;
  bs_ask_levels := ask_levels;
  bs_resting_orders := resting_orders
}.

Lemma flat_can_apply_cancel c id new_price : can_apply_modify c id new_price 0 = true.
Proof. unfold can_apply_modify. by destruct (index c !! id). Qed.

#[export] Instance contiguous_laws : BookStoreLaws ContiguousStore.
Proof.
  refine {| bs_wf := contiguous_wf; bs_room := contiguous_room; bs_abs := contiguous_abs |};
    cbn [bs_new bs_add_limit bs_add_market bs_cancel bs_modify bs_best_bid bs_best_ask bs_quantity_at bs_order_count
      bs_contains bs_fill_count bs_can_store_limit bs_can_apply_modify bs_bid_levels bs_ask_levels bs_resting_orders contiguous_store].
  - intros b Hwf. apply (cw_abs _ Hwf).
  - intros _. apply empty_store_wf.
  - apply flat_add_limit.
  - intros c id side q Hwf _ _ Hq. by apply flat_add_market.
  - intros c id Hwf _. by apply flat_cancel.
  - apply flat_modify.
  - intros c id p _. apply flat_can_apply_cancel.
  - apply flat_contains.
  - apply flat_order_count.
  - intros c Hwf. apply (flat_best true), (cw_sides _ Hwf true).
  - intros c Hwf. apply (flat_best false), (cw_sides _ Hwf false).
  - intros c side price Hwf _. by apply flat_quantity_at.
  - apply flat_fill_count.
  - intros c Hwf. apply (flat_collect_levels true), (cw_sides _ Hwf true).
  - intros c Hwf. apply (flat_collect_levels false), (cw_sides _ Hwf false).
  - apply flat_resting_orders.
Defined.

(** ** The admission checks are exact *)

Definition all_in_band (b : ABook) : Prop := Forall (fun o => in_band (o_price o) = true) (a_orders b).

Lemma price_of_in_band i : (i < kBandWidth)%nat -> in_band (price_of i) = true.
Proof.
  unfold in_band, price_of, kMinPrice, kMaxPrice, kContiguousMinPrice, kContiguousMaxPrice. pose proof band_width. lia.
Qed.

Lemma contiguous_in_band c : contiguous_wf c -> all_in_band (contiguous_abs c).
Proof.
  intros Hwf. apply Forall_forall. intros o Ho. unfold a_orders in Ho.
  assert (exists b, o ∈ flat b (side_b c b)) as [b Hb].
  { apply elem_of_app in Ho as [Ho|Ho]; [by exists true|by exists false]. }
  unfold flat in Hb. apply in_flat_of in Hb as (j & Hj & ->). apply price_of_in_band. by apply in_side_slots in Hj.
Qed.

(** What is left of a limit order rests, at its own price. *)
Lemma a_add_limit_rests b id side price q :
  a_contains b id = false -> 0 <= q -> a_wf b -> (a_take b id side price false q).1.2 <> 0 ->
  exists o, o ∈ a_orders (a_add_limit b id side price q GTC).2 /\ o_price o = price.
Proof.
  intros Hc Hq Hwf Hr. unfold a_add_limit. rewrite Hc. destruct (a_take b id side price false q) as [[ts r] b'] eqn:Ht. cbn [fst snd] in Hr.
  pose proof (a_take_le _ _ _ _ _ _ _ _ _ Hwf Hq Ht) as Hle. replace (0 <? r) with true by lia. rewrite bool_decide_true by done.
  cbn [andb snd]. exists (mkOrder id side price r). split; [|done]. unfold a_rest, a_orders. cbn [o_side].
  apply elem_of_app. destruct (is_buy side); cbn [a_set_side a_side a_bids a_asks]; [left|right];
    rewrite a_insert_Permutation; apply list_elem_of_here.
Qed.

Lemma flat_can_store_iff c id side price q :
  contiguous_wf c -> contiguous_room c -> is_valid_side side = true -> in_u32 q -> a_contains (contiguous_abs c) id = false ->
  can_store_limit c side price q GTC = true <-> all_in_band (a_add_limit (contiguous_abs c) id side price q GTC).2.
Proof.
  intros Hwf Hroom Hs Hq Hc. assert (0 <= q) as Hq' by (unfold in_u32 in Hq; lia). split.
  - intros Hcan. destruct (flat_add_limit c id side price q GTC Hwf Hroom Hs Hq Hcan) as [Hwf' He]. rewrite <- He.
    by apply contiguous_in_band.
  - intros Hb. unfold can_store_limit. rewrite bool_decide_false by done. cbn [orb]. destruct (in_band price) eqn:E; [done|].
    rewrite (simulate_remainder_spec c id) by done. destruct (decide ((a_take (contiguous_abs c) id side price false q).1.2 = 0)) as [->|Hr]; [done|].
    destruct (a_add_limit_rests _ _ _ _ _ Hc Hq' (cw_abs _ Hwf) Hr) as (o & Ho & Hp). unfold all_in_band in Hb. rewrite Forall_forall in Hb.
    specialize (Hb o Ho). by rewrite Hp, E in Hb.
Qed.

Lemma flat_can_modify_iff c id new_price new_quantity :
  contiguous_wf c -> contiguous_room c -> in_u32 new_quantity ->
  can_apply_modify c id new_price new_quantity = true <-> all_in_band (a_modify (contiguous_abs c) id new_price new_quantity).2.
Proof.
  intros Hwf Hroom Hq. split.
  { intros Hcan. destruct (flat_modify c id new_price new_quantity Hwf Hroom Hq Hcan) as [Hwf' He]. rewrite <- He. by apply contiguous_in_band. }
  intros Hb. unfold can_apply_modify. destruct (index c !! id) as [loc|] eqn:Ei; [|done].
  destruct (index_held _ _ _ Hwf Ei) as (b & i & pos & fo & Hh & <- & ->). rewrite (held_reduces _ _ _ _ _ _ _ Hh). cbn [locator cl_side].
  destruct (new_quantity =? 0) eqn:Eq; [done|]. destruct (_ && _) eqn:Er; [done|]. destruct (in_band new_price) eqn:E; [done|].
  assert (0 <= new_quantity) as Hq' by (unfold in_u32 in Hq; lia). rewrite (simulate_remainder_spec c (fo_id fo)) by done.
  rewrite <- (take_after_remove c b i pos fo) by done. unfold a_modify in Hb. rewrite (held_find _ _ _ _ _ Hwf Hh) in Hb.
  cbn [to_order o_price o_quantity o_side] in Hb. rewrite Eq, Er in Hb.
  destruct (decide ((a_take (a_remove (fo_id fo) (contiguous_abs c)) (fo_id fo) (side_of b) new_price false new_quantity).1.2 = 0)) as [->|Hr]; [done|].
  assert (a_contains (a_remove (fo_id fo) (contiguous_abs c)) (fo_id fo) = false) as Hc.
  { apply a_contains_false. rewrite a_ids_remove, list_elem_of_filter. by intros [? _]. }
  destruct (a_add_limit_rests _ _ _ _ _ Hc Hq' (a_remove_wf _ _ (cw_abs _ Hwf)) Hr) as (o & Ho & Hp). unfold all_in_band in Hb. rewrite Forall_forall in Hb.
  specialize (Hb o Ho). by rewrite Hp, E in Hb.
Qed.
