(* ===== verification/Pool.v ===== *)
(** * Pool: fixed-capacity object pools

    [memory::OrderPool] of include/qsl/memory/order_pool.hpp and the equally built
    [RawPool] of src/engine/order_book.cpp: [Capacity] slots, a stack of free slot
    numbers and a live flag per slot.  The storage of a pool is the map from the
    slots that hold a constructed object to that object.

    A pool pointer is the address of a slot.  [slot_index] is the address
    arithmetic that recovers the slot; the clients of a pool keep the slot itself
    as the pointer, which [release_slot_ptr] justifies. *)
From S2P Require Import Prelude Core.

Record Pool (T : Type) := mkPool {
  storage_ : gmap Z T;
  live_ : list bool;
  free_indices_ : list Z;
  free_count_ : Z
}.
Arguments mkPool {T} _ _ _ _.
Arguments storage_ {T} _.
Arguments live_ {T} _.
Arguments free_indices_ {T} _.
Arguments free_count_ {T} _.

Section Operations.
Context {T : Type} (Capacity : nat).
Implicit Types p : Pool T.

(** [for (i = 0; i < Capacity; ++i) free_indices_[i] = Capacity - 1 - i]. *)
Definition reset_free_list (p : Pool T) : Pool T :=
  mkPool (storage_ p) (live_ p) (map (fun i => Z.of_nat Capacity - 1 - i) (seqZ 0 (Z.of_nat Capacity)))
    (Z.of_nat Capacity).

Definition new_pool : Pool T :=
  reset_free_list (mkPool ∅ (replicate Capacity false) (replicate Capacity 0) 0).

Definition available (p : Pool T) : Z := free_count_ p.
Definition in_use (p : Pool T) : Z := Z.of_nat Capacity - free_count_ p.

(** Constructs [v] in the slot on top of the free stack; [None] is [nullptr]. *)
Definition try_acquire (v : T) (p : Pool T) : option Z * Pool T :=
  if free_count_ p =? 0 then (None, p)
  else
    let idx := default 0 (free_indices_ p !! Z.to_nat (free_count_ p - 1)) in
    (Some idx,
     mkPool (<[idx := v]> (storage_ p)) (<[Z.to_nat idx := true]> (live_ p)) (free_indices_ p)
       (free_count_ p - 1)).

(** [release] of the pointer to a slot. *)
Definition release_slot (slot : Z) (p : Pool T) : bool * Pool T :=
  if negb (default false (live_ p !! Z.to_nat slot)) then (false, p)
  else
    (true,
     mkPool (delete slot (storage_ p)) (<[Z.to_nat slot := false]> (live_ p))
       (<[Z.to_nat (free_count_ p) := slot]> (free_indices_ p)) (free_count_ p + 1)).

(** [destroy_live]: the loop over the slots. *)
Definition destroy_slot (p : Pool T) (i : nat) : Pool T :=
  if default false (live_ p !! i)
  then mkPool (delete (Z.of_nat i) (storage_ p)) (<[i := false]> (live_ p)) (free_indices_ p) (free_count_ p)
  else p.
Definition destroy_live (p : Pool T) : Pool T := fold_left destroy_slot (seq 0 Capacity) p.

Definition reset (p : Pool T) : Pool T := reset_free_list (destroy_live p).

(** ** Addresses *)

(** [base] is the address of [storage_], [width] and [alignment] are [sizeof(T)]
    and [alignof(T)]; the null pointer is address zero. *)
Section Addresses.
Context (base width alignment : Z).

Definition slot_ptr (idx : Z) : Z := base + idx * width.

Definition slot_index (raw : Z) : option Z :=
  if raw =? 0 then None
  else if (raw <? base) || (base + Z.of_nat Capacity * width <=? raw) then None
  else
    let offset := raw - base in
    if negb (offset mod width =? 0) || negb (raw mod alignment =? 0) then None
    else
      let slot := offset / width in
      if slot <? Z.of_nat Capacity then Some slot else None.

Definition release (raw : Z) (p : Pool T) : bool * Pool T :=
  match slot_index raw with
  | None => (false, p)
  | Some slot => release_slot slot p
  end.

Definition owns (raw : Z) : bool := bool_decide (is_Some (slot_index raw)).
End Addresses.
End Operations.

(** ** The invariant *)

Section Invariant.
Context {T : Type} (Capacity : nat).
Implicit Types p : Pool T.

(** Free and live slots partition the pool; the flags say which are live. *)
Record pool_ok (p : Pool T) : Prop := {
  po_count : 0 <= free_count_ p <= Z.of_nat Capacity;
  po_length : length (free_indices_ p) = Capacity;
  po_live_length : length (live_ p) = Capacity;
  po_slots : take (Z.to_nat (free_count_ p)) (free_indices_ p) ++ (map_to_list (storage_ p)).*1 ≡ₚ
    seqZ 0 (Z.of_nat Capacity);
  po_live : forall i, 0 <= i < Z.of_nat Capacity ->
    live_ p !! Z.to_nat i = Some (bool_decide (is_Some (storage_ p !! i)))
}.

Lemma in_storage_list p i : i ∈ (map_to_list (storage_ p)).*1 <-> is_Some (storage_ p !! i).
Proof.
  rewrite list_elem_of_fmap. split.
  - intros ([k v] & -> & Hin). apply elem_of_map_to_list in Hin. by exists v.
  - intros [v Hv]. exists (i, v). split; [done|]. by apply elem_of_map_to_list.
Qed.

Lemma pool_range p i : pool_ok p -> is_Some (storage_ p !! i) -> 0 <= i < Z.of_nat Capacity.
Proof.
  intros Hp Hi. apply in_storage_list in Hi. assert (i ∈ seqZ 0 (Z.of_nat Capacity)) as Hin.
  { rewrite <- (po_slots _ Hp). set_solver. }
  apply elem_of_seqZ in Hin. lia.
Qed.

(** Every slot is free or in use. *)
Lemma pool_count p : pool_ok p -> free_count_ p + Z.of_nat (size (storage_ p)) = Z.of_nat Capacity.
Proof.
  intros Hp. pose proof (Permutation_length (po_slots _ Hp)) as Hl.
  rewrite length_app, length_fmap, length_map_to_list, length_seqZ, length_take, (po_length _ Hp) in Hl.
  pose proof (po_count _ Hp). lia.
Qed.

Lemma new_pool_ok : pool_ok (new_pool (T := T) Capacity) /\ storage_ (new_pool (T := T) Capacity) = ∅.
Proof.
  split; [|done]. unfold new_pool, reset_free_list. split; cbn [storage_ live_ free_indices_ free_count_].
  - lia.
  - rewrite List.length_map, length_seqZ. lia.
  - apply length_replicate.
  - rewrite map_to_list_empty, take_ge by (rewrite List.length_map, length_seqZ; lia). cbn [fmap list_fmap]. rewrite app_nil_r.
    apply NoDup_Permutation; [|apply NoDup_seqZ|].
    + apply (NoDup_fmap_2_strong (fun i => Z.of_nat Capacity - 1 - i)); [lia|apply NoDup_seqZ].
    + intros x. rewrite list_elem_of_fmap. split.
      * intros (i & -> & Hi%elem_of_seqZ). apply elem_of_seqZ. lia.
      * intros Hx%elem_of_seqZ. exists (Z.of_nat Capacity - 1 - x). split; [lia|]. apply elem_of_seqZ. lia.
  - intros i Hi. rewrite lookup_empty, lookup_replicate_2 by lia. by rewrite bool_decide_false by (intros [? ?]; done).
Qed.

(** The top of the free stack is a free slot. *)
Lemma free_top p :
  pool_ok p -> 0 < free_count_ p ->
  exists idx, free_indices_ p !! Z.to_nat (free_count_ p - 1) = Some idx /\
    0 <= idx < Z.of_nat Capacity /\ storage_ p !! idx = None /\
    take (Z.to_nat (free_count_ p)) (free_indices_ p) =
      take (Z.to_nat (free_count_ p - 1)) (free_indices_ p) ++ [idx].
Proof.
  intros Hp Hf. pose proof (po_count _ Hp) as Hc. pose proof (po_length _ Hp) as Hl.
  destruct (lookup_lt_is_Some_2 (free_indices_ p) (Z.to_nat (free_count_ p - 1))) as [idx Hidx]; [lia|].
  assert (take (Z.to_nat (free_count_ p)) (free_indices_ p) =
    take (Z.to_nat (free_count_ p - 1)) (free_indices_ p) ++ [idx]) as Ht.
  { rewrite <- (take_S_r _ _ _ Hidx). f_equal. lia. }
  pose proof (po_slots _ Hp) as Hs. rewrite Ht in Hs. exists idx. split; [done|]. split_and!; [..|done].
  - assert (idx ∈ seqZ 0 (Z.of_nat Capacity)) as Hin by (rewrite <- Hs; set_solver). apply elem_of_seqZ in Hin. lia.
  - assert (idx ∈ seqZ 0 (Z.of_nat Capacity)) as Hin by (rewrite <- Hs; set_solver). apply elem_of_seqZ in Hin. lia.
  - apply eq_None_not_Some. rewrite <- in_storage_list. intros Hin.
    pose proof (NoDup_seqZ 0 (Z.of_nat Capacity)) as Hn. rewrite <- Hs, <- app_assoc in Hn.
    apply NoDup_app in Hn as (_ & _ & Hn). cbn [app] in Hn. by apply NoDup_cons in Hn as [Hn _].
Qed.

Lemma try_acquire_ok p v :
  pool_ok p -> 0 < available p ->
  exists idx p', try_acquire v p = (Some idx, p') /\ pool_ok p' /\
    0 <= idx < Z.of_nat Capacity /\ storage_ p !! idx = None /\ storage_ p' = <[idx := v]> (storage_ p).
Proof.
  intros Hp Hf. unfold available in Hf. destruct (free_top p Hp Hf) as (idx & Hidx & Hr & Hn & Ht).
  unfold try_acquire. replace (free_count_ p =? 0) with false by lia. rewrite Hidx. cbn [default from_option id].
  eexists idx, _. split; [done|]. split_and!; try done; try apply Hr.
  pose proof (po_count _ Hp). split; cbn [storage_ live_ free_indices_ free_count_]; rewrite ?length_insert; try apply Hp.
  - lia.
  - rewrite map_to_list_insert by done. cbn [fmap list_fmap fst]. rewrite <- (po_slots _ Hp), Ht, <- app_assoc. done.
  - intros i Hi. destruct (decide (i = idx)) as [->|Hne].
    + rewrite list_lookup_insert_eq by (rewrite (po_live_length _ Hp); lia). rewrite lookup_insert_eq. by rewrite bool_decide_true.
    + rewrite list_lookup_insert_ne by lia. rewrite lookup_insert_ne by done. by apply Hp.
Qed.

(** A full pool refuses and stays as it is. *)
Lemma try_acquire_full p v : pool_ok p -> available p = 0 -> try_acquire v p = (None, p).
Proof. intros _ Hf. unfold try_acquire, available in *. by rewrite Hf. Qed.

Lemma release_slot_ok p slot v :
  pool_ok p -> storage_ p !! slot = Some v ->
  exists p', release_slot slot p = (true, p') /\ pool_ok p' /\ storage_ p' = delete slot (storage_ p) /\
    free_count_ p' = free_count_ p + 1.
Proof.
  intros Hp Hv. assert (is_Some (storage_ p !! slot)) as Hsome by (by exists v).
  pose proof (pool_range _ _ Hp Hsome) as Hr. unfold release_slot. rewrite (po_live _ Hp slot Hr), bool_decide_true by done.
  cbn [default from_option id negb]. eexists. split; [done|]. split; [|done].
  pose proof (pool_count _ Hp) as Hc. pose proof (po_count _ Hp) as Hf.
  assert (free_count_ p < Z.of_nat Capacity) as Hlt.
  { rewrite <- (insert_delete_id _ _ _ Hv), map_size_insert_None in Hc by apply lookup_delete_eq. lia. }
  split; cbn [storage_ live_ free_indices_ free_count_]; rewrite ?length_insert; try apply Hp.
  - lia.
  - replace (Z.to_nat (free_count_ p + 1)) with (S (Z.to_nat (free_count_ p))) by lia.
    rewrite (take_S_r _ _ slot) by (apply list_lookup_insert_eq; rewrite (po_length _ Hp); lia).
    rewrite take_insert_ge by lia. rewrite <- (po_slots _ Hp), <- app_assoc. f_equiv. cbn [app].
    change (slot :: (map_to_list (delete slot (storage_ p))).*1) with (((slot, v) :: map_to_list (delete slot (storage_ p))).*1).
    by rewrite <- map_to_list_insert, insert_delete_id by (done || apply lookup_delete_eq).
  - intros i Hi. destruct (decide (i = slot)) as [->|Hne].
    + rewrite list_lookup_insert_eq by (rewrite (po_live_length _ Hp); lia). rewrite lookup_delete_eq.
      by rewrite bool_decide_false by (intros [? ?]; done).
    + rewrite list_lookup_insert_ne by lia. rewrite lookup_delete_ne by done. by apply Hp.
Qed.

(** Releasing a slot that is not live does nothing. *)
Lemma release_slot_dead p slot :
  pool_ok p -> 0 <= slot < Z.of_nat Capacity -> storage_ p !! slot = None -> release_slot slot p = (false, p).
Proof.
  intros Hp Hr Hn. unfold release_slot. rewrite (po_live _ Hp slot Hr), Hn.
  by rewrite bool_decide_false by (intros [? ?]; done).
Qed.

(** Writing through a pointer to a live object. *)
Definition pool_set (slot : Z) (v : T) (p : Pool T) : Pool T :=
  mkPool (<[slot := v]> (storage_ p)) (live_ p) (free_indices_ p) (free_count_ p).

Lemma pool_set_ok p slot v : pool_ok p -> is_Some (storage_ p !! slot) -> pool_ok (pool_set slot v p).
Proof.
  intros Hp [w Hw]. split; cbn [pool_set storage_ live_ free_indices_ free_count_]; try apply Hp.
  - rewrite <- (po_slots _ Hp). f_equiv.
    rewrite <- (insert_delete_id _ _ _ Hw), insert_insert_eq, !map_to_list_insert by apply lookup_delete_eq. done.
  - intros i Hi. rewrite (po_live _ Hp i Hi). f_equal. apply bool_decide_ext.
    destruct (decide (i = slot)) as [->|Hne]; [|by rewrite lookup_insert_ne].
    rewrite lookup_insert_eq, Hw. by split.
Qed.

(** The flags are true on the slots that hold an object, of this range only. *)
Definition flags_ok (lo : nat) (p : Pool T) : Prop :=
  length (live_ p) = Capacity /\
  (forall i, 0 <= i < Z.of_nat Capacity -> live_ p !! Z.to_nat i = Some (bool_decide (is_Some (storage_ p !! i)))) /\
  (forall i, is_Some (storage_ p !! i) -> Z.of_nat lo <= i < Z.of_nat Capacity).

Lemma destroy_slot_flags n p :
  (n < Capacity)%nat -> flags_ok n p ->
  flags_ok (S n) (destroy_slot p n) /\ free_indices_ (destroy_slot p n) = free_indices_ p.
Proof.
  intros Hn (H1 & H3 & H4). unfold destroy_slot.
  pose proof (H3 (Z.of_nat n) ltac:(lia)) as Hnth. rewrite Nat2Z.id in Hnth. rewrite Hnth. cbn [default from_option id].
  case_bool_decide as Hs.
  - split; [|done]. unfold flags_ok. cbn [storage_ live_]. split_and!; [by rewrite length_insert|..].
    + intros i Hi. destruct (decide (i = Z.of_nat n)) as [->|Hne].
      * rewrite Nat2Z.id, list_lookup_insert_eq, lookup_delete_eq by lia. by rewrite bool_decide_false by (intros [? ?]; done).
      * rewrite list_lookup_insert_ne, lookup_delete_ne by lia. by apply H3.
    + intros i Hi. destruct (decide (i = Z.of_nat n)) as [->|Hne]; [by rewrite lookup_delete_eq in Hi; destruct Hi|].
      rewrite lookup_delete_ne in Hi by done. apply H4 in Hi. lia.
  - split; [|done]. split_and!; try done. intros i Hi. pose proof (H4 i Hi).
    destruct (decide (i = Z.of_nat n)) as [->|Hne]; [done|lia].
Qed.

Lemma destroy_prefix p n :
  (n <= Capacity)%nat -> flags_ok 0 p ->
  flags_ok n (fold_left destroy_slot (seq 0 n) p) /\
  free_indices_ (fold_left destroy_slot (seq 0 n) p) = free_indices_ p.
Proof.
  intros Hn Hp. induction n as [|n IH]; [done|]. destruct IH as [H1 H2]; [lia|].
  rewrite seq_S, fold_left_app. cbn [fold_left Nat.add]. rewrite <- H2. apply destroy_slot_flags; [lia|done].
Qed.

Lemma destroy_live_spec p :
  pool_ok p -> storage_ (destroy_live Capacity p) = ∅ /\ live_ (destroy_live Capacity p) = replicate Capacity false.
Proof.
  intros Hp. unfold destroy_live. destruct (destroy_prefix p Capacity) as [(H1 & H3 & H4) H2]; [lia| |].
  { split_and!; [apply Hp|apply Hp|]. intros i Hi. by apply (pool_range _ _ Hp). }
  set (r := fold_left destroy_slot (seq 0 Capacity) p) in *.
  assert (storage_ r = ∅) as E.
  { apply map_eq. intros i. rewrite lookup_empty. apply eq_None_not_Some. intros Hi%H4. lia. }
  split; [done|].
  apply list_eq_same_length with Capacity; [by rewrite length_replicate|done|]. intros i x y Hi Hx Hy.
  apply lookup_replicate in Hy as [-> _]. specialize (H3 (Z.of_nat i) ltac:(lia)).
  rewrite Nat2Z.id, E, lookup_empty, Hx, bool_decide_false in H3 by (intros [? ?]; done). by injection H3.
Qed.

(** [reset] gives back an empty pool. *)
Lemma reset_ok p : pool_ok p -> pool_ok (reset Capacity p) /\ storage_ (reset Capacity p) = ∅.
Proof.
  intros Hp. destruct (destroy_live_spec p Hp) as (Hs & Hl). unfold reset.
  pose proof (proj1 new_pool_ok) as Hn. unfold new_pool in Hn.
  assert (reset_free_list Capacity (destroy_live Capacity p) =
    reset_free_list Capacity (mkPool ∅ (replicate Capacity false) (replicate Capacity 0) 0)) as ->; [|done].
  unfold reset_free_list. cbn [storage_ live_]. by rewrite Hs, Hl.
Qed.

(** ** Addresses *)

Section Addresses.
Context (base width alignment : Z).
Hypothesis Hbase : 0 < base.
Hypothesis Hwidth : 0 < width.
Hypothesis Halign : 0 < alignment.
Hypothesis Hba : base mod alignment = 0.
Hypothesis Hwa : width mod alignment = 0.

(** The arithmetic recovers exactly the slots whose address it is given. *)
Lemma slot_index_spec raw idx :
  slot_index Capacity base width alignment raw = Some idx <->
  raw = slot_ptr base width idx /\ 0 <= idx < Z.of_nat Capacity.
Proof.
  unfold slot_index, slot_ptr. split.
  - destruct (raw =? 0) eqn:E0; [done|]. destruct ((raw <? base) || _) eqn:E1; [done|].
    destruct (negb _ || negb _) eqn:E2; [done|]. case_if; [|done]. intros [= <-].
    apply orb_false_iff in E1 as [Hlo Hhi], E2 as [Hm _]. apply negb_false_iff in Hm.
    pose proof (Z.div_mod (raw - base) width ltac:(lia)) as Hd. split; [nia|].
    split; [apply Z.div_pos; lia|lia].
  - intros [-> Hi]. replace (base + idx * width =? 0) with false by nia.
    replace ((base + idx * width <? base) || (base + Z.of_nat Capacity * width <=? base + idx * width)) with false by nia.
    replace (base + idx * width - base) with (idx * width) by lia. rewrite Z.mod_mul, Z.div_mul by lia.
    replace ((base + idx * width) mod alignment) with 0.
    + cbn [Z.eqb negb orb]. by replace (idx <? Z.of_nat Capacity) with true by lia.
    + rewrite Z.add_mod, Z.mul_mod, Hba, Hwa, Z.mul_0_r by lia. by rewrite !Z.mod_0_l by lia.
Qed.

Lemma release_slot_ptr p idx :
  0 <= idx < Z.of_nat Capacity ->
  release Capacity base width alignment (slot_ptr base width idx) p = release_slot idx p.
Proof. intros Hi. unfold release. by rewrite (proj2 (slot_index_spec _ _) (conj eq_refl Hi)). Qed.
End Addresses.
End Invariant.

(** ** Runs of a client *)

(** A client acquires, releases any pointer it likes, or resets the pool. *)
Inductive PoolOp (T : Type) :=
| Acquire (v : T)
| Release (raw : Z)
| Reset.
Arguments Acquire {T} _.
Arguments Release {T} _.
Arguments Reset {T}.

Section Runs.
Context {T : Type} (Capacity : nat) (base width alignment : Z).

Definition pool_exec (p : Pool T) (op : PoolOp T) : Pool T :=
  match op with
  | Acquire v => (try_acquire v p).2
  | Release raw => (release Capacity base width alignment raw p).2
  | Reset => reset Capacity p
  end.

Definition pool_run (ops : list (PoolOp T)) : Pool T := fold_left pool_exec ops (new_pool Capacity).

(** The layout of the storage array. *)
Record layout_ok : Prop := {
  lo_base : 0 < base;
  lo_width : 0 < width;
  lo_alignment : 0 < alignment;
  lo_base_aligned : base mod alignment = 0;
  lo_width_aligned : width mod alignment = 0
}.

Lemma release_cases (p : Pool T) raw :
  layout_ok -> pool_ok Capacity p ->
  (exists slot v p', raw = slot_ptr base width slot /\ storage_ p !! slot = Some v /\
    release Capacity base width alignment raw p = (true, p') /\ pool_ok Capacity p' /\ storage_ p' = delete slot (storage_ p)) \/
  ((forall slot, raw = slot_ptr base width slot -> storage_ p !! slot = None) /\ release Capacity base width alignment raw p = (false, p)).
Proof.
  intros [H1 H2 H3 H4 H5] Hp.
  pose proof (fun idx => slot_index_spec Capacity base width alignment H1 H2 H3 H4 H5 raw idx) as Hidx. unfold release.
  destruct (slot_index Capacity base width alignment raw) as [slot|] eqn:E.
  - destruct (proj1 (Hidx slot) eq_refl) as [Hraw Hr]. destruct (storage_ p !! slot) as [v|] eqn:Ev.
    + left. destruct (release_slot_ok Capacity p slot v Hp Ev) as (p' & He & Hp' & Hs & _). by exists slot, v, p'.
    + right. split; [|by apply (release_slot_dead Capacity)]. intros slot' Hraw'. assert (slot' = slot) as -> by (unfold slot_ptr in *; nia). done.
  - right. split; [|done]. intros slot Hraw. apply eq_None_not_Some. intros Hs. pose proof (pool_range _ _ _ Hp Hs) as Hr.
    discriminate (proj2 (Hidx slot) (conj Hraw Hr)).
Qed.

Lemma pool_exec_ok (p : Pool T) op : layout_ok -> pool_ok Capacity p -> pool_ok Capacity (pool_exec p op).
Proof.
  intros Hl Hp. destruct op as [v|raw|]; cbn [pool_exec].
  - pose proof (po_count _ _ Hp) as Hc. destruct (decide (available p = 0)) as [E|E].
    + by rewrite (try_acquire_full Capacity).
    + destruct (try_acquire_ok Capacity p v Hp) as (idx & p' & -> & Hp' & _); [|done]. unfold available in *. lia.
  - destruct (release_cases p raw Hl Hp) as [(slot & v & p' & _ & _ & -> & Hp' & _)|[_ ->]]; done.
  - by apply reset_ok.
Qed.

Lemma pool_run_ok ops : layout_ok -> pool_ok Capacity (pool_run ops).
Proof.
  intros Hl. unfold pool_run. pose proof (proj1 (new_pool_ok (T := T) Capacity)) as Hp. revert Hp. generalize (new_pool (T := T) Capacity).
  induction ops as [|op ops IH]; intros p Hp; [done|]. cbn [fold_left]. apply IH. by apply pool_exec_ok.
Qed.
End Runs.
