(* ===== verification/Intrusive.v ===== *)
(** * Intrusive: the intrusive pooled storage of [qsl::engine::OrderBook]

    [OrderBook::IntrusiveStore] of src/engine/order_book.cpp: the price and index
    maps are standard containers, a level's FIFO queue is a doubly linked list of
    nodes from one fixed-capacity pool, and a node points to its order in another.
    A pointer into a pool is the slot it points to; [None] is [nullptr]. *)
From S2P Require Import Prelude Core Book BookSpec Pool.

(** [kIntrusivePoolCapacity]; the operations do not depend on its value, which is
    an argument of the constructor only. *)
Definition kIntrusivePoolCapacity : nat := Z.to_nat 65536.

Record Node := mkNode { nd_order : Z; nd_prev : option Z; nd_next : option Z }.

(** [size] never exceeds the pool capacity, so it does not wrap. *)
Record Level := mkLevel { lv_head : option Z; lv_tail : option Z; lv_size : Z }.

Record Locator := mkLocator { il_side : Side; il_price : Price; il_node : Z }.

Record RestingNode := mkRestingNode { rn_id : OrderId; rn_side : Side; rn_price : Price; rn_node : Z }.

(** The two pools: the objects the pointers denote. *)
Record Heap := mkHeap { orders : Pool Order; nodes : Pool Node }.

Record IntrusiveStore := mkIntrusiveStore {
  heap : Heap;
  bids : list (Price * Level);
  asks : list (Price * Level);
  index : gmap Z Locator
}.

Definition empty_level : Level := mkLevel None None 0.
Definition new_heap (Capacity : nat) : Heap := mkHeap (new_pool Capacity) (new_pool Capacity).
Definition new_store (Capacity : nat) : IntrusiveStore := mkIntrusiveStore (new_heap Capacity) [] [] ∅.

Definition greater (a b : Price) : bool := b <? a.
Definition less (a b : Price) : bool := a <? b.

(** ** Pointers *)

Definition get_node (n : Z) (h : Heap) : option Node := storage_ (nodes h) !! n.
Definition get_order (p : Z) (h : Heap) : option Order := storage_ (orders h) !! p.

(** An assignment to a field of [*n]; a dangling [n] is excluded by the
    representation invariant. *)
Definition set_node (f : Node -> Node) (n : Z) (h : Heap) : Heap :=
  match get_node n h with
  | Some nd => mkHeap (orders h) (pool_set n (f nd) (nodes h))
  | None => h
  end.
Definition set_order (f : Order -> Order) (p : Z) (h : Heap) : Heap :=
  match get_order p h with
  | Some o => mkHeap (pool_set p (f o) (orders h)) (nodes h)
  | None => h
  end.

Definition set_prev (q : option Z) (nd : Node) : Node := mkNode (nd_order nd) q (nd_next nd).
Definition set_next (q : option Z) (nd : Node) : Node := mkNode (nd_order nd) (nd_prev nd) q.

(** [node->order]. *)
Definition node_order (n : Z) (h : Heap) : option Order :=
  match get_node n h with Some nd => get_order (nd_order nd) h | None => None end.

Definition has_capacity (s : IntrusiveStore) : bool :=
  (0 <? available (orders (heap s))) && (0 <? available (nodes (heap s))).

(** ** List operations *)

Definition append_node (level : Level) (node : Z) (h : Heap) : Level * Heap :=
  let h := set_node (set_prev (lv_tail level)) node h in
  let h := set_node (set_next None) node h in
  match lv_tail level with
  | Some tail => (mkLevel (lv_head level) (Some node) (lv_size level + 1), set_node (set_next (Some node)) tail h)
  | None => (mkLevel (Some node) (Some node) (lv_size level + 1), h)
  end.

Definition unlink_node (level : Level) (node : Z) (h : Heap) : Level * Heap :=
  match get_node node h with
  | None => (level, h)
  | Some nd =>
      let '(head, h) :=
        match nd_prev nd with
        | Some prev => (lv_head level, set_node (set_next (nd_next nd)) prev h)
        | None => (nd_next nd, h)
        end in
      let '(tail, h) :=
        match nd_next nd with
        | Some next => (lv_tail level, set_node (set_prev (nd_prev nd)) next h)
        | None => (nd_prev nd, h)
        end in
      (mkLevel head tail (lv_size level - 1), h)
  end.

Definition destroy_node (node : Z) (h : Heap) : Heap :=
  match get_node node h with
  | None => h
  | Some nd => mkHeap (release_slot (nd_order nd) (orders h)).2 (release_slot node (nodes h)).2
  end.

Definition level_for (before : Price -> Price -> bool) (levels : list (Price * Level)) (price : Price) :
    list (Price * Level) :=
  om_try_emplace before price empty_level levels.

Definition erase_level_if_empty (price : Price) (levels : list (Price * Level)) : list (Price * Level) :=
  match om_find price levels with
  | Some level => if lv_size level =? 0 then om_erase price levels else levels
  | None => levels
  end.

Definition erase_from (levels : list (Price * Level)) (price : Price) (node : Z) (h : Heap) :
    list (Price * Level) * Heap :=
  match om_find price levels with
  | None => (levels, h) (* not reached: an indexed order has a level *)
  | Some level =>
      let '(level, h) := unlink_node level node h in
      (erase_level_if_empty price (om_alter (fun _ => level) price levels), destroy_node node h)
  end.

Definition erase_resting_order (loc : Locator) (s : IntrusiveStore) : IntrusiveStore :=
  if is_buy (il_side loc) then
    let '(levels, h) := erase_from (bids s) (il_price loc) (il_node loc) (heap s) in
    mkIntrusiveStore h levels (asks s) (index s)
  else
    let '(levels, h) := erase_from (asks s) (il_price loc) (il_node loc) (heap s) in
    mkIntrusiveStore h (bids s) levels (index s).

(** [erase_indexed_order(found)], [found] being the entry of [id]. *)
Definition erase_indexed_order (id : OrderId) (loc : Locator) (s : IntrusiveStore) : IntrusiveStore :=
  erase_resting_order loc (mkIntrusiveStore (heap s) (bids s) (asks s) (delete id (index s))).

(** ** Resting *)

(** [index.emplace] keeps an existing entry and reports it. *)
Definition append_resting (before : Price -> Price -> bool) (levels : list (Price * Level))
    (resting : RestingNode) (h : Heap) (index : gmap Z Locator) :
    bool * list (Price * Level) * Heap * gmap Z Locator :=
  let levels := level_for before levels (rn_price resting) in
  match om_find (rn_price resting) levels with
  | None => (false, levels, h, index) (* not reached: the level was just emplaced *)
  | Some level =>
      let '(level, h) := append_node level (rn_node resting) h in
      match index !! rn_id resting with
      | Some _ =>
          let '(level, h) := unlink_node level (rn_node resting) h in
          let h := destroy_node (rn_node resting) h in
          (false, erase_level_if_empty (rn_price resting) (om_alter (fun _ => level) (rn_price resting) levels),
           h, index)
      | None =>
          (true, om_alter (fun _ => level) (rn_price resting) levels, h,
           <[rn_id resting := mkLocator (rn_side resting) (rn_price resting) (rn_node resting)]> index)
      end
  end.

Definition rest (id : OrderId) (side : Side) (price : Price) (quantity : Quantity) (s : IntrusiveStore) :
    bool * IntrusiveStore :=
  match try_acquire (mkOrder id side price quantity) (orders (heap s)) with
  | (None, _) => (false, s)
  | (Some order, orders1) =>
      match try_acquire (mkNode order None None) (nodes (heap s)) with
      | (None, _) =>
          (false, mkIntrusiveStore (mkHeap (release_slot order orders1).2 (nodes (heap s))) (bids s) (asks s) (index s))
      | (Some node, nodes1) =>
          let resting := mkRestingNode id side price node in
          if is_buy side then
            let '(ok, levels, h, index) := append_resting greater (bids s) resting (mkHeap orders1 nodes1) (index s) in
            (ok, mkIntrusiveStore h levels (asks s) index)
          else
            let '(ok, levels, h, index) := append_resting less (asks s) resting (mkHeap orders1 nodes1) (index s) in
            (ok, mkIntrusiveStore h (bids s) levels index)
      end
  end.

(** ** Matching *)

(** The captured state: the pools and the index. *)
Definition fill_front_order (level_price : Price) (s : (Heap * gmap Z Locator) * Level * MatchContext) :
    (Heap * gmap Z Locator) * Level * MatchContext :=
  let '(h, index, level, ctx) := s in
  match lv_head level with
  | None => s (* not reached: the loop tests [level.head != nullptr] *)
  | Some node =>
      match get_node node h, node_order node h with
      | Some nd, Some maker =>
          let '(ctx, maker_quantity, filled) := fill_maker ctx (o_id maker) (o_quantity maker) level_price in
          let h := set_order (set_quantity maker_quantity) (nd_order nd) h in
          if filled then
            let index := delete (o_id maker) index in
            let '(level, h) := unlink_node level node h in
            (destroy_node node h, index, level, ctx)
          else (h, index, level, ctx)
      | _, _ => s (* not reached: no dangling pointers *)
      end
  end.

Definition fill_level_cond (s : (Heap * gmap Z Locator) * Level * MatchContext) : bool :=
  let '(_, level, ctx) := s in (0 <? c_quantity ctx) && bool_decide (is_Some (lv_head level)).

(** One iteration unlinks the front node or leaves no quantity. *)
Definition fill_level (st : Heap * gmap Z Locator) (level : Level) (level_price : Price) (ctx : MatchContext) :
    (Heap * gmap Z Locator) * Level * MatchContext :=
  while (S (Z.to_nat (lv_size level))) fill_level_cond (fill_front_order level_price) (st, level, ctx).

Definition match_against (st : Heap * gmap Z Locator) (opposite : list (Price * Level)) (ctx : MatchContext) :
    (Heap * gmap Z Locator) * list (Price * Level) * MatchContext :=
  match_ordered_levels fill_level erase_level_if_empty st opposite ctx.

Definition match_opposite (side : Side) (s : IntrusiveStore) (ctx : MatchContext) : IntrusiveStore * MatchContext :=
  if is_buy side then
    let '(h, index, asks, ctx) := match_against (heap s, index s) (asks s) ctx in
    (mkIntrusiveStore h (bids s) asks index, ctx)
  else
    let '(h, index, bids, ctx) := match_against (heap s, index s) (bids s) ctx in
    (mkIntrusiveStore h bids (asks s) index, ctx).

(** ** Walking a level *)

(** [for (node = head; go_on(a) && node != nullptr; node = node->next) a = fn( *node->order, a)]. *)
Fixpoint for_nodes {A : Type} (fuel : nat) (h : Heap) (go_on : A -> bool) (fn : Order -> A -> A)
    (node : option Z) (a : A) : A :=
  match fuel, node with
  | S fuel', Some n =>
      if go_on a then
        match get_node n h, node_order n h with
        | Some nd, Some o => for_nodes fuel' h go_on fn (nd_next nd) (fn o a)
        | _, _ => a (* not reached: no dangling pointers *)
        end
      else a
  | _, _ => a
  end.

(** A level has [size] nodes. *)
Definition over_level {A : Type} (h : Heap) (level : Level) (go_on : A -> bool) (fn : Order -> A -> A) (a : A) : A :=
  for_nodes (S (Z.to_nat (lv_size level))) h go_on fn (lv_head level) a.

Record MatchOutcome := mkMatchOutcome { remainder : Quantity; makers_freed : Z }.

Definition simulate_node_match (o : Order) (outcome : MatchOutcome) : MatchOutcome :=
  let traded := Z.min (remainder outcome) (o_quantity o) in
  mkMatchOutcome (remainder outcome - traded)
    (if traded =? o_quantity o then makers_freed outcome + 1 else makers_freed outcome).

Definition simulate_level_match (h : Heap) (level : Level) (outcome : MatchOutcome) : MatchOutcome :=
  over_level h level (fun outcome => 0 <? remainder outcome) simulate_node_match outcome.

Fixpoint simulate_levels (h : Heap) (opposite : list (Price * Level)) (taker_is_buy : bool) (limit : Price)
    (is_market : bool) (outcome : MatchOutcome) : MatchOutcome :=
  match opposite with
  | [] => outcome
  | (level_price, level) :: opposite' =>
      if 0 <? remainder outcome then
        if negb (can_match_level taker_is_buy is_market limit level_price) then outcome
        else simulate_levels h opposite' taker_is_buy limit is_market (simulate_level_match h level outcome)
      else outcome
  end.

Definition simulate_match (s : IntrusiveStore) (side : Side) (limit : Price) (is_market : bool)
    (quantity : Quantity) : MatchOutcome :=
  if is_buy side then simulate_levels (heap s) (asks s) true limit is_market (mkMatchOutcome quantity 0)
  else simulate_levels (heap s) (bids s) false limit is_market (mkMatchOutcome quantity 0).

Definition can_store_limit (s : IntrusiveStore) (side : Side) (price : Price) (quantity : Quantity)
    (tif : TimeInForce) : bool :=
  if bool_decide (tif = IOC) then true
  else if has_capacity s then true
  else
    let outcome := simulate_match s side price false quantity in
    (remainder outcome =? 0) || (0 <? makers_freed outcome).

(** ** Mutators *)

Definition contains (s : IntrusiveStore) (id : OrderId) : bool := bool_decide (is_Some (index s !! id)).

Definition add_limit (s : IntrusiveStore) (input : LimitInput) : list Trade * IntrusiveStore :=
  if negb (can_store_limit s (in_side input) (in_price input) (in_quantity input) (in_tif input)) then ([], s)
  else
    let '(result, s) :=
      match_incoming (in_id input) (in_side input) (in_price input) false (in_quantity input)
        (fun s => contains s (in_id input)) match_opposite s in
    if should_rest_limit result (in_tif input)
    then (r_trades result, (rest (in_id input) (in_side input) (in_price input) (r_remainder result) s).2)
    else (r_trades result, s).

Definition add_market (s : IntrusiveStore) (id : OrderId) (side : Side) (quantity : Quantity) :
    list Trade * IntrusiveStore :=
  let '(result, s) :=
    match_incoming id side 0 true quantity (fun s => contains s id) match_opposite s in
  (r_trades result, s).

Definition cancel (s : IntrusiveStore) (id : OrderId) : bool * IntrusiveStore :=
  match index s !! id with
  | None => (false, s)
  | Some loc => (true, erase_indexed_order id loc s)
  end.

Definition modify (s : IntrusiveStore) (id : OrderId) (new_price : Price) (new_quantity : Quantity) :
    list Trade * IntrusiveStore :=
  match index s !! id with
  | None => ([], s)
  | Some loc =>
      if new_quantity =? 0 then ([], erase_indexed_order id loc s)
      else
        match get_node (il_node loc) (heap s), node_order (il_node loc) (heap s) with
        | Some nd, Some o =>
            if (new_price =? il_price loc) && (new_quantity <=? o_quantity o)
            then ([], mkIntrusiveStore (set_order (set_quantity new_quantity) (nd_order nd) (heap s))
                        (bids s) (asks s) (index s))
            else add_limit (erase_indexed_order id loc s) (mkLimitInput id (il_side loc) new_price new_quantity GTC)
        | _, _ => ([], s) (* not reached: no dangling pointers *)
        end
  end.

(** ** Queries *)

Definition best_price (levels : list (Price * Level)) : option Price :=
  match levels with [] => None | (p, _) :: _ => Some p end.
Definition best_bid (s : IntrusiveStore) : option Price := best_price (bids s).
Definition best_ask (s : IntrusiveStore) : option Price := best_price (asks s).

Definition find_level (levels : list (Price * Level)) (price : Price) : option Level := om_find price levels.

(** The loop that totals a level. *)
Definition level_total (h : Heap) (level : Level) : QuantityTotal :=
  over_level h level (fun _ => true) (fun o total => u64 (total + o_quantity o)) 0.

Definition quantity_at (s : IntrusiveStore) (side : Side) (price : Price) : QuantityTotal :=
  match (if is_buy side then find_level (bids s) price else find_level (asks s) price) with
  | None => 0
  | Some level => level_total (heap s) level
  end.

Definition order_count (s : IntrusiveStore) : Z := Z.of_nat (size (index s)).

Fixpoint fill_count_levels (h : Heap) (opposite : list (Price * Level)) (taker_is_buy : bool) (limit : Price)
    (is_market : bool) (st : Z * Quantity) : Z * Quantity :=
  match opposite with
  | [] => st
  | (level_price, level) :: opposite' =>
      if 0 <? st.2 then
        if negb (can_match_level taker_is_buy is_market limit level_price) then st
        else
          fill_count_levels h opposite' taker_is_buy limit is_market
            (over_level h level (fun st => 0 <? st.2)
               (fun o (st : Z * Quantity) => (st.1 + 1, st.2 - Z.min st.2 (o_quantity o))) st)
      else st
  end.

Definition fill_count (s : IntrusiveStore) (taker_side : Side) (limit : Price) (is_market : bool)
    (quantity : Quantity) : Z :=
  match taker_side with
  | Buy => (fill_count_levels (heap s) (asks s) true limit is_market (0, quantity)).1
  | Sell => (fill_count_levels (heap s) (bids s) false limit is_market (0, quantity)).1
  | SideRaw _ => 0
  end.

Definition collect_levels (h : Heap) (book : list (Price * Level)) : list LevelView :=
  map (fun e => mkLevelView e.1 (level_total h e.2)) book.
Definition bid_levels (s : IntrusiveStore) : list LevelView := collect_levels (heap s) (bids s).
Definition ask_levels (s : IntrusiveStore) : list LevelView := collect_levels (heap s) (asks s).

Definition append_orders (h : Heap) (book : list (Price * Level)) (out : list Order) : list Order :=
  fold_left (fun out e => over_level h e.2 (fun _ => true) (fun o out => out ++ [o]) out) book out.
Definition resting_orders (s : IntrusiveStore) : list Order :=
  append_orders (heap s) (asks s) (append_orders (heap s) (bids s) []).
