(* ===== verification/IntrusiveSpec.v ===== *)
(** * IntrusiveSpec: the intrusive storage represents the baseline book

    The doubly linked lists of [IntrusiveStore] are described by the entries they
    represent ([heap_repr]): nodes linked in both directions, distinct across
    levels, each with an order of its own.  Linking, unlinking and destroying
    nodes keep the description; every operation then runs in lockstep with the
    operation of the baseline storage on the represented book. *)
From S2P Require Import Prelude Core Book BookSpec OrderBook Pool Intrusive.

Abbreviation entry := (Z * Order)%type (only parsing).

(** ** Linked segments *)

(** The first node of a segment followed by [nxt], the last one of a segment
    preceded by [prev]. *)
Definition first (es : list entry) (nxt : option Z) : option Z :=
  match es with [] => nxt | e :: _ => Some e.1 end.
Fixpoint final (prev : option Z) (es : list entry) : option Z :=
  match es with [] => prev | e :: es' => final (Some e.1) es' end.

Fixpoint seg (N : gmap Z Node) (O : gmap Z Order) (prev : option Z) (es : list entry) (nxt : option Z) : Prop :=
  match es with
  | [] => True
  | e :: es' =>
      (exists p, N !! e.1 = Some (mkNode p prev (first es' nxt)) /\ O !! p = Some e.2) /\
      seg N O (Some e.1) es' nxt
  end.

Lemma first_app es es' nxt : first (es ++ es') nxt = first es (first es' nxt).
Proof. by destruct es. Qed.
Lemma final_app prev es es' : final prev (es ++ es') = final (final prev es) es'.
Proof. revert prev. induction es as [|e es IH]; intros prev; [done|]. apply IH. Qed.
Lemma final_snoc prev es e : final prev (es ++ [e]) = Some e.1.
Proof. by rewrite final_app. Qed.

Lemma seg_app N O prev es es' nxt :
  seg N O prev (es ++ es') nxt <-> seg N O prev es (first es' nxt) /\ seg N O (final prev es) es' nxt.
Proof.
  revert prev. induction es as [|e es IH]; intros prev; cbn [app seg final]; [tauto|].
  rewrite IH, first_app. tauto.
Qed.

(** A segment only depends on its own nodes and their orders. *)
Lemma seg_frame N O N' O' prev es nxt :
  (forall n, n ∈ es.*1 -> N' !! n = N !! n) ->
  (forall n nd, n ∈ es.*1 -> N !! n = Some nd -> O' !! nd_order nd = O !! nd_order nd) ->
  seg N O prev es nxt -> seg N' O' prev es nxt.
Proof.
  revert prev. induction es as [|e es IH]; intros prev HN HO; [done|]. cbn [seg]. intros [(p & Hn & Ho) Hs].
  csimpl in HN. csimpl in HO. split.
  - exists p. rewrite HN by set_solver. split; [done|].
    specialize (HO e.1 _ ltac:(set_solver) Hn). cbn [nd_order] in HO. by rewrite HO.
  - apply IH; [| |done]; intros n; [intros ?; apply HN; set_solver|intros nd ?; apply HO; set_solver].
Qed.

Lemma seg_node N O prev es nxt e :
  seg N O prev es nxt -> e ∈ es -> exists nd, N !! e.1 = Some nd /\ O !! nd_order nd = Some e.2.
Proof.
  revert prev. induction es as [|e' es IH]; intros prev Hs Hin; [set_solver|].
  cbn [seg] in Hs. destruct Hs as [(p & Hn & Ho) Hs]. apply elem_of_cons in Hin as [->|Hin]; [|by eapply IH].
  by exists (mkNode p prev (first es nxt)).
Qed.

(** Redirecting the next pointer of the last node. *)
Lemma seg_set_next N O prev es e nxt nxt' nd :
  seg N O prev (es ++ [e]) nxt -> e.1 ∉ es.*1 -> N !! e.1 = Some nd ->
  seg (<[e.1 := set_next nxt' nd]> N) O prev (es ++ [e]) nxt'.
Proof.
  rewrite !seg_app. cbn [seg first]. intros [Hs [(p & Hn & Ho) _]] Hni Hnd. split.
  - eapply seg_frame; [| |exact Hs]; [|done]. intros n Hn'. apply lookup_insert_ne. set_solver.
  - split; [|done]. exists p. rewrite lookup_insert_eq. rewrite Hn in Hnd. by injection Hnd as <-.
Qed.

(** Redirecting the previous pointer of the first node. *)
Lemma seg_set_prev N O prev prev' es e nxt nd :
  seg N O prev (e :: es) nxt -> e.1 ∉ es.*1 -> N !! e.1 = Some nd ->
  seg (<[e.1 := set_prev prev' nd]> N) O prev' (e :: es) nxt.
Proof.
  cbn [seg]. intros [(p & Hn & Ho) Hs] Hni Hnd. split.
  - exists p. rewrite lookup_insert_eq. rewrite Hn in Hnd. by injection Hnd as <-.
  - eapply seg_frame; [| |exact Hs]; [|done]. intros n Hn'. apply lookup_insert_ne. set_solver.
Qed.

(** ** The pools and the levels they hold *)

Definition level_repr (h : Heap) (level : Level) (es : list entry) : Prop :=
  lv_head level = first es None /\ lv_tail level = final None es /\ lv_size level = Z.of_nat (length es) /\
  seg (storage_ (nodes h)) (storage_ (orders h)) None es None.

Definition ids (ls : list (Level * list entry)) : list Z := (concat (map snd ls)).*1.

#[export] Instance ids_proper : Proper ((≡ₚ) ==> (≡ₚ)) ids.
Proof.
  intros l l' H. unfold ids. apply (fmap_Permutation fst). induction H as [|x l l' H IH|x y l|l l' l'' H1 IH1 H2 IH2]; cbn [map concat]; [done| | |].
  - by rewrite IH.
  - rewrite !app_assoc. f_equiv. apply Permutation_app_comm.
  - by etransitivity.
Qed.

Lemma ids_cons x ls : ids (x :: ls) = x.2.*1 ++ ids ls.
Proof. unfold ids. cbn [map concat]. apply fmap_app. Qed.

Section Repr.
Context (Capacity : nat).

Record heap_repr (h : Heap) (ls : list (Level * list entry)) : Prop := {
  hr_orders : pool_ok Capacity (orders h);
  hr_nodes : pool_ok Capacity (nodes h);
  hr_levels : Forall (fun x => level_repr h x.1 x.2) ls;
  hr_nodup : NoDup (ids ls);
  hr_dom : forall n, is_Some (storage_ (nodes h) !! n) <-> n ∈ ids ls;
  hr_inj : forall n n' nd nd', storage_ (nodes h) !! n = Some nd -> storage_ (nodes h) !! n' = Some nd' ->
    nd_order nd = nd_order nd' -> n = n';
  hr_size : size (storage_ (orders h)) = size (storage_ (nodes h))
}.

#[export] Instance heap_repr_proper h : Proper ((≡ₚ) ==> iff) (heap_repr h).
Proof.
  assert (forall l l', l ≡ₚ l' -> heap_repr h l -> heap_repr h l') as H.
  { intros l l' Hp [H1 H2 H3 H4 H5 H6 H7]. split; try done.
    - by rewrite <- Hp.
    - by rewrite <- Hp.
    - intros n. by rewrite <- Hp. }
  intros l l' Hp. split; apply H; done.
Qed.

Lemma heap_repr_empty_level h ls : heap_repr h ((empty_level, []) :: ls) <-> heap_repr h ls.
Proof.
  split; intros [H1 H2 H3 H4 H5 H6 H7]; split; try done.
  - by apply Forall_cons in H3 as [_ H3].
  - by constructor.
Qed.

(** Entries and free slots fill the pools. *)
Lemma heap_available h ls :
  heap_repr h ls ->
  available (nodes h) = Z.of_nat Capacity - Z.of_nat (length (ids ls)) /\
  available (orders h) = Z.of_nat Capacity - Z.of_nat (length (ids ls)).
Proof.
  intros [H1 H2 H3 H4 H5 H6 H7]. unfold available. pose proof (pool_count _ _ H1) as C1. pose proof (pool_count _ _ H2) as C2.
  assert (size (storage_ (nodes h)) = length (ids ls)) as Hs; [|lia].
  rewrite <- size_dom. assert (dom (storage_ (nodes h)) = list_to_set (ids ls) :> gset Z) as ->.
  { apply set_eq. intros n. by rewrite elem_of_dom, elem_of_list_to_set. }
  by apply size_list_to_set.
Qed.

(** The represented entry of a node. *)
Lemma heap_entry h ls level es e :
  heap_repr h ls -> (level, es) ∈ ls -> e ∈ es ->
  exists nd, get_node e.1 h = Some nd /\ get_order (nd_order nd) h = Some e.2 /\ node_order e.1 h = Some e.2.
Proof.
  intros Hr Hin He. pose proof (hr_levels _ _ Hr) as Hl. rewrite Forall_forall in Hl.
  destruct (Hl _ Hin) as (_ & _ & _ & Hs). destruct (seg_node _ _ _ _ _ _ Hs He) as (nd & Hn & Ho).
  exists nd. unfold node_order, get_node, get_order. by rewrite Hn.
Qed.

(** Levels whose nodes and orders are untouched stay represented. *)
Lemma levels_frame h h' ls :
  Forall (fun x => level_repr h x.1 x.2) ls ->
  (forall n, n ∈ ids ls -> storage_ (nodes h') !! n = storage_ (nodes h) !! n) ->
  (forall n nd, n ∈ ids ls -> storage_ (nodes h) !! n = Some nd ->
    storage_ (orders h') !! nd_order nd = storage_ (orders h) !! nd_order nd) ->
  Forall (fun x => level_repr h' x.1 x.2) ls.
Proof.
  induction ls as [|x ls IH]; intros Hl HN HO; [done|]. apply Forall_cons in Hl as [(H1 & H2 & H3 & H4) Hl].
  rewrite ids_cons in HN, HO. constructor.
  - split_and!; try done. eapply seg_frame; [| |exact H4]; intros n; [intros ?; apply HN; set_solver|intros nd ?; apply HO; set_solver].
  - apply IH; [done|intros n ?; apply HN; apply elem_of_app; by right|intros n nd ?; apply HO; apply elem_of_app; by right].
Qed.

(** ** Assigning to an order *)

Lemma heap_set_quantity h level es1 n o es2 ls nd q :
  heap_repr h ((level, es1 ++ (n, o) :: es2) :: ls) -> get_node n h = Some nd ->
  heap_repr (set_order (set_quantity q) (nd_order nd) h) ((level, es1 ++ (n, set_quantity q o) :: es2) :: ls).
Proof.
  intros Hr Hn. destruct (heap_entry h _ level _ (n, o) Hr ltac:(apply list_elem_of_here) ltac:(set_solver)) as (nd' & Hn' & Ho & _).
  cbn [fst snd] in *. rewrite Hn in Hn'. injection Hn' as <-. unfold set_order. rewrite Ho.
  destruct Hr as [H1 H2 H3 H4 H5 H6 H7]. unfold get_node, get_order in *. rewrite ids_cons in H4, H5. cbn [snd] in H4, H5.
  rewrite fmap_app in H4, H5. csimpl in H4. csimpl in H5.
  assert (forall m nd', m <> n -> storage_ (nodes h) !! m = Some nd' ->
    <[nd_order nd := set_quantity q o]> (storage_ (orders h)) !! nd_order nd' = storage_ (orders h) !! nd_order nd') as Hother.
  { intros m nd' Hm Hnd'. apply lookup_insert_ne. intros E. apply Hm. by eapply H6. }
  apply NoDup_app in H4 as (Hn1 & Hd1 & Hn2).
  split; cbn [orders nodes].
  - apply pool_set_ok; [done|by exists o].
  - done.
  - apply Forall_cons in H3 as [(Hh & Ht & Hs & Hseg) H3]. constructor.
    + unfold level_repr in *. cbn [fst snd orders nodes] in *.
      rewrite first_app, final_app, !length_app in *. cbn [first final fst length] in *. split_and!; try done.
      apply seg_app in Hseg as [Hs1 Hs2]. cbn [seg first fst snd] in Hs2. destruct Hs2 as [(p & Hp & Hpo) Hs2].
      assert (p = nd_order nd) as -> by (rewrite Hn in Hp; by injection Hp as ->).
      apply NoDup_app in Hn1 as (_ & Hd & Hn1). apply NoDup_cons in Hn1 as [Hn1 _].
      apply seg_app. cbn [seg first fst snd pool_set storage_]. split_and!.
      * eapply seg_frame; [| |exact Hs1]; [done|]. intros m nd' Hm. apply Hother. intros ->. apply (Hd n Hm). set_solver.
      * exists (nd_order nd). by rewrite lookup_insert_eq.
      * eapply seg_frame; [| |exact Hs2]; [done|]. intros m nd' Hm. apply Hother. by intros ->.
    + eapply levels_frame; [exact H3|done|]. intros m nd' Hm. apply Hother. intros ->. apply (Hd1 n); [set_solver|done].
  - rewrite ids_cons. cbn [snd]. rewrite fmap_app. csimpl. apply NoDup_app. done.
  - intros m. rewrite H5, ids_cons. cbn [snd]. rewrite fmap_app. csimpl. done.
  - done.
  - cbn [pool_set storage_]. rewrite map_size_insert_Some by (by exists o). done.
Qed.

(** ** Unlinking and destroying a node *)

(** Links of the nodes in [A] changed, nothing else. *)
Definition relinked (A : list Z) (N N' : gmap Z Node) : Prop :=
  (forall m, m ∉ A -> N' !! m = N !! m) /\ (forall m, nd_order <$> N' !! m = nd_order <$> N !! m).

Lemma relinked_refl A N : relinked A N N.
Proof. done. Qed.

Lemma relinked_insert A N N' m nd nd' :
  relinked A N N' -> m ∈ A -> N' !! m = Some nd -> nd_order nd' = nd_order nd ->
  relinked A N (<[m := nd']> N').
Proof.
  intros [H1 H2] Hm Hn Ho. split; intros k.
  - intros Hk. rewrite lookup_insert_ne by (by intros ->). by apply H1.
  - destruct (decide (k = m)) as [->|Hne]; [|by rewrite lookup_insert_ne].
    rewrite lookup_insert_eq, <- H2, Hn. cbn. by rewrite Ho.
Qed.

(** Making [prev] (or the level) point past the node. *)
Lemma unlink_left h es1 x nxt :
  pool_ok Capacity (nodes h) -> NoDup es1.*1 -> seg (storage_ (nodes h)) (storage_ (orders h)) None es1 x ->
  exists h1, match final None es1 with Some prev => set_node (set_next nxt) prev h | None => h end = h1 /\
    orders h1 = orders h /\ pool_ok Capacity (nodes h1) /\
    seg (storage_ (nodes h1)) (storage_ (orders h1)) None es1 nxt /\
    relinked es1.*1 (storage_ (nodes h)) (storage_ (nodes h1)).
Proof.
  intros Hp Hn Hs. eexists. split; [done|]. destruct es1 as [|e es1 _] using rev_ind; [done|].
  rewrite final_snoc. rewrite fmap_app in Hn |- *. csimpl in Hn. csimpl.
  destruct (seg_node _ _ _ _ _ e Hs ltac:(set_solver)) as (nd & Hnd & _). unfold set_node, get_node. rewrite Hnd.
  cbn [orders nodes pool_set storage_]. apply NoDup_app in Hn as (_ & Hd & _). split_and!; [done| | |].
  - apply pool_set_ok; [done|by exists nd].
  - eapply seg_set_next; [exact Hs| |done]. intros Hin. apply (Hd _ Hin). set_solver.
  - eapply relinked_insert; [apply relinked_refl|set_solver|done|done].
Qed.

(** Making [next] (or the level) point back past the node. *)
Lemma unlink_right h es2 x prv :
  pool_ok Capacity (nodes h) -> NoDup es2.*1 -> seg (storage_ (nodes h)) (storage_ (orders h)) x es2 None ->
  exists h1, match first es2 None with Some next => set_node (set_prev prv) next h | None => h end = h1 /\
    orders h1 = orders h /\ pool_ok Capacity (nodes h1) /\
    seg (storage_ (nodes h1)) (storage_ (orders h1)) prv es2 None /\
    relinked es2.*1 (storage_ (nodes h)) (storage_ (nodes h1)).
Proof.
  intros Hp Hn Hs. eexists. split; [done|]. destruct es2 as [|e es2]; [done|]. cbn [first].
  csimpl in Hn. csimpl. destruct (seg_node _ _ _ _ _ e Hs ltac:(set_solver)) as (nd & Hnd & _). unfold set_node, get_node. rewrite Hnd.
  cbn [orders nodes pool_set storage_]. apply NoDup_cons in Hn as [Hn _]. split; [done|]. split; [|split].
  - apply pool_set_ok; [done|by exists nd].
  - by eapply seg_set_prev.
  - eapply relinked_insert; [apply relinked_refl|set_solver|done|done].
Qed.

Lemma unlink_spec h level es1 n o es2 :
  pool_ok Capacity (nodes h) -> level_repr h level (es1 ++ (n, o) :: es2) -> NoDup (es1 ++ (n, o) :: es2).*1 ->
  exists level' h', unlink_node level n h = (level', h') /\ orders h' = orders h /\ pool_ok Capacity (nodes h') /\
    level_repr h' level' (es1 ++ es2) /\ relinked (es1.*1 ++ es2.*1) (storage_ (nodes h)) (storage_ (nodes h')).
Proof.
  intros Hp (Hh & Ht & Hsz & Hs) Hn. rewrite fmap_app in Hn. csimpl in Hn. apply NoDup_app in Hn as (Hn1 & Hd & Hn2).
  apply NoDup_cons in Hn2 as [Hni Hn2]. apply seg_app in Hs as [Hs1 Hs2]. cbn [seg first fst snd] in *.
  destruct Hs2 as [(p & Hnd & Ho) Hs2]. unfold unlink_node, get_node. rewrite Hnd. cbn [nd_prev nd_next].
  destruct (unlink_left h es1 _ (first es2 None) Hp Hn1 Hs1) as (h1 & E1 & Ho1 & Hp1 & Hs1' & Hr1).
  assert (seg (storage_ (nodes h1)) (storage_ (orders h1)) (Some n) es2 None) as Hs2'.
  { eapply seg_frame; [| |exact Hs2]; [|by rewrite Ho1]. intros m Hm. apply Hr1. intros Hin. apply (Hd m Hin). set_solver. }
  destruct (unlink_right h1 es2 _ (final None es1) Hp1 Hn2 Hs2') as (h2 & E2 & Ho2 & Hp2 & Hs3 & Hr2).
  assert (relinked (es1.*1 ++ es2.*1) (storage_ (nodes h)) (storage_ (nodes h2))) as Hr.
  { destruct Hr1 as [A1 B1], Hr2 as [A2 B2]. split; intros m; [|by rewrite B2, B1].
    intros Hm. rewrite A2, A1 by set_solver. done. }
  rewrite first_app, final_app, length_app in *. cbn [first final fst length] in *.
  exists (mkLevel (first es1 (first es2 None)) (final (final None es1) es2) (lv_size level - 1)), h2.
  split_and!; [|by rewrite Ho2|done| |done].
  - rewrite Hh, Ht. destruct es1 as [|e1 es1 _] using rev_ind; destruct es2 as [|e2 es2];
      rewrite ?final_snoc in *; cbn [first final] in *; rewrite ?E1, ?E2; subst; try done; by destruct es1.
  - split_and!; cbn [lv_head lv_tail lv_size]; [by rewrite first_app|by rewrite final_app|rewrite length_app; lia|].
    apply seg_app. split; [|done]. eapply seg_frame; [| |exact Hs1']; [|by rewrite Ho2].
    intros m Hm. apply Hr2. intros Hin. apply (Hd m Hm). set_solver.
Qed.

(** Taking one node out of the represented ones. *)
Lemma ids_middle level level' es1 n o es2 ls :
  ids ((level, es1 ++ (n, o) :: es2) :: ls) ≡ₚ n :: ids ((level', es1 ++ es2) :: ls).
Proof.
  rewrite !ids_cons. cbn [snd]. rewrite !fmap_app. csimpl. by rewrite <- Permutation_middle.
Qed.

Lemma relinked_dom A N N' m : relinked A N N' -> is_Some (N' !! m) <-> is_Some (N !! m).
Proof.
  intros [_ HB]. specialize (HB m). destruct (N' !! m), (N !! m); try done; by split; intros [? ?].
Qed.

Lemma relinked_order A N N' m nd :
  relinked A N N' -> N' !! m = Some nd -> exists nd0, N !! m = Some nd0 /\ nd_order nd0 = nd_order nd.
Proof.
  intros [_ HB] Hm. specialize (HB m). rewrite Hm in HB. destruct (N !! m) as [nd0|]; [|done].
  injection HB as HB. by exists nd0.
Qed.

Lemma destroy_node_spec h n nd o :
  pool_ok Capacity (orders h) -> pool_ok Capacity (nodes h) ->
  get_node n h = Some nd -> get_order (nd_order nd) h = Some o ->
  pool_ok Capacity (orders (destroy_node n h)) /\ pool_ok Capacity (nodes (destroy_node n h)) /\
  storage_ (orders (destroy_node n h)) = delete (nd_order nd) (storage_ (orders h)) /\
  storage_ (nodes (destroy_node n h)) = delete n (storage_ (nodes h)).
Proof.
  intros Ho Hn Hg Hgo. unfold destroy_node. rewrite Hg.
  destruct (release_slot_ok _ (orders h) (nd_order nd) o Ho Hgo) as (po & -> & Hpo & Spo & _).
  destruct (release_slot_ok _ (nodes h) n nd Hn Hg) as (pn & -> & Hpn & Spn & _). done.
Qed.

Lemma heap_unlink h level es1 n o es2 ls :
  heap_repr h ((level, es1 ++ (n, o) :: es2) :: ls) ->
  exists level' h', unlink_node level n h = (level', h') /\
    heap_repr (destroy_node n h') ((level', es1 ++ es2) :: ls).
Proof.
  intros Hr. destruct (heap_entry h _ level (es1 ++ (n, o) :: es2) (n, o) Hr) as (nd & Hn & Ho & _);
    [apply list_elem_of_here|apply elem_of_app; right; apply list_elem_of_here|].
  cbn [fst snd] in *. destruct Hr as [H1 H2 H3 H4 H5 H6 H7].
  pose proof H4 as H4'. rewrite (ids_middle _ level) in H4'. apply NoDup_cons in H4' as [Hfresh Hnd].
  rewrite ids_cons in Hfresh. cbn [snd] in Hfresh. rewrite not_elem_of_app in Hfresh. destruct Hfresh as [Hf1 Hf2].
  rewrite ids_cons in Hnd. cbn [snd] in Hnd. apply NoDup_app in Hnd as (Hnd1 & Hdis & Hnd2).
  assert (NoDup (es1 ++ (n, o) :: es2).*1) as Hnl by (rewrite ids_cons in H4; by apply NoDup_app in H4 as (? & _ & _)).
  apply Forall_cons in H3 as [Hl H3].
  destruct (unlink_spec h level es1 n o es2 H2 Hl Hnl) as (level' & h' & E & Ho' & Hp' & Hl' & Hrel).
  exists level', h'. split; [done|]. rewrite <- fmap_app in Hrel.
  assert (storage_ (nodes h') !! n = Some nd) as Hn' by (by rewrite (proj1 Hrel)).
  destruct (destroy_node_spec h' n nd o) as (Hpo & Hpn & Spo & Spn);
    [by rewrite Ho'|done|done|unfold get_order; by rewrite Ho'|].
  assert (forall m nd', m <> n -> storage_ (nodes h') !! m = Some nd' -> nd_order nd' <> nd_order nd) as Hne.
  { intros m nd' Hm (nd0 & Hm0 & <-)%(relinked_order _ _ _ _ _ Hrel) E'. apply Hm. by eapply H6. }
  split; try done.
  - constructor.
    + destruct Hl' as (L1 & L2 & L3 & L4). split_and!; try done. cbn [fst snd]. rewrite Spn, Spo.
      eapply seg_frame; [| |exact L4].
      * intros m Hm. apply lookup_delete_ne. by intros ->.
      * intros m nd' Hm Hnd'. apply lookup_delete_ne. apply not_eq_sym, (Hne m); [by intros ->|done].
    + eapply (levels_frame h); [exact H3|..].
      * intros m Hm. rewrite Spn, lookup_delete_ne by (by intros ->). apply Hrel. intros Hx. by apply (Hdis m).
      * intros m nd' Hm Hnd'. rewrite Spo, Ho', lookup_delete_ne; [done|]. intros E'.
        assert (n = m) as -> by (by eapply H6). done.
  - rewrite ids_cons. apply NoDup_app. done.
  - intros m. rewrite Spn. destruct (decide (m = n)) as [->|Hm].
    + rewrite lookup_delete_eq, ids_cons, elem_of_app. cbn [snd]. split; [by intros [? ?]|tauto].
    + rewrite lookup_delete_ne, (relinked_dom _ _ _ _ Hrel), H5, (ids_middle level level'), elem_of_cons by done. tauto.
  - intros m m' a b. rewrite Spn. intros Ha Hb Hab. apply lookup_delete_Some in Ha as [_ Ha], Hb as [_ Hb].
    destruct (relinked_order _ _ _ _ _ Hrel Ha) as (a0 & Ha0 & Ea), (relinked_order _ _ _ _ _ Hrel Hb) as (b0 & Hb0 & Eb).
    eapply H6; [done|done|congruence].
  - rewrite Spn, Spo, !map_size_delete_Some by (by eexists; first [exact Hn'|rewrite Ho'; exact Ho]).
    rewrite Ho', H7. f_equal. rewrite <- !size_dom. f_equal. apply set_eq. intros m. rewrite !elem_of_dom.
    by rewrite (relinked_dom _ _ _ _ Hrel).
Qed.

(** ** Acquiring and linking a node *)

(** Every node in use has an order in use. *)
Lemma heap_node_order h ls m nd :
  heap_repr h ls -> storage_ (nodes h) !! m = Some nd -> is_Some (storage_ (orders h) !! nd_order nd).
Proof.
  intros Hr Hm. assert (m ∈ ids ls) as Hin by (apply (hr_dom _ _ Hr); by exists nd). unfold ids in Hin.
  apply list_elem_of_fmap in Hin as (e & -> & He). apply list_elem_of_In, in_concat in He as (es & Hes & He).
  apply list_elem_of_In, list_elem_of_fmap in Hes as ([level es'] & -> & Hx). apply list_elem_of_In in He.
  destruct (heap_entry h ls level es' e Hr Hx He) as (nd' & Hnd' & Ho & _). unfold get_node, get_order in *.
  rewrite Hm in Hnd'. injection Hnd' as <-. by exists e.2.
Qed.

(** [node->prev = ..., node->next = nullptr] on the node just acquired. *)
Lemma set_links h n p prv :
  storage_ (nodes h) !! n = Some (mkNode p None None) -> pool_ok Capacity (nodes h) ->
  let h' := set_node (set_next None) n (set_node (set_prev prv) n h) in
  orders h' = orders h /\ pool_ok Capacity (nodes h') /\
  storage_ (nodes h') = <[n := mkNode p prv None]> (storage_ (nodes h)).
Proof.
  intros Hn Hp. cbv zeta. unfold set_node, get_node. rewrite Hn. cbn [orders nodes pool_set storage_].
  rewrite lookup_insert_eq. cbn [orders nodes pool_set storage_ set_prev set_next nd_order nd_prev nd_next].
  rewrite insert_insert_eq. split_and!; [done| |done].
  assert (pool_ok Capacity (pool_set n (mkNode p prv None) (nodes h))) as H1 by (apply pool_set_ok; [done|by eexists]).
  destruct H1 as [A B C D E]. split; cbn [pool_set storage_ live_ free_indices_ free_count_] in *; try done;
    by rewrite insert_insert_eq.
Qed.

Lemma heap_append h level es ls orders1 nodes1 n p o :
  heap_repr h ((level, es) :: ls) ->
  pool_ok Capacity orders1 -> pool_ok Capacity nodes1 ->
  storage_ (orders h) !! p = None -> storage_ orders1 = <[p := o]> (storage_ (orders h)) ->
  storage_ (nodes h) !! n = None -> storage_ nodes1 = <[n := mkNode p None None]> (storage_ (nodes h)) ->
  exists level' h', append_node level n (mkHeap orders1 nodes1) = (level', h') /\
    heap_repr h' ((level', es ++ [(n, o)]) :: ls).
Proof.
  intros Hr Hpo Hpn Hp Spo Hn Spn. pose proof (fun m nd => heap_node_order h _ m nd Hr) as Hlive.
  destruct Hr as [H1 H2 H3 H4 H5 H6 H7]. apply Forall_cons in H3 as [(L1 & L2 & L3 & L4) H3]. cbn [fst snd] in *.
  assert (n ∉ ids ((level, es) :: ls)) as Hfresh by (rewrite <- H5, Hn; by intros [? ?]).
  rewrite ids_cons in Hfresh. cbn [snd] in Hfresh. apply not_elem_of_app in Hfresh as [Hf1 Hf2].
  rewrite ids_cons in H4. cbn [snd] in H4. pose proof H4 as (Hn1 & Hdis & Hn2)%NoDup_app.
  destruct (set_links (mkHeap orders1 nodes1) n p (lv_tail level)) as (Ho2 & Hp2 & S2); cbn [nodes orders] in *;
    [by rewrite Spn, lookup_insert_eq|done|].
  unfold append_node. set (h2 := set_node (set_next None) n _) in *. rewrite Spn, insert_insert_eq in S2.
  assert (forall m nd, storage_ (nodes h) !! m = Some nd -> nd_order nd <> p) as Hnp.
  { intros m nd Hm E. apply Hlive in Hm. rewrite E, Hp in Hm. by destruct Hm. }
  assert (forall m nd, storage_ (nodes h) !! m = Some nd ->
    storage_ (orders h2) !! nd_order nd = storage_ (orders h) !! nd_order nd) as Hord.
  { intros m nd Hm. rewrite Ho2, Spo. apply lookup_insert_ne, not_eq_sym. by eapply Hnp. }
  assert (seg (storage_ (nodes h2)) (storage_ (orders h2)) None es None) as Hseg2.
  { eapply seg_frame; [| |exact L4].
    - intros m Hm. rewrite S2. apply lookup_insert_ne. by intros <-.
    - intros m nd _. apply Hord. }
  destruct (unlink_left h2 es None (Some n) Hp2 Hn1 Hseg2) as (h3 & E3 & Ho3 & Hp3 & Hs3 & Hrel).
  assert (storage_ (nodes h3) !! n = Some (mkNode p (final None es) None)) as Hn3.
  { rewrite (proj1 Hrel) by done. by rewrite S2, lookup_insert_eq, L2. }
  exists (mkLevel (first es (Some n)) (Some n) (lv_size level + 1)), h3. split.
  { rewrite L2, <- E3. destruct es as [|e es _] using rev_ind; [done|]. rewrite final_snoc, L1. by destruct es. }
  assert (forall m, is_Some (storage_ (nodes h3) !! m) <-> m = n \/ is_Some (storage_ (nodes h) !! m)) as Hdom.
  { intros m. rewrite (relinked_dom _ _ _ _ Hrel), S2. destruct (decide (m = n)) as [->|Hm].
    - rewrite lookup_insert_eq. split; [by left|by eexists].
    - rewrite lookup_insert_ne by done. tauto. }
  split; try done.
  - by rewrite Ho3, Ho2.
  - constructor.
    + split_and!; cbn [fst snd lv_head lv_tail lv_size]; [by rewrite first_app|by rewrite final_snoc|rewrite length_app, L3; cbn [length]; lia|].
      apply seg_app. split; [done|]. cbn [seg first fst snd]. split; [|done]. exists p. split; [done|]. by rewrite Ho3, Ho2, Spo, lookup_insert_eq.
    + eapply (levels_frame h); [exact H3|..].
      * intros m Hm. rewrite (proj1 Hrel) by (intros Hx; by apply (Hdis m)). rewrite S2. apply lookup_insert_ne. by intros <-.
      * intros m nd _. rewrite Ho3. apply Hord.
  - rewrite (ids_middle _ level), app_nil_r. apply NoDup_cons. rewrite ids_cons. cbn [snd]. by rewrite not_elem_of_app.
  - intros m. rewrite Hdom, H5, (ids_middle _ level), app_nil_r, elem_of_cons. done.
  - intros m m' a b Ha Hb Hab.
    destruct (relinked_order _ _ _ _ _ Hrel Ha) as (a0 & Ha0 & Ea), (relinked_order _ _ _ _ _ Hrel Hb) as (b0 & Hb0 & Eb).
    assert (nd_order a0 = nd_order b0) as Heq by congruence. clear Ha Hb Hab Ea Eb.
    rewrite S2 in Ha0, Hb0. apply lookup_insert_Some in Ha0 as [[<- <-]|[_ Ha0]], Hb0 as [[<- <-]|[_ Hb0]]; try done.
    + cbn in Heq. by apply Hnp in Hb0.
    + cbn in Heq. by apply Hnp in Ha0.
    + by eapply H6.
  - assert (size (storage_ (nodes h3)) = size (storage_ (nodes h2))) as ->.
    { rewrite <- !size_dom. f_equal. apply set_eq. intros m. by rewrite !elem_of_dom, (relinked_dom _ _ _ _ Hrel). }
    by rewrite Ho3, Ho2, Spo, S2, !map_size_insert_None, H7.
Qed.
End Repr.

(** ** IntrusiveSim: the intrusive storage in lockstep with the list-based book

    [store_repr] relates an intrusive store (pools, linked levels, index) to the
    baseline book with the same levels; every primitive of the store, and the
    dry-run matching of its admission check, is a step of that relation. *)

(** ** Walking a level *)

Fixpoint over_orders {A : Type} (go_on : A -> bool) (fn : Order -> A -> A) (l : list Order) (a : A) : A :=
  match l with
  | [] => a
  | o :: l' => if go_on a then over_orders go_on fn l' (fn o a) else a
  end.

Lemma for_nodes_spec {A} h (go_on : A -> bool) fn es : forall fuel prev a,
  (length es < fuel)%nat -> seg (storage_ (nodes h)) (storage_ (orders h)) prev es None ->
  for_nodes fuel h go_on fn (first es None) a = over_orders go_on fn (map snd es) a.
Proof.
  induction es as [|[n o] es IH]; intros fuel prev a Hf Hs; (destruct fuel as [|fuel]; [cbn in Hf; lia|]); [done|].
  cbn [seg fst snd] in Hs. destruct Hs as [(p & Hn & Ho) Hs]. cbn [for_nodes first fst map over_orders snd].
  destruct (go_on a); [|done]. unfold node_order, get_node, get_order. rewrite Hn. cbn [nd_order nd_next]. rewrite Ho.
  eapply IH; [cbn in Hf; lia|exact Hs].
Qed.

Lemma over_level_spec {A} h level es (go_on : A -> bool) fn a :
  level_repr h level es -> over_level h level go_on fn a = over_orders go_on fn (map snd es) a.
Proof.
  intros (H1 & _ & H3 & H4). unfold over_level. rewrite H1, H3. eapply for_nodes_spec; [lia|exact H4].
Qed.

(** ** The represented book *)

(** A level map together with the entries its levels represent. *)
Abbreviation lmap := (list (Price * (Level * list (Z * Order)))) (only parsing).

Definition conv (loc : Locator) : OrderBook.Locator :=
  OrderBook.mkLocator (il_side loc) (il_price loc) (il_node loc).

Section Simulation.
Context (Capacity : nat).

Record store_repr_with (s : IntrusiveStore) (b : OrderBook) (pmb pma : lmap) : Prop := {
  sr_bids : bids s = om_map fst pmb;
  sr_bids_ : bids_ b = om_map snd pmb;
  sr_asks : asks s = om_map fst pma;
  sr_asks_ : asks_ b = om_map snd pma;
  sr_index : index_ b = conv <$> index s;
  sr_heap : heap_repr Capacity (heap s) (map snd pmb ++ map snd pma);
  sr_next : next_node b = Z.of_nat Capacity
}.

Definition store_repr (s : IntrusiveStore) (b : OrderBook) : Prop :=
  exists pmb pma, store_repr_with s b pmb pma.

(** *** Filling a level *)

Definition fill_rel (ls : list (Level * list (Z * Order)))
    (x : (Heap * gmap Z Locator) * Level * MatchContext)
    (y : gmap Z OrderBook.Locator * list (Z * Order) * MatchContext) : Prop :=
  let '(h, index, level, ctx) := x in
  let '(index', es, ctx') := y in
  ctx = ctx' /\ index' = conv <$> index /\ heap_repr Capacity h ((level, es) :: ls).

Lemma fill_front_sim ls p x y :
  fill_rel ls x y ->
  fill_level_cond x = OrderBook.fill_level_cond y /\
  (fill_level_cond x = true -> fill_rel ls (fill_front_order p x) (OrderBook.fill_front_order p y)).
Proof.
  destruct x as [[[h index] level] ctx], y as [[index' es] ctx']. intros (-> & -> & Hr).
  pose proof (hr_levels _ _ _ Hr) as Hl. apply Forall_cons in Hl as [(H1 & _) _]. cbn [fst snd] in H1.
  cbn [fill_level_cond OrderBook.fill_level_cond]. rewrite H1. destruct es as [|[n o] es].
  { split; [done|]. intros Hc. apply andb_true_iff in Hc as [_ Hc]. by apply bool_decide_eq_true in Hc as [? ?]. }
  split; [cbn [first is_nil negb fst]; by rewrite bool_decide_true|]. intros _.
  destruct (heap_entry _ h _ level ((n, o) :: es) (n, o) Hr) as (nd & Hn & Ho & Hno); [apply list_elem_of_here..|]. cbn [fst snd] in *.
  cbn [fill_front_order OrderBook.fill_front_order]. rewrite H1. cbn [first fst]. rewrite Hn, Hno.
  destruct (fill_maker ctx' (o_id o) (o_quantity o) p) as [[ctx1 q] filled].
  pose proof (heap_set_quantity _ h level [] n o es ls nd q Hr Hn) as Hq. cbn [app] in Hq.
  set (h1 := set_order (set_quantity q) (nd_order nd) h) in *. destruct filled; [|done].
  destruct (heap_unlink _ h1 level [] n _ es ls Hq) as (level' & h' & E & Hr'). rewrite E.
  split_and!; [done|by rewrite fmap_delete|done].
Qed.

Lemma fill_level_sim ls h index level es p ctx :
  heap_repr Capacity h ((level, es) :: ls) ->
  fill_rel ls (fill_level (h, index) level p ctx) (OrderBook.fill_level (conv <$> index) es p ctx).
Proof.
  intros Hr. pose proof (hr_levels _ _ _ Hr) as Hl. apply Forall_cons in Hl as [(_ & _ & H3 & _) _]. cbn [fst snd] in H3.
  unfold fill_level, OrderBook.fill_level. rewrite H3, Nat2Z.id.
  apply (while_simulation (fill_rel ls)); [by intros; apply fill_front_sim|done].
Qed.

(** *** Empty levels *)

Definition pm_erase (price : Price) (pm : lmap) : lmap :=
  match om_find price pm with Some (_, []) => om_erase price pm | _ => pm end.

Lemma erase_sim price (pm : lmap) h :
  Forall (fun x => level_repr h x.1 x.2) (map snd pm) ->
  erase_level_if_empty price (om_map fst pm) = om_map fst (pm_erase price pm) /\
  OrderBook.erase_level_if_empty price (om_map snd pm) = om_map snd (pm_erase price pm).
Proof.
  intros Hl. unfold erase_level_if_empty, OrderBook.erase_level_if_empty, pm_erase. rewrite !om_find_map.
  destruct (om_find price pm) as [[level es]|] eqn:E; [|done]. cbn [fmap option_fmap option_map fst snd].
  apply om_find_Some in E as (l & r & -> & _). rewrite map_app in Hl. apply Forall_app in Hl as [_ Hl]. cbn [map] in Hl.
  apply Forall_cons in Hl as [(_ & _ & H3 & _) _]. cbn [fst snd] in H3. rewrite H3. destruct es as [|e es].
  - by rewrite !om_erase_map.
  - done.
Qed.

Lemma om_erase_split {V} k l (v : V) r :
  om_find k l = None -> om_erase k (l ++ (k, v) :: r) = l ++ r.
Proof. intros Hl. rewrite om_erase_app_None by done. cbn [om_erase]. by rewrite Z.eqb_refl. Qed.
Lemma om_alter_split {V} k l (v : V) r f :
  om_find k l = None -> om_alter f k (l ++ (k, v) :: r) = l ++ (k, f v) :: r.
Proof. intros Hl. rewrite om_alter_app_None by done. cbn [om_alter]. by rewrite Z.eqb_refl. Qed.

Lemma empty_repr h level : level_repr h level [] -> level = empty_level.
Proof. intros (H1 & H2 & H3 & _). destruct level. cbn in *. by subst. Qed.

Lemma pm_erase_heap price (pm : lmap) other h :
  heap_repr Capacity h (map snd pm ++ other) -> heap_repr Capacity h (map snd (pm_erase price pm) ++ other).
Proof.
  intros Hr. unfold pm_erase. destruct (om_find price pm) as [[level [|e es]]|] eqn:E; [|done|done].
  apply om_find_Some in E as (l & r & -> & Hl). rewrite om_erase_split by done.
  rewrite map_app in Hr |- *. cbn [map snd] in Hr. rewrite <- app_assoc in Hr |- *. cbn [app] in Hr.
  rewrite <- Permutation_middle in Hr. pose proof (hr_levels _ _ _ Hr) as Hlv. apply Forall_cons in Hlv as [Hlv _].
  cbn [fst snd] in Hlv. apply empty_repr in Hlv as ->. by apply (heap_repr_empty_level Capacity h _).
Qed.

(** *** Matching *)

Definition mol_rel (other : list (Level * list (Z * Order)))
    (x : (Heap * gmap Z Locator) * list (Price * Level) * MatchContext * bool)
    (y : gmap Z OrderBook.Locator * list (Price * list (Z * Order)) * MatchContext * bool) : Prop :=
  let '(h, index, opp, ctx, running) := x in
  let '(index', opp', ctx', running') := y in
  exists pm, opp = om_map fst pm /\ opp' = om_map snd pm /\ ctx = ctx' /\ running = running' /\
    index' = conv <$> index /\ heap_repr Capacity h (map snd pm ++ other).

Lemma mol_sim other x y :
  mol_rel other x y ->
  mol_cond x = mol_cond y /\
  (mol_cond x = true ->
   mol_rel other (mol_body fill_level erase_level_if_empty x)
     (mol_body OrderBook.fill_level OrderBook.erase_level_if_empty y)).
Proof.
  destruct x as [[[[h index] opp] ctx] running], y as [[[index' opp'] ctx'] running'].
  intros (pm & -> & -> & -> & -> & -> & Hr). destruct pm as [|[p [level es]] pm].
  { split; [done|]. cbn. by rewrite !andb_false_r. }
  split; [done|]. intros _. rewrite !om_map_cons. cbn [fst snd]. unfold mol_body.
  destruct (can_match_level _ _ _ p); cbn [negb]; [|by exists ((p, (level, es)) :: pm)].
  cbn [map snd app] in Hr. pose proof (fill_level_sim _ h index level es p ctx' Hr) as Hf.
  destruct (fill_level (h, index) level p ctx') as [[[h1 index1] level1] ctx1].
  destruct (OrderBook.fill_level _ es p ctx') as [[index1' es1] ctx1']. destruct Hf as (-> & -> & Hr1).
  set (pm1 := (p, (level1, es1)) :: pm). assert (heap_repr Capacity h1 (map snd pm1 ++ other)) as Hr1' by done.
  destruct (erase_sim p pm1 h1) as [E1 E2].
  { pose proof (hr_levels _ _ _ Hr1') as Hl. by apply Forall_app in Hl as [Hl _]. }
  exists (pm_erase p pm1). split_and!; try done. by apply pm_erase_heap.
Qed.

Lemma match_against_sim (pm : lmap) other h index ctx :
  heap_repr Capacity h (map snd pm ++ other) ->
  exists pm' h' index' ctx',
    match_against (h, index) (om_map fst pm) ctx = (h', index', om_map fst pm', ctx') /\
    OrderBook.match_against (conv <$> index) (om_map snd pm) ctx = (conv <$> index', om_map snd pm', ctx') /\
    heap_repr Capacity h' (map snd pm' ++ other).
Proof.
  intros Hr. unfold match_against, OrderBook.match_against, match_ordered_levels.
  replace (length (om_map fst pm)) with (length (om_map snd pm)) by (unfold om_map; by rewrite !List.length_map).
  pose proof (while_simulation (mol_rel other) _ _ _ _ (mol_sim other) (S (length (om_map snd pm)))
    (h, index, om_map fst pm, ctx, true) (conv <$> index, om_map snd pm, ctx, true)) as Hw.
  destruct (while _ mol_cond (mol_body fill_level _) _) as [[[[h1 index1] opp1] ctx1] run1].
  destruct (while _ mol_cond (mol_body OrderBook.fill_level _) _) as [[[index1' opp1'] ctx1'] run1'].
  destruct Hw as (pm' & -> & -> & -> & _ & -> & Hr'); [by exists pm|]. by exists pm', h1, index1, ctx1'.
Qed.

Lemma match_opposite_sim s b side ctx :
  store_repr s b ->
  store_repr (match_opposite side s ctx).1 (OrderBook.match_baseline side b ctx).1 /\
  (match_opposite side s ctx).2 = (OrderBook.match_baseline side b ctx).2.
Proof.
  intros (pmb & pma & [H1 H2 H3 H4 H5 H6 H7]). unfold match_opposite, OrderBook.match_baseline.
  rewrite H1, H2, H3, H4, H5. destruct (is_buy side).
  - rewrite Permutation_app_comm in H6. destruct (match_against_sim pma _ _ (index s) ctx H6) as (pm' & h' & index' & ctx' & -> & -> & Hr).
    split; [|done]. exists pmb, pm'. split; try done. cbn [fst heap]. by rewrite Permutation_app_comm.
  - destruct (match_against_sim pmb _ _ (index s) ctx H6) as (pm' & h' & index' & ctx' & -> & -> & Hr).
    split; [|done]. by exists pm', pma.
Qed.

(** *** One level of a map *)

(** The map with level [price] replaced; the other levels are untouched. *)
Lemma lmap_focus (pm : lmap) price level es other h :
  om_find price pm = Some (level, es) -> heap_repr Capacity h (map snd pm ++ other) ->
  exists rest, heap_repr Capacity h ((level, es) :: rest) /\
    forall h' level' es', heap_repr Capacity h' ((level', es') :: rest) ->
      heap_repr Capacity h' (map snd (om_alter (fun _ => (level', es')) price pm) ++ other).
Proof.
  intros Hf Hr. apply om_find_Some in Hf as (l & r & -> & Hl). exists (map snd l ++ map snd r ++ other).
  rewrite map_app, <- app_assoc in Hr. cbn [map snd app] in Hr. rewrite <- Permutation_middle in Hr. split; [done|].
  intros h' level' es' Hr'. rewrite om_alter_split, map_app, <- app_assoc by done. cbn [map snd app].
  by rewrite <- Permutation_middle.
Qed.

Lemma om_alter_const {V} (f : V -> V) k m v : om_find k m = Some v -> om_alter f k m = om_alter (fun _ => f v) k m.
Proof. intros Hf. apply om_find_Some in Hf as (l & r & -> & Hl). by rewrite !om_alter_split. Qed.

(** *** Resting *)

Lemma try_emplace_heap before price (pm : lmap) other h :
  heap_repr Capacity h (map snd pm ++ other) ->
  heap_repr Capacity h (map snd (om_try_emplace before price (empty_level, []) pm) ++ other).
Proof.
  assert (om_try_emplace before price (empty_level, []) pm = pm \/
    map snd (om_try_emplace before price (empty_level, []) pm) ≡ₚ (empty_level, []) :: map snd pm) as [->| ->].
  { induction pm as [|[k v] pm IH]; [by right|]. cbn [om_try_emplace]. destruct (before price k); [by right|].
    destruct (price =? k); [by left|]. destruct IH as [->|IH]; [by left|right]. cbn [map]. rewrite IH. apply Permutation_swap. }
  - done.
  - intros Hr. cbn [app]. by apply heap_repr_empty_level.
Qed.

Lemma try_emplace_found before price (pm : lmap) v :
  exists x, om_find price (om_try_emplace before price v pm) = Some x.
Proof.
  destruct (om_find price (om_try_emplace before price v pm)) as [x|] eqn:E; [by exists x|].
  apply om_find_None in E. exfalso. apply E, om_try_emplace_keys. by left.
Qed.

Lemma append_resting_sim is_bid (pm : lmap) other h orders1 nodes1 index o n p :
  heap_repr Capacity h (map snd pm ++ other) -> index !! o_id o = None ->
  pool_ok Capacity orders1 -> pool_ok Capacity nodes1 ->
  storage_ (orders h) !! p = None -> storage_ orders1 = <[p := o]> (storage_ (orders h)) ->
  storage_ (nodes h) !! n = None -> storage_ nodes1 = <[n := mkNode p None None]> (storage_ (nodes h)) ->
  exists pm' h',
    append_resting (OrderBook.before_of is_bid) (om_map fst pm) (mkRestingNode (o_id o) (o_side o) (o_price o) n)
      (mkHeap orders1 nodes1) index =
      (true, om_map fst pm', h', <[o_id o := mkLocator (o_side o) (o_price o) n]> index) /\
    OrderBook.push_order is_bid n o (om_map snd pm) = om_map snd pm' /\
    heap_repr Capacity h' (map snd pm' ++ other).
Proof.
  intros Hr Hi Hpo Hpn Hp Spo Hn Spn.
  set (pm1 := om_try_emplace (OrderBook.before_of is_bid) (o_price o) (empty_level, []) pm).
  destruct (try_emplace_found (OrderBook.before_of is_bid) (o_price o) pm (empty_level, [])) as [[level es] Hf]. fold pm1 in Hf.
  apply (try_emplace_heap (OrderBook.before_of is_bid) (o_price o)) in Hr. fold pm1 in Hr.
  destruct (lmap_focus pm1 (o_price o) level es other h Hf Hr) as (rest & Hr1 & Hback).
  destruct (heap_append Capacity h level es rest orders1 nodes1 n p o) as (level' & h' & E & Hr2); try done.
  assert (om_try_emplace (OrderBook.before_of is_bid) (o_price o) empty_level (om_map fst pm) = om_map fst pm1) as T1
    by (symmetry; apply (om_try_emplace_map (OrderBook.before_of is_bid) fst)).
  assert (om_try_emplace (OrderBook.before_of is_bid) (o_price o) [] (om_map snd pm) = om_map snd pm1) as T2
    by (symmetry; apply (om_try_emplace_map (OrderBook.before_of is_bid) snd)).
  exists (om_alter (fun _ => (level', es ++ [(n, o)])) (o_price o) pm1), h'. split_and!.
  - unfold append_resting, level_for. cbn [rn_price rn_node rn_id rn_side].
    rewrite T1, om_find_map, Hf. cbn [fmap option_fmap option_map fst]. rewrite E, Hi.
    by rewrite (om_alter_map fst _ (fun _ => level')).
  - unfold OrderBook.push_order. rewrite T2, (om_alter_map snd _ (fun _ => es ++ [(n, o)])) by done.
    apply (om_alter_const (fun l => l ++ [(n, o)])). by rewrite om_find_map, Hf.
  - by apply Hback.
Qed.

Lemma available_sim s b :
  store_repr s b ->
  available (orders (heap s)) = Z.of_nat Capacity - Z.of_nat (length (OrderBook.all_entries b)) /\
  available (nodes (heap s)) = Z.of_nat Capacity - Z.of_nat (length (OrderBook.all_entries b)).
Proof.
  intros (pmb & pma & [H1 H2 H3 H4 H5 H6 H7]). destruct (heap_available _ _ _ H6) as [E1 E2]. rewrite E1, E2.
  assert (length (ids (map snd pmb ++ map snd pma)) = length (OrderBook.all_entries b)) as ->; [|done].
  unfold ids, OrderBook.all_entries, OrderBook.entries, om_map. rewrite H2, H4. unfold om_map. rewrite length_fmap, !map_app, concat_app, !map_map. done.
Qed.

(** The nodes of the represented book are those in use. *)
Lemma nodes_sim s b n : store_repr s b -> is_Some (storage_ (nodes (heap s)) !! n) <-> n ∈ (OrderBook.all_entries b).*1.
Proof.
  intros (pmb & pma & [H1 H2 H3 H4 H5 H6 H7]). rewrite (hr_dom _ _ _ H6).
  unfold ids, OrderBook.all_entries, OrderBook.entries. rewrite H2, H4. unfold om_map. by rewrite map_app, concat_app, !map_map.
Qed.

Lemma rest_sim s b o :
  store_repr s b -> index s !! o_id o = None -> Z.of_nat (length (OrderBook.all_entries b)) < Z.of_nat Capacity ->
  exists n s', rest (o_id o) (o_side o) (o_price o) (o_quantity o) s = (true, s') /\
    store_repr s' (OrderBook.push_at n (Z.of_nat Capacity) o b) /\
    n ∉ (OrderBook.all_entries b).*1 /\ n < Z.of_nat Capacity.
Proof.
  intros Hs Hi Hlt. destruct (available_sim s b Hs) as [A1 A2]. pose proof (fun n => nodes_sim s b n Hs) as Hnodes.
  destruct Hs as (pmb & pma & [H1 H2 H3 H4 H5 H6 H7]).
  destruct (try_acquire_ok Capacity (orders (heap s)) o (hr_orders _ _ _ H6)) as (p & orders1 & Eo & Hpo & _ & Hp & Spo); [lia|].
  destruct (try_acquire_ok Capacity (nodes (heap s)) (mkNode p None None) (hr_nodes _ _ _ H6)) as (n & nodes1 & En & Hpn & Hrange & Hn & Spn); [lia|].
  unfold rest. replace (mkOrder (o_id o) (o_side o) (o_price o) (o_quantity o)) with o by (by destruct o). rewrite Eo, En.
  assert (n ∉ (OrderBook.all_entries b).*1) as Hfresh by (rewrite <- Hnodes, Hn; by intros [? ?]).
  unfold OrderBook.push_at, OrderBook.with_side. rewrite H1, H2, H3, H4, H5. destruct (is_buy (o_side o)).
  - destruct (append_resting_sim true pmb (map snd pma) (heap s) orders1 nodes1 (index s) o n p) as (pm' & h' & E & E2 & Hr); try done.
    change (OrderBook.before_of true) with greater in E. rewrite E. eexists n, _. split; [done|]. split_and!; [rewrite E2|done|lia].
    exists pm', pma. split; try done. cbn [index_ index]. by rewrite fmap_insert.
  - rewrite Permutation_app_comm in H6.
    destruct (append_resting_sim false pma (map snd pmb) (heap s) orders1 nodes1 (index s) o n p) as (pm' & h' & E & E2 & Hr); try done.
    change (OrderBook.before_of false) with less in E. rewrite E. eexists n, _. split; [done|]. split_and!; [rewrite E2|done|lia].
    exists pmb, pm'. split; try done; [cbn [index_ index]; by rewrite fmap_insert|]. cbn [heap]. by rewrite Permutation_app_comm.
Qed.

(** *** Erasing *)

Lemma filter_node es1 n o es2 :
  NoDup (es1 ++ (n, o) :: es2).*1 ->
  filter (fun e : Z * Order => e.1 <> n) (es1 ++ (n, o) :: es2) = es1 ++ es2.
Proof.
  intros Hn. rewrite fmap_app in Hn. csimpl in Hn. apply NoDup_app in Hn as (_ & Hd & Hn). apply NoDup_cons in Hn as [Hn _].
  rewrite filter_app, filter_cons, decide_False by naive_solver. rewrite !OrderBook.filter_not_in; [done|done|].
  intros Hin. apply (Hd n Hin). apply list_elem_of_here.
Qed.

Lemma heap_level_nodup h level es rest : heap_repr Capacity h ((level, es) :: rest) -> NoDup es.*1.
Proof. intros Hr. pose proof (hr_nodup _ _ _ Hr) as Hn. rewrite ids_cons in Hn. by apply NoDup_app in Hn as (? & _ & _). Qed.

Lemma erase_from_sim (pm : lmap) other h price n o side es :
  heap_repr Capacity h (map snd pm ++ other) -> om_find price (om_map snd pm) = Some es -> (n, o) ∈ es ->
  exists pm' h', erase_from (om_map fst pm) price n h = (om_map fst pm', h') /\
    OrderBook.erase_from_side (om_map snd pm) (OrderBook.mkLocator side price n) = om_map snd pm' /\
    heap_repr Capacity h' (map snd pm' ++ other).
Proof.
  intros Hr Hf Hin. rewrite om_find_map in Hf. destruct (om_find price pm) as [[level es']|] eqn:E; [|done].
  cbn in Hf. injection Hf as ->. destruct (lmap_focus pm price level es other h E Hr) as (rest & Hr1 & Hback).
  apply list_elem_of_split in Hin as (es1 & es2 & ->). pose proof (heap_level_nodup _ _ _ _ Hr1) as Hnd.
  destruct (heap_unlink Capacity h level es1 n o es2 rest Hr1) as (level' & h' & Eu & Hr2). apply Hback in Hr2.
  set (pm1 := om_alter (fun _ => (level', es1 ++ es2)) price pm) in *.
  exists (pm_erase price pm1), (destroy_node n h').
  destruct (erase_sim price pm1 (destroy_node n h')) as [E1 E2].
  { pose proof (hr_levels _ _ _ Hr2) as Hl. by apply Forall_app in Hl as [Hl _]. }
  split_and!; [| |by apply pm_erase_heap].
  - unfold erase_from. rewrite om_find_map, E. cbn [fmap option_fmap option_map fst]. rewrite Eu, <- E1. unfold pm1.
    by rewrite (om_alter_map fst _ (fun _ => level')).
  - unfold OrderBook.erase_from_side. cbn [OrderBook.loc_price OrderBook.loc_it]. rewrite <- E2. unfold pm1.
    rewrite (om_alter_map snd _ (fun _ => es1 ++ es2)) by done. f_equal.
    rewrite (om_alter_const _ _ _ (es1 ++ (n, o) :: es2)) by (by rewrite om_find_map, E). by rewrite filter_node.
Qed.

(** An entry of the represented book sits in the level of its price. *)
Lemma entry_level b e :
  OrderBook.wf b -> e ∈ OrderBook.all_entries b ->
  exists es, om_find (o_price e.2) (if is_buy (o_side e.2) then bids_ b else asks_ b) = Some es /\ e ∈ es.
Proof.
  intros Hwf Hin. destruct (OrderBook.find_level_spec b e Hwf Hin) as (es & Hf & He & _). exists es.
  unfold OrderBook.find_level in Hf. by destruct (is_buy (o_side e.2)).
Qed.

Lemma erase_resting_order_sim s b e :
  store_repr s b -> OrderBook.wf b -> e ∈ OrderBook.all_entries b ->
  store_repr (erase_indexed_order (o_id e.2) (mkLocator (o_side e.2) (o_price e.2) e.1) s)
    (OrderBook.erase_resting_order (OrderBook.mkLocator (o_side e.2) (o_price e.2) e.1)
      (OrderBook.set_index (delete (o_id e.2) (index_ b)) b)).
Proof.
  intros (pmb & pma & [H1 H2 H3 H4 H5 H6 H7]) Hwf Hin. destruct (entry_level b e Hwf Hin) as (es & Hf & He).
  destruct e as [n o]. cbn [fst snd] in *. unfold erase_indexed_order, erase_resting_order, OrderBook.erase_resting_order.
  cbn [il_side il_price il_node OrderBook.loc_side bids asks heap index]. destruct (is_buy (o_side o)); cbn [OrderBook.set_index bids_ asks_].
  - rewrite H2 in Hf. destruct (erase_from_sim pmb _ _ _ n o (o_side o) es H6 Hf He) as (pm' & h' & E & E2 & Hr).
    rewrite H1, E, H2, E2. exists pm', pma. split; try done. cbn. by rewrite H5, fmap_delete.
  - rewrite H4 in Hf. rewrite Permutation_app_comm in H6.
    destruct (erase_from_sim pma _ _ _ n o (o_side o) es H6 Hf He) as (pm' & h' & E & E2 & Hr).
    rewrite H3, E, H4, E2. exists pmb, pm'. split; try done; [cbn; by rewrite H5, fmap_delete|]. cbn [heap]. by rewrite Permutation_app_comm.
Qed.

(** *** Assigning a quantity *)

Lemma level_set_split q n o es1 es2 :
  NoDup (es1 ++ (n, o) :: es2).*1 ->
  OrderBook.level_set n q (es1 ++ (n, o) :: es2) = es1 ++ (n, set_quantity q o) :: es2.
Proof.
  intros Hn. rewrite OrderBook.level_set_map by done. rewrite fmap_app in Hn. csimpl in Hn.
  apply NoDup_app in Hn as (_ & Hd & Hn). apply NoDup_cons in Hn as [Hn _]. rewrite map_app. cbn [map].
  rewrite !OrderBook.assign_entry_absent; [|done|intros Hin; apply (Hd n Hin); apply list_elem_of_here].
  unfold OrderBook.assign_entry at 1. cbn [fst snd]. by rewrite Z.eqb_refl.
Qed.

Lemma assign_pm_sim (pm : lmap) other h price n o es nd q :
  heap_repr Capacity h (map snd pm ++ other) -> om_find price (om_map snd pm) = Some es -> (n, o) ∈ es ->
  get_node n h = Some nd ->
  exists pm', om_map fst pm' = om_map fst pm /\
    om_alter (OrderBook.level_set n q) price (om_map snd pm) = om_map snd pm' /\
    heap_repr Capacity (set_order (set_quantity q) (nd_order nd) h) (map snd pm' ++ other).
Proof.
  intros Hr Hf Hin Hn. rewrite om_find_map in Hf. destruct (om_find price pm) as [[level es']|] eqn:E; [|done].
  cbn in Hf. injection Hf as ->. destruct (lmap_focus pm price level es other h E Hr) as (rest & Hr1 & Hback).
  apply list_elem_of_split in Hin as (es1 & es2 & ->). pose proof (heap_level_nodup _ _ _ _ Hr1) as Hnd.
  pose proof (heap_set_quantity Capacity h level es1 n o es2 rest nd q Hr1 Hn) as Hr2. apply Hback in Hr2.
  eexists. split_and!; [| |exact Hr2].
  - rewrite (om_alter_map fst _ (fun _ => level)) by done. apply om_find_Some in E as (l & r & -> & Hl).
    rewrite om_map_app, om_map_cons, om_alter_split; [done|]. by rewrite om_find_map, Hl.
  - rewrite (om_alter_map snd _ (fun _ => es1 ++ (n, set_quantity q o) :: es2)) by done.
    rewrite (om_alter_const _ _ _ (es1 ++ (n, o) :: es2)) by (by rewrite om_find_map, E). by rewrite level_set_split.
Qed.

Lemma node_sim s b e :
  store_repr s b -> e ∈ OrderBook.all_entries b ->
  exists nd, get_node e.1 (heap s) = Some nd /\ node_order e.1 (heap s) = Some e.2.
Proof.
  intros (pmb & pma & [H1 H2 H3 H4 H5 H6 H7]) Hin. unfold OrderBook.all_entries, OrderBook.entries in Hin. rewrite H2, H4 in Hin.
  unfold om_map in Hin. rewrite !map_map, <- concat_app, <- map_app in Hin. cbn [snd] in Hin.
  apply list_elem_of_In, in_concat in Hin as (es & Hes & He). apply list_elem_of_In, list_elem_of_fmap in Hes as ([k [level es']] & -> & Hx).
  cbn [snd] in He. apply list_elem_of_In in He.
  destruct (heap_entry _ _ _ level es' e H6) as (nd & Hn & _ & Ho); [|done|by exists nd].
  rewrite <- map_app. by apply (list_elem_of_fmap_2 snd) in Hx.
Qed.

Lemma assign_sim s b e nd q :
  store_repr s b -> OrderBook.wf b -> e ∈ OrderBook.all_entries b -> get_node e.1 (heap s) = Some nd ->
  store_repr (mkIntrusiveStore (set_order (set_quantity q) (nd_order nd) (heap s)) (bids s) (asks s) (index s))
    (OrderBook.assign_quantity b (OrderBook.mkLocator (o_side e.2) (o_price e.2) e.1) q).
Proof.
  intros (pmb & pma & [H1 H2 H3 H4 H5 H6 H7]) Hwf Hin Hn. destruct (entry_level b e Hwf Hin) as (es & Hf & He).
  destruct e as [n o]. cbn [fst snd] in *. unfold OrderBook.assign_quantity. cbn [OrderBook.loc_side OrderBook.loc_price OrderBook.loc_it].
  destruct (is_buy (o_side o)).
  - rewrite H2 in Hf. destruct (assign_pm_sim pmb _ _ _ n o es nd q H6 Hf He Hn) as (pm' & E & E2 & Hr).
    exists pm', pma. split; try done; cbn; [by rewrite E|by rewrite H2, E2].
  - rewrite H4 in Hf. rewrite Permutation_app_comm in H6. destruct (assign_pm_sim pma _ _ _ n o es nd q H6 Hf He Hn) as (pm' & E & E2 & Hr).
    exists pmb, pm'. split; try done; cbn; [by rewrite E|by rewrite H4, E2|]. by rewrite Permutation_app_comm.
Qed.

(** ** Counting fills without performing them *)

(** The loop of [simulate_match] and [fill_count] over the opposite levels. *)
Fixpoint levels_loop {St : Type} (go_on : St -> bool) (step : Level -> St -> St) (cross : Price -> bool)
    (opp : list (Price * Level)) (st : St) : St :=
  match opp with
  | [] => st
  | (p, level) :: opp' =>
      if go_on st then if negb (cross p) then st else levels_loop go_on step cross opp' (step level st) else st
  end.

Section LevelsLoop.
Context {St : Type} (rel : St -> Z -> Z -> Quantity -> Prop) (h : Heap) (taker : OrderId) (cross : Price -> bool).
Context (go_on : St -> bool) (step : Level -> St -> St).
Hypothesis Hgo : forall st n m q, rel st n m q -> go_on st = (0 <? q).
Hypothesis Hstep : forall level es st n m q,
  level_repr h level es -> Forall (fun o => 0 < o_quantity o) (map snd es) -> 0 <= q -> rel st n m q ->
  let '(ts, r, l') := a_match taker (fun _ => true) q (map snd es) in
  rel (step level st) (n + Z.of_nat (length ts)) (m + Z.of_nat (length es) - Z.of_nat (length l')) r.

(** It counts the trades and the filled makers of matching the levels. *)
Lemma levels_loop_spec before (pm : lmap) : forall st n m q,
  Forall (fun x => level_repr h x.1 x.2) (map snd pm) -> OrderBook.levels_ok before (om_map snd pm) ->
  Forall (fun o => 0 < o_quantity o) (OrderBook.flat (om_map snd pm)) -> 0 <= q -> rel st n m q ->
  let '(ts, r, l') := a_match taker cross q (OrderBook.flat (om_map snd pm)) in
  rel (levels_loop go_on step cross (om_map fst pm) st) (n + Z.of_nat (length ts))
    (m + Z.of_nat (length (OrderBook.flat (om_map snd pm))) - Z.of_nat (length l')) r.
Proof.
  induction pm as [|[p [level es]] pm IH]; intros st n m q Hl Hok Hpos Hq Hrel.
  { cbn. by rewrite !Z.add_0_r, Z.sub_0_r. }
  rewrite !om_map_cons in *. cbn [map fst snd] in *. apply Forall_cons in Hl as [Hlv Hl]. cbn [fst snd] in Hlv.
  apply OrderBook.levels_ok_cons in Hok as (Hne & Hp & _ & Hok). rewrite OrderBook.flat_cons in *.
  apply Forall_app in Hpos as [Hpe Hpos]. cbn [levels_loop]. rewrite (Hgo _ _ _ _ Hrel).
  assert (forall k : Z, m + k - k = m) as Hz by lia.
  destruct (0 <? q) eqn:Eq; [|rewrite a_match_stop by lia; by rewrite Z.add_0_r, Hz].
  assert (Forall (fun o => o_price o = p) (map snd es)) as Hpr by (by apply Forall_map).
  destruct (cross p) eqn:Ec; cbn [negb].
  2:{ destruct es as [|[k o] es]; [done|]. cbn [map snd] in *. apply Forall_cons in Hpr as [Hpr _].
      cbn [app]. rewrite a_match_no_cross by (by rewrite Hpr). by rewrite Z.add_0_r, Hz. }
  rewrite a_match_app by (eapply Forall_impl; [exact Hpr|]; by intros o ->).
  rewrite (a_match_ext _ cross (fun _ => true)) by (eapply Forall_impl; [exact Hpr|]; by intros o ->).
  specialize (Hstep level es st n m q Hlv Hpe Hq Hrel). destruct (a_match taker (fun _ => true) q _) as [[ts r] l1] eqn:Em.
  assert (0 <= r) as Hr by (eapply consumes_remainder, a_match_consumes; done).
  specialize (IH _ _ _ r Hl Hok Hpos Hr Hstep). rewrite length_app, List.length_map.
  destruct l1 as [|o l1].
  - destruct (a_match taker cross r _) as [[ts2 r2] l2]. rewrite length_app. cbn [length] in IH.
    replace (n + Z.of_nat (length ts + length ts2)) with (n + Z.of_nat (length ts) + Z.of_nat (length ts2)) by lia.
    by replace (m + Z.of_nat (length es + length (OrderBook.flat (om_map snd pm))) - Z.of_nat (length l2))
      with (m + Z.of_nat (length es) - Z.of_nat 0 + Z.of_nat (length (OrderBook.flat (om_map snd pm))) - Z.of_nat (length l2)) by lia.
  - assert (r = 0) as ->.
    { eapply (a_match_left _ _ _ _ _ _ _ Hq Em); [|done]. by apply Forall_true. }
    rewrite a_match_stop in IH by lia. rewrite length_app. cbn [length] in IH |- *. rewrite Z.add_0_r in IH.
    by replace (m + Z.of_nat (length es + length (OrderBook.flat (om_map snd pm))) - Z.of_nat (S (length l1) + length (OrderBook.flat (om_map snd pm))))
      with (m + Z.of_nat (length es) - Z.of_nat (S (length l1)) + Z.of_nat (length (OrderBook.flat (om_map snd pm))) - Z.of_nat (length (OrderBook.flat (om_map snd pm)))) by lia.
Qed.
End LevelsLoop.

Lemma simulate_orders taker l : forall q m,
  0 <= q -> Forall (fun o => 0 < o_quantity o) l ->
  let '(ts, r, l') := a_match taker (fun _ => true) q l in
  over_orders (fun outcome => 0 <? remainder outcome) simulate_node_match l (mkMatchOutcome q m) =
    mkMatchOutcome r (m + Z.of_nat (length l) - Z.of_nat (length l')).
Proof.
  induction l as [|o l IH]; intros q m Hq Hl; [cbn; f_equal; lia|]. apply Forall_cons in Hl as [Ho Hl].
  cbn [over_orders remainder a_match]. rewrite andb_true_r. destruct (0 <? q) eqn:Eq; [|f_equal; lia].
  unfold simulate_node_match at 2. cbn [remainder makers_freed]. destruct (o_quantity o <=? q) eqn:El.
  - replace (Z.min q (o_quantity o)) with (o_quantity o) by lia. rewrite Z.eqb_refl.
    specialize (IH (q - o_quantity o) (m + 1) ltac:(lia) Hl). destruct (a_match _ _ _ _) as [[ts r] l']. rewrite IH. cbn [length]. f_equal. lia.
  - replace (Z.min q (o_quantity o)) with q by lia. replace (q =? o_quantity o) with false by lia. rewrite Z.sub_diag.
    specialize (IH 0 m ltac:(lia) Hl). rewrite a_match_stop in IH by lia. rewrite IH. cbn [length]. f_equal. lia.
Qed.

Lemma count_orders taker l : forall q n,
  0 <= q -> Forall (fun o => 0 < o_quantity o) l ->
  let '(ts, r, l') := a_match taker (fun _ => true) q l in
  over_orders (fun st => 0 <? st.2) (fun o (st : Z * Quantity) => (st.1 + 1, st.2 - Z.min st.2 (o_quantity o))) l (n, q) =
    (n + Z.of_nat (length ts), r).
Proof.
  induction l as [|o l IH]; intros q n Hq Hl; [cbn; f_equal; lia|]. apply Forall_cons in Hl as [Ho Hl].
  cbn [over_orders fst snd a_match]. rewrite andb_true_r. destruct (0 <? q) eqn:Eq; [|cbn [length]; f_equal; lia].
  destruct (o_quantity o <=? q) eqn:El.
  - replace (Z.min q (o_quantity o)) with (o_quantity o) by lia.
    specialize (IH (q - o_quantity o) (n + 1) ltac:(lia) Hl). destruct (a_match _ _ _ _) as [[ts r] l']. rewrite IH. cbn [length]. f_equal. lia.
  - replace (Z.min q (o_quantity o)) with q by lia. rewrite Z.sub_diag.
    specialize (IH 0 (n + 1) ltac:(lia) Hl). rewrite a_match_stop in IH by lia. rewrite IH. cbn [length]. f_equal. lia.
Qed.

Lemma simulate_levels_loop h opp buy limit mkt st :
  simulate_levels h opp buy limit mkt st =
  levels_loop (fun o => 0 <? remainder o) (simulate_level_match h) (can_match_level buy mkt limit) opp st.
Proof. revert st. induction opp as [|[p level] opp IH]; intros st; [done|]. cbn. by rewrite IH. Qed.

Lemma fill_count_loop h opp buy limit mkt st :
  fill_count_levels h opp buy limit mkt st =
  levels_loop (fun st => 0 <? st.2)
    (fun level st => over_level h level (fun st => 0 <? st.2) (fun o (st : Z * Quantity) => (st.1 + 1, st.2 - Z.min st.2 (o_quantity o))) st)
    (can_match_level buy mkt limit) opp st.
Proof. revert st. induction opp as [|[p level] opp IH]; intros st; [done|]. cbn [fill_count_levels levels_loop]. by rewrite IH. Qed.

(** The side an order of side [side] matches against, as a level map. *)
Lemma opposite_sim s b side :
  store_repr s b -> OrderBook.wf b ->
  exists pm : lmap,
    (if is_buy side then asks s else bids s) = om_map fst pm /\
    OrderBook.flat (om_map snd pm) = a_side (negb (is_buy side)) (OrderBook.abs b) /\
    Forall (fun x => level_repr (heap s) x.1 x.2) (map snd pm) /\
    OrderBook.levels_ok (OrderBook.before_of (negb (is_buy side))) (om_map snd pm) /\
    Forall (fun o => 0 < o_quantity o) (OrderBook.flat (om_map snd pm)).
Proof.
  intros (pmb & pma & [H1 H2 H3 H4 H5 H6 H7]) Hwf. pose proof (hr_levels _ _ _ H6) as Hl. apply Forall_app in Hl as [Hlb Hla].
  pose proof (OrderBook.side_levels b (negb (is_buy side)) Hwf) as Hok.
  pose proof (side_wf_positive _ _ (a_side_wf _ (negb (is_buy side)) (OrderBook.wf_abs _ Hwf))) as Hpos.
  destruct (is_buy side); cbn [negb a_side OrderBook.abs a_asks a_bids] in *.
  - exists pma. rewrite H4 in *. done.
  - exists pmb. rewrite H2 in *. done.
Qed.

Lemma simulate_match_spec s b id side limit mkt q :
  store_repr s b -> OrderBook.wf b -> 0 <= q ->
  let opp := a_side (negb (is_buy side)) (OrderBook.abs b) in
  let '(_, r, opp') := a_match id (can_match_level (is_buy side) mkt limit) q opp in
  simulate_match s side limit mkt q = mkMatchOutcome r (Z.of_nat (length opp) - Z.of_nat (length opp')).
Proof.
  intros Hs Hwf Hq. destruct (opposite_sim s b side Hs Hwf) as (pm & E & Hflat & Hl & Hok & Hpos). cbv zeta. rewrite <- Hflat.
  assert (simulate_match s side limit mkt q =
    simulate_levels (heap s) (om_map fst pm) (is_buy side) limit mkt (mkMatchOutcome q 0)) as ->.
  { unfold simulate_match. rewrite <- E. by destruct (is_buy side). }
  rewrite simulate_levels_loop.
  pose proof (levels_loop_spec (fun st (_ : Z) m q => st = mkMatchOutcome q m) (heap s) id (can_match_level (is_buy side) mkt limit)
    (fun o => 0 <? remainder o) (simulate_level_match (heap s))) as Hloop.
  specialize (Hloop ltac:(by intros ? ? ? ? ->)).
  assert (forall level es (st : MatchOutcome) (n m : Z) q0, level_repr (heap s) level es -> Forall (fun o => 0 < o_quantity o) (map snd es) ->
    0 <= q0 -> st = mkMatchOutcome q0 m ->
    let '(_, r, l') := a_match id (fun _ => true) q0 (map snd es) in
    simulate_level_match (heap s) level st = mkMatchOutcome r (m + Z.of_nat (length es) - Z.of_nat (length l'))) as Hst.
  { intros level es st n m q0 Hlv Hp Hq0 ->. unfold simulate_level_match. rewrite (over_level_spec _ _ es) by done.
    pose proof (simulate_orders id (map snd es) q0 m Hq0 Hp) as Hso. rewrite List.length_map in Hso. exact Hso. }
  specialize (Hloop Hst _ pm _ 0 0 q Hl Hok Hpos Hq eq_refl). destruct (a_match id _ q _) as [[ts r] l']. by rewrite Hloop.
Qed.

Lemma intrusive_fill_count s b id side limit mkt q :
  store_repr s b -> OrderBook.wf b -> is_valid_side side = true -> 0 <= q ->
  fill_count s side limit mkt q = Z.of_nat (length (a_take (OrderBook.abs b) id side limit mkt q).1.1).
Proof.
  intros Hs Hwf Hside Hq. destruct (opposite_sim s b side Hs Hwf) as (pm & E & Hflat & Hl & Hok & Hpos). unfold a_take. rewrite <- Hflat.
  assert (fill_count s side limit mkt q =
    (fill_count_levels (heap s) (om_map fst pm) (is_buy side) limit mkt (0, q)).1) as ->.
  { rewrite <- E. by destruct side. }
  rewrite fill_count_loop.
  pose proof (levels_loop_spec (fun (st : Z * Quantity) n (_ : Z) q => st = (n, q)) (heap s) id (can_match_level (is_buy side) mkt limit)
    (fun st => 0 <? st.2)
    (fun level st => over_level (heap s) level (fun st => 0 <? st.2) (fun o (st : Z * Quantity) => (st.1 + 1, st.2 - Z.min st.2 (o_quantity o))) st)) as Hloop.
  specialize (Hloop ltac:(by intros ? ? ? ? ->)).
  assert (forall level es (st : Z * Quantity) (n m : Z) q0, level_repr (heap s) level es -> Forall (fun o => 0 < o_quantity o) (map snd es) ->
    0 <= q0 -> st = (n, q0) ->
    let '(ts, r, _) := a_match id (fun _ => true) q0 (map snd es) in
    over_level (heap s) level (fun st => 0 <? st.2) (fun o (st : Z * Quantity) => (st.1 + 1, st.2 - Z.min st.2 (o_quantity o))) st =
      (n + Z.of_nat (length ts), r)) as Hst.
  { intros level es st n m q0 Hlv Hp Hq0 ->. rewrite (over_level_spec _ _ es) by done. by apply count_orders. }
  specialize (Hloop Hst _ pm _ 0 0 q Hl Hok Hpos Hq eq_refl). destruct (a_match id _ q _) as [[ts r] l']. by rewrite Hloop.
Qed.
End Simulation.
