(* ===== verification/IntrusiveLaws.v ===== *)
(** * IntrusiveLaws: the intrusive storage satisfies the storage contract

    The operations of the intrusive store refine the specification of the book;
    the admission check [can_store_limit] is exact enough for the pools never to
    run out while an admitted order rests.  Ends with the [BookStore] and
    [BookStoreLaws] instances of the storage. *)
From S2P Require Import Prelude Core Book BookSpec OrderBook Pool Intrusive IntrusiveSpec.

(** The orders of the levels of one side, in priority order. *)
Definition level_orders (h : Heap) (book : list (Price * Level)) : list Order := append_orders h book [].

Definition intrusive_abs (s : IntrusiveStore) : ABook :=
  mkABook (level_orders (heap s) (bids s)) (level_orders (heap s) (asks s)).

Section Refinement.
Context (Capacity : nat).
Local Abbreviation store_repr := (store_repr Capacity).

Definition intrusive_wf (s : IntrusiveStore) : Prop := exists b, store_repr s b /\ OrderBook.wf b.

(** ** Queries *)

Lemma levels_of s b :
  store_repr s b -> exists pmb pma : lmap,
    bids s = om_map fst pmb /\ bids_ b = om_map snd pmb /\ asks s = om_map fst pma /\ asks_ b = om_map snd pma /\
    Forall (fun x => level_repr (heap s) x.1 x.2) (map snd pmb) /\ Forall (fun x => level_repr (heap s) x.1 x.2) (map snd pma).
Proof.
  intros (pmb & pma & [H1 H2 H3 H4 H5 H6 H7]). pose proof (hr_levels _ _ _ H6) as Hl. apply Forall_app in Hl as [Hlb Hla].
  by exists pmb, pma.
Qed.

Lemma append_level l out : over_orders (fun _ => true) (fun o out => out ++ [o]) l out = out ++ l.
Proof. revert out. induction l as [|o l IH]; intros out; cbn; [by rewrite app_nil_r|]. by rewrite IH, <- app_assoc. Qed.

Lemma append_orders_sim h (pm : lmap) out :
  Forall (fun x => level_repr h x.1 x.2) (map snd pm) ->
  append_orders h (om_map fst pm) out = out ++ OrderBook.flat (om_map snd pm).
Proof.
  revert out. induction pm as [|[p [level es]] pm IH]; intros out Hl; [by rewrite app_nil_r|].
  apply Forall_cons in Hl as [Hlv Hl]. rewrite !om_map_cons, OrderBook.flat_cons. cbn [map fst snd] in *.
  unfold append_orders. cbn [fold_left snd]. rewrite (over_level_spec _ _ es), append_level by done.
  fold (append_orders h (om_map fst pm) (out ++ map snd es)). by rewrite IH, app_assoc.
Qed.


Lemma abs_sim s b : store_repr s b -> intrusive_abs s = OrderBook.abs b.
Proof.
  intros Hs. destruct (levels_of s b Hs) as (pmb & pma & E1 & E2 & E3 & E4 & Hlb & Hla).
  unfold intrusive_abs, level_orders, OrderBook.abs. by rewrite E1, E2, E3, E4, !append_orders_sim.
Qed.

Lemma resting_orders_sim s b : store_repr s b -> resting_orders s = a_orders (OrderBook.abs b).
Proof.
  intros Hs. destruct (levels_of s b Hs) as (pmb & pma & E1 & E2 & E3 & E4 & Hlb & Hla).
  unfold resting_orders, a_orders, OrderBook.abs. by rewrite E1, E2, E3, E4, !append_orders_sim.
Qed.

Lemma best_price_sim (pm : lmap) : best_price (om_map fst pm) = OrderBook.best_price (om_map snd pm).
Proof. by destruct pm as [|[p [level es]] pm]. Qed.

Lemma level_total_sim h level es : level_repr h level es -> level_total h level = OrderBook.level_quantity es.
Proof.
  intros Hl. unfold level_total, OrderBook.level_quantity. rewrite (over_level_spec _ _ es) by done. clear Hl. generalize 0.
  induction es as [|e es IH]; intros acc; [done|]. cbn [map over_orders fold_left]. apply IH.
Qed.

Lemma collect_levels_sim h (pm : lmap) :
  Forall (fun x => level_repr h x.1 x.2) (map snd pm) ->
  collect_levels h (om_map fst pm) = OrderBook.collect_levels (om_map snd pm).
Proof.
  induction pm as [|[p [level es]] pm IH]; intros Hl; [done|]. apply Forall_cons in Hl as [Hlv Hl]. rewrite !om_map_cons.
  unfold collect_levels, OrderBook.collect_levels. cbn [map fst snd]. f_equal; [|by apply IH]. f_equal. by apply level_total_sim.
Qed.

Lemma find_level_sim h price (pm : lmap) :
  Forall (fun x => level_repr h x.1 x.2) (map snd pm) ->
  match find_level (om_map fst pm) price with None => 0 | Some level => level_total h level end =
  match om_find price (om_map snd pm) with None => 0 | Some level => OrderBook.level_quantity level end.
Proof.
  unfold find_level. induction pm as [|[p [level es]] pm IH]; intros Hl; [done|]. apply Forall_cons in Hl as [Hlv Hl].
  rewrite !om_map_cons. cbn [om_find fst snd]. destruct (price =? p); [by apply level_total_sim|by apply IH].
Qed.

Lemma quantity_at_sim s b side price : store_repr s b -> quantity_at s side price = OrderBook.quantity_at b side price.
Proof.
  intros Hs. destruct (levels_of s b Hs) as (pmb & pma & E1 & E2 & E3 & E4 & Hlb & Hla).
  unfold quantity_at, OrderBook.quantity_at, OrderBook.find_level. rewrite E1, E2, E3, E4. destruct (is_buy side); by apply find_level_sim.
Qed.

Lemma contains_sim s b id : store_repr s b -> contains s id = OrderBook.contains b id.
Proof.
  intros (pmb & pma & [H1 H2 H3 H4 H5 H6 H7]). unfold contains, OrderBook.contains. rewrite H5. apply bool_decide_ext.
  by rewrite lookup_fmap, fmap_is_Some.
Qed.

Lemma order_count_sim s b : store_repr s b -> order_count s = OrderBook.order_count b.
Proof.
  intros (pmb & pma & [H1 H2 H3 H4 H5 H6 H7]). unfold order_count, OrderBook.order_count. by rewrite H5, map_size_fmap.
Qed.

(** ** Capacity *)

Lemma entries_length b : length (OrderBook.all_entries b) = length (a_orders (OrderBook.abs b)).
Proof. unfold OrderBook.all_entries, a_orders, OrderBook.abs, OrderBook.flat. cbn [a_bids a_asks]. by rewrite !length_app, !List.length_map. Qed.

Lemma has_capacity_spec s b :
  store_repr s b -> has_capacity s = (Z.of_nat (length (a_orders (OrderBook.abs b))) <? Z.of_nat Capacity).
Proof.
  intros Hs. destruct (available_sim _ s b Hs) as [A1 A2]. rewrite entries_length in A1, A2. unfold has_capacity. rewrite A1, A2. lia.
Qed.

Lemma orders_le s b : store_repr s b -> Z.of_nat (length (a_orders (OrderBook.abs b))) <= Z.of_nat Capacity.
Proof.
  intros Hs. destruct (available_sim _ s b Hs) as [A1 _]. rewrite entries_length in A1.
  destruct Hs as (pmb & pma & [_ _ _ _ _ H6 _]). pose proof (po_count _ _ (hr_orders _ _ _ H6)). unfold available in A1. lia.
Qed.

(** An admitted order that is left with quantity after matching finds a slot. *)
Lemma can_store_room s b id side price q tif ts r b' :
  store_repr s b -> OrderBook.wf b -> 0 <= q -> tif = GTC -> can_store_limit s side price q tif = true ->
  a_take (OrderBook.abs b) id side price false q = (ts, r, OrderBook.abs b') -> 0 < r ->
  Z.of_nat (length (a_orders (OrderBook.abs b'))) < Z.of_nat Capacity.
Proof.
  intros Hs Hwf Hq -> Hcan Ht Hr. unfold can_store_limit in Hcan. rewrite bool_decide_false in Hcan by done.
  rewrite (has_capacity_spec s b Hs) in Hcan. pose proof (orders_le s b Hs) as Hle.
  pose proof (simulate_match_spec _ s b id side price false q Hs Hwf Hq) as Hsim. cbv zeta in Hsim.
  pose proof (a_take_length _ _ _ _ _ _ _ _ _ Ht) as Hlen. unfold a_take in Ht.
  destruct (a_match id _ q _) as [[ts0 r0] opp'] eqn:Em. injection Ht as -> -> _.
  pose proof (sublist_length _ _ (consumes_ids _ _ _ _ _ _ _ (a_match_consumes _ _ _ _ _ _ _ Hq Em))) as Hsh.
  rewrite !List.length_map in Hsh. rewrite Hsim in Hcan. cbn [remainder makers_freed] in Hcan.
  destruct (Z.of_nat (length (a_orders (OrderBook.abs b))) <? Z.of_nat Capacity) eqn:E; lia.
Qed.

(** ** New orders *)

Lemma match_incoming_sim s b id side limit mkt q :
  store_repr s b -> OrderBook.wf b -> in_u32 q -> a_contains (OrderBook.abs b) id = false ->
  exists ts r s' b',
    match_incoming id side limit mkt q (fun s => contains s id) match_opposite s = (mkMatchResult ts r true, s') /\
    store_repr s' b' /\ OrderBook.wf b' /\
    a_take (OrderBook.abs b) id side limit mkt q = (ts, r, OrderBook.abs b') /\ 0 <= r <= q.
Proof.
  intros Hs Hwf Hq Hc. destruct (OrderBook.match_incoming_spec b id side limit mkt q Hwf Hq Hc) as (ts & r & b' & Hm & Ht & Hwf' & Hr).
  unfold match_incoming in *. rewrite (contains_sim s b) by done. destruct (OrderBook.contains b id); [done|].
  pose proof (match_opposite_sim _ s b side (mkMatchContext id (is_buy side) limit mkt q []) Hs) as [Hs' Hctx].
  destruct (match_opposite side s _) as [s' ctx1], (OrderBook.match_baseline side b _) as [b1 ctx2]. cbn [fst snd] in *. subst ctx1.
  injection Hm as <- <- <-. by exists (c_trades ctx2), (c_quantity ctx2), s', b1.
Qed.

Lemma intrusive_rest s b o :
  store_repr s b -> OrderBook.wf b -> a_wf (a_rest o (OrderBook.abs b)) -> o_id o ∉ a_ids (OrderBook.abs b) ->
  Z.of_nat (length (a_orders (OrderBook.abs b))) < Z.of_nat Capacity ->
  exists s' b', rest (o_id o) (o_side o) (o_price o) (o_quantity o) s = (true, s') /\
    store_repr s' b' /\ OrderBook.wf b' /\ OrderBook.abs b' = a_rest o (OrderBook.abs b).
Proof.
  intros Hs Hwf Ha Hid Hlt. rewrite <- entries_length in Hlt. destruct (rest_sim _ s b o Hs) as (n & s' & Er & Hs' & Hn & Hc); [|done|].
  - pose proof (contains_sim s b (o_id o) Hs) as Hcs. rewrite OrderBook.contains_spec in Hcs by done.
    apply a_contains_false in Hid. rewrite Hid in Hcs. unfold contains in Hcs. apply bool_decide_eq_false in Hcs. by apply eq_None_not_Some.
  - exists s', (OrderBook.push_at n (Z.of_nat Capacity) o b). split; [done|]. split; [done|].
    apply OrderBook.push_at_spec; try done. destruct Hs as (pmb & pma & [_ _ _ _ _ _ H7]). by rewrite H7.
Qed.

Lemma intrusive_add_limit s b id side price q tif :
  store_repr s b -> OrderBook.wf b -> in_u32 q -> can_store_limit s side price q tif = true ->
  exists b', store_repr (add_limit s (mkLimitInput id side price q tif)).2 b' /\ OrderBook.wf b' /\
    ((add_limit s (mkLimitInput id side price q tif)).1, OrderBook.abs b') = a_add_limit (OrderBook.abs b) id side price q tif.
Proof.
  intros Hs Hwf Hq Hcan. unfold add_limit, a_add_limit. cbn [in_id in_side in_price in_quantity in_tif]. rewrite Hcan. cbn [negb].
  destruct (a_contains (OrderBook.abs b) id) eqn:Hc.
  { unfold match_incoming. rewrite (contains_sim s b), OrderBook.contains_spec, Hc by done. by exists b. }
  destruct (match_incoming_sim s b id side price false q) as (ts & r & s' & b' & -> & Hs' & Hwf' & Ht & Hr); [done..|].
  assert (a_wf (a_add_limit (OrderBook.abs b) id side price q tif).2) as Hawf.
  { apply a_add_limit_wf; [apply Hwf|done]. }
  unfold a_add_limit in Hawf. rewrite Hc, Ht in Hawf. rewrite Ht. unfold should_rest_limit. cbn [r_trades r_remainder r_accepted].
  destruct (r =? 0) eqn:Er; [replace (0 <? r) with false by lia; by exists b'|].
  replace (0 <? r) with true in * by lia. cbn [negb andb] in *. case_bool_decide as Htif; [|by exists b']. cbn [fst snd] in *.
  assert (0 <= q) as Hq' by (unfold in_u32 in *; lia).
  destruct (intrusive_rest s' b' (mkOrder id side price r)) as (s2 & b2 & Er2 & Hs2 & Hwf2 & Ha2); try done.
  - apply a_contains_false in Hc. intros Hin. eapply a_take_ids in Hin; [done|exact Hq'|exact Ht].
  - eapply (can_store_room s b id side price q tif); try done. lia.
  - cbn [o_id o_side o_price o_quantity] in Er2. rewrite Er2. exists b2. by rewrite Ha2.
Qed.

Lemma intrusive_add_market s b id side q :
  store_repr s b -> OrderBook.wf b -> in_u32 q ->
  exists b', store_repr (add_market s id side q).2 b' /\ OrderBook.wf b' /\
    ((add_market s id side q).1, OrderBook.abs b') = a_add_market (OrderBook.abs b) id side q.
Proof.
  intros Hs Hwf Hq. unfold add_market, a_add_market. destruct (a_contains (OrderBook.abs b) id) eqn:Hc.
  { unfold match_incoming. rewrite (contains_sim s b), OrderBook.contains_spec, Hc by done. by exists b. }
  destruct (match_incoming_sim s b id side 0 true q) as (ts & r & s' & b' & -> & Hs' & Hwf' & Ht & Hr); [done..|].
  exists b'. by rewrite Ht.
Qed.

(** ** Removing and modifying an order *)

Lemma index_sim s b id :
  store_repr s b -> OrderBook.wf b ->
  match index s !! id with
  | None => a_contains (OrderBook.abs b) id = false
  | Some loc => exists e, e ∈ OrderBook.all_entries b /\ o_id e.2 = id /\ loc = mkLocator (o_side e.2) (o_price e.2) e.1
  end.
Proof.
  intros Hs Hwf. destruct (index s !! id) as [loc|] eqn:E.
  - destruct Hs as (pmb & pma & [_ _ _ _ H5 _ _]).
    assert (index_ b !! id = Some (conv loc)) as Hi by (by rewrite H5, lookup_fmap, E).
    apply OrderBook.index_lookup in Hi as (e & He & Hid & Hl); [|done]. exists e. split; [done|]. split; [done|].
    destruct loc. unfold conv in Hl. cbn in Hl. by injection Hl as -> -> ->.
  - rewrite <- OrderBook.contains_spec, <- (contains_sim s b) by done. unfold contains. by rewrite E.
Qed.

Lemma intrusive_erase s b e :
  store_repr s b -> OrderBook.wf b -> e ∈ OrderBook.all_entries b ->
  exists b', store_repr (erase_indexed_order (o_id e.2) (mkLocator (o_side e.2) (o_price e.2) e.1) s) b' /\ OrderBook.wf b' /\
    OrderBook.abs b' = a_remove (o_id e.2) (OrderBook.abs b).
Proof.
  intros Hs Hwf He. destruct (OrderBook.erase_resting_order_spec b e Hwf He) as [Hw Ha]. eexists. split; [|split; [exact Hw|exact Ha]].
  by apply erase_resting_order_sim.
Qed.

Lemma entry_contains b e : e ∈ OrderBook.all_entries b -> a_contains (OrderBook.abs b) (o_id e.2) = true.
Proof.
  intros He. apply bool_decide_eq_true. rewrite OrderBook.a_ids_entries. by apply (list_elem_of_fmap_2 (fun e => o_id e.2)).
Qed.

Lemma intrusive_cancel s b id :
  store_repr s b -> OrderBook.wf b ->
  exists b', store_repr (cancel s id).2 b' /\ OrderBook.wf b' /\ ((cancel s id).1, OrderBook.abs b') = a_cancel (OrderBook.abs b) id.
Proof.
  intros Hs Hwf. unfold cancel, a_cancel. pose proof (index_sim s b id Hs Hwf) as Hi.
  destruct (index s !! id) as [loc|]; [|rewrite Hi; by exists b]. destruct Hi as (e & He & <- & ->).
  destruct (intrusive_erase s b e Hs Hwf He) as (b' & Hs' & Hwf' & Ha). exists b'. by rewrite entry_contains, Ha.
Qed.

(** The slot a removed order leaves is enough for its replacement. *)
Lemma remove_room s b s' b' id side price q :
  store_repr s b -> store_repr s' b' -> OrderBook.abs b' = a_remove id (OrderBook.abs b) ->
  a_contains (OrderBook.abs b) id = true -> can_store_limit s' side price q GTC = true.
Proof.
  intros Hs Hs' Ha Hc. unfold can_store_limit. rewrite bool_decide_false by done. rewrite (has_capacity_spec s' b') by done.
  pose proof (orders_le s b Hs) as Hle.
  pose proof (a_remove_length_lt id (OrderBook.abs b) Hc) as Hlt. rewrite <- Ha in Hlt.
  by replace (_ <? _) with true by lia.
Qed.

Lemma intrusive_modify s b id new_price new_quantity :
  store_repr s b -> OrderBook.wf b -> in_u32 new_quantity ->
  exists b', store_repr (modify s id new_price new_quantity).2 b' /\ OrderBook.wf b' /\
    ((modify s id new_price new_quantity).1, OrderBook.abs b') = a_modify (OrderBook.abs b) id new_price new_quantity.
Proof.
  intros Hs Hwf Hq. unfold modify, a_modify. pose proof (index_sim s b id Hs Hwf) as Hi.
  destruct (index s !! id) as [loc|]; [|apply a_find_None in Hi; rewrite Hi; by exists b]. destruct Hi as (e & He & <- & ->).
  rewrite OrderBook.a_find_entry by done. cbn [il_side il_price il_node].
  destruct (intrusive_erase s b e Hs Hwf He) as (b' & Hs' & Hwf' & Ha).
  destruct (new_quantity =? 0) eqn:Eq; [exists b'; by rewrite Ha|].
  destruct (node_sim _ s b e Hs He) as (nd & En & ->). rewrite En.
  destruct ((new_price =? o_price e.2) && (new_quantity <=? o_quantity e.2)) eqn:E2.
  - destruct (OrderBook.assign_quantity_spec b e new_quantity) as [Hw Has]; [done..|unfold in_u32 in Hq; lia|].
    eexists. split; [by apply assign_sim|]. split; [exact Hw|]. cbn [fst]. by rewrite Has.
  - rewrite <- Ha. apply intrusive_add_limit; [done..|]. apply (remove_room s b _ b' (o_id e.2)); try done. by apply entry_contains.
Qed.

(** ** The empty store *)

Lemma new_store_repr : exists b, store_repr (new_store Capacity) b /\ OrderBook.wf b /\ OrderBook.abs b = a_empty.
Proof.
  exists (mkOrderBook [] [] ∅ (Z.of_nat Capacity)). split; [|split; [|done]].
  - exists [], []. split; try done. destruct (new_pool_ok (T := Node) Capacity) as [Hn En].
    destruct (new_pool_ok (T := Order) Capacity) as [Ho Eo]. split; cbn [new_store new_heap heap nodes orders]; try done; [apply NoDup_nil_2|..].
    intros n. rewrite En, lookup_empty. split; [by intros [? ?]|by intros ?%elem_of_nil].
  - split; try done; try (by split; constructor); [constructor|apply a_wf_empty].
Qed.

(** ** The contract *)

(** A refinement lemma over [store_repr], stated over [intrusive_wf]. *)
Lemma wf_refines {A} s (s' : IntrusiveStore) (x : A) (f : ABook -> A * ABook) :
  intrusive_wf s ->
  (forall b, store_repr s b -> OrderBook.wf b ->
    exists b', store_repr s' b' /\ OrderBook.wf b' /\ (x, OrderBook.abs b') = f (OrderBook.abs b)) ->
  intrusive_wf s' /\ (x, intrusive_abs s') = f (intrusive_abs s).
Proof.
  intros (b & Hs & Hwf) Hop. destruct (Hop b Hs Hwf) as (b' & Hs' & Hwf' & E). rewrite (abs_sim s b), (abs_sim s' b') by done.
  split; [by exists b'|done].
Qed.

Lemma intrusive_abs_wf s : intrusive_wf s -> a_wf (intrusive_abs s).
Proof. intros (b & Hs & Hwf). rewrite (abs_sim s b) by done. apply Hwf. Qed.

Lemma intrusive_contains s id : intrusive_wf s -> contains s id = a_contains (intrusive_abs s) id.
Proof. intros (b & Hs & Hwf). rewrite (abs_sim s b), (contains_sim s b) by done. by apply OrderBook.contains_spec. Qed.

Lemma intrusive_order_count s : intrusive_wf s -> order_count s = Z.of_nat (length (a_orders (intrusive_abs s))).
Proof. intros (b & Hs & Hwf). rewrite (abs_sim s b), (order_count_sim s b) by done. by apply OrderBook.order_count_spec. Qed.

Lemma intrusive_quantity_at s side price :
  intrusive_wf s -> quantity_at s side price = u64 (sum_quantity (at_price price (a_side (is_buy side) (intrusive_abs s)))).
Proof. intros (b & Hs & Hwf). rewrite (abs_sim s b), (quantity_at_sim s b) by done. by apply OrderBook.quantity_at_spec. Qed.

Lemma intrusive_best s :
  intrusive_wf s -> best_bid s = a_best (a_bids (intrusive_abs s)) /\ best_ask s = a_best (a_asks (intrusive_abs s)).
Proof.
  intros (b & Hs & Hwf). rewrite (abs_sim s b) by done. destruct (levels_of s b Hs) as (pmb & pma & E1 & E2 & E3 & E4 & _).
  unfold best_bid, best_ask. rewrite E1, E3, !best_price_sim, <- E2, <- E4. cbn [OrderBook.abs a_bids a_asks].
  split; eapply OrderBook.best_price_spec; apply Hwf.
Qed.

Lemma intrusive_levels s :
  intrusive_wf s -> bid_levels s = a_levels (a_bids (intrusive_abs s)) /\ ask_levels s = a_levels (a_asks (intrusive_abs s)).
Proof.
  intros (b & Hs & Hwf). rewrite (abs_sim s b) by done. destruct (levels_of s b Hs) as (pmb & pma & E1 & E2 & E3 & E4 & Hlb & Hla).
  unfold bid_levels, ask_levels. rewrite E1, E3, !collect_levels_sim, <- E2, <- E4 by done. cbn [OrderBook.abs a_bids a_asks].
  split; [apply (OrderBook.collect_levels_spec true)|apply (OrderBook.collect_levels_spec false)]; apply Hwf.
Qed.

(** The admission check decides whether the order's residual fits the pools. *)
Lemma can_store_limit_iff s id side price q :
  intrusive_wf s -> in_u32 q -> a_contains (intrusive_abs s) id = false ->
  can_store_limit s side price q GTC = true <->
  Z.of_nat (length (a_orders (a_add_limit (intrusive_abs s) id side price q GTC).2)) <= Z.of_nat Capacity.
Proof.
  intros (b & Hs & Hwf) Hq Hc. rewrite (abs_sim s b) in * by done. assert (0 <= q) as Hq' by (unfold in_u32 in *; lia). split.
  - intros Hcan. destruct (intrusive_add_limit s b id side price q GTC Hs Hwf Hq Hcan) as (b' & Hs' & Hwf' & E).
    rewrite <- E. by eapply orders_le.
  - unfold can_store_limit, a_add_limit. rewrite (bool_decide_false (GTC = IOC)), Hc, (has_capacity_spec s b) by done. pose proof (orders_le s b Hs) as Hle.
    pose proof (simulate_match_spec _ s b id side price false q Hs Hwf Hq') as Hsim. cbv zeta in Hsim.
    destruct (a_take (OrderBook.abs b) id side price false q) as [[ts r] b'] eqn:Ht.
    pose proof (a_take_length _ _ _ _ _ _ _ _ _ Ht) as Hlen. pose proof (a_take_le _ _ _ _ _ _ _ _ _ (OrderBook.wf_abs _ Hwf) Hq' Ht) as Hr.
    unfold a_take in Ht. destruct (a_match id _ q _) as [[ts0 r0] opp'] eqn:Em. injection Ht as -> -> _. rewrite Hsim. cbn [remainder makers_freed].
    destruct (Z.of_nat (length (a_orders (OrderBook.abs b))) <? Z.of_nat Capacity) eqn:E; [done|]. destruct (r =? 0) eqn:Er; [done|]. replace (0 <? r) with true by lia. cbn [orb andb fst snd].
    rewrite bool_decide_true by done. cbn [snd]. rewrite a_rest_length. lia.
Qed.
End Refinement.

(** ** The intrusive store implements the interface *)

#[export] Instance intrusive_store : BookStore IntrusiveStore := {
  bs_new := fun _ => new_store kIntrusivePoolCapacity;
  bs_add_limit := fun s id side price q tif => add_limit s (mkLimitInput id side price q tif);
  bs_add_market := add_market;
  bs_cancel := cancel;
  bs_modify := modify;
  bs_best_bid := best_bid;
  bs_best_ask := best_ask;
  bs_quantity_at := quantity_at;
  bs_order_count := order_count;
  bs_contains := contains;
  bs_fill_count := fill_count;
  bs_can_store_limit := can_store_limit;
  bs_can_apply_modify := fun _ _ _ _ => true;
  bs_bid_levels := bid_levels;
  bs_ask_levels := ask_levels;
  bs_resting_orders := resting_orders
}.

#[export] Instance intrusive_laws : BookStoreLaws IntrusiveStore.
Proof.
  refine {| bs_wf := intrusive_wf kIntrusivePoolCapacity; bs_room := fun _ => True; bs_abs := intrusive_abs |};
    cbn [bs_new bs_add_limit bs_add_market bs_cancel bs_modify bs_best_bid bs_best_ask bs_quantity_at bs_order_count
      bs_contains bs_fill_count bs_can_store_limit bs_can_apply_modify bs_bid_levels bs_ask_levels bs_resting_orders intrusive_store];
    generalize kIntrusivePoolCapacity; intros Capacity.
  - apply intrusive_abs_wf.
  - intros _. destruct (new_store_repr Capacity) as (b & Hs & Hwf & E). split; [by exists b|]. by rewrite (abs_sim _ _ _ Hs).
  - intros s id side price q tif Hwf _ _ Hq Hcan. apply (wf_refines Capacity s _ _ (fun b => a_add_limit b id side price q tif)); [done|].
    intros b Hs Hwfb. by apply intrusive_add_limit.
  - intros s id side q Hwf _ _ Hq. apply (wf_refines Capacity s _ _ (fun b => a_add_market b id side q)); [done|].
    intros b Hs Hwfb. by apply intrusive_add_market.
  - intros s id Hwf _. apply (wf_refines Capacity s _ _ (fun b => a_cancel b id)); [done|].
    intros b Hs Hwfb. by apply intrusive_cancel.
  - intros s id p q Hwf _ Hq _. apply (wf_refines Capacity s _ _ (fun b => a_modify b id p q)); [done|].
    intros b Hs Hwfb. by apply intrusive_modify.
  - done.
  - apply intrusive_contains.
  - apply intrusive_order_count.
  - intros s Hwf. by apply (intrusive_best Capacity s).
  - intros s Hwf. by apply (intrusive_best Capacity s).
  - intros s side price Hwf _. by apply (intrusive_quantity_at Capacity).
  - intros s id side price mkt q (b & Hs & Hwf) Hside Hq. rewrite (abs_sim Capacity s b) by done. by apply (intrusive_fill_count Capacity).
  - intros s Hwf. by apply (intrusive_levels Capacity s).
  - intros s Hwf. by apply (intrusive_levels Capacity s).
  - intros s (b & Hs & Hwf). rewrite (abs_sim Capacity s b) by done. by apply (resting_orders_sim Capacity).
Defined.
