(* ===== verification/Storage.v ===== *)
(** * Storage: the public [OrderBook] over its storages

    Translates the constructor of [qsl::engine::OrderBook], [dispatch_storage]
    and the public methods that dispatch to the baseline containers, the
    [IntrusiveStore] or the [ContiguousStore] (src/engine/order_book.cpp), and
    proves that the dispatching book satisfies the storage contract whatever
    storage it was built with. *)
From S2P Require Import Prelude Core Book BookSpec OrderBook Contiguous ContiguousSpec Intrusive IntrusiveLaws.

(** The fields of the class.  [pool_] only tells which allocator the baseline
    containers use: [containers] holds [bids_], [asks_] and [index_]. *)
Record Book := mkBook {
  pool_ : bool;
  containers : OrderBook;
  intrusive_ : option IntrusiveStore;
  contiguous_ : option ContiguousStore
}.

Definition new_book (storage : Storage) : Book :=
  mkBook (match storage with Pooled => true | _ => false end)
    empty_book
    (match storage with IntrusivePooled => Some (new_store kIntrusivePoolCapacity) | _ => None end)
    (match storage with Contiguous => Some empty_store | _ => None end).

(** The mutating dispatch: the callable updates the storage it is given. *)
Definition dispatch_storage {A : Type} (baseline_fn : OrderBook -> A * OrderBook)
    (intrusive_fn : IntrusiveStore -> A * IntrusiveStore) (contiguous_fn : ContiguousStore -> A * ContiguousStore)
    (b : Book) : A * Book :=
  match intrusive_ b with
  | Some s => let '(a, s') := intrusive_fn s in (a, mkBook (pool_ b) (containers b) (Some s') (contiguous_ b))
  | None =>
      match contiguous_ b with
      | Some c => let '(a, c') := contiguous_fn c in (a, mkBook (pool_ b) (containers b) (intrusive_ b) (Some c'))
      | None => let '(a, o') := baseline_fn (containers b) in (a, mkBook (pool_ b) o' (intrusive_ b) (contiguous_ b))
      end
  end.

Definition dispatch_const {A : Type} (baseline_fn : OrderBook -> A) (intrusive_fn : IntrusiveStore -> A)
    (contiguous_fn : ContiguousStore -> A) (b : Book) : A :=
  match intrusive_ b with
  | Some s => intrusive_fn s
  | None => match contiguous_ b with Some c => contiguous_fn c | None => baseline_fn (containers b) end
  end.

Definition add_limit (b : Book) (id : OrderId) (side : Side) (price : Price) (quantity : Quantity)
    (tif : TimeInForce) : list Trade * Book :=
  dispatch_storage (fun o => OrderBook.add_limit o id side price quantity tif)
    (fun s => Intrusive.add_limit s (mkLimitInput id side price quantity tif))
    (fun c => Contiguous.add_limit c (mkLimitInput id side price quantity tif)) b.

Definition add_market (b : Book) (id : OrderId) (side : Side) (quantity : Quantity) : list Trade * Book :=
  dispatch_storage (fun o => OrderBook.add_market o id side quantity) (fun s => Intrusive.add_market s id side quantity)
    (fun c => Contiguous.add_market c id side quantity) b.

Definition cancel (b : Book) (id : OrderId) : bool * Book :=
  dispatch_storage (fun o => OrderBook.cancel o id) (fun s => Intrusive.cancel s id) (fun c => Contiguous.cancel c id) b.

Definition modify (b : Book) (id : OrderId) (new_price : Price) (new_quantity : Quantity) : list Trade * Book :=
  dispatch_storage (fun o => OrderBook.modify o id new_price new_quantity) (fun s => Intrusive.modify s id new_price new_quantity)
    (fun c => Contiguous.modify c id new_price new_quantity) b.

Definition best_bid : Book -> option Price := dispatch_const OrderBook.best_bid Intrusive.best_bid Contiguous.best_bid.
Definition best_ask : Book -> option Price := dispatch_const OrderBook.best_ask Intrusive.best_ask Contiguous.best_ask.

Definition quantity_at (b : Book) (side : Side) (price : Price) : QuantityTotal :=
  dispatch_const (fun o => OrderBook.quantity_at o side price) (fun s => Intrusive.quantity_at s side price)
    (fun c => Contiguous.quantity_at c side price) b.

Definition order_count : Book -> Z := dispatch_const OrderBook.order_count Intrusive.order_count Contiguous.order_count.

Definition contains (b : Book) (id : OrderId) : bool :=
  dispatch_const (fun o => OrderBook.contains o id) (fun s => Intrusive.contains s id) (fun c => Contiguous.contains c id) b.

Definition fill_count (b : Book) (taker_side : Side) (limit : Price) (is_market : bool) (quantity : Quantity) : Z :=
  dispatch_const (fun o => OrderBook.fill_count o taker_side limit is_market quantity)
    (fun s => Intrusive.fill_count s taker_side limit is_market quantity)
    (fun c => Contiguous.fill_count c taker_side limit is_market quantity) b.

Definition can_store_limit (b : Book) (side : Side) (price : Price) (quantity : Quantity) (tif : TimeInForce) : bool :=
  dispatch_const (fun _ => true) (fun s => Intrusive.can_store_limit s side price quantity tif)
    (fun c => Contiguous.can_store_limit c side price quantity tif) b.

Definition can_apply_modify (b : Book) (id : OrderId) (new_price : Price) (new_quantity : Quantity) : bool :=
  dispatch_const (fun _ => true) (fun _ => true) (fun c => Contiguous.can_apply_modify c id new_price new_quantity) b.

Definition bid_levels : Book -> list LevelView := dispatch_const OrderBook.bid_levels Intrusive.bid_levels Contiguous.bid_levels.
Definition ask_levels : Book -> list LevelView := dispatch_const OrderBook.ask_levels Intrusive.ask_levels Contiguous.ask_levels.
Definition resting_orders : Book -> list Order :=
  dispatch_const OrderBook.resting_orders Intrusive.resting_orders Contiguous.resting_orders.

(** ** The contract *)

#[export] Instance any_store : BookStore Book := {
  bs_new := new_book;
  bs_add_limit := add_limit;
  bs_add_market := add_market;
  bs_cancel := cancel;
  bs_modify := modify;
  bs_best_bid := best_bid;
  bs_best_ask := best_ask;
  bs_quantity_at := quantity_at;
  bs_order_count := order_count;
  bs_contains := contains;
  bs_fill_count := fill_count;
  bs_can_store_limit := can_store_limit;
  bs_can_apply_modify := can_apply_modify;
  bs_bid_levels := bid_levels;
  bs_ask_levels := ask_levels;
  bs_resting_orders := resting_orders
}.

(** What a storage's laws say of it, for the storage in use. *)
Definition any_wf : Book -> Prop :=
  dispatch_const (bs_wf (BookStoreLaws := baseline_laws)) (bs_wf (BookStoreLaws := intrusive_laws))
    (bs_wf (BookStoreLaws := contiguous_laws)).
Definition any_room : Book -> Prop :=
  dispatch_const (bs_room (BookStoreLaws := baseline_laws)) (bs_room (BookStoreLaws := intrusive_laws))
    (bs_room (BookStoreLaws := contiguous_laws)).
Definition any_abs : Book -> ABook :=
  dispatch_const (bs_abs (BookStoreLaws := baseline_laws)) (bs_abs (BookStoreLaws := intrusive_laws))
    (bs_abs (BookStoreLaws := contiguous_laws)).

(** [fn] refines [f] on the states of a storage that satisfy [adm]. *)
Definition refines_on {B : Type} `{BookStoreLaws B} {A : Type} (adm : B -> Prop) (fn : B -> A * B)
    (f : ABook -> A * ABook) : Prop :=
  forall b, bs_wf b -> bs_room b -> adm b -> bs_wf (fn b).2 /\ ((fn b).1, bs_abs (fn b).2) = f (bs_abs b).

(** A mutation that refines [f] in every storage refines it in the book. *)
Lemma dispatch_refines {A} (pb : OrderBook -> Prop) (pi : IntrusiveStore -> Prop) (pc : ContiguousStore -> Prop)
    fb fi fc (f : ABook -> A * ABook) b :
  any_wf b -> any_room b -> dispatch_const pb pi pc b ->
  refines_on (H0 := baseline_laws) pb fb f -> refines_on (H0 := intrusive_laws) pi fi f ->
  refines_on (H0 := contiguous_laws) pc fc f ->
  let r := dispatch_storage fb fi fc b in any_wf r.2 /\ (r.1, any_abs r.2) = f (any_abs b).
Proof.
  intros Hwf Hroom Hadm Hb Hi Hc. destruct b as [pool o [s|] [c|]];
    unfold any_wf, any_abs, any_room, dispatch_const, dispatch_storage in *; cbn [intrusive_ contiguous_ containers pool_] in *.
  1,2: specialize (Hi s Hwf Hroom Hadm); by destruct (fi s).
  - specialize (Hc c Hwf Hroom Hadm). by destruct (fc c).
  - specialize (Hb o Hwf Hroom Hadm). by destruct (fb o).
Qed.

(** A query that answers [f] in every storage answers it in the book. *)
Lemma dispatch_answers {A} fb fi fc (f : ABook -> A) b :
  any_wf b ->
  (forall o, bs_wf (BookStoreLaws := baseline_laws) o -> fb o = f (bs_abs (BookStoreLaws := baseline_laws) o)) ->
  (forall s, bs_wf (BookStoreLaws := intrusive_laws) s -> fi s = f (bs_abs (BookStoreLaws := intrusive_laws) s)) ->
  (forall c, bs_wf (BookStoreLaws := contiguous_laws) c -> fc c = f (bs_abs (BookStoreLaws := contiguous_laws) c)) ->
  dispatch_const fb fi fc b = f (any_abs b).
Proof.
  intros Hwf Hb Hi Hc. destruct b as [pool o [s|] [c|]]; unfold any_wf, any_abs, dispatch_const in *;
    cbn [intrusive_ contiguous_ containers pool_] in *; auto.
Qed.

Lemma dispatch_true b : dispatch_const (fun _ => True) (fun _ => True) (fun _ => True) b.
Proof. by destruct b as [pool o [s|] [c|]]. Qed.

Lemma new_book_ok st : any_wf (new_book st) /\ any_abs (new_book st) = a_empty.
Proof.
  destruct st; unfold any_wf, any_abs, dispatch_const, new_book; cbn [intrusive_ contiguous_ containers pool_].
  1,2: apply (bs_new_ok (BookStoreLaws := baseline_laws) Baseline).
  - apply (bs_new_ok (BookStoreLaws := intrusive_laws) IntrusivePooled).
  - apply (bs_new_ok (BookStoreLaws := contiguous_laws) Contiguous).
Qed.

(** Each of the three storages satisfies a law. *)
Ltac each_storage law :=
  first [by apply (law _ _ baseline_laws)|by apply (law _ _ intrusive_laws)|by apply (law _ _ contiguous_laws)].

Lemma any_add_limit b id side price q tif :
  any_wf b -> any_room b -> is_valid_side side = true -> in_u32 q -> can_store_limit b side price q tif = true ->
  let r := add_limit b id side price q tif in any_wf r.2 /\ (r.1, any_abs r.2) = a_add_limit (any_abs b) id side price q tif.
Proof.
  intros Hwf Hroom Hside Hq Hcan.
  apply (dispatch_refines (fun _ => True) (fun s => Intrusive.can_store_limit s side price q tif = true)
    (fun c => Contiguous.can_store_limit c side price q tif = true) _ _ _ (fun b => a_add_limit b id side price q tif)); [done|done|..].
  - revert Hcan. unfold can_store_limit, dispatch_const. by destruct b as [pool o [s|] [c|]].
  - intros o Ho Hr _. by apply (bs_add_limit_ok (BookStoreLaws := baseline_laws)).
  - intros s Hs Hr Ha. by apply (bs_add_limit_ok (BookStoreLaws := intrusive_laws)).
  - intros c Hc Hr Ha. by apply (bs_add_limit_ok (BookStoreLaws := contiguous_laws)).
Qed.

Lemma any_modify b id p q :
  any_wf b -> any_room b -> in_u32 q -> can_apply_modify b id p q = true ->
  let r := modify b id p q in any_wf r.2 /\ (r.1, any_abs r.2) = a_modify (any_abs b) id p q.
Proof.
  intros Hwf Hroom Hq Hcan.
  apply (dispatch_refines (fun _ => True) (fun _ => True) (fun c => Contiguous.can_apply_modify c id p q = true) _ _ _
    (fun b => a_modify b id p q)); [done|done|..].
  - revert Hcan. unfold can_apply_modify, dispatch_const. by destruct b as [pool o [s|] [c|]].
  - intros o Ho Hr _. by apply (bs_modify_ok (BookStoreLaws := baseline_laws)).
  - intros s Hs Hr _. by apply (bs_modify_ok (BookStoreLaws := intrusive_laws)).
  - intros c Hc Hr Ha. by apply (bs_modify_ok (BookStoreLaws := contiguous_laws)).
Qed.

#[export] Instance any_laws : BookStoreLaws Book.
Proof.
  refine {| bs_wf := any_wf; bs_room := any_room; bs_abs := any_abs |};
    cbn [bs_new bs_add_limit bs_add_market bs_cancel bs_modify bs_best_bid bs_best_ask bs_quantity_at bs_order_count
      bs_contains bs_fill_count bs_can_store_limit bs_can_apply_modify bs_bid_levels bs_ask_levels bs_resting_orders any_store].
  - intros b Hwf. destruct b as [pool o [s|] [c|]]; revert Hwf; unfold any_wf, any_abs, dispatch_const;
      cbn [intrusive_ contiguous_ containers pool_].
    1,2: apply (bs_abs_wf (BookStoreLaws := intrusive_laws)).
    + apply (bs_abs_wf (BookStoreLaws := contiguous_laws)).
    + apply (bs_abs_wf (BookStoreLaws := baseline_laws)).
  - apply new_book_ok.
  - apply any_add_limit.
  - intros b id side q Hwf Hroom Hside Hq.
    apply (dispatch_refines (fun _ => True) (fun _ => True) (fun _ => True) _ _ _ (fun b => a_add_market b id side q));
      [done|done|apply dispatch_true|..]; intros x Hx Hr _; each_storage @bs_add_market_ok.
  - intros b id Hwf Hroom.
    apply (dispatch_refines (fun _ => True) (fun _ => True) (fun _ => True) _ _ _ (fun b => a_cancel b id));
      [done|done|apply dispatch_true|..]; intros x Hx Hr _; each_storage @bs_cancel_ok.
  - apply any_modify.
  - intros b id p Hwf. apply (dispatch_answers _ _ _ (fun _ => true)); [done|done|done|].
    intros c. apply (bs_can_apply_cancel (BookStoreLaws := contiguous_laws)).
  - intros b id Hwf. apply (dispatch_answers _ _ _ (fun b => a_contains b id)); [done|..]; intros x Hx; each_storage @bs_contains_ok.
  - intros b Hwf. apply (dispatch_answers _ _ _ (fun b => Z.of_nat (length (a_orders b)))); [done|..]; intros x Hx; each_storage @bs_order_count_ok.
  - intros b Hwf. apply (dispatch_answers _ _ _ (fun b => a_best (a_bids b))); [done|..]; intros x Hx; each_storage @bs_best_bid_ok.
  - intros b Hwf. apply (dispatch_answers _ _ _ (fun b => a_best (a_asks b))); [done|..]; intros x Hx; each_storage @bs_best_ask_ok.
  - intros b side price Hwf Hside.
    apply (dispatch_answers _ _ _ (fun b => u64 (sum_quantity (at_price price (a_side (is_buy side) b))))); [done|..]; intros x Hx; each_storage @bs_quantity_at_ok.
  - intros b id side price mkt q Hwf Hside Hq.
    apply (dispatch_answers _ _ _ (fun b => Z.of_nat (length (a_take b id side price mkt q).1.1))); [done|..]; intros x Hx; each_storage @bs_fill_count_ok.
  - intros b Hwf. apply (dispatch_answers _ _ _ (fun b => a_levels (a_bids b))); [done|..]; intros x Hx; each_storage @bs_bid_levels_ok.
  - intros b Hwf. apply (dispatch_answers _ _ _ (fun b => a_levels (a_asks b))); [done|..]; intros x Hx; each_storage @bs_ask_levels_ok.
  - intros b Hwf. apply (dispatch_answers _ _ _ a_orders); [done|..]; intros x Hx; each_storage @bs_resting_orders_ok.
Defined.
