(* ===== verification/StorageTheorems.v ===== *)
(** * StorageTheorems: what the storages of the order book guarantee

    The properties of the public [OrderBook] over all its storages: the
    refinement to the abstract book, the agreement of the storages, the exactness
    of the admission checks, the bounds of the contiguous levels and the use of
    the pools. *)
From S2P Require Import Prelude Core Book BookSpec BookRun OrderBook Contiguous ContiguousSpec.
From S2P Require Import Pool Intrusive IntrusiveSpec IntrusiveLaws Storage.

(** ** Runs of the public methods *)

(** The methods are called one after the other; each entry of the log has the
    answer of the admission check and the trades the method returned. *)
Fixpoint storage_run (b : Book) (cmds : list BookCmd) : list (bool * list Trade) * Book :=
  match cmds with
  | [] => ([], b)
  | c :: cmds' =>
      let '(ts, b1) := bs_exec b c in
      let '(log, b2) := storage_run b1 cmds' in
      ((bs_admits b c, ts) :: log, b2)
  end.

(** The abstract book under the same commands, refused ones skipped. *)
Fixpoint a_run_admitted (b : ABook) (cmds : list (bool * BookCmd)) : list (list Trade) * ABook :=
  match cmds with
  | [] => ([], b)
  | (ok, c) :: cmds' =>
      let '(ts, b1) := if ok : bool then a_exec b c else ([], b) in
      let '(tss, b2) := a_run_admitted b1 cmds' in
      (ts :: tss, b2)
  end.

(** [b] uses storage [st]. *)
Definition uses (st : Storage) (b : Book) : Prop :=
  match st with
  | Baseline | Pooled => intrusive_ b = None /\ contiguous_ b = None
  | IntrusivePooled => is_Some (intrusive_ b)
  | Contiguous => intrusive_ b = None /\ is_Some (contiguous_ b)
  end.

Lemma dispatch_uses {A} fb fi fc st b : uses st b -> uses st (dispatch_storage (A := A) fb fi fc b).2.
Proof.
  unfold dispatch_storage. destruct b as [pool o [s|] [c|]]; cbn [intrusive_ contiguous_ containers pool_].
  1,2: destruct (fi s); destruct st; cbn; naive_solver.
  - destruct (fc c). destruct st; cbn; naive_solver.
  - destruct (fb o). destruct st; cbn; naive_solver.
Qed.

Lemma exec_uses st b c : uses st b -> uses st (bs_exec b c).2.
Proof. intros Hu. destruct c; cbn [bs_exec snd]; by apply dispatch_uses. Qed.

Lemma new_book_uses st : uses st (new_book st).
Proof.
  destruct st; unfold uses, new_book; cbn [intrusive_ contiguous_]; [done|done|by eexists|]. split; [done|by eexists].
Qed.

(** A refused call returns no trades and changes nothing. *)
Lemma refused_noop b c : bs_admits b c = false -> bs_exec b c = ([], b).
Proof.
  destruct c as [id side price q tif|id side q|id|id p q]; cbn [bs_admits bs_exec bs_can_store_limit bs_can_apply_modify any_store bs_add_limit bs_modify];
    try done.
  - unfold Storage.can_store_limit, Storage.add_limit, dispatch_const, dispatch_storage. destruct b as [pool o [s|] [c|]];
      cbn [intrusive_ contiguous_ containers pool_]; intros E; try done.
    + unfold Intrusive.add_limit. cbn [in_id in_side in_price in_quantity in_tif]. by rewrite E.
    + unfold Intrusive.add_limit. cbn [in_id in_side in_price in_quantity in_tif]. by rewrite E.
    + unfold Contiguous.add_limit. cbn [in_id in_side in_price in_quantity in_tif]. by rewrite E.
  - unfold Storage.can_apply_modify, Storage.modify, dispatch_const, dispatch_storage. destruct b as [pool o [s|] [c|]];
      cbn [intrusive_ contiguous_ containers pool_]; intros E; try done.
    unfold Contiguous.modify. rewrite E. by destruct (_ !! id).
Qed.

(** Only the contiguous storage limits how many orders it can index. *)
Definition few (b : ABook) : Prop := 2 * Z.of_nat (length (a_orders b)) + 16 < 2 ^ 32.

Lemma few_room b : any_wf b -> few (any_abs b) -> any_room b.
Proof.
  unfold any_wf, any_abs, any_room, dispatch_const. destruct b as [pool o [s|] [c|]]; cbn [intrusive_ contiguous_ containers]; try done.
  intros Hwf Hf. cbn [bs_room contiguous_laws]. unfold contiguous_room. by rewrite flat_order_count.
Qed.

Lemma storage_run_refines st cmds : forall b,
  any_wf b -> uses st b -> Forall cmd_ok cmds ->
  2 * (Z.of_nat (length (a_orders (any_abs b))) + Z.of_nat (length cmds)) + 16 < 2 ^ 32 ->
  let '(log, b') := storage_run b cmds in
  any_wf b' /\ uses st b' /\ few (any_abs b') /\
  a_run_admitted (any_abs b) (zip (map fst log) cmds) = (map snd log, any_abs b').
Proof.
  induction cmds as [|c cmds IH]; intros b Hwf Hu Hok Hlen; cbn [storage_run].
  { split; [done|]. split; [done|]. split; [|done]. unfold few. cbn in Hlen. lia. }
  apply Forall_cons in Hok as [Hc Hok]. cbn [length] in Hlen.
  assert (any_room b) as Hroom by (apply few_room; [done|unfold few; lia]).
  assert (any_wf (bs_exec b c).2 /\
    ((bs_exec b c).1, any_abs (bs_exec b c).2) = if bs_admits b c then a_exec (any_abs b) c else ([], any_abs b)) as [Hwf1 He].
  { destruct (bs_admits b c) eqn:Ea; [by apply (bs_exec_refines (HL := any_laws))|]. by rewrite refused_noop. }
  pose proof (exec_uses st b c Hu) as Hu1.
  assert (length (a_orders (any_abs (bs_exec b c).2)) <= S (length (a_orders (any_abs b))))%nat as Hl.
  { apply (f_equal snd) in He. cbn [snd] in He. rewrite He. pose proof (a_exec_length (any_abs b) c Hc). destruct (bs_admits b c); cbn [snd]; lia. }
  destruct (bs_exec b c) as [ts b1]. cbn [fst snd] in *. specialize (IH b1 Hwf1 Hu1 Hok ltac:(lia)).
  destruct (storage_run b1 cmds) as [log b2]. destruct IH as (H1 & H2 & H3 & H4). split; [done|]. split; [done|]. split; [done|].
  cbn [map zip_with fst snd a_run_admitted]. rewrite <- He. by rewrite H4.
Qed.

(** From the empty book, with as many commands as the positions of the contiguous levels allow. *)
Definition run_ok (cmds : list BookCmd) : Prop := Forall cmd_ok cmds /\ Z.of_nat (length cmds) < 2 ^ 31 - 8.

Lemma new_run_refines st cmds :
  run_ok cmds ->
  let '(log, b) := storage_run (new_book st) cmds in
  any_wf b /\ uses st b /\ few (any_abs b) /\
  a_run_admitted a_empty (zip (map fst log) cmds) = (map snd log, any_abs b).
Proof.
  intros [Hok Hlen]. destruct (new_book_ok st) as [Hwf Ha]. rewrite <- Ha. apply storage_run_refines; [done|apply new_book_uses|done|].
  rewrite Ha. cbn [a_empty a_orders a_bids a_asks app length]. lia.
Qed.

Lemma storage_run_length b cmds : length (storage_run b cmds).1 = length cmds.
Proof.
  revert b. induction cmds as [|c cmds IH]; intros b; [done|]. cbn [storage_run]. destruct (bs_exec b c) as [ts b1].
  specialize (IH b1). destruct (storage_run b1 cmds). cbn in *. by rewrite IH.
Qed.

Lemma run_all_admitted b cmds oks :
  length oks = length cmds -> Forall (fun ok => ok = true) oks -> a_run_admitted b (zip oks cmds) = a_run b cmds.
Proof.
  revert b oks. induction cmds as [|c cmds IH]; intros b oks Hl Hok; (destruct oks as [|ok oks]; [done|]); [done|].
  apply Forall_cons in Hok as [-> Hok]. cbn [zip_with a_run_admitted a_run]. destruct (a_exec b c) as [ts b1]. rewrite IH; [done| |done].
  by injection Hl.
Qed.

(** ** Refinement and agreement *)

(** Every public query of [b] answers as the abstract book [ab] does. *)
Definition answers (b : Book) (ab : ABook) : Prop :=
  Storage.resting_orders b = a_orders ab /\
  Storage.bid_levels b = a_levels (a_bids ab) /\ Storage.ask_levels b = a_levels (a_asks ab) /\
  Storage.best_bid b = a_best (a_bids ab) /\ Storage.best_ask b = a_best (a_asks ab) /\
  Storage.order_count b = Z.of_nat (length (a_orders ab)) /\
  (forall id, Storage.contains b id = a_contains ab id) /\
  (forall side price, is_valid_side side = true ->
    Storage.quantity_at b side price = u64 (sum_quantity (at_price price (a_side (is_buy side) ab)))) /\
  (forall id side price is_market q, is_valid_side side = true -> 0 <= q ->
    Storage.fill_count b side price is_market q = Z.of_nat (length (a_take ab id side price is_market q).1.1)).

Lemma any_answers b : any_wf b -> answers b (any_abs b).
Proof.
  intros Hwf. unfold answers.
  split; [by apply (bs_resting_orders_ok (BookStoreLaws := any_laws))|].
  split; [by apply (bs_bid_levels_ok (BookStoreLaws := any_laws))|].
  split; [by apply (bs_ask_levels_ok (BookStoreLaws := any_laws))|].
  split; [by apply (bs_best_bid_ok (BookStoreLaws := any_laws))|].
  split; [by apply (bs_best_ask_ok (BookStoreLaws := any_laws))|].
  split; [by apply (bs_order_count_ok (BookStoreLaws := any_laws))|].
  split; [intros id; by apply (bs_contains_ok (BookStoreLaws := any_laws))|].
  split; [intros side price Hs; by apply (bs_quantity_at_ok (BookStoreLaws := any_laws))|].
  intros id side price mkt q Hs Hq. by apply (bs_fill_count_ok (BookStoreLaws := any_laws)).
Qed.

(** C2: Whatever storage the order book is built with, every sequence of calls
    returns the trades, and leaves a book that answers every query, of the
    abstract price-time-priority book that executes the admitted calls; a call
    the admission check refuses returns no trades and changes nothing. *)
Theorem storage_refines_spec (st : Storage) (cmds : list BookCmd) :
  run_ok cmds ->
  let '(log, b) := storage_run (new_book st) cmds in
  exists ab, a_run_admitted a_empty (zip (map fst log) cmds) = (map snd log, ab) /\ answers b ab.
Proof.
  intros Hok. pose proof (new_run_refines st cmds Hok) as Hr. destruct (storage_run (new_book st) cmds) as [log b].
  destruct Hr as (Hwf & _ & _ & Hr). exists (any_abs b). split; [done|by apply any_answers].
Qed.

(** Crossing orders, a partial fill, a modify that re-enters and a cancel. *)
Definition mixed_cmds : list BookCmd :=
  [BookLimit 1 Buy 99 10 GTC; BookLimit 2 Buy 100 7 GTC; BookLimit 3 Sell 102 5 GTC; BookLimit 4 Sell 100 9 GTC;
   BookModify 1 98 4; BookModify 3 100 6; BookMarket 5 Buy 3; BookCancel 4].

Lemma mixed_cmds_ok : run_ok mixed_cmds.
Proof. split; [repeat constructor; done|done]. Qed.

Lemma storage_refines_spec_witness :
  let '(log, b) := storage_run (new_book IntrusivePooled) mixed_cmds in
  exists ab, a_run_admitted a_empty (zip (map fst log) mixed_cmds) = (map snd log, ab) /\ answers b ab.
Proof. apply (storage_refines_spec IntrusivePooled mixed_cmds). apply mixed_cmds_ok. Defined.

(** The storages are interchangeable.  Two order books with any two storages
    that admit the same calls return the same trades, call by call, and answer
    every query alike afterwards. *)
Theorem storages_agree (st1 st2 : Storage) (cmds : list BookCmd) :
  run_ok cmds ->
  let '(log1, b1) := storage_run (new_book st1) cmds in
  let '(log2, b2) := storage_run (new_book st2) cmds in
  map fst log1 = map fst log2 ->
  map snd log1 = map snd log2 /\
  Storage.resting_orders b1 = Storage.resting_orders b2 /\
  Storage.bid_levels b1 = Storage.bid_levels b2 /\ Storage.ask_levels b1 = Storage.ask_levels b2 /\
  Storage.best_bid b1 = Storage.best_bid b2 /\ Storage.best_ask b1 = Storage.best_ask b2 /\
  Storage.order_count b1 = Storage.order_count b2 /\
  (forall id, Storage.contains b1 id = Storage.contains b2 id) /\
  (forall side price, is_valid_side side = true -> Storage.quantity_at b1 side price = Storage.quantity_at b2 side price) /\
  (forall side price is_market q, is_valid_side side = true -> 0 <= q ->
    Storage.fill_count b1 side price is_market q = Storage.fill_count b2 side price is_market q).
Proof.
  intros Hok. pose proof (new_run_refines st1 cmds Hok) as H1. pose proof (new_run_refines st2 cmds Hok) as H2.
  destruct (storage_run (new_book st1) cmds) as [log1 b1], (storage_run (new_book st2) cmds) as [log2 b2]. intros Heq.
  destruct H1 as (Hwf1 & _ & _ & H1), H2 as (Hwf2 & _ & _ & H2). rewrite Heq, H2 in H1. injection H1 as Hts Ha.
  destruct (any_answers b1 Hwf1) as (A1 & A2 & A3 & A4 & A5 & A6 & A7 & A8 & A9).
  destruct (any_answers b2 Hwf2) as (B1 & B2 & B3 & B4 & B5 & B6 & B7 & B8 & B9). rewrite Ha in B1, B2, B3, B4, B5, B6, B7, B8, B9.
  split; [done|]. do 6 (split; [congruence|]). split; [intros id; congruence|]. split.
  - intros side price Hs. by rewrite A8, B8.
  - intros side price mkt q Hs Hq. by rewrite (A9 0), (B9 0).
Qed.

(** The matching rules on a contiguous and a list-based book. *)
Lemma storages_agree_witness :
  map snd (storage_run (new_book Baseline) mixed_cmds).1 = map snd (storage_run (new_book Contiguous) mixed_cmds).1.
Proof.
  pose proof (storages_agree Baseline Contiguous mixed_cmds mixed_cmds_ok) as H.
  assert (map fst (storage_run (new_book Baseline) mixed_cmds).1 = map fst (storage_run (new_book Contiguous) mixed_cmds).1) as E
    by (vm_compute; reflexivity).
  destruct (storage_run (new_book Baseline) mixed_cmds) as [log1 b1].
  destruct (storage_run (new_book Contiguous) mixed_cmds) as [log2 b2]. exact (proj1 (H E)).
Defined.

(** ** Admission *)

(** The books a storage can hold: at most one order per pool slot, prices inside
    the band of the contiguous levels. *)
Definition representable (st : Storage) (b : ABook) : Prop :=
  match st with
  | Baseline | Pooled => True
  | IntrusivePooled => Z.of_nat (length (a_orders b)) <= Z.of_nat kIntrusivePoolCapacity
  | Contiguous => Forall (fun o => kContiguousMinPrice <= o_price o <= kContiguousMaxPrice) (a_orders b)
  end.

Lemma in_band_representable b : all_in_band b <-> representable Contiguous b.
Proof.
  unfold all_in_band, representable. apply Forall_iff. intros o. unfold in_band, kMinPrice, kMaxPrice. lia.
Qed.

Lemma limit_admission st b id side price q :
  any_wf b -> uses st b -> few (any_abs b) -> is_valid_side side = true -> in_u32 q -> a_contains (any_abs b) id = false ->
  Storage.can_store_limit b side price q GTC = true <-> representable st (a_add_limit (any_abs b) id side price q GTC).2.
Proof.
  intros Hwf Hu Hf Hs Hq Hc. pose proof (few_room b Hwf Hf) as Hroom. revert Hwf Hu Hf Hc Hroom.
  unfold any_wf, any_abs, any_room, Storage.can_store_limit, dispatch_const. destruct b as [pool o si sc]. cbn [intrusive_ contiguous_ containers].
  destruct st; cbn [uses intrusive_ contiguous_].
  1,2: by intros ? [-> ->].
  - intros Hwf [s ->] Hf Hc _. by apply can_store_limit_iff.
  - intros Hwf [-> [c ->]] Hf Hc Hroom. rewrite <- in_band_representable. by apply flat_can_store_iff.
Qed.

Lemma modify_admission st b id p q :
  any_wf b -> uses st b -> few (any_abs b) -> in_u32 q ->
  Storage.can_apply_modify b id p q = true <-> representable st (a_modify (any_abs b) id p q).2.
Proof.
  intros Hwf Hu Hf Hq. pose proof (few_room b Hwf Hf) as Hroom. revert Hwf Hu Hf Hroom.
  unfold any_wf, any_abs, any_room, Storage.can_apply_modify, dispatch_const. destruct b as [pool o si sc]. cbn [intrusive_ contiguous_ containers].
  destruct st; cbn [uses intrusive_ contiguous_].
  1,2: by intros ? [-> ->].
  - intros Hwf [s ->] Hf _. destruct Hwf as (b & Hs & Hwf). cbn [representable]. split; [|done]. intros _.
    pose proof (a_modify_length (intrusive_abs s) id p q) as Hm. pose proof (orders_le _ s b Hs) as Hle.
    rewrite <- (abs_sim _ s b) in Hle by done. unfold in_u32 in Hq. cbn [bs_abs intrusive_laws]. lia.
  - intros Hwf [-> [c ->]] Hf Hroom. rewrite <- in_band_representable. by apply flat_can_modify_iff.
Qed.



(** ** The resources of the storages *)

(** After any calls, every price level of a contiguous book has its bit set
    exactly when it holds live orders, counts them exactly, and keeps at most
    [max 15 alive] tombstones, so the vectors of the levels never grow beyond
    twice the live orders plus a constant. *)
Theorem contiguous_levels_bounded (cmds : list BookCmd) :
  run_ok cmds ->
  exists c, contiguous_ (storage_run (new_book Contiguous) cmds).2 = Some c /\
    forall (is_bid : bool) (i : nat), (i < kBandWidth)%nat ->
      let side := if is_bid then Contiguous.bids c else Contiguous.asks c in
      let level := level_at side i in
      occupied (sd_bits side) i = (0 <? fl_alive level) /\
      fl_alive level = Z.of_nat (length (live (fl_orders level))) /\
      Z.of_nat (length (fl_orders level)) - fl_alive level <= Z.max 15 (fl_alive level).
Proof.
  intros Hok. pose proof (new_run_refines Contiguous cmds Hok) as Hr. destruct (storage_run (new_book Contiguous) cmds) as [log b].
  destruct Hr as (Hwf & [Hi [c Hc]] & _ & _). cbn [snd]. exists c. split; [done|].
  unfold any_wf, dispatch_const in Hwf. rewrite Hi, Hc in Hwf. intros is_bid i Hb. cbv zeta.
  pose proof (cw_sides _ Hwf is_bid) as Hs. replace (if is_bid then _ else _) with (side_b c is_bid) by (by destruct is_bid).
  pose proof (so_levels _ Hs i Hb) as Hl. split; [by apply so_occupied|]. split; [apply (lb_alive _ (proj1 (lk_inv _ Hl)))|apply Hl].
Qed.

Lemma contiguous_levels_bounded_witness :
  exists c, contiguous_ (storage_run (new_book Contiguous) mixed_cmds).2 = Some c /\
    forall (is_bid : bool) (i : nat), (i < kBandWidth)%nat ->
      let side := if is_bid then Contiguous.bids c else Contiguous.asks c in
      let level := level_at side i in
      occupied (sd_bits side) i = (0 <? fl_alive level) /\
      fl_alive level = Z.of_nat (length (live (fl_orders level))) /\
      Z.of_nat (length (fl_orders level)) - fl_alive level <= Z.max 15 (fl_alive level).
Proof. apply (contiguous_levels_bounded mixed_cmds). apply mixed_cmds_ok. Defined.

(** The intrusive storage never leaks or shares a slot.  After any calls both
    of its pools have exactly one slot in use per resting order, and the nodes
    reachable from the levels hold exactly the orders the index knows. *)
Theorem intrusive_pools_exact (cmds : list BookCmd) :
  run_ok cmds ->
  exists s, intrusive_ (storage_run (new_book IntrusivePooled) cmds).2 = Some s /\
    in_use kIntrusivePoolCapacity (orders (heap s)) = Intrusive.order_count s /\
    in_use kIntrusivePoolCapacity (nodes (heap s)) = Intrusive.order_count s /\
    size (storage_ (orders (heap s))) = size (Intrusive.index s) /\
    (forall id, is_Some (Intrusive.index s !! id) <-> id ∈ map o_id (Intrusive.resting_orders s)).
Proof.
  intros Hok. pose proof (new_run_refines IntrusivePooled cmds Hok) as Hr. destruct (storage_run (new_book IntrusivePooled) cmds) as [log b].
  destruct Hr as (Hwf & [s Hs] & _ & _). cbn [snd]. exists s. split; [done|].
  unfold any_wf, dispatch_const in Hwf. rewrite Hs in Hwf. cbn [bs_wf intrusive_laws] in Hwf. revert Hwf. generalize kIntrusivePoolCapacity.
  intros Capacity Hwf. pose proof (intrusive_order_count _ s Hwf) as Hcount. pose proof (intrusive_contains Capacity s) as Hcont.
  destruct Hwf as (o & Hrep & Hwf). pose proof (available_sim _ s o Hrep) as [A1 A2]. rewrite entries_length, <- (abs_sim _ s o) in A1, A2 by done.
  unfold in_use, available in *. split; [lia|]. split; [lia|].
  assert (Intrusive.resting_orders s = a_orders (intrusive_abs s)) as Hrest by (by rewrite (abs_sim Capacity s o), (resting_orders_sim Capacity s o)).
  pose proof Hrep as (pmb & pma & [_ _ _ _ _ Hh _]). pose proof (pool_count _ _ (hr_orders _ _ _ Hh)) as Hpc. unfold Intrusive.order_count in Hcount.
  split; [lia|]. intros id. specialize (Hcont id ltac:(by exists o)). rewrite Hrest. unfold Intrusive.contains, a_contains in Hcont.
  by rewrite <- (bool_decide_eq_true (is_Some _)), Hcont, bool_decide_eq_true.
Qed.

Lemma intrusive_pools_exact_witness :
  exists s, intrusive_ (storage_run (new_book IntrusivePooled) mixed_cmds).2 = Some s /\
    in_use kIntrusivePoolCapacity (orders (heap s)) = Intrusive.order_count s /\
    in_use kIntrusivePoolCapacity (nodes (heap s)) = Intrusive.order_count s /\
    size (storage_ (orders (heap s))) = size (Intrusive.index s) /\
    (forall id, is_Some (Intrusive.index s !! id) <-> id ∈ map o_id (Intrusive.resting_orders s)).
Proof. apply (intrusive_pools_exact mixed_cmds). apply mixed_cmds_ok. Defined.

(** C40: An object pool is safe whatever its client does.  After any acquires,
    releases of arbitrary addresses and resets, an acquire hands out a free slot
    and leaves the live objects alone, or fails when all slots are in use; a
    release succeeds exactly on the address of a live slot and removes only that
    object, so foreign, misaligned, dangling and doubly released pointers are
    refused without effect. *)
Theorem pool_safe {T : Type} (Capacity : nat) (base width alignment : Z) (ops : list (PoolOp T)) (v : T) (raw : Z) :
  layout_ok base width alignment ->
  let p := pool_run Capacity base width alignment ops in
  0 <= in_use Capacity p <= Z.of_nat Capacity /\
  (if in_use Capacity p <? Z.of_nat Capacity
   then exists slot p', try_acquire v p = (Some slot, p') /\ 0 <= slot < Z.of_nat Capacity /\
     storage_ p !! slot = None /\ storage_ p' = <[slot := v]> (storage_ p)
   else try_acquire v p = (None, p)) /\
  ((exists slot w p', raw = slot_ptr base width slot /\ storage_ p !! slot = Some w /\
      release Capacity base width alignment raw p = (true, p') /\ storage_ p' = delete slot (storage_ p)) \/
   ((forall slot, raw = slot_ptr base width slot -> storage_ p !! slot = None) /\
      release Capacity base width alignment raw p = (false, p))).
Proof.
  intros Hl p. pose proof (pool_run_ok Capacity base width alignment ops Hl) as Hp. fold p in Hp. pose proof (po_count _ _ Hp) as Hc.
  unfold in_use. split; [lia|]. split.
  - destruct (_ <? _) eqn:E.
    + destruct (try_acquire_ok Capacity p v Hp) as (idx & p' & -> & _ & Hr & Hn & Hs); [unfold available; lia|]. by exists idx, p'.
    + apply (try_acquire_full Capacity); [done|]. unfold available. lia.
  - destruct (release_cases Capacity base width alignment p raw Hl Hp) as [(slot & w & p' & H1 & H2 & H3 & _ & H5)|H]; [left|by right].
    by exists slot, w, p'.
Qed.

(** Two slots of 24 bytes at address 64; the second release of a slot is refused. *)
Lemma pool_safe_witness :
  let p := pool_run 2 64 24 8 [Acquire 5; Release 64; Acquire 7] in
  0 <= in_use 2 p <= 2 /\
  (if in_use 2 p <? 2
   then exists slot p', try_acquire 9 p = (Some slot, p') /\ 0 <= slot < 2 /\
     storage_ p !! slot = None /\ storage_ p' = <[slot := 9]> (storage_ p)
   else try_acquire 9 p = (None, p)) /\
  ((exists slot w p', 88 = slot_ptr 64 24 slot /\ storage_ p !! slot = Some w /\
      release 2 64 24 8 88 p = (true, p') /\ storage_ p' = delete slot (storage_ p)) \/
   ((forall slot, 88 = slot_ptr 64 24 slot -> storage_ p !! slot = None) /\ release 2 64 24 8 88 p = (false, p))).
Proof. apply (pool_safe 2 64 24 8 [Acquire 5; Release 64; Acquire 7] 9 88). by split. Defined.
