(* ===== verification/Text.v ===== *)
(** * Text: characters and decimal numbers

    What the text protocols use of the standard library: [std::to_string] of
    integers and [std::from_chars] in base ten.  A [char] is its byte. *)
From S2P Require Import Prelude Core Endian.

(** The bytes of a string literal. *)
Definition text (s : string) : bytes := map (fun c => Z.of_N (Ascii.N_of_ascii c)) (String.list_ascii_of_string s).

Definition is_digit (c : Z) : bool := (48 <=? c) && (c <=? 57).

(** ** Printing *)

Fixpoint digits (fuel : nat) (n : Z) : bytes :=
  match fuel with
  | O => []
  | S fuel' => if n <? 10 then [48 + n] else digits fuel' (n / 10) ++ [48 + n mod 10]
  end.

(** [std::to_string] of an unsigned and of a signed 64-bit integer: at most 20
    digits. *)
Definition to_string (n : Z) : bytes := digits 20 n.
Definition to_string_signed (n : Z) : bytes := if n <? 0 then 45 :: to_string (- n) else to_string n.

(** ** Parsing *)

(** [std::from_chars]: the parsed value and the unread characters. *)
Inductive FromChars :=
| Converted (value : Z) (rest : bytes)
| ResultOutOfRange (rest : bytes)
| InvalidArgument.

Fixpoint span_digits (s : bytes) : bytes * bytes :=
  match s with
  | c :: s' => if is_digit c then let '(d, r) := span_digits s' in (c :: d, r) else ([], s)
  | [] => ([], [])
  end.

Definition digits_value (ds : bytes) : Z := fold_left (fun acc c => acc * 10 + (c - 48)) ds 0.

(** The target type of the conversion: its range, and whether a minus sign is
    recognized. *)
Record IntType := mkIntType { it_signed : bool; it_min : Z; it_max : Z }.
Definition uint32_type : IntType := mkIntType false 0 (2 ^ 32 - 1).
Definition uint64_type : IntType := mkIntType false 0 (2 ^ 64 - 1).
Definition int64_type : IntType := mkIntType true (- 2 ^ 63) (2 ^ 63 - 1).

Definition from_chars (ty : IntType) (s : bytes) : FromChars :=
  let '(negative, s) :=
    match s with
    | 45 :: s' => if it_signed ty then (true, s') else (false, s)
    | _ => (false, s)
    end in
  match span_digits s with
  | ([], _) => InvalidArgument
  | (ds, rest) =>
      let value := if negative : bool then - digits_value ds else digits_value ds in
      if (it_min ty <=? value) && (value <=? it_max ty) then Converted value rest else ResultOutOfRange rest
  end.

(** ** Lemmas *)

Lemma span_digits_app ds rest :
  Forall (fun c => is_digit c = true) ds -> (forall c, head rest = Some c -> is_digit c = false) ->
  span_digits (ds ++ rest) = (ds, rest).
Proof.
  intros Hd Hr. induction Hd as [|c ds Hc Hd IH]; cbn [app span_digits].
  - destruct rest as [|c rest]; [done|]. cbn. by rewrite (Hr c eq_refl).
  - by rewrite Hc, IH.
Qed.

Lemma span_digits_spec s ds rest :
  span_digits s = (ds, rest) -> s = ds ++ rest /\ Forall (fun c => is_digit c = true) ds.
Proof.
  revert ds rest. induction s as [|c s IH]; intros ds rest; cbn [span_digits]; [by intros [= <- <-]|].
  destruct (is_digit c) eqn:Ec; [|by intros [= <- <-]]. destruct (span_digits s) as [d r]. intros [= <- <-].
  destruct (IH d r eq_refl) as [-> Hd]. split; [done|by constructor].
Qed.

Lemma digits_value_snoc ds c : digits_value (ds ++ [c]) = digits_value ds * 10 + (c - 48).
Proof. unfold digits_value. by rewrite fold_left_app. Qed.

Lemma digits_spec fuel n :
  0 <= n < 10 ^ Z.of_nat fuel ->
  Forall (fun c => is_digit c = true) (digits fuel n) /\ digits_value (digits fuel n) = n /\
  (fuel <> 0%nat -> digits fuel n <> []) /\ (length (digits fuel n) <= fuel)%nat.
Proof.
  revert n. induction fuel as [|fuel IH]; intros n Hn; [cbn in *; assert (n = 0) as -> by lia; done|].
  cbn [digits]. rewrite Nat2Z.inj_succ, Z.pow_succ_r in Hn by lia. destruct (n <? 10) eqn:E.
  - split; [repeat constructor; unfold is_digit; lia|]. split; [unfold digits_value; cbn; lia|]. split; [done|cbn; lia].
  - pose proof (Z.div_mod n 10 ltac:(lia)). pose proof (Z.mod_pos_bound n 10 ltac:(lia)).
    destruct (IH (n / 10)) as (H1 & H2 & H3 & H4); [split; [apply Z.div_pos; lia|apply Z.div_lt_upper_bound; lia]|].
    split; [apply Forall_app; split; [done|repeat constructor; unfold is_digit; lia]|].
    split; [rewrite digits_value_snoc, H2; lia|]. split; [intros _; by destruct (digits fuel (n / 10))|]. rewrite length_app. cbn. lia.
Qed.

Lemma to_string_spec n :
  in_u64 n ->
  Forall (fun c => is_digit c = true) (to_string n) /\ digits_value (to_string n) = n /\ to_string n <> [] /\ (length (to_string n) <= 20)%nat.
Proof.
  intros Hn. destruct (digits_spec 20 n) as (H1 & H2 & H3 & H4); [unfold in_u64 in Hn; cbn; lia|]. split; [done|]. split; [done|].
  split; [by apply H3|done].
Qed.

Lemma digit_head ds c : Forall (fun c => is_digit c = true) (c :: ds) -> c <> 45.
Proof. intros [Hc _]%Forall_cons ->. done. Qed.

(** Reading back a printed number, up to the first other character. *)
Lemma from_chars_digits ty ds rest :
  Forall (fun c => is_digit c = true) ds -> ds <> [] -> (forall c, head rest = Some c -> is_digit c = false) ->
  it_min ty <= digits_value ds <= it_max ty -> from_chars ty (ds ++ rest) = Converted (digits_value ds) rest.
Proof.
  intros Hd Hne Hr Hrange. unfold from_chars. destruct ds as [|c ds]; [done|]. pose proof (digit_head _ _ Hd) as Hc.
  assert (forall (A : Type) (a : bytes -> A) b, match (c :: ds) ++ rest with 45 :: s' => a s' | _ => b end = b) as Hm.
  { intros A a b. cbn [app]. destruct c as [|c|c]; try done. repeat (destruct c as [c|c|]; try done). }
  rewrite Hm, span_digits_app by done. replace (_ && _) with true by lia. done.
Qed.

Lemma from_chars_unsigned ty n rest :
  in_u64 n -> it_min ty <= n <= it_max ty -> (forall c, head rest = Some c -> is_digit c = false) ->
  from_chars ty (to_string n ++ rest) = Converted n rest.
Proof.
  intros Hn Hr Hrest. destruct (to_string_spec n Hn) as (H1 & H2 & H3 & _). rewrite from_chars_digits by (done || by rewrite H2). by rewrite H2.
Qed.

Lemma from_chars_signed n rest :
  in_i64 n -> (forall c, head rest = Some c -> is_digit c = false) ->
  from_chars int64_type (to_string_signed n ++ rest) = Converted n rest.
Proof.
  intros Hn Hrest. unfold in_i64 in Hn. unfold to_string_signed. destruct (n <? 0) eqn:E.
  - destruct (to_string_spec (- n)) as (H1 & H2 & H3 & _); [unfold in_u64; lia|]. unfold from_chars. cbn [app it_signed int64_type].
    rewrite span_digits_app by done. destruct (to_string (- n)) as [|c ds]; [done|]. rewrite H2, Z.opp_involutive. cbn [it_min it_max int64_type].
    by replace (_ && _) with true by lia.
  - apply from_chars_unsigned; [unfold in_u64; lia|cbn; lia|done].
Qed.

(** A converted value is in the range of the type. *)
Lemma from_chars_range ty s v rest : from_chars ty s = Converted v rest -> it_min ty <= v <= it_max ty.
Proof.
  unfold from_chars. destruct (match s with 45 :: s' => _ | _ => _ end) as [neg s1]. destruct (span_digits s1) as [[|c ds] r]; [done|].
  destruct (_ && _) eqn:E; [|done]. intros [= <- <-]. lia.
Qed.
