(* ===== verification/Command.v ===== *)
(** * Command: the recordable command stream

    include/qsl/replay/command.hpp and src/replay/command.cpp: the [Command]
    variant and its compact serialization, a one-byte tag followed by
    fixed-width big-endian fields (the name of [RegisterSymbol] fills the rest). *)
From S2P Require Import Prelude Core Endian.

Inductive Command :=
| RegisterSymbol (name : string)
| NewLimit (symbol : SymbolId) (id : OrderId) (side : Side) (price : Price) (quantity : Quantity)
    (tif : TimeInForce)
| NewMarket (symbol : SymbolId) (id : OrderId) (side : Side) (quantity : Quantity)
| Cancel (symbol : SymbolId) (id : OrderId)
| Modify (symbol : SymbolId) (id : OrderId) (price : Price) (quantity : Quantity).

#[export] Instance Command_eq_dec : EqDecision Command.
Proof. solve_decision. Defined.

Definition tag_register_symbol : Z := 0.
Definition tag_new_limit : Z := 1.
Definition tag_new_market : Z := 2.
Definition tag_cancel : Z := 3.
Definition tag_modify : Z := 4.

Definition kNewLimitSize : nat := 28.
Definition kNewMarketSize : nat := 18.
Definition kCancelSize : nat := 13.
Definition kModifySize : nat := 25.

(** A [char] of a [std::string] and the byte that carries it. *)
Definition byte_of_char (c : Ascii.ascii) : Z := Z.of_N (Ascii.N_of_ascii c).
Definition char_of_byte (b : Z) : Ascii.ascii := Ascii.ascii_of_N (Z.to_N b).
Definition bytes_of_string (s : string) : bytes := map byte_of_char (String.list_ascii_of_string s).
Definition string_of_bytes (l : bytes) : string := String.string_of_list_ascii (map char_of_byte l).

Definition encode_command (c : Command) : bytes :=
  match c with
  | RegisterSymbol name => tag_register_symbol :: bytes_of_string name
  | NewLimit symbol id side price quantity tif =>
      let out := zeros kNewLimitSize in
      let out := set_byte out 0 tag_new_limit in
      let out := store_be 4 out 1 symbol in
      let out := store_be 8 out 5 id in
      let out := store_be 8 out 13 (u64 price) in
      let out := store_be 4 out 21 quantity in
      let out := set_byte out 25 (byte_of_side side) in
      set_byte out 26 (byte_of_tif tif)
  | NewMarket symbol id side quantity =>
      let out := zeros kNewMarketSize in
      let out := set_byte out 0 tag_new_market in
      let out := store_be 4 out 1 symbol in
      let out := store_be 8 out 5 id in
      let out := set_byte out 13 (byte_of_side side) in
      store_be 4 out 14 quantity
  | Cancel symbol id =>
      let out := zeros kCancelSize in
      let out := set_byte out 0 tag_cancel in
      let out := store_be 4 out 1 symbol in
      store_be 8 out 5 id
  | Modify symbol id price quantity =>
      let out := zeros kModifySize in
      let out := set_byte out 0 tag_modify in
      let out := store_be 4 out 1 symbol in
      let out := store_be 8 out 5 id in
      let out := store_be 8 out 13 (u64 price) in
      store_be 4 out 21 quantity
  end.

Definition decode_register_symbol (b : bytes) : option Command :=
  Some (RegisterSymbol (string_of_bytes (drop 1 b))).

Definition decode_new_limit (b : bytes) : option Command :=
  if (length b <? kNewLimitSize)%nat then None
  else
    let side := side_of_byte (byte_at b 25) in
    let tif := tif_of_byte (byte_at b 26) in
    if negb (is_valid_side side) || negb (is_valid_tif tif) then None
    else Some (NewLimit (load_be 4 b 1) (load_be 8 b 5) side (i64_of_u64 (load_be 8 b 13))
                 (load_be 4 b 21) tif).

Definition decode_new_market (b : bytes) : option Command :=
  if (length b <? kNewMarketSize)%nat then None
  else
    let side := side_of_byte (byte_at b 13) in
    if negb (is_valid_side side) then None
    else Some (NewMarket (load_be 4 b 1) (load_be 8 b 5) side (load_be 4 b 14)).

Definition decode_cancel (b : bytes) : option Command :=
  if (length b <? kCancelSize)%nat then None
  else Some (Cancel (load_be 4 b 1) (load_be 8 b 5)).

Definition decode_modify (b : bytes) : option Command :=
  if (length b <? kModifySize)%nat then None
  else Some (Modify (load_be 4 b 1) (load_be 8 b 5) (i64_of_u64 (load_be 8 b 13)) (load_be 4 b 21)).

Definition decode_command (b : bytes) : option Command :=
  match b with
  | [] => None
  | tag :: _ =>
      if tag =? tag_register_symbol then decode_register_symbol b
      else if tag =? tag_new_limit then decode_new_limit b
      else if tag =? tag_new_market then decode_new_market b
      else if tag =? tag_cancel then decode_cancel b
      else if tag =? tag_modify then decode_modify b
      else None
  end.

(** Fields in the ranges of their C++ types, enumerations that are enumerators. *)
Definition command_ok (c : Command) : Prop :=
  match c with
  | RegisterSymbol _ => True
  | NewLimit symbol id side price quantity tif =>
      in_u32 symbol /\ in_u64 id /\ is_valid_side side = true /\ in_i64 price /\ in_u32 quantity /\
      is_valid_tif tif = true
  | NewMarket symbol id side quantity =>
      in_u32 symbol /\ in_u64 id /\ is_valid_side side = true /\ in_u32 quantity
  | Cancel symbol id => in_u32 symbol /\ in_u64 id
  | Modify symbol id price quantity =>
      in_u32 symbol /\ in_u64 id /\ in_i64 price /\ in_u32 quantity
  end.

(** ** Round trip *)

Lemma char_byte_char c : char_of_byte (byte_of_char c) = c.
Proof. unfold char_of_byte, byte_of_char. by rewrite N2Z.id, Ascii.ascii_N_embedding. Qed.

Lemma string_bytes_string s : string_of_bytes (bytes_of_string s) = s.
Proof.
  unfold string_of_bytes, bytes_of_string. rewrite map_map.
  rewrite (map_ext _ id char_byte_char), map_id. apply String.string_of_list_ascii_of_string.
Qed.

(** A non-empty buffer starts with its first byte. *)
Lemma head_byte_at (b : bytes) : (0 < length b)%nat -> b = byte_at b 0 :: drop 1 b.
Proof. destruct b; simpl; [lia|done]. Qed.

Lemma decode_command_tag b :
  (0 < length b)%nat ->
  decode_command b =
    (if byte_at b 0 =? tag_register_symbol then decode_register_symbol b
     else if byte_at b 0 =? tag_new_limit then decode_new_limit b
     else if byte_at b 0 =? tag_new_market then decode_new_market b
     else if byte_at b 0 =? tag_cancel then decode_cancel b
     else if byte_at b 0 =? tag_modify then decode_modify b
     else None).
Proof. destruct b; simpl; [lia|done]. Qed.

Lemma length_encode_new_limit symbol id side price quantity tif :
  length (encode_command (NewLimit symbol id side price quantity tif)) = kNewLimitSize.
Proof. cbn [encode_command]. by rewrite !length_set_byte, !length_store_be, length_set_byte, length_zeros. Qed.

Lemma decode_encode_command c : command_ok c -> decode_command (encode_command c) = Some c.
Proof.
  destruct c as [name|symbol id side price quantity tif|symbol id side quantity|symbol id
    |symbol id price quantity]; cbn [command_ok]; intros Hok.
  - simpl. unfold decode_register_symbol. simpl. by rewrite drop_0, string_bytes_string.
  - destruct Hok as (? & ? & Hs & Hp & ? & Ht). rewrite decode_command_tag by (rewrite length_encode_new_limit; closed_nat).
    unfold decode_new_limit. rewrite length_encode_new_limit. cbn [encode_command]. be_solve. simpl.
    rewrite !u8_small by auto with qsl. rewrite side_of_byte_of_side, tif_of_byte_of_tif, Hs, Ht by done.
    simpl. by rewrite i64_u64.
  - destruct Hok as (? & ? & Hs & ?).
    assert (length (encode_command (NewMarket symbol id side quantity)) = kNewMarketSize) as Hl.
    { cbn [encode_command]. by rewrite length_store_be, length_set_byte, !length_store_be, length_set_byte, length_zeros. }
    rewrite decode_command_tag by (rewrite Hl; closed_nat). unfold decode_new_market. rewrite Hl.
    cbn [encode_command]. be_solve. simpl. rewrite !u8_small by auto with qsl.
    by rewrite side_of_byte_of_side, Hs by done.
  - destruct Hok as (? & ?).
    assert (length (encode_command (Cancel symbol id)) = kCancelSize) as Hl.
    { cbn [encode_command]. by rewrite !length_store_be, length_set_byte, length_zeros. }
    rewrite decode_command_tag by (rewrite Hl; closed_nat). unfold decode_cancel. rewrite Hl.
    cbn [encode_command]. by be_solve.
  - destruct Hok as (? & ? & Hp & ?).
    assert (length (encode_command (Modify symbol id price quantity)) = kModifySize) as Hl.
    { cbn [encode_command]. by rewrite !length_store_be, length_set_byte, length_zeros. }
    rewrite decode_command_tag by (rewrite Hl; closed_nat). unfold decode_modify. rewrite Hl.
    cbn [encode_command]. be_solve. simpl. by rewrite i64_u64.
Qed.

Lemma i64_of_u64_range v : in_u64 v -> in_i64 (i64_of_u64 v).
Proof. unfold in_u64, in_i64, i64_of_u64. intros. destruct (Z.ltb_spec v (2 ^ 63)); lia. Qed.

Lemma load_u32 b off : in_u32 (load_be 4 b off).
Proof. apply (load_be_range 4). Qed.
Lemma load_u64 b off : in_u64 (load_be 8 b off).
Proof. apply (load_be_range 8). Qed.
Lemma load_i64 b off : in_i64 (i64_of_u64 (load_be 8 b off)).
Proof. apply i64_of_u64_range, load_u64. Qed.
#[export] Hint Resolve load_u32 load_u64 load_i64 : qsl.

(** Whatever the bytes, a decoded command is a command of the domain. *)
Lemma decode_command_ok b c : decode_command b = Some c -> command_ok c.
Proof.
  destruct b as [|tag b]; [done|]. cbn [decode_command].
  unfold decode_register_symbol, decode_new_limit, decode_new_market, decode_cancel, decode_modify.
  repeat case_if; intros [= <-]; cbn [command_ok]; auto with qsl.
  - apply orb_false_iff in Heqb3 as [? ?]. split_and!; auto with qsl; by apply negb_false_iff.
  - split_and!; auto with qsl. by apply negb_false_iff.
Qed.
