(* ===== verification/Protocol.v ===== *)
(** * Protocol: the binary order-entry protocol

    include/qsl/protocol/{messages,codec}.hpp and src/protocol/codec.cpp: a
    16-byte big-endian header (type, version, body length, sequence number)
    followed by a fixed-size body per message type. *)
From S2P Require Import Prelude Core Endian Command.

(** ** messages.hpp *)

Definition kProtocolVersion : Z := 1.
Definition kHeaderSize : nat := 16.
Definition kMaxBodyLen : Z := 4096.

Inductive MsgType :=
| MtNewOrder | MtCancelOrder | MtMdTrade | MtMdTopOfBook | MtHeartbeat | MtHeartbeatAck
| MtAck | MtReject | MtFill | MsgTypeRaw (v : Z).

#[export] Instance MsgType_eq_dec : EqDecision MsgType.
Proof. solve_decision. Defined.

Definition u16_of_msg_type (t : MsgType) : Z :=
  match t with
  | MtNewOrder => 1 | MtCancelOrder => 2 | MtMdTrade => 3 | MtMdTopOfBook => 4 | MtHeartbeat => 5
  | MtHeartbeatAck => 6 | MtAck => 7 | MtReject => 8 | MtFill => 9 | MsgTypeRaw v => v
  end.
Definition msg_type_of_u16 (v : Z) : MsgType :=
  if v =? 1 then MtNewOrder else if v =? 2 then MtCancelOrder else if v =? 3 then MtMdTrade
  else if v =? 4 then MtMdTopOfBook else if v =? 5 then MtHeartbeat
  else if v =? 6 then MtHeartbeatAck else if v =? 7 then MtAck else if v =? 8 then MtReject
  else if v =? 9 then MtFill else MsgTypeRaw v.

Definition is_known (t : MsgType) : bool := match t with MsgTypeRaw _ => false | _ => true end.

Record MessageHeader := mkMessageHeader {
  h_type : MsgType;
  h_version : Z;
  h_body_len : Z;
  h_seq_no : SeqNo
}.

Record NewOrder := mkNewOrder {
  no_order_id : OrderId;
  no_symbol : SymbolId;
  no_price : Price;
  no_quantity : Quantity;
  no_side : Side;
  no_type : OrderType;
  no_tif : TimeInForce
}.
Definition kNewOrderBodySize : nat := 27.

Record CancelOrder := mkCancelOrder { co_order_id : OrderId; co_symbol : SymbolId }.
Definition kCancelOrderBodySize : nat := 12.

Record Heartbeat := mkHeartbeat { hb_token : Z }.
Record HeartbeatAck := mkHeartbeatAck { hba_token : Z }.
Definition kHeartbeatBodySize : nat := 8.

Record Ack := mkAck { ack_order_id : OrderId; ack_seq : SeqNo }.
Definition kAckBodySize : nat := 16.

Record Reject := mkReject { rej_order_id : OrderId; rej_reason : RejectReason }.
Definition kRejectBodySize : nat := 9.

Record Fill := mkFill {
  f_taker_id : OrderId;
  f_maker_id : OrderId;
  f_price : Price;
  f_quantity : Quantity;
  f_seq : SeqNo
}.
Definition kFillBodySize : nat := 36.

Inductive DecodeError :=
| DecodeNone | Truncated | UnsupportedVersion | UnknownType | BodyTooLarge | BodyLengthMismatch
| InvalidEnumValue | DecodeErrorRaw (v : Z).

#[export] Instance DecodeError_eq_dec : EqDecision DecodeError.
Proof. solve_decision. Defined.

Definition decode_error_to_string (e : DecodeError) : string :=
  match e with
  | DecodeNone => "None"
  | Truncated => "Truncated"
  | UnsupportedVersion => "UnsupportedVersion"
  | UnknownType => "UnknownType"
  | BodyTooLarge => "BodyTooLarge"
  | BodyLengthMismatch => "BodyLengthMismatch"
  | InvalidEnumValue => "InvalidEnumValue"
  | DecodeErrorRaw _ => "Unknown"
  end.

(** ** codec.hpp *)

Record DecodeResult (T : Type) := mkDecodeResult { d_error : DecodeError; d_value : T }.
Arguments mkDecodeResult {T}.
Arguments d_error {T}.
Arguments d_value {T}.

Definition decode_ok {T} (r : DecodeResult T) : bool := bool_decide (d_error r = DecodeNone).

Lemma decode_ok_none {T} (v : T) : decode_ok (mkDecodeResult DecodeNone v) = true.
Proof. done. Qed.

(** The value-initialized [T{}] an error result carries. *)
Definition header_zero : MessageHeader := mkMessageHeader (MsgTypeRaw 0) 0 0 0.
Definition new_order_zero : NewOrder := mkNewOrder 0 0 0 0 Buy Limit GTC.
Definition cancel_order_zero : CancelOrder := mkCancelOrder 0 0.
Definition ack_zero : Ack := mkAck 0 0.
Definition reject_zero : Reject := mkReject 0 ReasonNone.
Definition fill_zero : Fill := mkFill 0 0 0 0 0.

(** ** codec.cpp *)

Definition write_header (p : bytes) (h : MessageHeader) : bytes :=
  let p := store_be 2 p 0 (u16_of_msg_type (h_type h)) in
  let p := store_be 2 p 2 (h_version h) in
  let p := store_be 4 p 4 (h_body_len h) in
  store_be 8 p 8 (h_seq_no h).

Definition encode_new_order (msg : NewOrder) (seq : SeqNo) : bytes :=
  let buf := zeros (kHeaderSize + kNewOrderBodySize) in
  let buf := write_header buf
    (mkMessageHeader MtNewOrder kProtocolVersion (u32 (Z.of_nat kNewOrderBodySize)) seq) in
  let b := kHeaderSize in
  let buf := store_be 8 buf (b + 0) (no_order_id msg) in
  let buf := store_be 4 buf (b + 8) (no_symbol msg) in
  let buf := store_be 8 buf (b + 12) (u64 (no_price msg)) in
  let buf := store_be 4 buf (b + 20) (no_quantity msg) in
  let buf := set_byte buf (b + 24) (byte_of_side (no_side msg)) in
  let buf := set_byte buf (b + 25) (byte_of_order_type (no_type msg)) in
  set_byte buf (b + 26) (byte_of_tif (no_tif msg)).

Definition encode_cancel_order (msg : CancelOrder) (seq : SeqNo) : bytes :=
  let buf := zeros (kHeaderSize + kCancelOrderBodySize) in
  let buf := write_header buf
    (mkMessageHeader MtCancelOrder kProtocolVersion (u32 (Z.of_nat kCancelOrderBodySize)) seq) in
  let b := kHeaderSize in
  let buf := store_be 8 buf (b + 0) (co_order_id msg) in
  store_be 4 buf (b + 8) (co_symbol msg).

Definition decode_header (p : bytes) : DecodeResult MessageHeader :=
  if (length p <? kHeaderSize)%nat then mkDecodeResult Truncated header_zero
  else
    let h := mkMessageHeader (msg_type_of_u16 (load_be 2 p 0)) (load_be 2 p 2) (load_be 4 p 4)
               (load_be 8 p 8) in
    if negb (h_version h =? kProtocolVersion) then mkDecodeResult UnsupportedVersion h
    else if negb (is_known (h_type h)) then mkDecodeResult UnknownType h
    else if kMaxBodyLen <? h_body_len h then mkDecodeResult BodyTooLarge h
    else mkDecodeResult DecodeNone h.

Definition decode_new_order (frame : bytes) : DecodeResult NewOrder :=
  let hr := decode_header frame in
  if negb (decode_ok hr) then mkDecodeResult (d_error hr) new_order_zero
  else if negb (bool_decide (h_type (d_value hr) = MtNewOrder))
  then mkDecodeResult UnknownType new_order_zero
  else if negb (h_body_len (d_value hr) =? Z.of_nat kNewOrderBodySize)
  then mkDecodeResult BodyLengthMismatch new_order_zero
  else if (length frame <? kHeaderSize + kNewOrderBodySize)%nat
  then mkDecodeResult Truncated new_order_zero
  else
    let b := kHeaderSize in
    let side := side_of_byte (byte_at frame (b + 24)) in
    let type := order_type_of_byte (byte_at frame (b + 25)) in
    let tif := tif_of_byte (byte_at frame (b + 26)) in
    if negb (is_valid_side side) || negb (is_valid_order_type type) || negb (is_valid_tif tif)
    then mkDecodeResult InvalidEnumValue new_order_zero
    else mkDecodeResult DecodeNone
           (mkNewOrder (load_be 8 frame (b + 0)) (load_be 4 frame (b + 8))
              (i64_of_u64 (load_be 8 frame (b + 12))) (load_be 4 frame (b + 20)) side type tif).

Definition decode_cancel_order (frame : bytes) : DecodeResult CancelOrder :=
  let hr := decode_header frame in
  if negb (decode_ok hr) then mkDecodeResult (d_error hr) cancel_order_zero
  else if negb (bool_decide (h_type (d_value hr) = MtCancelOrder))
  then mkDecodeResult UnknownType cancel_order_zero
  else if negb (h_body_len (d_value hr) =? Z.of_nat kCancelOrderBodySize)
  then mkDecodeResult BodyLengthMismatch cancel_order_zero
  else if (length frame <? kHeaderSize + kCancelOrderBodySize)%nat
  then mkDecodeResult Truncated cancel_order_zero
  else
    let b := kHeaderSize in
    mkDecodeResult DecodeNone (mkCancelOrder (load_be 8 frame (b + 0)) (load_be 4 frame (b + 8))).

(** The body pointer as an offset; [None] is [nullptr], with the error. *)
Definition validate_typed (frame : bytes) (expected : MsgType) (body_size : nat) :
    DecodeError * option nat :=
  let hr := decode_header frame in
  if negb (decode_ok hr) then (d_error hr, None)
  else if negb (bool_decide (h_type (d_value hr) = expected)) then (UnknownType, None)
  else if negb (h_body_len (d_value hr) =? Z.of_nat body_size) then (BodyLengthMismatch, None)
  else if (length frame <? kHeaderSize + body_size)%nat then (Truncated, None)
  else (DecodeNone, Some kHeaderSize).

Definition framed (type : MsgType) (body_size : nat) : bytes :=
  write_header (zeros (kHeaderSize + body_size))
    (mkMessageHeader type kProtocolVersion (u32 (Z.of_nat body_size)) 0).

Definition encode_heartbeat (msg : Heartbeat) : bytes :=
  store_be 8 (framed MtHeartbeat kHeartbeatBodySize) kHeaderSize (hb_token msg).
Definition encode_heartbeat_ack (msg : HeartbeatAck) : bytes :=
  store_be 8 (framed MtHeartbeatAck kHeartbeatBodySize) kHeaderSize (hba_token msg).

Definition encode_ack (msg : Ack) : bytes :=
  let buf := framed MtAck kAckBodySize in
  let b := kHeaderSize in
  let buf := store_be 8 buf (b + 0) (ack_order_id msg) in
  store_be 8 buf (b + 8) (ack_seq msg).

Definition encode_reject (msg : Reject) : bytes :=
  let buf := framed MtReject kRejectBodySize in
  let b := kHeaderSize in
  let buf := store_be 8 buf (b + 0) (rej_order_id msg) in
  set_byte buf (b + 8) (byte_of_reason (rej_reason msg)).

Definition encode_fill (msg : Fill) : bytes :=
  let buf := framed MtFill kFillBodySize in
  let b := kHeaderSize in
  let buf := store_be 8 buf (b + 0) (f_taker_id msg) in
  let buf := store_be 8 buf (b + 8) (f_maker_id msg) in
  let buf := store_be 8 buf (b + 16) (u64 (f_price msg)) in
  let buf := store_be 4 buf (b + 24) (f_quantity msg) in
  store_be 8 buf (b + 28) (f_seq msg).

Definition decode_heartbeat (frame : bytes) : DecodeResult Heartbeat :=
  match validate_typed frame MtHeartbeat kHeartbeatBodySize with
  | (err, None) => mkDecodeResult err (mkHeartbeat 0)
  | (_, Some b) => mkDecodeResult DecodeNone (mkHeartbeat (load_be 8 frame b))
  end.

Definition decode_heartbeat_ack (frame : bytes) : DecodeResult HeartbeatAck :=
  match validate_typed frame MtHeartbeatAck kHeartbeatBodySize with
  | (err, None) => mkDecodeResult err (mkHeartbeatAck 0)
  | (_, Some b) => mkDecodeResult DecodeNone (mkHeartbeatAck (load_be 8 frame b))
  end.

Definition decode_ack (frame : bytes) : DecodeResult Ack :=
  match validate_typed frame MtAck kAckBodySize with
  | (err, None) => mkDecodeResult err ack_zero
  | (_, Some b) => mkDecodeResult DecodeNone (mkAck (load_be 8 frame (b + 0)) (load_be 8 frame (b + 8)))
  end.

Definition decode_reject (frame : bytes) : DecodeResult Reject :=
  match validate_typed frame MtReject kRejectBodySize with
  | (err, None) => mkDecodeResult err reject_zero
  | (_, Some b) =>
      let reason := reason_of_byte (byte_at frame (b + 8)) in
      if negb (is_valid_reason reason) then mkDecodeResult InvalidEnumValue reject_zero
      else mkDecodeResult DecodeNone (mkReject (load_be 8 frame (b + 0)) reason)
  end.

Definition decode_fill (frame : bytes) : DecodeResult Fill :=
  match validate_typed frame MtFill kFillBodySize with
  | (err, None) => mkDecodeResult err fill_zero
  | (_, Some b) =>
      mkDecodeResult DecodeNone
        (mkFill (load_be 8 frame (b + 0)) (load_be 8 frame (b + 8))
           (i64_of_u64 (load_be 8 frame (b + 16))) (load_be 4 frame (b + 24))
           (load_be 8 frame (b + 28)))
  end.

(** ** Messages in the ranges of their C++ types *)

Definition new_order_ok (m : NewOrder) : Prop :=
  in_u64 (no_order_id m) /\ in_u32 (no_symbol m) /\ in_i64 (no_price m) /\
  in_u32 (no_quantity m) /\ is_valid_side (no_side m) = true /\
  is_valid_order_type (no_type m) = true /\ is_valid_tif (no_tif m) = true.
Definition cancel_order_ok (m : CancelOrder) : Prop :=
  in_u64 (co_order_id m) /\ in_u32 (co_symbol m).
Definition ack_ok (m : Ack) : Prop := in_u64 (ack_order_id m) /\ in_u64 (ack_seq m).
(** An enumerator, not a raw byte. *)
Definition reason_enumerator (r : RejectReason) : bool :=
  match r with RejectReasonRaw _ => false | _ => true end.
Definition reject_ok (m : Reject) : Prop :=
  in_u64 (rej_order_id m) /\ reason_enumerator (rej_reason m) = true.
Definition fill_ok (m : Fill) : Prop :=
  in_u64 (f_taker_id m) /\ in_u64 (f_maker_id m) /\ in_i64 (f_price m) /\ in_u32 (f_quantity m) /\
  in_u64 (f_seq m).

(** ** Round trips *)

Lemma msg_type_round t : is_known t = true -> msg_type_of_u16 (u16_of_msg_type t) = t.
Proof. by destruct t. Qed.
Lemma msg_type_range t : is_known t = true -> 0 <= u16_of_msg_type t < 2 ^ (8 * Z.of_nat 2).
Proof. destruct t; intros H; try done; simpl; lia. Qed.
Lemma reason_round r :
  reason_enumerator r = true ->
  reason_of_byte (byte_of_reason r) = r /\ is_valid_reason r = true /\ in_u8 (byte_of_reason r).
Proof. destruct r; intros H; try done. Qed.

(** The header of a frame whose body was stored behind it. *)
Definition has_header (p : bytes) (t : MsgType) (body_size : nat) (seq : SeqNo) : Prop :=
  load_be 2 p 0 = u16_of_msg_type t /\ load_be 2 p 2 = kProtocolVersion /\
  load_be 4 p 4 = Z.of_nat body_size /\ load_be 8 p 8 = seq.

Lemma decode_header_has p t body_size seq :
  has_header p t body_size seq -> (kHeaderSize <= length p)%nat -> is_known t = true ->
  Z.of_nat body_size <= kMaxBodyLen ->
  decode_header p =
    mkDecodeResult DecodeNone (mkMessageHeader t kProtocolVersion (Z.of_nat body_size) seq).
Proof.
  intros (Ht & Hv & Hl & Hs) Hlen Hk Hb. unfold decode_header.
  rewrite (proj2 (Nat.ltb_ge _ _) Hlen), Ht, Hv, Hl, Hs, msg_type_round by done.
  cbn [h_version h_type h_body_len]. rewrite Hk, Z.eqb_refl. simpl.
  by rewrite (proj2 (Z.ltb_ge _ _) Hb).
Qed.

Lemma has_header_write p t body_size seq :
  (kHeaderSize <= length p)%nat -> is_known t = true -> Z.of_nat body_size <= kMaxBodyLen -> in_u64 seq ->
  has_header (write_header p (mkMessageHeader t kProtocolVersion (u32 (Z.of_nat body_size)) seq))
    t body_size seq.
Proof.
  intros Hlen Hk Hb Hs. pose proof (msg_type_range t Hk) as Ht. unfold kHeaderSize in Hlen.
  assert (0 <= Z.of_nat body_size < 2 ^ 32) as Hb' by (unfold kMaxBodyLen in Hb; lia).
  unfold write_header, has_header. cbn [h_type h_version h_body_len h_seq_no].
  replace (u32 (Z.of_nat body_size)) with (Z.of_nat body_size) by (symmetry; by apply Z.mod_small).
  assert (0 <= kProtocolVersion < 2 ^ (8 * Z.of_nat 2)) as Hv by (unfold kProtocolVersion; simpl; lia).
  split_and!; repeat first
    [rewrite load_store_eq; [done|rewrite ?length_store_be; lia|done]
    |rewrite load_store_ne by lia].
Qed.

(** Stores into the body, or bytes appended behind it, keep the header. *)
Lemma has_header_store p t n seq w off v :
  (kHeaderSize <= off)%nat -> has_header p t n seq -> has_header (store_be w p off v) t n seq.
Proof.
  unfold kHeaderSize, has_header. intros Hoff H. by rewrite !load_store_ne by lia.
Qed.
Lemma has_header_set p t n seq i b :
  (kHeaderSize <= i)%nat -> has_header p t n seq -> has_header (set_byte p i b) t n seq.
Proof.
  unfold kHeaderSize, has_header. intros Hoff H. by rewrite !load_set_byte_ne by lia.
Qed.
Lemma has_header_app p p' t n seq :
  (kHeaderSize <= length p)%nat -> has_header p t n seq -> has_header (p ++ p') t n seq.
Proof.
  unfold kHeaderSize, has_header. intros Hlen H. by rewrite !load_be_app_l by lia.
Qed.

Lemma length_write_header p h : length (write_header p h) = length p.
Proof. unfold write_header. by rewrite !length_store_be. Qed.

Ltac body_side := rewrite ?length_set_byte, ?length_store_be, ?length_write_header, ?length_zeros; closed_nat.
Ltac body_side_eq := rewrite ?length_set_byte, ?length_store_be, ?length_write_header, ?length_zeros; reflexivity.
Ltac header_step :=
  lazymatch goal with
  | |- has_header (_ ++ _) _ _ _ => apply has_header_app; [body_side|]
  | |- has_header (set_byte _ _ _) _ _ _ => apply has_header_set; [closed_nat|]
  | |- has_header (store_be _ _ _ _) _ _ _ => apply has_header_store; [closed_nat|]
  | |- has_header (write_header _ _) _ _ _ =>
      apply has_header_write; [rewrite length_zeros; closed_nat|done|done|done]
  end.
Ltac header_solve := repeat header_step.

(** Fields read out of the body when bytes follow the frame. *)
Ltac body_solve :=
  repeat match goal with
  | |- context [load_be ?w (?p ++ ?q) ?off] => rewrite (load_be_app_l w p q off) by body_side
  | |- context [byte_at (?p ++ ?q) ?i] => rewrite (byte_at_app_l p q i) by body_side
  end; unfold write_header; be_solve.

Ltac app_side := rewrite length_app; etransitivity; [|apply Nat.le_add_r]; body_side.
Ltac long_enough :=
  match goal with
  | |- context [(length (?p ++ ?q) <? ?n)%nat] =>
      replace (length (p ++ q) <? n)%nat with false
        by (symmetry; apply Nat.ltb_ge; app_side)
  end.

Lemma decode_encode_new_order m seq rest :
  new_order_ok m -> in_u64 seq ->
  decode_new_order (encode_new_order m seq ++ rest) = mkDecodeResult DecodeNone m.
Proof.
  intros (? & ? & Hp & ? & Hs & Ht & Hf) Hseq. unfold decode_new_order.
  rewrite (decode_header_has _ MtNewOrder kNewOrderBodySize seq);
    [|unfold encode_new_order; header_solve
     |unfold encode_new_order; app_side|done|done].
  cbn [decode_ok d_error d_value h_type h_body_len]. rewrite !bool_decide_true, Z.eqb_refl by done. cbn [negb].
  unfold encode_new_order. long_enough. body_solve. simpl.
  rewrite !u8_small by auto with qsl.
  rewrite side_of_byte_of_side, order_type_of_byte_of_type, tif_of_byte_of_tif, Hs, Ht, Hf by done.
  simpl. rewrite i64_u64 by done. by destruct m.
Qed.

Lemma decode_encode_cancel_order m seq rest :
  cancel_order_ok m -> in_u64 seq ->
  decode_cancel_order (encode_cancel_order m seq ++ rest) = mkDecodeResult DecodeNone m.
Proof.
  intros (? & ?) Hseq. unfold decode_cancel_order.
  rewrite (decode_header_has _ MtCancelOrder kCancelOrderBodySize seq);
    [|unfold encode_cancel_order; header_solve
     |unfold encode_cancel_order; app_side|done|done].
  cbn [decode_ok d_error d_value h_type h_body_len]. rewrite !bool_decide_true, Z.eqb_refl by done. cbn [negb].
  unfold encode_cancel_order. long_enough. body_solve. by destruct m.
Qed.

Lemma validate_typed_has p t body_size seq :
  has_header p t body_size seq -> (kHeaderSize + body_size <= length p)%nat -> is_known t = true ->
  Z.of_nat body_size <= kMaxBodyLen ->
  validate_typed p t body_size = (DecodeNone, Some kHeaderSize).
Proof.
  intros Hh Hlen Hk Hb. unfold validate_typed. rewrite (decode_header_has _ t body_size seq) by (done || lia).
  cbn [decode_ok d_error d_value h_type h_body_len]. rewrite !bool_decide_true, Z.eqb_refl by done.
  by rewrite (proj2 (Nat.ltb_ge _ _) Hlen).
Qed.

Ltac typed_solve :=
  erewrite (validate_typed_has _ _ _ 0); [|unfold framed; header_solve|unfold framed; app_side|done|done];
  unfold framed; body_solve.

Lemma decode_encode_heartbeat m rest :
  in_u64 (hb_token m) -> decode_heartbeat (encode_heartbeat m ++ rest) = mkDecodeResult DecodeNone m.
Proof. intros ?. unfold decode_heartbeat, encode_heartbeat. typed_solve. by destruct m. Qed.

Lemma decode_encode_heartbeat_ack m rest :
  in_u64 (hba_token m) ->
  decode_heartbeat_ack (encode_heartbeat_ack m ++ rest) = mkDecodeResult DecodeNone m.
Proof. intros ?. unfold decode_heartbeat_ack, encode_heartbeat_ack. typed_solve. by destruct m. Qed.

Lemma decode_encode_ack m rest :
  ack_ok m -> decode_ack (encode_ack m ++ rest) = mkDecodeResult DecodeNone m.
Proof. intros (? & ?). unfold decode_ack, encode_ack. typed_solve. by destruct m. Qed.

Lemma decode_encode_reject m rest :
  reject_ok m -> decode_reject (encode_reject m ++ rest) = mkDecodeResult DecodeNone m.
Proof.
  intros (? & Hr). apply reason_round in Hr as (Hr & Hv & Hb). unfold decode_reject, encode_reject.
  typed_solve. rewrite u8_small by done. rewrite Hr, Hv. by destruct m.
Qed.

Lemma decode_encode_fill m rest :
  fill_ok m -> decode_fill (encode_fill m ++ rest) = mkDecodeResult DecodeNone m.
Proof.
  intros (? & ? & Hp & ? & ?). unfold decode_fill, encode_fill. typed_solve.
  rewrite i64_u64 by done. by destruct m.
Qed.

(** ** Accepted frames are the frames the encoder writes *)

Lemma u16_of_msg_type_of_u16 v : u16_of_msg_type (msg_type_of_u16 v) = v.
Proof.
  unfold msg_type_of_u16.
  repeat match goal with |- context [v =? ?k] => destruct (Z.eqb_spec v k); [by subst|] end. done.
Qed.

Lemma agrees_header p frame t body_size :
  bytes_ok frame -> (kHeaderSize <= length p)%nat -> Z.of_nat body_size <= kMaxBodyLen ->
  has_header frame t body_size (load_be 8 frame 8) ->
  agrees (write_header p (mkMessageHeader t kProtocolVersion (u32 (Z.of_nat body_size)) (load_be 8 frame 8)))
    frame kHeaderSize.
Proof.
  intros Hok Hlen Hb (Ht & Hv & Hl & _). unfold write_header, kHeaderSize in *. cbn [h_type h_version h_body_len h_seq_no].
  apply (agrees_store 8 _ _ 8); [done|rewrite !length_store_be; lia|done|].
  apply (agrees_store 4 _ _ 4); [done|rewrite !length_store_be; lia| |].
  { rewrite Hl. apply Z.mod_small. unfold kMaxBodyLen in Hb. lia. }
  apply (agrees_store 2 _ _ 2); [done|rewrite !length_store_be; lia|done|].
  apply (agrees_store 2 _ _ 0); [done|lia|done|]. intros j Hj. lia.
Qed.

(** What a successful header decode established. *)
Lemma decode_header_inv p t :
  decode_ok (decode_header p) = true -> h_type (d_value (decode_header p)) = t ->
  (kHeaderSize <= length p)%nat /\
  has_header p t (Z.to_nat (h_body_len (d_value (decode_header p)))) (load_be 8 p 8) /\
  0 <= h_body_len (d_value (decode_header p)) <= kMaxBodyLen.
Proof.
  unfold decode_header, decode_ok. destruct (length p <? kHeaderSize)%nat eqn:El; [done|].
  apply Nat.ltb_ge in El. cbn [h_version h_type h_body_len].
  destruct (Z.eqb_spec (load_be 2 p 2) kProtocolVersion) as [Ev|]; cbn [negb]; [|done].
  destruct (is_known _); cbn [negb]; [|done]. destruct (Z.ltb_spec kMaxBodyLen (load_be 4 p 4)); [done|].
  cbn [d_value h_type h_body_len d_error]. intros _ <-. pose proof (load_be_range 4 p 4).
  split; [done|]. split; [|lia]. split_and!; try done; [by rewrite u16_of_msg_type_of_u16|].
  rewrite Z2Nat.id; [done|lia].
Qed.

Ltac agrees_body :=
  repeat lazymatch goal with
  | |- agrees (set_byte ?p ?i ?b) ?f ?n =>
      change n with (i + 1)%nat; apply agrees_set_byte; [done|body_side| |]
  | |- agrees (store_be ?w ?p ?off ?v) ?f ?n =>
      change n with (off + w)%nat; apply agrees_store; [done|body_side| |]
  end.

Lemma encode_decode_new_order frame m :
  bytes_ok frame -> decode_new_order frame = mkDecodeResult DecodeNone m ->
  encode_new_order m (load_be 8 frame 8) = take (kHeaderSize + kNewOrderBodySize) frame.
Proof.
  intros Hok. unfold decode_new_order.
  destruct (decode_ok (decode_header frame)) eqn:Eo; cbn [negb];
    [|by intros [= E _]; unfold decode_ok in Eo; rewrite E in Eo].
  destruct (bool_decide_reflect (h_type (d_value (decode_header frame)) = MtNewOrder)) as [Et|]; cbn [negb]; [|done].
  destruct (decode_header_inv _ _ Eo Et) as (Hlen & Hh & _).
  destruct (Z.eqb_spec (h_body_len (d_value (decode_header frame))) (Z.of_nat kNewOrderBodySize)) as [Eb|];
    cbn [negb]; [|done]. rewrite Eb, Nat2Z.id in Hh.
  destruct (Nat.ltb_spec (length frame) (kHeaderSize + kNewOrderBodySize)); [done|].
  destruct (is_valid_side _) eqn:Es; [|done]. destruct (is_valid_order_type _) eqn:Eot; [|done].
  destruct (is_valid_tif _) eqn:Ef; [|done]. cbn [orb negb]. intros [= <-].
  apply agrees_take; [|unfold encode_new_order; body_side_eq|done].
  unfold encode_new_order. cbn [no_order_id no_symbol no_price no_quantity no_side no_type no_tif].
  agrees_body; [by apply byte_of_tif_of_byte|by apply byte_of_order_type_of_byte|by apply byte_of_side_of_byte|done
    |apply u64_i64, load_u64|done|done|].
  by apply agrees_header; [|rewrite length_zeros; closed_nat|..].
Qed.

Lemma encode_decode_cancel_order frame m :
  bytes_ok frame -> decode_cancel_order frame = mkDecodeResult DecodeNone m ->
  encode_cancel_order m (load_be 8 frame 8) = take (kHeaderSize + kCancelOrderBodySize) frame.
Proof.
  intros Hok. unfold decode_cancel_order.
  destruct (decode_ok (decode_header frame)) eqn:Eo; cbn [negb];
    [|by intros [= E _]; unfold decode_ok in Eo; rewrite E in Eo].
  destruct (bool_decide_reflect (h_type (d_value (decode_header frame)) = MtCancelOrder)) as [Et|]; cbn [negb]; [|done].
  destruct (decode_header_inv _ _ Eo Et) as (Hlen & Hh & _).
  destruct (Z.eqb_spec (h_body_len (d_value (decode_header frame))) (Z.of_nat kCancelOrderBodySize)) as [Eb|];
    cbn [negb]; [|done]. rewrite Eb, Nat2Z.id in Hh.
  destruct (Nat.ltb_spec (length frame) (kHeaderSize + kCancelOrderBodySize)); [done|]. intros [= <-].
  apply agrees_take; [|unfold encode_cancel_order; body_side_eq|done].
  unfold encode_cancel_order. cbn [co_order_id co_symbol]. agrees_body; [done|done|].
  by apply agrees_header; [|rewrite length_zeros; closed_nat|..].
Qed.

(** ** Frame sizes *)

Lemma length_encode_heartbeat_ack m : length (encode_heartbeat_ack m) = (kHeaderSize + kHeartbeatBodySize)%nat.
Proof. unfold encode_heartbeat_ack, framed. body_side_eq. Qed.
Lemma length_encode_ack m : length (encode_ack m) = (kHeaderSize + kAckBodySize)%nat.
Proof. unfold encode_ack, framed. body_side_eq. Qed.
Lemma length_encode_reject m : length (encode_reject m) = (kHeaderSize + kRejectBodySize)%nat.
Proof. unfold encode_reject, framed. body_side_eq. Qed.
Lemma length_encode_fill m : length (encode_fill m) = (kHeaderSize + kFillBodySize)%nat.
Proof. unfold encode_fill, framed. body_side_eq. Qed.
