(* ===== verification/Fix.v ===== *)
(** * Fix: the FIX-like text protocol

    include/qsl/protocol/fix.hpp and src/protocol/fix.cpp: [tag=value] fields
    terminated by SOH in an envelope with a length and a checksum, mapped to the
    same order messages as the binary codec.  A message is the list of its bytes.
    A decoder returns the error or the decoded value. *)
From S2P Require Import Prelude Core Endian Text Protocol.

(** ** fix.hpp *)

Definition kSoh : Z := 1.
Definition kBeginString : bytes := text "FIX.4.2".
Definition kMaxMessageLen : nat := 1024.
Definition kMsgNewOrderSingle : Z := 68. (* D *)
Definition kMsgOrderCancelRequest : Z := 70. (* F *)

Inductive FixError :=
| FixNone
| FixMalformed
| UnsupportedBeginString
| UnknownMsgType
| MissingField
| InvalidField
| FixBodyLengthMismatch
| FixChecksumMismatch
| FixInvalidEnumValue
| FixOutOfRange.

#[export] Instance FixError_eq_dec : EqDecision FixError.
Proof. solve_decision. Defined.

Definition fix_error_to_string (e : FixError) : string :=
  match e with
  | FixNone => "None"
  | FixMalformed => "Malformed"
  | UnsupportedBeginString => "UnsupportedBeginString"
  | UnknownMsgType => "UnknownMsgType"
  | MissingField => "MissingField"
  | InvalidField => "InvalidField"
  | FixBodyLengthMismatch => "BodyLengthMismatch"
  | FixChecksumMismatch => "ChecksumMismatch"
  | FixInvalidEnumValue => "InvalidEnumValue"
  | FixOutOfRange => "OutOfRange"
  end.

(** [FixDecodeResult]: [FixOk] carries the value, [FixFail] an error other than
    [None]. *)
Inductive FixDecodeResult (T : Type) :=
| FixOk (value : T)
| FixFail (error : FixError).
Arguments FixOk {T} _.
Arguments FixFail {T} _.

(** ** Tags and fields *)

Definition kTagBeginString : Z := 8.
Definition kTagBodyLength : Z := 9.
Definition kTagCheckSum : Z := 10.
Definition kTagClOrdID : Z := 11.
Definition kTagMsgSeqNum : Z := 34.
Definition kTagMsgType : Z := 35.
Definition kTagOrderQty : Z := 38.
Definition kTagOrdType : Z := 40.
Definition kTagOrigClOrdID : Z := 41.
Definition kTagPrice : Z := 44.
Definition kTagSide : Z := 54.
Definition kTagSymbol : Z := 55.
Definition kTagTimeInForce : Z := 59.

Definition kMaxFields : nat := 32.

Record Field := mkField { fld_tag : Z; fld_value : bytes; fld_start : nat }.

(** [Parsed]: the first [count] entries of the field table. *)
Abbreviation Parsed := (list Field) (only parsing).

Definition parse_int (ty : IntType) (sv : bytes) : option Z :=
  if is_nil sv then None
  else
    match from_chars ty sv with
    | Converted out [] => Some out
    | _ => None
    end.

Fixpoint find_field (p : Parsed) (tag : Z) : option Field :=
  match p with
  | [] => None
  | f :: p' => if fld_tag f =? tag then Some f else find_field p' tag
  end.

(** [std::string_view::find] of a character from a position, and [substr]. *)
Definition sv_find (c : Z) (pos : nat) (msg : bytes) : option nat :=
  (fun x => (pos + x.1)%nat) <$> list_find (fun b => b = c) (drop pos msg).
Definition substr (msg : bytes) (pos count : nat) : bytes := take count (drop pos msg).

(** The loop of [tokenize]; every iteration consumes a character. *)
Fixpoint tokenize_loop (fuel : nat) (msg : bytes) (pos : nat) (out : Parsed) : FixError * Parsed :=
  match fuel with
  | O => (FixNone, out)
  | S fuel' =>
      if negb (pos <? length msg)%nat then (FixNone, out)
      else
        match sv_find kSoh pos msg with
        | None => (FixMalformed, out)
        | Some soh =>
            match sv_find 61 pos msg with
            | None => (FixMalformed, out)
            | Some eq =>
                if (soh <=? eq)%nat then (FixMalformed, out)
                else
                  match parse_int uint32_type (substr msg pos (eq - pos)) with
                  | None => (FixMalformed, out)
                  | Some tag =>
                      if (kMaxFields <=? length out)%nat then (FixMalformed, out)
                      else
                        match find_field out tag with
                        | Some _ => (FixMalformed, out)
                        | None =>
                            tokenize_loop fuel' msg (soh + 1)
                              (out ++ [mkField tag (substr msg (eq + 1) (soh - (eq + 1))) pos])
                        end
                  end
            end
        end
  end.

Definition tokenize (msg : bytes) : FixError * Parsed := tokenize_loop (S (length msg)) msg 0 [].

Definition field_at (p : Parsed) (i : nat) : Field := default (mkField 0 [] 0) (p !! i).

Definition check_envelope_shape (p : Parsed) : FixError :=
  if (length p <? 3)%nat then FixMalformed
  else
    let begin := field_at p 0 in
    let ordered :=
      (fld_tag begin =? kTagBeginString) && (fld_tag (field_at p 1) =? kTagBodyLength) &&
      (fld_tag (field_at p 2) =? kTagMsgType) && (fld_tag (field_at p (length p - 1)) =? kTagCheckSum) in
    if negb ordered then FixMalformed
    else if bool_decide (fld_value begin = kBeginString) then FixNone else UnsupportedBeginString.

Definition byte_sum (s : bytes) : Z := fold_left (fun sum c => u32 (sum + c)) s 0.

Definition verify_length_and_checksum (msg : bytes) (p : Parsed) : FixError :=
  let f_csum := field_at p (length p - 1) in
  let checksum_start := fld_start f_csum in
  match parse_int uint64_type (fld_value (field_at p 1)) with
  | None => InvalidField
  | Some body_len =>
      if negb (body_len =? u64 (Z.of_nat checksum_start - Z.of_nat (fld_start (field_at p 2)))) then FixBodyLengthMismatch
      else
        match (if (length (fld_value f_csum) =? 3)%nat then parse_int uint32_type (fld_value f_csum) else None) with
        | None => InvalidField
        | Some declared =>
            if Z.land (byte_sum (take checksum_start msg)) 255 =? declared then FixNone else FixChecksumMismatch
        end
  end.

Definition parse_envelope (msg : bytes) : FixError * Parsed :=
  if is_nil msg || (kMaxMessageLen <? length msg)%nat then (FixMalformed, [])
  else
    let '(e, out) := tokenize msg in
    if negb (bool_decide (e = FixNone)) then (e, out)
    else
      let e := check_envelope_shape out in
      if negb (bool_decide (e = FixNone)) then (e, out) else (verify_length_and_checksum msg out, out).

(** ** Reading fields *)

Definition require_int (p : Parsed) (tag : Z) (ty : IntType) : FixDecodeResult Z :=
  match find_field p tag with
  | None => FixFail MissingField
  | Some f =>
      if is_nil (fld_value f) then FixFail InvalidField
      else
        match from_chars ty (fld_value f) with
        | ResultOutOfRange _ => FixFail FixOutOfRange
        | Converted out [] => FixOk out
        | _ => FixFail InvalidField
        end
  end.

Definition require_code (p : Parsed) (tag : Z) : FixDecodeResult Z :=
  match find_field p tag with
  | None => FixFail MissingField
  | Some f => match fld_value f with [c] => FixOk c | _ => FixFail FixInvalidEnumValue end
  end.

Definition expect_msg_type (p : Parsed) (expected : Z) : FixError :=
  match find_field p kTagMsgType with
  | None => UnknownMsgType
  | Some type => match fld_value type with [c] => if c =? expected then FixNone else UnknownMsgType | _ => UnknownMsgType end
  end.

(** [FieldReader]: the pending error and the message being filled. *)
Section FieldReader.
Context {T : Type} (p_ : Parsed).

Definition reader_integer (tag : Z) (ty : IntType) (set : Z -> T -> T) (r : FixError * T) : FixError * T :=
  let '(err_, out) := r in
  if bool_decide (err_ = FixNone)
  then match require_int p_ tag ty with FixOk v => (FixNone, set v out) | FixFail e => (e, out) end
  else r.

Definition reader_coded {Enum : Type} (tag : Z) (table : list (Z * Enum)) (set : Enum -> T -> T) (r : FixError * T) :
    FixError * T :=
  let '(err_, out) := r in
  if negb (bool_decide (err_ = FixNone)) then r
  else
    match require_code p_ tag with
    | FixFail e => (e, out)
    | FixOk code => match om_find code table with Some e => (FixNone, set e out) | None => (FixInvalidEnumValue, out) end
    end.
End FieldReader.

(** ** Encoding *)

Definition append_field (dst : bytes) (tag : Z) (value : bytes) : bytes := dst ++ to_string tag ++ 61 :: value ++ [kSoh].

Definition frame (body : bytes) : bytes :=
  let head := text "8=" ++ kBeginString ++ [kSoh] ++ text "9=" ++ to_string (Z.of_nat (length body)) ++ [kSoh] ++ body in
  let cs := byte_sum head mod 256 in
  let csum := [48 + (cs / 100) mod 10; 48 + (cs / 10) mod 10; 48 + cs mod 10] in
  head ++ text "10=" ++ csum ++ [kSoh].

Definition encode_new_order (msg : NewOrder) (seq : SeqNo) : bytes :=
  let body := append_field [] kTagMsgType [kMsgNewOrderSingle] in
  let body := append_field body kTagMsgSeqNum (to_string seq) in
  let body := append_field body kTagClOrdID (to_string (no_order_id msg)) in
  let body := append_field body kTagSymbol (to_string (no_symbol msg)) in
  let body := append_field body kTagSide (if bool_decide (no_side msg = Buy) then text "1" else text "2") in
  let body := append_field body kTagOrderQty (to_string (no_quantity msg)) in
  let body := append_field body kTagOrdType (if bool_decide (no_type msg = Market) then text "1" else text "2") in
  let body := append_field body kTagPrice (to_string_signed (no_price msg)) in
  let body := append_field body kTagTimeInForce (if bool_decide (no_tif msg = GTC) then text "1" else text "3") in
  frame body.

Definition encode_cancel_order (msg : CancelOrder) (seq : SeqNo) : bytes :=
  let body := append_field [] kTagMsgType [kMsgOrderCancelRequest] in
  let body := append_field body kTagMsgSeqNum (to_string seq) in
  let body := append_field body kTagOrigClOrdID (to_string (co_order_id msg)) in
  let body := append_field body kTagClOrdID (to_string (co_order_id msg)) in
  let body := append_field body kTagSymbol (to_string (co_symbol msg)) in
  frame body.

(** ** Decoding *)

Definition decode_typed {T : Type} (msg : bytes) (expected : Z) (init : T)
    (fill : Parsed -> FixError * T -> FixError * T) : FixDecodeResult T :=
  let '(e, p) := parse_envelope msg in
  if negb (bool_decide (e = FixNone)) then FixFail e
  else
    let e := expect_msg_type p expected in
    if negb (bool_decide (e = FixNone)) then FixFail e
    else
      let '(e, out) := fill p (FixNone, init) in
      if negb (bool_decide (e = FixNone)) then FixFail e else FixOk out.

Definition sides : list (Z * Side) := [(49, Buy); (50, Sell)].
Definition types : list (Z * OrderType) := [(49, Market); (50, Limit)].
Definition tifs : list (Z * TimeInForce) := [(49, GTC); (51, IOC)].

Definition fill_new_order (p : Parsed) (r : FixError * NewOrder) : FixError * NewOrder :=
  let r := reader_integer p kTagMsgSeqNum uint64_type (fun _ o => o) r in
  let r := reader_integer p kTagClOrdID uint64_type
    (fun v o => mkNewOrder v (no_symbol o) (no_price o) (no_quantity o) (no_side o) (no_type o) (no_tif o)) r in
  let r := reader_integer p kTagSymbol uint32_type
    (fun v o => mkNewOrder (no_order_id o) v (no_price o) (no_quantity o) (no_side o) (no_type o) (no_tif o)) r in
  let r := reader_integer p kTagOrderQty uint32_type
    (fun v o => mkNewOrder (no_order_id o) (no_symbol o) (no_price o) v (no_side o) (no_type o) (no_tif o)) r in
  let r := reader_integer p kTagPrice int64_type
    (fun v o => mkNewOrder (no_order_id o) (no_symbol o) v (no_quantity o) (no_side o) (no_type o) (no_tif o)) r in
  let r := reader_coded p kTagSide sides
    (fun e o => mkNewOrder (no_order_id o) (no_symbol o) (no_price o) (no_quantity o) e (no_type o) (no_tif o)) r in
  let r := reader_coded p kTagOrdType types
    (fun e o => mkNewOrder (no_order_id o) (no_symbol o) (no_price o) (no_quantity o) (no_side o) e (no_tif o)) r in
  reader_coded p kTagTimeInForce tifs
    (fun e o => mkNewOrder (no_order_id o) (no_symbol o) (no_price o) (no_quantity o) (no_side o) (no_type o) e) r.

Definition decode_new_order (msg : bytes) : FixDecodeResult NewOrder :=
  decode_typed msg kMsgNewOrderSingle (mkNewOrder 0 0 0 0 Buy Limit GTC) fill_new_order.

Definition fill_cancel_order (p : Parsed) (r : FixError * CancelOrder) : FixError * CancelOrder :=
  let r := reader_integer p kTagMsgSeqNum uint64_type (fun _ o => o) r in
  let r := reader_integer p kTagOrigClOrdID uint64_type (fun v o => mkCancelOrder v (co_symbol o)) r in
  let r := reader_integer p kTagClOrdID uint64_type (fun _ o => o) r in
  reader_integer p kTagSymbol uint32_type (fun v o => mkCancelOrder (co_order_id o) v) r.

Definition decode_cancel_order (msg : bytes) : FixDecodeResult CancelOrder :=
  decode_typed msg kMsgOrderCancelRequest (mkCancelOrder 0 0) fill_cancel_order.

Definition peek_msg_type (msg : bytes) : FixDecodeResult Z :=
  let '(e, p) := parse_envelope msg in
  if negb (bool_decide (e = FixNone)) then FixFail e
  else
    match find_field p kTagMsgType with
    | None => FixFail UnknownMsgType
    | Some type => match fld_value type with [c] => FixOk c | _ => FixFail UnknownMsgType end
    end.

Definition peek_seq (msg : bytes) : FixDecodeResult SeqNo :=
  let '(e, p) := parse_envelope msg in
  if negb (bool_decide (e = FixNone)) then FixFail e else require_int p kTagMsgSeqNum uint64_type.
