(* ===== verification/FixSpec.v ===== *)
(** * FixSpec: lemmas on the FIX-like text protocol

    [tokenize] as a recursion over the unread suffix, its inverse on rendered
    fields, the envelope of encoded messages, and what an accepted envelope says
    about the bytes of the message. *)
From S2P Require Import Prelude Core Endian Text Protocol Fix.

(** ** Splitting at a character *)

Fixpoint split_at (c : Z) (t : bytes) : option (bytes * bytes) :=
  match t with
  | [] => None
  | b :: t' => if b =? c then Some ([], t') else (fun x => (b :: x.1, x.2)) <$> split_at c t'
  end.

Lemma split_at_spec c t a b : split_at c t = Some (a, b) <-> t = a ++ c :: b /\ c ∉ a.
Proof.
  revert a. induction t as [|x t IH]; intros a; cbn [split_at].
  - split; [done|]. intros [H _]. by destruct a.
  - destruct (Z.eqb_spec x c) as [->|Hne].
    + split; [intros [= <- <-]; split; [done|by intros ?%elem_of_nil]|]. intros [He Hn].
      destruct a as [|y a]; [by injection He as ->|]. injection He as <- _. contradict Hn. apply list_elem_of_here.
    + destruct (split_at c t) as [[a' b']|] eqn:E; cbn [fmap option_fmap option_map fst snd].
      * split.
        -- intros [= <- <-]. destruct (proj1 (IH a') eq_refl) as [-> Hn]. split; [done|]. rewrite not_elem_of_cons. by split.
        -- intros [He Hn]. destruct a as [|y a]; [injection He; congruence|]. injection He as <- He. apply not_elem_of_cons in Hn as [_ Hn].
           by injection (proj2 (IH a) (conj He Hn)) as -> ->.
      * split; [done|]. intros [He Hn]. destruct a as [|y a]; [injection He; congruence|]. injection He as <- He. apply not_elem_of_cons in Hn as [_ Hn].
        by pose proof (proj2 (IH a) (conj He Hn)).
Qed.

Lemma split_at_None c t : split_at c t = None <-> c ∉ t.
Proof.
  split.
  - intros Hs [a [b ->]]%list_elem_of_split.
    destruct (split_at c (a ++ c :: b)) eqn:E; [done|]. clear Hs. revert E. induction a as [|x a IH]; cbn; [by rewrite Z.eqb_refl|].
    destruct (x =? c); [done|]. destruct (split_at c (a ++ c :: b)); [done|]. by intros _; apply IH.
  - intros Hn. destruct (split_at c t) as [[a b]|] eqn:E; [|done]. apply split_at_spec in E as [-> _]. contradict Hn.
    apply elem_of_app. right. apply list_elem_of_here.
Qed.

Lemma sv_find_split c pos msg : sv_find c pos msg = (fun x => (pos + length x.1)%nat) <$> split_at c (drop pos msg).
Proof.
  unfold sv_find. generalize (drop pos msg). intros t. 
  assert (forall t, fst <$> list_find (fun b => b = c) t = (fun x => length x.1) <$> split_at c t) as Hl.
  { clear t. induction t as [|x t IH]; cbn [list_find split_at]; [done|]. destruct (Z.eqb_spec x c) as [->|Hne]; [by rewrite decide_True|].
    rewrite decide_False by done. destruct (list_find _ t) as [[i y]|], (split_at c t) as [[a b]|]; cbn in *; try done. by injection IH as ->. }
  specialize (Hl t). destruct (list_find _ t) as [[i y]|], (split_at c t) as [[a b]|]; cbn in *; try done. by injection Hl as ->.
Qed.

(** ** The tokenizer over suffixes *)

Fixpoint parse_fields (fuel : nat) (t : bytes) (pos : nat) (out : list Field) : FixError * list Field :=
  match fuel with
  | O => (FixNone, out)
  | S fuel' =>
      if is_nil t then (FixNone, out)
      else
        match split_at kSoh t with
        | None => (FixMalformed, out)
        | Some (seg, rest) =>
            match split_at 61 seg with
            | None => (FixMalformed, out)
            | Some (tag_text, value) =>
                match parse_int uint32_type tag_text with
                | None => (FixMalformed, out)
                | Some tag =>
                    if (kMaxFields <=? length out)%nat then (FixMalformed, out)
                    else
                      match find_field out tag with
                      | Some _ => (FixMalformed, out)
                      | None => parse_fields fuel' rest (pos + length seg + 1) (out ++ [mkField tag value pos])
                      end
                end
            end
        end
  end.

Lemma drop_app_cons (a : bytes) c b msg pos :
  drop pos msg = a ++ c :: b -> drop (pos + length a + 1) msg = b.
Proof.
  intros H. replace (pos + length a + 1)%nat with (pos + (length a + 1))%nat by lia. rewrite <- drop_drop, H.
  rewrite drop_app_ge by lia. replace (length a + 1 - length a)%nat with 1%nat by lia. done.
Qed.

Lemma tokenize_loop_suffix fuel msg : forall pos out,
  (pos <= length msg)%nat -> tokenize_loop fuel msg pos out = parse_fields fuel (drop pos msg) pos out.
Proof.
  induction fuel as [|fuel IH]; intros pos out Hpos; [done|]. cbn [tokenize_loop parse_fields].
  destruct (decide (pos = length msg)) as [->|Hne]; [by rewrite Nat.ltb_irrefl, drop_all|].
  replace (pos <? length msg)%nat with true by (symmetry; apply Nat.ltb_lt; lia). cbn [negb].
  assert (drop pos msg <> []) as Hd.
  { intros H%(f_equal length). rewrite length_drop in H. cbn in H. lia. }
  destruct (is_nil (drop pos msg)) eqn:En; [by destruct (drop pos msg)|].
  rewrite !sv_find_split. destruct (split_at kSoh (drop pos msg)) as [[seg rest]|] eqn:Es; cbn [fmap option_fmap option_map fst]; [|done].
  apply split_at_spec in Es as [Et Hseg]. rewrite Et.
  destruct (split_at 61 seg) as [[tag_text value]|] eqn:Ee.
  - apply split_at_spec in Ee as [-> Htt].
    rewrite (proj2 (split_at_spec 61 ((tag_text ++ 61 :: value) ++ kSoh :: rest) tag_text (value ++ kSoh :: rest))) by (split; [by rewrite <- app_assoc|done]).
    cbn [fmap option_fmap option_map fst]. rewrite length_app. cbn [length].
    replace (pos + (length tag_text + S (length value)) <=? pos + length tag_text)%nat with false by (symmetry; apply Nat.leb_gt; lia).
    replace (pos + length tag_text - pos)%nat with (length tag_text) by lia. unfold substr. rewrite Et.
    rewrite <- app_assoc, take_app_length. cbn [app].
    rewrite (drop_app_cons tag_text 61 (value ++ kSoh :: rest) msg pos) by (by rewrite Et, <- app_assoc).
    replace (pos + (length tag_text + S (length value)) - (pos + length tag_text + 1))%nat with (length value) by lia. rewrite take_app_length.
    destruct (parse_int uint32_type tag_text) as [tag|]; [|done]. destruct (kMaxFields <=? length out)%nat; [done|].
    destruct (find_field out tag); [done|]. rewrite IH; [|apply (f_equal length) in Et; rewrite length_drop, !length_app in Et; cbn in Et; lia].
    f_equal. replace (pos + (length tag_text + S (length value)) + 1)%nat with (pos + length (tag_text ++ 61%Z :: value) + 1)%nat
      by (rewrite length_app; cbn; lia). by apply drop_app_cons with kSoh.
  - destruct (split_at 61 (seg ++ kSoh :: rest)) as [[a b]|] eqn:E2; cbn [fmap option_fmap option_map fst]; [|done].
    apply split_at_spec in E2 as [E2 Ha]. apply split_at_None in Ee.
    replace (pos + length seg <=? pos + length a)%nat with true; [done|]. symmetry. apply Nat.leb_le.
    destruct (decide (length a < length seg)%nat) as [Hlt|]; [|lia]. exfalso. apply Ee.
    apply (f_equal (fun l => l !! length a)) in E2. rewrite lookup_app_l, lookup_app_r, Nat.sub_diag in E2 by lia. by eapply list_elem_of_lookup_2.
Qed.

Lemma tokenize_suffix msg : tokenize msg = parse_fields (S (length msg)) msg 0 [].
Proof. unfold tokenize. rewrite tokenize_loop_suffix by lia. done. Qed.

Lemma find_field_None p tag : find_field p tag = None <-> tag ∉ map fld_tag p.
Proof.
  induction p as [|f p IH]; cbn [find_field map].
  - split; [by intros _ ?%elem_of_nil|done].
  - rewrite not_elem_of_cons, <- IH. destruct (Z.eqb_spec (fld_tag f) tag); [split; [done|by intros []]|]. split; [by split|by intros []].
Qed.

(** ** Rendered fields *)

Definition field_text (kv : Z * bytes) : bytes := to_string kv.1 ++ 61 :: kv.2 ++ [kSoh].
Definition render (kvs : list (Z * bytes)) : bytes := concat (map field_text kvs).

Fixpoint place (pos : nat) (kvs : list (Z * bytes)) : list Field :=
  match kvs with
  | [] => []
  | kv :: kvs' => mkField kv.1 kv.2 pos :: place (pos + length (field_text kv)) kvs'
  end.

Lemma render_app a b : render (a ++ b) = render a ++ render b.
Proof. unfold render. by rewrite map_app, concat_app. Qed.

Lemma place_length pos kvs : length (place pos kvs) = length kvs.
Proof. revert pos. induction kvs as [|kv kvs IH]; intros pos; [done|]. cbn. by rewrite IH. Qed.

Lemma place_app pos a b : place pos (a ++ b) = place pos a ++ place (pos + length (render a)) b.
Proof.
  revert pos. induction a as [|kv a IH]; intros pos; cbn [app place render map concat]; [by rewrite Nat.add_0_r|].
  rewrite IH. do 3 f_equal. unfold render. cbn [map concat]. rewrite length_app. lia.
Qed.

Lemma place_tags pos kvs : map fld_tag (place pos kvs) = map fst kvs.
Proof. revert pos. induction kvs as [|kv kvs IH]; intros pos; [done|]. cbn. by rewrite IH. Qed.

(** Values that can be sent: no separator inside. *)
Definition kv_ok (kv : Z * bytes) : Prop := in_u32 kv.1 /\ kSoh ∉ kv.2.

Lemma digits_free c s : Forall (fun c => is_digit c = true) s -> is_digit c = false -> c ∉ s.
Proof. intros Hs Hc Hin. rewrite Forall_forall in Hs. specialize (Hs _ Hin). cbn in Hs. congruence. Qed.

Lemma parse_int_to_string ty n : in_u64 n -> it_min ty <= n <= it_max ty -> parse_int ty (to_string n) = Some n.
Proof.
  intros Hn Hr. unfold parse_int. pose proof (to_string_spec n Hn) as (_ & _ & Hne & _).
  pose proof (from_chars_unsigned ty n [] Hn Hr ltac:(done)) as Hf. rewrite app_nil_r in Hf. rewrite Hf. by destruct (to_string n).
Qed.

Lemma parse_fields_render kvs : forall fuel pos out,
  Forall kv_ok kvs -> NoDup (map fld_tag out ++ map fst kvs) -> (length out + length kvs <= kMaxFields)%nat -> (length kvs < fuel)%nat ->
  parse_fields fuel (render kvs) pos out = (FixNone, out ++ place pos kvs).
Proof.
  induction kvs as [|[tag value] kvs IH]; intros fuel pos out Hok Hn Hl Hf; (destruct fuel as [|fuel]; [cbn in Hf; lia|]); [cbn; by rewrite app_nil_r|].
  apply Forall_cons in Hok as [[Ht Hv] Hok]. cbn [fst snd] in *. cbn [parse_fields].
  assert (in_u64 tag) as Ht64 by (unfold in_u32, in_u64 in *; lia). destruct (to_string_spec tag Ht64) as (D1 & _ & D3 & _).
  change (render ((tag, value) :: kvs)) with (field_text (tag, value) ++ render kvs). unfold field_text. cbn [fst snd].
  destruct (is_nil _) eqn:En; [by destruct (to_string tag)|].
  rewrite (proj2 (split_at_spec kSoh _ (to_string tag ++ 61 :: value) (render kvs))).
  2:{ split; [by rewrite <- !app_assoc; cbn [app]; rewrite <- app_assoc|]. rewrite not_elem_of_app, not_elem_of_cons.
      split; [by apply digits_free|done]. }
  rewrite (proj2 (split_at_spec 61 _ (to_string tag) value)) by (split; [done|by apply digits_free]).
  rewrite parse_int_to_string by (done || (unfold in_u32 in Ht; cbn; lia)).
  replace (kMaxFields <=? length out)%nat with false by (symmetry; apply Nat.leb_gt; cbn in Hl; lia).
  assert (tag ∉ map fld_tag out) as Hni.
  { apply NoDup_app in Hn as (_ & Hn & _). intros Hin. apply (Hn tag Hin). apply list_elem_of_here. }
  rewrite (proj2 (find_field_None _ _) Hni), IH.
  - rewrite <- app_assoc. cbn [app place fst snd]. unfold field_text. cbn [fst snd].
    replace (length (to_string tag ++ 61 :: value ++ [kSoh])) with (length (to_string tag ++ 61%Z :: value) + 1)%nat
      by (rewrite !length_app; cbn [length]; rewrite length_app; cbn [length]; lia).
    by rewrite Nat.add_assoc.
  - done.
  - rewrite map_app. cbn [map fld_tag fst] in *. by rewrite <- app_assoc.
  - rewrite length_app. cbn [length] in *. lia.
  - cbn [length] in Hf. lia.
Qed.

(** ** The envelope of an encoded message *)

Definition checksum_text (cs : Z) : bytes := [48 + (cs / 100) mod 10; 48 + (cs / 10) mod 10; 48 + cs mod 10].

(** The fields of a frame around the body fields [kvs]. *)
Definition head_kvs (kvs : list (Z * bytes)) : list (Z * bytes) :=
  (kTagBeginString, kBeginString) :: (kTagBodyLength, to_string (Z.of_nat (length (render kvs)))) :: kvs.
Definition frame_kvs (kvs : list (Z * bytes)) : list (Z * bytes) :=
  head_kvs kvs ++ [(kTagCheckSum, checksum_text (byte_sum (render (head_kvs kvs)) mod 256))].

Lemma frame_render kvs : frame (render kvs) = render (frame_kvs kvs).
Proof.
  unfold frame_kvs. rewrite render_app. unfold frame. cbv zeta.
  assert (text "8=" ++ kBeginString ++ [kSoh] ++ text "9=" ++ to_string (Z.of_nat (length (render kvs))) ++ [kSoh] ++ render kvs = render (head_kvs kvs)) as ->.
  { unfold head_kvs. cbn [render map concat]. change (concat (map field_text kvs)) with (render kvs). generalize (to_string (Z.of_nat (length (render kvs)))). intros n.
    unfold field_text. cbn [fst snd]. change (to_string kTagBeginString) with (text "8"). change (to_string kTagBodyLength) with (text "9").
    rewrite <- !app_assoc. cbn [app]. by rewrite <- !app_assoc. }
  f_equal. 
Qed.

Lemma checksum_text_spec cs : 0 <= cs < 256 ->
  Forall (fun c => is_digit c = true) (checksum_text cs) /\ digits_value (checksum_text cs) = cs.
Proof.
  intros Hcs. unfold checksum_text, is_digit, digits_value. cbn [fold_left]. split; [|Z.div_mod_to_equations; lia].
  repeat constructor; Z.div_mod_to_equations; lia.
Qed.

Lemma parse_int_digits ty s :
  Forall (fun c => is_digit c = true) s -> s <> [] -> it_min ty <= digits_value s <= it_max ty -> parse_int ty s = Some (digits_value s).
Proof.
  intros Hs Hne Hr. unfold parse_int. pose proof (from_chars_digits ty s [] Hs Hne ltac:(done) Hr) as Hf. rewrite app_nil_r in Hf.
  rewrite Hf. by destruct s.
Qed.

Lemma render_length_ge kvs : (length kvs <= length (render kvs))%nat.
Proof.
  induction kvs as [|kv kvs IH]; [done|]. change (render (kv :: kvs)) with (field_text kv ++ render kvs). unfold field_text. rewrite !length_app. cbn [length]. lia.
Qed.

Definition body_ok (kvs : list (Z * bytes)) : Prop :=
  Forall kv_ok kvs /\ NoDup (map fst (frame_kvs kvs)) /\ (length kvs <= 20)%nat /\ (length (frame (render kvs)) <= kMaxMessageLen)%nat /\
  exists type, head kvs = Some (kTagMsgType, type).

Lemma frame_kv_ok kvs : body_ok kvs -> Forall kv_ok (frame_kvs kvs).
Proof.
  intros (Hok & _ & _ & Hl & _). unfold frame_kvs, head_kvs. cbn [app]. 
  assert (in_u64 (Z.of_nat (length (render kvs)))) as Hb.
  { revert Hl. rewrite frame_render. unfold frame_kvs. rewrite render_app, length_app. unfold head_kvs. 
    change (render (?a :: ?b :: kvs)) with (field_text a ++ field_text b ++ render kvs). rewrite !length_app. unfold in_u64, kMaxMessageLen. lia. }
  apply Forall_cons. split; [split; [unfold in_u32, kTagBeginString; cbn [fst]; lia|by apply (bool_decide_unpack (kSoh ∉ kBeginString)); vm_compute]|].
  apply Forall_cons. split; [split; [unfold in_u32, kTagBodyLength; cbn [fst]; lia|by apply digits_free; [apply (to_string_spec _ Hb)|]]|].
  apply Forall_app. split; [done|]. apply Forall_singleton. split; [unfold in_u32, kTagCheckSum; cbn [fst]; lia|].
  apply digits_free; [|done]. apply checksum_text_spec. apply Z.mod_pos_bound. lia.
Qed.

Lemma tokenize_frame kvs : body_ok kvs -> tokenize (frame (render kvs)) = (FixNone, place 0 (frame_kvs kvs)).
Proof.
  intros Hok. rewrite frame_render, tokenize_suffix. rewrite parse_fields_render; [done|by apply frame_kv_ok|apply Hok| |].
  - destruct Hok as (_ & _ & Hl & _). unfold frame_kvs, head_kvs, kMaxFields. rewrite length_app. cbn [length]. lia.
  - pose proof (render_length_ge (frame_kvs kvs)). lia.
Qed.

Lemma byte_sum_range s : 0 <= byte_sum s < 2 ^ 32.
Proof.
  unfold byte_sum. destruct s as [|c s] using rev_ind; [cbn; lia|]. rewrite fold_left_app. cbn [fold_left]. unfold u32, wrap. apply Z.mod_pos_bound. lia.
Qed.

Lemma land_255 z : Z.land z 255 = z mod 256.
Proof. by change 255 with (Z.ones 8); rewrite Z.land_ones. Qed.

Section Envelope.
Context (type : bytes) (rest : list (Z * bytes)).
Let kvs := (kTagMsgType, type) :: rest.
Let head_fields := head_kvs kvs.
Let cs := byte_sum (render head_fields) mod 256.

Lemma frame_last : field_at (place 0 (frame_kvs kvs)) (length (place 0 (frame_kvs kvs)) - 1) =
  mkField kTagCheckSum (checksum_text cs) (length (render head_fields)).
Proof.
  unfold field_at, frame_kvs. rewrite place_app, length_app, !place_length. cbn [place length]. rewrite lookup_app_r by (rewrite place_length; lia).
  rewrite place_length. replace (length (head_kvs kvs) + 1 - 1 - length (head_kvs kvs))%nat with O by lia. done.
Qed.

Lemma check_shape_frame : check_envelope_shape (place 0 (frame_kvs kvs)) = FixNone.
Proof.
  unfold check_envelope_shape. rewrite frame_last. rewrite place_length. unfold frame_kvs at 1. rewrite length_app. unfold kvs at 1, head_kvs at 1.
  cbn [length]. replace (_ <? 3)%nat with false by (symmetry; apply Nat.ltb_ge; lia). done.
Qed.

Lemma verify_frame :
  in_u64 (Z.of_nat (length (render kvs))) ->
  verify_length_and_checksum (frame (render kvs)) (place 0 (frame_kvs kvs)) = FixNone.
Proof.
  intros Hb. unfold verify_length_and_checksum. rewrite frame_last. cbn [fld_start fld_value].
  change (fld_value (field_at (place 0 (frame_kvs kvs)) 1)) with (to_string (Z.of_nat (length (render kvs)))).
  rewrite parse_int_to_string by (done || (unfold in_u64 in Hb; cbn [it_min it_max uint64_type]; lia)).
  change (fld_start (field_at (place 0 (frame_kvs kvs)) 2)) with
    (0 + length (field_text (kTagBeginString, kBeginString)) + length (field_text (kTagBodyLength, to_string (Z.of_nat (length (render kvs))))))%nat.
  assert (length (render head_fields) = (length (field_text (kTagBeginString, kBeginString)) + length (field_text (kTagBodyLength, to_string (Z.of_nat (length (render kvs))))) + length (render kvs))%nat) as Hh.
  { unfold head_fields, head_kvs. change (render (?a :: ?b :: kvs)) with (field_text a ++ field_text b ++ render kvs). rewrite !length_app. lia. }
  rewrite Hh. replace (Z.of_nat _ - Z.of_nat _) with (Z.of_nat (length (render kvs))) by lia.
  rewrite (Z.mod_small _ _ Hb : u64 _ = _), Z.eqb_refl. cbn [negb]. change (length (checksum_text cs) =? 3)%nat with true. cbv iota.
  destruct (checksum_text_spec cs) as [Hd Hv]; [apply Z.mod_pos_bound; lia|].
  rewrite parse_int_digits; [|done|done|rewrite Hv; pose proof (Z.mod_pos_bound (byte_sum (render head_fields)) 256 eq_refl) as Hm; fold cs in Hm; cbn [it_min it_max uint32_type]; lia].
  rewrite Hv. assert (take (length (render head_fields)) (frame (render kvs)) = render head_fields) as Ht.
  { rewrite frame_render. unfold frame_kvs. rewrite render_app. by rewrite take_app_length. }
  rewrite <- Hh, Ht, land_255. fold cs. by rewrite Z.eqb_refl.
Qed.
End Envelope.

(** An encoded frame passes the envelope checks with its own fields. *)
Lemma parse_envelope_frame kvs : body_ok kvs -> parse_envelope (frame (render kvs)) = (FixNone, place 0 (frame_kvs kvs)).
Proof.
  intros Hok. unfold parse_envelope. rewrite tokenize_frame by done. destruct Hok as (_ & _ & _ & Hl & type & Hh).
  destruct kvs as [|kv kvs']; [done|]. injection Hh as ->.
  assert (length (render ((kTagMsgType, type) :: kvs')) <= length (frame (render ((kTagMsgType, type) :: kvs'))))%nat as Hlen.
  { unfold frame. rewrite !length_app. lia. }
  replace (is_nil _ || _) with false.
  2:{ pose proof (render_length_ge ((kTagMsgType, type) :: kvs')) as Hg. cbn [length] in Hg.
      destruct (frame _) as [|c f]; [cbn [length] in Hlen; lia|]. cbn [is_nil orb]. symmetry. apply Nat.ltb_ge. lia. }
  rewrite bool_decide_true by done. cbn [negb]. cbv zeta. rewrite check_shape_frame. rewrite bool_decide_true by done. cbn [negb].
  rewrite verify_frame; [done|]. unfold in_u64, kMaxMessageLen in *. lia.
Qed.

(** ** The messages *)

Definition side_text (s : Side) : bytes := if bool_decide (s = Buy) then text "1" else text "2".
Definition type_text (t : OrderType) : bytes := if bool_decide (t = Market) then text "1" else text "2".
Definition tif_text (t : TimeInForce) : bytes := if bool_decide (t = GTC) then text "1" else text "3".

Definition new_order_kvs (m : NewOrder) (seq : SeqNo) : list (Z * bytes) :=
  [(kTagMsgType, [kMsgNewOrderSingle]); (kTagMsgSeqNum, to_string seq); (kTagClOrdID, to_string (no_order_id m));
   (kTagSymbol, to_string (no_symbol m)); (kTagSide, side_text (no_side m)); (kTagOrderQty, to_string (no_quantity m));
   (kTagOrdType, type_text (no_type m)); (kTagPrice, to_string_signed (no_price m)); (kTagTimeInForce, tif_text (no_tif m))].
Definition cancel_order_kvs (m : CancelOrder) (seq : SeqNo) : list (Z * bytes) :=
  [(kTagMsgType, [kMsgOrderCancelRequest]); (kTagMsgSeqNum, to_string seq); (kTagOrigClOrdID, to_string (co_order_id m));
   (kTagClOrdID, to_string (co_order_id m)); (kTagSymbol, to_string (co_symbol m))].

Lemma append_field_render kvs tag value : append_field (render kvs) tag value = render (kvs ++ [(tag, value)]).
Proof. rewrite render_app. unfold append_field. f_equal. unfold render, field_text. cbn [map concat fst snd]. by rewrite app_nil_r. Qed.

Lemma encode_new_order_render m seq : encode_new_order m seq = frame (render (new_order_kvs m seq)).
Proof. unfold encode_new_order. change (@nil Z) with (render []) at 1. cbv zeta. by rewrite !append_field_render. Qed.
Lemma encode_cancel_order_render m seq : encode_cancel_order m seq = frame (render (cancel_order_kvs m seq)).
Proof. unfold encode_cancel_order. change (@nil Z) with (render []) at 1. cbv zeta. by rewrite !append_field_render. Qed.

(** A value with no separator of at most 20 characters, the longest number. *)
Definition value_ok (v : bytes) : Prop := kSoh ∉ v /\ (length v <= 20)%nat.

Lemma to_string_value_ok n : in_u64 n -> value_ok (to_string n).
Proof. intros Hn. destruct (to_string_spec n Hn) as (H1 & _ & _ & H4). split; [by apply digits_free|done]. Qed.
Lemma digits_length fuel n k : 0 <= n < 10 ^ Z.of_nat k -> (0 < k)%nat -> (length (digits fuel n) <= k)%nat.
Proof.
  revert fuel n. induction k as [|k IH]; intros fuel n Hn Hk; [lia|]. destruct fuel as [|fuel]; cbn [digits length]; [lia|].
  rewrite Nat2Z.inj_succ, Z.pow_succ_r in Hn by lia. destruct (n <? 10) eqn:E; [cbn; lia|]. rewrite length_app. cbn [length].
  destruct k as [|k]; [cbn in Hn; lia|]. assert (length (digits fuel (n / 10)) <= S k)%nat; [apply IH; [Z.div_mod_to_equations; lia|lia]|lia].
Qed.
Lemma to_string_signed_value_ok n : in_i64 n -> value_ok (to_string_signed n).
Proof.
  intros Hn. unfold in_i64 in Hn. unfold to_string_signed. destruct (n <? 0) eqn:E; [|apply to_string_value_ok; unfold in_u64; lia].
  destruct (to_string_value_ok (- n)) as [H1 _]; [unfold in_u64; lia|]. split; [by rewrite not_elem_of_cons|].
  cbn [length]. pose proof (digits_length 20 (- n) 19 ltac:(cbn; lia) ltac:(lia)). unfold to_string. lia.
Qed.

Lemma short_body_ok kvs type :
  Forall (fun kv => 10 < kv.1 < 100 /\ value_ok kv.2) kvs -> NoDup (map fst kvs) -> (length kvs <= 20)%nat ->
  head kvs = Some (kTagMsgType, type) -> body_ok kvs.
Proof.
  intros Hok Hnd Hl Hh.
  assert (forall kv : Z * bytes, 10 < kv.1 < 100 /\ value_ok kv.2 -> (length (field_text kv) <= 24)%nat) as Hf.
  { intros [t v] [Ht [_ Hv]]. unfold field_text. cbn [fst snd] in *. rewrite length_app. cbn [length]. rewrite length_app. cbn [length].
    pose proof (digits_length 20 t 2 ltac:(cbn; lia) ltac:(lia)). unfold to_string. lia. }
  assert (length (render kvs) <= 24 * length kvs)%nat as Hr.
  { clear -Hok Hf. induction Hok as [|kv kvs Hkv Hok IH]; [cbn; lia|]. change (render (kv :: kvs)) with (field_text kv ++ render kvs).
    rewrite length_app. specialize (Hf kv Hkv). cbn [length]. lia. }
  split; [|split; [|split; [done|split; [|by eexists]]]].
  - eapply Forall_impl; [exact Hok|]. intros kv [Ht [Hv _]]. split; [unfold in_u32; lia|done].
  - unfold frame_kvs, head_kvs. cbn [app map]. rewrite map_app. cbn [map fst].
    assert (forall t, t <= 10 -> t ∉ map fst kvs) as Hni.
    { intros t Ht Hin. apply list_elem_of_fmap in Hin as (kv & -> & Hin). rewrite Forall_forall in Hok. destruct (Hok _ Hin) as [? _]. lia. }
    assert (forall t, t < 10 -> t ∉ map fst kvs ++ [kTagCheckSum]) as Hnc.
    { intros t Ht. rewrite not_elem_of_app, list_elem_of_singleton. split; [apply Hni; lia|unfold kTagCheckSum; lia]. }
    apply NoDup_cons. split; [apply not_elem_of_cons; split; [done|by apply Hnc]|]. apply NoDup_cons. split; [by apply Hnc|].
    apply NoDup_app. split; [done|]. split; [intros x Hx ->%list_elem_of_singleton; by apply (Hni kTagCheckSum)|apply NoDup_singleton].
  - unfold frame. rewrite !length_app. change (length kBeginString) with 7%nat. cbn [length].
    pose proof (to_string_value_ok (Z.of_nat (length (render kvs)))) as Hn. destruct Hn as [_ Hn]; [unfold in_u64; lia|].
    change (length (text "8=")) with 2%nat. change (length (text "9=")) with 2%nat. change (length (text "10=")) with 3%nat.
    unfold kMaxMessageLen. lia.
Qed.

Ltac in_width := unfold in_u64, in_u32, in_i64 in *; lia.

Lemma code_value_ok c : c <> kSoh -> value_ok [c].
Proof. intros Hc. split; [by rewrite list_elem_of_singleton|cbn; lia]. Qed.

Ltac fields_ok :=
  repeat (apply Forall_cons; split; [split; [split; reflexivity|cbn [snd]]|]); [..|apply Forall_nil; exact I];
  first [by apply code_value_ok | by apply to_string_signed_value_ok | by apply to_string_value_ok; in_width |
    unfold side_text, type_text, tif_text; case_bool_decide; by apply code_value_ok].

Lemma new_order_body_ok m seq : new_order_ok m -> in_u64 seq -> body_ok (new_order_kvs m seq).
Proof.
  intros (H1 & H2 & H3 & H4 & _) Hs. apply short_body_ok with [kMsgNewOrderSingle]; [|by apply (bool_decide_unpack _); vm_compute|cbn; lia|done].
  fields_ok.
Qed.
Lemma cancel_order_body_ok m seq : cancel_order_ok m -> in_u64 seq -> body_ok (cancel_order_kvs m seq).
Proof.
  intros (H1 & H2) Hs. apply short_body_ok with [kMsgOrderCancelRequest]; [|by apply (bool_decide_unpack _); vm_compute|cbn; lia|done].
  fields_ok.
Qed.

(** Reading the fields back. *)
Definition has_field (p : list Field) (tag : Z) (value : bytes) : Prop := exists s, find_field p tag = Some (mkField tag value s).

Lemma require_int_to_string p tag ty n :
  has_field p tag (to_string n) -> in_u64 n -> it_min ty <= n <= it_max ty -> require_int p tag ty = FixOk n.
Proof.
  intros [s Hs] Hn Hr. unfold require_int. rewrite Hs. cbn [fld_value]. pose proof (from_chars_unsigned ty n [] Hn Hr ltac:(done)) as Hf.
  rewrite app_nil_r in Hf. rewrite Hf. destruct (to_string_spec n Hn) as (_ & _ & Hne & _). by destruct (to_string n).
Qed.
Lemma require_int_to_string_signed p tag n :
  has_field p tag (to_string_signed n) -> in_i64 n -> require_int p tag int64_type = FixOk n.
Proof.
  intros [s Hs] Hn. unfold require_int. rewrite Hs. cbn [fld_value]. pose proof (from_chars_signed n [] Hn ltac:(done)) as Hf.
  rewrite app_nil_r in Hf. rewrite Hf. by destruct (to_string_signed n).
Qed.
Lemma require_code_text p tag c : has_field p tag [c] -> require_code p tag = FixOk c.
Proof. intros [s Hs]. unfold require_code. by rewrite Hs. Qed.
Lemma expect_type_text p c : has_field p kTagMsgType [c] -> expect_msg_type p c = FixNone.
Proof. intros [s Hs]. unfold expect_msg_type. rewrite Hs. cbn [fld_value]. by rewrite Z.eqb_refl. Qed.

Lemma new_order_fields m seq :
  Forall (fun kv => has_field (place 0 (frame_kvs (new_order_kvs m seq))) kv.1 kv.2) (new_order_kvs m seq).
Proof. repeat (apply Forall_cons; split; [eexists; reflexivity|]). by apply Forall_nil. Qed.
Lemma cancel_order_fields m seq :
  Forall (fun kv => has_field (place 0 (frame_kvs (cancel_order_kvs m seq))) kv.1 kv.2) (cancel_order_kvs m seq).
Proof. repeat (apply Forall_cons; split; [eexists; reflexivity|]). by apply Forall_nil. Qed.

Ltac each_field H := repeat (apply Forall_cons in H; destruct H as [? H]); cbn [fst snd] in *.

Lemma reader_integer_ok {T} p tag ty (set : Z -> T -> T) v o :
  require_int p tag ty = FixOk v -> reader_integer p tag ty set (FixNone, o) = (FixNone, set v o).
Proof. intros H. unfold reader_integer. by rewrite bool_decide_true, H by done. Qed.
Lemma reader_coded_ok {T E} p tag (table : list (Z * E)) (set : E -> T -> T) c e o :
  has_field p tag [c] -> om_find c table = Some e -> reader_coded p tag table set (FixNone, o) = (FixNone, set e o).
Proof. intros H He. unfold reader_coded. rewrite bool_decide_true by done. cbn [negb]. by rewrite (require_code_text p tag c), He. Qed.

Ltac read_int := (apply require_int_to_string || apply require_int_to_string_signed); [done|..|cbn [it_min it_max uint32_type uint64_type]]; in_width.

Lemma side_code s : is_valid_side s = true -> exists c, side_text s = [c] /\ om_find c sides = Some s.
Proof. intros H. destruct s; [by exists 49|by exists 50|done]. Qed.
Lemma type_code t : is_valid_order_type t = true -> exists c, type_text t = [c] /\ om_find c types = Some t.
Proof. intros H. destruct t; [by exists 50|by exists 49|done]. Qed.
Lemma tif_code t : is_valid_tif t = true -> exists c, tif_text t = [c] /\ om_find c tifs = Some t.
Proof. intros H. destruct t; [by exists 49|by exists 51|done]. Qed.

Ltac order_fields := cbn [no_order_id no_symbol no_price no_quantity no_side no_type no_tif].

Lemma fill_new_order_fields p m seq o :
  new_order_ok m -> in_u64 seq -> Forall (fun kv => has_field p kv.1 kv.2) (new_order_kvs m seq) -> fill_new_order p (FixNone, o) = (FixNone, m).
Proof.
  intros (H1 & H2 & H3 & H4 & H5 & H6 & H7) Hs Hf. each_field Hf. unfold fill_new_order. cbv zeta.
  destruct o as [o1 o2 o3 o4 o5 o6 o7]. rewrite (reader_integer_ok p kTagMsgSeqNum _ _ seq) by read_int.
  rewrite (reader_integer_ok p kTagClOrdID _ _ (no_order_id m)) by read_int. order_fields.
  rewrite (reader_integer_ok p kTagSymbol _ _ (no_symbol m)) by read_int. order_fields.
  rewrite (reader_integer_ok p kTagOrderQty _ _ (no_quantity m)) by read_int. order_fields.
  rewrite (reader_integer_ok p kTagPrice _ _ (no_price m)) by (by apply require_int_to_string_signed).
  order_fields.
  destruct (side_code _ H5) as (c1 & E1 & F1). destruct (type_code _ H6) as (c2 & E2 & F2). destruct (tif_code _ H7) as (c3 & E3 & F3).
  rewrite E1, E2, E3 in *.
  rewrite (reader_coded_ok p kTagSide sides _ c1 (no_side m)) by assumption. order_fields.
  rewrite (reader_coded_ok p kTagOrdType types _ c2 (no_type m)) by assumption. order_fields.
  rewrite (reader_coded_ok p kTagTimeInForce tifs _ c3 (no_tif m)) by assumption. by destruct m.
Qed.

Lemma fill_cancel_order_fields p m seq o :
  cancel_order_ok m -> in_u64 seq -> Forall (fun kv => has_field p kv.1 kv.2) (cancel_order_kvs m seq) ->
  fill_cancel_order p (FixNone, o) = (FixNone, m).
Proof.
  intros (H1 & H2) Hs Hf. each_field Hf. unfold fill_cancel_order. cbv zeta.
  rewrite (reader_integer_ok p kTagMsgSeqNum _ _ seq) by read_int.
  rewrite (reader_integer_ok p kTagOrigClOrdID _ _ (co_order_id m)) by read_int.
  rewrite (reader_integer_ok p kTagClOrdID _ _ (co_order_id m)) by read_int.
  rewrite (reader_integer_ok p kTagSymbol _ _ (co_symbol m)) by read_int. by destruct m.
Qed.

(** Decoding a frame whose body has the fields of a message. *)
Lemma decode_frame {T} kvs c seq (init v : T) fill :
  body_ok kvs -> has_field (place 0 (frame_kvs kvs)) kTagMsgType [c] ->
  has_field (place 0 (frame_kvs kvs)) kTagMsgSeqNum (to_string seq) -> in_u64 seq ->
  fill (place 0 (frame_kvs kvs)) (FixNone, init) = (FixNone, v) ->
  let msg := frame (render kvs) in
  decode_typed msg c init fill = FixOk v /\ peek_msg_type msg = FixOk c /\ peek_seq msg = FixOk seq /\ (length msg <= kMaxMessageLen)%nat.
Proof.
  intros Hok Ht Hq Hs Hfill msg. unfold decode_typed, peek_msg_type, peek_seq, msg. rewrite parse_envelope_frame by done.
  rewrite bool_decide_true by done. cbn [negb]. rewrite (expect_type_text _ c), Hfill by done. rewrite !bool_decide_true by done. cbn [negb].
  split; [done|]. split; [destruct Ht as [s Ht]; by rewrite Ht|]. split; [read_int|apply Hok].
Qed.

Lemma new_order_text m seq :
  new_order_ok m -> in_u64 seq -> let msg := encode_new_order m seq in
  decode_new_order msg = FixOk m /\ peek_msg_type msg = FixOk kMsgNewOrderSingle /\ peek_seq msg = FixOk seq /\
  (length msg <= kMaxMessageLen)%nat.
Proof.
  intros Hm Hs msg. unfold msg. rewrite encode_new_order_render. pose proof (new_order_fields m seq) as F.
  apply decode_frame; [by apply new_order_body_ok|apply (Forall_inv F)|apply (Forall_inv (Forall_inv_tail F))|done|by apply fill_new_order_fields with seq].
Qed.

Lemma cancel_order_text m seq :
  cancel_order_ok m -> in_u64 seq -> let msg := encode_cancel_order m seq in
  decode_cancel_order msg = FixOk m /\ peek_msg_type msg = FixOk kMsgOrderCancelRequest /\ peek_seq msg = FixOk seq /\
  (length msg <= kMaxMessageLen)%nat.
Proof.
  intros Hm Hs msg. unfold msg. rewrite encode_cancel_order_render. pose proof (cancel_order_fields m seq) as F.
  apply decode_frame; [by apply cancel_order_body_ok|apply (Forall_inv F)|apply (Forall_inv (Forall_inv_tail F))|done|by apply fill_cancel_order_fields with seq].
Qed.

(** ** FixAccept: what acceptance of a FIX-like message says about its bytes

    The bytes of a message the tokenizer accepts are a sequence of raw fields,
    which the bytes determine.  The last two fields of an accepted message, its
    checksum, and how a change of one byte moves them. *)

(** ** Raw fields *)

(** The text of a tag and the value, as they stand in the message. *)
Definition raw (s : bytes * bytes) : bytes := s.1 ++ 61 :: s.2 ++ [kSoh].
Definition raws (l : list (bytes * bytes)) : bytes := concat (map raw l).
Definition raw_tag (s : bytes * bytes) : Z := default 0 (parse_int uint32_type s.1).
Definition raw_ok (s : bytes * bytes) : Prop :=
  kSoh ∉ s.1 /\ 61 ∉ s.1 /\ kSoh ∉ s.2 /\ parse_int uint32_type s.1 = Some (raw_tag s).

Fixpoint raw_place (pos : nat) (l : list (bytes * bytes)) : list Field :=
  match l with
  | [] => []
  | s :: l' => mkField (raw_tag s) s.2 pos :: raw_place (pos + length (raw s)) l'
  end.

Lemma raws_app a b : raws (a ++ b) = raws a ++ raws b.
Proof. unfold raws. by rewrite map_app, concat_app. Qed.
Lemma raw_place_app pos a b : raw_place pos (a ++ b) = raw_place pos a ++ raw_place (pos + length (raws a)) b.
Proof.
  revert pos. induction a as [|s a IH]; intros pos; cbn [app raw_place raws map concat]; [by rewrite Nat.add_0_r|].
  rewrite IH. unfold raws. cbn [map concat]. by rewrite length_app, Nat.add_assoc.
Qed.
Lemma raw_place_length pos l : length (raw_place pos l) = length l.
Proof. revert pos. induction l as [|s l IH]; intros pos; [done|]. cbn. by rewrite IH. Qed.

Lemma parse_fields_raws fuel : forall t pos out p,
  (length t < fuel)%nat -> NoDup (map fld_tag out) -> parse_fields fuel t pos out = (FixNone, p) ->
  exists l, t = raws l /\ Forall raw_ok l /\ p = out ++ raw_place pos l /\ NoDup (map fld_tag p).
Proof.
  induction fuel as [|fuel IH]; intros t pos out p Hf Hn; [lia|]. cbn [parse_fields].
  destruct (is_nil t) eqn:En.
  { intros [= <-]. destruct t; [|done]. exists []. cbn. by rewrite app_nil_r. }
  destruct (split_at kSoh t) as [[seg rest]|] eqn:Es; [|done]. destruct (split_at 61 seg) as [[tt v]|] eqn:Ee; [|done].
  destruct (parse_int uint32_type tt) as [tag|] eqn:Et; [|done]. destruct (kMaxFields <=? length out)%nat; [done|].
  destruct (find_field out tag) eqn:Efind; [done|]. apply find_field_None in Efind.
  apply split_at_spec in Es as [-> Hs]. apply split_at_spec in Ee as [-> He]. apply not_elem_of_app in Hs as [Hs1 Hs2].
  apply not_elem_of_cons in Hs2 as [_ Hs2]. intros Hp. apply IH in Hp as (l & -> & Hl & -> & Hnd).
  - exists ((tt, v) :: l). assert (raw_tag (tt, v) = tag) as Htag by (unfold raw_tag; cbn [fst]; by rewrite Et).
    split; [unfold raws, raw; cbn [map concat fst snd]; rewrite <- !app_assoc; cbn [app]; by rewrite <- ?app_assoc|].
    split; [apply Forall_cons; split; [|done]; unfold raw_ok; by rewrite Htag|].
    cbn [raw_place]. rewrite Htag. cbn [snd]. replace (pos + length (raw (tt, v)))%nat with (pos + length (tt ++ 61%Z :: v) + 1)%nat
      by (unfold raw; cbn [fst snd]; rewrite !length_app; cbn [length]; rewrite length_app; cbn [length]; lia).
    by rewrite <- app_assoc in *.
  - revert Hf. rewrite length_app. cbn [length]. lia.
  - rewrite map_app. apply NoDup_app. split; [done|]. split; [|apply NoDup_singleton]. intros x Hx ->%list_elem_of_singleton. done.
Qed.

(** ** The tail of an accepted message *)

Lemma field_at_last p f : field_at (p ++ [f]) (length (p ++ [f]) - 1) = f.
Proof. unfold field_at. rewrite length_app. cbn [length]. rewrite lookup_app_r by lia. by replace (length p + 1 - 1 - length p)%nat with O by lia. Qed.

(** The bytes before a field: none, or they end in a separator. *)
Definition ended (pre : bytes) : Prop := exists y, kSoh :: pre = y ++ [kSoh].

(** The last two fields of an accepted message. *)
Record accepted_tail (m : bytes) (pre : bytes) (s0 s1 : bytes * bytes) : Prop := {
  at_bytes : m = pre ++ raw s0 ++ raw s1;
  at_ended : ended pre;
  at_ok0 : raw_ok s0;
  at_ok1 : raw_ok s1;
  at_tag0 : raw_tag s0 <> kTagCheckSum;
  at_tag1 : raw_tag s1 = kTagCheckSum;
  at_length : length s1.2 = 3%nat;
  at_sum : parse_int uint32_type s1.2 = Some (byte_sum (pre ++ raw s0) mod 256)
}.

Lemma raws_ended l : ended (raws l).
Proof.
  destruct l as [|s l _] using rev_ind; [by exists []|]. rewrite raws_app. unfold raws at 2. cbn [map concat]. rewrite app_nil_r.
  unfold raw. exists (kSoh :: raws l ++ s.1 ++ 61 :: s.2). cbn [app]. rewrite <- !app_assoc. cbn [app]. done.
Qed.

Lemma parse_envelope_tail m p : parse_envelope m = (FixNone, p) -> exists pre s0 s1, accepted_tail m pre s0 s1.
Proof.
  unfold parse_envelope. destruct (_ || _); [done|]. rewrite tokenize_suffix. destruct (parse_fields _ _ _ _) as [e q] eqn:E.
  case_bool_decide as He; cbn [negb]; [subst e|by intros [= ? _]]. case_bool_decide as Hshape; cbn [negb]; [|by intros [= ? _]].
  intros [= Hverify ->]. apply parse_fields_raws in E as (l & Hm & Hok & Hp & Hnd); [|lia|by apply NoDup_nil]. cbn [app] in Hp.
  unfold check_envelope_shape in Hshape. destruct (length p <? 3)%nat eqn:El; [done|]. apply Nat.ltb_ge in El.
  destruct l as [|s1 l _] using rev_ind; [subst p; cbn in El; lia|]. destruct l as [|s0 l _] using rev_ind; [subst p; cbn in El; lia|].
  clear El. rewrite !raw_place_app in Hp. cbn [raw_place] in Hp. rewrite !Nat.add_0_l in Hp.
  assert (field_at p (length p - 1) = mkField (raw_tag s1) s1.2 (length (raws (l ++ [s0])))) as Hlast by (rewrite Hp; apply field_at_last).
  rewrite Hlast in Hshape. cbn [fld_tag] in Hshape.
  destruct (raw_tag s1 =? kTagCheckSum) eqn:Et1; [apply Z.eqb_eq in Et1|by rewrite andb_false_r in Hshape]. clear Hshape.
  unfold verify_length_and_checksum in Hverify. rewrite Hlast in Hverify. cbn [fld_value fld_start] in Hverify.
  destruct (parse_int uint64_type _); [|done]. destruct (negb _); [done|]. destruct (length s1.2 =? 3)%nat eqn:E3; [|done]. apply Nat.eqb_eq in E3.
  destruct (parse_int uint32_type s1.2) as [declared|] eqn:Ed; [|done]. destruct (_ =? _) eqn:Es in Hverify; [|done]. apply Z.eqb_eq in Es.
  rewrite land_255 in Es. apply Forall_app in Hok as [[_ [Hs0 _]%Forall_cons]%Forall_app [Hs1 _]%Forall_cons].
  assert (raws [s0] = raw s0 /\ raws [s1] = raw s1) as [R0 R1] by (unfold raws; cbn [map concat]; by rewrite !app_nil_r).
  exists (raws l), s0, s1. split; [by rewrite Hm, !raws_app, R0, R1, <- app_assoc|apply raws_ended|done|done| |done|done|].
  - rewrite Hp, !map_app, <- app_assoc in Hnd. cbn [map fld_tag app] in Hnd. apply NoDup_app in Hnd as (_ & _ & Hnd).
    apply NoDup_cons in Hnd as [Hnd _]. rewrite list_elem_of_singleton in Hnd. congruence.
  - assert (take (length (raws (l ++ [s0]))) m = raws l ++ raw s0) as Ht by (by rewrite Hm, (raws_app (l ++ [s0])), take_app_length, raws_app, R0).
    by rewrite Ed, <- Es, Ht.
Qed.

(** ** The bytes determine the fields *)

Lemma split_unique c (a b a' b' : bytes) : a ++ c :: b = a' ++ c :: b' -> c ∉ a -> c ∉ a' -> a = a' /\ b = b'.
Proof.
  intros H Ha Ha'. pose proof (proj2 (split_at_spec c (a ++ c :: b) a b) (conj eq_refl Ha)) as H1.
  rewrite (proj2 (split_at_spec c (a ++ c :: b) a' b') (conj H Ha')) in H1. by injection H1 as -> ->.
Qed.

Lemma split_unique_last c (a b a' b' : bytes) : a ++ c :: b = a' ++ c :: b' -> c ∉ b -> c ∉ b' -> a = a' /\ b = b'.
Proof.
  intros H Hb Hb'. apply (f_equal reverse) in H. rewrite !reverse_app, !reverse_cons, <- !app_assoc in H. cbn [app] in H.
  apply split_unique in H as [H1 H2]; [|by rewrite elem_of_reverse..]. split; by apply (inj reverse).
Qed.

(** The last segment of a message ends before its final separator. *)
Lemma last_segment_unique pre seg pre' seg' :
  pre ++ seg ++ [kSoh] = pre' ++ seg' ++ [kSoh] -> ended pre -> ended pre' -> kSoh ∉ seg -> kSoh ∉ seg' -> pre = pre' /\ seg = seg'.
Proof.
  intros H [y Hy] [y' Hy'] Hs Hs'. rewrite !app_assoc in H. apply app_inj_tail in H as [H _].
  apply (f_equal (cons kSoh)) in H. rewrite !(app_comm_cons _ _ kSoh), Hy, Hy', <- !app_assoc in H. cbn [app] in H.
  apply split_unique_last in H as [-> ->]; [|done..]. split; [|done]. by injection (eq_trans Hy (eq_sym Hy')).
Qed.

(** A field's segment, without the final separator. *)
Definition seg (s : bytes * bytes) : bytes := s.1 ++ 61 :: s.2.

Lemma raw_seg s : raw s = seg s ++ [kSoh].
Proof. unfold raw, seg. by rewrite <- app_assoc. Qed.
Lemma seg_free s : raw_ok s -> kSoh ∉ seg s.
Proof. intros (H1 & _ & H3 & _). unfold seg. rewrite not_elem_of_app, not_elem_of_cons. done. Qed.
Lemma seg_unique s s' : seg s = seg s' -> raw_ok s -> raw_ok s' -> s = s'.
Proof.
  intros H (_ & H1 & _) (_ & H2 & _). destruct s, s'. unfold seg in H. cbn [fst snd] in *.
  by destruct (split_unique _ _ _ _ _ H H1 H2) as [-> ->].
Qed.
Lemma ended_snoc pre s : ended (pre ++ raw s).
Proof. exists (kSoh :: pre ++ seg s). by rewrite raw_seg, app_assoc. Qed.

(** ** Numbers *)

Lemma digits_value_bound s : Forall (fun c => is_digit c = true) s -> 0 <= digits_value s < 10 ^ Z.of_nat (length s).
Proof.
  induction s as [|c s IH] using rev_ind; [cbn; lia|]. intros [Hs [Hc _]%Forall_cons]%Forall_app. specialize (IH Hs).
  rewrite digits_value_snoc, length_app. cbn [length]. rewrite Nat2Z.inj_add, Z.pow_add_r by lia. cbn. unfold is_digit in Hc. lia.
Qed.

Lemma digits_value_inj a b :
  Forall (fun c => is_digit c = true) a -> Forall (fun c => is_digit c = true) b -> length a = length b ->
  digits_value a = digits_value b -> a = b.
Proof.
  revert b. induction a as [|c a IH] using rev_ind; intros b Ha Hb Hl Hv; [by destruct b|].
  destruct b as [|d b _] using rev_ind; [rewrite length_app in Hl; cbn in Hl; lia|].
  rewrite !length_app in Hl. cbn in Hl. apply Forall_app in Ha as [Ha [Hc _]%Forall_cons]. apply Forall_app in Hb as [Hb [Hd _]%Forall_cons].
  rewrite !digits_value_snoc in Hv. unfold is_digit in Hc, Hd. assert (c = d) as -> by lia. f_equal. apply IH; [done|done|lia|lia].
Qed.

Lemma parse_int_inv ty s n : it_signed ty = false -> parse_int ty s = Some n -> Forall (fun c => is_digit c = true) s /\ digits_value s = n.
Proof.
  intros Hty. unfold parse_int. destruct (is_nil s); [done|]. unfold from_chars.
  assert ((match s with 45 :: s' => if it_signed ty then (true, s') else (false, s) | _ => (false, s) end) = (false, s)) as ->.
  { rewrite Hty. destruct s as [|c s]; [done|]. destruct c as [|c|c]; try done. by repeat (destruct c as [c|c|]; try done). }
  destruct (span_digits s) as [[|d ds] r] eqn:E; [done|]. apply span_digits_spec in E as [-> Hd].
  destruct (_ && _); [|done]. destruct r; [|done]. intros [= <-]. by rewrite app_nil_r.
Qed.

Lemma parse_int_inj a b n : length a = length b -> parse_int uint32_type a = Some n -> parse_int uint32_type b = Some n -> a = b.
Proof.
  intros Hl [Ha Va]%parse_int_inv [Hb Vb]%parse_int_inv; [|done..]. apply digits_value_inj; congruence.
Qed.

(** ** Sums *)

Definition plain_sum (s : bytes) : Z := fold_right Z.add 0 s.

Lemma byte_sum_mod s : byte_sum s mod 256 = plain_sum s mod 256.
Proof.
  unfold byte_sum. assert (forall acc, fold_left (fun sum c => u32 (sum + c)) s acc mod 256 = (acc + plain_sum s) mod 256) as H; [|apply (H 0)].
  induction s as [|c s IH]; intros acc; cbn [fold_left plain_sum fold_right]; [by rewrite Z.add_0_r|].
  rewrite IH. unfold u32, wrap. fold (plain_sum s). rewrite <- Z.add_mod_idemp_l by lia.
  rewrite <- (Znumtheory.Zmod_div_mod 256 (2 ^ 32)) by (lia || by exists (2 ^ 24)). rewrite Z.add_mod_idemp_l by lia. f_equal. lia.
Qed.

Lemma plain_sum_insert s i b c : s !! i = Some b -> plain_sum (<[i := c]> s) = plain_sum s - b + c.
Proof.
  revert i. induction s as [|x s IH]; intros [|i]; [done..|intros [= ->]; cbn; lia|].
  intros H. change (x + plain_sum (<[i := c]> s) = x + plain_sum s - b + c). rewrite (IH i H). lia.
Qed.

Lemma byte_sum_changed s i b c : s !! i = Some b -> in_u8 b -> in_u8 c -> b <> c -> byte_sum (<[i := c]> s) mod 256 <> byte_sum s mod 256.
Proof.
  intros Hi Hb Hc Hne. rewrite !byte_sum_mod, (plain_sum_insert _ _ _ _ Hi). unfold in_u8 in *. intros H. Z.div_mod_to_equations. lia.
Qed.

(** ** A changed byte *)

Lemma insert_free (x y : Z) (l : bytes) (j : nat) : x ∉ l -> x <> y -> x ∉ <[j := y]> l.
Proof.
  intros Hx Hy [k Hk]%list_elem_of_lookup. apply list_lookup_insert_Some in Hk as [(_ & Hk & _)|[_ Hk]]; [congruence|].
  apply Hx. by eapply list_elem_of_lookup_2.
Qed.

Section Changed.
Context (m pre : bytes) (s0 s1 : bytes * bytes) (T : accepted_tail m pre s0 s1).
Context (pre' : bytes) (t0 t1 : bytes * bytes) (i : nat) (b c : Z).
Context (T' : accepted_tail (<[i := c]> m) pre' t0 t1).
Context (Hi : m !! i = Some b) (Hb : in_u8 b) (Hc : in_u8 c) (Hne : b <> c).

(** Two messages with the fields of [m] and of the changed message. *)
Lemma bytes_split : m = (pre ++ raw s0) ++ seg s1 ++ [kSoh] /\ <[i := c]> m = (pre' ++ raw t0) ++ seg t1 ++ [kSoh].
Proof. split; [rewrite (at_bytes _ _ _ _ T), (raw_seg s1)|rewrite (at_bytes _ _ _ _ T'), (raw_seg t1)]; by rewrite !app_assoc. Qed.

(** Before the separator in front of the checksum field: the sum differs. *)
Lemma changed_body : ~ (i < length (pre ++ seg s0))%nat.
Proof.
  intros Hlt. destruct bytes_split as [Hm Hm'].
  assert (pre ++ raw s0 = (pre ++ seg s0) ++ [kSoh]) as Hx by (by rewrite raw_seg, app_assoc).
  assert (i < length (pre ++ raw s0))%nat as Hl by (rewrite Hx, length_app; lia).
  rewrite Hm, insert_app_l in Hm' by done. rewrite Hm, lookup_app_l in Hi by done.
  apply last_segment_unique in Hm' as [Hp Hs]; [| |by apply ended_snoc|apply seg_free, T|apply seg_free, T'].
  2:{ exists (kSoh :: <[i := c]> (pre ++ seg s0)). rewrite Hx, insert_app_l by done. done. }
  apply seg_unique in Hs; [|apply T|apply T']. pose proof (at_sum _ _ _ _ T) as S. pose proof (at_sum _ _ _ _ T') as S'.
  rewrite <- Hs, S, <- Hp in S'. injection S' as S'. by apply (byte_sum_changed _ _ _ _ Hi Hb Hc Hne).
Qed.

(** The separator in front of the checksum field: the last field is the one before it. *)
Lemma changed_separator : i <> length (pre ++ seg s0).
Proof.
  intros Hix. destruct bytes_split as [Hm Hm']. pose proof Hi as Hj. rewrite Hix in Hj, Hm'.
  assert (m = (pre ++ seg s0) ++ kSoh :: seg s1 ++ [kSoh]) as Hx by (rewrite Hm, raw_seg, <- !app_assoc; done).
  rewrite Hx, list_lookup_middle in Hj by done. injection Hj as Hj.
  rewrite Hx, insert_app_r_alt, Nat.sub_diag in Hm' by lia. cbn [insert list_insert] in Hm'.
  assert ((pre ++ seg s0) ++ c :: seg s1 ++ [kSoh] = pre ++ (seg s0 ++ c :: seg s1) ++ [kSoh]) as Hy by (rewrite <- !app_assoc; done).
  rewrite Hy in Hm'. apply last_segment_unique in Hm' as [_ Hs]; [|apply T|by apply ended_snoc| |apply seg_free, T'].
  2:{ rewrite not_elem_of_app, not_elem_of_cons. split; [apply seg_free, T|]. split; [congruence|apply seg_free, T]. }
  unfold seg in Hs. rewrite <- app_assoc in Hs. cbn [app] in Hs. apply split_unique in Hs as [Hs _]; [|apply T|apply T'].
  apply (at_tag0 _ _ _ _ T). rewrite <- (at_tag1 _ _ _ _ T'). unfold raw_tag. by rewrite Hs.
Qed.

(** In the checksum field: its tag or the declared sum differs, or it is cut. *)
Lemma changed_checksum j : i = (length (pre ++ raw s0) + j)%nat -> False.
Proof.
  intros Hix. destruct bytes_split as [Hm Hm']. pose proof Hi as Hk. rewrite Hix in Hk, Hm'. rewrite Hm, lookup_app_r in Hk by lia.
  rewrite Hm, insert_app_r in Hm'. replace (_ + j - _)%nat with j in Hk by lia.
  destruct (decide (j < length (seg s1))%nat) as [Hj|Hj].
  2:{ (* the final separator *)
      apply lookup_lt_Some in Hk as Hlt. rewrite length_app in Hlt. cbn [length] in Hlt. assert (j = length (seg s1)) as -> by lia.
      rewrite list_lookup_middle in Hk by done. injection Hk as <-. rewrite insert_app_r_alt, Nat.sub_diag in Hm' by lia.
      cbn [insert list_insert] in Hm'. rewrite !app_assoc in Hm'. apply app_inj_tail in Hm' as [_ ?]. by apply Hne. }
  rewrite lookup_app_l in Hk by done. rewrite insert_app_l in Hm' by done.
  destruct (decide (c = kSoh)) as [->|Hcs].
  - (* a separator inside the field *)
    apply list_elem_of_split_length in Hk as (a & d & Hs & Hj').  rewrite Hs in Hm'. rewrite Hj', insert_app_r_alt, Nat.sub_diag in Hm' by lia.
    cbn [insert list_insert] in Hm'. 
    assert (kSoh ∉ a ++ b :: d) as Hfree by (rewrite <- Hs; apply seg_free, T). apply not_elem_of_app in Hfree as [Ha Hd].
    apply not_elem_of_cons in Hd as [_ Hd].
    assert ((pre ++ raw s0) ++ (a ++ kSoh :: d) ++ [kSoh] = ((pre ++ raw s0) ++ a ++ [kSoh]) ++ d ++ [kSoh]) as Hy by (rewrite <- !app_assoc; done).
    rewrite Hy in Hm'. apply last_segment_unique in Hm' as [Hp Hd']; [| |by apply ended_snoc|done|apply seg_free, T'].
    2:{ exists (kSoh :: (pre ++ raw s0) ++ a). by rewrite app_assoc. }
    rewrite (raw_seg t0) in Hp. apply last_segment_unique in Hp as [_ Ha']; [|apply ended_snoc|apply T'|done|apply seg_free, T'].
    subst a d. unfold seg in Hs. rewrite <- app_assoc in Hs. cbn [app] in Hs. 
    apply split_unique in Hs as [_ Hs]; [|apply T|apply T'].
    destruct (parse_int_inv uint32_type _ _ eq_refl (at_sum _ _ _ _ T)) as [Hdig _]. apply (digits_free 61) in Hdig; [|done]. apply Hdig. rewrite Hs.
    rewrite elem_of_app, elem_of_cons, elem_of_app, elem_of_cons. tauto.
  - (* another character: same boundaries, so the same field *)
    apply last_segment_unique in Hm' as [Hp Hs]; [|apply ended_snoc|apply ended_snoc| |apply seg_free, T'].
    2:{ apply insert_free; [apply seg_free, T|congruence]. }
    pose proof (at_sum _ _ _ _ T) as S. pose proof (at_sum _ _ _ _ T') as S'. rewrite <- Hp in S'.
    assert (s1.2 = t1.2) as E2 by (eapply parse_int_inj; [|exact S|exact S']; by rewrite (at_length _ _ _ _ T), (at_length _ _ _ _ T')).
    assert (length s1.1 = length t1.1) as El.
    { apply (f_equal length) in Hs. rewrite length_insert in Hs. unfold seg in Hs. rewrite !length_app, E2 in Hs. lia. }
    assert (s1.1 = t1.1) as E1.
    { eapply (parse_int_inj _ _ kTagCheckSum); [done|rewrite <- (at_tag1 _ _ _ _ T); apply T|rewrite <- (at_tag1 _ _ _ _ T'); apply T']. }
    assert (seg s1 = seg t1) as Hseg by (unfold seg; by rewrite E1, E2). rewrite <- Hseg in Hs.
    apply (f_equal (lookup j)) in Hs. rewrite list_lookup_insert_eq, Hk in Hs by done. congruence.
Qed.

Lemma changed_impossible : False.
Proof.
  pose proof changed_body as H1. pose proof changed_separator as H2. apply (changed_checksum (i - length (pre ++ raw s0))).
  assert (length (pre ++ raw s0) = length (pre ++ seg s0) + 1)%nat by (rewrite raw_seg, app_assoc, length_app; done). lia.
Qed.
End Changed.

(** No two accepted messages differ in exactly one byte. *)
Lemma parse_envelope_changed m p i b c :
  bytes_ok m -> in_u8 c -> parse_envelope m = (FixNone, p) -> m !! i = Some b -> b <> c -> (parse_envelope (<[i := c]> m)).1 <> FixNone.
Proof.
  intros Hm Hc Hp Hi Hne. destruct (parse_envelope (<[i := c]> m)) as [e p'] eqn:E. cbn [fst]. intros ->.
  apply parse_envelope_tail in Hp as (pre & s0 & s1 & T). apply parse_envelope_tail in E as (pre' & t0 & t1 & T').
  eapply changed_impossible; [exact T|exact T'|exact Hi| |exact Hc|exact Hne]. eapply Forall_lookup_1; [exact Hm|exact Hi].
Qed.
