(* ===== verification/EventLog.v ===== *)
(** * EventLog: the append-only event log

    include/qsl/replay/event_log.hpp and src/replay/event_log.cpp: checksummed
    record framing, the reader, crash-recovery classification and the writer. *)
From S2P Require Import Prelude Core Endian.

(** ** event_log.hpp *)

Inductive RecordType := CommandRecord | EventRecord | RecordTypeRaw (v : Z).

#[export] Instance RecordType_eq_dec : EqDecision RecordType.
Proof. solve_decision. Defined.

Definition u16_of_record_type (t : RecordType) : Z :=
  match t with CommandRecord => 1 | EventRecord => 2 | RecordTypeRaw v => v end.
Definition record_type_of_u16 (v : Z) : RecordType :=
  if v =? 1 then CommandRecord else if v =? 2 then EventRecord else RecordTypeRaw v.

Record LogRecord := mkLogRecord {
  lr_seq_no : SeqNo;
  lr_type : RecordType;
  lr_logical_timestamp : Timestamp;
  lr_payload : bytes
}.

#[export] Instance LogRecord_eq_dec : EqDecision LogRecord.
Proof. solve_decision. Defined.

Inductive LogError := LogNone | OpenFailed | LogTruncated | BadChecksum | PayloadTooLarge.

#[export] Instance LogError_eq_dec : EqDecision LogError.
Proof. solve_decision. Defined.

Definition kRecordHeaderSize : nat := 22.
Definition kChecksumSize : nat := 4.
Definition kMaxPayload : Z := 1048576.

Record RecordRead := mkRecordRead {
  rr_error : LogError;
  rr_record : LogRecord;
  rr_next_offset : nat
}.

Record LogReadResult := mkLogReadResult {
  lrr_records : list LogRecord;
  lrr_error : LogError
}.

Inductive DurabilityMode := BufferedOnly | FlushOnAppend | FsyncOnAppend.
Inductive TailState := CleanTail | TornTail | Corrupt.

#[export] Instance DurabilityMode_eq_dec : EqDecision DurabilityMode.
Proof. solve_decision. Defined.
#[export] Instance TailState_eq_dec : EqDecision TailState.
Proof. solve_decision. Defined.

Record LogRecovery := mkLogRecovery {
  rec_error : LogError;
  rec_tail : TailState;
  rec_tail_error : LogError;
  rec_records : list LogRecord;
  rec_valid_bytes : nat
}.

(** ** event_log.cpp: framing *)

(** FNV-1a, one byte. *)
Definition checksum_step (hash b : Z) : Z := u32 (Z.lxor hash b * 16777619).
Definition checksum (data : bytes) : Z := fold_left checksum_step data 2166136261.

(** [std::copy] of [src] into [buf] at [off]. *)
Definition copy_bytes (buf : bytes) (off : nat) (src : bytes) : bytes :=
  take off buf ++ src ++ drop (off + length src) buf.

(** [None] is the [false] result, which leaves [out] as it was. *)
Definition encode_record (record : LogRecord) (out : bytes) : option bytes :=
  let payload := lr_payload record in
  if kMaxPayload <? Z.of_nat (length payload) then None
  else
    let payload_size := u32 (Z.of_nat (length payload)) in
    let start := length out in
    let buf := out ++ zeros (kRecordHeaderSize + length payload + kChecksumSize) in
    let buf := store_be 8 buf (start + 0) (lr_seq_no record) in
    let buf := store_be 2 buf (start + 8) (u16_of_record_type (lr_type record)) in
    let buf := store_be 8 buf (start + 10) (lr_logical_timestamp record) in
    let buf := store_be 4 buf (start + 18) payload_size in
    let buf := copy_bytes buf (start + kRecordHeaderSize) payload in
    let cs := checksum (take (kRecordHeaderSize + length payload) (drop start buf)) in
    Some (store_be 4 buf (start + (kRecordHeaderSize + length payload)) cs).

Definition record_zero : LogRecord := mkLogRecord 0 (RecordTypeRaw 0) 0 [].

Definition decode_record (b : bytes) (offset : nat) : RecordRead :=
  if (length b <? offset)%nat then mkRecordRead LogTruncated record_zero offset
  else if (length b - offset <? kRecordHeaderSize)%nat
  then mkRecordRead LogTruncated record_zero offset
  else
    let seq_no := load_be 8 b (offset + 0) in
    let type := record_type_of_u16 (load_be 2 b (offset + 8)) in
    let logical_timestamp := load_be 8 b (offset + 10) in
    let payload_size := load_be 4 b (offset + 18) in
    if kMaxPayload <? payload_size then mkRecordRead PayloadTooLarge record_zero offset
    else
      let size := Z.to_nat payload_size in
      let total := (kRecordHeaderSize + size + kChecksumSize)%nat in
      if (length b - offset <? total)%nat then mkRecordRead LogTruncated record_zero offset
      else
        let payload := take size (drop (offset + kRecordHeaderSize) b) in
        let stored := load_be 4 b (offset + kRecordHeaderSize + size) in
        let computed := checksum (take (kRecordHeaderSize + size) (drop offset b)) in
        if negb (stored =? computed) then mkRecordRead BadChecksum record_zero offset
        else mkRecordRead LogNone (mkLogRecord seq_no type logical_timestamp payload)
               (offset + total).

(** The scan both readers share: records appended until the end of the buffer or
    the first error, with the offset of the last record boundary.  A record has
    at least 26 bytes, so [length b] iterations are enough. *)
Record ScanState := mkScanState {
  sc_records : list LogRecord;
  sc_error : LogError;
  sc_offset : nat;
  sc_running : bool
}.

Definition scan_cond (b : bytes) (s : ScanState) : bool :=
  sc_running s && (sc_offset s <? length b)%nat.

Definition scan_body (b : bytes) (s : ScanState) : ScanState :=
  let read := decode_record b (sc_offset s) in
  if negb (bool_decide (rr_error read = LogNone))
  then mkScanState (sc_records s) (rr_error read) (sc_offset s) false
  else mkScanState (sc_records s ++ [rr_record read]) (sc_error s) (rr_next_offset read) true.

Definition scan (b : bytes) : ScanState :=
  while (S (length b)) (scan_cond b) (scan_body b) (mkScanState [] LogNone 0 true).

Definition read_log (b : bytes) : LogReadResult :=
  let s := scan b in mkLogReadResult (sc_records s) (sc_error s).

(** ** event_log.cpp: recovery *)

Definition checksum_failure_confined_to_tail (b : bytes) (offset : nat) : bool :=
  let payload_size := load_be 4 b (offset + 18) in
  let total := (kRecordHeaderSize + Z.to_nat payload_size + kChecksumSize)%nat in
  (offset + total =? length b)%nat.

Definition truncated_failure_confined_to_partial_header (b : bytes) (offset : nat) : bool :=
  (length b - offset <? kRecordHeaderSize)%nat.

Definition classify_tail (b : bytes) (tail_error : LogError) (valid_bytes : nat) : TailState :=
  match tail_error with
  | LogNone => CleanTail
  | LogTruncated =>
      if truncated_failure_confined_to_partial_header b valid_bytes then TornTail else Corrupt
  | BadChecksum => if checksum_failure_confined_to_tail b valid_bytes then TornTail else Corrupt
  | PayloadTooLarge | OpenFailed => Corrupt
  end.

Definition recover_log (b : bytes) : LogRecovery :=
  let s := scan b in
  mkLogRecovery LogNone (classify_tail b (sc_error s) (sc_offset s)) (sc_error s) (sc_records s)
    (sc_offset s).

(** ** Framing round trip *)

Definition record_ok (r : LogRecord) : Prop :=
  in_u64 (lr_seq_no r) /\ in_u16 (u16_of_record_type (lr_type r)) /\
  record_type_of_u16 (u16_of_record_type (lr_type r)) = lr_type r /\
  in_u64 (lr_logical_timestamp r) /\ Z.of_nat (length (lr_payload r)) <= kMaxPayload.

(** The bytes [encode_record] appends. *)
Definition record_frame (r : LogRecord) : bytes := default [] (encode_record r []).

Lemma take_store_be k w buf off v : (k <= off)%nat -> take k (store_be w buf off v) = take k buf.
Proof.
  intros Hk. apply list_eq. intros j. destruct (decide (j < k)%nat) as [Hj|Hj].
  - rewrite !lookup_take_lt by done.
    assert (byte_at (store_be w buf off v) j = byte_at buf j) as Hb by (apply byte_at_store_ne; lia).
    unfold byte_at in Hb. pose proof (length_store_be w buf off v) as Hl.
    destruct (buf !! j) as [x|] eqn:Ex.
    + assert (is_Some (store_be w buf off v !! j)) as [y Hy].
      { apply lookup_lt_is_Some. rewrite Hl. by apply lookup_lt_is_Some; exists x. }
      rewrite Hy in *. by simpl in Hb; subst.
    + apply lookup_ge_None in Ex. apply lookup_ge_None. lia.
  - by rewrite !lookup_take_ge by lia.
Qed.

Lemma length_copy_bytes buf off src :
  (off + length src <= length buf)%nat -> length (copy_bytes buf off src) = length buf.
Proof. intros Hl. unfold copy_bytes. rewrite !length_app, length_take, length_drop. lia. Qed.

Lemma copy_bytes_app_r buf buf' off src :
  copy_bytes (buf ++ buf') (length buf + off) src = buf ++ copy_bytes buf' off src.
Proof.
  unfold copy_bytes. rewrite take_app_add, <- app_assoc. do 3 f_equal.
  rewrite <- Nat.add_assoc. apply drop_app_add.
Qed.

Lemma take_copy_bytes buf off src :
  (off + length src <= length buf)%nat ->
  take (off + length src) (copy_bytes buf off src) = take off buf ++ src.
Proof.
  intros Hl. unfold copy_bytes. rewrite app_assoc. apply take_app_length'.
  rewrite length_app, length_take. lia.
Qed.

Lemma load_copy_bytes w buf off k src :
  (off + w <= k)%nat -> (k <= length buf)%nat -> load_be w (copy_bytes buf k src) off = load_be w buf off.
Proof.
  intros Hw Hk. apply load_be_ext. intros i Hi. unfold byte_at, copy_bytes. f_equal.
  rewrite lookup_app_l by (rewrite length_take; lia). apply lookup_take_lt. lia.
Qed.

(** The header part of a frame, before payload and checksum are copied in. *)
Definition record_header (r : LogRecord) : bytes :=
  store_be 4 (store_be 8 (store_be 2 (store_be 8
    (zeros (kRecordHeaderSize + length (lr_payload r) + kChecksumSize)) 0 (lr_seq_no r))
    8 (u16_of_record_type (lr_type r))) 10 (lr_logical_timestamp r))
    18 (u32 (Z.of_nat (length (lr_payload r)))).

Definition record_body (r : LogRecord) : bytes := take kRecordHeaderSize (record_header r) ++ lr_payload r.

Lemma length_record_header r :
  length (record_header r) = (kRecordHeaderSize + length (lr_payload r) + kChecksumSize)%nat.
Proof. unfold record_header. by rewrite !length_store_be, length_zeros. Qed.

Lemma length_record_body r : length (record_body r) = (kRecordHeaderSize + length (lr_payload r))%nat.
Proof.
  unfold record_body. rewrite length_app, length_take, length_record_header. unfold kRecordHeaderSize. lia.
Qed.

Lemma copy_record_body r :
  take (kRecordHeaderSize + length (lr_payload r))
    (copy_bytes (record_header r) kRecordHeaderSize (lr_payload r)) = record_body r.
Proof. apply take_copy_bytes. rewrite length_record_header. lia. Qed.

Lemma encode_record_spec r out :
  Z.of_nat (length (lr_payload r)) <= kMaxPayload ->
  encode_record r out =
    Some (out ++ store_be 4 (copy_bytes (record_header r) kRecordHeaderSize (lr_payload r))
                   (kRecordHeaderSize + length (lr_payload r)) (checksum (record_body r))).
Proof.
  intros Hp. unfold encode_record. rewrite (proj2 (Z.ltb_ge _ _) Hp). f_equal.
  rewrite !store_be_app_r, copy_bytes_app_r, drop_app_length, store_be_app_r. do 2 f_equal.
  f_equal. apply copy_record_body.
Qed.

Lemma record_frame_spec r :
  Z.of_nat (length (lr_payload r)) <= kMaxPayload ->
  record_frame r = store_be 4 (copy_bytes (record_header r) kRecordHeaderSize (lr_payload r))
                     (kRecordHeaderSize + length (lr_payload r)) (checksum (record_body r)).
Proof. intros Hp. unfold record_frame. by rewrite encode_record_spec. Qed.

Lemma encode_record_frame r out :
  Z.of_nat (length (lr_payload r)) <= kMaxPayload ->
  encode_record r out = Some (out ++ record_frame r).
Proof. intros Hp. by rewrite encode_record_spec, record_frame_spec. Qed.

Lemma length_record_frame r :
  Z.of_nat (length (lr_payload r)) <= kMaxPayload ->
  length (record_frame r) = (kRecordHeaderSize + length (lr_payload r) + kChecksumSize)%nat.
Proof.
  intros Hp. rewrite record_frame_spec by done. rewrite length_store_be, length_copy_bytes.
  - apply length_record_header.
  - rewrite length_record_header. lia.
Qed.

Lemma checksum_range data : in_u32 (checksum data).
Proof.
  unfold checksum. assert (in_u32 2166136261) as H0 by (unfold in_u32; lia). revert H0.
  generalize 2166136261. induction data as [|b data IH]; intros h Hh; [done|]. cbn [fold_left].
  apply IH. by apply Z.mod_pos_bound.
Qed.

(** The fields of a frame, read in place. *)
Lemma record_frame_fields r :
  record_ok r ->
  let f := record_frame r in
  load_be 8 f 0 = lr_seq_no r /\ load_be 2 f 8 = u16_of_record_type (lr_type r) /\
  load_be 8 f 10 = lr_logical_timestamp r /\ load_be 4 f 18 = Z.of_nat (length (lr_payload r)) /\
  load_be 4 f (kRecordHeaderSize + length (lr_payload r)) = checksum (record_body r) /\
  take (kRecordHeaderSize + length (lr_payload r)) f = record_body r.
Proof.
  intros (Hs & Ht & _ & Hts & Hp). cbn zeta. rewrite record_frame_spec by done.
  assert (length (copy_bytes (record_header r) kRecordHeaderSize (lr_payload r)) =
    (kRecordHeaderSize + length (lr_payload r) + kChecksumSize)%nat) as Hl.
  { rewrite length_copy_bytes; rewrite length_record_header; lia. }
  assert (u32 (Z.of_nat (length (lr_payload r))) = Z.of_nat (length (lr_payload r))) as Hu.
  { apply Z.mod_small. unfold kMaxPayload in Hp. lia. }
  unfold kRecordHeaderSize, kChecksumSize in *. split_and!.
  5:{ apply load_store_eq; [lia|]. apply checksum_range. }
  5:{ rewrite take_store_be by lia. apply copy_record_body. }
  all: rewrite load_store_ne by lia; rewrite load_copy_bytes by (rewrite ?length_record_header; unfold kRecordHeaderSize; lia);
    unfold record_header; rewrite ?Hu;
    repeat first [rewrite load_store_eq; [done|rewrite ?length_store_be, length_zeros; unfold kRecordHeaderSize, kChecksumSize; lia|]
                 |rewrite load_store_ne by lia]; try exact Hs; try exact Ht; try exact Hts.
  unfold kMaxPayload in Hp. simpl. lia.
Qed.

Lemma decode_record_frame pre r post :
  record_ok r ->
  decode_record (pre ++ record_frame r ++ post) (length pre) =
    mkRecordRead LogNone r (length pre + length (record_frame r)).
Proof.
  intros Hok. pose proof Hok as (Hs & Ht & Htr & Hts & Hp).
  destruct (record_frame_fields r Hok) as (F1 & F2 & F3 & F4 & F5 & F6).
  pose proof (length_record_frame r Hp) as Hl. set (f := record_frame r) in *.
  unfold decode_record. rewrite !length_app.
  replace (length pre + (length f + length post) <? length pre)%nat with false
    by (symmetry; apply Nat.ltb_ge; lia).
  replace (length pre + (length f + length post) - length pre)%nat with (length f + length post)%nat by lia.
  rewrite (proj2 (Nat.ltb_ge _ _)) by lia. rewrite <- !Nat.add_assoc, !load_be_app_r.
  rewrite (load_be_app_l 8 f post 0), (load_be_app_l 2 f post 8), (load_be_app_l 8 f post 10),
    (load_be_app_l 4 f post 18) by (unfold kRecordHeaderSize in *; lia).
  rewrite F1, F2, F3, F4, Nat2Z.id. rewrite (proj2 (Z.ltb_ge _ _) Hp).
  rewrite (proj2 (Nat.ltb_ge _ _)) by lia. rewrite drop_app_length, drop_app_add.
  rewrite load_be_app_l by (unfold kChecksumSize in *; lia). rewrite take_app_le by lia.
  rewrite F5, F6, Z.eqb_refl. cbn [negb]. f_equal; [|lia].
  rewrite Htr. destruct r as [sq ty ts payload]. cbn [lr_seq_no lr_type lr_logical_timestamp lr_payload] in *. f_equal.
  rewrite drop_app_le, take_app_le by (rewrite ?length_drop; lia).
  rewrite take_drop_commute, F6. unfold record_body. cbn [lr_payload].
  apply drop_app_length'. rewrite length_take, length_record_header. unfold kRecordHeaderSize. lia.
Qed.

(** ** The scan *)

(** [reads b o rs o']: decoding from [o] yields the records [rs] and ends at [o']. *)
Inductive reads (b : bytes) : nat -> list LogRecord -> nat -> Prop :=
| reads_nil o : reads b o [] o
| reads_cons o r rs o1 o2 :
    decode_record b o = mkRecordRead LogNone r o1 -> (o < length b)%nat ->
    reads b o1 rs o2 -> reads b o (r :: rs) o2.

(** The scan stops at [o]: the end of the buffer, or an undecodable record. *)
Definition stops (b : bytes) (o : nat) (err : LogError) : Prop :=
  (err = LogNone /\ (length b <= o)%nat) \/
  (err <> LogNone /\ (o < length b)%nat /\ err = rr_error (decode_record b o)).

(** A decoded record lies inside the buffer. *)
Lemma decode_record_inv b o r o1 :
  decode_record b o = mkRecordRead LogNone r o1 ->
  o1 = (o + (kRecordHeaderSize + Z.to_nat (load_be 4 b (o + 18)) + kChecksumSize))%nat /\
  (o1 <= length b)%nat /\
  Z.of_nat (length (lr_payload r)) <= kMaxPayload.
Proof.
  unfold decode_record. destruct (Nat.ltb_spec (length b) o); [done|].
  destruct (Nat.ltb_spec (length b - o) kRecordHeaderSize); [done|].
  destruct (Z.ltb_spec kMaxPayload (load_be 4 b (o + 18))); [done|].
  destruct (Nat.ltb_spec (length b - o) (kRecordHeaderSize + Z.to_nat (load_be 4 b (o + 18)) + kChecksumSize)); [done|].
  destruct (negb _); [done|]. intros E. injection E as <- <-. unfold kRecordHeaderSize, kChecksumSize in *.
  split; [done|]. split; [lia|].
  cbn [lr_payload]. rewrite length_take. pose proof (load_be_range 4 b (o + 18)). lia.
Qed.

Lemma decode_record_next b o :
  rr_error (decode_record b o) = LogNone ->
  (o < rr_next_offset (decode_record b o) <= length b)%nat.
Proof.
  intros He. destruct (decode_record b o) as [e r o1] eqn:E. simpl in *. subst e.
  apply decode_record_inv in E as (-> & Hl & _). unfold kRecordHeaderSize in *. lia.
Qed.

Lemma scan_while b fuel : forall rs0 o0,
  (length b - o0 < fuel)%nat ->
  exists rs o err running,
    while fuel (scan_cond b) (scan_body b) (mkScanState rs0 LogNone o0 true) =
      mkScanState (rs0 ++ rs) err o running /\
    reads b o0 rs o /\ stops b o err.
Proof.
  induction fuel as [|fuel IH]; intros rs0 o0 Hf; [lia|]. cbn [while]. unfold scan_cond at 1. cbn [sc_running sc_offset andb].
  destruct (Nat.ltb_spec o0 (length b)) as [Hlt|Hge].
  - unfold scan_body at 2. cbn [sc_offset sc_records sc_error]. case_bool_decide as He; cbn [negb].
    + pose proof (decode_record_next b o0 He) as Hn. destruct (decode_record b o0) as [e r o1] eqn:E.
      simpl in He, Hn. subst e. cbn [rr_record rr_next_offset].
      destruct (IH (rs0 ++ [r]) o1) as (rs & o & err & running & Hw & Hr & Hs); [lia|].
      exists (r :: rs), o, err, running. rewrite Hw, <- app_assoc. split; [done|]. split; [|done].
      by eapply reads_cons.
    + rewrite while_false by done. exists [], o0, (rr_error (decode_record b o0)), false.
      rewrite app_nil_r. split; [done|]. split; [constructor|]. by right.
  - exists [], o0, LogNone, true. rewrite app_nil_r. split; [done|]. split; [constructor|]. by left.
Qed.

(** The scan always runs to its exit and reports the records it decoded. *)
Lemma scan_spec b :
  reads b 0 (sc_records (scan b)) (sc_offset (scan b)) /\
  stops b (sc_offset (scan b)) (sc_error (scan b)).
Proof.
  destruct (scan_while b (S (length b)) [] 0) as (rs & o & err & running & Hw & Hr & Hs); [lia|].
  unfold scan. by rewrite Hw.
Qed.

Lemma stops_det b o err rs o' :
  stops b o err -> reads b o rs o' -> rs = [] /\ o' = o.
Proof.
  intros Hs Hr. destruct Hr as [|o r rs o1 o2 Hd Hlt Hr]; [done|]. exfalso.
  destruct Hs as [[_ ?]|(Hne & _ & He)]; [lia|]. rewrite Hd in He. done.
Qed.

Lemma reads_det b o rs1 o1 err1 rs2 o2 err2 :
  reads b o rs1 o1 -> stops b o1 err1 -> reads b o rs2 o2 -> stops b o2 err2 ->
  rs1 = rs2 /\ o1 = o2 /\ err1 = err2.
Proof.
  intros H1 Hs1 H2 Hs2. revert rs2 o2 H2 Hs2. induction H1 as [o|o r rs o1 o2 Hd Hlt Hr IH]; intros rs2 o2' H2 Hs2.
  - destruct (stops_det _ _ _ _ _ Hs1 H2) as [-> ->]. split_and!; try done.
    destruct Hs1 as [[-> ?]|(Hn1 & ? & He1)], Hs2 as [[-> ?]|(Hn2 & ? & He2)]; try done; try lia. congruence.
  - destruct H2 as [o|o r' rs' o1' o2'' Hd' Hlt' Hr'].
    + exfalso. destruct Hs2 as [[_ ?]|(Hne & _ & He)]; [lia|]. rewrite Hd in He. done.
    + rewrite Hd in Hd'. simplify_eq. destruct (IH Hs1 _ _ Hr' Hs2) as (-> & -> & ->). done.
Qed.

Lemma scan_unique b rs o err :
  reads b 0 rs o -> stops b o err ->
  sc_records (scan b) = rs /\ sc_offset (scan b) = o /\ sc_error (scan b) = err.
Proof. intros Hr Hs. destruct (scan_spec b) as [Hr' Hs']. by eapply reads_det. Qed.

Lemma reads_bound b o rs o' : reads b o rs o' -> (o <= length b)%nat -> (o <= o' <= length b)%nat.
Proof.
  induction 1 as [|o r rs o1 o2 Hd Hlt Hr IH]; intros Hb; [lia|].
  apply decode_record_inv in Hd as (-> & Hl & _). lia.
Qed.

Lemma scan_offset_bound b : (sc_offset (scan b) <= length b)%nat.
Proof. destruct (scan_spec b) as [Hr _]. apply reads_bound in Hr; lia. Qed.

(** ** Records written are records read *)

Definition log_bytes (rs : list LogRecord) : bytes := concat (map record_frame rs).

Lemma record_frame_nonempty r : record_ok r -> (0 < length (record_frame r))%nat.
Proof. intros (_ & _ & _ & _ & Hp). rewrite length_record_frame by done. unfold kRecordHeaderSize. lia. Qed.

Lemma reads_frames rs : forall pre post,
  Forall record_ok rs ->
  reads (pre ++ log_bytes rs ++ post) (length pre) rs (length pre + length (log_bytes rs)).
Proof.
  induction rs as [|r rs IH]; intros pre post Hok.
  - simpl. rewrite Nat.add_0_r. constructor.
  - apply Forall_cons in Hok as [Hr Hok]. unfold log_bytes. cbn [map concat]. fold (log_bytes rs).
    rewrite <- app_assoc. eapply reads_cons.
    + by apply decode_record_frame.
    + rewrite !length_app. pose proof (record_frame_nonempty r Hr). lia.
    + specialize (IH (pre ++ record_frame r) post Hok). rewrite <- app_assoc, length_app in IH.
      rewrite length_app, Nat.add_assoc. exact IH.
Qed.

Lemma scan_frames rs post err :
  Forall record_ok rs -> stops (log_bytes rs ++ post) (length (log_bytes rs)) err ->
  sc_records (scan (log_bytes rs ++ post)) = rs /\
  sc_offset (scan (log_bytes rs ++ post)) = length (log_bytes rs) /\
  sc_error (scan (log_bytes rs ++ post)) = err.
Proof. intros Hok Hs. apply scan_unique; [|done]. by apply (reads_frames rs []). Qed.

Lemma read_log_frames rs : Forall record_ok rs -> read_log (log_bytes rs) = mkLogReadResult rs LogNone.
Proof.
  intros Hok. destruct (scan_frames rs [] LogNone Hok) as (Hr & _ & He).
  - left. by rewrite app_nil_r.
  - rewrite app_nil_r in Hr, He. unfold read_log. by rewrite Hr, He.
Qed.

Lemma recover_log_frames rs :
  Forall record_ok rs ->
  recover_log (log_bytes rs) = mkLogRecovery LogNone CleanTail LogNone rs (length (log_bytes rs)).
Proof.
  intros Hok. destruct (scan_frames rs [] LogNone Hok) as (Hr & Ho & He).
  - left. by rewrite app_nil_r.
  - rewrite app_nil_r in Hr, Ho, He. unfold recover_log. by rewrite Hr, Ho, He.
Qed.

(** ** Truncating to the last boundary *)

Lemma load_be_take w b k off : (off + w <= k)%nat -> load_be w (take k b) off = load_be w b off.
Proof. intros Hk. apply load_be_ext. intros i Hi. unfold byte_at. by rewrite lookup_take_lt by lia. Qed.

Lemma decode_record_take b k o r o1 :
  decode_record b o = mkRecordRead LogNone r o1 -> (o1 <= k)%nat ->
  decode_record (take k b) o = mkRecordRead LogNone r o1.
Proof.
  intros Hd Hk. pose proof (decode_record_inv _ _ _ _ Hd) as (Ho1 & Hl & _).
  rewrite <- Hd. unfold decode_record in *. rewrite length_take. unfold kRecordHeaderSize, kChecksumSize in *.
  set (size := Z.to_nat (load_be 4 b (o + 18))) in *.
  rewrite !load_be_take by lia.
  destruct (Nat.ltb_spec (length b) o); [done|]. rewrite (proj2 (Nat.ltb_ge _ _)) by lia.
  destruct (Nat.ltb_spec (length b - o) 22); [done|]. rewrite (proj2 (Nat.ltb_ge _ _)) by lia.
  destruct (Z.ltb_spec kMaxPayload (load_be 4 b (o + 18))); [done|]. fold size.
  destruct (Nat.ltb_spec (length b - o) (22 + size + 4)); [done|]. rewrite (proj2 (Nat.ltb_ge _ _)) by lia.
  rewrite !skipn_firstn_comm, !take_take. by rewrite !Nat.min_l by lia.
Qed.

Lemma reads_take b k o rs o' :
  reads b o rs o' -> (o' <= k)%nat -> reads (take k b) o rs o'.
Proof.
  intros Hr. induction Hr as [|o r rs o1 o2 Hd Hlt Hr IH]; intros Hk; [constructor|].
  pose proof (decode_record_inv _ _ _ _ Hd) as (Ho1 & Hl & _).
  assert (o1 <= o2 <= length b)%nat as Hb by (by eapply reads_bound).
  eapply reads_cons; [apply decode_record_take; [done|lia]| |by apply IH].
  rewrite length_take. unfold kRecordHeaderSize in Ho1. lia.
Qed.

Lemma scan_truncated b :
  let k := sc_offset (scan b) in
  sc_records (scan (take k b)) = sc_records (scan b) /\ sc_offset (scan (take k b)) = k /\
  sc_error (scan (take k b)) = LogNone.
Proof.
  intros k. destruct (scan_spec b) as [Hr _]. apply scan_unique.
  - by apply reads_take.
  - left. split; [done|]. rewrite length_take. lia.
Qed.

(** ** The checksum detects every single-byte change *)

(** The FNV prime is odd, so multiplication by it is invertible modulo 2^32. *)
Lemma fnv_mul_inj x y : in_u32 x -> in_u32 y -> u32 (x * 16777619) = u32 (y * 16777619) -> x = y.
Proof.
  unfold in_u32, u32, wrap. intros Hx Hy Heq.
  assert (forall z, 0 <= z < 2 ^ 32 -> (z * 16777619) mod 2 ^ 32 * 899433627 mod 2 ^ 32 = z) as Hinv.
  { intros z Hz. rewrite Zmult_mod_idemp_l, <- Z.mul_assoc.
    change (16777619 * 899433627) with (1 + 3513497 * 2 ^ 32).
    replace (z * _) with (z + z * 3513497 * 2 ^ 32) by ring.
    rewrite Z_mod_plus_full. by apply Z.mod_small. }
  rewrite <- (Hinv x Hx), <- (Hinv y Hy). by rewrite Heq.
Qed.

Lemma lxor_u32 h b : in_u32 h -> in_u8 b -> in_u32 (Z.lxor h b).
Proof.
  unfold in_u32, in_u8. intros Hh Hb. assert (0 <= Z.lxor h b) as H0 by (apply Z.lxor_nonneg; lia).
  split; [done|]. destruct (Z.eq_dec (Z.lxor h b) 0) as [->|Hne]; [lia|]. apply Z.log2_lt_pow2; [lia|].
  eapply Z.le_lt_trans; [apply Z.log2_lxor; lia|].
  assert (forall z, 0 <= z < 2 ^ 32 -> Z.log2 z < 32) as Hl.
  { intros z Hz. destruct (Z.eq_dec z 0) as [->|]; [simpl; lia|]. apply Z.log2_lt_pow2; lia. }
  apply Z.max_lub_lt; apply Hl; lia.
Qed.

Lemma lxor_cancel_r a b c : Z.lxor a c = Z.lxor b c -> a = b.
Proof.
  intros H. apply (f_equal (fun x => Z.lxor x c)) in H.
  by rewrite !Z.lxor_assoc, Z.lxor_nilpotent, !Z.lxor_0_r in H.
Qed.
Lemma lxor_cancel_l a b c : Z.lxor c a = Z.lxor c b -> a = b.
Proof. rewrite !(Z.lxor_comm c). apply lxor_cancel_r. Qed.

Lemma checksum_step_hash h h' b :
  in_u32 h -> in_u32 h' -> in_u8 b -> checksum_step h b = checksum_step h' b -> h = h'.
Proof.
  intros Hh Hh' Hb Heq. apply fnv_mul_inj in Heq; [|by apply lxor_u32..]. by eapply lxor_cancel_r.
Qed.
Lemma checksum_step_byte h b b' :
  in_u32 h -> in_u8 b -> in_u8 b' -> checksum_step h b = checksum_step h b' -> b = b'.
Proof.
  intros Hh Hb Hb' Heq. apply fnv_mul_inj in Heq; [|by apply lxor_u32..]. by eapply lxor_cancel_l.
Qed.

Lemma checksum_tail_inj l : forall h h',
  in_u32 h -> in_u32 h' -> bytes_ok l ->
  fold_left checksum_step l h = fold_left checksum_step l h' -> h = h'.
Proof.
  induction l as [|b l IH]; intros h h' Hh Hh' Hok Heq; [done|]. apply Forall_cons in Hok as [Hb Hok].
  apply (checksum_step_hash h h' b); try done. apply IH; try done; by apply Z.mod_pos_bound.
Qed.

Lemma checksum_single l1 b b' l2 :
  bytes_ok (l1 ++ b :: l2) -> in_u8 b' -> b <> b' ->
  checksum (l1 ++ b :: l2) <> checksum (l1 ++ b' :: l2).
Proof.
  intros Hok Hb' Hne Heq. apply Forall_app in Hok as [_ [Hb Hl2]%Forall_cons].
  unfold checksum in Heq. rewrite !fold_left_app in Heq. cbn [fold_left] in Heq.
  apply Hne. apply (checksum_step_byte (checksum l1)); try done; [apply checksum_range|].
  eapply checksum_tail_inj; [by apply Z.mod_pos_bound..|exact Hl2|exact Heq].
Qed.

(** ** Bytes of a frame *)

Lemma zeros_ok n : bytes_ok (zeros n).
Proof. apply Forall_replicate. unfold in_u8. lia. Qed.

Lemma store_be_ok w buf off v : bytes_ok buf -> bytes_ok (store_be w buf off v).
Proof.
  unfold store_be. revert buf v. induction (seq 0 w) as [|i l IH]; intros buf v Hok; [done|].
  cbn [fold_left store_byte]. apply IH. apply Forall_insert; [done|]. by apply Z.mod_pos_bound.
Qed.

Lemma record_frame_ok r :
  Z.of_nat (length (lr_payload r)) <= kMaxPayload -> bytes_ok (lr_payload r) -> bytes_ok (record_frame r).
Proof.
  intros Hp Hok. rewrite record_frame_spec by done. apply store_be_ok.
  assert (bytes_ok (record_header r)) as Hh by (unfold record_header; auto using store_be_ok, zeros_ok).
  unfold copy_bytes. apply Forall_app. split; [by apply Forall_take|]. apply Forall_app.
  split; [done|]. by apply Forall_drop.
Qed.

(** Equal loads come from equal bytes. *)
Lemma load_be_inj w buf buf' off :
  bytes_ok buf -> bytes_ok buf' -> load_be w buf off = load_be w buf' off ->
  forall i, (i < w)%nat -> byte_at buf (off + i) = byte_at buf' (off + i).
Proof.
  intros Hok Hok' Heq i Hi.
  destruct (load_loop_bytes w buf off w Hok ltac:(lia)) as [_ Hb].
  destruct (load_loop_bytes w buf' off w Hok' ltac:(lia)) as [_ Hb'].
  rewrite <- Hb, <- Hb' by done. unfold load_be in Heq. by rewrite Heq.
Qed.

Lemma byte_at_insert_ne (buf : bytes) i j x : i <> j -> byte_at (<[i := x]> buf) j = byte_at buf j.
Proof. intros Hne. unfold byte_at. by rewrite list_lookup_insert_ne. Qed.

(** One changed byte, anywhere but in the size field. *)
Lemma decode_corrupt_record pre r post i x :
  record_ok r -> bytes_ok (lr_payload r) -> in_u8 x ->
  (i < length (record_frame r))%nat -> (i < 18 \/ kRecordHeaderSize <= i)%nat ->
  x <> byte_at (record_frame r) i ->
  let b := pre ++ <[i := x]> (record_frame r) ++ post in
  rr_error (decode_record b (length pre)) = BadChecksum /\
  load_be 4 b (length pre + 18) = Z.of_nat (length (lr_payload r)).
Proof.
  intros Hok Hpok Hx Hi Hfield Hne. pose proof Hok as (_ & _ & _ & _ & Hp).
  destruct (record_frame_fields r Hok) as (_ & _ & _ & F4 & F5 & F6).
  pose proof (length_record_frame r Hp) as Hl. pose proof (record_frame_ok r Hp Hpok) as Hfok.
  set (f := record_frame r) in *. set (n := length (lr_payload r)) in *. set (f' := <[i := x]> f).
  assert (length f' = length f) as Hl' by apply length_insert.
  assert (bytes_ok f') as Hfok' by (by apply Forall_insert).
  assert (load_be 4 f' 18 = Z.of_nat n) as F4'.
  { rewrite <- F4. apply load_be_ext. intros k Hk. apply byte_at_insert_ne. unfold kRecordHeaderSize in *. lia. }
  intros b. assert (load_be 4 b (length pre + 18) = Z.of_nat n) as Hsize.
  { unfold b. rewrite load_be_app_r, load_be_app_l by (unfold kRecordHeaderSize in *; lia). done. }
  split; [|done]. unfold decode_record. rewrite Hsize, Nat2Z.id.
  assert (length b = length pre + (length f + length post))%nat as Hlb by (unfold b; rewrite !length_app, Hl'; done).
  rewrite Hlb. rewrite (proj2 (Nat.ltb_ge _ _)) by lia. rewrite (proj2 (Nat.ltb_ge _ _)) by lia.
  rewrite (proj2 (Z.ltb_ge _ _) Hp). rewrite (proj2 (Nat.ltb_ge _ _)) by lia.
  unfold b at 1 2. rewrite <- Nat.add_assoc, load_be_app_r, drop_app_length, load_be_app_l, take_app_le
    by (unfold kChecksumSize in *; lia).
  destruct (Z.eqb_spec (load_be 4 f' (kRecordHeaderSize + n)) (checksum (take (kRecordHeaderSize + n) f')))
    as [Heq|]; [exfalso|done].
  destruct (decide (i < kRecordHeaderSize + n)%nat) as [Hlt|Hge].
  - assert (load_be 4 f' (kRecordHeaderSize + n) = load_be 4 f (kRecordHeaderSize + n)) as Hst.
    { apply load_be_ext. intros k Hk. apply byte_at_insert_ne. lia. }
    destruct (lookup_lt_is_Some_2 f i Hi) as [y Hy].
    assert (byte_at f i = y) as Hby by (unfold byte_at; by rewrite Hy). rewrite Hby in Hne.
    assert (take (kRecordHeaderSize + n) f = take i f ++ y :: take (kRecordHeaderSize + n - S i) (drop (S i) f)) as Ht.
    { rewrite <- (take_drop_middle f i y Hy) at 1. rewrite take_app, length_take, Nat.min_l by lia.
      rewrite take_take, Nat.min_r by lia. f_equal.
      replace (kRecordHeaderSize + n - i)%nat with (S (kRecordHeaderSize + n - S i)) by lia. done. }
    assert (take (kRecordHeaderSize + n) f' = take i f ++ x :: take (kRecordHeaderSize + n - S i) (drop (S i) f)) as Ht'.
    { unfold f'. rewrite insert_take_drop by done. rewrite take_app, length_take, Nat.min_l by lia.
      rewrite take_take, Nat.min_r by lia. f_equal.
      replace (kRecordHeaderSize + n - i)%nat with (S (kRecordHeaderSize + n - S i)) by lia. done. }
    rewrite Hst, F5, <- F6, Ht, Ht' in Heq. revert Heq. apply checksum_single; [|done|done].
    rewrite <- Ht. by apply Forall_take.
  - assert (take (kRecordHeaderSize + n) f' = take (kRecordHeaderSize + n) f) as Ht.
    { unfold f'. apply take_insert_ge. lia. }
    rewrite Ht, F6, <- F5 in Heq.
    apply (load_be_inj 4 f' f _ Hfok' Hfok) with (i := (i - (kRecordHeaderSize + n))%nat) in Heq;
      [|unfold kChecksumSize in *; lia].
    replace (kRecordHeaderSize + n + (i - (kRecordHeaderSize + n)))%nat with i in Heq by lia.
    unfold f', byte_at in Heq. rewrite list_lookup_insert_eq in Heq by done. by simpl in Heq.
Qed.
