(* ===== verification/LogFile.v ===== *)
(** * LogFile: log files on disk

    The file half of src/replay/event_log.cpp: reading a whole file, repairing a
    torn tail and the append-only writer with its durability modes.  The C
    library and the kernel are modelled by what POSIX documents of them: a
    stream delivers its bytes in order until end of file or an error; a written
    byte is in the stdio buffer, in the kernel's page cache or on stable
    storage, [fflush] moves the first part to the second and [fsync] the second
    to the third.  Outcomes the kernel decides (short writes, failures) are
    inputs. *)
From S2P Require Import Prelude Core Endian EventLog.

(** ** Reading a file *)

(** [st_fail = Some k]: the stream reports an error after [k] more bytes. *)
Record Stream := mkStream {
  st_rest : bytes;
  st_fail : option nat;
  st_error : bool
}.

(** [std::fread(chunk, 1, n, file)]. *)
Definition fread (n : nat) (s : Stream) : bytes * Stream :=
  let k :=
    match st_fail s with
    | None => Nat.min n (length (st_rest s))
    | Some f => Nat.min n (Nat.min f (length (st_rest s)))
    end in
  (take k (st_rest s),
   mkStream (drop k (st_rest s)) ((fun f => f - k)%nat <$> st_fail s)
     (match st_fail s with
      | None => st_error s
      | Some f => st_error s || ((f <=? length (st_rest s)) && (f <? n))%nat
      end)).

Record FileBytesRead := mkFileBytesRead { fb_error : LogError; fb_bytes : bytes }.

Definition kChunk : nat := Z.to_nat 4096.

(** The state of the [while (true)] loop: stream, buffer and the result once the
    loop has returned. *)
Definition read_chunk (n : nat) (s : Stream * bytes * option FileBytesRead) :
    Stream * bytes * option FileBytesRead :=
  let '(stream, buf, _) := s in
  let '(chunk, stream) := fread n stream in
  let buf := buf ++ chunk in
  if (length chunk <? n)%nat then
    if st_error stream then (stream, buf, Some (mkFileBytesRead OpenFailed []))
    else (stream, buf, Some (mkFileBytesRead LogNone buf))
  else (stream, buf, None).

Definition reading (s : Stream * bytes * option FileBytesRead) : bool :=
  match s.2 with None => true | Some _ => false end.

(** [fopen]'s result as an option; every iteration but the last consumes a full
    chunk, so the bound is never reached. *)
Definition read_file_bytes (opened : option Stream) : FileBytesRead :=
  match opened with
  | None => mkFileBytesRead OpenFailed []
  | Some stream =>
      match (while (S (length (st_rest stream))) reading (read_chunk kChunk) (stream, [], None)).2 with
      | Some r => r
      | None => mkFileBytesRead OpenFailed []
      end
  end.

Definition recover_log_file (opened : option Stream) : LogRecovery :=
  let read := read_file_bytes opened in
  if negb (bool_decide (fb_error read = LogNone))
  then mkLogRecovery (fb_error read) Corrupt LogNone [] 0
  else recover_log (fb_bytes read).

(** [EventLogReader::read_all]. *)
Definition read_all (opened : option Stream) : LogReadResult :=
  let read := read_file_bytes opened in
  if negb (bool_decide (fb_error read = LogNone)) then mkLogReadResult [] OpenFailed
  else read_log (fb_bytes read).

(** ** Repairing a torn tail *)

(** What the kernel answers to the calls of [repair_log_file]. *)
Record RepairIO := mkRepairIO {
  rio_resize_ok : bool;
  rio_open_ok : bool;
  rio_fsync_ok : bool
}.

(** The result and the contents of the file afterwards. *)
Definition repair_log_file (contents : bytes) (recovery : LogRecovery) (io : RepairIO) :
    bool * bytes :=
  if negb (bool_decide (rec_error recovery = LogNone)) || bool_decide (rec_tail recovery = Corrupt)
  then (false, contents)
  else if bool_decide (rec_tail recovery = CleanTail) then (true, contents)
  else if negb (rio_resize_ok io) then (false, contents)
  else
    let contents := take (rec_valid_bytes recovery) contents in
    (rio_open_ok io && rio_fsync_ok io, contents).

(** ** The writer *)

(** The log file as the writer's [FILE *] sees it. *)
Record Disk := mkDisk {
  dk_stable : bytes;
  dk_page_cache : bytes;
  dk_stdio : bytes
}.
Definition dk_all (d : Disk) : bytes := dk_stable d ++ dk_page_cache d ++ dk_stdio d.

Lemma dk_all_stable b : dk_all (mkDisk b [] []) = b.
Proof. apply app_nil_r. Qed.


Record EventLogWriter := mkEventLogWriter {
  w_directory_sync_pending : bool;
  w_file : option Disk;
  w_mode : DurabilityMode
}.

(** Kernel outcomes of one call: bytes [fwrite] accepted, whether [fflush]
    succeeded and how many bytes it moved if it did not, whether [fileno] gave
    a descriptor and [fsync] returned 0, whether the parent directory could be
    opened and synced. *)
Record WriteIO := mkWriteIO {
  io_written : nat;
  io_fflush_ok : bool;
  io_flushed : nat;
  io_fileno_ok : bool;
  io_fsync_ok : bool;
  io_dir_ok : bool
}.

Definition fwrite (buf : bytes) (io : WriteIO) (d : Disk) : nat * Disk :=
  let n := Nat.min (io_written io) (length buf) in
  (n, mkDisk (dk_stable d) (dk_page_cache d) (dk_stdio d ++ take n buf)).

Definition fflush (io : WriteIO) (d : Disk) : bool * Disk :=
  if io_fflush_ok io then (true, mkDisk (dk_stable d) (dk_page_cache d ++ dk_stdio d) [])
  else (false, mkDisk (dk_stable d) (dk_page_cache d ++ take (io_flushed io) (dk_stdio d))
                 (drop (io_flushed io) (dk_stdio d))).

Definition sync_to_storage (io : WriteIO) (d : Disk) : bool * Disk :=
  if negb (io_fileno_ok io) then (false, d)
  else if io_fsync_ok io then (true, mkDisk (dk_stable d ++ dk_page_cache d) [] (dk_stdio d))
  else (false, d).

Definition sync_parent_directory_once (io : WriteIO) (w : EventLogWriter) : bool * EventLogWriter :=
  if negb (w_directory_sync_pending w) then (true, w)
  else if negb (io_dir_ok io) then (false, w)
  else (true, mkEventLogWriter false (w_file w) (w_mode w)).

(** The constructor: [existing] is the file's contents if it exists, [opened]
    whether [fopen(path, "ab")] succeeds. *)
Definition open_writer (existing : option bytes) (opened : bool) (mode : DurabilityMode)
    (io : WriteIO) : EventLogWriter :=
  let pending := negb (bool_decide (is_Some existing)) in
  let file := if opened then Some (mkDisk (default [] existing) [] []) else None in
  let w := mkEventLogWriter pending file mode in
  match w_file w with
  | None => w
  | Some _ =>
      if bool_decide (mode = FsyncOnAppend) then
        let '(synced, w') := sync_parent_directory_once io w in
        if synced then w' else mkEventLogWriter (w_directory_sync_pending w') None (w_mode w')
      else w
  end.

Definition good (w : EventLogWriter) : bool := bool_decide (is_Some (w_file w)).

Definition set_file (d : Disk) (w : EventLogWriter) : EventLogWriter :=
  mkEventLogWriter (w_directory_sync_pending w) (Some d) (w_mode w).

Definition append (record : LogRecord) (io : WriteIO) (w : EventLogWriter) : bool * EventLogWriter :=
  match w_file w with
  | None => (false, w)
  | Some d =>
      match encode_record record [] with
      | None => (false, w)
      | Some buf =>
          let '(written, d) := fwrite buf io d in
          if negb (written =? length buf)%nat then (false, set_file d w)
          else if bool_decide (w_mode w = BufferedOnly) then (true, set_file d w)
          else
            let '(flushed, d) := fflush io d in
            if negb flushed then (false, set_file d w)
            else if bool_decide (w_mode w = FlushOnAppend) then (true, set_file d w)
            else
              let '(synced, d) := sync_to_storage io d in
              (synced, set_file d w)
      end
  end.

Definition sync (io : WriteIO) (w : EventLogWriter) : bool * EventLogWriter :=
  match w_file w with
  | None => (false, w)
  | Some d =>
      let '(flushed, d) := fflush io d in
      if negb flushed then (false, set_file d w)
      else
        let '(synced, d) := sync_to_storage io d in
        if negb synced then (false, set_file d w)
        else sync_parent_directory_once io (set_file d w)
  end.

(** ** Reading returns the file *)

Lemma fread_bound n s : (length (fread n s).1 <= n)%nat.
Proof. unfold fread. simpl. rewrite length_take. destruct (st_fail s); lia. Qed.

Lemma kChunk_pos : (0 < kChunk)%nat.
Proof. unfold kChunk. lia. Qed.

Lemma read_loop n rest : forall fuel buf,
  (0 < n)%nat ->
  (length rest < fuel)%nat ->
  (while fuel reading (read_chunk n) (mkStream rest None false, buf, None)).2 =
    Some (mkFileBytesRead LogNone (buf ++ rest)).
Proof.
  induction rest as [rest IH] using (well_founded_induction (well_founded_ltof _ (@length Z))).
  intros fuel buf Hk Hf. destruct fuel as [|fuel]; [lia|]. cbn [while reading snd].
  unfold read_chunk at 2, fread. cbn [st_fail st_rest st_error fst fmap option_fmap option_map].
  rewrite length_take. destruct (Nat.ltb_spec (Nat.min (Nat.min n (length rest)) (length rest)) n) as [Hlt|Hge].
  - rewrite while_false by done. cbn [snd]. rewrite take_ge by lia. done.
  - rewrite Nat.min_l by lia. rewrite IH.
    + by rewrite <- app_assoc, take_drop.
    + unfold ltof. rewrite length_drop. lia.
    + done.
    + rewrite length_drop. lia.
Qed.

Lemma read_file_bytes_ok contents :
  read_file_bytes (Some (mkStream contents None false)) = mkFileBytesRead LogNone contents.
Proof. unfold read_file_bytes. by rewrite read_loop by (apply kChunk_pos || (simpl; lia)). Qed.

Lemma recover_log_file_ok contents :
  recover_log_file (Some (mkStream contents None false)) = recover_log contents.
Proof. unfold recover_log_file. by rewrite read_file_bytes_ok. Qed.

Lemma read_all_ok contents : read_all (Some (mkStream contents None false)) = read_log contents.
Proof. unfold read_all. by rewrite read_file_bytes_ok. Qed.

(** A read error is reported, never taken for the end of the file. *)
Lemma read_loop_fail n rest : forall fuel buf f,
  (0 < n)%nat -> (f <= length rest)%nat -> (length rest < fuel)%nat ->
  (while fuel reading (read_chunk n) (mkStream rest (Some f) false, buf, None)).2 =
    Some (mkFileBytesRead OpenFailed []).
Proof.
  induction rest as [rest IH] using (well_founded_induction (well_founded_ltof _ (@length Z))).
  intros fuel buf f Hk Hff Hf. destruct fuel as [|fuel]; [lia|]. cbn [while reading snd].
  unfold read_chunk at 2, fread. cbn [st_fail st_rest st_error fst fmap option_fmap option_map].
  rewrite length_take. destruct (Nat.ltb_spec f n) as [Hlt|Hge].
  - rewrite (proj2 (Nat.ltb_lt _ _)) by lia. rewrite (proj2 (Nat.leb_le _ _) Hff). cbn [orb andb].
    by rewrite while_false by done.
  - rewrite (proj2 (Nat.ltb_ge _ _)) by lia. rewrite andb_false_r. cbn [orb].
    rewrite Nat.min_l by lia. apply IH; [unfold ltof; rewrite length_drop; lia|done|rewrite length_drop; lia..].
Qed.

Lemma read_file_bytes_fail contents f :
  (f <= length contents)%nat ->
  read_file_bytes (Some (mkStream contents (Some f) false)) = mkFileBytesRead OpenFailed [].
Proof. intros Hf. unfold read_file_bytes. by rewrite read_loop_fail by (apply kChunk_pos || (simpl; lia)). Qed.

(** ** Appending *)

(** Bytes only ever grow at the end, whatever the kernel answers. *)
Lemma append_extends record io w d :
  w_file w = Some d ->
  exists d' suffix, w_file (append record io w).2 = Some d' /\ dk_all d' = dk_all d ++ suffix /\
    suffix `prefix_of` record_frame record /\ w_mode (append record io w).2 = w_mode w /\
    ((append record io w).1 = true -> suffix = record_frame record) /\
    dk_stable d `prefix_of` dk_stable d'.
Proof.
  intros Hf. unfold append. rewrite Hf. unfold record_frame.
  destruct (encode_record record []) as [buf|].
  2:{ exists d, []. simpl. rewrite app_nil_r. split_and!; try done. }
  cbn [default]. unfold fwrite. set (n := Nat.min (io_written io) (length buf)).
  assert (take n buf `prefix_of` buf) as Hpre by (exists (drop n buf); by rewrite take_drop).
  destruct (Nat.eqb_spec n (length buf)) as [Heq|Hne]; cbn [negb].
  2:{ eexists _, (take n buf). split; [done|]. split; [unfold dk_all; simpl; by rewrite !app_assoc|].
      split_and!; try done. }
  assert (take n buf = buf) as Htake by (apply take_ge; lia). rewrite Htake in *.
  case_bool_decide as Hm1.
  { eexists _, buf. split; [done|]. split; [unfold dk_all; simpl; by rewrite !app_assoc|]. by split_and!. }
  unfold fflush. destruct (io_fflush_ok io); cbn [negb].
  2:{ eexists _, buf. split; [done|]. split; [|by split_and!].
      unfold dk_all. cbn [dk_stable dk_page_cache dk_stdio]. rewrite <- !app_assoc.
      by rewrite take_drop. }
  case_bool_decide as Hm2.
  { eexists _, buf. split; [done|]. split; [unfold dk_all; simpl; by rewrite app_nil_r, !app_assoc|]. by split_and!. }
  unfold sync_to_storage. destruct (io_fileno_ok io), (io_fsync_ok io); cbn [negb];
    (eexists _, buf; split; [done|]; split; [unfold dk_all; simpl; by rewrite ?app_nil_r, !app_assoc|split_and!; try done]).
  - by exists (dk_page_cache d ++ dk_stdio d ++ buf).
Qed.

(** How far an acknowledged record has travelled. *)
Lemma append_durable record io w d :
  w_file w = Some d -> (append record io w).1 = true ->
  exists d', w_file (append record io w).2 = Some d' /\ dk_all d' = dk_all d ++ record_frame record /\
    match w_mode w with
    | BufferedOnly => True
    | FlushOnAppend => dk_stable d' ++ dk_page_cache d' = dk_all d'
    | FsyncOnAppend => dk_stable d' = dk_all d'
    end.
Proof.
  intros Hf Ha. destruct (append_extends record io w d Hf) as (d' & suffix & Hf' & Hall & _ & _ & Hs & _).
  rewrite (Hs Ha) in Hall. exists d'. split; [done|]. split; [done|]. revert Ha Hf'. unfold append. rewrite Hf.
  destruct (encode_record record []) as [buf|]; [|done]. unfold fwrite.
  destruct (negb _); [done|]. case_bool_decide as Hm1; [by rewrite Hm1|].
  unfold fflush. destruct (io_fflush_ok io); cbn [negb]; [|done].
  case_bool_decide as Hm2; [rewrite Hm2; intros _ [= <-]; unfold dk_all; simpl; by rewrite app_nil_r|].
  unfold sync_to_storage. destruct (io_fileno_ok io); cbn [negb]; [|done]. destruct (io_fsync_ok io); [|done].
  intros _ [= <-]. destruct (w_mode w); try done. unfold dk_all. simpl. by rewrite app_nil_r.
Qed.

(** ** Crash recovery *)

Lemma log_bytes_app rs rs' : log_bytes (rs ++ rs') = log_bytes rs ++ log_bytes rs'.
Proof. unfold log_bytes. by rewrite map_app, concat_app. Qed.

(** A partially written final record is never decoded. *)
Lemma decode_partial_frame pre r k :
  record_ok r -> (0 < k < length (record_frame r))%nat ->
  rr_error (decode_record (pre ++ take k (record_frame r)) (length pre)) = LogTruncated.
Proof.
  intros Hok Hk. pose proof Hok as (_ & _ & _ & _ & Hp). pose proof (length_record_frame r Hp) as Hl.
  destruct (record_frame_fields r Hok) as (_ & _ & _ & F4 & _).
  unfold decode_record. rewrite length_app, length_take.
  destruct (Nat.ltb_spec (length pre + Nat.min k (length (record_frame r))) (length pre)); [done|].
  destruct (Nat.ltb_spec (length pre + Nat.min k (length (record_frame r)) - length pre) kRecordHeaderSize); [done|].
  rewrite <- (Nat.add_0_r (length pre)) at 6. rewrite Nat.add_0_r.
  rewrite load_be_app_r, load_be_take by (unfold kRecordHeaderSize in *; lia). rewrite F4, Nat2Z.id.
  rewrite (proj2 (Z.ltb_ge _ _) Hp). rewrite (proj2 (Nat.ltb_lt _ _)) by lia. done.
Qed.

Lemma scan_partial rs r k :
  Forall record_ok rs -> record_ok r -> (0 < k < length (record_frame r))%nat ->
  let b := log_bytes rs ++ take k (record_frame r) in
  sc_records (scan b) = rs /\ sc_offset (scan b) = length (log_bytes rs) /\
  sc_error (scan b) = LogTruncated.
Proof.
  intros Hrs Hr Hk. apply scan_frames; [done|]. right. split; [done|]. split.
  - rewrite length_app, length_take. lia.
  - symmetry. by apply decode_partial_frame.
Qed.

(** What survives a crash: everything stable and a prefix of what was still on
    its way. *)
Definition survives (d : Disk) (contents : bytes) : Prop :=
  dk_stable d `prefix_of` contents /\ contents `prefix_of` dk_all d.

(** ** Repair *)

Lemma recover_repaired b io ok b' :
  repair_log_file b (recover_log b) io = (ok, b') -> ok = true ->
  recover_log b' = mkLogRecovery LogNone CleanTail LogNone (rec_records (recover_log b)) (length b').
Proof.
  unfold repair_log_file. cbn [rec_error rec_tail recover_log rec_valid_bytes].
  destruct (scan_spec b) as [Hr Hs]. pose proof (scan_offset_bound b) as Hb.
  case_bool_decide; [|done]. cbn [negb orb]. case_bool_decide as Hc; [by intros [= <- <-]|].
  case_bool_decide as Hcl.
  - intros [= <- <-] _. unfold recover_log. cbn [rec_records]. rewrite Hcl.
    assert (sc_error (scan b) = LogNone) as He.
    { revert Hcl. destruct (sc_error (scan b)); simpl; try done; by case_if. }
    rewrite He. f_equal. destruct Hs as [[_ ?]|(Hne & _)]; [lia|congruence].
  - destruct (rio_resize_ok io); cbn [negb]; intros [= <- <-] Hok; [|done].
    destruct (scan_truncated b) as (Hr' & Ho' & He'). unfold recover_log. rewrite Hr', Ho', He'.
    cbn [rec_records]. f_equal. rewrite length_take. lia.
Qed.

(** ** Cutting a log at any byte *)

Lemma log_bytes_cut rs : forall k,
  (k <= length (log_bytes rs))%nat ->
  exists rs1 rs2, rs = rs1 ++ rs2 /\ (length (log_bytes rs1) <= k)%nat /\
    match rs2 with
    | [] => k = length (log_bytes rs1) /\ take k (log_bytes rs) = log_bytes rs1
    | r :: _ => (k - length (log_bytes rs1) < length (record_frame r))%nat /\
        take k (log_bytes rs) = log_bytes rs1 ++ take (k - length (log_bytes rs1)) (record_frame r)
    end.
Proof.
  induction rs as [|r rs IH]; intros k Hk.
  - exists [], []. cbn in *. split_and!; try done; [lia..|]. by apply take_nil.
  - unfold log_bytes in *. cbn [map concat] in *. rewrite length_app in Hk.
    destruct (decide (k < length (record_frame r))%nat) as [Hlt|Hge].
    + exists [], (r :: rs). cbn. rewrite Nat.sub_0_r, take_app_le by lia. split_and!; try done; lia.
    + destruct (IH (k - length (record_frame r))%nat) as (rs1 & rs2 & -> & Hle & Hcase); [lia|].
      exists (r :: rs1), rs2. cbn [map concat]. rewrite take_app_ge, length_app by lia. split_and!; [done|lia|].
      destruct rs2 as [|r' rs2]; destruct Hcase as [H1 ->].
      * split; [lia|done].
      * replace (k - (length (record_frame r) + length (concat (map record_frame rs1))))%nat with
          (k - length (record_frame r) - length (concat (map record_frame rs1)))%nat by lia.
        split; [done|]. by rewrite app_assoc.
Qed.

(** How recovery classifies [j] leftover bytes of an interrupted append. *)
Definition cut_tail (j : nat) : TailState :=
  if (j =? 0)%nat then CleanTail else if (j <? kRecordHeaderSize)%nat then TornTail else Corrupt.

Lemma recover_partial rs r j :
  Forall record_ok rs -> record_ok r -> (j < length (record_frame r))%nat ->
  let rec := recover_log (log_bytes rs ++ take j (record_frame r)) in
  rec_error rec = LogNone /\ rec_records rec = rs /\ rec_valid_bytes rec = length (log_bytes rs) /\
  rec_tail rec = cut_tail j.
Proof.
  intros Hrs Hr Hj. destruct (decide (j = 0%nat)) as [->|Hne].
  - rewrite take_0, app_nil_r, recover_log_frames by done. done.
  - destruct (scan_partial rs r j Hrs Hr ltac:(lia)) as (H1 & H2 & H3). unfold recover_log.
    cbn [rec_error rec_records rec_valid_bytes rec_tail]. rewrite H1, H2, H3. split_and!; try done.
    unfold classify_tail, truncated_failure_confined_to_partial_header, cut_tail.
    rewrite length_app, length_take.
    replace (length (log_bytes rs) + j `min` length (record_frame r) - length (log_bytes rs))%nat with j by lia.
    by rewrite (proj2 (Nat.eqb_neq _ _)).
Qed.

Lemma recover_cut rs k :
  Forall record_ok rs -> (k <= length (log_bytes rs))%nat ->
  exists rs1 rs2, rs = rs1 ++ rs2 /\
    (length (log_bytes rs1) <= k)%nat /\
    (forall r rs', rs2 = r :: rs' -> (k < length (log_bytes (rs1 ++ [r])))%nat) /\
    let rec := recover_log (take k (log_bytes rs)) in
    rec_error rec = LogNone /\ rec_records rec = rs1 /\ rec_valid_bytes rec = length (log_bytes rs1) /\
    rec_tail rec = cut_tail (k - length (log_bytes rs1)).
Proof.
  intros Hok Hk. destruct (log_bytes_cut rs k Hk) as (rs1 & rs2 & -> & Hle & Hcase).
  apply Forall_app in Hok as [Hok1 Hok2]. exists rs1, rs2. split; [done|]. split; [done|].
  destruct rs2 as [|r rs2]; destruct Hcase as [H1 H2].
  - split; [done|]. rewrite H2, recover_log_frames by done. cbn. subst k. by rewrite Nat.sub_diag.
  - apply Forall_cons in Hok2 as [Hr _]. split.
    + intros ? ? [= <- <-]. rewrite log_bytes_app, length_app. unfold log_bytes at 2. cbn. rewrite app_nil_r. lia.
    + rewrite H2. by apply recover_partial.
Qed.

(** ** A writer that is only used while its appends succeed *)

(** The appends in order with their I/O outcomes; [None] once one reports failure. *)
Fixpoint append_all (w : EventLogWriter) (rs : list (LogRecord * WriteIO)) : option EventLogWriter :=
  match rs with
  | [] => Some w
  | (r, io) :: rs' => let '(ok, w') := append r io w in if ok then append_all w' rs' else None
  end.

Lemma append_all_bytes rs : forall w w' d,
  w_file w = Some d -> append_all w rs = Some w' ->
  w_mode w' = w_mode w /\
  exists d', w_file w' = Some d' /\ dk_all d' = dk_all d ++ log_bytes (map fst rs) /\
    (w_mode w = FsyncOnAppend -> dk_stable d = dk_all d -> dk_stable d' = dk_all d').
Proof.
  induction rs as [|[r io] rs IH]; intros w w' d Hd; cbn [append_all map].
  - intros [= <-]. split; [done|]. exists d. by rewrite app_nil_r.
  - pose proof (append_durable r io w d Hd) as Hdur.
    destruct (append_extends r io w d Hd) as (_ & _ & _ & _ & _ & Hm & _).
    destruct (append r io w) as [[] w1]; [|done]. cbn [fst snd] in *.
    destruct (Hdur eq_refl) as (d1 & Hd1 & Hall & Hst). intros Ha.
    destruct (IH w1 w' d1 Hd1 Ha) as (Hm' & d' & Hd' & Hall' & Hst'). split; [congruence|].
    exists d'. split; [done|]. split.
    + rewrite Hall', Hall, <- app_assoc. done.
    + intros Hmode Hs. apply Hst'; [congruence|]. by rewrite Hmode in Hst.
Qed.

(** A log followed by part of one more record recovers to the log, or to the log
    and that record. *)
Lemma recover_interrupted rs r j :
  Forall record_ok rs -> record_ok r -> (j <= length (record_frame r))%nat ->
  let rec := recover_log (log_bytes rs ++ take j (record_frame r)) in rec_records rec = rs \/ rec_records rec = rs ++ [r].
Proof.
  intros Hrs Hr Hj. destruct (decide (j = length (record_frame r))) as [->|Hne]; [|left; by apply (recover_partial rs r j Hrs Hr ltac:(lia))].
  right. rewrite take_ge by done.
  replace (log_bytes rs ++ record_frame r) with (log_bytes (rs ++ [r])) by (rewrite log_bytes_app; unfold log_bytes at 2; cbn; by rewrite app_nil_r).
  rewrite recover_log_frames; [done|]. apply Forall_app. by rewrite Forall_singleton.
Qed.

(** ** How far bytes have travelled *)

(** What each mode has achieved for every acknowledged byte. *)
Definition durable (mode : DurabilityMode) (d : Disk) : Prop :=
  match mode with
  | BufferedOnly => True
  | FlushOnAppend => dk_stable d ++ dk_page_cache d = dk_all d
  | FsyncOnAppend => dk_stable d = dk_all d
  end.

(** The bytes a mode keeps safe: in the kernel when the process is killed, on
    stable storage when the machine stops. *)
Definition safe_bytes (mode : DurabilityMode) (d : Disk) : bytes :=
  match mode with
  | BufferedOnly => []
  | FlushOnAppend => dk_stable d ++ dk_page_cache d
  | FsyncOnAppend => dk_stable d
  end.

(** What the file may hold after the interruption a mode is made for. *)
Definition left_behind (mode : DurabilityMode) (d : Disk) (contents : bytes) : Prop :=
  safe_bytes mode d `prefix_of` contents /\ contents `prefix_of` dk_all d.

Lemma append_safe mode record io w d :
  w_file w = Some d -> exists d', w_file (append record io w).2 = Some d' /\ safe_bytes mode d `prefix_of` safe_bytes mode d'.
Proof.
  intros Hf. unfold append. rewrite Hf. destruct (encode_record record []) as [buf|]; [|by exists d]. unfold fwrite, fflush, sync_to_storage.
  assert (forall d', dk_stable d `prefix_of` dk_stable d' -> dk_stable d ++ dk_page_cache d `prefix_of` dk_stable d' ++ dk_page_cache d' ->
    exists d0, Some d' = Some d0 /\ safe_bytes mode d `prefix_of` safe_bytes mode d0) as Hstep by (intros d' H1 H2; exists d'; by destruct mode).
  destruct (negb _); [by apply Hstep|]. case_bool_decide; [by apply Hstep|]. destruct (io_fflush_ok io); cbn [negb].
  - case_bool_decide; [apply Hstep; cbn; [done|rewrite app_assoc; by apply prefix_app_r]|].
    destruct (io_fileno_ok io), (io_fsync_ok io); cbn [negb snd]; apply Hstep; cbn; rewrite ?app_nil_r, ?app_assoc; repeat first [done|apply prefix_app_r].
  - apply Hstep; cbn; [done|]. rewrite app_assoc. by apply prefix_app_r.
Qed.

Lemma durable_fresh mode b : durable mode (mkDisk b [] []).
Proof. destruct mode; cbn; unfold dk_all; cbn; by rewrite ?app_nil_r. Qed.

Lemma append_all_durable rs : forall w w' d,
  w_file w = Some d -> append_all w rs = Some w' -> durable (w_mode w) d ->
  exists d', w_file w' = Some d' /\ w_mode w' = w_mode w /\ dk_all d' = dk_all d ++ log_bytes (map fst rs) /\ durable (w_mode w) d'.
Proof.
  induction rs as [|[r io] rs IH]; intros w w' d Hf Ha Hd; cbn [append_all] in Ha.
  { injection Ha as <-. exists d. cbn. by rewrite app_nil_r. }
  pose proof (append_durable r io w d Hf) as Hdur. destruct (append_extends r io w d Hf) as (d0 & _ & _ & _ & _ & Hm & _).
  destruct (append r io w) as [[] w1]; [|done]. destruct (Hdur eq_refl) as (d1 & Hf1 & Hall & Hmode). cbn [snd] in *. rewrite <- Hm in Hmode.
  destruct (IH w1 w' d1 Hf1 Ha Hmode) as (d' & Hf' & Hm' & Hall' & Hd'). exists d'. split; [done|]. split; [congruence|]. rewrite Hm in Hd'. split; [|done].
  rewrite Hall', Hall. unfold log_bytes. cbn [map concat fst]. by rewrite app_assoc.
Qed.

(** The file after an interrupted append on a durable log. *)
Lemma interrupted_append r io w d2 d contents :
  w_mode w <> BufferedOnly -> w_file w = Some d -> durable (w_mode w) d -> w_file (append r io w).2 = Some d2 -> left_behind (w_mode w) d2 contents ->
  exists j, contents = dk_all d ++ take j (record_frame r) /\ (j <= length (record_frame r))%nat.
Proof.
  intros Hb Hf Hd Hf2 [Hlo Hhi]. destruct (append_extends r io w d Hf) as (d1 & suffix & Hd1 & Hall & [rest Hpre] & _).
  destruct (append_safe (w_mode w) r io w d Hf) as (d1' & Hd1' & Hsafe). rewrite Hf2 in Hd1, Hd1'. injection Hd1 as <-. injection Hd1' as <-.
  assert (safe_bytes (w_mode w) d = dk_all d) as Heq by (by destruct (w_mode w)). rewrite Heq in Hsafe. rewrite Hall in Hhi.
  assert (dk_all d `prefix_of` contents) as [part ->] by (by etransitivity). apply prefix_app_inv in Hhi. destruct Hhi as [more ->]. exists (length part).
  rewrite Hpre, <- !app_assoc, !length_app, take_app_length. split; [done|lia].
Qed.
