(* ===== verification/Engine.v ===== *)
(** * Engine: [qsl::engine::MatchingEngine]

    include/qsl/engine/{events,matching_engine}.hpp and
    src/engine/matching_engine.cpp: symbol interning, one book per symbol, and
    the sequence-numbered event stream.  The engine is written against the
    [BookStore] interface, so everything below holds for every storage. *)
From S2P Require Import Prelude Core Book BookSpec Command.

(** ** events.hpp *)

Inductive EngineEvent :=
| OrderAccepted (seq : SeqNo) (symbol : SymbolId) (order_id : OrderId)
| OrderCanceled (seq : SeqNo) (symbol : SymbolId) (order_id : OrderId)
| OrderModified (seq : SeqNo) (symbol : SymbolId) (order_id : OrderId)
| TradeEvent (seq : SeqNo) (symbol : SymbolId) (taker_id maker_id : OrderId) (price : Price)
    (quantity : Quantity).

#[export] Instance EngineEvent_eq_dec : EqDecision EngineEvent.
Proof. solve_decision. Defined.

Definition seq_of (event : EngineEvent) : SeqNo :=
  match event with
  | OrderAccepted s _ _ | OrderCanceled s _ _ | OrderModified s _ _ | TradeEvent s _ _ _ _ _ => s
  end.
Definition symbol_of (event : EngineEvent) : SymbolId :=
  match event with
  | OrderAccepted _ s _ | OrderCanceled _ s _ | OrderModified _ s _ | TradeEvent _ s _ _ _ _ => s
  end.

(** ** matching_engine.hpp *)

Record SymbolRegistry := mkSymbolRegistry {
  ids_ : gmap string SymbolId;
  next_ : SymbolId
}.

Record SymbolSnapshot := mkSymbolSnapshot {
  ss_symbol : SymbolId;
  ss_best_bid : option Price;
  ss_best_ask : option Price;
  ss_order_count : Z;
  ss_bids : list LevelView;
  ss_asks : list LevelView
}.

Record EngineSnapshot := mkEngineSnapshot {
  es_last_seq : SeqNo;
  es_symbols : list SymbolSnapshot
}.

#[export] Instance SymbolSnapshot_eq_dec : EqDecision SymbolSnapshot.
Proof. solve_decision. Defined.
#[export] Instance EngineSnapshot_eq_dec : EqDecision EngineSnapshot.
Proof. solve_decision. Defined.

(** [books_] is a [std::map] (iterated in symbol order by [snapshot]); [events_]
    is the scratch buffer whose reference the mutators return. *)
Record MatchingEngine (B : Type) := mkMatchingEngine {
  registry_ : SymbolRegistry;
  books_ : list (SymbolId * B);
  seq_ : SeqNo;
  book_storage_ : Storage;
  events_ : list EngineEvent
}.
Arguments mkMatchingEngine {B}.
Arguments registry_ {B}.
Arguments books_ {B}.
Arguments seq_ {B}.
Arguments book_storage_ {B}.
Arguments events_ {B}.

(** ** matching_engine.cpp *)

Definition intern (r : SymbolRegistry) (name : string) : SymbolId * SymbolRegistry :=
  match ids_ r !! name with
  | Some id => (id, r)
  | None => (next_ r, mkSymbolRegistry (<[name := next_ r]> (ids_ r)) (u32 (next_ r + 1)))
  end.

Definition registry_find (r : SymbolRegistry) (name : string) : option SymbolId := ids_ r !! name.

Section Engine.
Context {B : Type} `{BookStore B}.
Implicit Types e : MatchingEngine B.

Definition new_engine (storage : Storage) : MatchingEngine B :=
  mkMatchingEngine (mkSymbolRegistry ∅ 0) [] 0 storage [].

Definition set_books (books : list (SymbolId * B)) e : MatchingEngine B :=
  mkMatchingEngine (registry_ e) books (seq_ e) (book_storage_ e) (events_ e).

(** [books_] ascending in the symbol id ([std::less]). *)
Definition symbol_before (a b : SymbolId) : bool := a <? b.

Definition register_symbol e (name : string) : SymbolId * MatchingEngine B :=
  let '(id, registry) := intern (registry_ e) name in
  (id, mkMatchingEngine registry
         (om_try_emplace symbol_before id (bs_new (book_storage_ e)) (books_ e))
         (seq_ e) (book_storage_ e) (events_ e)).

Definition symbol_id e (name : string) : option SymbolId := registry_find (registry_ e) name.

Definition find_book e (symbol : SymbolId) : option B := om_find symbol (books_ e).

Definition reset_events e : MatchingEngine B :=
  mkMatchingEngine (registry_ e) (books_ e) (seq_ e) (book_storage_ e) [].

(** [events.push_back(Event{next_seq(), ..})]. *)
Definition emit (event : SeqNo -> EngineEvent) e : MatchingEngine B :=
  let seq := u64 (seq_ e + 1) in
  mkMatchingEngine (registry_ e) (books_ e) seq (book_storage_ e) (events_ e ++ [event seq]).

(** The book behind the pointer [find_book] returned, updated in place. *)
Definition put_book (symbol : SymbolId) (book : B) e : MatchingEngine B :=
  set_books (om_alter (fun _ => book) symbol (books_ e)) e.

(** The loop over the trades of one operation. *)
Definition emit_trades (symbol : SymbolId) (trades : list Trade) e : MatchingEngine B :=
  fold_left (fun e t => emit (fun s => TradeEvent s symbol (t_taker_id t) (t_maker_id t) (t_price t)
                                          (t_quantity t)) e) trades e.

(** The mutators return the engine; the event list a caller sees is its
    [events_], the buffer the C++ functions return by reference. *)
Definition new_limit e (symbol : SymbolId) (id : OrderId) (side : Side) (price : Price)
    (quantity : Quantity) (tif : TimeInForce) : MatchingEngine B :=
  let e := reset_events e in
  match find_book e symbol with
  | None => e
  | Some book =>
      if bs_contains book id then e
      else if negb (bs_can_store_limit book side price quantity tif) then e
      else
        let e := emit (fun s => OrderAccepted s symbol id) e in
        let '(trades, book) := bs_add_limit book id side price quantity tif in
        emit_trades symbol trades (put_book symbol book e)
  end.

Definition new_market e (symbol : SymbolId) (id : OrderId) (side : Side) (quantity : Quantity) :
    MatchingEngine B :=
  let e := reset_events e in
  match find_book e symbol with
  | None => e
  | Some book =>
      if bs_contains book id then e
      else
        let e := emit (fun s => OrderAccepted s symbol id) e in
        let '(trades, book) := bs_add_market book id side quantity in
        emit_trades symbol trades (put_book symbol book e)
  end.

Definition cancel e (symbol : SymbolId) (id : OrderId) : MatchingEngine B :=
  let e := reset_events e in
  match find_book e symbol with
  | None => e
  | Some book =>
      let '(canceled, book) := bs_cancel book id in
      let e := put_book symbol book e in
      if canceled then emit (fun s => OrderCanceled s symbol id) e else e
  end.

Definition modify e (symbol : SymbolId) (id : OrderId) (new_price : Price)
    (new_quantity : Quantity) : MatchingEngine B :=
  let e := reset_events e in
  match find_book e symbol with
  | None => e
  | Some book =>
      if negb (bs_contains book id) then e
      else if negb (bs_can_apply_modify book id new_price new_quantity) then e
      else
        let e := emit (fun s => OrderModified s symbol id) e in
        let '(trades, book) := bs_modify book id new_price new_quantity in
        emit_trades symbol trades (put_book symbol book e)
  end.

Definition last_seq e : SeqNo := seq_ e.

Definition has_symbol e (symbol : SymbolId) : bool := bool_decide (is_Some (om_find symbol (books_ e))).

Definition resting_orders e (symbol : SymbolId) : list Order :=
  match om_find symbol (books_ e) with None => [] | Some b => bs_resting_orders b end.

Definition contains e (symbol : SymbolId) (id : OrderId) : bool :=
  match om_find symbol (books_ e) with None => false | Some b => bs_contains b id end.

Definition best_bid e (symbol : SymbolId) : option Price :=
  match om_find symbol (books_ e) with None => None | Some b => bs_best_bid b end.
Definition best_ask e (symbol : SymbolId) : option Price :=
  match om_find symbol (books_ e) with None => None | Some b => bs_best_ask b end.

Definition fill_count e (symbol : SymbolId) (side : Side) (price : Price) (type : OrderType)
    (quantity : Quantity) : Z :=
  match om_find symbol (books_ e) with
  | None => 0
  | Some b => bs_fill_count b side price (bool_decide (type = Market)) quantity
  end.

Definition can_store_limit e (symbol : SymbolId) (side : Side) (price : Price)
    (quantity : Quantity) (tif : TimeInForce) : bool :=
  match om_find symbol (books_ e) with
  | None => false
  | Some b => bs_can_store_limit b side price quantity tif
  end.

Definition can_apply_modify e (symbol : SymbolId) (id : OrderId) (new_price : Price)
    (new_quantity : Quantity) : bool :=
  match om_find symbol (books_ e) with
  | None => false
  | Some b => bs_can_apply_modify b id new_price new_quantity
  end.

Definition snapshot e : EngineSnapshot :=
  mkEngineSnapshot (seq_ e)
    (map (fun s => mkSymbolSnapshot s.1 (bs_best_bid s.2) (bs_best_ask s.2) (bs_order_count s.2)
                     (bs_bid_levels s.2) (bs_ask_levels s.2)) (books_ e)).

(** ** replay::apply (src/replay/recovery.cpp)

    One recorded command against the engine, with a copy of the events. *)
Definition apply e (c : Command) : list EngineEvent * MatchingEngine B :=
  match c with
  | RegisterSymbol name => ([], (register_symbol e name).2)
  | NewLimit symbol id side price quantity tif =>
      let e := new_limit e symbol id side price quantity tif in (events_ e, e)
  | NewMarket symbol id side quantity =>
      let e := new_market e symbol id side quantity in (events_ e, e)
  | Cancel symbol id => let e := cancel e symbol id in (events_ e, e)
  | Modify symbol id price quantity =>
      let e := modify e symbol id price quantity in (events_ e, e)
  end.

(** A command stream, the produced events appended in order. *)
Fixpoint apply_all e (cmds : list Command) : list EngineEvent * MatchingEngine B :=
  match cmds with
  | [] => ([], e)
  | c :: cmds' =>
      let '(produced, e1) := apply e c in
      let '(events, e2) := apply_all e1 cmds' in
      (produced ++ events, e2)
  end.
End Engine.
