(* ===== verification/EngineSpec.v ===== *)
(** * EngineSpec: the engine over abstract books

    The engine with every book replaced by the flat book of BookSpec, and the
    proof that [MatchingEngine] over any lawful storage computes the same event
    stream and the same books.  What a storage can refuse (a full pool, a price
    outside the band) appears as the admission bit of [a_apply]. *)
From S2P Require Import Prelude Core Book BookSpec Command Engine.

Record AEngine := mkAEngine {
  ae_registry : SymbolRegistry;
  ae_books : list (SymbolId * ABook);
  ae_seq : SeqNo
}.

(** Events in order, each with the next sequence number. *)
Fixpoint number (seq : SeqNo) (evs : list (SeqNo -> EngineEvent)) : list EngineEvent :=
  match evs with
  | [] => []
  | f :: r => f (u64 (seq + 1)) :: number (u64 (seq + 1)) r
  end.

Definition trade_event (symbol : SymbolId) (t : Trade) (seq : SeqNo) : EngineEvent :=
  TradeEvent seq symbol (t_taker_id t) (t_maker_id t) (t_price t) (t_quantity t).

(** Replace the book of [symbol] and emit [evs]. *)
Definition a_respond (ae : AEngine) (symbol : SymbolId) (b : ABook)
    (evs : list (SeqNo -> EngineEvent)) : list EngineEvent * AEngine :=
  (number (ae_seq ae) evs,
   mkAEngine (ae_registry ae) (om_alter (fun _ => b) symbol (ae_books ae))
     (u64 (ae_seq ae + Z.of_nat (length evs)))).

Definition a_apply (admits : bool) (ae : AEngine) (c : Command) : list EngineEvent * AEngine :=
  match c with
  | RegisterSymbol name =>
      let '(id, registry) := intern (ae_registry ae) name in
      ([], mkAEngine registry (om_try_emplace symbol_before id a_empty (ae_books ae)) (ae_seq ae))
  | NewLimit symbol id side price quantity tif =>
      match om_find symbol (ae_books ae) with
      | None => ([], ae)
      | Some b =>
          if a_contains b id || negb admits then ([], ae)
          else
            let '(ts, b') := a_add_limit b id side price quantity tif in
            a_respond ae symbol b' ((fun s => OrderAccepted s symbol id) :: map (trade_event symbol) ts)
      end
  | NewMarket symbol id side quantity =>
      match om_find symbol (ae_books ae) with
      | None => ([], ae)
      | Some b =>
          if a_contains b id then ([], ae)
          else
            let '(ts, b') := a_add_market b id side quantity in
            a_respond ae symbol b' ((fun s => OrderAccepted s symbol id) :: map (trade_event symbol) ts)
      end
  | Cancel symbol id =>
      match om_find symbol (ae_books ae) with
      | None => ([], ae)
      | Some b =>
          if a_contains b id
          then a_respond ae symbol (a_remove id b) [fun s => OrderCanceled s symbol id]
          else ([], ae)
      end
  | Modify symbol id price quantity =>
      match om_find symbol (ae_books ae) with
      | None => ([], ae)
      | Some b =>
          if negb (a_contains b id) || negb admits then ([], ae)
          else
            let '(ts, b') := a_modify b id price quantity in
            a_respond ae symbol b' ((fun s => OrderModified s symbol id) :: map (trade_event symbol) ts)
      end
  end.

Definition a_snapshot (ae : AEngine) : EngineSnapshot :=
  mkEngineSnapshot (ae_seq ae)
    (map (fun s => mkSymbolSnapshot s.1 (a_best (a_bids s.2)) (a_best (a_asks s.2))
                     (Z.of_nat (length (a_orders s.2))) (a_levels (a_bids s.2)) (a_levels (a_asks s.2)))
       (ae_books ae)).

(** ** Numbering *)

Lemma u64_u64_add a b : u64 (u64 a + b) = u64 (a + b).
Proof. unfold u64, wrap. by rewrite Zplus_mod_idemp_l. Qed.

Lemma u64_small z : 0 <= z < 2 ^ 64 -> u64 z = z.
Proof. intros. by apply Z.mod_small. Qed.

Lemma number_app seq l l' :
  number seq (l ++ l') = number seq l ++ number (u64 (seq + Z.of_nat (length l))) l'.
Proof.
  revert seq. induction l as [|f l IH]; intros seq; simpl.
  - destruct l'; simpl; [done|]. by rewrite !u64_u64_add, Z.add_0_r.
  - rewrite IH. do 2 f_equal. f_equal. rewrite u64_u64_add. f_equal. lia.
Qed.

Section Refinement.
Context {B : Type} `{HL : BookStoreLaws B}.
Implicit Types e : MatchingEngine B.

Definition e_abs e : AEngine :=
  mkAEngine (registry_ e) (om_map bs_abs (books_ e)) (seq_ e).

Record engine_wf e : Prop := {
  ew_sorted : om_sorted symbol_before (books_ e);
  ew_books : Forall (fun s => bs_wf s.2) (books_ e);
  ew_seq : in_u64 (seq_ e)
}.

Definition engine_room e : Prop := Forall (fun s => bs_room s.2) (books_ e).

(** The admission check the engine runs for a command. *)
Definition engine_admits e (c : Command) : bool :=
  match c with
  | NewLimit symbol _ side price quantity tif => can_store_limit e symbol side price quantity tif
  | Modify symbol id price quantity => can_apply_modify e symbol id price quantity
  | _ => true
  end.

(** ** Emission *)

Definition emitted (evs : list (SeqNo -> EngineEvent)) e : MatchingEngine B :=
  mkMatchingEngine (registry_ e) (books_ e) (u64 (seq_ e + Z.of_nat (length evs))) (book_storage_ e)
    (events_ e ++ number (seq_ e) evs).

Lemma emit_trades_spec symbol ts : forall e, in_u64 (seq_ e) ->
  emit_trades symbol ts e = emitted (map (trade_event symbol) ts) e.
Proof.
  induction ts as [|t ts IH]; intros e Hs.
  - unfold emitted. simpl. rewrite app_nil_r, Z.add_0_r, u64_small by done. by destruct e.
  - unfold emit_trades in *. cbn [fold_left]. rewrite IH by (by apply Z.mod_pos_bound).
    unfold emitted, emit. simpl. f_equal.
    + rewrite u64_u64_add. f_equal. lia.
    + by rewrite <- app_assoc.
Qed.

Lemma emit_trades_after symbol ts f book e :
  in_u64 (seq_ e) ->
  emit_trades symbol ts (put_book symbol book (emit f e)) =
  emitted (f :: map (trade_event symbol) ts) (put_book symbol book e).
Proof.
  intros Hs. rewrite emit_trades_spec by (simpl; by apply Z.mod_pos_bound).
  unfold emitted, emit, put_book, set_books. simpl. f_equal.
  - rewrite u64_u64_add. f_equal. lia.
  - by rewrite <- app_assoc.
Qed.

(** ** One command *)

Lemma find_book_wf e symbol b :
  engine_wf e -> engine_room e -> om_find symbol (books_ e) = Some b -> bs_wf b /\ bs_room b.
Proof.
  intros Hwf Hroom Hf. apply om_find_Some in Hf as (l & r & Hb & _).
  pose proof (ew_books _ Hwf) as Hw. unfold engine_room in Hroom. rewrite Hb in Hw, Hroom.
  apply Forall_app in Hw as [_ [? _]%Forall_cons], Hroom as [_ [? _]%Forall_cons]. done.
Qed.

Lemma engine_wf_emitted evs symbol b e :
  engine_wf e -> bs_wf b -> engine_wf (emitted evs (put_book symbol b e)).
Proof.
  intros [Hs Hb Hq] Hw. split; simpl.
  - apply om_sorted_keys. rewrite om_alter_keys. by apply om_sorted_keys.
  - by apply om_alter_Forall.
  - by apply Z.mod_pos_bound.
Qed.

Lemma e_abs_emitted evs symbol b e :
  events_ e = [] ->
  (events_ (emitted evs (put_book symbol b e)), e_abs (emitted evs (put_book symbol b e))) =
  a_respond (e_abs e) symbol (bs_abs b) evs.
Proof.
  intros He. unfold a_respond, e_abs, emitted, put_book. simpl. rewrite He. f_equal. f_equal.
  by apply om_alter_map.
Qed.

Lemma reset_events_wf e : engine_wf e -> engine_wf (reset_events e).
Proof. by intros []. Qed.

Lemma put_book_same symbol b e :
  om_find symbol (books_ e) = Some b -> put_book symbol b e = e.
Proof.
  intros Hf. unfold put_book, set_books. destruct e as [r books q st ev]. simpl in *. f_equal.
  induction books as [|[s b'] books IH]; simpl in *; [done|]. destruct (Z.eqb_spec symbol s); [by simplify_eq|].
  by rewrite IH.
Qed.

(** A command the engine refuses only clears the event buffer. *)
Lemma refused_refines e :
  engine_wf e -> engine_wf (reset_events e) /\
  (events_ (reset_events e), e_abs (reset_events e)) = ([], e_abs e).
Proof. intros Hwf. split; [by apply reset_events_wf|done]. Qed.

(** A command that replaces the book [b] of [symbol] by [b'] and emits [evs]. *)
Lemma applied_refines e symbol b' evs :
  engine_wf e -> bs_wf b' ->
  let e' := emitted evs (put_book symbol b' (reset_events e)) in
  engine_wf e' /\ (events_ e', e_abs e') = a_respond (e_abs e) symbol (bs_abs b') evs.
Proof.
  intros Hwf Hb. split; [by apply engine_wf_emitted; [apply reset_events_wf|]|].
  by rewrite e_abs_emitted.
Qed.

Lemma new_limit_refines e symbol id side price q tif :
  engine_wf e -> engine_room e -> is_valid_side side = true -> in_u32 q ->
  let e' := new_limit e symbol id side price q tif in
  engine_wf e' /\ (events_ e', e_abs e') =
    a_apply (can_store_limit e symbol side price q tif) (e_abs e) (NewLimit symbol id side price q tif).
Proof.
  intros Hwf Hroom Hside Hq. unfold new_limit, a_apply, can_store_limit, find_book.
  cbn [reset_events books_ e_abs ae_books]. rewrite om_find_map.
  destruct (om_find symbol (books_ e)) as [b|] eqn:Ef; [|by apply refused_refines].
  destruct (find_book_wf _ _ _ Hwf Hroom Ef) as [Hb Hr]. cbn [fmap option_fmap option_map].
  rewrite bs_contains_ok by done. destruct (a_contains (bs_abs b) id); [by apply refused_refines|].
  destruct (bs_can_store_limit b side price q tif) eqn:Es; [|by apply refused_refines].
  destruct (bs_add_limit_ok b id side price q tif) as [Hb' Ha]; try done. cbn [orb negb].
  destruct (bs_add_limit b id side price q tif) as [ts b']. rewrite <- Ha. cbn [fst snd] in *.
  rewrite emit_trades_after by apply Hwf. by apply applied_refines.
Qed.

Lemma new_market_refines e symbol id side q :
  engine_wf e -> engine_room e -> is_valid_side side = true -> in_u32 q ->
  let e' := new_market e symbol id side q in
  engine_wf e' /\ (events_ e', e_abs e') = a_apply true (e_abs e) (NewMarket symbol id side q).
Proof.
  intros Hwf Hroom Hside Hq. unfold new_market, a_apply, find_book.
  cbn [reset_events books_ e_abs ae_books]. rewrite om_find_map.
  destruct (om_find symbol (books_ e)) as [b|] eqn:Ef; [|by apply refused_refines].
  destruct (find_book_wf _ _ _ Hwf Hroom Ef) as [Hb Hr]. cbn [fmap option_fmap option_map].
  rewrite bs_contains_ok by done. destruct (a_contains (bs_abs b) id); [by apply refused_refines|].
  destruct (bs_add_market_ok b id side q) as [Hb' Ha]; try done.
  destruct (bs_add_market b id side q) as [ts b']. rewrite <- Ha. cbn [fst snd] in *.
  rewrite emit_trades_after by apply Hwf. by apply applied_refines.
Qed.

Lemma cancel_refines_engine e symbol id :
  engine_wf e -> engine_room e ->
  let e' := cancel e symbol id in
  engine_wf e' /\ (events_ e', e_abs e') = a_apply true (e_abs e) (Cancel symbol id).
Proof.
  intros Hwf Hroom. unfold cancel, a_apply, find_book.
  cbn [reset_events books_ e_abs ae_books]. rewrite om_find_map.
  destruct (om_find symbol (books_ e)) as [b|] eqn:Ef; [|by apply refused_refines].
  destruct (find_book_wf _ _ _ Hwf Hroom Ef) as [Hb Hr]. cbn [fmap option_fmap option_map].
  destruct (bs_cancel_ok b id) as [Hb' Ha]; try done. unfold a_cancel in Ha.
  destruct (bs_cancel b id) as [canceled b']. cbn [fst snd] in *.
  destruct (a_contains (bs_abs b) id); injection Ha as -> Habs.
  - rewrite <- Habs. by apply (applied_refines e symbol b' [fun s => OrderCanceled s symbol id]).
  - pose proof (engine_wf_emitted [] symbol b' (reset_events e) (reset_events_wf e Hwf) Hb') as Hw.
    split; [destruct Hw; split; try done; apply Hwf|]. unfold e_abs, put_book. simpl. f_equal. f_equal.
    rewrite (om_alter_map bs_abs _ (fun _ => bs_abs b') _ _ (fun _ => eq_refl)), Habs.
    clear -Ef. induction (books_ e) as [|[s b1] l IH]; simpl in *; [done|].
    destruct (Z.eqb_spec symbol s); [by simplify_eq|]. by rewrite IH.
Qed.

Lemma modify_refines_engine e symbol id price q :
  engine_wf e -> engine_room e -> in_u32 q ->
  let e' := modify e symbol id price q in
  engine_wf e' /\ (events_ e', e_abs e') =
    a_apply (can_apply_modify e symbol id price q) (e_abs e) (Modify symbol id price q).
Proof.
  intros Hwf Hroom Hq. unfold modify, a_apply, can_apply_modify, find_book.
  cbn [reset_events books_ e_abs ae_books]. rewrite om_find_map.
  destruct (om_find symbol (books_ e)) as [b|] eqn:Ef; [|by apply refused_refines].
  destruct (find_book_wf _ _ _ Hwf Hroom Ef) as [Hb Hr]. cbn [fmap option_fmap option_map].
  rewrite bs_contains_ok by done. destruct (a_contains (bs_abs b) id); [|by apply refused_refines].
  destruct (bs_can_apply_modify b id price q) eqn:Es; [|by apply refused_refines].
  destruct (bs_modify_ok b id price q) as [Hb' Ha]; try done. cbn [orb negb].
  destruct (bs_modify b id price q) as [ts b']. rewrite <- Ha. cbn [fst snd] in *.
  rewrite emit_trades_after by apply Hwf. by apply applied_refines.
Qed.

Lemma register_symbol_refines e name :
  engine_wf e ->
  let e' := (register_symbol e name).2 in
  engine_wf e' /\ ([], e_abs e') = a_apply true (e_abs e) (RegisterSymbol name).
Proof.
  intros [Hs Hb Hq]. unfold register_symbol, a_apply. simpl.
  destruct (intern (registry_ e) name) as [id reg]. destruct (bs_new_ok (book_storage_ e)) as [Hn Ha].
  split; [split; simpl; [|by apply om_try_emplace_Forall|done]|].
  - apply om_try_emplace_sorted; unfold symbol_before; [lia|lia|done].
  - unfold e_abs. simpl. by rewrite om_try_emplace_map, Ha.
Qed.

Lemma apply_refines e c :
  engine_wf e -> engine_room e -> command_ok c ->
  let r := apply e c in
  engine_wf r.2 /\ (r.1, e_abs r.2) = a_apply (engine_admits e c) (e_abs e) c.
Proof.
  intros Hwf Hroom Hok. destruct c; cbn [command_ok] in Hok.
  - by apply register_symbol_refines.
  - destruct Hok as (_ & _ & Hs & _ & Hq & _). by apply new_limit_refines.
  - destruct Hok as (_ & _ & Hs & Hq). by apply new_market_refines.
  - by apply cancel_refines_engine.
  - destruct Hok as (_ & _ & _ & Hq). by apply modify_refines_engine.
Qed.

Lemma snapshot_spec e : engine_wf e -> snapshot e = a_snapshot (e_abs e).
Proof.
  intros [_ Hb _]. unfold snapshot, a_snapshot, e_abs, om_map. cbn [ae_seq ae_books]. f_equal.
  rewrite map_map. apply map_ext_in. intros [s b] Hin. cbn [fst snd].
  rewrite Forall_forall in Hb. apply list_elem_of_In, Hb in Hin. simpl in Hin.
  by rewrite bs_best_bid_ok, bs_best_ask_ok, bs_order_count_ok, bs_bid_levels_ok, bs_ask_levels_ok.
Qed.

Lemma new_engine_wf storage : engine_wf (new_engine storage).
Proof. split; simpl; [constructor|constructor|done]. Qed.

(** ** Command streams *)

(** Runs in which every book has room when a command arrives.  The label is the
    command with the engine's admission decision. *)
Inductive engine_run : MatchingEngine B -> list (bool * Command) -> list EngineEvent ->
    MatchingEngine B -> Prop :=
| engine_run_nil e : engine_run e [] [] e
| engine_run_cons e c produced e1 labels events e2 :
    command_ok c -> engine_room e -> apply e c = (produced, e1) ->
    engine_run e1 labels events e2 ->
    engine_run e ((engine_admits e c, c) :: labels) (produced ++ events) e2.
End Refinement.

Fixpoint a_apply_all (ae : AEngine) (labels : list (bool * Command)) : list EngineEvent * AEngine :=
  match labels with
  | [] => ([], ae)
  | (admits, c) :: labels' =>
      let '(produced, ae1) := a_apply admits ae c in
      let '(events, ae2) := a_apply_all ae1 labels' in
      (produced ++ events, ae2)
  end.

Definition a_engine_empty : AEngine := mkAEngine (mkSymbolRegistry ∅ 0) [] 0.

Lemma engine_run_refines {B} `{BookStoreLaws B} (e : MatchingEngine B) labels events e' :
  engine_wf e -> engine_run e labels events e' ->
  engine_wf e' /\ a_apply_all (e_abs e) labels = (events, e_abs e').
Proof.
  intros Hwf Hr. induction Hr as [e|e c produced e1 labels events e2 Hok Hroom Ha Hr IH]; [done|].
  pose proof (apply_refines e c Hwf Hroom Hok) as [Hwf1 He]. rewrite Ha in Hwf1, He.
  destruct (IH Hwf1) as [Hwf2 Hrun]. split; [done|]. simpl in He |- *. by rewrite <- He, Hrun.
Qed.

(** An unbounded storage: it always has room and its admission checks accept. *)
Definition unbounded (B : Type) `{BookStoreLaws B} : Prop :=
  (forall b : B, bs_room b) /\
  (forall (b : B) side price q tif, bs_can_store_limit b side price q tif = true) /\
  (forall (b : B) id price q, bs_can_apply_modify b id price q = true).

(** Over an unbounded storage the admission checks decide nothing. *)
Lemma unbounded_admits {B} `{BookStoreLaws B} (e : MatchingEngine B) c :
  unbounded B -> a_apply (engine_admits e c) (e_abs e) c = a_apply true (e_abs e) c.
Proof.
  intros (_ & Hl & Hm). destruct c as [name|symbol id side price q tif|symbol id side q|symbol id|symbol id price q];
    cbn [engine_admits a_apply]; try done; cbn [e_abs ae_books].
  - unfold can_store_limit. rewrite om_find_map. destruct (om_find symbol (books_ e)); cbn; [by rewrite Hl|done].
  - unfold can_apply_modify. rewrite om_find_map. destruct (om_find symbol (books_ e)); cbn; [by rewrite Hm|done].
Qed.

Lemma apply_all_refines {B} `{BookStoreLaws B} cmds : forall e : MatchingEngine B,
  unbounded B -> engine_wf e -> Forall command_ok cmds ->
  let r := apply_all e cmds in
  engine_wf r.2 /\ a_apply_all (e_abs e) (map (pair true) cmds) = (r.1, e_abs r.2).
Proof.
  induction cmds as [|c cmds IH]; intros e Hu Hwf Hok; [done|].
  apply Forall_cons in Hok as [Hc Hok]. cbn [apply_all map a_apply_all].
  assert (engine_room e) as Hroom by (apply Forall_true; intros; apply Hu).
  pose proof (apply_refines e c Hwf Hroom Hc) as [Hwf1 He]. rewrite unbounded_admits in He by done.
  destruct (apply e c) as [produced e1]. cbn [fst snd] in *. rewrite <- He.
  specialize (IH e1 Hu Hwf1 Hok). destruct (apply_all e1 cmds) as [events e2].
  cbn [fst snd] in *. destruct IH as [Hwf2 IH]. by rewrite IH.
Qed.

(** ** Invariants of the abstract engine *)

Definition a_engine_wf (ae : AEngine) : Prop := Forall (fun s => a_wf s.2) (ae_books ae).

Lemma e_abs_wf {B} `{BookStoreLaws B} (e : MatchingEngine B) : engine_wf e -> a_engine_wf (e_abs e).
Proof.
  intros [_ Hb _]. unfold a_engine_wf, e_abs, om_map. simpl. apply Forall_map.
  eapply Forall_impl; [exact Hb|]. intros [s b]. apply bs_abs_wf.
Qed.

(** ** Sequence numbers, for every storage *)

Definition numbered (f : SeqNo -> EngineEvent) : Prop := forall s, seq_of (f s) = s.

Section Numbering.
Context {B : Type} `{BookStore B}.
Implicit Types e : MatchingEngine B.

(** [e'] continues [e] by the numbered events [evs]. *)
Definition continues e (produced : list EngineEvent) e' : Prop :=
  exists evs, Forall numbered evs /\ produced = number (seq_ e) evs /\
    seq_ e' = u64 (seq_ e + Z.of_nat (length evs)).

Lemma continues_nil e e' : in_u64 (seq_ e) -> seq_ e' = seq_ e -> continues e [] e'.
Proof. intros Hs He. exists []. simpl. by rewrite Z.add_0_r, u64_small. Qed.

Lemma continues_emit_trades e f symbol b ts :
  numbered f -> in_u64 (seq_ e) -> events_ e = [] ->
  let e' := emit_trades symbol ts (put_book symbol b (emit f e)) in
  continues e (events_ e') e'.
Proof.
  intros Hf Hs He. rewrite emit_trades_after by done. exists (f :: map (trade_event symbol) ts).
  split; [constructor; [done|]; apply Forall_map; by apply Forall_true|].
  unfold emitted. simpl. by rewrite He.
Qed.

Lemma apply_continues e c : in_u64 (seq_ e) -> continues e (apply e c).1 (apply e c).2.
Proof.
  intros Hs. destruct c as [name|symbol id side price q tif|symbol id side q|symbol id|symbol id price q];
    cbn [apply fst snd].
  - apply continues_nil; [done|]. unfold register_symbol. by destruct (intern _ _).
  - unfold new_limit. destruct (find_book _ _) as [b|]; [|by apply continues_nil].
    repeat (case_if; [by apply continues_nil|]). destruct (bs_add_limit _ _ _ _ _ _) as [ts b'].
    by apply (continues_emit_trades (reset_events e)).
  - unfold new_market. destruct (find_book _ _) as [b|]; [|by apply continues_nil].
    case_if; [by apply continues_nil|]. destruct (bs_add_market _ _ _ _) as [ts b'].
    by apply (continues_emit_trades (reset_events e)).
  - unfold cancel. destruct (find_book _ _) as [b|]; [|by apply continues_nil].
    destruct (bs_cancel b id) as [[] b']; [|by apply continues_nil].
    exists [fun s => OrderCanceled s symbol id]. by repeat constructor.
  - unfold modify. destruct (find_book _ _) as [b|]; [|by apply continues_nil].
    repeat (case_if; [by apply continues_nil|]). destruct (bs_modify _ _ _ _) as [ts b'].
    by apply (continues_emit_trades (reset_events e)).
Qed.

Lemma apply_all_continues cmds : forall e,
  in_u64 (seq_ e) -> continues e (apply_all e cmds).1 (apply_all e cmds).2.
Proof.
  induction cmds as [|c cmds IH]; intros e Hs; simpl; [by apply continues_nil|].
  pose proof (apply_continues e c Hs) as (evs & Hn & Hp & Hq).
  destruct (apply e c) as [produced e1]. simpl in *.
  destruct (IH e1) as (evs2 & Hn2 & Hp2 & Hq2); [rewrite Hq; by apply Z.mod_pos_bound|].
  destruct (apply_all e1 cmds) as [events e2]. simpl in *. exists (evs ++ evs2). split; [by apply Forall_app|].
  rewrite number_app, <- Hq, Hp, Hp2. split; [done|]. rewrite Hq2, Hq, u64_u64_add, length_app. f_equal. lia.
Qed.
End Numbering.

Lemma number_seqs evs : forall seq,
  Forall numbered evs -> 0 <= seq -> seq + Z.of_nat (length evs) < 2 ^ 64 ->
  map seq_of (number seq evs) = seqZ (seq + 1) (Z.of_nat (length evs)).
Proof.
  induction evs as [|f evs IH]; intros seq Hn H0 Hb; [done|]. apply Forall_cons in Hn as [Hf Hn].
  cbn [length] in *. rewrite seqZ_cons by lia. simpl. rewrite Hf, u64_small by lia.
  f_equal. rewrite IH by (done || lia). f_equal; lia.
Qed.

(** ** How many orders and events *)

Lemma number_length evs : forall s, length (number s evs) = length evs.
Proof. induction evs as [|e evs IH]; intros s; cbn; [done|]. by rewrite IH. Qed.

Definition books_small (n : nat) (ae : AEngine) : Prop := Forall (fun s => (length (a_orders s.2) <= n)%nat) (ae_books ae).

Lemma respond_small n ae symbol b' evs :
  books_small n ae -> (length (a_orders b') <= S n)%nat -> (length evs <= S n)%nat ->
  let r := a_respond ae symbol b' evs in (length r.1 <= S n)%nat /\ books_small (S n) r.2.
Proof.
  intros Hb Hb' He. cbn [a_respond fst snd]. split; [by rewrite number_length|]. unfold books_small in *. cbn [ae_books].
  apply (om_alter_Forall (fun b => (length (a_orders b) <= S n)%nat)); [|done]. eapply Forall_impl; [exact Hb|]. cbn. lia.
Qed.

Lemma a_apply_small n ae c :
  books_small n ae -> command_ok c -> let r := a_apply true ae c in (length r.1 <= S n)%nat /\ books_small (S n) r.2.
Proof.
  intros Hb Hok. assert (books_small (S n) ae) as Hb1 by (eapply Forall_impl; [exact Hb|]; cbn; lia).
  assert (forall s b, om_find s (ae_books ae) = Some b -> (length (a_orders b) <= n)%nat) as Hf.
  { intros s b Hs. unfold books_small in Hb. apply om_find_Some in Hs as (l & r & E & _). rewrite E in Hb. by apply Forall_app in Hb as [_ [Hb _]%Forall_cons]. }
  assert ((@length EngineEvent [] <= S n)%nat /\ books_small (S n) ae) as Hnone by (split; [cbn; lia|done]).
  destruct c as [name|symbol id side price q tif|symbol id side q|symbol id|symbol id price q]; cbn [a_apply command_ok] in *.
  - destruct (intern (ae_registry ae) name) as [id r]. cbn. split; [lia|]. unfold books_small in *. cbn.
    apply (om_try_emplace_Forall _ (fun b => (length (a_orders b) <= S n)%nat)); [done|]. cbn. lia.
  - destruct (om_find symbol (ae_books ae)) as [b|] eqn:Eb; [|done]. destruct (_ || _); [done|]. apply Hf in Eb.
    pose proof (a_add_limit_count b id side price q tif) as H1. assert (0 <= q) as Hq by (destruct Hok as (_ & _ & _ & _ & Hq & _); unfold in_u32 in Hq; lia).
    pose proof (a_add_limit_length b id side price q tif Hq) as H2. destruct (a_add_limit b id side price q tif) as [ts b']. cbn in H1, H2.
    apply respond_small; [done|lia|cbn; rewrite List.length_map; lia].
  - destruct (om_find symbol (ae_books ae)) as [b|] eqn:Eb; [|done]. destruct (a_contains b id); [done|]. apply Hf in Eb.
    pose proof (a_add_market_count b id side q) as H1. assert (0 <= q) as Hq by (destruct Hok as (_ & _ & _ & Hq); unfold in_u32 in Hq; lia).
    pose proof (a_add_market_length b id side q Hq) as H2. destruct (a_add_market b id side q) as [ts b']. cbn in H1, H2.
    apply respond_small; [done|lia|cbn; rewrite List.length_map; lia].
  - destruct (om_find symbol (ae_books ae)) as [b|] eqn:Eb; [|done]. destruct (a_contains b id); [|done]. apply Hf in Eb.
    pose proof (a_remove_length id b). apply respond_small; [done|lia|cbn; lia].
  - destruct (om_find symbol (ae_books ae)) as [b|] eqn:Eb; [|done]. destruct (_ || _); [done|]. apply Hf in Eb.
    pose proof (a_modify_count b id price q) as H1. assert (0 <= q) as Hq by (destruct Hok as (_ & _ & _ & Hq); unfold in_u32 in Hq; lia).
    pose proof (a_modify_length b id price q Hq) as H2. destruct (a_modify b id price q) as [ts b']. cbn in H1, H2.
    apply respond_small; [done|lia|cbn; rewrite List.length_map; lia].
Qed.
