(* ===== verification/Feed.v ===== *)
(** * Feed: market data

    include/qsl/feed/{market_data,publisher,sequence_tracker,udp_feed}.hpp and
    src/feed/*.cpp: the market-data messages and their codec, the publisher that
    turns engine events into messages, the gap detector, and the UDP endpoints
    with the results of the socket calls as inputs. *)
From S2P Require Import Prelude Core Endian Book BookSpec Command Protocol Engine EngineSpec.

(** ** market_data.hpp *)

Inductive MarketDataMessage :=
| MdTrade (md_seq : SeqNo) (symbol : SymbolId) (price : Price) (quantity : Quantity)
| MdTopOfBook (md_seq : SeqNo) (symbol : SymbolId) (best_bid best_ask : option Price).

#[export] Instance MarketDataMessage_eq_dec : EqDecision MarketDataMessage.
Proof. solve_decision. Defined.

Definition md_seq_of (msg : MarketDataMessage) : SeqNo :=
  match msg with MdTrade s _ _ _ | MdTopOfBook s _ _ _ => s end.

(** ** market_data.cpp *)

Definition kMdTradeBody : nat := 16.
Definition kMdTopOfBookBody : nat := 22.

Definition flag (present : bool) : Z := if present then 1 else 0.
Definition has_value {A} (o : option A) : bool := match o with Some _ => true | None => false end.

Definition encode_md_trade (md_seq : SeqNo) (symbol : SymbolId) (price : Price) (quantity : Quantity) :
    bytes :=
  let buf := zeros (kHeaderSize + kMdTradeBody) in
  let buf := write_header buf
    (mkMessageHeader MtMdTrade kProtocolVersion (u32 (Z.of_nat kMdTradeBody)) md_seq) in
  let b := kHeaderSize in
  let buf := store_be 4 buf (b + 0) symbol in
  let buf := store_be 8 buf (b + 4) (u64 price) in
  store_be 4 buf (b + 12) quantity.

Definition encode_md_top_of_book (md_seq : SeqNo) (symbol : SymbolId)
    (best_bid best_ask : option Price) : bytes :=
  let buf := zeros (kHeaderSize + kMdTopOfBookBody) in
  let buf := write_header buf
    (mkMessageHeader MtMdTopOfBook kProtocolVersion (u32 (Z.of_nat kMdTopOfBookBody)) md_seq) in
  let b := kHeaderSize in
  let buf := store_be 4 buf (b + 0) symbol in
  let buf := set_byte buf (b + 4) (flag (has_value best_bid)) in
  let buf := store_be 8 buf (b + 5) (u64 (default 0 best_bid)) in
  let buf := set_byte buf (b + 13) (flag (has_value best_ask)) in
  store_be 8 buf (b + 14) (u64 (default 0 best_ask)).

(** [std::visit] over the two overloads of [encode]. *)
Definition encode_md (msg : MarketDataMessage) : bytes :=
  match msg with
  | MdTrade s symbol price quantity => encode_md_trade s symbol price quantity
  | MdTopOfBook s symbol bid ask => encode_md_top_of_book s symbol bid ask
  end.

Definition md_trade_zero : MarketDataMessage := MdTrade 0 0 0 0.
Definition md_top_zero : MarketDataMessage := MdTopOfBook 0 0 None None.

Definition decode_md_trade (frame : bytes) : DecodeResult MarketDataMessage :=
  let hr := decode_header frame in
  if negb (decode_ok hr) then mkDecodeResult (d_error hr) md_trade_zero
  else if negb (bool_decide (h_type (d_value hr) = MtMdTrade))
  then mkDecodeResult UnknownType md_trade_zero
  else if negb (h_body_len (d_value hr) =? Z.of_nat kMdTradeBody)
  then mkDecodeResult BodyLengthMismatch md_trade_zero
  else if (length frame <? kHeaderSize + kMdTradeBody)%nat then mkDecodeResult Truncated md_trade_zero
  else
    let b := kHeaderSize in
    mkDecodeResult DecodeNone
      (MdTrade (h_seq_no (d_value hr)) (load_be 4 frame (b + 0))
         (i64_of_u64 (load_be 8 frame (b + 4))) (load_be 4 frame (b + 12))).

Definition decode_md_top_of_book (frame : bytes) : DecodeResult MarketDataMessage :=
  let hr := decode_header frame in
  if negb (decode_ok hr) then mkDecodeResult (d_error hr) md_top_zero
  else if negb (bool_decide (h_type (d_value hr) = MtMdTopOfBook))
  then mkDecodeResult UnknownType md_top_zero
  else if negb (h_body_len (d_value hr) =? Z.of_nat kMdTopOfBookBody)
  then mkDecodeResult BodyLengthMismatch md_top_zero
  else if (length frame <? kHeaderSize + kMdTopOfBookBody)%nat then mkDecodeResult Truncated md_top_zero
  else
    let b := kHeaderSize in
    mkDecodeResult DecodeNone
      (MdTopOfBook (h_seq_no (d_value hr)) (load_be 4 frame (b + 0))
         (if negb (byte_at frame (b + 4) =? 0) then Some (i64_of_u64 (load_be 8 frame (b + 5))) else None)
         (if negb (byte_at frame (b + 13) =? 0) then Some (i64_of_u64 (load_be 8 frame (b + 14))) else None)).

Definition decode_market_data (frame : bytes) : option MarketDataMessage :=
  let header := decode_header frame in
  if negb (decode_ok header) then None
  else if bool_decide (h_type (d_value header) = MtMdTrade) then
    let r := decode_md_trade frame in if decode_ok r then Some (d_value r) else None
  else if bool_decide (h_type (d_value header) = MtMdTopOfBook) then
    let r := decode_md_top_of_book frame in if decode_ok r then Some (d_value r) else None
  else None.

(** ** sequence_tracker.hpp *)

Record SequenceTracker := mkSequenceTracker { started_ : bool; last_ : SeqNo }.

Definition new_tracker : SequenceTracker := mkSequenceTracker false 0.

Definition observe (t : SequenceTracker) (seq : SeqNo) : Z * SequenceTracker :=
  if negb (started_ t) then (0, mkSequenceTracker true seq)
  else if seq <=? last_ t then (0, t)
  else (seq - last_ t - 1, mkSequenceTracker true seq).

(** ** publisher.hpp, publisher.cpp *)

Record Tob := mkTob { tob_bid : option Price; tob_ask : option Price }.

#[export] Instance Tob_eq_dec : EqDecision Tob.
Proof. solve_decision. Defined.

(** [MarketDataSubscriber]: one virtual call per message. *)
Class Subscriber (Sub : Type) := { on_market_data : Sub -> MarketDataMessage -> Sub }.

Record MarketDataPublisher (Sub : Type) := mkMarketDataPublisher {
  subscribers_ : list Sub;
  last_tob_ : gmap Z Tob;
  md_seq_ : SeqNo
}.
Arguments mkMarketDataPublisher {Sub}.
Arguments subscribers_ {Sub}.
Arguments last_tob_ {Sub}.
Arguments md_seq_ {Sub}.

Section Publisher.
Context {Sub : Type} `{Subscriber Sub} {B : Type} `{BookStore B}.
Implicit Types p : MarketDataPublisher Sub.

Definition new_publisher : MarketDataPublisher Sub := mkMarketDataPublisher [] ∅ 0.

Definition subscribe p (s : Sub) : MarketDataPublisher Sub :=
  mkMarketDataPublisher (subscribers_ p ++ [s]) (last_tob_ p) (md_seq_ p).

Definition md_emit (msg : MarketDataMessage) p : MarketDataPublisher Sub :=
  mkMarketDataPublisher (map (fun s => on_market_data s msg) (subscribers_ p)) (last_tob_ p) (md_seq_ p).

(** [emit(Msg{++md_seq_, ..})]. *)
Definition md_emit_next (msg : SeqNo -> MarketDataMessage) p : MarketDataPublisher Sub :=
  let seq := u64 (md_seq_ p + 1) in
  md_emit (msg seq) (mkMarketDataPublisher (subscribers_ p) (last_tob_ p) seq).

Definition set_tob (symbol : SymbolId) (t : Tob) p : MarketDataPublisher Sub :=
  mkMarketDataPublisher (subscribers_ p) (<[symbol := t]> (last_tob_ p)) (md_seq_ p).

(** One event: a trade message, and the symbol noted on first appearance. *)
Definition publish_event (s : MarketDataPublisher Sub * list SymbolId) (ev : EngineEvent) :
    MarketDataPublisher Sub * list SymbolId :=
  let '(p, touched) := s in
  let symbol := symbol_of ev in
  let p :=
    match ev with
    | TradeEvent _ _ _ _ price quantity => md_emit_next (fun q => MdTrade q symbol price quantity) p
    | _ => p
    end in
  (p, if bool_decide (symbol ∈ touched) then touched else touched ++ [symbol]).

(** One touched symbol: a top-of-book message when it changed. *)
Definition publish_symbol (engine : MatchingEngine B) p (symbol : SymbolId) :
    MarketDataPublisher Sub :=
  let current := mkTob (Engine.best_bid engine symbol) (Engine.best_ask engine symbol) in
  match last_tob_ p !! symbol with
  | None =>
      let p := set_tob symbol current p in
      if has_value (tob_bid current) || has_value (tob_ask current)
      then md_emit_next (fun q => MdTopOfBook q symbol (tob_bid current) (tob_ask current)) p
      else p
  | Some last =>
      if negb (bool_decide (last = current))
      then set_tob symbol current
             (md_emit_next (fun q => MdTopOfBook q symbol (tob_bid current) (tob_ask current)) p)
      else p
  end.

Definition publish p (engine : MatchingEngine B) (events : list EngineEvent) :
    MarketDataPublisher Sub :=
  let '(p, touched) := fold_left publish_event events (p, []) in
  fold_left (publish_symbol engine) touched p.
End Publisher.

(** ** udp_feed.hpp, udp_feed.cpp *)

(** Network byte order on a little-endian host. *)
Definition htons (port : Z) : Z := (port mod 256) * 256 + port / 256.

Record UdpPublisher := mkUdpPublisher {
  up_fd : Z;
  up_dest_addr : Z;
  up_dest_port : Z;
  up_send_failures : Z
}.

(** [parsed]: what [inet_pton] made of the host; [fd]: what [socket] returned. *)
Definition new_udp_publisher (parsed : option Z) (port : Z) (fd : Z) : UdpPublisher :=
  match parsed with
  | None => mkUdpPublisher (-1) 0 0 0
  | Some addr => mkUdpPublisher fd addr (htons port) 0
  end.

Definition udp_publisher_good (u : UdpPublisher) : bool := 0 <=? up_fd u.

(** The datagram handed to the socket, if any; [sent] is [sendto]'s result. *)
Definition udp_on_market_data (u : UdpPublisher) (msg : MarketDataMessage) (sent : Z) :
    UdpPublisher * option bytes :=
  if up_fd u <? 0 then (u, None)
  else
    let b := encode_md msg in
    if (sent <? 0) || negb (sent =? Z.of_nat (length b))
    then (mkUdpPublisher (up_fd u) (up_dest_addr u) (up_dest_port u) (u64 (up_send_failures u + 1)), Some b)
    else (u, Some b).

Record UdpFeedClient := mkUdpFeedClient {
  uc_fd : Z;
  uc_port : Z;
  uc_tracker : SequenceTracker;
  uc_total_gaps : Z;
  uc_recv_buffer_bytes : Z
}.

(** The socket, [bind]'s success, the SO_RCVBUF the kernel reports back and the
    bound port are the kernel's answers. *)
Definition new_udp_feed_client (fd : Z) (bound : bool) (granted : option Z) (port : option Z) :
    UdpFeedClient :=
  if fd <? 0 then mkUdpFeedClient fd 0 new_tracker 0 0
  else if negb bound then mkUdpFeedClient (-1) 0 new_tracker 0 0
  else mkUdpFeedClient fd (default 0 port) new_tracker 0 (default 0 granted).

Definition kDatagramMax : nat := Z.to_nat 1024.

(** [datagram]: what arrived, [None] for an error, a timeout or no bytes; the
    receive buffer cuts it at 1024 bytes. *)
Definition udp_receive (u : UdpFeedClient) (datagram : option bytes) :
    option MarketDataMessage * Z * UdpFeedClient :=
  if uc_fd u <? 0 then (None, 0, u)
  else
    match datagram with
    | None | Some [] => (None, 0, u)
    | Some data =>
        match decode_market_data (take kDatagramMax data) with
        | None => (None, 0, u)
        | Some msg =>
            let '(gap, tracker) := observe (uc_tracker u) (md_seq_of msg) in
            (Some msg, gap,
             mkUdpFeedClient (uc_fd u) (uc_port u) tracker (u64 (uc_total_gaps u + gap))
               (uc_recv_buffer_bytes u))
        end
    end.

(** ** Codec round trip *)

Definition md_ok (msg : MarketDataMessage) : Prop :=
  match msg with
  | MdTrade s symbol price quantity =>
      in_u64 s /\ in_u32 symbol /\ in_i64 price /\ in_u32 quantity
  | MdTopOfBook s symbol bid ask =>
      in_u64 s /\ in_u32 symbol /\ (forall p, bid = Some p -> in_i64 p) /\
      (forall p, ask = Some p -> in_i64 p)
  end.

Lemma decode_encode_md_trade s symbol price quantity rest :
  md_ok (MdTrade s symbol price quantity) ->
  decode_md_trade (encode_md_trade s symbol price quantity ++ rest) =
    mkDecodeResult DecodeNone (MdTrade s symbol price quantity).
Proof.
  intros (? & ? & Hp & ?). unfold decode_md_trade.
  rewrite (decode_header_has _ MtMdTrade kMdTradeBody s);
    [|unfold encode_md_trade; header_solve|unfold encode_md_trade; app_side|done|done].
  cbn [decode_ok d_error d_value h_type h_body_len h_seq_no].
  rewrite !bool_decide_true, Z.eqb_refl by done. cbn [negb].
  unfold encode_md_trade. long_enough. body_solve. by rewrite i64_u64.
Qed.

Lemma optional_price (o : option Price) :
  (forall p, o = Some p -> in_i64 p) ->
  (if negb (u8 (flag (has_value o)) =? 0) then Some (i64_of_u64 (u64 (default 0 o))) else None) = o.
Proof. intros Hp. destruct o as [p|]; [|done]. simpl. by rewrite i64_u64 by auto. Qed.

Lemma decode_encode_md_top s symbol bid ask rest :
  md_ok (MdTopOfBook s symbol bid ask) ->
  decode_md_top_of_book (encode_md_top_of_book s symbol bid ask ++ rest) =
    mkDecodeResult DecodeNone (MdTopOfBook s symbol bid ask).
Proof.
  intros (? & ? & Hb & Ha). unfold decode_md_top_of_book.
  rewrite (decode_header_has _ MtMdTopOfBook kMdTopOfBookBody s);
    [|unfold encode_md_top_of_book; header_solve|unfold encode_md_top_of_book; app_side|done|done].
  cbn [decode_ok d_error d_value h_type h_body_len h_seq_no].
  rewrite !bool_decide_true, Z.eqb_refl by done. cbn [negb].
  unfold encode_md_top_of_book. long_enough. body_solve. by rewrite !optional_price.
Qed.

Lemma decode_encode_md msg rest : md_ok msg -> decode_market_data (encode_md msg ++ rest) = Some msg.
Proof.
  intros Hok. unfold decode_market_data. destruct msg as [s symbol price quantity|s symbol bid ask]; cbn [encode_md].
  - pose proof Hok as (Hs & _). rewrite (decode_header_has _ MtMdTrade kMdTradeBody s);
      [|unfold encode_md_trade; header_solve|unfold encode_md_trade; app_side|done|done].
    cbn [decode_ok d_error d_value h_type]. rewrite !bool_decide_true by done. cbn [negb].
    by rewrite decode_encode_md_trade.
  - pose proof Hok as (Hs & _). rewrite (decode_header_has _ MtMdTopOfBook kMdTopOfBookBody s);
      [|unfold encode_md_top_of_book; header_solve|unfold encode_md_top_of_book; app_side|done|done].
    rewrite decode_ok_none. cbn [negb d_value h_type].
    rewrite (bool_decide_false (MtMdTopOfBook = MtMdTrade)), (bool_decide_true (MtMdTopOfBook = _)) by done.
    by rewrite decode_encode_md_top.
Qed.

(** ** FeedSpec: what a market-data subscriber can rely on

    A subscriber that keeps the last top-of-book message of every symbol always
    shows the engine's top of book; trades arrive once each, in engine order;
    the gap detector accounts for every missing sequence number. *)

(** ** A recording subscriber *)

#[export] Instance recorder : Subscriber (list MarketDataMessage) :=
  { on_market_data := fun log msg => log ++ [msg] }.

Definition no_tob : Tob := mkTob None None.

(** The top of book of [symbol] as a reader of the message log sees it. *)
Definition view_step (symbol : SymbolId) (t : Tob) (msg : MarketDataMessage) : Tob :=
  match msg with
  | MdTopOfBook _ s bid ask => if s =? symbol then mkTob bid ask else t
  | MdTrade _ _ _ _ => t
  end.
Definition tob_view (log : list MarketDataMessage) (symbol : SymbolId) : Tob :=
  fold_left (view_step symbol) log no_tob.

Lemma tob_view_snoc log msg symbol : tob_view (log ++ [msg]) symbol = view_step symbol (tob_view log symbol) msg.
Proof. unfold tob_view. by rewrite fold_left_app. Qed.

(** The trades of a log, without their numbers. *)
Definition trades_of_log (log : list MarketDataMessage) : list (SymbolId * Price * Quantity) :=
  omap (fun m => match m with MdTrade _ s p q => Some (s, p, q) | _ => None end) log.
Definition trades_of_events (evs : list EngineEvent) : list (SymbolId * Price * Quantity) :=
  omap (fun ev => match ev with TradeEvent _ s _ _ p q => Some (s, p, q) | _ => None end) evs.

Lemma trades_of_log_app l l' : trades_of_log (l ++ l') = trades_of_log l ++ trades_of_log l'.
Proof. unfold trades_of_log. apply omap_app. Qed.

Section Mirror.
Context {B : Type} `{HL : BookStoreLaws B}.
Implicit Types e : MatchingEngine B.
Implicit Types p : MarketDataPublisher (list MarketDataMessage).

Definition engine_tob e (symbol : SymbolId) : Tob :=
  mkTob (best_bid e symbol) (best_ask e symbol).

Definition shown p (symbol : SymbolId) : Tob := default no_tob (last_tob_ p !! symbol).

(** The publisher with its recorder: what it last showed is what the log says,
    and the log is numbered 1, 2, 3, ... *)
Record pub_ok p log : Prop := {
  po_log : subscribers_ p = [log];
  po_view : forall symbol, tob_view log symbol = shown p symbol;
  po_seq : 0 <= md_seq_ p /\ md_seq_ p = Z.of_nat (length log);
  po_numbers : map md_seq_of log = seqZ 1 (Z.of_nat (length log))
}.

Lemma numbers_snoc log msg :
  map md_seq_of log = seqZ 1 (Z.of_nat (length log)) -> md_seq_of msg = Z.of_nat (length log) + 1 ->
  map md_seq_of (log ++ [msg]) = seqZ 1 (Z.of_nat (length (log ++ [msg]))).
Proof.
  intros Hl Hm. rewrite map_app, Hl, length_app. simpl. rewrite Hm.
  replace (Z.of_nat (length log + 1)) with (Z.of_nat (length log) + 1) by lia.
  rewrite seqZ_app by lia. f_equal. rewrite seqZ_cons, seqZ_nil by lia. f_equal. lia.
Qed.

(** Emission of a message that does not change what is shown of other symbols. *)
Lemma pub_ok_emit p log (msg : SeqNo -> MarketDataMessage) t :
  pub_ok p log -> Z.of_nat (length log) + 1 < 2 ^ 64 -> (forall q, md_seq_of (msg q) = q) ->
  (forall symbol, view_step symbol (shown p symbol) (msg (md_seq_ p + 1)) =
     default no_tob (t !! symbol)) ->
  pub_ok (mkMarketDataPublisher (subscribers_ (md_emit_next msg p)) t (md_seq_ (md_emit_next msg p)))
    (log ++ [msg (md_seq_ p + 1)]).
Proof.
  intros [Hlog Hview [Hs0 Hs] Hn] Hb Hm Ht. unfold md_emit_next, md_emit. simpl.
  rewrite u64_small by lia. split; simpl.
  - by rewrite Hlog.
  - intros symbol. rewrite tob_view_snoc, Hview. apply Ht.
  - rewrite length_app. simpl. lia.
  - apply numbers_snoc; [done|]. rewrite Hm. lia.
Qed.

(** ** The event loop *)

Lemma publish_events_ok evs : forall p log touched,
  pub_ok p log -> Z.of_nat (length log) + Z.of_nat (length evs) < 2 ^ 64 ->
  exists log' p' touched',
    fold_left publish_event evs (p, touched) = (p', touched') /\
    pub_ok p' (log ++ log') /\ last_tob_ p' = last_tob_ p /\ (length log' <= length evs)%nat /\
    trades_of_log log' = trades_of_events evs /\
    (forall s, s ∈ touched' <-> s ∈ touched \/ s ∈ map symbol_of evs).
Proof.
  induction evs as [|ev evs IH]; intros p log touched Hp Hb.
  { exists [], p, touched. rewrite app_nil_r. simpl. split_and!; try done. set_solver. }
  cbn [fold_left length] in *. set (touched1 := if bool_decide (symbol_of ev ∈ touched) then touched else touched ++ [symbol_of ev]).
  assert (forall s, s ∈ touched1 <-> s ∈ touched \/ s = symbol_of ev) as Ht1.
  { intros s. unfold touched1. case_bool_decide; set_solver. }
  destruct ev as [q s id|q s id|q s id|q s taker maker price quantity]; cbn [publish_event symbol_of] in *; fold touched1.
  4: pose proof (pub_ok_emit p log (fun q => MdTrade q s price quantity) (last_tob_ p) Hp ltac:(lia)
       (fun _ => eq_refl) (fun _ => eq_refl)) as Hp1.
  4: destruct (IH _ _ touched1 Hp1) as (log' & p' & touched' & Hf & Hp' & Htob & Hlen & Htr & Hts);
       [rewrite length_app; simpl; lia|].
  4: exists (MdTrade (md_seq_ p + 1) s price quantity :: log'), p', touched'.
  4: rewrite <- app_assoc in Hp'; split; [done|]; split; [done|]; split; [done|]; split; [simpl; lia|];
     split; [simpl; by rewrite Htr|intros x; rewrite Hts, Ht1; set_solver].
  all: destruct (IH p log touched1 Hp ltac:(lia)) as (log' & p' & touched' & Hf & Hp' & Htob & Hlen & Htr & Hts);
    exists log', p', touched'; split; [done|]; split; [done|]; split; [done|]; split; [lia|]; split; [done|];
    intros x; rewrite Hts, Ht1; set_solver.
Qed.

(** ** The symbol loop *)

Lemma publish_symbol_ok e p log symbol :
  pub_ok p log -> Z.of_nat (length log) + 1 < 2 ^ 64 ->
  exists log', pub_ok (publish_symbol e p symbol) (log ++ log') /\ (length log' <= 1)%nat /\
    trades_of_log log' = [] /\
    shown (publish_symbol e p symbol) symbol = engine_tob e symbol /\
    (forall s, s <> symbol -> shown (publish_symbol e p symbol) s = shown p s).
Proof.
  intros Hp Hb. unfold publish_symbol. fold (engine_tob e symbol). set (cur := engine_tob e symbol).
  assert (forall s, default no_tob (<[symbol := cur]> (last_tob_ p) !! s) =
    if symbol =? s then cur else shown p s) as Hins.
  { intros s. unfold shown. destruct (Z.eqb_spec symbol s) as [->|]; [by rewrite lookup_insert_eq|].
    by rewrite lookup_insert_ne. }
  assert (forall s, s <> symbol -> default no_tob (<[symbol := cur]> (last_tob_ p) !! s) = shown p s) as Hother.
  { intros s Hne. rewrite Hins. by replace (symbol =? s) with false by lia. }
  assert (pub_ok (mkMarketDataPublisher
      (subscribers_ (md_emit_next (fun q => MdTopOfBook q symbol (tob_bid cur) (tob_ask cur)) p))
      (<[symbol := cur]> (last_tob_ p))
      (md_seq_ (md_emit_next (fun q => MdTopOfBook q symbol (tob_bid cur) (tob_ask cur)) p)))
    (log ++ [MdTopOfBook (md_seq_ p + 1) symbol (tob_bid cur) (tob_ask cur)])) as Hemit.
  { apply (pub_ok_emit p log (fun q => MdTopOfBook q symbol (tob_bid cur) (tob_ask cur))); done. }
  destruct (last_tob_ p !! symbol) as [last|] eqn:El; [case_bool_decide as Heq|]; cbn [negb].
  - exists []. rewrite app_nil_r. split; [done|]. split; [simpl; lia|]. split; [done|]. split; [|done].
    unfold shown. by rewrite El.
  - eexists [_]. split; [exact Hemit|]. split; [simpl; lia|]. split; [done|].
    split; [unfold shown, set_tob; simpl; by rewrite lookup_insert_eq|exact Hother].
  - destruct (has_value (tob_bid cur) || has_value (tob_ask cur)) eqn:Ev.
    + eexists [_]. split; [exact Hemit|]. split; [simpl; lia|]. split; [done|].
      split; [unfold shown; simpl; by rewrite lookup_insert_eq|exact Hother].
    + exists []. rewrite app_nil_r. split; [|split; [simpl; lia|split; [done|]]].
      * destruct Hp as [Hlog Hview Hs Hn]. split; try done. intros s. rewrite Hview.
        unfold shown at 2, set_tob. simpl. rewrite Hins. destruct (Z.eqb_spec symbol s) as [<-|]; [|done].
        unfold shown. rewrite El. simpl. revert Ev. destruct cur as [[] []]; done.
      * split; [unfold shown, set_tob; simpl; by rewrite lookup_insert_eq|exact Hother].
Qed.

Lemma publish_symbols_ok e symbols : forall p log,
  pub_ok p log -> Z.of_nat (length log) + Z.of_nat (length symbols) < 2 ^ 64 ->
  exists log', pub_ok (fold_left (publish_symbol e) symbols p) (log ++ log') /\
    trades_of_log log' = [] /\ (length log' <= length symbols)%nat /\
    (forall s, s ∈ symbols -> shown (fold_left (publish_symbol e) symbols p) s = engine_tob e s) /\
    (forall s, s ∉ symbols -> shown (fold_left (publish_symbol e) symbols p) s = shown p s).
Proof.
  induction symbols as [|s0 symbols IH]; intros p log Hp Hb.
  { exists []. rewrite app_nil_r. simpl. split_and!; try done. set_solver. }
  cbn [fold_left length] in *.
  destruct (publish_symbol_ok e p log s0 Hp) as (l1 & Hp1 & Hl1 & Ht1 & Hs1 & Ho1); [lia|].
  destruct (IH _ _ Hp1) as (l2 & Hp2 & Ht2 & Hl2 & Hs2 & Ho2); [rewrite length_app; lia|].
  exists (l1 ++ l2). rewrite app_assoc. split; [done|]. split; [by rewrite trades_of_log_app, Ht1, Ht2|].
  split; [rewrite length_app; lia|]. split.
  - intros s Hin. destruct (decide (s ∈ symbols)) as [Hi|Hi]; [by apply Hs2|].
    apply elem_of_cons in Hin as [->|]; [|done]. by rewrite Ho2, Hs1.
  - intros s Hin. rewrite Ho2 by set_solver. apply Ho1. set_solver.
Qed.

(** ** One publication *)

Lemma touched_length evs : forall p touched,
  (length (fold_left publish_event evs (p, touched)).2 <= length touched + length evs)%nat.
Proof.
  induction evs as [|ev evs IH]; intros p touched; simpl; [lia|].
  etransitivity; [apply IH|]. case_bool_decide; rewrite ?length_app; simpl; lia.
Qed.

Lemma publish_ok e p log evs :
  pub_ok p log -> Z.of_nat (length log) + 2 * Z.of_nat (length evs) < 2 ^ 64 ->
  (forall s, s ∉ map symbol_of evs -> shown p s = engine_tob e s) ->
  exists log', pub_ok (publish p e evs) (log ++ log') /\
    (length log' <= 2 * length evs)%nat /\
    trades_of_log log' = trades_of_events evs /\
    (forall s, tob_view (log ++ log') s = engine_tob e s).
Proof.
  intros Hp Hb Hsame. unfold publish.
  destruct (publish_events_ok evs p log [] Hp) as (l1 & p1 & touched & Hf & Hp1 & Htob & Hl1 & Htr1 & Hts); [lia|].
  pose proof (touched_length evs p []) as Htl. rewrite Hf in Htl |- *. simpl in Htl.
  destruct (publish_symbols_ok e touched p1 (log ++ l1) Hp1) as (l2 & Hp2 & Htr2 & Hl2 & Hs2 & Ho2);
    [rewrite length_app; lia|].
  exists (l1 ++ l2). rewrite app_assoc. split; [done|]. split; [rewrite length_app; lia|].
  split; [by rewrite trades_of_log_app, Htr1, Htr2, app_nil_r|].
  intros s. rewrite (po_view _ _ Hp2). destruct (decide (s ∈ touched)) as [Hin|Hin]; [by apply Hs2|].
  rewrite Ho2 by done. unfold shown. rewrite Htob. apply Hsame. rewrite Hts in Hin. set_solver.
Qed.
End Mirror.

(** ** Publishing every command *)

Definition a_tob (ae : AEngine) (symbol : SymbolId) : Tob :=
  match om_find symbol (ae_books ae) with
  | None => no_tob
  | Some b => mkTob (a_best (a_bids b)) (a_best (a_asks b))
  end.

Lemma number_symbols seq evs s :
  Forall (fun f => forall q, symbol_of (f q) = s) evs ->
  Forall (fun ev => symbol_of ev = s) (number seq evs).
Proof. intros Hf. revert seq. induction Hf; intros seq; simpl; constructor; auto. Qed.

Lemma a_respond_tob ae symbol b f evs s :
  symbol_of (f 0) = symbol -> (forall q, symbol_of (f q) = symbol_of (f 0)) ->
  let r := a_respond ae symbol b (f :: evs) in
  s ∉ map symbol_of r.1 -> a_tob r.2 s = a_tob ae s.
Proof.
  intros Hf Hq r Hs. unfold a_tob, r, a_respond. simpl. rewrite om_find_alter_ne; [done|].
  intros ->. apply Hs. simpl. rewrite Hq, Hf. set_solver.
Qed.

(** A symbol without an event keeps its top of book. *)
Lemma a_apply_tob admits ae c s :
  om_sorted symbol_before (ae_books ae) ->
  s ∉ map symbol_of (a_apply admits ae c).1 -> a_tob (a_apply admits ae c).2 s = a_tob ae s.
Proof.
  intros Hsort.
  destruct c as [name|symbol id side price q tif|symbol id side q|symbol id|symbol id price q];
    cbn [a_apply].
  - destruct (intern _ _) as [id reg]. intros _. unfold a_tob. simpl.
    rewrite om_find_try_emplace by (unfold symbol_before; first [done|lia]).
    destruct (Z.eqb_spec s id) as [->|]; [|done]. by destruct (om_find id (ae_books ae)).
  - destruct (om_find symbol _) as [b|]; [|done]. case_if; [done|].
    destruct (a_add_limit _ _ _ _ _ _) as [ts b']. by apply a_respond_tob.
  - destruct (om_find symbol _) as [b|]; [|done]. case_if; [done|].
    destruct (a_add_market _ _ _ _) as [ts b']. by apply a_respond_tob.
  - destruct (om_find symbol _) as [b|]; [|done]. case_if; [|done]. by apply a_respond_tob.
  - destruct (om_find symbol _) as [b|]; [|done]. case_if; [done|].
    destruct (a_modify _ _ _ _) as [ts b']. by apply a_respond_tob.
Qed.

Section FeedRun.
Context {B : Type} `{HL : BookStoreLaws B}.
Implicit Types e : MatchingEngine B.

Lemma engine_tob_abs e s : engine_wf e -> engine_tob e s = a_tob (e_abs e) s.
Proof.
  intros Hwf. unfold engine_tob, a_tob, best_bid, best_ask, e_abs. simpl. rewrite om_find_map.
  destruct (om_find s (books_ e)) as [b|] eqn:Ef; [|done]. simpl.
  apply om_find_Some in Ef as (l & r & Hb & _). pose proof (ew_books _ Hwf) as Hw. rewrite Hb in Hw.
  apply Forall_app in Hw as [_ [Hw _]%Forall_cons]. by rewrite bs_best_bid_ok, bs_best_ask_ok.
Qed.

(** Every command applied and its events published. *)
Fixpoint feed_run e (p : MarketDataPublisher (list MarketDataMessage)) (cmds : list Command) :
    list EngineEvent * MatchingEngine B * MarketDataPublisher (list MarketDataMessage) :=
  match cmds with
  | [] => ([], e, p)
  | c :: cmds' =>
      let '(evs, e1) := apply e c in
      let '(evs', e2, p2) := feed_run e1 (publish p e1 evs) cmds' in
      (evs ++ evs', e2, p2)
  end.

Lemma feed_run_ok cmds : forall e p log,
  (forall b : B, bs_room b) -> engine_wf e -> Forall command_ok cmds ->
  pub_ok p log -> (forall s, shown p s = engine_tob e s) ->
  let '(evs, e', p') := feed_run e p cmds in
  Z.of_nat (length log) + 2 * Z.of_nat (length evs) < 2 ^ 64 ->
  exists log', pub_ok p' (log ++ log') /\ (length log' <= 2 * length evs)%nat /\
    trades_of_log log' = trades_of_events evs /\
    (forall s, tob_view (log ++ log') s = engine_tob e' s).
Proof.
  induction cmds as [|c cmds IH]; intros e p log Hroom Hwf Hok Hp Hs; cbn [feed_run].
  { intros _. exists []. rewrite app_nil_r. split; [done|]. split; [simpl; lia|]. split; [done|].
    intros s. by rewrite (po_view _ _ Hp). }
  apply Forall_cons in Hok as [Hc Hok]. assert (engine_room e) as Hr by (by apply Forall_true).
  pose proof (apply_refines e c Hwf Hr Hc) as [Hwf1 Ha].
  assert (om_sorted symbol_before (ae_books (e_abs e))) as Hsort.
  { apply om_sorted_keys. simpl. rewrite om_map_keys. apply om_sorted_keys, Hwf. }
  pose proof (fun s => a_apply_tob (engine_admits e c) (e_abs e) c s Hsort) as Ht.
  rewrite <- Ha in Ht. cbn [fst snd] in Ht.
  destruct (apply e c) as [evs e1]. cbn [fst snd] in Hwf1, Ht.
  specialize (IH e1 (publish p e1 evs)). destruct (feed_run e1 (publish p e1 evs) cmds) as [[evs' e2] p2].
  rewrite length_app. intros Hb.
  destruct (publish_ok e1 p log evs Hp) as (l1 & Hp1 & Hl1 & Htr1 & Hv1); [lia| |].
  { intros s Hns. rewrite Hs, !engine_tob_abs by done. symmetry. by apply Ht. }
  destruct (IH (log ++ l1) Hroom Hwf1 Hok Hp1) as (l2 & Hp2 & Hl2 & Htr2 & Hv2).
  { intros s. by rewrite <- (po_view _ _ Hp1). }
  { rewrite length_app. lia. }
  exists (l1 ++ l2). rewrite app_assoc. split; [done|]. split; [rewrite length_app; lia|]. split; [|done].
  unfold trades_of_events. rewrite trades_of_log_app, Htr1, Htr2, omap_app. done.
Qed.

Lemma new_publisher_ok : pub_ok (subscribe new_publisher []) [].
Proof. split; try done. Qed.
End FeedRun.

(** ** Gap accounting *)

Fixpoint observe_all (t : SequenceTracker) (seqs : list SeqNo) : Z * SequenceTracker :=
  match seqs with
  | [] => (0, t)
  | s :: seqs' =>
      let '(gap, t1) := observe t s in
      let '(gaps, t2) := observe_all t1 seqs' in
      (gap + gaps, t2)
  end.

(** How many observations move the tracker forward. *)
Fixpoint advances (last : SeqNo) (seqs : list SeqNo) : Z :=
  match seqs with
  | [] => 0
  | s :: seqs' => if last <? s then 1 + advances s seqs' else advances last seqs'
  end.

Lemma observe_all_total seqs : forall last,
  let '(gaps, t) := observe_all (mkSequenceTracker true last) seqs in
  started_ t = true /\ gaps + advances last seqs = last_ t - last /\ last_ t = foldl Z.max last seqs.
Proof.
  induction seqs as [|s seqs IH]; intros last; cbn [observe_all advances foldl]; [split_and!; simpl; lia|].
  unfold observe. cbn [started_ last_ negb]. destruct (Z.leb_spec s last).
  - replace (last <? s) with false by lia. specialize (IH last).
    destruct (observe_all _ seqs) as [gaps t]. rewrite Z.max_l by lia. by destruct IH as (? & ? & ?).
  - replace (last <? s) with true by lia. specialize (IH s).
    destruct (observe_all _ seqs) as [gaps t]. rewrite Z.max_r by lia.
    destruct IH as (? & ? & ?). split_and!; [done|lia|done].
Qed.

Lemma advances_increasing seqs : forall last,
  StronglySorted Z.lt (last :: seqs) -> advances last seqs = Z.of_nat (length seqs).
Proof.
  induction seqs as [|s seqs IH]; intros last Hs; [done|]. cbn [advances length].
  apply StronglySorted_inv in Hs as [Hs Hf]. apply Forall_cons in Hf as [Hlt _].
  replace (last <? s) with true by lia. rewrite IH by done. lia.
Qed.

(** ** Receiving datagrams *)

(** What a client makes of a sequence of datagrams. *)
Fixpoint udp_receive_all (u : UdpFeedClient) (datagrams : list bytes) :
    list (option MarketDataMessage) * UdpFeedClient :=
  match datagrams with
  | [] => ([], u)
  | d :: ds =>
      let '(msg, _, u1) := udp_receive u (Some d) in
      let '(msgs, u2) := udp_receive_all u1 ds in (msg :: msgs, u2)
  end.

Lemma length_encode_md msg : (0 < length (encode_md msg) <= 38)%nat.
Proof.
  destruct msg; cbn [encode_md]; unfold encode_md_trade, encode_md_top_of_book;
    rewrite ?length_set_byte, ?length_store_be, ?length_set_byte, ?length_store_be, ?length_set_byte,
      ?length_store_be, ?length_write_header, ?length_zeros;
    unfold kHeaderSize, kMdTradeBody, kMdTopOfBookBody; lia.
Qed.

Lemma udp_receive_encoded u msg :
  0 <= uc_fd u -> md_ok msg ->
  udp_receive u (Some (encode_md msg)) =
    let '(gap, tracker) := observe (uc_tracker u) (md_seq_of msg) in
    (Some msg, gap, mkUdpFeedClient (uc_fd u) (uc_port u) tracker (u64 (uc_total_gaps u + gap)) (uc_recv_buffer_bytes u)).
Proof.
  intros Hfd Hok. unfold udp_receive. replace (uc_fd u <? 0) with false by lia.
  pose proof (length_encode_md msg) as Hl. rewrite take_ge by (unfold kDatagramMax; lia).
  pose proof (decode_encode_md msg [] Hok) as Hd. rewrite app_nil_r in Hd.
  destruct (encode_md msg) as [|b bs] eqn:E; [simpl in Hl; lia|]. rewrite Hd. by destruct (observe _ _).
Qed.

Lemma udp_receive_all_encoded msgs : forall u,
  0 <= uc_fd u -> Forall md_ok msgs ->
  let r := udp_receive_all u (map encode_md msgs) in
  let t := observe_all (uc_tracker u) (map md_seq_of msgs) in
  r.1 = map Some msgs /\ uc_tracker r.2 = t.2 /\ u64 (uc_total_gaps r.2) = u64 (uc_total_gaps u + t.1) /\
  (in_u64 (uc_total_gaps u) -> in_u64 (uc_total_gaps r.2)).
Proof.
  induction msgs as [|msg msgs IH]; intros u Hfd Hok.
  { cbn. split_and!; try done. f_equal. lia. }
  apply Forall_cons in Hok as [Hm Hok]. cbn [map udp_receive_all observe_all].
  rewrite udp_receive_encoded by done. destruct (observe (uc_tracker u) (md_seq_of msg)) as [gap tracker].
  set (u1 := mkUdpFeedClient _ _ _ _ _). specialize (IH u1 Hfd Hok). cbn zeta in *.
  destruct (udp_receive_all u1 (map encode_md msgs)) as [got u2].
  change (uc_tracker u1) with tracker in IH.
  destruct (observe_all tracker (map md_seq_of msgs)) as [gaps tracker'].
  cbn [fst snd] in *. destruct IH as (-> & -> & Hg & Hr). split_and!; try done.
  - rewrite Hg. cbn [uc_total_gaps u1]. rewrite u64_u64_add. f_equal. lia.
  - intros _. apply Hr. cbn [uc_total_gaps u1]. apply u64_range.
Qed.

Lemma advances_bound seqs : forall last,
  0 <= advances last seqs <= foldl Z.max last seqs - last.
Proof.
  induction seqs as [|s seqs IH]; intros last; cbn [advances foldl]; [lia|].
  destruct (Z.ltb_spec last s).
  - rewrite Z.max_r by lia. specialize (IH s). lia.
  - rewrite Z.max_l by lia. apply IH.
Qed.

(** The counter of a fresh client is exactly the numbers skipped between the
    first and the highest message received. *)
Lemma udp_loss_total u msg msgs :
  0 <= uc_fd u -> uc_tracker u = new_tracker -> uc_total_gaps u = 0 -> Forall md_ok (msg :: msgs) ->
  let r := udp_receive_all u (map encode_md (msg :: msgs)) in
  let seqs := map md_seq_of msgs in
  r.1 = map Some (msg :: msgs) /\
  uc_total_gaps r.2 = foldl Z.max (md_seq_of msg) seqs - md_seq_of msg - advances (md_seq_of msg) seqs.
Proof.
  intros Hfd Ht Hz Hok. pose proof (udp_receive_all_encoded (msg :: msgs) u Hfd Hok) as (Hr & _ & Hg & Hin).
  cbn zeta. split; [done|]. rewrite Hz, Ht, Z.add_0_l in *. cbn [map observe_all] in Hg, Hin |- *.
  unfold observe in Hg at 1. cbn [new_tracker started_ negb] in Hg.
  pose proof (observe_all_total (map md_seq_of msgs) (md_seq_of msg)) as Ho.
  destruct (observe_all _ _) as [gaps t]. cbn [fst] in Hg. destruct Ho as (_ & Ho & Hl). rewrite Hl in Ho.
  pose proof (advances_bound (map md_seq_of msgs) (md_seq_of msg)) as Hb.
  assert (forall l a, in_u64 a -> Forall in_u64 l -> in_u64 (foldl Z.max a l)) as Hmax.
  { induction l as [|x l IH]; intros a Ha Hl'; [done|]. apply Forall_cons in Hl' as [Hx Hl']. cbn. apply IH; [|done].
    unfold in_u64 in *. lia. }
  assert (Forall in_u64 (map md_seq_of (msg :: msgs))) as Hs.
  { apply Forall_map. eapply Forall_impl; [exact Hok|]. intros m. by destruct m; intros (? & _). }
  cbn [map] in Hs. apply Forall_cons in Hs as [Hs0 Hs]. specialize (Hmax _ _ Hs0 Hs).
  specialize (Hin ltac:(by unfold in_u64)). unfold in_u64 in *. rewrite !u64_small in Hg by lia. lia.
Qed.
