(* ===== verification/Gateway.v ===== *)
(** * Gateway: pre-trade risk and the in-process order gateway

    include/qsl/engine/risk.hpp, src/engine/risk.cpp,
    include/qsl/gateway/order_gateway.hpp, src/gateway/order_gateway.cpp and
    include/qsl/replay/dispatch.hpp.  The gateway holds a reference to the
    engine: its operations take the engine and return it. *)
From S2P Require Import Prelude Core Book BookSpec Command Engine EngineSpec.

(** ** risk.hpp, risk.cpp *)

Record RiskConfig := mkRiskConfig {
  max_order_quantity : Quantity;
  max_notional : QuantityTotal
}.

Definition check_limit_values (config : RiskConfig) (price : Price) (quantity : Quantity) :
    RejectReason :=
  if negb (is_valid_price price) then InvalidPrice
  else if negb (is_valid_quantity quantity) then InvalidQuantity
  else if max_order_quantity config <? quantity then MaxQuantityExceeded
  else if max_notional config / u64 price <? u64 quantity then MaxNotionalExceeded
  else ReasonNone.

Definition check_limit (config : RiskConfig) (side : Side) (price : Price) (quantity : Quantity) :
    RejectReason :=
  if negb (is_valid_side side) then InvalidSide
  else check_limit_values config price quantity.

Definition check_market (config : RiskConfig) (side : Side) (quantity : Quantity) : RejectReason :=
  if negb (is_valid_side side) then InvalidSide
  else if negb (is_valid_quantity quantity) then InvalidQuantity
  else if max_order_quantity config <? quantity then MaxQuantityExceeded
  else ReasonNone.

(** ** order_gateway.hpp, order_gateway.cpp *)

Record GatewayResult := mkGatewayResult {
  g_accepted : bool;
  g_reason : RejectReason;
  g_events : list EngineEvent
}.

Definition gateway_reject (r : RejectReason) : GatewayResult := mkGatewayResult false r [].
Definition gateway_accept (events : list EngineEvent) : GatewayResult :=
  mkGatewayResult true ReasonNone events.

Record NewOrderPreview := mkNewOrderPreview {
  p_accepted : bool;
  p_fill_count : Z
}.

Section Gateway.
Context {B : Type} `{BookStore B}.
Implicit Types e : MatchingEngine B.
Variable config_ : RiskConfig.

Definition gw_new_limit e (symbol : SymbolId) (id : OrderId) (side : Side) (price : Price)
    (quantity : Quantity) (tif : TimeInForce) : GatewayResult * MatchingEngine B :=
  if negb (has_symbol e symbol) then (gateway_reject UnknownSymbol, e)
  else if contains e symbol id then (gateway_reject DuplicateOrderId, e)
  else
    let r := check_limit config_ side price quantity in
    if negb (bool_decide (r = ReasonNone)) then (gateway_reject r, e)
    else if negb (can_store_limit e symbol side price quantity tif)
    then (gateway_reject StorageExhausted, e)
    else
      let e := new_limit e symbol id side price quantity tif in
      (gateway_accept (events_ e), e).

Definition gw_new_market e (symbol : SymbolId) (id : OrderId) (side : Side) (quantity : Quantity) :
    GatewayResult * MatchingEngine B :=
  if negb (has_symbol e symbol) then (gateway_reject UnknownSymbol, e)
  else if contains e symbol id then (gateway_reject DuplicateOrderId, e)
  else
    let r := check_market config_ side quantity in
    if negb (bool_decide (r = ReasonNone)) then (gateway_reject r, e)
    else
      let e := new_market e symbol id side quantity in
      (gateway_accept (events_ e), e).

Definition gw_cancel e (symbol : SymbolId) (id : OrderId) : GatewayResult * MatchingEngine B :=
  if negb (has_symbol e symbol) then (gateway_reject UnknownSymbol, e)
  else if negb (contains e symbol id) then (gateway_reject UnknownOrder, e)
  else
    let e := cancel e symbol id in
    (gateway_accept (events_ e), e).

Definition gw_modify e (symbol : SymbolId) (id : OrderId) (new_price : Price)
    (new_quantity : Quantity) : GatewayResult * MatchingEngine B :=
  if negb (has_symbol e symbol) then (gateway_reject UnknownSymbol, e)
  else if negb (contains e symbol id) then (gateway_reject UnknownOrder, e)
  else if new_quantity =? 0 then
    let e := modify e symbol id new_price new_quantity in
    (gateway_accept (events_ e), e)
  else
    let r := check_limit_values config_ new_price new_quantity in
    if negb (bool_decide (r = ReasonNone)) then (gateway_reject r, e)
    else if negb (can_apply_modify e symbol id new_price new_quantity)
    then (gateway_reject StorageExhausted, e)
    else
      let e := modify e symbol id new_price new_quantity in
      (gateway_accept (events_ e), e).

Definition preview_new_order e (symbol : SymbolId) (id : OrderId) (side : Side) (price : Price)
    (quantity : Quantity) (type : OrderType) (tif : TimeInForce) : NewOrderPreview :=
  if negb (has_symbol e symbol) || contains e symbol id then mkNewOrderPreview false 0
  else
    let reason :=
      if bool_decide (type = Market) then check_market config_ side quantity
      else check_limit config_ side price quantity in
    if negb (bool_decide (reason = ReasonNone)) then mkNewOrderPreview false 0
    else if bool_decide (type = Limit) && negb (can_store_limit e symbol side price quantity tif)
    then mkNewOrderPreview false 0
    else mkNewOrderPreview true (fill_count e symbol side price type quantity).

(** ** dispatch.hpp *)

Definition apply_command e (c : Command) : GatewayResult * MatchingEngine B :=
  match c with
  | RegisterSymbol name => (gateway_accept [], (register_symbol e name).2)
  | NewLimit symbol id side price quantity tif => gw_new_limit e symbol id side price quantity tif
  | NewMarket symbol id side quantity => gw_new_market e symbol id side quantity
  | Cancel symbol id => gw_cancel e symbol id
  | Modify symbol id price quantity => gw_modify e symbol id price quantity
  end.
End Gateway.

(** ** Risk *)

(** The overflow-safe division decides the product over unbounded integers. *)
Lemma notional_check (m p q : Z) :
  0 < p < 2 ^ 63 -> in_u32 q -> 0 <= m ->
  (m / u64 p <? u64 q) = (m <? p * q).
Proof.
  unfold in_u32, u64, wrap. intros Hp Hq Hm. rewrite !Z.mod_small by lia. apply eq_bool_prop_intro.
  rewrite !Is_true_true, !Z.ltb_lt. split; intros Hlt.
  - apply Z.nle_gt. intros Hle. apply (Z.div_le_mono _ _ p) in Hle; [|lia].
    rewrite Z.mul_comm, Z.div_mul in Hle by lia. lia.
  - apply Z.div_lt_upper_bound; lia.
Qed.

(** The first failing check, in the documented order, over exact arithmetic. *)
Definition limit_verdict (config : RiskConfig) (side : Side) (price : Price) (quantity : Quantity) :
    RejectReason :=
  if negb (is_valid_side side) then InvalidSide
  else if price <=? 0 then InvalidPrice
  else if quantity =? 0 then InvalidQuantity
  else if max_order_quantity config <? quantity then MaxQuantityExceeded
  else if max_notional config <? price * quantity then MaxNotionalExceeded
  else ReasonNone.

Lemma check_limit_verdict config side price quantity :
  in_i64 price -> in_u32 quantity -> in_u64 (max_notional config) ->
  check_limit config side price quantity = limit_verdict config side price quantity.
Proof.
  unfold in_i64, in_u32, in_u64. intros Hp Hq Hm. unfold check_limit, limit_verdict, check_limit_values.
  case_if; [done|]. unfold is_valid_price, is_valid_quantity.
  destruct (0 <? price) eqn:E1; simpl; [|by replace (price <=? 0) with true by lia].
  replace (price <=? 0) with false by lia.
  destruct (0 <? quantity) eqn:E2; simpl; [|by replace (quantity =? 0) with true by lia].
  replace (quantity =? 0) with false by lia. case_if; [done|].
  rewrite notional_check; [done|lia|done|lia].
Qed.

(** ** What an accepted command did *)

(** The first event acknowledges the command; the others are its trades. *)
Definition acknowledges (c : Command) (events : list EngineEvent) : Prop :=
  match c with
  | RegisterSymbol _ => events = []
  | NewLimit symbol id _ _ _ _ | NewMarket symbol id _ _ =>
      exists seq seq' ts, events =
        OrderAccepted seq symbol id :: number seq' (map (trade_event symbol) ts) /\
        Forall (fun t => t_taker_id t = id) ts
  | Cancel symbol id => exists seq, events = [OrderCanceled seq symbol id]
  | Modify symbol id _ _ =>
      exists seq seq' ts, events =
        OrderModified seq symbol id :: number seq' (map (trade_event symbol) ts) /\
        Forall (fun t => t_taker_id t = id) ts
  end.

Lemma a_match_takers taker cross opp : forall q,
  Forall (fun t => t_taker_id t = taker) (a_match taker cross q opp).1.1.
Proof.
  induction opp as [|o opp IH]; intros q; cbn [a_match]; [constructor|].
  case_if; [|constructor]. case_if; [|by repeat constructor].
  specialize (IH (q - o_quantity o)). destruct (a_match _ _ _ _) as [[ts r] l]. by constructor.
Qed.

Lemma a_add_limit_takers b id side price q tif :
  Forall (fun t => t_taker_id t = id) (a_add_limit b id side price q tif).1.
Proof.
  unfold a_add_limit, a_take. case_if; [constructor|].
  pose proof (a_match_takers id (can_match_level (is_buy side) false price)
    (a_side (negb (is_buy side)) b) q) as Ht.
  destruct (a_match _ _ _ _) as [[ts r] l]. by case_if.
Qed.

Lemma a_add_market_takers b id side q : Forall (fun t => t_taker_id t = id) (a_add_market b id side q).1.
Proof.
  unfold a_add_market, a_take. case_if; [constructor|].
  pose proof (a_match_takers id (can_match_level (is_buy side) true 0)
    (a_side (negb (is_buy side)) b) q) as Ht.
  by destruct (a_match _ _ _ _) as [[ts r] l].
Qed.

Lemma a_modify_takers b id price q : Forall (fun t => t_taker_id t = id) (a_modify b id price q).1.
Proof.
  unfold a_modify. destruct (a_find b id); [|constructor]. repeat (case_if; [constructor|]).
  apply a_add_limit_takers.
Qed.

Section GatewayLemmas.
Context {B : Type} `{HL : BookStoreLaws B}.
Implicit Types e : MatchingEngine B.
Variable config : RiskConfig.

Lemma contains_abs e symbol id b :
  engine_wf e -> om_find symbol (books_ e) = Some b ->
  om_find symbol (ae_books (e_abs e)) = Some (bs_abs b) /\ contains e symbol id = a_contains (bs_abs b) id.
Proof.
  intros Hwf Hf. unfold contains, e_abs. simpl. rewrite om_find_map, Hf. split; [done|].
  apply bs_contains_ok. apply om_find_Some in Hf as (l & r & Hb & _).
  pose proof (ew_books _ Hwf) as Hw. rewrite Hb in Hw. by apply Forall_app in Hw as [_ [? _]%Forall_cons].
Qed.

Lemma has_symbol_book e symbol :
  negb (has_symbol e symbol) = false -> exists b, om_find symbol (books_ e) = Some b.
Proof. rewrite negb_false_iff. unfold has_symbol. rewrite bool_decide_eq_true. by intros [b Hb]; exists b. Qed.

(** What the engine does with a command the gateway let through. *)
Lemma admitted_acknowledged e c :
  engine_wf e -> engine_room e -> command_ok c -> engine_admits e c = true ->
  (match c with
   | RegisterSymbol _ => True
   | NewLimit symbol id _ _ _ _ | NewMarket symbol id _ _ =>
       negb (has_symbol e symbol) = false /\ contains e symbol id = false
   | Cancel symbol id | Modify symbol id _ _ =>
       negb (has_symbol e symbol) = false /\ contains e symbol id = true
   end) ->
  acknowledges c (apply e c).1.
Proof.
  intros Hwf Hroom Hok Hadm Hpre. pose proof (apply_refines e c Hwf Hroom Hok) as [_ Hr].
  rewrite Hadm in Hr. apply (f_equal fst) in Hr. cbn [fst] in Hr. rewrite Hr.
  destruct c as [name|symbol id side price q tif|symbol id side q|symbol id|symbol id price q].
  - cbn [a_apply]. by destruct (intern _ _).
  - destruct Hpre as [(b & Hb)%has_symbol_book Hc]. destruct (contains_abs e symbol id b Hwf Hb) as [Hf Ha].
    cbn [a_apply]. rewrite Hf, <- Ha, Hc. cbn [orb negb]. pose proof (a_add_limit_takers (bs_abs b) id side price q tif) as Ht.
    destruct (a_add_limit _ _ _ _ _ _) as [ts b']. by eexists _, _, ts.
  - destruct Hpre as [(b & Hb)%has_symbol_book Hc]. destruct (contains_abs e symbol id b Hwf Hb) as [Hf Ha].
    cbn [a_apply]. rewrite Hf, <- Ha, Hc. pose proof (a_add_market_takers (bs_abs b) id side q) as Ht.
    destruct (a_add_market _ _ _ _) as [ts b']. by eexists _, _, ts.
  - destruct Hpre as [(b & Hb)%has_symbol_book Hc]. destruct (contains_abs e symbol id b Hwf Hb) as [Hf Ha].
    cbn [a_apply]. rewrite Hf, <- Ha, Hc. by eexists.
  - destruct Hpre as [(b & Hb)%has_symbol_book Hc]. destruct (contains_abs e symbol id b Hwf Hb) as [Hf Ha].
    cbn [a_apply]. rewrite Hf, <- Ha, Hc. cbn [orb negb]. pose proof (a_modify_takers (bs_abs b) id price q) as Ht.
    destruct (a_modify _ _ _ _) as [ts b']. by eexists _, _, ts.
Qed.

(** The three outcomes of a gateway call. *)
Definition rejected_unchanged e (r : GatewayResult) e' : Prop :=
  g_accepted r = false /\ g_reason r <> ReasonNone /\ g_events r = [] /\ e' = e.

Definition accepted_applied e (c : Command) (r : GatewayResult) e' : Prop :=
  g_accepted r = true /\ g_reason r = ReasonNone /\ apply e c = (g_events r, e') /\
  acknowledges c (g_events r).

Lemma reject_unchanged e r : r <> ReasonNone -> rejected_unchanged e (gateway_reject r) e.
Proof. by repeat split. Qed.

Lemma accept_applied e c e' :
  engine_wf e -> engine_room e -> command_ok c -> engine_admits e c = true ->
  apply e c = (events_ e', e') ->
  (match c with
   | RegisterSymbol _ => True
   | NewLimit symbol id _ _ _ _ | NewMarket symbol id _ _ =>
       negb (has_symbol e symbol) = false /\ contains e symbol id = false
   | Cancel symbol id | Modify symbol id _ _ =>
       negb (has_symbol e symbol) = false /\ contains e symbol id = true
   end) ->
  accepted_applied e c (gateway_accept (events_ e')) e'.
Proof.
  intros Hwf Hroom Hok Hadm He Hpre. split_and!; try done. simpl.
  pose proof (admitted_acknowledged e c Hwf Hroom Hok Hadm Hpre) as Ha. by rewrite He in Ha.
Qed.

Lemma apply_command_spec e c :
  engine_wf e -> engine_room e -> command_ok c ->
  let r := apply_command config e c in
  rejected_unchanged e r.1 r.2 \/ accepted_applied e c r.1 r.2.
Proof.
  intros Hwf Hroom Hok.
  destruct c as [name|symbol id side price q tif|symbol id side q|symbol id|symbol id price q];
    cbn [apply_command].
  - right. by split_and!.
  - unfold gw_new_limit. destruct (negb (has_symbol e symbol)) eqn:E1; [left; by apply reject_unchanged|].
    destruct (contains e symbol id) eqn:E2; [left; by apply reject_unchanged|].
    case_bool_decide; cbn [negb]; [|left; by apply reject_unchanged].
    destruct (can_store_limit e symbol side price q tif) eqn:E3; cbn [negb]; [|left; by apply reject_unchanged].
    right. by apply accept_applied.
  - unfold gw_new_market. destruct (negb (has_symbol e symbol)) eqn:E1; [left; by apply reject_unchanged|].
    destruct (contains e symbol id) eqn:E2; [left; by apply reject_unchanged|].
    case_bool_decide; cbn [negb]; [|left; by apply reject_unchanged]. right. by apply accept_applied.
  - unfold gw_cancel. destruct (negb (has_symbol e symbol)) eqn:E1; [left; by apply reject_unchanged|].
    destruct (contains e symbol id) eqn:E2; cbn [negb]; [|left; by apply reject_unchanged].
    right. by apply accept_applied.
  - unfold gw_modify. destruct (negb (has_symbol e symbol)) eqn:E1; [left; by apply reject_unchanged|].
    destruct (contains e symbol id) eqn:E2; cbn [negb]; [|left; by apply reject_unchanged].
    destruct (Z.eqb_spec q 0) as [->|Hq0].
    + right. apply accept_applied; try done. cbn [engine_admits]. unfold can_apply_modify.
      apply has_symbol_book in E1 as [b Hb]. rewrite Hb. apply bs_can_apply_cancel.
      by eapply find_book_wf.
    + case_bool_decide; cbn [negb]; [|left; by apply reject_unchanged].
      destruct (can_apply_modify e symbol id price q) eqn:E3; cbn [negb]; [|left; by apply reject_unchanged].
      right. by apply accept_applied.
Qed.

(** ** The preview *)

Lemma a_add_limit_trades b id side price q tif :
  a_contains b id = false ->
  (a_add_limit b id side price q tif).1 = (a_take b id side price false q).1.1.
Proof. intros Hc. unfold a_add_limit. rewrite Hc. destruct (a_take _ _ _ _ _ _) as [[ts r] b']. by case_if. Qed.

Lemma a_add_market_trades b id side q :
  a_contains b id = false -> (a_add_market b id side q).1 = (a_take b id side 0 true q).1.1.
Proof. intros Hc. unfold a_add_market. rewrite Hc. by destruct (a_take _ _ _ _ _ _) as [[ts r] b']. Qed.

Lemma a_take_market b id side limit q : a_take b id side limit true q = a_take b id side 0 true q.
Proof. done. Qed.

Lemma length_number seq evs : length (number seq evs) = length evs.
Proof. revert seq. induction evs as [|f evs IH]; intros seq; simpl; [done|]. by rewrite IH. Qed.

Lemma check_limit_side side price q :
  check_limit config side price q = ReasonNone -> is_valid_side side = true.
Proof. unfold check_limit. by destruct (is_valid_side side). Qed.
Lemma check_market_side side q : check_market config side q = ReasonNone -> is_valid_side side = true.
Proof. unfold check_market. by destruct (is_valid_side side). Qed.

Lemma preview_limit e symbol id side price q tif :
  engine_wf e -> engine_room e -> in_u32 q ->
  let p := preview_new_order config e symbol id side price q Limit tif in
  let r := (gw_new_limit config e symbol id side price q tif).1 in
  p_accepted p = g_accepted r /\
  (g_accepted r = true -> Z.of_nat (length (g_events r)) = 1 + p_fill_count p).
Proof.
  intros Hwf Hroom Hq. unfold preview_new_order, gw_new_limit.
  destruct (negb (has_symbol e symbol)) eqn:E1; [done|]. cbn [orb].
  destruct (contains e symbol id) eqn:E2; [done|]. rewrite (bool_decide_false (Limit = Market)) by done.
  case_bool_decide as Hr; cbn [negb]; [|done]. rewrite (bool_decide_true (Limit = Limit)) by done. cbn [andb].
  destruct (can_store_limit e symbol side price q tif) eqn:E3; cbn [negb]; [|done]. split; [done|].
  intros _. pose proof (check_limit_side _ _ _ Hr) as Hs.
  pose proof (new_limit_refines e symbol id side price q tif Hwf Hroom Hs Hq) as [_ He].
  apply (f_equal fst) in He. rewrite E3 in He. cbn [fst] in He. cbn [fst gateway_accept g_events]. rewrite He.
  apply has_symbol_book in E1 as [b Hb]. destruct (contains_abs e symbol id b Hwf Hb) as [Hf Ha].
  cbn [a_apply]. rewrite Hf, <- Ha, E2. cbn [orb negb]. rewrite E2 in Ha. symmetry in Ha.
  pose proof (a_add_limit_trades _ _ side price q tif Ha) as Ht.
  destruct (a_add_limit _ _ _ _ _ _) as [ts b']. simpl in Ht. cbn [a_respond fst].
  rewrite length_number. cbn [length p_fill_count]. rewrite List.length_map, Ht.
  unfold fill_count. rewrite Hb, (bool_decide_false (Limit = Market)) by done.
  rewrite (bs_fill_count_ok b id) by (first [done|by eapply find_book_wf|unfold in_u32 in *; lia]). lia.
Qed.

Lemma preview_market e symbol id side price q tif :
  engine_wf e -> engine_room e -> in_u32 q ->
  let p := preview_new_order config e symbol id side price q Market tif in
  let r := (gw_new_market config e symbol id side q).1 in
  p_accepted p = g_accepted r /\
  (g_accepted r = true -> Z.of_nat (length (g_events r)) = 1 + p_fill_count p).
Proof.
  intros Hwf Hroom Hq. unfold preview_new_order, gw_new_market.
  destruct (negb (has_symbol e symbol)) eqn:E1; [done|]. cbn [orb].
  destruct (contains e symbol id) eqn:E2; [done|]. rewrite (bool_decide_true (Market = Market)) by done.
  case_bool_decide as Hr; cbn [negb]; [|done]. rewrite (bool_decide_false (Market = Limit)) by done. cbn [andb]. split; [done|].
  intros _. pose proof (check_market_side _ _ Hr) as Hs.
  pose proof (new_market_refines e symbol id side q Hwf Hroom Hs Hq) as [_ He].
  apply (f_equal fst) in He. cbn [fst] in He. cbn [fst gateway_accept g_events]. rewrite He.
  apply has_symbol_book in E1 as [b Hb]. destruct (contains_abs e symbol id b Hwf Hb) as [Hf Ha].
  cbn [a_apply]. rewrite Hf, <- Ha, E2. rewrite E2 in Ha. symmetry in Ha.
  pose proof (a_add_market_trades _ _ side q Ha) as Ht.
  destruct (a_add_market _ _ _ _) as [ts b']. simpl in Ht. cbn [a_respond fst].
  rewrite length_number. cbn [length p_fill_count]. rewrite List.length_map, Ht.
  unfold fill_count. rewrite Hb, (bool_decide_true (Market = Market)) by done.
  rewrite (bs_fill_count_ok b id) by (first [done|by eapply find_book_wf|unfold in_u32 in *; lia]).
  rewrite (a_take_market _ _ _ price). lia.
Qed.
End GatewayLemmas.
