(* ===== verification/GatewaySpec.v ===== *)
(** * GatewaySpec: the gateway over the abstract engine

    Over an unbounded storage the gateway is a function of the abstract engine:
    a verdict on the command and, when it is accepted, the abstract step. *)
From S2P Require Import Prelude Core Endian Book BookSpec Command Engine EngineSpec Gateway.

Definition a_verdict (config : RiskConfig) (ae : AEngine) (c : Command) : RejectReason :=
  match c with
  | RegisterSymbol _ => ReasonNone
  | NewLimit symbol id side price quantity _ =>
      match om_find symbol (ae_books ae) with
      | None => UnknownSymbol
      | Some b => if a_contains b id then DuplicateOrderId else check_limit config side price quantity
      end
  | NewMarket symbol id side quantity =>
      match om_find symbol (ae_books ae) with
      | None => UnknownSymbol
      | Some b => if a_contains b id then DuplicateOrderId else check_market config side quantity
      end
  | Cancel symbol id =>
      match om_find symbol (ae_books ae) with
      | None => UnknownSymbol
      | Some b => if a_contains b id then ReasonNone else UnknownOrder
      end
  | Modify symbol id price quantity =>
      match om_find symbol (ae_books ae) with
      | None => UnknownSymbol
      | Some b =>
          if negb (a_contains b id) then UnknownOrder
          else if quantity =? 0 then ReasonNone
          else check_limit_values config price quantity
      end
  end.

Definition a_gateway (config : RiskConfig) (ae : AEngine) (c : Command) : GatewayResult * AEngine :=
  let r := a_verdict config ae c in
  if bool_decide (r = ReasonNone)
  then let '(events, ae) := a_apply true ae c in (gateway_accept events, ae)
  else (gateway_reject r, ae).

(** A stream: the outcome of every command and the final engine. *)
Fixpoint a_gateway_all (config : RiskConfig) (ae : AEngine) (cmds : list Command) : list GatewayResult * AEngine :=
  match cmds with
  | [] => ([], ae)
  | c :: cmds' =>
      let '(r, ae) := a_gateway config ae c in
      let '(rs, ae) := a_gateway_all config ae cmds' in
      (r :: rs, ae)
  end.

Section GatewayRefinement.
Context {B : Type} `{HL : BookStoreLaws B} (Hu : unbounded B) (config : RiskConfig).
Implicit Types e : MatchingEngine B.

Fixpoint gateway_all e (cmds : list Command) : list GatewayResult * MatchingEngine B :=
  match cmds with
  | [] => ([], e)
  | c :: cmds' =>
      let '(r, e) := apply_command config e c in
      let '(rs, e) := gateway_all e cmds' in
      (r :: rs, e)
  end.

(** The guards of the gateway, read off the abstract engine. *)
Lemma guards_abs e symbol id :
  engine_wf e ->
  match om_find symbol (ae_books (e_abs e)) with
  | None => has_symbol e symbol = false
  | Some b => has_symbol e symbol = true /\ contains e symbol id = a_contains b id
  end.
Proof.
  intros Hwf. destruct (om_find symbol (books_ e)) as [b|] eqn:Hb.
  - destruct (contains_abs e symbol id b Hwf Hb) as [-> Hc]. split; [|done]. unfold has_symbol. rewrite Hb. by apply bool_decide_true.
  - unfold e_abs. cbn [ae_books]. rewrite om_find_map, Hb. cbn. unfold has_symbol. rewrite Hb. apply bool_decide_false. by intros [? ?].
Qed.

Lemma admits_limit e symbol side price q tif : has_symbol e symbol = true -> can_store_limit e symbol side price q tif = true.
Proof. unfold has_symbol, can_store_limit. rewrite bool_decide_eq_true. intros [b Hb]. rewrite Hb. apply Hu. Qed.
Lemma admits_modify e symbol id price q : has_symbol e symbol = true -> can_apply_modify e symbol id price q = true.
Proof. unfold has_symbol, can_apply_modify. rewrite bool_decide_eq_true. intros [b Hb]. rewrite Hb. apply Hu. Qed.

(** The gateway accepts exactly when the verdict is none, and then applies the command. *)
Lemma apply_command_verdict e c :
  engine_wf e ->
  apply_command config e c =
    let r := a_verdict config (e_abs e) c in
    if bool_decide (r = ReasonNone) then (gateway_accept (apply e c).1, (apply e c).2) else (gateway_reject r, e).
Proof.
  intros Hwf. destruct c as [name|symbol id side price q tif|symbol id side q|symbol id|symbol id price q]; cbn [apply_command a_verdict apply]; [done|..];
    pose proof (guards_abs e symbol id Hwf) as Hg; destruct (om_find symbol (ae_books (e_abs e))) as [b|].
  - unfold gw_new_limit. destruct Hg as [Hs ->]. rewrite Hs. cbn [negb]. destruct (a_contains b id); [done|]. cbv zeta.
    case_bool_decide; cbn [negb]; [|done]. by rewrite admits_limit.
  - unfold gw_new_limit. by rewrite Hg.
  - unfold gw_new_market. destruct Hg as [Hs ->]. rewrite Hs. cbn [negb]. destruct (a_contains b id); [done|]. cbv zeta.
    by case_bool_decide.
  - unfold gw_new_market. by rewrite Hg.
  - unfold gw_cancel. destruct Hg as [Hs ->]. rewrite Hs. cbn [negb]. by destruct (a_contains b id).
  - unfold gw_cancel. by rewrite Hg.
  - unfold gw_modify. destruct Hg as [Hs ->]. rewrite Hs. cbn [negb]. destruct (a_contains b id); [|done]. cbn [negb].
    destruct (q =? 0); [done|]. cbv zeta. case_bool_decide; cbn [negb]; [|done]. by rewrite admits_modify.
  - unfold gw_modify. by rewrite Hg.
Qed.

Lemma gateway_refines e c :
  engine_wf e -> command_ok c ->
  let r := apply_command config e c in
  engine_wf r.2 /\ a_gateway config (e_abs e) c = (r.1, e_abs r.2).
Proof.
  intros Hwf Hok. rewrite apply_command_verdict by done. unfold a_gateway. cbv zeta. case_bool_decide; [|done].
  assert (engine_room e) as Hroom by (apply Forall_true; intros; apply Hu).
  pose proof (apply_refines e c Hwf Hroom Hok) as [Hwf1 He]. rewrite unbounded_admits in He by done.
  destruct (apply e c) as [events e1]. cbn [fst snd] in *. by rewrite <- He.
Qed.

Lemma gateway_all_refines cmds : forall e,
  engine_wf e -> Forall command_ok cmds ->
  let r := gateway_all e cmds in
  engine_wf r.2 /\ a_gateway_all config (e_abs e) cmds = (r.1, e_abs r.2).
Proof.
  induction cmds as [|c cmds IH]; intros e Hwf Hok; [done|]. apply Forall_cons in Hok as [Hc Hok]. cbn [gateway_all a_gateway_all].
  pose proof (gateway_refines e c Hwf Hc) as [Hwf1 He]. destruct (apply_command config e c) as [r e1]. cbn [fst snd] in *. rewrite He.
  specialize (IH e1 Hwf1 Hok). destruct (gateway_all e1 cmds) as [rs e2]. cbn [fst snd] in *. destruct IH as [Hwf2 ->]. done.
Qed.
End GatewayRefinement.

(** ** Typed: the values of resting orders and events stay in their types

    A predicate on the id and the price of every order that was submitted holds of
    every resting order, and the fields of the events of a stream are in range. *)

Section Provenance.
Context (P : OrderId -> Price -> Prop).
Implicit Types b : ABook.

Definition order_from (o : Order) : Prop := P (o_id o) (o_price o) /\ is_valid_side (o_side o) = true.
Definition trade_from (t : Trade) : Prop := P (t_maker_id t) (t_price t) /\ in_u32 (t_quantity t) /\ 0 < t_quantity t.

Definition book_ok b : Prop := a_wf b /\ Forall order_from (a_orders b).

Lemma a_match_from taker cross opp : forall q,
  in_u32 q -> Forall (fun o => in_u32 (o_quantity o) /\ 0 < o_quantity o) opp -> Forall order_from opp ->
  let r := a_match taker cross q opp in Forall trade_from r.1.1 /\ Forall order_from r.2.
Proof.
  induction opp as [|o opp IH]; intros q Hq Hqs Hf; cbn [a_match]; [done|]. pose proof Hf as [Ho Hf']%Forall_cons. pose proof Hqs as [[Hoq Hpos] Hqs']%Forall_cons.
  destruct ((0 <? q) && cross (o_price o)) eqn:Eq; [|done]. apply andb_true_iff in Eq as [Eq _]. destruct (o_quantity o <=? q) eqn:E.
  - destruct (IH (q - o_quantity o)) as [H1 H2]; [unfold in_u32 in *; lia|done|done|]. destruct (a_match _ _ _ _) as [[ts r] l]. cbn in *.
    split; [|done]. constructor; [|done]. split; [apply Ho|done].
  - cbn. split; [|by constructor]. constructor; [|constructor]. split; [apply Ho|]. unfold in_u32 in *. cbn. lia.
Qed.

Lemma a_orders_set_side b is_bid l : Forall order_from l -> Forall order_from (a_orders b) -> Forall order_from (a_orders (a_set_side is_bid l b)).
Proof. intros Hl [Hb Ha]%Forall_app. unfold a_orders. destruct is_bid; cbn; by apply Forall_app. Qed.

Lemma a_take_from b id side limit mkt q :
  book_ok b -> in_u32 q -> let r := a_take b id side limit mkt q in Forall trade_from r.1.1 /\ Forall order_from (a_orders r.2).
Proof.
  intros [Hwf Hf] Hq. unfold a_take. pose proof (a_side_wf b (negb (is_buy side)) Hwf) as [_ Hqs _].
  assert (Forall order_from (a_side (negb (is_buy side)) b)) as Hs. { apply Forall_app in Hf as [Hb Ha]. by destruct (is_buy side). }
  pose proof (a_match_from id (can_match_level (is_buy side) mkt limit) _ q Hq Hqs Hs) as [H1 H2]. destruct (a_match _ _ _ _) as [[ts r] l]. cbn in *.
  split; [done|]. by apply a_orders_set_side.
Qed.

Lemma a_rest_from o b : order_from o -> Forall order_from (a_orders b) -> Forall order_from (a_orders (a_rest o b)).
Proof.
  intros Ho Hf. unfold a_rest. apply a_orders_set_side; [|done]. rewrite a_insert_Permutation. constructor; [done|].
  apply Forall_app in Hf as [Hb Ha]. by destruct (is_buy (o_side o)).
Qed.

Lemma a_add_limit_from b id side price q tif :
  book_ok b -> is_valid_side side = true -> in_u32 q -> P id price ->
  let r := a_add_limit b id side price q tif in Forall trade_from r.1 /\ book_ok r.2.
Proof.
  intros Hok Hside Hq HP. split; [|split; [by apply a_add_limit_wf; [apply Hok|]|]].
  all: unfold a_add_limit; destruct (a_contains b id); [by (constructor || apply Hok)|].
  all: destruct (a_take_from b id side price false q Hok Hq) as [H1 H2]; destruct (a_take _ _ _ _ _ _) as [[ts r] b']; cbn in H1, H2; destruct (_ && _); cbn [fst snd]; try done.
  by apply a_rest_from.
Qed.

Lemma a_add_market_from b id side q :
  book_ok b -> in_u32 q -> let r := a_add_market b id side q in Forall trade_from r.1 /\ book_ok r.2.
Proof.
  intros Hok Hq. split; [|split; [by apply a_add_market_wf; [apply Hok|]|]].
  all: unfold a_add_market; destruct (a_contains b id); [by (constructor || apply Hok)|].
  all: destruct (a_take_from b id side 0 true q Hok Hq) as [H1 H2]; by destruct (a_take _ _ _ _ _ _) as [[ts r] b'].
Qed.

Lemma a_remove_from b id : book_ok b -> book_ok (a_remove id b).
Proof.
  intros [Hwf Hf]. split; [by apply a_remove_wf|]. apply Forall_app in Hf as [Hb Ha]. unfold a_orders, a_remove. cbn. apply Forall_app.
  rewrite Forall_forall in Hb, Ha. split; apply Forall_forall; intros o [_ Ho]%list_elem_of_filter; auto.
Qed.

Lemma a_modify_from b id price q :
  book_ok b -> in_u32 q -> P id price -> let r := a_modify b id price q in Forall trade_from r.1 /\ book_ok r.2.
Proof.
  intros Hok Hq HP. pose proof (a_modify_wf b id price q (proj1 Hok) Hq) as Hwf'. unfold a_modify in *. destruct (a_find b id) as [o|] eqn:Ef; [|done].
  destruct (q =? 0); [cbn; by split; [constructor|apply a_remove_from]|]. destruct ((price =? o_price o) && (q <=? o_quantity o)).
  - cbn [fst snd]. split; [constructor|]. split; [done|]. destruct Hok as [_ Hf]. unfold a_assign, a_orders in *. cbn. rewrite <- map_app. apply Forall_map.
    eapply Forall_impl; [exact Hf|]. intros x Hx. cbn. by destruct (o_id x =? id).
  - apply a_add_limit_from; [by apply a_remove_from| |done|done]. destruct Hok as [_ Hf]. unfold a_find in Ef. apply fmap_Some in Ef as ([k x] & Ef & ->).
    apply list_find_Some in Ef as (Hk & _). eapply Forall_lookup_1 in Hf as [_ Hf]; [|exact Hk]. done.
Qed.

(** ** The engine *)

Definition command_from (c : Command) : Prop :=
  match c with NewLimit _ id _ price _ _ | Modify _ id price _ => P id price | _ => True end.

Definition event_ok (e : EngineEvent) : Prop :=
  match e with
  | OrderAccepted seq symbol id | OrderCanceled seq symbol id | OrderModified seq symbol id => in_u64 seq /\ in_u32 symbol /\ in_u64 id
  | TradeEvent seq symbol taker maker price quantity =>
      in_u64 seq /\ in_u32 symbol /\ in_u64 taker /\ P maker price /\ in_u32 quantity
  end.

Definition books_ok (ae : AEngine) : Prop := Forall (fun s => book_ok s.2) (ae_books ae).

Lemma number_trades_ok symbol taker ts : forall s,
  in_u32 symbol -> in_u64 taker -> Forall (fun t => t_taker_id t = taker) ts -> Forall trade_from ts ->
  Forall event_ok (number s (map (trade_event symbol) ts)).
Proof.
  induction ts as [|t ts IH]; intros s Hsym Htk Ht Hf; cbn [map number]; [constructor|]. apply Forall_cons in Ht as [<- Ht]. apply Forall_cons in Hf as [(Hf1 & Hf2 & _) Hf].
  constructor; [|by apply IH]. cbn. split; [apply u64_range|]. done.
Qed.

Lemma respond_ok ae symbol b' taker f ts :
  books_ok ae -> book_ok b' -> in_u32 symbol -> in_u64 taker -> (forall s, in_u64 s -> event_ok (f s)) ->
  Forall (fun t => t_taker_id t = taker) ts -> Forall trade_from ts ->
  let r := a_respond ae symbol b' (f :: map (trade_event symbol) ts) in Forall event_ok r.1 /\ books_ok r.2.
Proof.
  intros Hb Hb' Hsym Htk Hf Ht Hts. cbn [a_respond fst snd]. split.
  - cbn [number]. constructor; [apply Hf, u64_range|]. by apply (number_trades_ok _ taker).
  - unfold books_ok in *. cbn [ae_books]. by apply (om_alter_Forall book_ok).
Qed.

Lemma books_ok_find ae symbol b : books_ok ae -> om_find symbol (ae_books ae) = Some b -> book_ok b.
Proof.
  intros Hb Hf. unfold books_ok in Hb. apply om_find_Some in Hf as (l & r & E & _). rewrite E in Hb. by apply Forall_app in Hb as [_ [Hb _]%Forall_cons].
Qed.

Lemma a_apply_ok ae c :
  books_ok ae -> command_ok c -> command_from c -> let r := a_apply true ae c in Forall event_ok r.1 /\ books_ok r.2.
Proof.
  intros Hb Hok Hfrom. destruct c as [name|symbol id side price q tif|symbol id side q|symbol id|symbol id price q]; cbn [a_apply command_ok command_from] in *.
  - destruct (intern (ae_registry ae) name) as [id r]. cbn. split; [constructor|]. unfold books_ok in *. cbn.
    apply (om_try_emplace_Forall _ book_ok); [done|]. split; [apply a_wf_empty|constructor].
  - destruct Hok as (Hsym & Hid & Hside & _ & Hq & _). destruct (om_find symbol (ae_books ae)) as [b|] eqn:Eb; [|done]. destruct (a_contains b id || negb true); [done|].
    destruct (a_add_limit_from b id side price q tif (books_ok_find _ _ _ Hb Eb) Hside Hq Hfrom) as [H1 H2]. pose proof (a_add_limit_takers b id side price q tif) as Ht.
    destruct (a_add_limit b id side price q tif) as [ts b']. by apply (respond_ok ae symbol b' id).
  - destruct Hok as (Hsym & Hid & _ & Hq). destruct (om_find symbol (ae_books ae)) as [b|] eqn:Eb; [|done]. destruct (a_contains b id); [done|].
    destruct (a_add_market_from b id side q (books_ok_find _ _ _ Hb Eb) Hq) as [H1 H2]. pose proof (a_add_market_takers b id side q) as Ht.
    destruct (a_add_market b id side q) as [ts b']. by apply (respond_ok ae symbol b' id).
  - destruct Hok as (Hsym & Hid). destruct (om_find symbol (ae_books ae)) as [b|] eqn:Eb; [|done]. destruct (a_contains b id); [|done].
    apply (respond_ok ae symbol (a_remove id b) id (fun s => OrderCanceled s symbol id) []); try done. apply a_remove_from. by eapply books_ok_find.
  - destruct Hok as (Hsym & Hid & _ & Hq). destruct (om_find symbol (ae_books ae)) as [b|] eqn:Eb; [|done]. destruct (negb (a_contains b id) || negb true); [done|].
    destruct (a_modify_from b id price q (books_ok_find _ _ _ Hb Eb) Hq Hfrom) as [H1 H2]. pose proof (a_modify_takers b id price q) as Ht.
    destruct (a_modify b id price q) as [ts b']. by apply (respond_ok ae symbol b' id).
Qed.

Lemma a_gateway_all_ok config cmds : forall ae,
  books_ok ae -> Forall command_ok cmds -> Forall command_from cmds ->
  let r := a_gateway_all config ae cmds in Forall (fun g => Forall event_ok (g_events g)) r.1 /\ books_ok r.2.
Proof.
  induction cmds as [|c cmds IH]; intros ae Hb Hok Hf; [by split|]. apply Forall_cons in Hok as [Hc Hok]. apply Forall_cons in Hf as [Hcf Hf]. cbn [a_gateway_all].
  assert (Forall event_ok (g_events (a_gateway config ae c).1) /\ books_ok (a_gateway config ae c).2) as [H1 H2].
  { unfold a_gateway. case_bool_decide; [|by split]. pose proof (a_apply_ok ae c Hb Hc Hcf) as [H1 H2]. by destruct (a_apply true ae c). }
  destruct (a_gateway config ae c) as [r ae1]. destruct (IH ae1 H2 Hok Hf) as [H3 H4]. destruct (a_gateway_all config ae1 cmds) as [rs ae2]. cbn in *.
  split; [by constructor|done].
Qed.
End Provenance.
