(* ===== verification/Recovery.v ===== *)
(** * Recovery: replaying a command log

    [replay] of src/replay/recovery.cpp: rebuild an engine by applying every
    command record of a log in order, skipping other records and payloads that
    do not decode. *)
From S2P Require Import Prelude Core Book BookSpec Endian Command EventLog Engine EngineSpec Gateway.

Section Recovery.
Context {B : Type} `{BookStore B}.
Implicit Types e : MatchingEngine B.

(** The loop over the records, with the accumulated events. *)
Definition replay_record (s : list EngineEvent * MatchingEngine B) (record : LogRecord) :
    list EngineEvent * MatchingEngine B :=
  let '(events, e) := s in
  if negb (bool_decide (lr_type record = CommandRecord)) then s
  else
    match decode_command (lr_payload record) with
    | None => s
    | Some command =>
        let '(produced, e) := apply e command in
        (events ++ produced, e)
    end.

Definition replay e (records : list LogRecord) : list EngineEvent * MatchingEngine B :=
  fold_left replay_record records ([], e).

(** The command a record carries, if any. *)
Definition command_of (record : LogRecord) : option Command :=
  if bool_decide (lr_type record = CommandRecord) then decode_command (lr_payload record) else None.

Definition commands_of (records : list LogRecord) : list Command := omap command_of records.

Lemma replay_from records : forall events e,
  fold_left replay_record records (events, e) =
    (events ++ (apply_all e (commands_of records)).1, (apply_all e (commands_of records)).2).
Proof.
  induction records as [|record records IH]; intros events e; [simpl; by rewrite app_nil_r|].
  cbn [fold_left]. unfold commands_of. cbn [omap list_omap]. fold (commands_of records).
  unfold replay_record at 2, command_of. case_bool_decide; cbn [negb]; [|apply IH].
  destruct (decode_command (lr_payload record)) as [c|]; [|apply IH]. cbn [apply_all].
  destruct (apply e c) as [produced e1]. rewrite IH.
  destruct (apply_all e1 (commands_of records)) as [events' e2]. simpl. by rewrite app_assoc.
Qed.

(** Replaying a log is running the commands it carries. *)
Lemma replay_spec e records : replay e records = apply_all e (commands_of records).
Proof. unfold replay. rewrite replay_from. by destruct (apply_all e (commands_of records)). Qed.
End Recovery.

(** A command logged under a sequence number and a logical time. *)
Definition command_record (seq_no : SeqNo) (time : Timestamp) (c : Command) : LogRecord :=
  mkLogRecord seq_no CommandRecord time (encode_command c).

Lemma command_of_record seq_no time c : command_ok c -> command_of (command_record seq_no time c) = Some c.
Proof. intros Hok. unfold command_of, command_record. simpl. by apply decode_encode_command. Qed.

(** Log the commands with consecutive numbers from [n]. *)
Fixpoint log_commands (n : Z) (cmds : list Command) : list LogRecord :=
  match cmds with
  | [] => []
  | c :: cmds' => command_record n n c :: log_commands (n + 1) cmds'
  end.

Lemma commands_of_log cmds : forall n, Forall command_ok cmds -> commands_of (log_commands n cmds) = cmds.
Proof.
  induction cmds as [|c cmds IH]; intros n Hok; [done|]. apply Forall_cons in Hok as [Hc Hok].
  unfold commands_of in *. cbn [log_commands omap list_omap].
  rewrite command_of_record by done. f_equal. by apply IH.
Qed.

(** The payload of a command fits a record unless it registers a huge name. *)
Definition loggable (c : Command) : Prop :=
  command_ok c /\
  match c with RegisterSymbol name => Z.of_nat (String.length name) < kMaxPayload | _ => True end.

Lemma length_encode_command c :
  loggable c -> Z.of_nat (length (encode_command c)) <= kMaxPayload.
Proof.
  intros [_ Hn]. destruct c; cbn [encode_command].
  - cbn [length]. unfold bytes_of_string. rewrite List.length_map.
    replace (length (String.list_ascii_of_string name)) with (String.length name); [lia|].
    clear. induction name; simpl; congruence.
  - rewrite !length_set_byte, !length_store_be, length_set_byte, length_zeros. by apply Z.leb_le.
  - rewrite length_store_be, length_set_byte, !length_store_be, length_set_byte, length_zeros. by apply Z.leb_le.
  - rewrite !length_store_be, length_set_byte, length_zeros. by apply Z.leb_le.
  - rewrite !length_store_be, length_set_byte, length_zeros. by apply Z.leb_le.
Qed.

Lemma command_record_ok n c : loggable c -> in_u64 n -> record_ok (command_record n n c).
Proof.
  intros Hl Hn. split_and!; try done. by apply length_encode_command.
Qed.

Lemma log_commands_ok cmds : forall n,
  Forall loggable cmds -> 0 <= n -> n + Z.of_nat (length cmds) <= 2 ^ 64 ->
  Forall record_ok (log_commands n cmds).
Proof.
  induction cmds as [|c cmds IH]; intros n Hl H0 Hb; [constructor|]. apply Forall_cons in Hl as [Hc Hl].
  cbn [length] in Hb. constructor; [|apply IH; try done; lia].
  apply command_record_ok; [done|]. unfold in_u64. lia.
Qed.

(** ** Sessions through the gateway *)

Section GatewayRun.
Context {B : Type} `{HL : BookStoreLaws B}.
Implicit Types e : MatchingEngine B.
Variable config : RiskConfig.

(** A command stream through the risk gateway: the commands that were accepted,
    their events, and the engine. *)
Fixpoint gateway_run e (cmds : list Command) : list Command * list EngineEvent * MatchingEngine B :=
  match cmds with
  | [] => ([], [], e)
  | c :: cmds' =>
      let '(r, e1) := apply_command config e c in
      let '(accepted, events, e2) := gateway_run e1 cmds' in
      ((if g_accepted r then c :: accepted else accepted), g_events r ++ events, e2)
  end.

(** Replaying the accepted commands without the gateway gives the same events
    and the same engine. *)
Lemma gateway_run_replays cmds : forall e,
  (forall b : B, bs_room b) -> engine_wf e -> Forall command_ok cmds ->
  let '(accepted, events, e') := gateway_run e cmds in
  apply_all e accepted = (events, e') /\ sublist accepted cmds.
Proof.
  induction cmds as [|c cmds IH]; intros e Hroom Hwf Hok; [done|].
  apply Forall_cons in Hok as [Hc Hok]. cbn [gateway_run].
  assert (engine_room e) as Hr by (by apply Forall_true).
  pose proof (apply_command_spec config e c Hwf Hr Hc) as Hs.
  destruct (apply_command config e c) as [r e1]. cbn [fst snd] in Hs.
  destruct Hs as [(Hacc & _ & Hev & ->)|(Hacc & _ & Happ & _)].
  - specialize (IH e Hroom Hwf Hok). destruct (gateway_run e cmds) as [[accepted events] e2].
    rewrite Hacc, Hev. destruct IH as [-> Hsub]. split; [done|]. by apply sublist_cons.
  - pose proof (apply_refines e c Hwf Hr Hc) as [Hwf1 _]. rewrite Happ in Hwf1.
    specialize (IH e1 Hroom Hwf1 Hok). destruct (gateway_run e1 cmds) as [[accepted events] e2].
    rewrite Hacc. destruct IH as [IHa Hsub]. cbn [apply_all]. rewrite Happ, IHa. split; [done|]. by apply sublist_skip.
Qed.
End GatewayRun.
