(* ===== verification/Shrink.v ===== *)
(** * Shrink: reducing a failing command stream

    include/qsl/replay/shrink.hpp and src/replay/shrink.cpp: greedy removal of
    chunks, simplification of fields and renumbering of ids, repeated until a
    pass changes nothing.  The failure predicate is any boolean function of the
    stream. *)
From S2P Require Import Prelude Core Book BookSpec Text Command Engine Gateway.

(** ** Candidates *)

Definition without (v : list Command) (i n : nat) : list Command := take i v ++ drop (i + n) v.

Definition with_min_qty (c : Command) : Command :=
  match c with
  | NewLimit symbol id side price _ tif => NewLimit symbol id side price 1 tif
  | NewMarket symbol id side _ => NewMarket symbol id side 1
  | Modify symbol id price _ => Modify symbol id price 1
  | _ => c
  end.

Definition with_min_price (c : Command) : Command :=
  match c with
  | NewLimit symbol id side _ quantity tif => NewLimit symbol id side 1 quantity tif
  | Modify symbol id _ quantity => Modify symbol id 1 quantity
  | _ => c
  end.

(** ** Renumbering *)

Fixpoint duplicate_names (names : gset string) (cmds : list Command) : bool :=
  match cmds with
  | [] => false
  | RegisterSymbol name :: cmds' =>
      if bool_decide (name ∈ names) then true else duplicate_names ({[name]} ∪ names) cmds'
  | _ :: cmds' => duplicate_names names cmds'
  end.

Definition has_duplicate_symbol_registration_names (cmds : list Command) : bool := duplicate_names ∅ cmds.

(** The symbol of a command other than a registration. *)
Definition command_symbol (c : Command) : option SymbolId :=
  match c with
  | RegisterSymbol _ => None
  | NewLimit symbol _ _ _ _ _ | NewMarket symbol _ _ _ | Cancel symbol _ | Modify symbol _ _ _ => Some symbol
  end.

Definition collect_referenced_symbols (cmds : list Command) : gset Z :=
  fold_left (fun referenced c => match command_symbol c with Some s => {[s]} ∪ referenced | None => referenced end) cmds ∅.

(** [std::map::operator[]] followed by an assignment. *)
Definition om_assign (k v : Z) (m : list (Z * Z)) : list (Z * Z) := om_alter (fun _ => v) k (om_try_emplace Z.ltb k v m).

Record SymbolRemap := mkSymbolRemap { sr_remap : list (Z * Z); sr_old_sym : SymbolId; sr_new_sym : SymbolId }.

Definition remap_registration (referenced : gset Z) (s : SymbolRemap) (c : Command) : SymbolRemap :=
  match c with
  | RegisterSymbol _ =>
      let s :=
        if bool_decide (sr_old_sym s ∈ referenced)
        then mkSymbolRemap (om_assign (sr_old_sym s) (sr_new_sym s) (sr_remap s)) (sr_old_sym s) (u32 (sr_new_sym s + 1))
        else s in
      mkSymbolRemap (sr_remap s) (u32 (sr_old_sym s + 1)) (sr_new_sym s)
  | _ => s
  end.

Definition build_symbol_remap (cmds : list Command) (referenced : gset Z) : list (Z * Z) :=
  sr_remap (fold_left (remap_registration referenced) cmds (mkSymbolRemap [] 0 0)).

Definition remap_symbol (remap : list (Z * Z)) (symbol : SymbolId) : SymbolId :=
  match om_find symbol remap with None => symbol | Some s => s end.

Record OrderIdRemapper := mkOrderIdRemapper { remap_ : list (Z * Z); next_id_ : OrderId }.
Definition new_remapper : OrderIdRemapper := mkOrderIdRemapper [] 0.

(** [OrderIdRemapper::map]. *)
Definition map_id (r : OrderIdRemapper) (id : OrderId) : OrderId * OrderIdRemapper :=
  match om_find id (remap_ r) with
  | Some new_id => (new_id, r)
  | None => (next_id_ r, mkOrderIdRemapper (om_try_emplace Z.ltb id (next_id_ r) (remap_ r)) (u64 (next_id_ r + 1)))
  end.

Definition remap_non_register_command (c : Command) (sym_remap : list (Z * Z)) (id_remap : OrderIdRemapper) :
    Command * OrderIdRemapper :=
  match c with
  | NewLimit symbol id side price quantity tif =>
      let '(id, r) := map_id id_remap id in (NewLimit (remap_symbol sym_remap symbol) id side price quantity tif, r)
  | NewMarket symbol id side quantity =>
      let '(id, r) := map_id id_remap id in (NewMarket (remap_symbol sym_remap symbol) id side quantity, r)
  | Cancel symbol id => let '(id, r) := map_id id_remap id in (Cancel (remap_symbol sym_remap symbol) id, r)
  | Modify symbol id price quantity =>
      let '(id, r) := map_id id_remap id in (Modify (remap_symbol sym_remap symbol) id price quantity, r)
  | RegisterSymbol _ => (c, id_remap)
  end.

(** The name of a renumbered symbol. *)
Definition symbol_name (s : SymbolId) : string := String.append "S" (string_of_bytes (to_string s)).

Definition append_renumbered_registration (out : list Command) (old_sym : SymbolId) (sym_remap : list (Z * Z)) : list Command :=
  match om_find old_sym sym_remap with
  | Some s => out ++ [RegisterSymbol (symbol_name s)]
  | None => out
  end.

Record Renumbering := mkRenumbering { rn_out : list Command; rn_old_sym : SymbolId; rn_ids : OrderIdRemapper }.

Definition renumber_command (sym_remap : list (Z * Z)) (s : Renumbering) (c : Command) : Renumbering :=
  match c with
  | RegisterSymbol _ =>
      mkRenumbering (append_renumbered_registration (rn_out s) (rn_old_sym s) sym_remap) (u32 (rn_old_sym s + 1)) (rn_ids s)
  | _ =>
      let '(c, ids) := remap_non_register_command c sym_remap (rn_ids s) in
      mkRenumbering (rn_out s ++ [c]) (rn_old_sym s) ids
  end.

Definition renumber (cmds : list Command) : list Command :=
  if has_duplicate_symbol_registration_names cmds then cmds
  else
    let referenced := collect_referenced_symbols cmds in
    let sym_remap := build_symbol_remap cmds referenced in
    rn_out (fold_left (renumber_command sym_remap) cmds (mkRenumbering [] 0 new_remapper)).

(** ** Reduction *)

Section Shrink.
Context (fails : list Command -> bool).

(** The loop of [try_remove_chunks_of_size]: the stream, the position and whether
    it changed.  Every iteration shortens the part of the stream behind the
    position. *)
Definition chunk_step (chunk_size : nat) (s : list Command * nat * bool) : list Command * nat * bool :=
  let '(cur, i, changed) := s in
  let candidate := without cur i chunk_size in
  if fails candidate then (candidate, i, true) else (cur, (i + chunk_size)%nat, changed).

Definition try_remove_chunks_of_size (cur : list Command) (chunk_size : nat) : list Command * bool :=
  let '(cur, _, changed) :=
    while (length cur) (fun s => (s.1.2 + chunk_size <=? length s.1.1)%nat) (chunk_step chunk_size) (cur, 0%nat, false) in
  (cur, changed).

(** The chunk sizes halve, so the length bounds their number. *)
Definition halve_step (s : nat * list Command * bool) : nat * list Command * bool :=
  let '(n, cur, changed) := s in
  let '(cur, c) := try_remove_chunks_of_size cur n in
  ((n / 2)%nat, cur, c || changed).

Definition remove_multi_command_chunks (cur : list Command) : list Command * bool :=
  let n := if (1 <? length cur)%nat then (length cur / 2)%nat else 1%nat in
  let '(_, cur, changed) := while (length cur) (fun s => (1 <? s.1.1)%nat) halve_step (n, cur, false) in
  (cur, changed).

Definition remove_single_commands (cur : list Command) : list Command * bool := try_remove_chunks_of_size cur 1.

Definition remove_contiguous_ranges (cur : list Command) : list Command * bool :=
  let '(cur, changed) := remove_multi_command_chunks cur in
  let '(cur, c) := remove_single_commands cur in
  (cur, c || changed).

Definition simplify_at (simplify : Command -> Command) (s : list Command * bool) (i : nat) : list Command * bool :=
  let '(cur, changed) := s in
  match cur !! i with
  | None => s
  | Some c =>
      let candidate := <[i := simplify c]> cur in
      if negb (bool_decide (simplify c = c)) && fails candidate then (candidate, true) else s
  end.

Definition simplify_fields (cur : list Command) (simplify : Command -> Command) : list Command * bool :=
  fold_left (simplify_at simplify) (seq 0 (length cur)) (cur, false).

Definition simplify_quantities (cur : list Command) : list Command * bool := simplify_fields cur with_min_qty.
Definition simplify_prices (cur : list Command) : list Command * bool := simplify_fields cur with_min_price.

Definition renumber_symbols_and_orders (cur : list Command) : list Command * bool :=
  let candidate := renumber cur in
  if negb (bool_decide (candidate = cur)) && fails candidate then (candidate, true) else (cur, false).

Definition run_reduction_pass (cur : list Command) : list Command * bool :=
  let '(cur, changed) := remove_contiguous_ranges cur in
  let '(cur, c) := simplify_quantities cur in
  let changed := c || changed in
  let '(cur, c) := simplify_prices cur in
  let changed := c || changed in
  let '(cur, c) := renumber_symbols_and_orders cur in
  (cur, c || changed).

(** Bound on the passes: each but the last removes a command, lowers a field or
    brings the ids into canonical form. *)
Definition pass_bound (cur : list Command) : nat := (6 * length cur + 2)%nat.

Definition pass_step (s : list Command * nat * bool) : list Command * nat * bool :=
  let '(cur, passes, _) := s in
  let '(cur, changed) := run_reduction_pass cur in
  (cur, S passes, changed).

(** [shrink]: the stream and the number of passes. *)
Definition shrink (cur : list Command) : list Command * nat :=
  if negb (fails cur) then (cur, 0%nat)
  else
    let '(cur, passes, _) := while (pass_bound cur) snd pass_step (cur, 0%nat, true) in
    (cur, passes).
End Shrink.

(** ** Counting trades *)

Definition is_trade (event : EngineEvent) : bool := match event with TradeEvent _ _ _ _ _ _ => true | _ => false end.

Section CountTrades.
Context {B : Type} `{BookStore B}.

Definition count_step (config : RiskConfig) (s : nat * MatchingEngine B) (c : Command) : nat * MatchingEngine B :=
  let '(trades, e) := s in
  let '(r, e) := apply_command config e c in
  ((trades + length (filter (fun event => is_trade event = true) (g_events r)))%nat, e).

Definition count_trades (commands : list Command) (max_qty max_notional : Z) : nat :=
  (fold_left (count_step (mkRiskConfig max_qty max_notional)) commands (0%nat, new_engine Baseline)).1.
End CountTrades.

(** ** ShrinkSpec: lemmas on the shrinker

    Every reduction keeps the failure and lowers a weight, so the passes end; and
    renumbering is idempotent. *)

(** ** The weight of a stream *)

(** One for the command and one for each field that can still be lowered. *)
Definition command_weight (c : Command) : nat :=
  match c with
  | NewLimit _ _ _ price quantity _ | Modify _ _ price quantity =>
      (1 + (if (quantity =? 1)%Z then 0 else 1) + (if (price =? 1)%Z then 0 else 1))%nat
  | NewMarket _ _ _ quantity => (1 + (if (quantity =? 1)%Z then 0 else 1))%nat
  | _ => 1%nat
  end.
Definition weight (cmds : list Command) : nat := sum_list (map command_weight cmds).
#[global] Arguments weight : simpl never.
#[global] Arguments without : simpl never.

Lemma weight_app a b : weight (a ++ b) = (weight a + weight b)%nat.
Proof. unfold weight. rewrite map_app. induction (map command_weight a) as [|w l IH]; cbn in *; [done|]. lia. Qed.
Lemma command_weight_bounds c : (1 <= command_weight c <= 3)%nat.
Proof. destruct c; cbn; repeat case_match; lia. Qed.
Lemma weight_bounds cmds : (length cmds <= weight cmds <= 3 * length cmds)%nat.
Proof.
  induction cmds as [|c cmds IH]; [done|]. change (weight (c :: cmds)) with (command_weight c + weight cmds)%nat.
  pose proof (command_weight_bounds c). cbn [length]. lia.
Qed.

Lemma with_min_qty_weight c : with_min_qty c <> c -> (command_weight (with_min_qty c) < command_weight c)%nat.
Proof. destruct c; cbn; try done; intros H; destruct (Z.eqb_spec quantity 1) as [->|]; try done; repeat case_match; lia. Qed.
Lemma with_min_price_weight c : with_min_price c <> c -> (command_weight (with_min_price c) < command_weight c)%nat.
Proof. destruct c; cbn; try done; intros H; destruct (Z.eqb_spec price 1) as [->|]; try done; repeat case_match; lia. Qed.

Lemma weight_insert i c d cmds :
  cmds !! i = Some c -> weight (<[i := d]> cmds) = (weight cmds - command_weight c + command_weight d)%nat.
Proof.
  intros H. rewrite <- (take_drop_middle cmds i c H) at 2. rewrite insert_take_drop by (by eapply lookup_lt_Some).
  rewrite !weight_app. change (weight (?x :: ?l)) with (command_weight x + weight l)%nat. lia.
Qed.

Lemma without_length cur i n : (i + n <= length cur)%nat -> length (without cur i n) = (length cur - n)%nat.
Proof. intros H. unfold without. rewrite length_app, length_take, length_drop. lia. Qed.
Lemma without_weight cur i n : (0 < n)%nat -> (i + n <= length cur)%nat -> (weight (without cur i n) < weight cur)%nat.
Proof.
  intros Hn H. unfold without. rewrite <- (take_drop i cur) at 3. rewrite !weight_app, <- (drop_drop cur n i).
  rewrite <- (take_drop n (drop i cur)) at 2. rewrite weight_app.
  pose proof (weight_bounds (take n (drop i cur))) as Hb. rewrite length_take, length_drop in Hb. lia.
Qed.

(** ** Reduction steps *)

Section Steps.
Context (fails : list Command -> bool).

(** A step keeps the failure and lowers the weight or changes nothing. *)
Record reduces (cur : list Command) (r : list Command * bool) : Prop := {
  rd_fails : fails cur = true -> fails r.1 = true;
  rd_length : (length r.1 <= length cur)%nat;
  rd_same : r.2 = false -> r.1 = cur;
  rd_weight : if r.2 then (weight r.1 < weight cur)%nat else (weight r.1 <= weight cur)%nat
}.

Lemma reduces_refl cur : reduces cur (cur, false).
Proof. split; cbn; [done|lia|done|lia]. Qed.

Lemma reduces_trans cur r1 c1 r2 c2 : reduces cur (r1, c1) -> reduces r1 (r2, c2) -> reduces cur (r2, c2 || c1).
Proof.
  intros [F1 L1 S1 W1] [F2 L2 S2 W2]. cbn in *. split; cbn; [auto|lia| |destruct c1, c2; cbn; lia].
  intros [H2 H1]%orb_false_elim. rewrite S2, S1; done.
Qed.

Lemma try_remove_chunks_ok cur n : (0 < n)%nat ->
  let r := try_remove_chunks_of_size fails cur n in
  reduces cur r /\ (r.2 = false -> n = 1%nat -> forall i, (i < length cur)%nat -> fails (without cur i 1) = false).
Proof.
  intros Hn r. unfold r, try_remove_chunks_of_size.
  pose (P := fun s : list Command * nat * bool => reduces cur (s.1.1, s.2) /\
    (s.2 = false -> n = 1%nat -> forall j, (j < s.1.2)%nat -> fails (without cur j 1) = false)).
  set (cond := fun s : list Command * nat * bool => (s.1.2 + n <=? length s.1.1)%nat).
  assert (P (while (length cur) cond (chunk_step fails n) (cur, 0%nat, false))) as HP.
  { apply while_inv; [|by split; [apply reduces_refl|intros _ _ j Hj; cbn in Hj; lia]].
    intros [[c i] ch] [Hr Hm] Hc. unfold cond in Hc. apply Nat.leb_le in Hc. cbn [fst snd] in *.
    unfold chunk_step. destruct (fails (without c i n)) eqn:Ef; split; cbn [fst snd].
    - destruct Hr as [F L S W]. cbn in *. pose proof (without_weight c i n Hn Hc). pose proof (without_length c i n Hc).
      split; cbn; [done|lia|done|destruct ch; lia].
    - done.
    - done.
    - intros -> Hn1 j Hj. subst n. pose proof (rd_same _ _ Hr eq_refl) as Hs. cbn in Hs. subst c.
      destruct (decide (j = i)) as [->|]; [done|]. apply Hm; [done|done|lia]. }
  assert (cond (while (length cur) cond (chunk_step fails n) (cur, 0%nat, false)) = false) as Hexit.
  { apply while_exits with (m := fun s => (length s.1.1 - s.1.2)%nat); [|cbn; lia].
    intros [[c i] ch] Hc. unfold cond in Hc. apply Nat.leb_le in Hc. cbn [fst snd] in *.
    unfold chunk_step. destruct (fails _); cbn [fst snd]; [rewrite without_length by done|]; lia. }
  destruct (while _ _ _ _) as [[c i] ch]. destruct HP as [Hr Hm]. cbn [fst snd] in *. split; [done|]. intros -> Hn1 j Hj.
  apply Hm; [done|done|]. unfold cond in Hexit. apply Nat.leb_gt in Hexit. cbn [fst snd] in *.
  pose proof (rd_same _ _ Hr eq_refl) as Hs. cbn in Hs. subst. lia.
Qed.

Lemma remove_multi_ok cur : reduces cur (remove_multi_command_chunks fails cur).
Proof.
  unfold remove_multi_command_chunks. cbv zeta. generalize (if (1 <? length cur)%nat then (length cur / 2)%nat else 1%nat). intros n.
  assert (let s := while (length cur) (fun s => (1 <? s.1.1)%nat) (halve_step fails) (n, cur, false) in reduces cur (s.1.2, s.2)) as HP.
  { apply (while_inv _ _ (fun s => reduces cur (s.1.2, s.2))); [|apply reduces_refl].
    intros [[k c] ch] Hr Hc. cbn [fst snd] in *. apply Nat.ltb_lt in Hc. unfold halve_step.
    pose proof (proj1 (try_remove_chunks_ok c k ltac:(lia))) as H. destruct (try_remove_chunks_of_size fails c k) as [c' ch'].
    cbn [fst snd]. by eapply reduces_trans. }
  by destruct (while _ _ _ _) as [[k c] ch].
Qed.

(** The chunk sizes reach one before the bound is spent. *)
Lemma remove_multi_exits cur n : (n <= length cur)%nat ->
  ((while (length cur) (fun s => (1 <? s.1.1)%nat) (halve_step fails) (n, cur, false)).1.1 <= 1)%nat.
Proof.
  intros Hn. apply Nat.ltb_ge. apply (while_exits (fun s => (1 <? s.1.1)%nat) (halve_step fails) (fun s => (s.1.1 - 1)%nat)); [|cbn; lia].
  intros [[k c] ch] Hc. cbn [fst] in Hc. apply Nat.ltb_lt in Hc. unfold halve_step. destruct (try_remove_chunks_of_size fails c k). cbn [fst].
  pose proof (Nat.div_lt k 2 ltac:(lia) ltac:(lia)). lia.
Qed.

Lemma remove_ranges_ok cur :
  let r := remove_contiguous_ranges fails cur in
  reduces cur r /\ (r.2 = false -> forall i, (i < length cur)%nat -> fails (without cur i 1) = false).
Proof.
  intros r. unfold r, remove_contiguous_ranges, remove_single_commands. pose proof (remove_multi_ok cur) as Hm.
  destruct (remove_multi_command_chunks fails cur) as [c1 ch1]. pose proof (try_remove_chunks_ok c1 1 ltac:(lia)) as [H1 H2].
  destruct (try_remove_chunks_of_size fails c1 1) as [c2 ch2]. cbn [fst snd] in *. split; [by eapply reduces_trans|].
  intros [-> ->]%orb_false_elim. pose proof (rd_same _ _ Hm eq_refl) as Hs. cbn in Hs. subst c1. by apply H2.
Qed.

Lemma simplify_fields_ok cur simplify :
  (forall c, simplify c <> c -> (command_weight (simplify c) < command_weight c)%nat) ->
  let r := simplify_fields fails cur simplify in
  reduces cur r /\ (r.2 = false -> forall i c, cur !! i = Some c -> simplify c <> c -> fails (<[i := simplify c]> cur) = false).
Proof.
  intros Hw. unfold simplify_fields.
  assert (forall k, (k <= length cur)%nat -> let r := fold_left (simplify_at fails simplify) (seq 0 k) (cur, false) in
    reduces cur r /\ length r.1 = length cur /\
    (r.2 = false -> forall i c, (i < k)%nat -> cur !! i = Some c -> simplify c <> c -> fails (<[i := simplify c]> cur) = false)) as H.
  { induction k as [|k IH]; intros Hk; [split; [apply reduces_refl|]; split; [done|intros _ i c Hi; lia]|].
    rewrite seq_S, fold_left_app. cbn [fold_left]. destruct (IH ltac:(lia)) as (Hr & Hl & Hm).
    destruct (fold_left _ (seq 0 k) _) as [c1 ch1]. cbn [fst snd] in *. unfold simplify_at. rewrite Nat.add_0_l.
    destruct (lookup_lt_is_Some_2 c1 k ltac:(lia)) as [c Hc]. rewrite Hc.
    case_bool_decide as He; cbn [negb andb]; [|destruct (fails (<[k := simplify c]> c1)) eqn:Ef].
    - cbn [fst snd]. split; [done|]. split; [done|]. intros -> i d Hi Hd Hs. pose proof (rd_same _ _ Hr eq_refl) as Hsame. cbn in Hsame. subst c1.
      destruct (decide (i = k)) as [->|]; [congruence|]. apply Hm; [done|lia|done|done].
    - cbn [fst snd]. split; [|split; [by rewrite length_insert|done]]. destruct Hr as [F L S W]. cbn in *.
      pose proof (Hw c He). pose proof (weight_insert k c (simplify c) c1 Hc).
      assert (command_weight c <= weight c1)%nat.
      { rewrite <- (take_drop_middle c1 k c Hc), weight_app. change (weight (c :: ?l)) with (command_weight c + weight l)%nat. lia. }
      split; cbn; [done|rewrite length_insert; lia|done|destruct ch1; lia].
    - cbn [fst snd]. split; [done|]. split; [done|]. intros -> i d Hi Hd Hs. pose proof (rd_same _ _ Hr eq_refl) as Hsame. cbn in Hsame. subst c1.
      destruct (decide (i = k)) as [->|]; [congruence|]. apply Hm; [done|lia|done|done]. }
  destruct (H (length cur) ltac:(lia)) as (H1 & _ & H3). split; [done|]. intros Hf i c Hi. apply H3; [done| |done]. by eapply lookup_lt_Some.
Qed.
End Steps.

(** ** Invariants of the reduction *)

Section Invariant.
Context (fails : list Command -> bool) (Q : list Command -> Prop).
Context (Hwithout : forall cur i n, Q cur -> Q (without cur i n)).
Context (Hqty : forall cur i c, Q cur -> cur !! i = Some c -> Q (<[i := with_min_qty c]> cur)).
Context (Hprice : forall cur i c, Q cur -> cur !! i = Some c -> Q (<[i := with_min_price c]> cur)).
Context (Hrenumber : forall cur, Q cur -> Q (renumber cur)).

Lemma try_remove_chunks_inv cur n : Q cur -> Q (try_remove_chunks_of_size fails cur n).1.
Proof.
  intros HQ. unfold try_remove_chunks_of_size. pose proof (while_inv (fun s : list Command * nat * bool => (s.1.2 + n <=? length s.1.1)%nat) (chunk_step fails n) (fun s => Q s.1.1)) as Hw.
  specialize (Hw ltac:(intros [[c i] b] Hs _; unfold chunk_step; cbn in *; destruct (fails _); cbn; auto) (length cur) (cur, 0%nat, false) HQ).
  by destruct (while _ _ _ _) as [[c i] b].
Qed.

Lemma remove_ranges_inv cur : Q cur -> Q (remove_contiguous_ranges fails cur).1.
Proof.
  intros HQ. unfold remove_contiguous_ranges, remove_multi_command_chunks. set (n := if (1 <? length cur)%nat then _ else _).
  pose proof (while_inv (fun s : nat * list Command * bool => (1 <? s.1.1)%nat) (halve_step fails) (fun s => Q s.1.2)) as Hw.
  assert (forall s : nat * list Command * bool, Q s.1.2 -> (1 <? s.1.1)%nat = true -> Q (halve_step fails s).1.2) as Hstep.
  { intros [[k c] b] Hs _. unfold halve_step. pose proof (try_remove_chunks_inv c k Hs) as H. by destruct (try_remove_chunks_of_size fails c k). }
  specialize (Hw Hstep (length cur) (n, cur, false) HQ). destruct (while _ _ _ _) as [[k c] b]. cbn in Hw. unfold remove_single_commands.
  pose proof (try_remove_chunks_inv c 1 Hw) as H. by destruct (try_remove_chunks_of_size fails c 1).
Qed.

Lemma simplify_fields_inv simplify cur :
  (forall cur i c, Q cur -> cur !! i = Some c -> Q (<[i := simplify c]> cur)) -> Q cur -> Q (simplify_fields fails cur simplify).1.
Proof.
  intros Hs HQ. unfold simplify_fields. generalize (seq 0 (length cur)) as l. assert (Q (cur, false).1) as H by done. revert H. generalize (cur, false) as s.
  intros s Hst l. revert s Hst. induction l as [|i l IH]; intros [c b] Hc; [done|]. cbn [fold_left]. apply IH. unfold simplify_at.
  destruct (c !! i) as [x|] eqn:E; [|done]. destruct (_ && _); [|done]. by apply Hs.
Qed.

Lemma pass_inv cur : Q cur -> Q (run_reduction_pass fails cur).1.
Proof.
  intros HQ. unfold run_reduction_pass. pose proof (remove_ranges_inv cur HQ) as H1. destruct (remove_contiguous_ranges fails cur) as [c1 b1].
  unfold simplify_quantities, simplify_prices. pose proof (simplify_fields_inv with_min_qty c1 Hqty H1) as H2. destruct (simplify_fields fails c1 with_min_qty) as [c2 b2].
  pose proof (simplify_fields_inv with_min_price c2 Hprice H2) as H3. destruct (simplify_fields fails c2 with_min_price) as [c3 b3]. cbn [fst] in *.
  unfold renumber_symbols_and_orders. destruct (_ && _); cbn; auto.
Qed.

Lemma shrink_inv cur : Q cur -> Q (shrink fails cur).1.
Proof.
  intros HQ. unfold shrink. destruct (negb (fails cur)); [done|].
  pose proof (while_inv (@snd (list Command * nat) bool) (pass_step fails) (fun s => Q s.1.1)) as Hw.
  assert (forall s : list Command * nat * bool, Q s.1.1 -> s.2 = true -> Q (pass_step fails s).1.1) as Hstep.
  { intros [[c k] b] Hs _. unfold pass_step. pose proof (pass_inv c Hs) as H. by destruct (run_reduction_pass fails c). }
  specialize (Hw Hstep (pass_bound cur) (cur, 0%nat, true) HQ). by destruct (while _ _ _ _) as [[c k] b].
Qed.
End Invariant.
