(* ===== verification/Renumber.v ===== *)
(** * Renumber: the canonical form of a command stream

    What [renumber] of src/replay/shrink.cpp computes: the maps of symbols and
    order ids in closed form, and that renumbering twice is renumbering once. *)
From Stdlib Require Import ZifyBool.
From S2P Require Import Prelude Core Endian Book BookSpec BookRun Text Command Engine EngineSpec Gateway GatewaySpec Shrink.

Lemma om_find_emplace_new {V} before k (v : V) m k' :
  om_find k m = None -> om_find k' (om_try_emplace before k v m) = if k' =? k then Some v else om_find k' m.
Proof.
  induction m as [|[k1 v1] m IH]; cbn [om_try_emplace om_find]; [done|]. destruct (Z.eqb_spec k k1) as [->|Hk]; [done|]. intros H.
  destruct (before k k1); [done|]. cbn [om_find]. rewrite IH by done. destruct (Z.eqb_spec k' k1) as [->|]; [|done].
  by rewrite (proj2 (Z.eqb_neq k1 k)).
Qed.

Lemma om_find_assign k v m k' : om_find k m = None -> om_find k' (om_assign k v m) = if k' =? k then Some v else om_find k' m.
Proof.
  intros H. unfold om_assign. destruct (Z.eqb_spec k' k) as [->|Hne].
  - by rewrite om_find_alter_eq, om_find_emplace_new, Z.eqb_refl.
  - rewrite om_find_alter_ne, om_find_emplace_new by done. by rewrite (proj2 (Z.eqb_neq k' k)).
Qed.

(** ** What a stream mentions *)

Definition symbols_of (cmds : list Command) : list SymbolId := omap command_symbol cmds.
Definition reg_name (c : Command) : option string := match c with RegisterSymbol name => Some name | _ => None end.
Definition reg_names (cmds : list Command) : list string := omap reg_name cmds.
(** The number of registrations. *)
Definition regs (cmds : list Command) : nat := length (reg_names cmds).

Lemma regs_app a b : regs (a ++ b) = (regs a + regs b)%nat.
Proof. unfold regs, reg_names. by rewrite omap_app, length_app. Qed.
Lemma regs_other c : reg_name c = None -> regs [c] = 0%nat.
Proof. intros H. unfold regs, reg_names. cbn [omap list_omap]. by rewrite H. Qed.
Lemma regs_length cmds : (regs cmds <= length cmds)%nat.
Proof. induction cmds as [|c cmds IH]; [done|]. unfold regs, reg_names in *. cbn [omap list_omap]. destruct (reg_name c); cbn; lia. Qed.

Lemma collect_spec cmds s : s ∈ collect_referenced_symbols cmds <-> s ∈ symbols_of cmds.
Proof.
  unfold collect_referenced_symbols. induction cmds as [|c cmds IH] using rev_ind; [cbn; set_solver|].
  rewrite fold_left_app. unfold symbols_of in *. rewrite omap_app, elem_of_app, <- IH. cbn [fold_left omap list_omap].
  destruct (command_symbol c) as [s'|]; [|set_solver]. rewrite elem_of_union, elem_of_singleton, list_elem_of_singleton. tauto.
Qed.

Lemma duplicate_names_spec cmds : forall names,
  duplicate_names names cmds = false <-> NoDup (reg_names cmds) /\ (forall n, n ∈ reg_names cmds -> n ∉ names).
Proof.
  induction cmds as [|c cmds IH]; intros names; [cbn; split; [intros _; split; [apply NoDup_nil_2|set_solver]|done]|].
  destruct c as [name| | | |]; try apply IH. cbn [duplicate_names]. change (reg_names (RegisterSymbol name :: cmds)) with (name :: reg_names cmds).
  rewrite NoDup_cons. case_bool_decide as Hin.
  - split; [done|]. intros [_ H]. destruct (H name); [apply list_elem_of_here|done].
  - rewrite IH. split.
    + intros [Hn Hd]. split; [split; [|done]|]; [intros Hc; specialize (Hd name Hc); set_solver|].
      intros n [->|Hn']%elem_of_cons; [done|]. specialize (Hd n Hn'). set_solver.
    + intros [[Hn Hnd] Hd]. split; [done|]. intros n Hn'. rewrite elem_of_union, elem_of_singleton.
      intros [->|H]; [done|]. apply (Hd n); [by apply list_elem_of_further|done].
Qed.

(** ** The map of symbols *)

(** How many of the ids below [n] are referenced. *)
Fixpoint rank (R : gset Z) (n : nat) : Z :=
  match n with
  | O => 0
  | S k => rank R k + (if bool_decide (Z.of_nat k ∈ R) then 1 else 0)
  end.

Lemma rank_bounds R n : 0 <= rank R n <= Z.of_nat n.
Proof. induction n as [|n IH]; cbn [rank]; [lia|]. case_bool_decide; lia. Qed.
Lemma rank_mono R m n : (m <= n)%nat -> rank R m <= rank R n.
Proof. intros H. induction H as [|n H IH]; [lia|]. cbn [rank]. case_bool_decide; lia. Qed.
Lemma rank_lt R m n : (m < n)%nat -> Z.of_nat m ∈ R -> rank R m < rank R n.
Proof. intros H Hm. pose proof (rank_mono R (S m) n H) as Hr. cbn [rank] in Hr. rewrite bool_decide_true in Hr by done. lia. Qed.
Lemma rank_surjective R n j : 0 <= j < rank R n -> exists m, (m < n)%nat /\ Z.of_nat m ∈ R /\ rank R m = j.
Proof.
  induction n as [|n IH]; cbn [rank]; intros Hj; [lia|]. destruct (decide (j < rank R n)) as [Hlt|Hge].
  - destruct (IH ltac:(lia)) as (m & ? & ? & ?). exists m. split; [lia|done].
  - case_bool_decide; [|lia]. exists n. split; [lia|]. split; [done|lia].
Qed.
Lemma rank_full R n : (forall m, (m < n)%nat -> Z.of_nat m ∈ R) -> rank R n = Z.of_nat n.
Proof.
  induction n as [|n IH]; intros H; [done|]. cbn [rank]. rewrite bool_decide_true by (apply H; lia). rewrite IH by (intros; apply H; lia). lia.
Qed.

Definition in_range (x : Z) (n : nat) : bool := (0 <=? x) && (x <? Z.of_nat n).

Lemma remap_state R cmds :
  Z.of_nat (length cmds) < 2 ^ 32 ->
  let s := fold_left (remap_registration R) cmds (mkSymbolRemap [] 0 0) in
  sr_old_sym s = Z.of_nat (regs cmds) /\ sr_new_sym s = rank R (regs cmds) /\
  forall x, om_find x (sr_remap s) = if in_range x (regs cmds) && bool_decide (x ∈ R) then Some (rank R (Z.to_nat x)) else None.
Proof.
  induction cmds as [|c cmds IH] using rev_ind; intros Hl.
  { split; [done|]. split; [done|]. intros x. by replace (in_range x (regs [])) with false by (change (regs []) with 0%nat; unfold in_range; lia). }
  rewrite length_app in Hl. cbn [length] in Hl. rewrite fold_left_app, regs_app. cbn [fold_left].
  destruct (IH ltac:(lia)) as (Ho & Hn & Hf). destruct (fold_left _ cmds _) as [m o n]. cbn [sr_old_sym sr_new_sym sr_remap] in *. subst o n.
  pose proof (regs_length cmds) as Hrl. pose proof (rank_bounds R (regs cmds)) as Hrb.
  destruct c as [name| | | |]; cbn [remap_registration]; try (by rewrite regs_other, Nat.add_0_r).
  change (regs [RegisterSymbol name]) with 1%nat. replace (regs cmds + 1)%nat with (S (regs cmds)) by lia. cbn [rank sr_old_sym sr_new_sym sr_remap].
  assert (u32 (Z.of_nat (regs cmds) + 1) = Z.of_nat (S (regs cmds))) as Eo by (unfold u32, wrap; rewrite Z.mod_small; lia).
  assert (forall x, in_range x (S (regs cmds)) = (x =? Z.of_nat (regs cmds)) || in_range x (regs cmds)) as Hir.
  { intros x. unfold in_range. destruct (Z.eqb_spec x (Z.of_nat (regs cmds))) as [->|]; cbn [orb]; lia. }
  case_bool_decide as Hin; cbn [sr_old_sym sr_new_sym sr_remap].
  - split; [done|]. split; [unfold u32, wrap; rewrite Z.mod_small; lia|]. intros x. rewrite om_find_assign, Hf, Hir.
    2:{ rewrite Hf. unfold in_range. by rewrite Z.ltb_irrefl, andb_false_r. }
    destruct (Z.eqb_spec x (Z.of_nat (regs cmds))) as [->|]; cbn [orb andb]; [|done]. by rewrite bool_decide_true, Nat2Z.id.
  - split; [done|]. split; [lia|]. intros x. rewrite Hf, Hir. destruct (Z.eqb_spec x (Z.of_nat (regs cmds))) as [->|]; cbn [orb andb]; [|done].
    by rewrite bool_decide_false, andb_false_r.
Qed.

Lemma build_symbol_remap_spec cmds R x :
  Z.of_nat (length cmds) < 2 ^ 32 ->
  om_find x (build_symbol_remap cmds R) = if in_range x (regs cmds) && bool_decide (x ∈ R) then Some (rank R (Z.to_nat x)) else None.
Proof. intros Hl. apply (remap_state R cmds Hl). Qed.

(** ** The map of order ids *)

(** The values handed out are below the next one. *)
Definition ids_ok (r : OrderIdRemapper) (bound : nat) : Prop :=
  0 <= next_id_ r <= Z.of_nat bound /\ forall id j, om_find id (remap_ r) = Some j -> 0 <= j < next_id_ r.

Lemma new_remapper_ok : ids_ok new_remapper 0.
Proof. by split; [cbn; lia|]. Qed.

Lemma map_id_ok r bound id : ids_ok r bound -> Z.of_nat bound < 2 ^ 32 ->
  let '(j, r') := map_id r id in
  ids_ok r' (S bound) /\ om_find id (remap_ r') = Some j /\
  ((j < next_id_ r /\ r' = r) \/ (j = next_id_ r /\ next_id_ r' = next_id_ r + 1)).
Proof.
  intros [Hn Hv] Hb. unfold map_id. destruct (om_find id (remap_ r)) as [j|] eqn:E.
  - split; [split; [lia|done]|]. split; [done|]. left. split; [by apply (Hv id)|done].
  - cbn [remap_ next_id_]. assert (u64 (next_id_ r + 1) = next_id_ r + 1) as Eu by (unfold u64, wrap; rewrite Z.mod_small; lia).
    split; [|split; [|by right]].
    + split; cbn [remap_ next_id_]; [lia|]. intros id' j'. rewrite om_find_emplace_new, Eu by done.
      destruct (id' =? id); [intros [= <-]; lia|]. intros H. specialize (Hv id' j' H). lia.
    + by rewrite om_find_emplace_new, Z.eqb_refl.
Qed.

(** A remapper that has seen its own output maps every id to itself. *)
Definition ids_identity (r : OrderIdRemapper) (next : Z) : Prop :=
  next_id_ r = next /\ forall j, om_find j (remap_ r) = if (0 <=? j) && (j <? next) then Some j else None.

Lemma map_id_identity r2 r bound id : ids_ok r bound -> Z.of_nat bound < 2 ^ 32 -> ids_identity r2 (next_id_ r) ->
  let '(j, r') := map_id r id in
  let '(j2, r2') := map_id r2 j in
  j2 = j /\ ids_identity r2' (next_id_ r').
Proof.
  intros Hok Hb [Hn Hf]. pose proof (map_id_ok r bound id Hok Hb) as Hm. destruct (map_id r id) as [j r'].
  destruct Hm as ([_ Hv'] & Hj & Hcase). specialize (Hv' id j Hj). unfold map_id. rewrite Hf. destruct Hcase as [[Hlt ->]|[-> Hnext]].
  - replace ((0 <=? j) && (j <? next_id_ r)) with true by lia. by split.
  - replace ((0 <=? next_id_ r) && (next_id_ r <? next_id_ r)) with false by lia. rewrite Hn. split; [done|].
    destruct Hok as [Hr _]. split; cbn [next_id_ remap_]; [unfold u64, wrap; rewrite Z.mod_small; lia|].
    intros k. rewrite om_find_emplace_new, Hf, Hnext.
    + destruct (Z.eqb_spec k (next_id_ r)) as [->|].
      * by replace ((0 <=? next_id_ r) && (next_id_ r <? next_id_ r + 1)) with true by lia.
      * by replace (k <? next_id_ r + 1) with (k <? next_id_ r) by lia.
    + rewrite Hf. by replace ((0 <=? next_id_ r) && (next_id_ r <? next_id_ r)) with false by lia.
Qed.

(** ** The renumbering loop *)

Definition renumber_run (remap : list (Z * Z)) (p : list Command) : Renumbering :=
  fold_left (renumber_command remap) p (mkRenumbering [] 0 new_remapper).

Lemma renumber_run_snoc remap p c : renumber_run remap (p ++ [c]) = renumber_command remap (renumber_run remap p) c.
Proof. unfold renumber_run. by rewrite fold_left_app. Qed.

Section Loop.
Context (R : gset Z) (n : nat) (remap : list (Z * Z)) (Hn : Z.of_nat n < 2 ^ 32).
Context (Hremap : forall x, om_find x remap = if in_range x n && bool_decide (x ∈ R) then Some (rank R (Z.to_nat x)) else None).

Lemma find_reg k : (k < n)%nat -> om_find (Z.of_nat k) remap = if bool_decide (Z.of_nat k ∈ R) then Some (rank R k) else None.
Proof. intros Hk. rewrite Hremap, Nat2Z.id. by replace (in_range (Z.of_nat k) n) with true by (unfold in_range; lia). Qed.

Lemma run_symbols p : symbols_of (rn_out (renumber_run remap p)) = map (remap_symbol remap) (symbols_of p).
Proof.
  induction p as [|c p IH] using rev_ind; [done|]. rewrite renumber_run_snoc. unfold symbols_of in *. rewrite omap_app, map_app, <- IH.
  destruct c; cbn [renumber_command remap_non_register_command].
  - cbn [rn_out omap list_omap command_symbol map]. unfold append_renumbered_registration. rewrite app_nil_r.
    destruct (om_find _ remap); [|done]. rewrite omap_app. cbn [omap list_omap command_symbol]. by rewrite app_nil_r.
  - destruct (map_id _ _). cbn [rn_out]. by rewrite omap_app.
  - destruct (map_id _ _). cbn [rn_out]. by rewrite omap_app.
  - destruct (map_id _ _). cbn [rn_out]. by rewrite omap_app.
  - destruct (map_id _ _). cbn [rn_out]. by rewrite omap_app.
Qed.

Lemma run_regs p : (regs p <= n)%nat ->
  rn_old_sym (renumber_run remap p) = Z.of_nat (regs p) /\
  reg_names (rn_out (renumber_run remap p)) = map symbol_name (seqZ 0 (rank R (regs p))).
Proof.
  induction p as [|c p IH] using rev_ind; [done|]. rewrite regs_app, renumber_run_snoc. intros Hr. destruct (IH ltac:(lia)) as [Ho Hs].
  destruct c; cbn [renumber_command remap_non_register_command];
    try (rewrite regs_other, Nat.add_0_r by done; destruct (map_id _ _); cbn [rn_old_sym rn_out]; unfold reg_names in *; rewrite omap_app, Hs; cbn; by rewrite app_nil_r).
  change (regs [RegisterSymbol name]) with 1%nat in *. cbn [rn_old_sym rn_out]. rewrite Ho.
  split; [unfold u32, wrap; rewrite Z.mod_small; lia|]. unfold append_renumbered_registration. rewrite find_reg by lia.
  replace (regs p + 1)%nat with (S (regs p)) by lia. cbn [rank]. case_bool_decide; [|by rewrite Z.add_0_r].
  unfold reg_names in *. rewrite omap_app, Hs. cbn [omap list_omap reg_name]. rewrite seqZ_app by (pose proof (rank_bounds R (regs p)); lia).
  by rewrite map_app.
Qed.

Lemma run_ids p : Z.of_nat (length p) < 2 ^ 32 -> ids_ok (rn_ids (renumber_run remap p)) (length p).
Proof using Type.
  clear Hremap Hn n.
  induction p as [|c p IH] using rev_ind; intros Hl; [apply new_remapper_ok|]. rewrite renumber_run_snoc. rewrite length_app in *. cbn [length] in *.
  specialize (IH ltac:(lia)). replace (length p + 1)%nat with (S (length p)) by lia.
  destruct c as [name|sym id side price q tif|sym id side q|sym id|sym id price q]; cbn [renumber_command remap_non_register_command].
  1: { destruct IH as [[? ?] ?]. cbn [rn_ids]. split; [lia|done]. }
  all: pose proof (map_id_ok _ _ id IH ltac:(lia)) as Hm; destruct (map_id _ id) as [j r']; apply Hm.
Qed.

(** Renumbering the output again, with the map [remap'] that keeps the first ids. *)
Context (remap' : list (Z * Z)).
Context (Hremap' : forall x, om_find x remap' = if in_range x (Z.to_nat (rank R n)) then Some x else None).

Lemma symbol_kept s : s ∈ R -> remap_symbol remap' (remap_symbol remap s) = remap_symbol remap s.
Proof.
  intros Hs. unfold remap_symbol. rewrite Hremap. rewrite bool_decide_true, andb_true_r by done. pose proof (rank_bounds R n) as Hb.
  destruct (in_range s n) eqn:E.
  - rewrite Hremap'. by destruct (in_range (rank R (Z.to_nat s)) _).
  - rewrite Hremap'. replace (in_range s (Z.to_nat (rank R n))) with false by (unfold in_range in *; lia). done.
Qed.

Lemma run_twice p :
  Z.of_nat (length p) < 2 ^ 32 -> (regs p <= n)%nat -> Forall (fun s => s ∈ R) (symbols_of p) ->
  let s1 := renumber_run remap p in
  let s2 := renumber_run remap' (rn_out s1) in
  rn_out s2 = rn_out s1 /\ rn_old_sym s2 = rank R (regs p) /\ ids_identity (rn_ids s2) (next_id_ (rn_ids s1)).
Proof.
  induction p as [|c p IH] using rev_ind; intros Hl Hr Hs.
  { split; [done|]. split; [done|]. split; [done|]. intros j. cbn [om_find remap_ rn_ids renumber_run fold_left new_remapper next_id_].
    by replace ((0 <=? j) && (j <? 0)) with false by lia. }
  rewrite length_app, regs_app in *. cbn [length] in Hl. unfold symbols_of in Hs. rewrite omap_app in Hs. apply Forall_app in Hs as [Hs Hc].
  pose proof (run_ids p ltac:(lia)) as Hids. pose proof (run_regs p ltac:(lia)) as [Ho _].
  destruct (IH ltac:(lia) ltac:(lia) Hs) as (IH1 & IH2 & IH3). cbv zeta. rewrite renumber_run_snoc.
  destruct c as [name|sym id side price q tif|sym id side q|sym id|sym id price q]; cbn [renumber_command remap_non_register_command].
  1: { cbn [rn_out rn_ids]. change (regs [RegisterSymbol name]) with 1%nat in *. rewrite Ho. unfold append_renumbered_registration. rewrite find_reg by lia.
    replace (regs p + 1)%nat with (S (regs p)) by lia. cbn [rank]. case_bool_decide as Hin; [|by rewrite Z.add_0_r].
    rewrite renumber_run_snoc. cbn [renumber_command rn_out rn_old_sym rn_ids]. rewrite IH2. unfold append_renumbered_registration.
    rewrite Hremap'. pose proof (rank_lt R (regs p) n ltac:(lia) Hin). pose proof (rank_bounds R (regs p)). pose proof (rank_bounds R n).
    replace (in_range (rank R (regs p)) (Z.to_nat (rank R n))) with true by (unfold in_range; lia). rewrite IH1. split; [done|].
    split; [unfold u32, wrap; rewrite Z.mod_small; lia|done]. }
  all: rewrite regs_other, Nat.add_0_r by done; apply Forall_cons in Hc as [Hc _];
    pose proof (map_id_identity _ _ _ id Hids ltac:(lia) IH3) as Hm; destruct (map_id _ id) as [j r']; cbn [rn_out rn_ids];
    rewrite renumber_run_snoc; cbn [renumber_command remap_non_register_command];
    destruct (map_id _ j) as [j2 r2']; destruct Hm as [-> Hm]; cbn [rn_out rn_old_sym rn_ids]; by rewrite IH1, symbol_kept.
Qed.
End Loop.

(** ** Idempotence *)

Lemma byte_char_byte c : 0 <= c < 256 -> byte_of_char (char_of_byte c) = c.
Proof. intros Hc. unfold byte_of_char, char_of_byte. rewrite Ascii.N_ascii_embedding; lia. Qed.

Lemma number_string_inj a b : in_u64 a -> in_u64 b -> string_of_bytes (to_string a) = string_of_bytes (to_string b) -> a = b.
Proof.
  intros Ha Hb H.
  destruct (to_string_spec a Ha) as (Da & Va & _). destruct (to_string_spec b Hb) as (Db & Vb & _).
  apply (f_equal bytes_of_string) in H. unfold bytes_of_string, string_of_bytes in H. rewrite !String.list_ascii_of_string_of_list_ascii, !map_map in H.
  assert (forall s, Forall (fun c => is_digit c = true) s -> map (fun x => byte_of_char (char_of_byte x)) s = s) as Hid.
  { intros s Hs. induction Hs as [|c s Hc Hs IHs]; [done|]. cbn [map]. rewrite IHs, byte_char_byte by (unfold is_digit in Hc; lia). done. }
  rewrite !Hid in H by done. by rewrite <- Va, <- Vb, H.
Qed.

Lemma symbol_name_inj a b : in_u64 a -> in_u64 b -> symbol_name a = symbol_name b -> a = b.
Proof. intros Ha Hb H. apply number_string_inj; [done|done|]. by injection H. Qed.

Lemma symbol_names_NoDup k : k < 2 ^ 32 -> NoDup (map symbol_name (seqZ 0 k)).
Proof.
  intros Hk. assert (forall l, NoDup l -> Forall in_u64 l -> NoDup (map symbol_name l)) as H.
  { induction 1 as [|x l Hx Hnd IH]; intros Hl; [apply NoDup_nil_2|]. apply Forall_cons in Hl as [Hx64 Hl]. cbn [map]. apply NoDup_cons. split; [|by apply IH].
    intros (y & Hy & Hin)%list_elem_of_fmap. apply symbol_name_inj in Hy as ->; [done|done|]. rewrite Forall_forall in Hl. by apply Hl. }
  apply H; [apply NoDup_seqZ|]. apply Forall_forall. intros x Hx%elem_of_seqZ. unfold in_u64. lia.
Qed.

Lemma renumber_spec cmds :
  renumber cmds = if has_duplicate_symbol_registration_names cmds then cmds
    else rn_out (renumber_run (build_symbol_remap cmds (collect_referenced_symbols cmds)) cmds).
Proof. done. Qed.

Lemma run_length remap p : (length (rn_out (renumber_run remap p)) <= length p)%nat /\ (weight (rn_out (renumber_run remap p)) <= weight p)%nat.
Proof.
  induction p as [|c p IH] using rev_ind; [done|]. rewrite renumber_run_snoc, weight_app, length_app.
  assert (forall d, command_weight d = command_weight c ->
    (length (rn_out (renumber_run remap p) ++ [d]) <= length p + length [c])%nat /\
    (weight (rn_out (renumber_run remap p) ++ [d]) <= weight p + weight [c])%nat) as Hd.
  { intros d Hd. rewrite length_app, weight_app. unfold weight at 2 4. cbn [map sum_list sum_list_with length]. rewrite Hd. unfold id. lia. }
  destruct c; cbn [renumber_command remap_non_register_command].
  1: { cbn [rn_out]. unfold append_renumbered_registration. destruct (om_find _ remap); [by apply Hd|]. cbn [length]. lia. }
  all: destruct (map_id _ _); cbn [rn_out]; by apply Hd.
Qed.

Lemma renumber_length cmds : (length (renumber cmds) <= length cmds)%nat /\ (weight (renumber cmds) <= weight cmds)%nat.
Proof. rewrite renumber_spec. destruct (has_duplicate_symbol_registration_names cmds); [lia|]. apply run_length. Qed.

Lemma renumber_idempotent cmds : Z.of_nat (length cmds) < 2 ^ 32 -> renumber (renumber cmds) = renumber cmds.
Proof.
  intros Hl. rewrite (renumber_spec cmds). destruct (has_duplicate_symbol_registration_names cmds) eqn:Ed; [rewrite renumber_spec, Ed; done|].
  set (R := collect_referenced_symbols cmds). set (remap := build_symbol_remap cmds R). set (out := rn_out (renumber_run remap cmds)).
  pose proof (build_symbol_remap_spec cmds R) as Hremap. pose proof (regs_length cmds) as Hrl.
  assert (Z.of_nat (regs cmds) < 2 ^ 32) as Hn by lia. specialize (fun x => Hremap x Hl).
  destruct (run_regs R (regs cmds) remap Hn Hremap cmds ltac:(lia)) as [_ Hnames]. fold out in Hnames.
  pose proof (rank_bounds R (regs cmds)) as Hrb. pose proof (run_length remap cmds) as [Hol _]. fold out in Hol.
  assert (regs out = Z.to_nat (rank R (regs cmds))) as Hro by (change (regs out) with (length (reg_names out)); rewrite Hnames, List.length_map, length_seqZ; lia).
  rewrite renumber_spec. replace (has_duplicate_symbol_registration_names out) with false.
  2:{ symmetry. apply duplicate_names_spec. rewrite Hnames. split; [apply symbol_names_NoDup; lia|set_solver]. }
  set (R' := collect_referenced_symbols out).
  assert (forall m, (m < regs out)%nat -> Z.of_nat m ∈ R') as Hfull.
  { intros m Hm. rewrite Hro in Hm. destruct (rank_surjective R (regs cmds) (Z.of_nat m) ltac:(lia)) as (x & Hx & Hin & Hrx). unfold R'. apply collect_spec.
    unfold out. rewrite run_symbols. apply list_elem_of_fmap. exists (Z.of_nat x). split; [|by apply collect_spec].
    unfold remap_symbol. rewrite (find_reg R (regs cmds) remap Hremap x Hx), bool_decide_true by done. done. }
  apply (run_twice R (regs cmds) remap Hn Hremap (build_symbol_remap out R')); [|done|lia|].
  - intros x. rewrite build_symbol_remap_spec by lia. rewrite Hro. destruct (in_range x _) eqn:E; [|done]. unfold in_range in E. cbn [andb].
    rewrite bool_decide_true by (replace x with (Z.of_nat (Z.to_nat x)) by lia; apply Hfull; lia).
    rewrite rank_full; [f_equal; lia|]. intros m Hm. apply Hfull. lia.
  - apply Forall_forall. intros s Hs. by apply collect_spec.
Qed.

(** ** RenumberSim: renumbering keeps the meaning of a stream

    The output of [renumber] is the input under an injective renaming of symbols
    and order ids, without the registrations nobody refers to; the abstract
    gateway answers both streams alike. *)

(** ** Renaming commands and outcomes *)

Section RenameCommands.
Context (fs : SymbolId -> SymbolId) (fi : OrderId -> OrderId).

Definition rename_command (c : Command) : Command :=
  match c with
  | RegisterSymbol name => RegisterSymbol name
  | NewLimit symbol id side price quantity tif => NewLimit (fs symbol) (fi id) side price quantity tif
  | NewMarket symbol id side quantity => NewMarket (fs symbol) (fi id) side quantity
  | Cancel symbol id => Cancel (fs symbol) (fi id)
  | Modify symbol id price quantity => Modify (fs symbol) (fi id) price quantity
  end.

Definition rename_event (event : EngineEvent) : EngineEvent :=
  match event with
  | OrderAccepted seq symbol id => OrderAccepted seq (fs symbol) (fi id)
  | OrderCanceled seq symbol id => OrderCanceled seq (fs symbol) (fi id)
  | OrderModified seq symbol id => OrderModified seq (fs symbol) (fi id)
  | TradeEvent seq symbol taker maker price quantity => TradeEvent seq (fs symbol) (fi taker) (fi maker) price quantity
  end.

Definition rename_result (r : GatewayResult) : GatewayResult :=
  mkGatewayResult (g_accepted r) (g_reason r) (map rename_event (g_events r)).
End RenameCommands.

Definition command_id (c : Command) : option OrderId :=
  match c with
  | RegisterSymbol _ => None
  | NewLimit _ id _ _ _ _ | NewMarket _ id _ _ | Cancel _ id | Modify _ id _ _ => Some id
  end.
Definition ids_of (cmds : list Command) : list OrderId := omap command_id cmds.

(** The outcomes of the commands other than registrations. *)
Definition order_results (cmds : list Command) (rs : list GatewayResult) : list GatewayResult :=
  map snd (filter (fun x => command_symbol x.1 <> None) (zip cmds rs)).

Lemma order_results_cons c cmds r rs :
  order_results (c :: cmds) (r :: rs) =
    match command_symbol c with Some _ => r :: order_results cmds rs | None => order_results cmds rs end.
Proof.
  unfold order_results. cbn [zip zip_with]. destruct (command_symbol c) eqn:E.
  - by rewrite filter_cons_True by (cbn; by rewrite E).
  - by rewrite filter_cons_False by (cbn; rewrite E; tauto).
Qed.

(** ** The output as a translation *)

Section Translation.
Context (R : gset Z) (fs : SymbolId -> SymbolId) (fi : OrderId -> OrderId).

(** [k] registrations stand in front of [cmds]. *)
Fixpoint translate (k : nat) (cmds : list Command) : list Command :=
  match cmds with
  | [] => []
  | RegisterSymbol _ :: cmds' =>
      (if bool_decide (Z.of_nat k ∈ R) then [RegisterSymbol (symbol_name (rank R k))] else []) ++ translate (S k) cmds'
  | c :: cmds' => rename_command fs fi c :: translate k cmds'
  end.

Lemma translate_app p : forall k q, translate k (p ++ q) = translate k p ++ translate (k + regs p) q.
Proof.
  induction p as [|c p IH]; intros k q; [by rewrite Nat.add_0_r|]. change (c :: p) with ([c] ++ p). rewrite regs_app.
  destruct c; cbn [app translate]; rewrite IH; try (by rewrite regs_other).
  change (regs [RegisterSymbol name]) with 1%nat. by rewrite <- app_assoc, Nat.add_succ_r, Nat.add_succ_l.
Qed.
End Translation.

Lemma map_id_keeps r id id' j : om_find id' (remap_ r) = Some j -> om_find id' (remap_ (map_id r id).2) = Some j.
Proof.
  intros H. unfold map_id. destruct (om_find id (remap_ r)) as [j'|] eqn:E; [done|]. cbn [snd remap_]. rewrite om_find_emplace_new by done.
  destruct (Z.eqb_spec id' id) as [->|]; [congruence|done].
Qed.

(** Different ids get different numbers. *)
Definition ids_inj (r : OrderIdRemapper) : Prop :=
  forall a b j, om_find a (remap_ r) = Some j -> om_find b (remap_ r) = Some j -> a = b.

Lemma map_id_inj r bound id : ids_ok r bound -> ids_inj r -> ids_inj (map_id r id).2.
Proof.
  intros [_ Hv] Hi. unfold map_id. destruct (om_find id (remap_ r)) eqn:E; [done|]. cbn [snd]. intros a b j. cbn [remap_].
  rewrite !om_find_emplace_new by done. destruct (Z.eqb_spec a id) as [->|], (Z.eqb_spec b id) as [->|]; try done.
  - intros [= <-] H. specialize (Hv _ _ H). lia.
  - intros H [= <-]. specialize (Hv _ _ H). lia.
  - apply Hi.
Qed.

Lemma map_id_value r id j r' (fi : Z -> Z) :
  map_id r id = (j, r') -> (forall id' j', om_find id' (remap_ r') = Some j' -> fi id' = j') ->
  fi id = j /\ (forall id' j', om_find id' (remap_ r) = Some j' -> fi id' = j').
Proof.
  intros E Hfi. pose proof (map_id_keeps r id) as Hk. rewrite E in Hk. cbn [snd] in Hk. split; [|by eauto]. apply Hfi.
  unfold map_id in E. destruct (om_find id (remap_ r)) eqn:Ef; [by injection E as <- <-|]. injection E as <- <-. cbn [remap_].
  by rewrite om_find_emplace_new, Z.eqb_refl.
Qed.

Section Output.
Context (R : gset Z) (n : nat) (remap : list (Z * Z)) (Hn : Z.of_nat n < 2 ^ 32).
Context (Hremap : forall x, om_find x remap = if in_range x n && bool_decide (x ∈ R) then Some (rank R (Z.to_nat x)) else None).

Lemma run_output fi p :
  (regs p <= n)%nat -> (forall id j, om_find id (remap_ (rn_ids (renumber_run remap p))) = Some j -> fi id = j) ->
  rn_out (renumber_run remap p) = translate R (remap_symbol remap) fi 0 p.
Proof.
  induction p as [|c p IH] using rev_ind; [done|]. rewrite regs_app, renumber_run_snoc, translate_app. intros Hr Hfi.
  pose proof (run_regs R n remap Hn Hremap p ltac:(lia)) as [Ho _]. rewrite Nat.add_0_l.
  destruct c as [name|sym id side price q tif|sym id side q|sym id|sym id price q]; cbn [renumber_command remap_non_register_command translate] in *.
  1: { cbn [rn_out rn_ids] in *. rewrite IH by (done || lia). rewrite Ho. unfold append_renumbered_registration.
    change (regs [RegisterSymbol name]) with 1%nat in Hr. rewrite (find_reg R n remap Hremap) by lia.
    case_bool_decide; cbn [app]; by rewrite ?app_nil_r. }
  all: destruct (map_id _ id) as [j r'] eqn:E; cbn [rn_out rn_ids] in *; destruct (map_id_value _ _ _ _ fi E Hfi) as [Hj Hfi'];
    rewrite IH by (done || lia); cbn [rename_command]; by rewrite Hj.
Qed.

(** The numbers the whole stream gets. *)
Definition final_id (p : list Command) (id : OrderId) : OrderId := default 0 (om_find id (remap_ (rn_ids (renumber_run remap p)))).

Lemma run_ids_complete p : Z.of_nat (length p) < 2 ^ 32 ->
  ids_inj (rn_ids (renumber_run remap p)) /\ Forall (fun id => is_Some (om_find id (remap_ (rn_ids (renumber_run remap p))))) (ids_of p).
Proof using Type.
  clear Hremap Hn R n.
  induction p as [|c p IH] using rev_ind; intros Hl; [by split|]. rewrite length_app in Hl. cbn [length] in Hl.
  destruct (IH ltac:(lia)) as [Hi Hf]. pose proof (run_ids remap p ltac:(lia)) as Hok. rewrite renumber_run_snoc. unfold ids_of in *. rewrite omap_app.
  destruct c as [name|sym id side price q tif|sym id side q|sym id|sym id price q]; cbn [renumber_command remap_non_register_command].
  1: { cbn [rn_ids omap list_omap command_id]. by rewrite app_nil_r. }
  all: pose proof (map_id_inj _ _ id Hok Hi) as Hi'; pose proof (map_id_ok _ _ id Hok ltac:(lia)) as Hm;
    pose proof (map_id_keeps (rn_ids (renumber_run remap p)) id) as Hk;
    destruct (map_id _ id) as [j r']; cbn [rn_ids snd] in *; destruct Hm as (_ & Hj & _); split; [done|]; apply Forall_app; split;
    [eapply Forall_impl; [exact Hf|]; intros x [y Hy]; exists y; by apply Hk|by repeat constructor; exists j].
Qed.

Lemma final_id_inj p a b : Z.of_nat (length p) < 2 ^ 32 -> a ∈ ids_of p -> b ∈ ids_of p -> final_id p a = final_id p b -> a = b.
Proof using Type.
  clear Hremap Hn R n.
  intros Hl Ha Hb. destruct (run_ids_complete p Hl) as [Hi Hf]. rewrite Forall_forall in Hf. destruct (Hf a Ha) as [x Hx]. destruct (Hf b Hb) as [y Hy].
  unfold final_id. rewrite Hx, Hy. cbn. intros ->. by eapply Hi.
Qed.

Lemma final_id_range p id : Z.of_nat (length p) < 2 ^ 32 -> in_u64 (final_id p id).
Proof using Type.
  clear Hremap Hn R n.
  intros Hl. destruct (run_ids remap p Hl) as [Hr Hv]. unfold final_id. destruct (om_find id _) as [j|] eqn:E; cbn; [|unfold in_u64; lia].
  specialize (Hv _ _ E). unfold in_u64. lia.
Qed.

Lemma run_translates p : (regs p <= n)%nat ->
  rn_out (renumber_run remap p) = translate R (remap_symbol remap) (final_id p) 0 p.
Proof. intros Hr. apply run_output; [done|]. intros id j H. unfold final_id. by rewrite H. Qed.

(** The map of symbols keeps the referenced ones apart and registered ones below the others. *)
Lemma remap_symbol_spec s : s ∈ R -> remap_symbol remap s = if in_range s n then rank R (Z.to_nat s) else s.
Proof. intros Hs. unfold remap_symbol. rewrite Hremap, bool_decide_true, andb_true_r by done. by destruct (in_range s n). Qed.

Lemma remap_symbol_inj a b : a ∈ R -> b ∈ R -> remap_symbol remap a = remap_symbol remap b -> a = b.
Proof.
  intros Ha Hb. rewrite !remap_symbol_spec by done. pose proof (rank_bounds R n) as Hr.
  assert (forall x, in_range x n = true -> x ∈ R -> 0 <= rank R (Z.to_nat x) < rank R n) as Hin.
  { intros x Hx Hxr. unfold in_range in Hx. pose proof (rank_bounds R (Z.to_nat x)).
    pose proof (rank_lt R (Z.to_nat x) n ltac:(lia) ltac:(by replace (Z.of_nat (Z.to_nat x)) with x by lia)). lia. }
  destruct (in_range a n) eqn:Ea, (in_range b n) eqn:Eb; intros H.
  - unfold in_range in *. destruct (Z.lt_trichotomy a b) as [Hl|[->|Hl]]; [|done|].
    + pose proof (rank_lt R (Z.to_nat a) (Z.to_nat b) ltac:(lia) ltac:(by replace (Z.of_nat (Z.to_nat a)) with a by lia)). lia.
    + pose proof (rank_lt R (Z.to_nat b) (Z.to_nat a) ltac:(lia) ltac:(by replace (Z.of_nat (Z.to_nat b)) with b by lia)). lia.
  - specialize (Hin a Ea Ha). unfold in_range in *. lia.
  - specialize (Hin b Eb Hb). unfold in_range in *. lia.
  - done.
Qed.
End Output.

(** ** The simulation *)

Section Simulation.
Context (config : RiskConfig) (R : gset Z) (n : nat) (remap : list (Z * Z)) (Hn : Z.of_nat n < 2 ^ 32).
Context (Hremap : forall x, om_find x remap = if in_range x n && bool_decide (x ∈ R) then Some (rank R (Z.to_nat x)) else None).
Context (fi : OrderId -> OrderId) (P : OrderId -> Prop) (Hinj : forall a b, P a -> P b -> fi a = fi b -> a = b).
Let fs := remap_symbol remap.

(** After [k] registrations, with the registrations [names] still to come. *)
Record sim (k : nat) (names : list string) (ae ae' : AEngine) : Prop := {
  sm_seq : ae_seq ae = ae_seq ae';
  sm_books : forall x, x ∈ R ->
    match om_find x (ae_books ae) with
    | Some b => known P b /\ om_find (fs x) (ae_books ae') = Some (rename_book fi b)
    | None => om_find (fs x) (ae_books ae') = None
    end;
  sm_keys : forall x, is_Some (om_find x (ae_books ae)) -> in_range x k = true;
  sm_keys' : forall x, is_Some (om_find x (ae_books ae')) -> in_range x (Z.to_nat (rank R k)) = true;
  sm_next : next_ (ae_registry ae) = Z.of_nat k;
  sm_next' : next_ (ae_registry ae') = rank R k;
  sm_names : forall name, name ∈ names -> ids_ (ae_registry ae) !! name = None;
  sm_names' : forall j, rank R k <= j < 2 ^ 32 -> ids_ (ae_registry ae') !! symbol_name j = None
}.

Lemma sim_register k name names ae ae' :
  (k < n)%nat -> name ∉ names -> sim k (name :: names) ae ae' ->
  let '(events, ae1) := a_apply true ae (RegisterSymbol name) in
  events = [] /\
  if bool_decide (Z.of_nat k ∈ R)
  then let '(events', ae1') := a_apply true ae' (RegisterSymbol (symbol_name (rank R k))) in events' = [] /\ sim (S k) names ae1 ae1'
  else sim (S k) names ae1 ae'.
Proof.
  intros Hk Hname [Hseq Hbooks Hkeys Hkeys' Hnext Hnext' Hnames Hnames']. cbn [a_apply]. unfold intern.
  rewrite (Hnames name) by apply list_elem_of_here. rewrite Hnext. pose proof (rank_bounds R k) as Hr. pose proof (rank_bounds R n) as Hrn.
  assert (om_find (Z.of_nat k) (ae_books ae) = None) as Hfresh.
  { destruct (om_find (Z.of_nat k) (ae_books ae)) eqn:E; [|done]. specialize (Hkeys (Z.of_nat k) ltac:(by eexists)). unfold in_range in Hkeys. lia. }
  assert (u32 (Z.of_nat k + 1) = Z.of_nat (S k)) as Eu by (unfold u32, wrap; rewrite Z.mod_small; lia).
  assert (forall x, is_Some (om_find x (om_try_emplace symbol_before (Z.of_nat k) a_empty (ae_books ae))) -> in_range x (S k) = true) as Hkeys1.
  { intros x. rewrite om_find_emplace_new by done. destruct (Z.eqb_spec x (Z.of_nat k)) as [->|]; [intros _; unfold in_range; lia|].
    intros Hx%Hkeys. unfold in_range in *. lia. }
  assert (forall nm, nm ∈ names -> <[name := Z.of_nat k]> (ids_ (ae_registry ae)) !! nm = None) as Hnames1.
  { intros nm Hnm. rewrite lookup_insert_ne by (intros ->; done). apply Hnames. by apply list_elem_of_further. }
  split; [done|]. case_bool_decide as Hin.
  - rewrite (Hnames' (rank R k)), Hnext' by (pose proof (rank_lt R k n Hk Hin); lia). split; [done|]. pose proof (rank_lt R k n Hk Hin) as Hlt.
    assert (om_find (rank R k) (ae_books ae') = None) as Hfresh'.
    { destruct (om_find (rank R k) (ae_books ae')) eqn:E; [|done]. specialize (Hkeys' (rank R k) ltac:(by eexists)). unfold in_range in Hkeys'. lia. }
    assert (rank R (S k) = rank R k + 1) as Hrs by (cbn [rank]; by rewrite bool_decide_true).
    assert (fs (Z.of_nat k) = rank R k) as Hfk.
    { unfold fs. rewrite (remap_symbol_spec R n remap Hremap) by done. by replace (in_range (Z.of_nat k) n) with true by (unfold in_range; lia); rewrite Nat2Z.id. }
    split; cbn [ae_seq ae_books ae_registry next_ ids_]; [done| |done| | | | |].
    + intros x Hx. rewrite !om_find_emplace_new by done. specialize (Hbooks x Hx). destruct (Z.eqb_spec x (Z.of_nat k)) as [->|Hne].
      * rewrite Hfk, Z.eqb_refl. split; [apply Forall_nil_2|done].
      * rewrite <- Hfk. rewrite (proj2 (Z.eqb_neq (fs x) (fs (Z.of_nat k)))); [done|]. intros H. apply Hne. by eapply remap_symbol_inj.
    + intros x. rewrite om_find_emplace_new, Hrs by done. destruct (Z.eqb_spec x (rank R k)) as [->|]; [intros _; unfold in_range; lia|].
      intros Hx%Hkeys'. unfold in_range in *. lia.
    + done.
    + rewrite Hrs. unfold u32, wrap. rewrite Z.mod_small; lia.
    + done.
    + intros j Hj. rewrite lookup_insert_ne; [apply Hnames'; lia|]. intros H. apply symbol_name_inj in H; unfold in_u64; lia.
  - assert (rank R (S k) = rank R k) as Hrs by (cbn [rank]; rewrite bool_decide_false by done; lia).
    split; cbn [ae_seq ae_books ae_registry next_ ids_]; rewrite ?Hrs; try done.
    intros x Hx. rewrite om_find_emplace_new by done. rewrite (proj2 (Z.eqb_neq x (Z.of_nat k))) by (intros ->; done). by apply Hbooks.
Qed.
(** Event makers and their renamings. *)
Definition same_events (evs evs' : list (SeqNo -> EngineEvent)) : Prop :=
  Forall2 (fun f f' => forall q, f' q = rename_event fs fi (f q)) evs evs'.

Lemma number_renamed evs evs' : same_events evs evs' -> forall q, number q evs' = map (rename_event fs fi) (number q evs).
Proof. induction 1 as [|f f' evs evs' Hf He IH]; intros q; cbn [number map]; [done|]. by rewrite Hf, IH. Qed.

Lemma trades_renamed s ts : same_events (map (trade_event s) ts) (map (trade_event (fs s)) (map (rename_trade fi) ts)).
Proof. unfold same_events. induction ts as [|t ts IH]; cbn [map]; constructor; done. Qed.

Lemma sim_respond k names ae ae' s b b' evs evs' :
  sim k names ae ae' -> s ∈ R -> om_find s (ae_books ae) = Some b -> known P b' -> same_events evs evs' ->
  let '(events, ae1) := a_respond ae s b' evs in
  let '(events', ae1') := a_respond ae' (fs s) (rename_book fi b') evs' in
  events' = map (rename_event fs fi) events /\ sim k names ae1 ae1'.
Proof.
  intros [Hseq Hbooks Hkeys Hkeys' Hnext Hnext' Hnames Hnames'] Hs Hb Hk He. unfold a_respond. rewrite <- Hseq. split; [by apply number_renamed|].
  pose proof (Hbooks s Hs) as Hbs. rewrite Hb in Hbs. destruct Hbs as [_ Hb'].
  split; cbn [ae_seq ae_books ae_registry]; try done.
  - by rewrite (Forall2_length _ _ _ He).
  - intros x Hx. destruct (decide (x = s)) as [->|Hne].
    + by rewrite !om_find_alter_eq, Hb, Hb'.
    + rewrite !om_find_alter_ne; [by apply Hbooks|intros H; apply Hne; symmetry; by eapply remap_symbol_inj|done].
  - intros x [y Hy]. apply Hkeys. destruct (decide (x = s)) as [->|]; [by rewrite Hb|]. rewrite om_find_alter_ne in Hy by done. by eexists.
  - intros x [y Hy]. apply Hkeys'. destruct (decide (x = fs s)) as [->|]; [by rewrite Hb'|]. rewrite om_find_alter_ne in Hy by done. by eexists.
Qed.

Lemma sim_gateway k names ae ae' c s id :
  sim k names ae ae' -> command_symbol c = Some s -> command_id c = Some id -> s ∈ R -> P id ->
  let '(r, ae1) := a_gateway config ae c in
  let '(r', ae1') := a_gateway config ae' (rename_command fs fi c) in
  r' = rename_result fs fi r /\ sim k names ae1 ae1'.
Proof.
  intros Hsim Hcs Hci Hs Hid. pose proof (sm_books _ _ _ _ Hsim s Hs) as Hbook. unfold a_gateway.
  assert (a_verdict config ae' (rename_command fs fi c) = a_verdict config ae c) as Hv.
  { destruct c; cbn [command_symbol command_id] in *; try done; injection Hcs as ->; injection Hci as ->; cbn [a_verdict rename_command];
      (destruct (om_find s (ae_books ae)) as [b|]; [destruct Hbook as [Hk ->]; by rewrite (rename_contains fi P Hinj)|by rewrite Hbook]). }
  rewrite Hv. cbv zeta. case_bool_decide as Hverdict; [|by split]. clear Hv.
  destruct c as [name|sym oid side price q tif|sym oid side q|sym oid|sym oid price q]; cbn [command_symbol command_id] in *; [done|..];
    injection Hcs as ->; injection Hci as ->; cbn [a_verdict] in Hverdict; cbn [a_apply rename_command];
    (destruct (om_find s (ae_books ae)) as [b|] eqn:Hb; [destruct Hbook as [Hk Hb']; rewrite Hb'|done]);
    rewrite (rename_contains fi P Hinj b id Hk Hid).
  - destruct (a_contains b id) eqn:Ec; [done|]. cbn [orb negb]. rewrite (rename_add_limit fi P Hinj) by done.
    pose proof (known_add_limit P b id side price q tif Hk Hid) as Hk'. destruct (a_add_limit b id side price q tif) as [ts b1].
    pose proof (sim_respond k names ae ae' s b b1 ((fun q => OrderAccepted q s id) :: map (trade_event s) ts)
      ((fun q => OrderAccepted q (fs s) (fi id)) :: map (trade_event (fs s)) (map (rename_trade fi) ts)) Hsim Hs Hb Hk') as Hr.
    destruct (a_respond ae _ _ _) as [ev ae1], (a_respond ae' _ _ _) as [ev' ae1']. destruct Hr as [-> Hr]; [|done]. constructor; [done|apply trades_renamed].
  - destruct (a_contains b id) eqn:Ec; [done|]. rewrite (rename_add_market fi P Hinj) by done.
    pose proof (known_add_market P b id side q Hk) as Hk'. destruct (a_add_market b id side q) as [ts b1].
    pose proof (sim_respond k names ae ae' s b b1 ((fun q => OrderAccepted q s id) :: map (trade_event s) ts)
      ((fun q => OrderAccepted q (fs s) (fi id)) :: map (trade_event (fs s)) (map (rename_trade fi) ts)) Hsim Hs Hb Hk') as Hr.
    destruct (a_respond ae _ _ _) as [ev ae1], (a_respond ae' _ _ _) as [ev' ae1']. destruct Hr as [-> Hr]; [|done]. constructor; [done|apply trades_renamed].
  - destruct (a_contains b id) eqn:Ec; [|done]. rewrite (rename_remove fi P Hinj) by done.
    pose proof (sim_respond k names ae ae' s b (a_remove id b) [fun q => OrderCanceled q s id] [fun q => OrderCanceled q (fs s) (fi id)] Hsim Hs Hb
      (known_remove P b id Hk)) as Hr.
    destruct (a_respond ae _ _ _) as [ev ae1], (a_respond ae' _ _ _) as [ev' ae1']. destruct Hr as [-> Hr]; [|done]. by repeat constructor.
  - destruct (a_contains b id) eqn:Ec; [|done]. cbn [orb negb]. rewrite (rename_modify fi P Hinj) by done.
    pose proof (known_modify P b id price q Hk Hid) as Hk'. destruct (a_modify b id price q) as [ts b1].
    pose proof (sim_respond k names ae ae' s b b1 ((fun q => OrderModified q s id) :: map (trade_event s) ts)
      ((fun q => OrderModified q (fs s) (fi id)) :: map (trade_event (fs s)) (map (rename_trade fi) ts)) Hsim Hs Hb Hk') as Hr.
    destruct (a_respond ae _ _ _) as [ev ae1], (a_respond ae' _ _ _) as [ev' ae1']. destruct Hr as [-> Hr]; [|done]. constructor; [done|apply trades_renamed].
Qed.

Lemma sim_all cmds : forall k ae ae',
  (k + regs cmds <= n)%nat -> NoDup (reg_names cmds) -> Forall (fun s => s ∈ R) (symbols_of cmds) -> Forall P (ids_of cmds) ->
  sim k (reg_names cmds) ae ae' ->
  let out := translate R fs fi k cmds in
  order_results out (a_gateway_all config ae' out).1 = map (rename_result fs fi) (order_results cmds (a_gateway_all config ae cmds).1).
Proof.
  induction cmds as [|c cmds IH]; intros k ae ae' Hk Hnd Hsym Hids Hsim; [done|]. cbv zeta.
  destruct (command_symbol c) as [s|] eqn:Es.
  - assert (exists id, command_id c = Some id) as [id Eid] by (destruct c; try done; by eexists).
    assert (reg_name c = None) as Er by (by destruct c). change (c :: cmds) with ([c] ++ cmds) in Hk, Hsym, Hids. rewrite regs_app, regs_other in Hk by done.
    unfold symbols_of, ids_of in Hsym, Hids. rewrite omap_app in Hsym, Hids. cbn [omap list_omap] in Hsym, Hids. rewrite Es in Hsym. rewrite Eid in Hids.
    apply Forall_cons in Hsym as [Hs Hsym]. apply Forall_cons in Hids as [Hid Hids].
    assert (reg_names (c :: cmds) = reg_names cmds) as En by (unfold reg_names; cbn [omap list_omap]; by rewrite Er). rewrite En in *.
    replace (translate R fs fi k (c :: cmds)) with (rename_command fs fi c :: translate R fs fi k cmds) by (by destruct c).
    cbn [a_gateway_all]. pose proof (sim_gateway k _ ae ae' c s id Hsim Es Eid Hs Hid) as Hg.
    destruct (a_gateway config ae c) as [r ae1], (a_gateway config ae' (rename_command fs fi c)) as [r' ae1']. destruct Hg as [-> Hsim1].
    specialize (IH k ae1 ae1' ltac:(cbn in Hk; lia) Hnd Hsym Hids Hsim1). cbv zeta in IH.
    destruct (a_gateway_all config ae1 cmds) as [rs ae2], (a_gateway_all config ae1' _) as [rs' ae2']. cbn [fst] in *.
    rewrite !order_results_cons, Es. replace (command_symbol (rename_command fs fi c)) with (Some (fs s)) by (destruct c; cbn in *; congruence).
    cbn [map]. by rewrite IH.
  - destruct c as [name| | | |]; try done. change (RegisterSymbol name :: cmds) with ([RegisterSymbol name] ++ cmds) in Hk. rewrite regs_app in Hk.
    change (regs [RegisterSymbol name]) with 1%nat in Hk. change (reg_names (RegisterSymbol name :: cmds)) with (name :: reg_names cmds) in *.
    apply NoDup_cons in Hnd as [Hname Hnd]. pose proof (sim_register k name (reg_names cmds) ae ae' ltac:(lia) Hname Hsim) as Hr.
    cbn [a_gateway_all translate]. unfold a_gateway at 1. cbn [a_verdict]. cbv zeta. rewrite (bool_decide_true (ReasonNone = ReasonNone)) by done.
    destruct (a_apply true ae (RegisterSymbol name)) as [ev ae1]. destruct Hr as [-> Hr].
    case_bool_decide as Hin; cbn [app].
    + cbn [a_gateway_all]. unfold a_gateway at 1. cbn [a_verdict]. cbv zeta. rewrite bool_decide_true by done.
      destruct (a_apply true ae' (RegisterSymbol (symbol_name (rank R k)))) as [ev' ae1']. destruct Hr as [-> Hsim1].
      specialize (IH (S k) ae1 ae1' ltac:(lia) Hnd Hsym Hids Hsim1). cbv zeta in IH.
      destruct (a_gateway_all config ae1 cmds) as [rs ae2], (a_gateway_all config ae1' _) as [rs' ae2']. cbn [fst] in *.
      by rewrite !order_results_cons.
    + specialize (IH (S k) ae1 ae' ltac:(lia) Hnd Hsym Hids Hr). cbv zeta in IH.
      destruct (a_gateway_all config ae1 cmds) as [rs ae2], (a_gateway_all config ae' _) as [rs' ae2']. cbn [fst] in *.
      by rewrite order_results_cons.
Qed.

Lemma sim_empty names : sim 0 names a_engine_empty a_engine_empty.
Proof. split; cbn; try done; by intros x [? ?]. Qed.
End Simulation.

(** ** Trades *)

Definition trades_in (events : list EngineEvent) : nat := length (filter (fun event => is_trade event = true) events).

Lemma trades_in_rename fs fi events : trades_in (map (rename_event fs fi) events) = trades_in events.
Proof.
  unfold trades_in. induction events as [|event events IH]; [done|]. cbn [map]. rewrite !filter_cons.
  replace (is_trade (rename_event fs fi event)) with (is_trade event) by (by destruct event). destruct (decide _); cbn [length]; by rewrite IH.
Qed.

(** The trades of a stream are those of its orders. *)
Lemma order_results_trades config cmds : forall ae,
  sum_list (map (fun r => trades_in (g_events r)) (order_results cmds (a_gateway_all config ae cmds).1)) =
  sum_list (map (fun r => trades_in (g_events r)) (a_gateway_all config ae cmds).1).
Proof.
  induction cmds as [|c cmds IH]; intros ae; [done|]. cbn [a_gateway_all]. destruct (a_gateway config ae c) as [r ae1] eqn:Eg. specialize (IH ae1).
  destruct (a_gateway_all config ae1 cmds) as [rs ae2]. cbn [fst map sum_list sum_list_with] in *. rewrite order_results_cons.
  destruct (command_symbol c) as [s|] eqn:Es; [cbn [map sum_list sum_list_with]; by rewrite IH|].
  destruct c; try done. unfold a_gateway in Eg. cbn [a_verdict a_apply] in Eg. rewrite bool_decide_true in Eg by done.
  destruct (intern _ _). injection Eg as <- _. by rewrite IH.
Qed.
