(* ===== verification/Flow.v ===== *)
(** * Flow: the synthetic order flows

    [FlowGenerator], [generate_flow] and [generate_property_flow] of
    src/replay/recovery.cpp.  The generator object is a record that the operations
    thread; a draw [rng_() % k] returns the generator's next state. *)
From S2P Require Import Prelude Core Endian Book BookSpec Text Command Engine Shrink.

(** ** Random: the generator std::mt19937_64

    The engine of <random> that src/replay/recovery.cpp seeds: its state is the
    sequence of the last 312 words, as the language standard defines it. *)

Definition mt_n : nat := 312.
Definition mt_m : nat := 156.
Definition mt_a : Z := 13043109905998158313.
Definition mt_f : Z := 6364136223846793005.

(** The words of the seeded state after [x], [k] of them, the next having index [i]. *)
Fixpoint mt_fill (k : nat) (i x : Z) : list Z :=
  match k with
  | O => []
  | S k' =>
      let x' := u64 (mt_f * Z.lxor x (Z.shiftr x 62) + i) in
      x' :: mt_fill k' (i + 1) x'
  end.

Definition mt_seed (seed : Z) : list Z := u64 seed :: mt_fill (mt_n - 1) 1 (u64 seed).

(** The word after the sequence: the upper 33 bits of the oldest word with the
    lower 31 bits of the one after it. *)
Definition mt_word (x : list Z) : Z :=
  let y := Z.lor (Z.shiftl (Z.shiftr (nth 0 x 0) 31) 31) (Z.land (nth 1 x 0) (2 ^ 31 - 1)) in
  Z.lxor (Z.lxor (nth mt_m x 0) (Z.shiftr y 1)) (if Z.odd y then mt_a else 0).

Definition mt_temper (z : Z) : Z :=
  let z := Z.lxor z (Z.land (Z.shiftr z 29) 6148914691236517205) in
  let z := Z.lxor z (Z.land (u64 (Z.shiftl z 17)) 8202884508482404352) in
  let z := Z.lxor z (Z.land (u64 (Z.shiftl z 37)) 18444473444759240704) in
  u64 (Z.lxor z (Z.shiftr z 43)).

(** [operator()]. *)
Definition mt_next (x : list Z) : Z * list Z :=
  let w := mt_word x in
  (mt_temper w, tail x ++ [w]).

Lemma mt_next_range x : 0 <= (mt_next x).1 < 2 ^ 64.
Proof. cbn [mt_next fst]. unfold mt_temper. apply Z.mod_pos_bound. lia. Qed.

(** [rng() % k]. *)
Definition draw (k : Z) (x : list Z) : Z * list Z :=
  let '(v, x) := mt_next x in (v mod k, x).

Lemma draw_range k x : 0 < k -> 0 <= (draw k x).1 < k.
Proof. intros Hk. unfold draw. destruct (mt_next x) as [v x']. cbn. by apply Z.mod_pos_bound. Qed.
Lemma draw_eq k x v x' : draw k x = (v, x') -> 0 < k -> 0 <= v < k.
Proof. intros E Hk. pose proof (draw_range k x Hk) as H. by rewrite E in H. Qed.

(** The value of the [n]-th call. *)
Fixpoint mt_nth (n : nat) (x : list Z) : Z :=
  match n with
  | O => 0
  | S O => (mt_next x).1
  | S n' => mt_nth n' (mt_next x).2
  end.

(** The value the language standard prescribes for the default seed. *)
Lemma mt_reference : mt_nth (Z.to_nat 10000) (mt_seed 5489) = 9981545732273789042.
Proof. vm_cast_no_check (eq_refl 9981545732273789042). Qed.

(** ** The synthetic order flows *)

Record ActiveOrder := mkActiveOrder {
  ao_symbol : SymbolId;
  ao_id : OrderId;
  ao_side : Side;
  ao_price : Price;
  ao_quantity : Quantity
}.

Definition registrations (symbols : SymbolId) : list Command :=
  map (fun s => RegisterSymbol (symbol_name (Z.of_nat s))) (seq 0 (Z.to_nat symbols)).

Section Flow.
Context {B : Type} `{BookStore B}.

Record FlowGenerator := mkFlowGenerator {
  rng_ : list Z;
  symbols_ : SymbolId;
  model_ : MatchingEngine B;
  active_ : list ActiveOrder;
  mid_ : list Price;
  next_id_ : OrderId
}.

Definition new_flow_generator (seed : Z) (symbols : SymbolId) : FlowGenerator :=
  mkFlowGenerator (mt_seed seed) symbols (new_engine Baseline) [] [] 1.

(** [rng_() % k]. *)
Definition roll (k : Z) (g : FlowGenerator) : Z * FlowGenerator :=
  let '(v, x) := draw k (rng_ g) in
  (v, mkFlowGenerator x (symbols_ g) (model_ g) (active_ g) (mid_ g) (next_id_ g)).

Definition set_model (m : MatchingEngine B) (g : FlowGenerator) : FlowGenerator :=
  mkFlowGenerator (rng_ g) (symbols_ g) m (active_ g) (mid_ g) (next_id_ g).
Definition set_active (a : list ActiveOrder) (g : FlowGenerator) : FlowGenerator :=
  mkFlowGenerator (rng_ g) (symbols_ g) (model_ g) a (mid_ g) (next_id_ g).
Definition set_mid (m : list Price) (g : FlowGenerator) : FlowGenerator :=
  mkFlowGenerator (rng_ g) (symbols_ g) (model_ g) (active_ g) m (next_id_ g).
(** [next_id_++]. *)
Definition take_id (g : FlowGenerator) : OrderId * FlowGenerator :=
  (next_id_ g, mkFlowGenerator (rng_ g) (symbols_ g) (model_ g) (active_ g) (mid_ g) (u64 (next_id_ g + 1))).

Definition register_symbols (flow : list Command) (g : FlowGenerator) : FlowGenerator :=
  fold_left (fun g command => set_model (apply (model_ g) command).2 g) flow g.

Definition initialize_mid_prices (g : FlowGenerator) : FlowGenerator :=
  set_mid (map (fun s => 100 + u32 (Z.of_nat s * 5)) (seq 0 (Z.to_nat (symbols_ g)))) g.

Definition choose_symbol (g : FlowGenerator) : SymbolId * FlowGenerator :=
  if symbols_ g =? 1 then (0, g)
  else
    let '(v, g) := roll 100 g in
    if v <? 55 then (0, g)
    else
      let '(v, g) := roll (u32 (symbols_ g - 1)) g in
      (u32 (1 + v), g).

Definition mid_at (g : FlowGenerator) (symbol : SymbolId) : Price := nth (Z.to_nat symbol) (mid_ g) 0.

Definition drift_mid (symbol : SymbolId) (g : FlowGenerator) : FlowGenerator :=
  let '(v, g) := roll 3 g in
  set_mid (<[Z.to_nat symbol := Z.max 80 (Z.min 140 (mid_at g symbol + v - 1))]> (mid_ g)) g.

Definition resting_price (symbol : SymbolId) (side : Side) (g : FlowGenerator) : Price * FlowGenerator :=
  let '(v, g) := roll 3 g in
  let spread := 1 + v in
  (if is_buy side then mid_at g symbol - spread else mid_at g symbol + spread, g).

Definition crossing_price (symbol : SymbolId) (side : Side) (g : FlowGenerator) : Price * FlowGenerator :=
  let '(v, g) := roll 4 g in
  let offset := 1 + v in
  (if is_buy side then mid_at g symbol + offset else mid_at g symbol - offset, g).

Definition refresh_active (g : FlowGenerator) : FlowGenerator :=
  set_active (filter (fun o => contains (model_ g) (ao_symbol o) (ao_id o) = true) (active_ g)) g.

(** Defined when there is an active order: the callers have checked it. *)
Definition target_active (g : FlowGenerator) : ActiveOrder * FlowGenerator :=
  let '(v, g) := roll (Z.of_nat (length (active_ g))) g in
  (nth (Z.to_nat v) (active_ g) (mkActiveOrder 0 0 Buy 0 0), g).

Definition choose_tif (crosses : bool) (g : FlowGenerator) : TimeInForce * FlowGenerator :=
  let second g :=
    let '(v, g) := roll 100 g in
    (if v <? 8 then IOC else GTC, g) in
  if crosses then
    let '(v, g) := roll 100 g in
    if v <? 35 then (IOC, g) else second g
  else second g.

Definition choose_side (g : FlowGenerator) : Side * FlowGenerator :=
  let '(v, g) := roll 2 g in (if v =? 0 then Buy else Sell, g).

Definition flow_price (crosses : bool) (symbol : SymbolId) (side : Side) (g : FlowGenerator) : Price * FlowGenerator :=
  if crosses then crossing_price symbol side g else resting_price symbol side g.

Definition make_limit (symbol : SymbolId) (g : FlowGenerator) : Command * FlowGenerator :=
  let '(side, g) := choose_side g in
  let '(v, g) := roll 100 g in
  let crosses := v <? 18 in
  let '(tif, g) := choose_tif crosses g in
  let '(price, g) := flow_price crosses symbol side g in
  let '(v, g) := roll 12 g in
  let qty := u32 (1 + v) in
  let '(id, g) := take_id g in
  (NewLimit symbol id side price qty tif, g).

Definition make_market (symbol : SymbolId) (g : FlowGenerator) : Command * FlowGenerator :=
  let '(side, g) := choose_side g in
  let '(v, g) := roll 12 g in
  let qty := u32 (1 + v) in
  let '(id, g) := take_id g in
  (NewMarket symbol id side qty, g).

Definition make_cancel (g : FlowGenerator) : Command * FlowGenerator :=
  let '(target, g) := target_active g in
  let '(v, g) := roll 10 g in
  if v =? 0 then
    let '(w, g) := roll 5 g in (Cancel (ao_symbol target) (u64 (next_id_ g + w)), g)
  else (Cancel (ao_symbol target) (ao_id target), g).

Definition make_modify (g : FlowGenerator) : Command * FlowGenerator :=
  let '(target, g) := target_active g in
  let '(v, g) := roll 100 g in
  let '(price, g) := flow_price (v <? 20) (ao_symbol target) (ao_side target) g in
  let '(v, g) := roll 100 g in
  if v <? 45 then (Modify (ao_symbol target) (ao_id target) price (u32 (1 + ao_quantity target / 2)), g)
  else
    let '(w, g) := roll 12 g in
    (Modify (ao_symbol target) (ao_id target) price (u32 (1 + w)), g).

Definition next_command (symbol : SymbolId) (g : FlowGenerator) : Command * FlowGenerator :=
  let '(pick, g) := roll 100 g in
  if is_nil (active_ g) || (pick <? 58) then make_limit symbol g
  else if pick <? 70 then make_market symbol g
  else if pick <? 86 then make_cancel g
  else make_modify g.

Definition apply_and_track (command : Command) (g : FlowGenerator) : FlowGenerator :=
  let g := set_model (apply (model_ g) command).2 g in
  match command with
  | NewLimit symbol id side price quantity _ =>
      if contains (model_ g) symbol id then set_active (active_ g ++ [mkActiveOrder symbol id side price quantity]) g else g
  | _ => g
  end.

Definition append_next (s : list Command * FlowGenerator) : list Command * FlowGenerator :=
  let '(flow, g) := s in
  let '(symbol, g) := choose_symbol g in
  let g := drift_mid symbol g in
  let g := refresh_active g in
  let '(command, g) := next_command symbol g in
  (flow ++ [command], apply_and_track command g).

Definition generate (orders : nat) (g : FlowGenerator) : list Command :=
  let flow := registrations (symbols_ g) in
  if symbols_ g =? 0 then flow
  else
    let g := initialize_mid_prices (register_symbols flow g) in
    (Nat.iter orders append_next (flow, g)).1.

Definition generate_flow (seed : Z) (symbols : SymbolId) (orders : nat) : list Command :=
  generate orders (new_flow_generator seed symbols).
End Flow.
Arguments FlowGenerator : clear implicits.

(** ** generate_property_flow *)

Record PropertyFlow := mkPropertyFlow { pf_rng : list Z; pf_flow : list Command; pf_next_id : OrderId }.

Definition property_price (x : list Z) : Price * list Z :=
  let '(v, x) := draw 12 x in
  if v =? 0 then (0, x)
  else let '(w, x) := draw 11 x in (95 + w, x).

Definition property_quantity (x : list Z) : Quantity * list Z :=
  let '(qr, x) := draw 12 x in
  if qr =? 0 then (0, x)
  else if qr =? 1 then (50, x)
  else let '(w, x) := draw 10 x in (u32 (1 + w), x).

Definition property_step (symbols : SymbolId) (s : PropertyFlow) : PropertyFlow :=
  let '(symbol, x) := draw (u32 (symbols + 1)) (pf_rng s) in
  let '(v, x) := draw 2 x in
  let side := if v =? 0 then Buy else Sell in
  let '(price, x) := property_price x in
  let '(qty, x) := property_quantity x in
  let '(v, x) := draw 3 x in
  let tif := if v =? 0 then IOC else GTC in
  let '(pick, x) := draw 12 x in
  let next_id := pf_next_id s in
  let push x c next_id := mkPropertyFlow x (pf_flow s ++ [c]) next_id in
  if pick <? 6 then
    if (pick =? 5) && (1 <? next_id) then
      let '(w, x) := draw (next_id - 1) x in
      push x (NewLimit symbol (u64 (1 + w)) side price qty tif) next_id
    else push x (NewLimit symbol next_id side price qty tif) (u64 (next_id + 1))
  else if pick <? 7 then push x (NewMarket symbol next_id side qty) (u64 (next_id + 1))
  else if pick <? 9 then
    let '(w, x) := draw next_id x in
    push x (Cancel symbol (u64 (1 + w))) next_id
  else
    let '(w, x) := draw next_id x in
    push x (Modify symbol (u64 (1 + w)) price qty) next_id.

Definition generate_property_flow (seed : Z) (symbols : SymbolId) (orders : nat) : list Command :=
  pf_flow (Nat.iter orders (property_step symbols) (mkPropertyFlow (mt_seed seed) (registrations symbols) 1)).
