(* ===== verification/Fixture.v ===== *)
(** * Fixture: the differential-testing fixtures

    src/replay/fixture.cpp and include/qsl/replay/fixture.hpp.  What a function
    writes to its stream is the bytes it returns. *)
From S2P Require Import Prelude Core Endian Text Book BookSpec Command Engine Gateway Shrink Flow.

Record FixtureParams := mkFixtureParams {
  fp_seed : Z;
  fp_symbols : SymbolId;
  fp_orders : Z;
  fp_max_qty : Quantity;
  fp_max_notional : QuantityTotal
}.

Inductive FixtureExportMode := ExportVersion | ExportStream | ExportIocScenario | ExportProperty | ExportShrink | ExportDivergence.

Record FixtureExportRequest := mkFixtureExportRequest {
  fr_mode : FixtureExportMode;
  fr_params : FixtureParams;
  fr_seed : Z
}.

Definition kGeneratorVersion : Z := 2.

(** ** Lines *)

Definition nl : bytes := [10].
Definition sp : bytes := [32].

Definition side_ch (s : Side) : bytes := if bool_decide (s = Buy) then text "B" else text "S".
Definition tif_str (t : TimeInForce) : bytes := if bool_decide (t = GTC) then text "GTC" else text "IOC".
Definition px (p : Price) : bytes := to_string_signed p.
Definition opt_px (p : option Price) : bytes := match p with Some p => to_string_signed p | None => text "-" end.

Definition emit_event (event : EngineEvent) : bytes :=
  match event with
  | OrderAccepted seq symbol id => text "evt accept " ++ to_string seq ++ sp ++ to_string symbol ++ sp ++ to_string id ++ nl
  | OrderCanceled seq symbol id => text "evt cancel " ++ to_string seq ++ sp ++ to_string symbol ++ sp ++ to_string id ++ nl
  | OrderModified seq symbol id => text "evt modify " ++ to_string seq ++ sp ++ to_string symbol ++ sp ++ to_string id ++ nl
  | TradeEvent seq symbol taker maker price quantity =>
      text "evt trade " ++ to_string seq ++ sp ++ to_string symbol ++ sp ++ to_string taker ++ sp ++ to_string maker ++ sp ++
      to_string_signed price ++ sp ++ to_string quantity ++ nl
  end.

(** [emit_events]: the output and the trade counter. *)
Definition emit_events (os : bytes) (events : list EngineEvent) (trades : Z) : bytes * Z :=
  fold_left (fun '(os, trades) event => (os ++ emit_event event, if is_trade event then u64 (trades + 1) else trades)) events (os, trades).

Definition emit_reject (os kind : bytes) (id : OrderId) (reason : RejectReason) : bytes :=
  os ++ text "reject " ++ kind ++ sp ++ to_string id ++ sp ++ text (reason_to_string reason) ++ nl.

Definition emit_cmd (os : bytes) (command : Command) : bytes :=
  os ++
  match command with
  | RegisterSymbol name => text "cmd reg " ++ text name ++ nl
  | NewLimit symbol id side price quantity tif =>
      text "cmd limit " ++ to_string symbol ++ sp ++ to_string id ++ sp ++ side_ch side ++ sp ++ px price ++ sp ++
      to_string quantity ++ sp ++ tif_str tif ++ nl
  | NewMarket symbol id side quantity =>
      text "cmd market " ++ to_string symbol ++ sp ++ to_string id ++ sp ++ side_ch side ++ sp ++ to_string quantity ++ nl
  | Cancel symbol id => text "cmd cancel " ++ to_string symbol ++ sp ++ to_string id ++ nl
  | Modify symbol id price quantity =>
      text "cmd modify " ++ to_string symbol ++ sp ++ to_string id ++ sp ++ px price ++ sp ++ to_string quantity ++ nl
  end.

Definition emit_command_reject (os : bytes) (command : Command) (reason : RejectReason) : bytes :=
  match command with
  | NewLimit _ id _ _ _ _ => emit_reject os (text "new_limit") id reason
  | NewMarket _ id _ _ => emit_reject os (text "new_market") id reason
  | Cancel _ id => emit_reject os (text "cancel") id reason
  | Modify _ id _ _ => emit_reject os (text "modify") id reason
  | RegisterSymbol _ => os
  end.

Definition emit_level (symbol : SymbolId) (mark : bytes) (lv : LevelView) : bytes :=
  text "level " ++ to_string symbol ++ sp ++ mark ++ sp ++ px (lv_price lv) ++ sp ++ to_string (lv_quantity lv) ++ nl.

Definition emit_symbol (s : SymbolSnapshot) : bytes :=
  (text "sym " ++ to_string (ss_symbol s) ++ text " bid " ++ opt_px (ss_best_bid s) ++ text " ask " ++ opt_px (ss_best_ask s) ++
   text " orders " ++ to_string (ss_order_count s) ++ nl) ++
  concat (map (emit_level (ss_symbol s) (text "B")) (ss_bids s)) ++ concat (map (emit_level (ss_symbol s) (text "A")) (ss_asks s)).

Definition emit_snapshot (os : bytes) (snap : EngineSnapshot) (trades : Z) : bytes :=
  os ++ (text "snapshot last_seq " ++ to_string (es_last_seq snap) ++ text " trades " ++ to_string trades ++ nl) ++
  concat (map emit_symbol (es_symbols snap)).

Definition emit_meta (p : FixtureParams) : bytes :=
  text "meta seed " ++ to_string (fp_seed p) ++ text " symbols " ++ to_string (fp_symbols p) ++ text " orders " ++ to_string (fp_orders p) ++
  text " max_qty " ++ to_string (fp_max_qty p) ++ text " max_notional " ++ to_string (fp_max_notional p) ++ nl.

Definition emit_header (p : FixtureParams) : bytes :=
  (text "# qsl differential-testing fixture: command stream + events + rejections + snapshot" ++ nl) ++
  (text "version 1" ++ nl) ++ emit_meta p.

(** ** Running a flow *)

Section Run.
Context {B : Type} `{BookStore B}.

(** One iteration of the loop of [run_and_emit]. *)
Definition emit_step (config : RiskConfig) (s : bytes * Z * MatchingEngine B) (command : Command) : bytes * Z * MatchingEngine B :=
  let '(os, trades, engine) := s in
  let os := emit_cmd os command in
  let '(r, engine) := apply_command config engine command in
  if negb (g_accepted r) then (emit_command_reject os command (g_reason r), trades, engine)
  else
    let '(os, trades) := emit_events os (g_events r) trades in
    (os, trades, engine).

Definition run_and_emit (os : bytes) (p : FixtureParams) (flow : list Command) : bytes :=
  let config := mkRiskConfig (fp_max_qty p) (fp_max_notional p) in
  let '(os, trades, engine) := fold_left (emit_step config) flow (os ++ emit_header p, 0, new_engine (B := B) Baseline) in
  emit_snapshot os (snapshot engine) trades.

(** ** The exports *)

Definition replay_for_divergence (cmds : list Command) (drop_cancels : bool) : EngineSnapshot :=
  let config := mkRiskConfig 20 1000 in
  snapshot (fold_left (fun eng c =>
    if drop_cancels && (match c with Cancel _ _ => true | _ => false end) then eng
    else (apply_command config eng c).2) cmds (new_engine (B := B) Baseline)).

Definition write_stream_fixture (os : bytes) (p : FixtureParams) : bytes :=
  run_and_emit os p (generate_flow (B := B) (fp_seed p) (fp_symbols p) (Z.to_nat (fp_orders p))).

Definition ioc_scenario : list Command :=
  [RegisterSymbol "S0"; NewLimit 0 1 Sell 100 3 GTC; NewLimit 0 2 Buy 100 5 IOC; NewLimit 0 3 Buy 99 4 IOC;
   NewLimit 0 4 Sell 101 5 GTC; NewLimit 0 5 Buy 101 2 IOC; NewMarket 0 6 Buy 1].

Definition write_ioc_scenario_fixture (os : bytes) : bytes :=
  run_and_emit os (mkFixtureParams 0 1 6 1000 1000000) ioc_scenario.

Definition write_property_fixture (os : bytes) (seed : Z) : bytes :=
  run_and_emit os (mkFixtureParams seed 3 120 20 1000) (generate_property_flow seed 3 120).

Definition size_of (cmds : list Command) : Z := Z.of_nat (length cmds).

Definition write_shrunk_fixture (os : bytes) (seed : Z) : bytes :=
  let produces_trade cmds := (0 <? count_trades (B := B) cmds 20 1000)%nat in
  let original := generate_property_flow seed 3 120 in
  let '(minimized, iterations) := shrink produces_trade original in
  let permille := if is_nil original then 0 else u64 (size_of original - size_of minimized) * 1000 / size_of original in
  let os := os ++ (text "# shrink report" ++ nl) ++ (text "# seed: " ++ to_string seed ++ nl) ++
    (text "# original length: " ++ to_string (size_of original) ++ nl) ++ (text "# minimized length: " ++ to_string (size_of minimized) ++ nl) ++
    (text "# reduction: " ++ to_string (permille / 10) ++ text "." ++ to_string (permille mod 10) ++ text "%" ++ nl) ++
    (text "# shrink iterations: " ++ to_string (Z.of_nat iterations) ++ nl) ++
    (text "# failure reason: produces a trade (artificial differential-test predicate)" ++ nl) in
  run_and_emit os (mkFixtureParams seed 3 (size_of minimized) 20 1000) minimized.

(** The search for a seed whose flow diverges: [k] candidates from [s] on. *)
Fixpoint find_divergent (diverges : list Command -> bool) (k : nat) (s : Z) : option (Z * list Command) :=
  match k with
  | O => None
  | S k' =>
      let flow := generate_property_flow s 3 120 in
      if diverges flow then Some (s, flow) else find_divergent diverges k' (u64 (s + 1))
  end.

(** The loop runs while [s < seed_hint + 50] in 64-bit arithmetic: not at all when
    the bound wraps. *)
Definition divergence_candidates (seed_hint : Z) : nat := Z.to_nat (u64 (seed_hint + 50) - seed_hint).

Definition write_divergence_fixture (os : bytes) (seed_hint : Z) : bytes :=
  let diverges cmds := negb (bool_decide (replay_for_divergence cmds false = replay_for_divergence cmds true)) in
  let '(seed, original) := default (seed_hint, []) (find_divergent diverges (divergence_candidates seed_hint) seed_hint) in
  let '(minimized, iterations) := if is_nil original then (original, 0%nat) else shrink diverges original in
  let os := os ++
    (text "# divergence demo: the shrinker reducing a real C++/OCaml divergence (issue #37)" ++ nl) ++
    (text "# injected bug: an oracle that drops Cancel commands (replay_snapshot --drop-cancels)" ++ nl) ++
    (text "# seed: " ++ to_string seed ++ nl) ++ (text "# original length: " ++ to_string (size_of original) ++ nl) ++
    (text "# minimized length: " ++ to_string (size_of minimized) ++ nl) ++ (text "# shrink iterations: " ++ to_string (Z.of_nat iterations) ++ nl) in
  run_and_emit os (mkFixtureParams seed 3 (size_of minimized) 20 1000) minimized.

Definition write_fixture_export (os : bytes) (request : FixtureExportRequest) : bytes :=
  match fr_mode request with
  | ExportVersion => os ++ to_string kGeneratorVersion ++ nl
  | ExportStream => write_stream_fixture os (fr_params request)
  | ExportIocScenario => write_ioc_scenario_fixture os
  | ExportProperty => write_property_fixture os (fr_seed request)
  | ExportShrink => write_shrunk_fixture os (fr_seed request)
  | ExportDivergence => write_divergence_fixture os (fr_seed request)
  end.
End Run.
