(* ===== verification/ReplayEngine.v ===== *)
(** * ReplayEngine: the independent OCaml replay engine

    ocaml/lib/replay_engine.ml: an immutable second implementation of the book,
    the gateway checks and the snapshot, used to cross-check the C++ engine.
    [Map.Make (Int)] is the list of bindings in ascending key order, an [int] is
    an integer of 63 bits. *)
From S2P Require Import Prelude Endian Text Command.

(** ** OCaml integers and maps *)

(** The result of an arithmetic operation on [int]. *)
Definition int63 (z : Z) : Z := (z + 2 ^ 62) mod 2 ^ 63 - 2 ^ 62.

Section IMap.
Context {V : Type}.
Implicit Types m : list (Z * V).

Definition imap_find_opt (k : Z) m : option V := om_find k m.
Definition imap_mem (k : Z) m : bool := bool_decide (is_Some (om_find k m)).
Definition imap_add (k : Z) (v : V) m : list (Z * V) := om_alter (fun _ => v) k (om_try_emplace Z.ltb k v m).
Definition imap_remove (k : Z) m : list (Z * V) := om_erase k m.
Definition imap_is_empty m : bool := is_nil m.
Definition imap_min_binding_opt m : option (Z * V) := head m.
Definition imap_max_binding_opt m : option (Z * V) := last m.
Definition imap_bindings m : list (Z * V) := m.
Definition imap_cardinal m : Z := Z.of_nat (length m).
End IMap.

(** ** Types *)

Inductive side := OBuy | OSell.
Inductive tif := OGTC | OIOC.

#[export] Instance side_eq_dec : EqDecision side.
Proof. solve_decision. Defined.
#[export] Instance tif_eq_dec : EqDecision tif.
Proof. solve_decision. Defined.

Inductive command :=
| OReg (name : string)
| OLimit (sym id : Z) (s : side) (price qty : Z) (t : tif)
| OMarket (sym id : Z) (s : side) (qty : Z)
| OCancel (sym id : Z)
| OModify (sym id price qty : Z).

Record meta := mkMeta { max_qty : Z; meta_max_notional : Z }.

Record order := mkOOrder { oo_id : Z; oo_qty : Z }.

#[export] Instance order_eq_dec : EqDecision order.
Proof. solve_decision. Defined.

Record book := mkBook { bids : list (Z * list order); asks : list (Z * list order); locs : list (Z * (side * Z)) }.

Definition empty_book : book := mkBook [] [] [].
Definition contains (b : book) (id : Z) : bool := imap_mem id (locs b).

(** ** Matching *)

(** A trade is taker, maker, price, quantity. *)
Abbreviation trade := (Z * Z * Z * Z)%type (only parsing).

(** [consume]: fill from the head of a level. *)
Fixpoint consume (taker_id level_price : Z) (level : list order) (lo : list (Z * (side * Z))) (qty : Z) (trades : list trade) :
    list order * list (Z * (side * Z)) * Z * list trade :=
  match level with
  | [] => (level, lo, qty, trades)
  | maker :: rest =>
      if qty <=? 0 then (level, lo, qty, trades)
      else
        let traded := Z.min qty (oo_qty maker) in
        let trades := (taker_id, oo_id maker, level_price, traded) :: trades in
        let qty := int63 (qty - traded) in
        let maker_qty := int63 (oo_qty maker - traded) in
        if maker_qty =? 0 then consume taker_id level_price rest (imap_remove (oo_id maker) lo) qty trades
        else (mkOOrder (oo_id maker) maker_qty :: rest, lo, qty, trades)
  end.

(** The recursion of [match_qty]: a call either empties a level, which leaves the
    map, or spends the quantity. *)
Fixpoint match_loop (fuel : nat) (taker_id : Z) (taker_is_buy : bool) (limit : Z) (is_market : bool)
    (opp : list (Z * list order)) (lo : list (Z * (side * Z))) (qty : Z) (trades : list trade) :
    list (Z * list order) * list (Z * (side * Z)) * list trade * Z :=
  match fuel with
  | O => (opp, lo, trades, qty)
  | S fuel' =>
      if (qty <=? 0) || imap_is_empty opp then (opp, lo, trades, qty)
      else
        match (if taker_is_buy then imap_min_binding_opt opp else imap_max_binding_opt opp) with
        | None => (opp, lo, trades, qty)
        | Some (level_price, level) =>
            let crosses := is_market || (if taker_is_buy then level_price <=? limit else limit <=? level_price) in
            if negb crosses then (opp, lo, trades, qty)
            else
              let '(level', lo', qty', trades') := consume taker_id level_price level lo qty trades in
              let opp' := if is_nil level' then imap_remove level_price opp else imap_add level_price level' opp in
              match_loop fuel' taker_id taker_is_buy limit is_market opp' lo' qty' trades'
        end
  end.

Definition match_qty (taker_id : Z) (taker_is_buy : bool) (limit : Z) (is_market : bool)
    (opp : list (Z * list order)) (lo : list (Z * (side * Z))) (qty : Z) (trades : list trade) :=
  match_loop (S (S (length opp))) taker_id taker_is_buy limit is_market opp lo qty trades.

(** ** Book operations *)

Definition rest_order (b : book) (s : side) (price : Z) (o : order) : book :=
  let add map :=
    let level := default [] (imap_find_opt price map) in
    imap_add price (level ++ [o]) map in
  let lo := imap_add (oo_id o) (s, price) (locs b) in
  if bool_decide (s = OBuy) then mkBook (add (bids b)) (asks b) lo else mkBook (bids b) (add (asks b)) lo.

Definition add_limit (b : book) (id : Z) (s : side) (price qty : Z) (t : tif) : book * list trade :=
  let taker_is_buy := bool_decide (s = OBuy) in
  let opp := if taker_is_buy then asks b else bids b in
  let '(opp', lo', trades_rev, remaining) := match_qty id taker_is_buy price false opp (locs b) qty [] in
  let b := if taker_is_buy then mkBook (bids b) opp' lo' else mkBook opp' (asks b) lo' in
  let b := if (0 <? remaining) && bool_decide (t = OGTC) then rest_order b s price (mkOOrder id remaining) else b in
  (b, rev trades_rev).

Definition add_market (b : book) (id : Z) (s : side) (qty : Z) : book * list trade :=
  let taker_is_buy := bool_decide (s = OBuy) in
  let opp := if taker_is_buy then asks b else bids b in
  let '(opp', lo', trades_rev, _) := match_qty id taker_is_buy 0 true opp (locs b) qty [] in
  let b := if taker_is_buy then mkBook (bids b) opp' lo' else mkBook opp' (asks b) lo' in
  (b, rev trades_rev).

Definition cancel (b : book) (id : Z) : book * bool :=
  match imap_find_opt id (locs b) with
  | None => (b, false)
  | Some (s, price) =>
      let remove map :=
        match imap_find_opt price map with
        | None => map
        | Some level =>
            let level' := filter (fun o => oo_id o <> id) level in
            if is_nil level' then imap_remove price map else imap_add price level' map
        end in
      let lo := imap_remove id (locs b) in
      let b := if bool_decide (s = OBuy) then mkBook (remove (bids b)) (asks b) lo else mkBook (bids b) (remove (asks b)) lo in
      (b, true)
  end.

Definition resting_qty (b : book) (s : side) (price id : Z) : Z :=
  let map := if bool_decide (s = OBuy) then bids b else asks b in
  match imap_find_opt price map with
  | Some level => match list_find (fun o => oo_id o = id) level with Some (_, o) => oo_qty o | None => 0 end
  | None => 0
  end.

(** [IMap.find] raises [Not_found] on a missing level; then there is no result. *)
Definition modify_book (b : book) (id new_price new_qty : Z) : option (book * list trade) :=
  match imap_find_opt id (locs b) with
  | None => Some (b, [])
  | Some (s, price0) =>
      if new_qty =? 0 then Some ((cancel b id).1, [])
      else if (new_price =? price0) && (new_qty <=? resting_qty b s price0 id) then
        let upd map :=
          (fun level => imap_add price0 (List.map (fun o => if oo_id o =? id then mkOOrder (oo_id o) new_qty else o) level) map)
            <$> imap_find_opt price0 map in
        (if bool_decide (s = OBuy) then (fun m => (mkBook m (asks b) (locs b), [])) <$> upd (bids b)
         else (fun m => (mkBook (bids b) m (locs b), [])) <$> upd (asks b))
      else
        let '(b, _) := cancel b id in
        Some (add_limit b id s new_price new_qty OGTC)
  end.

(** ** Gateway checks *)

Definition check_limit_values (m : meta) (price qty : Z) : option string :=
  if price <=? 0 then Some "InvalidPrice"%string
  else if qty <=? 0 then Some "InvalidQuantity"%string
  else if max_qty m <? qty then Some "MaxQuantityExceeded"%string
  else if Z.quot (meta_max_notional m) price <? qty then Some "MaxNotionalExceeded"%string
  else None.

Definition check_market (m : meta) (qty : Z) : option string :=
  if qty <=? 0 then Some "InvalidQuantity"%string
  else if max_qty m <? qty then Some "MaxQuantityExceeded"%string
  else None.

(** ** The engine *)

Record state := mkOState {
  names : gmap string Z;
  next_id : Z;
  books : list (Z * book);
  seq : Z;
  st_trades : Z;
  st_meta : meta
}.

Definition initial (m : meta) : state := mkOState ∅ 0 [] 0 0 m.

Definition put_book (st : state) (sym : Z) (b : book) (ev fills : Z) : state :=
  mkOState (names st) (next_id st) (imap_add sym b (books st)) (int63 (seq st + ev)) (int63 (st_trades st + fills)) (st_meta st).

Definition put_trades (st : state) (sym : Z) (r : book * list trade) : state :=
  let '(b, trades) := r in
  put_book st sym b (int63 (1 + Z.of_nat (length trades))) (Z.of_nat (length trades)).

(** [None] is an exception ([Not_found] of [modify_book]). *)
Definition apply (st : state) (c : command) : option state :=
  match c with
  | OReg name =>
      match names st !! name with
      | Some _ => Some st
      | None =>
          Some (mkOState (<[name := next_id st]> (names st)) (int63 (next_id st + 1))
                  (imap_add (next_id st) empty_book (books st)) (seq st) (st_trades st) (st_meta st))
      end
  | OLimit sym id s price qty t =>
      match imap_find_opt sym (books st) with
      | None => Some st
      | Some b =>
          if contains b id then Some st
          else
            match check_limit_values (st_meta st) price qty with
            | Some _ => Some st
            | None => Some (put_trades st sym (add_limit b id s price qty t))
            end
      end
  | OMarket sym id s qty =>
      match imap_find_opt sym (books st) with
      | None => Some st
      | Some b =>
          if contains b id then Some st
          else
            match check_market (st_meta st) qty with
            | Some _ => Some st
            | None => Some (put_trades st sym (add_market b id s qty))
            end
      end
  | OCancel sym id =>
      match imap_find_opt sym (books st) with
      | None => Some st
      | Some b => if negb (contains b id) then Some st else Some (put_book st sym (cancel b id).1 1 0)
      end
  | OModify sym id price qty =>
      match imap_find_opt sym (books st) with
      | None => Some st
      | Some b =>
          if negb (contains b id) then Some st
          else if qty =? 0 then put_trades st sym <$> modify_book b id price qty
          else
            match check_limit_values (st_meta st) price qty with
            | Some _ => Some st
            | None => put_trades st sym <$> modify_book b id price qty
            end
      end
  end.

Definition replay (m : meta) (commands : list command) : option state :=
  fold_left (fun st c => st ≫= fun st => apply st c) commands (Some (initial m)).

(** ** The snapshot *)

Record level_view := mkOLevelView { olv_price : Z; olv_qty : Z }.

Record sym_snapshot := mkSymSnapshot {
  sym : Z;
  best_bid : option Z;
  best_ask : option Z;
  order_count : Z;
  bid_levels : list level_view;
  ask_levels : list level_view
}.

Record snapshot_t := mkSnapshot { os_last_seq : Z; n_trades : Z; symbols : list sym_snapshot }.

#[export] Instance level_view_eq_dec : EqDecision level_view.
Proof. solve_decision. Defined.
#[export] Instance sym_snapshot_eq_dec : EqDecision sym_snapshot.
Proof. solve_decision. Defined.
#[export] Instance snapshot_eq_dec : EqDecision snapshot_t.
Proof. solve_decision. Defined.

Definition level_views (map : list (Z * list order)) (descending : bool) : list level_view :=
  let bindings := imap_bindings map in
  let ordered := if descending then rev bindings else bindings in
  List.map (fun x => mkOLevelView x.1 (fold_left (fun a o => int63 (a + oo_qty o)) x.2 0)) ordered.

Definition snapshot (st : state) : snapshot_t :=
  mkSnapshot (seq st) (st_trades st)
    (List.map (fun x =>
       mkSymSnapshot x.1 (fst <$> imap_max_binding_opt (bids x.2)) (fst <$> imap_min_binding_opt (asks x.2))
         (imap_cardinal (locs x.2)) (level_views (bids x.2) true) (level_views (asks x.2) false))
       (imap_bindings (books st))).

Definition opt_str (p : option Z) : bytes :=
  match p with Some p => to_string_signed p | None => text "-" end.

Definition snapshot_line (last_seq trades : Z) : bytes :=
  text "snapshot last_seq " ++ to_string_signed last_seq ++ text " trades " ++ to_string_signed trades.
Definition level_line (sym : Z) (mark : bytes) (l : level_view) : bytes :=
  text "level " ++ to_string_signed sym ++ text " " ++ mark ++ text " " ++ to_string_signed (olv_price l) ++ text " " ++
  to_string_signed (olv_qty l).
Definition sym_line (x : sym_snapshot) : bytes :=
  text "sym " ++ to_string_signed (sym x) ++ text " bid " ++ opt_str (best_bid x) ++ text " ask " ++ opt_str (best_ask x) ++
  text " orders " ++ to_string_signed (order_count x).
Definition sym_block (x : sym_snapshot) : list bytes :=
  (sym_line x :: List.map (level_line (sym x) (text "B")) (bid_levels x)) ++ List.map (level_line (sym x) (text "A")) (ask_levels x).

(** [snapshot_to_lines]. *)
Definition snapshot_to_lines (s : snapshot_t) : list bytes :=
  snapshot_line (os_last_seq s) (n_trades s) :: concat (List.map sym_block (symbols s)).
