(* ===== verification/StreamParser.v ===== *)
(** * StreamParser: the OCaml side of the differential test

    ocaml/lib/stream_parser.ml, ocaml/lib/diff_report.ml, ocaml/bin/diff_report.ml
    and ocaml/bin/replay_snapshot.ml.  A file is its bytes; [None] is the exception
    [Parse_error].  Of OCaml's library: [String.split_on_char], [input_line] and
    [int_of_string_opt] for 63-bit integers. *)
From S2P Require Import Prelude Core Endian Text Command ReplayEngine.

(** ** Strings *)

(** [String.split_on_char]. *)
Fixpoint split_on_char (sep : Z) (s : bytes) : list bytes :=
  match s with
  | [] => [[]]
  | c :: s' =>
      if c =? sep then [] :: split_on_char sep s'
      else match split_on_char sep s' with w :: ws => (c :: w) :: ws | [] => [[c]] end
  end.

Definition words (line : bytes) : list bytes := filter (fun w => w <> []) (split_on_char 32 line).

Definition is_word (w : bytes) (s : string) : bool := bool_decide (w = text s).

(** The lines [input_line] returns before [End_of_file]: a last line without a
    newline is returned unless it is empty. *)
Definition input_lines (contents : bytes) : list bytes :=
  let ls := split_on_char 10 contents in
  match last ls with Some [] => take (length ls - 1) ls | _ => ls end.

(** ** [int_of_string_opt] *)

Definition parse_digit (c : Z) : option Z :=
  if (48 <=? c) && (c <=? 57) then Some (c - 48)
  else if (65 <=? c) && (c <=? 70) then Some (c - 55)
  else if (97 <=? c) && (c <=? 102) then Some (c - 87)
  else None.

(** The digits after the first; [_] is skipped; overflow of 64 bits fails. *)
Fixpoint parse_digits (base : Z) (s : bytes) (res : Z) : option Z :=
  match s with
  | [] => Some res
  | c :: s' =>
      if c =? 95 then parse_digits base s' res
      else
        match parse_digit c with
        | Some d =>
            if base <=? d then None
            else if (2 ^ 64 - 1) / base <? res then None
            else
              let res' := base * res + d in
              if 2 ^ 64 <=? res' then None else parse_digits base s' res'
        | None => None
        end
  end.

(** The sign. *)
Definition parse_sign (s : bytes) : bool * bytes :=
  match s with
  | c :: s' => if c =? 45 then (true, s') else if c =? 43 then (false, s') else (false, s)
  | [] => (false, s)
  end.

(** The base prefix: the base and whether the literal is signed. *)
Definition parse_base (s : bytes) : Z * bool * bytes :=
  match s with
  | 48 :: c :: s' =>
      if (c =? 120) || (c =? 88) then (16, false, s')
      else if (c =? 111) || (c =? 79) then (8, false, s')
      else if (c =? 98) || (c =? 66) then (2, false, s')
      else if (c =? 117) || (c =? 85) then (10, false, s')
      else (10, true, s)
  | _ => (10, true, s)
  end.

Definition int_of_string_opt (s : bytes) : option Z :=
  let '(negative, s) := parse_sign s in
  let '(base, signed, s) := parse_base s in
  match s with
  | [] => None
  | c :: s' =>
      match parse_digit c with
      | None => None
      | Some d =>
          if base <=? d then None
          else
            match parse_digits base s' d with
            | None => None
            | Some res =>
                let in_range :=
                  if signed then (if negative : bool then res <=? 2 ^ 62 else res <? 2 ^ 62) else res <? 2 ^ 63 in
                if in_range then Some (int63 (if negative then - res else res)) else None
            end
      end
  end.

(** ** Records *)

Definition int_of (t : bytes) : option Z := int_of_string_opt t.
Definition side_of (t : bytes) : option side :=
  if is_word t "B" then Some OBuy else if is_word t "S" then Some OSell else None.
Definition tif_of (t : bytes) : option tif :=
  if is_word t "GTC" then Some OGTC else if is_word t "IOC" then Some OIOC else None.

Fixpoint value_after (key : string) (toks : list bytes) : option Z :=
  match toks with
  | a :: ((b :: _) as tl) => if is_word a key then int_of b else value_after key tl
  | [_] | [] => None
  end.

Abbreviation pstate := (option meta * list command)%type (only parsing).

(** The record after [cmd]. *)
Definition parse_cmd (toks : list bytes) : option command :=
  match toks with
  | [k; name] => if is_word k "reg" then Some (OReg (string_of_bytes name)) else None
  | [k; sym; id; s; price; qty; t] =>
      if is_word k "limit" then
        sym ← int_of sym; id ← int_of id; s ← side_of s; price ← int_of price; qty ← int_of qty; t ← tif_of t;
        Some (OLimit sym id s price qty t)
      else None
  | [k; a; b; c; d] =>
      if is_word k "market" then
        sym ← int_of a; id ← int_of b; s ← side_of c; qty ← int_of d; Some (OMarket sym id s qty)
      else if is_word k "modify" then
        sym ← int_of a; id ← int_of b; price ← int_of c; qty ← int_of d; Some (OModify sym id price qty)
      else None
  | [k; sym; id] =>
      if is_word k "cancel" then sym ← int_of sym; id ← int_of id; Some (OCancel sym id) else None
  | _ => None
  end.

(** The closure [handle] of [parse_lines]. *)
Definition handle (st : pstate) (line : bytes) : option pstate :=
  match words line with
  | [] => Some st
  | first :: rest =>
      if bool_decide (head first = Some 35) then Some st
      else if is_word first "version" then Some st
      else if is_word first "meta" then
        q ← value_after "max_qty" (first :: rest); v ← value_after "max_notional" (first :: rest);
        Some (Some (mkMeta q v), st.2)
      else if is_word first "cmd" then c ← parse_cmd rest; Some (st.1, c :: st.2)
      else if is_word first "evt" || is_word first "reject" || is_word first "snapshot" || is_word first "sym" || is_word first "level"
      then Some st
      else None
  end.

(** [List.iter] of a handler that may raise. *)
Definition iter_opt {A S : Type} (f : S -> A -> option S) (l : list A) (s : option S) : option S :=
  fold_left (fun s a => s ≫= fun s => f s a) l s.

Definition parse_lines (lines : list bytes) : option (meta * list command) :=
  st ← iter_opt handle lines (Some (None, []));
  m ← st.1;
  Some (m, rev st.2).

(** ** The expected snapshot *)

Definition opt_of (t : bytes) : option (option Z) := if is_word t "-" then Some None else Some <$> int_of t.

(** [last_seq], [n_trades] and the symbols, newest first. *)
Abbreviation sstate := (Z * Z * list sym_snapshot)%type (only parsing).

Definition add_level (ba : bytes) (lv : level_view) (cur : sym_snapshot) : sym_snapshot :=
  if is_word ba "B"
  then mkSymSnapshot (sym cur) (best_bid cur) (best_ask cur) (order_count cur) (bid_levels cur ++ [lv]) (ask_levels cur)
  else mkSymSnapshot (sym cur) (best_bid cur) (best_ask cur) (order_count cur) (bid_levels cur) (ask_levels cur ++ [lv]).

(** The closure [handle] of [parse_full_lines]. *)
Definition handle_snapshot (st : sstate) (line : bytes) : option sstate :=
  let '(last_seq, n_trades, syms) := st in
  match words line with
  | [w; k1; a; k2; b] =>
      if is_word w "snapshot" && is_word k1 "last_seq" && is_word k2 "trades" then
        ls ← int_of a; t ← int_of b; Some (ls, t, syms)
      else if is_word w "level" then
        level_sym ← int_of k1;
        match syms with
        | [] => None
        | cur :: rest =>
            if negb (level_sym =? sym cur) then None
            else
              price ← int_of k2; qty ← int_of b;
              Some (last_seq, n_trades, add_level a (mkOLevelView price qty) cur :: rest)
        end
      else Some st
  | [w; s; k1; b; k2; a; k3; n] =>
      if is_word w "sym" && is_word k1 "bid" && is_word k2 "ask" && is_word k3 "orders" then
        s ← int_of s; b ← opt_of b; a ← opt_of a; n ← int_of n;
        Some (last_seq, n_trades, mkSymSnapshot s b a n [] [] :: syms)
      else Some st
  | _ => Some st
  end.

Definition parse_full_lines (lines : list bytes) : option (meta * list command * snapshot_t) :=
  mc ← parse_lines lines;
  st ← iter_opt handle_snapshot lines (Some (0, 0, []));
  Some (mc, mkSnapshot st.1.1 st.1.2 (rev st.2)).

Definition parse_file (contents : bytes) : option (meta * list command) := parse_lines (input_lines contents).
Definition parse_full_file (contents : bytes) : option (meta * list command * snapshot_t) := parse_full_lines (input_lines contents).

(** ** diff_report.ml *)

(** [String.concat]. *)
Fixpoint join (sep : bytes) (ls : list bytes) : bytes :=
  match ls with
  | [] => []
  | [l] => l
  | l :: ls' => l ++ sep ++ join sep ls'
  end.

Fixpoint unified_lines (computed expected : list bytes) : list bytes :=
  match computed, expected with
  | c :: cs, e :: es =>
      if bool_decide (c = e) then unified_lines cs es else (text "- " ++ c ++ [10] ++ text "+ " ++ e) :: unified_lines cs es
  | cs, [] => map (fun c => text "- " ++ c) cs
  | [], es => map (fun e => text "+ " ++ e) es
  end.
Definition unified (computed expected : list bytes) : bytes := join [10] (unified_lines computed expected).

(** The files of a bundle. *)
Record bundle := mkBundle { original : bytes; computed_file : bytes; expected_file : bytes; diff_file : bytes }.

Inductive outcome (A : Type) :=
| Returns (a : A)
| Raises_Parse_error
| Raises_Not_found.
Arguments Returns {A} a.
Arguments Raises_Parse_error {A}.
Arguments Raises_Not_found {A}.

(** [bundle_if_divergent]: the files it writes; none, when the snapshots agree. *)
Definition bundle_if_divergent (contents : bytes) : outcome (option bundle) :=
  match parse_full_file contents with
  | None => Raises_Parse_error
  | Some (m, commands, expected) =>
      match replay m commands with
      | None => Raises_Not_found
      | Some st =>
          let cl := snapshot_to_lines (snapshot st) in
          let el := snapshot_to_lines expected in
          if bool_decide (cl = el) then Returns None
          else Returns (Some (mkBundle contents (join [10] cl ++ [10]) (join [10] el ++ [10]) (unified cl el ++ [10])))
      end
  end.

(** ** bin/diff_report.ml: the exit code for the given fixtures

    A fixture that cannot be read is [None] ([Sys_error]); an uncaught exception
    ends the process, which is the outcome [None]. *)

Definition diverged (fixture : option bytes) : option bool :=
  match fixture with
  | None => Some true
  | Some contents =>
      match bundle_if_divergent contents with
      | Returns (Some _) => Some true
      | Returns None => Some false
      | Raises_Parse_error => Some true
      | Raises_Not_found => None
      end
  end.

Definition diff_report (fixtures : list (option bytes)) : option Z :=
  any ← iter_opt (fun acc f => d ← diverged f; Some (acc || d)) fixtures (Some false);
  Some (if any : bool then 1 else 0).

(** ** bin/replay_snapshot.ml: the printed snapshot and the exit code *)

Definition is_cancel (c : command) : bool := match c with OCancel _ _ => true | _ => false end.

Definition replay_snapshot (contents : option bytes) (drop_cancels : bool) : option (list bytes * Z) :=
  match contents ≫= parse_file with
  | None => Some ([], 2)
  | Some (m, commands) =>
      let commands := if drop_cancels then filter (fun c => is_cancel c = false) commands else commands in
      st ← replay m commands;
      Some (snapshot_to_lines (snapshot st), 0)
  end.
