(* ===== verification/ReplayBook.v ===== *)
(** * ReplayBook: the OCaml book implements the abstract book

    The maps of ocaml/lib/replay_engine.ml are kept in ascending key order on both
    sides; read best price first they are the level maps of the C++ book, and
    every operation of the OCaml book is the operation of the abstract book. *)
From Stdlib Require Import ZifyBool.
From S2P Require Import Prelude Core Endian Text Book BookSpec OrderBook Command ReplayEngine.

(** ** Ordered maps by their lookups *)

Section MapExt.
Context {V : Type} (before : Z -> Z -> bool).
Context (Hirr : forall a, before a a = false).
Context (Htr : forall a b c, before a b = true -> before b c = true -> before a c = true).
Context (Htot : forall a b, before a b = false -> a <> b -> before b a = true).
Implicit Types m : list (Z * V).

Lemma om_sorted_cons k v m : om_sorted before ((k, v) :: m) <-> om_sorted before m /\ Forall (fun e => before k e.1 = true) m.
Proof. unfold om_sorted. split; [by inversion 1|]. intros []. by constructor. Qed.

Lemma om_sorted_find k v m : om_sorted before ((k, v) :: m) -> om_find k m = None.
Proof.
  intros [_ Hf]%om_sorted_cons. apply om_find_None. intros Hin. apply list_elem_of_fmap in Hin as ([k' v'] & -> & Hin).
  rewrite Forall_forall in Hf. specialize (Hf _ Hin). cbn in Hf. by rewrite Hirr in Hf.
Qed.

Lemma om_sorted_ext m1 : forall m2,
  om_sorted before m1 -> om_sorted before m2 -> (forall k, om_find k m1 = om_find k m2) -> m1 = m2.
Proof.
  induction m1 as [|[k1 v1] m1 IH]; intros [|[k2 v2] m2] H1 H2 He; [done| | |].
  - specialize (He k2). cbn in He. by rewrite Z.eqb_refl in He.
  - specialize (He k1). cbn in He. by rewrite Z.eqb_refl in He.
  - assert (k1 = k2) as <-.
    { destruct (decide (k1 = k2)) as [|Hne]; [done|]. exfalso. pose proof (He k1) as E1. pose proof (He k2) as E2. cbn in E1, E2.
      rewrite Z.eqb_refl in E1, E2. rewrite (proj2 (Z.eqb_neq k1 k2)) in E1 by done. rewrite (proj2 (Z.eqb_neq k2 k1)) in E2 by done.
      symmetry in E1. apply om_find_Some in E1 as (l & r & E1 & _). apply om_find_Some in E2 as (l' & r' & E2 & _).
      apply om_sorted_cons in H1 as [_ H1]. apply om_sorted_cons in H2 as [_ H2]. rewrite E1 in H2. rewrite E2 in H1.
      apply Forall_app in H1 as [_ [H1 _]%Forall_cons]. apply Forall_app in H2 as [_ [H2 _]%Forall_cons]. cbn in H1, H2.
      specialize (Htr _ _ _ H1 H2). by rewrite Hirr in Htr. }
    pose proof (He k1) as E1. cbn in E1. rewrite Z.eqb_refl in E1. injection E1 as <-. f_equal.
    apply IH; [by apply om_sorted_cons in H1 as [? _]|by apply om_sorted_cons in H2 as [? _]|]. intros k. destruct (decide (k = k1)) as [->|Hne].
    + by rewrite (om_sorted_find _ _ _ H1), (om_sorted_find _ _ _ H2).
    + specialize (He k). cbn in He. by rewrite (proj2 (Z.eqb_neq k k1)) in He.
Qed.

Lemma om_erase_sorted k m : om_sorted before m -> om_sorted before (om_erase k m).
Proof.
  intros Hs. induction m as [|[k' v'] m IH]; [done|]. apply om_sorted_cons in Hs as [Hs Hf]. cbn [om_erase]. destruct (k =? k'); [done|].
  apply om_sorted_cons. split; [by apply IH|]. clear -Hf. induction m as [|[k1 v1] m IH]; [constructor|]. apply Forall_cons in Hf as [Hf1 Hf].
  cbn [om_erase]. destruct (k =? k1); [done|]. constructor; [done|by apply IH].
Qed.

Lemma om_find_erase k m k' : om_sorted before m -> om_find k' (om_erase k m) = if k' =? k then None else om_find k' m.
Proof.
  induction m as [|[k1 v1] m IH]; intros Hs; cbn [om_erase om_find]; [by destruct (k' =? k)|].
  pose proof (om_sorted_find _ _ _ Hs) as Hk1. apply om_sorted_cons in Hs as [Hs _].
  destruct (Z.eqb_spec k k1) as [->|Hne].
  - destruct (Z.eqb_spec k' k1) as [E|]; [by rewrite E|done].
  - cbn [om_find]. rewrite (IH Hs). destruct (Z.eqb_spec k' k1) as [E|]; [|done]. rewrite E. by rewrite (proj2 (Z.eqb_neq k1 k)).
Qed.

Lemma om_try_emplace_present k v v' m : om_sorted before m -> om_find k m = Some v -> om_try_emplace before k v' m = m.
Proof.
  induction m as [|[k' v1] m IH]; intros Hs Hf; [done|]. apply om_sorted_cons in Hs as [Hs Hk]. cbn [om_find om_try_emplace] in *.
  destruct (Z.eqb_spec k k') as [->|]; [by rewrite Hirr|]. rewrite IH by done. destruct (before k k') eqn:E; [|done].
  apply om_find_Some in Hf as (l & r & -> & _). apply Forall_app in Hk as [_ [Hk _]%Forall_cons]. cbn in Hk.
  pose proof (Htr _ _ _ E Hk) as H. by rewrite Hirr in H.
Qed.

Definition om_put (k : Z) (v : V) m : list (Z * V) := om_alter (fun _ => v) k (om_try_emplace before k v m).

Lemma om_alter_sorted f k m : om_sorted before m -> om_sorted before (om_alter f k m).
Proof. intros Hs. apply om_sorted_keys. rewrite om_alter_keys. by apply om_sorted_keys. Qed.

Lemma om_put_sorted k v m : om_sorted before m -> om_sorted before (om_put k v m).
Proof. intros Hs. unfold om_put. apply om_alter_sorted. by apply om_try_emplace_sorted. Qed.

Lemma om_find_put k v m k' : om_sorted before m -> om_find k' (om_put k v m) = if k' =? k then Some v else om_find k' m.
Proof.
  intros Hs. unfold om_put. destruct (Z.eqb_spec k' k) as [->|Hne].
  - by rewrite om_find_alter_eq, om_find_try_emplace, Z.eqb_refl.
  - rewrite om_find_alter_ne, om_find_try_emplace by done. by rewrite (proj2 (Z.eqb_neq k' k)).
Qed.
End MapExt.

(** ** Best price first *)

Definition best_first {V} (is_bid : bool) (m : list (Z * V)) : list (Z * V) := if is_bid then rev m else m.

Lemma before_irr is_bid a : before_of is_bid a a = false.
Proof. destruct is_bid; unfold before_of, bid_before, ask_before; lia. Qed.
Lemma before_tr is_bid a b c : before_of is_bid a b = true -> before_of is_bid b c = true -> before_of is_bid a c = true.
Proof. destruct is_bid; unfold before_of, bid_before, ask_before; lia. Qed.
Lemma before_tot is_bid a b : before_of is_bid a b = false -> a <> b -> before_of is_bid b a = true.
Proof. destruct is_bid; unfold before_of, bid_before, ask_before; lia. Qed.

Section BestFirst.
Context {V : Type}.
Implicit Types m : list (Z * V).

Lemma ltb_irr a : Z.ltb a a = false.
Proof. lia. Qed.
Lemma ltb_tr a b c : Z.ltb a b = true -> Z.ltb b c = true -> Z.ltb a c = true.
Proof. lia. Qed.
Lemma ltb_tot a b : Z.ltb a b = false -> a <> b -> Z.ltb b a = true.
Proof. lia. Qed.

Lemma rev_sorted m : om_sorted Z.ltb m -> om_sorted bid_before (rev m).
Proof.
  intros Hs. induction m as [|[k v] m IH]; [constructor|]. apply om_sorted_cons in Hs as [Hs Hf]. cbn [rev]. unfold om_sorted.
  specialize (IH Hs). unfold om_sorted in IH. assert (Forall (fun e => Z.ltb k e.1 = true) (rev m)) as Hf'.
  { rewrite Forall_forall in *. intros e He. apply Hf. apply list_elem_of_In. apply in_rev. by apply list_elem_of_In. }
  induction IH as [|e l Hl IHl He]; cbn [app]; [by repeat constructor|]. apply Forall_cons in Hf' as [Hek Hf']. constructor; [by apply IHl|].
  apply Forall_app. split; [done|]. constructor; [|constructor]. unfold bid_before. cbn. done.
Qed.

Lemma best_first_sorted is_bid m : om_sorted Z.ltb m -> om_sorted (before_of is_bid) (best_first is_bid m).
Proof. destruct is_bid; [apply rev_sorted|done]. Qed.

Lemma om_find_snoc k m k' v : om_find k (m ++ [(k', v)]) = match om_find k m with Some x => Some x | None => if k =? k' then Some v else None end.
Proof. induction m as [|[k1 v1] m IH]; cbn; [done|]. destruct (k =? k1); done. Qed.

Lemma best_first_find is_bid k m : om_sorted Z.ltb m -> om_find k (best_first is_bid m) = om_find k m.
Proof.
  destruct is_bid; [|done]. cbn [best_first]. induction m as [|[k1 v1] m IH]; intros Hs; [done|]. pose proof (om_sorted_find _ ltb_irr _ _ _ Hs) as Hn.
  apply om_sorted_cons in Hs as [Hs _]. cbn [rev]. rewrite om_find_snoc, IH by done. cbn [om_find].
  destruct (Z.eqb_spec k k1) as [->|]; [by rewrite Hn|]. by destruct (om_find k m).
Qed.

Lemma imap_add_sorted k v m : om_sorted Z.ltb m -> om_sorted Z.ltb (imap_add k v m).
Proof. apply (om_put_sorted Z.ltb ltb_tr ltb_tot). Qed.
Lemma imap_find_add k v m k' : om_sorted Z.ltb m -> om_find k' (imap_add k v m) = if k' =? k then Some v else om_find k' m.
Proof. apply (om_find_put Z.ltb ltb_irr ltb_tr). Qed.
Lemma imap_remove_sorted k m : om_sorted Z.ltb m -> om_sorted Z.ltb (imap_remove k m).
Proof. apply om_erase_sorted. Qed.
Lemma imap_find_remove k m k' : om_sorted Z.ltb m -> om_find k' (imap_remove k m) = if k' =? k then None else om_find k' m.
Proof. apply (om_find_erase Z.ltb ltb_irr). Qed.

Lemma best_first_add is_bid k v m : om_sorted Z.ltb m -> best_first is_bid (imap_add k v m) = om_put (before_of is_bid) k v (best_first is_bid m).
Proof.
  intros Hs. pose proof (best_first_sorted is_bid m Hs) as Hb.
  apply (om_sorted_ext (before_of is_bid) (before_irr is_bid) (before_tr is_bid)).
  - apply best_first_sorted, imap_add_sorted, Hs.
  - apply om_put_sorted; [apply before_tr|apply before_tot|done].
  - intros k'. rewrite best_first_find, imap_find_add by (done || by apply imap_add_sorted).
    rewrite om_find_put by (apply before_irr || apply before_tr || done). by rewrite best_first_find.
Qed.

Lemma best_first_remove is_bid k m : om_sorted Z.ltb m -> best_first is_bid (imap_remove k m) = om_erase k (best_first is_bid m).
Proof.
  intros Hs. pose proof (best_first_sorted is_bid m Hs) as Hb.
  apply (om_sorted_ext (before_of is_bid) (before_irr is_bid) (before_tr is_bid)).
  - apply best_first_sorted, imap_remove_sorted, Hs.
  - by apply om_erase_sorted.
  - intros k'. rewrite best_first_find, imap_find_remove by (done || by apply imap_remove_sorted).
    rewrite (om_find_erase (before_of is_bid) (before_irr is_bid)) by done. by rewrite best_first_find.
Qed.

Lemma best_first_head is_bid m :
  head (best_first is_bid m) = if is_bid then imap_max_binding_opt m else imap_min_binding_opt m.
Proof. destruct is_bid; [|done]. cbn. unfold imap_max_binding_opt. destruct m as [|e m _] using rev_ind; [done|]. by rewrite rev_app_distr, last_snoc. Qed.

(** The place of one level in the book. *)
Lemma level_split is_bid m p level :
  om_sorted Z.ltb m -> om_find p m = Some level ->
  exists l r, best_first is_bid m = l ++ (p, level) :: r /\
    (forall level', best_first is_bid (imap_add p level' m) = l ++ (p, level') :: r) /\ best_first is_bid (imap_remove p m) = l ++ r.
Proof.
  intros Hs Hf. rewrite <- (best_first_find is_bid) in Hf by done. apply om_find_Some in Hf as (l & r & Hm & Hl). exists l, r. split; [done|]. split.
  - intros level'. rewrite best_first_add, Hm by done. unfold om_put.
    rewrite (om_try_emplace_present (before_of is_bid) (before_irr is_bid) (before_tr is_bid) _ level); [|rewrite <- Hm; by apply best_first_sorted|].
    2:{ rewrite om_find_app_None by done. cbn. by rewrite Z.eqb_refl. }
    rewrite om_alter_app_None by done. cbn. by rewrite Z.eqb_refl.
  - rewrite best_first_remove, Hm, om_erase_app_None by done. cbn. by rewrite Z.eqb_refl.
Qed.
End BestFirst.

(** ** The abstract value of a book *)

Lemma int63_small z : - 2 ^ 62 <= z < 2 ^ 62 -> int63 z = z.
Proof. intros H. unfold int63. rewrite Z.mod_small by lia. lia. Qed.

Definition to_side (is_bid : bool) : Side := if is_bid then Buy else Sell.

(** An order of the level of price [p]. *)
Definition up (is_bid : bool) (p : Z) (o : order) : Order := mkOrder (oo_id o) (to_side is_bid) p (oo_qty o).
Definition lift (is_bid : bool) (m : list (Z * list order)) : list (Price * Level) :=
  map (fun e => (e.1, map (fun o => (0, up is_bid e.1 o)) e.2)) m.
Definition o_queue (is_bid : bool) (m : list (Z * list order)) : list Order := flat (lift is_bid (best_first is_bid m)).
Definition o_abs (b : book) : ABook := mkABook (o_queue true (bids b)) (o_queue false (asks b)).
Definition loc_of (o : Order) : Z * (side * Z) := (o_id o, (if is_buy (o_side o) then OBuy else OSell, o_price o)).

Definition levels_wf (m : list (Z * list order)) : Prop := om_sorted Z.ltb m /\ Forall (fun e => e.2 <> []) m.

Record o_wf (b : book) : Prop := {
  ow_bids : levels_wf (bids b);
  ow_asks : levels_wf (asks b);
  ow_sorted : om_sorted Z.ltb (locs b);
  ow_locs : locs b ≡ₚ map loc_of (a_orders (o_abs b));
  ow_abs : a_wf (o_abs b)
}.

Definition o_side_map (is_bid : bool) (b : book) : list (Z * list order) := if is_bid then bids b else asks b.

Lemma flat_lift_cons is_bid p level m : flat (lift is_bid ((p, level) :: m)) = map (up is_bid p) level ++ flat (lift is_bid m).
Proof. unfold lift. cbn [map]. rewrite flat_cons. cbn [fst snd]. by rewrite map_map. Qed.
Lemma flat_lift_app is_bid l r : flat (lift is_bid (l ++ r)) = flat (lift is_bid l) ++ flat (lift is_bid r).
Proof. unfold lift. rewrite map_app. unfold flat. by rewrite entries_app, map_app. Qed.

Lemma best_first_Forall {V} is_bid (P : Z * V -> Prop) m : Forall P m -> Forall P (best_first is_bid m).
Proof. destruct is_bid; [|done]. cbn. rewrite !Forall_forall. intros H e He. apply H, list_elem_of_In, in_rev. by apply list_elem_of_In in He. Qed.

Lemma lift_sorted is_bid before m : om_sorted before m -> om_sorted before (lift is_bid m).
Proof. rewrite !om_sorted_keys. unfold lift. intros H. rewrite <- list_fmap_compose. exact H. Qed.

Lemma lift_levels_ok is_bid m : levels_wf m -> levels_ok (before_of is_bid) (lift is_bid (best_first is_bid m)).
Proof.
  intros [Hs Hne]. split; [apply lift_sorted, best_first_sorted, Hs|]. apply (best_first_Forall is_bid) in Hne. unfold lift. apply Forall_map.
  eapply Forall_impl; [exact Hne|]. intros [p level] H. cbn in *. split; [by destruct level|]. apply Forall_map, Forall_forall. done.
Qed.

Lemma o_side_wf b is_bid : o_wf b -> levels_wf (o_side_map is_bid b).
Proof. intros []. by destruct is_bid. Qed.
Lemma a_side_abs b is_bid : a_side is_bid (o_abs b) = o_queue is_bid (o_side_map is_bid b).
Proof. by destruct is_bid. Qed.

(** ** The locator map *)

Lemma imap_remove_perm {V} k v (m l : list (Z * V)) : om_sorted Z.ltb m -> m ≡ₚ (k, v) :: l -> imap_remove k m ≡ₚ l.
Proof.
  intros Hs Hp. assert (om_find k m = Some v) as Hf.
  { assert ((k, v) ∈ m) as Hin by (rewrite Hp; apply list_elem_of_here). apply list_elem_of_split in Hin as (l1 & l2 & ->).
    rewrite om_find_app_None; [cbn; by rewrite Z.eqb_refl|]. apply om_find_None. intros Hin. apply list_elem_of_fmap in Hin as ([k' v'] & E & Hin). cbn in E. subst k'.
    apply list_elem_of_split in Hin as (l3 & l4 & ->). rewrite <- app_assoc in Hs. apply StronglySorted_app_1_r in Hs.
    apply om_sorted_cons in Hs as [_ Hs]. apply Forall_app in Hs as [_ [Hs _]%Forall_cons]. cbn in Hs. lia. }
  apply om_find_Some in Hf as (l1 & l2 & -> & Hn). unfold imap_remove. rewrite om_erase_app_None by done. cbn. rewrite Z.eqb_refl.
  apply (Permutation_cons_inv (a := (k, v))). rewrite <- Hp. by rewrite Permutation_middle.
Qed.

Lemma imap_add_perm {V} k v (m : list (Z * V)) : om_find k m = None -> imap_add k v m ≡ₚ (k, v) :: m.
Proof.
  intros Hn. unfold imap_add. induction m as [|[k' v'] m IH]; cbn in *; [by rewrite Z.eqb_refl|]. destruct (k <? k') eqn:E; cbn; [by rewrite Z.eqb_refl|].
  destruct (k =? k') eqn:E2; [done|]. cbn. rewrite E2, IH by done. apply Permutation_swap.
Qed.

Lemma locs_find b id sp :
  o_wf b -> om_find id (locs b) = Some sp <-> exists o, o ∈ a_orders (o_abs b) /\ loc_of o = (id, sp).
Proof.
  intros Hwf. transitivity ((id, sp) ∈ locs b).
  - split; [intros (l & r & -> & _)%om_find_Some; set_solver|]. intros Hin.
    destruct (om_find id (locs b)) as [sp'|] eqn:E.
    + apply om_find_Some in E as (l & r & E & Hl). pose proof (ow_sorted _ Hwf) as Hs. rewrite E in Hs, Hin. apply elem_of_app in Hin as [Hin|Hin].
      * apply om_find_None in Hl. destruct Hl. by apply (list_elem_of_fmap_2 fst _ (id, sp)).
      * apply elem_of_cons in Hin as [[= ->]|Hin]; [done|]. apply StronglySorted_app_1_r in Hs. apply om_sorted_cons in Hs as [_ Hs].
        rewrite Forall_forall in Hs. specialize (Hs _ Hin). cbn in Hs. lia.
    + apply om_find_None in E. destruct E. by apply (list_elem_of_fmap_2 fst _ (id, sp)).
  - rewrite (ow_locs _ Hwf). rewrite list_elem_of_fmap. split; intros (o & H1 & H2); exists o; done.
Qed.

Lemma contains_o b id : o_wf b -> contains b id = a_contains (o_abs b) id.
Proof.
  intros Hwf. unfold contains, imap_mem, a_contains. apply bool_decide_ext. unfold a_ids. split.
  - intros [sp (o & Ho & E)%locs_find]; [|done]. injection E as <- <-. by apply (list_elem_of_fmap_2 o_id).
  - intros (o & -> & Ho)%list_elem_of_fmap. eexists. apply locs_find; [done|]. by exists o.
Qed.

(** ** Matching *)

Definition trade_of (t : Trade) : trade := (t_taker_id t, t_maker_id t, t_price t, t_quantity t).

Definition fits (o : order) : Prop := 0 < oo_qty o < 2 ^ 32.

(** [consume] on one level is matching against its orders. *)
Lemma consume_spec is_bid taker p level : forall lo qty trades es,
  om_sorted Z.ltb lo -> 0 <= qty < 2 ^ 32 -> Forall fits level -> lo ≡ₚ map loc_of (map (up is_bid p) level) ++ es ->
  exists ts q' level' lo',
    consume taker p level lo qty trades = (level', lo', q', rev (map trade_of ts) ++ trades) /\
    a_match taker (fun _ => true) qty (map (up is_bid p) level) = (ts, q', map (up is_bid p) level') /\
    om_sorted Z.ltb lo' /\ lo' ≡ₚ map loc_of (map (up is_bid p) level') ++ es.
Proof.
  induction level as [|o level IH]; intros lo qty trades es Hs Hq Hfit Hp.
  { by exists [], qty, [], lo. }
  apply Forall_cons in Hfit as [Ho Hfit]. unfold fits in Ho. cbn [consume map a_match]. destruct (qty <=? 0) eqn:E0.
  { exists [], qty, (o :: level), lo. replace (0 <? qty) with false by lia. done. }
  replace (0 <? qty) with true by lia. cbn [andb up o_quantity o_id o_price]. rewrite !int63_small by lia. destruct (oo_qty o <=? qty) eqn:E1.
  - replace (Z.min qty (oo_qty o)) with (oo_qty o) by lia. replace (oo_qty o - oo_qty o =? 0) with true by lia.
    assert (imap_remove (oo_id o) lo ≡ₚ map loc_of (map (up is_bid p) level) ++ es) as Hp' by (eapply imap_remove_perm; [done|exact Hp]).
    destruct (IH (imap_remove (oo_id o) lo) (qty - oo_qty o) ((taker, oo_id o, p, oo_qty o) :: trades) es)
      as (ts & q' & level' & lo' & -> & -> & Hs' & Hpl); [by apply imap_remove_sorted|lia|done|done|].
    exists (mkTrade taker (oo_id o) p (oo_qty o) :: ts), q', level', lo'. split; [|done]. cbn [map rev]. by rewrite <- app_assoc.
  - replace (Z.min qty (oo_qty o)) with qty by lia. replace (oo_qty o - qty =? 0) with false by lia.
    exists [mkTrade taker (oo_id o) p qty], 0, (mkOOrder (oo_id o) (oo_qty o - qty) :: level), lo. split; [by rewrite Z.sub_diag|]. by split.
Qed.

Lemma levels_wf_add m p level : levels_wf m -> level <> [] -> levels_wf (imap_add p level m).
Proof.
  intros [Hs Hne] Hl. split; [by apply imap_add_sorted|]. unfold imap_add. apply (om_alter_Forall (fun l => l <> [])); [|done].
  by apply (om_try_emplace_Forall _ (fun l => l <> [])).
Qed.
Lemma om_erase_Forall {V} (P : Z * V -> Prop) k m : Forall P m -> Forall P (om_erase k m).
Proof. induction 1 as [|[k' v] m H Hm IH]; cbn; [constructor|]. case_if; [done|]. by constructor. Qed.
Lemma levels_wf_remove m p : levels_wf m -> levels_wf (imap_remove p m).
Proof. intros [Hs Hne]. split; [by apply imap_remove_sorted|]. by apply om_erase_Forall. Qed.

Lemma best_first_nil {V} is_bid (m : list (Z * V)) : imap_is_empty m = is_nil (best_first is_bid m).
Proof. destruct is_bid; [|done]. unfold imap_is_empty, best_first. induction m as [|e m _] using rev_ind; [done|]. rewrite rev_app_distr. by destruct m. Qed.

Lemma fits_of_queue is_bid p level m :
  Forall (fun o => in_u32 (o_quantity o) /\ 0 < o_quantity o) (map (up is_bid p) level ++ m) -> Forall fits level.
Proof. intros [H _]%Forall_app. apply Forall_map in H. eapply Forall_impl; [exact H|]. intros o. unfold in_u32, fits. cbn. lia. Qed.

Lemma a_match_range taker cross q opp ts r opp' :
  Forall (fun o => in_u32 (o_quantity o) /\ 0 < o_quantity o) opp -> 0 <= q -> a_match taker cross q opp = (ts, r, opp') -> 0 <= r <= q.
Proof.
  intros Hf Hq Hm. apply a_match_consumes in Hm; [|done]. split; [by eapply consumes_remainder|].
  eapply consumes_le; [done| |done]. eapply Forall_impl; [exact Hf|]. by intros o [].
Qed.

(** The whole recursion, by the levels that are left. *)
Lemma match_loop_spec is_bid taker limit mkt es levels : forall fuel m lo qty trades,
  best_first is_bid m = levels -> (S (length levels) < fuel)%nat -> levels_wf m -> om_sorted Z.ltb lo -> 0 <= qty < 2 ^ 32 ->
  Forall (fun o => in_u32 (o_quantity o) /\ 0 < o_quantity o) (o_queue is_bid m) ->
  lo ≡ₚ map loc_of (o_queue is_bid m) ++ es ->
  exists ts q' m' lo',
    match_loop fuel taker (negb is_bid) limit mkt m lo qty trades = (m', lo', rev (map trade_of ts) ++ trades, q') /\
    a_match taker (can_match_level (negb is_bid) mkt limit) qty (o_queue is_bid m) = (ts, q', o_queue is_bid m') /\
    levels_wf m' /\ om_sorted Z.ltb lo' /\ lo' ≡ₚ map loc_of (o_queue is_bid m') ++ es.
Proof.
  induction levels as [|[p level] levels IH]; intros fuel m lo qty trades Hm Hfuel Hwf Hs Hq Hqs Hlo; (destruct fuel as [|fuel]; [cbn in Hfuel; lia|]);
    cbn [match_loop]; rewrite (best_first_nil is_bid m), Hm; cbn [is_nil]; rewrite ?orb_true_r, ?orb_false_r.
  { exists [], qty, m, lo. split; [done|]. split; [unfold o_queue; by rewrite Hm|done]. }
  destruct (qty <=? 0) eqn:E0; [exists [], qty, m, lo; rewrite a_match_stop by lia; done|].
  pose proof (best_first_head is_bid m) as Hh. rewrite Hm in Hh. cbn [head] in Hh.
  assert ((if negb is_bid then imap_min_binding_opt m else imap_max_binding_opt m) = Some (p, level)) as -> by (by destruct is_bid).
  assert (mkt || (if negb is_bid then p <=? limit else limit <=? p) = can_match_level (negb is_bid) mkt limit p) as -> by (by destruct mkt).
  assert (o_queue is_bid m = map (up is_bid p) level ++ flat (lift is_bid levels)) as Hqm by (unfold o_queue; by rewrite Hm, flat_lift_cons).
  rewrite Hqm in Hlo, Hqs |- *. assert (level <> []) as Hne.
  { destruct Hwf as [_ Hne]. apply (best_first_Forall is_bid) in Hne. rewrite Hm in Hne. by apply Forall_cons in Hne as [? _]. }
  destruct (can_match_level (negb is_bid) mkt limit p) eqn:Ec; cbn [negb].
  2:{ exists [], qty, m, lo. rewrite Hqm. destruct level as [|o level]; [done|]. cbn [map app]. by rewrite a_match_no_cross. }
  rewrite map_app, <- app_assoc in Hlo.
  destruct (consume_spec is_bid taker p level lo qty trades (map loc_of (flat (lift is_bid levels)) ++ es))
    as (ts & q' & level' & lo' & -> & Hcm & Hs' & Hlo'); [done|done|by eapply fits_of_queue|done|].
  rewrite a_match_app by (by apply Forall_map, Forall_forall). rewrite (a_match_ext _ _ (fun _ => true)) by (by apply Forall_map, Forall_forall).
  rewrite Hcm. apply Forall_app in Hqs as [Hql Hqr]. pose proof (a_match_range _ _ _ _ _ _ _ Hql (proj1 Hq) Hcm) as Hr.
  assert (om_find p m = Some level) as Hf by (destruct Hwf as [Hms _]; rewrite <- (best_first_find is_bid), Hm by done; cbn; by rewrite Z.eqb_refl).
  destruct (level_split is_bid m p level (proj1 Hwf) Hf) as (l & r & Hlr & Hadd & Hrem).
  assert (l = [] /\ r = levels) as [-> ->].
  { rewrite Hm in Hlr. destruct l as [|[p1 v1] l]; [by injection Hlr|]. exfalso. injection Hlr as -> -> ->.
    pose proof (best_first_sorted is_bid m (proj1 Hwf)) as Hb. rewrite Hm in Hb. apply om_sorted_cons in Hb as [_ Hb]. apply Forall_app in Hb as [_ [Hb _]%Forall_cons].
    cbn in Hb. by rewrite before_irr in Hb. }
  cbn [app] in Hadd, Hrem. destruct level' as [|o' level']; cbn [is_nil map].
  - cbn [map app] in Hlo'. assert (o_queue is_bid (imap_remove p m) = flat (lift is_bid levels)) as Hqr' by (unfold o_queue; by rewrite Hrem).
    destruct (IH fuel (imap_remove p m) lo' q' (rev (map trade_of ts) ++ trades)) as (ts2 & q2 & m2 & lo2 & -> & Hm2 & Hwf2 & Hs2 & Hlo2);
      [done|cbn in Hfuel; lia|by apply levels_wf_remove|done|lia|by rewrite Hqr'|by rewrite Hqr'|].
    rewrite Hqr' in Hm2. rewrite Hm2. exists (ts ++ ts2), q2, m2, lo2. split; [|done]. by rewrite map_app, rev_app_distr, app_assoc.
  - assert (q' = 0) as ->. { eapply (a_match_left _ _ _ _ _ _ _ (proj1 Hq) Hcm); [|done]. by apply Forall_true. }
    destruct fuel as [|fuel]; [cbn in Hfuel; lia|]. cbn [match_loop]. exists ts, 0, (imap_add p (o' :: level') m), lo'.
    assert (o_queue is_bid (imap_add p (o' :: level') m) = map (up is_bid p) (o' :: level') ++ flat (lift is_bid levels)) as ->
      by (unfold o_queue; by rewrite Hadd, flat_lift_cons).
    split; [done|]. split; [done|]. split; [by apply levels_wf_add|]. split; [done|]. by rewrite map_app, <- app_assoc.
Qed.

(** ** Replacing one side *)

Definition o_with (is_bid : bool) (m : list (Z * list order)) (lo : list (Z * (side * Z))) (b : book) : book :=
  if is_bid then mkBook m (asks b) lo else mkBook (bids b) m lo.

Lemma o_abs_with is_bid m lo b : o_abs (o_with is_bid m lo b) = a_set_side is_bid (o_queue is_bid m) (o_abs b).
Proof. by destruct is_bid. Qed.

Lemma a_orders_sides (b : ABook) is_bid : a_orders b ≡ₚ a_side is_bid b ++ a_side (negb is_bid) b.
Proof. destruct is_bid; [done|]. unfold a_orders. cbn. apply Permutation_app_comm. Qed.

Lemma o_wf_with is_bid m lo b :
  o_wf b -> levels_wf m -> om_sorted Z.ltb lo ->
  lo ≡ₚ map loc_of (o_queue is_bid m) ++ map loc_of (a_side (negb is_bid) (o_abs b)) ->
  a_wf (a_set_side is_bid (o_queue is_bid m) (o_abs b)) -> o_wf (o_with is_bid m lo b).
Proof.
  intros [] Hm Hs Hlo Hwf. rewrite <- (o_abs_with is_bid m lo b) in Hwf. split; [by destruct is_bid..| | |done].
  - by destruct is_bid.
  - rewrite o_abs_with, (a_orders_sides _ is_bid), map_app. destruct is_bid; exact Hlo.
Qed.

Lemma locs_sides b is_bid : o_wf b ->
  locs b ≡ₚ map loc_of (o_queue is_bid (o_side_map is_bid b)) ++ map loc_of (a_side (negb is_bid) (o_abs b)).
Proof. intros Hwf. rewrite (ow_locs _ Hwf), (a_orders_sides _ is_bid), map_app. by rewrite a_side_abs. Qed.

(** ** Taking liquidity *)

Lemma match_qty_spec b id is_buy limit mkt qty :
  o_wf b -> in_u32 qty ->
  exists ts r m' lo',
    match_qty id is_buy limit mkt (o_side_map (negb is_buy) b) (locs b) qty [] = (m', lo', rev (map trade_of ts), r) /\
    a_take (o_abs b) id (to_side is_buy) limit mkt qty = (ts, r, o_abs (o_with (negb is_buy) m' lo' b)) /\
    o_wf (o_with (negb is_buy) m' lo' b) /\ 0 <= r <= qty.
Proof.
  intros Hwf Hq. unfold in_u32 in Hq. set (is_bid := negb is_buy). set (m := o_side_map is_bid b).
  pose proof (locs_sides b is_bid Hwf) as Hlo. fold m in Hlo. pose proof (a_side_wf _ is_bid (ow_abs _ Hwf)) as Hsw. rewrite a_side_abs in Hsw. fold m in Hsw.
  destruct (match_loop_spec is_bid id limit mkt (map loc_of (a_side (negb is_bid) (o_abs b))) (best_first is_bid m) (S (S (length m))) m (locs b) qty [])
    as (ts & r & m' & lo' & Hml & Ham & Hmwf & Hs & Hlo'); [done| |by apply o_side_wf|apply Hwf|lia|apply Hsw|done|].
  { unfold best_first. destruct is_bid; rewrite ?rev_length; lia. }
  assert (negb is_bid = is_buy) as Hneg by (unfold is_bid; by destruct is_buy). rewrite Hneg in Hml, Ham.
  assert (a_take (o_abs b) id (to_side is_buy) limit mkt qty = (ts, r, o_abs (o_with is_bid m' lo' b))) as Htake.
  { unfold a_take. assert (Book.is_buy (to_side is_buy) = is_buy) as -> by (by destruct is_buy). fold is_bid. rewrite a_side_abs. fold m. rewrite Ham. by rewrite o_abs_with. }
  exists ts, r, m', lo'. rewrite app_nil_r in Hml. split; [exact Hml|]. split; [done|]. split.
  - apply o_wf_with; [done..|]. rewrite <- (o_abs_with is_bid m' lo'). eapply a_take_wf; [apply Hwf| |exact Htake]. lia.
  - eapply a_take_le; [apply Hwf| |exact Htake]. lia.
Qed.

(** ** Resting *)

Lemma lift_find is_bid k m : om_find k (lift is_bid m) = map (fun o => (0, up is_bid k o)) <$> om_find k m.
Proof. induction m as [|[k' v] m IH]; cbn; [done|]. destruct (Z.eqb_spec k k') as [->|]; done. Qed.

Lemma rest_levels is_bid m p o :
  levels_wf m ->
  lift is_bid (best_first is_bid (imap_add p (default [] (imap_find_opt p m) ++ [o]) m)) =
  push_order is_bid 0 (up is_bid p o) (lift is_bid (best_first is_bid m)).
Proof.
  intros Hwf. pose proof (proj1 Hwf) as Hs. pose proof (lift_levels_ok is_bid m Hwf) as Hok.
  assert (om_sorted Z.ltb (imap_add p (default [] (imap_find_opt p m) ++ [o]) m)) as Hs' by (by apply imap_add_sorted).
  apply (om_sorted_ext (before_of is_bid) (before_irr is_bid) (before_tr is_bid)).
  - apply lift_sorted, best_first_sorted. done.
  - by apply push_order_spec.
  - intros k. rewrite lift_find, best_first_find, imap_find_add by done. unfold push_order. cbn [up o_price].
    assert (om_sorted (before_of is_bid) (lift is_bid (best_first is_bid m))) as Hl by apply Hok.
    destruct (Z.eqb_spec k p) as [->|Hne].
    + rewrite om_find_alter_eq, (om_find_try_emplace _ _ _ _ _ (before_irr is_bid) (before_tr is_bid) Hl), Z.eqb_refl.
      rewrite lift_find, best_first_find by done. unfold imap_find_opt. destruct (om_find p m) as [level|]; cbn; [by rewrite map_app|done].
    + rewrite om_find_alter_ne by done. rewrite (om_find_try_emplace _ _ _ _ _ (before_irr is_bid) (before_tr is_bid) Hl).
      replace (k =? p) with false by lia. by rewrite lift_find, best_first_find.
Qed.

Lemma rest_order_with b (is_bid : bool) p o :
  rest_order b (if is_bid then OBuy else OSell) p o =
  o_with is_bid (imap_add p (default [] (imap_find_opt p (o_side_map is_bid b)) ++ [o]) (o_side_map is_bid b)) (imap_add (oo_id o) (if is_bid then OBuy else OSell, p) (locs b)) b.
Proof. by destruct is_bid. Qed.

Lemma rest_order_spec b is_bid p o :
  o_wf b -> oo_id o ∉ a_ids (o_abs b) -> a_wf (a_rest (up is_bid p o) (o_abs b)) ->
  o_wf (rest_order b (if is_bid then OBuy else OSell) p o) /\
  o_abs (rest_order b (if is_bid then OBuy else OSell) p o) = a_rest (up is_bid p o) (o_abs b).
Proof.
  intros Hwf Hid Ha. rewrite rest_order_with. set (m := o_side_map is_bid b). pose proof (o_side_wf b is_bid Hwf) as Hm. fold m in Hm.
  destruct (push_order_spec is_bid 0 (up is_bid p o) (lift is_bid (best_first is_bid m))) as (_ & Hfl & _ & _); [by apply lift_levels_ok|].
  rewrite <- rest_levels in Hfl by done. set (m' := imap_add p (default [] (imap_find_opt p m) ++ [o]) m) in *.
  assert (is_buy (to_side is_bid) = is_bid) as Hb by (by destruct is_bid).
  assert (a_rest (up is_bid p o) (o_abs b) = a_set_side is_bid (o_queue is_bid m') (o_abs b)) as E.
  { unfold a_rest. cbn [up o_side]. rewrite Hb, a_side_abs. fold m. unfold o_queue. rewrite Hfl. done. }
  split; [|by rewrite o_abs_with, E]. rewrite E in Ha. apply o_wf_with; [done| | | |done].
  - apply levels_wf_add; [done|]. intros E0. by apply app_nil in E0 as [_ ?].
  - apply imap_add_sorted, Hwf.
  - rewrite imap_add_perm.
    + rewrite (locs_sides b is_bid Hwf). fold m. unfold o_queue at 2. fold m. rewrite Hfl, (a_insert_Permutation is_bid (up is_bid p o)). cbn [map app].
      unfold loc_of at 3. cbn [up o_id o_side o_price]. rewrite Hb. by destruct is_bid.
    + destruct (om_find (oo_id o) (locs b)) as [sp|] eqn:F; [|done]. apply locs_find in F as (x & Hx & Ex); [|done]. injection Ex as Ex _.
      destruct Hid. rewrite <- Ex. by apply (list_elem_of_fmap_2 o_id).
Qed.

(** ** Adding orders *)

Definition to_oside (is_bid : bool) : side := if is_bid then OBuy else OSell.
Definition to_tif (t : tif) : TimeInForce := match t with OGTC => GTC | OIOC => IOC end.

Lemma to_oside_buy is_bid : bool_decide (to_oside is_bid = OBuy) = is_bid.
Proof. by destruct is_bid. Qed.

Lemma o_with_take (is_buy : bool) b opp lo :
  (if is_buy then mkBook (bids b) opp lo else mkBook opp (asks b) lo) = o_with (negb is_buy) opp lo b.
Proof. by destruct is_buy. Qed.
Lemma o_side_take (is_buy : bool) b : (if is_buy then asks b else bids b) = o_side_map (negb is_buy) b.
Proof. by destruct is_buy. Qed.

Lemma add_limit_o b id is_buy price qty t :
  o_wf b -> in_u32 qty -> contains b id = false ->
  exists ts b', add_limit b id (to_oside is_buy) price qty t = (b', map trade_of ts) /\ o_wf b' /\
    a_add_limit (o_abs b) id (to_side is_buy) price qty (to_tif t) = (ts, o_abs b').
Proof.
  intros Hwf Hq Hc. rewrite contains_o in Hc by done. pose proof (a_add_limit_wf (o_abs b) id (to_side is_buy) price qty (to_tif t) (ow_abs _ Hwf) Hq) as Ha.
  unfold add_limit, a_add_limit in *. rewrite Hc in *. rewrite to_oside_buy, o_side_take.
  destruct (match_qty_spec b id is_buy price false qty Hwf Hq) as (ts & r & m' & lo' & -> & Ht & Hwf' & Hr). rewrite Ht in *.
  rewrite o_with_take, rev_involutive. assert (bool_decide (t = OGTC) = bool_decide (to_tif t = GTC)) as -> by (by destruct t).
  destruct ((0 <? r) && bool_decide (to_tif t = GTC)) eqn:E; [|by eexists _, _].
  cbn [snd] in Ha. destruct (rest_order_spec (o_with (negb is_buy) m' lo' b) is_buy price (mkOOrder id r)) as [Hw Hab]; [done| |done|].
  - apply a_contains_false in Hc. intros Hin. eapply a_take_ids in Hin; [done| |exact Ht]. unfold in_u32 in Hq. lia.
  - eexists _, _. split; [done|]. split; [exact Hw|]. f_equal. symmetry. exact Hab.
Qed.

Lemma add_market_o b id is_buy qty :
  o_wf b -> in_u32 qty -> contains b id = false ->
  exists ts b', add_market b id (to_oside is_buy) qty = (b', map trade_of ts) /\ o_wf b' /\
    a_add_market (o_abs b) id (to_side is_buy) qty = (ts, o_abs b').
Proof.
  intros Hwf Hq Hc. rewrite contains_o in Hc by done. unfold add_market, a_add_market. rewrite Hc, to_oside_buy, o_side_take.
  destruct (match_qty_spec b id is_buy 0 true qty Hwf Hq) as (ts & r & m' & lo' & -> & -> & Hwf' & Hr).
  rewrite o_with_take, rev_involutive. by eexists _, _.
Qed.

(** ** One resting order *)

Lemma queue_elem is_bid m o :
  levels_wf m -> o ∈ o_queue is_bid m ->
  exists l r l1 x l2, best_first is_bid m = l ++ (o_price o, l1 ++ x :: l2) :: r /\ om_find (o_price o) m = Some (l1 ++ x :: l2) /\ o = up is_bid (o_price o) x.
Proof.
  intros [Hs Hne] Hin. unfold o_queue in Hin. assert (exists l p level r, best_first is_bid m = l ++ (p, level) :: r /\ o ∈ map (up is_bid p) level) as (l & p & level & r & Hm & Ho).
  { revert Hin. clear. generalize (best_first is_bid m) as L. induction L as [|[p level] L IH]; [cbn; set_solver|]. rewrite flat_lift_cons, elem_of_app. intros [Hin|Hin].
    - by exists [], p, level, L.
    - destruct (IH Hin) as (l & p' & level' & r & -> & Ho). by exists ((p, level) :: l), p', level', r. }
  apply list_elem_of_fmap in Ho as (x & -> & Hx). apply list_elem_of_split in Hx as (l1 & l2 & ->). cbn [up o_price]. exists l, r, l1, x, l2.
  split; [done|]. split; [|done]. rewrite <- (best_first_find is_bid), Hm by done. rewrite om_find_app_None; [cbn; by rewrite Z.eqb_refl|].
  pose proof (best_first_sorted is_bid m Hs) as Hb. rewrite Hm in Hb. apply om_find_None. intros Hk. apply list_elem_of_fmap in Hk as ([k v] & E & Hk). cbn in E. subst k.
  apply list_elem_of_split in Hk as (l3 & l4 & ->). rewrite <- app_assoc in Hb. apply StronglySorted_app_1_r in Hb. apply om_sorted_cons in Hb as [_ Hb].
  apply Forall_app in Hb as [_ [Hb _]%Forall_cons]. cbn in Hb. by rewrite before_irr in Hb.
Qed.

(** Everything the two operations on a resting order need: its level, its place
    in the queue, and what replacing or emptying the level does. *)
Lemma resting_place b id sp :
  o_wf b -> om_find id (locs b) = Some sp ->
  exists is_bid o x l1 l2 q1 q2,
    o_id o = id /\ oo_id x = id /\ o = up is_bid (o_price o) x /\ sp = (to_oside is_bid, o_price o) /\ a_find (o_abs b) id = Some o /\
    om_find (o_price o) (o_side_map is_bid b) = Some (l1 ++ x :: l2) /\ id ∉ map oo_id l1 /\ id ∉ map oo_id l2 /\
    a_side is_bid (o_abs b) = (q1 ++ map (up is_bid (o_price o)) l1) ++ o :: (map (up is_bid (o_price o)) l2 ++ q2) /\
    (forall level, o_queue is_bid (imap_add (o_price o) level (o_side_map is_bid b)) = q1 ++ map (up is_bid (o_price o)) level ++ q2) /\
    o_queue is_bid (imap_remove (o_price o) (o_side_map is_bid b)) = q1 ++ q2.
Proof.
  intros Hwf Hf. apply locs_find in Hf as (o & Ho & E); [|done]. injection E as Eid Esp.
  assert (exists is_bid, o ∈ a_side is_bid (o_abs b)) as [is_bid Hside]. { apply elem_of_app in Ho as [Ho|Ho]; [by exists true|by exists false]. }
  pose proof (o_side_wf b is_bid Hwf) as Hm. rewrite a_side_abs in Hside. destruct (queue_elem is_bid _ o Hm Hside) as (l & r & l1 & x & l2 & Hbf & Hfind & Hup).
  destruct (level_split is_bid _ _ _ (proj1 Hm) Hfind) as (l' & r' & Hbf' & Hadd & Hrem).
  exists is_bid, o, x, l1, l2, (flat (lift is_bid l')), (flat (lift is_bid r')).
  assert (a_side is_bid (o_abs b) = (flat (lift is_bid l') ++ map (up is_bid (o_price o)) l1) ++ o :: (map (up is_bid (o_price o)) l2 ++ flat (lift is_bid r'))) as Hsplit.
  { rewrite a_side_abs. unfold o_queue. rewrite Hbf', flat_lift_app, flat_lift_cons, map_app. cbn [map]. rewrite <- Hup. by rewrite <- !app_assoc. }
  destruct (a_side_split_ids _ _ _ _ _ (aw_ids _ (ow_abs _ Hwf)) Hsplit) as (H1 & H2 & _). rewrite !map_app, !map_map in H1, H2. cbn [up o_id] in H1, H2.
  assert (oo_id x = id) as Hx by (rewrite <- Eid; by rewrite Hup).
  split; [done|]. split; [done|]. split; [done|]. split. { rewrite <- Esp, Hup. cbn. by destruct is_bid. }
  split. { apply a_find_Some; [apply Hwf|]. done. }
  split; [done|]. split; [rewrite <- Eid; set_solver|]. split; [rewrite <- Eid; set_solver|]. split; [done|]. split.
  - intros level. unfold o_queue. by rewrite Hadd, flat_lift_app, flat_lift_cons.
  - unfold o_queue. by rewrite Hrem, flat_lift_app.
Qed.

Lemma filter_oid id (l : list order) : id ∉ map oo_id l -> filter (fun o => oo_id o <> id) l = l.
Proof.
  induction l as [|o l IH]; [done|]. cbn [map]. intros Hn. rewrite filter_cons, decide_True by set_solver. f_equal. apply IH. set_solver.
Qed.

Lemma cancel_o b id :
  o_wf b -> contains b id = true ->
  o_wf (cancel b id).1 /\ (cancel b id).2 = true /\ o_abs (cancel b id).1 = a_remove id (o_abs b).
Proof.
  intros Hwf Hc. unfold contains, imap_mem in Hc. apply bool_decide_eq_true in Hc as [sp Hf]. unfold cancel, imap_find_opt. rewrite Hf.
  destruct (resting_place b id sp Hwf Hf) as (is_bid & o & x & l1 & l2 & q1 & q2 & Ho & Hx & Hup & -> & Hfo & Hfind & H1 & H2 & Hside & Hadd & Hrem).
  rewrite to_oside_buy. set (m := o_side_map is_bid b) in *. set (level' := filter (fun o => oo_id o <> id) (l1 ++ x :: l2)).
  assert (level' = l1 ++ l2) as Hl. { unfold level'. rewrite filter_app, filter_cons, decide_False by naive_solver. by rewrite !filter_oid. }
  set (m' := if is_nil level' then imap_remove (o_price o) m else imap_add (o_price o) level' m).
  assert (o_queue is_bid m' = (q1 ++ map (up is_bid (o_price o)) l1) ++ (map (up is_bid (o_price o)) l2 ++ q2)) as Hqm.
  { unfold m'. rewrite Hl. destruct (is_nil (l1 ++ l2)) eqn:En.
    - assert (l1 = [] /\ l2 = []) as [-> ->] by (destruct l1; [by destruct l2|done]). rewrite Hrem. cbn. by rewrite app_nil_r.
    - rewrite Hadd, map_app. by rewrite <- !app_assoc. }
  assert (levels_wf m') as Hm'.
  { pose proof (o_side_wf b is_bid Hwf) as Hm. fold m in Hm. unfold m'. destruct level' as [|e level'']; [by apply levels_wf_remove|by apply levels_wf_add]. }
  assert (a_remove id (o_abs b) = a_set_side is_bid (o_queue is_bid m') (o_abs b)) as Har.
  { rewrite Hqm, <- Ho. by apply a_remove_split; [apply Hwf|]. }
  assert (o_wf (o_with is_bid m' (imap_remove id (locs b)) b)) as Hw.
  { apply o_wf_with; [done|done|apply imap_remove_sorted, Hwf| |rewrite <- Har; apply a_remove_wf, Hwf].
    apply (imap_remove_perm id (to_oside is_bid, o_price o)); [apply Hwf|]. rewrite (locs_sides b is_bid Hwf), Hqm, <- a_side_abs, Hside. clear -Ho Hup.
    rewrite !map_app. cbn [map]. rewrite !map_app. assert (loc_of o = (id, (to_oside is_bid, o_price o))) as ->.
    { unfold loc_of. rewrite Ho. rewrite Hup at 1. cbn. by destruct is_bid. }
    rewrite <- !app_assoc. cbn [app]. by rewrite !Permutation_middle, <- !app_assoc. }
  destruct is_bid; cbn [to_oside fst snd o_side_map] in *; (unfold m in Hfind; cbn in Hfind; rewrite Hfind);
    (split; [exact Hw|]); (split; [done|]); rewrite Har; done.
Qed.

(** ** Modifying *)

Lemma resting_qty_spec b is_bid p id l1 x l2 :
  om_find p (o_side_map is_bid b) = Some (l1 ++ x :: l2) -> oo_id x = id -> id ∉ map oo_id l1 -> resting_qty b (to_oside is_bid) p id = oo_qty x.
Proof.
  intros Hf Hx Hn. unfold resting_qty, imap_find_opt. rewrite to_oside_buy. fold (o_side_map is_bid b). rewrite Hf.
  assert (list_find (fun o => oo_id o = id) (l1 ++ x :: l2) = Some (length l1, x)) as ->; [|done].
  apply list_find_Some. split; [by apply list_lookup_middle|]. split; [done|]. intros j y Hj Hlt Hy. rewrite lookup_app_l in Hj by done.
  destruct Hn. rewrite <- Hy. by eapply (list_elem_of_fmap_2 oo_id), list_elem_of_lookup_2.
Qed.

Definition assign_o (id q : Z) (o : order) : order := if oo_id o =? id then mkOOrder (oo_id o) q else o.

Lemma assign_o_absent id q l : id ∉ map oo_id l -> map (assign_o id q) l = l.
Proof.
  induction l as [|o l IH]; [done|]. cbn [map]. intros Hn. rewrite IH by set_solver. unfold assign_o. destruct (Z.eqb_spec (oo_id o) id); [set_solver|done].
Qed.

Lemma map_loc_same (l1 l2 : list Order) (o o' : Order) : loc_of o = loc_of o' -> map loc_of (l1 ++ o :: l2) = map loc_of (l1 ++ o' :: l2).
Proof. intros E. rewrite !map_app. cbn. by rewrite E. Qed.

(** The branch that keeps the order's place. *)
Lemma assign_book b id is_bid o x l1 l2 q1 q2 q :
  o_wf b -> in_u32 q -> 0 < q -> o_id o = id -> oo_id x = id -> o = up is_bid (o_price o) x -> id ∉ map oo_id l1 -> id ∉ map oo_id l2 ->
  a_side is_bid (o_abs b) = (q1 ++ map (up is_bid (o_price o)) l1) ++ o :: (map (up is_bid (o_price o)) l2 ++ q2) ->
  (forall level, o_queue is_bid (imap_add (o_price o) level (o_side_map is_bid b)) = q1 ++ map (up is_bid (o_price o)) level ++ q2) ->
  let b' := o_with is_bid (imap_add (o_price o) (map (assign_o id q) (l1 ++ x :: l2)) (o_side_map is_bid b)) (locs b) b in
  o_wf b' /\ o_abs b' = a_assign id q (o_abs b).
Proof.
  intros Hwf Hq Hq0 Ho Hx Hup H1 H2 Hside Hadd. cbn zeta. set (m' := imap_add _ _ _).
  assert (o_queue is_bid m' = (q1 ++ map (up is_bid (o_price o)) l1) ++ set_quantity q o :: (map (up is_bid (o_price o)) l2 ++ q2)) as Hqm.
  { unfold m'. rewrite Hadd, map_app. cbn [map]. rewrite !assign_o_absent by done. unfold assign_o at 1. rewrite Hx, Z.eqb_refl, map_app. cbn [map].
    rewrite <- !app_assoc. cbn [app]. do 3 f_equal. unfold up, set_quantity. cbn. rewrite Hup. cbn. by rewrite Hx. }
  assert (a_assign id q (o_abs b) = a_set_side is_bid (o_queue is_bid m') (o_abs b)) as Ha.
  { rewrite Hqm, <- Ho. by apply a_assign_split; [apply Hwf|]. }
  rewrite o_abs_with, Ha. split; [|done]. apply o_wf_with; [done| |apply Hwf| |rewrite <- Ha; by apply a_assign_wf; [apply Hwf|..]].
  - apply levels_wf_add; [by apply o_side_wf|]. by destruct l1.
  - rewrite (locs_sides b is_bid Hwf), Hqm, <- a_side_abs, Hside. by rewrite (map_loc_same _ _ o (set_quantity q o)).
Qed.

Lemma modify_book_o b id new_price new_qty :
  o_wf b -> in_u32 new_qty -> contains b id = true ->
  exists ts b', modify_book b id new_price new_qty = Some (b', map trade_of ts) /\ o_wf b' /\
    a_modify (o_abs b) id new_price new_qty = (ts, o_abs b').
Proof.
  intros Hwf Hq Hc. destruct (cancel_o b id Hwf Hc) as (Hcw & _ & Hca). unfold contains, imap_mem in Hc. apply bool_decide_eq_true in Hc as [sp Hf].
  unfold modify_book, a_modify, imap_find_opt. rewrite Hf.
  destruct (resting_place b id sp Hwf Hf) as (is_bid & o & x & l1 & l2 & q1 & q2 & Ho & Hx & Hup & -> & -> & Hfind & H1 & H2 & Hside & Hadd & Hrem).
  destruct (new_qty =? 0) eqn:E0; [exists [], (cancel b id).1; by rewrite Hca|].
  rewrite (resting_qty_spec b is_bid _ id _ _ _ Hfind Hx H1). assert (oo_qty x = o_quantity o) as -> by (by rewrite Hup).
  destruct ((new_price =? o_price o) && (new_qty <=? o_quantity o)) eqn:E.
  - unfold in_u32 in Hq. destruct (assign_book b id is_bid o x l1 l2 q1 q2 new_qty) as [Hw Ha]; [done|done|lia|done..|].
    eexists [], _. split; [|split; [exact Hw|by rewrite Ha]]. rewrite to_oside_buy.
    destruct is_bid; cbn [o_side_map] in Hfind; rewrite Hfind; done.
  - destruct (cancel b id) as [b1 ok] eqn:Ecb. cbn [fst] in Hcw, Hca.
    destruct (add_limit_o b1 id is_bid new_price new_qty OGTC) as (ts & b' & Hl & Hw & Ha); [done|done| |].
    + rewrite contains_o, Hca by done. apply a_contains_false. rewrite a_ids_remove. intros [? _]%list_elem_of_filter. done.
    + exists ts, b'. rewrite Hl. split; [done|]. split; [done|]. rewrite <- Ha, Hca. by assert (o_side o = to_side is_bid) as -> by (by rewrite Hup).
Qed.

(** ** Queries *)

Lemma cardinal_o b : o_wf b -> imap_cardinal (locs b) = Z.of_nat (length (a_orders (o_abs b))).
Proof. intros Hwf. unfold imap_cardinal. by rewrite (ow_locs _ Hwf), map_length. Qed.

Lemma best_o (is_bid : bool) m : levels_wf m ->
  fst <$> (if is_bid then imap_max_binding_opt m else imap_min_binding_opt m) = a_best (o_queue is_bid m).
Proof.
  intros Hwf. rewrite <- best_first_head. unfold o_queue. rewrite <- (best_price_spec (before_of is_bid)) by (by apply lift_levels_ok).
  unfold OrderBook.best_price, lift. by destruct (best_first is_bid m) as [|[p level] r].
Qed.

Definition view_of (l : LevelView) : level_view := mkOLevelView (lv_price l) (lv_quantity l).

Lemma sum_int63 level : forall acc,
  0 <= acc -> Forall fits level -> acc + 2 ^ 32 * Z.of_nat (length level) < 2 ^ 62 ->
  fold_left (fun a o => int63 (a + oo_qty o)) level acc = acc + sum_quantity (map (up true 0) level) /\
  acc + sum_quantity (map (up true 0) level) < 2 ^ 62 /\ 0 <= sum_quantity (map (up true 0) level).
Proof.
  induction level as [|o level IH]; intros acc H0 Hf Hb; [cbn in *; lia|]. apply Forall_cons in Hf as [Ho Hf]. unfold fits in Ho. cbn [length] in Hb.
  cbn [fold_left map sum_quantity up o_quantity]. rewrite int63_small by lia. destruct (IH (acc + oo_qty o)) as (-> & H1 & H2); [lia|done|lia|]. lia.
Qed.

Lemma sum_up is_bid p level : sum_quantity (map (up is_bid p) level) = sum_quantity (map (up true 0) level).
Proof. induction level as [|o level IH]; cbn; [done|]. by rewrite IH. Qed.

Lemma level_views_o is_bid m :
  levels_wf m -> side_wf is_bid (o_queue is_bid m) -> Z.of_nat (length (o_queue is_bid m)) < 2 ^ 30 ->
  level_views m is_bid = map view_of (a_levels (o_queue is_bid m)).
Proof.
  intros Hwf Hsw Hlen. unfold o_queue at 1. rewrite <- (collect_levels_spec is_bid) by (by apply lift_levels_ok).
  unfold level_views, imap_bindings. fold (best_first is_bid m). unfold collect_levels, lift. rewrite !map_map. apply map_ext_in. intros [p level] Hin. cbn [fst snd].
  unfold view_of. cbn [lv_price lv_quantity]. f_equal. rewrite level_quantity_spec, map_map. cbn [snd]. rewrite sum_up.
  apply list_elem_of_In, list_elem_of_split in Hin as (l & r & E). unfold o_queue in Hsw, Hlen. rewrite E, flat_lift_app, flat_lift_cons in Hsw, Hlen.
  destruct Hsw as [_ Hq _]. apply Forall_app in Hq as [_ Hq]. apply fits_of_queue in Hq. rewrite !app_length, map_length in Hlen.
  destruct (sum_int63 level 0) as (-> & H1 & H2); [done|done|lia|]. unfold u64, wrap. rewrite Z.mod_small by lia. lia.
Qed.
