(* ===== verification/ReplaySpec.v ===== *)
(** * ReplaySpec: the OCaml engine computes what the C++ gateway computes

    A simulation between the state of ocaml/lib/replay_engine.ml and the abstract
    engine behind the C++ gateway, command by command, up to the snapshot. *)
From Stdlib Require Import ZifyBool.
From S2P Require Import Prelude Core Endian Book BookSpec OrderBook Text Command Engine EngineSpec Gateway GatewaySpec Shrink ReplayEngine StreamParser ReplayBook.

(** ** StreamText: reading back tokens, numbers and lines

    Lemmas on the OCaml parser's library functions: a line printed as words with
    single spaces splits into the words, a printed integer that fits 63 bits is
    read back, a text of complete lines splits into the lines. *)

(** ** Splitting *)

Lemma split_on_char_free sep w : sep ∉ w -> split_on_char sep w = [w].
Proof.
  induction w as [|c w IH]; intros Hn; [done|]. apply not_elem_of_cons in Hn as [Hc Hn]. cbn. replace (c =? sep) with false by lia. by rewrite IH.
Qed.

Lemma split_on_char_app sep w s : sep ∉ w -> split_on_char sep (w ++ sep :: s) = w :: split_on_char sep s.
Proof.
  induction w as [|c w IH]; intros Hn; cbn; [by rewrite Z.eqb_refl|]. apply not_elem_of_cons in Hn as [Hc Hn]. replace (c =? sep) with false by lia. by rewrite IH.
Qed.

(** A word of a line. *)
Definition is_token (w : bytes) : Prop := w <> [] /\ 32 ∉ w /\ 10 ∉ w.

Definition line_of (toks : list bytes) : bytes := join [32] toks.

Lemma words_line toks : Forall is_token toks -> words (line_of toks) = toks.
Proof.
  intros Ht. unfold words. induction Ht as [|w toks (Hne & Hsp & _) Ht IH]; [done|]. destruct toks as [|w' toks].
  - unfold line_of. cbn [join]. rewrite split_on_char_free by done. rewrite filter_cons, decide_True by done. done.
  - change (line_of (w :: w' :: toks)) with (w ++ [32] ++ line_of (w' :: toks)). cbn [app]. rewrite split_on_char_app by done.
    rewrite filter_cons, decide_True by done. by rewrite IH.
Qed.

Lemma line_of_free toks : Forall is_token toks -> 10 ∉ line_of toks.
Proof.
  intros Ht. induction Ht as [|w toks (_ & _ & Hnl) Ht IH]; [cbn; set_solver|]. destruct toks as [|w' toks]; [done|].
  change (line_of (w :: w' :: toks)) with (w ++ [32] ++ line_of (w' :: toks)). rewrite !elem_of_app. set_solver.
Qed.

(** ** Lines *)

Definition unlines (ls : list bytes) : bytes := concat (map (fun l => l ++ [10]) ls).

Lemma unlines_app a b : unlines (a ++ b) = unlines a ++ unlines b.
Proof. unfold unlines. by rewrite map_app, concat_app. Qed.

Lemma split_unlines ls : Forall (fun l => 10 ∉ l) ls -> split_on_char 10 (unlines ls) = ls ++ [[]].
Proof.
  induction 1 as [|l ls Hl Hls IH]; [done|]. unfold unlines. cbn [map concat]. fold (unlines ls). rewrite <- app_assoc. cbn [app].
  rewrite split_on_char_app by done. by rewrite IH.
Qed.

Lemma input_lines_unlines ls : Forall (fun l => 10 ∉ l) ls -> input_lines (unlines ls) = ls.
Proof.
  intros Hl. unfold input_lines. rewrite split_unlines, last_snoc by done. rewrite app_length. cbn [length]. replace (length ls + 1 - 1)%nat with (length ls) by lia.
  by rewrite take_app_length.
Qed.

(** ** Numbers *)

Lemma parse_digit_digit c : is_digit c = true -> parse_digit c = Some (c - 48) /\ 0 <= c - 48 < 10 /\ c <> 95.
Proof. unfold is_digit, parse_digit. intros H. rewrite H. split; [done|lia]. Qed.

Lemma fold_digits_mono ds : forall acc, Forall (fun c => is_digit c = true) ds -> 0 <= acc -> acc <= fold_left (fun acc c => acc * 10 + (c - 48)) ds acc.
Proof.
  induction ds as [|c ds IH]; intros acc Hd Ha; [cbn; lia|]. apply Forall_cons in Hd as [Hc Hd]. apply parse_digit_digit in Hc as (_ & Hc & _).
  cbn [fold_left]. specialize (IH (acc * 10 + (c - 48)) Hd ltac:(lia)). lia.
Qed.

Lemma parse_digits_value ds : forall acc,
  Forall (fun c => is_digit c = true) ds -> 0 <= acc -> fold_left (fun acc c => acc * 10 + (c - 48)) ds acc <= 2 ^ 62 ->
  parse_digits 10 ds acc = Some (fold_left (fun acc c => acc * 10 + (c - 48)) ds acc).
Proof.
  induction ds as [|c ds IH]; intros acc Hd Ha Hv; [done|]. apply Forall_cons in Hd as [Hc Hd]. apply parse_digit_digit in Hc as (Hp & Hc & Hu).
  cbn [fold_left parse_digits] in *. pose proof (fold_digits_mono ds (acc * 10 + (c - 48)) Hd ltac:(lia)) as Hm.
  replace (c =? 95) with false by lia. rewrite Hp. replace (10 <=? c - 48) with false by lia.
  replace ((2 ^ 64 - 1) / 10 <? acc) with false by (change ((2 ^ 64 - 1) / 10) with 1844674407370955161; lia).
  replace (2 ^ 64 <=? 10 * acc + (c - 48)) with false by lia. rewrite <- IH by (done || lia). f_equal. lia.
Qed.

Lemma parse_sign_digit c ds : is_digit c = true -> parse_sign (c :: ds) = (false, c :: ds).
Proof. unfold is_digit, parse_sign. intros H. replace (c =? 45) with false by lia. by replace (c =? 43) with false by lia. Qed.

Lemma parse_base_digits ds : Forall (fun c => is_digit c = true) ds -> parse_base ds = (10, true, ds).
Proof.
  intros Hd. destruct ds as [|c ds]; [done|]. apply Forall_cons in Hd as [Hc Hd]. destruct (decide (c = 48)) as [->|Hne].
  - destruct ds as [|d ds]; [done|]. apply Forall_cons in Hd as [Hd _]. unfold is_digit in Hd. cbn [parse_base].
    replace ((d =? 120) || (d =? 88)) with false by lia. replace ((d =? 111) || (d =? 79)) with false by lia.
    replace ((d =? 98) || (d =? 66)) with false by lia. by replace ((d =? 117) || (d =? 85)) with false by lia.
  - unfold parse_base. destruct c as [|c|c]; try done. repeat (destruct c as [c|c|]; try done).
Qed.

Lemma int_of_digits neg ds :
  Forall (fun c => is_digit c = true) ds -> ds <> [] -> digits_value ds <= (if neg : bool then 2 ^ 62 else 2 ^ 62 - 1) ->
  int_of (if neg then 45 :: ds else ds) = Some (if neg then - digits_value ds else digits_value ds).
Proof.
  intros Hd Hne Hv. unfold int_of, int_of_string_opt.
  assert (parse_sign (if neg then 45 :: ds else ds) = (neg, ds)) as ->.
  { destruct neg; [done|]. destruct ds as [|c ds]; [done|]. apply Forall_cons in Hd as [Hc _]. by apply parse_sign_digit. }
  rewrite parse_base_digits by done. unfold digits_value in *. destruct ds as [|c ds]; [done|]. pose proof Hd as [Hc Hd']%Forall_cons.
  apply parse_digit_digit in Hc as (-> & Hc & _). replace (10 <=? c - 48) with false by lia. cbn [fold_left] in *. rewrite Z.add_0_l in *.
  pose proof (fold_digits_mono ds (c - 48) Hd' ltac:(lia)) as Hm.
  rewrite parse_digits_value; [|done|lia|by destruct neg; lia]. destruct neg.
  - replace (_ <=? 2 ^ 62) with true by lia. rewrite int63_small by lia. done.
  - replace (_ <? 2 ^ 62) with true by lia. rewrite int63_small by lia. done.
Qed.

Lemma int_of_to_string n : 0 <= n < 2 ^ 62 -> int_of (to_string n) = Some n.
Proof.
  intros Hn. destruct (to_string_spec n) as (Hd & Hv & Hne & _); [unfold in_u64; lia|]. pose proof (int_of_digits false (to_string n) Hd Hne) as H.
  cbv iota in H. rewrite Hv in H. apply H. lia.
Qed.

Lemma int_of_to_string_signed n : - 2 ^ 62 <= n < 2 ^ 62 -> int_of (to_string_signed n) = Some n.
Proof.
  intros Hn. unfold to_string_signed. destruct (n <? 0) eqn:E; [|apply int_of_to_string; lia].
  destruct (to_string_spec (- n)) as (Hd & Hv & Hne & _); [unfold in_u64; lia|]. pose proof (int_of_digits true (to_string (- n)) Hd Hne) as H.
  cbn [negb] in H. rewrite Hv, Z.opp_involutive in H. apply H. lia.
Qed.

(** ** Tokens *)

Lemma digits_token ds : Forall (fun c => is_digit c = true) ds -> ds <> [] -> is_token ds.
Proof.
  intros Hd Hne. split; [done|]. rewrite Forall_forall in Hd. split; intros Hin; apply Hd in Hin; done.
Qed.
Lemma to_string_token n : in_u64 n -> is_token (to_string n).
Proof. intros Hn. destruct (to_string_spec n Hn) as (Hd & _ & Hne & _). by apply digits_token. Qed.
Lemma to_string_signed_token n : in_i64 n -> is_token (to_string_signed n).
Proof.
  intros Hn. unfold in_i64 in Hn. unfold to_string_signed. destruct (n <? 0) eqn:E; [|apply to_string_token; unfold in_u64; lia].
  destruct (to_string_token (- n)) as (H1 & H2 & H3); [unfold in_u64; lia|]. split; [done|]. split; apply not_elem_of_cons; by split.
Qed.
Lemma to_string_signed_nonneg n : 0 <= n -> to_string_signed n = to_string n.
Proof. intros Hn. unfold to_string_signed. by replace (n <? 0) with false by lia. Qed.

(** ** The OCaml engine computes what the C++ gateway computes *)

(** ** The translated command *)

Definition ocaml_tif (t : TimeInForce) : tif := if bool_decide (t = GTC) then OGTC else OIOC.

Definition ocaml_command (c : Command) : command :=
  match c with
  | RegisterSymbol name => OReg name
  | NewLimit symbol id side price quantity tif => OLimit symbol id (to_oside (is_buy side)) price quantity (ocaml_tif tif)
  | NewMarket symbol id side quantity => OMarket symbol id (to_oside (is_buy side)) quantity
  | Cancel symbol id => OCancel symbol id
  | Modify symbol id price quantity => OModify symbol id price quantity
  end.

Definition meta_of (config : RiskConfig) : meta := mkMeta (max_order_quantity config) (max_notional config).

Definition events_trades (events : list EngineEvent) : Z := Z.of_nat (length (filter (fun e => is_trade e = true) events)).

(** ** How many trades *)

Lemma trades_numbered symbol ts : forall s, filter (fun e => is_trade e = true) (number s (map (trade_event symbol) ts)) = number s (map (trade_event symbol) ts).
Proof. induction ts as [|t ts IH]; intros s; [done|]. cbn [map number]. rewrite filter_cons, decide_True by done. by rewrite IH. Qed.
Lemma ack_trades s f symbol ts :
  (forall n, is_trade (f n) = false) -> events_trades (number s (f :: map (trade_event symbol) ts)) = Z.of_nat (length ts).
Proof.
  intros Hf. unfold events_trades. cbn [number]. rewrite filter_cons, decide_False by (by rewrite Hf). by rewrite trades_numbered, number_length, map_length.
Qed.

(** ** The checks *)

Lemma check_limit_values_o config price q :
  in_i64 price -> in_u32 q -> 0 <= max_notional config ->
  (check_limit_values (meta_of config) price q = None <-> Gateway.check_limit_values config price q = ReasonNone).
Proof.
  unfold in_i64, in_u32. intros Hp Hq Hm. unfold check_limit_values, Gateway.check_limit_values, is_valid_price, is_valid_quantity, meta_of. cbn [max_qty meta_max_notional].
  destruct (0 <? price) eqn:E1; cbn [negb]; [|by replace (price <=? 0) with true by lia]. replace (price <=? 0) with false by lia.
  destruct (0 <? q) eqn:E2; cbn [negb]; [|by replace (q <=? 0) with true by lia]. replace (q <=? 0) with false by lia.
  destruct (max_order_quantity config <? q); [split; discriminate|]. unfold u64, wrap. rewrite !Z.mod_small by lia. rewrite Z.quot_div_nonneg by lia. destruct (max_notional config / price <? q); split; (reflexivity || discriminate).
Qed.

Lemma check_market_o config side q :
  is_valid_side side = true -> in_u32 q -> (check_market (meta_of config) q = None <-> Gateway.check_market config side q = ReasonNone).
Proof.
  unfold in_u32. intros Hs Hq. unfold check_market, Gateway.check_market, is_valid_quantity, meta_of. rewrite Hs. cbn [negb max_qty].
  destruct (0 <? q) eqn:E2; cbn [negb]; [|by replace (q <=? 0) with true by lia]. replace (q <=? 0) with false by lia. destruct (max_order_quantity config <? q); split; (reflexivity || discriminate).
Qed.

(** ** The simulation *)

(** After [n] commands. *)
Record agrees (config : RiskConfig) (n : Z) (st : state) (ae : AEngine) (trades : Z) : Prop := {
  ag_meta : st_meta st = meta_of config;
  ag_names : names st = ids_ (ae_registry ae);
  ag_next : next_id st = next_ (ae_registry ae) /\ 0 <= next_id st <= n;
  ag_books : ae_books ae = om_map o_abs (books st);
  ag_sorted : om_sorted Z.ltb (books st);
  ag_wf : Forall (fun e => o_wf e.2 /\ Z.of_nat (length (a_orders (o_abs e.2))) <= n) (books st);
  ag_keys : Forall (fun k => 0 <= k < next_id st) (books st).*1;
  ag_registered : forall name id, names st !! name = Some id -> is_Some (om_find id (books st));
  ag_seq : seq st = ae_seq ae /\ 0 <= seq st <= n * 2 ^ 31;
  ag_trades : st_trades st = trades /\ 0 <= trades <= n * 2 ^ 31
}.

Lemma agrees_mono config n st ae trades : 0 <= n -> agrees config n st ae trades -> agrees config (n + 1) st ae trades.
Proof.
  intros Hn [H1 H2 [H3 H3'] H4 H5 H6 H7 H8 [H9 H9'] [HA HA']]. split; try done; try (split; [done|lia]).
  eapply Forall_impl; [exact H6|]. intros e []. split; [done|lia].
Qed.

Lemma agrees_initial config : agrees config 0 (initial (meta_of config)) (mkAEngine (mkSymbolRegistry ∅ 0) [] 0) 0.
Proof. split; cbn; try done. constructor. Qed.

Lemma put_present {V} k (v v0 : V) m : om_sorted Z.ltb m -> om_find k m = Some v0 -> imap_add k v m = om_alter (fun _ => v) k m.
Proof. intros Hs Hf. unfold imap_add. by rewrite (om_try_emplace_present Z.ltb ltb_irr ltb_tr k v0). Qed.

Lemma put_book_agrees config n st ae trades symbol b b' evs k :
  0 <= n < 2 ^ 30 -> agrees config n st ae trades -> om_find symbol (books st) = Some b -> o_wf b' ->
  Z.of_nat (length (a_orders (o_abs b'))) <= n + 1 -> Z.of_nat (length evs) = 1 + k -> 0 <= k <= n ->
  agrees config (n + 1) (put_book st symbol b' (1 + k) k) (a_respond ae symbol (o_abs b') evs).2 (trades + k).
Proof.
  intros Hn [H1 H2 [H3 H3'] H4 H5 H6 H7 H8 [H9 H9'] [HA HA']] Hf Hwf Hlen Hev Hk. unfold put_book, a_respond. cbn [snd]. rewrite (put_present _ _ b) by done.
  split; cbn [st_meta names next_id books seq st_trades ae_registry ae_books ae_seq]; try done.
  - split; [done|lia].
  - rewrite H4. symmetry. by apply om_alter_map.
  - by apply om_alter_sorted.
  - apply (om_alter_Forall (fun b => o_wf b /\ Z.of_nat (length (a_orders (o_abs b))) <= n + 1)); [|done]. eapply Forall_impl; [exact H6|]. intros e []. split; [done|lia].
  - by rewrite om_alter_keys.
  - intros name id Hid. destruct (H8 name id Hid) as [x Hx]. destruct (decide (symbol = id)) as [->|Hne]; [rewrite om_find_alter_eq, Hf; by eexists|].
    rewrite om_find_alter_ne by done. by eexists.
  - rewrite int63_small by lia. rewrite <- H9, Hev. rewrite u64_small by lia. split; [done|lia].
  - rewrite int63_small by lia. split; [lia|]. lia.
Qed.

(** A command that trades [ts] after its acknowledgement [f]. *)
Lemma put_trades_agrees config n st ae trades symbol b b' f ts :
  0 <= n < 2 ^ 30 -> agrees config n st ae trades -> om_find symbol (books st) = Some b -> o_wf b' ->
  Z.of_nat (length (a_orders (o_abs b'))) <= n + 1 -> (length ts <= length (a_orders (o_abs b)))%nat -> (forall s, is_trade (f s) = false) ->
  let r := a_respond ae symbol (o_abs b') (f :: map (trade_event symbol) ts) in
  agrees config (n + 1) (put_trades st symbol (b', map trade_of ts)) r.2 (trades + events_trades r.1).
Proof.
  intros Hn Hag Hf Hwf Hlen Hts Hack. cbn zeta. unfold put_trades, a_respond. cbn [fst]. rewrite ack_trades by done. rewrite map_length.
  assert (Z.of_nat (length ts) <= n) as Hk.
  { pose proof (ag_wf _ _ _ _ _ Hag) as Hall. apply om_find_Some in Hf as (l & r & E & _). rewrite E in Hall. apply Forall_app in Hall as [_ [[_ Hall] _]%Forall_cons]. cbn [snd] in Hall. lia. }
  rewrite (int63_small (1 + _)) by lia.
  apply (put_book_agrees config n st ae trades symbol b b' (f :: map (trade_event symbol) ts) (Z.of_nat (length ts))); try done; [|lia].
  cbn [length]. rewrite map_length. lia.
Qed.

Lemma put_absent {V} k (v : V) m : om_find k m = None -> imap_add k v m = om_try_emplace Z.ltb k v m.
Proof.
  intros Hn. unfold imap_add. induction m as [|[k' v'] m IH]; cbn in *; [by rewrite Z.eqb_refl|]. destruct (k <? k') eqn:E; cbn; [by rewrite Z.eqb_refl|].
  destruct (k =? k') eqn:E2; [done|]. cbn. rewrite E2. by rewrite IH.
Qed.

Lemma o_wf_empty : o_wf empty_book.
Proof. split; cbn; try done; try (split; constructor); try constructor. all: try by repeat constructor. intros x y Hx. cbn in Hx. set_solver. Qed.

Lemma register_agrees config n st ae trades name :
  0 <= n < 2 ^ 30 -> agrees config n st ae trades ->
  exists st', apply st (OReg name) = Some st' /\ agrees config (n + 1) st' (a_apply true ae (RegisterSymbol name)).2 trades.
Proof.
  intros Hn Hag. pose proof Hag as [H1 H2 [H3 H3'] H4 H5 H6 H7 H8 [H9 H9'] [HA HA']]. cbn [apply a_apply]. unfold intern. rewrite <- H2. destruct (names st !! name) as [id|] eqn:E.
  - exists st. split; [done|]. cbn [snd]. destruct (H8 name id E) as [b Hb].
    rewrite H4. rewrite (om_try_emplace_present symbol_before ltb_irr ltb_tr id (o_abs b)), <- H4.
    + apply agrees_mono; [lia|]. by destruct ae.
    + apply om_sorted_keys. rewrite om_map_keys. by apply om_sorted_keys.
    + by rewrite om_find_map, Hb.
  - assert (om_find (next_id st) (books st) = None) as Hfresh.
    { apply om_find_None. intros Hin. rewrite Forall_forall in H7. specialize (H7 _ Hin). lia. }
    eexists. split; [done|]. rewrite put_absent by done. cbn [snd]. rewrite <- H3.
    split; cbn [st_meta names next_id books seq st_trades ae_registry ae_books ae_seq ids_ next_]; try done.
    + rewrite int63_small by lia. unfold u32, wrap. rewrite Z.mod_small by lia. split; [done|lia].
    + rewrite H4. symmetry. apply om_try_emplace_map.
    + apply om_try_emplace_sorted; [apply ltb_tr|apply ltb_tot|done].
    + apply (om_try_emplace_Forall _ (fun b => o_wf b /\ Z.of_nat (length (a_orders (o_abs b))) <= n + 1)).
      * eapply Forall_impl; [exact H6|]. intros e []. split; [done|lia].
      * split; [apply o_wf_empty|]. change (a_orders (o_abs empty_book)) with (@nil Order). cbn [length]. lia.
    + rewrite int63_small by lia. apply Forall_forall. intros k [->|Hk]%om_try_emplace_keys; [lia|]. rewrite Forall_forall in H7. specialize (H7 _ Hk). lia.
    + intros name' id. rewrite (om_find_try_emplace _ _ _ _ _ ltb_irr ltb_tr H5). destruct (Z.eqb_spec id (next_id st)) as [->|Hne]; [by eexists|].
      intros Hl. destruct (decide (name' = name)) as [->|Hne']; [rewrite lookup_insert_eq in Hl; congruence|]. rewrite lookup_insert_ne in Hl by done. by eapply H8.
    + split; [done|lia].
    + split; [done|lia].
Qed.

(** The book a command addresses, on both sides. *)
Lemma agrees_find config n st ae trades symbol :
  agrees config n st ae trades ->
  match om_find symbol (books st) with
  | None => om_find symbol (ae_books ae) = None
  | Some b => om_find symbol (ae_books ae) = Some (o_abs b) /\ o_wf b /\ Z.of_nat (length (a_orders (o_abs b))) <= n
  end.
Proof.
  intros Hag. rewrite (ag_books _ _ _ _ _ Hag), om_find_map. destruct (om_find symbol (books st)) as [b|] eqn:E; [|done]. split; [done|].
  pose proof (ag_wf _ _ _ _ _ Hag) as Hall. apply om_find_Some in E as (l & r & E & _). rewrite E in Hall. by apply Forall_app in Hall as [_ [Hall _]%Forall_cons].
Qed.

Lemma a_add_limit_tif b id side price q tif :
  a_add_limit b id side price q tif = a_add_limit b id (to_side (is_buy side)) price q (to_tif (ocaml_tif tif)) \/ is_valid_side side = false.
Proof.
  destruct (is_valid_side side) eqn:E; [left|by right]. assert (to_side (is_buy side) = side) as -> by (by destruct side).
  unfold a_add_limit. replace (bool_decide (to_tif (ocaml_tif tif) = GTC)) with (bool_decide (tif = GTC)); [done|]. by destruct tif.
Qed.

(** The common end of a step: the verdict decides. *)
Lemma verdict_step config n st st' ae trades c :
  0 <= n -> agrees config n st ae trades ->
  (a_verdict config ae c <> ReasonNone -> st' = st) ->
  (a_verdict config ae c = ReasonNone -> let r := a_apply true ae c in agrees config (n + 1) st' r.2 (trades + events_trades r.1)) ->
  let r := a_gateway config ae c in agrees config (n + 1) st' r.2 (trades + events_trades (g_events r.1)).
Proof.
  intros Hn Hag Hrej Hacc. unfold a_gateway. cbn zeta. case_bool_decide as Hv.
  - specialize (Hacc Hv). by destruct (a_apply true ae c) as [events ae'].
  - rewrite (Hrej Hv). cbn. rewrite Z.add_0_r. by apply agrees_mono.
Qed.

Section Step.
Context (config : RiskConfig) (Hnot : 0 <= max_notional config).
Context (n : Z) (st : state) (ae : AEngine) (trades : Z).
Context (Hn : 0 <= n < 2 ^ 30) (Hag : agrees config n st ae trades).

Definition steps_to (c : Command) : Prop :=
  exists st', apply st (ocaml_command c) = Some st' /\
    let r := a_gateway config ae c in agrees config (n + 1) st' r.2 (trades + events_trades (g_events r.1)).

(** A rejected command changes nothing. *)
Lemma reject_step c : apply st (ocaml_command c) = Some st -> a_verdict config ae c <> ReasonNone -> steps_to c.
Proof. intros Ha Hv. exists st. split; [done|]. apply (verdict_step config n st st); [lia|done|done|done]. Qed.

Ltac reject_by := apply reject_step; cbn [ocaml_command apply a_verdict]; unfold imap_find_opt.

(** An accepted command replaces the book and numbers its trades. *)
Lemma accept_step c symbol b b' f ts :
  om_find symbol (books st) = Some b -> o_wf b' -> Z.of_nat (length (a_orders (o_abs b'))) <= n + 1 ->
  (length ts <= length (a_orders (o_abs b)))%nat -> (forall s, is_trade (f s) = false) ->
  apply st (ocaml_command c) = Some (put_trades st symbol (b', map trade_of ts)) ->
  a_verdict config ae c = ReasonNone -> a_apply true ae c = a_respond ae symbol (o_abs b') (f :: map (trade_event symbol) ts) -> steps_to c.
Proof.
  intros Hf Hwf Hlen Hts Hack Ha Hv Hap. eexists. split; [exact Ha|]. apply (verdict_step config n st); [lia|done|done|]. intros _. cbn zeta. rewrite Hap.
  by apply (put_trades_agrees config n st ae trades symbol b).
Qed.

Lemma limit_step symbol id side price q tif : command_ok (NewLimit symbol id side price q tif) -> steps_to (NewLimit symbol id side price q tif).
Proof.
  intros (_ & _ & Hside & Hp & Hq & _). pose proof (agrees_find _ _ _ _ _ symbol Hag) as Hf. destruct (om_find symbol (books st)) as [b|] eqn:Eb.
  2:{ reject_by; [by rewrite Eb|by rewrite Hf]. }
  destruct Hf as (Hf & Hwf & Hlen). pose proof (check_limit_values_o config price q Hp Hq Hnot) as Hck. rewrite <- (ag_meta _ _ _ _ _ Hag) in Hck.
  destruct (contains b id) eqn:Ec; pose proof Ec as Ec'; rewrite contains_o in Ec' by done.
  { reject_by; [by rewrite Eb, Ec|by rewrite Hf, Ec']. }
  destruct (check_limit_values (st_meta st) price q) eqn:Ek.
  { reject_by; [by rewrite Eb, Ec, Ek|].
    rewrite Hf, Ec'. unfold check_limit. rewrite Hside. cbn [negb]. intros H. apply Hck in H. done. }
  destruct (add_limit_o b id (is_buy side) price q (ocaml_tif tif) Hwf Hq Ec) as (ts & b' & Hadd & Hwf' & Ha).
  destruct (a_add_limit_tif (o_abs b) id side price q tif) as [Ht|]; [|congruence]. rewrite <- Ht in Ha. unfold in_u32 in Hq.
  pose proof (a_add_limit_length (o_abs b) id side price q tif ltac:(lia)) as Hlen'. pose proof (a_add_limit_count (o_abs b) id side price q tif) as Hcount.
  rewrite Ha in Hlen', Hcount. cbn [fst snd] in Hlen', Hcount.
  apply (accept_step _ symbol b b' (fun s => OrderAccepted s symbol id) ts); [done|done|lia|done|done|..]; cbn [ocaml_command apply a_verdict a_apply]; unfold imap_find_opt.
  - by rewrite Eb, Ec, Ek, Hadd.
  - rewrite Hf, Ec'. unfold check_limit. rewrite Hside. cbn [negb]. by apply Hck.
  - by rewrite Hf, Ec', Ha.
Qed.

Lemma market_step symbol id side q : command_ok (NewMarket symbol id side q) -> steps_to (NewMarket symbol id side q).
Proof.
  intros (_ & _ & Hside & Hq). pose proof (agrees_find _ _ _ _ _ symbol Hag) as Hf. destruct (om_find symbol (books st)) as [b|] eqn:Eb.
  2:{ reject_by; [by rewrite Eb|by rewrite Hf]. }
  destruct Hf as (Hf & Hwf & Hlen). pose proof (check_market_o config side q Hside Hq) as Hck. rewrite <- (ag_meta _ _ _ _ _ Hag) in Hck.
  destruct (contains b id) eqn:Ec; pose proof Ec as Ec'; rewrite contains_o in Ec' by done.
  { reject_by; [by rewrite Eb, Ec|by rewrite Hf, Ec']. }
  destruct (check_market (st_meta st) q) eqn:Ek.
  { reject_by; [by rewrite Eb, Ec, Ek|].
    rewrite Hf, Ec'. intros H. apply Hck in H. done. }
  destruct (add_market_o b id (is_buy side) q Hwf Hq Ec) as (ts & b' & Hadd & Hwf' & Ha). assert (to_side (is_buy side) = side) as Hs by (by destruct side). rewrite Hs in Ha.
  unfold in_u32 in Hq. pose proof (a_add_market_length (o_abs b) id side q ltac:(lia)) as Hlen'. pose proof (a_add_market_count (o_abs b) id side q) as Hcount.
  rewrite Ha in Hlen', Hcount. cbn [fst snd] in Hlen', Hcount.
  apply (accept_step _ symbol b b' (fun s => OrderAccepted s symbol id) ts); [done|done|lia|done|done|..]; cbn [ocaml_command apply a_verdict a_apply]; unfold imap_find_opt.
  - by rewrite Eb, Ec, Ek, Hadd.
  - rewrite Hf, Ec'. by apply Hck.
  - by rewrite Hf, Ec', Ha.
Qed.

Lemma cancel_step symbol id : steps_to (Cancel symbol id).
Proof.
  pose proof (agrees_find _ _ _ _ _ symbol Hag) as Hf. destruct (om_find symbol (books st)) as [b|] eqn:Eb.
  2:{ reject_by; [by rewrite Eb|by rewrite Hf]. }
  destruct Hf as (Hf & Hwf & Hlen). destruct (contains b id) eqn:Ec; pose proof Ec as Ec'; rewrite contains_o in Ec' by done.
  2:{ reject_by; [by rewrite Eb, Ec|by rewrite Hf, Ec']. }
  destruct (cancel_o b id Hwf Ec) as (Hwf' & _ & Ha). pose proof (a_remove_length id (o_abs b)) as Hlen'.
  apply (accept_step _ symbol b (cancel b id).1 (fun s => OrderCanceled s symbol id) []); [done|done|rewrite Ha; lia|cbn; lia|done|..];
    cbn [ocaml_command apply a_verdict a_apply]; unfold imap_find_opt.
  - rewrite Eb, Ec. cbn [negb put_trades map length]. done.
  - by rewrite Hf, Ec'.
  - by rewrite Hf, Ec', Ha.
Qed.

Lemma modify_step symbol id price q : command_ok (Modify symbol id price q) -> steps_to (Modify symbol id price q).
Proof.
  intros (_ & _ & Hp & Hq). pose proof (agrees_find _ _ _ _ _ symbol Hag) as Hf. destruct (om_find symbol (books st)) as [b|] eqn:Eb.
  2:{ reject_by; [by rewrite Eb|by rewrite Hf]. }
  destruct Hf as (Hf & Hwf & Hlen). pose proof (check_limit_values_o config price q Hp Hq Hnot) as Hck. rewrite <- (ag_meta _ _ _ _ _ Hag) in Hck.
  destruct (contains b id) eqn:Ec; pose proof Ec as Ec'; rewrite contains_o in Ec' by done.
  2:{ reject_by; [by rewrite Eb, Ec|by rewrite Hf, Ec']. }
  destruct (modify_book_o b id price q Hwf Hq Ec) as (ts & b' & Hmod & Hwf' & Ha). unfold in_u32 in Hq.
  pose proof (a_modify_length (o_abs b) id price q ltac:(lia)) as Hlen'. pose proof (a_modify_count (o_abs b) id price q) as Hcount.
  rewrite Ha in Hlen', Hcount. cbn [fst snd] in Hlen', Hcount.
  destruct (q =? 0) eqn:E0; [|destruct (check_limit_values (st_meta st) price q) eqn:Ek].
  2:{ reject_by; [by rewrite Eb, Ec, E0, Ek|].
      rewrite Hf, Ec', E0. cbn [negb]. intros H. apply Hck in H. done. }
  all: apply (accept_step _ symbol b b' (fun s => OrderModified s symbol id) ts); [done|done|lia|done|done|..];
    cbn [ocaml_command apply a_verdict a_apply]; unfold imap_find_opt.
  - by rewrite Eb, Ec, E0, Hmod.
  - by rewrite Hf, Ec', E0.
  - by rewrite Hf, Ec', Ha.
  - by rewrite Eb, Ec, E0, Ek, Hmod.
  - rewrite Hf, Ec', E0. cbn [negb]. by apply Hck.
  - by rewrite Hf, Ec', Ha.
Qed.

Lemma replay_step c : command_ok c -> steps_to c.
Proof.
  destruct c as [name|symbol id side price q tif|symbol id side q|symbol id|symbol id price q]; intros Hok;
    [|by apply limit_step|by apply market_step|by apply cancel_step|by apply modify_step].
  destruct (register_agrees config n st ae trades name Hn Hag) as (st' & Ha & Hag'). exists st'. split; [done|]. unfold a_gateway. cbn [a_verdict].
  rewrite bool_decide_true by done. cbn [a_apply] in *. destruct (intern _ _) as [id r]. cbn in *. by rewrite Z.add_0_r.
Qed.
End Step.

(** ** Streams *)

Definition results_trades (rs : list GatewayResult) : Z := fold_right (fun r acc => events_trades (g_events r) + acc) 0 rs.

Lemma replay_agrees config cmds : forall n (st : state) ae trades,
  0 <= max_notional config -> 0 <= n -> n + Z.of_nat (length cmds) < 2 ^ 30 -> Forall command_ok cmds -> agrees config n st ae trades ->
  exists st', fold_left (fun st c => st ≫= fun st => apply st c) (map ocaml_command cmds) (Some st) = Some st' /\
    let r := a_gateway_all config ae cmds in agrees config (n + Z.of_nat (length cmds)) st' r.2 (trades + results_trades r.1).
Proof.
  induction cmds as [|c cmds IH]; intros n st ae trades Hnot Hn Hlen Hok Hag.
  { exists st. cbn. by rewrite !Z.add_0_r. }
  apply Forall_cons in Hok as [Hc Hok]. cbn [length] in Hlen. cbn [map fold_left a_gateway_all].
  destruct (replay_step config Hnot n st ae trades) with (c := c) as (st1 & H1 & Hag1); [lia|done|done|]. change (Some st ≫= _) with (apply st (ocaml_command c)).
  rewrite H1. destruct (a_gateway config ae c) as [r ae1]. cbn [fst snd] in Hag1.
  destruct (IH (n + 1) st1 ae1 (trades + events_trades (g_events r)) Hnot) as (st2 & H2 & Hag2); [lia|lia|done|done|]. exists st2. split; [done|].
  destruct (a_gateway_all config ae1 cmds) as [rs ae2]. cbn [fst snd results_trades fold_right length] in *.
  replace (n + Z.of_nat (S (length cmds))) with (n + 1 + Z.of_nat (length cmds)) by lia. by rewrite Z.add_assoc.
Qed.

(** ** Snapshots *)

Definition sym_of (s : SymbolSnapshot) : sym_snapshot :=
  mkSymSnapshot (ss_symbol s) (ss_best_bid s) (ss_best_ask s) (ss_order_count s) (map view_of (ss_bids s)) (map view_of (ss_asks s)).
Definition snapshot_of (s : EngineSnapshot) (trades : Z) : snapshot_t := mkSnapshot (es_last_seq s) trades (map sym_of (es_symbols s)).

Lemma snapshot_agrees config n st ae trades :
  n < 2 ^ 30 -> agrees config n st ae trades -> snapshot st = snapshot_of (a_snapshot ae) trades.
Proof.
  intros Hn [H1 H2 _ H4 H5 H6 H7 H8 [H9 _] [HA _]]. unfold snapshot, snapshot_of, a_snapshot. cbn [es_last_seq es_symbols]. rewrite H9, HA, H4. f_equal.
  unfold om_map, imap_bindings. rewrite !map_map. apply map_ext_in. intros [k b] Hin. apply list_elem_of_In in Hin. rewrite Forall_forall in H6.
  destruct (H6 _ Hin) as [Hwf Hlen]. cbn [snd] in Hwf, Hlen. cbn [fst snd]. unfold sym_of. cbn [ss_symbol ss_best_bid ss_best_ask ss_order_count ss_bids ss_asks].
  unfold a_orders in Hlen. rewrite app_length in Hlen. pose proof (ow_abs _ Hwf) as Habs. rewrite cardinal_o by done. f_equal.
  - apply (best_o true). apply Hwf.
  - apply (best_o false). apply Hwf.
  - apply (level_views_o true); [apply Hwf|apply Habs|]. unfold o_abs in Hlen. cbn [a_bids] in Hlen. lia.
  - apply (level_views_o false); [apply Hwf|apply Habs|]. unfold o_abs in Hlen. cbn [a_asks] in Hlen. lia.
Qed.
