(* ===== verification/FixtureSpec.v ===== *)
(** * FixtureSpec: the lines of a fixture and how OCaml reads them

    Every record a fixture holds is a line of words; the parser of the OCaml side
    gives back the commands and the snapshot that were printed. *)
From Stdlib Require Import ZifyBool.
From S2P Require Import Prelude Core Endian Book BookSpec BookRun OrderBook Text Command Engine EngineSpec Gateway GatewaySpec Shrink Flow Fixture ReplayEngine StreamParser ReplayBook ReplaySpec.

(** ** The words of each record *)

Definition cmd_words (c : Command) : list bytes :=
  text "cmd" ::
  match c with
  | RegisterSymbol name => [text "reg"; text name]
  | NewLimit symbol id side price quantity tif =>
      [text "limit"; to_string symbol; to_string id; side_ch side; px price; to_string quantity; tif_str tif]
  | NewMarket symbol id side quantity => [text "market"; to_string symbol; to_string id; side_ch side; to_string quantity]
  | Cancel symbol id => [text "cancel"; to_string symbol; to_string id]
  | Modify symbol id price quantity => [text "modify"; to_string symbol; to_string id; px price; to_string quantity]
  end.

Definition event_words (e : EngineEvent) : list bytes :=
  text "evt" ::
  match e with
  | OrderAccepted seq symbol id => [text "accept"; to_string seq; to_string symbol; to_string id]
  | OrderCanceled seq symbol id => [text "cancel"; to_string seq; to_string symbol; to_string id]
  | OrderModified seq symbol id => [text "modify"; to_string seq; to_string symbol; to_string id]
  | TradeEvent seq symbol taker maker price quantity =>
      [text "trade"; to_string seq; to_string symbol; to_string taker; to_string maker; to_string_signed price; to_string quantity]
  end.

Definition reject_kind (c : Command) : option (bytes * OrderId) :=
  match c with
  | RegisterSymbol _ => None
  | NewLimit _ id _ _ _ _ => Some (text "new_limit", id)
  | NewMarket _ id _ _ => Some (text "new_market", id)
  | Cancel _ id => Some (text "cancel", id)
  | Modify _ id _ _ => Some (text "modify", id)
  end.

Definition reject_words (c : Command) (reason : RejectReason) : list (list bytes) :=
  match reject_kind c with
  | None => []
  | Some (kind, id) => [[text "reject"; kind; to_string id; text (reason_to_string reason)]]
  end.

(** The records of one command. *)
Definition outcome_words (c : Command) (r : GatewayResult) : list (list bytes) :=
  cmd_words c :: (if negb (g_accepted r) then reject_words c (g_reason r) else map event_words (g_events r)).

Definition snapshot_words (last_seq trades : Z) : list bytes :=
  [text "snapshot"; text "last_seq"; to_string_signed last_seq; text "trades"; to_string_signed trades].
Definition level_words (s : Z) (mark : bytes) (l : level_view) : list bytes :=
  [text "level"; to_string_signed s; mark; to_string_signed (olv_price l); to_string_signed (olv_qty l)].
Definition sym_words (x : sym_snapshot) : list bytes :=
  [text "sym"; to_string_signed (sym x); text "bid"; opt_str (best_bid x); text "ask"; opt_str (best_ask x); text "orders"; to_string_signed (order_count x)].
Definition sym_block_words (x : sym_snapshot) : list (list bytes) :=
  sym_words x :: map (level_words (sym x) (text "B")) (bid_levels x) ++ map (level_words (sym x) (text "A")) (ask_levels x).
Definition all_snapshot_words (s : snapshot_t) : list (list bytes) :=
  snapshot_words (os_last_seq s) (n_trades s) :: concat (map sym_block_words (symbols s)).

Definition meta_words (p : FixtureParams) : list bytes :=
  [text "meta"; text "seed"; to_string (fp_seed p); text "symbols"; to_string (fp_symbols p); text "orders"; to_string (fp_orders p);
   text "max_qty"; to_string (fp_max_qty p); text "max_notional"; to_string (fp_max_notional p)].

Definition banner : bytes := text "# qsl differential-testing fixture: command stream + events + rejections + snapshot".

(** ** The text is those lines *)

Definition lines_of (ws : list (list bytes)) : list bytes := map line_of ws.

Lemma unlines_cons l ls : unlines (l :: ls) = l ++ [10] ++ unlines ls.
Proof. unfold unlines. cbn. by rewrite <- app_assoc. Qed.
Lemma unlines_one l : unlines [l] = l ++ [10].
Proof. unfold unlines. cbn. by rewrite app_nil_r. Qed.

Lemma emit_cmd_lines os c : emit_cmd os c = os ++ unlines [line_of (cmd_words c)].
Proof.
  unfold emit_cmd. f_equal. rewrite unlines_one. unfold line_of, cmd_words. destruct c; cbn [join]; rewrite <- !app_assoc; reflexivity.
Qed.

Lemma emit_event_lines e : emit_event e = unlines [line_of (event_words e)].
Proof. rewrite unlines_one. unfold line_of, event_words. destruct e; cbn [emit_event join]; rewrite <- !app_assoc; reflexivity. Qed.

Lemma emit_reject_lines os c reason : emit_command_reject os c reason = os ++ unlines (lines_of (reject_words c reason)).
Proof.
  unfold emit_command_reject, reject_words, lines_of. destruct c; cbn [reject_kind map]; try (cbn; by rewrite app_nil_r);
    unfold emit_reject; f_equal; rewrite unlines_one; unfold line_of; cbn [join]; rewrite <- !app_assoc; reflexivity.
Qed.

Lemma emit_header_lines p : emit_header p = unlines [banner; text "version 1"; line_of (meta_words p)].
Proof.
  unfold emit_header. rewrite !unlines_cons. unfold emit_meta, line_of, meta_words. cbn [join]. rewrite <- !app_assoc. reflexivity.
Qed.

Lemma level_line_words s mark l : level_line s mark l = line_of (level_words s mark l).
Proof. unfold level_line, line_of, level_words. cbn [join]. reflexivity. Qed.
Lemma sym_line_words x : sym_line x = line_of (sym_words x).
Proof. unfold sym_line, line_of, sym_words. cbn [join]. reflexivity. Qed.
Lemma snapshot_line_words a b : snapshot_line a b = line_of (snapshot_words a b).
Proof. unfold snapshot_line, line_of, snapshot_words. cbn [join]. reflexivity. Qed.

Lemma snapshot_to_lines_words s : snapshot_to_lines s = lines_of (all_snapshot_words s).
Proof.
  unfold snapshot_to_lines, lines_of, all_snapshot_words. cbn [map]. rewrite snapshot_line_words. f_equal. rewrite concat_map, map_map. f_equal. apply map_ext. intros x.
  unfold sym_block, sym_block_words. cbn [map app]. rewrite sym_line_words, map_app, !map_map. reflexivity.
Qed.

(** ** Values that fit an OCaml [int] *)

Definition nat62 (z : Z) : Prop := 0 <= z < 2 ^ 62.
Definition int62 (z : Z) : Prop := - 2 ^ 62 <= z < 2 ^ 62.
Definition opt62 (p : option Z) : Prop := match p with Some p => int62 p | None => True end.

Definition level_ok (l : level_view) : Prop := int62 (olv_price l) /\ nat62 (olv_qty l).
Definition sym_ok (x : sym_snapshot) : Prop :=
  nat62 (sym x) /\ opt62 (best_bid x) /\ opt62 (best_ask x) /\ nat62 (order_count x) /\ Forall level_ok (bid_levels x) /\ Forall level_ok (ask_levels x).
Definition snap_ok (s : snapshot_t) : Prop := nat62 (os_last_seq s) /\ nat62 (n_trades s) /\ Forall sym_ok (symbols s).

(** ** The snapshot section *)

Lemma emit_levels_lines s mark ls :
  0 <= s -> Forall level_ok (map view_of ls) -> concat (map (emit_level s mark) ls) = unlines (map (level_line s mark) (map view_of ls)).
Proof.
  intros Hs. induction ls as [|l ls IH]; intros Hl; [done|]. cbn [map] in *. apply Forall_cons in Hl as [[_ Hq] Hl]. unfold nat62 in Hq. cbn [view_of olv_qty] in Hq.
  rewrite unlines_cons. cbn [concat]. rewrite IH by done. unfold emit_level, level_line, view_of, px. cbn [olv_price olv_qty].
  rewrite !(to_string_signed_nonneg s), (to_string_signed_nonneg (lv_quantity l)) by lia. unfold sp, nl. rewrite <- !app_assoc. reflexivity.
Qed.

Lemma emit_symbol_lines s : sym_ok (sym_of s) -> emit_symbol s = unlines (sym_block (sym_of s)).
Proof.
  unfold sym_ok, nat62. cbn [sym_of sym best_bid best_ask order_count bid_levels ask_levels]. intros (Hs & _ & _ & Hn & Hb & Ha).
  unfold emit_symbol, sym_block, sym_line. cbn [sym_of sym best_bid best_ask order_count bid_levels ask_levels app]. rewrite unlines_cons, unlines_app.
  rewrite !emit_levels_lines by (done || lia). rewrite (to_string_signed_nonneg (ss_symbol s)), (to_string_signed_nonneg (ss_order_count s)) by lia.
  rewrite <- !app_assoc. reflexivity.
Qed.

Lemma emit_snapshot_lines os snap trades :
  snap_ok (snapshot_of snap trades) -> emit_snapshot os snap trades = os ++ unlines (snapshot_to_lines (snapshot_of snap trades)).
Proof.
  intros (Hs & Ht & Hsym). unfold nat62 in Hs, Ht. unfold snapshot_of in *. cbn [os_last_seq n_trades symbols] in *. unfold emit_snapshot, snapshot_to_lines. f_equal.
  cbn [os_last_seq n_trades symbols]. rewrite unlines_cons. unfold snapshot_line. rewrite !to_string_signed_nonneg by lia. rewrite <- !app_assoc. do 5 f_equal.
  clear -Hsym. induction (es_symbols snap) as [|s l IH]; [done|]. cbn [map concat] in *. apply Forall_cons in Hsym as [H1 H2]. by rewrite unlines_app, IH, emit_symbol_lines.
Qed.

(** ** Words are tokens *)

Lemma opt_str_token p : opt62 p -> is_token (opt_str p).
Proof.
  destruct p as [p|]; cbn; [|by split; [|split; set_solver]]. intros Hp. apply to_string_signed_token. unfold int62 in Hp. unfold in_i64. lia.
Qed.

Lemma int62_token z : int62 z -> is_token (to_string_signed z).
Proof. intros Hz. apply to_string_signed_token. unfold int62 in Hz. unfold in_i64. lia. Qed.
Lemma nat62_token z : nat62 z -> is_token (to_string_signed z).
Proof. intros Hz. apply int62_token. unfold nat62, int62 in *. lia. Qed.

(** A literal word. *)
Ltac literal := split; [discriminate|split; apply (bool_decide_unpack _); vm_compute; exact I].
Ltac tokens := repeat (apply Forall_cons; split); try apply Forall_nil_2; try done;
  try (apply nat62_token; assumption); try (apply int62_token; assumption); try (apply opt_str_token; assumption);
  try (apply to_string_token; assumption); try (apply to_string_signed_token; assumption); try literal.

Lemma level_words_tokens s mark l : nat62 s -> is_token mark -> level_ok l -> Forall is_token (level_words s mark l).
Proof. intros Hs Hm [H1 H2]. unfold level_words. tokens. Qed.
Lemma sym_words_tokens x : sym_ok x -> Forall is_token (sym_words x).
Proof. intros (H1 & H2 & H3 & H4 & _). unfold sym_words. tokens. Qed.
Lemma snapshot_words_tokens a b : nat62 a -> nat62 b -> Forall is_token (snapshot_words a b).
Proof. intros H1 H2. unfold snapshot_words. tokens. Qed.

(** ** Reading the commands *)

(** Tests on literal words compute. *)
Ltac word_tests :=
  repeat match goal with
  | |- context [is_word (text ?a) ?b] =>
      let v := eval vm_compute in (is_word (text a) b) in change (is_word (text a) b) with v; cbn [andb orb]; cbv iota
  | |- context [bool_decide (head (text ?a) = Some 35)] =>
      let v := eval vm_compute in (bool_decide (head (text a) = Some 35)) in change (bool_decide (head (text a) = Some 35)) with v; cbv iota
  end.

(** A symbol name that is one word of a line. *)
Definition name_ok (name : string) : Prop := is_token (text name).

(** A command that a fixture can carry. *)
Definition fixture_command (c : Command) : Prop :=
  command_ok c /\
  match c with
  | RegisterSymbol name => name_ok name
  | NewLimit _ id _ price _ _ | Modify _ id price _ => nat62 id /\ int62 price
  | NewMarket _ id _ _ | Cancel _ id => nat62 id
  end.

Lemma side_of_ch side : side_of (side_ch side) = Some (to_oside (is_buy side)).
Proof. unfold side_ch, is_buy. by destruct side. Qed.
Lemma tif_of_str t : tif_of (tif_str t) = Some (ocaml_tif t).
Proof. unfold tif_str, ocaml_tif. by case_bool_decide. Qed.
Lemma side_ch_token side : is_token (side_ch side).
Proof. unfold side_ch. case_bool_decide; literal. Qed.
Lemma tif_str_token t : is_token (tif_str t).
Proof. unfold tif_str. case_bool_decide; literal. Qed.
Lemma nat62_u64 z : nat62 z -> in_u64 z.
Proof. unfold nat62, in_u64. lia. Qed.
Lemma u32_nat62 z : in_u32 z -> nat62 z.
Proof. unfold nat62, in_u32. lia. Qed.
#[local] Hint Resolve to_string_token int62_token nat62_u64 u32_nat62 side_ch_token tif_str_token : fixture.

Lemma cmd_words_tokens c : fixture_command c -> Forall is_token (cmd_words c).
Proof.
  intros [Hok Hf]. unfold cmd_words, px. destruct c; cbn [command_ok] in Hok; destruct_and?; tokens; auto with fixture.
Qed.

Lemma int_of_nat62 z : nat62 z -> int_of (to_string z) = Some z.
Proof. apply int_of_to_string. Qed.
Lemma int_of_int62 z : int62 z -> int_of (to_string_signed z) = Some z.
Proof. apply int_of_to_string_signed. Qed.
Lemma int_of_nat62_signed z : nat62 z -> int_of (to_string_signed z) = Some z.
Proof. intros Hz. apply int_of_to_string_signed. unfold nat62 in Hz. lia. Qed.

Lemma parse_cmd_words c : fixture_command c -> parse_cmd (tail (cmd_words c)) = Some (ocaml_command c).
Proof.
  intros [Hok Hf]. destruct c; cbn [cmd_words tail parse_cmd command_ok] in *; destruct_and?; word_tests; unfold px;
    rewrite ?int_of_nat62, ?int_of_int62 by auto with fixture; cbn [mbind option_bind]; rewrite ?side_of_ch, ?tif_of_str; cbn [mbind option_bind]; try done.
  cbn. do 2 f_equal. apply (string_bytes_string name).
Qed.

Lemma handle_cmd st c : fixture_command c -> handle st (line_of (cmd_words c)) = Some (st.1, ocaml_command c :: st.2).
Proof.
  intros Hc. unfold handle. rewrite words_line by (by apply cmd_words_tokens). pose proof (parse_cmd_words c Hc) as Hp. destruct c; cbn [cmd_words tail] in *; word_tests; by rewrite Hp.
Qed.

(** Lines the command parser skips, by their first word. *)
Definition skipped (w : bytes) : bool :=
  is_word w "evt" || is_word w "reject" || is_word w "snapshot" || is_word w "sym" || is_word w "level".

Lemma handle_skip st w toks : skipped w = true -> Forall is_token (w :: toks) -> handle st (line_of (w :: toks)) = Some st.
Proof.
  intros Hs Ht. unfold handle. rewrite words_line by done. unfold skipped, is_word in Hs. rewrite !orb_true_iff, !bool_decide_eq_true in Hs.
  destruct Hs as [[[[->| ->]| ->]| ->]| ->]; by word_tests.
Qed.

Lemma words_first c l : c <> 32 -> exists w ws, words (c :: l) = (c :: w) :: ws.
Proof.
  intros Hc. unfold words. cbn [split_on_char]. replace (c =? 32) with false by lia. destruct (split_on_char 32 l) as [|w ws]; eexists _, _;
    (rewrite filter_cons, decide_True by done); done.
Qed.

Definition comment_line (l : bytes) : Prop := head l = Some 35 /\ 10 ∉ l.

Lemma handle_comment st l : comment_line l -> handle st l = Some st.
Proof.
  intros [Hh _]. destruct l as [|c l]; [done|]. injection Hh as ->. destruct (words_first 35 l) as (w & ws & E); [done|]. unfold handle. rewrite E. done.
Qed.

Definition params_ok (p : FixtureParams) : Prop :=
  in_u64 (fp_seed p) /\ in_u32 (fp_symbols p) /\ in_u64 (fp_orders p) /\ in_u32 (fp_max_qty p) /\ nat62 (fp_max_notional p).

Lemma meta_words_tokens p : params_ok p -> Forall is_token (meta_words p).
Proof. intros (H1 & H2 & H3 & H4 & H5). unfold meta_words. tokens; auto with fixture. Qed.

Definition config_of (p : FixtureParams) : RiskConfig := mkRiskConfig (fp_max_qty p) (fp_max_notional p).

Lemma digits_word w key : Forall (fun c => is_digit c = true) w -> existsb (fun c => negb (is_digit c)) (text key) = true -> is_word w key = false.
Proof.
  intros Hd Hk. unfold is_word. apply bool_decide_eq_false. intros ->. apply existsb_exists in Hk as (c & Hin & Hc). rewrite Forall_forall in Hd.
  rewrite (Hd c) in Hc; [done|]. by apply list_elem_of_In.
Qed.
Lemma to_string_word z key : in_u64 z -> existsb (fun c => negb (is_digit c)) (text key) = true -> is_word (to_string z) key = false.
Proof. intros Hz. apply digits_word. by apply to_string_spec. Qed.

Lemma handle_meta st p : params_ok p -> handle st (line_of (meta_words p)) = Some (Some (meta_of (config_of p)), st.2).
Proof.
  intros Hp. pose proof Hp as (H1 & H2 & H3 & H4 & H5). unfold handle. rewrite words_line by (by apply meta_words_tokens). unfold meta_words. word_tests. cbn [value_after].
  word_tests. rewrite !(to_string_word _ "max_qty"), !(to_string_word _ "max_notional") by (auto with fixture || reflexivity).
  rewrite !int_of_nat62 by auto with fixture. done.
Qed.

(** ** Reading the snapshot *)

Lemma handle_snapshot_skip st line w ws :
  words line = w :: ws -> is_word w "snapshot" = false -> is_word w "level" = false -> is_word w "sym" = false -> handle_snapshot st line = Some st.
Proof.
  intros E H1 H2 H3. destruct st as [[ls t] syms]. unfold handle_snapshot. rewrite E.
  do 8 (destruct ws as [|? ws]; [try done; by rewrite ?H1, ?H2, ?H3|]). done.
Qed.

Lemma handle_snapshot_comment st l : comment_line l -> handle_snapshot st l = Some st.
Proof.
  intros [Hh _]. destruct l as [|c l]; [done|]. injection Hh as ->. destruct (words_first 35 l) as (w & ws & E); [done|].
  apply (handle_snapshot_skip _ _ _ _ E); apply bool_decide_eq_false; discriminate.
Qed.

(** Records other than the snapshot's, by their first word. *)
Lemma handle_snapshot_other st w toks :
  is_word w "snapshot" = false -> is_word w "level" = false -> is_word w "sym" = false -> Forall is_token (w :: toks) ->
  handle_snapshot st (line_of (w :: toks)) = Some st.
Proof. intros H1 H2 H3 Ht. eapply handle_snapshot_skip; [by apply words_line|done..]. Qed.

Lemma handle_snapshot_head a b ls t syms :
  nat62 a -> nat62 b -> handle_snapshot (ls, t, syms) (line_of (snapshot_words a b)) = Some (a, b, syms).
Proof.
  intros Ha Hb. unfold handle_snapshot. rewrite words_line by (by apply snapshot_words_tokens). unfold snapshot_words. word_tests.
  by rewrite !int_of_nat62_signed.
Qed.

Lemma to_string_signed_dash z : int62 z -> is_word (to_string_signed z) "-" = false.
Proof.
  intros Hz. unfold int62 in Hz. unfold is_word. apply bool_decide_eq_false. unfold to_string_signed. destruct (z <? 0) eqn:E.
  - destruct (to_string_spec (- z)) as (_ & _ & Hne & _); [unfold in_u64; lia|]. intros [= H]. done.
  - destruct (to_string_spec z) as (Hd & _); [unfold in_u64; lia|]. intros E1. rewrite E1 in Hd. by apply Forall_cons in Hd as [Hd _].
Qed.

Lemma opt_of_str p : opt62 p -> opt_of (opt_str p) = Some p.
Proof. destruct p as [p|]; [|done]. intros Hp. cbn [opt_str]. unfold opt_of. rewrite to_string_signed_dash by done. by rewrite int_of_int62. Qed.

Definition bare_sym (x : sym_snapshot) : sym_snapshot := mkSymSnapshot (sym x) (best_bid x) (best_ask x) (order_count x) [] [].

Lemma handle_snapshot_sym x ls t syms : sym_ok x -> handle_snapshot (ls, t, syms) (line_of (sym_words x)) = Some (ls, t, bare_sym x :: syms).
Proof.
  intros Hx. pose proof Hx as (H1 & H2 & H3 & H4 & _). unfold handle_snapshot. rewrite words_line by (by apply sym_words_tokens). unfold sym_words. word_tests.
  rewrite !int_of_nat62_signed by done. cbn [mbind option_bind]. rewrite !opt_of_str by done. done.
Qed.

Lemma handle_snapshot_level ls t cur rest mark l :
  nat62 (sym cur) -> level_ok l -> is_token (text mark) ->
  handle_snapshot (ls, t, cur :: rest) (line_of (level_words (sym cur) (text mark) l)) = Some (ls, t, add_level (text mark) l cur :: rest).
Proof.
  intros Hs Hl Hm. pose proof Hl as [H1 H2]. unfold handle_snapshot. rewrite words_line by (by apply level_words_tokens). unfold level_words. word_tests.
  rewrite (int_of_nat62_signed (sym cur)) by done. cbn [mbind option_bind]. rewrite Z.eqb_refl. cbn [negb].
  rewrite (int_of_int62 (olv_price l)), (int_of_nat62_signed (olv_qty l)) by done. cbn [mbind option_bind]. by destruct l.
Qed.

Lemma iter_opt_cons {A S : Type} (f : S -> A -> option S) a l s : iter_opt f (a :: l) (Some s) = iter_opt f l (f s a).
Proof. done. Qed.
Lemma iter_opt_app {A S : Type} (f : S -> A -> option S) l l' s : iter_opt f (l ++ l') s = iter_opt f l' (iter_opt f l s).
Proof. unfold iter_opt. apply fold_left_app. Qed.

Lemma iter_levels ls t rest mark levels : forall cur,
  nat62 (sym cur) -> Forall level_ok levels -> is_token (text mark) ->
  iter_opt handle_snapshot (lines_of (map (level_words (sym cur) (text mark)) levels)) (Some (ls, t, cur :: rest)) =
  Some (ls, t, fold_left (fun cur l => add_level (text mark) l cur) levels cur :: rest).
Proof.
  induction levels as [|l levels IH]; intros cur Hs Hl Hm; [done|]. apply Forall_cons in Hl as [Hl1 Hl]. cbn [map lines_of]. rewrite iter_opt_cons, handle_snapshot_level by done.
  cbn [fold_left]. rewrite <- IH; [|by unfold add_level; case_match|done|done]. unfold lines_of. by replace (sym (add_level (text mark) l cur)) with (sym cur) by (unfold add_level; by case_match).
Qed.

Lemma fold_bid_levels levels : forall cur,
  fold_left (fun cur l => add_level (text "B") l cur) levels cur =
  mkSymSnapshot (sym cur) (best_bid cur) (best_ask cur) (order_count cur) (bid_levels cur ++ levels) (ask_levels cur).
Proof.
  induction levels as [|l levels IH]; intros cur; cbn [fold_left]; [rewrite app_nil_r; by destruct cur|]. rewrite IH. unfold add_level. word_tests.
  cbn [sym best_bid best_ask order_count bid_levels ask_levels]. by rewrite <- app_assoc.
Qed.
Lemma fold_ask_levels levels : forall cur,
  fold_left (fun cur l => add_level (text "A") l cur) levels cur =
  mkSymSnapshot (sym cur) (best_bid cur) (best_ask cur) (order_count cur) (bid_levels cur) (ask_levels cur ++ levels).
Proof.
  induction levels as [|l levels IH]; intros cur; cbn [fold_left]; [rewrite app_nil_r; by destruct cur|]. rewrite IH. unfold add_level. word_tests.
  cbn [sym best_bid best_ask order_count bid_levels ask_levels]. by rewrite <- app_assoc.
Qed.

Lemma iter_sym_block ls t syms x : sym_ok x -> iter_opt handle_snapshot (lines_of (sym_block_words x)) (Some (ls, t, syms)) = Some (ls, t, x :: syms).
Proof.
  intros Hx. pose proof Hx as (H1 & _ & _ & _ & H5 & H6). unfold sym_block_words, lines_of. cbn [map]. rewrite iter_opt_cons, handle_snapshot_sym by done.
  rewrite map_app, iter_opt_app. set (cur := mkSymSnapshot (sym x) (best_bid x) (best_ask x) (order_count x) (bid_levels x) []).
  transitivity (iter_opt handle_snapshot (lines_of (map (level_words (sym cur) (text "A")) (ask_levels x))) (Some (ls, t, cur :: syms))).
  - unfold lines_of. f_equal. etransitivity; [apply (iter_levels ls t syms "B" (bid_levels x) (bare_sym x)); done || literal|]. by rewrite fold_bid_levels.
  - rewrite iter_levels by (done || literal). rewrite fold_ask_levels. by destruct x.
Qed.

Lemma iter_snapshot s : snap_ok s ->
  forall st, st.2 = [] -> iter_opt handle_snapshot (lines_of (all_snapshot_words s)) (Some st) = Some (os_last_seq s, n_trades s, rev (symbols s)).
Proof.
  intros (H1 & H2 & Hs) [[ls t] syms] Hst. cbn in Hst. subst syms. unfold all_snapshot_words, lines_of. cbn [map]. rewrite iter_opt_cons, handle_snapshot_head by done.
  assert (forall syms acc, Forall sym_ok syms ->
    iter_opt handle_snapshot (map line_of (concat (map sym_block_words syms))) (Some (os_last_seq s, n_trades s, acc)) = Some (os_last_seq s, n_trades s, rev syms ++ acc)) as Hiter.
  { clear. induction syms as [|x syms IH]; intros acc Hs; [done|]. apply Forall_cons in Hs as [Hx Hs]. cbn [map concat rev]. rewrite map_app, iter_opt_app.
    fold (lines_of (sym_block_words x)). rewrite iter_sym_block by done. rewrite IH by done. by rewrite <- app_assoc. }
  rewrite Hiter by done. by rewrite app_nil_r.
Qed.

(** ** FixtureRun: a whole fixture, written and read

    The run of src/replay/fixture.cpp as lines, the commands and the snapshot the
    OCaml parser finds in them, and the ranges that make every number readable. *)

(** ** The loop *)

Definition body_words (cmds : list Command) (rs : list GatewayResult) : list (list bytes) := concat (zip_with outcome_words cmds rs).

Lemma body_words_cons c cmds r rs : body_words (c :: cmds) (r :: rs) = outcome_words c r ++ body_words cmds rs.
Proof. done. Qed.
Lemma lines_of_app a b : lines_of (a ++ b) = lines_of a ++ lines_of b.
Proof. apply map_app. Qed.

Lemma events_trades_cons e events : events_trades (e :: events) = (if is_trade e then 1 else 0) + events_trades events.
Proof. unfold events_trades. rewrite filter_cons. destruct (is_trade e); [rewrite decide_True by done; cbn [length]; lia|rewrite decide_False by done; lia]. Qed.

Lemma emit_events_spec events : forall os trades,
  in_u64 trades -> emit_events os events trades = (os ++ unlines (lines_of (map event_words events)), u64 (trades + events_trades events)).
Proof.
  unfold emit_events. induction events as [|e events IH]; intros os trades Ht; cbn [fold_left].
  { cbn. rewrite app_nil_r, Z.add_0_r, u64_small by done. done. }
  rewrite IH by (destruct (is_trade e); [apply u64_range|done]). unfold lines_of. cbn [map]. rewrite (unlines_cons (line_of (event_words e))), emit_event_lines, unlines_one.
  rewrite <- !app_assoc. f_equal. rewrite events_trades_cons. destruct (is_trade e); [rewrite u64_u64_add; f_equal; lia|done].
Qed.

Section Run.
Context {B : Type} `{BookStore B} (config : RiskConfig).
Implicit Types e : MatchingEngine B.

Lemma rejected_no_events e c : g_accepted (apply_command config e c).1 = false -> g_events (apply_command config e c).1 = [].
Proof.
  destruct c; cbn [apply_command]; [done|..]; unfold gw_new_limit, gw_new_market, gw_cancel, gw_modify; cbv zeta;
    repeat match goal with |- context [if ?x then _ else _] => destruct x end; done.
Qed.

Lemma emit_loop cmds : forall os trades e,
  in_u64 trades ->
  fold_left (emit_step config) cmds (os, trades, e) =
  let r := gateway_all config e cmds in (os ++ unlines (lines_of (body_words cmds r.1)), u64 (trades + results_trades r.1), r.2).
Proof.
  induction cmds as [|c cmds IH]; intros os trades e Ht; cbn [fold_left gateway_all].
  { cbn. rewrite app_nil_r, Z.add_0_r, u64_small by done. done. }
  unfold emit_step at 2. pose proof (rejected_no_events e c) as Hrej. destruct (apply_command config e c) as [r e1]. cbn [fst] in Hrej.
  assert (exists os' trades', (if negb (g_accepted r) then (emit_command_reject (emit_cmd os c) c (g_reason r), trades, e1)
     else let '(os0, trades0) := emit_events (emit_cmd os c) (g_events r) trades in (os0, trades0, e1)) = (os', trades', e1) /\
     os' = os ++ unlines (lines_of (outcome_words c r)) /\ trades' = u64 (trades + events_trades (g_events r))) as (os' & trades' & -> & -> & ->).
  { unfold outcome_words, lines_of. cbn [map]. rewrite (unlines_cons (line_of (cmd_words c))). destruct (g_accepted r); cbn [negb].
    - rewrite emit_events_spec by done. eexists _, _. split; [reflexivity|]. rewrite emit_cmd_lines, unlines_one, <- !app_assoc. done.
    - eexists _, _. split; [reflexivity|]. rewrite emit_reject_lines, emit_cmd_lines, unlines_one, <- !app_assoc. rewrite (Hrej eq_refl). cbn. rewrite Z.add_0_r, u64_small by done. done. }
  rewrite IH by apply u64_range. cbv zeta. destruct (gateway_all config e1 cmds) as [rs e2]. cbn [fst snd].
  rewrite body_words_cons, lines_of_app, unlines_app, <- app_assoc. f_equal. f_equal. rewrite u64_u64_add. f_equal. cbn [results_trades fold_right]. unfold results_trades. lia.
Qed.
End Run.

(** ** Tokens of the outcome *)

Definition order_range (id : OrderId) (price : Price) : Prop := in_u64 id /\ int62 price.

Lemma event_words_tokens e : event_ok order_range e -> Forall is_token (event_words e).
Proof.
  unfold event_words. destruct e; cbn [event_ok]; unfold order_range; intros He; destruct_and?; tokens; apply to_string_token; unfold in_u32, in_u64 in *; lia.
Qed.

Lemma reason_token r : is_token (text (reason_to_string r)).
Proof. destruct r; literal. Qed.

Lemma reject_words_tokens c r : fixture_command c -> Forall (fun ws => exists toks, ws = text "reject" :: toks /\ Forall is_token ws) (reject_words c r).
Proof.
  intros [Hok _]. unfold reject_words. destruct c; cbn [reject_kind command_ok] in *; [constructor|..]; destruct_and?;
    (constructor; [|constructor]); eexists; (split; [done|]); tokens; apply reason_token.
Qed.

Lemma outcome_tail c r :
  fixture_command c -> Forall (event_ok order_range) (g_events r) ->
  Forall (fun ws => exists w toks, ws = w :: toks /\ (w = text "evt" \/ w = text "reject") /\ Forall is_token ws)
    (if negb (g_accepted r) then reject_words c (g_reason r) else map event_words (g_events r)).
Proof.
  intros Hc He. destruct (g_accepted r); cbn [negb].
  - apply Forall_map. eapply Forall_impl; [exact He|]. intros e Hok. exists (text "evt"). eexists. split; [done|]. split; [by left|]. by apply event_words_tokens.
  - eapply Forall_impl; [by apply reject_words_tokens|]. intros ws (toks & -> & Ht). exists (text "reject"), toks. split; [done|]. split; [by right|done].
Qed.

(** ** Reading the body *)

Lemma iter_skip {S : Type} (f : S -> bytes -> option S) ls : forall st, (forall l st, l ∈ ls -> f st l = Some st) -> iter_opt f ls (Some st) = Some st.
Proof.
  induction ls as [|l ls IH]; intros st Hf; [done|]. rewrite iter_opt_cons, Hf by set_solver. apply IH. intros. apply Hf. set_solver.
Qed.

Lemma handle_outcome st c r :
  fixture_command c -> Forall (event_ok order_range) (g_events r) ->
  iter_opt handle (lines_of (outcome_words c r)) (Some st) = Some (st.1, ocaml_command c :: st.2).
Proof.
  intros Hc He. unfold outcome_words, lines_of. cbn [map]. rewrite iter_opt_cons, handle_cmd by done. apply iter_skip. intros l st' Hl.
  apply list_elem_of_fmap in Hl as (ws & -> & Hws). pose proof (outcome_tail c r Hc He) as Ht. rewrite Forall_forall in Ht.
  destruct (Ht ws Hws) as (w & toks & -> & Hw & Htok). apply handle_skip; [|done]. by destruct Hw as [->| ->].
Qed.

Lemma snapshot_outcome st c r :
  fixture_command c -> Forall (event_ok order_range) (g_events r) -> iter_opt handle_snapshot (lines_of (outcome_words c r)) (Some st) = Some st.
Proof.
  intros Hc He. apply iter_skip. intros l st' Hl. apply list_elem_of_fmap in Hl as (ws & -> & Hws). unfold outcome_words in Hws. apply elem_of_cons in Hws as [->|Hws].
  - pose proof (cmd_words_tokens c Hc) as Ht. unfold cmd_words in *. by apply handle_snapshot_other.
  - pose proof (outcome_tail c r Hc He) as Ht. rewrite Forall_forall in Ht. destruct (Ht ws Hws) as (w & toks & -> & Hw & Htok).
    apply handle_snapshot_other; [by destruct Hw as [->| ->]..|done].
Qed.

Lemma handle_body cmds : forall rs st,
  length rs = length cmds -> Forall fixture_command cmds -> Forall (fun r => Forall (event_ok order_range) (g_events r)) rs ->
  iter_opt handle (lines_of (body_words cmds rs)) (Some st) = Some (st.1, rev (map ocaml_command cmds) ++ st.2) /\
  (forall s, iter_opt handle_snapshot (lines_of (body_words cmds rs)) (Some s) = Some s).
Proof.
  induction cmds as [|c cmds IH]; intros [|r rs] st Hlen Hc He; try done; [by destruct st|]. apply Forall_cons in Hc as [Hc1 Hc]. apply Forall_cons in He as [He1 He].
  injection Hlen as Hlen. rewrite body_words_cons, lines_of_app. split.
  - rewrite iter_opt_app, handle_outcome by done. destruct (IH rs (st.1, ocaml_command c :: st.2) Hlen Hc He) as [E _]. etransitivity; [exact E|].
    cbn [map rev fst snd]. by rewrite <- app_assoc.
  - intros s. rewrite iter_opt_app, snapshot_outcome by done. by apply IH.
Qed.

Lemma body_free cmds : forall rs,
  Forall fixture_command cmds -> Forall (fun r => Forall (event_ok order_range) (g_events r)) rs ->
  Forall (fun l => 10 ∉ l) (lines_of (body_words cmds rs)).
Proof.
  induction cmds as [|c cmds IH]; intros [|r rs] Hc He; [constructor..|]. apply Forall_cons in Hc as [Hc1 Hc]. apply Forall_cons in He as [He1 He].
  rewrite body_words_cons, lines_of_app. apply Forall_app. split; [|by apply IH]. unfold lines_of. apply Forall_map.
  unfold outcome_words. constructor; [by apply line_of_free, cmd_words_tokens|]. eapply Forall_impl; [by apply outcome_tail|].
  intros ws (w & toks & -> & _ & Ht). by apply line_of_free.
Qed.

(** ** The final snapshot is readable *)

Lemma a_prices_in l p : p ∈ a_prices l -> exists o, o ∈ l /\ o_price o = p.
Proof.
  induction l as [|o l IH]; cbn [a_prices]; [intros Hp; by apply not_elem_of_nil in Hp|]. intros Hp.
  assert (p = o_price o \/ p ∈ a_prices l) as [->|Hin].
  { destruct (a_prices l) as [|p' ps]; [set_solver|]. destruct (p' =? o_price o); set_solver. }
  - exists o. split; [apply list_elem_of_here|done].
  - destruct (IH Hin) as (x & Hx & <-). exists x. split; [by apply list_elem_of_further|done].
Qed.

Lemma at_price_length p l : (length (at_price p l) <= length l)%nat.
Proof. unfold at_price. apply length_filter. Qed.

Lemma levels_readable l n :
  Forall (order_from order_range) l -> Forall (fun o => in_u32 (o_quantity o) /\ 0 < o_quantity o) l -> Z.of_nat (length l) <= n -> n < 2 ^ 30 ->
  Forall level_ok (map view_of (a_levels l)) /\ opt62 (a_best l).
Proof.
  intros Hf Hq Hlen Hn. split.
  - apply Forall_map. unfold a_levels. apply Forall_map, Forall_forall. intros p Hp. destruct (a_prices_in _ _ Hp) as (o & Ho & <-). split; cbn [view_of olv_price olv_qty lv_price lv_quantity].
    + rewrite Forall_forall in Hf. apply (Hf o Ho).
    + assert (Forall (fun x => in_u32 (o_quantity x) /\ 0 < o_quantity x) (at_price (o_price o) l)) as Hq'.
      { rewrite Forall_forall in Hq |- *. intros x [_ Hx]%list_elem_of_filter. by apply Hq. }
      pose proof (sum_quantity_bound _ Hq') as Hs. pose proof (at_price_length (o_price o) l). unfold nat62. rewrite u64_small by lia. lia.
  - destruct l as [|o l]; [done|]. apply Forall_cons in Hf as [[[_ Hf] _] _]. exact Hf.
Qed.

Lemma snapshot_readable config n st ae trades :
  n < 2 ^ 30 -> agrees config n st ae trades -> books_ok order_range ae -> snap_ok (snapshot_of (a_snapshot ae) trades).
Proof.
  intros Hn [_ _ [_ Hnx] Hb _ Hwf Hk _ [Hs Hs'] [Ht Ht']] Hok. unfold snapshot_of, snap_ok. cbn [os_last_seq n_trades symbols a_snapshot es_last_seq es_symbols].
  split; [unfold nat62; lia|]. split; [unfold nat62; lia|]. apply Forall_map, Forall_map, Forall_forall. intros [k b] Hin.
  unfold books_ok in Hok. rewrite Forall_forall in Hok. destruct (Hok _ Hin) as [Hbw Hfrom]. cbn [snd] in Hbw, Hfrom.
  rewrite Hb in Hin. unfold om_map in Hin. apply list_elem_of_fmap in Hin as ([k' ob] & E & Hin). injection E as -> ->.
  rewrite Forall_forall in Hwf. rewrite Forall_forall in Hk. destruct (Hwf _ Hin) as [_ Hlen]. specialize (Hk k' (list_elem_of_fmap_2 fst _ _ Hin)).
  unfold a_orders in Hfrom, Hlen. cbn [snd] in Hlen. rewrite app_length in Hlen. apply Forall_app in Hfrom as [Hfb Hfa].
  destruct (levels_readable (a_bids (o_abs ob)) n) as [H1 H2]; [done|apply Hbw|lia|done|]. destruct (levels_readable (a_asks (o_abs ob)) n) as [H3 H4]; [done|apply Hbw|lia|done|].
  unfold sym_ok, sym_of. cbn [fst snd ss_symbol ss_best_bid ss_best_ask ss_order_count ss_bids ss_asks sym best_bid best_ask order_count bid_levels ask_levels].
  split; [unfold nat62; lia|]. split; [done|]. split; [done|]. split; [unfold nat62, a_orders; rewrite app_length; lia|]. done.
Qed.

Lemma snapshot_lines_free s : snap_ok s -> Forall (fun l => 10 ∉ l) (snapshot_to_lines s).
Proof.
  intros (H1 & H2 & Hs). rewrite snapshot_to_lines_words. unfold lines_of. apply Forall_map. unfold all_snapshot_words.
  constructor; [by apply line_of_free, snapshot_words_tokens|]. apply Forall_concat, Forall_map. eapply Forall_impl; [exact Hs|]. intros x Hx. unfold sym_block_words.
  pose proof Hx as (Hsym & _ & _ & _ & Hb & Ha). constructor; [by apply line_of_free, sym_words_tokens|]. apply Forall_app. split; apply Forall_map.
  - eapply Forall_impl; [exact Hb|]. intros l Hl. apply line_of_free, level_words_tokens; [done|literal|done].
  - eapply Forall_impl; [exact Ha|]. intros l Hl. apply line_of_free, level_words_tokens; [done|literal|done].
Qed.

Lemma handle_snapshot_lines st s : snap_ok s -> iter_opt handle (snapshot_to_lines s) (Some st) = Some st.
Proof.
  intros (H1 & H2 & Hs). rewrite snapshot_to_lines_words. apply iter_skip. intros l st' Hl. apply list_elem_of_fmap in Hl as (ws & -> & Hws).
  assert (exists w toks, ws = w :: toks /\ skipped w = true /\ Forall is_token ws) as (w & toks & -> & Hw & Ht); [|by apply handle_skip].
  unfold all_snapshot_words in Hws. apply elem_of_cons in Hws as [->|Hws].
  { exists (text "snapshot"). eexists. split; [done|]. split; [done|]. by apply snapshot_words_tokens. }
  apply list_elem_of_In, in_concat in Hws as (blk & Hblk & Hws). apply list_elem_of_In in Hws. apply list_elem_of_In, list_elem_of_fmap in Hblk as (x & -> & Hx).
  rewrite Forall_forall in Hs. specialize (Hs x Hx). pose proof Hs as (Hsym & _ & _ & _ & Hb & Ha). unfold sym_block_words in Hws.
  apply elem_of_cons in Hws as [->|Hws]; [exists (text "sym"); eexists; split; [done|]; split; [done|]; by apply sym_words_tokens|].
  rewrite Forall_forall in Hb, Ha. apply elem_of_app in Hws as [(l & -> & Hl)%list_elem_of_fmap|(l & -> & Hl)%list_elem_of_fmap];
    exists (text "level"); eexists; (split; [done|]); (split; [done|]); (apply level_words_tokens; [done|literal|auto]).
Qed.
