(* ===== verification/FlowSpec.v ===== *)
(** * FlowSpec: the generators emit commands a fixture can carry

    Both generators of src/replay/recovery.cpp, for every seed: the ids count up
    from one, the prices stay near the mid price, every symbol name is a word. *)
From Stdlib Require Import ZifyBool.
From S2P Require Import Prelude Core Endian Text Book BookSpec Command Engine EventLog Recovery Shrink Renumber Flow ReplayEngine StreamParser ReplaySpec Fixture FixtureSpec.

(** ** Registrations *)

Lemma text_append a b : text (String.append a b) = text a ++ text b.
Proof. unfold text. induction a as [|c a IH]; [done|]. cbn [String.append String.list_ascii_of_string map app]. by rewrite <- IH. Qed.

Lemma text_digits ds : Forall (fun c => is_digit c = true) ds -> text (string_of_bytes ds) = ds.
Proof.
  intros Hd. unfold text, string_of_bytes. rewrite String.list_ascii_of_string_of_list_ascii, map_map.
  induction Hd as [|c ds Hc Hd IH]; [done|]. cbn [map]. rewrite IH. f_equal. unfold char_of_byte. unfold is_digit in Hc.
  rewrite Ascii.N_ascii_embedding by lia. lia.
Qed.

Lemma symbol_name_ok s : in_u32 s -> name_ok (symbol_name s).
Proof.
  intros Hs. unfold name_ok, symbol_name. assert (in_u64 s) as Hs' by (unfold in_u32, in_u64 in *; lia). rewrite text_append.
  rewrite text_digits by (by apply to_string_spec). destruct (to_string_token s Hs') as (_ & H1 & H2). change (text "S") with [83]. cbn [app].
  split; [done|]. split; apply not_elem_of_cons; done.
Qed.

Lemma registrations_ok symbols : in_u32 symbols -> Forall fixture_command (registrations symbols).
Proof.
  intros Hs. unfold registrations. apply Forall_map, Forall_forall. intros s Hin. apply list_elem_of_In, in_seq in Hin. split; [done|].
  apply symbol_name_ok. unfold in_u32 in *. lia.
Qed.

Lemma registrations_length symbols : length (registrations symbols) = Z.to_nat symbols.
Proof. unfold registrations. by rewrite map_length, seq_length. Qed.

(** ** generate_property_flow *)

Definition pf_ok (n : Z) (s : PropertyFlow) : Prop := Forall fixture_command (pf_flow s) /\ 1 <= pf_next_id s <= 1 + n.

Lemma property_price_ok x : 0 <= (property_price x).1 <= 105.
Proof.
  unfold property_price. destruct (draw 12 x) as [v x1]. destruct (v =? 0); [cbn; lia|]. destruct (draw 11 x1) as [w x2] eqn:E.
  apply draw_eq in E; [|lia]. cbn. lia.
Qed.
Lemma property_quantity_ok x : 0 <= (property_quantity x).1 <= 50.
Proof.
  unfold property_quantity. destruct (draw 12 x) as [v x1]. destruct (v =? 0); [cbn; lia|]. destruct (v =? 1); [cbn; lia|]. destruct (draw 10 x1) as [w x2] eqn:E.
  apply draw_eq in E; [|lia]. cbn. unfold u32, wrap. rewrite Z.mod_small by lia. lia.
Qed.

Lemma property_step_ok symbols n s :
  0 <= symbols < 2 ^ 32 - 1 -> 0 <= n < 2 ^ 61 -> pf_ok n s -> pf_ok (n + 1) (property_step symbols s) /\ length (pf_flow (property_step symbols s)) = S (length (pf_flow s)).
Proof.
  intros Hsym Hn [Hf Hid]. unfold property_step. assert (u32 (symbols + 1) = symbols + 1) as -> by (unfold u32, wrap; rewrite Z.mod_small; lia).
  destruct (draw (symbols + 1) (pf_rng s)) as [symbol x1] eqn:E1. apply draw_eq in E1; [|lia]. destruct (draw 2 x1) as [vs x2].
  pose proof (property_price_ok x2) as Hp. destruct (property_price x2) as [price x3]. pose proof (property_quantity_ok x3) as Hq. destruct (property_quantity x3) as [qty x4].
  destruct (draw 3 x4) as [vt x5]. destruct (draw 12 x5) as [pick x6] eqn:E6. cbn [fst] in Hp, Hq.
  assert (forall c id x, fixture_command c -> 1 <= id <= 1 + (n + 1) -> pf_ok (n + 1) (mkPropertyFlow x (pf_flow s ++ [c]) id) /\
    length (pf_flow (mkPropertyFlow x (pf_flow s ++ [c]) id)) = S (length (pf_flow s))) as Hpush.
  { intros c id x Hc Hi. unfold pf_ok. cbn [pf_flow pf_next_id]. split; [|rewrite app_length; cbn; lia]. split; [|lia]. apply Forall_app. split; [done|by apply Forall_singleton]. }
  assert (in_u32 symbol) as Hsy by (unfold in_u32; lia). assert (in_i64 price) as Hpr by (unfold in_i64; lia). assert (in_u32 qty) as Hqt by (unfold in_u32; lia).
  assert (int62 price) as Hp62 by (unfold int62; lia). set (side := if vs =? 0 then Buy else Sell). set (tif := if vt =? 0 then IOC else GTC).
  assert (is_valid_side side = true) as Hside by (unfold side; by destruct (vs =? 0)). assert (is_valid_tif tif = true) as Htif by (unfold tif; by destruct (vt =? 0)).
  assert (forall id, 0 <= id < 2 ^ 62 -> in_u64 id /\ nat62 id) as Hidr by (intros id Hi; unfold in_u64, nat62; lia).
  assert (forall w, 0 <= w < 2 ^ 62 - 1 -> u64 (1 + w) = 1 + w) as Hu by (intros w Hw; unfold u64, wrap; rewrite Z.mod_small; lia).
  destruct (pick <? 6); [destruct ((pick =? 5) && (1 <? pf_next_id s)) eqn:E5|destruct (pick <? 7); [|destruct (pick <? 9)]].
  - destruct (draw (pf_next_id s - 1) x6) as [w x7] eqn:E7. apply draw_eq in E7; [|lia]. rewrite Hu by lia. destruct (Hidr (1 + w)); [lia|].
    apply Hpush; [|lia]. split; cbn; auto 10.
  - destruct (Hidr (pf_next_id s)); [lia|]. apply Hpush; [split; cbn; auto 10|]. unfold u64, wrap. rewrite Z.mod_small by lia. lia.
  - destruct (Hidr (pf_next_id s)); [lia|]. apply Hpush; [split; cbn; auto 10|]. unfold u64, wrap. rewrite Z.mod_small by lia. lia.
  - destruct (draw (pf_next_id s) x6) as [w x7] eqn:E7. apply draw_eq in E7; [|lia]. rewrite Hu by lia. destruct (Hidr (1 + w)); [lia|].
    apply Hpush; [|lia]. split; cbn; auto 10.
  - destruct (draw (pf_next_id s) x6) as [w x7] eqn:E7. apply draw_eq in E7; [|lia]. rewrite Hu by lia. destruct (Hidr (1 + w)); [lia|].
    apply Hpush; [|lia]. split; cbn; auto 10.
Qed.

Lemma property_flow_ok seed symbols orders :
  0 <= symbols < 2 ^ 32 - 1 -> Z.of_nat orders < 2 ^ 61 ->
  Forall fixture_command (generate_property_flow seed symbols orders) /\
  length (generate_property_flow seed symbols orders) = (Z.to_nat symbols + orders)%nat.
Proof.
  intros Hs Ho. unfold generate_property_flow. set (s0 := mkPropertyFlow _ _ _).
  assert (pf_ok (Z.of_nat orders) (Nat.iter orders (property_step symbols) s0) /\
    length (pf_flow (Nat.iter orders (property_step symbols) s0)) = (Z.to_nat symbols + orders)%nat) as [[H _] Hlen]; [|done].
  induction orders as [|k IH]; [|destruct IH as [IH1 IH2]; [lia|]].
  - change (Nat.iter 0 (property_step symbols) s0) with s0. split; [split|]; unfold s0; cbn [pf_flow pf_next_id]; [apply registrations_ok; unfold in_u32; lia|lia|rewrite registrations_length; lia].
  - change (Nat.iter (S k) (property_step symbols) s0) with (property_step symbols (Nat.iter k (property_step symbols) s0)).
    set (s := Nat.iter k (property_step symbols) s0) in *. replace (Z.of_nat (S k)) with (Z.of_nat k + 1) by lia.
    destruct (property_step_ok symbols (Z.of_nat k) s Hs ltac:(lia) IH1) as [H1 H2]. split; [exact H1|]. rewrite H2, IH2. lia.
Qed.

(** ** generate_flow *)

Section Generator.
Context {B : Type} `{BookStore B}.
Implicit Types g : FlowGenerator B.

Definition active_ok (o : ActiveOrder) : Prop := in_u32 (ao_symbol o) /\ nat62 (ao_id o) /\ in_u32 (ao_quantity o).

Record gen_ok (n : Z) g : Prop := {
  go_symbols : 1 <= symbols_ g < 2 ^ 32;
  go_active : Forall active_ok (active_ g);
  go_mid : Forall (fun m => 0 <= m <= 2 ^ 33) (mid_ g);
  go_next : 1 <= next_id_ g <= 1 + n
}.

Lemma roll_eq n k g v g' : roll k g = (v, g') -> 0 < k -> gen_ok n g -> gen_ok n g' /\ 0 <= v < k /\ active_ g' = active_ g.
Proof.
  unfold roll. destruct (draw k (rng_ g)) as [v0 x] eqn:E. intros [= <- <-] Hk Hg. apply draw_eq in E; [|done]. split; [|done]. destruct Hg. by split.
Qed.

Lemma take_id_eq n g id g' : take_id g = (id, g') -> 0 <= n < 2 ^ 61 -> gen_ok n g -> gen_ok (n + 1) g' /\ nat62 id.
Proof.
  unfold take_id. intros [= <- <-] Hn [H1 H2 H3 H4]. split; [|unfold nat62; lia]. split; cbn; [done|done|done|]. unfold u64, wrap. rewrite Z.mod_small by lia. lia.
Qed.

Lemma gen_ok_mono n g : gen_ok n g -> gen_ok (n + 1) g.
Proof. intros [H1 H2 H3 H4]. split; [done|done|done|lia]. Qed.

(** A draw keeps the invariant and names its range. *)
Ltac rolled n v g Hg Hv :=
  match goal with
  | |- context [roll ?k ?g0] =>
      let E := fresh "E" in let Ha := fresh "Ha" in
      destruct (roll k g0) as [v g] eqn:E; apply (roll_eq n) in E as (Hg & Hv & Ha); [|lia|assumption]
  end.

Lemma choose_symbol_ok n g : gen_ok n g -> gen_ok n (choose_symbol g).2 /\ in_u32 (choose_symbol g).1.
Proof.
  intros Hg. unfold choose_symbol. destruct (symbols_ g =? 1) eqn:E1; [split; [done|]; unfold in_u32; cbn; lia|].
  assert (symbols_ (roll 100 g).2 = symbols_ g) as Hs by (unfold roll; by destruct (draw 100 (rng_ g))).
  rolled n v g1 Hg1 Hv1. cbn [snd] in Hs. destruct (v <? 55); [split; [done|]; unfold in_u32; cbn; lia|]. pose proof (go_symbols _ _ Hg1) as Hsym.
  assert (u32 (symbols_ g1 - 1) = symbols_ g1 - 1) as -> by (unfold u32, wrap; rewrite Z.mod_small; lia). rewrite Hs in *.
  rolled n w g2 Hg2 Hv2. split; [done|]. cbn. unfold in_u32, u32, wrap. by apply Z.mod_pos_bound.
Qed.

Lemma mid_at_ok n g symbol : gen_ok n g -> 0 <= mid_at g symbol <= 2 ^ 33.
Proof.
  intros Hg. unfold mid_at. destruct (nth_in_or_default (Z.to_nat symbol) (mid_ g) 0) as [Hin| ->]; [|lia].
  pose proof (go_mid _ _ Hg) as Hm. rewrite Forall_forall in Hm. by apply Hm, list_elem_of_In.
Qed.

Lemma drift_mid_ok n symbol g : gen_ok n g -> gen_ok n (drift_mid symbol g).
Proof.
  intros Hg. unfold drift_mid. rolled n v g1 Hg1 Hv. destruct Hg1 as [H1 H2 H3 H4]. split; cbn; try done. rewrite Forall_forall in H3 |- *. intros m Hm.
  apply list_elem_of_lookup in Hm as [i Hi]. apply list_lookup_insert_Some in Hi as [(_ & <- & _)|[_ Hi]]; [lia|]. eapply H3, list_elem_of_lookup_2, Hi.
Qed.

Lemma flow_price_ok n crosses symbol side g : gen_ok n g -> gen_ok n (flow_price crosses symbol side g).2 /\ - 4 <= (flow_price crosses symbol side g).1 <= 2 ^ 33 + 4.
Proof.
  intros Hg. unfold flow_price, crossing_price, resting_price. destruct crosses; rolled n v g1 Hg1 Hv; (split; [done|]);
    pose proof (mid_at_ok n g1 symbol Hg1) as Hm; cbn; destruct (is_buy side); lia.
Qed.

Lemma choose_tif_ok n crosses g : gen_ok n g -> gen_ok n (choose_tif crosses g).2 /\ is_valid_tif (choose_tif crosses g).1 = true.
Proof.
  intros Hg. unfold choose_tif. destruct crosses.
  - rolled n v g1 Hg1 Hv. destruct (v <? 35); [done|]. rolled n w g2 Hg2 Hw. cbn. by destruct (w <? 8).
  - rolled n w g2 Hg2 Hw. cbn. by destruct (w <? 8).
Qed.

Lemma choose_side_ok n g : gen_ok n g -> gen_ok n (choose_side g).2 /\ is_valid_side (choose_side g).1 = true.
Proof. intros Hg. unfold choose_side. rolled n v g1 Hg1 Hv. cbn. by destruct (v =? 0). Qed.

Lemma flow_quantity v k : 0 <= v < k -> k <= 2 ^ 31 -> in_u32 (u32 (1 + v)).
Proof. intros Hv Hk. unfold in_u32, u32, wrap. by apply Z.mod_pos_bound. Qed.

Lemma make_limit_ok n symbol g :
  0 <= n < 2 ^ 61 -> in_u32 symbol -> gen_ok n g -> gen_ok (n + 1) (make_limit symbol g).2 /\ fixture_command (make_limit symbol g).1.
Proof.
  intros Hn Hs Hg. unfold make_limit. pose proof (choose_side_ok n g Hg) as [Hg1 Hside]. destruct (choose_side g) as [side g1]. cbn [fst snd] in *.
  rolled n v g2 Hg2 Hv. pose proof (choose_tif_ok n (v <? 18) g2 Hg2) as [Hg3 Htif]. destruct (choose_tif (v <? 18) g2) as [tif g3]. cbn [fst snd] in *.
  pose proof (flow_price_ok n (v <? 18) symbol side g3 Hg3) as [Hg4 Hp]. destruct (flow_price (v <? 18) symbol side g3) as [price g4]. cbn [fst snd] in *.
  rolled n w g5 Hg5 Hw. destruct (take_id g5) as [id g6] eqn:E. apply (take_id_eq n) in E as [Hg6 Hid]; [|done|done]. cbn [fst snd]. split; [done|].
  split; cbn; [|split; [done|unfold int62; lia]]. split; [done|]. split; [by apply nat62_u64|]. split; [done|]. split; [unfold in_i64; lia|].
  split; [by apply (flow_quantity w 12); [|lia]|done].
Qed.

Lemma make_market_ok n symbol g :
  0 <= n < 2 ^ 61 -> in_u32 symbol -> gen_ok n g -> gen_ok (n + 1) (make_market symbol g).2 /\ fixture_command (make_market symbol g).1.
Proof.
  intros Hn Hs Hg. unfold make_market. pose proof (choose_side_ok n g Hg) as [Hg1 Hside]. destruct (choose_side g) as [side g1]. cbn [fst snd] in *.
  rolled n w g5 Hg5 Hw. destruct (take_id g5) as [id g6] eqn:E. apply (take_id_eq n) in E as [Hg6 Hid]; [|done|done]. cbn [fst snd]. split; [done|].
  split; cbn; [|done]. split; [done|]. split; [by apply nat62_u64|]. split; [done|]. by apply (flow_quantity w 12); [|lia].
Qed.

Lemma target_active_ok n g : active_ g <> [] -> gen_ok n g -> gen_ok n (target_active g).2 /\ active_ok (target_active g).1.
Proof.
  intros Hne Hg. unfold target_active. assert (0 < Z.of_nat (length (active_ g))) as Hlen by (destruct (active_ g); [done|cbn; lia]).
  rolled n v g1 Hg1 Hv. split; [done|]. cbn [fst]. rewrite Ha. destruct (nth_in_or_default (Z.to_nat v) (active_ g) (mkActiveOrder 0 0 Buy 0 0)) as [Hin|Hd].
  - pose proof (go_active _ _ Hg) as Hact. rewrite Forall_forall in Hact. by apply Hact, list_elem_of_In.
  - rewrite Hd. unfold active_ok, in_u32, nat62. cbn. lia.
Qed.

Lemma make_cancel_ok n g : 0 <= n < 2 ^ 61 -> active_ g <> [] -> gen_ok n g -> gen_ok (n + 1) (make_cancel g).2 /\ fixture_command (make_cancel g).1.
Proof.
  intros Hn Hne Hg. unfold make_cancel. pose proof (target_active_ok n g Hne Hg) as [Hg1 (Ht1 & Ht2 & Ht3)]. destruct (target_active g) as [target g1]. cbn [fst snd] in *.
  rolled n v g2 Hg2 Hv. destruct (v =? 0).
  - rolled n w g3 Hg3 Hw. cbn [fst snd]. split; [by apply gen_ok_mono|]. pose proof (go_next _ _ Hg3) as Hnx. unfold u64, wrap. rewrite Z.mod_small by lia.
    unfold fixture_command, nat62. cbn [command_ok]. unfold in_u64. split; [split; [done|lia]|lia].
  - cbn [fst snd]. split; [by apply gen_ok_mono|]. split; [|done]. cbn. split; [done|by apply nat62_u64].
Qed.

Lemma make_modify_ok n g : 0 <= n < 2 ^ 61 -> active_ g <> [] -> gen_ok n g -> gen_ok (n + 1) (make_modify g).2 /\ fixture_command (make_modify g).1.
Proof.
  intros Hn Hne Hg. unfold make_modify. pose proof (target_active_ok n g Hne Hg) as [Hg1 (Ht1 & Ht2 & Ht3)]. destruct (target_active g) as [target g1]. cbn [fst snd] in *.
  rolled n v g2 Hg2 Hv. pose proof (flow_price_ok n (v <? 20) (ao_symbol target) (ao_side target) g2 Hg2) as [Hg4 Hp].
  destruct (flow_price (v <? 20) (ao_symbol target) (ao_side target) g2) as [price g4]. cbn [fst snd] in *.
  assert (forall q, in_u32 q -> fixture_command (Modify (ao_symbol target) (ao_id target) price q)) as Hcmd.
  { intros q Hq. split; cbn; [|split; [done|unfold int62; lia]]. split; [done|]. split; [by apply nat62_u64|]. split; [unfold in_i64; lia|done]. }
  rolled n w g5 Hg5 Hw. destruct (w <? 45).
  - cbn [fst snd]. split; [by apply gen_ok_mono|]. apply Hcmd. unfold in_u32, u32, wrap. by apply Z.mod_pos_bound.
  - rolled n u g6 Hg6 Hu. cbn [fst snd]. split; [by apply gen_ok_mono|]. apply Hcmd. by apply (flow_quantity u 12); [|lia].
Qed.

Lemma next_command_ok n symbol g :
  0 <= n < 2 ^ 61 -> in_u32 symbol -> gen_ok n g -> gen_ok (n + 1) (next_command symbol g).2 /\ fixture_command (next_command symbol g).1.
Proof.
  intros Hn Hs Hg. unfold next_command. rolled n v g1 Hg1 Hv. destruct (is_nil (active_ g1) || (v <? 58)) eqn:E; [by apply make_limit_ok|].
  apply orb_false_iff in E as [E _]. assert (active_ g1 <> []) as Hne by (by destruct (active_ g1)).
  destruct (v <? 70); [by apply make_market_ok|]. destruct (v <? 86); [by apply make_cancel_ok|by apply make_modify_ok].
Qed.

Lemma apply_and_track_ok n c g : fixture_command c -> gen_ok n g -> gen_ok n (apply_and_track c g).
Proof.
  intros [Hok Hf] [H1 H2 H3 H4]. unfold apply_and_track. destruct c; try (by split). destruct (Engine.contains _ _ _); [|by split]. split; cbn; try done.
  apply Forall_app. split; [done|]. apply Forall_singleton. cbn [command_ok] in Hok. destruct Hok as (? & _ & _ & _ & ? & _). unfold active_ok. cbn. by destruct Hf.
Qed.

Lemma refresh_active_ok n g : gen_ok n g -> gen_ok n (refresh_active g).
Proof.
  intros [H1 H2 H3 H4]. unfold refresh_active. split; cbn; try done. rewrite Forall_forall in H2 |- *. intros o [_ Ho]%list_elem_of_filter. auto.
Qed.

Lemma append_next_ok n flow g :
  0 <= n < 2 ^ 61 -> Forall fixture_command flow -> gen_ok n g ->
  let r := append_next (flow, g) in Forall fixture_command r.1 /\ length r.1 = S (length flow) /\ gen_ok (n + 1) r.2.
Proof.
  intros Hn Hf Hg. unfold append_next. pose proof (choose_symbol_ok n g Hg) as [Hg1 Hs]. destruct (choose_symbol g) as [symbol g1]. cbn [fst snd] in *. cbv zeta.
  pose proof (next_command_ok n symbol (refresh_active (drift_mid symbol g1)) Hn Hs ltac:(by apply refresh_active_ok, drift_mid_ok)) as [Hg2 Hc].
  destruct (next_command symbol (refresh_active (drift_mid symbol g1))) as [c g2]. cbn [fst snd] in *. split; [|split].
  - apply Forall_app. split; [done|]. by apply Forall_singleton.
  - rewrite app_length. cbn. lia.
  - by apply apply_and_track_ok.
Qed.

Lemma register_symbols_fields flow : forall g,
  symbols_ (register_symbols flow g) = symbols_ g /\ active_ (register_symbols flow g) = active_ g /\ next_id_ (register_symbols flow g) = next_id_ g.
Proof. unfold register_symbols. induction flow as [|c flow IH]; intros g; [done|]. cbn [fold_left]. destruct (IH (set_model (Engine.apply (model_ g) c).2 g)) as (-> & -> & ->). done. Qed.

Lemma flow_start_ok seed symbols :
  1 <= symbols < 2 ^ 32 -> gen_ok 0 (initialize_mid_prices (register_symbols (registrations symbols) (new_flow_generator seed symbols))).
Proof.
  intros Hs. destruct (register_symbols_fields (registrations symbols) (new_flow_generator seed symbols)) as (H1 & H2 & H3).
  unfold initialize_mid_prices. split; cbn [symbols_ active_ mid_ next_id_ set_mid]; [by rewrite H1|by rewrite H2| |rewrite H3; cbn; lia].
  apply Forall_map, Forall_forall. intros s _. unfold u32, wrap. pose proof (Z.mod_pos_bound (Z.of_nat s * 5) (2 ^ 32) ltac:(lia)). lia.
Qed.

Lemma generate_flow_ok seed symbols orders :
  in_u32 symbols -> Z.of_nat orders < 2 ^ 61 ->
  Forall fixture_command (generate_flow (B := B) seed symbols orders) /\ (length (generate_flow (B := B) seed symbols orders) <= Z.to_nat symbols + orders)%nat.
Proof.
  intros Hs Ho. unfold generate_flow, generate. cbn [symbols_ new_flow_generator]. destruct (symbols =? 0) eqn:E0; [rewrite registrations_length; split; [by apply registrations_ok|lia]|].
  set (s0 := (registrations symbols, _)). assert (Forall fixture_command s0.1 /\ length s0.1 = Z.to_nat symbols /\ gen_ok 0 s0.2) as (H1 & H2 & H3).
  { split; [by apply registrations_ok|]. split; [apply registrations_length|]. apply flow_start_ok. unfold in_u32 in Hs. lia. }
  assert (let r := Nat.iter orders append_next s0 in Forall fixture_command r.1 /\ length r.1 = (Z.to_nat symbols + orders)%nat /\ gen_ok (Z.of_nat orders) r.2) as (R1 & R2 & _); [|split; [done|lia]].
  clearbody s0. induction orders as [|k IH]; [split; [exact H1|]; split; [cbn; lia|exact H3]|]. destruct IH as (R1 & R2 & R3); [lia|].
  change (Nat.iter (S k) append_next s0) with (append_next (Nat.iter k append_next s0)). destruct (Nat.iter k append_next s0) as [flow g]. cbn [fst snd] in *.
  destruct (append_next_ok (Z.of_nat k) flow g ltac:(lia) R1 R3) as (Q1 & Q2 & Q3). cbv zeta. split; [done|]. split; [rewrite Q2, R2; lia|].
  by replace (Z.of_nat (S k)) with (Z.of_nat k + 1) by lia.
Qed.
End Generator.

(** ** Shrunk flows *)

Section Renumbered.
Context (remap : list (Z * Z)) (Hremap : forall x s, om_find x remap = Some s -> in_u32 s).

Lemma remap_symbol_ok s : in_u32 s -> in_u32 (remap_symbol remap s).
Proof. intros Hs. unfold remap_symbol. destruct (om_find s remap) eqn:E; [by eapply Hremap|done]. Qed.

Lemma renumbered_ok p :
  Z.of_nat (length p) < 2 ^ 32 -> Forall fixture_command p -> Forall fixture_command (rn_out (renumber_run remap p)).
Proof.
  induction p as [|c p IH] using rev_ind; intros Hl Hp; [constructor|]. rewrite renumber_run_snoc. apply Forall_app in Hp as [Hp Hc]. apply Forall_cons in Hc as [Hc _].
  rewrite app_length in Hl. cbn [length] in Hl. specialize (IH ltac:(lia) Hp). pose proof (run_ids remap p ltac:(lia)) as Hids.
  destruct c as [name|sym id side price q tif|sym id side q|sym id|sym id price q]; cbn [renumber_command remap_non_register_command].
  1: { cbn [rn_out]. unfold append_renumbered_registration. destruct (om_find _ remap) as [s|] eqn:E; [|done]. apply Forall_app. split; [done|]. apply Forall_singleton.
       split; [done|]. apply symbol_name_ok. by eapply Hremap. }
  all: pose proof (map_id_ok _ _ id Hids ltac:(lia)) as Hm; destruct (map_id _ id) as [j r']; destruct Hm as ([Hb Hv] & Hj & _); specialize (Hv _ _ Hj).
  all: cbn [rn_out]; apply Forall_app; (split; [done|]); apply Forall_singleton; destruct Hc as [Hok Hf]; cbn [command_ok fixture_command] in *.
  all: assert (in_u64 j /\ nat62 j) as [Hj1 Hj2] by (unfold in_u64, nat62; lia).
  - destruct Hok as (H1 & H2 & H3 & H4 & H5 & H6), Hf as [_ Hf]. split; [cbn; auto 10 using remap_symbol_ok|done].
  - destruct Hok as (H1 & H2 & H3 & H4). split; [cbn; auto 10 using remap_symbol_ok|done].
  - destruct Hok as (H1 & H2). split; [cbn; auto 10 using remap_symbol_ok|done].
  - destruct Hok as (H1 & H2 & H3 & H4), Hf as [_ Hf]. split; [cbn; auto 10 using remap_symbol_ok|done].
Qed.
End Renumbered.

Lemma renumber_fixture cmds : Z.of_nat (length cmds) < 2 ^ 32 -> Forall fixture_command cmds -> Forall fixture_command (renumber cmds).
Proof.
  intros Hl Hf. rewrite renumber_spec. destruct (has_duplicate_symbol_registration_names cmds); [done|]. apply renumbered_ok; [|done|done].
  intros x s. rewrite build_symbol_remap_spec by done. destruct (in_range x (regs cmds)) eqn:E; cbn [andb]; [|done]. case_bool_decide; [|done]. intros [= <-].
  pose proof (rank_bounds (collect_referenced_symbols cmds) (Z.to_nat x)). pose proof (regs_length cmds). unfold in_range in E. unfold in_u32. lia.
Qed.

Lemma min_qty_fixture c : fixture_command c -> fixture_command (with_min_qty c).
Proof. destruct c; [done|..]; unfold fixture_command; cbn; intros [Hok Hf]; destruct_and?; unfold in_u32, in_u64, in_i64, nat62, int62 in *; repeat split; try done; lia. Qed.
Lemma min_price_fixture c : fixture_command c -> fixture_command (with_min_price c).
Proof. destruct c; [done|..]; unfold fixture_command; cbn; intros [Hok Hf]; destruct_and?; unfold in_u32, in_u64, in_i64, nat62, int62 in *; repeat split; try done; lia. Qed.

(** Shrinking keeps a flow printable and does not lengthen it. *)
Lemma shrink_fixture fails cmds n :
  Z.of_nat n < 2 ^ 32 -> (length cmds <= n)%nat -> Forall fixture_command cmds ->
  Forall fixture_command (shrink fails cmds).1 /\ (length (shrink fails cmds).1 <= n)%nat.
Proof.
  intros Hn Hl Hf. apply (shrink_inv fails (fun cur => Forall fixture_command cur /\ (length cur <= n)%nat)); [| | | |done].
  - intros cur i k [Hc Hlc]. unfold without. split; [apply Forall_app; split; [by apply Forall_take|by apply Forall_drop]|].
    rewrite app_length, length_take, length_drop. lia.
  - intros cur i c [Hc Hlc] Hi. split; [|by rewrite length_insert]. apply Forall_insert; [done|]. apply min_qty_fixture. rewrite Forall_lookup in Hc. by eapply Hc.
  - intros cur i c [Hc Hlc] Hi. split; [|by rewrite length_insert]. apply Forall_insert; [done|]. apply min_price_fixture. rewrite Forall_lookup in Hc. by eapply Hc.
  - intros cur [Hc Hlc]. split; [apply renumber_fixture; [lia|done]|]. pose proof (renumber_length cur) as [H _]. lia.
Qed.

(** ** The shape of a generated flow *)

Definition is_order (c : Command) : bool := match c with RegisterSymbol _ => false | _ => true end.

Lemma symbol_name_short s : in_u32 s -> Z.of_nat (String.length (symbol_name s)) < kMaxPayload.
Proof.
  intros Hs. assert (forall str, length (text str) = String.length str) as Ht.
  { intros str. unfold text. rewrite List.length_map. induction str; cbn; congruence. }
  rewrite <- Ht. unfold symbol_name. rewrite text_append, length_app.
  assert (in_u64 s) as Hs' by (unfold in_u32, in_u64 in *; lia). rewrite text_digits by (by apply to_string_spec). unfold to_string.
  assert (forall fuel n, (length (digits fuel n) <= fuel)%nat) as Hd.
  { induction fuel as [|fuel IH]; intros n; cbn [digits]; [done|]. destruct (n <? 10); [cbn; lia|]. rewrite length_app. specialize (IH (n / 10)). cbn. lia. }
  specialize (Hd 20%nat s). unfold kMaxPayload. change (length (text "S")) with 1%nat. lia.
Qed.

Section Flows.
Context {B : Type} `{BookStore B}.

Lemma next_command_order symbol (g : FlowGenerator B) : is_order (next_command symbol g).1 = true.
Proof.
  unfold next_command. destruct (roll 100 g) as [pick g1]. destruct (is_nil (active_ g1) || (pick <? 58)); [|destruct (pick <? 70); [|destruct (pick <? 86)]].
  - unfold make_limit. destruct (choose_side g1) as [? g2]. destruct (roll 100 g2) as [v g3]. destruct (choose_tif (v <? 18) g3) as [? g4]. destruct (flow_price _ _ _ _) as [? g5]. by destruct (roll 12 g5).
  - unfold make_market. destruct (choose_side g1) as [? g2]. by destruct (roll 12 g2).
  - unfold make_cancel. destruct (target_active g1) as [? g2]. destruct (roll 10 g2) as [v g3]. destruct (v =? 0); [by destruct (roll 5 g3)|done].
  - unfold make_modify. destruct (target_active g1) as [? g2]. destruct (roll 100 g2) as [? g3]. destruct (flow_price _ _ _ _) as [? g4]. destruct (roll 100 g4) as [v g5].
    destruct (v <? 45); [done|by destruct (roll 12 g5)].
Qed.

(** The registrations come first, and only then the orders. *)
Lemma generate_flow_shape seed symbols orders :
  exists cmds, generate_flow (B := B) seed symbols orders = registrations symbols ++ cmds /\ Forall (fun c => is_order c = true) cmds.
Proof.
  unfold generate_flow, generate. cbn [symbols_ new_flow_generator]. destruct (symbols =? 0); [exists []; by rewrite app_nil_r|]. set (g0 := initialize_mid_prices _). clearbody g0.
  induction orders as [|k (cmds & E & IH)]; [exists []; by rewrite app_nil_r|]. change (Nat.iter (S k) append_next ?s) with (append_next (Nat.iter k append_next s)).
  destruct (Nat.iter k append_next _) as [flow g]. cbn [fst] in E. subst flow. unfold append_next. destruct (choose_symbol g) as [symbol g1]. cbv zeta.
  pose proof (next_command_order symbol (refresh_active (drift_mid symbol g1))) as Hc. destruct (next_command symbol (refresh_active (drift_mid symbol g1))) as [c g2].
  exists (cmds ++ [c]). split; [cbn; by rewrite app_assoc|]. apply Forall_app. split; [done|by apply Forall_singleton].
Qed.

Lemma generate_flow_loggable seed symbols orders :
  in_u32 symbols -> Z.of_nat orders < 2 ^ 61 -> Forall loggable (generate_flow (B := B) seed symbols orders).
Proof.
  intros Hs Ho. destruct (generate_flow_ok (B := B) seed symbols orders Hs Ho) as [Hf _]. destruct (generate_flow_shape seed symbols orders) as (cmds & E & Hc).
  rewrite E in *. apply Forall_app in Hf as [Hr Hf]. apply Forall_app. split; apply Forall_forall.
  - intros c Hin. split; [rewrite Forall_forall in Hr; by apply Hr|]. apply list_elem_of_fmap in Hin as (s & -> & Hs1%elem_of_seq). apply symbol_name_short. unfold in_u32 in *. lia.
  - intros c Hin. rewrite Forall_forall in Hf, Hc. split; [by apply Hf|]. specialize (Hc c Hin). by destruct c.
Qed.

(** The registered names are distinct. *)
Lemma generate_flow_names seed symbols orders : 0 <= symbols < 2 ^ 32 -> NoDup (reg_names (generate_flow (B := B) seed symbols orders)).
Proof.
  intros Hs. destruct (generate_flow_shape seed symbols orders) as (cmds & -> & Hc). unfold reg_names. rewrite omap_app.
  assert (forall l, Forall (fun c => is_order c = true) l -> reg_names l = []) as Hn.
  { induction 1 as [|c l H1 _ IH]; [done|]. destruct c; cbn in *; done. }
  unfold reg_names in Hn. rewrite (Hn cmds Hc), app_nil_r. replace (omap reg_name (registrations symbols)) with (map symbol_name (seqZ 0 symbols)); [apply symbol_names_NoDup; lia|].
  unfold registrations, seqZ. unfold fmap. rewrite map_map. induction (List.seq 0 (Z.to_nat symbols)) as [|i l IH]; [done|]. cbn. f_equal; [f_equal; lia|exact IH].
Qed.
End Flows.
