(* ===== verification/Verifier.v ===== *)
(** * Verifier: the OCaml replay verifier and the event log it reads

    ocaml/lib/event.ml, ocaml/lib/parser.ml, ocaml/lib/invariant.ml and
    ocaml/bin/verify_replay.ml: parse the event log that qsl-export-fixture
    prints and recheck its invariants.  A file is its bytes; [None] is the
    exception [Parse_error]; a hash table is a finite map. *)
From S2P Require Import Prelude Core Endian Text StreamParser.

(** ** event.ml *)

Inductive kind := KAccept | KCancel | KModify.

Inductive event :=
| Lifecycle (k : kind) (seq symbol order_id : Z)
| VTrade (seq symbol taker maker price qty : Z).

Inductive record := Rej (id : Z) | Ev (e : event).

Definition seq (e : event) : Z := match e with Lifecycle _ s _ _ => s | VTrade s _ _ _ _ _ => s end.

Record fixture := mkFixture {
  records : list record;
  fx_last_seq : Z;
  fx_trades : Z
}.

Definition events_of (fx : fixture) : list event :=
  omap (fun r => match r with Ev e => Some e | Rej _ => None end) (records fx).

(** ** parser.ml *)

(** The references of [parse_lines]: the records, newest first, and the summary. *)
Abbreviation vstate := (list record * Z * Z)%type (only parsing).

Definition push (r : record) (st : vstate) : vstate := let '(rs, ls, t) := st in (r :: rs, ls, t).

Definition lifecycle (k : kind) (s sym id : bytes) (st : vstate) : option vstate :=
  s ← int_of s; sym ← int_of sym; id ← int_of id; Some (push (Ev (Lifecycle k s sym id)) st).

(** The closure [handle] of [parse_lines]. *)
Definition handle_record (st : vstate) (line : bytes) : option vstate :=
  match words line with
  | [] => Some st
  | first :: rest =>
      if bool_decide (head first = Some 35) then Some st
      else
        match rest with
        | [_] => if is_word first "v" then Some st else if is_word first "meta" then Some st else None
        | [a; b] =>
            if is_word first "meta" then Some st
            else if is_word first "reject" then id ← int_of a; Some (push (Rej id) st)
            else None
        | [a; b; c] =>
            if is_word first "meta" then Some st
            else if is_word first "accept" then lifecycle KAccept a b c st
            else if is_word first "cancel" then lifecycle KCancel a b c st
            else if is_word first "modify" then lifecycle KModify a b c st
            else None
        | [a; b; c; d] =>
            if is_word first "meta" then Some st
            else if is_word first "summary" && is_word a "last_seq" && is_word c "trades" then
              ls ← int_of b; t ← int_of d; Some (st.1.1, ls, t)
            else None
        | [a; b; c; d; e; f] =>
            if is_word first "meta" then Some st
            else if is_word first "trade" then
              s ← int_of a; sym ← int_of b; tk ← int_of c; mk ← int_of d; px ← int_of e; q ← int_of f;
              Some (push (Ev (VTrade s sym tk mk px q)) st)
            else None
        | _ => if is_word first "meta" then Some st else None
        end
  end.

Definition parse_record_lines (lines : list bytes) : option fixture :=
  st ← iter_opt handle_record lines (Some ([], 0, 0));
  Some (mkFixture (rev st.1.1) st.1.2 st.2).

Definition parse_record_file (contents : bytes) : option fixture := parse_record_lines (input_lines contents).

(** ** invariant.ml *)

(** A check: its name, whether it holds, and a detail. *)
Record result := mkResult { r_name : bytes; r_ok : bool; r_detail : bytes }.

(** [%d] of [Printf]. *)
Abbreviation pr := to_string_signed (only parsing).

Fixpoint monotonic_go (prev : Z) (es : list event) : bool * bytes :=
  match es with
  | [] => (true, [])
  | e :: tl =>
      let s := seq e in
      if prev <? s then monotonic_go s tl
      else (false, text "seq " ++ pr s ++ text " not > previous " ++ pr prev)
  end.

Definition monotonic_seq (fx : fixture) : result :=
  let '(ok, detail) := monotonic_go 0 (events_of fx) in
  mkResult (text "sequence strictly increasing") ok detail.

Definition bad_qty (e : event) : bool := match e with VTrade _ _ _ _ _ q => q <=? 0 | _ => false end.

Definition positive_qty (fx : fixture) : result :=
  match List.find bad_qty (events_of fx) with
  | Some (VTrade s _ _ _ _ q) =>
      mkResult (text "positive trade quantity") false (text "seq " ++ pr s ++ text " has qty " ++ pr q)
  | _ => mkResult (text "positive trade quantity") true []
  end.

Inductive lifetime := Active | Canceled | Rejected.

#[export] Instance lifetime_eq_dec : EqDecision lifetime.
Proof. solve_decision. Defined.

(** The table and the two messages. *)
Record lifetimes := mkLifetimes { lt_table : gmap Z lifetime; lt_canceled : bytes; lt_rejected : bytes }.

Definition note (r msg : bytes) : bytes := if is_nil r then msg else r.

Definition on_active_use (id s : Z) (t : lifetimes) : lifetimes :=
  match lt_table t !! id with
  | Some Canceled =>
      mkLifetimes (lt_table t)
        (note (lt_canceled t) (text "canceled order " ++ pr id ++ text " acted at seq " ++ pr s)) (lt_rejected t)
  | Some Rejected =>
      mkLifetimes (lt_table t) (lt_canceled t)
        (note (lt_rejected t) (text "rejected order " ++ pr id ++ text " rests/trades at seq " ++ pr s))
  | _ => t
  end.

Definition set_lifetime (id : Z) (l : lifetime) (t : lifetimes) : lifetimes :=
  mkLifetimes (<[id := l]> (lt_table t)) (lt_canceled t) (lt_rejected t).

Definition lifetime_step (t : lifetimes) (r : record) : lifetimes :=
  match r with
  | Rej id => if bool_decide (lt_table t !! id = Some Active) then t else set_lifetime id Rejected t
  | Ev (Lifecycle KAccept _ _ id) => set_lifetime id Active t
  | Ev (Lifecycle KModify s _ id) => set_lifetime id Active (on_active_use id s t)
  | Ev (Lifecycle KCancel s _ id) => set_lifetime id Canceled (on_active_use id s t)
  | Ev (VTrade s _ tk mk _ _) => on_active_use mk s (on_active_use tk s t)
  end.

Definition lifetime_checks (fx : fixture) : result * result :=
  let t := fold_left lifetime_step (records fx) (mkLifetimes ∅ [] []) in
  (mkResult (text "canceled order cannot later trade") (is_nil (lt_canceled t)) (lt_canceled t),
   mkResult (text "rejected order never rests or trades") (is_nil (lt_rejected t)) (lt_rejected t)).

Definition is_vtrade (e : event) : bool := match e with VTrade _ _ _ _ _ _ => true | _ => false end.

Definition summary_consistent (fx : fixture) : result :=
  let events := events_of fx in
  let max_seq := fold_left (fun m e => Z.max m (seq e)) events 0 in
  let trade_count := fold_left (fun n e => if is_vtrade e then n + 1 else n) events 0 in
  let name := text "summary matches event log" in
  if negb (max_seq =? fx_last_seq fx) then
    mkResult name false (text "max seq " ++ pr max_seq ++ text " <> last_seq " ++ pr (fx_last_seq fx))
  else if negb (trade_count =? fx_trades fx) then
    mkResult name false (text "trade count " ++ pr trade_count ++ text " <> reported " ++ pr (fx_trades fx))
  else mkResult name true [].

Definition run_checks (fx : fixture) : list result :=
  let '(canceled_chk, rejected_chk) := lifetime_checks fx in
  [monotonic_seq fx; positive_qty fx; canceled_chk; rejected_chk; summary_consistent fx].

Definition all_ok (checks : list result) : bool := forallb r_ok checks.

(** ** verify_replay.ml *)

Definition check_line (r : result) : bytes :=
  text "[" ++ (if r_ok r then text "PASS" else text "FAIL") ++ text "] " ++ r_name r ++
  (if is_nil (r_detail r) then [] else text ": " ++ r_detail r) ++ [10].

(** The exit code and the standard output; [None] is a file that cannot be read. *)
Definition verify_run (contents : option bytes) : Z * bytes :=
  match contents ≫= parse_record_file with
  | None => (2, [])
  | Some fx =>
      let checks := run_checks fx in
      let out := concat (map check_line checks) in
      if all_ok checks then (0, out ++ text "OK: all replay invariants hold" ++ [10]) else (1, out)
  end.

(** [read] stands for the file system. *)
Definition verify_main (read : bytes -> option bytes) (argv : list bytes) : Z * bytes :=
  match argv with
  | [_; path] => verify_run (read path)
  | _ => (2, [])
  end.
