(* ===== verification/ExportFixture.v ===== *)
(** * ExportFixture: qsl-export-fixture

    apps/qsl-export-fixture/main.cpp: drive a synthetic flow through the gateway
    and print the event log that the OCaml replay verifier reads.  [argv] is the
    argument vector with the program's name; what [main] returns is its exit code
    and its standard output. *)
From S2P Require Import Prelude Core Endian Text Book BookSpec Command Engine Gateway Shrink Flow Fixture.

(** The whole token as an unsigned integer. *)
Definition parse_u64 (s : bytes) : option Z :=
  match from_chars uint64_type s with
  | Converted value [] => Some value
  | _ => None
  end.

Record FixtureArgs := mkFixtureArgs { fa_seed : Z; fa_orders : Z }.

Definition parse_args (argv : list bytes) : option FixtureArgs :=
  let seed := match argv !! 1%nat with Some a => parse_u64 a | None => Some 42 end in
  let orders := match argv !! 2%nat with Some a => parse_u64 a | None => Some 200 end in
  match seed, orders with
  | Some seed, Some orders => Some (mkFixtureArgs seed orders)
  | _, _ => None
  end.

Definition lifecycle_line (tag : bytes) (seq : SeqNo) (symbol : SymbolId) (id : OrderId) : bytes :=
  tag ++ to_string seq ++ sp ++ to_string symbol ++ sp ++ to_string id ++ nl.

(** What [emit_events] writes. *)
Definition log_events (events : list EngineEvent) : bytes :=
  concat (map (fun event =>
    match event with
    | OrderAccepted seq symbol id => lifecycle_line (text "accept ") seq symbol id
    | OrderCanceled seq symbol id => lifecycle_line (text "cancel ") seq symbol id
    | OrderModified seq symbol id => lifecycle_line (text "modify ") seq symbol id
    | TradeEvent seq symbol taker maker price quantity =>
        text "trade " ++ to_string seq ++ sp ++ to_string symbol ++ sp ++ to_string taker ++ sp ++ to_string maker ++ sp ++
        to_string_signed price ++ sp ++ to_string quantity ++ nl
    end) events).

(** The stream and the trade counter. *)
Definition record_result (os : bytes) (trades : Z) (id : OrderId) (is_new_order : bool) (r : GatewayResult) : bytes * Z :=
  let os := if is_new_order && negb (g_accepted r)
            then os ++ text "reject " ++ to_string id ++ sp ++ text (reason_to_string (g_reason r)) ++ nl else os in
  let trades := fold_left (fun n event => if is_trade event then u64 (n + 1) else n) (g_events r) trades in
  (os ++ log_events (g_events r), trades).

Section Main.
Context {B : Type} `{BookStore B}.

(** One iteration of the loop of [main]. *)
Definition log_step (config : RiskConfig) (s : bytes * Z * MatchingEngine B) (command : Command) : bytes * Z * MatchingEngine B :=
  let '(os, trades, engine) := s in
  let '(r, engine) := apply_command config engine command in
  let '(os, trades) :=
    match command with
    | NewLimit _ id _ _ _ _ | NewMarket _ id _ _ => record_result os trades id true r
    | Cancel _ id | Modify _ id _ _ => record_result os trades id false r
    | RegisterSymbol _ => (os, trades)
    end in
  (os, trades, engine).

Definition log_header (seed symbols orders max_qty : Z) : bytes :=
  text "# qsl normalized replay fixture (engine event log + rejected new-order ids)" ++ nl ++
  text "v 1" ++ nl ++
  text "meta seed " ++ to_string seed ++ text " symbols " ++ to_string symbols ++ text " orders " ++ to_string orders ++
  text " max_qty " ++ to_string max_qty ++ nl.

Definition write_log (seed orders : Z) : bytes :=
  let symbols := 4 in
  let max_qty := 8 in
  let config := mkRiskConfig max_qty 1000000 in
  let flow := generate_flow (B := B) seed symbols (Z.to_nat orders) in
  let '(os, trades, engine) := fold_left (log_step config) flow (log_header seed symbols orders max_qty, 0, new_engine Baseline) in
  os ++ text "summary last_seq " ++ to_string (es_last_seq (snapshot engine)) ++ text " trades " ++ to_string trades ++ nl.

Definition export_main (argv : list bytes) : Z * bytes :=
  match parse_args argv with
  | None => (2, [])
  | Some args => (0, write_log (fa_seed args) (fa_orders args))
  end.
End Main.
