(* ===== verification/ExportStream.v ===== *)
(** * ExportStream: qsl-export-stream

    apps/qsl-export-stream/main.cpp: the command line of the fixture exporter.  An
    exception is an [inl] with its message. *)
From S2P Require Import Prelude Core Endian Text Book BookSpec Command Engine Gateway Shrink Flow Fixture.

(** [std::invalid_argument] and [std::out_of_range], both caught by [main]. *)
Inductive ArgError := ArgInvalid (what : bytes) | ArgOutOfRange (what : bytes).

Definition parse_u64 (value name : bytes) : ArgError + Z :=
  match from_chars uint64_type value with
  | ResultOutOfRange _ => inl (ArgOutOfRange (name ++ text " is out of range: " ++ value))
  | Converted parsed [] => inr parsed
  | _ => inl (ArgInvalid (name ++ text " must be an unsigned integer: " ++ value))
  end.

(** The member initializers of [FixtureParams] and [FixtureExportRequest]. *)
Definition default_params : FixtureParams := mkFixtureParams 42 4 200 8 1000000.
Definition default_request : FixtureExportRequest := mkFixtureExportRequest ExportStream default_params 0.

Definition mode_only_request (mode : FixtureExportMode) : FixtureExportRequest :=
  mkFixtureExportRequest mode (fr_params default_request) (fr_seed default_request).

Definition required_seed_arg (argv : list bytes) (mode : bytes) : ArgError + bytes :=
  match argv !! 2%nat with
  | None => inl (ArgInvalid (mode ++ text " requires <seed>"))
  | Some a => inr a
  end.

Definition seeded_mode_request (mode : FixtureExportMode) (seed name : bytes) : ArgError + FixtureExportRequest :=
  match parse_u64 seed name with
  | inl e => inl e
  | inr v => inr (mkFixtureExportRequest mode (fr_params default_request) v)
  end.

Definition seeded (m : FixtureExportMode) (argv : list bytes) (mode name : bytes) : ArgError + option FixtureExportRequest :=
  match required_seed_arg argv mode with
  | inl e => inl e
  | inr seed => match seeded_mode_request m seed name with inl e => inl e | inr r => inr (Some r) end
  end.

Definition parse_named_mode (mode : bytes) (argv : list bytes) : ArgError + option FixtureExportRequest :=
  if bool_decide (mode = text "version") then inr (Some (mode_only_request ExportVersion))
  else if bool_decide (mode = text "ioc") then inr (Some (mode_only_request ExportIocScenario))
  else if bool_decide (mode = text "prop") then seeded ExportProperty argv mode (text "prop seed")
  else if bool_decide (mode = text "shrink") then seeded ExportShrink argv mode (text "shrink seed")
  else if bool_decide (mode = text "divergence") then seeded ExportDivergence argv mode (text "divergence seed")
  else inr None.

Definition set_stream (seed orders : Z) : FixtureExportRequest :=
  let p := default_params in
  mkFixtureExportRequest ExportStream (mkFixtureParams seed (fp_symbols p) orders (fp_max_qty p) (fp_max_notional p)) (fr_seed default_request).

Definition parse_request (argv : list bytes) : ArgError + FixtureExportRequest :=
  match argv !! 1%nat with
  | None => inr default_request
  | Some a1 =>
      match parse_named_mode a1 argv with
      | inl e => inl e
      | inr (Some named) => inr named
      | inr None =>
          match parse_u64 a1 (text "seed") with
          | inl e => inl e
          | inr seed =>
              match argv !! 2%nat with
              | None => inr (set_stream seed (fp_orders default_params))
              | Some a2 => match parse_u64 a2 (text "orders") with inl e => inl e | inr orders => inr (set_stream seed orders) end
              end
          end
      end
  end.

(** The exit code and the standard output. *)
Definition stream_main {B : Type} `{BookStore B} (argv : list bytes) : Z * bytes :=
  match parse_request argv with
  | inr request => (0, write_fixture_export (B := B) [] request)
  | inl _ => (2, [])
  end.
