(* ===== verification/ReplayApp.v ===== *)
(** * ReplayApp: qsl-replay and qsl-loginspect

    apps/qsl-replay/main.cpp and apps/qsl-loginspect/main.cpp: the command-line
    tools over the event log.  What the operating system decides is an [AppIO];
    the result of a run is its exit code, what it printed and what it did to the
    log file.  A run that is still in its loop has no exit code. *)
From S2P Require Import Prelude Core Endian Text Book BookSpec Command EventLog LogFile Engine Recovery Shrink Flow Fixture.

(** The files before the run, a read error after so many bytes, and what the
    kernel answers to [fopen], the appends and the repair. *)
Record AppIO := mkAppIO {
  ai_files : bytes -> option bytes;
  ai_read_fail : option nat;
  ai_open_ok : bool;
  ai_open : WriteIO;
  ai_append : nat -> WriteIO;
  ai_repair : RepairIO
}.

Inductive FileEffect :=
| Untouched
| Written (w : EventLogWriter)
| Rewritten (contents : bytes).

Record AppResult := mkAppResult {
  ar_code : option Z;
  ar_out : bytes;
  ar_err : bytes;
  ar_file : FileEffect
}.

(** [std::fopen(path, "rb")]. *)
Definition open_read (io : AppIO) (path : bytes) : option Stream :=
  (fun contents => mkStream contents (ai_read_fail io) false) <$> ai_files io path.

(** ** The command line *)

Definition kUsage : bytes :=
  text "usage:" ++ nl ++
  text "  qsl-replay generate <file> [seed]" ++ nl ++
  text "  qsl-replay recover <file> [--repair]" ++ nl ++
  text "  qsl-replay append-loop <file> <buffered|flush|fsync> [max_records]" ++ nl ++
  text "  qsl-replay <file>" ++ nl.

Definition log_error_to_string (error : LogError) : bytes :=
  match error with
  | LogNone => text "ok"
  | OpenFailed => text "open-failed"
  | LogTruncated => text "truncated"
  | BadChecksum => text "bad-checksum"
  | PayloadTooLarge => text "payload-too-large"
  end.

Definition tail_to_string (tail : TailState) : bytes :=
  match tail with
  | CleanTail => text "clean"
  | TornTail => text "torn"
  | Corrupt => text "corrupt"
  end.

Definition parse_u64 (value : bytes) : option Z :=
  match from_chars uint64_type value with
  | Converted parsed [] => Some parsed
  | _ => None
  end.

Definition parse_mode (value : bytes) : option DurabilityMode :=
  if bool_decide (value = text "buffered") then Some BufferedOnly
  else if bool_decide (value = text "flush") then Some FlushOnAppend
  else if bool_decide (value = text "fsync") then Some FsyncOnAppend
  else None.

Inductive NumericArg := ArgSeed | ArgMaxRecords.
Inductive CommandName := CmdGenerate | CmdRecover | CmdAppendLoop.

Definition numeric_arg_to_string (arg : NumericArg) : bytes :=
  match arg with ArgSeed => text "seed" | ArgMaxRecords => text "max_records" end.

Definition spelling (name : CommandName) : bytes :=
  match name with
  | CmdGenerate => text "generate"
  | CmdRecover => text "recover"
  | CmdAppendLoop => text "append-loop"
  end.

(** [values\[i\]]; the callers have checked the size. *)
Definition value_at (line : list bytes) (i : nat) : bytes := nth i line [].

Definition command_is (line : list bytes) (name : CommandName) : bool := bool_decide (value_at line 1 = spelling name).
Definition has_subcommand (line : list bytes) : bool := (2 <=? length line)%nat.

Definition usage_error : AppResult := mkAppResult (Some 2) [] kUsage Untouched.

Definition unsigned_arg_error (arg : NumericArg) (value : bytes) : AppResult :=
  mkAppResult (Some 2) [] (numeric_arg_to_string arg ++ text " must be an unsigned integer: " ++ value ++ nl ++ kUsage) Untouched.

Definition append_failed (path : bytes) (seq : Z) : bytes :=
  text "append failed for " ++ path ++ text " at record " ++ to_string seq ++ nl.
Definition cannot_open (path : bytes) : bytes := text "cannot open " ++ path ++ text " for writing" ++ nl.

Section App.
Context {B : Type} `{BookStore B}.

(** ** generate *)

(** The loop over the flow: an error code once an append failed. *)
Fixpoint append_flow (io : AppIO) (seq : Z) (flow : list Command) (w : EventLogWriter) : option Z * EventLogWriter :=
  match flow with
  | [] => (None, w)
  | command :: flow =>
      let '(ok, w) := append (mkLogRecord seq CommandRecord seq (encode_command command)) (ai_append io (Z.to_nat seq)) w in
      if negb ok then (Some seq, w) else append_flow io (u64 (seq + 1)) flow w
  end.

Definition generate_log (io : AppIO) (path : bytes) (seed : Z) : AppResult :=
  let flow := generate_flow (B := B) seed 4 (Z.to_nat 500) in
  let writer := open_writer (ai_files io path) (ai_open_ok io) FlushOnAppend (ai_open io) in
  if negb (good writer) then mkAppResult (Some 1) [] (cannot_open path) (Written writer)
  else
    match append_flow io 0 flow writer with
    | (Some seq, writer) => mkAppResult (Some 1) [] (append_failed path seq) (Written writer)
    | (None, writer) =>
        mkAppResult (Some 0) (text "wrote " ++ to_string (Z.of_nat (length flow)) ++ text " command records to " ++ path ++ nl) [] (Written writer)
    end.

Definition run_generate_command (io : AppIO) (line : list bytes) : AppResult :=
  if negb (length line =? 3)%nat && negb (length line =? 4)%nat then usage_error
  else if (length line =? 4)%nat then
    match parse_u64 (value_at line 3) with
    | None => unsigned_arg_error ArgSeed (value_at line 3)
    | Some seed => generate_log io (value_at line 2) seed
    end
  else generate_log io (value_at line 2) 42.

(** ** recover *)

Definition recovery_report (recovery : LogRecovery) : bytes :=
  text "records: " ++ to_string (Z.of_nat (length (rec_records recovery))) ++ nl ++
  text "valid_bytes: " ++ to_string (Z.of_nat (rec_valid_bytes recovery)) ++ nl ++
  text "tail: " ++ tail_to_string (rec_tail recovery) ++ nl ++
  text "tail_error: " ++ log_error_to_string (rec_tail_error recovery) ++ nl.

Definition recover (io : AppIO) (path : bytes) (repair : bool) : AppResult :=
  let recovery := recover_log_file (open_read io path) in
  if negb (bool_decide (rec_error recovery = LogNone))
  then mkAppResult (Some 1) [] (text "log read error: " ++ log_error_to_string (rec_error recovery) ++ nl) Untouched
  else
    let out := recovery_report recovery in
    if bool_decide (rec_tail recovery = CleanTail) then mkAppResult (Some 0) out [] Untouched
    else if bool_decide (rec_tail recovery = Corrupt)
    then mkAppResult (Some 1) out (text "damage is not confined to the final record; refusing automated repair" ++ nl) Untouched
    else if negb repair
    then mkAppResult (Some 1) out (text "torn tail found; rerun with --repair to truncate it" ++ nl) Untouched
    else
      let '(repaired, contents) := repair_log_file (default [] (ai_files io path)) recovery (ai_repair io) in
      if negb repaired then mkAppResult (Some 1) out (text "repair failed" ++ nl) (Rewritten contents)
      else mkAppResult (Some 0) (out ++ text "repaired: truncated to " ++ to_string (Z.of_nat (rec_valid_bytes recovery)) ++ text " bytes" ++ nl) []
             (Rewritten contents).

Definition parse_repair_arg (line : list bytes) : option bool :=
  if (length line =? 3)%nat then Some false
  else if negb (length line =? 4)%nat then None
  else if negb (bool_decide (value_at line 3 = text "--repair")) then None
  else Some true.

Definition run_recover_command (io : AppIO) (line : list bytes) : AppResult :=
  match parse_repair_arg line with
  | None => usage_error
  | Some repair => recover io (value_at line 2) repair
  end.

(** ** append-loop *)

Definition loop_record (seq : Z) : LogRecord :=
  let payload := store_be 8 (zeros 16) 0 seq in
  let payload := store_be 8 payload 8 (Z.lxor seq 11936128518282651045) in
  mkLogRecord seq CommandRecord seq payload.

Definition ack_line (seq : Z) : bytes := text "ack " ++ to_string seq ++ nl.

(** [steps] iterations of the loop of [append_loop]. *)
Fixpoint append_records (steps : nat) (io : AppIO) (path : bytes) (max_records seq : Z) (w : EventLogWriter) (out : bytes) : AppResult :=
  if negb ((max_records =? 0) || (seq <=? max_records)) then mkAppResult (Some 0) out [] (Written w)
  else
    match steps with
    | O => mkAppResult None out [] (Written w)
    | S steps =>
        let '(ok, w) := append (loop_record seq) (ai_append io (Z.to_nat seq)) w in
        if negb ok then mkAppResult (Some 1) out (append_failed path seq) (Written w)
        else append_records steps io path max_records (u64 (seq + 1)) w (out ++ ack_line seq)
    end.

Definition append_loop (steps : nat) (io : AppIO) (path : bytes) (mode : DurabilityMode) (max_records : Z) : AppResult :=
  let writer := open_writer (ai_files io path) (ai_open_ok io) mode (ai_open io) in
  if negb (good writer) then mkAppResult (Some 1) [] (cannot_open path) (Written writer)
  else append_records steps io path max_records 1 writer [].

Definition run_append_loop_command (steps : nat) (io : AppIO) (line : list bytes) : AppResult :=
  if negb (length line =? 4)%nat && negb (length line =? 5)%nat then usage_error
  else
    match parse_mode (value_at line 3) with
    | None => mkAppResult (Some 2) [] (text "mode must be buffered, flush, or fsync: " ++ value_at line 3 ++ nl ++ kUsage) Untouched
    | Some mode =>
        if (5 <=? length line)%nat then
          match parse_u64 (value_at line 4) with
          | None => unsigned_arg_error ArgMaxRecords (value_at line 4)
          | Some max_records => append_loop steps io (value_at line 2) mode max_records
          end
        else append_loop steps io (value_at line 2) mode 0
    end.

(** ** replay *)

Definition best_to_string (p : option Price) : bytes := match p with Some p => to_string_signed p | None => text "-" end.

Definition symbol_report (sym : SymbolSnapshot) : bytes :=
  text "symbol " ++ to_string (ss_symbol sym) ++ text ": orders=" ++ to_string (ss_order_count sym) ++
  text " bid=" ++ best_to_string (ss_best_bid sym) ++ text " ask=" ++ best_to_string (ss_best_ask sym) ++ nl.

Definition replay_report (records events : nat) (snapshot : EngineSnapshot) : bytes :=
  text "records: " ++ to_string (Z.of_nat records) ++ nl ++
  text "replayed events: " ++ to_string (Z.of_nat events) ++ nl ++
  text "last_seq: " ++ to_string (es_last_seq snapshot) ++ nl ++
  concat (map symbol_report (es_symbols snapshot)).

Definition replay_log (io : AppIO) (path : bytes) : AppResult :=
  let log := read_all (open_read io path) in
  if negb (bool_decide (lrr_error log = LogNone))
  then mkAppResult (Some 1) [] (text "log read error: " ++ log_error_to_string (lrr_error log) ++ nl) Untouched
  else
    let '(events, engine) := replay (new_engine (B := B) Baseline) (lrr_records log) in
    mkAppResult (Some 0) (replay_report (length (lrr_records log)) (length events) (snapshot engine)) [] Untouched.

(** ** dispatch *)

(** [main]: [argv] with the program's name, [steps] the iterations of
    [append-loop] that are run. *)
Definition dispatch (steps : nat) (io : AppIO) (line : list bytes) : AppResult :=
  if has_subcommand line && command_is line CmdGenerate then run_generate_command io line
  else if has_subcommand line && command_is line CmdRecover then run_recover_command io line
  else if has_subcommand line && command_is line CmdAppendLoop then run_append_loop_command steps io line
  else if (length line =? 2)%nat then replay_log io (value_at line 1)
  else usage_error.
End App.

(** ** qsl-loginspect *)

Definition count_type (t : RecordType) (records : list LogRecord) : Z :=
  Z.of_nat (length (filter (fun r => lr_type r = t) records)).

Definition seq_range (records : list LogRecord) : bytes :=
  match head records, last records with
  | Some first, Some final => text "seq range: " ++ to_string (lr_seq_no first) ++ text ".." ++ to_string (lr_seq_no final) ++ nl
  | _, _ => []
  end.

Definition loginspect_main (io : AppIO) (argv : list bytes) : AppResult :=
  match argv !! 1%nat with
  | None => mkAppResult (Some 2) [] (text "usage: qsl-loginspect <log-file>" ++ nl) Untouched
  | Some path =>
      let result := read_all (open_read io path) in
      let out :=
        text "records: " ++ to_string (Z.of_nat (length (lrr_records result))) ++ nl ++
        seq_range (lrr_records result) ++
        text "commands: " ++ to_string (count_type CommandRecord (lrr_records result)) ++
        text "  events: " ++ to_string (count_type EventRecord (lrr_records result)) ++ nl ++
        text "status: " ++ log_error_to_string (lrr_error result) ++ nl in
      mkAppResult (Some (if bool_decide (lrr_error result = LogNone) then 0 else 1)) out [] Untouched
  end.
