(* ===== verification/ExportSpec.v ===== *)
(** * ExportSpec: the event log of qsl-export-fixture

    The log as records: what the loop of apps/qsl-export-fixture/main.cpp prints,
    how the OCaml parser reads it, and why the records satisfy the invariants that
    the verifier checks. *)
From Stdlib Require Import ZifyBool.
From S2P Require Import Prelude Core Endian Book BookSpec OrderBook Text Command Engine EngineSpec Gateway GatewaySpec Shrink Flow Fixture ReplayEngine StreamParser ReplayBook ReplaySpec FixtureSpec FlowSpec Verifier ExportFixture.

(** ** VerifierSpec: what the replay verifier checks

    The declarative meaning of the five checks of ocaml/lib/invariant.ml, and the
    records that the log of qsl-export-fixture holds. *)

(** ** Valid logs *)

(** The ids an event needs alive. *)
Definition uses (e : event) : list Z :=
  match e with
  | Lifecycle KAccept _ _ _ => []
  | Lifecycle _ _ _ id => [id]
  | VTrade _ _ tk mk _ _ => [tk; mk]
  end.

(** What one record does to the lifetime of [id]. *)
Definition lifetime_after (id : Z) (st : option lifetime) (r : record) : option lifetime :=
  match r with
  | Rej i => if (i =? id) && negb (bool_decide (st = Some Active)) then Some Rejected else st
  | Ev (Lifecycle KCancel _ _ i) => if i =? id then Some Canceled else st
  | Ev (Lifecycle _ _ _ i) => if i =? id then Some Active else st
  | Ev (VTrade _ _ _ _ _ _) => st
  end.
Definition lifetime_of (id : Z) (rs : list record) : option lifetime := fold_left (lifetime_after id) rs None.

(** [id] is neither canceled nor rejected after [rs]. *)
Definition usable (rs : list record) (id : Z) : Prop := lifetime_of id rs <> Some Canceled /\ lifetime_of id rs <> Some Rejected.

Record valid_log (fx : fixture) : Prop := {
  vl_sequence : StronglySorted Z.lt (0 :: map Verifier.seq (events_of fx));
  vl_quantity : Forall (fun e => match e with VTrade _ _ _ _ _ q => 0 < q | _ => True end) (events_of fx);
  vl_lifetime : forall before e after, records fx = before ++ Ev e :: after -> Forall (usable before) (uses e);
  vl_last : fx_last_seq fx = default 0 (last (map Verifier.seq (events_of fx)));
  vl_trades : fx_trades fx = Z.of_nat (length (filter (fun e => is_vtrade e = true) (events_of fx)))
}.

(** ** The checks *)

Lemma monotonic_go_spec es : forall prev, (monotonic_go prev es).1 = true <-> StronglySorted Z.lt (prev :: map Verifier.seq es).
Proof.
  induction es as [|e es IH]; intros prev; cbn [monotonic_go map]; [split; [by repeat constructor|done]|].
  destruct (prev <? Verifier.seq e) eqn:E; [rewrite IH|cbn [fst]].
  - split; intros Hs.
    + constructor; [done|]. constructor; [lia|]. inv Hs. eapply Forall_impl; [eassumption|]. intros x Hx. cbn in Hx. lia.
    + by inv Hs.
  - split; [done|]. intros Hs. inv Hs. match goal with H : Forall _ (_ :: _) |- _ => inv H end. lia.
Qed.

Lemma monotonic_seq_spec fx : r_ok (monotonic_seq fx) = true <-> StronglySorted Z.lt (0 :: map Verifier.seq (events_of fx)).
Proof. unfold monotonic_seq. rewrite <- monotonic_go_spec. by destruct (monotonic_go 0 (events_of fx)). Qed.

Lemma positive_qty_spec fx :
  r_ok (positive_qty fx) = true <-> Forall (fun e => match e with VTrade _ _ _ _ _ q => 0 < q | _ => True end) (events_of fx).
Proof.
  unfold positive_qty. destruct (List.find bad_qty (events_of fx)) as [e|] eqn:E.
  - apply find_some in E as [Hin Hb]. destruct e; [done|]. cbn in *. split; [done|]. intros Hf. rewrite Forall_forall in Hf.
    apply list_elem_of_In, Hf in Hin. lia.
  - split; [|done]. intros _. apply Forall_forall. intros e Hin%list_elem_of_In. apply (find_none _ _ E) in Hin. destruct e; cbn in *; [done|lia].
Qed.

(** *** Lifetimes *)

Lemma on_active_use_table id s t : lt_table (on_active_use id s t) = lt_table t.
Proof. unfold on_active_use. by destruct (lt_table t !! id) as [[]|]. Qed.

Lemma lifetime_step_table id t r : lt_table (lifetime_step t r) !! id = lifetime_after id (lt_table t !! id) r.
Proof.
  destruct r as [i|[[] s sym i|s sym tk mk px q]]; cbn [lifetime_step lifetime_after].
  - case_bool_decide as E; destruct (Z.eqb_spec i id) as [->|Hne]; cbn [andb]; rewrite ?bool_decide_true, ?bool_decide_false by done; cbn [negb].
    + done.
    + done.
    + cbn. by rewrite lookup_insert_eq.
    + cbn. by rewrite lookup_insert_ne.
  - cbn. destruct (Z.eqb_spec i id) as [->|Hne]; [by rewrite lookup_insert_eq|by rewrite lookup_insert_ne].
  - cbn. rewrite on_active_use_table. destruct (Z.eqb_spec i id) as [->|Hne]; [by rewrite lookup_insert_eq|by rewrite lookup_insert_ne].
  - cbn. rewrite on_active_use_table. destruct (Z.eqb_spec i id) as [->|Hne]; [by rewrite lookup_insert_eq|by rewrite lookup_insert_ne].
  - by rewrite !on_active_use_table.
Qed.

(** No complaint so far. *)
Definition silent (t : lifetimes) : bool := is_nil (lt_canceled t) && is_nil (lt_rejected t).
Definition usable_in (m : gmap Z lifetime) (id : Z) : Prop := m !! id <> Some Canceled /\ m !! id <> Some Rejected.

Lemma note_silent r msg : is_nil (note r msg) = is_nil r && is_nil msg.
Proof. unfold note. destruct r; [done|]. cbn. done. Qed.

Lemma on_active_use_silent id s t : silent (on_active_use id s t) = true <-> silent t = true /\ usable_in (lt_table t) id.
Proof.
  unfold on_active_use, usable_in, silent. destruct (lt_table t !! id) as [[]|] eqn:E; rewrite ?andb_true_iff; cbn [lt_canceled lt_rejected];
    rewrite ?note_silent, ?andb_true_iff.
  - split; [intros H; split; [exact H|split; congruence]|by intros [H _]].
  - split; [by intros [[_ H] _]|by intros [_ [H _]]].
  - split; [by intros [_ [_ H]]|by intros [_ [_ H]]].
  - split; [intros H; split; [exact H|split; congruence]|by intros [H _]].
Qed.

Lemma lifetime_step_silent t r :
  silent (lifetime_step t r) = true <->
  silent t = true /\ match r with Ev e => Forall (usable_in (lt_table t)) (uses e) | Rej _ => True end.
Proof.
  destruct r as [i|[[] s sym i|s sym tk mk px q]]; cbn [lifetime_step uses].
  - case_bool_decide; [tauto|]. unfold silent. cbn. tauto.
  - unfold silent. cbn. rewrite Forall_nil. tauto.
  - change (silent (set_lifetime i Canceled ?x)) with (silent x). rewrite on_active_use_silent, Forall_singleton. done.
  - change (silent (set_lifetime i Active ?x)) with (silent x). rewrite on_active_use_silent, Forall_singleton. done.
  - rewrite !on_active_use_silent, on_active_use_table, Forall_cons, Forall_singleton. tauto.
Qed.

Lemma lifetime_run rs : forall t,
  silent (fold_left lifetime_step rs t) = true <->
  silent t = true /\ (forall before e after, rs = before ++ Ev e :: after ->
    Forall (usable_in (lt_table (fold_left lifetime_step before t))) (uses e)).
Proof.
  induction rs as [|r rs IH]; intros t; cbn [fold_left].
  - split; [|tauto]. intros Ht. split; [done|]. intros [|] ? ? ?; done.
  - rewrite IH, lifetime_step_silent. split.
    + intros [[Ht Hr] Hrs]. split; [done|]. intros [|r' before] e after [= -> ->]; cbn [fold_left]; [done|]. by eapply Hrs.
    + intros [Ht Hall]. split; [split; [done|]|].
      * destruct r as [|e]; [done|]. by apply (Hall [] e rs).
      * intros before e after ->. by apply (Hall (r :: before) e after).
Qed.

Lemma lifetime_table rs id : forall t, lt_table (fold_left lifetime_step rs t) !! id = fold_left (lifetime_after id) rs (lt_table t !! id).
Proof. induction rs as [|r rs IH]; intros t; cbn [fold_left]; [done|]. by rewrite IH, lifetime_step_table. Qed.

Lemma lifetime_checks_spec fx :
  r_ok (lifetime_checks fx).1 && r_ok (lifetime_checks fx).2 = true <->
  (forall before e after, records fx = before ++ Ev e :: after -> Forall (usable before) (uses e)).
Proof.
  change (silent (fold_left lifetime_step (records fx) (mkLifetimes ∅ [] [])) = true <->
    (forall before e after, records fx = before ++ Ev e :: after -> Forall (usable before) (uses e))). rewrite lifetime_run.
  assert (forall before id, usable_in (lt_table (fold_left lifetime_step before (mkLifetimes ∅ [] []))) id <-> usable before id) as Hu.
  { intros before id. unfold usable_in, usable, lifetime_of. rewrite lifetime_table. cbn [lt_table]. by rewrite lookup_empty. }
  split.
  - intros [_ H] before e after E. eapply Forall_impl; [by eapply H|]. intros id. apply Hu.
  - intros H. split; [done|]. intros before e after E. eapply Forall_impl; [by eapply H|]. intros id. apply Hu.
Qed.

(** *** The summary *)

Lemma max_seq_sorted es : forall m, StronglySorted Z.lt (m :: map Verifier.seq es) ->
  fold_left (fun m e => Z.max m (Verifier.seq e)) es m = default m (last (map Verifier.seq es)).
Proof.
  induction es as [|e es IH]; intros m Hs; cbn [fold_left map]; [done|]. inv Hs. match goal with H : Forall _ (_ :: _) |- _ => inv H end.
  rewrite Z.max_r by lia. rewrite IH by done. rewrite last_cons. by destruct (last (map Verifier.seq es)).
Qed.

Lemma trade_count_spec es : forall n,
  fold_left (fun n e => if is_vtrade e then n + 1 else n) es n = n + Z.of_nat (length (filter (fun e => is_vtrade e = true) es)).
Proof.
  induction es as [|e es IH]; intros n; cbn [fold_left]; [cbn; lia|]. rewrite IH, filter_cons. destruct (is_vtrade e).
  - rewrite decide_True by done. cbn [length]. lia.
  - by rewrite decide_False.
Qed.

Lemma summary_consistent_spec fx :
  StronglySorted Z.lt (0 :: map Verifier.seq (events_of fx)) ->
  r_ok (summary_consistent fx) = true <->
  fx_last_seq fx = default 0 (last (map Verifier.seq (events_of fx))) /\
  fx_trades fx = Z.of_nat (length (filter (fun e => is_vtrade e = true) (events_of fx))).
Proof.
  intros Hs. unfold summary_consistent. rewrite max_seq_sorted, trade_count_spec by done. rewrite Z.add_0_l.
  destruct (default 0 _ =? fx_last_seq fx) eqn:E1; cbn [negb]; [|cbn; split; [done|lia]].
  destruct (Z.of_nat _ =? fx_trades fx) eqn:E2; cbn; [split; [lia|done]|split; [done|lia]].
Qed.

Lemma run_checks_exact fx : all_ok (run_checks fx) = true <-> valid_log fx.
Proof.
  unfold run_checks. pose proof (lifetime_checks_spec fx) as Hl. destruct (lifetime_checks fx) as [c1 c2]. cbn [fst snd] in Hl.
  cbn [all_ok forallb]. rewrite andb_true_r, !andb_true_iff, monotonic_seq_spec, positive_qty_spec. rewrite andb_true_iff in Hl. split.
  - intros (Hs & Hq & H1 & H2 & Hsum). apply summary_consistent_spec in Hsum as [? ?]; [|done]. split; [done|done|by apply Hl|done|done].
  - intros [Hs Hq Hlt Hla Htr]. destruct (proj2 Hl Hlt). repeat split; try done. by apply summary_consistent_spec.
Qed.

(** ** The event log of qsl-export-fixture *)

(** ** Lines *)

Definition logged (e : EngineEvent) : event :=
  match e with
  | OrderAccepted s symbol id => Lifecycle KAccept s symbol id
  | OrderCanceled s symbol id => Lifecycle KCancel s symbol id
  | OrderModified s symbol id => Lifecycle KModify s symbol id
  | TradeEvent s symbol taker maker price q => VTrade s symbol taker maker price q
  end.
Definition record_of (e : EngineEvent) : record := Ev (logged e).

(** The id of a new order that the gateway rejected. *)
Definition rejected_new (c : Command) (r : GatewayResult) : list OrderId :=
  match c with
  | NewLimit _ id _ _ _ _ | NewMarket _ id _ _ => if g_accepted r then [] else [id]
  | _ => []
  end.

Definition step_records (c : Command) (r : GatewayResult) : list record := map Rej (rejected_new c r) ++ map record_of (g_events r).
Definition log_records (cmds : list Command) (rs : list GatewayResult) : list record := concat (zip_with step_records cmds rs).

Definition reject_line_words (r : GatewayResult) (id : OrderId) : list bytes := [text "reject"; to_string id; text (reason_to_string (g_reason r))].
Definition step_words (c : Command) (r : GatewayResult) : list (list bytes) :=
  map (reject_line_words r) (rejected_new c r) ++ map (fun e => tail (event_words e)) (g_events r).
Definition log_words (cmds : list Command) (rs : list GatewayResult) : list (list bytes) := concat (zip_with step_words cmds rs).

#[local] Opaque to_string to_string_signed.

Lemma log_events_lines events : log_events events = unlines (lines_of (map (fun e => tail (event_words e)) events)).
Proof.
  induction events as [|e events IH]; [done|]. unfold log_events in *. cbn [map concat lines_of]. rewrite IH. unfold lines_of. cbn [map]. rewrite unlines_cons, app_assoc. f_equal.
  destruct e; unfold lifecycle_line, nl, sp; cbn [event_words tail line_of join]; rewrite <- ?app_assoc; reflexivity.
Qed.

Lemma count_trades_spec events : forall n, in_u64 n ->
  fold_left (fun n event => if is_trade event then u64 (n + 1) else n) events n = u64 (n + events_trades events).
Proof.
  induction events as [|e events IH]; intros n Hn; cbn [fold_left].
  - change (events_trades []) with 0. by rewrite Z.add_0_r, u64_small.
  - rewrite IH by (destruct (is_trade e); [apply u64_range|done]). rewrite events_trades_cons. destruct (is_trade e); [rewrite u64_u64_add; f_equal; lia|done].
Qed.

Section Loop.
Context {B : Type} `{BookStore B} (config : RiskConfig).
Implicit Types e : MatchingEngine B.

Lemma log_step_spec os trades e c :
  in_u64 trades ->
  log_step config (os, trades, e) c =
  let r := apply_command config e c in (os ++ unlines (lines_of (step_words c r.1)), u64 (trades + events_trades (g_events r.1)), r.2).
Proof.
  intros Ht. unfold log_step, step_words, record_result, lines_of. cbv zeta. destruct c as [name|symbol id side price q tif|symbol id side q|symbol id|symbol id price q].
  { cbn. rewrite app_nil_r. change (events_trades []) with 0. by rewrite Z.add_0_r, u64_small. }
  all: destruct (apply_command config e _) as [r e']; cbn [fst snd rejected_new]; rewrite count_trades_spec, log_events_lines by done; unfold lines_of.
  1,2: destruct (g_accepted r); cbn [andb negb map app]; [done|].
  1,2: unfold reject_line_words; rewrite unlines_cons; cbn [line_of join]; unfold nl, sp; rewrite <- !app_assoc; reflexivity.
  all: done.
Qed.

Lemma log_loop cmds : forall os trades e,
  in_u64 trades ->
  fold_left (log_step config) cmds (os, trades, e) =
  let r := gateway_all config e cmds in (os ++ unlines (lines_of (log_words cmds r.1)), u64 (trades + results_trades r.1), r.2).
Proof.
  induction cmds as [|c cmds IH]; intros os trades e Ht; cbn [fold_left gateway_all].
  { cbn. rewrite app_nil_r, Z.add_0_r, u64_small by done. done. }
  rewrite log_step_spec by done. cbv zeta. destruct (apply_command config e c) as [r e1]. cbn [fst snd]. rewrite IH by apply u64_range. cbv zeta.
  destruct (gateway_all config e1 cmds) as [rs e2]. cbn [fst snd]. unfold log_words. cbn [zip_with concat]. rewrite lines_of_app, unlines_app, <- app_assoc.
  f_equal. f_equal. rewrite u64_u64_add. f_equal. cbn [results_trades fold_right]. unfold results_trades. lia.
Qed.
End Loop.

(** ** Reading the lines *)

(** An event whose numbers the OCaml side can read. *)
Definition plain (e : EngineEvent) : Prop :=
  match e with
  | OrderAccepted _ symbol id | OrderCanceled _ symbol id | OrderModified _ symbol id => nat62 symbol /\ nat62 id
  | TradeEvent _ symbol taker maker price q => nat62 symbol /\ nat62 taker /\ nat62 maker /\ int62 price /\ nat62 q /\ 0 < q
  end.
Definition readable (e : EngineEvent) : Prop := nat62 (seq_of e) /\ plain e.

Definition new_id_ok (c : Command) : Prop := match c with NewLimit _ id _ _ _ _ | NewMarket _ id _ _ => nat62 id | _ => True end.

Lemma event_tail_tokens e : readable e -> Forall is_token (tail (event_words e)).
Proof.
  intros [Hs Hr]. destruct e; cbn [event_words tail seq_of plain] in *; destruct_and?; tokens; first [by apply to_string_token, nat62_u64|by apply int62_token].
Qed.

Lemma handle_event st e : readable e -> handle_record st (line_of (tail (event_words e))) = Some (push (record_of e) st).
Proof.
  intros Hr. unfold handle_record. rewrite words_line by (by apply event_tail_tokens). destruct st as [[rs ls] t], Hr as [Hs Hr].
  destruct e; cbn [event_words tail seq_of plain record_of logged] in *; destruct_and?; word_tests; unfold lifecycle;
    rewrite ?int_of_nat62, ?int_of_int62 by done; cbn [mbind option_bind]; rewrite ?int_of_nat62, ?int_of_int62 by done; done.
Qed.

Lemma reject_words_ok r id : nat62 id -> Forall is_token (reject_line_words r id).
Proof. intros Hid. unfold reject_line_words. tokens; [by apply to_string_token, nat62_u64|apply reason_token]. Qed.

Lemma handle_reject st r id : nat62 id -> handle_record st (line_of (reject_line_words r id)) = Some (push (Rej id) st).
Proof.
  intros Hid. unfold handle_record. rewrite words_line by (by apply reject_words_ok). destruct st as [[rs ls] t]. unfold reject_line_words.
  word_tests. by rewrite int_of_nat62.
Qed.

Definition push_all (rs : list record) (st : list record * Z * Z) : list record * Z * Z := (rev rs ++ st.1.1, st.1.2, st.2).

Lemma push_all_app rs rs' st : push_all (rs ++ rs') st = push_all rs' (push_all rs st).
Proof. unfold push_all. cbn. by rewrite rev_app_distr, <- app_assoc. Qed.

Lemma iter_push {A : Type} (f : A -> list bytes) (g : A -> record) (P : A -> Prop) l :
  (forall a st, P a -> handle_record st (line_of (f a)) = Some (push (g a) st)) -> Forall P l ->
  forall st, iter_opt handle_record (lines_of (map f l)) (Some st) = Some (push_all (map g l) st).
Proof.
  intros Hf Hl. induction Hl as [|a l Ha Hl IH]; intros st; [by destruct st as [[? ?] ?]|]. unfold lines_of in *. cbn [map]. rewrite iter_opt_cons, Hf by done. rewrite IH.
  f_equal. destruct st as [[rs ls] t]. unfold push_all. cbn. by rewrite <- app_assoc.
Qed.

Lemma rejected_new_ok c r : new_id_ok c -> Forall nat62 (rejected_new c r).
Proof. destruct c; cbn; try done; destruct (g_accepted r); try constructor; auto. Qed.

Lemma handle_step c r st :
  new_id_ok c -> Forall readable (g_events r) -> iter_opt handle_record (lines_of (step_words c r)) (Some st) = Some (push_all (step_records c r) st).
Proof.
  intros Hc Hr. unfold step_words, step_records. rewrite lines_of_app, iter_opt_app, push_all_app.
  rewrite (iter_push _ Rej nat62) by eauto using handle_reject, rejected_new_ok.
  by rewrite (iter_push _ record_of readable) by eauto using handle_event.
Qed.

Lemma handle_log cmds : forall rs st,
  Forall new_id_ok cmds -> Forall (fun r => Forall readable (g_events r)) rs ->
  iter_opt handle_record (lines_of (log_words cmds rs)) (Some st) = Some (push_all (log_records cmds rs) st).
Proof.
  induction cmds as [|c cmds IH]; intros [|r rs] st Hc Hr; try (destruct st as [[? ?] ?]; done). apply Forall_cons in Hc as [Hc1 Hc]. apply Forall_cons in Hr as [Hr1 Hr].
  unfold log_words, log_records. cbn [zip_with concat]. rewrite lines_of_app, iter_opt_app, push_all_app, handle_step by done. by apply IH.
Qed.

Lemma log_words_free cmds : forall rs,
  Forall new_id_ok cmds -> Forall (fun r => Forall readable (g_events r)) rs -> Forall (fun l => 10 ∉ l) (lines_of (log_words cmds rs)).
Proof.
  induction cmds as [|c cmds IH]; intros [|r rs] Hc Hr; [constructor..|]. apply Forall_cons in Hc as [Hc1 Hc]. apply Forall_cons in Hr as [Hr1 Hr].
  unfold log_words. cbn [zip_with concat]. rewrite lines_of_app. apply Forall_app. split; [|by apply IH]. unfold step_words, lines_of. rewrite map_app. apply Forall_app.
  split; apply Forall_map, Forall_map.
  - eapply Forall_impl; [by apply rejected_new_ok|]. intros id Hid. by apply line_of_free, reject_words_ok.
  - eapply Forall_impl; [exact Hr1|]. intros e He. by apply line_of_free, event_tail_tokens.
Qed.

(** ** Lifetimes *)

Lemma om_alter_keyed {V : Type} (P : Z -> V -> Prop) k v (m : list (Z * V)) :
  Forall (fun e => P e.1 e.2) m -> P k v -> Forall (fun e => P e.1 e.2) (om_alter (fun _ => v) k m).
Proof.
  intros Hm Hv. induction Hm as [|[k' v'] m Hk Hm IH]; cbn [om_alter]; [constructor|]. destruct (Z.eqb_spec k k') as [->|Hne]; by constructor.
Qed.
(** The books of the other keys, where keys are unique. *)
Lemma om_alter_other {V : Type} (P : Z -> V -> Prop) k v (m : list (Z * V)) :
  om_sorted symbol_before m -> Forall (fun e => e.1 <> k -> P e.1 e.2) m -> P k v -> Forall (fun e => P e.1 e.2) (om_alter (fun _ => v) k m).
Proof.
  rewrite om_sorted_keys. intros Hs Hm Hv. induction m as [|[k' v'] m IH]; cbn [om_alter]; [constructor|]. cbn in Hs. inv Hs. apply Forall_cons in Hm as [Hk Hm].
  destruct (Z.eqb_spec k k') as [->|Hne]; (constructor; [by auto|]); [|by apply IH].
  match goal with H : Forall _ m.*1 |- _ => rename H into Hlt end. rewrite Forall_forall in Hlt. rewrite Forall_forall in Hm |- *. intros e He. apply Hm; [done|].
  specialize (Hlt e.1 (list_elem_of_fmap_2 fst _ _ He)). unfold symbol_before in Hlt. lia.
Qed.
Lemma om_try_emplace_keyed {V : Type} before (P : Z -> V -> Prop) k v (m : list (Z * V)) :
  Forall (fun e => P e.1 e.2) m -> P k v -> Forall (fun e => P e.1 e.2) (om_try_emplace before k v m).
Proof. intros Hm Hv. induction Hm as [|[k' v'] m Hk Hm IH]; cbn [om_try_emplace]; [by repeat constructor|]. repeat case_if; repeat constructor; auto. Qed.

Section Lifetimes.
Context (owner : OrderId -> SymbolId).
Implicit Types m : gmap Z lifetime.

(** A limit order is sent to the book that owns its id. *)
Definition owned (c : Command) : Prop := match c with NewLimit symbol id _ _ _ _ => owner id = symbol | _ => True end.

(** What the log knows of an order that rests in the book of [symbol]. *)
Definition live (symbol : SymbolId) m (id : OrderId) (price : Price) : Prop :=
  owner id = symbol /\ m !! id = Some Active /\ nat62 id /\ int62 price.

Definition live_books m (ae : AEngine) : Prop := Forall (fun s => book_ok (live s.1 m) s.2) (ae_books ae).

Record tracked (t : lifetimes) (ae : AEngine) : Prop := {
  tr_silent : silent t = true;
  tr_sorted : om_sorted symbol_before (ae_books ae);
  tr_books : live_books (lt_table t) ae
}.

Lemma book_ok_impl (P Q : OrderId -> Price -> Prop) b :
  (forall id price, P id price -> Q id price) -> book_ok P b -> book_ok Q b.
Proof. intros HPQ [Hwf Hf]. split; [done|]. eapply Forall_impl; [exact Hf|]. intros o [Ho Hs]. split; [by apply HPQ|done]. Qed.

Lemma lifetime_insert symbol m id id' price : live symbol m id' price -> live symbol (<[id := Active]> m) id' price.
Proof.
  intros (H1 & H2 & H3). split; [done|]. split; [|done]. destruct (decide (id = id')) as [->|Hne]; [by rewrite lookup_insert_eq|by rewrite lookup_insert_ne].
Qed.

Lemma live_books_insert m id ae : live_books m ae -> live_books (<[id := Active]> m) ae.
Proof.
  intros Hb. eapply Forall_impl; [exact Hb|]. intros s Hok. eapply book_ok_impl; [|exact Hok]. intros. by apply lifetime_insert.
Qed.

Lemma live_books_find m ae symbol b : live_books m ae -> om_find symbol (ae_books ae) = Some b -> book_ok (live symbol m) b.
Proof.
  intros Hb Hf. apply om_find_Some in Hf as (l & r & E & _). unfold live_books in Hb. rewrite E in Hb. by apply Forall_app in Hb as [_ [Hb _]%Forall_cons].
Qed.

(** The trades of a live taker against live makers raise no complaint. *)
Lemma trades_quiet symbol id ts : forall s t,
  lt_table t !! id = Some Active -> Forall (fun x => t_taker_id x = id) ts -> Forall (trade_from (live symbol (lt_table t))) ts ->
  fold_left lifetime_step (map record_of (number s (map (trade_event symbol) ts))) t = t.
Proof.
  induction ts as [|x ts IH]; intros s t Hid Ht Hf; [done|]. apply Forall_cons in Ht as [<- Ht]. apply Forall_cons in Hf as [[(_ & Hm & _) _] Hf].
  cbn [map number fold_left trade_event record_of logged lifetime_step].
  assert (on_active_use (t_maker_id x) (u64 (s + 1)) (on_active_use (t_taker_id x) (u64 (s + 1)) t) = t) as ->; [|by apply IH].
  assert (on_active_use (t_taker_id x) (u64 (s + 1)) t = t) as -> by (unfold on_active_use; by rewrite Hid). unfold on_active_use. by rewrite Hm.
Qed.

Lemma trades_plain symbol id m ts : forall s,
  nat62 symbol -> nat62 id -> Forall (fun x => t_taker_id x = id) ts -> Forall (trade_from (live symbol m)) ts ->
  Forall plain (number s (map (trade_event symbol) ts)).
Proof.
  induction ts as [|x ts IH]; intros s Hs Hid Ht Hf; [constructor|]. apply Forall_cons in Ht as [<- Ht]. apply Forall_cons in Hf as [((_ & _ & H1 & H2) & H3 & H4) Hf].
  cbn [map number]. constructor; [|by apply IH]. cbn. auto 10 using u32_nat62.
Qed.

(** An accepted or modified order: the id becomes active, and its trades follow. *)
Lemma respond_tracked t ae symbol id b' ts ack k :
  tracked t ae -> nat62 symbol -> nat62 id -> k <> KCancel -> (k = KModify -> lt_table t !! id = Some Active) ->
  (forall s, record_of (ack s) = Ev (Lifecycle k s symbol id)) -> (forall s, plain (ack s)) ->
  let m := <[id := Active]> (lt_table t) in
  book_ok (live symbol m) b' -> Forall (fun x => t_taker_id x = id) ts -> Forall (trade_from (live symbol m)) ts ->
  let r := a_respond ae symbol b' (ack :: map (trade_event symbol) ts) in
  tracked (fold_left lifetime_step (map record_of r.1) t) r.2 /\ Forall plain r.1.
Proof.
  intros [Hs Hso Hb] Hsym Hid Hk Hmod Hack Hpl m Hb' Htk Hts. cbn [a_respond fst snd number map fold_left]. rewrite Hack.
  assert (lifetime_step t (Ev (Lifecycle k (u64 (ae_seq ae + 1)) symbol id)) = set_lifetime id Active t) as ->.
  { destruct k; cbn [lifetime_step]; [done|done|]. unfold on_active_use. by rewrite (Hmod eq_refl). }
  rewrite trades_quiet with (id := id); [|cbn; by rewrite lookup_insert_eq|done|done]. split.
  - split; [done|by apply om_alter_sorted|]. unfold live_books. cbn [ae_books lt_table set_lifetime]. apply (om_alter_keyed (fun s => book_ok (live s m))); [|done].
    by apply live_books_insert.
  - constructor; [apply Hpl|]. by apply (trades_plain symbol id m).
Qed.

Lemma contains_live t ae symbol b id :
  tracked t ae -> om_find symbol (ae_books ae) = Some b -> a_contains b id = true -> owner id = symbol /\ lt_table t !! id = Some Active.
Proof.
  intros [_ _ Hb] Hf Hc. destruct (live_books_find _ _ _ _ Hb Hf) as [_ Hall]. apply a_contains_spec in Hc. unfold a_ids in Hc.
  apply list_elem_of_fmap in Hc as (o & -> & Ho). rewrite Forall_forall in Hall. destruct (Hall o Ho) as ((H1 & H2 & _) & _). done.
Qed.

(** A canceled id is in no other book. *)
Lemma cancel_tracked t ae symbol b id :
  tracked t ae -> om_find symbol (ae_books ae) = Some b -> a_contains b id = true -> nat62 symbol -> nat62 id ->
  let r := a_respond ae symbol (a_remove id b) [fun s => OrderCanceled s symbol id] in
  tracked (fold_left lifetime_step (map record_of r.1) t) r.2 /\ Forall plain r.1.
Proof.
  intros Ht Hf Hc Hsym Hid. destruct (contains_live _ _ _ _ _ Ht Hf Hc) as [Ho Hact]. pose proof Ht as [Hs Hso Hb]. pose proof (live_books_find _ _ _ _ Hb Hf) as Hbk.
  cbn [a_respond number fst snd map fold_left record_of logged lifetime_step].
  assert (on_active_use id (u64 (ae_seq ae + 1)) t = t) as -> by (unfold on_active_use; by rewrite Hact). split; [|by apply Forall_singleton].
  split; [done|by apply om_alter_sorted|]. unfold live_books. cbn [ae_books lt_table set_lifetime]. set (m' := <[id := Canceled]> (lt_table t)).
  assert (forall s x price, x <> id -> live s (lt_table t) x price -> live s m' x price) as Hkeep.
  { intros s x price Hne (H1 & H2 & H3). split; [done|]. split; [|done]. unfold m'. by rewrite lookup_insert_ne. }
  apply (om_alter_other (fun s => book_ok (live s m'))); [done| |].
  - eapply Forall_impl; [exact Hb|]. intros s Hok Hne. eapply book_ok_impl; [|exact Hok]. intros x price Hx. apply Hkeep; [|done]. intros ->. destruct Hx as [Hx _]. congruence.
  - split; [apply a_remove_wf, Hbk|]. destruct Hbk as [_ Hall]. unfold a_orders, a_remove in *. cbn. rewrite <- filter_app. rewrite Forall_forall in Hall |- *.
    intros o [Hne Hin]%list_elem_of_filter. destruct (Hall o Hin) as [H1 H2]. split; [by apply Hkeep|done].
Qed.

Lemma reject_tracked t ae id : tracked t ae -> tracked (lifetime_step t (Rej id)) ae.
Proof.
  intros [Hs Hso Hb]. cbn [lifetime_step]. case_bool_decide as Ha; [done|]. split; [done|done|]. unfold live_books. cbn [lt_table set_lifetime].
  eapply Forall_impl; [exact Hb|]. intros s Hok. eapply book_ok_impl; [|exact Hok]. intros x price (H1 & H2 & H3). split; [done|]. split; [|done].
  rewrite lookup_insert_ne; [done|]. intros ->. done.
Qed.

Lemma verdict_rejected config ae c : a_verdict config ae c <> ReasonNone -> a_gateway config ae c = (gateway_reject (a_verdict config ae c), ae).
Proof. intros Hv. unfold a_gateway. by rewrite bool_decide_false. Qed.

Lemma rejected_tracked config t ae c :
  tracked t ae -> a_verdict config ae c <> ReasonNone ->
  let r := a_gateway config ae c in tracked (fold_left lifetime_step (step_records c r.1) t) r.2 /\ Forall plain (g_events r.1).
Proof.
  intros Ht Hv. rewrite verdict_rejected by done. cbn [fst snd gateway_reject g_events]. split; [|constructor]. unfold step_records. cbn [map gateway_reject g_events g_accepted].
  rewrite app_nil_r. destruct c; cbn [rejected_new map fold_left g_accepted]; try done; by apply reject_tracked.
Qed.

Lemma accepted_records config ae c : a_verdict config ae c = ReasonNone ->
  let r := a_gateway config ae c in step_records c r.1 = map record_of (a_apply true ae c).1 /\ r.2 = (a_apply true ae c).2 /\ g_events r.1 = (a_apply true ae c).1.
Proof. intros Hv. unfold a_gateway. rewrite Hv, bool_decide_true by done. destruct (a_apply true ae c) as [evs ae']. unfold step_records. by destruct c. Qed.

Lemma apply_tracked t ae c :
  tracked t ae -> fixture_command c -> owned c ->
  let r := a_apply true ae c in tracked (fold_left lifetime_step (map record_of r.1) t) r.2 /\ Forall plain r.1.
Proof.
  intros Ht [Hok Hf] Ho. destruct c as [name|symbol id side price q tif|symbol id side q|symbol id|symbol id price q]; cbn [a_apply command_ok owned] in *.
  - destruct (intern (ae_registry ae) name) as [id reg]. cbn. split; [|constructor]. destruct Ht as [Hs Hso Hb]. split; [done| |].
    + apply om_try_emplace_sorted; [unfold symbol_before; lia..|done].
    + apply (om_try_emplace_keyed _ (fun s => book_ok (live s (lt_table t)))); [done|]. split; [apply a_wf_empty|constructor].
  - destruct Hok as (Hsym & _ & Hside & _ & Hq & _), Hf as [Hid Hpx]. destruct (om_find symbol (ae_books ae)) as [b|] eqn:Eb; [|by split; [|constructor]].
    destruct (a_contains b id || negb true); [by split; [|constructor]|]. set (m := <[id := Active]> (lt_table t)).
    destruct (a_add_limit_from (live symbol m) b id side price q tif) as [H1 H2]; [|done|done|split; [done|]; split; [by apply lookup_insert_eq|done]|].
    { eapply book_ok_impl; [|eapply live_books_find; [apply Ht|exact Eb]]. intros. by apply lifetime_insert. }
    pose proof (a_add_limit_takers b id side price q tif) as H3. destruct (a_add_limit b id side price q tif) as [ts b'].
    apply respond_tracked with (id := id) (k := KAccept); try done; [by apply u32_nat62|]. intros s. split; [by apply u32_nat62|done].
  - destruct Hok as (Hsym & _ & _ & Hq). destruct (om_find symbol (ae_books ae)) as [b|] eqn:Eb; [|by split; [|constructor]].
    destruct (a_contains b id); [by split; [|constructor]|]. set (m := <[id := Active]> (lt_table t)).
    destruct (a_add_market_from (live symbol m) b id side q) as [H1 H2]; [|done|].
    { eapply book_ok_impl; [|eapply live_books_find; [apply Ht|exact Eb]]. intros. by apply lifetime_insert. }
    pose proof (a_add_market_takers b id side q) as H3. destruct (a_add_market b id side q) as [ts b'].
    apply respond_tracked with (id := id) (k := KAccept); try done; [by apply u32_nat62|]. intros s. split; [by apply u32_nat62|done].
  - destruct Hok as (Hsym & _). destruct (om_find symbol (ae_books ae)) as [b|] eqn:Eb; [|by split; [|constructor]].
    destruct (a_contains b id) eqn:Ec; [|by split; [|constructor]]. apply (cancel_tracked t ae symbol b id); try done. by apply u32_nat62.
  - destruct Hok as (Hsym & _ & _ & Hq), Hf as [Hid Hpx]. destruct (om_find symbol (ae_books ae)) as [b|] eqn:Eb; [|by split; [|constructor]].
    destruct (a_contains b id) eqn:Ec; cbn [negb orb]; [|by split; [|constructor]]. destruct (contains_live _ _ _ _ _ Ht Eb Ec) as [Hown Hact].
    set (m := <[id := Active]> (lt_table t)).
    destruct (a_modify_from (live symbol m) b id price q) as [H1 H2]; [|done|split; [done|]; split; [by apply lookup_insert_eq|done]|].
    { eapply book_ok_impl; [|eapply live_books_find; [apply Ht|exact Eb]]. intros. by apply lifetime_insert. }
    pose proof (a_modify_takers b id price q) as H3. destruct (a_modify b id price q) as [ts b'].
    apply respond_tracked with (id := id) (k := KModify); try done; [by apply u32_nat62|]. intros s. split; [by apply u32_nat62|done].
Qed.

Lemma gateway_tracked config cmds : forall t ae,
  tracked t ae -> Forall fixture_command cmds -> Forall owned cmds ->
  let r := a_gateway_all config ae cmds in
  tracked (fold_left lifetime_step (log_records cmds r.1) t) r.2 /\ Forall (fun g => Forall plain (g_events g)) r.1.
Proof.
  induction cmds as [|c cmds IH]; intros t ae Ht Hf Ho; [by split; [|constructor]|]. apply Forall_cons in Hf as [Hf1 Hf]. apply Forall_cons in Ho as [Ho1 Ho]. cbn [a_gateway_all].
  assert (tracked (fold_left lifetime_step (step_records c (a_gateway config ae c).1) t) (a_gateway config ae c).2 /\ Forall plain (g_events (a_gateway config ae c).1)) as [H1 H2].
  { destruct (decide (a_verdict config ae c = ReasonNone)) as [Hv|Hv]; [|by apply rejected_tracked]. destruct (accepted_records config ae c Hv) as (-> & -> & ->). by apply apply_tracked. }
  destruct (a_gateway config ae c) as [r ae1]. cbn [fst snd] in *. destruct (IH _ ae1 H1 Hf Ho) as [H3 H4]. destruct (a_gateway_all config ae1 cmds) as [rs ae2]. cbn [fst snd] in *.
  unfold log_records in *. cbn [zip_with concat]. rewrite fold_left_app. split; [done|by constructor].
Qed.
End Lifetimes.

(** ** Numbering *)

Lemma apply_shape ae c :
  let r := a_apply true ae c in
  (r.1 = [] /\ ae_seq r.2 = ae_seq ae) \/
  (exists symbol b f ts, numbered f /\ (forall s, is_trade (f s) = false) /\ r = a_respond ae symbol b (f :: map (trade_event symbol) ts)).
Proof.
  destruct c as [name|symbol id side price q tif|symbol id side q|symbol id|symbol id price q]; cbn [a_apply].
  { destruct (intern (ae_registry ae) name). by left. }
  all: destruct (om_find symbol (ae_books ae)) as [b|]; [|by left].
  - destruct (a_contains b id || negb true); [by left|]. destruct (a_add_limit b id side price q tif) as [ts b']. right. by exists symbol, b', (fun s => OrderAccepted s symbol id), ts.
  - destruct (a_contains b id); [by left|]. destruct (a_add_market b id side q) as [ts b']. right. by exists symbol, b', (fun s => OrderAccepted s symbol id), ts.
  - destruct (a_contains b id); [|by left]. right. by exists symbol, (a_remove id b), (fun s => OrderCanceled s symbol id), [].
  - destruct (negb (a_contains b id) || negb true); [by left|]. destruct (a_modify b id price q) as [ts b']. right. by exists symbol, b', (fun s => OrderModified s symbol id), ts.
Qed.

Lemma gateway_shape config ae c :
  in_u64 (ae_seq ae) ->
  let r := a_gateway config ae c in
  exists fs, Forall numbered fs /\ g_events r.1 = number (ae_seq ae) fs /\ ae_seq r.2 = u64 (ae_seq ae + Z.of_nat (length fs)) /\
    Z.of_nat (length fs) <= 1 + events_trades (g_events r.1).
Proof.
  intros Hs. assert (forall ae', ae_seq ae' = ae_seq ae -> exists fs, Forall numbered fs /\ [] = number (ae_seq ae) fs /\ ae_seq ae' = u64 (ae_seq ae + Z.of_nat (length fs)) /\
    Z.of_nat (length fs) <= 1 + events_trades []) as Hnone.
  { intros ae' ->. exists []. cbn. by rewrite Z.add_0_r, u64_small. }
  destruct (decide (a_verdict config ae c = ReasonNone)) as [Hv|Hv]; [|rewrite verdict_rejected by done; by apply Hnone].
  destruct (accepted_records config ae c Hv) as (_ & E1 & E2). cbv zeta. rewrite E1, E2. destruct (apply_shape ae c) as [[-> Hq]|(symbol & b & f & ts & Hf & Hnt & ->)]; [by apply Hnone|].
  exists (f :: map (trade_event symbol) ts). split; [constructor; [done|]; apply Forall_map; by apply Forall_true|]. cbn [a_respond fst snd ae_seq]. split; [done|].
  split; [done|]. rewrite ack_trades by done. cbn [length]. rewrite List.length_map. lia.
Qed.

Lemma gateway_all_shape config cmds : forall ae,
  in_u64 (ae_seq ae) ->
  let r := a_gateway_all config ae cmds in
  exists fs, Forall numbered fs /\ concat (map g_events r.1) = number (ae_seq ae) fs /\ ae_seq r.2 = u64 (ae_seq ae + Z.of_nat (length fs)) /\
    Z.of_nat (length fs) <= Z.of_nat (length cmds) + results_trades r.1 /\ length r.1 = length cmds.
Proof.
  induction cmds as [|c cmds IH]; intros ae Hs; cbn [a_gateway_all].
  { exists []. cbn. by rewrite Z.add_0_r, u64_small. }
  destruct (gateway_shape config ae c Hs) as (fs & Hn & He & Hq & Hl). destruct (a_gateway config ae c) as [r ae1]. cbn [fst snd] in *.
  destruct (IH ae1) as (fs2 & Hn2 & He2 & Hq2 & Hl2 & Hlen); [rewrite Hq; apply u64_range|]. destruct (a_gateway_all config ae1 cmds) as [rs ae2]. cbn [fst snd] in *.
  exists (fs ++ fs2). split; [by apply Forall_app|]. cbn [map concat]. rewrite number_app, <- Hq, He, He2. split; [done|]. rewrite Hq2, Hq, u64_u64_add, length_app.
  split; [f_equal; lia|]. cbn [results_trades fold_right length]. unfold results_trades in *. rewrite Hlen. split; lia.
Qed.

(** ** The events of a log *)

Lemma log_events_of cmds : forall rs, length rs = length cmds ->
  omap (fun r => match r with Ev e => Some e | Rej _ => None end) (log_records cmds rs) = map logged (concat (map g_events rs)).
Proof.
  induction cmds as [|c cmds IH]; intros [|r rs] Hl; try done. injection Hl as Hl. unfold log_records in *. cbn [zip_with concat map]. rewrite omap_app, map_app, IH by done. f_equal.
  unfold step_records. rewrite omap_app. assert (forall l : list OrderId, omap (fun r => match r with Ev e => Some e | Rej _ => None end) (map Rej l) = []) as -> by (induction l; done).
  cbn [app]. induction (g_events r) as [|e es IHe]; [done|]. cbn. by rewrite IHe.
Qed.

Lemma logged_seq e : Verifier.seq (logged e) = seq_of e.
Proof. by destruct e. Qed.

Lemma logged_trades rs : Z.of_nat (length (filter (fun e => is_vtrade e = true) (map logged (concat (map g_events rs))))) = results_trades rs.
Proof.
  induction rs as [|r rs IH]; [done|]. cbn [map concat results_trades fold_right]. rewrite map_app, filter_app, length_app, Nat2Z.inj_add, IH. f_equal.
  induction (g_events r) as [|e es IHe]; [done|]. rewrite events_trades_cons, <- IHe. cbn [map]. rewrite filter_cons. destruct e; cbn [logged is_vtrade is_trade];
    [rewrite decide_False by done; lia..|rewrite decide_True by done; cbn [length]; lia].
Qed.

Lemma seqZ_last n : default 0 (last (seqZ 1 (Z.of_nat n))) = Z.of_nat n.
Proof.
  destruct n as [|n]; [done|]. replace (Z.of_nat (S n)) with (Z.of_nat n + 1) by lia. rewrite seqZ_app by lia. rewrite (seqZ_cons _ 1), (seqZ_nil _ (Z.pred 1)) by lia. rewrite last_snoc. cbn [from_option id]. lia.
Qed.

(** ** The whole run *)

Section Valid.
Context (owner : OrderId -> SymbolId) (config : RiskConfig) (cmds : list Command).
Context (Hfix : Forall fixture_command cmds) (Hown : Forall (owned owner) cmds).
Let r := a_gateway_all config a_engine_empty cmds.
Context (Htrades : Z.of_nat (length cmds) + results_trades r.1 < 2 ^ 62).

Definition log_fixture : fixture := mkFixture (log_records cmds r.1) (ae_seq r.2) (results_trades r.1).

Lemma run_seqs :
  map seq_of (concat (map g_events r.1)) = seqZ 1 (ae_seq r.2) /\ 0 <= ae_seq r.2 < 2 ^ 62 /\ length r.1 = length cmds.
Proof using Htrades.
  destruct (gateway_all_shape config cmds a_engine_empty) as (fs & Hn & He & Hq & Hl & Hlen); [done|]. fold r in He, Hq, Hl, Hlen. cbn [ae_seq a_engine_empty] in *.
  rewrite He, Hq. rewrite Z.add_0_l, u64_small by lia. split; [|split; [lia|done]]. by apply (number_seqs fs 0); [|lia|lia].
Qed.

Lemma run_tracked : tracked owner (fold_left lifetime_step (log_records cmds r.1) (mkLifetimes ∅ [] [])) r.2 /\ Forall (fun g => Forall plain (g_events g)) r.1.
Proof using Hfix Hown. apply gateway_tracked; [|done|done]. split; [done|constructor|constructor]. Qed.

Lemma log_valid : valid_log log_fixture.
Proof using Hfix Hown Htrades.
  destruct run_seqs as (Hs & Hb & Hlen), run_tracked as [[Hsil _ _] Hpl]. assert (events_of log_fixture = map logged (concat (map g_events r.1))) as Hev by (by apply log_events_of).
  assert (map Verifier.seq (map logged (concat (map g_events r.1))) = seqZ 1 (ae_seq r.2)) as Hseq.
  { rewrite map_map, <- Hs. apply map_ext. apply logged_seq. }
  pose proof (Z2Nat.id (ae_seq r.2) ltac:(lia)) as Hz. split; rewrite ?Hev.
  - rewrite Hseq, <- Hz. apply (seqZ_sorted _ 0).
  - apply Forall_map, Forall_concat, Forall_map. eapply Forall_impl; [exact Hpl|]. intros g Hg. eapply Forall_impl; [exact Hg|]. intros [] He; try done. by destruct He as (_ & _ & _ & _ & _ & ?).
  - apply (proj1 (lifetime_checks_spec log_fixture)). exact Hsil.
  - rewrite Hseq, <- Hz, seqZ_last. done.
  - by rewrite logged_trades.
Qed.

Lemma run_readable : Forall (fun g => Forall readable (g_events g)) r.1.
Proof using Hfix Hown Htrades.
  destruct run_seqs as (Hs & Hb & _), run_tracked as [_ Hpl]. apply Forall_forall. intros g Hg. rewrite Forall_forall in Hpl. specialize (Hpl g Hg).
  rewrite Forall_forall in Hpl |- *. intros e He. split; [|by apply Hpl].
  assert (seq_of e ∈ seqZ 1 (ae_seq r.2)) as Hin.
  { rewrite <- Hs. apply list_elem_of_fmap_2. apply list_elem_of_In, in_concat. exists (g_events g). split; [|by apply list_elem_of_In].
    apply in_map. by apply list_elem_of_In. }
  apply elem_of_seqZ in Hin. unfold nat62. lia.
Qed.
End Valid.

(** ** The synthetic flow *)

Section Generated.
Context {B : Type} `{BookStore B}.
Implicit Types g : FlowGenerator B.

Definition limit_id (c : Command) : option (OrderId * SymbolId) := match c with NewLimit symbol id _ _ _ _ => Some (id, symbol) | _ => None end.

(** The ids of the limit orders so far are below the generator's next id. *)
Definition ids_below (n : Z) (owner : OrderId -> SymbolId) (flow : list Command) : Prop :=
  Forall (fun c => owned owner c /\ forall id symbol, limit_id c = Some (id, symbol) -> id < n) flow.

Lemma roll_next k g : next_id_ (roll k g).2 = next_id_ g.
Proof. unfold roll. by destruct (draw k (rng_ g)). Qed.

Ltac next_rolls :=
  repeat match goal with
  | |- context [roll ?k ?g] => let E := fresh in pose proof (roll_next k g) as E; destruct (roll k g); cbn [fst snd] in *
  | |- context [if ?b then _ else _] => destruct b
  end; cbn [fst snd next_id_ set_mid set_active set_model] in *; try congruence.

Lemma choose_symbol_next g : next_id_ (choose_symbol g).2 = next_id_ g.
Proof. unfold choose_symbol. next_rolls. Qed.
Lemma drift_mid_next symbol g : next_id_ (drift_mid symbol g) = next_id_ g.
Proof. unfold drift_mid. next_rolls. Qed.
Lemma flow_price_next crosses symbol side g : next_id_ (flow_price crosses symbol side g).2 = next_id_ g.
Proof. unfold flow_price, crossing_price, resting_price. next_rolls. Qed.
Lemma choose_tif_next crosses g : next_id_ (choose_tif crosses g).2 = next_id_ g.
Proof. unfold choose_tif. next_rolls. Qed.
Lemma choose_side_next g : next_id_ (choose_side g).2 = next_id_ g.
Proof. unfold choose_side. next_rolls. Qed.
Lemma target_active_next g : next_id_ (target_active g).2 = next_id_ g.
Proof. unfold target_active. next_rolls. Qed.

(** The command is a limit order with the next id, or not a limit order. *)
Definition takes_next g (c : Command) g' : Prop :=
  match limit_id c with
  | Some (id, _) => id = next_id_ g /\ next_id_ g' = u64 (next_id_ g + 1)
  | None => next_id_ g' = next_id_ g \/ next_id_ g' = u64 (next_id_ g + 1)
  end.

Lemma next_command_next symbol g : takes_next g (next_command symbol g).1 (next_command symbol g).2.
Proof.
  unfold next_command. pose proof (roll_next 100 g) as Hr. destruct (roll 100 g) as [pick g1]. cbn [snd] in Hr. destruct (is_nil (active_ g1) || (pick <? 58)); [|destruct (pick <? 70); [|destruct (pick <? 86)]].
  - unfold make_limit. pose proof (choose_side_next g1) as H1. destruct (choose_side g1) as [side g2]. pose proof (roll_next 100 g2) as H2. destruct (roll 100 g2) as [v g3].
    pose proof (choose_tif_next (v <? 18) g3) as H3. destruct (choose_tif (v <? 18) g3) as [tif g4]. pose proof (flow_price_next (v <? 18) symbol side g4) as H4.
    destruct (flow_price (v <? 18) symbol side g4) as [price g5]. pose proof (roll_next 12 g5) as H5. destruct (roll 12 g5) as [w g6]. cbn in *. split; congruence.
  - unfold make_market. pose proof (choose_side_next g1) as H1. destruct (choose_side g1) as [side g2]. pose proof (roll_next 12 g2) as H2. destruct (roll 12 g2) as [v g3]. cbn in *.
    right. congruence.
  - unfold make_cancel. pose proof (target_active_next g1) as H1. destruct (target_active g1) as [target g2]. pose proof (roll_next 10 g2) as H2. destruct (roll 10 g2) as [v g3].
    pose proof (roll_next 5 g3) as H3. destruct (v =? 0); [destruct (roll 5 g3)|]; left; cbn in *; congruence.
  - unfold make_modify. pose proof (target_active_next g1) as H1. destruct (target_active g1) as [target g2]. pose proof (roll_next 100 g2) as H2. destruct (roll 100 g2) as [v g3].
    pose proof (flow_price_next (v <? 20) (ao_symbol target) (ao_side target) g3) as H4. destruct (flow_price (v <? 20) (ao_symbol target) (ao_side target) g3) as [price g5].
    pose proof (roll_next 100 g5) as H5. destruct (roll 100 g5) as [w g6]. pose proof (roll_next 12 g6) as H6. destruct (w <? 45); [|destruct (roll 12 g6)]; left; cbn in *; congruence.
Qed.

Lemma apply_and_track_next c g : next_id_ (apply_and_track c g) = next_id_ g.
Proof. unfold apply_and_track. destruct c; try done. by destruct (Engine.contains _ _ _). Qed.

Lemma append_next_owned n flow g owner :
  0 <= n < 2 ^ 61 -> gen_ok n g -> ids_below (next_id_ g) owner flow ->
  let r := append_next (flow, g) in exists owner', ids_below (next_id_ r.2) owner' r.1.
Proof.
  intros Hn Hg Hb. pose proof (go_next _ _ Hg) as Hnx. unfold append_next. pose proof (choose_symbol_next g) as H1. destruct (choose_symbol g) as [symbol g1]. cbn [snd] in H1. cbv zeta.
  set (g2 := refresh_active (drift_mid symbol g1)). assert (next_id_ g2 = next_id_ g) as H2 by (unfold g2, refresh_active, set_active; cbn [next_id_]; by rewrite drift_mid_next).
  pose proof (next_command_next symbol g2) as Ht. destruct (next_command symbol g2) as [c g3]. cbn [fst snd] in *. rewrite apply_and_track_next. unfold takes_next in Ht. rewrite H2 in Ht.
  assert (u64 (next_id_ g + 1) = next_id_ g + 1) as Hu by (apply u64_small; lia). rewrite Hu in Ht. destruct (limit_id c) as [[id s]|] eqn:Ec.
  - destruct Ht as [-> Ht]. exists (fun i => if i =? next_id_ g then s else owner i). apply Forall_app. split.
    + eapply Forall_impl; [exact Hb|]. intros x [Hx Hlt]. split; [|intros i s' Hi; specialize (Hlt i s' Hi); lia].
      destruct x as [|sym i sd px q tif| | |]; try done. cbn in *. specialize (Hlt i sym eq_refl). by replace (i =? next_id_ g) with false by lia.
    + apply Forall_singleton. split; [|intros i s' Hi; assert (i = next_id_ g) as -> by congruence; lia].
      destruct c as [|sym i sd px q tif| | |]; try done. cbn in *. injection Ec as -> ->. by rewrite Z.eqb_refl.
  - exists owner. apply Forall_app. split.
    + eapply Forall_impl; [exact Hb|]. intros x [Hx Hlt]. split; [done|]. intros i s' Hi. specialize (Hlt i s' Hi). lia.
    + apply Forall_singleton. destruct c; done.
Qed.

Lemma generate_flow_owned seed symbols orders :
  in_u32 symbols -> Z.of_nat orders < 2 ^ 61 -> exists owner, Forall (owned owner) (generate_flow (B := B) seed symbols orders).
Proof.
  intros Hs Ho. unfold generate_flow, generate. cbn [symbols_ new_flow_generator].
  assert (ids_below 1 (fun _ => 0) (registrations symbols)) as Hreg by (apply Forall_map, Forall_true; done).
  destruct (symbols =? 0) eqn:E0; [exists (fun _ => 0); eapply Forall_impl; [exact Hreg|]; by intros c []|].
  set (g0 := initialize_mid_prices _). assert (gen_ok 0 g0 /\ next_id_ g0 = 1) as [Hg0 Hn0].
  { split; [apply flow_start_ok; unfold in_u32 in Hs; lia|]. unfold g0, initialize_mid_prices. cbn [next_id_ set_mid]. by destruct (register_symbols_fields (registrations symbols) (new_flow_generator (B := B) seed symbols)) as (_ & _ & ->). }
  rewrite <- Hn0 in Hreg. clearbody g0. assert (let r := Nat.iter orders append_next (registrations symbols, g0) in
    Forall fixture_command r.1 /\ gen_ok (Z.of_nat orders) r.2 /\ exists owner, ids_below (next_id_ r.2) owner r.1) as (_ & _ & owner & Hr).
  { induction orders as [|k IH]; [split; [by apply registrations_ok|]; split; [exact Hg0|by exists (fun _ => 0)]|]. destruct IH as (R1 & R2 & owner & R3); [lia|].
    change (Nat.iter (S k) append_next ?s) with (append_next (Nat.iter k append_next s)). destruct (Nat.iter k append_next _) as [flow g]. cbn [fst snd] in *.
    destruct (append_next_ok (Z.of_nat k) flow g ltac:(lia) R1 R2) as (Q1 & _ & Q3). cbv zeta. split; [done|]. split; [by replace (Z.of_nat (S k)) with (Z.of_nat k + 1) by lia|].
    by apply (append_next_owned (Z.of_nat k) flow g owner); [lia|..]. }
  exists owner. eapply Forall_impl; [exact Hr|]. by intros c [].
Qed.
End Generated.
