(* ===== verification/Session.v ===== *)
(** * Session: the byte-level order-entry session

    include/qsl/gateway/session.hpp and src/gateway/session.cpp: buffer inbound
    bytes, cut them into frames, drive the order gateway and append the response
    frames, refusing a frame whose response would exceed the output budget. *)
From S2P Require Import Prelude Core Book BookSpec Endian Command Protocol Engine EngineSpec Gateway.

Inductive SessionStatus := SessionOk | OutputLimitExceeded.

#[export] Instance SessionStatus_eq_dec : EqDecision SessionStatus.
Proof. solve_decision. Defined.

Definition frame_bytes (body_bytes : nat) : Z := Z.of_nat kHeaderSize + Z.of_nat body_bytes.

Definition kHeartbeatAckFrameBytes : Z := frame_bytes kHeartbeatBodySize.
Definition kAckFrameBytes : Z := frame_bytes kAckBodySize.
Definition kRejectFrameBytes : Z := frame_bytes kRejectBodySize.
Definition kFillFrameBytes : Z := frame_bytes kFillBodySize.

Definition has_space (current add limit : Z) : bool := (current <=? limit) && (add <=? limit - current).

Definition add_saturating (a b : Z) : Z := if size_max - a <? b then size_max else a + b.

Definition mul_saturating (a b : Z) : Z :=
  if negb (a =? 0) && (size_max / a <? b) then size_max else a * b.

Definition is_trade (event : EngineEvent) : bool :=
  match event with TradeEvent _ _ _ _ _ _ => true | _ => false end.

Definition result_wire_size (result : GatewayResult) : Z :=
  if negb (g_accepted result) then kRejectFrameBytes
  else fold_left (fun size event => if is_trade event then add_saturating size kFillFrameBytes else size)
         (g_events result) kAckFrameBytes.

Definition append (out b : bytes) (max_output_bytes : Z) : SessionStatus * bytes :=
  if negb (has_space (Z.of_nat (length out)) (Z.of_nat (length b)) max_output_bytes)
  then (OutputLimitExceeded, out)
  else (SessionOk, out ++ b).

(** The loop over the events; an earlier failure stops it. *)
Definition emit_fill (max_output_bytes : Z) (s : SessionStatus * bytes) (event : EngineEvent) :
    SessionStatus * bytes :=
  let '(status, out) := s in
  if negb (bool_decide (status = SessionOk)) then s
  else
    match event with
    | TradeEvent seq _ taker maker price quantity =>
        append out (encode_fill (mkFill taker maker price quantity seq)) max_output_bytes
    | _ => s
    end.

Definition emit_result (order_id : OrderId) (result : GatewayResult) (out : bytes)
    (max_output_bytes : Z) : SessionStatus * bytes :=
  if negb (has_space (Z.of_nat (length out)) (result_wire_size result) max_output_bytes)
  then (OutputLimitExceeded, out)
  else if negb (g_accepted result)
  then append out (encode_reject (mkReject order_id (g_reason result))) max_output_bytes
  else
    let ack_seq := match g_events result with [] => 0 | event :: _ => seq_of event end in
    let '(status, out) := append out (encode_ack (mkAck order_id ack_seq)) max_output_bytes in
    if negb (bool_decide (status = SessionOk)) then (OutputLimitExceeded, out)
    else fold_left (emit_fill max_output_bytes) (g_events result) (SessionOk, out).

Section Session.
Context {B : Type} `{BookStore B}.
Variable config : RiskConfig.

(** [FrameContext]: the engine behind the gateway, the session's logged-out flag
    and the output buffer, all held by reference, and the budget. *)
Record FrameContext := mkFrameContext {
  fc_engine : MatchingEngine B;
  fc_logged_out : bool;
  fc_out : bytes
}.

Definition ensure_new_order_budget (e : MatchingEngine B) (order : NewOrder) (out : bytes)
    (max_output_bytes : Z) : SessionStatus :=
  let preview := preview_new_order config e (no_symbol order) (no_order_id order) (no_side order)
                   (no_price order) (no_quantity order) (no_type order) (no_tif order) in
  let required :=
    if p_accepted preview
    then add_saturating kAckFrameBytes (mul_saturating (p_fill_count preview) kFillFrameBytes)
    else kRejectFrameBytes in
  if has_space (Z.of_nat (length out)) required max_output_bytes then SessionOk
  else OutputLimitExceeded.

Definition close_session (ctx : FrameContext) (status : SessionStatus) : SessionStatus * FrameContext :=
  (status, mkFrameContext (fc_engine ctx) true (fc_out ctx)).

Definition close_for_malformed_body (ctx : FrameContext) : SessionStatus * FrameContext :=
  close_session ctx SessionOk.

Definition close_for_output_limit (ctx : FrameContext) : SessionStatus * FrameContext :=
  close_session ctx OutputLimitExceeded.

Definition emit_or_close (ctx : FrameContext) (max_output_bytes : Z) (order_id : OrderId)
    (result : GatewayResult) : SessionStatus * FrameContext :=
  let '(status, out) := emit_result order_id result (fc_out ctx) max_output_bytes in
  let ctx := mkFrameContext (fc_engine ctx) (fc_logged_out ctx) out in
  if bool_decide (status = SessionOk) then (SessionOk, ctx) else close_for_output_limit ctx.

Definition handle_new_order (ctx : FrameContext) (max_output_bytes : Z) (frame : bytes) :
    SessionStatus * FrameContext :=
  let request := decode_new_order frame in
  if negb (decode_ok request) then close_for_malformed_body ctx
  else if negb (max_output_bytes =? size_max) &&
          negb (bool_decide (ensure_new_order_budget (fc_engine ctx) (d_value request) (fc_out ctx)
                               max_output_bytes = SessionOk))
  then close_for_output_limit ctx
  else
    let o := d_value request in
    let '(result, e) :=
      if bool_decide (no_type o = Market)
      then gw_new_market config (fc_engine ctx) (no_symbol o) (no_order_id o) (no_side o) (no_quantity o)
      else gw_new_limit config (fc_engine ctx) (no_symbol o) (no_order_id o) (no_side o) (no_price o)
             (no_quantity o) (no_tif o) in
    emit_or_close (mkFrameContext e (fc_logged_out ctx) (fc_out ctx)) max_output_bytes
      (no_order_id o) result.

Definition handle_cancel_order (ctx : FrameContext) (max_output_bytes : Z) (frame : bytes) :
    SessionStatus * FrameContext :=
  let request := decode_cancel_order frame in
  if negb (decode_ok request) then close_for_malformed_body ctx
  else if negb (has_space (Z.of_nat (length (fc_out ctx))) (Z.max kAckFrameBytes kRejectFrameBytes)
                  max_output_bytes)
  then close_for_output_limit ctx
  else
    let '(result, e) :=
      gw_cancel (fc_engine ctx) (co_symbol (d_value request)) (co_order_id (d_value request)) in
    emit_or_close (mkFrameContext e (fc_logged_out ctx) (fc_out ctx)) max_output_bytes
      (co_order_id (d_value request)) result.

Definition handle_heartbeat (ctx : FrameContext) (max_output_bytes : Z) (frame : bytes) :
    SessionStatus * FrameContext :=
  let request := decode_heartbeat frame in
  if negb (decode_ok request) then close_for_malformed_body ctx
  else if negb (has_space (Z.of_nat (length (fc_out ctx))) kHeartbeatAckFrameBytes max_output_bytes)
  then close_for_output_limit ctx
  else
    let '(status, out) :=
      append (fc_out ctx) (encode_heartbeat_ack (mkHeartbeatAck (hb_token (d_value request))))
        max_output_bytes in
    (status, mkFrameContext (fc_engine ctx) (fc_logged_out ctx) out).

Definition handle_unexpected_message (ctx : FrameContext) : SessionStatus * FrameContext :=
  close_session ctx SessionOk.

Definition process_frame (ctx : FrameContext) (frame : bytes) (max_output_bytes : Z) :
    SessionStatus * FrameContext :=
  match h_type (d_value (decode_header frame)) with
  | MtNewOrder => handle_new_order ctx max_output_bytes frame
  | MtCancelOrder => handle_cancel_order ctx max_output_bytes frame
  | MtHeartbeat => handle_heartbeat ctx max_output_bytes frame
  | _ => handle_unexpected_message ctx
  end.

(** The session itself: the bytes not yet consumed and the flag; the engine is
    the gateway's. *)
Record Session := mkSession {
  inbuf_ : bytes;
  logged_out_ : bool;
  s_engine : MatchingEngine B
}.

(** The loop of [on_bytes]: context, consumed bytes, and the status the loop was
    left with ([None] while it runs). *)
Definition frame_step (inbuf : bytes) (max_output_bytes : Z)
    (s : FrameContext * nat * option SessionStatus) : FrameContext * nat * option SessionStatus :=
  let '(ctx, consumed, _) := s in
  let remaining := drop consumed inbuf in
  if (length remaining <? kHeaderSize)%nat then (ctx, consumed, Some SessionOk)
  else
    let header := decode_header remaining in
    if negb (decode_ok header)
    then (mkFrameContext (fc_engine ctx) true (fc_out ctx), consumed, Some SessionOk)
    else
      let total := (kHeaderSize + Z.to_nat (h_body_len (d_value header)))%nat in
      if (length remaining <? total)%nat then (ctx, consumed, Some SessionOk)
      else
        let '(status, ctx) := process_frame ctx (take total remaining) max_output_bytes in
        if negb (bool_decide (status = SessionOk)) then (ctx, consumed, Some status)
        else (ctx, (consumed + total)%nat, None).

Definition frame_running (s : FrameContext * nat * option SessionStatus) : bool :=
  let '(ctx, _, status) := s in
  match status with None => negb (fc_logged_out ctx) | Some _ => false end.

(** Every frame has a header, so [length inbuf] iterations are enough. *)
Definition frame_loop (inbuf : bytes) (max_output_bytes : Z) (ctx : FrameContext) :
    FrameContext * nat * option SessionStatus :=
  while (S (length inbuf)) frame_running (frame_step inbuf max_output_bytes) (ctx, O, None).

Definition on_bytes_into (s : Session) (input out : bytes) (max_output_bytes : Z) :
    SessionStatus * bytes * Session :=
  if logged_out_ s then (SessionOk, out, s)
  else
    let inbuf := inbuf_ s ++ input in
    let '(ctx, consumed, status) :=
      frame_loop inbuf max_output_bytes (mkFrameContext (s_engine s) (logged_out_ s) out) in
    (default SessionOk status, fc_out ctx,
     mkSession (drop consumed inbuf) (fc_logged_out ctx) (fc_engine ctx)).

Definition on_bytes (s : Session) (input : bytes) : bytes * Session :=
  let '(_, out, s') := on_bytes_into s input [] size_max in (out, s').
End Session.
Arguments FrameContext B : clear implicits.
Arguments mkFrameContext {B}.
Arguments fc_engine {B}.
Arguments fc_logged_out {B}.
Arguments fc_out {B}.
Arguments Session B : clear implicits.
Arguments mkSession {B}.
Arguments inbuf_ {B}.
Arguments logged_out_ {B}.
Arguments s_engine {B}.
