(* ===== verification/SessionSpec.v ===== *)
(** * SessionSpec: framing and output budget of a session

    A session's behaviour does not depend on how the transport cuts the byte
    stream into reads, and a bounded session refuses a frame before the engine
    is touched when the response could not be delivered. *)
From S2P Require Import Prelude Core Book BookSpec Endian Command Protocol Engine EngineSpec Gateway Session.

(** ** Sessions up to bytes that can no longer matter *)

Section Equivalence.
Context {B : Type}.

(** A logged-out session ignores its input, so its leftover bytes are not
    observable. *)
Definition session_eq (s s' : Session B) : Prop :=
  logged_out_ s = logged_out_ s' /\ s_engine s = s_engine s' /\
  (logged_out_ s = false -> inbuf_ s = inbuf_ s').

#[global] Instance session_eq_equivalence : Equivalence session_eq.
Proof.
  split.
  - by intros s.
  - intros s s' (H1 & H2 & H3). split_and!; try done. intros H. symmetry. apply H3. congruence.
  - intros s s' s'' (H1 & H2 & H3) (H4 & H5 & H6). split_and!; [congruence..|].
    intros H. rewrite H3 by done. apply H6. congruence.
Qed.

(** The outcome of a call: status and output exactly, the session up to
    [session_eq]. *)
Definition outcome_eq (r r' : SessionStatus * bytes * Session B) : Prop :=
  r.1 = r'.1 /\ session_eq r.2 r'.2.

#[global] Instance outcome_eq_equivalence : Equivalence outcome_eq.
Proof.
  split.
  - by intros r.
  - intros r r' [H1 H2]. by split; symmetry.
  - intros r r' r'' [H1 H2] [H3 H4]. split; [congruence|by etransitivity].
Qed.
End Equivalence.

Section Chunking.
Context {B : Type} `{BookStore B}.
Variable config : RiskConfig.
Variable M : Z.
Implicit Types ctx : FrameContext B.
Implicit Types s : Session B.

#[local] Abbreviation loop n inbuf ctx c :=
  (while n frame_running (frame_step config inbuf M) (ctx, c, None)).

(** One iteration consumes at least a header or ends the loop. *)
Lemma frame_step_progress inbuf ctx c ctx' c' :
  frame_step config inbuf M (ctx, c, None) = (ctx', c', None) ->
  (c + kHeaderSize <= c' <= length inbuf)%nat.
Proof.
  unfold frame_step. rewrite length_drop. destruct (Nat.ltb_spec (length inbuf - c) kHeaderSize); [done|].
  destruct (negb (decode_ok _)); [done|].
  set (total := (kHeaderSize + Z.to_nat (h_body_len (d_value (decode_header (drop c inbuf)))))%nat).
  destruct (Nat.ltb_spec (length inbuf - c) total); [done|].
  destruct (process_frame _ _ _ _) as [status ctx1]. case_bool_decide; cbn [negb]; [|done].
  intros E. injection E as <- <-. unfold total, kHeaderSize in *. lia.
Qed.

Lemma loop_fuel n : forall n' inbuf ctx c,
  (length inbuf - c < n)%nat -> (length inbuf - c < n')%nat -> loop n inbuf ctx c = loop n' inbuf ctx c.
Proof.
  induction n as [|n IH]; intros n' inbuf ctx c Hn Hn'; [lia|]. destruct n' as [|n']; [lia|].
  cbn [while]. destruct (frame_running (ctx, c, None)); [|done].
  destruct (frame_step config inbuf M (ctx, c, None)) as [[ctx1 c1] [st|]] eqn:E.
  - by rewrite !while_false.
  - apply frame_step_progress in E. unfold kHeaderSize in E. apply IH; lia.
Qed.

(** Bytes before the cursor do not matter. *)
Lemma frame_step_shift inbuf k ctx c :
  frame_step config (drop k inbuf) M (ctx, c, None) =
    let '(ctx', c', st) := frame_step config inbuf M (ctx, (k + c)%nat, None) in (ctx', (c' - k)%nat, st).
Proof.
  unfold frame_step. rewrite !drop_drop.
  destruct (Nat.ltb_spec (length (drop (k + c) inbuf)) kHeaderSize); [do 2 f_equal; lia|].
  destruct (negb (decode_ok _)); [do 2 f_equal; lia|].
  destruct (Nat.ltb_spec (length (drop (k + c) inbuf)) (kHeaderSize + Z.to_nat (h_body_len (d_value (decode_header (drop (k + c) inbuf)))))); [do 2 f_equal; lia|].
  destruct (process_frame _ _ _ _) as [status ctx1]. case_bool_decide; cbn [negb]; do 2 f_equal; lia.
Qed.

Lemma loop_shift n : forall inbuf k ctx c,
  loop n (drop k inbuf) ctx c =
    let '(ctx', c', st) := loop n inbuf ctx (k + c)%nat in (ctx', (c' - k)%nat, st).
Proof.
  induction n as [|n IH]; intros inbuf k ctx c; cbn [while]; [do 2 f_equal; lia|].
  cbn [frame_running]. destruct (negb (fc_logged_out ctx)); [|do 2 f_equal; lia].
  rewrite frame_step_shift.
  destruct (frame_step config inbuf M (ctx, (k + c)%nat, None)) as [[ctx1 c1] [st|]] eqn:E.
  - by rewrite !while_false.
  - apply frame_step_progress in E. rewrite IH. replace (k + (c1 - k))%nat with c1 by lia. done.
Qed.

(** Decisions on the bytes at hand stay when more bytes arrive. *)
Lemma decode_header_app p q : (kHeaderSize <= length p)%nat -> decode_header (p ++ q) = decode_header p.
Proof.
  intros Hl. unfold decode_header. rewrite length_app.
  rewrite (proj2 (Nat.ltb_ge _ _)), (proj2 (Nat.ltb_ge _ _)) by lia. unfold kHeaderSize in *.
  by rewrite !load_be_app_l by lia.
Qed.

(** How one iteration over [a] relates to the same iteration over [a ++ b]:
    the same result, or [a] ran out of bytes. *)
Lemma frame_step_app a b ctx c :
  (c <= length a)%nat ->
  frame_step config (a ++ b) M (ctx, c, None) = frame_step config a M (ctx, c, None) \/
  frame_step config a M (ctx, c, None) = (ctx, c, Some SessionOk).
Proof.
  intros Hc. unfold frame_step. rewrite drop_app_le by done. rewrite length_app.
  set (r := drop c a).
  destruct (Nat.ltb_spec (length r) kHeaderSize) as [|Hl]; [by right|].
  rewrite (proj2 (Nat.ltb_ge _ _)) by lia. rewrite decode_header_app by done.
  destruct (negb (decode_ok (decode_header r))); [by left|].
  set (total := (kHeaderSize + Z.to_nat (h_body_len (d_value (decode_header r))))%nat).
  destruct (Nat.ltb_spec (length r) total); [by right|].
  rewrite (proj2 (Nat.ltb_ge _ _)) by lia. rewrite take_app_le by done. by left.
Qed.

(** A frame refused for its output closes the session. *)
Lemma process_frame_limit_closes ctx frame st ctx' :
  process_frame config ctx frame M = (st, ctx') -> st <> SessionOk -> fc_logged_out ctx' = true.
Proof.
  assert (forall e lo out id r, emit_or_close (mkFrameContext e lo out) M id r = (st, ctx') ->
    st <> SessionOk -> fc_logged_out ctx' = true) as Hemit.
  { intros e lo out id r. unfold emit_or_close. destruct (emit_result _ _ _ _) as [st' o].
    case_bool_decide; intros E Hst; injection E as <- <-; done. }
  unfold process_frame. destruct (h_type _); try (intros E ?; by injection E as <- <-).
  - unfold handle_new_order, close_for_malformed_body, close_for_output_limit, close_session.
    case_if; [intros E ?; by injection E as <- <-|]. case_if; [intros E ?; by injection E as <- <-|].
    case_if; [destruct (gw_new_market _ _ _ _ _ _)|destruct (gw_new_limit _ _ _ _ _ _ _ _)]; apply Hemit.
  - unfold handle_cancel_order, close_for_malformed_body, close_for_output_limit, close_session.
    case_if; [intros E ?; by injection E as <- <-|]. case_if; [intros E ?; by injection E as <- <-|].
    destruct (gw_cancel _ _ _); apply Hemit.
  - unfold handle_heartbeat, close_for_malformed_body, close_for_output_limit, close_session.
    case_if; [intros E ?; by injection E as <- <-|].
    destruct (negb (has_space _ _ _)) eqn:Hs; [intros E ?; by injection E as <- <-|].
    unfold append. rewrite length_encode_heartbeat_ack.
    change (Z.of_nat (kHeaderSize + kHeartbeatBodySize)) with kHeartbeatAckFrameBytes. rewrite Hs.
    intros E ?. by injection E as <- <-.
Qed.

(** An iteration that ends the loop consumes nothing; with status Ok it either
    waits for bytes or has logged the session out. *)
Lemma frame_step_stop inbuf ctx c ctx' c' st :
  frame_step config inbuf M (ctx, c, None) = (ctx', c', Some st) ->
  c' = c /\ (st = SessionOk /\ ctx' = ctx \/ fc_logged_out ctx' = true).
Proof.
  unfold frame_step. destruct (Nat.ltb _ _); [intros E; injection E as <- <- <-; auto|].
  destruct (negb (decode_ok _)); [intros E; injection E as <- <- <-; auto|].
  destruct (Nat.ltb _ _); [intros E; injection E as <- <- <-; auto|].
  destruct (process_frame _ _ _ _) as [status ctx1] eqn:Ep.
  case_bool_decide; cbn [negb]; [done|]. intros E. injection E as <- <- <-.
  split; [done|]. right. by eapply process_frame_limit_closes.
Qed.

Lemma loop_unfold n inbuf ctx c :
  (length inbuf - c < n)%nat -> fc_logged_out ctx = false ->
  loop n inbuf ctx c =
    let '(ctx1, c1, st) := frame_step config inbuf M (ctx, c, None) in
    match st with Some _ => (ctx1, c1, st) | None => loop n inbuf ctx1 c1 end.
Proof.
  intros Hn El. destruct n as [|n]; [lia|]. cbn [while frame_running]. rewrite El. cbn [negb].
  destruct (frame_step config inbuf M (ctx, c, None)) as [[ctx1 c1] [st|]] eqn:E; [by rewrite while_false|].
  apply frame_step_progress in E. unfold kHeaderSize in E.
  transitivity (loop (S n) inbuf ctx1 c1); [apply loop_fuel; lia|done].
Qed.

(** The fuel is enough: the loop ends by its own condition, logged out or waiting
    for bytes, never before its starting point. *)
Lemma loop_ends n : forall inbuf ctx c,
  (length inbuf - c < n)%nat ->
  let '(ctx', c', st) := loop n inbuf ctx c in
  (c <= c')%nat /\ (fc_logged_out ctx' = false -> st = Some SessionOk).
Proof.
  induction n as [|n IH]; intros inbuf ctx c Hn; [lia|]. cbn [while frame_running].
  destruct (fc_logged_out ctx) eqn:El; cbn [negb]; [by rewrite El|].
  destruct (frame_step config inbuf M (ctx, c, None)) as [[ctx1 c1] [st|]] eqn:E.
  - apply frame_step_stop in E as [-> Hst]. rewrite while_false by done. split; [done|].
    intros El1. destruct Hst as [[-> _]|]; congruence.
  - apply frame_step_progress in E. unfold kHeaderSize in E.
    specialize (IH inbuf ctx1 c1 ltac:(lia)). destruct (loop n inbuf ctx1 c1) as [[ctx2 c2] st].
    destruct IH as [H1 H2]. split; [lia|done].
Qed.

(** What the loop over [a ++ b] does, given what the loop over [a] left. *)
Definition continues_with (a b : bytes) (ctx : FrameContext B) (c : nat)
    (r : FrameContext B * nat * option SessionStatus) : Prop :=
  let '(ctx1, c1, st) := r in
  (c1 <= length a)%nat /\
  forall n, (length (a ++ b) - c < n)%nat ->
    if fc_logged_out ctx1
    then loop n (a ++ b) ctx c = (ctx1, c1, st)
    else loop n (a ++ b) ctx c = loop n (a ++ b) ctx1 c1.

(** The loop over [a ++ b] is the loop over [a], continued where [a] ran out. *)
Lemma loop_app a b n : forall ctx c,
  (c <= length a)%nat -> (length a - c < n)%nat -> continues_with a b ctx c (loop n a ctx c).
Proof.
  induction n as [|n IH]; intros ctx c Hc Hn; [lia|].
  destruct (fc_logged_out ctx) eqn:El.
  { rewrite while_false by (simpl; by rewrite El). split; [done|]. intros n' _.
    rewrite El. rewrite while_false; [done|]. simpl. by rewrite El. }
  cbn [while frame_running]. rewrite El. cbn [negb].
  destruct (frame_step_app a b ctx c Hc) as [Heq|Heq].
  2: { rewrite Heq, while_false by done. split; [done|]. by rewrite El. }
  destruct (frame_step config a M (ctx, c, None)) as [[ctx1 c1] [st|]] eqn:E.
  - rewrite while_false by done. apply frame_step_stop in E as [-> Hst]. split; [done|].
    intros n' Hn'. destruct (fc_logged_out ctx1) eqn:El1.
    { by rewrite loop_unfold, Heq by done. }
    by destruct Hst as [[-> ->]|]; [|congruence].
  - pose proof (frame_step_progress _ _ _ _ _ E) as Hp. unfold kHeaderSize in Hp.
    specialize (IH ctx1 c1 ltac:(lia) ltac:(lia)).
    destruct (loop n a ctx1 c1) as [[ctx2 c2] st]. destruct IH as [Hc2 IH]. split; [done|].
    intros n' Hn'. rewrite length_app in *. specialize (IH n' ltac:(lia)).
    rewrite (loop_unfold n' (a ++ b) ctx c), Heq; [done| |done]. rewrite length_app. lia.
Qed.

(** How a call's outcome follows from its loop. *)
Lemma on_bytes_into_loop s input out n :
  logged_out_ s = false -> (length (inbuf_ s ++ input) < n)%nat ->
  on_bytes_into config s input out M =
    let '(ctx, c, st) := loop n (inbuf_ s ++ input) (mkFrameContext (s_engine s) false out) O in
    (default SessionOk st, fc_out ctx, mkSession (drop c (inbuf_ s ++ input)) (fc_logged_out ctx) (fc_engine ctx)).
Proof.
  intros El Hn. unfold on_bytes_into, frame_loop. rewrite El.
  by rewrite (loop_fuel _ n) by lia.
Qed.

Lemma on_bytes_into_out s input out :
  logged_out_ s = true -> on_bytes_into config s input out M = (SessionOk, out, s).
Proof. intros El. unfold on_bytes_into. by rewrite El. Qed.

(** Two reads, with the output buffer carried along, are one read of the
    concatenation; when the first read already fails, so does the longer one,
    with the same result. *)
Lemma on_bytes_into_app s a b out :
  outcome_eq (on_bytes_into config s (a ++ b) out M)
    (let '(st, out1, s1) := on_bytes_into config s a out M in
     if bool_decide (st = SessionOk) then on_bytes_into config s1 b out1 M else (st, out1, s1)).
Proof.
  destruct (logged_out_ s) eqn:El.
  { rewrite !on_bytes_into_out by done. by rewrite bool_decide_true. }
  set (n := S (length ((inbuf_ s ++ a) ++ b))).
  assert (length (inbuf_ s ++ a) < n)%nat as Hn by (unfold n; rewrite !length_app; lia).
  rewrite (on_bytes_into_loop s (a ++ b) out n) by (done || (unfold n; rewrite app_assoc; lia)).
  rewrite (on_bytes_into_loop s a out n) by done.
  rewrite (app_assoc (inbuf_ s) a b). set (ia := inbuf_ s ++ a) in *.
  pose proof (loop_app ia b n (mkFrameContext (s_engine s) false out) O ltac:(lia) ltac:(lia)) as Ha.
  pose proof (loop_ends n ia (mkFrameContext (s_engine s) false out) O ltac:(lia)) as Hend.
  destruct (loop n ia (mkFrameContext (s_engine s) false out) O) as [[ctx1 c1] st].
  destruct Ha as [Hc1 Ha], Hend as [_ Hend]. specialize (Ha n). rewrite Nat.sub_0_r in Ha.
  specialize (Ha ltac:(unfold n; lia)). destruct (fc_logged_out ctx1) eqn:El1.
  - rewrite Ha. destruct (default SessionOk st) eqn:Est; case_bool_decide; try done.
    + rewrite on_bytes_into_out by done. split; [done|]. by rewrite El1.
    + split; [done|]. by rewrite El1.
  - rewrite Hend by done. cbn [default]. rewrite bool_decide_true by done. rewrite Ha.
    rewrite (on_bytes_into_loop _ b (fc_out ctx1) n); [|done|cbn [inbuf_]; unfold n; rewrite !length_app, length_drop; lia].
    cbn [inbuf_ s_engine logged_out_]. rewrite <- (drop_app_le ia b c1) by done. rewrite loop_shift, Nat.add_0_r.
    replace (mkFrameContext (fc_engine ctx1) false (fc_out ctx1)) with ctx1 by (destruct ctx1; simpl in *; congruence).
    pose proof (loop_ends n (ia ++ b) ctx1 c1 ltac:(unfold n; lia)) as Hc2.
    destruct (loop n (ia ++ b) ctx1 c1) as [[ctx2 c2] st2]. destruct Hc2 as [Hc2 _].
    rewrite drop_drop. by replace (c1 + (c2 - c1))%nat with c2 by lia.
Qed.
End Chunking.

Section Reads.
Context {B : Type} `{BookStore B}.
Variable config : RiskConfig.
Variable M : Z.

(** A transport that hands over one read after another, with the output buffer
    carried along, and stops at the first refusal. *)
Fixpoint on_reads (s : Session B) (reads : list bytes) (out : bytes) :
    SessionStatus * bytes * Session B :=
  match reads with
  | [] => (SessionOk, out, s)
  | input :: reads' =>
      let '(st, out1, s1) := on_bytes_into config s input out M in
      if bool_decide (st = SessionOk) then on_reads s1 reads' out1 else (st, out1, s1)
  end.

Lemma on_reads_concat reads : forall s input out,
  outcome_eq (on_reads s (input :: reads) out) (on_bytes_into config s (input ++ concat reads) out M).
Proof.
  induction reads as [|b reads IH]; intros s input out.
  - cbn [on_reads concat]. rewrite app_nil_r.
    destruct (on_bytes_into config s input out M) as [[[] out1] s1]; by case_bool_decide.
  - rewrite on_bytes_into_app. cbn [on_reads].
    destruct (on_bytes_into config s input out M) as [[[] out1] s1]; case_bool_decide; try done. apply IH.
Qed.
End Reads.

(** ** What a frame is answered with *)

Definition fill_of (event : EngineEvent) : option Fill :=
  match event with
  | TradeEvent seq _ taker maker price quantity => Some (mkFill taker maker price quantity seq)
  | _ => None
  end.

(** A Reject, or an Ack carrying the first event's number and a Fill per trade. *)
Definition response (order_id : OrderId) (r : GatewayResult) : bytes :=
  if g_accepted r
  then encode_ack (mkAck order_id (match g_events r with [] => 0 | ev :: _ => seq_of ev end)) ++
       concat (map encode_fill (omap fill_of (g_events r)))
  else encode_reject (mkReject order_id (g_reason r)).

Lemma length_fills fills :
  Z.of_nat (length (concat (map encode_fill fills))) = kFillFrameBytes * Z.of_nat (length fills).
Proof.
  induction fills as [|f fills IH]; [done|]. cbn [map concat length].
  rewrite length_app, length_encode_fill, Nat2Z.inj_add, IH. unfold kFillFrameBytes, frame_bytes. lia.
Qed.

Lemma length_response id r :
  Z.of_nat (length (response id r)) =
    if g_accepted r then kAckFrameBytes + kFillFrameBytes * Z.of_nat (length (omap fill_of (g_events r)))
    else kRejectFrameBytes.
Proof.
  unfold response. destruct (g_accepted r); [|by rewrite length_encode_reject].
  rewrite length_app, length_encode_ack, Nat2Z.inj_add, length_fills. done.
Qed.

Lemma add_saturating_spec a b : 0 <= a <= size_max -> 0 <= b -> add_saturating a b = Z.min size_max (a + b).
Proof. unfold add_saturating. intros. destruct (Z.ltb_spec (size_max - a) b); lia. Qed.

Lemma mul_saturating_spec a b : 0 <= a -> 0 <= b -> mul_saturating a b = Z.min size_max (a * b).
Proof.
  unfold mul_saturating. intros Ha Hb. destruct (Z.eqb_spec a 0) as [->|Hne]; cbn [negb andb]; [done|].
  destruct (Z.ltb_spec (size_max / a) b) as [Hlt|Hle].
  - pose proof (Z.mul_succ_div_gt size_max a ltac:(lia)). assert (a * Z.succ (size_max / a) <= a * b) by (apply Z.mul_le_mono_nonneg_l; lia). lia.
  - apply (Z.mul_le_mono_nonneg_l _ _ a) in Hle; [|lia]. pose proof (Z.mul_div_le size_max a). lia.
Qed.

(** Sizes are computed exactly, up to saturation. *)
Lemma result_wire_size_spec id r :
  result_wire_size r = Z.min size_max (Z.of_nat (length (response id r))).
Proof.
  rewrite length_response. unfold result_wire_size. destruct (g_accepted r); cbn [negb]; [|done].
  assert (0 <= kAckFrameBytes) as H0 by done.
  replace kAckFrameBytes with (Z.min size_max kAckFrameBytes) at 1 by done.
  revert H0. generalize kAckFrameBytes as n. induction (g_events r) as [|ev evs IH]; intros n Hn.
  - cbn. lia.
  - cbn [fold_left]. destruct ev; cbn [is_trade]; try (by rewrite IH).
    rewrite add_saturating_spec by (unfold kFillFrameBytes, frame_bytes, size_max in *; lia).
    replace (Z.min size_max (Z.min size_max n + kFillFrameBytes)) with (Z.min size_max (n + kFillFrameBytes))
      by (unfold kFillFrameBytes, frame_bytes; lia).
    rewrite IH by (unfold kFillFrameBytes, frame_bytes; lia). f_equal. cbn [omap list_omap fill_of length]. 
    cbn. lia.
Qed.

Lemma has_space_spec out n M :
  0 <= n -> has_space out n M = (out + n <=? M).
Proof. unfold has_space. intros. lia. Qed.

Lemma emit_fills_fit M evs : forall out,
  Z.of_nat (length out) + Z.of_nat (length (concat (map encode_fill (omap fill_of evs)))) <= M ->
  fold_left (emit_fill M) evs (SessionOk, out) =
    (SessionOk, out ++ concat (map encode_fill (omap fill_of evs))).
Proof.
  induction evs as [|ev evs IH]; intros out Hfit; [cbn; by rewrite app_nil_r|].
  destruct ev as [| | |seq symbol taker maker price q]; cbn [fold_left emit_fill]; try (by apply IH).
  rewrite bool_decide_true by done. cbn [negb].
  cbn [omap list_omap fill_of map concat] in Hfit |- *. rewrite length_app in Hfit.
  unfold append. rewrite has_space_spec by lia. rewrite (proj2 (Z.leb_le _ _)) by lia. cbn [negb].
  rewrite IH by (rewrite length_app; lia). by rewrite app_assoc.
Qed.

(** When the response fits it is appended whole; otherwise nothing is. *)
Lemma emit_result_fits id r out M :
  M <= size_max -> Z.of_nat (length out) + Z.of_nat (length (response id r)) <= M ->
  emit_result id r out M = (SessionOk, out ++ response id r).
Proof.
  intros HM Hfit. unfold emit_result. rewrite (result_wire_size_spec id), has_space_spec by (unfold size_max; lia).
  rewrite (proj2 (Z.leb_le _ _)) by lia. cbn [negb]. unfold response in *. destruct (g_accepted r); cbn [negb].
  - rewrite length_app in Hfit. unfold append. rewrite has_space_spec by lia.
    rewrite (proj2 (Z.leb_le _ _)) by lia. cbn [negb]. rewrite bool_decide_true by done. cbn [negb].
    rewrite emit_fills_fit by (rewrite length_app; lia). by rewrite app_assoc.
  - unfold append. rewrite has_space_spec by lia. by rewrite (proj2 (Z.leb_le _ _)) by lia.
Qed.

(** The gateway command a decoded order-entry message stands for. *)
Definition order_command (o : NewOrder) : Command :=
  if bool_decide (no_type o = Market)
  then NewMarket (no_symbol o) (no_order_id o) (no_side o) (no_quantity o)
  else NewLimit (no_symbol o) (no_order_id o) (no_side o) (no_price o) (no_quantity o) (no_tif o).

Definition cancel_command (c : CancelOrder) : Command := Cancel (co_symbol c) (co_order_id c).

Section FrameSpec.
Context {B : Type} `{HL : BookStoreLaws B}.
Variable config : RiskConfig.
Implicit Types e : MatchingEngine B.
Implicit Types ctx : FrameContext B.

(** The answer to a well-formed request: its bytes, the room the session insists
    on before acting, and the engine afterwards. *)
Definition command_reply e (id : OrderId) (c : Command) (room : option Z) :
    bytes * Z * MatchingEngine B :=
  let '(r, e') := apply_command config e c in
  (response id r, default (Z.of_nat (length (response id r))) room, e').

Definition frame_reply e (frame : bytes) : option (bytes * Z * MatchingEngine B) :=
  match h_type (d_value (decode_header frame)) with
  | MtNewOrder =>
      let m := decode_new_order frame in
      if decode_ok m
      then Some (command_reply e (no_order_id (d_value m)) (order_command (d_value m)) None) else None
  | MtCancelOrder =>
      let m := decode_cancel_order frame in
      if decode_ok m
      then Some (command_reply e (co_order_id (d_value m)) (cancel_command (d_value m)) (Some kAckFrameBytes))
      else None
  | MtHeartbeat =>
      let m := decode_heartbeat frame in
      if decode_ok m
      then Some (encode_heartbeat_ack (mkHeartbeatAck (hb_token (d_value m))), kHeartbeatAckFrameBytes, e)
      else None
  | _ => None
  end.

Lemma decode_new_order_ok frame :
  decode_ok (decode_new_order frame) = true -> new_order_ok (d_value (decode_new_order frame)).
Proof.
  unfold decode_new_order. destruct (decode_ok (decode_header frame)) eqn:Eh; cbn [negb].
  2: { unfold decode_ok in *. cbn [d_error]. congruence. }
  case_if; [done|]. case_if; [done|]. case_if; [done|].
  destruct (negb (is_valid_side _) || _ || _) eqn:Ev; [done|]. intros _. cbn [d_value].
  apply orb_false_iff in Ev as [[Hs Ht]%orb_false_iff Hf]. apply negb_false_iff in Hs, Ht, Hf.
  unfold new_order_ok.
  cbn [no_order_id no_symbol no_price no_quantity no_side no_type no_tif]. split_and!; auto with qsl.
Qed.

Lemma order_command_ok m : new_order_ok m -> command_ok (order_command m).
Proof.
  intros (? & ? & ? & ? & ? & ? & ?). unfold order_command. case_bool_decide; cbn [command_ok]; by split_and!.
Qed.

Lemma decode_cancel_order_ok frame : command_ok (cancel_command (d_value (decode_cancel_order frame))).
Proof.
  unfold decode_cancel_order, cancel_command. repeat case_if;
    cbn [d_value co_symbol co_order_id command_ok cancel_order_zero]; split; auto with qsl; by unfold in_u32, in_u64.
Qed.

Lemma fills_number seq symbol ts :
  length (omap fill_of (number seq (map (trade_event symbol) ts))) = length ts.
Proof.
  revert seq. induction ts as [|t ts IH]; intros seq; [done|]. cbn [map number omap list_omap].
  unfold trade_event at 1. cbn [fill_of length]. f_equal. apply IH.
Qed.

(** An accepted new order produces one event besides its trades. *)
Lemma order_fills o evs :
  acknowledges (order_command o) evs -> (length evs = S (length (omap fill_of evs)))%nat.
Proof.
  unfold order_command. case_bool_decide; intros (seq & seq' & ts & -> & _);
    cbn [omap list_omap fill_of]; rewrite fills_number; cbn [length]; by rewrite length_number, List.length_map.
Qed.

(** The budget check reserves exactly the response of the order. *)
Lemma ensure_new_order_budget_spec e o out M :
  engine_wf e -> engine_room e -> new_order_ok o -> M < size_max ->
  ensure_new_order_budget config e o out M =
    if Z.of_nat (length out) +
       Z.of_nat (length (response (no_order_id o) (apply_command config e (order_command o)).1)) <=? M
    then SessionOk else OutputLimitExceeded.
Proof.
  intros Hwf Hroom Hok HM. pose proof (apply_command_spec config e _ Hwf Hroom (order_command_ok o Hok)) as Hspec.
  destruct Hok as (_ & _ & _ & Hq & _ & Ht & _). cbn zeta in Hspec.
  set (r := (apply_command config e (order_command o)).1) in *.
  set (p := preview_new_order config e (no_symbol o) (no_order_id o) (no_side o)
                   (no_price o) (no_quantity o) (no_type o) (no_tif o)).
  assert (p_accepted p = g_accepted r /\
    (g_accepted r = true -> Z.of_nat (length (g_events r)) = 1 + p_fill_count p)) as [Hpa Hpc].
  { subst p r. unfold order_command. destruct (no_type o); [|..|done].
    - rewrite bool_decide_false by done. by apply preview_limit.
    - rewrite bool_decide_true by done. by apply preview_market. }
  unfold ensure_new_order_budget. fold p. rewrite Hpa, length_response.
  destruct (g_accepted r) eqn:Ha; [|by rewrite has_space_spec].
  specialize (Hpc eq_refl). destruct Hspec as [(? & _)|(_ & _ & _ & Hack)]; [congruence|].
  apply order_fills in Hack. assert (0 <= p_fill_count p) by lia.
  rewrite mul_saturating_spec by (done || lia). change kFillFrameBytes with 52. change kAckFrameBytes with 32.
  rewrite add_saturating_spec by (unfold size_max; lia).
  rewrite has_space_spec by (unfold size_max; lia).
  replace (Z.of_nat (length out) + Z.min size_max _ <=? M) with
    (Z.of_nat (length out) + (32 + 52 * Z.of_nat (length (omap fill_of (g_events r)))) <=? M);
    [done|]. replace (Z.of_nat (length (omap fill_of (g_events r)))) with (p_fill_count p) by lia.
  clear -HM H0. generalize dependent (p_fill_count p). generalize (length out). unfold size_max in *.
  intros n f Hf. apply eq_bool_prop_intro. rewrite !Is_true_true, !Z.leb_le. lia.
Qed.

Lemma response_cancel_room id r :
  length (omap fill_of (g_events r)) = O -> Z.of_nat (length (response id r)) <= kAckFrameBytes.
Proof. intros Hf. rewrite length_response, Hf. by destruct (g_accepted r). Qed.

Lemma emit_or_close_fits ctx M id r :
  M <= size_max -> Z.of_nat (length (fc_out ctx)) + Z.of_nat (length (response id r)) <= M ->
  emit_or_close ctx M id r =
    (SessionOk, mkFrameContext (fc_engine ctx) (fc_logged_out ctx) (fc_out ctx ++ response id r)).
Proof. intros HM Hfit. unfold emit_or_close. by rewrite emit_result_fits. Qed.

Lemma gateway_order_command e o :
  (if bool_decide (no_type o = Market)
   then gw_new_market config e (no_symbol o) (no_order_id o) (no_side o) (no_quantity o)
   else gw_new_limit config e (no_symbol o) (no_order_id o) (no_side o) (no_price o)
          (no_quantity o) (no_tif o)) = apply_command config e (order_command o).
Proof. unfold order_command. by case_bool_decide. Qed.

(** Processing a frame of a session with a budget [M]: a malformed or unexpected
    frame closes the session; a request whose reserve does not fit closes it
    with the engine and the output untouched; any other is applied and answered
    in full.  Without a budget ([M] is the largest size) the reserve must fit. *)
Lemma process_frame_spec ctx frame M :
  engine_wf (fc_engine ctx) -> engine_room (fc_engine ctx) -> M <= size_max ->
  (forall reply room e', frame_reply (fc_engine ctx) frame = Some (reply, room, e') ->
     M < size_max \/ Z.of_nat (length (fc_out ctx)) + room <= M) ->
  process_frame config ctx frame M =
    match frame_reply (fc_engine ctx) frame with
    | None => (SessionOk, mkFrameContext (fc_engine ctx) true (fc_out ctx))
    | Some (reply, room, e') =>
        if Z.of_nat (length (fc_out ctx)) + room <=? M
        then (SessionOk, mkFrameContext e' (fc_logged_out ctx) (fc_out ctx ++ reply))
        else (OutputLimitExceeded, mkFrameContext (fc_engine ctx) true (fc_out ctx))
    end.
Proof.
  intros Hwf Hroom HM Hfit. unfold process_frame, frame_reply in *.
  destruct (h_type _); try done.
  - unfold handle_new_order. destruct (decode_ok (decode_new_order frame)) eqn:Eo; cbn [negb]; [|done].
    apply decode_new_order_ok in Eo. set (o := d_value (decode_new_order frame)) in *.
    pose proof (ensure_new_order_budget_spec (fc_engine ctx) o (fc_out ctx) M Hwf Hroom Eo) as Hbud.
    rewrite gateway_order_command. unfold command_reply in *.
    destruct (apply_command config (fc_engine ctx) (order_command o)) as [r e'] eqn:Ea. cbn [default fst] in *.
    destruct (Z.leb_spec (Z.of_nat (length (fc_out ctx)) + Z.of_nat (length (response (no_order_id o) r))) M) as [Hle|Hgt].
    + replace (negb (M =? size_max) && _) with false; [by rewrite emit_or_close_fits|].
      destruct (Z.eqb_spec M size_max); cbn [negb andb]; [done|]. by rewrite Hbud by lia.
    + specialize (Hfit _ _ _ eq_refl). rewrite Hbud by lia.
      replace (M =? size_max) with false by lia. done.
  - unfold handle_cancel_order. destruct (decode_ok (decode_cancel_order frame)) eqn:Eo; cbn [negb]; [|done].
    pose proof (apply_command_spec config _ _ Hwf Hroom (decode_cancel_order_ok frame)) as Hspec. cbn zeta in Hspec.
    unfold command_reply, cancel_command in *. cbn [apply_command default] in *. unfold id in *.
    rewrite has_space_spec by done. change (Z.max kAckFrameBytes kRejectFrameBytes) with kAckFrameBytes.
    destruct (gw_cancel _ _ _) as [r e']. cbn [fst snd] in Hspec.
    destruct (Z.leb_spec (Z.of_nat (length (fc_out ctx)) + kAckFrameBytes) M) as [Hle|Hgt]; cbn [negb]; [|done].
    rewrite emit_or_close_fits; [done|done|]. cbn [fc_out].
    pose proof (response_cancel_room (co_order_id (d_value (decode_cancel_order frame))) r). enough (length (omap fill_of (g_events r)) = 0%nat) by lia.
    destruct Hspec as [(_ & _ & -> & _)|(_ & _ & _ & seq & ->)]; done.
  - unfold handle_heartbeat. destruct (decode_ok (decode_heartbeat frame)) eqn:Eo; cbn [negb]; [|done].
    rewrite has_space_spec by done. unfold append. rewrite length_encode_heartbeat_ack, has_space_spec by lia.
    change (Z.of_nat (kHeaderSize + kHeartbeatBodySize)) with kHeartbeatAckFrameBytes.
    by destruct (_ <=? M).
Qed.
End FrameSpec.

(** ** Serving a client *)

(** What a client of the order-entry protocol sends. *)
Inductive Request :=
| ReqNewOrder (m : NewOrder) (seq : SeqNo)
| ReqCancelOrder (m : CancelOrder) (seq : SeqNo)
| ReqHeartbeat (m : Heartbeat).

Definition request_ok (q : Request) : Prop :=
  match q with
  | ReqNewOrder m seq => new_order_ok m /\ in_u64 seq
  | ReqCancelOrder m seq => cancel_order_ok m /\ in_u64 seq
  | ReqHeartbeat m => in_u64 (hb_token m)
  end.

Definition encode_request (q : Request) : bytes :=
  match q with
  | ReqNewOrder m seq => encode_new_order m seq
  | ReqCancelOrder m seq => encode_cancel_order m seq
  | ReqHeartbeat m => encode_heartbeat m
  end.

Definition request_command (q : Request) : option Command :=
  match q with
  | ReqNewOrder m _ => Some (order_command m)
  | ReqCancelOrder m _ => Some (cancel_command m)
  | ReqHeartbeat _ => None
  end.

Definition request_type (q : Request) : MsgType :=
  match q with
  | ReqNewOrder _ _ => MtNewOrder
  | ReqCancelOrder _ _ => MtCancelOrder
  | ReqHeartbeat _ => MtHeartbeat
  end.

Definition request_body (q : Request) : nat :=
  match q with
  | ReqNewOrder _ _ => kNewOrderBodySize
  | ReqCancelOrder _ _ => kCancelOrderBodySize
  | ReqHeartbeat _ => kHeartbeatBodySize
  end.

Lemma length_encode_request q : length (encode_request q) = (kHeaderSize + request_body q)%nat.
Proof.
  destruct q; cbn [encode_request request_body];
    unfold encode_new_order, encode_cancel_order, encode_heartbeat, framed; body_side_eq.
Qed.

Lemma request_header q :
  request_ok q -> exists seq,
  decode_header (encode_request q) =
    mkDecodeResult DecodeNone
      (mkMessageHeader (request_type q) kProtocolVersion (Z.of_nat (request_body q)) seq).
Proof.
  intros Hok. pose proof (length_encode_request q) as Hl. destruct q as [m seq|m seq|m].
  - exists seq. apply decode_header_has; [|lia|done|done]. cbn [encode_request]. rewrite <- (app_nil_r (encode_new_order _ _)).
    destruct Hok. unfold encode_new_order. header_solve.
  - exists seq. apply decode_header_has; [|lia|done|done]. cbn [encode_request]. rewrite <- (app_nil_r (encode_cancel_order _ _)).
    destruct Hok. unfold encode_cancel_order. header_solve.
  - exists 0. apply decode_header_has; [|lia|done|done]. cbn [encode_request]. rewrite <- (app_nil_r (encode_heartbeat _)).
    unfold encode_heartbeat, framed. header_solve.
Qed.

Section Serve.
Context {B : Type} `{HL : BookStoreLaws B}.
Variable config : RiskConfig.
Implicit Types e : MatchingEngine B.

(** The answer to one request, and the engine after it. *)
Definition request_reply e (q : Request) : bytes * MatchingEngine B :=
  match q with
  | ReqNewOrder m _ =>
      let '(r, e') := apply_command config e (order_command m) in (response (no_order_id m) r, e')
  | ReqCancelOrder m _ =>
      let '(r, e') := apply_command config e (cancel_command m) in (response (co_order_id m) r, e')
  | ReqHeartbeat m => (encode_heartbeat_ack (mkHeartbeatAck (hb_token m)), e)
  end.

Fixpoint serve e (qs : list Request) : bytes * MatchingEngine B :=
  match qs with
  | [] => ([], e)
  | q :: qs' =>
      let '(reply, e1) := request_reply e q in
      let '(replies, e2) := serve e1 qs' in (reply ++ replies, e2)
  end.

Lemma request_command_ok q c : request_ok q -> request_command q = Some c -> command_ok c.
Proof.
  destruct q as [m seq|m seq|m]; intros Hok [= <-]; [by apply order_command_ok, Hok|].
  by destruct Hok as [[? ?] ?].
Qed.

Lemma gateway_wf e c : engine_wf e -> engine_room e -> command_ok c -> engine_wf (apply_command config e c).2.
Proof.
  intros Hwf Hroom Hok. pose proof (apply_command_spec config e c Hwf Hroom Hok) as [(_ & _ & _ & ->)|(_ & _ & He & _)]; [done|].
  pose proof (apply_refines e c Hwf Hroom Hok) as [Hwf1 _]. by rewrite He in Hwf1.
Qed.

Lemma request_reply_wf e q : engine_wf e -> engine_room e -> request_ok q -> engine_wf (request_reply e q).2.
Proof.
  intros Hwf Hroom Hok. destruct q as [m seq|m seq|m]; cbn [request_reply]; [| |done].
  - pose proof (gateway_wf e _ Hwf Hroom (request_command_ok _ _ Hok eq_refl)) as Hg.
    by destruct (apply_command _ _ _).
  - pose proof (gateway_wf e _ Hwf Hroom (request_command_ok _ _ Hok eq_refl)) as Hg.
    by destruct (apply_command _ _ _).
Qed.

(** The bytes of a request are answered with its reply; the session insists on at
    most an Ack more room than the reply itself. *)
Lemma frame_reply_request e q :
  request_ok q ->
  exists room, frame_reply config e (encode_request q) = Some ((request_reply e q).1, room, (request_reply e q).2) /\
  room <= Z.of_nat (length (request_reply e q).1) + kAckFrameBytes.
Proof.
  intros Hok. destruct (request_header q Hok) as [seq' Hh]. unfold frame_reply. rewrite Hh. cbn [d_value h_type].
  destruct q as [m seq|m seq|m]; cbn [request_type encode_request request_reply].
  - rewrite <- (app_nil_r (encode_new_order m seq)). destruct Hok. rewrite decode_encode_new_order by done.
    cbn [d_value]. rewrite decode_ok_none. unfold command_reply.
    destruct (apply_command _ _ _) as [r e']. eexists. split; [done|]. cbn [default fst]. unfold kAckFrameBytes, frame_bytes. lia.
  - rewrite <- (app_nil_r (encode_cancel_order m seq)). destruct Hok. rewrite decode_encode_cancel_order by done.
    cbn [d_value]. rewrite decode_ok_none. unfold command_reply.
    destruct (apply_command _ _ _) as [r e']. eexists. split; [done|]. cbn. lia.
  - rewrite <- (app_nil_r (encode_heartbeat m)). rewrite decode_encode_heartbeat by done.
    cbn [d_value]. rewrite decode_ok_none. eexists. split; [done|]. cbn [fst]. rewrite length_encode_heartbeat_ack. done.
Qed.

(** One request, delivered whole. *)
Lemma on_bytes_request e q out M :
  engine_wf e -> engine_room e -> request_ok q -> M <= size_max ->
  Z.of_nat (length out) + Z.of_nat (length (request_reply e q).1) + kAckFrameBytes <= M ->
  on_bytes_into config (mkSession [] false e) (encode_request q) out M =
    (SessionOk, out ++ (request_reply e q).1, mkSession [] false (request_reply e q).2).
Proof.
  intros Hwf Hroom Hok HM Hfit. unfold on_bytes_into. cbn [logged_out_ inbuf_ app s_engine].
  unfold frame_loop. pose proof (length_encode_request q) as Hl.
  destruct (request_header q Hok) as [seq Hh]. destruct (frame_reply_request e q Hok) as (room & Hr & Hroom').
  rewrite loop_unfold by (lia || done). unfold frame_step at 1. rewrite drop_0, Hl.
  rewrite (proj2 (Nat.ltb_ge _ _)) by lia. rewrite Hh, decode_ok_none. cbn [negb d_value h_body_len].
  rewrite Nat2Z.id, Nat.ltb_irrefl, take_ge by lia.
  rewrite process_frame_spec; cbn [fc_engine fc_out fc_logged_out]; [|done..|intros reply room' e' Hr'; right; rewrite Hr in Hr'; injection Hr' as <- <- <-; lia].
  rewrite Hr. rewrite (proj2 (Z.leb_le _ _)) by lia. rewrite bool_decide_true by done. cbn [negb].
  rewrite loop_unfold by (lia || done). unfold frame_step at 1.
  rewrite drop_ge by lia. change (length [] <? kHeaderSize)%nat with true.
  cbn iota beta. by rewrite drop_ge by lia.
Qed.

(** A stream of requests: every one is answered, in order, and the engine is
    driven through the gateway. *)
Lemma on_bytes_serve qs : forall e out M,
  (forall b : B, bs_room b) -> engine_wf e -> Forall request_ok qs -> M <= size_max ->
  Z.of_nat (length out) + Z.of_nat (length (serve e qs).1) + kAckFrameBytes <= M ->
  outcome_eq
    (on_bytes_into config (mkSession [] false e) (concat (map encode_request qs)) out M)
    (SessionOk, out ++ (serve e qs).1, mkSession [] false (serve e qs).2).
Proof.
  induction qs as [|q qs IH]; intros e out M Hroom Hwf Hok HM Hfit.
  - cbn. by rewrite app_nil_r.
  - apply Forall_cons in Hok as [Hq Hok]. cbn [map concat serve] in *.
    assert (engine_room e) as Hr by (by apply Forall_true).
    pose proof (request_reply_wf e q Hwf Hr Hq) as Hwf1.
    pose proof (on_bytes_request e q out M Hwf Hr Hq HM) as Hone.
    destruct (request_reply e q) as [reply e1]. cbn [fst snd] in *.
    specialize (IH e1 (out ++ reply) M Hroom Hwf1 Hok HM).
    destruct (serve e1 qs) as [replies e2]. cbn [fst snd] in *. rewrite length_app in *.
    rewrite on_bytes_into_app, Hone by lia. rewrite bool_decide_true by done.
    rewrite IH by lia. by rewrite app_assoc.
Qed.
End Serve.

(** ** The output over whole calls *)

(** The output changes only by [append]: what every [append] preserves, a whole
    call preserves. *)
Section Output.
Context {B : Type} `{BookStore B}.
Variable config : RiskConfig.
Variable M : Z.
Variable P : bytes -> Prop.
Hypothesis P_append : forall out b, P out -> P (append out b M).2.

Lemma emit_result_output id r out : P out -> P (emit_result id r out M).2.
Proof.
  intros Ho. unfold emit_result. case_if; [done|]. case_if; [by apply P_append|].
  pose proof (P_append out (encode_ack (mkAck id match g_events r with [] => 0 | ev :: _ => seq_of ev end)) Ho) as Ha.
  destruct (append _ _ _) as [st o]. case_if; [done|]. cbn [snd] in Ha.
  assert (forall s, P s.2 -> P (fold_left (emit_fill M) (g_events r) s).2) as Hf; [|by apply Hf].
  induction (g_events r) as [|ev evs IH]; intros [st' o'] Hs; [done|]. cbn [fold_left]. apply IH.
  unfold emit_fill. case_if; [done|]. destruct ev; try done. by apply P_append.
Qed.

Lemma process_frame_output ctx frame : P (fc_out ctx) -> P (fc_out (process_frame config ctx frame M).2).
Proof.
  intros Ho.
  assert (forall e lo id r, P (fc_out (emit_or_close (mkFrameContext (B := B) e lo (fc_out ctx)) M id r).2)) as Hemit.
  { intros e lo id r. unfold emit_or_close. cbn [fc_out fc_engine fc_logged_out].
    pose proof (emit_result_output id r (fc_out ctx) Ho) as Hw.
    destruct (emit_result _ _ _ _) as [st o]. by case_if. }
  unfold process_frame. destruct (h_type _); try done.
  - unfold handle_new_order. case_if; [done|]. case_if; [done|].
    case_if; [destruct (gw_new_market _ _ _ _ _ _)|destruct (gw_new_limit _ _ _ _ _ _ _ _)]; apply Hemit.
  - unfold handle_cancel_order. case_if; [done|]. case_if; [done|]. destruct (gw_cancel _ _ _); apply Hemit.
  - unfold handle_heartbeat. case_if; [done|]. case_if; [done|].
    pose proof (P_append (fc_out ctx)
      (encode_heartbeat_ack (mkHeartbeatAck (hb_token (d_value (decode_heartbeat frame))))) Ho) as Ha.
    by destruct (append _ _ _).
Qed.

Lemma on_bytes_into_output (s : Session B) input out : P out -> P (on_bytes_into config s input out M).1.2.
Proof.
  intros Ho. unfold on_bytes_into. destruct (logged_out_ s); [done|]. unfold frame_loop.
  set (inbuf := inbuf_ s ++ input).
  assert (P (fc_out (while (S (length inbuf)) frame_running (frame_step config inbuf M)
    (mkFrameContext (s_engine s) false out, O, None)).1.1)) as Hw.
  { apply (while_inv _ _ (fun st : FrameContext B * nat * option SessionStatus => P (fc_out st.1.1))); [|done].
    intros [[ctx c] st] Hs _. unfold frame_step. case_if; [done|]. case_if; [done|]. case_if; [done|].
    pose proof (process_frame_output ctx (take (kHeaderSize + Z.to_nat (h_body_len (d_value (decode_header (drop c inbuf))))) (drop c inbuf)) Hs) as Hp.
    destruct (process_frame _ _ _ _) as [status ctx']. by case_if. }
  by destruct (while _ _ _ _) as [[ctx c] st].
Qed.
End Output.

(** The output never outgrows its budget: whatever bytes arrive and
    whatever the session and the engine hold, a call that starts with at most
    [M] bytes of output ends with at most [M]. *)
Lemma output_within_budget {B : Type} `{BookStore B} config M (s : Session B) input out :
  Z.of_nat (length out) <= M -> Z.of_nat (length (on_bytes_into config s input out M).1.2) <= M.
Proof.
  apply (on_bytes_into_output config M (fun out => Z.of_nat (length out) <= M)).
  intros o b Ho. unfold append. destruct (has_space _ _ _) eqn:E; cbn [negb snd]; [|done].
  rewrite has_space_spec in E by lia. rewrite length_app. lia.
Qed.

(** A call only adds to the output. *)
Lemma output_grows {B : Type} `{BookStore B} config M (s : Session B) input out :
  out `prefix_of` (on_bytes_into config s input out M).1.2.
Proof.
  apply (on_bytes_into_output config M (fun o => out `prefix_of` o)); [|done].
  intros o b Ho. unfold append. destruct (has_space _ _ _); cbn [negb snd]; [|done].
  by apply prefix_app_r.
Qed.
