(* ===== verification/Sys.v ===== *)
(** * Sys: programs that call the operating system

    The socket servers and the client are written against the socket and epoll calls of the
    kernel.  A program here is a function of the kernel's answers: [sys c] makes
    the call [c] and takes the next answer of a script.  The calls made so far,
    with their answers, are the trace; a program whose script is used up is
    [Waiting] inside a call.  An answer that the interface rules out (a read of
    more bytes than asked for, an accepted descriptor that is already open) is
    no behaviour of the kernel, and the run is [Impossible]. *)
From S2P Require Import Prelude Core Endian.

(** ** Calls and answers *)

(** [errno]; [EAGAIN] and [EWOULDBLOCK] are one value on the platform of epoll. *)
Inductive Error :=
| EINTR | EAGAIN | EMFILE | ENFILE | ENOBUFS | ENOMEM
| ECONNABORTED | EPROTO | ENETDOWN | ENOPROTOOPT | EHOSTDOWN | ENONET | EHOSTUNREACH | EOPNOTSUPP | ENETUNREACH
| EOther (n : Z).

#[export] Instance Error_eq_dec : EqDecision Error.
Proof. solve_decision. Defined.

(** [struct epoll_event] with the 64-bit member of its union. *)
Record epoll_event := mkEpollEvent { ev_events : Z; ev_data : Z }.

#[export] Instance epoll_event_eq_dec : EqDecision epoll_event.
Proof. solve_decision. Defined.

Inductive CtlOp := EPOLL_CTL_ADD | EPOLL_CTL_MOD | EPOLL_CTL_DEL.

#[export] Instance CtlOp_eq_dec : EqDecision CtlOp.
Proof. solve_decision. Defined.

Inductive Syscall :=
| SysSocket (nonblocking : bool)
| SysSetsockopt (fd : Z)
| SysInetPton (host : string)
| SysBind (fd port : Z)
| SysListen (fd backlog : Z)
| SysGetFlags (fd : Z)                              (* fcntl(fd, F_GETFL, 0) *)
| SysSetFlags (fd flags : Z)                        (* fcntl(fd, F_SETFL, flags) *)
| SysEpollCreate
| SysEpollCtl (epoll_fd : Z) (op : CtlOp) (fd : Z) (ev : epoll_event)
| SysEpollWait (epoll_fd maxevents timeout : Z)
| SysAccept (listen_fd : Z) (nonblocking : bool)
| SysRead (fd : Z) (size : nat)
| SysSend (fd : Z) (data : bytes)
| SysConnect (fd port : Z)
| SysWrite (fd : Z) (data : bytes)
| SysShutdownWrite (fd : Z)                         (* shutdown(fd, SHUT_WR) *)
| SysClose (fd : Z)
| SysLoadStop                                       (* the load of the stop flag *)
| SysLock (fd : Z).                                 (* taking the gateway's mutex for a connection *)

Inductive Answer :=
| Ret (n : Z)                         (* a result that is not negative *)
| Failed (e : Error)                  (* -1 with errno *)
| Data (b : bytes)                    (* a read; no bytes at the end of the stream *)
| Ready (events : list epoll_event).

#[export] Instance Syscall_eq_dec : EqDecision Syscall.
Proof. solve_decision. Defined.
#[export] Instance Answer_eq_dec : EqDecision Answer.
Proof. solve_decision. Defined.

(** The answers the interface allows, given the open descriptors. *)
Definition admissible (opened : gset Z) (c : Syscall) (a : Answer) : bool :=
  match c, a with
  | SysLoadStop, Ret n => (0 <=? n) && (n <=? 1)
  | SysLoadStop, _ => false
  | SysLock _, Failed _ => false
  | SysInetPton _, Ret n => (0 <=? n) && (n <=? 1)
  | _, Failed _ => true
  | (SysSocket _ | SysEpollCreate | SysAccept _ _), Ret fd =>
      (0 <=? fd) && (fd <? 2 ^ 31) && bool_decide (fd ∉ opened)
  | SysRead _ size, Data b => (length b <=? size)%nat
  | (SysSend _ data | SysWrite _ data), Ret n => (0 <=? n) && (n <=? Z.of_nat (length data))
  | SysEpollWait _ maxevents _, Ready evs => Z.of_nat (length evs) <=? maxevents
  | SysGetFlags _, Ret n => 0 <=? n
  | (SysSetsockopt _ | SysBind _ _ | SysListen _ _ | SysSetFlags _ _ | SysEpollCtl _ _ _ _ | SysClose _ | SysLock _ | SysConnect _ _ | SysShutdownWrite _), Ret n =>
      n =? 0
  | _, _ => false
  end.

(** [close] releases the descriptor whatever it answers. *)
Definition opened_after (c : Syscall) (a : Answer) (opened : gset Z) : gset Z :=
  match c, a with
  | (SysSocket _ | SysEpollCreate | SysAccept _ _), Ret fd => {[fd]} ∪ opened
  | SysClose fd, _ => opened ∖ {[fd]}
  | _, _ => opened
  end.

(** ** Programs *)

Record World := mkWorld {
  script : list Answer;
  opened : gset Z;
  trace : list (Syscall * Answer)
}.

Inductive Outcome (A : Type) :=
| Done (a : A) (w : World)
| Waiting (w : World)
| Impossible.
Arguments Done {A}.
Arguments Waiting {A}.
Arguments Impossible {A}.

Definition Sys (A : Type) : Type := World -> Outcome A.

Definition ret {A : Type} (a : A) : Sys A := fun w => Done a w.
Definition bind {A B : Type} (m : Sys A) (k : A -> Sys B) : Sys B := fun w =>
  match m w with
  | Done a w' => k a w'
  | Waiting w' => Waiting w'
  | Impossible => Impossible
  end.

Declare Scope sys_scope.
Delimit Scope sys_scope with sys.
Notation "'let!' x := m 'in' k" := (bind m (fun x => k))
  (at level 200, x pattern, m at level 100, k at level 200, right associativity) : sys_scope.
Notation "m ;; k" := (bind m (fun _ => k)) (at level 100, k at level 200, right associativity) : sys_scope.
Open Scope sys_scope.

(** The world after the call [c] was answered by [a]. *)
Definition answered (c : Syscall) (a : Answer) (w : World) : World :=
  mkWorld (tail (script w)) (opened_after c a (opened w)) (trace w ++ [(c, a)]).

Definition sys (c : Syscall) : Sys Answer := fun w =>
  match script w with
  | [] => Waiting w
  | a :: _ => if admissible (opened w) c a then Done a (answered c a w) else Impossible
  end.

(** A call whose answer is not looked at. *)
Definition sys_ (c : Syscall) : Sys unit := sys c;; ret tt.

(** [for (;;)]: the body says whether to go on or how the loop ends.  Each
    iteration makes a call, so the length of the script bounds the iterations:
    see [loop_unfold]. *)
Fixpoint loop_upto {S R : Type} (fuel : nat) (body : S -> Sys (S + R)) (s : S) : Sys R := fun w =>
  match fuel with
  | O => Waiting w
  | Datatypes.S fuel' =>
      match body s w with
      | Done (inl s') w' => loop_upto fuel' body s' w'
      | Done (inr r) w' => Done r w'
      | Waiting w' => Waiting w'
      | Impossible => Impossible
      end
  end.

Definition loop {S R : Type} (body : S -> Sys (S + R)) (s : S) : Sys R := fun w =>
  loop_upto (Datatypes.S (length (script w))) body s w.

(** [for (x : xs) if (!f(x)) return false; return true;] with the state the body
    changes. *)
Fixpoint for_all {S X : Type} (f : S -> X -> Sys (bool * S)) (s : S) (xs : list X) : Sys (bool * S) :=
  match xs with
  | [] => ret (true, s)
  | x :: xs =>
      let! (ok, s) := f s x in
      if ok then for_all f s xs else ret (false, s)
  end.

Fixpoint for_each {X : Type} (f : X -> Sys unit) (xs : list X) : Sys unit :=
  match xs with
  | [] => ret tt
  | x :: xs => f x;; for_each f xs
  end.

(** ** Reasoning about every run of a program *)

Section Wp.
(** [X] holds wherever the program may be waiting for the kernel. *)
Variable X : World -> Prop.

Definition wp {A : Type} (m : Sys A) (Q : A -> World -> Prop) (w : World) : Prop :=
  match m w with
  | Done a w' => Q a w'
  | Waiting w' => X w'
  | Impossible => True
  end.

Lemma wp_ret {A} (a : A) Q w : Q a w -> wp (ret a) Q w.
Proof. done. Qed.

Lemma wp_bind {A B} (m : Sys A) (k : A -> Sys B) Q w :
  wp m (fun a w' => wp (k a) Q w') w -> wp (bind m k) Q w.
Proof. unfold wp, bind. by destruct (m w). Qed.

Lemma wp_mono {A} (m : Sys A) Q Q' w :
  wp m Q w -> (forall a w', Q a w' -> Q' a w') -> wp m Q' w.
Proof. unfold wp. destruct (m w); auto. Qed.

Lemma wp_sys c Q w :
  X w -> (forall a, admissible (opened w) c a = true -> Q a (answered c a w)) -> wp (sys c) Q w.
Proof.
  intros HX HQ. unfold wp, sys. destruct (script w) as [|a r]; [done|].
  destruct (admissible _ _ _) eqn:E; auto.
Qed.

Lemma wp_sys_ c Q w :
  X w -> (forall a, admissible (opened w) c a = true -> Q tt (answered c a w)) -> wp (sys_ c) Q w.
Proof. intros HX HQ. apply wp_bind, wp_sys; [done|]. intros a Ha. by apply wp_ret, HQ. Qed.

(** The invariant rule of loops. *)
Lemma wp_loop {S R} (body : S -> Sys (S + R)) (I : S -> World -> Prop) (Q : R -> World -> Prop) s w :
  (forall s w, I s w -> X w) ->
  (forall s w, I s w -> wp (body s) (fun r w' => match r with inl s' => I s' w' | inr b => Q b w' end) w) ->
  I s w -> wp (loop body s) Q w.
Proof.
  intros HX Hb. unfold wp, loop. generalize (Datatypes.S (length (script w))) as n.
  intros n. revert s w. induction n as [|n IH]; intros s w HI; cbn [loop_upto]; [eauto|].
  pose proof (Hb s w HI) as Hs. unfold wp in Hs. destruct (body s w) as [[s'|b] w'|w'|]; try done.
  by apply IH.
Qed.

Lemma wp_for_all {S Y} (f : S -> Y -> Sys (bool * S)) (I : S -> World -> Prop) (Q : bool * S -> World -> Prop) xs : forall s w,
  (forall s y w, I s w -> wp (f s y) (fun r w' => if r.1 then I r.2 w' else Q r w') w) ->
  (forall s w, I s w -> Q (true, s) w) ->
  I s w -> wp (for_all f s xs) Q w.
Proof.
  induction xs as [|x xs IH]; intros s w Hf HQ HI; cbn [for_all]; [apply wp_ret; auto|].
  apply wp_bind. eapply wp_mono; [by apply Hf|]. intros [[] s'] w' Hr; cbn [fst snd] in *.
  - by apply IH.
  - by apply wp_ret.
Qed.

Lemma wp_for_each {Y} (f : Y -> Sys unit) (I : list Y -> World -> Prop) (Q : unit -> World -> Prop) xs : forall w,
  (forall y ys w, I (y :: ys) w -> wp (f y) (fun _ w' => I ys w') w) ->
  (forall w, I [] w -> Q tt w) ->
  I xs w -> wp (for_each f xs) Q w.
Proof.
  induction xs as [|x xs IH]; intros w Hf HQ HI; cbn [for_each]; [apply wp_ret; auto|].
  apply wp_bind. eapply wp_mono; [by apply Hf|]. intros [] w' Hw. by apply IH.
Qed.
End Wp.

(** ** Programs wait only for the kernel *)

(** A run stops early only because the script is used up; [strict] runs use up
    an answer at least. *)
Definition shorter (strict : bool) (w w' : World) : Prop :=
  if strict then (length (script w') < length (script w))%nat else (length (script w') <= length (script w))%nat.

Definition responsive_at {A : Type} (strict : A -> bool) (m : Sys A) (w : World) : Prop :=
  match m w with
  | Done a w' => shorter (strict a) w w'
  | Waiting w' => script w' = []
  | Impossible => True
  end.
Definition responsive_if {A : Type} (strict : A -> bool) (m : Sys A) : Prop := forall w, responsive_at strict m w.
Abbreviation responsive := (responsive_if (fun _ => false)).
Abbreviation consuming := (responsive_if (fun _ => true)).

Lemma responsive_weaken {A} (f g : A -> bool) m :
  responsive_if f m -> (forall a, g a = true -> f a = true) -> responsive_if g m.
Proof.
  intros Hm Hfg w. specialize (Hm w). unfold responsive_at in *. destruct (m w) as [a w'|w'|]; try done.
  unfold shorter in *. destruct (f a) eqn:E1, (g a) eqn:E2; try lia. by rewrite Hfg in E1.
Qed.

Lemma consuming_responsive {A} (f : A -> bool) (m : Sys A) : consuming m -> responsive_if f m.
Proof. intros Hm. by apply (responsive_weaken _ _ _ Hm). Qed.

Lemma responsive_ret {A} (a : A) : responsive (ret a).
Proof. intros w. unfold responsive_at. cbn. lia. Qed.

Lemma consuming_sys c : consuming (sys c).
Proof.
  intros w. unfold responsive_at, sys. destruct (script w) as [|a r] eqn:E; [done|].
  destruct (admissible _ _ _); [|done]. unfold shorter, answered. rewrite E. cbn. lia.
Qed.

Lemma responsive_bind {A B} (f : A -> bool) (g : B -> bool) (m : Sys A) (k : A -> Sys B) :
  responsive_if f m -> (forall a, responsive_if (fun b => if f a then false else g b) (k a)) ->
  responsive_if g (bind m k).
Proof.
  intros Hm Hk w. specialize (Hm w). unfold responsive_at, bind in *.
  destruct (m w) as [a w'|w'|]; try done. specialize (Hk a w'). unfold responsive_at in Hk.
  destruct (k a w') as [b w''|w''|]; try done. unfold shorter in *. destruct (f a), (g b); lia.
Qed.

Lemma responsive_loop_upto {S R} (body : S -> Sys (S + R)) :
  (forall s, responsive_if (fun r => match r with inl _ => true | inr _ => false end) (body s)) ->
  forall n s w, (length (script w) < n)%nat -> responsive_at (fun _ => false) (loop_upto n body s) w.
Proof.
  intros Hb. induction n as [|n IH]; intros s w Hn; [lia|]. unfold responsive_at. cbn [loop_upto].
  specialize (Hb s w). unfold responsive_at in Hb. destruct (body s w) as [[s'|r] w'|w'|]; try done.
  cbn in Hb. specialize (IH s' w' ltac:(lia)). unfold responsive_at in IH.
  destruct (loop_upto n body s' w') as [r w''|w''|]; try done. cbn in *. lia.
Qed.

(** The bound of a loop is enough: it never ends one that the kernel would still
    answer. *)
Lemma responsive_loop {S R} (body : S -> Sys (S + R)) s :
  (forall s, responsive_if (fun r => match r with inl _ => true | inr _ => false end) (body s)) ->
  responsive (loop body s).
Proof. intros Hb w. apply (responsive_loop_upto body Hb). lia. Qed.

Lemma responsive_for_all {S Y} (f : S -> Y -> Sys (bool * S)) xs : forall s,
  (forall s y, responsive (f s y)) -> responsive (for_all f s xs).
Proof.
  induction xs as [|x xs IH]; intros s Hf; cbn [for_all]; [apply responsive_ret|].
  eapply responsive_bind; [apply Hf|]. intros [[] s']; [by apply IH|apply responsive_ret].
Qed.

Lemma responsive_for_each {Y} (f : Y -> Sys unit) xs :
  (forall y, responsive (f y)) -> responsive (for_each f xs).
Proof.
  intros Hf. induction xs as [|x xs IH]; cbn [for_each]; [apply responsive_ret|].
  eapply responsive_bind; [apply Hf|]. done.
Qed.

Lemma responsive_sys_ c : responsive (sys_ c).
Proof. eapply responsive_bind; [apply consuming_sys|]. intros a. apply responsive_ret. Qed.

Lemma responsive_ret_if {A} (g : A -> bool) (a : A) : g a = false -> responsive_if g (ret a).
Proof. intros Hg w. unfold responsive_at, shorter. cbn. rewrite Hg. lia. Qed.

(** After a call nothing more needs to be used up. *)
Lemma responsive_after {A B} (g : B -> bool) (m : Sys A) (k : A -> Sys B) :
  consuming m -> (forall a, responsive (k a)) -> responsive_if g (bind m k).
Proof. intros Hm Hk. eapply responsive_bind; [exact Hm|]. exact Hk. Qed.

Lemma responsive_then {A B} (g : B -> bool) (m : Sys A) (k : A -> Sys B) :
  responsive m -> (forall a, responsive_if g (k a)) -> responsive_if g (bind m k).
Proof. intros Hm Hk. eapply responsive_bind; [exact Hm|]. exact Hk. Qed.

Create HintDb responsive.
#[export] Hint Resolve consuming_sys responsive_sys_ : responsive.

(** One step of a proof that a program waits only for the kernel. *)
Ltac responsive_step :=
  match goal with
  | |- forall _, _ => intros ?
  | |- responsive_if _ (ret _) => apply responsive_ret_if; first [reflexivity | by case_if]
  | |- responsive_if _ (loop _ _) => apply responsive_loop
  | |- responsive_if _ (for_all _ _ _) => apply responsive_for_all
  | |- responsive_if _ (for_each _ _) => apply responsive_for_each
  | |- responsive_if _ (bind _ _) => apply responsive_after; [solve [eauto with responsive]|]
  | |- responsive_if _ (bind _ _) => apply responsive_then
  | |- responsive_if _ (match ?x with _ => _ end) => destruct x
  | |- responsive_if _ _ => solve [eauto with responsive]
  end.
