(* ===== verification/Epoll.v ===== *)
(** * Epoll: the event-driven order-entry server

    include/qsl/gateway/epoll_server.hpp and src/gateway/epoll_server.cpp (the
    Linux branch): one event loop accepts connections, reads requests, feeds
    them to the session of their connection and flushes the responses.  The
    kernel is the script of [Sys]; a load of the stop flag, which another thread
    may set at any time, is answered by the script as well.  The sessions share
    one gateway, held by the event loop. *)
From S2P Require Import Prelude Core Endian Book BookSpec Engine Gateway Session Sys.

Record EpollServerOptions := mkEpollServerOptions {
  max_events : Z;
  wait_timeout_ms : Z;
  max_outbuf_bytes : Z;
  max_outbuf_hard_bytes : Z;
  max_accepts_per_tick : Z
}.

Definition kListenerGeneration : Z := 0.

(** Flags of <sys/epoll.h> and <fcntl.h>. *)
Definition EPOLLIN : Z := 1.
Definition EPOLLOUT : Z := 4.
Definition EPOLLERR : Z := 8.
Definition EPOLLHUP : Z := 16.
Definition EPOLLRDHUP : Z := 8192.
Definition O_NONBLOCK : Z := 2048.

(** [static_cast<int>] of an unsigned value. *)
Definition i32_of_u (z : Z) : Z := let u := u32 z in if u <? 2 ^ 31 then u else u - 2 ^ 32.

Definition is_would_block (errno : Error) : bool := bool_decide (errno = EAGAIN).

Definition event_has (events flag : Z) : bool := negb (Z.land events flag =? 0).

Definition set_nonblocking (fd : Z) : Sys bool :=
  let! flags := sys (SysGetFlags fd) in
  match flags with
  | Ret flags =>
      let! r := sys (SysSetFlags fd (Z.lor flags O_NONBLOCK)) in
      ret (bool_decide (r = Ret 0))
  | _ => ret false
  end.

Definition pack_event_data (fd generation : Z) : Z := Z.lor (u64 (Z.shiftl generation 32)) (u32 fd).

Definition event_fd (ev : epoll_event) : Z := i32_of_u (ev_data ev).

Definition event_generation (ev : epoll_event) : Z := u32 (Z.shiftr (ev_data ev) 32).

(** The generation, and the new value of [next_generation]. *)
Definition next_client_generation (next_generation : Z) : Z * Z :=
  let generation := next_generation in
  let next_generation := u32 (next_generation + 1) in
  (generation, if next_generation =? kListenerGeneration then u32 (next_generation + 1) else next_generation).

Definition add_fd (epoll_fd fd events generation : Z) : Sys bool :=
  let! r := sys (SysEpollCtl epoll_fd EPOLL_CTL_ADD fd (mkEpollEvent events (pack_event_data fd generation))) in
  ret (bool_decide (r = Ret 0)).

Definition mod_fd (epoll_fd fd events generation : Z) : Sys bool :=
  let! r := sys (SysEpollCtl epoll_fd EPOLL_CTL_MOD fd (mkEpollEvent events (pack_event_data fd generation))) in
  ret (bool_decide (r = Ret 0)).

(** ** One connection *)

(** [cs_inbuf] and [cs_logged_out] are the members of its [Session]. *)
Record ClientState := mkClientState {
  generation : Z;
  cs_inbuf : bytes;
  cs_logged_out : bool;
  outbuf : bytes;
  sent : nat;
  input_closed : bool;
  close_after_flush : bool
}.

Definition new_client (connection_generation : Z) : ClientState :=
  mkClientState connection_generation [] false [] 0 false false.

Definition set_output (out : bytes) (n : nat) (c : ClientState) : ClientState :=
  mkClientState (generation c) (cs_inbuf c) (cs_logged_out c) out n (input_closed c) (close_after_flush c).
Definition set_session (inbuf : bytes) (logged_out : bool) (c : ClientState) : ClientState :=
  mkClientState (generation c) inbuf logged_out (outbuf c) (sent c) (input_closed c) (close_after_flush c).
Definition set_input_closed (c : ClientState) : ClientState :=
  mkClientState (generation c) (cs_inbuf c) (cs_logged_out c) (outbuf c) (sent c) true (close_after_flush c).
Definition set_close_after_flush (c : ClientState) : ClientState :=
  mkClientState (generation c) (cs_inbuf c) (cs_logged_out c) (outbuf c) (sent c) (input_closed c) true.

Definition pending (client : ClientState) : Z :=
  u64 (Z.of_nat (length (outbuf client)) - Z.of_nat (sent client)).

Definition drop_sent_prefix (client : ClientState) : ClientState :=
  if (0 <? sent client)%nat then set_output (drop (sent client) (outbuf client)) 0 client else client.

Definition has_pending_output (client : ClientState) : bool := 0 <? pending client.

Inductive SendResult := Progress | WouldBlock | Interrupted | SendClosed | SendError.

Definition send_next_chunk (fd : Z) (client : ClientState) : Sys (SendResult * ClientState) :=
  let! n := sys (SysSend fd (drop (sent client) (outbuf client))) in
  match n with
  | Ret n =>
      if 0 <? n then ret (Progress, set_output (outbuf client) (sent client + Z.to_nat n) client)
      else ret (SendClosed, client)
  | Failed errno =>
      if is_would_block errno then ret (WouldBlock, client)
      else if bool_decide (errno = EINTR) then ret (Interrupted, client)
      else ret (SendError, client)
  | _ => ret (SendError, client)
  end.

Definition send_step (fd : Z) (client : ClientState) : Sys (ClientState + bool * ClientState) :=
  if (sent client <? length (outbuf client))%nat then
    let! (r, client) := send_next_chunk fd client in
    match r with
    | Progress | Interrupted => ret (inl client)
    | WouldBlock => ret (inr (true, client))
    | SendClosed | SendError => ret (inr (false, client))
    end
  else ret (inr (true, set_output [] 0 client)).

Definition send_some (fd : Z) (client : ClientState) : Sys (bool * ClientState) := loop (send_step fd) client.

(** [EPOLL_CTL_DEL] ignores its event. *)
Definition close_client (epoll_fd fd : Z) : Sys unit :=
  sys_ (SysEpollCtl epoll_fd EPOLL_CTL_DEL fd (mkEpollEvent 0 0));;
  sys_ (SysClose fd).

(** [ClientMap]; the order of the iteration is the container's. *)
Definition close_all_clients (epoll_fd : Z) (clients : gmap Z ClientState) : Sys unit :=
  for_each (fun entry : Z * ClientState => close_client epoll_fd entry.1) (map_to_list clients).

Inductive ReadResult := Continue | StopReading | CloseNow.

Definition hard_output_limit (options : EpollServerOptions) : Z :=
  if max_outbuf_hard_bytes options =? 0 then size_max else max_outbuf_hard_bytes options.

Definition should_read_available_input (options : EpollServerOptions) (client : ClientState)
    (peer_hung_up : bool) : bool :=
  peer_hung_up || (pending client <? max_outbuf_bytes options).

Definition should_close_for_full_hangup (events : Z) : bool := event_has events EPOLLHUP.

Definition apply_peer_half_close (events : Z) (client : ClientState) : ClientState :=
  if event_has events EPOLLRDHUP then set_input_closed client else client.

Definition should_close_after_flush (client : ClientState) : bool :=
  negb (has_pending_output client) && (input_closed client || close_after_flush client).

Definition wants_read_interest (options : EpollServerOptions) (client : ClientState) : bool :=
  negb (input_closed client) && negb (close_after_flush client) &&
  (pending client <? max_outbuf_bytes options).

Definition client_interests (options : EpollServerOptions) (client : ClientState) : Z :=
  let want := Z.lor (Z.lor EPOLLRDHUP EPOLLERR) EPOLLHUP in
  let want := if wants_read_interest options client then Z.lor want EPOLLIN else want in
  if has_pending_output client then Z.lor want EPOLLOUT else want.

Definition drain_writable_if_ready (events fd : Z) (client : ClientState) : Sys (bool * ClientState) :=
  if negb (event_has events EPOLLOUT) then ret (false, client)
  else
    let! (ok, client) := send_some fd client in
    ret (negb ok, client).

Definition should_read_client_input (events : Z) (client : ClientState) : bool :=
  event_has events EPOLLIN && negb (input_closed client) && negb (close_after_flush client).

Section Epoll.
Context {B : Type} `{BookStore B}.
(** The limits of the gateway's risk manager. *)
Variable config : RiskConfig.

(** The gateway, a reference of the session, is passed and returned. *)
Definition apply_session_input (options : EpollServerOptions) (client : ClientState)
    (gateway : MatchingEngine B) (input : bytes) : ReadResult * ClientState * MatchingEngine B :=
  let client := drop_sent_prefix client in
  let '(status, out, session) :=
    on_bytes_into config (mkSession (cs_inbuf client) (cs_logged_out client) gateway) input
      (outbuf client) (hard_output_limit options) in
  let client := set_session (inbuf_ session) (logged_out_ session) (set_output out (sent client) client) in
  if bool_decide (status = OutputLimitExceeded) then
    if negb (is_nil (outbuf client))
    then (StopReading, set_close_after_flush client, s_engine session)
    else (CloseNow, client, s_engine session)
  else if logged_out_ session then (StopReading, set_close_after_flush client, s_engine session)
  else (Continue, client, s_engine session).

Definition read_once (options : EpollServerOptions) (fd : Z) (client : ClientState)
    (gateway : MatchingEngine B) : Sys (ReadResult * ClientState * MatchingEngine B) :=
  let! n := sys (SysRead fd 4096) in
  match n with
  | Data [] => ret (StopReading, set_input_closed client, gateway)
  | Data input => ret (apply_session_input options client gateway input)
  | Failed errno =>
      if bool_decide (errno = EINTR) then ret (Continue, client, gateway)
      else if is_would_block errno then ret (StopReading, client, gateway)
      else ret (CloseNow, client, gateway)
  | _ => ret (CloseNow, client, gateway)
  end.

Definition read_step (options : EpollServerOptions) (fd : Z) (peer_hung_up : bool)
    (s : ClientState * MatchingEngine B) :
    Sys (ClientState * MatchingEngine B + bool * ClientState * MatchingEngine B) :=
  let '(client, gateway) := s in
  if should_read_available_input options client peer_hung_up then
    let! (r, client, gateway) := read_once options fd client gateway in
    match r with
    | Continue => ret (inl (client, gateway))
    | StopReading => ret (inr (false, client, gateway))
    | CloseNow => ret (inr (true, client, gateway))
    end
  else ret (inr (false, client, gateway)).

Definition read_available (options : EpollServerOptions) (fd : Z) (client : ClientState)
    (gateway : MatchingEngine B) (peer_hung_up : bool) : Sys (bool * ClientState * MatchingEngine B) :=
  loop (read_step options fd peer_hung_up) (client, gateway).

Definition read_client_input_if_ready (options : EpollServerOptions) (events fd : Z)
    (client : ClientState) (gateway : MatchingEngine B) : Sys (bool * ClientState * MatchingEngine B) :=
  if negb (should_read_client_input events client) then ret (false, client, gateway)
  else read_available options fd client gateway (event_has events EPOLLHUP).

(** ** The event loop *)

Record EventLoop := mkEventLoop {
  epoll_fd : Z;
  listen_fd : Z;
  options : EpollServerOptions;
  gateway : MatchingEngine B;
  clients : gmap Z ClientState;
  next_generation : Z;
  listener_armed : bool
}.

Definition set_gateway (g : MatchingEngine B) (l : EventLoop) : EventLoop :=
  mkEventLoop (epoll_fd l) (listen_fd l) (options l) g (clients l) (next_generation l) (listener_armed l).
Definition set_clients (cs : gmap Z ClientState) (l : EventLoop) : EventLoop :=
  mkEventLoop (epoll_fd l) (listen_fd l) (options l) (gateway l) cs (next_generation l) (listener_armed l).
Definition set_next_generation (g : Z) (l : EventLoop) : EventLoop :=
  mkEventLoop (epoll_fd l) (listen_fd l) (options l) (gateway l) (clients l) g (listener_armed l).
Definition set_armed (armed : bool) (l : EventLoop) : EventLoop :=
  mkEventLoop (epoll_fd l) (listen_fd l) (options l) (gateway l) (clients l) (next_generation l) armed.

Definition set_listener_armed (loop : EventLoop) (armed : bool) : Sys EventLoop :=
  if Bool.eqb (listener_armed loop) armed then ret loop
  else
    let! ok := mod_fd (epoll_fd loop) (listen_fd loop) (if armed then EPOLLIN else 0) kListenerGeneration in
    ret (if (ok : bool) then set_armed armed loop else loop).

Definition is_listener_event (ev : epoll_event) (listen_fd : Z) : bool :=
  (event_generation ev =? kListenerGeneration) && (event_fd ev =? listen_fd).

Definition is_transient_accept_error (errno : Error) : bool :=
  bool_decide (errno ∈ [EINTR; ECONNABORTED; EPROTO; ENETDOWN; ENOPROTOOPT; EHOSTDOWN; ENONET; EHOSTUNREACH;
                        EOPNOTSUPP; ENETUNREACH]).

Definition prepare_listener_socket (listen_fd : Z) (options : EpollServerOptions) : Sys bool :=
  if listen_fd <? 0 then ret false
  else if max_events options =? 0 then ret false
  else set_nonblocking listen_fd.

(** The descriptor, or a negative number; [UniqueFd] closes the instance on the
    way out of a failed registration. *)
Definition make_epoll_listener (listen_fd : Z) (options : EpollServerOptions) : Sys Z :=
  let! ok := prepare_listener_socket listen_fd options in
  if negb ok then ret (-1)
  else
    let! r := sys SysEpollCreate in
    match r with
    | Ret epoll_fd =>
        let! ok := add_fd epoll_fd listen_fd EPOLLIN kListenerGeneration in
        if negb ok then sys_ (SysClose epoll_fd);; ret (-1) else ret epoll_fd
    | _ => ret (-1)
    end.

(** [try_emplace] keeps an entry that is already there. *)
Definition register_client (loop : EventLoop) (conn : Z) : Sys (bool * EventLoop) :=
  let '(generation, next) := next_client_generation (next_generation loop) in
  let loop := set_next_generation next loop in
  let emplaced := bool_decide (clients loop !! conn = None) in
  let loop := if emplaced then set_clients (<[conn := new_client generation]> (clients loop)) loop else loop in
  let! ok :=
    if negb emplaced then ret false
    else add_fd (epoll_fd loop) conn (Z.lor (Z.lor (Z.lor EPOLLIN EPOLLRDHUP) EPOLLERR) EPOLLHUP) generation in
  if negb ok then ret (false, set_clients (delete conn (clients loop)) loop) else ret (true, loop).

Inductive AcceptResult := Accepted | Drained | Retry | Fatal.

Definition accept_one (loop : EventLoop) : Sys (AcceptResult * EventLoop) :=
  let! r := sys (SysAccept (listen_fd loop) true) in
  match r with
  | Ret conn =>
      let! (ok, loop) := register_client loop conn in
      if negb ok then sys_ (SysClose conn);; ret (Accepted, loop) else ret (Accepted, loop)
  | Failed errno =>
      if is_would_block errno then ret (Drained, loop)
      else if bool_decide (errno = EMFILE) || bool_decide (errno = ENFILE) then
        let! loop := set_listener_armed loop false in ret (Drained, loop)
      else if is_transient_accept_error errno then ret (Retry, loop)
      else ret (Fatal, loop)
  | _ => ret (Fatal, loop)
  end.

Definition accepts_per_tick_limit (options : EpollServerOptions) : Z :=
  if max_accepts_per_tick options =? 0 then size_max else max_accepts_per_tick options.

Definition accept_step (limit : Z) (s : EventLoop * Z) : Sys (EventLoop * Z + bool * EventLoop) :=
  let '(loop, accepted) := s in
  let! (result, loop) := accept_one loop in
  match result with
  | Fatal => ret (inr (false, loop))
  | Drained => ret (inr (true, loop))
  | Accepted =>
      let accepted := u64 (accepted + 1) in
      if limit <=? accepted then ret (inr (true, loop)) else ret (inl (loop, accepted))
  | Retry => ret (inl (loop, accepted))
  end.

Definition accept_connections (l : EventLoop) : Sys (bool * EventLoop) :=
  loop (accept_step (accepts_per_tick_limit (options l))) (l, 0).

Definition rearm_client (loop : EventLoop) (fd : Z) (client : ClientState) (ev : Z) : Sys (bool * ClientState) :=
  if should_close_for_full_hangup ev then ret (true, client)
  else
    let client := apply_peer_half_close ev client in
    if should_close_after_flush client then ret (true, client)
    else
      let! ok := mod_fd (epoll_fd loop) fd (client_interests (options loop) client) (generation client) in
      ret (negb ok, client).

Definition find_live_client (loop : EventLoop) (fd generation_ : Z) : option ClientState :=
  match clients loop !! fd with
  | Some client => if negb (generation client =? generation_) then None else Some client
  | None => None
  end.

(** Whether to close, the client and the gateway. *)
Definition service_client_event (loop : EventLoop) (fd : Z) (client : ClientState) (events : Z) :
    Sys (bool * ClientState * MatchingEngine B) :=
  if event_has events EPOLLERR then ret (true, client, gateway loop)
  else
    let! (close, client) := drain_writable_if_ready events fd client in
    if (close : bool) then ret (true, client, gateway loop)
    else
      let! (close, client, gateway) :=
        read_client_input_if_ready (options loop) events fd client (gateway loop) in
      if (close : bool) then ret (true, client, gateway)
      else
        let! (close, client) := rearm_client loop fd client events in
        ret (close, client, gateway).

Definition close_client_entry (loop : EventLoop) (fd : Z) : Sys EventLoop :=
  close_client (epoll_fd loop) fd;;
  set_listener_armed (set_clients (delete fd (clients loop)) loop) true.

(** The client is serviced in place. *)
Definition process_client_event (loop : EventLoop) (ready_event : epoll_event) : Sys EventLoop :=
  let fd := event_fd ready_event in
  match find_live_client loop fd (event_generation ready_event) with
  | None => ret loop
  | Some client =>
      let! (close, client, gateway) := service_client_event loop fd client (ev_events ready_event) in
      let loop := set_gateway gateway (set_clients (<[fd := client]> (clients loop)) loop) in
      if (close : bool) then close_client_entry loop fd else ret loop
  end.

Definition dispatch_ready_event (loop : EventLoop) (ready_event : epoll_event) : Sys (bool * EventLoop) :=
  if is_listener_event ready_event (listen_fd loop) then accept_connections loop
  else
    let! loop := process_client_event loop ready_event in
    ret (true, loop).

Definition dispatch_ready_events (loop : EventLoop) (ready_events : list epoll_event) : Sys (bool * EventLoop) :=
  for_all dispatch_ready_event loop ready_events.

Definition event_loop_step (loop : EventLoop) : Sys (EventLoop + bool * EventLoop) :=
  let! stop_requested := sys SysLoadStop in
  if negb (bool_decide (stop_requested = Ret 0)) then ret (inr (true, loop))
  else
    let! ready :=
      sys (SysEpollWait (epoll_fd loop) (i32_of_u (max_events (options loop))) (wait_timeout_ms (options loop))) in
    match ready with
    | Ready evs =>
        let! (ok, loop) := dispatch_ready_events loop evs in
        ret (if (ok : bool) then inl loop else inr (false, loop))
    | Failed errno => ret (if bool_decide (errno = EINTR) then inl loop else inr (false, loop))
    | _ => ret (inr (false, loop))
    end.

Definition run_event_loop (l : EventLoop) : Sys (bool * EventLoop) := loop event_loop_step l.

(** [EpollServer::serve_listen_socket], with the gateway it leaves behind. *)
Definition serve_listen_socket (gateway_ : MatchingEngine B) (listen_fd : Z) (options : EpollServerOptions) :
    Sys (bool * MatchingEngine B) :=
  let! epoll_fd := make_epoll_listener listen_fd options in
  if epoll_fd <? 0 then ret (false, gateway_)
  else
    let! (ok, loop) := run_event_loop (mkEventLoop epoll_fd listen_fd options gateway_ ∅ 1 true) in
    close_all_clients epoll_fd (clients loop);;
    sys_ (SysClose epoll_fd);;
    ret (ok, gateway loop).

(** [EpollServer::run]; [UniqueFd] closes the listener on every return. *)
Definition run (gateway_ : MatchingEngine B) (host : string) (port : Z) (options : EpollServerOptions) :
    Sys (bool * MatchingEngine B) :=
  let! r := sys (SysSocket true) in
  match r with
  | Ret listen_fd =>
      sys_ (SysSetsockopt listen_fd);;
      let! parsed := sys (SysInetPton host) in
      if negb (bool_decide (parsed = Ret 1)) then sys_ (SysClose listen_fd);; ret (false, gateway_)
      else
        let! bound := sys (SysBind listen_fd port) in
        if negb (bool_decide (bound = Ret 0)) then sys_ (SysClose listen_fd);; ret (false, gateway_)
        else
          let! listening := sys (SysListen listen_fd 128) in
          if negb (bool_decide (listening = Ret 0)) then sys_ (SysClose listen_fd);; ret (false, gateway_)
          else
            let! (ok, gateway) := serve_listen_socket gateway_ listen_fd options in
            sys_ (SysClose listen_fd);;
            ret (ok, gateway)
  | _ => ret (false, gateway_)
  end.
End Epoll.
Arguments EventLoop B : clear implicits.
