(* ===== verification/Server.v ===== *)
(** * Server: what an order-entry server promises on the wire

    The specification both socket servers refine, as a machine that reads the
    trace of system calls: it accepts a trace only when every connection gets,
    in order and without gaps, the responses of its session to the bytes it
    sent, all sessions driving one gateway in the order in which they are given
    their input; when every
    descriptor is closed exactly once and used only while it is open; and, for
    an event-driven server, when no open connection is left without the events
    it needs at the time the server goes to sleep. *)
From S2P Require Import Prelude Core Endian Book BookSpec Engine Gateway Session SessionSpec Sys Epoll.

(** A connection: the state of its session, all responses of the session, how
    many of their bytes the kernel has taken, whether a call on it failed, and the
    bytes read that the session has not been given yet. *)
Record Conn := mkConn {
  cn_inbuf : bytes;
  cn_logged_out : bool;
  cn_replies : bytes;
  cn_wire : nat;
  cn_broken : bool;
  cn_input : bytes
}.

Definition new_conn : Conn := mkConn [] false [] 0 false [].
Definition backlog (c : Conn) : bytes := drop (cn_wire c) (cn_replies c).

Definition advance (n : nat) (c : Conn) : Conn :=
  mkConn (cn_inbuf c) (cn_logged_out c) (cn_replies c) (cn_wire c + n) (cn_broken c) (cn_input c).
Definition break (c : Conn) : Conn :=
  mkConn (cn_inbuf c) (cn_logged_out c) (cn_replies c) (cn_wire c) true (cn_input c).
Definition hold (input : bytes) (c : Conn) : Conn :=
  mkConn (cn_inbuf c) (cn_logged_out c) (cn_replies c) (cn_wire c) (cn_broken c) input.

Lemma backlog_advance n c : backlog (advance n c) = drop n (backlog c).
Proof. unfold backlog. cbn. by rewrite drop_drop. Qed.

(** What the specification leaves to the transport: the cap on the bytes queued
    for a connection, the errors of a read or write that are no failure, the
    answers on which the server gives up all its connections, and whether the
    sessions take turns with a mutex rather than being given a read at once. *)
Record Transport := mkTransport {
  tp_limit : Z;
  tp_transient : Error -> bool;
  tp_gives_up : Syscall -> Answer -> bool;
  tp_mutex : bool
}.

(** The interest a connection needs to make progress: output is waited for
    exactly when there is some, and something is waited for. *)
Definition awake (interest : gmap Z epoll_event) (fd : Z) (c : Conn) : bool :=
  match interest !! fd with
  | Some ev =>
      Bool.eqb (event_has (ev_events ev) EPOLLOUT) (negb (is_nil (backlog c))) &&
      (event_has (ev_events ev) EPOLLIN || event_has (ev_events ev) EPOLLOUT)
  | None => false
  end.

(** An event that reports the connection as broken. *)
Definition reports_broken (fd : Z) (ev : epoll_event) : bool :=
  (event_fd ev =? fd) && (event_has (ev_events ev) EPOLLERR || event_has (ev_events ev) EPOLLHUP).

Section Server.
Context {B : Type} `{BookStore B}.
Variable config : RiskConfig.
Variable tp : Transport.

Record AServer := mkAServer {
  as_engine : MatchingEngine B;
  as_conns : gmap Z Conn;
  as_others : gset Z;                    (* the descriptors that are no connection *)
  as_interest : gmap Z epoll_event;
  as_ready : list epoll_event;           (* the last batch of events *)
  as_stopping : bool
}.

Definition new_server (e : MatchingEngine B) : AServer := mkAServer e ∅ ∅ ∅ [] false.

Definition put_conn (fd : Z) (c : Conn) (s : AServer) : AServer :=
  mkAServer (as_engine s) (<[fd := c]> (as_conns s)) (as_others s) (as_interest s) (as_ready s) (as_stopping s).
Definition put_conns (cs : gmap Z Conn) (s : AServer) : AServer :=
  mkAServer (as_engine s) cs (as_others s) (as_interest s) (as_ready s) (as_stopping s).
Definition put_others (o : gset Z) (s : AServer) : AServer :=
  mkAServer (as_engine s) (as_conns s) o (as_interest s) (as_ready s) (as_stopping s).
Definition put_engine (e : MatchingEngine B) (s : AServer) : AServer :=
  mkAServer e (as_conns s) (as_others s) (as_interest s) (as_ready s) (as_stopping s).
Definition put_interest (i : gmap Z epoll_event) (s : AServer) : AServer :=
  mkAServer (as_engine s) (as_conns s) (as_others s) i (as_ready s) (as_stopping s).
Definition put_ready (evs : list epoll_event) (s : AServer) : AServer :=
  mkAServer (as_engine s) (as_conns s) (as_others s) (as_interest s) evs (as_stopping s).
Definition put_stopping (s : AServer) : AServer :=
  mkAServer (as_engine s) (as_conns s) (as_others s) (as_interest s) (as_ready s) true.

Lemma put_conn_id fd c s : as_conns s !! fd = Some c -> put_conn fd c s = s.
Proof. intros Hc. destruct s. unfold put_conn. cbn in *. by rewrite insert_id. Qed.

Lemma put_engine_id s : put_engine (as_engine s) s = s.
Proof. by destruct s. Qed.

Lemma put_conn_put fd c c' s : put_conn fd c' (put_conn fd c s) = put_conn fd c' s.
Proof. unfold put_conn. cbn. by rewrite insert_insert_eq. Qed.

Lemma lookup_put_conn fd c s : as_conns (put_conn fd c s) !! fd = Some c.
Proof. apply lookup_insert_eq. Qed.

(** The session answers a read. *)
Definition deliver (e : MatchingEngine B) (c : Conn) (input : bytes) : Conn * MatchingEngine B :=
  let '(_, out, session) :=
    on_bytes_into config (mkSession (cn_inbuf c) (cn_logged_out c) e) input (backlog c) (tp_limit tp) in
  (mkConn (inbuf_ session) (logged_out_ session) (cn_replies c ++ drop (length (backlog c)) out) (cn_wire c)
     (cn_broken c) (cn_input c),
   s_engine session).

Definition step_deliver (s : AServer) (fd : Z) (c : Conn) (input : bytes) : option AServer :=
  let '(c, e) := deliver (as_engine s) c input in
  if Z.of_nat (length (backlog c)) <=? tp_limit tp then Some (put_conn fd c (put_engine e s)) else None.

(** A read: the end of the stream, input for a session that still runs, an error. *)
Definition step_read (s : AServer) (fd : Z) (c : Conn) (a : Answer) : option AServer :=
  match a with
  | Data [] => Some s
  | Data input =>
      if cn_logged_out c || negb (is_nil (cn_input c)) then None
      else if tp_mutex tp then Some (put_conn fd (hold input c) s)
      else step_deliver s fd c input
  | Failed err => Some (if tp_transient tp err then s else put_conn fd (break c) s)
  | _ => None
  end.

(** The mutex is held: the session is given what was read. *)
Definition step_lock (s : AServer) (fd : Z) (c : Conn) : option AServer :=
  if is_nil (cn_input c) then None else step_deliver s fd (hold [] c) (cn_input c).

(** A write: it offers exactly what the connection has not been sent yet. *)
Definition step_send (s : AServer) (fd : Z) (c : Conn) (data : bytes) (a : Answer) : option AServer :=
  if bool_decide (data = backlog c) then
    match a with
    | Ret n => Some (put_conn fd (if n =? 0 then break c else advance (Z.to_nat n) c) s)
    | Failed err => Some (if tp_transient tp err then s else put_conn fd (break c) s)
    | _ => None
    end
  else None.

(** A connection may be closed when everything was sent, when it is broken, or
    when the server gives up. *)
Definition may_close (s : AServer) (fd : Z) (c : Conn) : bool :=
  is_nil (backlog c) || cn_broken c || as_stopping s || existsb (reports_broken fd) (as_ready s).

Definition step_close (s : AServer) (fd : Z) : option AServer :=
  match as_conns s !! fd with
  | Some c =>
      if may_close s fd c
      then Some (put_interest (delete fd (as_interest s)) (put_conns (delete fd (as_conns s)) s)) else None
  | None =>
      if bool_decide (fd ∈ as_others s)
      then Some (put_interest (delete fd (as_interest s)) (put_others (as_others s ∖ {[fd]}) s)) else None
  end.

Definition step_ctl (s : AServer) (op : CtlOp) (fd : Z) (ev : epoll_event) (a : Answer) : AServer :=
  match a, op with
  | Ret _, EPOLL_CTL_DEL => put_interest (delete fd (as_interest s)) s
  | Ret _, _ => put_interest (<[fd := ev]> (as_interest s)) s
  | _, EPOLL_CTL_MOD => put_conns (alter break fd (as_conns s)) s
  | _, _ => s
  end.

Definition step_call (s : AServer) (c : Syscall) (a : Answer) : option AServer :=
  match c with
  | SysAccept _ _ =>
      match a with
      | Ret fd => if bool_decide (as_conns s !! fd = None) then Some (put_conn fd new_conn s) else None
      | _ => Some s
      end
  | SysRead fd _ => c ← as_conns s !! fd; step_read s fd c a
  | SysLock fd => c ← as_conns s !! fd; step_lock s fd c
  | SysSend fd data => c ← as_conns s !! fd; step_send s fd c data a
  | SysClose fd => step_close s fd
  | SysSocket _ | SysEpollCreate =>
      match a with
      | Ret fd => Some (put_others ({[fd]} ∪ as_others s) s)
      | _ => Some s
      end
  | SysEpollCtl _ op fd ev => Some (step_ctl s op fd ev a)
  | SysEpollWait _ _ _ =>
      if bool_decide (map_Forall (fun fd c => awake (as_interest s) fd c = true) (as_conns s))
      then Some (match a with Ready evs => put_ready evs s | _ => s end) else None
  | SysWrite _ _ | SysConnect _ _ | SysShutdownWrite _ => None
  | _ => Some s
  end.

Definition server_step (s : AServer) (x : Syscall * Answer) : option AServer :=
  (fun s' => if tp_gives_up tp x.1 x.2 then put_stopping s' else s') <$> step_call s x.1 x.2.

Definition server_run (s : AServer) (t : list (Syscall * Answer)) : option AServer :=
  fold_left (fun o x => o ≫= fun s => server_step s x) t (Some s).

Lemma server_run_snoc s t x : server_run s (t ++ [x]) = server_run s t ≫= fun s' => server_step s' x.
Proof. unfold server_run. by rewrite fold_left_app. Qed.

(** ** Descriptors *)

Definition owned (s : AServer) : gset Z := dom (as_conns s) ∪ as_others s.

Variable s0 : AServer.
(** The descriptors that were open before the server started. *)
Variable base : gset Z.

(** The open descriptors are those of [base], the connections and the others,
    each counted once. *)
Definition fds_ok (s : AServer) (fds : gset Z) : Prop :=
  fds = base ∪ (dom (as_conns s) ∪ as_others s) /\
  base ## dom (as_conns s) ∪ as_others s /\ dom (as_conns s) ## as_others s.

(** The trace of [w] leads to [s]. *)
Definition holds (s : AServer) (w : World) : Prop :=
  server_run s0 (trace w) = Some s /\ fds_ok s (opened w).

Definition safe (w : World) : Prop := exists s, holds s w.

Lemma holds_safe s w : holds s w -> safe w.
Proof. by exists s. Qed.

(** A step that keeps the descriptors. *)
Lemma fds_ok_same s s' fds :
  dom (as_conns s') = dom (as_conns s) -> as_others s' = as_others s -> fds_ok s fds -> fds_ok s' fds.
Proof. unfold fds_ok. by intros -> ->. Qed.

Lemma dom_put_conn s fd c c' :
  as_conns s !! fd = Some c -> dom (as_conns (put_conn fd c' s)) = dom (as_conns s).
Proof. intros Hc. cbn [put_conn as_conns]. rewrite dom_insert_L. apply elem_of_dom_2 in Hc. set_solver. Qed.

Lemma fds_ok_put_conn s fd c c' fds :
  as_conns s !! fd = Some c -> fds_ok s fds -> fds_ok (put_conn fd c' s) fds.
Proof. intros Hc. apply fds_ok_same; [by eapply dom_put_conn|done]. Qed.

Lemma fds_ok_new s s' fds fd :
  fd ∉ fds -> dom (as_conns s') ∪ as_others s' = {[fd]} ∪ (dom (as_conns s) ∪ as_others s) ->
  dom (as_conns s') ## as_others s' -> fds_ok s fds -> fds_ok s' ({[fd]} ∪ fds).
Proof. unfold fds_ok. intros Hfd Hd Hx (-> & Hb & _). rewrite Hd. set_solver. Qed.

Lemma fds_ok_close s s' fds fd :
  fd ∈ dom (as_conns s) ∪ as_others s ->
  dom (as_conns s') = dom (as_conns s) ∖ {[fd]} -> as_others s' = as_others s ∖ {[fd]} ->
  fds_ok s fds -> fds_ok s' (fds ∖ {[fd]}).
Proof. unfold fds_ok. intros Hfd -> -> (-> & Hb & Hx). set_solver. Qed.

Lemma step_deliver_fds s s' fd c c' input fds :
  as_conns s !! fd = Some c' -> step_deliver s fd c input = Some s' -> fds_ok s fds -> fds_ok s' fds.
Proof.
  intros Hc Hs Hok. unfold step_deliver in Hs. destruct (deliver _ _ _) as [c2 e]. case_if; simplify_eq.
  by eapply (fds_ok_put_conn (put_engine e s)).
Qed.

Lemma step_read_fds s s' fd c a fds :
  as_conns s !! fd = Some c -> step_read s fd c a = Some s' -> fds_ok s fds -> fds_ok s' fds.
Proof.
  intros Hc Hs Hok. unfold step_read in Hs. destruct a as [|err|[|b bs]|]; simplify_eq; try done.
  - case_if; [done|]. by eapply fds_ok_put_conn.
  - destruct (_ || _); [done|]. destruct (tp_mutex tp); simplify_eq; [by eapply fds_ok_put_conn|].
    by eapply step_deliver_fds.
Qed.

Lemma step_send_fds s s' fd c data a fds :
  as_conns s !! fd = Some c -> step_send s fd c data a = Some s' -> fds_ok s fds -> fds_ok s' fds.
Proof.
  intros Hc Hs Hok. unfold step_send in Hs. case_bool_decide; [|done]. destruct a as [n|err| |]; simplify_eq.
  - by eapply fds_ok_put_conn.
  - case_if; [done|]. by eapply fds_ok_put_conn.
Qed.

Lemma step_close_fds s s' fd fds :
  step_close s fd = Some s' -> fds_ok s fds -> fds_ok s' (fds ∖ {[fd]}).
Proof.
  intros Hs Hok. pose proof Hok as (_ & _ & Hx). unfold step_close in Hs. destruct (as_conns s !! fd) as [c|] eqn:Ec.
  - apply elem_of_dom_2 in Ec. destruct (may_close _ _ _); simplify_eq. apply (fds_ok_close s); [set_solver| | |done].
    + cbn. by rewrite dom_delete_L.
    + cbn. set_solver.
  - apply not_elem_of_dom in Ec. case_bool_decide; simplify_eq. apply (fds_ok_close s); cbn; [set_solver|set_solver|done|done].
Qed.

Lemma step_ctl_fds s op fd ev a fds : fds_ok s fds -> fds_ok (step_ctl s op fd ev a) fds.
Proof.
  intros Hok. unfold step_ctl. destruct a, op; try done.
  all: by apply (fds_ok_same s); cbn; rewrite ?dom_alter_L.
Qed.

Lemma step_call_fds s s' c a fds :
  step_call s c a = Some s' -> admissible fds c a = true -> fds_ok s fds -> fds_ok s' (opened_after c a fds).
Proof.
  intros Hs Ha Hok. assert (forall fd, (0 <=? fd) && (fd <? 2 ^ 31) && bool_decide (fd ∉ fds) = true -> fd ∉ fds) as Hnew.
  { intros fd E. apply andb_true_iff in E as [_ E]. by apply bool_decide_eq_true in E. }
  assert (forall fd, fd ∉ fds -> fds_ok (put_others ({[fd]} ∪ as_others s) s) ({[fd]} ∪ fds)) as Hother.
  { intros fd Hfd. apply (fds_ok_new s); try done; cbn; [set_solver|]. destruct Hok as (-> & _ & Hx). set_solver. }
  destruct c; cbn [step_call opened_after] in *; try (by destruct a; simplify_eq).
  - destruct a as [fd| | |]; simplify_eq; try done. by apply Hother, Hnew.
  - destruct a as [fd| | |]; simplify_eq; try done. by apply Hother, Hnew.
  - simplify_eq. replace (match a with _ => fds end) with fds by (by destruct a). by apply step_ctl_fds.
  - replace (match a with _ => fds end) with fds by (by destruct a). case_bool_decide; simplify_eq. by destruct a.
  - destruct a as [fd| | |]; simplify_eq; try done. apply Hnew in Ha. case_bool_decide; simplify_eq.
    apply (fds_ok_new s); try done; cbn; rewrite dom_insert_L; [set_solver|]. destruct Hok as (-> & _ & Hx). set_solver.
  - replace (match a with _ => fds end) with fds by (by destruct a).
    destruct (as_conns s !! fd) as [c|] eqn:Ec; [|done]. by eapply step_read_fds.
  - replace (match a with _ => fds end) with fds by (by destruct a).
    destruct (as_conns s !! fd) as [c|] eqn:Ec; [|done]. by eapply step_send_fds.
  - replace (match a with _ => fds ∖ {[fd]} end) with (fds ∖ {[fd]}) by (by destruct a). by eapply step_close_fds.
  - replace (match a with _ => fds end) with fds by (by destruct a).
    destruct (as_conns s !! fd) as [c|] eqn:Ec; [|done]. cbn in Hs. unfold step_lock in Hs.
    destruct (is_nil _); [done|]. by eapply step_deliver_fds.
Qed.

Lemma step_descriptors s s' c a fds :
  server_step s (c, a) = Some s' -> admissible fds c a = true -> fds_ok s fds -> fds_ok s' (opened_after c a fds).
Proof.
  unfold server_step. cbn [fst snd]. intros Hs. apply fmap_Some in Hs as (s1 & Hs & ->). intros Ha Hok.
  pose proof (step_call_fds _ _ _ _ _ Hs Ha Hok) as H1. case_if; [|done]. by apply (fds_ok_same s1).
Qed.

Lemma holds_answered s s' c a w :
  holds s w -> admissible (opened w) c a = true -> server_step s (c, a) = Some s' -> holds s' (answered c a w).
Proof.
  intros [Hr Hf] Ha Hs. split; [|by eapply step_descriptors].
  cbn [trace answered]. rewrite server_run_snoc, Hr. exact Hs.
Qed.

(** The rule of a call: the specification takes a step for every answer. *)
Lemma wp_call c Q s w :
  holds s w ->
  (forall a, admissible (opened w) c a = true -> exists s', step_call s c a = Some s' /\
     (holds (if tp_gives_up tp c a then put_stopping s' else s') (answered c a w) -> Q a (answered c a w))) ->
  wp safe (sys c) Q w.
Proof.
  intros Hw HQ. apply wp_sys; [by eapply holds_safe|]. intros a Ha. destruct (HQ a Ha) as (s' & Hs & HQ').
  apply HQ', (holds_answered s); [done|done|]. unfold server_step. cbn [fst snd]. by rewrite Hs.
Qed.

(** The rule of a call on which the server never gives up. *)
Lemma wp_call_plain c Q s w :
  (forall a, tp_gives_up tp c a = false) -> holds s w ->
  (forall a, admissible (opened w) c a = true -> exists s', step_call s c a = Some s' /\
     (holds s' (answered c a w) -> Q a (answered c a w))) ->
  wp safe (sys c) Q w.
Proof.
  intros Hg Hw HQ. eapply wp_call; [exact Hw|]. intros a Ha. destruct (HQ a Ha) as (s' & Hs & HQ').
  exists s'. split; [done|]. by rewrite Hg.
Qed.

(** ** Setting up and tearing down *)

(** The server without connections, with the engine [e'] and the descriptors [oth]. *)
Definition idle (e' : MatchingEngine B) (oth : gset Z) (w : World) : Prop :=
  exists s, as_engine s = e' /\ as_conns s = ∅ /\ as_others s = oth /\ holds s w.

(** A call that neither opens nor closes a descriptor. *)
Definition neutral (c : Syscall) : bool :=
  match c with
  | SysSetsockopt _ | SysInetPton _ | SysBind _ _ | SysListen _ _ | SysGetFlags _ | SysSetFlags _ _
  | SysEpollCtl _ _ _ _ => true
  | _ => false
  end.

Definition setup_call (c : Syscall) : bool :=
  match c with SysSocket _ | SysEpollCreate | SysClose _ => true | _ => neutral c end.

Hypothesis setup_goes_on : forall c a, setup_call c = true -> tp_gives_up tp c a = false.

Lemma wp_neutral c e' oth (Q : Answer -> World -> Prop) w :
  neutral c = true -> idle e' oth w -> (forall a w', idle e' oth w' -> Q a w') -> wp safe (sys c) Q w.
Proof.
  intros Hc (s & He & Hs & Ho & Hw) HQ. eapply wp_call_plain; [intros a; apply setup_goes_on; by destruct c|exact Hw|].
  intros a _. destruct c; try done; (eexists; split; [done|]; intros Hw'; apply HQ; eexists; split_and!; [..|exact Hw']; try done).
  all: unfold step_ctl; destruct a, op; try done. all: cbn; by rewrite Hs.
Qed.

Lemma wp_close_other fd e' oth w (Q : unit -> World -> Prop) :
  idle e' ({[fd]} ∪ oth) w -> fd ∉ oth -> (forall w', idle e' oth w' -> Q tt w') -> wp safe (sys_ (SysClose fd)) Q w.
Proof.
  intros (s & He & Hs & Ho & Hw) Hfd HQ. apply wp_bind. eapply wp_call_plain; [intros a; by apply setup_goes_on|exact Hw|].
  intros a _. cbn [step_call]. unfold step_close. rewrite Hs, lookup_empty, Ho, bool_decide_true by set_solver.
  eexists. split; [done|]. intros Hw'. apply wp_ret, HQ. eexists. split_and!; [..|exact Hw']; try done. cbn. set_solver.
Qed.

Lemma wp_open c e' oth (Q : Answer -> World -> Prop) w :
  match c with SysSocket _ | SysEpollCreate => True | _ => False end -> idle e' oth w ->
  (forall fd w', fd ∉ base ∪ oth -> 0 <= fd -> idle e' ({[fd]} ∪ oth) w' -> Q (Ret fd) w') ->
  (forall err w', idle e' oth w' -> Q (Failed err) w') ->
  wp safe (sys c) Q w.
Proof.
  intros Hc (s & He & Hs & Ho & Hw) Hok Hf. eapply wp_call_plain; [intros a; apply setup_goes_on; by destruct c|exact Hw|].
  intros a Ha. pose proof Hw as (_ & Hop & _). rewrite Hs, Ho, dom_empty_L, (left_id_L ∅ (∪)) in Hop. rewrite Hop in Ha.
  destruct c; try done; destruct a as [fd|err|b|evs]; cbn [admissible] in Ha; try done; eexists; (split; [done|]); intros Hw'.
  all: try (apply Hf; by exists s).
  all: apply andb_true_iff in Ha as [[Ha%Z.leb_le _]%andb_true_iff Hn]; apply bool_decide_eq_true in Hn.
  all: apply Hok; [done|done|]; eexists; split_and!; [..|exact Hw']; try done; cbn; by rewrite Ho.
Qed.
End Server.
Arguments AServer B : clear implicits.
