(* ===== verification/Tcp.v ===== *)
(** * Tcp: the threaded order-entry server

    include/qsl/gateway/tcp_server.hpp and src/gateway/tcp_server.cpp: the
    acceptor thread and one worker thread per connection, sharing the gateway
    under a mutex.

    A thread is its local state with a program counter; one step of a thread is
    one system call, one critical section of the mutex, or one access of a
    worker's done flag, with the thread-local work that follows it.  A schedule
    is any list of threads; the kernel answers the calls in the order in which
    they are made.  A load of a done flag may still miss the store. *)
From S2P Require Import Prelude Core Endian Book BookSpec Engine Gateway Session Sys.

Record TcpServerOptions := mkTcpServerOptions {
  max_response_bytes : Z;
  listen_backlog : Z;
  max_accepts : Z;
  max_active_connections : Z
}.

Definition response_limit (options : TcpServerOptions) : Z :=
  if max_response_bytes options =? 0 then size_max else max_response_bytes options.

(** ** Workers *)

Inductive WorkerPc :=
| WorkerRead                                                           (* in [read_retry] *)
| WorkerLock (input : bytes)                                           (* before the critical section *)
| WorkerWrite (response : bytes) (offset : nat) (status : SessionStatus)   (* in [write_all] *)
| WorkerClose                                                          (* [serve_connection] returned *)
| WorkerFlag                                                           (* the store of [done] *)
| WorkerExit.

(** [wk_inbuf] and [wk_logged_out] are the members of its [Session]. *)
Record ConnectionWorker := mkConnectionWorker {
  wk_conn : Z;
  wk_pc : WorkerPc;
  wk_inbuf : bytes;
  wk_logged_out : bool;
  wk_done : bool
}.

Definition goto (pc : WorkerPc) (w : ConnectionWorker) : ConnectionWorker :=
  mkConnectionWorker (wk_conn w) pc (wk_inbuf w) (wk_logged_out w) (wk_done w).

(** The head of the loop of [serve_connection]. *)
Definition serve_next (w : ConnectionWorker) : ConnectionWorker :=
  goto (if negb (wk_logged_out w) then WorkerRead else WorkerClose) w.

Definition new_worker (conn : Z) : ConnectionWorker :=
  serve_next (mkConnectionWorker conn WorkerRead [] false false).

(** [read_retry]: [None] when the call is to be made again. *)
Definition read_retry (fd : Z) : Sys (option Answer) :=
  let! n := sys (SysRead fd 4096) in
  ret (if bool_decide (n = Failed EINTR) then None else Some n).

(** One call of the loop of [write_all]: the new offset, or the result. *)
Definition write_all_step (fd : Z) (data : bytes) (offset : nat) : Sys (nat + bool) :=
  let! n := sys (SysSend fd (drop offset data)) in
  match n with
  | Failed errno => ret (if bool_decide (errno = EINTR) then inl offset else inr false)
  | Ret n =>
      if n =? 0 then ret (inr false)
      else
        let offset := (offset + Z.to_nat n)%nat in
        ret (if (offset <? length data)%nat then inl offset else inr true)
  | _ => ret (inr false)
  end.

(** After the response is written. *)
Definition after_write (status : SessionStatus) (w : ConnectionWorker) : ConnectionWorker :=
  if bool_decide (status = OutputLimitExceeded) then goto WorkerClose w else serve_next w.

Section Tcp.
Context {B : Type} `{BookStore B}.
Variable config : RiskConfig.
Variable options : TcpServerOptions.

(** A step of [serve_connection], and of the lambda of [spawn_worker] around it. *)
Definition worker_step (gateway : MatchingEngine B) (w : ConnectionWorker) :
    Sys (ConnectionWorker * MatchingEngine B) :=
  match wk_pc w with
  | WorkerRead =>
      let! n := read_retry (wk_conn w) in
      match n with
      | None => ret (w, gateway)
      | Some (Data (b :: input)) => ret (goto (WorkerLock (b :: input)) w, gateway)
      | Some _ => ret (goto WorkerClose w, gateway)
      end
  | WorkerLock input =>
      sys_ (SysLock (wk_conn w));;
      let '(status, response, session) :=
        on_bytes_into config (mkSession (wk_inbuf w) (wk_logged_out w) gateway) input [] (response_limit options) in
      let w := mkConnectionWorker (wk_conn w) (wk_pc w) (inbuf_ session) (logged_out_ session) (wk_done w) in
      ret (if negb (is_nil response) then goto (WorkerWrite response 0 status) w else after_write status w,
           s_engine session)
  | WorkerWrite response offset status =>
      let! r := write_all_step (wk_conn w) response offset in
      match r with
      | inl offset => ret (goto (WorkerWrite response offset status) w, gateway)
      | inr false => ret (goto WorkerClose w, gateway)
      | inr true => ret (after_write status w, gateway)
      end
  | WorkerClose => sys_ (SysClose (wk_conn w));; ret (goto WorkerFlag w, gateway)
  | WorkerFlag =>
      ret (mkConnectionWorker (wk_conn w) WorkerExit (wk_inbuf w) (wk_logged_out w) true, gateway)
  | WorkerExit => ret (w, gateway)
  end.

(** ** The acceptor *)

Definition at_capacity (workers : list ConnectionWorker) (cap : Z) : bool :=
  negb (cap =? 0) && (cap <=? Z.of_nat (length workers)).

Definition transient_accept_errno (errno : Error) : bool :=
  bool_decide (errno ∈ [EINTR; ECONNABORTED; EPROTO; ENETDOWN; ENOPROTOOPT; EHOSTDOWN; ENONET; EHOSTUNREACH;
                        EOPNOTSUPP; ENETUNREACH]).

Definition fd_exhausted_errno (errno : Error) : bool :=
  bool_decide (errno = EMFILE) || bool_decide (errno = ENFILE) || bool_decide (errno = ENOBUFS) ||
  bool_decide (errno = ENOMEM).

(** [accept_retry]: [None] when the call is to be made again, after a pause or
    at once; a negative number on a fatal error. *)
Definition accept_retry (listen_fd : Z) : Sys (option Z) :=
  let! conn := sys (SysAccept listen_fd false) in
  match conn with
  | Ret conn => ret (Some conn)
  | Failed errno =>
      if fd_exhausted_errno errno then ret None
      else if negb (transient_accept_errno errno) then ret (Some (-1))
      else ret None
  | _ => ret (Some (-1))
  end.

Definition reached_accept_limit (accepted max_accepts : Z) : bool :=
  negb (max_accepts =? 0) && (max_accepts <=? accepted).

Inductive AcceptorPc :=
| AcceptorAccept                       (* in [accept_retry] *)
| AcceptorReap (conn : Z) (i : nat)    (* in [join_finished], at the i-th worker *)
| AcceptorShed (conn : Z)              (* at capacity *)
| AcceptorJoin                         (* in [join_all] *)
| AcceptorReturn.

Record TcpState := mkTcpState {
  ts_gateway : MatchingEngine B;
  ts_workers : list ConnectionWorker;
  ts_acceptor : AcceptorPc;
  ts_accepted : Z
}.

Definition set_acceptor (pc : AcceptorPc) (st : TcpState) : TcpState :=
  mkTcpState (ts_gateway st) (ts_workers st) pc (ts_accepted st).
Definition set_workers (ws : list ConnectionWorker) (st : TcpState) : TcpState :=
  mkTcpState (ts_gateway st) ws (ts_acceptor st) (ts_accepted st).

(** The end of [join_finished] and the rest of the loop of [serve_listen_socket]. *)
Definition admit_connection (conn : Z) (st : TcpState) : TcpState :=
  if at_capacity (ts_workers st) (max_active_connections options) then set_acceptor (AcceptorShed conn) st
  else
    let accepted := u64 (ts_accepted st + 1) in
    mkTcpState (ts_gateway st) (ts_workers st ++ [new_worker conn])
      (if reached_accept_limit accepted (max_accepts options) then AcceptorJoin else AcceptorAccept) accepted.

(** One step of [join_finished]: a worker whose flag is seen is joined and
    erased; [stale] says that the load misses the newest store. *)
Definition join_finished_step (conn : Z) (i : nat) (stale : bool) (st : TcpState) : TcpState :=
  match ts_workers st !! i with
  | Some worker =>
      if wk_done worker && negb stale
      then set_acceptor (AcceptorReap conn i) (set_workers (delete i (ts_workers st)) st)
      else set_acceptor (AcceptorReap conn (S i)) st
  | None => admit_connection conn st
  end.

(** One step of [join_all]: joining waits for the end of the thread. *)
Definition join_all_step (st : TcpState) : TcpState :=
  match ts_workers st with
  | [] => set_acceptor AcceptorReturn st
  | worker :: workers =>
      match wk_pc worker with
      | WorkerExit => set_workers workers st
      | _ => st
      end
  end.

Definition acceptor_step (listen_fd : Z) (stale : bool) (st : TcpState) : Sys TcpState :=
  match ts_acceptor st with
  | AcceptorAccept =>
      let! conn := accept_retry listen_fd in
      match conn with
      | None => ret st
      | Some conn => ret (set_acceptor (if conn <? 0 then AcceptorJoin else AcceptorReap conn 0) st)
      end
  | AcceptorReap conn i => ret (join_finished_step conn i stale st)
  | AcceptorShed conn => sys_ (SysClose conn);; ret (set_acceptor AcceptorAccept st)
  | AcceptorJoin => ret (join_all_step st)
  | AcceptorReturn => ret st
  end.

(** ** The server *)

Inductive Thread := Acceptor (stale : bool) | Worker (i : nat).

Definition thread_step (listen_fd : Z) (st : TcpState) (t : Thread) : Sys TcpState :=
  match t with
  | Acceptor stale => acceptor_step listen_fd stale st
  | Worker i =>
      match ts_workers st !! i with
      | Some w =>
          let! (w, gateway) := worker_step (ts_gateway st) w in
          ret (mkTcpState gateway (<[i := w]> (ts_workers st)) (ts_acceptor st) (ts_accepted st))
      | None => ret st
      end
  end.

Fixpoint run_threads (listen_fd : Z) (schedule : list Thread) (st : TcpState) : Sys TcpState :=
  match schedule with
  | [] => ret st
  | t :: schedule => let! st := thread_step listen_fd st t in run_threads listen_fd schedule st
  end.

Definition new_tcp_state (gateway : MatchingEngine B) : TcpState := mkTcpState gateway [] AcceptorAccept 0.

(** The result of [serve_listen_socket]; [None] while it runs. *)
Definition serve_result (st : TcpState) : option bool :=
  match ts_acceptor st with
  | AcceptorReturn => Some ((max_accepts options =? 0) || (ts_accepted st =? max_accepts options))
  | _ => None
  end.

(** [TcpServer::run] up to the point the schedule leads to. *)
Definition run (gateway : MatchingEngine B) (host : string) (port : Z) (schedule : list Thread) :
    Sys (option bool * TcpState) :=
  let! r := sys (SysSocket false) in
  match r with
  | Ret listen_fd =>
      sys_ (SysSetsockopt listen_fd);;
      let! parsed := sys (SysInetPton host) in
      if negb (bool_decide (parsed = Ret 1)) then sys_ (SysClose listen_fd);; ret (Some false, new_tcp_state gateway)
      else
        let! bound := sys (SysBind listen_fd port) in
        if negb (bool_decide (bound = Ret 0)) then sys_ (SysClose listen_fd);; ret (Some false, new_tcp_state gateway)
        else
          let! listening := sys (SysListen listen_fd (listen_backlog options)) in
          if negb (bool_decide (listening = Ret 0))
          then sys_ (SysClose listen_fd);; ret (Some false, new_tcp_state gateway)
          else
            let! st := run_threads listen_fd schedule (new_tcp_state gateway) in
            match serve_result st with
            | Some ok => sys_ (SysClose listen_fd);; ret (Some ok, st)
            | None => ret (None, st)
            end
  | _ => ret (Some false, new_tcp_state gateway)
  end.
End Tcp.
Arguments TcpState B : clear implicits.
