(* ===== verification/Perf.v ===== *)
(** * Perf: the deterministic part of the performance tools

    apps/qsl-perfeval/main.cpp and the profiling workload of
    apps/qsl-bench/main.cpp: the order flows they drive through the engine, the
    latency statistics, and the command lines.  What the clock measures is an
    input; elapsed seconds and rates, which are floating point, are left out. *)
From S2P Require Import Prelude Core Endian Text Book BookSpec Command Engine Storage.

(** ** splitmix64 *)

(** The random value and the advanced state. *)
Definition splitmix64 (s : Z) : Z * Z :=
  let s := u64 (s + 0x9E3779B97F4A7C15) in
  let z := s in
  let z := u64 (Z.lxor z (Z.shiftr z 30) * 0xBF58476D1CE4E5B9) in
  let z := u64 (Z.lxor z (Z.shiftr z 27) * 0x94D049BB133111EB) in
  (Z.lxor z (Z.shiftr z 31), s).

Definition kRing : nat := Z.to_nat 512.
Definition kBase : Price := 100.
Definition kBand : Price := 64.

(** The order drawn from a random value: side, price and quantity. *)
Definition drawn_side (r : Z) : Side := if negb (Z.land r 1 =? 0) then Buy else Sell.
Definition drawn_price (r : Z) : Price := kBase + Z.shiftr r 1 mod kBand.
Definition drawn_quantity (r : Z) : Quantity := 1 + Z.shiftr r 8 mod 8.

Section Perf.
Context {B : Type} `{BookStore B}.

(** ** qsl-perfeval *)

Record PerfFlow := mkPerfFlow {
  perf_eng : MatchingEngine B;
  perf_sym : SymbolId;
  perf_ring : list OrderId;
  perf_head : nat;
  perf_id : OrderId;
  perf_state : Z;
  perf_sink : Z
}.

Definition new_perf_flow : PerfFlow :=
  let '(s, e) := register_symbol (new_engine Baseline) "AAPL" in
  mkPerfFlow e s [] 0 1 0x9E3779B97F4A7C15 0.

Definition with_eng (e : MatchingEngine B) (f : PerfFlow) : PerfFlow :=
  mkPerfFlow e (perf_sym f) (perf_ring f) (perf_head f) (perf_id f) (perf_state f) (u64 (perf_sink f + Z.of_nat (length (events_ e)))).

Definition submit (f : PerfFlow) : OrderId * PerfFlow :=
  let '(r, next) := splitmix64 (perf_state f) in
  let oid := perf_id f in
  let f := mkPerfFlow (perf_eng f) (perf_sym f) (perf_ring f) (perf_head f) (u64 (perf_id f + 1)) next (perf_sink f) in
  (oid, with_eng (new_limit (perf_eng f) (perf_sym f) oid (drawn_side r) (drawn_price r) (drawn_quantity r) GTC) f).

Definition track (oid : OrderId) (f : PerfFlow) : PerfFlow :=
  if negb (Engine.contains (perf_eng f) (perf_sym f) oid) then f
  else if (length (perf_ring f) <? kRing)%nat
  then mkPerfFlow (perf_eng f) (perf_sym f) (perf_ring f ++ [oid]) (perf_head f) (perf_id f) (perf_state f) (perf_sink f)
  else
    let f := with_eng (Engine.cancel (perf_eng f) (perf_sym f) (default 0 (perf_ring f !! perf_head f))) f in
    mkPerfFlow (perf_eng f) (perf_sym f) (<[perf_head f := oid]> (perf_ring f)) ((perf_head f + 1) mod kRing) (perf_id f) (perf_state f) (perf_sink f).

Definition submit_and_track (f : PerfFlow) : PerfFlow := let '(oid, f) := submit f in track oid f.

(** [fuel] bounds the submissions of the warm-up. *)
Definition warmup (fuel : nat) (f : PerfFlow) : PerfFlow :=
  while fuel (fun f => (length (perf_ring f) <? kRing)%nat) submit_and_track f.

(** The loop of [run_throughput]. *)
Definition run_throughput (fuel orders : nat) : PerfFlow := Nat.iter orders submit_and_track (warmup fuel new_perf_flow).

(** The loop of [run_latency]: the order is drawn and submitted in place, and the
    time of each submission is recorded.  [ns] is what the clock reads say, one
    duration in nanoseconds per order. *)
Definition latency_step (s : PerfFlow * list Z) (ns : Z) : PerfFlow * list Z :=
  let '(f, lat) := s in
  let '(r, next) := splitmix64 (perf_state f) in
  let oid := perf_id f in
  let f := mkPerfFlow (perf_eng f) (perf_sym f) (perf_ring f) (perf_head f) (u64 (perf_id f + 1)) next (perf_sink f) in
  let f := with_eng (new_limit (perf_eng f) (perf_sym f) oid (drawn_side r) (drawn_price r) (drawn_quantity r) GTC) f in
  (track oid f, lat ++ [u32 ns]).

Definition run_latency (fuel : nat) (durations : list Z) : PerfFlow * list Z :=
  fold_left latency_step durations (warmup fuel new_perf_flow, []).

(** ** The profiling flow of qsl-bench *)

Record ProfileFlow := mkProfileFlow {
  eng_ : MatchingEngine B;
  sym_ : SymbolId;
  ring_ : list OrderId;
  head_ : nat;
  id_ : OrderId;
  ops_ : Z
}.

Definition new_profile_flow (storage : Storage) : ProfileFlow :=
  let '(s, e) := register_symbol (new_engine storage) "AAPL" in
  mkProfileFlow e s [] 0 1 0.

Definition profile_add (oid : OrderId) (f : ProfileFlow) : ProfileFlow :=
  if (length (ring_ f) <? kRing)%nat
  then mkProfileFlow (eng_ f) (sym_ f) (ring_ f ++ [oid]) (head_ f) (id_ f) (ops_ f)
  else mkProfileFlow (Engine.cancel (eng_ f) (sym_ f) (default 0 (ring_ f !! head_ f))) (sym_ f)
         (<[head_ f := oid]> (ring_ f)) ((head_ f + 1) mod kRing) (id_ f) (ops_ f).

Definition set_eng (e : MatchingEngine B) (f : ProfileFlow) : ProfileFlow :=
  mkProfileFlow e (sym_ f) (ring_ f) (head_ f) (id_ f) (ops_ f).

(** The occasional change of an order in the middle of the ring. *)
Definition profile_modify (r : Z) (price : Price) (qty : Quantity) (f : ProfileFlow) : ProfileFlow :=
  if (Z.land r 7 =? 0) && negb (is_nil (ring_ f)) then
    let mid := default 0 (ring_ f !! ((head_ f + length (ring_ f) / 2) mod length (ring_ f))%nat) in
    set_eng (Engine.modify (eng_ f) (sym_ f) mid price qty) f
  else f.

(** The occasional market order. *)
Definition profile_market (r : Z) (f : ProfileFlow) : ProfileFlow :=
  if Z.land r 15 =? 0 then
    let ms := if negb (Z.land r 2 =? 0) then Sell else Buy in
    mkProfileFlow (new_market (eng_ f) (sym_ f) (id_ f) ms 3) (sym_ f) (ring_ f) (head_ f) (u64 (id_ f + 1)) (ops_ f)
  else f.

Definition profile_flow_step (r : Z) (f : ProfileFlow) : ProfileFlow :=
  let side := drawn_side r in
  let price := 100 + Z.shiftr r 1 mod 64 in
  let qty := 1 + Z.shiftr r 8 mod 8 in
  let oid := id_ f in
  let f := mkProfileFlow (new_limit (eng_ f) (sym_ f) oid side price qty GTC) (sym_ f) (ring_ f) (head_ f) (u64 (id_ f + 1)) (ops_ f) in
  let f := profile_market r (profile_modify r price qty (profile_add oid f)) in
  mkProfileFlow (eng_ f) (sym_ f) (ring_ f) (head_ f) (id_ f) (u64 (ops_ f + 1)).

(** The steps of [run_profile_workload]. *)
Definition profile_step (s : ProfileFlow * Z) : ProfileFlow * Z :=
  let '(r, state) := splitmix64 s.2 in (profile_flow_step r s.1, state).

Definition run_profile_workload (storage : Storage) (batches : nat) : ProfileFlow * Z :=
  Nat.iter batches (Nat.iter (Z.to_nat 4096) profile_step) (new_profile_flow storage, 0x9E3779B97F4A7C15).
End Perf.
Arguments PerfFlow B : clear implicits.
Arguments ProfileFlow B : clear implicits.

(** ** Storage names *)

#[export] Instance Storage_eq_dec : EqDecision Storage.
Proof. solve_decision. Defined.

Definition kStorageOptions : list (string * Storage) :=
  [("baseline", Baseline); ("pooled", Pooled); ("intrusive", IntrusivePooled); ("contiguous", Contiguous)].

Definition storage_name (s : Storage) : string :=
  match find (fun o => bool_decide (o.2 = s)) kStorageOptions with Some o => o.1 | None => "baseline" end.

(** The value of QSL_BENCH_STORAGE, if it is set. *)
Definition profile_storage_from_env (value : option string) : Storage :=
  match find (fun o => bool_decide (default "" value = o.1)) kStorageOptions with Some o => o.2 | None => Baseline end.

(** ** Latency statistics *)

Record Result := mkResult { res_orders : Z; mean_ns : Z; p50_ns : Z; p99_ns : Z; overhead_ns : Z }.

(** [samples] are the differences of the clock reads around nothing. *)
Definition timer_overhead_ns (samples : list Z) : Z :=
  u32 (fold_left (fun sum ns => u64 (sum + u32 ns)) samples 0 / 200000).

Definition fill_latency_stats (lat : list Z) (samples : list Z) (res : Result) : Result :=
  match lat with
  | [] => res
  | _ =>
      let lat := merge_sort Z.le lat in
      let sum := fold_left (fun sum v => u64 (sum + v)) lat 0 in
      let n := length lat in
      mkResult (res_orders res) (u32 (sum / Z.of_nat n)) (default 0 (lat !! ((n - 1) / 2)%nat))
        (default 0 (lat !! ((n - 1) * 99 / 100)%nat)) (timer_overhead_ns samples)
  end.

(** ** The command line *)

Definition parse_orders_arg (s : bytes) : option Z :=
  match from_chars uint64_type s with
  | Converted v [] => if v =? 0 then None else Some v
  | _ => None
  end.

(** The [Args] of a command line that is accepted. *)
Record PerfArgs := mkPerfArgs { args_latency : bool; args_count : Z }.

Fixpoint parse_args_loop (argv : list bytes) (flag : bool) (orders : option Z) : option (bool * option Z) :=
  match argv with
  | [] => Some (flag, orders)
  | a :: argv' =>
      if bool_decide (a = text "--latency") then parse_args_loop argv' true orders
      else
        match parse_orders_arg a, orders with
        | Some v, None => parse_args_loop argv' flag (Some v)
        | _, _ => None
        end
  end.

Definition parse_args (argv : list bytes) : option PerfArgs :=
  match parse_args_loop (tail argv) false None with
  | Some (flag, orders) => Some (mkPerfArgs flag (default (if flag : bool then 5000000 else 60000000) orders))
  | None => None
  end.
