(* ===== verification/BenchRecovery.v ===== *)
(** * BenchRecovery: the recovery benchmark

    benchmarks/bench_recovery.cpp without its clock: the restart from a log, the
    capture of the resting state and the rebuilding of the books from it, with
    the checks on which the benchmark gives up. *)
From S2P Require Import Prelude Core Endian Text Book BookSpec OrderBook Command EventLog LogFile Engine Recovery Flow.

(** ** Capturing and rebuilding *)

Record CapturedState := mkCapturedState { cs_names : list string; cs_orders_per_symbol : list (list Order) }.

Definition capture_state (eng : MatchingEngine OrderBook) (names : list string) : CapturedState :=
  mkCapturedState names (map (fun symbol => Engine.resting_orders eng (Z.of_nat symbol)) (seq 0 (length names))).

Definition restore_order (symbol : SymbolId) (eng : MatchingEngine OrderBook) (o : Order) : MatchingEngine OrderBook :=
  new_limit eng symbol (o_id o) (o_side o) (o_price o) (o_quantity o) GTC.

Definition restore_symbol (eng : MatchingEngine OrderBook) (s : string * list Order) : MatchingEngine OrderBook :=
  let '(symbol, eng) := register_symbol eng s.1 in fold_left (restore_order symbol) s.2 eng.

Definition restore_state (state : CapturedState) : MatchingEngine OrderBook :=
  fold_left restore_symbol (zip (cs_names state) (cs_orders_per_symbol state)) (new_engine Baseline).

(** Whether the checks pass; otherwise the benchmark exits. *)
Definition verify_rebuilt_state (state : CapturedState) (reference : MatchingEngine OrderBook) : bool :=
  let rebuilt := restore_state state in
  bool_decide (es_symbols (Engine.snapshot rebuilt) = es_symbols (Engine.snapshot reference)) &&
  forallb (fun symbol => bool_decide (Engine.resting_orders rebuilt (Z.of_nat symbol) = Engine.resting_orders reference (Z.of_nat symbol)))
    (seq 0 (length (cs_names state))).

(** Whether [bench_capture_and_rebuild] gets through. *)
Definition bench_capture_and_rebuild (reference : MatchingEngine OrderBook) (names : list string) : bool :=
  verify_rebuilt_state (capture_state reference names) reference.

(** ** The reference and its log *)

Record FlowReference := mkFlowReference { fr_names : list string; fr_engine : MatchingEngine OrderBook; fr_snapshot : EngineSnapshot; fr_resting : Z }.

Definition reference_step (s : list string * MatchingEngine OrderBook) (command : Command) : list string * MatchingEngine OrderBook :=
  (s.1 ++ match command with RegisterSymbol name => [name] | _ => [] end, (Engine.apply s.2 command).2).

Definition build_reference (flow : list Command) : FlowReference :=
  let '(names, engine) := fold_left reference_step flow ([], new_engine Baseline) in
  let snapshot := Engine.snapshot engine in
  mkFlowReference names engine snapshot (fold_left (fun resting s => resting + ss_order_count s) (es_symbols snapshot) 0).

(** [write_flow_log]: one answer of the kernel per append; [None] when the
    benchmark gives up. *)
Definition write_flow_log (opened : bool) (io : WriteIO) (ios : nat -> WriteIO) (flow : list Command) : option EventLogWriter :=
  let writer := open_writer None opened FlushOnAppend io in
  if negb (good writer) then None else append_all writer (imap (fun i r => (r, ios i)) (log_commands 0 flow)).

Definition clean_full_log (recovery : LogRecovery) (expected_records : nat) : bool :=
  bool_decide (rec_error recovery = LogNone) && bool_decide (rec_tail recovery = CleanTail) &&
  (length (rec_records recovery) =? expected_records)%nat.

(** The checks of [bench_restart_phases] on the contents of the log file. *)
Definition restart_checks (contents : bytes) (commands : nat) (reference_snapshot : EngineSnapshot) : bool :=
  let recovery := recover_log_file (Some (mkStream contents None false)) in
  clean_full_log recovery commands &&
  bool_decide (Engine.snapshot (replay (new_engine (B := OrderBook) Baseline) (rec_records recovery)).2 = reference_snapshot).

(** One size of the benchmark; [opened], [io] and [ios] are the answers of the
    kernel to the writer of its log. *)
Definition bench_recovery_at_size (opened : bool) (io : WriteIO) (ios : nat -> WriteIO) (seed : Z) (symbols : SymbolId) (orders : nat) : bool :=
  let flow := generate_flow (B := OrderBook) seed symbols orders in
  let ref := build_reference flow in
  match write_flow_log opened io ios flow with
  | None => false
  | Some writer =>
      let contents := match w_file writer with Some d => dk_stable d ++ dk_page_cache d | None => [] end in
      restart_checks contents (length flow) (fr_snapshot ref) && bench_capture_and_rebuild (fr_engine ref) (fr_names ref)
  end.

(** ** Synthetic books *)

(** The order number [i] of [bench_rebuild_at_depth]. *)
Definition depth_symbol (symbols : Z) (i : Z) : SymbolId := i mod symbols.
Definition depth_buy (symbols : Z) (i : Z) : bool := (i / symbols) mod 2 =? 0.
Definition depth_price (symbols : Z) (i : Z) : Price := if depth_buy symbols i then 50 + i mod 50 else 101 + i mod 50.

(** The [i]-th submission; [None] when the benchmark gives up. *)
Definition depth_step (symbols : Z) (eng : option (MatchingEngine OrderBook)) (i : Z) : option (MatchingEngine OrderBook) :=
  match eng with
  | None => None
  | Some eng =>
      let eng := new_limit eng (depth_symbol symbols i) (i + 1) (if depth_buy symbols i then Buy else Sell) (depth_price symbols i) (1 + i mod 100) GTC in
      if (length (events_ eng) =? 1)%nat then Some eng else None
  end.

Definition depth_name (s : nat) : string := String.append "SYM" (string_of_bytes (to_string (Z.of_nat s))).

(** [bench_rebuild_at_depth]: whether its checks pass. *)
Definition bench_rebuild_at_depth (symbols : Z) (total_orders : nat) : bool :=
  let names := map depth_name (seq 0 (Z.to_nat symbols)) in
  let reference := fold_left (fun e name => (register_symbol e name).2) names (new_engine Baseline) in
  match fold_left (depth_step symbols) (seqZ 0 (Z.of_nat total_orders)) (Some reference) with
  | None => false
  | Some reference => bench_capture_and_rebuild reference names
  end.

(** ** The benchmark *)

Definition bench_sizes : list nat := [Z.to_nat 5000; Z.to_nat 20000; Z.to_nat 80000].
Definition bench_depths : list nat := [Z.to_nat 1000; Z.to_nat 10000; Z.to_nat 50000].

(** [run_recovery_benchmarks] once its directory is created, with the answers for
    the log of each size; the sum that keeps the work from being optimised away is
    left out. *)
Definition run_recovery_benchmarks (created : bool) (answers : nat -> bool * WriteIO * (nat -> WriteIO)) : bool :=
  created &&
  forallb (fun run => run) (imap (fun i orders => let '(opened, io, ios) := answers i in bench_recovery_at_size opened io ios 42 4 orders) bench_sizes) &&
  forallb (bench_rebuild_at_depth 4) bench_depths.
