(* ===== verification/BenchStorage.v ===== *)
(** * BenchStorage: the storage benchmark

    benchmarks/bench_storage.cpp without its clock: the workloads and the builder
    that grows them against a model engine, the description of a workload, and the
    runs over each storage with the figures printed beside the timings.  Counters
    of the source are 64 bits wide; averages and densities, which are floating
    point, and the sum that keeps the work alive are left out. *)
From S2P Require Import Prelude Core Endian Text Book BookSpec Storage Command Engine Shrink Flow.

Record ActiveOrder := mkActiveOrder { ba_symbol : SymbolId; ba_order : Order }.

Record LimitSpec := mkLimitSpec { sp_symbol : SymbolId; sp_side : Side; sp_price : Price; sp_quantity : Quantity; sp_tif : TimeInForce }.

(** A [LimitSpec] with the default time in force. *)
Definition gtc (symbol : SymbolId) (side : Side) (price : Price) (quantity : Quantity) : LimitSpec :=
  mkLimitSpec symbol side price quantity GTC.

(** The text on its purpose, which is only printed, is left out. *)
Record Workload := mkWorkload {
  wl_name : string;
  wl_seed : Z;
  wl_commands : list Command;
  wl_symbols : SymbolId;
  wl_top_probe_interval : Z
}.

(** ** WorkloadBuilder *)

Definition reduced_quantity (quantity : Quantity) : Quantity := if 1 <? quantity then u32 (quantity - 1) else 1.

Record WorkloadBuilder := mkWorkloadBuilder {
  wb_symbols : SymbolId;
  wb_model : MatchingEngine Book;
  wb_commands : list Command;
  wb_active : list ActiveOrder;
  wb_next_id : OrderId
}.

Definition refresh_active (b : WorkloadBuilder) : WorkloadBuilder :=
  mkWorkloadBuilder (wb_symbols b) (wb_model b) (wb_commands b)
    (concat (map (fun symbol => map (mkActiveOrder symbol) (Engine.resting_orders (wb_model b) symbol)) (seqZ 0 (wb_symbols b))))
    (wb_next_id b).

Definition push (command : Command) (b : WorkloadBuilder) : WorkloadBuilder :=
  refresh_active (mkWorkloadBuilder (wb_symbols b) (Engine.apply (wb_model b) command).2 (wb_commands b ++ [command]) (wb_active b) (wb_next_id b)).

Definition new_builder (symbols : SymbolId) : WorkloadBuilder :=
  fold_left (fun b symbol => push (RegisterSymbol (symbol_name symbol)) b) (seqZ 0 symbols)
    (mkWorkloadBuilder symbols (new_engine Baseline) [] [] 1).

(** [next_id_++]. *)
Definition take_id (b : WorkloadBuilder) : OrderId * WorkloadBuilder :=
  (wb_next_id b, mkWorkloadBuilder (wb_symbols b) (wb_model b) (wb_commands b) (wb_active b) (u64 (wb_next_id b + 1))).

Definition add_limit (spec : LimitSpec) (b : WorkloadBuilder) : WorkloadBuilder :=
  let '(id, b) := take_id b in push (NewLimit (sp_symbol spec) id (sp_side spec) (sp_price spec) (sp_quantity spec) (sp_tif spec)) b.

Definition add_market (symbol : SymbolId) (side : Side) (quantity : Quantity) (b : WorkloadBuilder) : WorkloadBuilder :=
  let '(id, b) := take_id b in push (NewMarket symbol id side quantity) b.

Definition pick_active (salt : Z) (b : WorkloadBuilder) : option ActiveOrder :=
  match wb_active b with
  | [] => None
  | _ => wb_active b !! Z.to_nat (salt mod Z.of_nat (length (wb_active b)))
  end.

Definition cancel_active (salt : Z) (b : WorkloadBuilder) : WorkloadBuilder :=
  match pick_active salt b with
  | Some target => push (Cancel (ba_symbol target) (o_id (ba_order target))) b
  | None => b
  end.

Definition duplicate_active (salt : Z) (b : WorkloadBuilder) : WorkloadBuilder :=
  match pick_active salt b with
  | Some (mkActiveOrder symbol o) => push (NewLimit symbol (o_id o) (o_side o) (o_price o) (o_quantity o) GTC) b
  | None => b
  end.

Definition reduce_active (salt : Z) (b : WorkloadBuilder) : WorkloadBuilder :=
  match pick_active salt b with
  | Some (mkActiveOrder symbol o) => push (Modify symbol (o_id o) (o_price o) (reduced_quantity (o_quantity o))) b
  | None => b
  end.

Definition finish (name : string) (seed : Z) (top_probe_interval : Z) (b : WorkloadBuilder) : Workload :=
  mkWorkload name seed (wb_commands b) (wb_symbols b) top_probe_interval.

(** ** The shape of a workload *)

Record WorkloadShape := mkWorkloadShape {
  sh_commands : Z;
  sh_new_limits : Z;
  sh_accepted : Z;
  sh_events : Z;
  sh_trades : Z;
  sh_cancel_cmds : Z;
  sh_modify_cmds : Z;
  sh_market_orders : Z;
  sh_ioc_orders : Z;
  sh_canceled_events : Z;
  sh_modified_events : Z;
  sh_max_bid_levels : Z;
  sh_max_ask_levels : Z;
  sh_max_active_levels : Z;
  sh_max_resting_orders : Z;
  sh_final_resting_orders : Z;
  sh_bid_level_samples : Z;
  sh_ask_level_samples : Z;
  sh_snapshot_samples : Z;
  sh_top_probe_calls : Z;
  sh_submitted_prices : list Price
}.

Definition empty_shape : WorkloadShape := mkWorkloadShape 0 0 0 0 0 0 0 0 0 0 0 0 0 0 0 0 0 0 0 0 [].

(** The counters of [observe_command]: what a command adds to each of them. *)
Definition observe_command (command : Command) (s : WorkloadShape) : WorkloadShape :=
  let '(limits, iocs, markets, cancels, modifies, prices) :=
    match command with
    | NewLimit _ _ _ price _ tif => (1, if bool_decide (tif = IOC) then 1 else 0, 0, 0, 0, [price])
    | NewMarket _ _ _ _ => (0, 0, 1, 0, 0, [])
    | Cancel _ _ => (0, 0, 0, 1, 0, [])
    | Modify _ _ price _ => (0, 0, 0, 0, 1, [price])
    | RegisterSymbol _ => (0, 0, 0, 0, 0, [])
    end in
  mkWorkloadShape (u64 (sh_commands s + 1)) (u64 (sh_new_limits s + limits)) (sh_accepted s) (sh_events s) (sh_trades s)
    (u64 (sh_cancel_cmds s + cancels)) (u64 (sh_modify_cmds s + modifies)) (u64 (sh_market_orders s + markets)) (u64 (sh_ioc_orders s + iocs))
    (sh_canceled_events s) (sh_modified_events s) (sh_max_bid_levels s) (sh_max_ask_levels s) (sh_max_active_levels s)
    (sh_max_resting_orders s) (sh_final_resting_orders s) (sh_bid_level_samples s) (sh_ask_level_samples s) (sh_snapshot_samples s)
    (sh_top_probe_calls s) (sh_submitted_prices s ++ prices).

(** The counters of one event. *)
Definition observe_event (s : WorkloadShape) (event : EngineEvent) : WorkloadShape :=
  let '(accepted, trades, canceled, modified) :=
    match event with
    | OrderAccepted _ _ _ => (1, 0, 0, 0)
    | TradeEvent _ _ _ _ _ _ => (0, 1, 0, 0)
    | OrderCanceled _ _ _ => (0, 0, 1, 0)
    | OrderModified _ _ _ => (0, 0, 0, 1)
    end in
  mkWorkloadShape (sh_commands s) (sh_new_limits s) (u64 (sh_accepted s + accepted)) (sh_events s) (u64 (sh_trades s + trades))
    (sh_cancel_cmds s) (sh_modify_cmds s) (sh_market_orders s) (sh_ioc_orders s)
    (u64 (sh_canceled_events s + canceled)) (u64 (sh_modified_events s + modified)) (sh_max_bid_levels s) (sh_max_ask_levels s)
    (sh_max_active_levels s) (sh_max_resting_orders s) (sh_final_resting_orders s) (sh_bid_level_samples s) (sh_ask_level_samples s)
    (sh_snapshot_samples s) (sh_top_probe_calls s) (sh_submitted_prices s).

Definition observe_events (events : list EngineEvent) (s : WorkloadShape) : WorkloadShape :=
  fold_left observe_event events
    (mkWorkloadShape (sh_commands s) (sh_new_limits s) (sh_accepted s) (u64 (sh_events s + Z.of_nat (length events))) (sh_trades s)
      (sh_cancel_cmds s) (sh_modify_cmds s) (sh_market_orders s) (sh_ioc_orders s) (sh_canceled_events s) (sh_modified_events s)
      (sh_max_bid_levels s) (sh_max_ask_levels s) (sh_max_active_levels s) (sh_max_resting_orders s) (sh_final_resting_orders s)
      (sh_bid_level_samples s) (sh_ask_level_samples s) (sh_snapshot_samples s) (sh_top_probe_calls s) (sh_submitted_prices s)).

(** The totals over the symbols of a snapshot. *)
Definition count_bid_levels (snapshot : EngineSnapshot) : Z :=
  fold_left (fun n s => u64 (n + Z.of_nat (length (ss_bids s)))) (es_symbols snapshot) 0.
Definition count_ask_levels (snapshot : EngineSnapshot) : Z :=
  fold_left (fun n s => u64 (n + Z.of_nat (length (ss_asks s)))) (es_symbols snapshot) 0.
Definition count_resting (snapshot : EngineSnapshot) : Z :=
  fold_left (fun n s => u64 (n + ss_order_count s)) (es_symbols snapshot) 0.

Definition observe_snapshot (snapshot : EngineSnapshot) (s : WorkloadShape) : WorkloadShape :=
  let bid_levels := count_bid_levels snapshot in
  let ask_levels := count_ask_levels snapshot in
  let resting_orders := count_resting snapshot in
  mkWorkloadShape (sh_commands s) (sh_new_limits s) (sh_accepted s) (sh_events s) (sh_trades s) (sh_cancel_cmds s) (sh_modify_cmds s)
    (sh_market_orders s) (sh_ioc_orders s) (sh_canceled_events s) (sh_modified_events s)
    (Z.max (sh_max_bid_levels s) bid_levels) (Z.max (sh_max_ask_levels s) ask_levels)
    (Z.max (sh_max_active_levels s) (u64 (bid_levels + ask_levels))) (Z.max (sh_max_resting_orders s) resting_orders) resting_orders
    (u64 (sh_bid_level_samples s + bid_levels)) (u64 (sh_ask_level_samples s + ask_levels)) (u64 (sh_snapshot_samples s + 1))
    (sh_top_probe_calls s) (sh_submitted_prices s).

Definition add_probes (n : Z) (s : WorkloadShape) : WorkloadShape :=
  mkWorkloadShape (sh_commands s) (sh_new_limits s) (sh_accepted s) (sh_events s) (sh_trades s) (sh_cancel_cmds s) (sh_modify_cmds s)
    (sh_market_orders s) (sh_ioc_orders s) (sh_canceled_events s) (sh_modified_events s) (sh_max_bid_levels s) (sh_max_ask_levels s)
    (sh_max_active_levels s) (sh_max_resting_orders s) (sh_final_resting_orders s) (sh_bid_level_samples s) (sh_ask_level_samples s)
    (sh_snapshot_samples s) (u64 (sh_top_probe_calls s + n)) (sh_submitted_prices s).

Fixpoint leading_registrations (commands : list Command) : nat :=
  match commands with RegisterSymbol _ :: commands' => S (leading_registrations commands') | _ => 0%nat end.

Definition registration_prefix_len (w : Workload) : nat := leading_registrations (wl_commands w).

(** The index of the first trading command and the engine with the symbols. *)
Definition apply_registration (engine : MatchingEngine Book) (w : Workload) : nat * MatchingEngine Book :=
  let prefix := registration_prefix_len w in
  (prefix, fold_left (fun e c => (Engine.apply e c).2) (take prefix (wl_commands w)) engine).

Definition should_probe (w : Workload) (command_index : nat) : bool :=
  negb (wl_top_probe_interval w =? 0) && (u64 (Z.of_nat command_index + 1) mod wl_top_probe_interval w =? 0).

(** [workload.symbols * 2U], in 32 bits. *)
Definition probe_calls (w : Workload) : Z := u32 (wl_symbols w * 2).

(** One iteration of [characterize], at index [i]. *)
Definition characterize_step (w : Workload) (st : nat * MatchingEngine Book * WorkloadShape) (command : Command) :
    nat * MatchingEngine Book * WorkloadShape :=
  let '(i, engine, shape) := st in
  let shape := observe_command command shape in
  let '(events, engine) := Engine.apply engine command in
  let shape := observe_snapshot (Engine.snapshot engine) (observe_events events shape) in
  (S i, engine, if should_probe w i then add_probes (probe_calls w) shape else shape).

Definition characterize (w : Workload) : WorkloadShape :=
  let '(start, engine) := apply_registration (new_engine Baseline) w in
  (fold_left (characterize_step w) (drop start (wl_commands w)) (start, engine, empty_shape)).2.

Definition price_domain_width (s : WorkloadShape) : Z :=
  match sh_submitted_prices s with
  | [] => 0
  | p :: ps => u64 (fold_left Z.max ps p - fold_left Z.min ps p + 1)
  end.

(** ** Running a workload *)

Record RunSummary := mkRunSummary { rs_events : Z; rs_resting_orders : Z; rs_last_seq : SeqNo; rs_top_probe_calls : Z }.

Definition probe_top_of_book (engine : MatchingEngine Book) (symbols : SymbolId) : Z :=
  fold_left (fun checksum symbol =>
    let checksum := match Engine.best_bid engine symbol with Some bid => u64 (checksum + u64 bid) | None => checksum end in
    match Engine.best_ask engine symbol with Some ask => u64 (checksum + u64 ask) | None => checksum end)
    (seqZ 0 symbols) 0.

(** One iteration of [apply_trading], at index [i]; the checksums of the probes
    are collected in front. *)
Definition trading_step (w : Workload) (st : nat * MatchingEngine Book * RunSummary * list Z) (command : Command) :
    nat * MatchingEngine Book * RunSummary * list Z :=
  let '(i, engine, summary, probes) := st in
  let '(events, engine) := Engine.apply engine command in
  let summary := mkRunSummary (u64 (rs_events summary + Z.of_nat (length events))) (rs_resting_orders summary) (rs_last_seq summary) (rs_top_probe_calls summary) in
  if should_probe w i then
    (S i, engine, mkRunSummary (rs_events summary) (rs_resting_orders summary) (rs_last_seq summary) (u64 (rs_top_probe_calls summary + probe_calls w)),
     probe_top_of_book engine (wl_symbols w) :: probes)
  else (S i, engine, summary, probes).

Definition apply_trading (engine : MatchingEngine Book) (w : Workload) (start : nat) : MatchingEngine Book * RunSummary * list Z :=
  let '(_, engine, summary, probes) := fold_left (trading_step w) (drop start (wl_commands w)) (start, engine, mkRunSummary 0 0 0 0, []) in
  (engine, summary, probes).

Definition finalize_run (engine : MatchingEngine Book) (s : RunSummary) : RunSummary :=
  mkRunSummary (rs_events s) (fold_left (fun n x => u64 (n + ss_order_count x)) (es_symbols (Engine.snapshot engine)) (rs_resting_orders s))
    (Engine.last_seq engine) (rs_top_probe_calls s).

(** The summary, and the checksums of the probes, newest first. *)
Definition run_once (storage : Storage) (w : Workload) : RunSummary * list Z :=
  let '(start, engine) := apply_registration (new_engine storage) w in
  let '(engine, summary, probes) := apply_trading engine w start in
  (finalize_run engine summary, probes).

(** What [time_storage] reports beside the times: the summary of the last run and
    the number of timed commands. *)
Definition time_storage (storage : Storage) (w : Workload) (reps : nat) : RunSummary * nat :=
  let timed_commands := (length (wl_commands w) - registration_prefix_len w)%nat in
  if (reps =? 0)%nat || (timed_commands =? 0)%nat then (mkRunSummary 0 0 0 0, 0%nat)
  else (Nat.iter reps (fun _ => (run_once storage w).1) (mkRunSummary 0 0 0 0), timed_commands).

(** ** The workloads *)

(** [while (builder.size() < 5004)] over the builder and the loop's state. *)
Definition building {X : Type} (step : WorkloadBuilder * X -> WorkloadBuilder * X) (s : WorkloadBuilder * X) : WorkloadBuilder :=
  (while (Z.to_nat 50040) (fun s => Z.of_nat (length (wb_commands s.1)) <? 5004) step s).1.

(** A step that only depends on the counter [i]. *)
Definition counted (step : Z -> WorkloadBuilder -> WorkloadBuilder) (s : WorkloadBuilder * Z) : WorkloadBuilder * Z :=
  (step s.2 s.1, u64 (s.2 + 1)).

Definition general_generated_flow : Workload :=
  mkWorkload "general generated flow" 42 (generate_flow (B := Book) 42 4 (Z.to_nat 5000)) 4 0.

(** [for (price = first; price < first + n; ++price)]. *)
Definition for_prices (first n : Z) (body : Price -> WorkloadBuilder -> WorkloadBuilder) (b : WorkloadBuilder) : WorkloadBuilder :=
  fold_left (fun b price => body price b) (seqZ first n) b.

Definition seed_dense_bounded_book (b : WorkloadBuilder) : WorkloadBuilder :=
  let b := for_prices 90 24 (fun price => add_limit (gtc 0 Buy price 8)) b in
  let b := for_prices 115 24 (fun price => add_limit (gtc 0 Sell price 8)) b in
  for_prices 190 16 (fun price b => add_limit (gtc 1 Sell (price + 20) 6) (add_limit (gtc 1 Buy price 6) b)) b.

Definition append_dense_bounded_step (i : Z) (b : WorkloadBuilder) : WorkloadBuilder :=
  let phase := i mod 10 in
  if phase <? 3 then add_limit (gtc 0 Buy (98 + i mod 16) 4) b
  else if phase <? 5 then add_limit (gtc 0 Sell (115 + i mod 16) 4) b
  else if phase =? 5 then add_market 0 Buy 1 b
  else if phase =? 6 then add_market 0 Sell 1 b
  else if phase =? 7 then add_limit (mkLimitSpec 0 Buy 115 2 IOC) b
  else if phase =? 8 then reduce_active i b
  else duplicate_active i b.

Definition dense_bounded_flow : Workload :=
  finish "dense bounded flow" 4702 1 (building (counted append_dense_bounded_step) (seed_dense_bounded_book (new_builder 2), 0)).

Definition bid_prices : list Price := [16; 128; 384; 640].
Definition ask_prices : list Price := [720; 840; 960; 1000].

Definition seed_sparse_wide_book (b : WorkloadBuilder) : WorkloadBuilder :=
  fold_left (fun b symbol =>
    let b := fold_left (fun b price => add_limit (gtc symbol Buy price 3) b) bid_prices b in
    fold_left (fun b price => add_limit (gtc symbol Sell price 3) b) ask_prices b) (seqZ 0 4) b.

Definition append_sparse_wide_step (i : Z) (b : WorkloadBuilder) : WorkloadBuilder :=
  let symbol := i mod 4 in
  let phase := i mod 6 in
  if phase <? 2 then add_limit (gtc symbol Buy (nth (Z.to_nat (i mod 4)) bid_prices 0) 2) b
  else if phase <? 4 then add_limit (gtc symbol Sell (nth (Z.to_nat (i mod 4)) ask_prices 0) 2) b
  else if phase =? 4 then cancel_active i b
  else reduce_active i b.

Definition sparse_wide_flow : Workload :=
  finish "sparse wide flow" 4703 0 (building (counted append_sparse_wide_step) (seed_sparse_wide_book (new_builder 4), 0)).

Definition seed_cancel_modify_book (b : WorkloadBuilder) : WorkloadBuilder :=
  fold_left (fun b symbol =>
    for_prices 90 10 (fun price b => add_limit (gtc symbol Sell (price + 20) 5) (add_limit (gtc symbol Buy price 5) b)) b) (seqZ 0 3) b.

Definition add_cancel_modify_replenishment (s : WorkloadBuilder * list Z) : WorkloadBuilder * list Z :=
  let '(b, rng) := s in
  let '(symbol, rng) := draw 3 rng in
  let '(coin, rng) := draw 2 rng in
  let buy := coin =? 0 in
  let '(offset, rng) := draw 10 rng in
  let price := if buy then 90 + offset else 110 + offset in
  (add_limit (gtc symbol (if buy then Buy else Sell) price 5) b, rng).

Definition append_cancel_modify_step (s : WorkloadBuilder * list Z) : WorkloadBuilder * list Z :=
  let '(b, rng) := s in
  if bool_decide (wb_active b = []) then (add_limit (gtc 0 Buy 95 5) b, rng)
  else
    let '(pick, rng) := draw 100 rng in
    if pick <? 15 then add_cancel_modify_replenishment (b, rng)
    else
      let '(salt, rng) := mt_next rng in
      if pick <? 55 then (cancel_active salt b, rng)
      else if pick <? 95 then (reduce_active salt b, rng)
      else (duplicate_active salt b, rng).

Definition cancel_modify_heavy_flow : Workload :=
  finish "cancel/modify-heavy flow" 4704 0 (building append_cancel_modify_step (seed_cancel_modify_book (new_builder 3), mt_seed 4704)).

Definition seed_match_traversal_book (b : WorkloadBuilder) : WorkloadBuilder :=
  let b := for_prices 80 20 (fun price => add_limit (gtc 0 Buy price 1)) b in
  for_prices 100 40 (fun price => add_limit (gtc 0 Sell price 1)) b.

Definition append_match_traversal_step (i : Z) (b : WorkloadBuilder) : WorkloadBuilder :=
  let phase := i mod 20 in
  if phase <? 8 then add_limit (gtc 0 Sell (100 + i mod 40) 1) b
  else if phase <? 16 then add_limit (gtc 0 Buy (99 - i mod 40) 1) b
  else if phase =? 16 then add_market 0 Buy 12 b
  else if phase =? 17 then add_market 0 Sell 12 b
  else if phase =? 18 then add_limit (mkLimitSpec 0 Buy 140 8 IOC) b
  else add_limit (mkLimitSpec 0 Sell 60 8 IOC) b.

Definition match_traversal_heavy_flow : Workload :=
  finish "match/traversal-heavy flow" 4705 0 (building (counted append_match_traversal_step) (seed_match_traversal_book (new_builder 1), 0)).

(** ** The figures of the benchmark *)

(** What [benchmark_workload] prints of a workload, without the times. *)
Definition benchmark_workload (w : Workload) (reps : nat) : WorkloadShape * list (RunSummary * nat) :=
  (characterize w, map (fun storage => time_storage storage w reps) [Baseline; Pooled; IntrusivePooled; Contiguous]).

Definition run_storage_benchmarks : list (WorkloadShape * list (RunSummary * nat)) :=
  map (fun w => benchmark_workload w 30)
    [general_generated_flow; dense_bounded_flow; sparse_wide_flow; cancel_modify_heavy_flow; match_traversal_heavy_flow].
