(* ===== verification/Bench.v ===== *)
(** * Bench: the benchmark program

    apps/qsl-bench/main.cpp and benchmarks/bench_order_pool.cpp without their
    clock: the operations that are timed, the loops that repeat them, the value
    they leave in the sink that keeps the work alive, and the choice of the
    benchmark by the command line. *)
From S2P Require Import Prelude Core Endian Book BookSpec OrderBook Pool Command EventLog Protocol Engine Gateway Session Recovery Flow Shrink.

(** ** Repetition *)

(** [latency]: a tenth of the iterations and one more to warm up, then those that
    are timed. *)
Definition latency {S : Type} (iters : nat) (op : S -> S) (s : S) : S := Nat.iter iters op (Nat.iter (iters / 10 + 1) op s).

(** [throughput]: one run to warm up, then [reps]. *)
Definition throughput {S : Type} (reps : nat) (run : S -> S) (s : S) : S := Nat.iter reps run (run s).

(** [g_sink += n]. *)
Definition sunk (n sink : Z) : Z := u64 (sink + n).

Definition sunk_size {A : Type} (l : list A) (sink : Z) : Z := sunk (Z.of_nat (length l)) sink.

(** ** The suite *)

(** Adds an order to the book, reduces it and takes it out. *)
Definition add_mod_cancel_op (s : OrderBook * OrderId * Z) : OrderBook * OrderId * Z :=
  let '(book, id, sink) := s in
  let oid := id in
  let price := 100 + oid mod 10 in
  let '(trades, book) := OrderBook.add_limit book oid Buy price 5 GTC in
  let sink := sunk_size trades sink in
  let '(trades, book) := OrderBook.modify book oid price 3 in
  let sink := sunk_size trades sink in
  let '(found, book) := OrderBook.cancel book oid in
  (book, u64 (id + 1), sunk (if found : bool then 1 else 0) sink).

Definition bench_order_book (sink : Z) : OrderBook * OrderId * Z :=
  latency (Z.to_nat 200000) add_mod_cancel_op (bs_new Baseline, 1, sink).

Definition bench_order : NewOrder := mkNewOrder 1 0 12345 10 Buy Limit GTC.

Definition codec_op (sink : Z) : Z := sunk (no_order_id (d_value (decode_new_order (encode_new_order bench_order 1)))) sink.

Definition bench_codec (sink : Z) : Z := latency (Z.to_nat 500000) codec_op sink.

Definition session_config : RiskConfig := mkRiskConfig 4000000 1000000000.

(** The session before the first iteration: one deep sell order rests. *)
Definition fill_session : Session OrderBook :=
  let '(_, eng) := register_symbol (new_engine Baseline) "AAPL" in
  let '(_, eng) := gw_new_limit session_config eng 0 999999 Sell 100 4000000 GTC in
  mkSession [] false eng.

Definition fill_frame : bytes := encode_new_order (mkNewOrder 1 0 100 5 Buy Limit GTC) 1.

Definition session_op (s : Session OrderBook * Z) : Session OrderBook * Z :=
  let '(out, session) := on_bytes session_config s.1 fill_frame in (session, sunk_size out s.2).

Definition bench_session (sink : Z) : Session OrderBook * Z := latency (Z.to_nat 200000) session_op (fill_session, sink).

Definition bench_flow : list Command := generate_flow (B := OrderBook) 42 4 (Z.to_nat 5000).

Definition engine_flow_step (s : MatchingEngine OrderBook * Z) (cmd : Command) : MatchingEngine OrderBook * Z :=
  let '(events, eng) := Engine.apply s.1 cmd in (eng, sunk_size events s.2).

Definition engine_flow_run (flow : list Command) (sink : Z) : Z :=
  let '(eng, sink) := fold_left engine_flow_step flow (new_engine Baseline, sink) in sunk (last_seq eng) sink.

(** The loop that builds the command log. *)
Definition record_step (s : list LogRecord * Z) (cmd : Command) : list LogRecord * Z :=
  (s.1 ++ [mkLogRecord s.2 CommandRecord s.2 (encode_command cmd)], u64 (s.2 + 1)).

Definition flow_records (flow : list Command) : list LogRecord := (fold_left record_step flow ([], 0)).1.

Definition replay_run (records : list LogRecord) (sink : Z) : Z :=
  sunk_size (replay (new_engine (B := OrderBook) Baseline) records).1 sink.

(** What [main] runs without a subcommand. *)
Definition run_suite (sink : Z) : Z :=
  let sink := (bench_order_book sink).2 in
  let sink := bench_codec sink in
  let sink := (bench_session sink).2 in
  let sink := throughput 20 (engine_flow_run bench_flow) sink in
  throughput 20 (replay_run (flow_records bench_flow)) sink.

(** ** The differential harness *)

Definition property_op (s : Z * Z) : Z * Z := (u64 (s.1 + 1), sunk_size (generate_property_flow s.1 3 120) s.2).

Definition diff_config : RiskConfig := mkRiskConfig 20 1000.

Definition gateway_flow_step (s : MatchingEngine OrderBook * Z) (cmd : Command) : MatchingEngine OrderBook * Z :=
  let '(r, eng) := apply_command diff_config s.1 cmd in (eng, sunk_size (g_events r) s.2).

Definition gateway_flow_run (flow : list Command) (sink : Z) : Z :=
  let '(eng, sink) := fold_left gateway_flow_step flow (new_engine Baseline, sink) in sunk (last_seq eng) sink.

Definition produces_trade (cmds : list Command) : bool := (0 <? count_trades (B := OrderBook) cmds 20 1000)%nat.

Definition run_diff_benchmarks (sink : Z) : Z :=
  let sink := (throughput 200 property_op (1, sink)).2 in
  let flow := generate_property_flow 1 3 120 in
  let sink := throughput 200 (gateway_flow_run flow) sink in
  latency 300 (fun sink => sunk_size (shrink produces_trade flow).1 sink) sink.

(** ** The pool benchmark *)

Section PoolBench.
(** The layout of the storage of a pool. *)
Context (base width alignment : Z).

Definition kPool : nat := Z.to_nat 1024.

Definition new_delete_op (sink : Z) : Z := sunk (o_id (mkOrder 1 Buy 100 5)) sink.

(** [try_acquire] with the abort on a null pointer: the pointer, the object it
    points to and the pool. *)
Definition acquire_or_abort (order : Order) (pool : Pool Order) : option (Z * Order * Pool Order) :=
  let '(slot, pool) := try_acquire order pool in
  slot ← slot;
  stored ← storage_ pool !! slot;
  Some (slot_ptr base width slot, stored, pool).

Definition release_or_abort (order : Z) (pool : Pool Order) : option (Pool Order) :=
  let '(released, pool) := release kPool base width alignment order pool in
  if released then Some pool else None.

(** [None] is the abort. *)
Definition acquire_release_op (s : option (Pool Order * OrderId * Z)) : option (Pool Order * OrderId * Z) :=
  '(pool, id, sink) ← s;
  '(order, stored, pool) ← acquire_or_abort (mkOrder id Buy 100 5) pool;
  pool ← release_or_abort order pool;
  Some (pool, u64 (id + 1), sunk (o_id stored) sink).

Definition burst_acquire (s : option (Pool Order * list Z * Z)) (i : Z) : option (Pool Order * list Z * Z) :=
  '(pool, orders, sink) ← s;
  '(order, stored, pool) ← acquire_or_abort (mkOrder (i + 1) Sell 101 3) pool;
  Some (pool, orders ++ [order], sunk (o_quantity stored) sink).

Definition burst_op (s : option (Pool Order * Z)) : option (Pool Order * Z) :=
  '(pool, sink) ← s;
  '(pool, orders, sink) ← fold_left burst_acquire (seqZ 0 1024) (Some (pool, [], sink));
  pool ← fold_left (fun p order => p ≫= release_or_abort order) orders (Some pool);
  Some (pool, sink).

Definition kIters : nat := Z.to_nat 500000.

(** The two benchmarks of a pool. *)
Definition bench_acquire_release (sink : Z) : option Z := snd <$> latency kIters acquire_release_op (Some (new_pool kPool, 1, sink)).
Definition bench_burst (sink : Z) : option Z := snd <$> latency (Z.to_nat 2000) burst_op (Some (new_pool kPool, sink)).

Definition run_order_pool_benchmarks (sink : Z) : option Z := bench_acquire_release (latency kIters new_delete_op sink) ≫= bench_burst.
End PoolBench.

(** ** The command line *)

Inductive Subcommand := SubDiff | SubProfile | SubPool | SubStorage | SubFalseSharing | SubRecovery.

(** [run_subcommand] on the arguments after the program's name: the benchmark it
    runs; [None] when it returns false and [main] runs the suite. *)
Definition run_subcommand (args : list string) : option Subcommand :=
  match args with
  | [] => None
  | command :: _ =>
      if bool_decide (command = "diff") then Some SubDiff
      else if bool_decide (command = "profile") then Some SubProfile
      else if bool_decide (command = "pool") then Some SubPool
      else if bool_decide (command = "storage") then Some SubStorage
      else if bool_decide (command = "false-sharing") then Some SubFalseSharing
      else if bool_decide (command = "recovery") then Some SubRecovery
      else None
  end.
