(* ===== verification/MdFeed.v ===== *)
(** * MdFeed: qsl-mdfeed

    apps/qsl-mdfeed/main.cpp: the publisher of a generated flow over UDP and the
    subscriber that prints it and counts the gaps.  What the kernel answers is an
    [MdIO]; the result of a run is the exit code, the standard output and the
    datagrams handed to the socket. *)
From S2P Require Import Prelude Core Endian Text Book BookSpec OrderBook Command Engine Recovery Feed Flow Fixture.

(** [inet_pton] and [socket]; the results of the calls of [sendto]; whether
    [bind] succeeded, the receive buffer and the port that are reported back; and
    what each [recvfrom] delivers, [None] for a timeout or an error. *)
Record MdIO := mkMdIO {
  mi_parsed : option Z;
  mi_socket : Z;
  mi_sendto : nat -> Z;
  mi_bound : bool;
  mi_granted : option Z;
  mi_port : option Z;
  mi_recv : nat -> option bytes
}.

Record MdResult := mkMdResult { mr_code : Z; mr_out : bytes; mr_sent : list bytes }.

(** ** The command line *)

Definition parse_u64 (s : bytes) : option Z :=
  match from_chars uint64_type s with Converted value [] => Some value | _ => None end.

Definition parse_port (s : bytes) : option Z :=
  match parse_u64 s with Some value => if 65535 <? value then None else Some value | None => None end.

Definition parse_rcvbuf (s : bytes) : option Z :=
  match parse_u64 s with Some value => if 2 ^ 31 - 1 <? value then None else Some value | None => None end.

Definition usage : MdResult := mkMdResult 2 [] [].

(** ** publish *)

(** The UDP publisher as a subscriber, with the datagrams it has sent. *)
Record UdpSub := mkUdpSub { us_udp : UdpPublisher; us_sent : list bytes }.

Definition udp_send (sendto : nat -> Z) (s : UdpSub) (msg : MarketDataMessage) : UdpSub :=
  let '(udp, datagram) := udp_on_market_data (us_udp s) msg (sendto (length (us_sent s))) in
  mkUdpSub udp (us_sent s ++ match datagram with Some b => [b] | None => [] end).

Definition udp_subscriber (sendto : nat -> Z) : Subscriber UdpSub := {| on_market_data := udp_send sendto |}.

(** The loop over the flow. *)
Definition publish_command `{Subscriber Sub} (s : MatchingEngine OrderBook * MarketDataPublisher Sub) (command : Command) :
    MatchingEngine OrderBook * MarketDataPublisher Sub :=
  let '(events, engine) := apply s.1 command in (engine, Feed.publish s.2 engine events).

Definition publish (io : MdIO) (port seed orders : Z) : MdResult :=
  let udp := new_udp_publisher (mi_parsed io) port (mi_socket io) in
  if negb (udp_publisher_good udp) then mkMdResult 1 [] []
  else
    let publisher := Feed.subscribe new_publisher (mkUdpSub udp []) in
    let flow := generate_flow (B := OrderBook) seed 3 (Z.to_nat orders) in
    let '(_, publisher) :=
      fold_left (publish_command (H := udp_subscriber (mi_sendto io))) flow (new_engine Baseline, publisher) in
    mkMdResult 0
      (text "published market data (md_seq up to " ++ to_string (md_seq_ publisher) ++ text ") to 127.0.0.1:" ++ to_string port ++ nl)
      (concat (map us_sent (subscribers_ publisher))).

(** ** subscribe *)

Definition md_line (msg : MarketDataMessage) (gap : Z) : bytes :=
  let flag := if 0 <? gap then text "  [GAP " ++ to_string gap ++ text "]" else [] in
  match msg with
  | MdTrade md_seq symbol price quantity =>
      text "trade   seq=" ++ to_string md_seq ++ text " symbol=" ++ to_string symbol ++
      text " price=" ++ to_string_signed price ++ text " qty=" ++ to_string quantity ++ flag ++ nl
  | MdTopOfBook md_seq symbol _ _ => text "top     seq=" ++ to_string md_seq ++ text " symbol=" ++ to_string symbol ++ flag ++ nl
  end.

Record Listening := mkListening { ls_client : UdpFeedClient; ls_received : Z; ls_idle_ticks : Z; ls_out : bytes }.

(** One iteration; the flag says whether the loop breaks. *)
Definition listen_step (recv : option bytes) (st : Listening) : Listening * bool :=
  match udp_receive (ls_client st) recv with
  | (None, _, client) =>
      let idle_ticks := ls_idle_ticks st + 1 in
      (mkListening client (ls_received st) idle_ticks (ls_out st), 3 <=? idle_ticks)
  | (Some msg, gap, client) => (mkListening client (u64 (ls_received st + 1)) 0 (ls_out st ++ md_line msg gap), false)
  end.

(** [n] iterations are left, and [i] are done. *)
Fixpoint listen (recv : nat -> option bytes) (n i : nat) (st : Listening) : Listening :=
  match n with
  | O => st
  | S n' =>
      let '(st, stop) := listen_step (recv i) st in
      if stop then st else listen recv n' (S i) st
  end.

Definition subscribe (io : MdIO) (port count recv_buffer_bytes : Z) : MdResult :=
  let client := new_udp_feed_client (mi_socket io) (mi_bound io) (mi_granted io) (mi_port io) in
  if uc_fd client <? 0 then mkMdResult 1 [] []
  else
    let rcvbuf := text " (SO_RCVBUF=" ++ to_string_signed (uc_recv_buffer_bytes client) ++ text " bytes)" ++ nl in
    let st := listen (mi_recv io) (Z.to_nat count) 0 (mkListening client 0 0 []) in
    mkMdResult 0
      (text "listening for market data on 127.0.0.1:" ++ to_string (uc_port client) ++ rcvbuf ++
       ls_out st ++
       text "received " ++ to_string (ls_received st) ++ text " datagrams" ++ nl ++
       text "total gaps detected: " ++ to_string (uc_total_gaps (ls_client st)) ++ rcvbuf)
      [].

(** ** main *)

(** An optional argument with its default. *)
Definition arg_or (argv : list bytes) (i : nat) (parse : bytes -> option Z) (value : Z) : option Z :=
  match argv !! i with Some a => parse a | None => Some value end.

Definition run_subscribe (io : MdIO) (argv : list bytes) : MdResult :=
  match parse_port (default [] (argv !! 2%nat)), arg_or argv 3 parse_u64 20, arg_or argv 4 parse_rcvbuf 0 with
  | Some port, Some count, Some rcvbuf => subscribe io port count rcvbuf
  | _, _, _ => usage
  end.

Definition run_publish (io : MdIO) (argv : list bytes) : MdResult :=
  match parse_port (default [] (argv !! 2%nat)), arg_or argv 3 parse_u64 42, arg_or argv 4 parse_u64 200 with
  | Some port, Some seed, Some orders => publish io port seed orders
  | _, _, _ => usage
  end.

Definition mdfeed_main (io : MdIO) (argv : list bytes) : MdResult :=
  if (3 <=? length argv)%nat && bool_decide (argv !! 1%nat = Some (text "subscribe")) then run_subscribe io argv
  else if (3 <=? length argv)%nat && bool_decide (argv !! 1%nat = Some (text "publish")) then run_publish io argv
  else usage.
