(* ===== verification/GatewayApp.v ===== *)
(** * GatewayApp: qsl-gateway

    apps/qsl-gateway/main.cpp: the command line, the engine with its two symbols
    and the choice of the server.  The result of a run is the exit code, the
    standard output and the gateway's engine. *)
From S2P Require Import Prelude Core Endian Text Book BookSpec OrderBook Command Engine Gateway Fixture Sys Epoll Tcp.

(** ** std::stoul *)

(** [isspace] in the C locale. *)
Definition is_space (c : Z) : bool := (c =? 32) || ((9 <=? c) && (c <=? 13)).

Fixpoint skip_space (s : bytes) : bytes :=
  match s with
  | c :: s' => if is_space c then skip_space s' else s
  | [] => []
  end.

(** The optional sign: whether it is a minus, and the characters after it. *)
Definition sign (s : bytes) : bool * bytes :=
  match s with
  | c :: s' => if c =? 45 then (true, s') else if c =? 43 then (false, s') else (false, s)
  | [] => (false, [])
  end.

(** The value and the number of characters consumed; [None] when it throws, for
    want of a digit or because the magnitude does not fit.  A minus sign negates
    the value modulo 2^64. *)
Definition stoul (s : bytes) : option (Z * nat) :=
  let '(negative, s1) := sign (skip_space s) in
  match span_digits s1 with
  | ([], _) => None
  | (ds, rest) =>
      if digits_value ds <? 2 ^ 64
      then Some (u64 (if negative then - digits_value ds else digits_value ds), (length s - length rest)%nat)
      else None
  end.

(** ** The command line *)

Record GatewayArgs := mkGatewayArgs { ga_port : Z; ga_use_epoll : bool; ga_port_set : bool }.

(** One argument; [None] is the usage error. *)
Definition gateway_arg (st : GatewayArgs) (arg : bytes) : option GatewayArgs :=
  if bool_decide (arg = text "--epoll") then Some (mkGatewayArgs (ga_port st) true (ga_port_set st))
  else
    let '(value, consumed) := match stoul arg with Some r => r | None => (0, 0%nat) end in
    if ga_port_set st || negb (consumed =? length arg)%nat || (65535 <? value) then None
    else Some (mkGatewayArgs value (ga_use_epoll st) true).

Fixpoint gateway_args_loop (st : GatewayArgs) (args : list bytes) : option GatewayArgs :=
  match args with
  | [] => Some st
  | arg :: args' => match gateway_arg st arg with Some st' => gateway_args_loop st' args' | None => None end
  end.

Definition gateway_args (argv : list bytes) : option GatewayArgs :=
  gateway_args_loop (mkGatewayArgs 9009 false false) (tail argv).

(** ** main *)

(** The default member initializers of the options. *)
Definition default_epoll_options : EpollServerOptions := mkEpollServerOptions 64 50 (2 ^ 20) (8 * 2 ^ 20) 64.
Definition default_tcp_options : TcpServerOptions := mkTcpServerOptions (8 * 2 ^ 20) 128 0 0.

(** [EpollServer::supported] on Linux. *)
Definition supported : bool := true.

Definition gateway_engine : MatchingEngine OrderBook :=
  let engine := new_engine Baseline in
  let engine := (register_symbol engine "AAPL").2 in
  (register_symbol engine "MSFT").2.

Definition gateway_config : RiskConfig := mkRiskConfig 1000000 1000000000.

Definition exit_code (ok : bool) : Z := if ok then 0 else 1.

(** [schedule] is the order in which the threads of the threaded server run; no
    exit code means that it is still serving when the schedule ends. *)
Definition gateway_main (argv : list bytes) (schedule : list Thread) : Sys (option Z * bytes * MatchingEngine OrderBook) :=
  match gateway_args argv with
  | None => ret (Some 2, [], gateway_engine)
  | Some args =>
      if ga_use_epoll args then
        if negb supported then ret (Some 2, [], gateway_engine)
        else
          let out := text "qsl-gateway epoll listening on 127.0.0.1:" ++ to_string (ga_port args) ++ text " (no auth, localhost only)" ++ nl in
          let! (ok, engine) := Epoll.run gateway_config gateway_engine "127.0.0.1" (ga_port args) default_epoll_options in
          ret (Some (exit_code ok), out, engine)
      else
        let out := text "qsl-gateway listening on 127.0.0.1:" ++ to_string (ga_port args) ++ text " (no auth, localhost only)" ++ nl in
        let! (ok, st) := Tcp.run gateway_config default_tcp_options gateway_engine "127.0.0.1" (ga_port args) schedule in
        ret (exit_code <$> ok, out, ts_gateway st)
  end.
