(* ===== verification/Client.v ===== *)
(** * Client: qsl-client

    apps/qsl-client/main.cpp over the system calls of Sys: connect, send an order
    and a heartbeat, read until the server closes, and print the replies.  The
    result is the exit code and the standard output. *)
From S2P Require Import Prelude Core Endian Text Protocol Fixture Sys.

Definition parse_port (s : bytes) : option Z :=
  match from_chars uint32_type s with
  | Converted value [] => if 65535 <? value then None else Some value
  | _ => None
  end.

Definition port_from_args (argv : list bytes) : option Z :=
  match argv !! 1%nat with
  | None => Some 9009
  | Some a => parse_port a
  end.

(** One iteration of the loop of [write_all]. *)
Definition write_step (fd : Z) (data : bytes) (offset : nat) : Sys (nat + bool) :=
  if (offset <? length data)%nat then
    let! n := sys (SysWrite fd (drop offset data)) in
    match n with
    | Ret n => ret (if n <=? 0 then inr false else inl (offset + Z.to_nat n)%nat)
    | _ => ret (inr false)
    end
  else ret (inr true).

Definition write_all (fd : Z) (data : bytes) : Sys bool := loop (write_step fd data) 0%nat.

(** ** print_responses *)

(** The [switch] on the type of a complete frame. *)
Definition print_frame (type : MsgType) (one : bytes) : bytes :=
  match type with
  | MtAck =>
      text "  Ack order=" ++ to_string (ack_order_id (d_value (decode_ack one))) ++
      text " seq=" ++ to_string (ack_seq (d_value (decode_ack one))) ++ nl
  | MtReject =>
      text "  Reject order=" ++ to_string (rej_order_id (d_value (decode_reject one))) ++
      text " reason=" ++ text (reason_to_string (rej_reason (d_value (decode_reject one)))) ++ nl
  | MtFill =>
      let f := d_value (decode_fill one) in
      text "  Fill taker=" ++ to_string (f_taker_id f) ++ text " maker=" ++ to_string (f_maker_id f) ++
      text " price=" ++ to_string_signed (f_price f) ++ text " qty=" ++ to_string (f_quantity f) ++ nl
  | MtHeartbeatAck => text "  HeartbeatAck token=" ++ to_string (hba_token (d_value (decode_heartbeat_ack one))) ++ nl
  | _ => text "  <unexpected response>" ++ nl
  end.

(** The offset, what is printed, and whether the function has returned. *)
Record Printing := mkPrinting { pr_offset : nat; pr_out : bytes; pr_done : bool }.

Definition print_cond (b : bytes) (s : Printing) : bool :=
  negb (pr_done s) && (pr_offset s + kHeaderSize <=? length b)%nat.

Definition print_step (b : bytes) (s : Printing) : Printing :=
  let frame := drop (pr_offset s) b in
  let header := decode_header frame in
  if negb (decode_ok header) then mkPrinting (pr_offset s) (pr_out s ++ text "  <malformed response>" ++ nl) true
  else
    let total := (kHeaderSize + Z.to_nat (h_body_len (d_value header)))%nat in
    if (length b <? pr_offset s + total)%nat then mkPrinting (pr_offset s) (pr_out s) true
    else mkPrinting (pr_offset s + total) (pr_out s ++ print_frame (h_type (d_value header)) (take total frame)) false.

(** Every frame has a header, so [length b] iterations are enough. *)
Definition print_responses (b : bytes) : bytes :=
  pr_out (while (length b) (print_cond b) (print_step b) (mkPrinting 0 [] false)).

(** ** main *)

Definition client_order : NewOrder := mkNewOrder 1 0 100 5 Buy Limit GTC.

Definition read_response (fd : Z) (received : bytes) : Sys (bytes + bytes) :=
  let! n := sys (SysRead fd (Z.to_nat 4096)) in
  match n with
  | Data b => ret (if is_nil b then inr received else inl (received ++ b))
  | _ => ret (inr received)
  end.

Definition client_main (argv : list bytes) : Sys (Z * bytes) :=
  match port_from_args argv with
  | None => ret (2, [])
  | Some port =>
      let! fd := sys (SysSocket false) in
      match fd with
      | Ret fd =>
          sys_ (SysInetPton "127.0.0.1");;
          let! connected := sys (SysConnect fd port) in
          match connected with
          | Ret _ =>
              write_all fd (encode_new_order client_order 1);;
              write_all fd (encode_heartbeat (mkHeartbeat 42));;
              sys_ (SysShutdownWrite fd);;
              let! received := loop (read_response fd) [] in
              sys_ (SysClose fd);;
              ret (0, text "responses:" ++ nl ++ print_responses received)
          | _ => sys_ (SysClose fd);; ret (1, [])
          end
      | _ => ret (1, [])
      end
  end.
