(* ===== verification/Ring.v ===== *)
(** * Ring: the single-producer single-consumer ring buffer

    [SpscRing] of include/qsl/concurrency/spsc_ring.hpp.  The two indices are
    atomics with one writer each; an atomic is the list of the values stored to
    it (its modification order, oldest first).  A thread reads its own index with
    a relaxed load, which returns its last store; it reads the other index with an
    acquire load, which may return any store not older than the last one it has
    observed.  [lag] is how many of the newest stores a load does not see yet;
    with [lag = 0] it reads the newest.

    An operation is a sequence of accesses of shared memory (load, buffer access,
    store); [try_push] and [try_pop] are the operations run alone. *)
From S2P Require Import Prelude Core.

(** ** Atomics with one writer *)

Definition latest {A : Type} (d : A) (a : list A) : A := default d (last a).

(** The position in the modification order an acquire load reads from. *)
Definition visible {A : Type} (a : list A) (seen lag : nat) : nat := Nat.max seen (length a - 1 - lag).

Lemma visible_fresh {A} (a : list A) seen : (seen <= length a - 1)%nat -> visible a seen 0 = (length a - 1)%nat.
Proof. unfold visible. lia. Qed.

Lemma visible_range {A} (a : list A) seen lag :
  (seen <= length a - 1)%nat -> (seen <= visible a seen lag <= length a - 1)%nat.
Proof. unfold visible. lia. Qed.

(** ** The ring *)

(** [head_seen] and [tail_seen] are the views of the two threads: the store of
    [head_] the producer, and of [tail_] the consumer, has observed last. *)
Record SpscRing (T : Type) := mkSpscRing {
  buffer_ : list T;
  head_ : list Z;
  tail_ : list Z;
  head_seen : nat;
  tail_seen : nat
}.
Arguments mkSpscRing {T} _ _ _ _ _.
Arguments buffer_ {T} _.
Arguments head_ {T} _.
Arguments tail_ {T} _.
Arguments head_seen {T} _.
Arguments tail_seen {T} _.

Section Operations.
Context {T : Type} (Capacity : Z).
(** [moved v] is what moving [v] out of a slot leaves there. *)
Context (moved : T -> T).
Implicit Types r : SpscRing T.

Definition kSlots : Z := Capacity + 1.
Definition next (i : Z) : Z := (i + 1) mod kSlots.

(** [init] is the value-initialized element. *)
Definition new_ring (init : T) : SpscRing T := mkSpscRing (replicate (Z.to_nat kSlots) init) [0] [0] 0 0.

(** *** The producer *)

(** The loads of [emplace]: [None] when the ring is full, else the slot to write
    and the index to publish. *)
Definition push_load (lag : nat) r : option (Z * Z) * SpscRing T :=
  let tail := latest 0 (tail_ r) in
  let n := next tail in
  let seen := visible (head_ r) (head_seen r) lag in
  let r := mkSpscRing (buffer_ r) (head_ r) (tail_ r) seen (tail_seen r) in
  if n =? default 0 (head_ r !! seen) then (None, r) else (Some (tail, n), r).

Definition push_write (tail : Z) (value : T) r : SpscRing T :=
  mkSpscRing (<[Z.to_nat tail := value]> (buffer_ r)) (head_ r) (tail_ r) (head_seen r) (tail_seen r).

Definition push_store (n : Z) r : SpscRing T :=
  mkSpscRing (buffer_ r) (head_ r) (tail_ r ++ [n]) (head_seen r) (tail_seen r).

Definition try_push (lag : nat) (value : T) r : bool * SpscRing T :=
  match push_load lag r with
  | (None, r) => (false, r)
  | (Some (tail, n), r) => (true, push_store n (push_write tail value r))
  end.

(** *** The consumer *)

(** The loads of [try_pop]: [None] when the ring is empty, else the slot to read. *)
Definition pop_load (lag : nat) r : option Z * SpscRing T :=
  let head := latest 0 (head_ r) in
  let seen := visible (tail_ r) (tail_seen r) lag in
  let r := mkSpscRing (buffer_ r) (head_ r) (tail_ r) (head_seen r) seen in
  if head =? default 0 (tail_ r !! seen) then (None, r) else (Some head, r).

(** [out = std::move(buffer_[head])]. *)
Definition pop_read (head : Z) r : option T * SpscRing T :=
  (buffer_ r !! Z.to_nat head,
   mkSpscRing (alter moved (Z.to_nat head) (buffer_ r)) (head_ r) (tail_ r) (head_seen r) (tail_seen r)).

Definition pop_store (head : Z) r : SpscRing T :=
  mkSpscRing (buffer_ r) (head_ r ++ [next head]) (tail_ r) (head_seen r) (tail_seen r).

Definition try_pop (lag : nat) r : option T * SpscRing T :=
  match pop_load lag r with
  | (None, r) => (None, r)
  | (Some head, r) => let '(out, r) := pop_read head r in (out, pop_store head r)
  end.

(** *** Observers *)

(** The loads of an observer, with positions it chooses. *)
Definition empty (head_at tail_at : nat) r : bool :=
  default 0 (head_ r !! head_at) =? default 0 (tail_ r !! tail_at).
Definition full (head_at tail_at : nat) r : bool :=
  next (default 0 (tail_ r !! tail_at)) =? default 0 (head_ r !! head_at).

(** ** The invariant *)

(** How many elements were published and taken. *)
Definition pushed r : nat := (length (tail_ r) - 1)%nat.
Definition popped r : nat := (length (head_ r) - 1)%nat.

Definition indices (n : nat) : list Z := map (fun k => k mod kSlots) (seqZ 0 (Z.of_nat n + 1)).

(** [hist] lists every element ever published.  [taken] tells that the consumer
    is between its buffer access and its store, [reserved] that the producer has
    seen room for one more element. *)
Record ring_ok (hist : list T) (taken reserved : bool) r : Prop := {
  ro_capacity : 1 <= Capacity;
  ro_length : length (buffer_ r) = Z.to_nat kSlots;
  ro_head : head_ r = indices (popped r);
  ro_tail : tail_ r = indices (pushed r);
  ro_hist : length hist = pushed r;
  ro_head_seen : (head_seen r <= popped r)%nat;
  ro_tail_seen : (tail_seen r <= pushed r)%nat;
  ro_pop : (popped r + Nat.b2n taken <= tail_seen r)%nat;
  ro_push : Z.of_nat (pushed r) + Z.b2z reserved <= Z.of_nat (head_seen r) + Capacity;
  ro_contents : forall k, (popped r + Nat.b2n taken <= k < pushed r)%nat ->
    buffer_ r !! Z.to_nat (Z.of_nat k mod kSlots) = hist !! k
}.

(** Arithmetic on the numbers of stores. *)
Ltac ring_lia :=
  unfold pushed, popped in *;
  cbn [push_write push_store pop_store buffer_ head_ tail_ head_seen tail_seen Z.b2z Nat.b2n] in *; lia.

(** ** The indices *)

Lemma indices_length n : length (indices n) = S n.
Proof. unfold indices. rewrite List.length_map, length_seqZ. lia. Qed.

Lemma indices_lookup n k : (k <= n)%nat -> indices n !! k = Some (Z.of_nat k mod kSlots).
Proof.
  intros Hk. unfold indices. change (map ?f ?l) with (f <$> l). rewrite list_lookup_fmap, lookup_seqZ_lt by lia. cbn. by rewrite Z.add_0_l.
Qed.

Lemma indices_latest n : latest 0 (indices n) = Z.of_nat n mod kSlots.
Proof. unfold latest. rewrite last_lookup, indices_length. cbn [Nat.pred]. by rewrite indices_lookup by lia. Qed.

Lemma indices_S n : indices (S n) = indices n ++ [(Z.of_nat n + 1) mod kSlots].
Proof.
  unfold indices. replace (Z.of_nat (S n) + 1) with (Z.of_nat (S (S n))) by lia.
  replace (seqZ 0 (Z.of_nat n + 1)) with (seqZ 0 (Z.of_nat (S n))) by (f_equal; lia). rewrite seqZ_S, map_app. cbn [map]. do 3 f_equal. lia.
Qed.

Lemma next_slot n : 1 <= Capacity -> next (Z.of_nat n mod kSlots) = (Z.of_nat n + 1) mod kSlots.
Proof. intros Hc. unfold next. rewrite Zplus_mod_idemp_l. done. Qed.

Lemma slot_range k : 1 <= Capacity -> (Z.to_nat (Z.of_nat k mod kSlots) < Z.to_nat kSlots)%nat.
Proof. intros Hc. pose proof (Z.mod_pos_bound (Z.of_nat k) kSlots). unfold kSlots in *. lia. Qed.

(** Fewer than [kSlots] consecutive positions have different slots. *)
Lemma mod_eq_near a b : 1 <= Capacity -> 0 <= b - a <= Capacity -> a mod kSlots = b mod kSlots -> a = b.
Proof.
  intros Hc Hd He. assert ((b - a) mod kSlots = 0) as Hz by (rewrite Zminus_mod, He, Z.sub_diag; apply Zmod_0_l).
  rewrite Z.mod_small in Hz by (unfold kSlots; lia). lia.
Qed.

Lemma slot_ne j k :
  1 <= Capacity -> (j < k)%nat -> Z.of_nat k - Z.of_nat j <= Capacity ->
  Z.to_nat (Z.of_nat j mod kSlots) <> Z.to_nat (Z.of_nat k mod kSlots).
Proof.
  intros Hc Hlt Hd He. apply Z2Nat.inj in He; [|apply Z.mod_pos_bound; unfold kSlots; lia..].
  apply mod_eq_near in He; [lia|done|lia].
Qed.

Lemma full_iff s n :
  1 <= Capacity -> (s <= n)%nat -> Z.of_nat n <= Z.of_nat s + Capacity ->
  (next (Z.of_nat n mod kSlots) =? Z.of_nat s mod kSlots) = (Z.of_nat n =? Z.of_nat s + Capacity).
Proof.
  intros Hc Hle Hn. rewrite next_slot by done. destruct (Z.eqb_spec (Z.of_nat n) (Z.of_nat s + Capacity)) as [->|Hne].
  - replace (Z.of_nat s + Capacity + 1) with (Z.of_nat s + 1 * kSlots) by (unfold kSlots; lia). rewrite Z.mod_add by (unfold kSlots; lia). lia.
  - apply Z.eqb_neq. intros He. symmetry in He. apply mod_eq_near in He; lia.
Qed.

Lemma new_ring_ok init : 1 <= Capacity -> ring_ok [] false false (new_ring init).
Proof.
  intros Hc. assert (indices 0 = [0]) as Hi by done.
  split; cbn [new_ring buffer_ head_ tail_ head_seen tail_seen pushed popped length Nat.b2n Z.b2z]; try done.
  - apply length_replicate.
  - unfold pushed. cbn. lia.
  - unfold pushed, popped. cbn. lia.
Qed.

(** ** The producer's steps *)

Lemma push_load_spec hist taken lag r :
  ring_ok hist taken false r ->
  let '(res, r') := push_load lag r in
  popped r' = popped r /\ pushed r' = pushed r /\ tail_seen r' = tail_seen r /\ buffer_ r' = buffer_ r /\
  match res with
  | None => ring_ok hist taken false r' /\ (lag = 0%nat -> Z.of_nat (pushed r) = Z.of_nat (popped r) + Capacity)
  | Some (tail, n) =>
      ring_ok hist taken true r' /\ tail = Z.of_nat (pushed r) mod kSlots /\ n = (Z.of_nat (pushed r) + 1) mod kSlots
  end.
Proof.
  intros [H0 H1 H2 H3 H4 H5 H6 H7 H8 H9]. unfold push_load. cbn [head_].
  pose proof (visible_range (head_ r) (head_seen r) lag) as Hv. fold (popped r) in Hv. specialize (Hv H5).
  set (s := visible (head_ r) (head_seen r) lag) in *. cbn [Z.b2z] in H8.
  assert (default 0 (head_ r !! s) = Z.of_nat s mod kSlots) as -> by (rewrite H2, indices_lookup by lia; done).
  assert (latest 0 (tail_ r) = Z.of_nat (pushed r) mod kSlots) as -> by (rewrite H3; apply indices_latest).
  rewrite full_iff by (done || lia).
  destruct (Z.of_nat (pushed r) =? Z.of_nat s + Capacity) eqn:E; (split; [done|]; split; [done|]; split; [done|]; split; [done|]).
  - split.
    + split; try done; ring_lia.
    + intros ->. assert (s = popped r) as Hs by (by apply visible_fresh). lia.
  - split; [|by rewrite next_slot].
    apply Z.eqb_neq in E. clearbody s. split; try done; ring_lia.
Qed.

Lemma push_write_spec hist taken v r :
  ring_ok hist taken true r ->
  let r' := push_write (Z.of_nat (pushed r) mod kSlots) v r in
  ring_ok hist taken true r' /\ popped r' = popped r /\ pushed r' = pushed r /\ tail_seen r' = tail_seen r /\
  buffer_ r' !! Z.to_nat (Z.of_nat (pushed r) mod kSlots) = Some v.
Proof.
  intros [H0 H1 H2 H3 H4 H5 H6 H7 H8 H9]. cbn [Z.b2z] in H8. split; [|split; [done|split; [done|split; [done|]]]].
  - split; cbn [push_write buffer_ head_ tail_ head_seen tail_seen]; try done; [by rewrite length_insert|].
    intros k Hk. change (popped (push_write _ v r)) with (popped r) in Hk. change (pushed (push_write _ v r)) with (pushed r) in Hk.
    rewrite list_lookup_insert_ne; [by apply H9|]. intros He. symmetry in He. revert He. apply slot_ne; lia.
  - cbn [push_write buffer_]. apply list_lookup_insert_eq. rewrite H1. by apply slot_range.
Qed.

Lemma push_store_spec hist taken v r :
  ring_ok hist taken true r -> buffer_ r !! Z.to_nat (Z.of_nat (pushed r) mod kSlots) = Some v ->
  let r' := push_store ((Z.of_nat (pushed r) + 1) mod kSlots) r in
  ring_ok (hist ++ [v]) taken false r' /\ popped r' = popped r /\ pushed r' = S (pushed r) /\ tail_seen r' = tail_seen r.
Proof.
  intros [H0 H1 H2 H3 H4 H5 H6 H7 H8 H9] Hv. cbn [Z.b2z] in H8.
  assert (pushed (push_store ((Z.of_nat (pushed r) + 1) mod kSlots) r) = S (pushed r)) as Hp.
  { unfold pushed. cbn [push_store tail_]. rewrite length_app, H3, indices_length. cbn [length]. lia. }
  split; [|done]. split; rewrite ?Hp; cbn [push_store buffer_ head_ tail_ head_seen tail_seen Z.b2z]; try done.
  - by rewrite indices_S, <- H3.
  - rewrite length_app, H4. cbn [length]. lia.
  - lia.
  - lia.
  - intros k Hk. destruct (decide (k = pushed r)) as [->|Hne].
    + by rewrite Hv, lookup_app_r, H4, Nat.sub_diag by lia.
    + rewrite lookup_app_l by lia. apply H9. change (popped (push_store _ r)) with (popped r) in Hk. lia.
Qed.

(** ** The consumer's steps *)

Lemma pop_load_spec hist reserved lag r :
  ring_ok hist false reserved r ->
  let '(res, r') := pop_load lag r in
  ring_ok hist false reserved r' /\ popped r' = popped r /\ pushed r' = pushed r /\ buffer_ r' = buffer_ r /\
  (tail_seen r <= tail_seen r')%nat /\ (lag = 0%nat -> tail_seen r' = pushed r) /\
  match res with
  | None => popped r = tail_seen r'
  | Some head => head = Z.of_nat (popped r) mod kSlots /\ (popped r' < tail_seen r')%nat
  end.
Proof.
  intros [H0 H1 H2 H3 H4 H5 H6 H7 H8 H9]. unfold pop_load. cbn [tail_].
  pose proof (visible_range (tail_ r) (tail_seen r) lag) as Hv. fold (pushed r) in Hv. specialize (Hv H6).
  set (s := visible (tail_ r) (tail_seen r) lag) in *. cbn [Nat.b2n] in H7, H9.
  assert (default 0 (tail_ r !! s) = Z.of_nat s mod kSlots) as -> by (rewrite H3, indices_lookup by lia; done).
  assert (latest 0 (head_ r) = Z.of_nat (popped r) mod kSlots) as -> by (rewrite H2; apply indices_latest).
  assert (ring_ok hist false reserved (mkSpscRing (buffer_ r) (head_ r) (tail_ r) (head_seen r) s)) as Hok.
  { split; try done; ring_lia. }
  destruct (Z.eqb_spec (Z.of_nat (popped r) mod kSlots) (Z.of_nat s mod kSlots)) as [He|Hne];
    (split; [done|]; split; [done|]; split; [done|]; split; [done|]; split; [cbn [tail_seen]; lia|]; split; [intros ->; by apply visible_fresh|]).
  - assert (0 <= Z.b2z reserved) as Hres by (by destruct reserved). cbn [tail_seen]. apply mod_eq_near in He; lia.
  - split; [done|]. change (popped (mkSpscRing _ _ _ _ _)) with (popped r). cbn [tail_seen].
    destruct (decide (popped r = s)) as [<-|]; [done|lia].
Qed.

Lemma pop_read_spec hist reserved r :
  ring_ok hist false reserved r -> (popped r < tail_seen r)%nat ->
  exists v r', pop_read (Z.of_nat (popped r) mod kSlots) r = (Some v, r') /\ hist !! popped r = Some v /\
    ring_ok hist true reserved r' /\ popped r' = popped r /\ pushed r' = pushed r /\
    buffer_ r' !! Z.to_nat (Z.of_nat (pushed r) mod kSlots) = buffer_ r !! Z.to_nat (Z.of_nat (pushed r) mod kSlots).
Proof.
  intros [H0 H1 H2 H3 H4 H5 H6 H7 H8 H9] Hlt. cbn [Nat.b2n] in H7, H9.
  destruct (lookup_lt_is_Some_2 hist (popped r)) as [v Hv]; [lia|]. exists v. eexists. unfold pop_read.
  rewrite H9, Hv by lia. split; [done|]. split; [done|].
  assert (Z.of_nat (pushed r) - Z.of_nat (popped r) <= Capacity) as Hd by (destruct reserved; cbn [Z.b2z] in H8; lia).
  split; [|split; [done|split; [done|]]].
  - split; cbn [buffer_ head_ tail_ head_seen tail_seen Nat.b2n]; try done.
    + by rewrite length_alter.
    + unfold popped in *; cbn [head_]; lia.
    + intros k Hk. change (popped (mkSpscRing _ _ _ _ _)) with (popped r) in Hk. change (pushed (mkSpscRing _ _ _ _ _)) with (pushed r) in Hk.
      rewrite list_lookup_alter_ne; [apply H9; lia|]. apply slot_ne; lia.
  - cbn [buffer_]. apply list_lookup_alter_ne. apply slot_ne; lia.
Qed.

Lemma pop_store_spec hist reserved r :
  ring_ok hist true reserved r ->
  let r' := pop_store (Z.of_nat (popped r) mod kSlots) r in
  ring_ok hist false reserved r' /\ popped r' = S (popped r) /\ pushed r' = pushed r /\ buffer_ r' = buffer_ r.
Proof.
  intros [H0 H1 H2 H3 H4 H5 H6 H7 H8 H9]. cbn [Nat.b2n] in H7, H9.
  assert (popped (pop_store (Z.of_nat (popped r) mod kSlots) r) = S (popped r)) as Hp.
  { unfold popped. cbn [pop_store head_]. rewrite length_app, H2, indices_length. cbn [length]. lia. }
  split; [|done]. split; rewrite ?Hp; cbn [pop_store buffer_ head_ tail_ head_seen tail_seen Nat.b2n]; try done.
  - by rewrite indices_S, <- H2, next_slot.
  - lia.
  - lia.
  - intros k Hk. apply H9. change (pushed (pop_store _ r)) with (pushed r) in Hk. lia.
Qed.
End Operations.
