(* ===== verification/Pipeline.v ===== *)
(** * Pipeline: the threaded gateway-engine-feed pipeline

    [ThreadedPipeline] of include/qsl/concurrency/pipeline.hpp: an input, an
    engine and an output thread connected by two [SpscRing]s and two done flags.

    A thread is its local state with a program counter; one step of a thread is
    one access of shared memory (an atomic load or store, or an access of a ring
    buffer) with the thread-local work that follows it.  [step t lag] lets thread
    [t] take its next step, where an acquire load misses the [lag] newest stores;
    a schedule is any list of such choices.  [std::this_thread::yield] has no
    effect on the state. *)
From S2P Require Import Prelude Core Book BookSpec Command Engine Gateway Ring.

Record ProcessedCommand := mkProcessedCommand {
  pc_command : Command;
  pc_accepted : bool;
  pc_reason : RejectReason;
  pc_events : list EngineEvent
}.

Record PipelineResult := mkPipelineResult {
  pr_snapshot : EngineSnapshot;
  commands_processed : Z;
  commands_accepted : Z;
  commands_rejected : Z;
  events_emitted : Z;
  pr_last_seq : SeqNo;
  inbound_backpressure_spins : Z;
  outbound_backpressure_spins : Z
}.

Definition empty_result : PipelineResult := mkPipelineResult (mkEngineSnapshot 0 []) 0 0 0 0 0 0 0.

Record PipelineProbe := mkPipelineProbe { inbound_spins : Z; outbound_spins : Z }.

Record PipelinePerturbation := mkPipelinePerturbation {
  input_yield_every : Z;
  engine_yield_every : Z;
  output_yield_every : Z;
  yields_per_hit : Z
}.

(** [detail::maybe_yield]: the new counter and the number of yields. *)
Definition maybe_yield (counter every yields : Z) : Z * Z :=
  if every =? 0 then (counter, 0)
  else
    let counter := u64 (counter + 1) in
    if negb (counter mod every =? 0) then (counter, 0) else (counter, yields).

(** The [maybe_*_yield] of a stage: [every] selects its field. *)
Definition stage_yield (perturbation : option PipelinePerturbation) (every : PipelinePerturbation -> Z) (steps : Z) : Z :=
  match perturbation with
  | None => steps
  | Some p => (maybe_yield steps (every p) (yields_per_hit p)).1
  end.

(** A done flag: the stores to it, each with the position in the ring's [tail_]
    that the storing thread had reached, which an acquire load that reads the
    store makes visible. *)
Abbreviation Flag := (list (bool * nat)) (only parsing).
Definition new_flag : Flag := [(false, 0%nat)].

Definition see_tail {T : Type} (position : nat) (r : SpscRing T) : SpscRing T :=
  mkSpscRing (buffer_ r) (head_ r) (tail_ r) (head_seen r) (Nat.max (tail_seen r) position).

Section Pipeline.
Context {B : Type} `{BookStore B} {Sink : Type}.
Context (InboundCapacity OutboundCapacity : Z).
Context (moved_command : Command -> Command) (moved_processed : ProcessedCommand -> ProcessedCommand).
Context (risk : RiskConfig) (on_processed : Sink -> ProcessedCommand -> Sink).
Context (perturbation : option PipelinePerturbation).

(** ** State *)

Record RunContext := mkRunContext {
  inbound : SpscRing Command;
  outbound : SpscRing ProcessedCommand;
  input_done : Flag;
  engine_done : Flag;
  spins : PipelineProbe;
  result : PipelineResult;
  sink : Sink
}.

Inductive InputPc :=
| InputPush                      (* the loads of [inbound.try_push] *)
| InputWrite (tail n : Z)        (* its buffer access *)
| InputStore (n : Z)             (* its store *)
| InputDone.

Record InputStage := mkInputStage { in_commands : list Command; in_pc : InputPc; in_steps : Z }.

Inductive EnginePc :=
| EnginePop                                              (* the loads of [inbound.try_pop] *)
| EngineRead (head : Z)                                  (* its buffer access *)
| EngineAdvance (head : Z) (command : Command)           (* its store; the command is applied *)
| EnginePush (processed : ProcessedCommand)              (* the loads of [outbound.try_push] *)
| EngineWrite (processed : ProcessedCommand) (tail n : Z)
| EngineStore (n : Z)
| EngineCheck                                            (* the load of [input_done] *)
| EngineFinish                                           (* the store of [engine_done] *)
| EngineDone.

(** [eg_draining]: inside [drain_inbound_after_done]; [eg_done_seen] is the view
    of [input_done]. *)
Record EngineStage := mkEngineStage {
  eg_engine : MatchingEngine B;
  eg_pc : EnginePc;
  eg_draining : bool;
  eg_done_seen : nat;
  eg_steps : Z
}.

Inductive OutputPc :=
| OutputPop
| OutputRead (head : Z)
| OutputAdvance (head : Z) (processed : ProcessedCommand)
| OutputCheck
| OutputDone.

Record OutputStage := mkOutputStage {
  out_pc : OutputPc;
  out_draining : bool;
  out_done_seen : nat;
  out_steps : Z
}.

Record State := mkState { ctx : RunContext; input : InputStage; engine : EngineStage; output : OutputStage }.

Definition set_inbound (r : SpscRing Command) (c : RunContext) : RunContext :=
  mkRunContext r (outbound c) (input_done c) (engine_done c) (spins c) (result c) (sink c).
Definition set_outbound (r : SpscRing ProcessedCommand) (c : RunContext) : RunContext :=
  mkRunContext (inbound c) r (input_done c) (engine_done c) (spins c) (result c) (sink c).
Definition set_spins (p : PipelineProbe) (c : RunContext) : RunContext :=
  mkRunContext (inbound c) (outbound c) (input_done c) (engine_done c) p (result c) (sink c).
Definition set_result (r : PipelineResult) (c : RunContext) : RunContext :=
  mkRunContext (inbound c) (outbound c) (input_done c) (engine_done c) (spins c) r (sink c).

(** ** The stages *)

Definition count_inbound_spin (c : RunContext) : RunContext :=
  set_spins (mkPipelineProbe (u64 (inbound_spins (spins c) + 1)) (outbound_spins (spins c))) c.
Definition count_outbound_spin (c : RunContext) : RunContext :=
  set_spins (mkPipelineProbe (inbound_spins (spins c)) (u64 (outbound_spins (spins c) + 1))) c.

(** [ctx.input_done.store(true)] and [ctx.engine_done.store(true)]. *)
Definition store_input_done (c : RunContext) : RunContext :=
  mkRunContext (inbound c) (outbound c) (input_done c ++ [(true, pushed (inbound c))]) (engine_done c) (spins c)
    (result c) (sink c).
Definition store_engine_done (c : RunContext) : RunContext :=
  mkRunContext (inbound c) (outbound c) (input_done c) (engine_done c ++ [(true, pushed (outbound c))]) (spins c)
    (result c) (sink c).

(** [run_input_stage]. *)
Definition input_step (lag : nat) (s : State) : State :=
  let c := ctx s in
  let i := input s in
  match in_pc i, in_commands i with
  | InputPush, [] => mkState (store_input_done c) (mkInputStage [] InputDone (in_steps i)) (engine s) (output s)
  | InputPush, commands =>
      match push_load InboundCapacity lag (inbound c) with
      | (None, r) => mkState (count_inbound_spin (set_inbound r c)) i (engine s) (output s)
      | (Some (tail, n), r) =>
          mkState (set_inbound r c) (mkInputStage commands (InputWrite tail n) (in_steps i)) (engine s) (output s)
      end
  | InputWrite tail n, command :: _ =>
      mkState (set_inbound (push_write tail command (inbound c)) c)
        (mkInputStage (in_commands i) (InputStore n) (in_steps i)) (engine s) (output s)
  | InputStore n, _ :: commands =>
      mkState (set_inbound (push_store n (inbound c)) c)
        (mkInputStage commands InputPush (stage_yield perturbation input_yield_every (in_steps i))) (engine s) (output s)
  | _, _ => s
  end.

Definition apply_to_engine (r : PipelineResult) (e : MatchingEngine B) (command : Command) :
    ProcessedCommand * PipelineResult * MatchingEngine B :=
  let '(gr, e) := apply_command risk e command in
  let processed := mkProcessedCommand command (g_accepted gr) (g_reason gr) (g_events gr) in
  (processed,
   mkPipelineResult (pr_snapshot r) (u64 (commands_processed r + 1))
     (if g_accepted gr then u64 (commands_accepted r + 1) else commands_accepted r)
     (if g_accepted gr then commands_rejected r else u64 (commands_rejected r + 1))
     (u64 (events_emitted r + Z.of_nat (length (g_events gr)))) (pr_last_seq r)
     (inbound_backpressure_spins r) (outbound_backpressure_spins r),
   e).

Definition with_snapshot (e : MatchingEngine B) (r : PipelineResult) : PipelineResult :=
  mkPipelineResult (snapshot e) (commands_processed r) (commands_accepted r) (commands_rejected r)
    (events_emitted r) (last_seq e) (inbound_backpressure_spins r) (outbound_backpressure_spins r).

Definition set_eg_pc (pc : EnginePc) (g : EngineStage) : EngineStage :=
  mkEngineStage (eg_engine g) pc (eg_draining g) (eg_done_seen g) (eg_steps g).

(** The load of [input_done]. *)
Definition check_input_done (lag : nat) (s : State) : State :=
  let c := ctx s in
  let g := engine s in
  let seen := visible (input_done c) (eg_done_seen g) lag in
  match input_done c !! seen with
  | Some (true, position) =>
      mkState (set_inbound (see_tail position (inbound c)) c) (input s)
        (mkEngineStage (eg_engine g) EnginePop true seen (eg_steps g)) (output s)
  | _ => mkState c (input s) (mkEngineStage (eg_engine g) EnginePop (eg_draining g) seen (eg_steps g)) (output s)
  end.

(** [run_engine_stage]. *)
Definition engine_step (lag : nat) (s : State) : State :=
  let c := ctx s in
  let g := engine s in
  match eg_pc g with
  | EnginePop =>
      match pop_load lag (inbound c) with
      | (Some head, r) => mkState (set_inbound r c) (input s) (set_eg_pc (EngineRead head) g) (output s)
      | (None, r) =>
          mkState (set_inbound r c) (input s)
            (set_eg_pc (if eg_draining g then EngineFinish else EngineCheck) g) (output s)
      end
  | EngineRead head =>
      match pop_read moved_command head (inbound c) with
      | (Some command, r) => mkState (set_inbound r c) (input s) (set_eg_pc (EngineAdvance head command) g) (output s)
      | (None, _) => s
      end
  | EngineAdvance head command =>
      let '(processed, r, e) := apply_to_engine (result c) (eg_engine g) command in
      mkState (set_result r (set_inbound (pop_store InboundCapacity head (inbound c)) c)) (input s)
        (mkEngineStage e (EnginePush processed) (eg_draining g) (eg_done_seen g) (eg_steps g)) (output s)
  | EnginePush processed =>
      match push_load OutboundCapacity lag (outbound c) with
      | (None, r) => mkState (count_outbound_spin (set_outbound r c)) (input s) g (output s)
      | (Some (tail, n), r) =>
          mkState (set_outbound r c) (input s) (set_eg_pc (EngineWrite processed tail n) g) (output s)
      end
  | EngineWrite processed tail n =>
      mkState (set_outbound (push_write tail processed (outbound c)) c) (input s) (set_eg_pc (EngineStore n) g) (output s)
  | EngineStore n =>
      mkState (set_outbound (push_store n (outbound c)) c) (input s)
        (mkEngineStage (eg_engine g) EnginePop (eg_draining g) (eg_done_seen g)
           (stage_yield perturbation engine_yield_every (eg_steps g))) (output s)
  | EngineCheck => check_input_done lag s
  | EngineFinish =>
      mkState (store_engine_done (set_result (with_snapshot (eg_engine g) (result c)) c)) (input s)
        (set_eg_pc EngineDone g) (output s)
  | EngineDone => s
  end.

Definition set_out_pc (pc : OutputPc) (o : OutputStage) : OutputStage :=
  mkOutputStage pc (out_draining o) (out_done_seen o) (out_steps o).

Definition check_engine_done (lag : nat) (s : State) : State :=
  let c := ctx s in
  let o := output s in
  let seen := visible (engine_done c) (out_done_seen o) lag in
  match engine_done c !! seen with
  | Some (true, position) =>
      mkState (set_outbound (see_tail position (outbound c)) c) (input s) (engine s)
        (mkOutputStage OutputPop true seen (out_steps o))
  | _ => mkState c (input s) (engine s) (mkOutputStage OutputPop (out_draining o) seen (out_steps o))
  end.

Definition publish_processed (processed : ProcessedCommand) (c : RunContext) : RunContext :=
  mkRunContext (inbound c) (outbound c) (input_done c) (engine_done c) (spins c) (result c)
    (on_processed (sink c) processed).

(** [run_output_stage]. *)
Definition output_step (lag : nat) (s : State) : State :=
  let c := ctx s in
  let o := output s in
  match out_pc o with
  | OutputPop =>
      match pop_load lag (outbound c) with
      | (Some head, r) => mkState (set_outbound r c) (input s) (engine s) (set_out_pc (OutputRead head) o)
      | (None, r) =>
          mkState (set_outbound r c) (input s) (engine s)
            (set_out_pc (if out_draining o then OutputDone else OutputCheck) o)
      end
  | OutputRead head =>
      match pop_read moved_processed head (outbound c) with
      | (Some processed, r) => mkState (set_outbound r c) (input s) (engine s) (set_out_pc (OutputAdvance head processed) o)
      | (None, _) => s
      end
  | OutputAdvance head processed =>
      mkState (publish_processed processed (set_outbound (pop_store OutboundCapacity head (outbound c)) c)) (input s)
        (engine s)
        (mkOutputStage OutputPop (out_draining o) (out_done_seen o)
           (stage_yield perturbation output_yield_every (out_steps o)))
  | OutputCheck => check_engine_done lag s
  | OutputDone => s
  end.

(** ** A run *)

Inductive Thread := InputThread | EngineThread | OutputThread.

Definition step (t : Thread) (lag : nat) (s : State) : State :=
  match t with
  | InputThread => input_step lag s
  | EngineThread => engine_step lag s
  | OutputThread => output_step lag s
  end.

Definition run_schedule (sched : list (Thread * nat)) (s : State) : State :=
  fold_left (fun s x => step x.1 x.2 s) sched s.

(** The state when the threads start.  [command0] and [processed0] are the value-
    initialized elements of the rings, [probe] the counters of the caller's probe. *)
Definition new_state (commands : list Command) (probe : option PipelineProbe) (sink0 : Sink)
    (command0 : Command) (processed0 : ProcessedCommand) : State :=
  mkState
    (mkRunContext (new_ring InboundCapacity command0) (new_ring OutboundCapacity processed0) new_flag new_flag
       (default (mkPipelineProbe 0 0) probe) empty_result sink0)
    (mkInputStage commands InputPush 0)
    (mkEngineStage (new_engine Baseline) EnginePop false 0 0)
    (mkOutputStage OutputPop false 0 0).

(** All three threads can be joined. *)
Definition finished (s : State) : bool :=
  match in_pc (input s), eg_pc (engine s), out_pc (output s) with
  | InputDone, EngineDone, OutputDone => true
  | _, _, _ => false
  end.

(** [finish]: [base] holds the probe's counters at the start of the run. *)
Definition finish (base : PipelineProbe) (s : State) : PipelineResult :=
  let r := result (ctx s) in
  mkPipelineResult (pr_snapshot r) (commands_processed r) (commands_accepted r) (commands_rejected r)
    (events_emitted r) (pr_last_seq r)
    (u64 (inbound_spins (spins (ctx s)) - inbound_spins base))
    (u64 (outbound_spins (spins (ctx s)) - outbound_spins base)).
End Pipeline.
