(* ===== verification/PipelineSpec.v ===== *)
(** * PipelineSpec: the pipeline runs its commands as one thread would

    The sequential reference of the pipeline, the invariant that relates every
    interleaving to it, and the measure that every fair round decreases. *)
From S2P Require Import Prelude Core Book BookSpec Command Engine Gateway Ring Pipeline.

Section Spec.
Context {B : Type} `{BookStore B} {Sink : Type}.
Context (InboundCapacity OutboundCapacity : Z).
Context (moved_command : Command -> Command) (moved_processed : ProcessedCommand -> ProcessedCommand).
Context (risk : RiskConfig) (on_processed : Sink -> ProcessedCommand -> Sink).
Context (perturbation : option PipelinePerturbation).

(** ** The sequential reference *)

(** One thread applies the commands in order. *)
Fixpoint process_all (r : PipelineResult) (e : MatchingEngine B) (commands : list Command) :
    list ProcessedCommand * PipelineResult * MatchingEngine B :=
  match commands with
  | [] => ([], r, e)
  | command :: commands' =>
      let '(processed, r, e) := apply_to_engine risk r e command in
      let '(rest, r, e) := process_all r e commands' in
      (processed :: rest, r, e)
  end.

Lemma process_all_app r e xs ys :
  process_all r e (xs ++ ys) =
    let '(p1, r1, e1) := process_all r e xs in
    let '(p2, r2, e2) := process_all r1 e1 ys in (p1 ++ p2, r2, e2).
Proof.
  revert r e. induction xs as [|x xs IH]; intros r e; cbn [app process_all]; [by destruct (process_all r e ys) as [[? ?] ?]|].
  destruct (apply_to_engine risk r e x) as [[p r1] e1]. rewrite IH. destruct (process_all r1 e1 xs) as [[p1 r2] e2].
  by destruct (process_all r2 e2 ys) as [[? ?] ?].
Qed.

Lemma process_all_length r e xs : length (process_all r e xs).1.1 = length xs.
Proof.
  revert r e. induction xs as [|x xs IH]; intros r e; [done|]. cbn [process_all]. destruct (apply_to_engine risk r e x) as [[p r1] e1].
  specialize (IH r1 e1). destruct (process_all r1 e1 xs) as [[p1 r2] e2]. cbn in *. by rewrite IH.
Qed.

Context (commands : list Command) (sink0 : Sink).

Definition total : list ProcessedCommand := (process_all empty_result (new_engine Baseline) commands).1.1.
(** The engine and the counters after [k] commands. *)
Definition engine_after (k : nat) : PipelineResult * MatchingEngine B :=
  let '(_, r, e) := process_all empty_result (new_engine Baseline) (take k commands) in (r, e).

Lemma total_length : length total = length commands.
Proof. apply process_all_length. Qed.

(** Applying the next command yields the next element of [total]. *)
Lemma engine_after_S k command :
  commands !! k = Some command ->
  exists p r e, apply_to_engine risk (engine_after k).1 (engine_after k).2 command = (p, r, e) /\
    total !! k = Some p /\ engine_after (S k) = (r, e).
Proof.
  intros Hk. unfold engine_after, total. rewrite (take_S_r _ _ _ Hk), process_all_app.
  pose proof (process_all_length empty_result (new_engine Baseline) (take k commands)) as Hl.
  rewrite length_take_le in Hl by (apply lookup_lt_Some in Hk; lia).
  replace (process_all empty_result (new_engine Baseline) commands) with
    (process_all empty_result (new_engine Baseline) (take k commands ++ command :: drop (S k) commands)) by (by rewrite take_drop_middle).
  rewrite process_all_app. destruct (process_all empty_result (new_engine Baseline) (take k commands)) as [[p1 r1] e1]. cbn [fst snd] in *.
  cbn [process_all]. destruct (apply_to_engine risk r1 e1 command) as [[p r] e].
  destruct (process_all r e (drop (S k) commands)) as [[p2 r2] e2]. exists p, r, e. cbn [fst snd]. split; [done|]. split; [|done].
  by rewrite lookup_app_r, Hl, Nat.sub_diag by lia.
Qed.

(** ** The invariant *)

Abbreviation PState := (State (B := B) (Sink := Sink)).
Implicit Types s : State (B := B) (Sink := Sink).

(** Whether a thread is inside an operation on its ring. *)
Definition input_reserved (pc : InputPc) : bool := match pc with InputWrite _ _ | InputStore _ => true | _ => false end.
Definition engine_taken (pc : EnginePc) : bool := match pc with EngineAdvance _ _ => true | _ => false end.
Definition engine_reserved (pc : EnginePc) : bool := match pc with EngineWrite _ _ _ | EngineStore _ => true | _ => false end.
Definition output_taken (pc : OutputPc) : bool := match pc with OutputAdvance _ _ => true | _ => false end.
(** The engine holds a processed command it has not published. *)
Definition engine_holds (pc : EnginePc) : bool :=
  match pc with EnginePush _ | EngineWrite _ _ _ | EngineStore _ => true | _ => false end.

Definition input_is_done (pc : InputPc) : bool := match pc with InputDone => true | _ => false end.
Definition engine_is_done (pc : EnginePc) : bool := match pc with EngineDone => true | _ => false end.

(** The slot of position [k] and the index published behind it. *)
Definition slot (Capacity : Z) (k : nat) : Z := Z.of_nat k mod kSlots Capacity.
Definition slot' (Capacity : Z) (k : nat) : Z := (Z.of_nat k + 1) mod kSlots Capacity.

Definition input_inv s : Prop :=
  let i := input s in
  let r := inbound (ctx s) in
  in_commands i = drop (pushed r) commands /\
  match in_pc i with
  | InputPush => input_done (ctx s) = new_flag
  | InputWrite tail n =>
      input_done (ctx s) = new_flag /\ in_commands i <> [] /\ tail = slot InboundCapacity (pushed r) /\ n = slot' InboundCapacity (pushed r)
  | InputStore n =>
      input_done (ctx s) = new_flag /\ n = slot' InboundCapacity (pushed r) /\
      exists command, commands !! pushed r = Some command /\ buffer_ r !! Z.to_nat (slot InboundCapacity (pushed r)) = Some command
  | InputDone => in_commands i = [] /\ input_done (ctx s) = new_flag ++ [(true, pushed r)]
  end.

Definition engine_pop_inv s : Prop :=
  let g := engine s in
  let r := inbound (ctx s) in
  (eg_done_seen g <= length (input_done (ctx s)) - 1)%nat /\
  (eg_draining g = true -> in_pc (input s) = InputDone /\ tail_seen r = pushed r) /\
  match eg_pc g with
  | EngineRead head => head = slot InboundCapacity (popped r) /\ (popped r < tail_seen r)%nat
  | EngineAdvance head command => head = slot InboundCapacity (popped r) /\ commands !! popped r = Some command
  | EngineCheck => eg_draining g = false
  | EngineFinish | EngineDone => eg_draining g = true /\ popped r = pushed r
  | _ => True
  end.

Definition engine_push_inv s : Prop :=
  let g := engine s in
  let r := outbound (ctx s) in
  popped (inbound (ctx s)) = (pushed r + Nat.b2n (engine_holds (eg_pc g)))%nat /\
  engine_done (ctx s) = (if engine_is_done (eg_pc g) then new_flag ++ [(true, pushed r)] else new_flag) /\
  match eg_pc g with
  | EnginePush processed => total !! pushed r = Some processed
  | EngineWrite processed tail n =>
      total !! pushed r = Some processed /\ tail = slot OutboundCapacity (pushed r) /\ n = slot' OutboundCapacity (pushed r)
  | EngineStore n =>
      n = slot' OutboundCapacity (pushed r) /\
      exists processed, total !! pushed r = Some processed /\
        buffer_ r !! Z.to_nat (slot OutboundCapacity (pushed r)) = Some processed
  | _ => True
  end.

Definition engine_state_inv s : Prop :=
  let '(r, e) := engine_after (popped (inbound (ctx s))) in
  eg_engine (engine s) = e /\
  result (ctx s) = (if engine_is_done (eg_pc (engine s)) then with_snapshot e r else r).

Definition output_inv s : Prop :=
  let o := output s in
  let r := outbound (ctx s) in
  (out_done_seen o <= length (engine_done (ctx s)) - 1)%nat /\
  (out_draining o = true -> eg_pc (engine s) = EngineDone /\ tail_seen r = pushed r) /\
  sink (ctx s) = fold_left on_processed (take (popped r) total) sink0 /\
  match out_pc o with
  | OutputRead head => head = slot OutboundCapacity (popped r) /\ (popped r < tail_seen r)%nat
  | OutputAdvance head processed => head = slot OutboundCapacity (popped r) /\ total !! popped r = Some processed
  | OutputCheck => out_draining o = false
  | OutputDone => out_draining o = true /\ popped r = pushed r
  | _ => True
  end.

Record inv s : Prop := {
  iv_inbound : ring_ok InboundCapacity (take (pushed (inbound (ctx s))) commands) (engine_taken (eg_pc (engine s)))
    (input_reserved (in_pc (input s))) (inbound (ctx s));
  iv_outbound : ring_ok OutboundCapacity (take (pushed (outbound (ctx s))) total) (output_taken (out_pc (output s)))
    (engine_reserved (eg_pc (engine s))) (outbound (ctx s));
  iv_input : input_inv s;
  iv_engine_pop : engine_pop_inv s;
  iv_engine_push : engine_push_inv s;
  iv_engine : engine_state_inv s;
  iv_output : output_inv s
}.
End Spec.

(** Opens a state and its invariant. *)
Ltac open_inv s Hinv :=
  destruct s as [[inb outb fin fen sp res sk] [left ipc ist] [eng epc dr dseen est] [opc odr oseen ost]];
  destruct Hinv as [Hin Hout Hi Hp Hu He Ho];
  unfold input_inv, engine_pop_inv, engine_push_inv, engine_state_inv, output_inv in *;
  cbn [ctx input engine output inbound outbound input_done engine_done spins result sink in_commands in_pc in_steps
    eg_engine eg_pc eg_draining eg_done_seen eg_steps out_pc out_draining out_done_seen out_steps] in *.

(** The projections of an opened state. *)
Ltac state_cbn :=
  unfold input_inv, engine_pop_inv, engine_push_inv, engine_state_inv, output_inv, set_eg_pc, set_out_pc;
  cbn [ctx input engine output inbound outbound input_done engine_done spins result sink in_commands in_pc in_steps
    eg_engine eg_pc eg_draining eg_done_seen eg_steps out_pc out_draining out_done_seen out_steps
    set_inbound set_outbound set_spins set_result store_input_done store_engine_done count_inbound_spin count_outbound_spin
    input_reserved engine_taken engine_reserved output_taken engine_holds input_is_done engine_is_done Nat.b2n Z.b2z].

(** A thread that observed the end of another one contradicts its program counter. *)
Ltac not_done :=
  match goal with
  | H : (_ <= _)%nat /\ (?d = true -> _ = EngineDone /\ _) /\ _ |- _ =>
      let H2 := fresh in destruct H as (? & H2 & ? & ?); split; [done|]; split; [|by split];
      let Hd := fresh in intros Hd; by apply H2 in Hd as [? _]
  end.

Section Preservation.
Context {B : Type} `{BookStore B} {Sink : Type}.
Context (InboundCapacity OutboundCapacity : Z).
Context (moved_command : Command -> Command) (moved_processed : ProcessedCommand -> ProcessedCommand).
Context (risk : RiskConfig) (on_processed : Sink -> ProcessedCommand -> Sink).
Context (perturbation : option PipelinePerturbation).
Context (commands : list Command) (sink0 : Sink).
Implicit Types s : State (B := B) (Sink := Sink).
Local Abbreviation inv := (inv InboundCapacity OutboundCapacity risk on_processed commands sink0).
Local Abbreviation total := (total (B := B) risk commands).
Local Abbreviation engine_after := (engine_after (B := B) risk commands).

Lemma input_step_inv lag s : inv s -> inv (input_step InboundCapacity perturbation lag s).
Proof.
  intros Hinv. open_inv s Hinv. destruct Hi as [Hleft Hi]. unfold input_step. cbn [ctx input in_pc in_commands].
  destruct ipc as [|tail n|n|].
  - destruct left as [|c left].
    + subst fin. split; state_cbn; try done. destruct Hp as (P1 & P2 & P3). split; [cbn [length new_flag app] in *; lia|]. split; [|done].
      intros Hd. by apply P2 in Hd as [? _].
    + cbn [inbound]. pose proof (push_load_spec InboundCapacity _ _ lag inb Hin) as Hl. destruct (push_load InboundCapacity lag inb) as [[[tail n]|] r'];
        destruct Hl as (L1 & L2 & L3 & L4 & L5).
      * destruct L5 as (L5 & -> & ->). split; state_cbn; rewrite ?L1, ?L2, ?L3; try done. destruct Hp as (P1 & P2 & P3). split; [done|]. split; [|done].
        intros Hd. by apply P2 in Hd as [? _].
      * destruct L5 as (L5 & _). split; state_cbn; rewrite ?L1, ?L2, ?L3; done.
  - destruct Hi as (-> & Hne & -> & ->). destruct left as [|c left]; [done|].
    assert (commands !! pushed inb = Some c) as Hc.
    { rewrite <- (Nat.add_0_r (pushed inb)), <- lookup_drop, <- Hleft. done. }
    destruct (push_write_spec InboundCapacity _ _ c inb Hin) as (L1 & L2 & L3 & L4 & L5). fold (slot InboundCapacity (pushed inb)) in *.
    split; state_cbn; rewrite ?L2, ?L3, ?L4; try done; [split; [done|]; split; [done|]; split; [done|]; by exists c|].
    destruct Hp as (P1 & P2 & P3). split; [done|]. split; [|done]. intros Hd. by apply P2 in Hd as [? _].
  - destruct Hi as (-> & -> & c & Hc & Hb). rewrite (drop_S _ _ _ Hc) in Hleft. subst left.
    destruct (push_store_spec InboundCapacity _ _ c inb Hin Hb) as (L1 & L2 & L3 & L4). fold (slot' InboundCapacity (pushed inb)) in *.
    split; state_cbn; rewrite ?L2, ?L3, ?L4, ?(take_S_r _ _ _ Hc); try done. destruct Hp as (P1 & P2 & P3). split; [done|]. split.
    + intros Hd. by apply P2 in Hd as [? _].
    + destruct epc; try done; destruct P3 as [Hd _]; by apply P2 in Hd as [? _].
  - by split.
Qed.

(** A done flag reads [true] only once it was stored. *)
Lemma flag_true (fin : list (bool * nat)) (done : bool) k n position :
  fin !! n = Some (true, position) -> fin = (if done then new_flag ++ [(true, k)] else new_flag) -> done = true /\ position = k.
Proof.
  intros Hf ->. destruct done; cbn in Hf; destruct n as [|[|n]]; try done. by injection Hf.
Qed.

Lemma see_tail_ok {T} Capacity (hist : list T) taken reserved position r :
  ring_ok Capacity hist taken reserved r -> (position <= pushed r)%nat -> ring_ok Capacity hist taken reserved (see_tail position r).
Proof. intros [H0 H1 H2 H3 H4 H5 H6 H7 H8 H9] Hle. split; try done; unfold see_tail, pushed, popped in *; cbn [tail_seen tail_ head_] in *; lia. Qed.

(** How many elements are in a ring, and where its two ends are. *)
Lemma ring_counts {T} Capacity (hist : list T) taken reserved r :
  ring_ok Capacity hist taken reserved r -> 0 <= Z.of_nat (pushed r) - Z.of_nat (popped r) <= Capacity.
Proof. intros [H0 H1 H2 H3 H4 H5 H6 H7 H8 H9]. assert (0 <= Z.b2z reserved) by (by destruct reserved). lia. Qed.

Lemma slots_differ Capacity j k :
  1 <= Capacity -> (j < k)%nat -> Z.of_nat k - Z.of_nat j <= Capacity ->
  0 <= slot Capacity k < kSlots Capacity /\ 0 <= slot Capacity j < kSlots Capacity /\ slot Capacity k <> slot Capacity j.
Proof.
  intros Hc Hlt Hd. unfold slot. split; [apply Z.mod_pos_bound; unfold kSlots; lia|]. split; [apply Z.mod_pos_bound; unfold kSlots; lia|].
  intros He. apply (slot_ne Capacity j k); [done|done|done|]. by rewrite He.
Qed.

Lemma engine_step_inv lag s :
  inv s -> inv (engine_step InboundCapacity OutboundCapacity moved_command risk perturbation lag s).
Proof.
  intros Hinv. open_inv s Hinv. destruct Hp as (P1 & P2 & P3), Hu as (U1 & U2 & U3). unfold engine_step. cbn [ctx engine eg_pc].
  destruct epc as [|head|head c|p|p tail n|n| | |]; cbn [engine_taken engine_reserved engine_holds engine_is_done Nat.b2n] in *.
  - cbn [inbound]. pose proof (pop_load_spec InboundCapacity _ _ lag inb Hin) as Hl. destruct (pop_load lag inb) as [[head|] r'] eqn:El;
      destruct Hl as (L1 & L2 & L3 & L4 & L5 & _ & L6); pose proof (ro_tail_seen _ _ _ _ _ L1) as Hts; rewrite L3 in Hts.
    + destruct L6 as (-> & L6). split; state_cbn; rewrite ?L2, ?L3, ?L4; try done; [|by not_done].
      split; [done|]. split; [|split; [done|lia]]. intros Hd. apply P2 in Hd as [? ?]. split; [done|lia].
    + destruct dr eqn:Ed.
      * destruct (P2 eq_refl) as [-> Ht]. split; state_cbn; rewrite ?L2, ?L3, ?L4; try done; [|by not_done].
        split; [done|]. split; [intros _; split; [done|lia]|]. split; [done|lia].
      * split; state_cbn; rewrite ?L2, ?L3, ?L4; try done; by not_done.
  - destruct P3 as (-> & Hlt). destruct (pop_read_spec InboundCapacity moved_command _ _ inb Hin Hlt) as (c & r' & Er & Hc & L1 & L2 & L3 & L4).
    fold (slot InboundCapacity (popped inb)) in *. fold (slot InboundCapacity (pushed inb)) in *. cbn [inbound]. rewrite Er.
    assert (tail_seen r' = tail_seen inb) as L5 by (unfold pop_read in Er; by injection Er as _ <-).
    split; state_cbn; rewrite ?L2, ?L3, ?L4, ?L5; try done; [|by not_done].
    split; [done|]. split; [done|]. split; [done|]. by apply lookup_take_Some in Hc as [Hc _].
  - destruct P3 as (-> & Hc). destruct (engine_after_S risk commands _ _ Hc) as (p & r1 & e1 & Ea & Ht & Es).
    destruct (pop_store_spec InboundCapacity _ _ inb Hin) as (L1 & L2 & L3 & L4). fold (slot InboundCapacity (popped inb)) in *.
    destruct (engine_after (popped inb)) as [r0 e0]. destruct He as [-> ->]. cbn [fst snd result eg_engine inbound] in *. rewrite Ea.
    split; state_cbn; rewrite ?L2, ?L3, ?L4; try done; [|..|by not_done].
    + split; [lia|]. split; [done|]. rewrite Nat.add_0_r in U1. by rewrite <- U1.
    + by rewrite Es.
  - pose proof (push_load_spec OutboundCapacity _ _ lag outb Hout) as Hl. cbn [outbound].
    destruct (push_load OutboundCapacity lag outb) as [[[tail n]|] r']; destruct Hl as (L1 & L2 & L3 & L4 & L5).
    + destruct L5 as (L5 & -> & ->). split; state_cbn; rewrite ?L1, ?L2, ?L3, ?L4; try done. by not_done.
    + destruct L5 as (L5 & _). split; state_cbn; rewrite ?L1, ?L2, ?L3, ?L4; done.
  - destruct U3 as (Ht & -> & ->). destruct (push_write_spec OutboundCapacity _ _ p outb Hout) as (L1 & L2 & L3 & L4 & L5).
    fold (slot OutboundCapacity (pushed outb)) in *. cbn [outbound].
    split; state_cbn; rewrite ?L2, ?L3, ?L4; try done; [|by not_done]. split; [done|]. split; [done|]. split; [done|]. by exists p.
  - destruct U3 as (-> & p & Ht & Hb). destruct (push_store_spec OutboundCapacity _ _ p outb Hout Hb) as (L1 & L2 & L3 & L4).
    fold (slot' OutboundCapacity (pushed outb)) in *. cbn [outbound].
    split; state_cbn; rewrite ?L2, ?L3, ?L4, ?(take_S_r _ _ _ Ht); try done; [split; [lia|done]|].
    destruct Ho as (O1 & O2 & O3 & O4). split; [done|]. split; [intros Hd; by apply O2 in Hd as [? _]|]. split; [done|].
    destruct opc; try done. destruct O4 as [Hd _]. by apply O2 in Hd as [? _].
  - unfold check_input_done. cbn [ctx engine input_done eg_done_seen]. pose proof (visible_range fin dseen lag P1) as Hv.
    destruct (fin !! visible fin dseen lag) as [[[] position]|] eqn:Ef.
    + assert (ipc = InputDone /\ position = pushed inb) as [-> ->].
      { destruct (flag_true fin (input_is_done ipc) (pushed inb) _ _ Ef) as [Hd ->]; [destruct ipc; naive_solver|]. by destruct ipc. }
      pose proof (ro_tail_seen _ _ _ _ _ Hin) as Hts. split; state_cbn; try done; [by apply see_tail_ok| |by not_done].
      split; [lia|]. split; [|done]. intros _. split; [done|]. unfold see_tail, pushed in *. cbn [tail_seen tail_]. lia.
    + split; state_cbn; try done; [|by not_done]. split; [lia|done].
    + split; state_cbn; try done; [|by not_done]. split; [lia|done].
  - destruct P3 as [-> Hpp]. destruct (P2 eq_refl) as [-> Ht]. split; state_cbn; try done.
    + split; [done|]. split; [by rewrite U2|done].
    + destruct (engine_after (popped inb)) as [r0 e0]. by destruct He as [-> ->].
    + destruct Ho as (O1 & O2 & O3 & O4). subst fen. split; [cbn in *; lia|]. split; [|done]. intros Hd. by apply O2 in Hd as [? _].
  - by split.
Qed.

Lemma output_step_inv lag s : inv s -> inv (output_step OutboundCapacity moved_processed on_processed perturbation lag s).
Proof.
  intros Hinv. open_inv s Hinv. destruct Hu as (U1 & U2 & U3), Ho as (O1 & O2 & O3 & O4). unfold output_step. cbn [ctx output out_pc].
  destruct opc as [|head|head p| |]; cbn [output_taken] in *.
  - cbn [outbound]. pose proof (pop_load_spec OutboundCapacity _ _ lag outb Hout) as Hl. destruct (pop_load lag outb) as [[head|] r'] eqn:El;
      destruct Hl as (L1 & L2 & L3 & L4 & L5 & _ & L6); pose proof (ro_tail_seen _ _ _ _ _ L1) as Hts; rewrite L3 in Hts.
    + destruct L6 as (-> & L6). split; state_cbn; rewrite ?L2, ?L3, ?L4; try done.
      split; [done|]. split; [|split; [done|split; [done|lia]]]. intros Hd. apply O2 in Hd as [? ?]. split; [done|lia].
    + destruct odr eqn:Ed; (split; state_cbn; rewrite ?L2, ?L3, ?L4; try done).
      destruct (O2 eq_refl) as [He' Ht]. split; [done|]. split; [intros _; split; [done|lia]|]. split; [done|]. split; [done|lia].
  - destruct O4 as (-> & Hlt). destruct (pop_read_spec OutboundCapacity moved_processed _ _ outb Hout Hlt) as (p & r' & Er & Hp' & L1 & L2 & L3 & L4).
    fold (slot OutboundCapacity (popped outb)) in *. fold (slot OutboundCapacity (pushed outb)) in *. cbn [outbound]. rewrite Er.
    assert (tail_seen r' = tail_seen outb) as L5 by (unfold pop_read in Er; by injection Er as _ <-).
    split; state_cbn; rewrite ?L2, ?L3, ?L4, ?L5; try done.
    split; [done|]. split; [done|]. split; [done|]. split; [done|]. by apply lookup_take_Some in Hp' as [Hp' _].
  - destruct O4 as (-> & Hc). destruct (pop_store_spec OutboundCapacity _ _ outb Hout) as (L1 & L2 & L3 & L4).
    fold (slot OutboundCapacity (popped outb)) in *. cbn [outbound].
    split; state_cbn; cbn [publish_processed sink inbound outbound input_done engine_done spins result set_outbound]; rewrite ?L2, ?L3, ?L4; try done.
    split; [done|]. split; [done|]. split; [|done]. rewrite (take_S_r _ _ _ Hc), fold_left_app. by rewrite <- O3.
  - unfold check_engine_done. cbn [ctx output engine_done out_done_seen]. pose proof (visible_range fen oseen lag O1) as Hv.
    destruct (fen !! visible fen oseen lag) as [[[] position]|] eqn:Ef.
    + destruct (flag_true fen (engine_is_done epc) (pushed outb) _ _ Ef) as [Hd ->]; [done|].
      assert (epc = EngineDone) as -> by (by destruct epc).
      pose proof (ro_tail_seen _ _ _ _ _ Hout) as Hts. split; state_cbn; try done; [by apply see_tail_ok|].
      split; [lia|]. split; [|done]. intros _. split; [done|]. unfold see_tail, pushed in *. cbn [tail_seen tail_]. lia.
    + split; state_cbn; try done. split; [lia|done].
    + split; state_cbn; try done. split; [lia|done].
  - by split.
Qed.

Abbreviation stepI := (step InboundCapacity OutboundCapacity moved_command moved_processed risk on_processed perturbation).
Abbreviation runI := (run_schedule InboundCapacity OutboundCapacity moved_command moved_processed risk on_processed perturbation).

Lemma step_inv t lag s : inv s -> inv (stepI t lag s).
Proof. destruct t; [apply input_step_inv|apply engine_step_inv|apply output_step_inv]. Qed.

Lemma run_inv sched s : inv s -> inv (runI sched s).
Proof. revert s. induction sched as [|[t lag] sched IH]; intros s Hs; [done|]. cbn. by apply IH, step_inv. Qed.

Lemma new_state_inv probe command0 processed0 :
  1 <= InboundCapacity -> 1 <= OutboundCapacity ->
  inv (new_state InboundCapacity OutboundCapacity commands probe sink0 command0 processed0).
Proof.
  intros H1 H2. unfold new_state. split; state_cbn; try (by rewrite ?take_0; apply new_ring_ok); done.
Qed.

(** ** What a finished run returns *)

Lemma finished_spec s :
  inv s -> finished s = true ->
  sink (ctx s) = fold_left on_processed total sink0 /\
  result (ctx s) = with_snapshot (engine_after (length commands)).2 (engine_after (length commands)).1.
Proof.
  intros Hinv. open_inv s Hinv. unfold finished. cbn [ctx input engine output in_pc eg_pc out_pc sink result].
  destruct ipc; try done; destruct epc; try done; destruct opc; try done. intros _.
  destruct Hi as [Hleft [-> _]], Hp as (_ & _ & _ & Hp), Hu as (Hu & _ & _), Ho as (_ & _ & -> & _ & Ho). cbn [engine_holds engine_is_done Nat.b2n] in *.
  assert (length commands <= pushed inb)%nat as Hle.
  { apply (f_equal length) in Hleft. rewrite length_drop in Hleft. cbn in Hleft. lia. }
  pose proof (ro_hist _ _ _ _ _ Hin) as Hh. rewrite length_take in Hh. split.
  - rewrite take_ge; [done|]. rewrite (total_length risk commands). lia.
  - replace (popped inb) with (length commands) in He by lia. destruct (engine_after (length commands)) as [r e]. by destruct He as [_ ->].
Qed.
End Preservation.

(** ** PipelineLive: every fair schedule finishes the pipeline

    A measure of the work that is left, which no step increases, and for every
    unfinished state a thread whose next steps decrease it whatever the other
    threads do meanwhile. *)

Lemma decide_thread (t t' : Thread) : {t = t'} + {t <> t'}.
Proof. decide equality. Defined.

Section Live.
Context {B : Type} `{BookStore B} {Sink : Type}.
Context (InboundCapacity OutboundCapacity : Z).
Context (moved_command : Command -> Command) (moved_processed : ProcessedCommand -> ProcessedCommand).
Context (risk : RiskConfig) (on_processed : Sink -> ProcessedCommand -> Sink).
Context (perturbation : option PipelinePerturbation).
Context (commands : list Command) (sink0 : Sink).
Implicit Types s : State (B := B) (Sink := Sink).

Local Abbreviation inv := (inv InboundCapacity OutboundCapacity risk on_processed commands sink0).
Local Abbreviation istep := (input_step InboundCapacity perturbation).
Local Abbreviation estep := (engine_step InboundCapacity OutboundCapacity moved_command risk perturbation).
Local Abbreviation ostep := (output_step OutboundCapacity moved_processed on_processed perturbation).
Local Abbreviation stepI := (step InboundCapacity OutboundCapacity moved_command moved_processed risk on_processed perturbation).
Local Abbreviation runI := (run_schedule InboundCapacity OutboundCapacity moved_command moved_processed risk on_processed perturbation).

(** ** The measure *)

Definition left_of (k : nat) : Z := Z.of_nat (length commands) - Z.of_nat k.

Definition in_work s : Z :=
  3 * left_of (pushed (inbound (ctx s))) +
  match in_pc (input s) with InputPush => 1 | InputWrite _ _ => 0 | InputStore _ => -1 | InputDone => 0 end.

Definition eng_work s : Z :=
  6 * left_of (popped (inbound (ctx s))) + (if eg_draining (engine s) then 0 else 1) +
  match eg_pc (engine s) with
  | EnginePop | EngineCheck => 0 | EngineRead _ => -1 | EngineAdvance _ _ => -2
  | EnginePush _ => 3 | EngineWrite _ _ _ => 2 | EngineStore _ => 1
  | EngineFinish => -1 | EngineDone => -2
  end.

Definition out_work s : Z :=
  3 * left_of (popped (outbound (ctx s))) + (if out_draining (output s) then 0 else 1) +
  match out_pc (output s) with
  | OutputPop | OutputCheck => 0 | OutputRead _ => -1 | OutputAdvance _ _ => -2 | OutputDone => -1
  end.

Definition work s : Z := in_work s + eng_work s + out_work s.

(** ** What one step of a thread does *)

Inductive input_effect (lag : nat) s s' : Prop :=
| ie_progress : in_pc (input s) <> InputDone -> in_work s' < in_work s -> input_effect lag s s'
| ie_spin :
    in_pc (input s) = InputPush -> input s' = input s -> pushed (inbound (ctx s')) = pushed (inbound (ctx s)) ->
    in_commands (input s) <> [] ->
    (lag = 0%nat -> Z.of_nat (pushed (inbound (ctx s))) = Z.of_nat (popped (inbound (ctx s))) + InboundCapacity) ->
    input_effect lag s s'
| ie_done : in_pc (input s) = InputDone -> s' = s -> input_effect lag s s'.

Lemma input_step_effect lag s :
  inv s ->
  let s' := istep lag s in
  engine s' = engine s /\ output s' = output s /\ outbound (ctx s') = outbound (ctx s) /\
  popped (inbound (ctx s')) = popped (inbound (ctx s)) /\ (pushed (inbound (ctx s)) <= pushed (inbound (ctx s')))%nat /\
  input_effect lag s s'.
Proof.
  intros Hinv. open_inv s Hinv. destruct Hi as [Hleft Hi]. unfold input_step. cbn [ctx input in_pc in_commands].
  destruct ipc as [|tail n|n|].
  - destruct left as [|c left].
    + state_cbn. do 4 (split; [done|]). split; [lia|]. constructor; [done|]. unfold in_work. state_cbn. lia.
    + cbn [inbound]. pose proof (push_load_spec InboundCapacity _ _ lag inb Hin) as Hl. destruct (push_load InboundCapacity lag inb) as [[[tail n]|] r'];
        destruct Hl as (L1 & L2 & L3 & L4 & L5); state_cbn; rewrite ?L1, ?L2; do 4 (split; [done|]); (split; [lia|]).
      * constructor; [done|]. unfold in_work. state_cbn. rewrite L2. lia.
      * destruct L5 as [_ L5]. apply ie_spin; state_cbn; done.
  - destruct left as [|c left]; [by destruct Hi as (_ & ? & _)|]. destruct Hi as (-> & Hne & -> & ->).
    destruct (push_write_spec InboundCapacity _ _ c inb Hin) as (L1 & L2 & L3 & L4 & L5). fold (slot InboundCapacity (pushed inb)) in *.
    state_cbn. rewrite ?L2, ?L3. do 4 (split; [done|]). split; [lia|]. constructor; [done|]. unfold in_work. state_cbn. rewrite L3. lia.
  - destruct Hi as (-> & -> & c & Hc & Hb). rewrite (drop_S _ _ _ Hc) in Hleft. subst left.
    destruct (push_store_spec InboundCapacity _ _ c inb Hin Hb) as (L1 & L2 & L3 & L4). fold (slot' InboundCapacity (pushed inb)) in *.
    state_cbn. rewrite ?L2, ?L3. do 4 (split; [done|]). split; [lia|]. constructor; [done|]. unfold in_work, left_of. state_cbn. rewrite L3. lia.
  - do 5 (split; [done|]). by apply ie_done.
Qed.

Inductive engine_effect (lag : nat) s s' : Prop :=
| ee_progress : eg_pc (engine s) <> EngineDone -> eng_work s' < eng_work s -> engine_effect lag s s'
| ee_spin p :
    eg_pc (engine s) = EnginePush p -> engine s' = engine s -> pushed (outbound (ctx s')) = pushed (outbound (ctx s)) ->
    (lag = 0%nat -> Z.of_nat (pushed (outbound (ctx s))) = Z.of_nat (popped (outbound (ctx s))) + OutboundCapacity) ->
    eng_work s' = eng_work s -> engine_effect lag s s'
| ee_empty :
    eg_pc (engine s) = EnginePop -> eg_pc (engine s') = EngineCheck -> eng_work s' = eng_work s ->
    popped (inbound (ctx s')) = popped (inbound (ctx s)) ->
    (lag = 0%nat -> popped (inbound (ctx s)) = pushed (inbound (ctx s))) -> engine_effect lag s s'
| ee_unfinished :
    eg_pc (engine s) = EngineCheck -> eg_pc (engine s') = EnginePop -> eng_work s' = eng_work s ->
    popped (inbound (ctx s')) = popped (inbound (ctx s)) ->
    (lag = 0%nat -> in_pc (input s) <> InputDone) -> engine_effect lag s s'
| ee_done : eg_pc (engine s) = EngineDone -> s' = s -> engine_effect lag s s'.

Lemma check_effect lag s :
  inv s -> eg_pc (engine s) = EngineCheck ->
  let s' := check_input_done lag s in
  input s' = input s /\ output s' = output s /\ outbound (ctx s') = outbound (ctx s) /\
  pushed (inbound (ctx s')) = pushed (inbound (ctx s)) /\ popped (inbound (ctx s')) = popped (inbound (ctx s)) /\ engine_effect lag s s'.
Proof.
  intros Hinv. open_inv s Hinv. intros ->. destruct Hi as [_ Hi], Hp as (P1 & P2 & P3). unfold check_input_done. cbn [ctx engine input_done eg_done_seen].
  assert (fin = if input_is_done ipc then new_flag ++ [(true, pushed inb)] else new_flag) as Hfin by (destruct ipc; naive_solver).
  destruct (fin !! visible fin dseen lag) as [[[] position]|] eqn:Ef; state_cbn; do 5 (split; [done|]).
  - apply ee_progress; [done|]. unfold eng_work. state_cbn. rewrite P3. change (popped (see_tail position inb)) with (popped inb). lia.
  - apply ee_unfinished; [done|done|done|done|]. intros -> Hd. cbn in Hd. subst ipc. rewrite visible_fresh, Hfin in Ef by done. done.
  - pose proof (visible_range fin dseen lag P1) as Hv. apply lookup_ge_None in Ef. subst fin. destruct ipc; cbn in Ef, Hv; lia.
Qed.

Lemma engine_step_effect lag s :
  inv s ->
  let s' := estep lag s in
  input s' = input s /\ output s' = output s /\ popped (outbound (ctx s')) = popped (outbound (ctx s)) /\
  pushed (inbound (ctx s')) = pushed (inbound (ctx s)) /\
  (popped (inbound (ctx s)) <= popped (inbound (ctx s')))%nat /\ (pushed (outbound (ctx s)) <= pushed (outbound (ctx s')))%nat /\
  engine_effect lag s s'.
Proof.
  intros Hinv. pose proof (check_effect lag s Hinv) as Hcheck. revert Hcheck. open_inv s Hinv. intros Hcheck.
  destruct Hp as (P1 & P2 & P3), Hu as (U1 & U2 & U3). unfold engine_step. cbn [ctx engine eg_pc].
  destruct epc as [|head|head c|p|p tail n|n| | |]; cbn [engine_taken engine_reserved engine_holds engine_is_done Nat.b2n] in *.
  - cbn [inbound]. pose proof (pop_load_spec InboundCapacity _ _ lag inb Hin) as Hl. destruct (pop_load lag inb) as [[head|] r'] eqn:El;
      destruct Hl as (L1 & L2 & L3 & L4 & L5 & L6 & L7); state_cbn; rewrite ?L2, ?L3; do 4 (split; [done|]); do 2 (split; [lia|]).
    + apply ee_progress; [done|]. unfold eng_work. state_cbn. rewrite L2. lia.
    + destruct dr eqn:Ed.
      * apply ee_progress; [done|]. unfold eng_work. state_cbn. rewrite L2. lia.
      * apply ee_empty; [done|done|unfold eng_work; state_cbn; by rewrite L2|done|]. intros Hl. state_cbn. rewrite L7. by apply L6.
  - destruct P3 as (-> & Hlt). destruct (pop_read_spec InboundCapacity moved_command _ _ inb Hin Hlt) as (c & r' & Er & Hc & L1 & L2 & L3 & L4).
    fold (slot InboundCapacity (popped inb)) in *. cbn [inbound]. rewrite Er. state_cbn. rewrite ?L2, ?L3. do 4 (split; [done|]). do 2 (split; [lia|]).
    apply ee_progress; [done|]. unfold eng_work. state_cbn. rewrite L2. lia.
  - destruct P3 as (-> & Hc). destruct (pop_store_spec InboundCapacity _ _ inb Hin) as (L1 & L2 & L3 & L4). fold (slot InboundCapacity (popped inb)) in *.
    destruct (apply_to_engine risk res eng c) as [[p r1] e1] eqn:Ea. cbn [result eg_engine]. rewrite Ea. state_cbn. rewrite ?L2, ?L3.
    do 4 (split; [done|]). do 2 (split; [lia|]). apply ee_progress; [done|]. unfold eng_work, left_of. state_cbn. rewrite L2. lia.
  - pose proof (push_load_spec OutboundCapacity _ _ lag outb Hout) as Hl. cbn [outbound].
    destruct (push_load OutboundCapacity lag outb) as [[[tail n]|] r']; destruct Hl as (L1 & L2 & L3 & L4 & L5); state_cbn; rewrite ?L1, ?L2;
      do 4 (split; [done|]); do 2 (split; [lia|]).
    + apply ee_progress; [done|]. unfold eng_work. state_cbn. lia.
    + destruct L5 as [_ L5]. by apply (ee_spin _ _ _ p).
  - destruct U3 as (Ht & -> & ->). destruct (push_write_spec OutboundCapacity _ _ p outb Hout) as (L1 & L2 & L3 & L4 & L5).
    fold (slot OutboundCapacity (pushed outb)) in *. state_cbn. rewrite ?L2, ?L3. do 4 (split; [done|]). do 2 (split; [lia|]).
    apply ee_progress; [done|]. unfold eng_work. state_cbn. lia.
  - destruct U3 as (-> & p & Ht & Hb). destruct (push_store_spec OutboundCapacity _ _ p outb Hout Hb) as (L1 & L2 & L3 & L4).
    fold (slot' OutboundCapacity (pushed outb)) in *. state_cbn. rewrite ?L2, ?L3. do 4 (split; [done|]). do 2 (split; [lia|]).
    apply ee_progress; [done|]. unfold eng_work. state_cbn. lia.
  - destruct (Hcheck eq_refl) as (C1 & C2 & C3 & C4 & C5 & C6). rewrite C1, C2, C3, C4, C5. state_cbn. do 4 (split; [done|]). do 2 (split; [lia|]). done.
  - destruct P3 as [-> _]. state_cbn. do 4 (split; [done|]). do 2 (split; [lia|]). apply ee_progress; [done|]. unfold eng_work. state_cbn. lia.
  - state_cbn. do 4 (split; [done|]). do 2 (split; [lia|]). by apply ee_done.
Qed.

Inductive output_effect (lag : nat) s s' : Prop :=
| oe_progress : out_pc (output s) <> OutputDone -> out_work s' < out_work s -> output_effect lag s s'
| oe_empty :
    out_pc (output s) = OutputPop -> out_pc (output s') = OutputCheck -> out_work s' = out_work s ->
    popped (outbound (ctx s')) = popped (outbound (ctx s)) ->
    (lag = 0%nat -> popped (outbound (ctx s)) = pushed (outbound (ctx s))) -> output_effect lag s s'
| oe_unfinished :
    out_pc (output s) = OutputCheck -> out_pc (output s') = OutputPop -> out_work s' = out_work s ->
    popped (outbound (ctx s')) = popped (outbound (ctx s)) ->
    (lag = 0%nat -> eg_pc (engine s) <> EngineDone) -> output_effect lag s s'
| oe_done : out_pc (output s) = OutputDone -> s' = s -> output_effect lag s s'.

Lemma output_step_effect lag s :
  inv s ->
  let s' := ostep lag s in
  input s' = input s /\ engine s' = engine s /\ inbound (ctx s') = inbound (ctx s) /\
  pushed (outbound (ctx s')) = pushed (outbound (ctx s)) /\ (popped (outbound (ctx s)) <= popped (outbound (ctx s')))%nat /\
  output_effect lag s s'.
Proof.
  intros Hinv. open_inv s Hinv. destruct Hu as (U1 & U2 & U3), Ho as (O1 & O2 & O3 & O4). unfold output_step. cbn [ctx output out_pc].
  destruct opc as [|head|head p| |]; cbn [output_taken] in *.
  - cbn [outbound]. pose proof (pop_load_spec OutboundCapacity _ _ lag outb Hout) as Hl. destruct (pop_load lag outb) as [[head|] r'] eqn:El;
      destruct Hl as (L1 & L2 & L3 & L4 & L5 & L6 & L7); state_cbn; rewrite ?L2, ?L3; do 4 (split; [done|]); (split; [lia|]).
    + apply oe_progress; [done|]. unfold out_work. state_cbn. rewrite L2. lia.
    + destruct odr eqn:Ed.
      * apply oe_progress; [done|]. unfold out_work. state_cbn. rewrite L2. lia.
      * apply oe_empty; [done|done|unfold out_work; state_cbn; by rewrite L2|done|]. intros Hl. state_cbn. rewrite L7. by apply L6.
  - destruct O4 as (-> & Hlt). destruct (pop_read_spec OutboundCapacity moved_processed _ _ outb Hout Hlt) as (p & r' & Er & Hc & L1 & L2 & L3 & L4).
    fold (slot OutboundCapacity (popped outb)) in *. cbn [outbound]. rewrite Er. state_cbn. rewrite ?L2, ?L3. do 4 (split; [done|]). split; [lia|].
    apply oe_progress; [done|]. unfold out_work. state_cbn. rewrite L2. lia.
  - destruct O4 as (-> & Hc). destruct (pop_store_spec OutboundCapacity _ _ outb Hout) as (L1 & L2 & L3 & L4).
    fold (slot OutboundCapacity (popped outb)) in *. state_cbn. cbn [publish_processed outbound set_outbound]. rewrite ?L2, ?L3. do 4 (split; [done|]). split; [lia|].
    apply oe_progress; [done|]. unfold out_work, left_of. state_cbn. cbn [publish_processed outbound set_outbound]. rewrite L2. lia.
  - unfold check_engine_done. cbn [ctx output engine_done out_done_seen].
    destruct (fen !! visible fen oseen lag) as [[[] position]|] eqn:Ef; state_cbn; do 4 (split; [done|]); (split; [done|]).
    + apply oe_progress; [done|]. unfold out_work. state_cbn. rewrite O4. change (popped (see_tail position outb)) with (popped outb). lia.
    + apply oe_unfinished; [done|done|done|done|]. intros -> Hd. state_cbn. cbn in Hd. subst epc. rewrite visible_fresh, U2 in Ef by done. done.
    + pose proof (visible_range fen oseen lag O1) as Hv. apply lookup_ge_None in Ef. subst fen. destruct epc; cbn in Ef, Hv; lia.
  - do 5 (split; [done|]). by apply oe_done.
Qed.

(** ** Who can make progress *)

(** [ready t]: something is there for thread [t], and only [t] can take it away. *)
Definition ready (t : Thread) s : Prop :=
  match t with
  | InputThread =>
      match in_pc (input s) with
      | InputDone => False
      | InputPush =>
          in_commands (input s) = [] \/
          Z.of_nat (pushed (inbound (ctx s))) < Z.of_nat (popped (inbound (ctx s))) + InboundCapacity
      | _ => True
      end
  | EngineThread =>
      match eg_pc (engine s) with
      | EngineDone => False
      | EnginePop | EngineCheck =>
          (popped (inbound (ctx s)) < pushed (inbound (ctx s)))%nat \/ in_pc (input s) = InputDone
      | EnginePush _ => Z.of_nat (pushed (outbound (ctx s))) < Z.of_nat (popped (outbound (ctx s))) + OutboundCapacity
      | _ => True
      end
  | OutputThread =>
      match out_pc (output s) with
      | OutputDone => False
      | OutputPop | OutputCheck =>
          (popped (outbound (ctx s)) < pushed (outbound (ctx s)))%nat \/ eg_pc (engine s) = EngineDone
      | _ => True
      end
  end.

(** [primed t]: the next step of [t] with a fresh load makes progress. *)
Definition primed (t : Thread) s : Prop :=
  ready t s /\
  match t with
  | InputThread => True
  | EngineThread =>
      match eg_pc (engine s) with
      | EnginePop => (popped (inbound (ctx s)) < pushed (inbound (ctx s)))%nat
      | EngineCheck => in_pc (input s) = InputDone
      | _ => True
      end
  | OutputThread =>
      match out_pc (output s) with
      | OutputPop => (popped (outbound (ctx s)) < pushed (outbound (ctx s)))%nat
      | OutputCheck => eg_pc (engine s) = EngineDone
      | _ => True
      end
  end.

Lemma work_step t lag s : inv s -> work (stepI t lag s) <= work s.
Proof.
  intros Hinv. unfold work. destruct t; cbn [step].
  - destruct (input_step_effect lag s Hinv) as (E1 & E2 & E3 & E4 & E5 & E6).
    assert (eng_work (istep lag s) = eng_work s) as -> by (unfold eng_work; by rewrite E1, E4).
    assert (out_work (istep lag s) = out_work s) as -> by (unfold out_work; by rewrite E2, E3).
    destruct E6 as [_ E6|E6 E7 E8 _ _|_ ->]; [lia| |lia]. unfold in_work. rewrite E7, E8. lia.
  - destruct (engine_step_effect lag s Hinv) as (E1 & E2 & E3 & E4 & E5 & E6 & E7).
    assert (in_work (estep lag s) = in_work s) as -> by (unfold in_work; by rewrite E1, E4).
    assert (out_work (estep lag s) = out_work s) as -> by (unfold out_work; by rewrite E2, E3).
    destruct E7 as [_ E7|p _ _ _ _ E7|_ _ E7 _ _|_ _ E7 _ _|_ ->]; lia.
  - destruct (output_step_effect lag s Hinv) as (E1 & E2 & E3 & E4 & E5 & E6).
    assert (in_work (ostep lag s) = in_work s) as -> by (unfold in_work; by rewrite E1, E3).
    assert (eng_work (ostep lag s) = eng_work s) as -> by (unfold eng_work; by rewrite E2, E3).
    destruct E6 as [_ E6|_ _ E6 _ _|_ _ E6 _ _|_ ->]; lia.
Qed.

(** Progress of a thread is progress of the pipeline. *)
Lemma work_progress t lag s :
  inv s ->
  match t with
  | InputThread => in_work (istep lag s) < in_work s
  | EngineThread => eng_work (estep lag s) < eng_work s
  | OutputThread => out_work (ostep lag s) < out_work s
  end -> work (stepI t lag s) < work s.
Proof.
  intros Hinv Hp. unfold work. destruct t; cbn [step].
  - destruct (input_step_effect lag s Hinv) as (E1 & E2 & E3 & E4 & _ & _).
    assert (eng_work (istep lag s) = eng_work s) as -> by (unfold eng_work; by rewrite E1, E4).
    assert (out_work (istep lag s) = out_work s) as -> by (unfold out_work; by rewrite E2, E3). lia.
  - destruct (engine_step_effect lag s Hinv) as (E1 & E2 & E3 & E4 & _).
    assert (in_work (estep lag s) = in_work s) as -> by (unfold in_work; by rewrite E1, E4).
    assert (out_work (estep lag s) = out_work s) as -> by (unfold out_work; by rewrite E2, E3). lia.
  - destruct (output_step_effect lag s Hinv) as (E1 & E2 & E3 & _).
    assert (in_work (ostep lag s) = in_work s) as -> by (unfold in_work; by rewrite E1, E3).
    assert (eng_work (ostep lag s) = eng_work s) as -> by (unfold eng_work; by rewrite E2, E3). lia.
Qed.

Lemma input_done_stays t lag s : inv s -> in_pc (input s) = InputDone -> in_pc (input (stepI t lag s)) = InputDone.
Proof.
  intros Hinv Hd. destruct t; cbn [step].
  - destruct (input_step_effect lag s Hinv) as (_ & _ & _ & _ & _ & [Hn _|Hp _ _ _ _|_ ->]); [done|congruence|done].
  - destruct (engine_step_effect lag s Hinv) as (-> & _). done.
  - destruct (output_step_effect lag s Hinv) as (-> & _). done.
Qed.

Lemma engine_done_stays t lag s : inv s -> eg_pc (engine s) = EngineDone -> eg_pc (engine (stepI t lag s)) = EngineDone.
Proof.
  intros Hinv Hd. destruct t; cbn [step].
  - destruct (input_step_effect lag s Hinv) as (-> & _). done.
  - destruct (engine_step_effect lag s Hinv) as (_ & _ & _ & _ & _ & _ & [Hn _|p Hp _ _ _ _|Hp _ _ _ _|Hp _ _ _ _|_ ->]); congruence.
  - destruct (output_step_effect lag s Hinv) as (_ & -> & _). done.
Qed.

(** No other thread takes away what a thread is ready for. *)
Lemma ready_other t t' lag s : inv s -> t <> t' -> ready t s -> ready t (stepI t' lag s).
Proof.
  intros Hinv Hne Hr. pose proof (input_done_stays t' lag s Hinv) as Hid. pose proof (engine_done_stays t' lag s Hinv) as Hed.
  unfold ready in *. destruct t, t'; try done; cbn [step] in *.
  - destruct (engine_step_effect lag s Hinv) as (-> & _ & _ & -> & E5 & _). destruct (in_pc (input s)); [naive_solver lia|done..].
  - destruct (output_step_effect lag s Hinv) as (-> & _ & -> & _). done.
  - destruct (input_step_effect lag s Hinv) as (-> & _ & -> & -> & E5 & _). destruct (eg_pc (engine s)); naive_solver lia.
  - destruct (output_step_effect lag s Hinv) as (E1 & -> & -> & -> & E5 & _). rewrite E1 in *. destruct (eg_pc (engine s)); naive_solver lia.
  - destruct (input_step_effect lag s Hinv) as (-> & -> & -> & _). done.
  - destruct (engine_step_effect lag s Hinv) as (_ & -> & -> & _ & _ & E6 & _). destruct (out_pc (output s)); naive_solver lia.
Qed.

Lemma primed_other t t' lag s : inv s -> t <> t' -> primed t s -> primed t (stepI t' lag s).
Proof.
  intros Hinv Hne [Hr Hp]. split; [by apply ready_other|].
  pose proof (input_done_stays t' lag s Hinv) as Hid. pose proof (engine_done_stays t' lag s Hinv) as Hed.
  destruct t, t'; try done; cbn [step] in *.
  - destruct (input_step_effect lag s Hinv) as (E1 & _ & _ & E4 & E5 & _). rewrite E1, E4. destruct (eg_pc (engine s)); naive_solver lia.
  - destruct (output_step_effect lag s Hinv) as (E1 & E2 & E3 & _). by rewrite E1, E2, E3.
  - destruct (input_step_effect lag s Hinv) as (E1 & E2 & E3 & _). by rewrite E1, E2, E3.
  - destruct (engine_step_effect lag s Hinv) as (_ & E2 & E3 & _ & _ & E6 & _). rewrite E2, E3. destruct (out_pc (output s)); naive_solver lia.
Qed.

(** A ready thread that steps makes progress or stays ready; with a fresh load it
    makes progress or is primed; a primed thread makes progress. *)
Lemma ready_own t lag s : inv s -> ready t s -> work (stepI t lag s) < work s \/ ready t (stepI t lag s).
Proof.
  intros Hinv Hr. pose proof (work_progress t lag s Hinv) as Hw. destruct t; cbn [step] in *; unfold ready in *.
  - destruct (input_step_effect lag s Hinv) as (_ & _ & _ & E4 & _ & [_ E|E1 E2 E3 _ _|E1 _]); [by left; apply Hw| |by rewrite E1 in Hr].
    right. by rewrite E2, E3, E4.
  - destruct (engine_step_effect lag s Hinv) as (E1 & _ & E3 & E4 & E5 & E6 & [_ E|p Ep Eq Er _ _|Ep Eq _ Er _|Ep Eq _ Er _|Ep _]);
      [by left; apply Hw|right..|by rewrite Ep in Hr]; rewrite Ep in Hr; [by rewrite Eq, Ep, E3, Er|by rewrite Eq, E1, E4, Er..].
  - destruct (output_step_effect lag s Hinv) as (_ & E2 & _ & E4 & E5 & [_ E|Ep Eq _ Er _|Ep Eq _ Er _|Ep _]);
      [by left; apply Hw|right..|by rewrite Ep in Hr]; rewrite Ep in Hr; by rewrite Eq, E2, E4, Er.
Qed.

Lemma ready_fresh t s : inv s -> ready t s -> work (stepI t 0 s) < work s \/ primed t (stepI t 0 s).
Proof.
  intros Hinv Hr. destruct (ready_own t 0 s Hinv Hr) as [Hw|Hr']; [by left|]. pose proof (work_progress t 0 s Hinv) as Hw.
  destruct t; cbn [step] in *.
  - by right.
  - destruct (engine_step_effect 0 s Hinv) as (E1 & _ & E3 & E4 & E5 & E6 & [_ E|p Ep Eq Er _ _|Ep Eq _ Er Ez|Ep Eq _ Er Ez|Ep _]);
      [by left; apply Hw|right; split; [done|]..|unfold ready in Hr; by rewrite Ep in Hr]; unfold ready in Hr; rewrite Ep in Hr; rewrite Eq; [by rewrite Ep|..].
    + rewrite E1. specialize (Ez eq_refl). destruct Hr; [lia|done].
    + rewrite E4, Er. specialize (Ez eq_refl). by destruct Hr.
  - destruct (output_step_effect 0 s Hinv) as (_ & E2 & _ & E4 & E5 & [_ E|Ep Eq _ Er Ez|Ep Eq _ Er Ez|Ep _]);
      [by left; apply Hw|right; split; [done|]..|unfold ready in Hr; by rewrite Ep in Hr]; unfold ready in Hr; rewrite Ep in Hr; rewrite Eq.
    + rewrite E2. specialize (Ez eq_refl). destruct Hr; [lia|done].
    + rewrite E4, Er. specialize (Ez eq_refl). by destruct Hr.
Qed.

Lemma primed_fresh t s : inv s -> primed t s -> work (stepI t 0 s) < work s.
Proof.
  intros Hinv [Hr Hp]. apply (work_progress t 0 s Hinv). unfold ready in Hr. destruct t.
  - destruct (input_step_effect 0 s Hinv) as (_ & _ & _ & _ & _ & [_ E|E1 E2 E3 E4 E5|E1 _]); [done| |by rewrite E1 in Hr].
    rewrite E1 in Hr. specialize (E5 eq_refl). destruct Hr; [done|lia].
  - destruct (engine_step_effect 0 s Hinv) as (_ & _ & _ & _ & _ & _ & [_ E|p Ep _ _ Ez _|Ep _ _ _ Ez|Ep _ _ _ Ez|Ep _]);
      [done|rewrite Ep in Hr, Hp; try specialize (Ez eq_refl)..|by rewrite Ep in Hr]; [lia|lia|done].
  - destruct (output_step_effect 0 s Hinv) as (_ & _ & _ & _ & _ & [_ E|Ep _ _ _ Ez|Ep _ _ _ Ez|Ep _]);
      [done|rewrite Ep in Hr, Hp; try specialize (Ez eq_refl)..|by rewrite Ep in Hr]; [lia|done].
Qed.

(** While the pipeline is not finished some thread is ready. *)
Lemma some_ready s : inv s -> finished s = false -> exists t, ready t s.
Proof.
  intros Hinv. open_inv s Hinv. destruct Hi as [_ Hi], Hp as (P1 & P2 & P3), Hu as (U1 & U2 & U3), Ho as (O1 & O2 & O3 & O4).
  pose proof (ro_capacity _ _ _ _ _ Hin) as Ci. pose proof (ro_capacity _ _ _ _ _ Hout) as Co.
  pose proof (ro_pop _ _ _ _ _ Hin). pose proof (ro_tail_seen _ _ _ _ _ Hin). pose proof (ro_pop _ _ _ _ _ Hout). pose proof (ro_tail_seen _ _ _ _ _ Hout).
  unfold finished. cbn [in_pc eg_pc out_pc input engine output]. intros Hf.
  assert (opc = OutputDone -> False) as Hnd.
  { intros ->. destruct O4 as [-> _]. destruct (O2 eq_refl) as [-> _]. destruct P3 as [-> _]. by destruct (P2 eq_refl) as [-> _]. }
  destruct (decide (popped outb < pushed outb)%nat) as [Hlt|Hge].
  { exists OutputThread. unfold ready. cbn. destruct opc; naive_solver. }
  destruct (engine_is_done epc) eqn:Ed.
  { exists OutputThread. unfold ready. cbn. destruct epc; try done. destruct opc; naive_solver. }
  destruct (engine_holds epc) eqn:Eh.
  { exists EngineThread. unfold ready. cbn. destruct epc; try done. lia. }
  destruct (decide (popped inb < pushed inb)%nat) as [Hlt|Hge'].
  { exists EngineThread. unfold ready. cbn. destruct epc; naive_solver. }
  destruct (input_is_done ipc) eqn:Ei.
  { exists EngineThread. unfold ready. cbn. destruct ipc; try done. destruct epc; naive_solver. }
  exists InputThread. unfold ready. cbn. destruct ipc; try done. right. lia.
Qed.

(** The measure has a lower bound. *)
Lemma work_bound s : inv s -> -3 <= work s.
Proof.
  intros Hinv. open_inv s Hinv. destruct Hi as [Hleft Hi], Hp as (P1 & P2 & P3), Hu as (U1 & U2 & U3), Ho as (O1 & O2 & O3 & O4).
  pose proof (ro_hist _ _ _ _ _ Hin) as Hh. rewrite length_take in Hh.
  pose proof (ro_pop _ _ _ _ _ Hin). pose proof (ro_tail_seen _ _ _ _ _ Hin). pose proof (ro_pop _ _ _ _ _ Hout). pose proof (ro_tail_seen _ _ _ _ _ Hout).
  unfold work, in_work, eng_work, out_work, left_of. state_cbn.
  assert (0 <= 3 * (Z.of_nat (length commands) - Z.of_nat (pushed inb)) +
    match ipc with InputPush => 1 | InputWrite _ _ => 0 | InputStore _ => -1 | InputDone => 0 end) as W1.
  { destruct ipc; try lia. destruct Hi as (_ & _ & c & Hc & _). apply lookup_lt_Some in Hc. lia. }
  assert (-2 <= 6 * (Z.of_nat (length commands) - Z.of_nat (popped inb)) + (if dr then 0 else 1) +
    match epc with
    | EnginePop | EngineCheck => 0 | EngineRead _ => -1 | EngineAdvance _ _ => -2
    | EnginePush _ => 3 | EngineWrite _ _ _ => 2 | EngineStore _ => 1 | EngineFinish => -1 | EngineDone => -2
    end) as W2 by (destruct epc, dr; lia).
  assert (-1 <= 3 * (Z.of_nat (length commands) - Z.of_nat (popped outb)) + (if odr then 0 else 1) +
    match opc with OutputPop | OutputCheck => 0 | OutputRead _ => -1 | OutputAdvance _ _ => -2 | OutputDone => -1 end) as W3.
  { destruct opc, odr; cbn [output_taken Nat.b2n] in *; lia. }
  lia.
Qed.

(** ** Fair rounds *)

(** Thread [t] is served: it takes two steps in a row with fresh loads, whatever
    the other threads do in between. *)
Definition serves (t : Thread) (round : list (Thread * nat)) : Prop :=
  exists a b c, round = a ++ (t, 0%nat) :: b ++ (t, 0%nat) :: c /\ Forall (fun x => x.1 <> t) b.

Definition fair_round (round : list (Thread * nat)) : Prop := forall t, serves t round.

Lemma run_app sched1 sched2 s : runI (sched1 ++ sched2) s = runI sched2 (runI sched1 s).
Proof. apply fold_left_app. Qed.
Lemma run_cons t lag sched s : runI ((t, lag) :: sched) s = runI sched (stepI t lag s).
Proof. done. Qed.

Lemma work_run sched s : inv s -> work (runI sched s) <= work s.
Proof.
  revert s. induction sched as [|[t lag] sched IH]; intros s Hinv; [cbn; lia|]. rewrite run_cons.
  pose proof (work_step t lag s Hinv). pose proof (step_inv InboundCapacity OutboundCapacity moved_command moved_processed risk on_processed
    perturbation commands sink0 t lag s Hinv) as Hinv'. specialize (IH _ Hinv'). lia.
Qed.

Lemma ready_run t sched s : inv s -> ready t s -> work (runI sched s) < work s \/ ready t (runI sched s).
Proof.
  revert s. induction sched as [|[t' lag] sched IH]; intros s Hinv Hr; [by right|]. rewrite run_cons.
  pose proof (step_inv InboundCapacity OutboundCapacity moved_command moved_processed risk on_processed
    perturbation commands sink0 t' lag s Hinv) as Hinv'. pose proof (work_step t' lag s Hinv) as Hw.
  pose proof (work_run sched _ Hinv') as Hw'. assert (work (stepI t' lag s) < work s \/ ready t (stepI t' lag s)) as [Hlt|Hr'].
  - destruct (decide_thread t t') as [<-|Hne]; [by apply ready_own|]. right. by apply ready_other.
  - left. lia.
  - destruct (IH _ Hinv' Hr') as [Hlt|?]; [left; lia|by right].
Qed.

Lemma primed_run t sched s :
  inv s -> Forall (fun x => x.1 <> t) sched -> primed t s -> primed t (runI sched s).
Proof.
  intros Hinv Hs. revert s Hinv. induction Hs as [|[t' lag] sched Hne Hs IH]; intros s Hinv Hp; [done|]. rewrite run_cons. apply IH.
  - by apply step_inv.
  - apply primed_other; [done| |done]. cbn in Hne. congruence.
Qed.

Lemma finished_stays t lag s : inv s -> finished s = true -> finished (stepI t lag s) = true.
Proof.
  unfold finished. intros Hinv Hf. destruct (in_pc (input s)) eqn:Ei; try done. destruct (eg_pc (engine s)) eqn:Ee; try done.
  destruct (out_pc (output s)) eqn:Eo; try done. rewrite (input_done_stays t lag s), (engine_done_stays t lag s) by done. destruct t; cbn [step].
  - destruct (input_step_effect lag s Hinv) as (_ & -> & _). by rewrite Eo.
  - destruct (engine_step_effect lag s Hinv) as (_ & -> & _). by rewrite Eo.
  - destruct (output_step_effect lag s Hinv) as (_ & _ & _ & _ & _ & [Hn _|Hp _ _ _ _|Hp _ _ _ _|_ ->]); [done|congruence|congruence|by rewrite Eo].
Qed.

Lemma finished_run sched s : inv s -> finished s = true -> finished (runI sched s) = true.
Proof.
  revert s. induction sched as [|[t lag] sched IH]; intros s Hinv Hf; [done|]. rewrite run_cons. apply IH; [by apply step_inv|by apply finished_stays].
Qed.

(** A fair round of an unfinished pipeline makes progress. *)
Lemma fair_round_progress round s : inv s -> finished s = false -> fair_round round -> work (runI round s) < work s.
Proof.
  intros Hinv Hf Hfair. destruct (some_ready s Hinv Hf) as [t Hr]. destruct (Hfair t) as (a & b & c & -> & Hb).
  rewrite run_app, run_cons, run_app, run_cons.
  pose proof (run_inv InboundCapacity OutboundCapacity moved_command moved_processed risk on_processed perturbation commands sink0) as Hrun.
  pose proof (step_inv InboundCapacity OutboundCapacity moved_command moved_processed risk on_processed perturbation commands sink0) as Hst.
  set (s1 := runI a s). assert (inv s1) as I1 by (by apply Hrun). set (s2 := stepI t 0 s1). assert (inv s2) as I2 by (by apply Hst).
  set (s3 := runI b s2). assert (inv s3) as I3 by (by apply Hrun). set (s4 := stepI t 0 s3). assert (inv s4) as I4 by (by apply Hst).
  pose proof (work_run c s4 I4) as W4. assert (work s4 <= work s3) as W3 by (by apply work_step).
  assert (work s3 <= work s2) as W2 by (by apply work_run). assert (work s2 <= work s1) as W1 by (by apply work_step).
  assert (work s1 <= work s) as W0 by (by apply work_run).
  destruct (ready_run t a s Hinv Hr : work s1 < work s \/ ready t s1) as [Hlt|Hr1]; [lia|].
  destruct (ready_fresh t s1 I1 Hr1 : work s2 < work s1 \/ primed t s2) as [Hlt|Hp2]; [lia|].
  pose proof (primed_run t b s2 I2 Hb Hp2 : primed t s3) as Hp3.
  assert (work s4 < work s3) as W by (by apply primed_fresh). lia.
Qed.

(** Enough fair rounds finish the run. *)
Lemma fair_rounds_finish rounds : forall s,
  inv s -> Forall fair_round rounds -> work s + 3 < Z.of_nat (length rounds) -> finished (runI (concat rounds) s) = true.
Proof.
  induction rounds as [|round rounds IH]; intros s Hinv Hfair Hlen.
  { pose proof (work_bound s Hinv). cbn [length] in Hlen. lia. }
  apply Forall_cons in Hfair as [Hr Hfair]. cbn [concat]. rewrite run_app.
  assert (inv (runI round s)) as Hinv' by (by apply run_inv).
  destruct (finished s) eqn:Ef; [by apply finished_run; [|apply finished_run]|].
  pose proof (fair_round_progress round s Hinv Ef Hr). apply IH; [done|done|]. cbn [length] in Hlen. lia.
Qed.
End Live.
