(* ===== verification/EngineTheorems.v ===== *)
(** * EngineTheorems: the engine, the gateway, recovery and the feed

    The properties of [MatchingEngine], [OrderGateway], [replay] and the
    market-data publisher, over the baseline storage or over any storage. *)
From S2P Require Import Prelude Core Book BookSpec OrderBook Endian Command EventLog LogFile Engine EngineSpec Gateway Recovery Protocol Feed.

(** ** Concrete inputs *)

Definition sample_commands : list Command :=
  [RegisterSymbol "ABC"; RegisterSymbol "XYZ"; NewLimit 0 1 Buy 100 10 GTC; NewLimit 0 2 Sell 100 4 GTC;
   NewLimit 1 3 Sell 50 5 GTC; NewMarket 1 4 Buy 2; Modify 1 3 51 9; Cancel 0 1; Cancel 0 77].
Definition sample_engine : MatchingEngine OrderBook := (apply_all (new_engine Baseline) sample_commands).2.
Definition sample_config : RiskConfig := mkRiskConfig 1000 1000000.

Lemma sample_commands_ok : Forall command_ok sample_commands.
Proof. repeat constructor; done. Qed.
Lemma sample_commands_loggable : Forall loggable sample_commands.
Proof. repeat constructor; done. Qed.

Lemma baseline_unbounded : unbounded OrderBook.
Proof. done. Qed.
Lemma sample_engine_wf : engine_wf sample_engine.
Proof. apply (apply_all_refines (H0 := baseline_laws)); [done|apply new_engine_wf|apply sample_commands_ok]. Qed.

(** ** The engine *)

(** C5: Running any command stream on the engine, from an empty engine, emits
    the events and leaves the snapshot of the abstract engine: one abstract
    price-time-priority book per registered symbol. *)
Theorem engine_refines_spec (cmds : list Command) :
  Forall command_ok cmds ->
  let r := apply_all (new_engine (B := OrderBook) Baseline) cmds in
  let a := a_apply_all a_engine_empty (map (pair true) cmds) in
  engine_wf r.2 /\ r.1 = a.1 /\ snapshot r.2 = a_snapshot a.2.
Proof.
  intros Hok r a.
  destruct (apply_all_refines (H0 := baseline_laws) cmds (new_engine Baseline) baseline_unbounded
              (new_engine_wf _) Hok) as [Hwf He].
  change (e_abs (new_engine Baseline)) with a_engine_empty in He. fold a in He. fold r in Hwf, He.
  rewrite He. split_and!; [done..|]. by apply snapshot_spec.
Qed.

Lemma engine_refines_spec_witness :
  let r := apply_all (new_engine (B := OrderBook) Baseline) sample_commands in
  let a := a_apply_all a_engine_empty (map (pair true) sample_commands) in
  engine_wf r.2 /\ r.1 = a.1 /\ snapshot r.2 = a_snapshot a.2.
Proof. apply (engine_refines_spec sample_commands). apply sample_commands_ok. Defined.

(** Whatever the storage and the commands, the events of a whole run carry
    the sequence numbers 1, 2, 3, ... without gaps, and [last_seq] is the last
    number used, as long as fewer than 2^64 events were emitted. *)
Theorem events_numbered {B : Type} `{BookStore B} storage (cmds : list Command) :
  let r := apply_all (new_engine (B := B) storage) cmds in
  Z.of_nat (length r.1) < 2 ^ 64 ->
  map seq_of r.1 = seqZ 1 (Z.of_nat (length r.1)) /\ last_seq r.2 = Z.of_nat (length r.1).
Proof.
  intros r Hlen. destruct (apply_all_continues cmds (new_engine (B := B) storage)) as (evs & Hn & Hp & Hs).
  { by unfold in_u64. }
  fold r in Hp, Hs. rewrite Hp in *. rewrite length_number in *. cbn [seq_ new_engine] in *.
  split; [by apply number_seqs|]. unfold last_seq. rewrite Hs, Z.add_0_l. apply u64_small. lia.
Qed.

Lemma events_numbered_witness :
  let r := apply_all (new_engine (B := OrderBook) Baseline) sample_commands in
  map seq_of r.1 = seqZ 1 (Z.of_nat (length r.1)) /\ last_seq r.2 = Z.of_nat (length r.1).
Proof. apply (events_numbered Baseline sample_commands). vm_compute. reflexivity. Defined.

(** ** Symbols *)

Definition command_symbol (c : Command) : option SymbolId :=
  match c with
  | RegisterSymbol _ => None
  | NewLimit symbol _ _ _ _ _ | NewMarket symbol _ _ _ | Cancel symbol _ | Modify symbol _ _ _ => Some symbol
  end.

Section Symbols.
Context {B : Type} `{BookStore B}.
Implicit Types e : MatchingEngine B.

Lemma emit_trades_books symbol ts : forall e, books_ (emit_trades symbol ts e) = books_ e.
Proof. induction ts as [|t ts IH]; intros e; [done|]. cbn [emit_trades fold_left]. unfold emit_trades in IH. by rewrite IH. Qed.

Lemma symbol_before_irrefl a : symbol_before a a = false.
Proof. apply Z.ltb_irrefl. Qed.
Lemma symbol_before_trans a b c : symbol_before a b = true -> symbol_before b c = true -> symbol_before a c = true.
Proof. unfold symbol_before. lia. Qed.

Lemma put_book_other symbol book e s :
  symbol <> s -> om_find s (books_ (put_book symbol book e)) = om_find s (books_ e).
Proof. intros Hne. cbn. by rewrite om_find_alter_ne. Qed.

(** Commands on one symbol never touch another symbol's book, and
    registering a symbol never touches an existing book. *)
Theorem symbols_isolated e c s b :
  om_sorted symbol_before (books_ e) -> om_find s (books_ e) = Some b -> command_symbol c <> Some s ->
  om_find s (books_ (apply e c).2) = Some b.
Proof.
  intros Hs Hf Hc. destruct c as [name|symbol id side price q tif|symbol id side q|symbol id|symbol id price q];
    cbn [apply snd command_symbol] in *; try (assert (symbol <> s) by congruence).
  - unfold register_symbol. destruct (intern _ _) as [i r]. cbn [snd books_].
    rewrite om_find_try_emplace by (done || apply symbol_before_irrefl || apply symbol_before_trans).
    destruct (Z.eqb_spec s i) as [->|]; [by rewrite Hf|done].
  - unfold new_limit. destruct (find_book _ _); [|done]. case_if; [done|]. case_if; [done|].
    destruct (bs_add_limit _ _ _ _ _ _). by rewrite emit_trades_books, put_book_other.
  - unfold new_market. destruct (find_book _ _); [|done]. case_if; [done|].
    destruct (bs_add_market _ _ _ _). by rewrite emit_trades_books, put_book_other.
  - unfold cancel. destruct (find_book _ _); [|done]. destruct (bs_cancel _ _) as [[] b1]; cbn; by rewrite om_find_alter_ne.
  - unfold modify. destruct (find_book _ _); [|done]. case_if; [done|]. case_if; [done|].
    destruct (bs_modify _ _ _ _). by rewrite emit_trades_books, put_book_other.
Qed.

(** Register the names in order, collecting the ids. *)
Fixpoint register_all e (names : list string) : list SymbolId * MatchingEngine B :=
  match names with
  | [] => ([], e)
  | name :: names' =>
      let '(id, e1) := register_symbol e name in
      let '(ids, e2) := register_all e1 names' in (id :: ids, e2)
  end.

(** The registry holds exactly [names], numbered in order, each with a book. *)
Record registered e (names : list string) : Prop := {
  rg_next : next_ (registry_ e) = Z.of_nat (length names);
  rg_ids : forall name, name ∈ names <-> is_Some (ids_ (registry_ e) !! name);
  rg_index : forall i name, names !! i = Some name -> ids_ (registry_ e) !! name = Some (Z.of_nat i);
  rg_sorted : om_sorted symbol_before (books_ e);
  rg_books : forall i, (i < length names)%nat -> is_Some (om_find (Z.of_nat i) (books_ e))
}.

Lemma register_symbol_next e names name :
  registered e names -> name ∉ names -> Z.of_nat (length names) + 1 < 2 ^ 32 ->
  (register_symbol e name).1 = Z.of_nat (length names) /\
  registered (register_symbol e name).2 (names ++ [name]).
Proof.
  intros [Hn Hi Hx Hs Hb] Hnew Hlen. unfold register_symbol, intern.
  destruct (ids_ (registry_ e) !! name) as [i|] eqn:E; [destruct Hnew; apply Hi; by rewrite E|]. cbn [fst snd].
  split; [done|]. split; cbn [registry_ next_ ids_ books_].
  - rewrite Hn, length_app. unfold u32, wrap. rewrite Z.mod_small; simpl; lia.
  - intros nm. rewrite elem_of_app, list_elem_of_singleton, Hi, lookup_insert_is_Some. naive_solver.
  - intros i nm [Hl|[Hge Hl]]%lookup_app_Some.
    + rewrite lookup_insert_ne; [by apply Hx|]. intros <-. apply Hnew. by eapply list_elem_of_lookup_2.
    + destruct (i - length names)%nat as [|k] eqn:Ei; [|done]. injection Hl as ->. rewrite lookup_insert_eq, Hn. f_equal. lia.
  - apply om_try_emplace_sorted; [apply symbol_before_trans| |done]. unfold symbol_before. lia.
  - intros i Hi'. rewrite length_app in Hi'. cbn [length] in Hi'.
    rewrite om_find_try_emplace by (done || apply symbol_before_irrefl || apply symbol_before_trans).
    destruct (Z.eqb_spec (Z.of_nat i) (next_ (registry_ e))) as [|Hne]; [done|]. apply Hb. lia.
Qed.
End Symbols.

Lemma symbols_isolated_witness :
  om_find 1 (books_ (apply sample_engine (NewLimit 0 9 Buy 7 7 GTC)).2) = om_find 1 (books_ sample_engine).
Proof.
  destruct (om_find 1 (books_ sample_engine)) as [b|] eqn:E; [|vm_compute in E; discriminate E].
  apply (symbols_isolated sample_engine (NewLimit 0 9 Buy 7 7 GTC) 1 b); [apply sample_engine_wf|exact E|discriminate].
Defined.

Section Registration.
Context {B : Type} `{BookStore B}.

Lemma register_all_dense names : forall (e : MatchingEngine B) before,
  registered e before -> NoDup (before ++ names) -> Z.of_nat (length (before ++ names)) < 2 ^ 32 ->
  let r := register_all e names in
  r.1 = seqZ (Z.of_nat (length before)) (Z.of_nat (length names)) /\ registered r.2 (before ++ names).
Proof.
  induction names as [|name names IH]; intros e before Hr Hnd Hlen.
  { rewrite app_nil_r. cbn. by rewrite seqZ_nil. }
  cbn [register_all]. rewrite length_app in Hlen. cbn [length] in Hlen.
  pose proof Hnd as (_ & Hd & _)%NoDup_app.
  destruct (register_symbol_next e before name Hr) as [Hid Hr1]; [intros Hin; by apply (Hd _ Hin), list_elem_of_here|lia|].
  destruct (register_symbol e name) as [id e1]. cbn [fst snd] in *.
  replace (before ++ name :: names) with ((before ++ [name]) ++ names) in * by (by rewrite <- app_assoc).
  destruct (IH e1 (before ++ [name]) Hr1 Hnd) as [Hids Hr2]; [rewrite !length_app; cbn [length]; lia|].
  destruct (register_all e1 names) as [ids e2]. cbn [fst snd] in *. split; [|done].
  rewrite Hid, Hids, (seqZ_cons _ (Z.of_nat (length (name :: names)))) by (cbn [length]; lia).
  rewrite length_app. cbn [length]. do 2 f_equal; lia.
Qed.

Lemma new_engine_registered storage : registered (new_engine (B := B) storage) [].
Proof.
  split; cbn; try done.
  - intros name. rewrite lookup_empty. split; [by intros ?%elem_of_nil|by intros [? ?]].
  - constructor.
  - intros i Hi. lia.
Qed.

(** Symbols get dense numeric ids in registration order: registering
    distinct names on a fresh engine returns 0, 1, 2, ..., each id has a book,
    looking a name up returns its id, and registering a name again returns the
    same id. *)
Theorem registration_dense storage (names : list string) :
  NoDup names -> Z.of_nat (length names) < 2 ^ 32 ->
  let r := register_all (new_engine (B := B) storage) names in
  r.1 = seqZ 0 (Z.of_nat (length names)) /\
  (forall i name, names !! i = Some name ->
     symbol_id r.2 name = Some (Z.of_nat i) /\ has_symbol r.2 (Z.of_nat i) = true /\
     (register_symbol r.2 name).1 = Z.of_nat i).
Proof.
  intros Hnd Hlen r. destruct (register_all_dense names (new_engine storage) [] (new_engine_registered storage) Hnd Hlen) as [Hids Hr].
  fold r in Hids, Hr. split; [done|]. intros i name Hi. destruct Hr as [_ _ Hx _ Hb]. cbn [app] in *.
  specialize (Hx i name Hi). split_and!; [done| |].
  - unfold has_symbol. apply bool_decide_eq_true, Hb. by eapply lookup_lt_Some.
  - unfold register_symbol, intern. by rewrite Hx.
Qed.
End Registration.

Lemma registration_dense_witness :
  let r := register_all (new_engine (B := OrderBook) Baseline) ["ABC"; "XYZ"]%string in
  r.1 = seqZ 0 2 /\
  (forall i name, ["ABC"; "XYZ"]%string !! i = Some name ->
     symbol_id r.2 name = Some (Z.of_nat i) /\ has_symbol r.2 (Z.of_nat i) = true /\
     (register_symbol r.2 name).1 = Z.of_nat i).
Proof.
  apply (registration_dense Baseline ["ABC"; "XYZ"]%string); [|done].
  apply (bool_decide_unpack _). vm_compute. exact I.
Defined.

(** ** The gateway *)

(** C27: The gateway either rejects a command with a reason, emitting nothing and
    leaving the engine untouched, or hands it to the engine unchanged, and then
    the first event acknowledges that command and every other event is one of
    its trades. *)
Theorem gateway_sound {B : Type} `{BookStoreLaws B} config (e : MatchingEngine B) c :
  engine_wf e -> engine_room e -> command_ok c ->
  let r := apply_command config e c in
  rejected_unchanged e r.1 r.2 \/ accepted_applied e c r.1 r.2.
Proof. apply apply_command_spec. Qed.

Lemma gateway_sound_witness :
  let c := NewLimit 1 9 Buy 60 3 GTC in
  let r := apply_command sample_config sample_engine c in
  rejected_unchanged sample_engine r.1 r.2 \/ accepted_applied sample_engine c r.1 r.2.
Proof.
  apply (gateway_sound (H0 := baseline_laws) sample_config sample_engine (NewLimit 1 9 Buy 60 3 GTC));
    [apply sample_engine_wf|by apply Forall_true|done].
Defined.

(** The preview of a new order is exact: it accepts exactly the orders the
    gateway then accepts, and its fill count is the number of trades the engine
    then reports, for limit and for market orders. *)
Theorem preview_exact {B : Type} `{BookStoreLaws B} config (e : MatchingEngine B) symbol id side price q tif :
  engine_wf e -> engine_room e -> in_u32 q ->
  let lp := preview_new_order config e symbol id side price q Limit tif in
  let lr := (gw_new_limit config e symbol id side price q tif).1 in
  let mp := preview_new_order config e symbol id side price q Market tif in
  let mr := (gw_new_market config e symbol id side q).1 in
  p_accepted lp = g_accepted lr /\ p_accepted mp = g_accepted mr /\
  (g_accepted lr = true -> Z.of_nat (length (g_events lr)) = 1 + p_fill_count lp) /\
  (g_accepted mr = true -> Z.of_nat (length (g_events mr)) = 1 + p_fill_count mp).
Proof.
  intros Hwf Hroom Hq. destruct (preview_limit config e symbol id side price q tif Hwf Hroom Hq).
  destruct (preview_market config e symbol id side price q tif Hwf Hroom Hq). by split_and!.
Qed.

Lemma preview_exact_witness :
  let lp := preview_new_order sample_config sample_engine 1 9 Buy 60 3 Limit GTC in
  let lr := (gw_new_limit sample_config sample_engine 1 9 Buy 60 3 GTC).1 in
  let mp := preview_new_order sample_config sample_engine 1 9 Buy 60 3 Market GTC in
  let mr := (gw_new_market sample_config sample_engine 1 9 Buy 3).1 in
  p_accepted lp = g_accepted lr /\ p_accepted mp = g_accepted mr /\
  (g_accepted lr = true -> Z.of_nat (length (g_events lr)) = 1 + p_fill_count lp) /\
  (g_accepted mr = true -> Z.of_nat (length (g_events mr)) = 1 + p_fill_count mp).
Proof.
  apply (preview_exact (H0 := baseline_laws) sample_config sample_engine 1 9 Buy 60 3 GTC);
    [apply sample_engine_wf|by apply Forall_true|done].
Defined.

(** The risk checks decide the limits over unbounded integers: for every
    64-bit price and 32-bit quantity the verdict is the first failing check of
    side, price, quantity, maximum quantity and price times quantity, and no
    intermediate computation wraps around. *)
Theorem risk_limits_exact config side price quantity :
  in_i64 price -> in_u32 quantity -> in_u64 (max_notional config) ->
  check_limit config side price quantity = limit_verdict config side price quantity.
Proof. apply check_limit_verdict. Qed.

Lemma risk_limits_exact_witness :
  check_limit (mkRiskConfig 4294967295 (2 ^ 64 - 1)) Buy (2 ^ 63 - 1) 3 =
    limit_verdict (mkRiskConfig 4294967295 (2 ^ 64 - 1)) Buy (2 ^ 63 - 1) 3.
Proof. apply (risk_limits_exact (mkRiskConfig 4294967295 (2 ^ 64 - 1)) Buy (2 ^ 63 - 1) 3); done. Defined.

(** ** Recovery *)

Lemma accepted_ok {A} (P : A -> Prop) (l l' : list A) : sublist l l' -> Forall P l' -> Forall P l.
Proof. intros Hs Hf. rewrite Forall_forall in *. intros x Hx. apply Hf. by eapply elem_of_sublist. Qed.

(** C4: Recovery reproduces the live engine.  Commands are sent through the
    gateway; the accepted ones are written to a log file; reading the file back
    and replaying it on a fresh engine yields the same event stream and the same
    engine, to the last field. *)
Theorem replay_reproduces config (cmds : list Command) :
  Forall loggable cmds -> Z.of_nat (length cmds) < 2 ^ 64 ->
  let e0 := new_engine (B := OrderBook) Baseline in
  let '(accepted, events, e) := gateway_run config e0 cmds in
  let file := log_bytes (log_commands 1 accepted) in
  let recovery := recover_log_file (Some (mkStream file None false)) in
  rec_error recovery = LogNone /\ rec_tail recovery = CleanTail /\
  replay e0 (rec_records recovery) = (events, e).
Proof.
  intros Hl Hn e0. assert (Forall command_ok cmds) as Hok by (eapply Forall_impl; [exact Hl|]; by intros c []).
  pose proof (gateway_run_replays (HL := baseline_laws) config cmds e0 ltac:(done) (new_engine_wf _) Hok) as Hr.
  destruct (gateway_run config e0 cmds) as [[accepted events] e]. destruct Hr as [Hr Hsub].
  assert (Forall record_ok (log_commands 1 accepted)) as Hrec.
  { apply sublist_length in Hsub as Hlen. apply log_commands_ok; [by eapply accepted_ok|lia|lia]. }
  cbn zeta. rewrite recover_log_file_ok, recover_log_frames by done. cbn [rec_error rec_tail rec_records].
  split_and!; [done..|]. rewrite replay_spec, commands_of_log; [done|]. by eapply accepted_ok.
Qed.

Lemma replay_reproduces_witness :
  let e0 := new_engine (B := OrderBook) Baseline in
  let '(accepted, events, e) := gateway_run sample_config e0 sample_commands in
  let file := log_bytes (log_commands 1 accepted) in
  let recovery := recover_log_file (Some (mkStream file None false)) in
  rec_error recovery = LogNone /\ rec_tail recovery = CleanTail /\
  replay e0 (rec_records recovery) = (events, e).
Proof. apply (replay_reproduces sample_config sample_commands); [apply sample_commands_loggable|done]. Defined.

(** Replay is prefix-compatible: replaying a log in two parts, records read
    first and records read later, is replaying it at once.  Records that are not
    commands or do not decode are skipped wherever they stand. *)
Theorem replay_incremental {B : Type} `{BookStore B} (e : MatchingEngine B) (first later : list LogRecord) :
  replay e (first ++ later) =
    let '(events1, e1) := replay e first in
    let '(events2, e2) := replay e1 later in (events1 ++ events2, e2).
Proof.
  rewrite !replay_spec. unfold commands_of. rewrite omap_app. fold (commands_of first). fold (commands_of later).
  revert e. induction (commands_of first) as [|c cmds IH]; intros e; cbn [app apply_all].
  - rewrite replay_spec. by destruct (apply_all e (commands_of later)).
  - destruct (apply e c) as [produced e1]. rewrite IH. destruct (apply_all e1 cmds) as [events1 e2].
    destruct (replay e2 later) as [events2 e3]. by rewrite app_assoc.
Qed.

(** ** The feed *)

(** C28: A subscriber that keeps the last top of book it saw per symbol always
    agrees with the engine: after any command stream its view of every symbol is
    the engine's best bid and ask, it has seen every trade in order, and the
    messages are numbered 1, 2, 3, ... *)
Theorem feed_mirrors_engine (cmds : list Command) :
  Forall command_ok cmds ->
  let '(events, e, p) := feed_run (new_engine (B := OrderBook) Baseline) (subscribe new_publisher []) cmds in
  2 * Z.of_nat (length events) < 2 ^ 64 ->
  exists log, subscribers_ p = [log] /\
    (forall symbol, tob_view log symbol = mkTob (best_bid e symbol) (best_ask e symbol)) /\
    trades_of_log log = trades_of_events events /\
    map md_seq_of log = seqZ 1 (Z.of_nat (length log)).
Proof.
  intros Hok.
  pose proof (feed_run_ok (HL := baseline_laws) cmds (new_engine Baseline) (subscribe new_publisher []) []
                ltac:(done) (new_engine_wf _) Hok new_publisher_ok) as Hr.
  destruct (feed_run _ _ _) as [[events e] p]. intros Hlen.
  destruct Hr as (log & Hp & _ & Ht & Hv); [done|cbn; lia|].
  exists log. destruct Hp as [Hs _ _ Hn]. by split_and!.
Qed.

Lemma feed_mirrors_engine_witness :
  let '(events, e, p) := feed_run (new_engine (B := OrderBook) Baseline) (subscribe new_publisher []) sample_commands in
  exists log, subscribers_ p = [log] /\
    (forall symbol, tob_view log symbol = mkTob (best_bid e symbol) (best_ask e symbol)) /\
    trades_of_log log = trades_of_events events /\
    map md_seq_of log = seqZ 1 (Z.of_nat (length log)).
Proof.
  pose proof (feed_mirrors_engine sample_commands sample_commands_ok) as H.
  destruct (feed_run _ _ _) as [[events e] p] eqn:E. apply H.
  replace events with (feed_run (new_engine (B := OrderBook) Baseline) (subscribe new_publisher []) sample_commands).1.1
    by (by rewrite E). vm_compute. reflexivity.
Defined.
