(* ===== verification/LogTheorems.v ===== *)
(** * LogTheorems: wire formats and the event log

    Round trips of the codecs, and what the append-only log guarantees across
    crashes, truncation and corruption. *)
From S2P Require Import Prelude Core Endian Command Protocol EventLog LogFile Book Engine Feed.

(** ** Wire formats *)

(** Order-entry frames round trip and are canonical: decoding an encoded
    NewOrder, with any bytes behind it, returns the message; and every frame the
    decoder accepts is, byte for byte, the encoding of the message it returned. *)
Theorem new_order_codec (m : NewOrder) (seq : SeqNo) (rest frame : bytes) :
  new_order_ok m -> in_u64 seq -> bytes_ok frame ->
  decode_new_order (encode_new_order m seq ++ rest) = mkDecodeResult DecodeNone m /\
  (forall m', decode_new_order frame = mkDecodeResult DecodeNone m' ->
     encode_new_order m' (load_be 8 frame 8) = take (kHeaderSize + kNewOrderBodySize) frame).
Proof.
  intros Hok Hseq Hf. split; [by apply decode_encode_new_order|]. intros m'. by apply encode_decode_new_order.
Qed.

Definition sample_order : NewOrder := mkNewOrder 42 7 (-5) 100 Sell Limit IOC.

Lemma new_order_codec_witness :
  let frame := encode_new_order sample_order 3 in
  decode_new_order (frame ++ [1; 2]) = mkDecodeResult DecodeNone sample_order /\
  (forall m', decode_new_order frame = mkDecodeResult DecodeNone m' ->
     encode_new_order m' (load_be 8 frame 8) = take (kHeaderSize + kNewOrderBodySize) frame).
Proof.
  apply (new_order_codec sample_order 3 [1; 2] (encode_new_order sample_order 3)); [|done|].
  - unfold new_order_ok, in_u64, in_u32, in_i64, sample_order; cbn; split_and!; done || lia.
  - apply (bool_decide_unpack _). vm_compute. exact I.
Defined.

(** Cancel frames round trip and are canonical. *)
Theorem cancel_order_codec (m : CancelOrder) (seq : SeqNo) (rest frame : bytes) :
  cancel_order_ok m -> in_u64 seq -> bytes_ok frame ->
  decode_cancel_order (encode_cancel_order m seq ++ rest) = mkDecodeResult DecodeNone m /\
  (forall m', decode_cancel_order frame = mkDecodeResult DecodeNone m' ->
     encode_cancel_order m' (load_be 8 frame 8) = take (kHeaderSize + kCancelOrderBodySize) frame).
Proof.
  intros Hok Hseq Hf. split; [by apply decode_encode_cancel_order|]. intros m'. by apply encode_decode_cancel_order.
Qed.

Lemma cancel_order_codec_witness :
  let m := mkCancelOrder 42 7 in
  let frame := encode_cancel_order m 3 in
  decode_cancel_order (frame ++ [9]) = mkDecodeResult DecodeNone m /\
  (forall m', decode_cancel_order frame = mkDecodeResult DecodeNone m' ->
     encode_cancel_order m' (load_be 8 frame 8) = take (kHeaderSize + kCancelOrderBodySize) frame).
Proof.
  apply (cancel_order_codec (mkCancelOrder 42 7) 3 [9] (encode_cancel_order (mkCancelOrder 42 7) 3)); [|done|].
  - unfold cancel_order_ok, in_u64, in_u32; cbn; split_and!; done || lia.
  - apply (bool_decide_unpack _). vm_compute. exact I.
Defined.

(** The gateway's responses round trip: heartbeats and their echoes, acks,
    rejects with every reason, and fills with every signed price. *)
Theorem response_codec (h : Heartbeat) (ha : HeartbeatAck) (a : Ack) (r : Reject) (f : Fill) (rest : bytes) :
  in_u64 (hb_token h) -> in_u64 (hba_token ha) -> ack_ok a -> reject_ok r -> fill_ok f ->
  decode_heartbeat (encode_heartbeat h ++ rest) = mkDecodeResult DecodeNone h /\
  decode_heartbeat_ack (encode_heartbeat_ack ha ++ rest) = mkDecodeResult DecodeNone ha /\
  decode_ack (encode_ack a ++ rest) = mkDecodeResult DecodeNone a /\
  decode_reject (encode_reject r ++ rest) = mkDecodeResult DecodeNone r /\
  decode_fill (encode_fill f ++ rest) = mkDecodeResult DecodeNone f.
Proof.
  intros. split_and!; [by apply decode_encode_heartbeat|by apply decode_encode_heartbeat_ack|
    by apply decode_encode_ack|by apply decode_encode_reject|by apply decode_encode_fill].
Qed.

Lemma response_codec_witness :
  decode_heartbeat (encode_heartbeat (mkHeartbeat 5) ++ []) = mkDecodeResult DecodeNone (mkHeartbeat 5) /\
  decode_heartbeat_ack (encode_heartbeat_ack (mkHeartbeatAck 5) ++ []) = mkDecodeResult DecodeNone (mkHeartbeatAck 5) /\
  decode_ack (encode_ack (mkAck 1 2) ++ []) = mkDecodeResult DecodeNone (mkAck 1 2) /\
  decode_reject (encode_reject (mkReject 1 InvalidPrice) ++ []) = mkDecodeResult DecodeNone (mkReject 1 InvalidPrice) /\
  decode_fill (encode_fill (mkFill 1 2 (-3) 4 5) ++ []) = mkDecodeResult DecodeNone (mkFill 1 2 (-3) 4 5).
Proof.
  apply (response_codec (mkHeartbeat 5) (mkHeartbeatAck 5) (mkAck 1 2) (mkReject 1 InvalidPrice) (mkFill 1 2 (-3) 4 5) []);
    unfold ack_ok, reject_ok, fill_ok, in_u64, in_u32, in_i64; cbn; split_and!; done || lia.
Defined.

(** Logged commands round trip, and whatever the bytes of a payload, a
    command that decodes has fields in the ranges of their types and enumerators
    for its side and time in force. *)
Theorem command_codec (c : Command) (payload : bytes) :
  command_ok c ->
  decode_command (encode_command c) = Some c /\
  (forall c', decode_command payload = Some c' -> command_ok c').
Proof. intros Hok. split; [by apply decode_encode_command|]. intros c'. apply decode_command_ok. Qed.

Lemma command_codec_witness :
  let c := NewLimit 1 2 Sell (-3) 4 IOC in
  decode_command (encode_command c) = Some c /\
  (forall c', decode_command (encode_command c) = Some c' -> command_ok c').
Proof.
  apply (command_codec (NewLimit 1 2 Sell (-3) 4 IOC)). unfold command_ok, in_u64, in_u32, in_i64; cbn; split_and!; done || lia.
Defined.

(** Market data over a lossy, duplicating and reordering datagram link: a
    client that receives any of the published messages decodes every one of
    them, and its gap counter is exactly the number of sequence numbers between
    the first and the highest one received that did not advance it. *)
Theorem udp_loss_accounting (u : UdpFeedClient) (msg : MarketDataMessage) (msgs : list MarketDataMessage) :
  0 <= uc_fd u -> uc_tracker u = new_tracker -> uc_total_gaps u = 0 -> Forall md_ok (msg :: msgs) ->
  let r := udp_receive_all u (map encode_md (msg :: msgs)) in
  let seqs := map md_seq_of msgs in
  r.1 = map Some (msg :: msgs) /\
  uc_total_gaps r.2 = foldl Z.max (md_seq_of msg) seqs - md_seq_of msg - advances (md_seq_of msg) seqs.
Proof. apply udp_loss_total. Qed.

Lemma udp_loss_accounting_witness :
  let u := new_udp_feed_client 3 true None None in
  let msg := MdTrade 1 7 100 5 in
  let msgs := [MdTopOfBook 4 7 (Some 99) None; MdTrade 3 7 100 1; MdTrade 9 7 (-2) 1] in
  let r := udp_receive_all u (map encode_md (msg :: msgs)) in
  let seqs := map md_seq_of msgs in
  r.1 = map Some (msg :: msgs) /\
  uc_total_gaps r.2 = foldl Z.max (md_seq_of msg) seqs - md_seq_of msg - advances (md_seq_of msg) seqs.
Proof.
  apply (udp_loss_accounting (new_udp_feed_client 3 true None None) (MdTrade 1 7 100 5)
           [MdTopOfBook 4 7 (Some 99) None; MdTrade 3 7 100 1; MdTrade 9 7 (-2) 1]); [done|done|done|].
  repeat (apply Forall_cons_2; [unfold md_ok, in_u64, in_u32, in_i64; split_and!; try lia; by intros p [= <-]|]).
  apply Forall_nil_2.
Defined.

(** ** The event log *)

Definition sample_records : list LogRecord :=
  [mkLogRecord 1 CommandRecord 1 [0; 65]; mkLogRecord 2 EventRecord 2 [];
   mkLogRecord 3 CommandRecord 3 [3; 0; 0; 0; 1; 0; 0; 0; 0; 0; 0; 0; 9]].

Lemma sample_records_ok : Forall record_ok sample_records.
Proof. repeat (apply Forall_cons_2; [by split_and!|]). apply Forall_nil_2. Qed.

(** A log reads back: appending each record's encoding and reading the file
    returns the records, in order, with a clean end. *)
Theorem log_round_trip (rs : list LogRecord) :
  Forall record_ok rs ->
  foldr (fun r next (out : bytes) => encode_record r out ≫= next) Some rs [] = Some (log_bytes rs) /\
  read_all (Some (mkStream (log_bytes rs) None false)) = mkLogReadResult rs LogNone.
Proof.
  intros Hok. split; [|by rewrite read_all_ok, read_log_frames].
  assert (forall out, foldr (fun r next (out : bytes) => encode_record r out ≫= next) Some rs out =
    Some (out ++ log_bytes rs)) as Hf; [|by rewrite Hf].
  induction Hok as [|r rs Hr Hrs IH]; intros out; cbn [foldr]; [by rewrite app_nil_r|].
  rewrite encode_record_frame by apply Hr. cbn. rewrite IH, <- app_assoc. done.
Qed.

Lemma log_round_trip_witness :
  foldr (fun r next (out : bytes) => encode_record r out ≫= next) Some sample_records [] = Some (log_bytes sample_records) /\
  read_all (Some (mkStream (log_bytes sample_records) None false)) = mkLogReadResult sample_records LogNone.
Proof. apply (log_round_trip sample_records). apply sample_records_ok. Defined.

(** C30: A log cut at any byte recovers exactly the records that lie wholly
    before the cut.  The tail is clean on a record boundary, torn when the cut
    falls inside the next record's header, and corrupt (never repaired
    automatically) once that header is complete. *)
Theorem log_cut_recovers (rs : list LogRecord) (k : nat) :
  Forall record_ok rs -> (k <= length (log_bytes rs))%nat ->
  exists rs1 rs2, rs = rs1 ++ rs2 /\
    (length (log_bytes rs1) <= k)%nat /\
    (forall r rs', rs2 = r :: rs' -> (k < length (log_bytes (rs1 ++ [r])))%nat) /\
    let rec := recover_log (take k (log_bytes rs)) in
    rec_error rec = LogNone /\ rec_records rec = rs1 /\ rec_valid_bytes rec = length (log_bytes rs1) /\
    rec_tail rec = cut_tail (k - length (log_bytes rs1)).
Proof. apply recover_cut. Qed.

Lemma log_cut_recovers_witness :
  exists rs1 rs2, sample_records = rs1 ++ rs2 /\
    (length (log_bytes rs1) <= 30)%nat /\
    (forall r rs', rs2 = r :: rs' -> (30 < length (log_bytes (rs1 ++ [r])))%nat) /\
    let rec := recover_log (take 30 (log_bytes sample_records)) in
    rec_error rec = LogNone /\ rec_records rec = rs1 /\ rec_valid_bytes rec = length (log_bytes rs1) /\
    rec_tail rec = cut_tail (30 - length (log_bytes rs1)).
Proof.
  apply (log_cut_recovers sample_records 30); [apply sample_records_ok|].
  apply (bool_decide_unpack _). vm_compute. exact I.
Defined.

(** What may be on disk when an append was interrupted. *)
Lemma survives_append r io w w' d L contents :
  record_ok r -> w_file w = Some d -> dk_stable d = L -> dk_all d = L ->
  (append r io w).2 = w' -> (exists d', w_file w' = Some d' /\ survives d' contents) ->
  exists j, contents = L ++ take j (record_frame r) /\ (j <= length (record_frame r))%nat.
Proof.
  intros Hr Hd Hs Ha Hw (d' & Hd' & Hsv).
  destruct (append_extends r io w d Hd) as (d1 & suffix & Hd1 & Hall & [rest Hpre] & _ & _ & Hst).
  rewrite Hw, Hd' in Hd1. injection Hd1 as <-. destruct Hsv as [Hlo Hhi]. rewrite Hs in Hst. rewrite Hall, Ha in Hhi.
  assert (L `prefix_of` contents) as [part ->] by (by etransitivity).
  apply prefix_app_inv in Hhi. destruct Hhi as [more ->]. exists (length part).
  rewrite Hpre, <- !app_assoc, !length_app, take_app_length. split; [done|lia].
Qed.


(** Everything succeeds; the power fails during the last fsync. *)
Definition io_ok : WriteIO := mkWriteIO 1000 true 1000 true true true.
Definition io_crash : WriteIO := mkWriteIO 1000 true 1000 true false true.
Definition sample_writer : EventLogWriter := open_writer None true FsyncOnAppend io_ok.
Definition sample_rec (n : Z) : LogRecord := mkLogRecord n CommandRecord n [0; 65].


(** C31: Corruption is located: changing any one byte of a stored record outside
    its size field makes recovery stop right before that record with a checksum
    error, returning the records before it; the damage counts as a torn tail
    only in the last record, and as corrupt everywhere else. *)
Theorem corruption_detected rs1 r rs2 i x :
  Forall record_ok (rs1 ++ r :: rs2) -> bytes_ok (lr_payload r) -> in_u8 x ->
  (i < length (record_frame r))%nat -> (i < 18 \/ kRecordHeaderSize <= i)%nat ->
  x <> byte_at (record_frame r) i ->
  let rec := recover_log (log_bytes rs1 ++ <[i := x]> (record_frame r) ++ log_bytes rs2) in
  rec_error rec = LogNone /\ rec_records rec = rs1 /\ rec_tail_error rec = BadChecksum /\
  rec_tail rec = if is_nil rs2 then TornTail else Corrupt.
Proof.
  intros Hok Hp Hx Hi Hfield Hne. apply Forall_app in Hok as [Hok1 [Hr Hok2]%Forall_cons].
  destruct (decode_corrupt_record (log_bytes rs1) r (log_bytes rs2) i x Hr Hp Hx Hi Hfield Hne) as [He Hl].
  set (b := log_bytes rs1 ++ <[i:=x]> (record_frame r) ++ log_bytes rs2) in *.
  assert (length (<[i := x]> (record_frame r)) = length (record_frame r)) as Hlen by apply length_insert.
  destruct (scan_frames rs1 (<[i:=x]> (record_frame r) ++ log_bytes rs2) BadChecksum Hok1) as (H1 & H2 & H3).
  { right. split; [done|]. rewrite !length_app, Hlen. split; [lia|]. by rewrite <- He. }
  fold b in H1, H2, H3. unfold recover_log. cbn [rec_error rec_records rec_tail_error rec_tail].
  rewrite H1, H2, H3. split_and!; try done. cbn [classify_tail]. unfold checksum_failure_confined_to_tail. rewrite Hl.
  subst b. rewrite !length_app, Hlen, Nat2Z.id, length_record_frame by apply Hr.
  destruct rs2 as [|r2 rs2]; cbn [is_nil].
  - by rewrite (proj2 (Nat.eqb_eq _ _)) by (cbn [log_bytes map concat length]; lia).
  - apply Forall_cons in Hok2 as [Hr2 _]. pose proof (record_frame_nonempty r2 Hr2).
    rewrite (proj2 (Nat.eqb_neq _ _)); [done|]. unfold log_bytes at 3. cbn [map concat]. rewrite length_app. lia.
Qed.

Lemma corruption_detected_witness :
  let rec := recover_log (log_bytes [sample_rec 1] ++ <[23%nat := 66]> (record_frame (sample_rec 2)) ++ log_bytes [sample_rec 3]) in
  rec_error rec = LogNone /\ rec_records rec = [sample_rec 1] /\ rec_tail_error rec = BadChecksum /\
  rec_tail rec = if is_nil [sample_rec 3] then TornTail else Corrupt.
Proof.
  apply (corruption_detected [sample_rec 1] (sample_rec 2) [sample_rec 3] 23 66).
  - repeat (apply Forall_cons_2; [by split_and!|]). apply Forall_nil_2.
  - repeat constructor; done.
  - done.
  - apply (bool_decide_unpack _). vm_compute. exact I.
  - right. unfold kRecordHeaderSize. lia.
  - vm_compute. discriminate.
Defined.

(** Repair is safe: when it reports success the file reads back clean with
    exactly the records recovered before; it only ever truncates; a corrupt log
    is refused and left untouched; and a torn tail is repaired whenever the file
    operations succeed. *)
Theorem repair_safe (b : bytes) (io : RepairIO) :
  let rec := recover_log b in
  let '(ok, b') := repair_log_file b rec io in
  b' `prefix_of` b /\
  (ok = true -> recover_log b' = mkLogRecovery LogNone CleanTail LogNone (rec_records rec) (length b')) /\
  (rec_tail rec = Corrupt -> ok = false /\ b' = b) /\
  (rec_tail rec <> Corrupt -> io = mkRepairIO true true true -> ok = true).
Proof.
  cbn zeta. destruct (repair_log_file b (recover_log b) io) as [ok b'] eqn:E. split_and!.
  - revert E. unfold repair_log_file. case_if; [by intros [= <- <-]|]. case_if; [by intros [= <- <-]|].
    case_if; intros [= <- <-]; [done|]. apply prefix_take.
  - intros Hok. by apply (recover_repaired b io ok b').
  - intros Hc. revert E. unfold repair_log_file. rewrite Hc, (bool_decide_true (Corrupt = Corrupt)), orb_true_r by done.
    by intros [= <- <-].
  - intros Hc ->. revert E. unfold repair_log_file.
    rewrite (bool_decide_true (rec_error (recover_log b) = LogNone)) by done.
    rewrite (bool_decide_false (rec_tail (recover_log b) = Corrupt)) by done. cbn [negb orb rio_resize_ok rio_open_ok rio_fsync_ok andb].
    case_if; by intros [= <- _].
Qed.

(** A read error is never mistaken for a shorter log: if the stream fails at
    any point, reading reports [OpenFailed] with no records, and repair then
    refuses to touch the file. *)
Theorem read_error_reported (contents : bytes) (f : nat) (io : RepairIO) :
  (f <= length contents)%nat ->
  let file := Some (mkStream contents (Some f) false) in
  read_all file = mkLogReadResult [] OpenFailed /\
  rec_error (recover_log_file file) = OpenFailed /\
  repair_log_file contents (recover_log_file file) io = (false, contents).
Proof.
  intros Hf file. unfold read_all, recover_log_file, file. rewrite read_file_bytes_fail by done. by cbn.
Qed.

Lemma read_error_reported_witness :
  let contents := log_bytes sample_records in
  let file := Some (mkStream contents (Some 50%nat) false) in
  read_all file = mkLogReadResult [] OpenFailed /\
  rec_error (recover_log_file file) = OpenFailed /\
  repair_log_file contents (recover_log_file file) (mkRepairIO true true true) = (false, contents).
Proof.
  apply (read_error_reported (log_bytes sample_records) 50 (mkRepairIO true true true)).
  apply (bool_decide_unpack _). vm_compute. exact I.
Defined.

(** The first append writes five bytes and fails; the disk then recovers. *)
Definition io_short : WriteIO := mkWriteIO 5 true 1000 true true true.

(** A writer must not be used after a failed append: the bytes of a short
    write stay in the stream, so a later append that is acknowledged as durable
    is placed behind them and recovery does not return it. *)
Theorem append_after_failure_lost :
  let '(ok1, w1) := append (sample_rec 1) io_short sample_writer in
  let '(ok2, w2) := append (sample_rec 2) io_ok w1 in
  ok1 = false /\ ok2 = true /\
  match w_file w2 with
  | Some d => dk_stable d = dk_all d /\ rec_records (recover_log (dk_stable d)) = []
  | None => False
  end.
Proof. vm_compute. by split_and!. Qed.
