(* ===== verification/SessionTheorems.v ===== *)
(** * SessionTheorems: what a client of the gateway can rely on *)
From S2P Require Import Prelude Core Endian Command Book BookSpec OrderBook Protocol Engine EngineSpec Gateway Recovery Session SessionSpec.

(** ** Concrete inputs *)

Definition sess_engine : MatchingEngine OrderBook :=
  (apply_all (new_engine Baseline) [RegisterSymbol "ABC"; NewLimit 0 1 Sell 100 5 GTC]).2.
Definition sess_config : RiskConfig := mkRiskConfig 1000 1000000.
Definition sess_requests : list Request :=
  [ReqNewOrder (mkNewOrder 7 0 101 8 Buy Limit GTC) 1; ReqHeartbeat (mkHeartbeat 99);
   ReqCancelOrder (mkCancelOrder 7 0) 2; ReqNewOrder (mkNewOrder 8 5 1 1 Buy Limit GTC) 3].
Definition sess_session : Session OrderBook := mkSession [] false sess_engine.

Lemma sess_engine_wf : engine_wf sess_engine.
Proof.
  apply (apply_all_refines (H0 := baseline_laws)); [done|apply new_engine_wf|].
  repeat constructor; done.
Qed.
Lemma sess_requests_ok : Forall request_ok sess_requests.
Proof. repeat (apply Forall_cons_2; [by repeat split|]). apply Forall_nil_2. Qed.

(** Framing does not depend on how the transport cuts the stream: two ways
    of delivering the same bytes to a session, in any number of reads, end with
    the same status, the same output and the same session, byte for byte. *)
Theorem session_chunking {B : Type} `{BookStore B} config M (s : Session B) a reads a' reads' out :
  concat (a :: reads) = concat (a' :: reads') ->
  outcome_eq (on_reads config M s (a :: reads) out) (on_reads config M s (a' :: reads') out).
Proof. intros Hc. rewrite !on_reads_concat. cbn [concat] in Hc. by rewrite Hc. Qed.

Lemma session_chunking_witness :
  let bytes := concat (map encode_request sess_requests) in
  outcome_eq (on_reads sess_config 500 sess_session [bytes] [])
    (on_reads sess_config 500 sess_session [take 3 bytes; take 50 (drop 3 bytes); drop 53 bytes] []).
Proof.
  apply (session_chunking sess_config 500 sess_session). vm_compute. reflexivity.
Defined.

(** C25: A bounded session answers a frame in full or not at all.  A malformed or
    unexpected frame closes the session; a request whose response does not fit
    the output budget closes it with the engine and the output exactly as they
    were; every other request is applied and its complete response appended. *)
Theorem session_frame_exact {B : Type} `{BookStoreLaws B} config (ctx : FrameContext B) frame M :
  engine_wf (fc_engine ctx) -> engine_room (fc_engine ctx) -> M < size_max ->
  process_frame config ctx frame M =
    match frame_reply config (fc_engine ctx) frame with
    | None => (SessionOk, mkFrameContext (fc_engine ctx) true (fc_out ctx))
    | Some (reply, room, e') =>
        if Z.of_nat (length (fc_out ctx)) + room <=? M
        then (SessionOk, mkFrameContext e' (fc_logged_out ctx) (fc_out ctx ++ reply))
        else (OutputLimitExceeded, mkFrameContext (fc_engine ctx) true (fc_out ctx))
    end.
Proof. intros Hwf Hroom HM. apply process_frame_spec; [done|done|lia|]. by left. Qed.

Lemma session_frame_exact_witness :
  let ctx := mkFrameContext sess_engine false [] in
  let frame := encode_new_order (mkNewOrder 7 0 101 8 Buy Limit GTC) 1 in
  process_frame sess_config ctx frame 83 =
    match frame_reply sess_config (fc_engine ctx) frame with
    | None => (SessionOk, mkFrameContext (fc_engine ctx) true (fc_out ctx))
    | Some (reply, room, e') =>
        if Z.of_nat (length (fc_out ctx)) + room <=? 83
        then (SessionOk, mkFrameContext e' (fc_logged_out ctx) (fc_out ctx ++ reply))
        else (OutputLimitExceeded, mkFrameContext (fc_engine ctx) true (fc_out ctx))
    end.
Proof.
  apply (session_frame_exact (H0 := baseline_laws) sess_config (mkFrameContext sess_engine false []));
    [apply sess_engine_wf|by apply Forall_true|done].
Defined.

(** ** Serving a client *)

Section Clients.
Context {B : Type} `{HL : BookStoreLaws B}.
Variable config : RiskConfig.

(** The engine after serving requests is the engine after sending the commands
    they stand for through the gateway. *)
Lemma serve_gateway_run qs : forall e : MatchingEngine B,
  (serve config e qs).2 = (gateway_run config e (omap request_command qs)).2.
Proof.
  induction qs as [|q qs IH]; intros e; [done|]. cbn [serve omap list_omap].
  destruct q as [m seq|m seq|m]; cbn [request_reply request_command].
  - cbn [gateway_run]. destruct (apply_command _ _ _) as [r e1]. specialize (IH e1).
    destruct (serve config e1 qs), (gateway_run config e1 _) as [[? ?] ?]. done.
  - cbn [gateway_run]. destruct (apply_command _ _ _) as [r e1]. specialize (IH e1).
    destruct (serve config e1 qs), (gateway_run config e1 _) as [[? ?] ?]. done.
  - specialize (IH e). by destruct (serve config e qs).
Qed.

Lemma encode_request_nonempty q : encode_request q <> [].
Proof. intros E. pose proof (length_encode_request q) as Hl. rewrite E in Hl. discriminate Hl. Qed.

(** C6: A client of an unbounded storage is served completely.  However its
    well-formed requests are split into reads, the session answers each of them
    in order (a Reject, or an Ack and one Fill per trade, or the echo of a
    heartbeat), stays logged in with nothing left over, and has driven the
    engine exactly as the gateway would be driven by the same commands. *)
Theorem client_served (e : MatchingEngine B) qs reads out M :
  (forall b : B, bs_room b) -> engine_wf e -> Forall request_ok qs ->
  concat reads = concat (map encode_request qs) -> M <= size_max ->
  Z.of_nat (length out) + Z.of_nat (length (serve config e qs).1) + kAckFrameBytes <= M ->
  outcome_eq (on_reads config M (mkSession [] false e) reads out)
    (SessionOk, out ++ (serve config e qs).1,
     mkSession [] false (gateway_run config e (omap request_command qs)).2).
Proof.
  intros Hroom Hwf Hok Hc HM Hfit. rewrite <- serve_gateway_run. destruct reads as [|a reads].
  - destruct qs as [|q qs]; [cbn; by rewrite app_nil_r|]. cbn in Hc. symmetry in Hc. apply app_eq_nil in Hc as [Hc _].
    by apply encode_request_nonempty in Hc.
  - rewrite on_reads_concat. cbn [concat] in Hc. rewrite Hc. by apply on_bytes_serve.
Qed.

(** A malformed header ends the session without side effects: nothing is
    answered, the engine is untouched, and every later byte is ignored. *)
Theorem malformed_header_closes (e : MatchingEngine B) input later out out' M :
  (kHeaderSize <= length input)%nat -> decode_ok (decode_header input) = false ->
  let '(status, out1, s1) := on_bytes_into config (mkSession [] false e) input out M in
  status = SessionOk /\ out1 = out /\ logged_out_ s1 = true /\ s_engine s1 = e /\
  on_bytes_into config s1 later out' M = (SessionOk, out', s1).
Proof.
  intros Hl Hd. unfold on_bytes_into at 1. cbn [logged_out_ inbuf_ app s_engine]. unfold frame_loop.
  rewrite loop_unfold by (lia || done). unfold frame_step. rewrite drop_0.
  rewrite (proj2 (Nat.ltb_ge _ _)) by lia. rewrite Hd. cbn [negb]. by split_and!.
Qed.
End Clients.

Lemma client_served_witness :
  let bytes := concat (map encode_request sess_requests) in
  outcome_eq (on_reads sess_config 1000 sess_session [take 20 bytes; drop 20 bytes] [])
    (SessionOk, [] ++ (serve sess_config sess_engine sess_requests).1,
     mkSession [] false (gateway_run sess_config sess_engine (omap request_command sess_requests)).2).
Proof.
  apply (client_served (HL := baseline_laws) sess_config sess_engine sess_requests);
    [done|apply sess_engine_wf|apply sess_requests_ok|vm_compute; reflexivity|vm_compute; discriminate|
     vm_compute; discriminate].
Defined.

Lemma malformed_header_closes_witness :
  let '(status, out1, s1) := on_bytes_into sess_config sess_session (replicate 20 7) [] 100 in
  status = SessionOk /\ out1 = [] /\ logged_out_ s1 = true /\ s_engine s1 = sess_engine /\
  on_bytes_into sess_config s1 [1; 2] [] 100 = (SessionOk, [], s1).
Proof.
  apply (malformed_header_closes sess_config sess_engine (replicate 20 7) [1; 2] [] [] 100);
    [unfold kHeaderSize; cbn; lia|reflexivity].
Defined.
