(* ===== verification/EpollTheorems.v ===== *)
(** * EpollTheorems: what the event-driven server guarantees *)
From Stdlib Require Import ZifyBool.
From S2P Require Import Prelude Core Endian Book BookSpec OrderBook Command Protocol Engine EngineSpec Gateway Recovery Session SessionSpec Sys Epoll Server SessionTheorems.

(** ** EpollSpec: the event loop refines the server specification

    Each function of Epoll.v is shown to make only calls that [Server] accepts,
    and to keep the client map in step with the connections of the
    specification. *)

(** ** The transport *)

Definition epoll_transient (errno : Error) : bool := is_would_block errno || bool_decide (errno = EINTR).

(** The loop ends, and every client is closed, on a stop request, when waiting
    fails, and when the listener is broken. *)
Definition epoll_gives_up (c : Syscall) (a : Answer) : bool :=
  match c, a with
  | SysLoadStop, a => negb (bool_decide (a = Ret 0))
  | SysEpollWait _ _ _, Failed errno => negb (bool_decide (errno = EINTR))
  | SysAccept _ _, Failed errno =>
      negb (is_would_block errno) && negb (bool_decide (errno = EMFILE) || bool_decide (errno = ENFILE)) &&
      negb (is_transient_accept_error errno)
  | _, _ => false
  end.

Definition epoll_transport (opts : EpollServerOptions) : Transport :=
  mkTransport (hard_output_limit opts) epoll_transient epoll_gives_up false.

Section EpollSpec.
Context {B : Type} `{BookStore B}.
Variable config : RiskConfig.
Variable opts : EpollServerOptions.
Hypothesis opts_hard : 0 <= max_outbuf_hard_bytes opts <= size_max.
Hypothesis opts_soft : 0 < max_outbuf_bytes opts.
Variable s0 : AServer B.
Variable base : gset Z.

Abbreviation limit := (hard_output_limit opts).
Abbreviation tp := (epoll_transport opts).
Abbreviation holds := (holds config tp s0 base).
Abbreviation safe := (safe config tp s0 base).
Implicit Types s : AServer B.
Implicit Types g : MatchingEngine B.

Lemma limit_range : 0 <= limit <= size_max.
Proof. unfold hard_output_limit. case_if; [done|]. lia. Qed.

(** ** Clients and connections *)

Record client_rel (k : ClientState) (c : Conn) : Prop := {
  rel_inbuf : cs_inbuf k = cn_inbuf c;
  rel_logged_out : cs_logged_out k = cn_logged_out c;
  rel_sent : (sent k <= length (outbuf k))%nat;
  rel_backlog : drop (sent k) (outbuf k) = backlog c;
  rel_wire : (cn_wire c <= length (cn_replies c))%nat;
  rel_limit : Z.of_nat (length (outbuf k)) <= limit;
  rel_input : cn_input c = []
}.

(** A session that has ended is only flushed. *)
Definition settled (k : ClientState) : Prop := cs_logged_out k = true -> close_after_flush k = true.

Lemma pending_rel k c : client_rel k c -> pending k = Z.of_nat (length (backlog c)).
Proof.
  intros [_ _ Hs Hb _ Hl _]. pose proof limit_range. unfold pending, u64, wrap. rewrite <- Hb, length_drop.
  rewrite Z.mod_small; unfold size_max in *; lia.
Qed.

Lemma has_pending_rel k c : client_rel k c -> has_pending_output k = negb (is_nil (backlog c)).
Proof. intros Hr. unfold has_pending_output. rewrite (pending_rel k c Hr). by destruct (backlog c). Qed.

Lemma new_client_rel gen : client_rel (new_client gen) new_conn.
Proof. pose proof limit_range. split; try done; cbn; lia. Qed.

Lemma rel_break k c : client_rel k c -> client_rel k (break c).
Proof. by intros [? ? ? ? ? ? ?]. Qed.

(** The state of one connection while its client is serviced; [closable] when
    the specification lets it be closed. *)
Definition at_client (fd : Z) (k : ClientState) g s (w : World) : Prop :=
  exists c, client_rel k c /\ holds (put_conn fd c (put_engine g s)) w.

Definition closable (fd : Z) (k : ClientState) g s (w : World) : Prop :=
  exists c, client_rel k c /\ may_close s fd c = true /\ holds (put_conn fd c (put_engine g s)) w.

Lemma at_client_safe fd k g s w : at_client fd k g s w -> safe w.
Proof. intros (c & _ & Hw). by eapply holds_safe. Qed.

Lemma may_close_flushed s fd c : backlog c = [] -> may_close s fd c = true.
Proof. intros E. unfold may_close. by rewrite E. Qed.

Lemma may_close_broken s fd c : may_close s fd (break c) = true.
Proof. unfold may_close. cbn. by rewrite orb_true_r. Qed.

Lemma may_close_reported s ev c :
  ev ∈ as_ready s -> event_has (ev_events ev) EPOLLERR || event_has (ev_events ev) EPOLLHUP = true ->
  may_close s (event_fd ev) c = true.
Proof.
  intros Hin Hev. unfold may_close. replace (existsb _ _) with true; [apply orb_true_r|].
  symmetry. apply existsb_exists. exists ev. split; [by apply list_elem_of_In|]. unfold reports_broken.
  by rewrite Z.eqb_refl, Hev.
Qed.

(** ** Sending *)

Lemma rel_advance k c n :
  client_rel k c -> (n <= length (backlog c))%nat ->
  client_rel (set_output (outbuf k) (sent k + n) k) (advance n c).
Proof.
  intros [Hi Hl Hs Hb Hw Hm Hin] Hn. pose proof Hn as Hn'. rewrite <- Hb, length_drop in Hn. unfold backlog in Hn'. rewrite length_drop in Hn'.
  split; [done|done|cbn; lia| |cbn; lia|done|done]. rewrite backlog_advance, <- Hb. cbn. by rewrite drop_drop.
Qed.

Lemma rel_flushed k c :
  client_rel k c -> (length (outbuf k) <= sent k)%nat -> client_rel (set_output [] 0 k) c.
Proof.
  intros [Hi Hl Hs Hb Hw Hm Hin] Hn. pose proof limit_range. split; try done; cbn; [|lia].
  by rewrite <- Hb, drop_ge.
Qed.

(** What sending never changes. *)
Definition same_flags (k k' : ClientState) : Prop :=
  cs_logged_out k' = cs_logged_out k /\ close_after_flush k' = close_after_flush k.

Definition send_failed (r : SendResult) : bool := match r with SendClosed | SendError => true | _ => false end.

(** After a step that may fail: go on with the client, or be allowed to close it. *)
Definition after_send (failed : bool) fd (k k' : ClientState) g s (w : World) : Prop :=
  if failed then closable fd k' g s w else at_client fd k' g s w /\ same_flags k k'.

Lemma wp_send_next_chunk fd k g s w :
  at_client fd k g s w ->
  wp safe (send_next_chunk fd k) (fun r w' => after_send (send_failed r.1) fd k r.2 g s w') w.
Proof.
  intros (c & Hr & Hw). unfold send_next_chunk. apply wp_bind.
  eapply wp_call_plain; [done|exact Hw|]. intros a Ha. cbn [step_call]. rewrite lookup_put_conn. cbn [mbind option_bind].
  unfold step_send. rewrite bool_decide_true by (apply Hr). cbn [admissible] in Ha. rewrite (rel_backlog _ _ Hr) in Ha.
  destruct a as [n|e|b|evs]; try done; eexists; (split; [done|]); rewrite ?put_conn_put; intros Hw'.
  - destruct (Z.eqb_spec n 0) as [->|Hn]; cbn [Z.ltb]; [|rewrite (proj2 (Z.ltb_lt 0 n)) by lia]; apply wp_ret; cbn [fst snd send_failed after_send].
    + exists (break c). split_and!; [by apply rel_break|apply may_close_broken|done].
    + split; [|done]. exists (advance (Z.to_nat n) c). split; [|done]. apply rel_advance; [done|lia].
  - cbn [tp_transient epoll_transport] in Hw'. unfold epoll_transient in Hw'.
    destruct (is_would_block e); cbn [orb] in Hw'; [|destruct (bool_decide (e = EINTR))]; apply wp_ret; cbn [fst snd send_failed after_send].
    + split; [by exists c|done].
    + split; [by exists c|done].
    + exists (break c). split_and!; [by apply rel_break|apply may_close_broken|done].
Qed.

Lemma wp_send_some fd k g s w :
  at_client fd k g s w ->
  wp safe (send_some fd k) (fun r w' => after_send (negb r.1) fd k r.2 g s w') w.
Proof.
  intros Hw. unfold send_some. apply (wp_loop _ _ (fun k' w => at_client fd k' g s w /\ same_flags k k')); [| |by split].
  { intros k' w' [Hk _]. by eapply at_client_safe. }
  clear w Hw. intros k' w [Hw Hf]. unfold send_step. destruct (Nat.ltb_spec (sent k') (length (outbuf k'))).
  - apply wp_bind. eapply wp_mono; [by apply wp_send_next_chunk|]. intros [r k2] w' Hw'. cbn [fst snd] in Hw'.
    assert (same_flags k' k2 -> same_flags k k2) as Hsame by (destruct Hf as [F1 F2]; intros [E1 E2]; split; congruence).
    destruct r; apply wp_ret; cbn in Hw' |- *; try done; (split; [apply Hw'|apply Hsame, Hw']).
  - apply wp_ret. split; [|done]. destruct Hw as (c & Hr & Hw). exists c. split; [|done]. by apply rel_flushed.
Qed.

Lemma wp_drain events fd k g s w :
  at_client fd k g s w ->
  wp safe (drain_writable_if_ready events fd k) (fun r w' => after_send r.1 fd k r.2 g s w') w.
Proof.
  intros Hw. unfold drain_writable_if_ready. case_if; [by apply wp_ret|]. apply wp_bind.
  eapply wp_mono; [by apply wp_send_some|]. intros [ok k'] w' Hk. by apply wp_ret.
Qed.

(** ** Reading *)

Lemma rel_drop_sent k c :
  client_rel k c ->
  client_rel (drop_sent_prefix k) c /\ outbuf (drop_sent_prefix k) = backlog c /\ sent (drop_sent_prefix k) = O.
Proof.
  intros [Hi Hl Hs Hb Hw Hm Hin]. unfold drop_sent_prefix. destruct (Nat.ltb_spec 0 (sent k)) as [|Hz].
  - split; [|by split]. split; try done; cbn; [lia|]. rewrite length_drop. lia.
  - assert (sent k = O) as E by lia. rewrite E in Hb. split; [|done]. split; rewrite ?E; first [done|lia].
Qed.

Lemma rel_close_after_flush k c : client_rel k c -> client_rel (set_close_after_flush k) c.
Proof. by intros [? ? ? ? ? ? ?]. Qed.

Lemma rel_bounded k c : client_rel k c -> Z.of_nat (length (backlog c)) <= limit.
Proof. intros [_ _ _ Hb _ Hm _]. rewrite <- Hb, length_drop. lia. Qed.

(** The client after a read went on, or may be closed. *)
Definition after_read (r : ReadResult) (k : ClientState) (c : Conn) : Prop :=
  match r with
  | Continue => cs_logged_out k = false
  | StopReading => settled k
  | CloseNow => backlog c = []
  end.

(** Feeding a read to the session of a client is a delivery of the specification. *)
Lemma apply_session_input_spec k c g input :
  client_rel k c -> cs_logged_out k = false ->
  let '(r, k', g') := apply_session_input config opts k g input in
  let '(c', e') := deliver config tp g c input in
  client_rel k' c' /\ g' = e' /\ after_read r k' c'.
Proof.
  intros Hr Hlo. destruct (rel_drop_sent k c Hr) as (Hr' & Ho & Hz). unfold apply_session_input, deliver. cbn [tp_limit epoll_transport].
  rewrite Ho, (rel_inbuf _ _ Hr'), (rel_logged_out _ _ Hr').
  pose proof (output_within_budget config limit (mkSession (cn_inbuf c) (cn_logged_out c) g) input (backlog c)) as Hb.
  pose proof (output_grows config limit (mkSession (cn_inbuf c) (cn_logged_out c) g) input (backlog c)) as [x Hx].
  destruct (on_bytes_into _ _ _ _ _) as [[st out] session] eqn:E. cbn [fst snd] in *. subst out. rewrite Hz.
  rewrite drop_app_length. set (c' := mkConn _ _ _ _ _ _).
  assert (backlog c' = backlog c ++ x) as Ebl.
  { unfold backlog, c'. cbn [cn_wire cn_replies]. by rewrite drop_app_le by apply Hr. }
  assert (client_rel (set_session (inbuf_ session) (logged_out_ session) (set_output (backlog c ++ x) 0 (drop_sent_prefix k))) c') as Hk.
  { split; try done; [cbn; lia| | |].
    - cbn. rewrite length_app. pose proof (rel_wire _ _ Hr). lia.
    - apply Hb. rewrite <- Ho. apply Hr'.
    - cbn. apply Hr. }
  case_bool_decide; [destruct (negb (is_nil _)) eqn:Hnil|destruct (logged_out_ session) eqn:El]; (split; [by try apply rel_close_after_flush|]); (split; [done|]); try done.
  cbn [outbuf set_session set_output] in Hnil. cbn [after_read]. rewrite Ebl. by destruct (backlog c ++ x).
Qed.

Lemma rel_input_closed k c : client_rel k c -> client_rel (set_input_closed k) c.
Proof. by intros [? ? ? ? ? ? ?]. Qed.

Lemma wp_read_once fd k g s w :
  at_client fd k g s w -> cs_logged_out k = false ->
  wp safe (read_once config opts fd k g)
    (fun r w' => let '(r, k', g') := r in
       match r with
       | CloseNow => closable fd k' g' s w'
       | StopReading => at_client fd k' g' s w' /\ settled k'
       | Continue => at_client fd k' g' s w' /\ cs_logged_out k' = false
       end) w.
Proof.
  intros (c & Hr & Hw) Hlo. unfold read_once. apply wp_bind. eapply wp_call_plain; [done|exact Hw|].
  assert (settled k) as Hset by (intros E; congruence).
  intros a Ha. cbn [step_call]. rewrite lookup_put_conn. cbn [mbind option_bind].
  destruct a as [n|e|[|b bs]|evs]; cbn [admissible] in Ha; try done; cbn [step_read].
  - eexists. split; [done|]. cbn [tp_transient epoll_transport]. unfold epoll_transient. intros Hw'.
    destruct (bool_decide (e = EINTR)); [|destruct (is_would_block e)]; rewrite ?orb_true_r in Hw'; cbn [orb] in Hw'; apply wp_ret.
    + split; [by exists c|done].
    + split; [by exists c|done].
    + rewrite put_conn_put in Hw'. exists (break c). split_and!; [by apply rel_break|apply may_close_broken|done].
  - eexists. split; [done|]. intros Hw'. apply wp_ret. split; [|done]. exists c. split; [|done]. by apply rel_input_closed.
  - rewrite <- (rel_logged_out _ _ Hr), Hlo, (rel_input _ _ Hr). cbn [orb negb is_nil tp_mutex epoll_transport]. unfold step_deliver.
    pose proof (apply_session_input_spec k c g (b :: bs) Hr Hlo) as Hin. cbn [as_engine put_conn put_engine].
    destruct (deliver config tp g c (b :: bs)) as [c' e'], (apply_session_input _ _ _ _ _) as [[r k'] g'].
    destruct Hin as (Hr' & -> & Ha'). rewrite (proj2 (Z.leb_le _ _)) by (eapply rel_bounded, Hr').
    eexists. split; [done|]. intros Hw'. apply wp_ret.
    assert (holds (put_conn fd c' (put_engine e' s)) (answered (SysRead fd 4096) (Data (b :: bs)) w)) as Hw2.
    { unfold put_conn, put_engine in *. cbn in Hw' |- *. by rewrite insert_insert_eq in Hw'. }
    destruct r; cbn [after_read] in Ha'; [split; [by exists c'|done]..|].
    exists c'. split_and!; [done|by apply may_close_flushed|done].
Qed.

Lemma wp_read_available fd k g s w hup :
  at_client fd k g s w -> cs_logged_out k = false ->
  wp safe (read_available config opts fd k g hup)
    (fun r w' => let '(close, k', g') := r in
       if close : bool then closable fd k' g' s w' else at_client fd k' g' s w' /\ settled k') w.
Proof.
  intros Hw Hlo. unfold read_available.
  apply (wp_loop _ _ (fun x w => at_client fd x.1 x.2 s w /\ cs_logged_out x.1 = false)); [| |by split].
  { intros k' w' [Hk _]. by eapply at_client_safe. }
  clear -opts_hard. intros [k g] w [Hw Hlo]. cbn [fst snd] in *. unfold read_step. case_if.
  - apply wp_bind. eapply wp_mono; [by apply wp_read_once|]. intros [[r k'] g'] w' Hk. destruct r; by apply wp_ret.
  - apply wp_ret. split; [done|]. intros E. congruence.
Qed.

Lemma wp_read_client_input events fd k g s w :
  at_client fd k g s w -> settled k ->
  wp safe (read_client_input_if_ready config opts events fd k g)
    (fun r w' => let '(close, k', g') := r in
       if close : bool then closable fd k' g' s w' else at_client fd k' g' s w' /\ settled k') w.
Proof.
  intros Hw Hs. unfold read_client_input_if_ready. destruct (should_read_client_input events k) eqn:E; [|by apply wp_ret].
  apply wp_read_available; [done|]. unfold should_read_client_input in E. apply andb_true_iff in E as [_ E].
  apply negb_true_iff in E. apply not_true_iff_false. intros El. apply Hs in El. congruence.
Qed.

(** ** Interest *)

Lemma wp_add_fd epoll_fd fd events gen (Q : bool -> World -> Prop) s w :
  holds s w ->
  (forall w', holds (put_interest (<[fd := mkEpollEvent events (pack_event_data fd gen)]> (as_interest s)) s) w' -> Q true w') ->
  (forall w', holds s w' -> Q false w') ->
  wp safe (add_fd epoll_fd fd events gen) Q w.
Proof.
  intros Hw Ht Hf. apply wp_bind. eapply wp_call_plain; [done|exact Hw|]. intros a Ha. eexists. split; [done|].
  destruct a as [n|e|b|evs]; cbn [admissible] in Ha; try done; intros Hw'; apply wp_ret.
  - assert (n = 0) as -> by lia. rewrite bool_decide_true by done. by apply Ht.
  - rewrite bool_decide_false by done. by apply Hf.
Qed.

Lemma wp_mod_fd epoll_fd fd events gen (Q : bool -> World -> Prop) s w :
  holds s w ->
  (forall w', holds (put_interest (<[fd := mkEpollEvent events (pack_event_data fd gen)]> (as_interest s)) s) w' -> Q true w') ->
  (forall w', holds (put_conns (alter break fd (as_conns s)) s) w' -> Q false w') ->
  wp safe (mod_fd epoll_fd fd events gen) Q w.
Proof.
  intros Hw Ht Hf. apply wp_bind. eapply wp_call_plain; [done|exact Hw|]. intros a Ha. eexists. split; [done|].
  destruct a as [n|e|b|evs]; cbn [admissible] in Ha; try done; intros Hw'; apply wp_ret.
  - assert (n = 0) as -> by lia. rewrite bool_decide_true by done. by apply Ht.
  - rewrite bool_decide_false by done. by apply Hf.
Qed.

(** The kernel knows what the client waits for. *)
Definition registered (fd : Z) (k : ClientState) s : Prop :=
  as_interest s !! fd = Some (mkEpollEvent (client_interests opts k) (pack_event_data fd (generation k))).

Lemma rel_half_close events k c : client_rel k c -> client_rel (apply_peer_half_close events k) c.
Proof. intros Hr. unfold apply_peer_half_close. case_if; [by apply rel_input_closed|done]. Qed.

Lemma interests_out k c : client_rel k c -> event_has (client_interests opts k) EPOLLOUT = negb (is_nil (backlog c)).
Proof. intros Hr. unfold client_interests. rewrite (has_pending_rel k c Hr). by repeat case_if. Qed.

Lemma interests_in k : event_has (client_interests opts k) EPOLLIN = wants_read_interest opts k.
Proof. unfold client_interests. by destruct (wants_read_interest opts k), (has_pending_output k). Qed.

(** A client that is not to be closed after its flush waits for input or has
    output to wait for. *)
Lemma interests_awake k c s fd :
  client_rel k c -> should_close_after_flush k = false -> registered fd k s -> awake (as_interest s) fd c = true.
Proof.
  intros Hr Hc Hreg. unfold awake. rewrite Hreg. cbn [ev_events]. rewrite interests_in, (interests_out k c Hr), eqb_reflx.
  unfold should_close_after_flush in Hc. rewrite (has_pending_rel k c Hr) in Hc. cbn [andb].
  destruct (backlog c) as [|b bs] eqn:Eb; cbn [is_nil negb] in *; [|by rewrite orb_true_r].
  unfold wants_read_interest. rewrite (pending_rel k c Hr), Eb. cbn in Hc |- *.
  apply orb_false_iff in Hc as [-> ->]. cbn. lia.
Qed.

Lemma rearm_keeps events k : settled k -> settled (apply_peer_half_close events k).
Proof. unfold apply_peer_half_close. by case_if. Qed.

(** ** The event loop and the specification *)

Variables (ep lf : Z) (oth : gset Z).
Hypothesis lf_other : lf ∈ base ∪ oth.
Implicit Types l : EventLoop B.
Implicit Types rdy : list epoll_event.

Definition live (fd : Z) (k : ClientState) (c : Conn) s : Prop :=
  client_rel k c /\ settled k /\ should_close_after_flush k = false /\ registered fd k s.

Definition entry_ok (fd : Z) (k : option ClientState) (c : option Conn) s : Prop :=
  match k, c with
  | Some k, Some c => live fd k c s
  | None, None => True
  | _, _ => False
  end.

(** [rdy] is the batch of events being dispatched. *)
Record loop_inv rdy l s : Prop := {
  li_options : options l = opts;
  li_epoll : epoll_fd l = ep;
  li_listen : listen_fd l = lf;
  li_others : as_others s = oth;
  li_ready : as_ready s = rdy;
  li_gateway : gateway l = as_engine s;
  li_clients : forall fd, entry_ok fd (clients l !! fd) (as_conns s !! fd) s
}.

Definition inv rdy l (w : World) : Prop := exists s, loop_inv rdy l s /\ holds s w.
Definition inv_stopping l (w : World) : Prop :=
  exists rdy s, loop_inv rdy l s /\ as_stopping s = true /\ holds s w.

Lemma inv_safe rdy l w : inv rdy l w -> safe w.
Proof. intros (s & _ & Hw). by eapply holds_safe. Qed.

Lemma listener_no_conn rdy l s w : loop_inv rdy l s -> holds s w -> as_conns s !! lf = None.
Proof.
  intros Hl (_ & _ & Hb & Hx). apply not_elem_of_dom. rewrite (li_others _ _ _ Hl) in *. set_solver.
Qed.

(** The invariant after a change of the entry of [fd], and of interests of no
    other connection. *)
Lemma loop_inv_at fd rdy l s l' s' :
  loop_inv rdy l s ->
  options l' = opts -> epoll_fd l' = ep -> listen_fd l' = lf -> as_others s' = oth -> as_ready s' = rdy ->
  gateway l' = as_engine s' ->
  entry_ok fd (clients l' !! fd) (as_conns s' !! fd) s' ->
  (forall fd', fd' <> fd -> clients l' !! fd' = clients l !! fd' /\ as_conns s' !! fd' = as_conns s !! fd' /\
     (as_conns s !! fd' <> None -> as_interest s' !! fd' = as_interest s !! fd')) ->
  loop_inv rdy l' s'.
Proof.
  intros Hl Ho He Hf Hoth Hrd Hg Hfd Hne. split; try done. intros fd'. destruct (decide (fd' = fd)) as [->|Hd]; [done|].
  destruct (Hne fd' Hd) as (-> & -> & Hi). pose proof (li_clients _ _ _ Hl fd') as Hc. unfold entry_ok, live, registered in *.
  destruct (clients l !! fd'), (as_conns s !! fd'); try done. rewrite Hi by done. done.
Qed.

Lemma inv_awake rdy l s : loop_inv rdy l s -> map_Forall (fun fd c => awake (as_interest s) fd c = true) (as_conns s).
Proof.
  intros Hl fd c Hc. pose proof (li_clients _ _ _ Hl fd) as He. unfold entry_ok in He. rewrite Hc in He.
  destruct (clients l !! fd) as [k|]; [|done]. destruct He as (Hr & _ & Hs & Hreg). by eapply interests_awake.
Qed.

Lemma wp_set_listener_armed rdy l armed w :
  inv rdy l w -> wp safe (set_listener_armed l armed) (fun l' w' => inv rdy l' w') w.
Proof.
  intros (s & Hl & Hw). unfold set_listener_armed. case_if; [apply wp_ret; by exists s|]. apply wp_bind.
  pose proof (listener_no_conn rdy l s w Hl Hw) as Hn. rewrite (li_listen _ _ _ Hl).
  eapply wp_mod_fd; [exact Hw| |]; intros w' Hw'; apply wp_ret; (eexists; split; [|exact Hw']).
  - pose proof (li_clients _ _ _ Hl lf) as Hlf. eapply (loop_inv_at lf rdy l s); try apply Hl; cbn.
    + rewrite Hn in *. by destruct (clients l !! lf).
    + intros fd' Hd. by rewrite lookup_insert_ne.
  - replace (put_conns (alter break lf (as_conns s)) s) with s; [done|].
    destruct s. unfold put_conns. cbn in *. f_equal. symmetry. apply map_eq. intros fd.
    destruct (decide (fd = lf)) as [->|]; [by rewrite lookup_alter_eq, Hn|by rewrite lookup_alter_ne].
Qed.

(** ** Servicing a client *)

Definition rearmed fd (k : ClientState) g s (w : World) : Prop :=
  exists c, client_rel k c /\ settled k /\ should_close_after_flush k = false /\
    holds (put_interest (<[fd := mkEpollEvent (client_interests opts k) (pack_event_data fd (generation k))]>
             (as_interest s)) (put_conn fd c (put_engine g s))) w.

Lemma wp_rearm l k g s w ev :
  options l = opts -> at_client (event_fd ev) k g s w -> settled k -> ev ∈ as_ready s ->
  wp safe (rearm_client l (event_fd ev) k (ev_events ev))
    (fun r w' => if r.1 then closable (event_fd ev) r.2 g s w' else rearmed (event_fd ev) r.2 g s w') w.
Proof.
  intros Ho (c & Hr & Hw) Hs Hev. unfold rearm_client. unfold should_close_for_full_hangup.
  destruct (event_has (ev_events ev) EPOLLHUP) eqn:Eh.
  { apply wp_ret. exists c. split_and!; [done| |done]. apply may_close_reported; [done|]. by rewrite Eh, orb_true_r. }
  apply (rel_half_close (ev_events ev)) in Hr. apply (rearm_keeps (ev_events ev)) in Hs.
  destruct (should_close_after_flush (apply_peer_half_close (ev_events ev) k)) eqn:Ec.
  { apply wp_ret. exists c. split_and!; [done| |done]. apply may_close_flushed. unfold should_close_after_flush in Ec.
    apply andb_true_iff in Ec as [Ec _]. rewrite (has_pending_rel _ _ Hr) in Ec. by destruct (backlog c). }
  rewrite Ho. apply wp_bind. eapply wp_mod_fd; [exact Hw| |]; intros w' Hw'; apply wp_ret; cbn [fst snd negb].
  - exists c. split_and!; done.
  - exists (break c). split_and!; [by apply rel_break|apply may_close_broken|].
    unfold put_conns, put_conn in *. cbn in Hw' |- *. by rewrite alter_insert_eq in Hw'.
Qed.

Lemma wp_service l k s w ev :
  options l = opts -> at_client (event_fd ev) k (gateway l) s w -> settled k -> ev ∈ as_ready s ->
  wp safe (service_client_event config l (event_fd ev) k (ev_events ev))
    (fun r w' => let '(close, k', g') := r in
       if close : bool then closable (event_fd ev) k' g' s w' else rearmed (event_fd ev) k' g' s w') w.
Proof.
  intros Ho Hw Hs Hev. unfold service_client_event. destruct (event_has (ev_events ev) EPOLLERR) eqn:Ee.
  { apply wp_ret. destruct Hw as (c & Hr & Hw). exists c. split_and!; [done| |done].
    apply may_close_reported; [done|]. by rewrite Ee. }
  apply wp_bind. eapply wp_mono; [by apply wp_drain|]. intros [close k'] w' Hk. cbn [fst snd] in *.
  destruct close; [by apply wp_ret|]. destruct Hk as [Hk [E1 E2]].
  assert (settled k') as Hs' by (intros El; rewrite E2; apply Hs; congruence).
  apply wp_bind. rewrite Ho. eapply wp_mono; [by apply wp_read_client_input|].
  intros [[close k2] g'] w2 Hk2. destruct close; [by apply wp_ret|]. destruct Hk2 as [Hk2 Hs2]. apply wp_bind.
  eapply wp_mono; [by apply (wp_rearm l k2 g' s w2 ev)|]. intros [close k3] w3 H3. by apply wp_ret.
Qed.

Lemma wp_close_client fd c (Q : unit -> World -> Prop) s w :
  holds (put_conn fd c s) w -> may_close s fd c = true ->
  (forall s' w', holds s' w' -> as_engine s' = as_engine s -> as_conns s' = delete fd (as_conns s) -> as_others s' = as_others s ->
     as_ready s' = as_ready s -> as_stopping s' = as_stopping s ->
     (forall fd', fd' <> fd -> as_interest s' !! fd' = as_interest s !! fd') -> Q tt w') ->
  wp safe (close_client ep fd) Q w.
Proof.
  intros Hw Hmay HQ. unfold close_client. apply wp_bind. apply wp_bind. eapply wp_call_plain; [done|exact Hw|]. intros a Ha.
  assert (forall i w', holds (put_interest i (put_conn fd c s)) w' ->
    (forall fd', fd' <> fd -> i !! fd' = as_interest s !! fd') -> wp safe (sys_ (SysClose fd)) Q w') as Hclose.
  { intros i w' Hw' Hi. apply wp_bind. eapply wp_call_plain; [done|exact Hw'|]. intros a' _. cbn [step_call]. unfold step_close.
    cbn [put_interest as_conns]. rewrite lookup_put_conn. replace (may_close _ _ _) with true by (by rewrite <- Hmay).
    eexists. split; [done|]. intros Hw2. apply wp_ret. eapply HQ; [exact Hw2|done| |done|done|done|].
    - cbn. by rewrite delete_insert_eq.
    - intros fd' Hd. cbn. rewrite lookup_delete_ne by done. by apply Hi. }
  eexists. split; [done|]. intros Hw'. apply wp_ret. destruct a as [n|e|b|evs]; cbn [admissible] in Ha; try done.
  - eapply Hclose; [exact Hw'|]. intros fd' Hd. cbn. by rewrite lookup_delete_ne.
  - eapply (Hclose (as_interest s)); [|done]. by destruct s.
Qed.

(** The loop with the serviced client stored back. *)
Definition store fd k g l : EventLoop B := set_gateway g (set_clients (<[fd := k]> (clients l)) l).

Lemma inv_store rdy l s fd k g w : loop_inv rdy l s -> rearmed fd k g s w -> inv rdy (store fd k g l) w.
Proof.
  intros Hl (c & Hr & Hs & Hc & Hw). eexists. split; [|exact Hw]. eapply (loop_inv_at fd rdy l s); try apply Hl; try done.
  - unfold store. cbn. rewrite !lookup_insert_eq. split_and!; try done. unfold registered. cbn. by rewrite lookup_insert_eq.
  - intros fd' Hd. unfold store. cbn. by rewrite !lookup_insert_ne.
Qed.

Lemma wp_close_client_entry rdy l s fd k g w :
  loop_inv rdy l s -> closable fd k g s w ->
  wp safe (close_client_entry (store fd k g l) fd) (fun l' w' => inv rdy l' w') w.
Proof.
  intros Hl (c & Hr & Hm & Hw). unfold close_client_entry. apply wp_bind. cbn [epoll_fd store set_gateway set_clients].
  rewrite (li_epoll _ _ _ Hl). eapply wp_close_client; [exact Hw|exact Hm|]. intros s' w' Hw' He Hc Ho Hrd _ Hi.
  apply wp_set_listener_armed.
  exists s'. split; [|done]. eapply (loop_inv_at fd rdy l s); try apply Hl; cbn.
  - rewrite Ho. apply Hl.
  - rewrite Hrd. apply Hl.
  - by rewrite He.
  - rewrite Hc. cbn. by rewrite !lookup_delete_eq.
  - intros fd' Hd. rewrite Hc, Hi by done. cbn. by rewrite !lookup_delete_ne, lookup_insert_ne by done.
Qed.

Lemma wp_process_client_event rdy l ev w :
  ev ∈ rdy -> inv rdy l w -> wp safe (process_client_event config l ev) (fun l' w' => inv rdy l' w') w.
Proof.
  intros Hev (s & Hl & Hw). unfold process_client_event, find_live_client.
  destruct (clients l !! event_fd ev) as [k|] eqn:Ek; [|apply wp_ret; by exists s].
  case_if; [apply wp_ret; by exists s|]. pose proof (li_clients _ _ _ Hl (event_fd ev)) as He. rewrite Ek in He.
  destruct (as_conns s !! event_fd ev) as [c|] eqn:Ec; [|done]. destruct He as (Hr & Hs & _ & _).
  apply wp_bind. eapply wp_mono.
  { apply (wp_service l k s w ev); [apply Hl| |done|by rewrite (li_ready _ _ _ Hl)].
    exists c. split; [done|]. by rewrite (li_gateway _ _ _ Hl), put_engine_id, put_conn_id. }
  intros [[close k'] g'] w' Hk. destruct close.
  - by eapply wp_close_client_entry.
  - apply wp_ret. by eapply inv_store.
Qed.

(** ** Accepting *)

Lemma new_client_live fd gen s :
  as_interest s !! fd =
    Some (mkEpollEvent (Z.lor (Z.lor (Z.lor EPOLLIN EPOLLRDHUP) EPOLLERR) EPOLLHUP) (pack_event_data fd gen)) ->
  live fd (new_client gen) new_conn s.
Proof.
  intros Hi. split_and!; [apply new_client_rel|done|done|]. unfold registered. rewrite Hi. do 2 f_equal.
  unfold client_interests, wants_read_interest. cbn. rewrite (proj2 (Z.ltb_lt _ _)) by done. done.
Qed.

(** A connection that was just accepted is registered, or closed again. *)
Lemma wp_register_client rdy l s conn w :
  loop_inv rdy l s -> as_conns s !! conn = None -> holds (put_conn conn new_conn s) w -> conn <> lf ->
  wp safe (register_client l conn)
    (fun r w' => if r.1 then inv rdy r.2 w' else loop_inv rdy r.2 s /\ holds (put_conn conn new_conn s) w') w.
Proof.
  intros Hl Hn Hw Hlf. unfold register_client. destruct (next_client_generation _) as [gen next].
  pose proof (li_clients _ _ _ Hl conn) as He. rewrite Hn in He. cbn [set_next_generation clients].
  destruct (clients l !! conn) eqn:Ek; [done|]. rewrite bool_decide_true by done. cbn [negb].
  apply wp_bind. eapply wp_add_fd; [exact Hw| |]; intros w' Hw'; apply wp_ret; cbn [fst snd].
  - eexists. split; [|exact Hw']. eapply (loop_inv_at conn rdy l s); try apply Hl; cbn.
    + rewrite !lookup_insert_eq. apply new_client_live. cbn. by rewrite lookup_insert_eq.
    + intros fd' Hd. by rewrite !lookup_insert_ne.
  - split; [|done]. eapply (loop_inv_at conn rdy l s); try apply Hl; cbn.
    + by rewrite lookup_delete_eq, Hn.
    + intros fd' Hd. by rewrite lookup_delete_ne, lookup_insert_ne.
Qed.

Lemma loop_inv_stopping rdy l s : loop_inv rdy l s -> loop_inv rdy l (put_stopping s).
Proof. by intros [? ? ? ? ? ? ?]. Qed.

Lemma wp_accept_one rdy l w :
  inv rdy l w ->
  wp safe (accept_one l) (fun r w' => match r.1 with Fatal => inv_stopping r.2 w' | _ => inv rdy r.2 w' end) w.
Proof.
  intros (s & Hl & Hw). unfold accept_one. apply wp_bind. eapply wp_call; [exact Hw|]. intros a Ha.
  destruct a as [conn|e|b|evs]; cbn [admissible] in Ha; try done; cbn [step_call].
  - apply andb_true_iff in Ha as [_ Ha]. apply bool_decide_eq_true in Ha.
    assert (as_conns s !! conn = None) as Hn.
    { apply not_elem_of_dom. destruct Hw as (_ & E & _). rewrite E in Ha. set_solver. }
    assert (conn <> lf) as Hlf.
    { intros ->. destruct Hw as (_ & E & _). rewrite E, (li_others _ _ _ Hl) in Ha. set_solver. }
    rewrite bool_decide_true by done. eexists. split; [done|]. intros Hw'. apply wp_bind.
    eapply wp_mono; [by eapply wp_register_client|]. intros [ok l'] w2 Hr. cbn [fst snd] in Hr.
    destruct ok; cbn [negb]; [by apply wp_ret|]. destruct Hr as [Hl' Hw2]. apply wp_bind, wp_bind.
    eapply wp_call_plain; [done|exact Hw2|]. intros a _. cbn [step_call]. unfold step_close. rewrite lookup_put_conn.
    eexists. split; [done|]. intros Hw3. apply wp_ret, wp_ret. eexists. split; [|exact Hw3].
    cbn [snd]. eapply (loop_inv_at conn rdy l' s); try apply Hl'; cbn.
    + rewrite lookup_delete_eq. pose proof (li_clients _ _ _ Hl' conn) as He. rewrite Hn in He. by destruct (clients l' !! conn).
    + intros fd' Hd. by rewrite !lookup_delete_ne, lookup_insert_ne.
  - eexists. split; [done|]. cbn [tp_gives_up epoll_transport epoll_gives_up].
    destruct (is_would_block e); cbn [negb andb]; [intros Hw'; apply wp_ret; by exists s|].
    destruct (bool_decide (e = EMFILE) || bool_decide (e = ENFILE)); cbn [negb andb]; intros Hw'.
    { apply wp_bind. eapply wp_mono; [eapply wp_set_listener_armed; by exists s|]. intros l' w' Hi. by apply wp_ret. }
    destruct (is_transient_accept_error e); cbn [negb] in Hw'; apply wp_ret; cbn [fst snd].
    + by exists s.
    + exists rdy, (put_stopping s). split_and!; [by apply loop_inv_stopping|done|done].
Qed.

(** After a dispatch: the loop goes on, or ends with the server giving up. *)
Definition dispatched rdy (r : bool * EventLoop B) (w : World) : Prop :=
  if r.1 then inv rdy r.2 w else inv_stopping r.2 w.

Lemma wp_accept_connections rdy l w : inv rdy l w -> wp safe (accept_connections l) (dispatched rdy) w.
Proof.
  intros Hw. unfold accept_connections. generalize (accepts_per_tick_limit (options l)) as lim. intros lim.
  apply (wp_loop _ _ (fun x w => inv rdy x.1 w)); [intros x w'; apply inv_safe|clear l w Hw|done].
  intros [l n] w Hw. cbn [fst] in Hw. unfold accept_step. apply wp_bind.
  eapply wp_mono; [by apply wp_accept_one|]. intros [r l'] w' Hl. cbn [fst snd] in Hl.
  destruct r; [case_if|..]; by apply wp_ret.
Qed.

(** ** The loop *)

Lemma wp_dispatch rdy l ev w :
  ev ∈ rdy -> inv rdy l w -> wp safe (dispatch_ready_event config l ev) (dispatched rdy) w.
Proof.
  intros Hev Hw. unfold dispatch_ready_event. case_if; [by apply wp_accept_connections|]. apply wp_bind.
  eapply wp_mono; [by apply wp_process_client_event|]. intros l' w' Hl. by apply wp_ret.
Qed.

Lemma loop_inv_ready rdy rdy' l s : loop_inv rdy l s -> loop_inv rdy' l (put_ready rdy' s).
Proof. by intros [? ? ? ? ? ? ?]. Qed.

Lemma wp_dispatch_all rdy l w : inv rdy l w -> wp safe (dispatch_ready_events config l rdy) (dispatched rdy) w.
Proof.
  intros Hw. unfold dispatch_ready_events. assert (rdy ⊆ rdy) as Hsub by done. revert l w Hsub Hw.
  generalize rdy at 1 4 as evs. induction evs as [|ev evs IH]; intros l w Hsub Hw; cbn [for_all]; [by apply wp_ret|].
  apply wp_bind. eapply wp_mono; [apply (wp_dispatch rdy); [set_solver|done]|]. intros [[] l'] w' Hd; [|by apply wp_ret].
  apply IH; [set_solver|done].
Qed.

Lemma wp_run_event_loop rdy l w :
  inv rdy l w -> wp safe (run_event_loop config l) (fun r w' => inv_stopping r.2 w') w.
Proof.
  intros Hw. unfold run_event_loop. apply (wp_loop _ _ (fun l w => exists rdy, inv rdy l w)); [|clear rdy l w Hw|by exists rdy].
  { intros l' w' [r Hr]. by eapply inv_safe. }
  intros l w (rdy & s & Hl & Hw). unfold event_loop_step. apply wp_bind. eapply wp_call; [exact Hw|].
  intros a _. exists s. split; [done|]. cbn [tp_gives_up epoll_transport epoll_gives_up].
  destruct (bool_decide (a = Ret 0)); cbn [negb]; intros Hw1.
  2: { apply wp_ret. exists rdy, (put_stopping s). split_and!; [by apply loop_inv_stopping|done|done]. }
  apply wp_bind. eapply wp_call; [exact Hw1|]. intros b Hb. cbn [step_call].
  rewrite bool_decide_true by (by eapply inv_awake). eexists. split; [done|].
  destruct b as [n|e|b|evs]; cbn [admissible] in Hb; try done; cbn [tp_gives_up epoll_transport epoll_gives_up]; intros Hw2.
  - destruct (bool_decide (e = EINTR)); cbn [negb] in Hw2; apply wp_ret; [exists rdy; by exists s|].
    exists rdy, (put_stopping s). split_and!; [by apply loop_inv_stopping|done|done].
  - apply wp_bind. eapply wp_mono; [apply (wp_dispatch_all evs); eexists; split; [by eapply loop_inv_ready|done]|].
    intros [[] l'] w' Hd; apply wp_ret; [by exists evs|done].
Qed.

(** ** Shutting down *)

(** Closing the clients one by one closes every connection. *)
Lemma wp_close_all l w (Q : unit -> World -> Prop) :
  inv_stopping l w ->
  (forall s w', holds s w' -> as_conns s = ∅ -> as_engine s = gateway l -> as_others s = oth -> Q tt w') ->
  wp safe (close_all_clients ep (clients l)) Q w.
Proof.
  intros (rdy & s & Hl & Hst & Hw) HQ. unfold close_all_clients.
  set (I := fun (rest : list (Z * ClientState)) (w : World) =>
    exists s', holds s' w /\ dom (as_conns s') = list_to_set rest.*1 /\ NoDup rest.*1 /\
      as_engine s' = gateway l /\ as_others s' = oth /\ as_stopping s' = true).
  apply (wp_for_each _ _ I).
  - intros [fd k] rest w' (s' & Hw' & Hd & Hnd & He & Ho & Hst'). cbn [fmap list_fmap fst] in *. apply NoDup_cons in Hnd as [Hfd Hnd].
    destruct (as_conns s' !! fd) as [c|] eqn:Ec.
    2: { exfalso. apply not_elem_of_dom in Ec. set_solver. }
    eapply (wp_close_client fd c _ s'); [by rewrite put_conn_id| |].
    { unfold may_close. by rewrite Hst', orb_true_r. }
    intros s2 w2 Hw2 E1 E2 E3 _ E4 _. exists s2. split_and!; try done; try congruence.
    rewrite E2, dom_delete_L, Hd. cbn. set_solver.
  - intros w' (s' & Hw' & Hd & _ & He & Ho & _). eapply HQ; [done| |done|done]. by apply dom_empty_inv_L.
  - exists s. split_and!; try done; [|apply NoDup_fst_map_to_list|by rewrite (li_gateway _ _ _ Hl)|apply Hl].
    apply set_eq. intros fd. rewrite elem_of_list_to_set, elem_of_dom. pose proof (li_clients _ _ _ Hl fd) as Hc.
    rewrite list_elem_of_fmap. split.
    + intros [c Ec]. rewrite Ec in Hc. destruct (clients l !! fd) as [k|] eqn:Ek; [|done].
      exists (fd, k). split; [done|]. by apply elem_of_map_to_list.
    + intros ([fd' k] & -> & Hk%elem_of_map_to_list). cbn in *. rewrite Hk in Hc. by destruct (as_conns s !! fd').
Qed.
End EpollSpec.

(** ** What the event-driven server guarantees *)

Section Setup.
Context {B : Type} `{BookStore B}.
Variable config : RiskConfig.
Variable opts : EpollServerOptions.
Hypothesis opts_hard : 0 <= max_outbuf_hard_bytes opts <= size_max.
Hypothesis opts_soft : 0 < max_outbuf_bytes opts.
Variable e : MatchingEngine B.
Variable base : gset Z.

Abbreviation s0 := (new_server e).
Abbreviation holds := (holds config (epoll_transport opts) s0 base).
Abbreviation safe := (safe config (epoll_transport opts) s0 base).
Abbreviation idle := (idle config (epoll_transport opts) s0 base).

Lemma epoll_setup c a : setup_call c = true -> tp_gives_up (epoll_transport opts) c a = false.
Proof. by destruct c. Qed.

Lemma wp_make_epoll_listener listen oth w :
  idle e oth w ->
  wp safe (make_epoll_listener listen opts)
    (fun fd w' => if fd <? 0 then idle e oth w' else fd ∉ base ∪ oth /\ idle e ({[fd]} ∪ oth) w') w.
Proof.
  intros Hw. unfold make_epoll_listener. apply wp_bind.
  apply wp_mono with (Q := fun _ w' => idle e oth w').
  { unfold prepare_listener_socket, set_nonblocking. case_if; [by apply wp_ret|]. case_if; [by apply wp_ret|].
    apply wp_bind. apply (wp_neutral _ _ _ _ epoll_setup _ e oth); [done|done|]. intros a w1 Hw1. destruct a as [flags| | |]; try (by apply wp_ret).
    apply wp_bind. apply (wp_neutral _ _ _ _ epoll_setup _ e oth); [done|done|]. intros a w2 Hw2. by apply wp_ret. }
  intros ok w1 Hw1. destruct ok; cbn [negb]; [|by apply wp_ret]. apply wp_bind.
  apply (wp_open _ _ _ _ epoll_setup _ e oth); [done|done| |intros err w2 Hw2; by apply wp_ret].
  intros fd w2 Hfd Hpos Hw2. apply wp_bind. unfold add_fd. apply wp_bind. eapply (wp_neutral _ _ _ _ epoll_setup); [done|exact Hw2|].
  intros a w3 Hw3. apply wp_ret. case_if.
  - apply wp_bind. eapply (wp_close_other _ _ _ _ epoll_setup); [exact Hw3|set_solver|]. intros w4 Hw4. by apply wp_ret.
  - apply wp_ret. rewrite (proj2 (Z.ltb_ge _ _)) by lia. done.
Qed.

Lemma wp_serve_listen_socket listen oth w :
  idle e oth w -> listen ∈ base ∪ oth ->
  wp safe (serve_listen_socket config e listen opts) (fun r w' => idle r.2 oth w') w.
Proof.
  intros Hw Hlf. unfold serve_listen_socket. apply wp_bind. eapply wp_mono; [by apply wp_make_epoll_listener|].
  intros ep w1 Hw1. cbn beta in Hw1. destruct (ep <? 0) eqn:Eep; [by apply wp_ret|].
  destruct Hw1 as [Hep (s & He & Hs & Ho & Hw1)].
  set (l := mkEventLoop ep listen opts e ∅ 1 true).
  assert (loop_inv opts ep listen ({[ep]} ∪ oth) (as_ready s) l s) as Hl.
  { split; try done. intros fd. by rewrite Hs. }
  apply wp_bind. eapply wp_mono.
  { eapply (wp_run_event_loop config opts opts_hard opts_soft s0 base ep listen ({[ep]} ∪ oth)); [set_solver|].
    eexists. split; [exact Hl|exact Hw1]. }
  intros [ok l'] w2 Hst. cbn [snd] in *. apply wp_bind.
  eapply (wp_close_all config opts opts_hard opts_soft s0 base ep listen ({[ep]} ∪ oth)); [set_solver|exact Hst|].
  intros s' w3 Hw3 Hc He' Ho'. apply wp_bind.
  eapply (wp_close_other _ _ _ _ epoll_setup ep (gateway l') oth); [by exists s'|set_solver|]. intros w4 Hw4. by apply wp_ret.
Qed.

Lemma wp_run host port w : idle e ∅ w -> wp safe (run config e host port opts) (fun r w' => idle r.2 ∅ w') w.
Proof.
  intros Hw. unfold run. apply wp_bind. apply (wp_open _ _ _ _ epoll_setup _ e ∅); [done|done| |intros err w' Hw'; by apply wp_ret].
  intros fd w1 Hfd Hpos Hw1.
  assert (forall e' ok w, idle e' ({[fd]} ∪ ∅) w ->
    wp safe (sys_ (SysClose fd);; ret (ok : bool, e')) (fun r w' => idle r.2 ∅ w') w) as Hclose.
  { intros e' ok w2 Hw2. apply wp_bind. eapply (wp_close_other _ _ _ _ epoll_setup); [exact Hw2|set_solver|]. intros w3 Hw3. by apply wp_ret. }
  apply wp_bind, wp_bind. eapply (wp_neutral _ _ _ _ epoll_setup); [done|exact Hw1|]. intros a w2 Hw2. apply wp_ret.
  apply wp_bind. eapply (wp_neutral _ _ _ _ epoll_setup); [done|exact Hw2|]. intros a1 w3 Hw3. case_if; [by apply Hclose|].
  apply wp_bind. eapply (wp_neutral _ _ _ _ epoll_setup); [done|exact Hw3|]. intros a2 w4 Hw4. case_if; [by apply Hclose|].
  apply wp_bind. eapply (wp_neutral _ _ _ _ epoll_setup); [done|exact Hw4|]. intros a3 w5 Hw5. case_if; [by apply Hclose|].
  apply wp_bind. eapply wp_mono; [eapply wp_serve_listen_socket; [exact Hw5|set_solver]|].
  intros [ok g] w6 Hw6. by apply Hclose.
Qed.
End Setup.

(** ** The server waits only for the kernel *)

Section Responsive.
Context {B : Type} `{BookStore B}.
Variable config : RiskConfig.
Implicit Types l : EventLoop B.

Lemma consuming_send_next_chunk fd k : consuming (send_next_chunk fd k).
Proof. unfold send_next_chunk. repeat responsive_step. Qed.
#[local] Hint Resolve consuming_send_next_chunk : responsive.

Lemma responsive_drain events fd k : responsive (drain_writable_if_ready events fd k).
Proof. unfold drain_writable_if_ready, send_some, send_step. repeat responsive_step. Qed.

Lemma consuming_read_once opts fd k (g : MatchingEngine B) : consuming (read_once config opts fd k g).
Proof. unfold read_once. repeat responsive_step. Qed.
#[local] Hint Resolve consuming_read_once : responsive.

Lemma responsive_read opts events fd k (g : MatchingEngine B) :
  responsive (read_client_input_if_ready config opts events fd k g).
Proof. unfold read_client_input_if_ready, read_available, read_step. repeat responsive_step. Qed.
#[local] Hint Resolve responsive_drain responsive_read : responsive.

Lemma responsive_set_listener_armed l armed : responsive (set_listener_armed l armed).
Proof. unfold set_listener_armed, mod_fd. repeat responsive_step. Qed.
#[local] Hint Resolve responsive_set_listener_armed : responsive.

Lemma responsive_process l ev : responsive (process_client_event config l ev).
Proof.
  unfold process_client_event, service_client_event, rearm_client, mod_fd, close_client_entry, close_client.
  repeat responsive_step.
Qed.

Lemma consuming_accept_one l : consuming (accept_one l).
Proof. unfold accept_one, register_client, add_fd. repeat responsive_step. Qed.
#[local] Hint Resolve responsive_process consuming_accept_one : responsive.

Lemma responsive_run_event_loop l : responsive (run_event_loop config l).
Proof.
  unfold run_event_loop, event_loop_step, dispatch_ready_events, dispatch_ready_event, accept_connections, accept_step.
  repeat responsive_step.
Qed.
#[local] Hint Resolve responsive_run_event_loop : responsive.

Lemma responsive_run e host port opts : responsive (run (B := B) config e host port opts).
Proof.
  unfold run, serve_listen_socket, make_epoll_listener, prepare_listener_socket, set_nonblocking, add_fd,
    close_all_clients, close_client.
  repeat responsive_step.
Qed.
End Responsive.

(** ** A run of the server *)

(** A client connects, asks for a heartbeat and an order, reads its answers in
    two pieces and shuts its side down; then the server is stopped. *)
Definition demo_options : EpollServerOptions := mkEpollServerOptions 64 50 1048576 8388608 64.
Definition demo_input : bytes :=
  encode_heartbeat (mkHeartbeat 99) ++ encode_new_order (mkNewOrder 7 0 101 8 Buy Limit GTC) 1.
Definition demo_event (events fd gen : Z) : epoll_event := mkEpollEvent events (pack_event_data fd gen).
Definition demo_script : list Answer :=
  [Ret 3; Ret 0; Ret 1; Ret 0; Ret 0; Ret 2; Ret 0; Ret 4; Ret 0;
   Ret 0; Ready [demo_event EPOLLIN 3 0]; Ret 5; Ret 0; Failed EAGAIN;
   Ret 0; Ready [demo_event EPOLLIN 5 1]; Data demo_input; Failed EAGAIN; Ret 0;
   Ret 0; Ready [demo_event EPOLLOUT 5 1]; Ret 10; Failed EAGAIN; Ret 0;
   Ret 0; Ready [demo_event (EPOLLIN + EPOLLOUT + EPOLLRDHUP) 5 1]; Ret 98; Data []; Ret 0; Ret 0;
   Ret 1; Ret 0; Ret 0].

Definition demo_run : Outcome (bool * MatchingEngine OrderBook) :=
  run sess_config sess_engine "127.0.0.1" 9000 demo_options (mkWorld demo_script {[0; 1; 2]} []).

(** C7: The event-driven server refines the server specification.  Whatever the
    kernel answers and whatever events it reports, stale ones included: every
    byte put on a connection is the next byte of the responses of its session to
    the bytes read from it, with all sessions driving one gateway in the order
    of the reads; no connection holds more queued bytes than the hard cap, is
    read after its session ended, or is left asleep without the events it needs;
    none is closed with responses unsent unless it broke or the server stops;
    every descriptor is closed exactly once, and none is left open when the
    server returns.  The server is blocked only inside a call. *)
Theorem epoll_refines_spec {B : Type} `{BookStore B} config (e : MatchingEngine B) host port opts answers fds :
  0 < max_outbuf_bytes opts -> 0 <= max_outbuf_hard_bytes opts <= size_max ->
  let spec t := server_run config (epoll_transport opts) (new_server e) t in
  match run config e host port opts (mkWorld answers fds []) with
  | Done (_, e') w => (exists s, spec (trace w) = Some s /\ as_engine s = e' /\ as_conns s = ∅) /\ opened w = fds
  | Waiting w => is_Some (spec (trace w)) /\ script w = []
  | Impossible => True
  end.
Proof.
  intros Hs Hh spec. set (w0 := mkWorld answers fds []).
  pose proof (wp_run config opts Hh Hs e fds host port w0) as Hwp. unfold wp in Hwp.
  pose proof (responsive_run config e host port opts w0) as Hresp. unfold responsive_at in Hresp.
  assert (idle config (epoll_transport opts) (new_server e) fds e ∅ w0) as Hset.
  { exists (new_server e). repeat split; cbn; set_solver. }
  specialize (Hwp Hset). destruct (run _ _ _ _ _ _) as [[ok e'] w|w|]; [|destruct Hwp as (s & Hr & _); split; [by exists s|done]|done].
  destruct Hwp as (s & He & Hc & Ho & Hr & Hop & _). split; [by exists s|]. rewrite Hop, Hc, Ho. cbn. set_solver.
Qed.

Lemma epoll_refines_spec_witness :
  match demo_run with Done (ok, _) w => ok = true /\ script w = [] | _ => False end /\
  let spec t := server_run sess_config (epoll_transport demo_options) (new_server sess_engine) t in
  match demo_run with
  | Done (_, e') w =>
      (exists s, spec (trace w) = Some s /\ as_engine s = e' /\ as_conns s = ∅) /\ opened w = {[0; 1; 2]}
  | Waiting w => is_Some (spec (trace w)) /\ script w = []
  | Impossible => True
  end.
Proof.
  split; [vm_compute; by split|].
  apply (epoll_refines_spec sess_config sess_engine "127.0.0.1" 9000 demo_options demo_script {[0; 1; 2]}); by vm_compute.
Defined.

(** ** Reused descriptors *)

(** The generation of the [n]-th connection the loop registers. *)
Definition connection_generation (n : nat) : Z := Nat.iter n (fun g => (next_client_generation g).2) 1.

Lemma connection_generation_value n : connection_generation n = 1 + Z.of_nat n mod (2 ^ 32 - 1).
Proof.
  induction n as [|n IH]; [done|]. change (connection_generation (S n)) with (next_client_generation (connection_generation n)).2. rewrite IH.
  unfold next_client_generation, kListenerGeneration, u32, wrap. cbn [snd].
  pose proof (Z.mod_pos_bound (Z.of_nat n) (2 ^ 32 - 1) ltac:(lia)) as Hb.
  rewrite Nat2Z.inj_succ, <- Z.add_1_r, (Z.add_mod (Z.of_nat n) 1 (2 ^ 32 - 1)) by lia. set (m := Z.of_nat n mod (2 ^ 32 - 1)) in *.
  clearbody m. destruct (Z.eq_dec m (2 ^ 32 - 2)) as [->|Hne]; [reflexivity|].
  rewrite (Z.mod_small (1 + m + 1)), (Z.mod_small 1), (Z.mod_small (m + 1)) by lia.
  destruct (Z.eqb_spec (1 + m + 1) 0); lia.
Qed.

Lemma connection_generation_range n : 0 < connection_generation n < 2 ^ 32.
Proof. rewrite connection_generation_value. pose proof (Z.mod_pos_bound (Z.of_nat n) (2 ^ 32 - 1) ltac:(lia)). lia. Qed.

Lemma pack_event_fields events fd gen :
  0 <= fd < 2 ^ 31 -> 0 <= gen < 2 ^ 32 ->
  event_fd (mkEpollEvent events (pack_event_data fd gen)) = fd /\
  event_generation (mkEpollEvent events (pack_event_data fd gen)) = gen.
Proof.
  intros Hf Hg. unfold event_fd, event_generation, pack_event_data, i32_of_u, u64, u32, wrap. cbn [ev_data].
  rewrite Z.shiftl_mul_pow2, Z.shiftr_div_pow2 by lia. rewrite (Z.mod_small (gen * 2 ^ 32)), (Z.mod_small fd) by lia.
  assert (Z.lor (gen * 2 ^ 32) fd = gen * 2 ^ 32 + fd) as ->.
  { symmetry. apply Z.add_nocarry_lor. apply Z.bits_inj'. intros i Hi. rewrite Z.land_spec, Z.bits_0.
    destruct (Z.lt_ge_cases i 32) as [Hl|Hl].
    - by rewrite Z.mul_pow2_bits_low.
    - rewrite (proj1 (Z.bounded_iff_bits_nonneg 32 fd ltac:(lia) ltac:(lia)) ltac:(lia) i Hl). apply andb_false_r. }
  rewrite Z.add_comm, Z.mod_add, Z.mod_small, Z.div_add, Z.div_small by lia.
  rewrite (proj2 (Z.ltb_lt _ _)) by lia. split; [done|]. rewrite Z.mod_small; lia.
Qed.

(** C39: An event of a connection that was closed never reaches the connection
    that got its descriptor: unless 2^32 - 1 connections were accepted between
    the two, the loop ignores it, without a call and with its state unchanged. *)
Theorem stale_event_ignored {B : Type} `{BookStore B} config (l : EventLoop B) fd client events i j w :
  0 <= fd < 2 ^ 31 -> clients l !! fd = Some client -> generation client = connection_generation j ->
  (i < j)%nat -> Z.of_nat j - Z.of_nat i < 2 ^ 32 - 1 ->
  dispatch_ready_event config l (mkEpollEvent events (pack_event_data fd (connection_generation i))) w = Done (true, l) w.
Proof.
  intros Hfd Hc Hg Hij Hd. pose proof (connection_generation_range i) as Hi.
  destruct (pack_event_fields events fd (connection_generation i) Hfd ltac:(lia)) as [Ef Eg].
  unfold dispatch_ready_event, is_listener_event. rewrite Eg, Ef. unfold kListenerGeneration.
  rewrite (proj2 (Z.eqb_neq _ _)) by lia. cbn [andb]. unfold process_client_event, find_live_client.
  rewrite Ef, Eg, Hc, Hg. rewrite (proj2 (Z.eqb_neq _ _)); [done|]. rewrite !connection_generation_value.
  pose proof (Z.div_mod (Z.of_nat i) (2 ^ 32 - 1)). pose proof (Z.div_mod (Z.of_nat j) (2 ^ 32 - 1)). lia.
Qed.

Lemma stale_event_ignored_witness :
  let client := new_client (connection_generation 3) in
  let l := mkEventLoop 4 3 demo_options sess_engine {[5 := client]} 5 true in
  let w := mkWorld demo_script {[0; 1; 2]} [] in
  dispatch_ready_event sess_config l (mkEpollEvent EPOLLHUP (pack_event_data 5 (connection_generation 1))) w =
    Done (true, l) w.
Proof. apply (stale_event_ignored sess_config _ 5 (new_client (connection_generation 3)) EPOLLHUP 1 3); [lia|reflexivity|reflexivity|lia|lia]. Defined.

(** ** Limits of the transport *)

(** When accepting failed for want of descriptors while no client is connected,
    no client can free one: the listener stays disarmed, and unless the kernel
    reports it nevertheless, no batch of events changes the loop. *)
Theorem paused_without_clients {B : Type} `{BookStore B} config (l : EventLoop B) events w :
  clients l = ∅ -> listener_armed l = false ->
  Forall (fun ev => is_listener_event ev (listen_fd l) = false) events ->
  dispatch_ready_events config l events w = Done (true, l) w.
Proof.
  intros Hc _ Hev. unfold dispatch_ready_events. induction Hev as [|ev events Hl Hev IH]; [done|]. cbn [for_all].
  unfold dispatch_ready_event at 1. rewrite Hl. unfold process_client_event, find_live_client. by rewrite Hc, lookup_empty.
Qed.

(** A peer that shuts its side down while its backlog is at the soft limit is
    not read again: the requests it sent before are never served. *)
Theorem half_close_ends_reading {B : Type} `{BookStore B} config (l : EventLoop B) fd client events w :
  event_has events EPOLLERR = false -> event_has events EPOLLHUP = false -> event_has events EPOLLOUT = false ->
  event_has events EPOLLRDHUP = true -> 0 < max_outbuf_bytes (options l) <= pending client ->
  (forall events', should_read_client_input events' (set_input_closed client) = false) /\
  service_client_event config l fd client events w =
    (let! ok := mod_fd (epoll_fd l) fd (client_interests (options l) (set_input_closed client)) (generation client) in
     ret (negb ok, set_input_closed client, gateway l)) w.
Proof.
  intros He Hh Ho Hr Hp. split; [intros ev; unfold should_read_client_input; cbn; by rewrite andb_false_r|].
  unfold service_client_event, drain_writable_if_ready. rewrite He, Ho. cbn [negb bind ret].
  assert (read_client_input_if_ready config (options l) events fd client (gateway l) w = Done (false, client, gateway l) w) as Hread.
  { unfold read_client_input_if_ready. case_if; [done|]. rewrite Hh. unfold read_available, loop. cbn [loop_upto].
    unfold read_step, should_read_available_input. rewrite (proj2 (Z.ltb_ge _ _)) by lia. done. }
  unfold bind at 1 2, ret at 1. rewrite Hread. unfold rearm_client, should_close_for_full_hangup, apply_peer_half_close.
  rewrite Hh, Hr. replace (should_close_after_flush (set_input_closed client)) with false; [by unfold bind, ret; destruct (mod_fd _ _ _ _ w)|].
  unfold should_close_after_flush, has_pending_output. change (pending (set_input_closed client)) with (pending client).
  by rewrite (proj2 (Z.ltb_lt _ _)) by lia.
Qed.

(** Memory shortage in [accept4] is fatal to the loop, unlike descriptor shortage. *)
Theorem accept_enobufs_fatal {B : Type} `{BookStore B} (l : EventLoop B) rest fds t :
  accept_one l (mkWorld (Failed ENOBUFS :: rest) fds t) =
    Done (Fatal, l) (mkWorld rest fds (t ++ [(SysAccept (listen_fd l) true, Failed ENOBUFS)])).
Proof. done. Qed.
