(* ===== verification/TcpTheorems.v ===== *)
(** * TcpTheorems: what the threaded server guarantees *)
From Stdlib Require Import ZifyBool.
From S2P Require Import Prelude Core Endian Book BookSpec OrderBook Command Protocol Engine EngineSpec Gateway Recovery Session SessionSpec Sys Epoll Server Tcp SessionTheorems EpollTheorems.

(** ** TcpSpec: the threaded server refines the server specification

    Every step of every thread is a step the specification allows: the invariant
    ties each connection of the specification to the one thread that holds its
    descriptor. *)

(** A blocking socket fails only by being interrupted; no answer makes the
    server give up its connections; the sessions take turns. *)
Definition tcp_transport (options : TcpServerOptions) : Transport :=
  mkTransport (response_limit options) (fun errno => bool_decide (errno = EINTR)) (fun _ _ => false) true.

(** ** Who holds which connection *)

Definition wk_open (w : ConnectionWorker) : bool :=
  match wk_pc w with WorkerFlag | WorkerExit => false | _ => true end.

Definition open_conns (ws : list ConnectionWorker) : list Z :=
  omap (fun w => if wk_open w then Some (wk_conn w) else None) ws.

Definition acceptor_conn (pc : AcceptorPc) : list Z :=
  match pc with AcceptorReap conn _ | AcceptorShed conn => [conn] | _ => [] end.

Lemma open_conns_app ws ws' : open_conns (ws ++ ws') = open_conns ws ++ open_conns ws'.
Proof. apply omap_app. Qed.

Lemma elem_of_open_conns w ws : w ∈ ws -> wk_open w = true -> wk_conn w ∈ open_conns ws.
Proof. intros Hw Ho. apply list_elem_of_omap. exists w. by rewrite Ho. Qed.

Lemma open_conns_middle l1 w l2 :
  open_conns (l1 ++ w :: l2) ≡ₚ (if wk_open w then [wk_conn w] else []) ++ open_conns (l1 ++ l2).
Proof.
  rewrite !open_conns_app. cbn [open_conns omap list_omap]. destruct (wk_open w); cbn [app]; [|done].
  by rewrite Permutation_middle.
Qed.

(** A list with one element singled out, and with it replaced. *)
Lemma split_at (ws : list ConnectionWorker) i w :
  ws !! i = Some w ->
  exists l1 l2, ws = l1 ++ w :: l2 /\ (forall w', <[i := w']> ws = l1 ++ w' :: l2) /\ delete i ws = l1 ++ l2.
Proof.
  intros Hw. destruct (list_elem_of_split_length ws i w Hw) as (l1 & l2 & -> & ->). exists l1, l2. split_and!; [done| |].
  - intros w'. rewrite insert_app_r_alt by lia. by rewrite Nat.sub_diag.
  - clear. induction l1 as [|x l1 IH]; [done|]. cbn. by rewrite <- IH.
Qed.

Section TcpSpec.
Context {B : Type} `{BookStore B}.
Variable config : RiskConfig.
Variable options : TcpServerOptions.
Hypothesis options_ok : 0 <= max_response_bytes options <= size_max.
Variable s0 : AServer B.
Variable base : gset Z.

Abbreviation tp := (tcp_transport options).
Abbreviation holds := (holds config tp s0 base).
Abbreviation safe := (safe config tp s0 base).
Implicit Types s : AServer B.
Implicit Types st : TcpState B.

(** ** A worker and its connection *)

Definition pc_rel (pc : WorkerPc) (logged_out : bool) (c : Conn) : Prop :=
  match pc with
  | WorkerRead => backlog c = [] /\ cn_input c = [] /\ logged_out = false
  | WorkerLock input => backlog c = [] /\ cn_input c = input /\ input <> [] /\ logged_out = false
  | WorkerWrite response offset _ =>
      backlog c = drop offset response /\ (offset < length response)%nat /\ cn_input c = []
  | WorkerClose => backlog c = [] \/ cn_broken c = true
  | WorkerFlag | WorkerExit => False
  end.

Record worker_rel (w : ConnectionWorker) (c : Conn) : Prop := {
  wr_inbuf : cn_inbuf c = wk_inbuf w;
  wr_logged_out : cn_logged_out c = wk_logged_out w;
  wr_wire : (cn_wire c <= length (cn_replies c))%nat;
  wr_pc : pc_rel (wk_pc w) (wk_logged_out w) c
}.

Definition worker_ok s (w : ConnectionWorker) : Prop :=
  (wk_done w = true -> wk_pc w = WorkerExit) /\
  (wk_open w = true -> exists c, as_conns s !! wk_conn w = Some c /\ worker_rel w c).

Variables (lf : Z) (oth : gset Z).

Record tcp_inv st s : Prop := {
  ti_gateway : ts_gateway st = as_engine s;
  ti_others : as_others s = oth;
  ti_nodup : NoDup (acceptor_conn (ts_acceptor st) ++ open_conns (ts_workers st));
  ti_conns : dom (as_conns s) = list_to_set (acceptor_conn (ts_acceptor st) ++ open_conns (ts_workers st));
  ti_workers : Forall (worker_ok s) (ts_workers st);
  ti_held : forall fd, fd ∈ acceptor_conn (ts_acceptor st) -> as_conns s !! fd = Some new_conn;
  ti_cap : max_active_connections options <> 0 ->
    0 <= max_active_connections options -> Z.of_nat (length (ts_workers st)) <= max_active_connections options;
  ti_return : ts_acceptor st = AcceptorReturn -> ts_workers st = []
}.

Definition inv st (w : World) : Prop := exists s, tcp_inv st s /\ holds s w.

Lemma tcp_inv_safe st w : inv st w -> safe w.
Proof. intros (s & _ & Hw). by eapply holds_safe. Qed.

(** The other threads do not see a change of one worker and its connection. *)
Lemma worker_ok_other s s' w : as_conns s' !! wk_conn w = as_conns s !! wk_conn w -> worker_ok s w -> worker_ok s' w.
Proof. unfold worker_ok. by intros ->. Qed.

Lemma workers_ok_other s s' fd ws :
  (forall fd', fd' <> fd -> as_conns s' !! fd' = as_conns s !! fd') -> fd ∉ open_conns ws ->
  Forall (worker_ok s) ws -> Forall (worker_ok s') ws.
Proof.
  intros Hne Hfd Hws. rewrite Forall_forall in *. intros w Hw. specialize (Hws w Hw). destruct Hws as [Hd Ho].
  split; [done|]. intros Hopen. destruct (Ho Hopen) as (c & Hc & Hr). exists c. split; [|done]. rewrite Hne; [done|].
  intros <-. by apply Hfd, elem_of_open_conns.
Qed.

(** The state after a step of the worker at [i]. *)
Definition step_worker (i : nat) (w' : ConnectionWorker) (g : MatchingEngine B) st : TcpState B :=
  mkTcpState g (<[i := w']> (ts_workers st)) (ts_acceptor st) (ts_accepted st).

Lemma inv_worker st s i w w' s' :
  tcp_inv st s -> ts_workers st !! i = Some w -> wk_open w = true -> wk_conn w' = wk_conn w ->
  as_others s' = as_others s ->
  (forall fd, fd <> wk_conn w -> as_conns s' !! fd = as_conns s !! fd) ->
  worker_ok s' w' -> (is_Some (as_conns s' !! wk_conn w) <-> wk_open w' = true) ->
  tcp_inv (step_worker i w' (as_engine s') st) s'.
Proof.
  intros [_ I2 I3 I4 I5 I6 I7 I8] Hw Ho Hc Hoth Hne Hok Hopen.
  destruct (split_at _ _ _ Hw) as (l1 & l2 & E & Ei & _). unfold step_worker. specialize (Ei w').
  set (h := acceptor_conn (ts_acceptor st)) in *. rewrite E, open_conns_middle, Ho in I3, I4.
  assert (wk_conn w ∉ h ++ open_conns (l1 ++ l2) /\ NoDup (h ++ open_conns (l1 ++ l2))) as [Hn Hnd].
  { apply NoDup_cons. by rewrite Permutation_middle. }
  assert (wk_conn w ∉ open_conns (l1 ++ l2)) as Hn2 by set_solver.
  assert (NoDup (h ++ open_conns (l1 ++ w' :: l2)) /\
    list_to_set (h ++ open_conns (l1 ++ w' :: l2)) = (if wk_open w' then {[wk_conn w]} else ∅) ∪ (list_to_set (h ++ open_conns (l1 ++ l2)) : gset Z)) as [Hnd' Hset'].
  { rewrite open_conns_middle, Hc. destruct (wk_open w'); cbn [app]; [|split; [done|set_solver]].
    rewrite <- Permutation_middle. split; [by apply NoDup_cons|]. done. }
  split; cbn [ts_gateway ts_workers ts_acceptor]; rewrite ?Ei; fold h; try done.
  - by rewrite Hoth.
  - rewrite Hset'. apply set_eq. intros fd. rewrite elem_of_dom. destruct (decide (fd = wk_conn w)) as [->|Hd].
    + rewrite Hopen. destruct (wk_open w'); set_solver.
    + rewrite Hne by done. rewrite <- elem_of_dom, I4. destruct (wk_open w'); set_solver.
  - rewrite E in I5. apply Forall_app in I5 as [F1 F2]. apply Forall_cons in F2 as [_ F2]. rewrite open_conns_app in Hn2.
    apply Forall_app. split; [|apply Forall_cons; split; [done|]]; eapply (workers_ok_other s s' (wk_conn w)); try done; set_solver.
  - intros fd Hfd. rewrite Hne; [by apply I6|]. set_solver.
  - intros Hz Hp. specialize (I7 Hz Hp). rewrite E in I7. rewrite length_app in *. cbn in *. lia.
  - intros Hr. specialize (I8 Hr). rewrite E in I8. by destruct l1.
Qed.

Lemma worker_conn st s i w :
  tcp_inv st s -> ts_workers st !! i = Some w -> wk_open w = true ->
  wk_done w = false /\ exists c, as_conns s !! wk_conn w = Some c /\ worker_rel w c.
Proof.
  intros Hi Hw Ho. pose proof (ti_workers _ _ Hi) as Hws. rewrite Forall_lookup in Hws. destruct (Hws i w Hw) as [Hd Hc].
  split; [|by apply Hc]. apply not_true_iff_false. intros E. unfold wk_open in Ho. by rewrite (Hd E) in Ho.
Qed.

(** A worker that goes on with its connection. *)
Lemma inv_worker_open st s i w w' g c' wld :
  tcp_inv st s -> ts_workers st !! i = Some w -> wk_open w = true -> wk_conn w' = wk_conn w -> wk_open w' = true ->
  wk_done w' = wk_done w -> worker_rel w' c' -> holds (put_conn (wk_conn w) c' (put_engine g s)) wld ->
  inv (step_worker i w' g st) wld.
Proof.
  intros Hi Hw Ho Hc Ho' Hd Hr Hwld. destruct (worker_conn st s i w Hi Hw Ho) as [Hdone _].
  exists (put_conn (wk_conn w) c' (put_engine g s)). split; [|done].
  apply (inv_worker st s i w w' (put_conn (wk_conn w) c' (put_engine g s))); try done; cbn.
  - intros fd Hne. by rewrite lookup_insert_ne.
  - split; [congruence|]. intros _. exists c'. rewrite Hc. split; [apply lookup_insert_eq|done].
  - rewrite lookup_insert_eq. by split.
Qed.

Lemma rel_goto w c pc : worker_rel w c -> pc_rel pc (wk_logged_out w) c -> worker_rel (goto pc w) c.
Proof. by intros [H1 H2 H3 _] Hpc. Qed.

Lemma rel_serve_next w c :
  cn_inbuf c = wk_inbuf w -> cn_logged_out c = wk_logged_out w -> (cn_wire c <= length (cn_replies c))%nat ->
  backlog c = [] -> cn_input c = [] -> worker_rel (serve_next w) c /\ wk_open (serve_next w) = true.
Proof.
  intros H1 H2 H3 Hb Hin. unfold serve_next. destruct (wk_logged_out w) eqn:El; cbn [negb]; (split; [|done]); split; try done; cbn; try congruence.
  by left.
Qed.

Lemma rel_after_write status w c :
  cn_inbuf c = wk_inbuf w -> cn_logged_out c = wk_logged_out w -> (cn_wire c <= length (cn_replies c))%nat ->
  backlog c = [] -> cn_input c = [] -> worker_rel (after_write status w) c /\ wk_open (after_write status w) = true.
Proof.
  intros H1 H2 H3 Hb Hin. unfold after_write. case_bool_decide; [|by apply rel_serve_next].
  split; [|done]. split; try done. by left.
Qed.

Lemma after_write_same status w :
  wk_conn (after_write status w) = wk_conn w /\ wk_done (after_write status w) = wk_done w.
Proof. unfold after_write, serve_next. by case_if. Qed.

Lemma wp_worker_read st s i w wld :
  tcp_inv st s -> holds s wld -> ts_workers st !! i = Some w -> wk_pc w = WorkerRead ->
  wp safe (worker_step config options (ts_gateway st) w) (fun r w' => inv (step_worker i r.1 r.2 st) w') wld.
Proof.
  intros Hi Hs Hw Hpc. assert (wk_open w = true) as Ho by (unfold wk_open; by rewrite Hpc).
  destruct (worker_conn st s i w Hi Hw Ho) as (Hdone & c & Hc & Hr). pose proof (wr_pc _ _ Hr) as Hp. rewrite Hpc in Hp.
  destruct Hp as (Hb & Hin & Hlo). unfold worker_step, read_retry. rewrite Hpc, (ti_gateway _ _ Hi). apply wp_bind, wp_bind.
  eapply wp_call_plain; [done|exact Hs|]. intros a Ha. cbn [step_call]. rewrite Hc. cbn [mbind option_bind].
  assert (forall w' c' wld', wk_conn w' = wk_conn w -> wk_open w' = true -> wk_done w' = wk_done w -> worker_rel w' c' ->
    holds (put_conn (wk_conn w) c' s) wld' -> inv (step_worker i w' (as_engine s) st) wld') as Hnext.
  { intros w' c' wld' ? ? ? ? Hh. eapply inv_worker_open; [done..|]. by rewrite put_engine_id. }
  assert (forall wld', holds s wld' -> holds (put_conn (wk_conn w) c s) wld') as Hsame.
  { intros wld' Hh. by rewrite put_conn_id. }
  destruct a as [n|e|[|b bs]|evs]; cbn [admissible] in Ha; try done; cbn [step_read].
  - eexists. split; [done|]. cbn [tp_transient tcp_transport]. intros Hs'. apply wp_ret.
    destruct (decide (e = EINTR)) as [->|Hne].
    + rewrite bool_decide_true by done. apply wp_ret. by eapply Hnext; [..|apply Hsame].
    + rewrite (bool_decide_false (e = EINTR)) in Hs' by done. rewrite bool_decide_false by congruence. apply wp_ret.
      eapply Hnext; [..|exact Hs']; try done. split; try apply Hr. by right.
  - eexists. split; [done|]. intros Hs'. apply wp_ret. rewrite bool_decide_false by done. apply wp_ret.
    eapply Hnext; [..|by apply Hsame]; try done. apply rel_goto; [done|]. by left.
  - rewrite (wr_logged_out _ _ Hr), Hlo, Hin. cbn [orb negb is_nil tp_mutex tcp_transport]. eexists. split; [done|].
    intros Hs'. apply wp_ret. rewrite bool_decide_false by done. apply wp_ret.
    eapply Hnext; [..|exact Hs']; try done. split; try apply Hr. cbn. split_and!; done.
Qed.

Lemma response_limit_range : 0 <= response_limit options <= size_max.
Proof. unfold response_limit. case_if; [done|]. lia. Qed.

Lemma wp_worker_lock st s i w input wld :
  tcp_inv st s -> holds s wld -> ts_workers st !! i = Some w -> wk_pc w = WorkerLock input ->
  wp safe (worker_step config options (ts_gateway st) w) (fun r w' => inv (step_worker i r.1 r.2 st) w') wld.
Proof.
  intros Hi Hs Hw Hpc. assert (wk_open w = true) as Ho by (unfold wk_open; by rewrite Hpc).
  destruct (worker_conn st s i w Hi Hw Ho) as (Hdone & c & Hc & Hr). pose proof (wr_pc _ _ Hr) as Hp. rewrite Hpc in Hp.
  destruct Hp as (Hb & Hin & Hne & Hlo). unfold worker_step. rewrite Hpc, (ti_gateway _ _ Hi). apply wp_bind, wp_bind.
  eapply wp_call_plain; [done|exact Hs|]. intros a Ha. cbn [step_call]. rewrite Hc. cbn [mbind option_bind]. unfold step_lock.
  rewrite Hin. destruct (is_nil input) eqn:En; [by destruct input|]. unfold step_deliver, deliver.
  change (backlog (hold [] c)) with (backlog c). rewrite Hb.
  cbn [cn_inbuf cn_logged_out cn_replies cn_wire cn_broken cn_input hold tp_limit tcp_transport].
  rewrite (wr_inbuf _ _ Hr), (wr_logged_out _ _ Hr).
  pose proof (output_within_budget config (response_limit options) (mkSession (wk_inbuf w) (wk_logged_out w) (as_engine s)) input []) as Hlim.
  destruct (on_bytes_into _ _ _ _ _) as [[status out] session] eqn:E. cbn [fst snd] in Hlim.
  rewrite drop_0. set (c' := mkConn _ _ _ _ _ _).
  assert (backlog c' = out) as Hb'.
  { unfold backlog, c'. cbn [cn_wire cn_replies]. rewrite drop_app_le by apply Hr. unfold backlog in Hb. by rewrite Hb. }
  rewrite Hb', (proj2 (Z.leb_le _ _)) by (apply Hlim; apply response_limit_range).
  eexists. split; [done|]. intros Hs'. apply wp_ret, wp_ret.
  assert ((cn_wire c' <= length (cn_replies c'))%nat) as Hwire.
  { cbn. rewrite length_app. pose proof (wr_wire _ _ Hr). lia. }
  cbn [fst snd]. destruct (is_nil out) eqn:Eo; cbn [negb].
  - set (w1 := mkConnectionWorker _ _ _ _ _).
    destruct (rel_after_write status w1 c') as [Hr' Ho']; try done; [by destruct out|].
    destruct (after_write_same status w1) as [E1 E2].
    eapply (inv_worker_open st s i w _ _ c'); [done|done|done|by rewrite E1|done|by rewrite E2|done|exact Hs'].
  - eapply (inv_worker_open st s i w _ _ c'); [done|done|done|done|done|done| |exact Hs'].
    split; try done. cbn. split_and!; [done|destruct out; [done|cbn; lia]|done].
Qed.

Lemma wp_worker_write st s i w response offset status wld :
  tcp_inv st s -> holds s wld -> ts_workers st !! i = Some w -> wk_pc w = WorkerWrite response offset status ->
  wp safe (worker_step config options (ts_gateway st) w) (fun r w' => inv (step_worker i r.1 r.2 st) w') wld.
Proof.
  intros Hi Hs Hw Hpc. assert (wk_open w = true) as Ho by (unfold wk_open; by rewrite Hpc).
  destruct (worker_conn st s i w Hi Hw Ho) as (Hdone & c & Hc & Hr). pose proof (wr_pc _ _ Hr) as Hp. rewrite Hpc in Hp.
  destruct Hp as (Hb & Hoff & Hin). unfold worker_step, write_all_step. rewrite Hpc, (ti_gateway _ _ Hi). apply wp_bind, wp_bind.
  assert (forall w' c' wld', wk_conn w' = wk_conn w -> wk_open w' = true -> wk_done w' = wk_done w -> worker_rel w' c' ->
    holds (put_conn (wk_conn w) c' s) wld' -> inv (step_worker i w' (as_engine s) st) wld') as Hnext.
  { intros w' c' wld' ? ? ? ? Hh. eapply inv_worker_open; [done..|]. by rewrite put_engine_id. }
  eapply wp_call_plain; [done|exact Hs|]. intros a Ha. cbn [step_call]. rewrite Hc. cbn [mbind option_bind]. unfold step_send.
  rewrite bool_decide_true by done. cbn [admissible] in Ha. rewrite <- Hb in Ha.
  destruct a as [n|e|b|evs]; try done; (eexists; split; [done|]); intros Hs'.
  - destruct (Z.eqb_spec n 0) as [->|Hn]; apply wp_ret; [apply wp_ret|].
    { eapply Hnext; [..|exact Hs']; try done. split; try apply Hr. by right. }
    set (k := Z.to_nat n) in *. assert (k <= length (backlog c))%nat as Hk by lia.
    pose proof (backlog_advance k c) as Hb'. rewrite Hb, drop_drop in Hb'.
    assert ((cn_wire (advance k c) <= length (cn_replies (advance k c)))%nat) as Hwire.
    { cbn. unfold backlog in Hk. rewrite length_drop in Hk. pose proof (wr_wire _ _ Hr). lia. }
    destruct (Nat.ltb_spec (offset + k) (length response)) as [Hl|Hl]; apply wp_ret.
    + eapply Hnext; [..|exact Hs']; try done. split; try apply Hr; [done|]. cbn. split_and!; done.
    + destruct (rel_after_write status w (advance k c)) as [Hr' Ho']; try apply Hr; try done.
      { rewrite Hb'. by apply drop_ge. }
      destruct (after_write_same status w) as [E1 E2]. by eapply Hnext.
  - cbn [tp_transient tcp_transport] in Hs'. apply wp_ret. case_bool_decide; apply wp_ret.
    + eapply (Hnext _ c); try done; [|by rewrite put_conn_id].
      apply rel_goto; [done|]. by split_and!.
    + eapply Hnext; [..|exact Hs']; try done. split; try apply Hr. by right.
Qed.

Lemma wp_worker_close st s i w wld :
  tcp_inv st s -> holds s wld -> ts_workers st !! i = Some w -> wk_pc w = WorkerClose ->
  wp safe (worker_step config options (ts_gateway st) w) (fun r w' => inv (step_worker i r.1 r.2 st) w') wld.
Proof.
  intros Hi Hs Hw Hpc. assert (wk_open w = true) as Ho by (unfold wk_open; by rewrite Hpc).
  destruct (worker_conn st s i w Hi Hw Ho) as (Hdone & c & Hc & Hr). pose proof (wr_pc _ _ Hr) as Hp. rewrite Hpc in Hp.
  unfold worker_step. rewrite Hpc, (ti_gateway _ _ Hi). apply wp_bind, wp_bind. eapply wp_call_plain; [done|exact Hs|].
  intros a _. cbn [step_call]. unfold step_close. rewrite Hc.
  assert (may_close s (wk_conn w) c = true) as ->.
  { unfold may_close. destruct Hp as [->| ->]; [done|]. by rewrite orb_true_r. }
  eexists. split; [done|]. intros Hs'. apply wp_ret, wp_ret. eexists. split; [|exact Hs']. cbn [fst snd].
  apply (inv_worker st s i w (goto WorkerFlag w)
    (put_interest (delete (wk_conn w) (as_interest s)) (put_conns (delete (wk_conn w) (as_conns s)) s))); try done; cbn.
  - intros fd Hne. by rewrite lookup_delete_ne.
  - split; [by cbn; rewrite Hdone|done].
  - rewrite lookup_delete_eq. by split; [intros [? ?]|].
Qed.

(** ** Steps without a call *)

(** A thread whose connection is closed. *)
Lemma inv_closed_worker st s i w w' :
  tcp_inv st s -> ts_workers st !! i = Some w -> wk_open w = false -> wk_open w' = false ->
  (wk_done w' = true -> wk_pc w' = WorkerExit) -> tcp_inv (step_worker i w' (ts_gateway st) st) s.
Proof.
  intros [I1 I2 I3 I4 I5 I6 I7 I8] Hw Ho Ho' Hd. destruct (split_at _ _ _ Hw) as (l1 & l2 & E & Ei & _).
  unfold step_worker. specialize (Ei w'). rewrite E, open_conns_middle, Ho in I3, I4.
  split; cbn [ts_gateway ts_workers ts_acceptor]; rewrite ?Ei, ?open_conns_middle, ?Ho'; try done.
  - rewrite E in I5. apply Forall_app in I5 as [F1 F2]. apply Forall_cons in F2 as [_ F2].
    apply Forall_app. split; [done|]. apply Forall_cons. split; [|done]. split; [done|congruence].
  - intros Hz Hp. specialize (I7 Hz Hp). rewrite E in I7. rewrite length_app in *. cbn in *. lia.
  - intros Hr. specialize (I8 Hr). rewrite E in I8. by destruct l1.
Qed.

(** A worker whose connection is closed leaves the list. *)
Lemma inv_reaped st s i w pc :
  tcp_inv st s -> ts_workers st !! i = Some w -> wk_open w = false ->
  acceptor_conn pc = acceptor_conn (ts_acceptor st) -> pc <> AcceptorReturn ->
  tcp_inv (set_acceptor pc (set_workers (delete i (ts_workers st)) st)) s.
Proof.
  intros [I1 I2 I3 I4 I5 I6 I7 I8] Hw Ho Hpc Hret. destruct (split_at _ _ _ Hw) as (l1 & l2 & E & _ & Ed).
  rewrite E, open_conns_middle, Ho in I3, I4.
  split; cbn [ts_gateway ts_workers ts_acceptor set_acceptor set_workers]; rewrite ?Ed, ?Hpc; try done.
  - rewrite E in I5. apply Forall_app in I5 as [F1 F2]. apply Forall_cons in F2 as [_ F2]. by apply Forall_app.
  - intros Hz Hp. specialize (I7 Hz Hp). rewrite E in I7. rewrite length_app in *. cbn in *. lia.
Qed.

Lemma inv_acceptor st s pc :
  tcp_inv st s -> acceptor_conn pc = acceptor_conn (ts_acceptor st) ->
  (pc = AcceptorReturn -> ts_workers st = []) -> tcp_inv (set_acceptor pc st) s.
Proof. intros [I1 I2 I3 I4 I5 I6 I7 I8] Hpc Hr. split; cbn [ts_gateway ts_workers ts_acceptor set_acceptor]; rewrite ?Hpc; done. Qed.

Lemma new_worker_ok conn s : as_conns s !! conn = Some new_conn -> worker_ok s (new_worker conn).
Proof. intros Hc. split; [done|]. intros _. exists new_conn. split; [done|]. by split; [..|split_and!]. Qed.

(** The connection passes from the acceptor to its worker. *)
Lemma inv_spawned st s conn pc n :
  tcp_inv st s -> acceptor_conn (ts_acceptor st) = [conn] -> acceptor_conn pc = [] -> pc <> AcceptorReturn ->
  at_capacity (ts_workers st) (max_active_connections options) = false ->
  tcp_inv (mkTcpState (ts_gateway st) (ts_workers st ++ [new_worker conn]) pc n) s.
Proof.
  intros [I1 I2 I3 I4 I5 I6 I7 I8] Hh Hpc Hr Hcap. rewrite Hh in *.
  split; cbn [ts_gateway ts_workers ts_acceptor]; rewrite ?Hpc, ?open_conns_app; cbn [app open_conns omap list_omap wk_open wk_pc new_worker serve_next goto wk_conn wk_logged_out negb]; try done.
  - by rewrite Permutation_app_comm.
  - rewrite I4. by rewrite (Permutation_app_comm (open_conns _)).
  - apply Forall_app. split; [done|]. apply Forall_cons. split; [|done]. apply new_worker_ok, I6. set_solver.
  - intros fd Hfd. set_solver.
  - intros Hz Hp. unfold at_capacity in Hcap. rewrite length_app. cbn. lia.
Qed.

Lemma inv_join_finished st s conn i stale :
  tcp_inv st s -> ts_acceptor st = AcceptorReap conn i -> tcp_inv (join_finished_step options conn i stale st) s.
Proof.
  intros Hi Hpc. unfold join_finished_step. destruct (ts_workers st !! i) as [w|] eqn:Hw.
  - destruct (wk_done w && negb stale) eqn:Ed.
    + apply andb_true_iff in Ed as [Ed _]. pose proof (ti_workers _ _ Hi) as Hws. rewrite Forall_lookup in Hws.
      destruct (Hws i w Hw) as [Hd _]. eapply inv_reaped; [done|done|unfold wk_open; by rewrite Hd| |done]. by rewrite Hpc.
    + apply inv_acceptor; [done|by rewrite Hpc|done].
  - unfold admit_connection. destruct (at_capacity _ _) eqn:Ec.
    + apply inv_acceptor; [done|by rewrite Hpc|done].
    + apply inv_spawned; [done|by rewrite Hpc|by case_if|by case_if|done].
Qed.

Lemma inv_join_all st s : tcp_inv st s -> ts_acceptor st = AcceptorJoin -> tcp_inv (join_all_step st) s.
Proof.
  intros Hi Hpc. unfold join_all_step. destruct (ts_workers st) as [|w ws] eqn:Ew.
  - apply inv_acceptor; [done|by rewrite Hpc|done].
  - destruct (wk_pc w) eqn:Ep; try done.
    pose proof (inv_reaped st s 0 w AcceptorJoin Hi) as Hr. rewrite Ew, Hpc in Hr. cbn in Hr.
    unfold set_acceptor, set_workers in *. rewrite Hpc. cbn in Hr. apply Hr; try done. unfold wk_open. by rewrite Ep.
Qed.

(** ** Every thread *)

Lemma wp_worker st i w wld :
  inv st wld -> ts_workers st !! i = Some w ->
  wp safe (worker_step config options (ts_gateway st) w) (fun r w' => inv (step_worker i r.1 r.2 st) w') wld.
Proof.
  intros (s & Hi & Hs) Hw. destruct (wk_pc w) eqn:Hpc.
  - by eapply wp_worker_read.
  - by eapply wp_worker_lock.
  - by eapply wp_worker_write.
  - by eapply wp_worker_close.
  - unfold worker_step. rewrite Hpc. apply wp_ret. exists s. split; [|done].
    apply (inv_closed_worker st s i w); try done. unfold wk_open. by rewrite Hpc.
  - unfold worker_step. rewrite Hpc. apply wp_ret. exists s. split; [|done].
    apply (inv_closed_worker st s i w); try done; unfold wk_open; cbn [fst]; by rewrite Hpc.
Qed.

Lemma wp_accept st s wld :
  tcp_inv st s -> holds s wld -> ts_acceptor st = AcceptorAccept ->
  wp safe (acceptor_step options lf false st) (fun st' w' => inv st' w') wld.
Proof.
  intros Hi Hs Hpc. unfold acceptor_step, accept_retry. rewrite Hpc. apply wp_bind, wp_bind.
  eapply wp_call_plain; [done|exact Hs|]. intros a Ha. cbn [step_call].
  destruct a as [conn|e|b|evs]; cbn [admissible] in Ha; try done.
  - apply andb_true_iff in Ha as [[Hpos%Z.leb_le _]%andb_true_iff Ha]. apply bool_decide_eq_true in Ha.
    assert (as_conns s !! conn = None) as Hn.
    { apply not_elem_of_dom. destruct Hs as (_ & E & _). rewrite E in Ha. set_solver. }
    rewrite bool_decide_true by done. eexists. split; [done|]. intros Hs'. apply wp_ret, wp_ret.
    rewrite (proj2 (Z.ltb_ge _ _)) by lia. eexists. split; [|exact Hs'].
    destruct Hi as [I1 I2 I3 I4 I5 I6 I7 I8]. rewrite Hpc in *. cbn [acceptor_conn app] in *.
    assert (conn ∉ open_conns (ts_workers st)) as Hfresh.
    { apply not_elem_of_dom in Hn. rewrite I4 in Hn. by rewrite elem_of_list_to_set in Hn. }
    split; cbn [ts_gateway ts_workers ts_acceptor set_acceptor acceptor_conn app as_conns put_conn]; try done.
    + by apply NoDup_cons.
    + by rewrite dom_insert_L, I4.
    + eapply (workers_ok_other s _ conn); [|done|done]. intros fd Hne. cbn. by rewrite lookup_insert_ne.
    + intros fd Hfd%list_elem_of_singleton. subst fd. apply lookup_insert_eq.
  - eexists. split; [done|]. intros Hs'. repeat case_if; apply wp_ret, wp_ret; exists s; (split; [|done]).
    + done.
    + apply inv_acceptor; [done|by rewrite Hpc|done].
    + done.
Qed.

Lemma wp_shed st s conn wld :
  tcp_inv st s -> holds s wld -> ts_acceptor st = AcceptorShed conn ->
  wp safe (acceptor_step options lf false st) (fun st' w' => inv st' w') wld.
Proof.
  intros Hi Hs Hpc. unfold acceptor_step. rewrite Hpc. apply wp_bind, wp_bind. eapply wp_call_plain; [done|exact Hs|].
  intros a _. cbn [step_call]. unfold step_close. destruct Hi as [I1 I2 I3 I4 I5 I6 I7 I8]. rewrite Hpc in *. cbn [acceptor_conn app] in *.
  apply NoDup_cons in I3 as [Hn Hnd]. rewrite (I6 conn) by set_solver. eexists. split; [done|]. intros Hs'. apply wp_ret, wp_ret.
  eexists. split; [|exact Hs']. split; cbn; try done.
  - rewrite dom_delete_L, I4. cbn. apply set_eq. intros fd. rewrite elem_of_difference, elem_of_union, !elem_of_list_to_set. set_solver.
  - eapply (workers_ok_other s _ conn); [|done|done]. intros fd Hne. cbn. by rewrite lookup_delete_ne.
  - intros fd Hfd. set_solver.
Qed.

Lemma wp_thread st t wld : inv st wld -> wp safe (thread_step config options lf st t) (fun st' w' => inv st' w') wld.
Proof.
  intros Hw. destruct t as [stale|i]; cbn [thread_step].
  - destruct Hw as (s & Hi & Hs). destruct (ts_acceptor st) as [|conn i|conn| |] eqn:Hpc.
    + pose proof (wp_accept st s wld Hi Hs Hpc) as Hacc. unfold acceptor_step in *. by rewrite Hpc in *.
    + unfold acceptor_step. rewrite Hpc. apply wp_ret. exists s. split; [by apply inv_join_finished|done].
    + pose proof (wp_shed st s conn wld Hi Hs Hpc) as Hacc. unfold acceptor_step in *. by rewrite Hpc in *.
    + unfold acceptor_step. rewrite Hpc. apply wp_ret. exists s. split; [by apply inv_join_all|done].
    + unfold acceptor_step. rewrite Hpc. apply wp_ret. by exists s.
  - destruct (ts_workers st !! i) as [w|] eqn:Ew; [|by apply wp_ret]. apply wp_bind.
    eapply wp_mono; [by apply (wp_worker st i w)|]. intros [w' g] wld' Hi. by apply wp_ret.
Qed.

Lemma wp_run_threads schedule : forall st wld,
  inv st wld -> wp safe (run_threads config options lf schedule st) (fun st' w' => inv st' w') wld.
Proof.
  induction schedule as [|t schedule IH]; intros st wld Hi; cbn [run_threads]; [by apply wp_ret|].
  apply wp_bind. eapply wp_mono; [by apply wp_thread|]. intros st' wld' Hi'. by apply IH.
Qed.
End TcpSpec.

(** ** What the threaded server guarantees *)

Section Setup.
Context {B : Type} `{BookStore B}.
Variable config : RiskConfig.
Variable options : TcpServerOptions.
Hypothesis options_ok : 0 <= max_response_bytes options <= size_max.
Variable e : MatchingEngine B.
Variable base : gset Z.

Abbreviation s0 := (new_server e).
Abbreviation holds := (holds config (tcp_transport options) s0 base).
Abbreviation safe := (safe config (tcp_transport options) s0 base).
Abbreviation idle := (idle config (tcp_transport options) s0 base).

Lemma tcp_setup c a : setup_call c = true -> tp_gives_up (tcp_transport options) c a = false.
Proof. done. Qed.

(** What holds wherever a schedule leads. *)
Definition reached (r : option bool * TcpState B) (w : World) : Prop :=
  exists s, as_engine s = ts_gateway r.2 /\ holds s w /\
    (0 < max_active_connections options -> Z.of_nat (length (ts_workers r.2)) <= max_active_connections options) /\
    (r.1 <> None -> as_conns s = ∅ /\ as_others s = ∅).

Lemma reached_failed w : idle e ∅ w -> reached (Some false, new_tcp_state e) w.
Proof. intros (s & He & Hc & Ho & Hw). exists s. split_and!; try done. cbn. lia. Qed.

Lemma wp_tcp_run host port schedule w :
  idle e ∅ w -> wp safe (Tcp.run config options e host port schedule) reached w.
Proof.
  intros Hw. unfold Tcp.run. apply wp_bind. apply (wp_open _ _ _ _ tcp_setup _ e ∅); [done|done| |].
  2: { intros err w' Hw'. apply wp_ret. by apply reached_failed. }
  intros fd w1 Hfd Hpos Hw1.
  assert (forall w, idle e ({[fd]} ∪ ∅) w -> wp safe (sys_ (SysClose fd);; ret (Some false, new_tcp_state e)) reached w) as Hclose.
  { intros w2 Hw2. apply wp_bind. eapply (wp_close_other _ _ _ _ tcp_setup); [exact Hw2|set_solver|].
    intros w3 Hw3. apply wp_ret. by apply reached_failed. }
  apply wp_bind, wp_bind. eapply (wp_neutral _ _ _ _ tcp_setup); [done|exact Hw1|]. intros a w2 Hw2. apply wp_ret.
  apply wp_bind. eapply (wp_neutral _ _ _ _ tcp_setup); [done|exact Hw2|]. intros a1 w3 Hw3. case_if; [by apply Hclose|].
  apply wp_bind. eapply (wp_neutral _ _ _ _ tcp_setup); [done|exact Hw3|]. intros a2 w4 Hw4. case_if; [by apply Hclose|].
  apply wp_bind. eapply (wp_neutral _ _ _ _ tcp_setup); [done|exact Hw4|]. intros a3 w5 Hw5. case_if; [by apply Hclose|].
  clear Hclose Hw1 Hw2 Hw3 Hw4. destruct Hw5 as (s & He & Hs & Ho & Hw5). apply wp_bind. eapply wp_mono.
  { apply (wp_run_threads config options options_ok s0 base fd ({[fd]} ∪ ∅) schedule (new_tcp_state e)).
    exists s. split; [|exact Hw5]. split; cbn; rewrite ?Hs; try done; first [apply NoDup_nil_2 | lia | set_solver]. }
  intros st w6 (s' & Hi & Hw6). pose proof (ti_cap _ _ _ _ Hi) as Hcap.
  unfold serve_result. destruct (ts_acceptor st) eqn:Epc.
  5: { pose proof (ti_return _ _ _ _ Hi Epc) as Hnil. pose proof (ti_conns _ _ _ _ Hi) as Hd. rewrite Epc, Hnil in Hd.
       apply dom_empty_inv_L in Hd. apply wp_bind. eapply (wp_close_other _ _ _ _ tcp_setup _ (ts_gateway st) ∅); [|set_solver|].
       { exists s'. split_and!; [by rewrite (ti_gateway _ _ _ _ Hi)|done|apply Hi|done]. }
       intros w7 (s2 & E2 & C2 & O2 & Hw7). apply wp_ret. exists s2. split_and!; try done. cbn [snd]. rewrite Hnil. cbn. lia. }
  all: apply wp_ret; exists s'; cbn [fst snd]; split_and!; [by rewrite (ti_gateway _ _ _ _ Hi)|done| |done]; intros Hz; apply Hcap; lia.
Qed.
End Setup.

(** ** The threads wait only for the kernel *)

Section Responsive.
Context {B : Type} `{BookStore B}.
Variable config : RiskConfig.
Variable options : TcpServerOptions.

Lemma responsive_thread lf (st : TcpState B) t : responsive (thread_step config options lf st t).
Proof.
  unfold thread_step, acceptor_step, accept_retry, worker_step, read_retry, write_all_step. repeat responsive_step.
Qed.

Lemma responsive_run_threads lf schedule : forall st : TcpState B, responsive (run_threads config options lf schedule st).
Proof.
  induction schedule as [|t schedule IH]; intros st; cbn [run_threads]; [apply responsive_ret|].
  apply responsive_then; [apply responsive_thread|done].
Qed.

Lemma responsive_tcp_run (e : MatchingEngine B) host port schedule :
  responsive (Tcp.run config options e host port schedule).
Proof. pose proof responsive_run_threads. unfold Tcp.run. repeat responsive_step. Qed.
End Responsive.

(** ** A run of the server *)

(** The client of [demo_script], served by a worker thread. *)
Definition tcp_demo_options : TcpServerOptions := mkTcpServerOptions 8388608 128 1 4.
Definition tcp_demo_script : list Answer :=
  [Ret 3; Ret 0; Ret 1; Ret 0; Ret 0; Failed ECONNABORTED; Ret 5; Data demo_input; Ret 0; Ret 10; Failed EINTR; Ret 98;
   Data []; Ret 0; Ret 0].
Definition tcp_demo_schedule : list Thread :=
  [Acceptor false; Acceptor false; Acceptor false; Worker 0; Worker 0; Acceptor false; Worker 0; Worker 0; Worker 0; Worker 0;
   Worker 0; Worker 0; Acceptor false; Acceptor false].
Definition tcp_demo_run : Outcome (option bool * TcpState OrderBook) :=
  Tcp.run sess_config tcp_demo_options sess_engine "127.0.0.1" 9000 tcp_demo_schedule (mkWorld tcp_demo_script {[0; 1; 2]} []).

(** C8: The threaded server refines the same specification.  However the acceptor
    and the workers are scheduled and whatever the kernel answers: every
    connection gets, byte by byte and in order, the responses of its session to
    its requests, with the sessions driving one gateway one after the other; no
    response of a connection that did not fail is dropped; every descriptor is
    closed exactly once; never more than the configured number of connections
    is served at a time; and when the server returns every worker is joined and
    every descriptor closed.  A thread blocks only inside a call. *)
Theorem tcp_refines_spec {B : Type} `{BookStore B} config options (e : MatchingEngine B) host port schedule answers fds :
  0 <= max_response_bytes options <= size_max ->
  let spec t := server_run config (tcp_transport options) (new_server e) t in
  match Tcp.run config options e host port schedule (mkWorld answers fds []) with
  | Done (result, st) w =>
      (0 < max_active_connections options -> Z.of_nat (length (ts_workers st)) <= max_active_connections options) /\
      exists s, spec (trace w) = Some s /\ as_engine s = ts_gateway st /\
        (result <> None -> as_conns s = ∅ /\ opened w = fds)
  | Waiting w => is_Some (spec (trace w)) /\ script w = []
  | Impossible => True
  end.
Proof.
  intros Hok spec. set (w0 := mkWorld answers fds []).
  pose proof (wp_tcp_run config options Hok e fds host port schedule w0) as Hwp. unfold wp in Hwp.
  pose proof (responsive_tcp_run config options e host port schedule w0) as Hresp. unfold responsive_at in Hresp.
  assert (idle config (tcp_transport options) (new_server e) fds e ∅ w0) as Hset.
  { exists (new_server e). repeat split; cbn; set_solver. }
  specialize (Hwp Hset). destruct (Tcp.run _ _ _ _ _ _ _) as [[r st] w|w|]; [|destruct Hwp as (s & Hr & _); split; [by exists s|done]|done].
  destruct Hwp as (s & He & (Hr & Hop & _) & Hcap & Hend). split; [done|]. exists s. split_and!; [done|done|].
  intros Hn. destruct (Hend Hn) as [Hc Ho]. split; [done|]. rewrite Hop, Hc, Ho. cbn. set_solver.
Qed.

Lemma tcp_refines_spec_witness :
  match tcp_demo_run with Done (r, st) w => r = Some true /\ script w = [] | _ => False end /\
  let spec t := server_run sess_config (tcp_transport tcp_demo_options) (new_server sess_engine) t in
  match tcp_demo_run with
  | Done (result, st) w =>
      (0 < max_active_connections tcp_demo_options ->
       Z.of_nat (length (ts_workers st)) <= max_active_connections tcp_demo_options) /\
      exists s, spec (trace w) = Some s /\ as_engine s = ts_gateway st /\
        (result <> None -> as_conns s = ∅ /\ opened w = {[0; 1; 2]})
  | Waiting w => is_Some (spec (trace w)) /\ script w = []
  | Impossible => True
  end.
Proof.
  split; [vm_compute; by split|].
  apply (tcp_refines_spec sess_config tcp_demo_options sess_engine "127.0.0.1" 9000 tcp_demo_schedule tcp_demo_script {[0; 1; 2]}).
  by vm_compute.
Defined.
