(* ===== verification/PipelineTheorems.v ===== *)
(** * PipelineTheorems: what the threaded pipeline guarantees

    Determinism, completion and race freedom of [ThreadedPipeline] under every
    interleaving of its threads and every delay of the stores they exchange. *)
From S2P Require Import Prelude Core Book BookSpec OrderBook Command Engine Gateway Ring Pipeline PipelineSpec.

Section Theorems.
Context {Sink : Type} (InboundCapacity OutboundCapacity : Z).
Context (moved_command : Command -> Command) (moved_processed : ProcessedCommand -> ProcessedCommand).
Context (risk : RiskConfig) (on_processed : Sink -> ProcessedCommand -> Sink).
Context (perturbation : option PipelinePerturbation) (probe : option PipelineProbe).
Context (commands : list Command) (sink0 : Sink) (command0 : Command) (processed0 : ProcessedCommand).

(** The state of a run of the pipeline after a schedule. *)
Definition run (sched : list (Thread * nat)) : State (B := OrderBook) (Sink := Sink) :=
  run_schedule InboundCapacity OutboundCapacity moved_command moved_processed risk on_processed perturbation sched
    (new_state InboundCapacity OutboundCapacity commands probe sink0 command0 processed0).

Definition base_probe : PipelineProbe := default (mkPipelineProbe 0 0) probe.

Lemma run_reaches sched :
  1 <= InboundCapacity -> 1 <= OutboundCapacity ->
  inv InboundCapacity OutboundCapacity risk on_processed commands sink0 (run sched).
Proof. intros Hi Ho. by apply run_inv, new_state_inv. Qed.

(** C20: The pipeline is deterministic.  Whatever the interleaving of the three
    threads, the staleness of their loads, the queue capacities, the injected
    yields and the probe, the sink has at every moment received, in order, a
    prefix of the records one thread would produce, and when the threads are done
    it has received all of them and the result is that of the sequential run:
    nothing is lost, duplicated or reordered. *)
Theorem pipeline_deterministic (sched : list (Thread * nat)) :
  1 <= InboundCapacity -> 1 <= OutboundCapacity ->
  let '(records, r, e) := process_all risk empty_result (new_engine Baseline) commands in
  let s := run sched in
  (exists k, sink (ctx s) = fold_left on_processed (take k records) sink0) /\
  (finished s = true ->
    sink (ctx s) = fold_left on_processed records sink0 /\
    let f := finish base_probe s in
    pr_snapshot f = snapshot e /\ pr_last_seq f = last_seq e /\
    commands_processed f = commands_processed r /\ commands_accepted f = commands_accepted r /\
    commands_rejected f = commands_rejected r /\ events_emitted f = events_emitted r).
Proof.
  intros Hi Ho. pose proof (run_reaches sched Hi Ho) as Hinv. pose proof (finished_spec _ _ _ _ _ _ _ Hinv) as Hfin.
  pose proof (iv_output _ _ _ _ _ _ _ Hinv) as (_ & _ & Hs & _). unfold engine_after, total in *. rewrite firstn_all in Hfin.
  destruct (process_all risk empty_result (new_engine Baseline) commands) as [[records r] e]. cbn [fst snd] in *.
  split; [by eexists|]. intros Hf. destruct (Hfin Hf) as [Hsink Hres]. unfold finish. rewrite Hres. done.
Qed.

(** C21: The pipeline completes.  A round is fair when every thread takes two
    steps in a row that see the newest stores; however the threads are otherwise
    interleaved and delayed, [12 * commands + 7] fair rounds finish the run, so
    full and empty queues never deadlock it. *)
Theorem pipeline_completes (rounds : list (list (Thread * nat))) :
  1 <= InboundCapacity -> 1 <= OutboundCapacity ->
  Forall fair_round rounds -> 12 * Z.of_nat (length commands) + 7 <= Z.of_nat (length rounds) ->
  finished (run (concat rounds)) = true.
Proof.
  intros Hi Ho Hfair Hlen. apply (fair_rounds_finish InboundCapacity OutboundCapacity moved_command moved_processed risk on_processed
    perturbation commands sink0); [by apply new_state_inv|done|].
  unfold work, in_work, eng_work, out_work, left_of. cbn. lia.
Qed.

(** C22: The rings are race free and bounded.  In every reachable state a ring
    holds at most its capacity, and when its producer is about to write a slot
    while its consumer is about to read one, both slots exist and they differ. *)
Theorem rings_race_free (sched : list (Thread * nat)) :
  1 <= InboundCapacity -> 1 <= OutboundCapacity ->
  let s := run sched in
  let inb := inbound (ctx s) in
  let outb := outbound (ctx s) in
  0 <= Z.of_nat (pushed inb) - Z.of_nat (popped inb) <= InboundCapacity /\
  0 <= Z.of_nat (pushed outb) - Z.of_nat (popped outb) <= OutboundCapacity /\
  (forall tail n head, in_pc (input s) = InputWrite tail n -> eg_pc (engine s) = EngineRead head ->
    0 <= tail < kSlots InboundCapacity /\ 0 <= head < kSlots InboundCapacity /\ tail <> head) /\
  (forall processed tail n head, eg_pc (engine s) = EngineWrite processed tail n -> out_pc (output s) = OutputRead head ->
    0 <= tail < kSlots OutboundCapacity /\ 0 <= head < kSlots OutboundCapacity /\ tail <> head).
Proof.
  intros Hi Ho s inb outb. pose proof (run_reaches sched Hi Ho) as Hinv. fold s in Hinv.
  pose proof (ring_counts _ _ _ _ _ (iv_inbound _ _ _ _ _ _ _ Hinv)) as Ci. pose proof (ring_counts _ _ _ _ _ (iv_outbound _ _ _ _ _ _ _ Hinv)) as Co.
  fold inb in Ci. fold outb in Co. split; [done|]. split; [done|]. split.
  - intros tail n head Ei Ee. pose proof (iv_input _ _ _ _ _ _ _ Hinv) as [_ Hp]. rewrite Ei in Hp. destruct Hp as (_ & _ & -> & _).
    pose proof (iv_engine_pop _ _ _ _ _ _ _ Hinv) as (_ & _ & Hc). rewrite Ee in Hc. destruct Hc as [-> Hlt].
    pose proof (ro_tail_seen _ _ _ _ _ (iv_inbound _ _ _ _ _ _ _ Hinv)) as Hts. fold inb in Hts |- *. apply slots_differ; [done|fold inb in Hlt; lia|lia].
  - intros p tail n head Ee Eo. pose proof (iv_engine_push _ _ _ _ _ _ _ Hinv) as (_ & _ & Hp). rewrite Ee in Hp. destruct Hp as (_ & -> & _).
    pose proof (iv_output _ _ _ _ _ _ _ Hinv) as (_ & _ & _ & Hc). rewrite Eo in Hc. destruct Hc as [-> Hlt].
    pose proof (ro_tail_seen _ _ _ _ _ (iv_outbound _ _ _ _ _ _ _ Hinv)) as Hts. fold outb in Hts |- *. apply slots_differ; [done|fold outb in Hlt; lia|lia].
Qed.
End Theorems.

(** ** Concrete runs *)

(** Two crossing orders through queues of one element. *)
Definition demo_commands : list Command :=
  [RegisterSymbol "X"; NewLimit 0 1 Buy 100 5 GTC; NewLimit 0 2 Sell 100 5 GTC].
Definition demo_risk : RiskConfig := mkRiskConfig 1000 1000000.
Definition demo_processed : ProcessedCommand := mkProcessedCommand (Cancel 0 0) false ReasonNone [].
Definition demo_sink (l : list ProcessedCommand) (p : ProcessedCommand) : list ProcessedCommand := l ++ [p].
Local Abbreviation demo_run := (run 1 1 id id demo_risk demo_sink None None demo_commands [] (Cancel 0 0) demo_processed).

(** Every thread takes two fresh steps; stale steps in between. *)
Definition demo_round : list (Thread * nat) :=
  [(InputThread, 0%nat); (EngineThread, 3%nat); (InputThread, 0%nat); (OutputThread, 1%nat); (EngineThread, 0%nat);
   (EngineThread, 0%nat); (OutputThread, 0%nat); (OutputThread, 0%nat)].

Lemma demo_round_fair : fair_round demo_round.
Proof.
  intros []; unfold serves, demo_round.
  - exists [], [(EngineThread, 3%nat)]. eexists. split; [reflexivity|]. by repeat constructor.
  - exists [(InputThread, 0%nat); (EngineThread, 3%nat); (InputThread, 0%nat); (OutputThread, 1%nat)], []. eexists. split; [reflexivity|constructor].
  - exists [(InputThread, 0%nat); (EngineThread, 3%nat); (InputThread, 0%nat); (OutputThread, 1%nat); (EngineThread, 0%nat); (EngineThread, 0%nat)], [].
    eexists. split; [reflexivity|constructor].
Qed.

Lemma pipeline_completes_witness : finished (demo_run (concat (replicate 43 demo_round))) = true.
Proof.
  apply (pipeline_completes 1 1 id id demo_risk demo_sink None None demo_commands [] (Cancel 0 0) demo_processed
    (replicate 43 demo_round)); [lia|lia|apply Forall_replicate, demo_round_fair|vm_compute; discriminate].
Defined.

Lemma demo_finished : finished (demo_run (concat (replicate 43 demo_round))) = true.
Proof. vm_compute. reflexivity. Qed.

Lemma pipeline_deterministic_witness :
  let '(records, r, e) := process_all (B := OrderBook) demo_risk empty_result (new_engine Baseline) demo_commands in
  sink (ctx (demo_run (concat (replicate 43 demo_round)))) = fold_left demo_sink records [].
Proof.
  pose proof (pipeline_deterministic 1 1 id id demo_risk demo_sink None None demo_commands [] (Cancel 0 0) demo_processed
    (concat (replicate 43 demo_round)) ltac:(lia) ltac:(lia)) as Hd.
  pose proof demo_finished as Hf.
  destruct (process_all demo_risk empty_result (new_engine Baseline) demo_commands) as [[records r] e].
  destruct Hd as [_ Hd]. destruct (Hd Hf) as [Hs _]. exact Hs.
Defined.

Lemma rings_race_free_witness :
  0 <= Z.of_nat (pushed (inbound (ctx (demo_run demo_round)))) - Z.of_nat (popped (inbound (ctx (demo_run demo_round)))) <= 1.
Proof.
  exact (proj1 (rings_race_free 1 1 id id demo_risk demo_sink None None demo_commands [] (Cancel 0 0) demo_processed
    demo_round ltac:(lia) ltac:(lia))).
Defined.
