(* ===== verification/FixTheorems.v ===== *)
(** * FixTheorems: the FIX-like text protocol

    Round trips of the text codec and its agreement with the binary codec, the
    range of what it decodes, and the detection of a corrupted byte. *)
From S2P Require Import Prelude Core Endian Text Protocol Fix FixSpec.

(** ** Round trips *)

(** C33: The text codec is a faithful second encoding of the order messages: an
    encoded NewOrder or CancelOrder fits the message limit, decodes to the message
    that was sent, shows its type and sequence number to the peek functions, and
    decoding it gives what decoding the binary frame of the message gives; and
    neither kind is accepted where the other is expected. *)
Theorem fix_round_trip (m : NewOrder) (k : CancelOrder) (seq : SeqNo) :
  new_order_ok m -> cancel_order_ok k -> in_u64 seq ->
  let dm := Fix.encode_new_order m seq in
  let fm := Fix.encode_cancel_order k seq in
  (Fix.decode_new_order dm = FixOk m /\ peek_msg_type dm = FixOk kMsgNewOrderSingle /\ peek_seq dm = FixOk seq /\
   (length dm <= kMaxMessageLen)%nat) /\
  (Fix.decode_cancel_order fm = FixOk k /\ peek_msg_type fm = FixOk kMsgOrderCancelRequest /\ peek_seq fm = FixOk seq /\
   (length fm <= kMaxMessageLen)%nat) /\
  Protocol.decode_new_order (Protocol.encode_new_order m seq) = mkDecodeResult DecodeNone m /\
  Protocol.decode_cancel_order (Protocol.encode_cancel_order k seq) = mkDecodeResult DecodeNone k /\
  Fix.decode_cancel_order dm = FixFail UnknownMsgType /\ Fix.decode_new_order fm = FixFail UnknownMsgType.
Proof.
  intros Hm Hk Hs dm fm. split; [by apply new_order_text|]. split; [by apply cancel_order_text|].
  split; [rewrite <- (app_nil_r (Protocol.encode_new_order m seq)); by apply decode_encode_new_order|].
  split; [rewrite <- (app_nil_r (Protocol.encode_cancel_order k seq)); by apply decode_encode_cancel_order|].
  unfold dm, fm. rewrite encode_new_order_render, encode_cancel_order_render.
  unfold Fix.decode_cancel_order, Fix.decode_new_order, decode_typed.
  rewrite !parse_envelope_frame by (by apply new_order_body_ok || by apply cancel_order_body_ok). done.
Qed.

Definition fix_order : NewOrder := mkNewOrder 42 7 (-5) 100 Sell Limit IOC.
Definition fix_cancel : CancelOrder := mkCancelOrder 42 7.

Lemma fix_round_trip_witness :
  Fix.decode_new_order (Fix.encode_new_order fix_order 9) = FixOk fix_order /\
  Fix.decode_cancel_order (Fix.encode_cancel_order fix_cancel 9) = FixOk fix_cancel.
Proof.
  destruct (fix_round_trip fix_order fix_cancel 9) as ([H1 _] & [H2 _] & _).
  - unfold new_order_ok, in_u64, in_u32, in_i64, fix_order; cbn; split_and!; done || lia.
  - unfold cancel_order_ok, in_u64, in_u32, fix_cancel; cbn; lia.
  - unfold in_u64; lia.
  - by split.
Defined.

(** ** Integrity *)

(** C32: One corrupted byte never passes the text codec: when any of the four
    entry points accepts a message, replacing any one of its bytes by any other
    byte (a separator, an equals sign, a digit of the checksum or of its tag
    included) makes all four refuse it. *)
Theorem fix_corruption_detected (msg : bytes) (i : nat) (old new : Z) :
  bytes_ok msg -> msg !! i = Some old -> in_u8 new -> old <> new ->
  (exists o, Fix.decode_new_order msg = FixOk o) \/ (exists o, Fix.decode_cancel_order msg = FixOk o) \/
  (exists c, peek_msg_type msg = FixOk c) \/ (exists s, peek_seq msg = FixOk s) ->
  let bad := <[i := new]> msg in
  (exists e, Fix.decode_new_order bad = FixFail e) /\ (exists e, Fix.decode_cancel_order bad = FixFail e) /\
  (exists e, peek_msg_type bad = FixFail e) /\ (exists e, peek_seq bad = FixFail e).
Proof.
  intros Hb Hi Hn Hne Hacc bad.
  assert (exists p, parse_envelope msg = (FixNone, p)) as [p Hp].
  { unfold Fix.decode_new_order, Fix.decode_cancel_order, decode_typed, peek_msg_type, peek_seq in Hacc. destruct (parse_envelope msg) as [e p].
    exists p. f_equal. case_bool_decide; [done|]. cbn [negb] in Hacc. by destruct Hacc as [[? ?]|[[? ?]|[[? ?]|[? ?]]]]. }
  pose proof (parse_envelope_changed msg p i old new Hb Hn Hp Hi Hne) as Hbad.
  unfold Fix.decode_new_order, Fix.decode_cancel_order, decode_typed, peek_msg_type, peek_seq, bad.
  destruct (parse_envelope (<[i := new]> msg)) as [e q]. cbn [fst] in Hbad. rewrite bool_decide_false by done. cbn [negb].
  split_and!; by exists e.
Qed.

Lemma fix_sample_bytes : bytes_ok (Fix.encode_new_order fix_order 9).
Proof. apply (bool_decide_unpack _). vm_compute. exact I. Qed.

Lemma fix_corruption_detected_witness :
  exists e, Fix.decode_new_order (<[60%nat := 56]> (Fix.encode_new_order fix_order 9)) = FixFail e.
Proof.
  eapply (fix_corruption_detected (Fix.encode_new_order fix_order 9) 60 (default 0 (Fix.encode_new_order fix_order 9 !! 60%nat)) 56).
  - exact fix_sample_bytes.
  - vm_compute. reflexivity.
  - unfold in_u8; lia.
  - vm_compute. discriminate.
  - left. exists fix_order. vm_compute. reflexivity.
Defined.

(** ** What decoding yields *)

Lemma reader_integer_inv {T} p tag ty (set : Z -> T -> T) r out :
  reader_integer p tag ty set r = (FixNone, out) -> r.1 = FixNone /\ exists v, it_min ty <= v <= it_max ty /\ out = set v r.2.
Proof.
  unfold reader_integer. destruct r as [e o]. case_bool_decide as He; [subst e|by intros [= ? _]]. unfold require_int.
  destruct (find_field p tag) as [f|]; [|done]. destruct (is_nil _); [done|]. destruct (from_chars ty (fld_value f)) as [v rest| |] eqn:E; try done.
  destruct rest; [|done]. intros [= <-]. split; [done|]. exists v. split; [|done]. by eapply from_chars_range.
Qed.

Lemma reader_coded_inv {T E} p tag (table : list (Z * E)) (set : E -> T -> T) r out :
  reader_coded p tag table set r = (FixNone, out) -> r.1 = FixNone /\ exists c e, om_find c table = Some e /\ out = set e r.2.
Proof.
  unfold reader_coded. destruct r as [e o]. case_bool_decide as He; cbn [negb]; [subst e|by intros [= ? _]].
  unfold require_code. destruct (find_field p tag) as [f|]; [|done]. destruct (fld_value f) as [|c [|? ?]]; [done| |done]. destruct (om_find c table) as [v|] eqn:E'; [|done]. intros [= <-].
  split; [done|]. by exists c, v.
Qed.

Lemma sides_valid c s : om_find c sides = Some s -> is_valid_side s = true.
Proof. unfold sides. cbn [om_find]. repeat (destruct (_ =? _); [by intros [= <-]|]). done. Qed.
Lemma types_valid c t : om_find c types = Some t -> is_valid_order_type t = true.
Proof. unfold types. cbn [om_find]. repeat (destruct (_ =? _); [by intros [= <-]|]). done. Qed.
Lemma tifs_valid c t : om_find c tifs = Some t -> is_valid_tif t = true.
Proof. unfold tifs. cbn [om_find]. repeat (destruct (_ =? _); [by intros [= <-]|]). done. Qed.

Lemma fill_new_order_ok p o out : fill_new_order p (FixNone, o) = (FixNone, out) -> new_order_ok out.
Proof.
  unfold fill_new_order. cbv zeta. intros H.
  apply reader_coded_inv in H as (H & c3 & e3 & F3 & ->). cbn [snd]. order_fields. destruct (reader_coded p kTagOrdType _ _ _) as [e o7] eqn:E7. cbn in H. subst e.
  apply reader_coded_inv in E7 as (H & c2 & e2 & F2 & ->). cbn [snd]. order_fields. destruct (reader_coded p kTagSide _ _ _) as [e o6] eqn:E6. cbn in H. subst e.
  apply reader_coded_inv in E6 as (H & c1 & e1 & F1 & ->). cbn [snd]. order_fields. destruct (reader_integer p kTagPrice _ _ _) as [e o5] eqn:E5. cbn in H. subst e.
  apply reader_integer_inv in E5 as (H & v4 & R4 & ->). cbn [snd]. order_fields. destruct (reader_integer p kTagOrderQty _ _ _) as [e o4] eqn:E4. cbn in H. subst e.
  apply reader_integer_inv in E4 as (H & v3 & R3 & ->). cbn [snd]. order_fields. destruct (reader_integer p kTagSymbol _ _ _) as [e o3] eqn:E3. cbn in H. subst e.
  apply reader_integer_inv in E3 as (H & v2 & R2 & ->). cbn [snd]. order_fields. destruct (reader_integer p kTagClOrdID _ _ _) as [e o2] eqn:E2. cbn in H. subst e.
  apply reader_integer_inv in E2 as (_ & v1 & R1 & ->). cbn [snd]. order_fields. unfold new_order_ok. order_fields.
  cbn [it_min it_max uint32_type uint64_type int64_type] in *.
  split; [in_width|]. split; [in_width|]. split; [in_width|]. split; [in_width|].
  split; [by eapply sides_valid|]. split; [by eapply types_valid|by eapply tifs_valid].
Qed.

Lemma fill_cancel_order_ok p o out : fill_cancel_order p (FixNone, o) = (FixNone, out) -> cancel_order_ok out.
Proof.
  unfold fill_cancel_order. cbv zeta. intros H.
  apply reader_integer_inv in H as (H & v4 & R4 & ->). destruct (reader_integer p kTagClOrdID _ _ _) as [e o4] eqn:E4. cbn in H. subst e.
  apply reader_integer_inv in E4 as (H & v3 & R3 & ->). destruct (reader_integer p kTagOrigClOrdID _ _ _) as [e o3] eqn:E3. cbn in H. subst e.
  apply reader_integer_inv in E3 as (_ & v2 & R2 & ->). cbn [snd]. unfold cancel_order_ok. cbn [co_order_id co_symbol].
  cbn [it_min it_max uint32_type uint64_type] in *. split; in_width.
Qed.

(** Whatever bytes arrive, an order the text codec accepts is well typed:
    every field is in the range of its C++ type and every enum is one of its
    enumerators, so it can be sent on as a binary frame, or as text again, and
    decodes there to the same order. *)
Theorem fix_decoded_well_typed (msg : bytes) (seq : SeqNo) :
  in_u64 seq ->
  (forall o, Fix.decode_new_order msg = FixOk o ->
     new_order_ok o /\ Protocol.decode_new_order (Protocol.encode_new_order o seq) = mkDecodeResult DecodeNone o /\
     Fix.decode_new_order (Fix.encode_new_order o seq) = FixOk o) /\
  (forall k, Fix.decode_cancel_order msg = FixOk k ->
     cancel_order_ok k /\ Protocol.decode_cancel_order (Protocol.encode_cancel_order k seq) = mkDecodeResult DecodeNone k /\
     Fix.decode_cancel_order (Fix.encode_cancel_order k seq) = FixOk k).
Proof.
  intros Hs. split.
  - intros o Ho. assert (new_order_ok o) as Hok.
    { revert Ho. unfold Fix.decode_new_order, decode_typed. destruct (parse_envelope msg) as [e p]. destruct (negb _); [done|].
      destruct (negb _); [done|]. destruct (fill_new_order _ _) as [e' out] eqn:Ef. case_bool_decide; cbn [negb]; [|done]. intros [= ->]. subst e'.
      by eapply fill_new_order_ok. }
    split; [done|]. split; [rewrite <- (app_nil_r (Protocol.encode_new_order o seq)); by apply decode_encode_new_order|by apply new_order_text].
  - intros k Hk. assert (cancel_order_ok k) as Hok.
    { revert Hk. unfold Fix.decode_cancel_order, decode_typed. destruct (parse_envelope msg) as [e p]. destruct (negb _); [done|].
      destruct (negb _); [done|]. destruct (fill_cancel_order _ _) as [e' out] eqn:Ef. case_bool_decide; cbn [negb]; [|done]. intros [= ->]. subst e'.
      by eapply fill_cancel_order_ok. }
    split; [done|]. split; [rewrite <- (app_nil_r (Protocol.encode_cancel_order k seq)); by apply decode_encode_cancel_order|by apply cancel_order_text].
Qed.

Lemma fix_decoded_well_typed_witness :
  Fix.decode_new_order (Fix.encode_new_order fix_order 9) = FixOk fix_order /\ new_order_ok fix_order.
Proof.
  assert (Fix.decode_new_order (Fix.encode_new_order fix_order 9) = FixOk fix_order) as H by (vm_compute; reflexivity).
  split; [exact H|]. destruct (fix_decoded_well_typed (Fix.encode_new_order fix_order 9) 0) as [Ho _]; [unfold in_u64; lia|].
  exact (proj1 (Ho fix_order H)).
Defined.
