(* ===== verification/ShrinkTheorems.v ===== *)
(** * ShrinkTheorems: the shrinker ends in a locally minimal failing stream *)
From Stdlib Require Import ZifyBool.
From S2P Require Import Prelude Core Endian Book BookSpec BookRun Command OrderBook Engine EngineSpec Gateway GatewaySpec Text Shrink Renumber.

Section Passes.
Context (fails : list Command -> bool).

(** No reduction the shrinker knows keeps the failure. *)
Definition locally_minimal (r : list Command) : Prop :=
  (forall i, (i < length r)%nat -> fails (without r i 1) = false) /\
  (forall i c, r !! i = Some c -> with_min_qty c <> c -> fails (<[i := with_min_qty c]> r) = false) /\
  (forall i c, r !! i = Some c -> with_min_price c <> c -> fails (<[i := with_min_price c]> r) = false) /\
  (renumber r <> r -> fails (renumber r) = false).

(** What decreases from pass to pass. *)
Definition pass_measure (c : list Command) : nat := (2 * weight c + if bool_decide (renumber c = c) then 0 else 1)%nat.

Lemma pass_measure_bound c : (pass_measure c <= 6 * length c + 1)%nat.
Proof. unfold pass_measure. pose proof (weight_bounds c). case_bool_decide; lia. Qed.

Lemma pass_ok cur : Z.of_nat (length cur) < 2 ^ 32 ->
  let r := run_reduction_pass fails cur in
  (fails cur = true -> fails r.1 = true) /\ (length r.1 <= length cur)%nat /\
  (r.2 = false -> r.1 = cur /\ locally_minimal cur) /\ (r.2 = true -> (pass_measure r.1 < pass_measure cur)%nat).
Proof.
  intros Hl r. unfold r, run_reduction_pass. pose proof (remove_ranges_ok fails cur) as [H1 M1].
  destruct (remove_contiguous_ranges fails cur) as [c1 h1].
  pose proof (simplify_fields_ok fails c1 with_min_qty with_min_qty_weight) as [H2 M2]. unfold simplify_quantities.
  destruct (simplify_fields fails c1 with_min_qty) as [c2 h2].
  pose proof (simplify_fields_ok fails c2 with_min_price with_min_price_weight) as [H3 M3]. unfold simplify_prices.
  destruct (simplify_fields fails c2 with_min_price) as [c3 h3]. cbn [fst snd] in *.
  pose proof (reduces_trans _ _ _ _ _ _ (reduces_trans _ _ _ _ _ _ H1 H2) H3) as H. destruct H as [F L S W]. cbn [fst snd] in *.
  unfold renumber_symbols_and_orders. pose proof (renumber_length c3) as [Rl Rw]. pose proof (renumber_idempotent c3 ltac:(lia)) as Ri.
  case_bool_decide as Hr; cbn [negb andb]; [|destruct (fails (renumber c3)) eqn:Ef]; cbn [fst snd orb].
  - split; [done|]. split; [done|]. split.
    + intros Hh. split; [by apply S|]. apply orb_false_elim in Hh as [-> [-> ->]%orb_false_elim].
      pose proof (rd_same _ _ _ H1 eq_refl) as E1. pose proof (rd_same _ _ _ H2 eq_refl) as E2. pose proof (rd_same _ _ _ H3 eq_refl) as E3.
      cbn in E1, E2, E3. subst c3 c2 c1. split; [by apply M1|]. split; [by apply M2|]. split; [by apply M3|done].
    + intros Hh. rewrite Hh in W. unfold pass_measure. rewrite (bool_decide_true (renumber c3 = c3)) by done. case_bool_decide; lia.
  - split; [done|]. split; [lia|]. split; [done|]. intros _. unfold pass_measure. rewrite (bool_decide_true (renumber (renumber c3) = renumber c3)) by done.
    destruct (h3 || (h2 || h1)) eqn:Eh; [case_bool_decide; lia|]. rewrite (S eq_refl) in *.
    rewrite (bool_decide_false (renumber cur = cur)) by done. lia.
  - split; [done|]. split; [done|]. split.
    + intros Hh. split; [by apply S|]. apply orb_false_elim in Hh as [-> [-> ->]%orb_false_elim].
      pose proof (rd_same _ _ _ H1 eq_refl) as E1. pose proof (rd_same _ _ _ H2 eq_refl) as E2. pose proof (rd_same _ _ _ H3 eq_refl) as E3.
      cbn in E1, E2, E3. subst c3 c2 c1. split; [by apply M1|]. split; [by apply M2|]. split; [by apply M3|done].
    + intros Hh. rewrite Hh in W. unfold pass_measure. case_bool_decide; case_bool_decide; lia.
Qed.
End Passes.

(** C18: The shrinker terminates and returns a locally minimal counterexample.
    For every failure predicate, a stream that fails is reduced, after at most six
    passes per command and two more, to one that still fails and is no longer; the
    loop ends because a pass changed nothing, and then removing any one command,
    lowering any quantity or price to one, or renumbering the ids loses the
    failure.  A stream that does not fail is returned as it is. *)
Theorem shrink_minimal (fails : list Command -> bool) (cmds : list Command) :
  Z.of_nat (length cmds) < 2 ^ 32 ->
  let '(r, passes) := shrink fails cmds in
  (fails cmds = false -> r = cmds /\ passes = 0%nat) /\
  (fails cmds = true ->
    fails r = true /\ (length r <= length cmds)%nat /\ (1 <= passes <= 6 * length cmds + 2)%nat /\
    run_reduction_pass fails r = (r, false) /\ locally_minimal fails r).
Proof.
  intros Hl. unfold shrink. destruct (fails cmds) eqn:Ef; cbn [negb]; [|done].
  pose (P := fun s : list Command * nat * bool =>
    fails s.1.1 = true /\ (length s.1.1 <= length cmds)%nat /\
    (if s.2 then s.1.2 + pass_measure s.1.1 <= pass_measure cmds else 1 <= s.1.2 <= pass_measure cmds + 1)%nat /\
    (s.2 = false -> run_reduction_pass fails s.1.1 = (s.1.1, false) /\ locally_minimal fails s.1.1)).
  assert (forall s, P s -> s.2 = true -> P (pass_step fails s) /\
    ((if (pass_step fails s).2 then pass_measure (pass_step fails s).1.1 + 1 else 0) < (if s.2 then pass_measure s.1.1 + 1 else 0))%nat) as Hstep.
  { intros [[c k] ch] (F & L & K & _) Hch. cbn [fst snd] in *. subst ch. unfold pass_step. pose proof (pass_ok fails c ltac:(lia)) as (P1 & P2 & P3 & P4).
    destruct (run_reduction_pass fails c) as [c' ch'] eqn:Ep. cbn [fst snd] in *. destruct ch'.
    - specialize (P4 eq_refl). split; [|lia]. split; cbn [fst snd]; [auto|]. split; [lia|]. split; [lia|done].
    - destruct (P3 eq_refl) as [-> Hm]. split; [|lia]. split; cbn [fst snd]; [auto|]. split; [lia|]. split; [lia|]. intros _. by split. }
  assert (P (cmds, 0%nat, true)) as H0 by (split; cbn [fst snd]; [done|split; [lia|split; [lia|done]]]).
  assert (P (while (pass_bound cmds) snd (pass_step fails) (cmds, 0%nat, true))) as HP by (apply while_inv; [intros s Hs Hc; by apply Hstep|done]).
  assert ((while (pass_bound cmds) snd (pass_step fails) (cmds, 0%nat, true)).2 = false) as Hexit.
  { apply (while_exits_inv snd (pass_step fails) P (fun s => if s.2 then (pass_measure s.1.1 + 1)%nat else 0%nat)); [done|done|].
    cbn [fst snd]. unfold pass_bound. pose proof (pass_measure_bound cmds). lia. }
  destruct (while _ _ _ _) as [[r passes] ch]. destruct HP as (F & L & K & M). cbn [fst snd] in *. subst ch. split; [done|]. intros _.
  destruct (M eq_refl) as [M1 M2]. pose proof (pass_measure_bound cmds). split; [done|]. split; [done|]. split; [lia|done].
Qed.

(** A stream with a crossing pair, an unused symbol and a cancel. *)
Definition noisy_commands : list Command :=
  [RegisterSymbol "ABC"; RegisterSymbol "XYZ"; NewLimit 1 70 Buy 100 10 GTC; Cancel 1 99; NewLimit 1 80 Sell 90 4 GTC].
Definition produces_trade (cmds : list Command) : bool := (0 <? count_trades (B := OrderBook) cmds 20 1000)%nat.

Lemma shrink_minimal_witness :
  let '(r, passes) := shrink produces_trade noisy_commands in
  (produces_trade noisy_commands = false -> r = noisy_commands /\ passes = 0%nat) /\
  (produces_trade noisy_commands = true ->
    produces_trade r = true /\ (length r <= length noisy_commands)%nat /\ (1 <= passes <= 6 * length noisy_commands + 2)%nat /\
    run_reduction_pass produces_trade r = (r, false) /\ locally_minimal produces_trade r).
Proof. apply (shrink_minimal produces_trade noisy_commands). cbn. lia. Defined.

(** ** Renumbering *)

Lemma translate_ok R fs fi cmds : forall k,
  Forall command_ok cmds -> (forall s, s ∈ symbols_of cmds -> in_u32 (fs s)) -> (forall id, in_u64 (fi id)) ->
  Forall command_ok (translate R fs fi k cmds).
Proof.
  induction cmds as [|c cmds IH]; intros k Hok Hfs Hfi; [constructor|]. apply Forall_cons in Hok as [Hc Hok].
  assert (forall s, s ∈ symbols_of cmds -> in_u32 (fs s)) as Hfs'.
  { intros s Hs. apply Hfs. unfold symbols_of. change (c :: cmds) with ([c] ++ cmds). rewrite omap_app. apply elem_of_app. by right. }
  destruct c as [name|sym id side price q tif|sym id side q|sym id|sym id price q]; cbn [translate].
  1: { apply Forall_app. split; [case_bool_decide; by repeat constructor|by apply IH]. }
  all: assert (in_u32 (fs sym)) as Hsym by (apply Hfs; apply list_elem_of_here); constructor; [|by apply IH]; cbn [rename_command command_ok] in *; naive_solver.
Qed.

Lemma count_trades_results cmds q v : Forall command_ok cmds ->
  count_trades (B := OrderBook) cmds q v =
    sum_list (map (fun r => trades_in (g_events r)) (a_gateway_all (mkRiskConfig q v) a_engine_empty cmds).1).
Proof.
  intros Hok. pose proof (gateway_all_refines (HL := baseline_laws) ltac:(done) (mkRiskConfig q v) cmds (new_engine Baseline) (new_engine_wf _) Hok) as [_ Hr].
  change (e_abs (new_engine Baseline)) with a_engine_empty in Hr. rewrite Hr. cbn [fst]. unfold count_trades. clear.
  change (sum_list _) with (0 + sum_list (map (fun r => trades_in (g_events r)) (gateway_all (mkRiskConfig q v) (new_engine (B := OrderBook) Baseline) cmds).1))%nat.
  generalize 0%nat. generalize (new_engine (B := OrderBook) Baseline). induction cmds as [|c cmds IH]; intros e k; [cbn; lia|].
  cbn [fold_left gateway_all]. unfold count_step at 2. destruct (apply_command _ e c) as [r e1]. rewrite IH.
  destruct (gateway_all _ e1 cmds) as [rs e2]. cbn [fst map sum_list sum_list_with]. unfold trades_in, id. lia.
Qed.

(** Different arguments of [l] have different images. *)
Definition injective_on (l : list Z) (f : Z -> Z) : Prop := forall a b, a ∈ l -> b ∈ l -> f a = f b -> a = b.

Lemma map_identity {A} (f : A -> A) l : (forall x, f x = x) -> map f l = l.
Proof. intros H. induction l as [|x l IH]; cbn; [done|]. by rewrite H, IH. Qed.

Lemma renumber_simulates cmds :
  Forall command_ok cmds -> Z.of_nat (length cmds) < 2 ^ 32 ->
  Forall command_ok (renumber cmds) /\
  exists fs fi, injective_on (symbols_of cmds) fs /\ injective_on (ids_of cmds) fi /\
    forall config, order_results (renumber cmds) (a_gateway_all config a_engine_empty (renumber cmds)).1 =
      map (rename_result fs fi) (order_results cmds (a_gateway_all config a_engine_empty cmds).1).
Proof.
  intros Hok Hl. rewrite renumber_spec. destruct (has_duplicate_symbol_registration_names cmds) eqn:Ed.
  { split; [done|]. exists id, id. split; [by intros a b _ _|]. split; [by intros a b _ _|]. intros config. symmetry. apply map_identity.
    intros [acc reason events]. unfold rename_result. cbn [g_accepted g_reason g_events]. f_equal. apply map_identity. by intros []. }
  set (R := collect_referenced_symbols cmds). set (remap := build_symbol_remap cmds R).
  pose proof (fun x => build_symbol_remap_spec cmds R x Hl) as Hremap. pose proof (regs_length cmds) as Hrl.
  assert (Z.of_nat (regs cmds) < 2 ^ 32) as Hn by lia.
  assert (Forall (fun s => s ∈ R) (symbols_of cmds)) as Hsym by (apply Forall_forall; intros s Hs; by apply collect_spec).
  rewrite (run_translates R (regs cmds) remap Hn Hremap cmds ltac:(lia)).
  split.
  - apply translate_ok; [done| |intros id; by apply final_id_range]. intros s Hs.
    rewrite (remap_symbol_spec R (regs cmds) remap Hremap) by (by apply collect_spec). destruct (in_range s (regs cmds)) eqn:Er.
    + pose proof (rank_bounds R (Z.to_nat s)). unfold in_range in Er. unfold in_u32. lia.
    + clear -Hok Hs. unfold symbols_of in Hs. apply list_elem_of_omap in Hs as (c & Hc & Hs). rewrite Forall_forall in Hok. specialize (Hok c Hc).
      destruct c; cbn in *; naive_solver.
  - exists (remap_symbol remap), (final_id remap cmds).
    split; [intros a b Ha Hb; apply (remap_symbol_inj R (regs cmds) remap Hremap); by apply collect_spec|].
    split; [intros a b Ha Hb; by apply final_id_inj|]. intros config.
    apply (sim_all config R (regs cmds) remap Hn Hremap (final_id remap cmds) (fun id => id ∈ ids_of cmds)); try done.
    + intros a b Ha Hb. by apply final_id_inj.
    + apply duplicate_names_spec in Ed as [Hnd _]. done.
    + apply Forall_forall. done.
    + apply sim_empty.
Qed.

(** C19: Renumbering keeps the meaning of a stream.  It is idempotent, and there
    are injective renamings of the symbols and the order ids of the stream under
    which the gateway gives every order command of the renumbered stream the
    outcome of the original one, with the same decisions, reject reasons, trades
    and sequence numbers; so the number of trades is the same. *)
Theorem renumber_preserves (config : RiskConfig) (cmds : list Command) :
  Forall command_ok cmds -> Z.of_nat (length cmds) < 2 ^ 32 ->
  let outcomes c := order_results c (gateway_all config (new_engine (B := OrderBook) Baseline) c).1 in
  renumber (renumber cmds) = renumber cmds /\
  (exists fs fi, injective_on (symbols_of cmds) fs /\ injective_on (ids_of cmds) fi /\
    outcomes (renumber cmds) = map (rename_result fs fi) (outcomes cmds)) /\
  forall q v, count_trades (B := OrderBook) (renumber cmds) q v = count_trades (B := OrderBook) cmds q v.
Proof.
  intros Hok Hl outcomes. destruct (renumber_simulates cmds Hok Hl) as (Hok' & fs & fi & Hfs & Hfi & Hsim).
  assert (forall c, Forall command_ok c -> outcomes c = order_results c (a_gateway_all config a_engine_empty c).1) as Ho.
  { intros c Hc. pose proof (gateway_all_refines (HL := baseline_laws) ltac:(done) config c (new_engine Baseline) (new_engine_wf _) Hc) as [_ Hr].
    change (e_abs (new_engine Baseline)) with a_engine_empty in Hr. by rewrite Hr. }
  split; [by apply renumber_idempotent|]. split; [exists fs, fi; rewrite !Ho by done; by rewrite Hsim|].
  intros q v. rewrite !count_trades_results by done. rewrite <- !order_results_trades, Hsim, map_map. f_equal. apply map_ext. intros r. apply trades_in_rename.
Qed.

Lemma noisy_commands_ok : Forall command_ok noisy_commands.
Proof. repeat constructor; done. Qed.

Lemma renumber_preserves_witness :
  renumber noisy_commands = [RegisterSymbol "S0"; NewLimit 0 0 Buy 100 10 GTC; Cancel 0 1; NewLimit 0 2 Sell 90 4 GTC] /\
  count_trades (B := OrderBook) (renumber noisy_commands) 20 1000 = count_trades (B := OrderBook) noisy_commands 20 1000.
Proof.
  split; [vm_compute; reflexivity|].
  apply (renumber_preserves (mkRiskConfig 20 1000) noisy_commands noisy_commands_ok ltac:(cbn; lia)).
Defined.
