(* ===== verification/DiffTheorems.v ===== *)
(** * DiffTheorems: the C++ and the OCaml engine agree

    The properties of the differential test: the two engines compute the same
    snapshot on every stream, a fixture is read back as it was written, and no
    fixture the exporter writes is reported as divergent. *)
From Stdlib Require Import ZifyBool.
From S2P Require Import Prelude Core Endian Text Book BookSpec OrderBook Command Engine EngineSpec Gateway GatewaySpec Shrink Flow Fixture ReplayEngine StreamParser ReplayBook ReplaySpec FixtureSpec FlowSpec.

(** The C++ side of a run: the outcome of every command and the final engine. *)
Definition cpp_run (config : RiskConfig) (cmds : list Command) : list GatewayResult * MatchingEngine OrderBook :=
  gateway_all config (new_engine Baseline) cmds.

Lemma cpp_run_abs config cmds :
  Forall command_ok cmds ->
  engine_wf (cpp_run config cmds).2 /\ a_gateway_all config a_engine_empty cmds = ((cpp_run config cmds).1, e_abs (cpp_run config cmds).2).
Proof.
  intros Hok. assert (unbounded OrderBook) as Hu by (split; [|split]; done).
  by apply (gateway_all_refines (HL := baseline_laws) Hu config cmds (new_engine Baseline) (new_engine_wf _) Hok).
Qed.

(** Both runs, related. *)
Lemma runs_agree config cmds :
  0 <= max_notional config -> Forall command_ok cmds -> Z.of_nat (length cmds) < 2 ^ 30 ->
  exists st, replay (meta_of config) (map ocaml_command cmds) = Some st /\
    agrees config (Z.of_nat (length cmds)) st (e_abs (cpp_run config cmds).2) (results_trades (cpp_run config cmds).1).
Proof.
  intros Hn Hok Hlen. destruct (cpp_run_abs config cmds Hok) as [_ Ha].
  destruct (replay_agrees config cmds 0 (initial (meta_of config)) a_engine_empty 0 Hn) as (st & Hst & Hag); [lia|lia|done|apply agrees_initial|].
  rewrite Ha in Hag. exists st. split; [exact Hst|]. exact Hag.
Qed.


(** ** Fixtures *)

Section Fixture.
Context (p : FixtureParams) (flow : list Command) (comments : list bytes).
Context (Hp : params_ok p) (Hflow : Forall fixture_command flow) (Hlen : Z.of_nat (length flow) < 2 ^ 30) (Hcom : Forall comment_line comments).

Let config := config_of p.
Let rs := (cpp_run config flow).1.
Let final := snapshot_of (Engine.snapshot (cpp_run config flow).2) (results_trades rs).

Lemma flow_typed : Forall command_ok flow.
Proof using Hflow. eapply Forall_impl; [exact Hflow|]. by intros c [? _]. Qed.

Lemma run_typed : Forall (fun r => Forall (event_ok order_range) (g_events r)) rs /\ snap_ok final /\ length rs = length flow.
Proof using Hp Hflow Hlen.
  pose proof flow_typed as Hok. destruct (cpp_run_abs config flow Hok) as [Hwf Ha]. destruct Hp as (_ & _ & _ & _ & Hn). unfold nat62 in Hn.
  destruct (runs_agree config flow ltac:(cbn; lia) Hok Hlen) as (st & _ & Hag).
  pose proof (a_gateway_all_ok order_range config flow a_engine_empty) as Hty. rewrite Ha in Hty. cbn [fst snd] in Hty. destruct Hty as [H1 H2]; [constructor|done| |].
  { eapply Forall_impl; [exact Hflow|]. intros c [Hc Hf]. destruct c; cbn in *; try done; destruct Hf as [Hi Hx]; split; [unfold nat62, in_u64 in *; lia|done|unfold nat62, in_u64 in *; lia|done]. }
  split; [done|]. split.
  - unfold final. rewrite snapshot_spec by done. by eapply snapshot_readable.
  - clear -config. unfold rs, cpp_run. generalize (new_engine (B := OrderBook) Baseline) as e. induction flow as [|c cmds IH]; intros e; [done|]. cbn [gateway_all].
    destruct (apply_command config e c) as [r e1]. specialize (IH e1). destruct (gateway_all config e1 cmds) as [rs' e2]. cbn in *. by rewrite IH.
Qed.

Definition fixture_lines : list bytes :=
  comments ++ [banner; text "version 1"; line_of (meta_words p)] ++ lines_of (body_words flow rs) ++ snapshot_to_lines final.

Lemma run_and_emit_lines : run_and_emit (B := OrderBook) (unlines comments) p flow = unlines fixture_lines.
Proof using Hp Hflow Hlen.
  destruct run_typed as (_ & Hs & _). unfold run_and_emit. fold (config_of p). fold config. rewrite emit_loop by (unfold in_u64; lia). cbv zeta.
  fold (cpp_run config flow). fold rs. assert (u64 (0 + results_trades rs) = results_trades rs) as ->.
  { destruct Hs as (_ & Ht & _). unfold nat62 in Ht. change (n_trades final) with (results_trades rs) in Ht. rewrite Z.add_0_l. apply u64_small. lia. }
  rewrite emit_snapshot_lines by done. fold final. rewrite emit_header_lines. unfold fixture_lines. by rewrite !unlines_app, <- !app_assoc.
Qed.

Lemma fixture_lines_free : Forall (fun l => 10 ∉ l) fixture_lines.
Proof using Hp Hflow Hlen Hcom.
  destruct run_typed as (He & Hs & _). unfold fixture_lines. apply Forall_app. split; [eapply Forall_impl; [exact Hcom|]; by intros l []|].
  apply Forall_app. split; [|apply Forall_app; split; [by apply body_free|by apply snapshot_lines_free]].
  constructor; [apply (bool_decide_unpack _); vm_compute; exact I|]. constructor; [apply (bool_decide_unpack _); vm_compute; exact I|].
  constructor; [by apply line_of_free, meta_words_tokens|constructor].
Qed.

Lemma banner_comment : comment_line banner.
Proof. split; [done|]. apply (bool_decide_unpack _). vm_compute. exact I. Qed.

Lemma version_skipped : (forall st, handle st (text "version 1") = Some st) /\ (forall st, handle_snapshot st (text "version 1") = Some st).
Proof. split; [done|]. by intros [[ls t] syms]. Qed.

(** The commands of the lines. *)
Lemma parse_fixture_commands : parse_lines fixture_lines = Some (meta_of config, map ocaml_command flow).
Proof using Hp Hflow Hlen Hcom.
  destruct run_typed as (He & Hs & Hl). unfold parse_lines, fixture_lines. rewrite !iter_opt_app.
  rewrite iter_skip by (intros l st Hl'; apply handle_comment; rewrite Forall_forall in Hcom; by apply Hcom).
  rewrite !iter_opt_cons, (handle_comment _ _ banner_comment), iter_opt_cons, (proj1 version_skipped), iter_opt_cons, handle_meta by done.
  change (iter_opt handle [] ?x) with x. cbn [snd]. destruct (handle_body flow rs (Some (meta_of (config_of p)), []) Hl Hflow He) as [Hb _].
  unfold config. rewrite Hb, handle_snapshot_lines by done. cbn. by rewrite app_nil_r, rev_involutive.
Qed.

(** The snapshot of the lines. *)
Lemma parse_fixture_snapshot : iter_opt handle_snapshot fixture_lines (Some (0, 0, [])) = Some (os_last_seq final, n_trades final, rev (symbols final)).
Proof using Hp Hflow Hlen Hcom.
  destruct run_typed as (He & Hs & Hl). unfold fixture_lines. rewrite !iter_opt_app.
  rewrite iter_skip by (intros l st Hl'; apply handle_snapshot_comment; rewrite Forall_forall in Hcom; by apply Hcom).
  rewrite iter_opt_cons, (handle_snapshot_comment _ _ banner_comment), iter_opt_cons, (proj2 version_skipped), iter_opt_cons.
  pose proof (meta_words_tokens p Hp) as Hmt. unfold meta_words in *. rewrite handle_snapshot_other by done. change (iter_opt handle_snapshot [] ?x) with x.
  destruct (handle_body flow rs (None, []) Hl Hflow He) as [_ ->]. rewrite snapshot_to_lines_words. by apply iter_snapshot.
Qed.

Lemma parse_fixture : parse_full_file (run_and_emit (B := OrderBook) (unlines comments) p flow) = Some (meta_of config, map ocaml_command flow, final).
Proof using Hp Hflow Hlen Hcom.
  rewrite run_and_emit_lines. unfold parse_full_file. rewrite input_lines_unlines by apply fixture_lines_free. unfold parse_full_lines.
  rewrite parse_fixture_commands, parse_fixture_snapshot. cbn. rewrite rev_involutive. reflexivity.
Qed.

Lemma fixture_not_divergent : bundle_if_divergent (run_and_emit (B := OrderBook) (unlines comments) p flow) = Returns None.
Proof using Hp Hflow Hlen Hcom.
  unfold bundle_if_divergent. rewrite parse_fixture. destruct Hp as (_ & _ & _ & _ & Hn). unfold nat62 in Hn.
  destruct (runs_agree config flow ltac:(cbn; lia) flow_typed Hlen) as (st & -> & Hag).
  assert (ReplayEngine.snapshot st = final) as ->; [|by rewrite bool_decide_true].
  unfold final. rewrite snapshot_spec by (apply cpp_run_abs, flow_typed). by eapply snapshot_agrees.
Qed.
End Fixture.

(** A fixture is read back by the OCaml parser as it was written: the risk
    limits of its parameters, the commands of its flow, and the final snapshot of
    the C++ engine, whatever comment lines come first. *)
Theorem fixture_round_trip (p : FixtureParams) (flow : list Command) (comments : list bytes) :
  params_ok p -> Forall fixture_command flow -> Z.of_nat (length flow) < 2 ^ 30 -> Forall comment_line comments ->
  let run := cpp_run (config_of p) flow in
  parse_full_file (run_and_emit (B := OrderBook) (unlines comments) p flow) =
    Some (meta_of (config_of p), map ocaml_command flow, snapshot_of (Engine.snapshot run.2) (results_trades run.1)).
Proof. intros Hp Hf Hl Hc. by apply parse_fixture. Qed.

(** ** The exports *)

Definition exportable (r : FixtureExportRequest) : Prop :=
  match fr_mode r with
  | ExportVersion => False
  | ExportStream => params_ok (fr_params r) /\ fp_symbols (fr_params r) + fp_orders (fr_params r) < 2 ^ 30
  | ExportIocScenario => True
  | ExportProperty | ExportShrink | ExportDivergence => in_u64 (fr_seed r)
  end.

(** The report lines in front of a shrunk fixture. *)
Lemma comment_number s n tail :
  in_u64 n -> bool_decide (head (text s) = Some 35) = true -> bool_decide (10 ∉ text s) = true -> 10 ∉ tail -> comment_line (text s ++ to_string n ++ tail).
Proof.
  intros Hn Hh%bool_decide_eq_true Hs%bool_decide_eq_true Ht. destruct (to_string_token n Hn) as (_ & _ & Hd). split.
  - destruct (text s); [done|]. exact Hh.
  - rewrite !elem_of_app. tauto.
Qed.
Lemma comment_literal s : bool_decide (head (text s) = Some 35) = true -> bool_decide (10 ∉ text s) = true -> comment_line (text s).
Proof. intros Hh%bool_decide_eq_true Hs%bool_decide_eq_true. by split. Qed.

#[local] Opaque generate_property_flow to_string.

Lemma property_flow_fixture seed :
  Forall fixture_command (generate_property_flow seed 3 120) /\ length (generate_property_flow seed 3 120) = 123%nat.
Proof. apply property_flow_ok; lia. Qed.

Lemma while_count {S : Type} (cond : S -> bool) (body : S -> S) (count : S -> nat) :
  (forall s, (count (body s) <= count s + 1)%nat) -> forall fuel s, (count (while fuel cond body s) <= count s + fuel)%nat.
Proof.
  intros Hb fuel. induction fuel as [|fuel IH]; intros s; cbn [while]; [lia|]. destruct (cond s); [|lia]. specialize (IH (body s)). specialize (Hb s). lia.
Qed.

Lemma shrink_passes fails cmds : ((shrink fails cmds).2 <= pass_bound cmds)%nat.
Proof.
  unfold shrink. destruct (negb (fails cmds)); [cbn; lia|].
  pose proof (while_count (@snd (list Command * nat) bool) (pass_step fails) (fun s => s.1.2)) as Hw.
  specialize (Hw ltac:(intros [[c k] b]; unfold pass_step; destruct (run_reduction_pass fails c); cbn; lia) (pass_bound cmds) (cmds, 0%nat, true)).
  destruct (while _ _ _ _) as [[c k] b]. cbn in *. lia.
Qed.

Lemma shrunk_flow_fixture fails cmds :
  Forall fixture_command cmds -> (length cmds <= 123)%nat ->
  Forall fixture_command (shrink fails cmds).1 /\ (length (shrink fails cmds).1 <= 123)%nat /\ (length (shrink fails cmds).1 <= length cmds)%nat /\
  Z.of_nat (shrink fails cmds).2 < 2 ^ 20.
Proof.
  intros Hf Hl. destruct (shrink_fixture fails cmds 123 ltac:(lia) Hl Hf) as [H1 H2]. destruct (shrink_fixture fails cmds (length cmds) ltac:(lia) ltac:(lia) Hf) as [_ H3].
  pose proof (shrink_passes fails cmds) as Hp. unfold pass_bound in Hp. split; [done|]. split; [done|]. split; [done|lia].
Qed.

Lemma fixture_params_ok seed n : in_u64 seed -> (n <= 123)%nat -> params_ok (mkFixtureParams seed 3 (Z.of_nat n) 20 1000).
Proof. unfold params_ok, in_u64, in_u32, nat62. cbn. lia. Qed.

(** The printed report is those comment lines. *)
Ltac join_comments :=
  rewrite !unlines_cons; rewrite <- !app_assoc; change (unlines []) with (@nil Z); unfold nl; rewrite ?app_nil_r, ?app_nil_l, ?app_nil_r; reflexivity.

Lemma shrunk_not_divergent seed : in_u64 seed -> bundle_if_divergent (write_shrunk_fixture (B := OrderBook) [] seed) = Returns None.
Proof.
  intros Hs. destruct (property_flow_fixture seed) as [Hf Hl]. unfold write_shrunk_fixture. set (fails := fun cmds => (0 <? count_trades cmds 20 1000)%nat).
  set (original := generate_property_flow seed 3 120) in *. destruct (shrunk_flow_fixture fails original Hf ltac:(lia)) as (Hmf & Hm1 & Hm2 & Hit).
  destruct (shrink fails original) as [minimized iterations]. cbn [fst snd] in *. unfold size_of. rewrite Hl in *.
  set (permille := if is_nil original then 0 else _). assert (0 <= permille <= 1000) as Hper.
  { unfold permille. destruct (is_nil original); [lia|]. rewrite u64_small by lia. split; [apply Z.div_pos; lia|apply Z.div_le_upper_bound; lia]. }
  assert (0 <= permille / 10 <= 100) as Hp1 by (split; [apply Z.div_pos; lia|apply Z.div_le_upper_bound; lia]). pose proof (Z.mod_pos_bound permille 10 ltac:(lia)) as Hp2.
  set (comments := [text "# shrink report"; text "# seed: " ++ to_string seed ++ []; text "# original length: " ++ to_string (Z.of_nat 123) ++ [];
    text "# minimized length: " ++ to_string (Z.of_nat (length minimized)) ++ []; text "# reduction: " ++ to_string (permille / 10) ++ text "." ++ to_string (permille mod 10) ++ text "%";
    text "# shrink iterations: " ++ to_string (Z.of_nat iterations) ++ []; text "# failure reason: produces a trade (artificial differential-test predicate)"]).
  match goal with |- context [run_and_emit ?os _ _] => replace os with (unlines comments) end.
  - apply fixture_not_divergent; [by apply fixture_params_ok|done|lia|].
    destruct (to_string_token (permille mod 10)) as (_ & _ & Hd); [unfold in_u64; lia|].
    unfold comments. repeat (apply Forall_cons; split); try apply Forall_nil_2; first [apply comment_number|apply comment_literal]; try reflexivity;
      try (unfold in_u64 in *; lia); try apply not_elem_of_nil.
    rewrite !elem_of_app. intros [Hx|[Hx|Hx]]; [|exact (Hd Hx)|]; revert Hx; apply (bool_decide_unpack (10 ∉ _)); vm_compute; exact I.
  - unfold comments. join_comments.
Qed.

Lemma find_divergent_spec diverges k : forall s seed flow,
  in_u64 s -> find_divergent diverges k s = Some (seed, flow) -> in_u64 seed /\ flow = generate_property_flow seed 3 120.
Proof.
  induction k as [|k IH]; intros s seed flow Hs; cbn [find_divergent]; [done|]. destruct (diverges _); [|apply IH, u64_range]. intros E. apply (inj Some), pair_equal_spec in E as [<- <-].
  split; [exact Hs|reflexivity].
Qed.

Lemma divergence_not_divergent seed_hint :
  in_u64 seed_hint -> bundle_if_divergent (write_divergence_fixture (B := OrderBook) [] seed_hint) = Returns None.
Proof.
  intros Hs. unfold write_divergence_fixture. set (diverges := fun cmds => negb _). set (found := default (seed_hint, []) _).
  assert (in_u64 found.1 /\ Forall fixture_command found.2 /\ (length found.2 <= 123)%nat) as (Hseed & Hf & Hl).
  { unfold found. destruct (find_divergent diverges (divergence_candidates seed_hint) seed_hint) as [[s flow]|] eqn:E; [|by split; [|split; [constructor|cbn; lia]]].
    apply find_divergent_spec in E as [Hs' ->]; [|done]. cbn. destruct (property_flow_fixture s) as [H1 H2]. split; [done|]. split; [done|lia]. }
  destruct found as [seed original]. cbn [fst snd] in *.
  assert (exists minimized iterations, (if is_nil original then (original, 0%nat) else shrink diverges original) = (minimized, iterations) /\
    Forall fixture_command minimized /\ (length minimized <= 123)%nat /\ Z.of_nat iterations < 2 ^ 20) as (minimized & iterations & -> & Hmf & Hm & Hit).
  { destruct (is_nil original); [by exists original, 0%nat|]. destruct (shrunk_flow_fixture diverges original Hf Hl) as (H1 & H2 & _ & H3).
    destruct (shrink diverges original) as [m i]. by exists m, i. }
  unfold size_of.
  set (comments := [text "# divergence demo: the shrinker reducing a real C++/OCaml divergence (issue #37)";
    text "# injected bug: an oracle that drops Cancel commands (replay_snapshot --drop-cancels)"; text "# seed: " ++ to_string seed ++ [];
    text "# original length: " ++ to_string (Z.of_nat (length original)) ++ []; text "# minimized length: " ++ to_string (Z.of_nat (length minimized)) ++ [];
    text "# shrink iterations: " ++ to_string (Z.of_nat iterations) ++ []]).
  match goal with |- context [run_and_emit ?os _ _] => replace os with (unlines comments) end.
  - apply fixture_not_divergent; [by apply fixture_params_ok|done|lia|]. unfold comments.
    repeat (apply Forall_cons; split); try apply Forall_nil_2; first [apply comment_number|apply comment_literal]; try reflexivity;
      try (unfold in_u64 in *; lia); apply not_elem_of_nil.
  - unfold comments. join_comments.
Qed.

Lemma plain_not_divergent p flow :
  params_ok p -> Forall fixture_command flow -> Z.of_nat (length flow) < 2 ^ 30 -> bundle_if_divergent (run_and_emit (B := OrderBook) [] p flow) = Returns None.
Proof. intros Hp Hf Hl. apply (fixture_not_divergent p flow []); [done|done|done|constructor]. Qed.

Lemma ioc_scenario_fixture : Forall fixture_command ioc_scenario.
Proof.
  assert (name_ok "S0") as Hn by literal. unfold ioc_scenario.
  repeat (apply Forall_cons; split); try apply Forall_nil_2; unfold fixture_command, in_u32, in_u64, in_i64, nat62, int62; cbn; repeat split; try done; apply Hn.
Qed.

Lemma export_not_divergent r : exportable r -> bundle_if_divergent (write_fixture_export (B := OrderBook) [] r) = Returns None.
Proof.
  unfold exportable, write_fixture_export. destruct (fr_mode r); intros Hr; [done|..].
  - destruct Hr as [Hp Hl]. unfold write_stream_fixture. pose proof Hp as (_ & Hsym & Ho & _). unfold in_u32, in_u64 in *.
    destruct (generate_flow_ok (B := OrderBook) (fp_seed (fr_params r)) (fp_symbols (fr_params r)) (Z.to_nat (fp_orders (fr_params r)))) as [H1 H2]; [done|lia|].
    apply plain_not_divergent; [done|done|lia].
  - apply plain_not_divergent; [|apply ioc_scenario_fixture|cbn; lia]. unfold params_ok, in_u32, in_u64, nat62. cbn. lia.
  - destruct (property_flow_fixture (fr_seed r)) as [H1 H2]. apply plain_not_divergent; [|done|rewrite H2; lia]. by apply (fixture_params_ok (fr_seed r) 120); [|lia].
  - by apply shrunk_not_divergent.
  - by apply divergence_not_divergent.
Qed.


(** ** Witnesses *)

Definition sample_config : RiskConfig := mkRiskConfig 1000 1000000.
Definition sample_params : FixtureParams := mkFixtureParams 0 1 6 1000 1000000.
Definition sample_requests : list FixtureExportRequest :=
  [mkFixtureExportRequest ExportStream (mkFixtureParams 42 4 200 8 1000000) 0; mkFixtureExportRequest ExportIocScenario sample_params 0;
   mkFixtureExportRequest ExportProperty sample_params 7; mkFixtureExportRequest ExportShrink sample_params 1;
   mkFixtureExportRequest ExportDivergence sample_params 1].

Lemma ioc_scenario_typed : Forall command_ok ioc_scenario.
Proof. apply flow_typed, ioc_scenario_fixture. Qed.
Lemma sample_params_ok : params_ok sample_params.
Proof. unfold params_ok, in_u32, in_u64, nat62. cbn. lia. Qed.
Lemma sample_requests_ok : Forall exportable sample_requests.
Proof. repeat constructor; done. Qed.


Lemma fixture_round_trip_witness :
  let run := cpp_run (config_of sample_params) ioc_scenario in
  parse_full_file (run_and_emit (B := OrderBook) (unlines [text "# note"]) sample_params ioc_scenario) =
    Some (meta_of (config_of sample_params), map ocaml_command ioc_scenario, snapshot_of (Engine.snapshot run.2) (results_trades run.1)).
Proof.
  apply (fixture_round_trip sample_params ioc_scenario [text "# note"]); [apply sample_params_ok|apply ioc_scenario_fixture|done|].
  apply Forall_cons. split; [by apply comment_literal|apply Forall_nil_2].
Defined.

