(* ===== verification/GoldenTheorems.v ===== *)
(** * GoldenTheorems: the fixtures kept with the repository

    Three files of ocaml/test/fixtures, line by line, and the proof that the
    exporter of src/replay/fixture.cpp writes exactly them. *)
From S2P Require Import Prelude Core Endian Text OrderBook StreamParser ReplaySpec Fixture.

(** stream_ioc.txt *)
Definition stream_ioc : list string := [
  "# qsl differential-testing fixture: command stream + events + rejections + snapshot";
  "version 1";
  "meta seed 0 symbols 1 orders 6 max_qty 1000 max_notional 1000000";
  "cmd reg S0";
  "cmd limit 0 1 S 100 3 GTC";
  "evt accept 1 0 1";
  "cmd limit 0 2 B 100 5 IOC";
  "evt accept 2 0 2";
  "evt trade 3 0 2 1 100 3";
  "cmd limit 0 3 B 99 4 IOC";
  "evt accept 4 0 3";
  "cmd limit 0 4 S 101 5 GTC";
  "evt accept 5 0 4";
  "cmd limit 0 5 B 101 2 IOC";
  "evt accept 6 0 5";
  "evt trade 7 0 5 4 101 2";
  "cmd market 0 6 B 1";
  "evt accept 8 0 6";
  "evt trade 9 0 6 4 101 1";
  "snapshot last_seq 9 trades 3";
  "sym 0 bid - ask 101 orders 1";
  "level 0 A 101 2"].

(** shrunk_seed1.txt *)
Definition shrunk_seed1 : list string := [
  "# shrink report";
  "# seed: 1";
  "# original length: 123";
  "# minimized length: 3";
  "# reduction: 97.5%";
  "# shrink iterations: 2";
  "# failure reason: produces a trade (artificial differential-test predicate)";
  "# qsl differential-testing fixture: command stream + events + rejections + snapshot";
  "version 1";
  "meta seed 1 symbols 3 orders 3 max_qty 20 max_notional 1000";
  "cmd reg S0";
  "cmd limit 0 0 S 1 1 GTC";
  "evt accept 1 0 0";
  "cmd limit 0 1 B 1 1 IOC";
  "evt accept 2 0 1";
  "evt trade 3 0 1 0 1 1";
  "snapshot last_seq 3 trades 1";
  "sym 0 bid - ask - orders 0"].

(** stream_seed7.txt *)
Definition stream_seed7 : list string := [
  "# qsl differential-testing fixture: command stream + events + rejections + snapshot";
  "version 1";
  "meta seed 7 symbols 4 orders 60 max_qty 8 max_notional 1000000";
  "cmd reg S0";
  "cmd reg S1";
  "cmd reg S2";
  "cmd reg S3";
  "cmd limit 0 1 B 98 11 GTC";
  "reject new_limit 1 MaxQuantityExceeded";
  "cmd market 3 2 S 7";
  "evt accept 1 3 2";
  "cmd market 3 3 S 3";
  "evt accept 2 3 3";
  "cmd limit 0 4 S 96 9 IOC";
  "reject new_limit 4 MaxQuantityExceeded";
  "cmd limit 0 5 B 98 3 GTC";
  "evt accept 3 0 5";
  "cmd limit 0 6 B 96 8 GTC";
  "evt accept 4 0 6";
  "cmd limit 0 7 S 101 6 GTC";
  "evt accept 5 0 7";
  "cmd limit 0 8 B 97 7 IOC";
  "evt accept 6 0 8";
  "cmd limit 3 9 B 113 5 GTC";
  "evt accept 7 3 9";
  "cmd cancel 3 9";
  "evt cancel 8 3 9";
  "cmd cancel 0 1";
  "reject cancel 1 UnknownOrder";
  "cmd limit 0 10 S 96 10 IOC";
  "reject new_limit 10 MaxQuantityExceeded";
  "cmd cancel 0 13";
  "reject cancel 13 UnknownOrder";
  "cmd modify 0 6 96 8";
  "evt modify 9 0 6";
  "cmd limit 2 11 S 114 4 GTC";
  "evt accept 10 2 11";
  "cmd limit 0 12 B 94 8 GTC";
  "evt accept 11 0 12";
  "cmd limit 0 13 S 98 10 GTC";
  "reject new_limit 13 MaxQuantityExceeded";
  "cmd market 0 14 B 8";
  "evt accept 12 0 14";
  "evt trade 13 0 14 7 101 6";
  "cmd limit 3 15 B 117 2 GTC";
  "evt accept 14 3 15";
  "cmd cancel 2 11";
  "evt cancel 15 2 11";
  "cmd cancel 3 15";
  "evt cancel 16 3 15";
  "cmd limit 2 16 B 108 11 GTC";
  "reject new_limit 16 MaxQuantityExceeded";
  "cmd limit 1 17 S 108 4 GTC";
  "evt accept 17 1 17";
  "cmd limit 2 18 S 115 5 GTC";
  "evt accept 18 2 18";
  "cmd modify 0 13 100 8";
  "reject modify 13 UnknownOrder";
  "cmd limit 3 19 S 117 4 GTC";
  "evt accept 19 3 19";
  "cmd limit 2 20 B 115 10 GTC";
  "reject new_limit 20 MaxQuantityExceeded";
  "cmd limit 0 21 S 100 8 GTC";
  "evt accept 20 0 21";
  "cmd cancel 0 21";
  "evt cancel 21 0 21";
  "cmd cancel 0 6";
  "evt cancel 22 0 6";
  "cmd limit 0 22 B 102 7 IOC";
  "evt accept 23 0 22";
  "cmd cancel 0 13";
  "reject cancel 13 UnknownOrder";
  "cmd modify 2 16 109 6";
  "reject modify 16 UnknownOrder";
  "cmd limit 1 23 S 108 3 GTC";
  "evt accept 24 1 23";
  "cmd market 3 24 B 12";
  "reject new_market 24 MaxQuantityExceeded";
  "cmd limit 0 25 S 102 2 GTC";
  "evt accept 25 0 25";
  "cmd limit 0 26 S 101 12 GTC";
  "reject new_limit 26 MaxQuantityExceeded";
  "cmd market 0 27 B 5";
  "evt accept 26 0 27";
  "evt trade 27 0 27 25 102 2";
  "cmd limit 3 28 B 113 4 GTC";
  "evt accept 28 3 28";
  "cmd limit 0 29 B 100 8 GTC";
  "evt accept 29 0 29";
  "cmd market 1 30 B 12";
  "reject new_market 30 MaxQuantityExceeded";
  "cmd cancel 0 29";
  "evt cancel 30 0 29";
  "cmd limit 1 31 B 104 6 GTC";
  "evt accept 31 1 31";
  "cmd limit 0 32 B 102 9 GTC";
  "reject new_limit 32 MaxQuantityExceeded";
  "cmd cancel 1 31";
  "evt cancel 32 1 31";
  "cmd limit 0 33 S 108 5 IOC";
  "evt accept 33 0 33";
  "cmd limit 2 34 S 109 2 GTC";
  "evt accept 34 2 34";
  "cmd limit 3 35 B 111 5 GTC";
  "evt accept 35 3 35";
  "cmd limit 2 36 S 112 6 GTC";
  "evt accept 36 2 36";
  "cmd limit 0 37 S 107 3 GTC";
  "evt accept 37 0 37";
  "cmd limit 0 38 B 103 3 GTC";
  "evt accept 38 0 38";
  "cmd limit 0 39 B 103 9 GTC";
  "reject new_limit 39 MaxQuantityExceeded";
  "cmd limit 0 40 B 110 8 IOC";
  "evt accept 39 0 40";
  "evt trade 40 0 40 37 107 3";
  "cmd limit 0 41 B 104 5 GTC";
  "evt accept 41 0 41";
  "cmd limit 0 42 B 102 4 GTC";
  "evt accept 42 0 42";
  "cmd limit 0 43 S 107 7 GTC";
  "evt accept 43 0 43";
  "cmd market 2 44 B 10";
  "reject new_market 44 MaxQuantityExceeded";
  "cmd limit 3 45 S 117 2 GTC";
  "evt accept 44 3 45";
  "cmd limit 2 46 B 112 3 GTC";
  "evt accept 45 2 46";
  "evt trade 46 2 46 34 109 2";
  "evt trade 47 2 46 36 112 1";
  "cmd limit 0 47 B 104 1 GTC";
  "evt accept 48 0 47";
  "snapshot last_seq 48 trades 5";
  "sym 0 bid 104 ask 107 orders 7";
  "level 0 B 104 6";
  "level 0 B 103 3";
  "level 0 B 102 4";
  "level 0 B 98 3";
  "level 0 B 94 8";
  "level 0 A 107 7";
  "sym 1 bid - ask 108 orders 2";
  "level 1 A 108 7";
  "sym 2 bid - ask 112 orders 2";
  "level 2 A 112 5";
  "level 2 A 115 5";
  "sym 3 bid 113 ask 117 orders 4";
  "level 3 B 113 4";
  "level 3 B 111 5";
  "level 3 A 117 6"].

Definition golden (ls : list string) : bytes := unlines (map text ls).

(** The exporter writes the fixtures kept with the repository byte for byte: the
    IOC scenario, the shrunk property flow of seed 1 and the stream of seed 7. *)
Theorem golden_fixtures :
  write_ioc_scenario_fixture (B := OrderBook) [] = golden stream_ioc /\
  write_shrunk_fixture (B := OrderBook) [] 1 = golden shrunk_seed1 /\
  write_stream_fixture (B := OrderBook) [] (mkFixtureParams 7 4 60 8 1000000) = golden stream_seed7.
Proof. vm_compute. repeat split. Qed.
