(* ===== verification/VerifierTheorems.v ===== *)
(** * VerifierTheorems: the replay verifier and the log it is given

    The verdict of the OCaml replay verifier is exact, and it accepts every log
    that qsl-export-fixture prints. *)
From Stdlib Require Import ZifyBool.
From S2P Require Import Prelude Core Endian Text Book BookSpec OrderBook Command Engine EngineSpec Gateway GatewaySpec Shrink Flow Fixture StreamParser ReplayBook ReplayEngine ReplaySpec FixtureSpec FlowSpec Verifier ExportFixture ExportSpec DiffTheorems.

(** C15: the exit code of the replay verifier is exact.  It is 2 when the file
    cannot be read or parsed; it is 0 exactly when the parsed log is valid: sequence
    numbers strictly increase from above zero, traded quantities are positive, no
    record uses an order after its cancel or rejection unless an accept or modify
    came in between, and the summary gives the last sequence number and the number
    of trades; and it is 1 for every other log. *)
Theorem verifier_exact (contents : option bytes) :
  match contents ≫= parse_record_file with
  | None => verify_run contents = (2, [])
  | Some fx => ((verify_run contents).1 = 0 <-> valid_log fx) /\ ((verify_run contents).1 = 1 <-> ~ valid_log fx)
  end.
Proof.
  unfold verify_run. destruct (contents ≫= parse_record_file) as [fx|]; [|done]. rewrite <- (run_checks_exact fx). cbv zeta.
  destruct (all_ok (run_checks fx)); cbn [fst]; split; split; try done; intros Hn; by destruct Hn.
Qed.

(** ** The log of a flow *)

Section Log.
Context (seed orders : Z) (Hseed : in_u64 seed) (Horders : 0 <= orders < 2 ^ 30 - 4).

Let flow := generate_flow (B := OrderBook) seed 4 (Z.to_nat orders).
Let config := mkRiskConfig 8 1000000.

Lemma flow_facts :
  Forall fixture_command flow /\ Z.of_nat (length flow) < 2 ^ 30 /\ exists owner, Forall (owned owner) flow.
Proof using Horders.
  destruct (generate_flow_ok (B := OrderBook) seed 4 (Z.to_nat orders)) as [H1 H2]; [done|lia|]. split; [done|]. split; [unfold flow; lia|]. apply generate_flow_owned; [done|lia].
Qed.

Lemma run_bounds : Z.of_nat (length flow) + results_trades (a_gateway_all config a_engine_empty flow).1 < 2 ^ 62 /\ 0 <= results_trades (a_gateway_all config a_engine_empty flow).1.
Proof using Horders.
  destruct flow_facts as (Hf & Hlen & _). assert (Forall command_ok flow) as Hok by (eapply Forall_impl; [exact Hf|]; by intros c []).
  destruct (runs_agree config flow) as (st & _ & Hag); [done|done|done|]. destruct (cpp_run_abs config flow Hok) as [_ ->]. cbn [fst]. destruct (ag_trades _ _ _ _ _ Hag) as [_ Ht]. lia.
Qed.

Definition log_meta_words : list bytes :=
  [text "meta"; text "seed"; to_string seed; text "symbols"; to_string 4; text "orders"; to_string orders; text "max_qty"; to_string 8].
Definition summary_words (last trades : Z) : list bytes :=
  [text "summary"; text "last_seq"; to_string last; text "trades"; to_string trades].
Definition log_banner : bytes := text "# qsl normalized replay fixture (engine event log + rejected new-order ids)".

Let r := a_gateway_all config a_engine_empty flow.
Definition log_lines : list bytes :=
  [log_banner; text "v 1"; line_of log_meta_words] ++ lines_of (log_words flow r.1) ++ [line_of (summary_words (ae_seq r.2) (results_trades r.1))].

#[local] Opaque to_string.

Lemma write_log_lines : write_log (B := OrderBook) seed orders = unlines log_lines.
Proof using Horders.
  destruct flow_facts as (Hf & _ & _), run_bounds as [Hb1 Hb2]. assert (Forall command_ok flow) as Hok by (eapply Forall_impl; [exact Hf|]; by intros c []).
  destruct (cpp_run_abs config flow Hok) as [Hwf Ha]. unfold write_log. fold flow. fold config. rewrite log_loop by done. cbv beta iota zeta. fold (cpp_run config flow).
  rewrite snapshot_spec by done. cbn [a_snapshot es_last_seq]. unfold log_lines, r in *. rewrite Ha in *. cbn [fst snd] in *. rewrite Z.add_0_l, u64_small by lia.
  rewrite !unlines_app, !unlines_cons. change (unlines []) with (@nil Z). rewrite !app_nil_r. unfold log_header, log_banner, log_meta_words, summary_words, nl. cbn [line_of join].
  rewrite <- !app_assoc. reflexivity.
Qed.

Lemma log_meta_tokens : Forall is_token log_meta_words.
Proof using Hseed Horders. unfold log_meta_words. tokens; apply to_string_token; unfold in_u64 in *; lia. Qed.
Lemma summary_tokens a b : nat62 a -> nat62 b -> Forall is_token (summary_words a b).
Proof. intros Ha Hb. unfold summary_words. tokens; by apply to_string_token, nat62_u64. Qed.

Lemma flow_new_ids : Forall new_id_ok flow.
Proof using Horders. destruct flow_facts as (Hf & _). eapply Forall_impl; [exact Hf|]. intros [] [_ H]; cbn in *; tauto. Qed.

Lemma handle_header st : iter_opt handle_record [log_banner; text "v 1"; line_of log_meta_words] (Some st) = Some st.
Proof using Hseed Horders.
  rewrite !iter_opt_cons. change (handle_record st log_banner) with (Some st). cbn [mbind option_bind]. rewrite iter_opt_cons. change (handle_record st (text "v 1")) with (Some st).
  rewrite iter_opt_cons. change (iter_opt handle_record [] ?x) with x. unfold handle_record. rewrite words_line by apply log_meta_tokens. unfold log_meta_words. by word_tests.
Qed.

Lemma handle_summary rs ls t a b : nat62 a -> nat62 b -> handle_record (rs, ls, t) (line_of (summary_words a b)) = Some (rs, a, b).
Proof.
  intros Ha Hb. unfold handle_record. rewrite words_line by (by apply summary_tokens). unfold summary_words. word_tests. by rewrite !int_of_nat62.
Qed.

(** The parser reads the log back as the records of the run. *)
Lemma parse_log : parse_record_file (write_log (B := OrderBook) seed orders) = Some (log_fixture config flow).
Proof using Hseed Horders.
  destruct flow_facts as (Hf & _ & owner & Ho), run_bounds as [Hb1 Hb2]. pose proof (run_readable owner config flow Hf Ho Hb1) as Hr. destruct (run_seqs config flow Hb1) as (_ & Hs & _). fold r in Hr, Hs, Hb1, Hb2.
  assert (nat62 (ae_seq r.2)) as N1 by (unfold nat62; lia). assert (nat62 (results_trades r.1)) as N2 by (unfold nat62; lia).
  rewrite write_log_lines. unfold parse_record_file. rewrite input_lines_unlines.
  - unfold parse_record_lines, log_lines. rewrite !iter_opt_app, handle_header, handle_log by (done || apply flow_new_ids). rewrite iter_opt_cons. unfold push_all. rewrite handle_summary by done.
    cbn. rewrite app_nil_r, rev_involutive. reflexivity.
  - unfold log_lines. apply Forall_app. split; [|apply Forall_app; split; [by apply log_words_free; [apply flow_new_ids|]|]].
    + repeat (apply Forall_cons; split); [apply (bool_decide_unpack _); vm_compute; exact I..| |apply Forall_nil_2]. by apply line_of_free, log_meta_tokens.
    + apply Forall_singleton. by apply line_of_free, summary_tokens.
Qed.

Lemma log_accepted : (verify_run (Some (write_log (B := OrderBook) seed orders))).1 = 0.
Proof using Hseed Horders.
  destruct flow_facts as (Hf & _ & owner & Ho), run_bounds as [Hb1 Hb2]. unfold verify_run. cbn [mbind option_bind]. rewrite parse_log.
  pose proof (log_valid owner config flow Hf Ho Hb1) as Hv. apply run_checks_exact in Hv. cbv zeta. by rewrite Hv.
Qed.
End Log.

Lemma parse_u64_range s v : ExportFixture.parse_u64 s = Some v -> in_u64 v.
Proof.
  unfold ExportFixture.parse_u64, from_chars. destruct (match s with [] => _ | _ => _ end) as [neg s']. destruct (span_digits s') as [[|d ds] rest]; [done|].
  destruct ((it_min uint64_type <=? _) && _) eqn:E; [|done]. destruct rest; [|done]. intros [= <-]. unfold in_u64, uint64_type in *. cbn [it_min it_max] in E. lia.
Qed.

(** C11: for every seed and fewer than 2^30 - 4 orders, qsl-export-fixture exits with
    code zero and the event log it prints satisfies every invariant of the replay
    verifier: run on a file with that log, verify_replay exits with code zero. *)
Theorem export_verifies (argv : list bytes) (args : FixtureArgs) (read : bytes -> option bytes) (prog path : bytes) :
  parse_args argv = Some args -> fa_orders args < 2 ^ 30 - 4 -> read path = Some (export_main (B := OrderBook) argv).2 ->
  (export_main (B := OrderBook) argv).1 = 0 /\ (verify_main read [prog; path]).1 = 0.
Proof.
  intros Ha Hn Hr. unfold export_main in *. rewrite Ha in *. split; [done|]. cbn [verify_main]. rewrite Hr. cbn [snd].
  unfold parse_args in Ha. assert (in_u64 (fa_seed args) /\ in_u64 (fa_orders args)) as [Hs Ho].
  { assert (forall o v d, in_u64 d -> match o with Some a => ExportFixture.parse_u64 a | None => Some d end = Some v -> in_u64 v) as Hp.
    { intros [a|] v d Hd; [apply parse_u64_range|]. by intros [= <-]. }
    destruct (match argv !! 1%nat with Some _ => _ | None => _ end) as [seed|] eqn:E1; [|done]. destruct (match argv !! 2%nat with Some _ => _ | None => _ end) as [o|] eqn:E2; [|done].
    injection Ha as <-. split; [by apply (Hp _ _ 42) in E1|by apply (Hp _ _ 200) in E2]. }
  apply log_accepted; [done|]. unfold in_u64 in Ho. lia.
Qed.

Definition demo_argv : list bytes := [text "qsl-export-fixture"; text "7"; text "3"].
Definition demo_read (path : bytes) : option bytes := Some (export_main (B := OrderBook) demo_argv).2.

Lemma export_verifies_witness : (export_main (B := OrderBook) demo_argv).1 = 0 /\ (verify_main demo_read [text "verify_replay"; text "log.txt"]).1 = 0.
Proof. apply (export_verifies demo_argv (mkFixtureArgs 7 3) demo_read); reflexivity. Defined.
