(* ===== verification/ReplayAppTheorems.v ===== *)
(** * ReplayAppTheorems: the command-line tools keep what they report

    A generated log replays to the engine that the flow builds, a log that
    [recover] reports as clean is clean, and no acknowledgement that [append-loop]
    prints is lost in the interruption its durability mode is made for. *)
From Stdlib Require Import ZifyBool.
From S2P Require Import Prelude Core Endian Text Book BookSpec OrderBook Command EventLog LogFile Engine EngineSpec Gateway Recovery Shrink Flow Fixture StreamParser ReplaySpec FixtureSpec FlowSpec ReplayApp.

(** ** Appending a flow *)

Definition flow_appends (io : AppIO) (n : Z) (flow : list Command) : list (LogRecord * WriteIO) :=
  map (fun r => (r, ai_append io (Z.to_nat (lr_seq_no r)))) (log_commands n flow).

Lemma append_flow_all io flow : forall n w w',
  0 <= n -> n + Z.of_nat (length flow) < 2 ^ 64 -> append_flow io n flow w = (None, w') -> append_all w (flow_appends io n flow) = Some w'.
Proof.
  induction flow as [|c flow IH]; intros n w w' Hn Hb; cbn [append_flow flow_appends log_commands map append_all]; [by intros [= <-]|].
  unfold command_record. cbn [lr_seq_no]. destruct (append _ _ w) as [[] w1]; cbn [negb]; [|done]. rewrite u64_small by (cbn [length] in Hb; lia).
  apply IH; cbn [length] in Hb; lia.
Qed.

Lemma flow_appends_records io n flow : map fst (flow_appends io n flow) = log_commands n flow.
Proof. unfold flow_appends. rewrite map_map. apply List.map_id. Qed.

Lemma open_writer_disk existing mode io w d :
  open_writer existing true mode io = w -> w_file w = Some d -> d = mkDisk (default [] existing) [] [] /\ w_mode w = mode.
Proof.
  intros <-. unfold open_writer. cbn [w_file]. case_bool_decide; [|by intros [= <-]]. unfold sync_parent_directory_once. cbn [w_directory_sync_pending w_file w_mode].
  repeat case_if; cbn; try done; by intros [= <-].
Qed.

Lemma open_writer_closed existing mode io : w_file (open_writer existing false mode io) = None.
Proof. done. Qed.

Lemma good_disk w : good w = true -> exists d, w_file w = Some d.
Proof. unfold good. rewrite bool_decide_eq_true. by intros [d Hd]; exists d. Qed.

(** The writer an application starts with. *)
Lemma opened_writer io path mode :
  let w := open_writer (ai_files io path) (ai_open_ok io) mode (ai_open io) in
  good w = true -> w_file w = Some (mkDisk (default [] (ai_files io path)) [] []) /\ w_mode w = mode.
Proof.
  cbn zeta. intros Hg. destruct (good_disk _ Hg) as [d Hd]. destruct (ai_open_ok io); [|by rewrite open_writer_closed in Hd].
  destruct (open_writer_disk _ _ _ _ _ eq_refl Hd) as [-> Hm]. done.
Qed.

(** ** generate *)

#[local] Opaque generate_flow.

Lemma generated_facts seed orders :
  Z.of_nat orders < 2 ^ 61 ->
  Forall loggable (generate_flow (B := OrderBook) seed 4 orders) /\ Z.of_nat (length (generate_flow (B := OrderBook) seed 4 orders)) <= 4 + Z.of_nat orders.
Proof. intros Ho. destruct (generate_flow_ok (B := OrderBook) seed 4 orders) as [_ H2]; [done|done|]. split; [by apply generate_flow_loggable|lia]. Qed.

(** The flow that [generate] writes. *)
Definition generated_flow (seed : Z) : list Command := generate_flow (B := OrderBook) seed 4 (Z.to_nat 500).

Lemma generate_loggable seed : Forall loggable (generated_flow seed).
Proof. unfold generated_flow. apply generated_facts. lia. Qed.
Lemma generate_length seed : Z.of_nat (length (generated_flow seed)) <= 504.
Proof. unfold generated_flow. destruct (generated_facts seed (Z.to_nat 500)) as [_ H]; [lia|]. etransitivity; [exact H|]. lia. Qed.

Section Generate.
Context (io : AppIO) (path : bytes) (seed : Z).
Local Abbreviation flow := (generated_flow seed).

Lemma generate_contents w d :
  default [] (ai_files io path) = [] -> ar_code (generate_log (B := OrderBook) io path seed) = Some 0 ->
  ar_file (generate_log (B := OrderBook) io path seed) = Written w -> w_file w = Some d ->
  dk_stable d ++ dk_page_cache d = log_bytes (log_commands 0 flow).
Proof.
  intros Hnew Hc Hw Hd. unfold generate_log in *. change (generate_flow (B := OrderBook) seed 4 (Z.to_nat 500)) with (generated_flow seed) in Hc, Hw. destruct (good _) eqn:Hg; cbn [negb] in *; [|done].
  destruct (opened_writer io path FlushOnAppend Hg) as [Hf Hm]. set (w0 := open_writer _ _ _ _) in *. clearbody w0. pose proof (generate_length seed) as Hlen.
  destruct (append_flow io 0 flow w0) as [[seq|] w1] eqn:E; [done|]. injection Hw as ->. apply append_flow_all in E; [|lia|lia].
  destruct (append_all_durable _ _ _ _ Hf E) as (d' & Hd' & _ & Hall & Hdur); [rewrite Hm; apply durable_fresh|]. rewrite Hm in Hdur. cbn [durable] in Hdur.
  rewrite Hd in Hd'. injection Hd' as <-. rewrite Hdur, Hall, flow_appends_records, Hnew. done.
Qed.

Lemma replay_contents io' :
  ai_files io' path = Some (log_bytes (log_commands 0 flow)) -> ai_read_fail io' = None ->
  replay_log (B := OrderBook) io' path =
  let r := apply_all (new_engine (B := OrderBook) Baseline) flow in
  mkAppResult (Some 0) (replay_report (length flow) (length r.1) (snapshot r.2)) [] Untouched.
Proof.
  intros Hf Hr. pose proof (generate_loggable seed) as Hlog. pose proof (generate_length seed) as Hlen. assert (Forall command_ok flow) as Hok by (eapply Forall_impl; [exact Hlog|]; by intros c []).
  unfold replay_log, open_read. rewrite Hf, Hr. cbn [fmap option_fmap option_map]. rewrite read_all_ok, read_log_frames by (apply log_commands_ok; [done|lia|lia]).
  cbn [lrr_error lrr_records]. rewrite bool_decide_true by done. cbn [negb]. rewrite replay_spec, commands_of_log by done.
  assert (forall n, length (log_commands n flow) = length flow) as -> by (clear; induction (generated_flow seed) as [|c cs IH]; intros n; cbn; [done|by rewrite IH]).
  by destruct (apply_all _ flow).
Qed.
End Generate.

(** C13: a generated log replays to what the flow builds.  When [qsl-replay generate]
    exits with code zero on a new or empty file, [qsl-replay] on that file reports
    one record per command of the flow, and the events, last sequence number, best
    prices and resting orders of an engine that runs the flow directly. *)
Theorem generated_log_replays (steps : nat) (io io' : AppIO) (prog path arg : bytes) (seed : Z) (w : EventLogWriter) (d : Disk) :
  parse_u64 arg = Some seed -> Forall (fun name => path <> spelling name) [CmdGenerate; CmdRecover; CmdAppendLoop] ->
  default [] (ai_files io path) = [] ->
  let generated := dispatch (B := OrderBook) steps io [prog; text "generate"; path; arg] in
  ar_code generated = Some 0 -> ar_file generated = Written w -> w_file w = Some d ->
  ai_files io' path = Some (dk_stable d ++ dk_page_cache d) -> ai_read_fail io' = None ->
  let flow := generated_flow seed in
  let run := apply_all (new_engine (B := OrderBook) Baseline) flow in
  dispatch (B := OrderBook) steps io' [prog; path] =
    mkAppResult (Some 0) (replay_report (length flow) (length run.1) (snapshot run.2)) [] Untouched.
Proof.
  intros Hp Hpath Hnew generated Hc Hw Hd Hf Hr. assert (generated = generate_log (B := OrderBook) io path seed) as Hg.
  { unfold generated, dispatch, run_generate_command. cbn [has_subcommand length value_at nth]. change (command_is _ CmdGenerate) with true. cbn. by rewrite Hp. }
  rewrite Hg in Hc, Hw. rewrite (generate_contents io path seed w d Hnew Hc Hw Hd) in Hf. unfold dispatch.
  rewrite !Forall_cons in Hpath. destruct Hpath as (H1 & H2 & H3 & _). unfold command_is, value_at. cbn [nth has_subcommand length Nat.leb Nat.eqb].
  rewrite !bool_decide_false by done. cbn [andb]. by apply replay_contents.
Qed.

(** ** recover *)

(** The file after the run. *)
Definition file_after (contents : bytes) (r : AppResult) : bytes :=
  match ar_file r with Rewritten c => c | _ => contents end.

Lemma repair_prefix contents recovery io : (repair_log_file contents recovery io).2 `prefix_of` contents.
Proof. unfold repair_log_file. repeat case_if; try done. exists (drop (rec_valid_bytes recovery) contents). symmetry. apply take_drop. Qed.

Lemma recover_prefix io path contents repair : ai_files io path = Some contents -> file_after contents (recover io path repair) `prefix_of` contents.
Proof.
  intros Hf. unfold recover, file_after. rewrite Hf. change (default [] (Some contents)) with contents. set (recovery := recover_log_file _).
  pose proof (repair_prefix contents recovery (ai_repair io)) as Hp. destruct (repair_log_file contents recovery (ai_repair io)) as [repaired c]. repeat (case_if; try done).
Qed.

(** The decisions of [recover] on a log that can be read. *)
Lemma recover_cases io path contents repair :
  ai_files io path = Some contents -> ai_read_fail io = None ->
  let r := recover io path repair in
  let rec := recover_log contents in
  (rec_tail rec = CleanTail /\ ar_code r = Some 0 /\ ar_file r = Untouched) \/
  (rec_tail rec = Corrupt /\ ar_code r = Some 1 /\ ar_file r = Untouched) \/
  (rec_tail rec = TornTail /\ repair = false /\ ar_code r = Some 1 /\ ar_file r = Untouched) \/
  (rec_tail rec = TornTail /\ repair = true /\ ar_file r = Rewritten (repair_log_file contents rec (ai_repair io)).2 /\
   ar_code r = Some (if (repair_log_file contents rec (ai_repair io)).1 then 0 else 1)).
Proof.
  intros Hf Hr. unfold recover, open_read. rewrite Hf, Hr. cbn [fmap option_fmap option_map]. change (default [] (Some contents)) with contents. rewrite recover_log_file_ok.
  assert (rec_error (recover_log contents) = LogNone) as He by done. cbv zeta. rewrite He. rewrite bool_decide_true by done. cbn [negb].
  destruct (rec_tail (recover_log contents)) eqn:Et; rewrite ?bool_decide_true, ?bool_decide_false by done.
  - by left.
  - right. right. destruct repair; cbn [negb]; [right|by left]. destruct (repair_log_file _ _ _) as [[] c]; cbn; done.
  - right. by left.
Qed.

(** [qsl-replay recover] tells the truth.  It exits with code zero only when the
    log is clean afterwards and holds every record that was readable before; it
    only ever cuts the file at the end; without --repair, and on a corrupt log, it
    leaves the file as it is, and a corrupt or unreadable log gives code one. *)
Theorem recover_truthful (io : AppIO) (path contents : bytes) (repair : bool) :
  ai_files io path = Some contents ->
  let r := recover io path repair in
  let rec := recover_log contents in
  let after := file_after contents r in
  after `prefix_of` contents /\
  (repair = false -> after = contents) /\
  match ai_read_fail io with
  | None =>
      (ar_code r = Some 0 -> recover_log after = mkLogRecovery LogNone CleanTail LogNone (rec_records rec) (length after)) /\
      (rec_tail rec = Corrupt -> ar_code r = Some 1 /\ after = contents)
  | Some f => (f <= length contents)%nat -> ar_code r = Some 1 /\ after = contents
  end.
Proof.
  intros Hf. cbv zeta. split; [by apply recover_prefix|]. split.
  { intros ->. unfold recover, file_after. cbn [negb]. by repeat case_if. }
  destruct (ai_read_fail io) as [f|] eqn:Hr.
  - intros Hle. unfold recover, open_read. rewrite Hf, Hr. cbn [fmap option_fmap option_map]. unfold recover_log_file. by rewrite read_file_bytes_fail.
  - unfold file_after. destruct (recover_cases io path contents repair Hf Hr) as [(Ht & -> & ->)|[(Ht & -> & ->)|[(Ht & _ & -> & ->)|(Ht & _ & -> & ->)]]].
    + split; [|by rewrite Ht]. intros _. by apply (recover_repaired contents (mkRepairIO true true true) true); [|done]; unfold repair_log_file; rewrite Ht.
    + split; [done|]. done.
    + split; [done|]. by rewrite Ht.
    + split; [|by rewrite Ht]. destruct (repair_log_file contents (recover_log contents) (ai_repair io)) as [[] c] eqn:E; [|done]. intros _. by apply (recover_repaired contents (ai_repair io) true).
Qed.

(** ** append-loop *)

Definition loop_appends (io : AppIO) (n : Z) (steps : nat) : list (LogRecord * WriteIO) :=
  map (fun s => (loop_record s, ai_append io (Z.to_nat s))) (seqZ n (Z.of_nat steps)).

Lemma append_records_run io path max steps : forall n w out,
  1 <= n -> n + Z.of_nat steps < 2 ^ 64 ->
  let r := append_records steps io path max n w out in
  ar_code r = None ->
  exists w', ar_file r = Written w' /\ ar_out r = out ++ concat (map ack_line (seqZ n (Z.of_nat steps))) /\ append_all w (loop_appends io n steps) = Some w'.
Proof.
  induction steps as [|steps IH]; intros n w out Hn Hb; cbn [append_records]; destruct (negb ((max =? 0) || (n <=? max))); try done.
  { intros _. exists w. cbn. by rewrite app_nil_r. }
  unfold loop_appends. rewrite seqZ_cons by lia. cbn [map append_all concat]. destruct (append (loop_record n) _ w) as [[] w1]; cbn [negb]; [|done].
  rewrite u64_small by lia. intros Hc. destruct (IH (n + 1) w1 (out ++ ack_line n)) as (w' & H1 & H2 & H3); [lia|lia|done|]. exists w'.
  replace (Z.pred (Z.of_nat (S steps))) with (Z.of_nat steps) by lia. replace (Z.succ n) with (n + 1) by lia. split; [done|]. split; [by rewrite H2, <- app_assoc|done].
Qed.

Lemma loop_record_ok n : in_u64 n -> record_ok (loop_record n).
Proof. intros Hn. unfold loop_record. by split_and!. Qed.


(** The loop ends: with a bound it makes at most that many iterations. *)
Lemma append_records_ends io path max steps : forall n w out,
  0 < max < 2 ^ 64 - 1 -> 1 <= n -> max + 1 <= n + Z.of_nat steps -> ar_code (append_records steps io path max n w out) <> None.
Proof.
  induction steps as [|steps IH]; intros n w out Hm Hn Hb; cbn [append_records]; destruct (negb ((max =? 0) || (n <=? max))) eqn:E; try done; [lia|].
  destruct (append (loop_record n) _ w) as [[] w1]; cbn [negb]; [|done]. rewrite u64_small by lia. apply IH; lia.
Qed.

(** ** Witnesses *)

(** A kernel that refuses nothing. *)
Definition answers_ok : WriteIO := mkWriteIO (Z.to_nat 2000000) true 0 true true true.
Definition demo_io (files : bytes -> option bytes) : AppIO := mkAppIO files None true answers_ok (fun _ => answers_ok) (mkRepairIO true true true).
Definition empty_fs : bytes -> option bytes := fun _ => None.
Definition demo_path : bytes := text "flow.log".
Definition demo_generated : AppResult := dispatch (B := OrderBook) 0 (demo_io empty_fs) [text "qsl-replay"; text "generate"; demo_path; text "7"].
Definition result_writer (r : AppResult) : EventLogWriter := match ar_file r with Written w => w | _ => mkEventLogWriter false None BufferedOnly end.
Definition result_disk (r : AppResult) : Disk := default (mkDisk [] [] []) (w_file (result_writer r)).
Definition demo_after : AppIO := demo_io (fun _ => Some (dk_stable (result_disk demo_generated) ++ dk_page_cache (result_disk demo_generated))).

Lemma append_succeeds r w d : record_ok r -> w_file w = Some d -> (append r answers_ok w).1 = true /\ exists d', w_file (append r answers_ok w).2 = Some d'.
Proof.
  intros Hr Hd. pose proof Hr as (_ & _ & _ & _ & Hp). pose proof (length_record_frame r Hp) as Hl. unfold append. rewrite Hd.
  pose proof (encode_record_frame r [] Hp) as He. cbn [app] in He. rewrite He. unfold fwrite, answers_ok. cbn [io_written io_fflush_ok io_fileno_ok io_fsync_ok].
  rewrite Nat.min_r by (unfold kMaxPayload, kRecordHeaderSize, kChecksumSize in *; lia). rewrite Nat.eqb_refl. cbn [negb].
  unfold fflush, sync_to_storage. cbn. repeat case_bool_decide; split; try done; by eexists.
Qed.

Lemma append_flow_succeeds files flow : forall n w d,
  Forall loggable flow -> 0 <= n -> n + Z.of_nat (length flow) < 2 ^ 64 -> w_file w = Some d ->
  exists w' d', append_flow (demo_io files) n flow w = (None, w') /\ w_file w' = Some d'.
Proof.
  induction flow as [|c flow IH]; intros n w d Hl Hn Hb Hd; cbn [append_flow]; [by exists w, d|]. apply Forall_cons in Hl as [Hc Hl]. cbn [length] in Hb.
  change (mkLogRecord n CommandRecord n (encode_command c)) with (command_record n n c). change (ai_append (demo_io files) (Z.to_nat n)) with answers_ok.
  destruct (append_succeeds (command_record n n c) w d) as [H1 (d' & H2)]; [apply command_record_ok; [done|unfold in_u64; lia]|done|].
  destruct (append _ _ w) as [ok w1]. cbn [fst snd] in *. subst ok. cbn [negb]. rewrite u64_small by lia. by apply (IH (n + 1) w1 d'); [|lia|lia|].
Qed.

Lemma demo_generated_ok :
  ar_code demo_generated = Some 0 /\ ar_file demo_generated = Written (result_writer demo_generated) /\ w_file (result_writer demo_generated) = Some (result_disk demo_generated).
Proof.
  change demo_generated with (generate_log (B := OrderBook) (demo_io empty_fs) demo_path 7). unfold result_disk, result_writer, generate_log.
  change (generate_flow (B := OrderBook) 7 4 (Z.to_nat 500)) with (generated_flow 7). set (w0 := open_writer _ _ _ _). change (good w0) with true. cbn [negb].
  pose proof (generate_length 7). destruct (append_flow_succeeds empty_fs (generated_flow 7) 0 w0 (mkDisk [] [] [])) as (w' & d' & -> & Hd'); [apply generate_loggable|lia|lia|done|].
  cbn [ar_code ar_file]. rewrite Hd'. split; [reflexivity|]. split; reflexivity.
Qed.

Lemma generated_log_replays_witness :
  let flow := generated_flow 7 in
  let run := apply_all (new_engine (B := OrderBook) Baseline) flow in
  dispatch (B := OrderBook) 0 demo_after [text "qsl-replay"; demo_path] =
    mkAppResult (Some 0) (replay_report (length flow) (length run.1) (snapshot run.2)) [] Untouched.
Proof.
  apply (generated_log_replays 0 (demo_io empty_fs) demo_after (text "qsl-replay") demo_path (text "7") 7 (result_writer demo_generated) (result_disk demo_generated)).
  - reflexivity.
  - repeat constructor; discriminate.
  - reflexivity.
  - exact (proj1 demo_generated_ok).
  - exact (proj1 (proj2 demo_generated_ok)).
  - exact (proj2 (proj2 demo_generated_ok)).
  - reflexivity.
  - reflexivity.
Defined.

(** A log with a torn tail: one record and five bytes of the next. *)
Definition torn_log : bytes := log_bytes [loop_record 1] ++ take 5 (record_frame (loop_record 2)).
Definition torn_io : AppIO := demo_io (fun _ => Some torn_log).

Lemma recover_truthful_witness :
  ar_code (recover torn_io demo_path true) = Some 0 /\
  recover_log (file_after torn_log (recover torn_io demo_path true)) =
    mkLogRecovery LogNone CleanTail LogNone (rec_records (recover_log torn_log)) (length (file_after torn_log (recover torn_io demo_path true))).
Proof.
  assert (ar_code (recover torn_io demo_path true) = Some 0) as Hc by (vm_compute; reflexivity).
  split; [exact Hc|]. destruct (recover_truthful torn_io demo_path torn_log true) as (_ & _ & H & _); [reflexivity|]. exact (H Hc).
Defined.

(** Killed in the middle of the third append. *)
Definition small_io : AppIO := mkAppIO empty_fs None true answers_ok (fun _ => mkWriteIO 100 true 100 true true true) (mkRepairIO true true true).
Definition demo_loop : AppResult := append_loop 2 small_io demo_path FlushOnAppend 0.
Definition interrupted : WriteIO := mkWriteIO 100 false 30 true true true.
Definition demo_interrupted : EventLogWriter := (append (loop_record 3) interrupted (result_writer demo_loop)).2.
Definition demo_disk : Disk := default (mkDisk [] [] []) (w_file demo_interrupted).
Definition demo_contents : bytes := dk_stable demo_disk ++ dk_page_cache demo_disk.

