(* ===== verification/PerfTheorems.v ===== *)
(** * PerfTheorems: the workloads and the statistics of the performance tools

    The flows keep the book as deep as they say, the warm-up ends, timing an order
    does not change what is run, and the statistics are those of the samples. *)
From Stdlib Require Import ZifyBool.
From S2P Require Import Prelude Core Endian Text Book BookSpec OrderBook Command Engine EngineSpec Gateway Storage Perf.

(** ** The ids of a book *)

Lemma rest_ids o b i : i ∈ a_ids (a_rest o b) -> i = o_id o \/ i ∈ a_ids b.
Proof.
  unfold a_rest. rewrite (a_ids_sides _ (is_buy (o_side o))), (a_ids_sides b (is_buy (o_side o))).
  assert (forall l k, map o_id (a_side (is_buy (o_side o)) (a_set_side (is_buy (o_side o)) l k)) = map o_id l /\
    map o_id (a_side (negb (is_buy (o_side o))) (a_set_side (is_buy (o_side o)) l k)) = map o_id (a_side (negb (is_buy (o_side o))) k)) as Hset.
  { intros l k. by destruct (is_buy (o_side o)). }
  destruct (Hset (a_insert (is_buy (o_side o)) o (a_side (is_buy (o_side o)) b)) b) as [-> ->].
  rewrite (a_insert_Permutation _ _ _). cbn [map]. set_solver.
Qed.

Lemma add_limit_ids b id side price q tif i : 0 <= q -> i ∈ a_ids (a_add_limit b id side price q tif).2 -> i = id \/ i ∈ a_ids b.
Proof.
  intros Hq. unfold a_add_limit. destruct (a_contains b id); [by right|]. destruct (a_take b id side price false q) as [[ts r] b1] eqn:E.
  pose proof (a_take_ids _ _ _ _ _ _ _ _ _ Hq E) as Ht. destruct (_ && _); cbn [snd]; [|by right; apply Ht].
  intros [->|Hi]%rest_ids; [by left|by right; apply Ht].
Qed.

Lemma add_market_ids b id side q i : 0 <= q -> i ∈ a_ids (a_add_market b id side q).2 -> i ∈ a_ids b.
Proof.
  intros Hq. unfold a_add_market. destruct (a_contains b id); [done|]. destruct (a_take b id side 0 true q) as [[ts r] b1] eqn:E. cbn [snd].
  by apply (a_take_ids _ _ _ _ _ _ _ _ _ Hq E).
Qed.

Lemma remove_ids b id i : i ∈ a_ids (a_remove id b) -> i <> id /\ i ∈ a_ids b.
Proof. rewrite a_ids_remove. by intros [? ?]%list_elem_of_filter. Qed.

Lemma modify_ids b id price q i : 0 <= q -> i ∈ a_ids (a_modify b id price q).2 -> i ∈ a_ids b.
Proof.
  intros Hq. unfold a_modify. destruct (a_find b id) as [o|] eqn:E; [|done]. destruct (q =? 0); cbn [snd]; [by intros [_ ?]%remove_ids|].
  destruct (_ && _); cbn [snd].
  - unfold a_assign, a_ids, a_orders. cbn. rewrite <- !map_app, map_map. intros (o' & -> & Ho')%list_elem_of_fmap.
    match goal with |- ?x ∈ _ => replace x with (o_id o') by (by case_if) end. by apply list_elem_of_fmap_2.
  - intros [->|[_ ?]%remove_ids]%add_limit_ids; [|done|done].
    destruct (a_contains b id) eqn:Ec; [by apply a_contains_spec|]. exfalso.
    unfold a_find in E. apply fmap_Some in E as ([k x] & E & ->). apply list_find_Some in E as (Hk & Hid & _).
    apply a_contains_false in Ec. apply Ec. rewrite <- Hid. apply list_elem_of_fmap_2. by eapply list_elem_of_lookup_2.
Qed.

(** ** The book of a symbol under the engine's operations *)

Section Book.
Context {B : Type} `{HL : BookStoreLaws B} (Hu : unbounded B).
Implicit Types e : MatchingEngine B.

(** The engine is well formed and the book of [s] is [b]. *)
Definition holds_book e (s : SymbolId) (b : ABook) : Prop := engine_wf e /\ om_find s (ae_books (e_abs e)) = Some b.

Lemma step_book e s b c :
  holds_book e s b -> command_ok c -> engine_wf (apply e c).2 /\ e_abs (apply e c).2 = (a_apply true (e_abs e) c).2.
Proof.
  intros [Hwf _] Hok. pose proof (apply_refines e c Hwf ltac:(apply Forall_true; intros; apply Hu) Hok) as [Hwf1 Ha].
  rewrite (unbounded_admits e c Hu) in Ha. split; [done|]. by rewrite <- Ha.
Qed.

Lemma respond_book ae s b b' evs : om_find s (ae_books ae) = Some b -> om_find s (ae_books (a_respond ae s b' evs).2) = Some b'.
Proof. intros Hf. cbn [a_respond snd ae_books]. by rewrite om_find_alter_eq, Hf. Qed.

Lemma limit_book e s b id side price q tif :
  holds_book e s b -> command_ok (NewLimit s id side price q tif) ->
  holds_book (new_limit e s id side price q tif) s (a_add_limit b id side price q tif).2.
Proof.
  intros Hb Hok. pose proof (step_book e s b _ Hb Hok) as [Hwf Ha]. destruct Hb as [_ Hf]. split; [exact Hwf|].
  change (new_limit e s id side price q tif) with (apply e (NewLimit s id side price q tif)).2. rewrite Ha. cbn [a_apply]. rewrite Hf. cbn [negb].
  destruct (a_contains b id) eqn:E; cbn [orb snd]; [unfold a_add_limit; by rewrite E|]. destruct (a_add_limit b id side price q tif) as [ts b']. by apply (respond_book _ _ b).
Qed.

Lemma market_book e s b id side q :
  holds_book e s b -> command_ok (NewMarket s id side q) -> holds_book (new_market e s id side q) s (a_add_market b id side q).2.
Proof.
  intros Hb Hok. pose proof (step_book e s b _ Hb Hok) as [Hwf Ha]. destruct Hb as [_ Hf]. split; [exact Hwf|].
  change (new_market e s id side q) with (apply e (NewMarket s id side q)).2. rewrite Ha. cbn [a_apply]. rewrite Hf.
  destruct (a_contains b id) eqn:E; cbn [snd]; [unfold a_add_market; by rewrite E|]. destruct (a_add_market b id side q) as [ts b']. by apply (respond_book _ _ b).
Qed.

(** Removing an id that does not rest changes nothing. *)
Lemma cancel_book e s b id :
  holds_book e s b -> command_ok (Cancel s id) -> exists b', holds_book (Engine.cancel e s id) s b' /\ (forall i, i ∈ a_ids b' -> i <> id /\ i ∈ a_ids b).
Proof.
  intros Hb Hok. pose proof (step_book e s b _ Hb Hok) as [Hwf Ha]. destruct Hb as [_ Hf]. cbn [a_apply] in Ha. rewrite Hf in Ha.
  destruct (a_contains b id) eqn:E.
  - exists (a_remove id b). split; [|apply remove_ids]. split; [exact Hwf|]. change (Engine.cancel e s id) with (apply e (Cancel s id)).2. rewrite Ha. by apply (respond_book _ _ b).
  - exists b. split; [|intros i Hi; split; [|done]; intros ->; by apply a_contains_false in E]. split; [exact Hwf|]. change (Engine.cancel e s id) with (apply e (Cancel s id)).2. by rewrite Ha.
Qed.

Lemma modify_book e s b id price q :
  holds_book e s b -> command_ok (Modify s id price q) -> exists b', holds_book (Engine.modify e s id price q) s b' /\ (forall i, i ∈ a_ids b' -> i ∈ a_ids b).
Proof.
  intros Hb Hok. pose proof (step_book e s b _ Hb Hok) as [Hwf Ha]. destruct Hb as [_ Hf]. cbn [a_apply] in Ha. rewrite Hf in Ha. cbn [negb] in Ha. rewrite orb_false_r in Ha.
  assert (0 <= q) as Hq by (destruct Hok as (_ & _ & _ & Hq); unfold in_u32 in Hq; lia).
  pose proof (fun i => modify_ids b id price q i Hq) as Hi. destruct (a_contains b id); cbn [negb] in Ha.
  - destruct (a_modify b id price q) as [ts b']. exists b'. split; [|done]. split; [exact Hwf|]. change (Engine.modify e s id price q) with (apply e (Modify s id price q)).2. rewrite Ha. by apply (respond_book _ _ b).
  - exists b. split; [|done]. split; [exact Hwf|]. change (Engine.modify e s id price q) with (apply e (Modify s id price q)).2. by rewrite Ha.
Qed.

Lemma contains_book e s b id : holds_book e s b -> Engine.contains e s id = a_contains b id.
Proof.
  intros [Hwf Hf]. cbn [e_abs ae_books] in Hf. rewrite om_find_map in Hf. apply fmap_Some in Hf as (x & Hx & ->).
  by destruct (contains_abs e s id x Hwf Hx) as [_ ->].
Qed.

Lemma registered_book storage name : holds_book (register_symbol (new_engine (B := B) storage) name).2 0 a_empty.
Proof.
  pose proof (apply_refines (new_engine storage) (RegisterSymbol name) (new_engine_wf storage) ltac:(constructor) ltac:(done)) as [Hwf Ha].
  split; [exact Hwf|]. change (register_symbol (new_engine storage) name).2 with (apply (new_engine (B := B) storage) (RegisterSymbol name)).2.
  replace (e_abs (apply (new_engine (B := B) storage) (RegisterSymbol name)).2) with (a_apply (engine_admits (new_engine (B := B) storage) (RegisterSymbol name)) (e_abs (new_engine storage)) (RegisterSymbol name)).2 by (by rewrite <- Ha).
  done.
Qed.

Lemma book_wf e s b : holds_book e s b -> a_wf b.
Proof.
  intros [Hwf Hf]. cbn [e_abs ae_books] in Hf. rewrite om_find_map in Hf. apply fmap_Some in Hf as (x & Hx & ->).
  apply bs_abs_wf. apply (find_book_wf e s x Hwf); [|done]. apply Forall_true. intros. apply Hu.
Qed.

Lemma resting_book e s b : holds_book e s b -> Engine.resting_orders e s = a_orders b.
Proof.
  intros [Hwf Hb]. cbn [e_abs ae_books] in Hb. rewrite om_find_map in Hb. apply fmap_Some in Hb as (x & Hx & ->).
  unfold Engine.resting_orders. rewrite Hx. apply bs_resting_orders_ok. apply (find_book_wf e s x Hwf); [|done]. apply Forall_true. intros. apply Hu.
Qed.

Lemma depth_of_ids e s b (l : list OrderId) : holds_book e s b -> (forall i, i ∈ a_ids b -> i ∈ l) -> (length (a_orders b) <= length l)%nat.
Proof.
  intros Hb Hi. rewrite <- (List.length_map o_id). apply submseteq_length, NoDup_submseteq; [apply (book_wf _ _ _ Hb)|done].
Qed.
End Book.

(** ** How much rests *)

Definition total (b : ABook) : Z := sum_quantity (a_orders b).

Lemma total_sides b is_bid : total b = sum_quantity (a_side is_bid b) + sum_quantity (a_side (negb is_bid) b).
Proof. unfold total, a_orders. rewrite sum_quantity_app. destruct is_bid; cbn; lia. Qed.

Lemma take_total b id side limit mkt q ts r b' :
  a_wf b -> 0 <= q -> a_take b id side limit mkt q = (ts, r, b') -> total b' = total b - q + r /\ 0 <= r <= q.
Proof.
  intros Hwf Hq H. apply a_take_consumes in H as (opp & -> & Hc); [|done]. split.
  2: { split; [by eapply consumes_remainder|]. pose proof (a_side_wf b (negb (is_buy side)) Hwf) as [_ Hqs _].
       destruct Hc as (filled & tail & E & _ & [(_ & -> & _)|(o & tl & p & _ & _ & _ & _ & _ & -> & _)]); [|lia].
       rewrite E in Hqs. apply Forall_app in Hqs as [Hqs _]. assert (0 <= sum_quantity filled); [|lia]. apply sum_quantity_nonneg.
       eapply Forall_impl; [exact Hqs|]. by intros o [_ ?]. }
  rewrite !(total_sides _ (negb (is_buy side))).
  assert (sum_quantity opp = sum_quantity (a_side (negb (is_buy side)) b) - q + r) as Hopp.
  { destruct Hc as (filled & tail & -> & _ & [(_ & -> & -> & _)|(o & tl & p & -> & _ & -> & _ & _ & -> & ->)]); rewrite !sum_quantity_app; cbn; lia. }
  destruct (is_buy side); cbn in *; lia.
Qed.

Lemma rest_total o b : total (a_rest o b) = total b + o_quantity o.
Proof.
  unfold a_rest. rewrite !(total_sides _ (is_buy (o_side o))).
  assert (forall l, sum_quantity (a_insert (is_buy (o_side o)) o l) = sum_quantity l + o_quantity o) as Hins.
  { induction l as [|x l IH]; cbn [a_insert sum_quantity]; [lia|]. case_if; cbn [sum_quantity]; lia. }
  destruct (is_buy (o_side o)); cbn in *; rewrite Hins; lia.
Qed.

(** A GTC order rests, or all of it trades against what rested. *)
Lemma add_limit_total b id side price q :
  a_wf b -> 0 <= q -> let b' := (a_add_limit b id side price q GTC).2 in
  total b' <= total b + q /\ (a_contains b' id = false -> total b' = total b - q).
Proof.
  intros Hwf Hq. cbv zeta. unfold a_add_limit. destruct (a_contains b id) eqn:Ec; cbn [snd]; [split; [lia|congruence]|].
  destruct (a_take b id side price false q) as [[ts r] b1] eqn:E. destruct (take_total _ _ _ _ _ _ _ _ _ Hwf Hq E) as [Ht Hr].
  destruct (0 <? r) eqn:Er; cbn [andb snd]; [|split; lia]. rewrite bool_decide_true by done. cbn [snd]. rewrite rest_total. cbn [o_quantity]. split; [lia|].
  intros Hn%a_contains_false. exfalso. apply Hn. unfold a_rest. rewrite (a_ids_sides _ (is_buy side)). cbn [o_side]. apply elem_of_app. left.
  assert (id ∈ map o_id (a_insert (is_buy side) (mkOrder id side price r) (a_side (is_buy side) b1))) as Hin by (rewrite a_insert_Permutation; left).
  by destruct (is_buy side).
Qed.

(** ** qsl-perfeval: the depth of the book and the end of the warm-up *)

Section PerfFlow.
Context {B : Type} `{HL : BookStoreLaws B} (Hu : unbounded B).
Implicit Types f : PerfFlow B.

Lemma drawn_price_range r : 100 <= drawn_price r < 164.
Proof. unfold drawn_price, kBase, kBand. pose proof (Z.mod_pos_bound (Z.shiftr r 1) 64 ltac:(lia)). lia. Qed.
Lemma drawn_quantity_range r : 1 <= drawn_quantity r <= 8.
Proof. unfold drawn_quantity. pose proof (Z.mod_pos_bound (Z.shiftr r 8) 8 ltac:(lia)). lia. Qed.

Lemma drawn_ok id r : in_u64 id -> command_ok (NewLimit 0 id (drawn_side r) (drawn_price r) (drawn_quantity r) GTC).
Proof.
  intros Hid. pose proof (drawn_price_range r). pose proof (drawn_quantity_range r). cbn. split_and!; try done; unfold in_i64, in_u32; try lia.
  unfold drawn_side. by case_if.
Qed.

(** Every resting order is in the ring. *)
Record perf_ok f (b : ABook) : Prop := {
  po_sym : perf_sym f = 0;
  po_book : holds_book (perf_eng f) 0 b;
  po_ids : forall i, i ∈ a_ids b -> i ∈ perf_ring f;
  po_ring : (length (perf_ring f) <= kRing)%nat;
  po_head : (perf_head f < kRing)%nat;
  po_range : in_u64 (perf_id f) /\ Forall in_u64 (perf_ring f)
}.

Lemma new_perf_ok : perf_ok (new_perf_flow (B := B)) a_empty.
Proof.
  pose proof (registered_book (B := B) Baseline "AAPL") as Hb. unfold new_perf_flow.
  assert ((register_symbol (new_engine (B := B) Baseline) "AAPL").1 = 0) as H0 by done. destruct (register_symbol _ _) as [s e]. cbn in H0, Hb. subst s.
  split; try done; cbn; unfold kRing; lia.
Qed.

(** One submission: it stays out of the ring and takes from what rests, or it is
    entered into the ring. *)
Lemma submit_and_track_ok f b :
  perf_ok f b -> exists b', perf_ok (submit_and_track f) b' /\
    ((perf_ring (submit_and_track f) = perf_ring f /\ total b' <= total b - 1) \/
     (length (perf_ring f) = kRing /\ length (perf_ring (submit_and_track f)) = kRing) \/
     (length (perf_ring (submit_and_track f)) = S (length (perf_ring f)) /\ total b' <= total b + 8)).
Proof.
  intros [Hsym Hb Hids Hring Hhead [Hid Hr]]. unfold submit_and_track, submit. destruct (splitmix64 (perf_state f)) as [r next]. cbn [perf_eng perf_sym perf_id].
  rewrite Hsym. pose proof (limit_book Hu _ _ _ _ _ _ _ _ Hb (drawn_ok (perf_id f) r Hid)) as Hb1. pose proof (drawn_quantity_range r) as Hq.
  destruct (add_limit_total b (perf_id f) (drawn_side r) (drawn_price r) (drawn_quantity r) (book_wf Hu _ _ _ Hb) ltac:(lia)) as [Ht1 Ht2].
  pose proof (fun i => add_limit_ids b (perf_id f) (drawn_side r) (drawn_price r) (drawn_quantity r) GTC i ltac:(lia)) as Hi1.
  set (b1 := (a_add_limit b _ _ _ _ _).2) in *. set (e1 := new_limit _ _ _ _ _ _ _) in *. clearbody b1 e1.
  unfold track. cbn [perf_eng perf_sym perf_ring perf_head perf_id perf_state perf_sink with_eng]. rewrite ?Hsym. rewrite (contains_book e1 0 b1) by done.
  destruct (a_contains b1 (perf_id f)) eqn:Ec; cbn [negb].
  2: { exists b1. split; [|left; split; [done|]; specialize (Ht2 eq_refl); lia]. apply a_contains_false in Ec.
       split; cbn; try done; [|split; [apply u64_range|done]]. intros i Hi. destruct (Hi1 i Hi) as [->|]; [done|auto]. }
  destruct (length (perf_ring f) <? kRing)%nat eqn:El.
  - exists b1. split; [|right; right; cbn; rewrite length_app; cbn; lia]. split; cbn; try done; [|rewrite length_app; cbn; lia|split; [apply u64_range|apply Forall_app; split; [done|by apply Forall_singleton]]].
    intros i Hi. destruct (Hi1 i Hi) as [->|]; set_solver.
  - assert (length (perf_ring f) = kRing) as Hfull by lia. destruct (lookup_lt_is_Some_2 (perf_ring f) (perf_head f)) as [old Hold]; [lia|].
    rewrite Hold. cbn [default from_option id]. destruct (cancel_book Hu e1 0 b1 old Hb1) as (b2 & Hb2 & Hi2); [split; [done|]; by eapply Forall_lookup_1|].
    exists b2. split; [|right; left; cbn; by rewrite length_insert]. split; cbn; try done.
    + intros i [Hne Hi]%Hi2. destruct (Hi1 i Hi) as [->|Hin]; [apply list_elem_of_insert; lia|]. apply Hids in Hin.
      apply list_elem_of_lookup in Hin as [k Hk]. assert (k <> perf_head f) by congruence. apply list_elem_of_lookup. exists k. by rewrite list_lookup_insert_ne.
    + by rewrite length_insert.
    + apply Nat.mod_upper_bound. unfold kRing. lia.
    + split; [apply u64_range|]. by apply Forall_insert.
Qed.

Lemma total_nonneg b : a_wf b -> 0 <= total b.
Proof.
  intros [[_ H1 _] [_ H2 _] _ _]. apply sum_quantity_nonneg, Forall_app. split; (eapply Forall_impl; [eassumption|]); by intros o [_ ?].
Qed.

(** What rests and the free places of the ring bound the rest of the warm-up. *)
Lemma warmup_fills_ring n : forall f b,
  perf_ok f b -> total b + 9 * (512 - Z.of_nat (length (perf_ring f))) <= Z.of_nat n ->
  exists b', perf_ok (warmup n f) b' /\ length (perf_ring (warmup n f)) = kRing.
Proof.
  unfold warmup. induction n as [|n IH]; intros f b Hok Hn; pose proof (total_nonneg b (book_wf Hu _ _ _ (po_book _ _ Hok))) as H0;
    pose proof (po_ring _ _ Hok) as Hr; unfold kRing in Hr; cbn [while].
  { exists b. split; [done|]. unfold kRing. lia. }
  destruct (length (perf_ring f) <? kRing)%nat eqn:El; [|exists b; split; [done|unfold kRing in *; lia]].
  destruct (submit_and_track_ok f b Hok) as (b' & Hok' & Hcase). apply (IH _ b' Hok'). unfold kRing in *.
  destruct Hcase as [[-> Ht]|[[? ?]|[-> Ht]]]; lia.
Qed.

Lemma steady_state n f b :
  perf_ok f b -> length (perf_ring f) = kRing ->
  exists b', perf_ok (Nat.iter n submit_and_track f) b' /\ length (perf_ring (Nat.iter n submit_and_track f)) = kRing.
Proof.
  intros Hok Hl. induction n as [|n (b' & Hok' & IH)]; [by exists b|].
  change (Nat.iter (S n) submit_and_track f) with (submit_and_track (Nat.iter n submit_and_track f)).
  destruct (submit_and_track_ok _ b' Hok') as (b2 & Hok2 & Hcase). exists b2. split; [done|]. pose proof (po_ring _ _ Hok2).
  destruct Hcase as [[-> _]|[[_ ->]|[E _]]]; [done|done|lia].
Qed.

(** Timing the orders does not change them. *)
Lemma latency_runs ds : forall f lat, fold_left latency_step ds (f, lat) = (Nat.iter (length ds) submit_and_track f, lat ++ map u32 ds).
Proof.
  induction ds as [|d ds IH]; intros f lat; [cbn; by rewrite app_nil_r|]. cbn [fold_left length map].
  assert (latency_step (f, lat) d = (submit_and_track f, lat ++ [u32 d])) as ->.
  { unfold latency_step, submit_and_track, submit. by destruct (splitmix64 (perf_state f)). }
  rewrite IH, Nat.iter_succ_r, <- app_assoc. done.
Qed.
End PerfFlow.

(** The workload of qsl-perfeval is the one it describes, on any storage
    without limits.  The warm-up ends, after at most 4608 orders whatever the
    random numbers are, with all 512 places of the ring taken; from then on at
    most 512 orders rest, each of them in the ring; and the timed run submits the
    same orders as the untimed one and records one latency per order. *)
Theorem perf_workload {B : Type} `{HL : BookStoreLaws B} fuel (durations : list Z) :
  unbounded B -> (4608 <= fuel)%nat ->
  let f := run_throughput (B := B) fuel (length durations) in
  length (perf_ring f) = kRing /\
  (length (Engine.resting_orders (perf_eng f) (perf_sym f)) <= kRing)%nat /\
  (forall o, o ∈ Engine.resting_orders (perf_eng f) (perf_sym f) -> o_id o ∈ perf_ring f) /\
  run_latency (B := B) fuel durations = (f, map u32 durations).
Proof.
  intros Hu Hf f. destruct (warmup_fills_ring Hu fuel new_perf_flow a_empty (new_perf_ok (B := B))) as (b & Hok & Hl); [cbn; lia|].
  destruct (steady_state Hu (length durations) _ b Hok Hl) as (b' & Hok' & Hl'). fold f in Hok', Hl'. change (Nat.iter _ _ _) with f in Hok', Hl'.
  assert (Engine.resting_orders (perf_eng f) (perf_sym f) = a_orders b') as ->.
  { rewrite (po_sym _ _ Hok'). by apply (resting_book Hu), Hok'. }
  split_and!; [done| | |].
  - rewrite <- Hl'. by eapply (depth_of_ids Hu); apply Hok'.
  - intros o Ho. apply (po_ids _ _ Hok'). by apply list_elem_of_fmap_2.
  - unfold run_latency. by rewrite latency_runs.
Qed.

Lemma perf_workload_witness :
  let f := run_throughput (B := OrderBook) (Z.to_nat 4608) (length [250; 300]) in
  length (perf_ring f) = kRing /\
  (length (Engine.resting_orders (perf_eng f) (perf_sym f)) <= kRing)%nat /\
  (forall o, o ∈ Engine.resting_orders (perf_eng f) (perf_sym f) -> o_id o ∈ perf_ring f) /\
  run_latency (B := OrderBook) (Z.to_nat 4608) [250; 300] = (f, map u32 [250; 300]).
Proof. apply (perf_workload (HL := baseline_laws) (Z.to_nat 4608) [250; 300]); [done|lia]. Defined.

(** ** The profiling flow *)

Section ProfileFlow.
Context {B : Type} `{HL : BookStoreLaws B} (Hu : unbounded B).
Implicit Types f : ProfileFlow B.

Record profile_ok f (b : ABook) : Prop := {
  pr_sym : sym_ f = 0;
  pr_book : holds_book (eng_ f) 0 b;
  pr_ids : forall i, i ∈ a_ids b -> i ∈ ring_ f;
  pr_ring : (length (ring_ f) <= kRing)%nat;
  pr_head : (head_ f < kRing)%nat;
  pr_range : in_u64 (id_ f) /\ Forall in_u64 (ring_ f)
}.

Lemma new_profile_ok storage : profile_ok (new_profile_flow (B := B) storage) a_empty.
Proof.
  pose proof (registered_book (B := B) storage "AAPL") as Hb. unfold new_profile_flow.
  assert ((register_symbol (new_engine (B := B) storage) "AAPL").1 = 0) as H0 by done. destruct (register_symbol _ _) as [s e]. cbn in H0, Hb. subst s.
  split; try done; cbn; unfold kRing; lia.
Qed.

(** The ring after an order: every resting order but [oid] was in it. *)
Lemma profile_add_ok f b oid :
  sym_ f = 0 -> holds_book (eng_ f) 0 b -> (forall i, i ∈ a_ids b -> i = oid \/ i ∈ ring_ f) -> (length (ring_ f) <= kRing)%nat ->
  (head_ f < kRing)%nat -> in_u64 oid -> in_u64 (id_ f) -> Forall in_u64 (ring_ f) ->
  exists b', profile_ok (profile_add oid f) b' /\ ring_ (profile_add oid f) <> [].
Proof.
  intros Hsym Hb Hids Hring Hhead Hoid Hid Hr. unfold profile_add. destruct (length (ring_ f) <? kRing)%nat eqn:El.
  - exists b. split; [|cbn; by destruct (ring_ f)]. split; cbn; try done; [|rewrite length_app; cbn; lia|split; [done|apply Forall_app; split; [done|by apply Forall_singleton]]].
    intros i Hi. destruct (Hids i Hi) as [->|]; set_solver.
  - assert (length (ring_ f) = kRing) as Hfull by lia. destruct (lookup_lt_is_Some_2 (ring_ f) (head_ f)) as [old Hold]; [lia|].
    rewrite Hold, Hsym. cbn [default from_option id]. destruct (cancel_book Hu (eng_ f) 0 b old Hb) as (b2 & Hb2 & Hi2); [split; [done|]; by eapply Forall_lookup_1|].
    exists b2. split; [split; cbn; try done|].
    + intros i [Hne Hi]%Hi2. destruct (Hids i Hi) as [->|Hin]; [apply list_elem_of_insert; lia|].
      apply list_elem_of_lookup in Hin as [k Hk]. assert (k <> head_ f) by congruence. apply list_elem_of_lookup. exists k. by rewrite list_lookup_insert_ne.
    + by rewrite length_insert.
    + apply Nat.mod_upper_bound. unfold kRing. lia.
    + split; [done|]. by apply Forall_insert.
    + cbn. intros E. apply (f_equal length) in E. rewrite length_insert, Hfull in E. unfold kRing in E. cbn in E. lia.
Qed.

Lemma profile_modify_ok r price qty f b :
  profile_ok f b -> ring_ f <> [] -> in_i64 price -> in_u32 qty -> exists b', profile_ok (profile_modify r price qty f) b'.
Proof.
  intros Hok Hne Hp Hq. unfold profile_modify. destruct (_ && _); [|by exists b]. destruct Hok as [Hsym Hb Hids Hring Hhead [Hid Hr]]. rewrite Hsym.
  destruct (lookup_lt_is_Some_2 (ring_ f) ((head_ f + length (ring_ f) / 2) mod length (ring_ f))%nat) as [mid Hmid].
  { apply Nat.mod_upper_bound. by destruct (ring_ f). }
  rewrite Hmid. cbn [default from_option id]. destruct (modify_book Hu _ 0 b mid price qty Hb) as (b' & Hb' & Hi'); [cbn; split_and!; try done; by eapply Forall_lookup_1|].
  exists b'. split; cbn; try done. intros i Hi. auto.
Qed.

Lemma profile_market_ok r f b : profile_ok f b -> exists b', profile_ok (profile_market r f) b'.
Proof.
  intros Hok. unfold profile_market. destruct (Z.land r 15 =? 0); [|by exists b]. destruct Hok as [Hsym Hb Hids Hring Hhead [Hid Hr]]. rewrite Hsym. cbv zeta.
  set (ms := if negb (Z.land r 2 =? 0) then Sell else Buy). assert (command_ok (NewMarket 0 (id_ f) ms 3)) as Hc by (cbn; unfold ms; split_and!; try done; by case_if).
  exists (a_add_market b (id_ f) ms 3).2. split; cbn; try done; [by apply market_book| |split; [apply u64_range|done]].
  intros i Hi. apply Hids. by apply (add_market_ids b (id_ f) ms 3).
Qed.

Lemma profile_step_ok r f b : profile_ok f b -> exists b', profile_ok (profile_flow_step r f) b'.
Proof.
  intros [Hsym Hb Hids Hring Hhead [Hid Hr]]. unfold profile_flow_step. rewrite Hsym.
  change (100 + Z.shiftr r 1 mod 64) with (drawn_price r). change (1 + Z.shiftr r 8 mod 8) with (drawn_quantity r).
  pose proof (drawn_price_range r) as Hp. pose proof (drawn_quantity_range r) as Hq.
  pose proof (limit_book Hu _ _ _ _ _ _ _ _ Hb (drawn_ok (id_ f) r Hid)) as Hb1.
  pose proof (fun i => add_limit_ids b (id_ f) (drawn_side r) (drawn_price r) (drawn_quantity r) GTC i ltac:(lia)) as Hi1.
  set (f1 := mkProfileFlow _ _ _ _ (u64 (id_ f + 1)) _).
  destruct (profile_add_ok f1 _ (id_ f) eq_refl Hb1) as (b2 & Hok2 & Hne); cbn; try done; [|apply u64_range|].
  { intros i Hi. destruct (Hi1 i Hi) as [->|]; auto. }
  destruct (profile_modify_ok r (drawn_price r) (drawn_quantity r) _ b2 Hok2 Hne) as (b3 & Hok3); [unfold in_i64; lia|unfold in_u32; lia|].
  destruct (profile_market_ok r _ b3 Hok3) as (b4 & [? ? ? ? ? ?]). exists b4. by split.
Qed.
End ProfileFlow.

(** The profiling workload of qsl-bench keeps its book bounded, on any storage
    without limits and whatever the random values: after any number of steps at
    most 512 orders rest, each of them in the ring, and no index leaves the ring. *)
Theorem profile_workload_bounded {B : Type} `{HL : BookStoreLaws B} storage (rs : list Z) :
  unbounded B ->
  let f := fold_left (fun f r => profile_flow_step r f) rs (new_profile_flow (B := B) storage) in
  (length (Engine.resting_orders (eng_ f) (sym_ f)) <= length (ring_ f) <= kRing)%nat /\
  (head_ f < kRing)%nat /\
  (forall o, o ∈ Engine.resting_orders (eng_ f) (sym_ f) -> o_id o ∈ ring_ f).
Proof.
  intros Hu f. assert (exists b, profile_ok f b) as (b & Hok).
  { unfold f. clear f. generalize (new_profile_ok (B := B) storage). generalize (new_profile_flow (B := B) storage) a_empty.
    induction rs as [|r rs IH]; intros f b Hok; [by exists b|]. destruct (profile_step_ok Hu r f b Hok) as (b' & Hok'). by apply (IH _ b'). }
  assert (Engine.resting_orders (eng_ f) (sym_ f) = a_orders b) as -> by (rewrite (pr_sym _ _ Hok); by apply (resting_book Hu), Hok).
  split_and!; [by eapply (depth_of_ids Hu); apply Hok|apply Hok|apply Hok|]. intros o Ho. apply (pr_ids _ _ Hok). by apply list_elem_of_fmap_2.
Qed.

Lemma profile_workload_bounded_witness :
  let f := fold_left (fun f r => profile_flow_step r f) [16; 1; 2; 0] (new_profile_flow (B := OrderBook) Baseline) in
  (length (Engine.resting_orders (eng_ f) (sym_ f)) <= length (ring_ f) <= kRing)%nat /\
  (head_ f < kRing)%nat /\
  (forall o, o ∈ Engine.resting_orders (eng_ f) (sym_ f) -> o_id o ∈ ring_ f).
Proof. apply (profile_workload_bounded (HL := baseline_laws) Baseline [16; 1; 2; 0]). done. Defined.

(** ** The statistics *)

Definition at_most (v : Z) (l : list Z) : Z := Z.of_nat (length (filter (fun x => x <= v) l)).
Definition at_least (v : Z) (l : list Z) : Z := Z.of_nat (length (filter (fun x => v <= x) l)).
Definition sum (l : list Z) : Z := foldr Z.add 0 l.

Lemma filter_all {A} (P : A -> Prop) `{!forall x, Decision (P x)} l : Forall P l -> length (filter P l) = length l.
Proof. induction 1 as [|x l Hx _ IH]; [done|]. rewrite filter_cons_True by done. cbn. lia. Qed.

(** The element at place [k] of a sorted list. *)
Lemma sorted_place l k v :
  StronglySorted Z.le l -> l !! k = Some v -> Z.of_nat k + 1 <= at_most v l /\ Z.of_nat (length l) - Z.of_nat k <= at_least v l.
Proof.
  intros Hs Hk. pose proof (take_drop_middle l k v Hk) as E. assert (k = length (take k l)) as Hl by (rewrite length_take_le; [done|]; apply lookup_lt_Some in Hk; lia).
  rewrite <- E in Hs. rewrite <- E. set (a := take k l) in *. set (c := drop (S k) l) in *. clearbody a c. clear E Hk l. subst k. unfold at_most, at_least.
  rewrite !filter_app, !length_app, !filter_cons_True by lia. cbn [length].
  assert (Forall (fun x => x <= v) a /\ Forall (fun x => v <= x) c) as [Ha Hc].
  { split; [|by apply StronglySorted_app_1_r, StronglySorted_inv in Hs as [_ ?]].
    induction a as [|x a IH]; [constructor|]. apply StronglySorted_inv in Hs as [Hs Hx]. constructor; [|by apply IH]. rewrite Forall_forall in Hx. apply Hx. set_solver. }
  rewrite (filter_all (fun x => x <= v) a), (filter_all (fun x => v <= x) c) by done. lia.
Qed.

Lemma sorted_places l : forall i j v w, StronglySorted Z.le l -> l !! i = Some v -> l !! j = Some w -> (i < j)%nat -> v <= w.
Proof.
  induction l as [|x l IH]; intros i j v w Hs Hi Hj Hlt; [done|]. apply StronglySorted_inv in Hs as [Hs Hx]. destruct j as [|j]; [lia|]. cbn in Hj.
  destruct i as [|i]; cbn in Hi; [|by apply (IH i j); try lia]. injection Hi as ->. by eapply Forall_lookup_1 in Hx.
Qed.

Lemma sum_bounds l lo hi : Forall (fun x => lo <= x <= hi) l -> Z.of_nat (length l) * lo <= sum l <= Z.of_nat (length l) * hi.
Proof. induction 1 as [|x l Hx _ IH]; cbn [sum foldr length] in *; unfold sum in *; lia. Qed.

Lemma sum_loop l : forall acc, 0 <= acc -> Forall (fun x => 0 <= x) l -> acc + sum l < 2 ^ 64 -> fold_left (fun s v => u64 (s + v)) l acc = acc + sum l.
Proof.
  induction l as [|x l IH]; intros acc H0 Hl Hb; cbn in *; [lia|]. apply Forall_cons in Hl as [Hx Hl]. unfold sum in *.
  pose proof (sum_bounds l 0 (foldr Z.max 0 l)) as Hsum. assert (0 <= foldr Z.add 0 l) as Hs. { clear -Hl. induction Hl; cbn; lia. }
  rewrite u64_small by lia. rewrite IH by (done || lia). lia.
Qed.

Lemma sum_Permutation l k : l ≡ₚ k -> sum l = sum k.
Proof. unfold sum. induction 1; cbn; lia. Qed.

(** The latency statistics of qsl-perfeval are those of its samples: the mean
    is the exact average rounded down, without overflow; the median and the 99th
    percentile are samples, in that order; and at least the claimed share of the
    samples is at most, and at least the rest is no less than, each of them. *)
Theorem latency_stats_sound lat samples res :
  lat <> [] -> Forall in_u32 lat -> Z.of_nat (length lat) < 2 ^ 32 ->
  let n := Z.of_nat (length lat) in
  let r := fill_latency_stats lat samples res in
  mean_ns r = sum lat / n /\
  p50_ns r ∈ lat /\ p99_ns r ∈ lat /\ p50_ns r <= p99_ns r /\
  n <= 2 * at_most (p50_ns r) lat /\ n <= 2 * at_least (p50_ns r) lat /\
  99 * n <= 100 * at_most (p99_ns r) lat + 98 /\ n <= 100 * at_least (p99_ns r) lat.
Proof.
  intros Hne Hu Hn n r. unfold r, fill_latency_stats. replace (match lat with [] => res | _ => _ end) with
    (let s := merge_sort Z.le lat in mkResult (res_orders res) (u32 (fold_left (fun a v => u64 (a + v)) s 0 / Z.of_nat (length s)))
       (default 0 (s !! ((length s - 1) / 2)%nat)) (default 0 (s !! ((length s - 1) * 99 / 100)%nat)) (timer_overhead_ns samples)) by (by destruct lat).
  cbv zeta. cbn [mean_ns p50_ns p99_ns]. pose proof (merge_sort_Permutation Z.le lat) as Hp. pose proof (StronglySorted_merge_sort Z.le lat) as Hs.
  set (s := merge_sort Z.le lat) in *. clearbody s. assert (length s = length lat) as Hl by (by rewrite Hp).
  assert (0 < n) as Hpos by (unfold n; destruct lat; [done|cbn; lia]).
  assert (forall v, at_most v lat = at_most v s /\ at_least v lat = at_least v s) as Hcount by (intros v; unfold at_most, at_least; by rewrite Hp).
  assert (forall k, (k < length s)%nat -> exists v, s !! k = Some v /\ v ∈ lat /\ Z.of_nat k + 1 <= at_most v lat /\ n - Z.of_nat k <= at_least v lat) as Hat.
  { intros k Hk. destruct (lookup_lt_is_Some_2 s k Hk) as [v Hv]. exists v. split; [done|]. split; [rewrite <- Hp; by eapply list_elem_of_lookup_2|].
    destruct (Hcount v) as [-> ->]. unfold n. rewrite <- Hl. by apply sorted_place. }
  pose proof (Nat.div_mod (length s - 1) 2 ltac:(lia)). pose proof (Nat.mod_upper_bound (length s - 1) 2 ltac:(lia)).
  pose proof (Nat.div_mod ((length s - 1) * 99) 100 ltac:(lia)). pose proof (Nat.mod_upper_bound ((length s - 1) * 99) 100 ltac:(lia)).
  set (i := ((length s - 1) / 2)%nat) in *. set (j := ((length s - 1) * 99 / 100)%nat) in *. clearbody i j.
  destruct (Hat i) as (v & Hv & Hv1 & Hv2 & Hv3); [lia|]. destruct (Hat j) as (w & Hw & Hw1 & Hw2 & Hw3); [lia|]. rewrite Hv, Hw. cbn [default from_option id].
  split_and!; try done; try lia.
  - assert (Forall (fun x => 0 <= x <= 2 ^ 32 - 1) s) as Hr by (rewrite Hp; eapply Forall_impl; [exact Hu|]; unfold in_u32; lia).
    pose proof (sum_bounds s 0 (2 ^ 32 - 1) Hr) as Hsum. rewrite sum_loop; [|lia|eapply Forall_impl; [exact Hr|]; cbn; lia|unfold n in *; rewrite Hl in Hsum; nia].
    rewrite Z.add_0_l, (sum_Permutation s lat) in * by done. rewrite Hl in *. fold n in Hsum |- *. unfold u32, wrap. apply Z.mod_small.
    split; [apply Z.div_pos; lia|]. apply Z.div_lt_upper_bound; lia.
  - assert (i <= j)%nat as Hij by lia. destruct (decide (i = j)) as [->|]; [rewrite Hv in Hw; by injection Hw as ->|].
    assert (i < j)%nat as Hlt by lia. by apply (sorted_places s i j).
Qed.

Lemma latency_stats_sound_witness :
  let lat := [500; 100; 300; 200] in
  let n := Z.of_nat (length lat) in
  let r := fill_latency_stats lat [25] (mkResult 4 0 0 0 0) in
  mean_ns r = sum lat / n /\
  p50_ns r ∈ lat /\ p99_ns r ∈ lat /\ p50_ns r <= p99_ns r /\
  n <= 2 * at_most (p50_ns r) lat /\ n <= 2 * at_least (p50_ns r) lat /\
  99 * n <= 100 * at_most (p99_ns r) lat + 98 /\ n <= 100 * at_least (p99_ns r) lat.
Proof. apply (latency_stats_sound [500; 100; 300; 200] [25] (mkResult 4 0 0 0 0)); [done|by repeat constructor|done]. Defined.

(** The names of the storages are read back. *)
Lemma storage_names_round s : profile_storage_from_env (Some (storage_name s)) = s.
Proof. by destruct s. Qed.
