(* ===== verification/BenchRecoveryTheorems.v ===== *)
(** * BenchRecoveryTheorems: what the recovery benchmark relies on

    Restarting from the log of a flow gives the reference engine, and rebuilding
    the books from the captured resting orders gives the same books, so none of
    the benchmark's checks fails. *)
From Stdlib Require Import ZifyBool.
From S2P Require Import Prelude Core Endian Text Book BookSpec BookRun OrderBook Command EventLog LogFile Engine EngineSpec Gateway GatewaySpec Recovery Renumber Flow FlowSpec BenchRecovery.

(** ** Books at consecutive ids *)

(** The ids and prices of the commands that rebuild a book are in range. *)
Definition wire_order (id : OrderId) (price : Price) : Prop := in_u64 id /\ in_i64 price.

Definition relimit_command (symbol : SymbolId) (o : Order) : Command := NewLimit symbol (o_id o) (o_side o) (o_price o) (o_quantity o) GTC.

Lemma find_last k (b : ABook) bs : Forall (fun s => s.1 < k) bs -> om_find k (bs ++ [(k, b)]) = Some b.
Proof.
  induction 1 as [|[k' b'] bs Hk _ IH]; cbn [app om_find]; [by rewrite Z.eqb_refl|]. cbn in Hk. by replace (k =? k') with false by lia.
Qed.

Lemma alter_last k (b b' : ABook) bs : Forall (fun s => s.1 < k) bs -> om_alter (fun _ => b') k (bs ++ [(k, b)]) = bs ++ [(k, b')].
Proof.
  induction 1 as [|[k' b0] bs Hk _ IH]; cbn [app om_alter]; [by rewrite Z.eqb_refl|]. cbn in Hk. replace (k =? k') with false by lia. by rewrite IH.
Qed.

Lemma emplace_last k (b : ABook) bs : Forall (fun s => s.1 < k) bs -> om_try_emplace symbol_before k b bs = bs ++ [(k, b)].
Proof.
  induction 1 as [|[k' b0] bs Hk _ IH]; cbn [app om_try_emplace]; [done|]. cbn in Hk. unfold symbol_before at 1. replace (k <? k') with false by lia.
  replace (k =? k') with false by lia. by rewrite IH.
Qed.

(** ** Rebuilding one symbol *)

Lemma relimit_books os : forall ae bs k b,
  Forall (fun s => s.1 < k) bs -> ae_books ae = bs ++ [(k, b)] ->
  let r := (a_apply_all ae (map (pair true) (map (relimit_command k) os))).2 in
  ae_registry r = ae_registry ae /\ ae_books r = bs ++ [(k, (a_run b (map relimit os)).2)].
Proof.
  induction os as [|o os IH]; intros ae bs k b Hk Hb; [done|]. cbn [map a_apply_all relimit_command a_run relimit a_exec].
  assert (let r := (a_apply true ae (relimit_command k o)).2 in
    ae_registry r = ae_registry ae /\ ae_books r = bs ++ [(k, (a_add_limit b (o_id o) (o_side o) (o_price o) (o_quantity o) GTC).2)]) as [H1 H2].
  { cbn [relimit_command a_apply]. rewrite Hb, find_last by done. cbn [negb orb]. destruct (a_contains b (o_id o)) eqn:Ec; cbn [orb].
    - unfold a_add_limit. rewrite Ec. done.
    - destruct (a_add_limit b _ _ _ _ _) as [ts b']. cbn [a_respond snd ae_registry ae_books]. split; [done|]. rewrite Hb. by apply alter_last. }
  unfold relimit_command in H1, H2. destruct (a_apply true ae _) as [evs ae1]. cbn [snd] in H1, H2.
  destruct (a_add_limit b (o_id o) (o_side o) (o_price o) (o_quantity o) GTC) as [ts b1]. cbn [snd] in H2.
  specialize (IH ae1 bs k b1 Hk H2). cbv zeta in IH. destruct (a_apply_all ae1 _) as [evs' ae2]. destruct (a_run b1 _) as [tss b2]. cbn [snd] in *. by rewrite <- H1.
Qed.

(** ** Rebuilding all of them *)

(** The commands of [restore_state], for the symbols from [k]. *)
Fixpoint restore_commands (k : Z) (state : list (string * list Order)) : list Command :=
  match state with
  | [] => []
  | (name, os) :: state' => RegisterSymbol name :: map (relimit_command k) os ++ restore_commands (k + 1) state'
  end.

(** Symbols registered under [names], in order. *)
Definition registered (names : list string) (r : SymbolRegistry) : Prop :=
  next_ r = Z.of_nat (length names) /\ (forall name, is_Some (ids_ r !! name) <-> name ∈ names).

Lemma registered_nil : registered [] (mkSymbolRegistry ∅ 0).
Proof. split; [done|]. intros name. cbn. rewrite lookup_empty. split; [by intros []|by intros ?%elem_of_nil]. Qed.

Lemma register_fresh names r name :
  registered names r -> name ∉ names -> Z.of_nat (length names) + 1 < 2 ^ 32 ->
  exists r', intern r name = (Z.of_nat (length names), r') /\ registered (names ++ [name]) r'.
Proof.
  intros [Hn Hd] Hf Hb. unfold intern. destruct (ids_ r !! name) as [id|] eqn:E; [exfalso; apply Hf, Hd; by eexists|].
  rewrite Hn. eexists. split; [done|]. split; cbn [next_ ids_].
  - unfold u32, wrap. rewrite Z.mod_small by lia. rewrite length_app. cbn. lia.
  - intros name'. rewrite elem_of_app, list_elem_of_singleton. destruct (decide (name = name')) as [->|Hne].
    + rewrite lookup_insert_eq. split; [by right|by eexists].
    + rewrite lookup_insert_ne by done. rewrite Hd. naive_solver.
Qed.

Lemma a_apply_all_app l : forall l' ae, (a_apply_all ae (l ++ l')).2 = (a_apply_all (a_apply_all ae l).2 l').2.
Proof.
  induction l as [|[adm c] l IH]; intros l' ae; [done|]. cbn [app a_apply_all]. destruct (a_apply adm ae c) as [evs ae1]. specialize (IH l' ae1).
  destruct (a_apply_all ae1 (l ++ l')), (a_apply_all ae1 l). done.
Qed.

Lemma restore_books names2 : forall books ae names bs,
  registered names (ae_registry ae) -> ae_books ae = bs -> Forall (fun s => s.1 < Z.of_nat (length names)) bs ->
  NoDup (names ++ names2) -> Z.of_nat (length names) + Z.of_nat (length names2) < 2 ^ 32 ->
  length names2 = length books -> map fst books = seqZ (Z.of_nat (length names)) (Z.of_nat (length books)) -> Forall (fun s => a_wf s.2) books ->
  ae_books (a_apply_all ae (map (pair true) (restore_commands (Z.of_nat (length names)) (zip names2 (map (fun s => a_orders s.2) books))))).2 = bs ++ books.
Proof.
  induction names2 as [|name names2 IH]; intros [|[k b] books] ae names bs Hreg Hbs Hk Hnd Hlen Hl Hkeys Hwf; try done; [cbn; by rewrite app_nil_r|].
  apply Forall_cons in Hwf as [Hb Hwf]. cbn [length map] in *. rewrite seqZ_cons in Hkeys by lia. injection Hkeys as Hkk Hkeys. cbn in Hkk. subst k.
  cbn [zip zip_with restore_commands]. rewrite map_cons, map_app. cbn [a_apply_all a_apply snd].
  destruct (register_fresh names (ae_registry ae) name Hreg) as (r' & -> & Hreg'); [|lia|].
  { intros Hin. apply NoDup_app in Hnd as (_ & Hd & _). apply (Hd name Hin). left. }
  rewrite Hbs, emplace_last by done. set (ae1 := mkAEngine r' _ _).
  pose proof (relimit_books (a_orders b) ae1 bs (Z.of_nat (length names)) a_empty Hk eq_refl) as [Hr2 Hb2]. rewrite a_restore in Hb2 by done. cbn [snd] in Hb2.
  pose proof (a_apply_all_app (map (pair true) (map (relimit_command (Z.of_nat (length names))) (a_orders b)))
    (map (pair true) (restore_commands (Z.of_nat (length names) + 1) (zip names2 (map (fun s => a_orders s.2) books)))) ae1) as Happ.
  destruct (a_apply_all ae1 (_ ++ _)) as [evs2 ae2]. cbn [snd] in Happ |- *. rewrite Happ.
  replace (Z.of_nat (length names) + 1) with (Z.of_nat (length (names ++ [name]))) by (rewrite length_app; cbn; lia).
  rewrite (IH books _ (names ++ [name]) (bs ++ [(Z.of_nat (length names), b)])); try done.
  - by rewrite <- app_assoc.
  - by rewrite Hr2.
  - apply Forall_app. split; [|apply Forall_singleton; rewrite length_app; cbn; lia]. eapply Forall_impl; [exact Hk|]. cbn. rewrite length_app. lia.
  - by rewrite <- app_assoc.
  - rewrite length_app. cbn. lia.
  - lia.
  - rewrite Hkeys, length_app. f_equal; cbn; lia.
Qed.

(** ** The engine of [restore_state] *)

Lemma unbounded_baseline : unbounded OrderBook.
Proof. done. Qed.

Lemma apply_all_app_snd l : forall l' (e : MatchingEngine OrderBook), (apply_all e (l ++ l')).2 = (apply_all (apply_all e l).2 l').2.
Proof.
  induction l as [|c l IH]; intros l' e; [done|]. cbn [app apply_all]. destruct (Engine.apply e c) as [evs e1]. specialize (IH l' e1).
  destruct (apply_all e1 (l ++ l')), (apply_all e1 l). done.
Qed.

Lemma restore_orders k os : forall e, fold_left (restore_order k) os e = (apply_all e (map (relimit_command k) os)).2.
Proof.
  induction os as [|o os IH]; intros e; [done|]. cbn [fold_left map apply_all]. rewrite IH. unfold relimit_command at 2. cbn [Engine.apply].
  unfold restore_order. by destruct (apply_all _ _).
Qed.

(** Orders that can be entered again. *)
Definition orders_ok (os : list Order) : Prop := Forall (fun o => wire_order (o_id o) (o_price o) /\ is_valid_side (o_side o) = true /\ in_u32 (o_quantity o)) os.

Lemma relimit_commands_ok k os : in_u32 k -> orders_ok os -> Forall command_ok (map (relimit_command k) os).
Proof. intros Hk Hos. apply Forall_map. eapply Forall_impl; [exact Hos|]. intros o ([H1 H2] & H3 & H4). cbn. by split_and!. Qed.

Lemma relimits_registry k os : forall e, engine_wf e -> in_u32 k -> orders_ok os -> engine_wf (apply_all e (map (relimit_command k) os)).2 /\ registry_ (apply_all e (map (relimit_command k) os)).2 = registry_ e.
Proof.
  intros e Hwf Hk Hos. destruct (apply_all_refines (H0 := baseline_laws) (map (relimit_command k) os) e unbounded_baseline Hwf (relimit_commands_ok k os Hk Hos)) as [Hwf' Ha].
  split; [done|]. change (ae_registry (e_abs (apply_all e (map (relimit_command k) os)).2) = ae_registry (e_abs e)).
  replace (e_abs (apply_all e (map (relimit_command k) os)).2) with (a_apply_all (e_abs e) (map (pair true) (map (relimit_command k) os))).2 by (by rewrite Ha).
  generalize (e_abs e). clear. induction os as [|o os IH]; intros ae; [done|]. cbn [map a_apply_all].
  assert (ae_registry (a_apply true ae (relimit_command k o)).2 = ae_registry ae) as <-.
  { cbn [relimit_command a_apply]. destruct (om_find k (ae_books ae)) as [b|]; [|done]. case_if; [done|]. by destruct (a_add_limit _ _ _ _ _ _). }
  destruct (a_apply true ae _) as [evs ae1]. specialize (IH ae1). by destruct (a_apply_all ae1 _).
Qed.

Lemma restore_runs state : forall e names,
  engine_wf e -> registered names (registry_ e) -> NoDup (names ++ map fst state) ->
  Z.of_nat (length names) + Z.of_nat (length state) < 2 ^ 32 -> Forall (fun s => orders_ok s.2) state ->
  fold_left restore_symbol state e = (apply_all e (restore_commands (Z.of_nat (length names)) state)).2.
Proof.
  induction state as [|[name os] state IH]; intros e names Hwf Hreg Hnd Hlen Hok; [done|]. apply Forall_cons in Hok as [Hos Hok]. cbn [fold_left restore_commands map fst snd length] in *.
  pose proof (apply_refines (HL := baseline_laws) e (RegisterSymbol name) Hwf ltac:(by apply Forall_true) ltac:(done)) as [Hwf1 _]. cbn [Engine.apply snd] in Hwf1.
  destruct (register_fresh names (registry_ e) name Hreg) as (r' & Hi & Hreg'); [|lia|].
  { intros Hin. apply NoDup_app in Hnd as (_ & Hd & _). apply (Hd name Hin). left. }
  cbn [apply_all Engine.apply]. unfold restore_symbol at 2. cbn [fst snd].
  assert (exists e1, register_symbol e name = (Z.of_nat (length names), e1) /\ registry_ e1 = r') as (e1 & E1 & R1) by (unfold register_symbol; rewrite Hi; by eexists).
  rewrite E1 in *. cbn [snd] in *. rewrite restore_orders. assert (in_u32 (Z.of_nat (length names))) as Hk by (unfold in_u32; lia).
  destruct (relimits_registry _ os e1 Hwf1 Hk Hos) as [Hwf2 Hr2]. rewrite (IH _ (names ++ [name])).
  - rewrite length_app. cbn [length]. replace (Z.of_nat (length names + 1)) with (Z.of_nat (length names) + 1) by lia. rewrite <- apply_all_app_snd. by destruct (apply_all e1 (_ ++ _)).
  - done.
  - by rewrite Hr2, R1.
  - by rewrite <- app_assoc.
  - rewrite length_app. cbn. lia.
  - done.
Qed.

Lemma restore_commands_ok state : forall k, 0 <= k -> k + Z.of_nat (length state) < 2 ^ 32 -> Forall (fun s => orders_ok s.2) state -> Forall command_ok (restore_commands k state).
Proof.
  induction state as [|[name os] state IH]; intros k H0 Hk Hok; [constructor|]. apply Forall_cons in Hok as [Hos Hok]. cbn [restore_commands length] in *.
  constructor; [done|]. apply Forall_app. split; [apply relimit_commands_ok; [unfold in_u32; lia|done]|]. apply IH; [lia|lia|done].
Qed.

(** An engine whose symbols are [names], in order. *)
Record listed (names : list string) (e : MatchingEngine OrderBook) : Prop := {
  ls_wf : engine_wf e;
  ls_names : NoDup names /\ Z.of_nat (length names) < 2 ^ 32;
  ls_keys : map fst (ae_books (e_abs e)) = seqZ 0 (Z.of_nat (length names));
  ls_books : books_ok wire_order (e_abs e)
}.

Lemma book_orders_ok b : book_ok wire_order b -> orders_ok (a_orders b).
Proof.
  intros [[[_ Hb _] [_ Ha _] _ _] Hf]. apply Forall_forall. intros o Ho. rewrite Forall_forall in Hf. destruct (Hf o Ho) as [H1 H2]. split_and!; [done|done|].
  rewrite Forall_forall in Hb, Ha. apply elem_of_app in Ho as [Ho|Ho]; [by apply Hb|by apply Ha].
Qed.

(** ** The rebuilt engine *)

Lemma find_at (m : list (Z * ABook)) : forall i k b, NoDup (map fst m) -> m !! i = Some (k, b) -> om_find k m = Some b.
Proof.
  induction m as [|[k' b'] m IH]; intros [|i] k b Hn Hi; cbn in *; try done; [injection Hi as -> ->; by rewrite Z.eqb_refl|].
  apply NoDup_cons in Hn as [Hn Hnd]. destruct (Z.eqb_spec k k') as [->|]; [|by eapply IH].
  exfalso. apply Hn. apply (list_elem_of_fmap_2' fst m (k', b)); [by eapply list_elem_of_lookup_2|done].
Qed.

Lemma resting_at names e i b : listed names e -> ae_books (e_abs e) !! i = Some b -> Engine.resting_orders e (Z.of_nat i) = a_orders b.2.
Proof.
  intros [Hwf _ Hk _] Hi. assert (b.1 = Z.of_nat i) as Hb.
  { assert ((map fst (ae_books (e_abs e))) !! i = Some b.1) as Hf by (change (map fst) with (fmap (M := list) (@fst Z ABook)); by rewrite list_lookup_fmap, Hi).
    rewrite Hk in Hf. apply lookup_seqZ in Hf. lia. }
  assert (om_find (Z.of_nat i) (ae_books (e_abs e)) = Some b.2) as Hf.
  { apply (find_at _ i); [rewrite Hk; apply NoDup_seqZ|]. rewrite Hi, <- Hb. by destruct b. }
  cbn [e_abs ae_books] in Hf. rewrite om_find_map in Hf. apply fmap_Some in Hf as (x & Hx & ->).
  unfold Engine.resting_orders. rewrite Hx. apply (bs_resting_orders_ok (BookStoreLaws := baseline_laws)).
  apply (find_book_wf (HL := baseline_laws) e (Z.of_nat i) x Hwf); [by apply Forall_true|done].
Qed.

Lemma listed_length names e : listed names e -> length (ae_books (e_abs e)) = length names.
Proof. intros Hl. rewrite <- (List.length_map fst), (ls_keys _ _ Hl), length_seqZ. lia. Qed.

Lemma captured names e : listed names e -> cs_orders_per_symbol (capture_state e names) = map (fun s => a_orders s.2) (ae_books (e_abs e)).
Proof.
  intros Hl. pose proof (listed_length names e Hl) as Hlen. cbn [capture_state cs_orders_per_symbol]. rewrite <- Hlen.
  apply list_eq. intros i. change (map ?f ?l) with (f <$> l). rewrite !list_lookup_fmap. destruct (decide (i < length (ae_books (e_abs e)))%nat) as [Hi|Hi].
  - rewrite (proj2 (lookup_seq _ _ _ _) (conj eq_refl Hi)). destruct (lookup_lt_is_Some_2 _ _ Hi) as [b Hb]. rewrite Hb. cbn. f_equal. by apply (resting_at names).
  - rewrite !lookup_ge_None_2; [done|lia|]. rewrite length_seq. lia.
Qed.

(** The books rebuilt from the captured orders are the books. *)
Lemma rebuilt_books names e :
  listed names e -> let r := restore_state (capture_state e names) in listed names r /\ ae_books (e_abs r) = ae_books (e_abs e).
Proof.
  intros Hl r. pose proof (listed_length names e Hl) as Hlen. pose proof Hl as [Hwf [Hnd Hb] Hk Hbk].
  set (state := zip names (map (fun s => a_orders s.2) (ae_books (e_abs e)))).
  assert (map fst state = names /\ length state = length names) as [Hf Hs].
  { unfold state. split; [apply (fst_zip names); rewrite List.length_map; lia|]. rewrite length_zip_with, List.length_map. lia. }
  assert (Forall (fun s => orders_ok s.2) state) as Hok.
  { apply Forall_forall. intros [name os] Hin. apply elem_of_zip_r in Hin. apply list_elem_of_fmap in Hin as ([k b] & -> & Hin). cbn. apply book_orders_ok.
    unfold books_ok in Hbk. rewrite Forall_forall in Hbk. apply (Hbk _ Hin). }
  assert (r = (apply_all (new_engine Baseline) (restore_commands 0 state)).2) as Hr.
  { unfold r, restore_state. rewrite (captured names e Hl). cbn [capture_state cs_names]. fold state. apply (restore_runs state (new_engine Baseline) []); try done.
    - apply (new_engine_wf (HL := baseline_laws)).
    - apply registered_nil.
    - by rewrite Hf.
    - cbn. lia. }
  pose proof (apply_all_refines (H0 := baseline_laws) (restore_commands 0 state) (new_engine Baseline) unbounded_baseline (new_engine_wf _) (restore_commands_ok state 0 ltac:(lia) ltac:(lia) Hok)) as [Hwf' Ha].
  rewrite <- Hr in Hwf', Ha. pose proof (restore_books names (ae_books (e_abs e)) (e_abs (new_engine (B := OrderBook) Baseline)) [] []) as Hbooks.
  change (Z.of_nat (length (@nil string))) with 0 in Hbooks. fold state in Hbooks. rewrite Ha in Hbooks. cbn [snd app length] in Hbooks.
  assert (ae_books (e_abs r) = ae_books (e_abs e)) as E.
  { apply Hbooks; try done; [apply registered_nil|rewrite Hk; f_equal; lia|eapply Forall_impl; [exact Hbk|]; by intros s []]. }
  split; [|done]. split; [done|done| |]; unfold books_ok; by rewrite E.
Qed.

Lemma rebuilt_verified names e : listed names e -> verify_rebuilt_state (capture_state e names) e = true.
Proof.
  intros Hl. destruct (rebuilt_books names e Hl) as [Hr E]. unfold verify_rebuilt_state. set (r := restore_state _) in *.
  apply andb_true_iff. split.
  - apply bool_decide_eq_true. rewrite !(snapshot_spec (HL := baseline_laws)) by (apply Hl || apply Hr). cbn [a_snapshot es_symbols]. by rewrite E.
  - apply forallb_forall. intros i Hi. apply in_seq in Hi. apply bool_decide_eq_true. cbn [capture_state cs_names] in Hi.
    destruct (lookup_lt_is_Some_2 (ae_books (e_abs e)) i) as [b Hb]; [rewrite (listed_length names e Hl); lia|].
    rewrite (resting_at names e i b Hl Hb), (resting_at names r i b Hr); [done|]. by rewrite E.
Qed.

(** ** The reference engine of a flow *)


(** The names and the books of an abstract engine. *)
Definition named (names : list string) (ae : AEngine) : Prop :=
  registered names (ae_registry ae) /\ map fst (ae_books ae) = seqZ 0 (Z.of_nat (length names)) /\ books_ok wire_order ae.

Lemma respond_named names ae symbol b evs : named names ae -> books_ok wire_order (a_respond ae symbol b evs).2 -> named names (a_respond ae symbol b evs).2.
Proof. intros (H1 & H2 & _) Hb. split; [done|]. split; [|done]. cbn [a_respond snd ae_books]. rewrite <- H2. apply (om_alter_keys (fun _ => b) symbol). Qed.

Lemma apply_named names ae c :
  named names ae -> command_ok c -> NoDup (names ++ reg_names [c]) -> Z.of_nat (length names) + 1 < 2 ^ 32 ->
  named (names ++ reg_names [c]) (a_apply true ae c).2.
Proof.
  intros Hn Hok Hnd Hlen. pose proof Hn as (Hreg & Hkeys & Hb).
  assert (command_from wire_order c) as Hfrom by (destruct c; cbn in *; try done; split; apply Hok).
  pose proof (a_apply_ok wire_order ae c Hb Hok Hfrom) as [_ Hb']. unfold reg_names in *.
  destruct c as [name|symbol id side price q tif|symbol id side q|symbol id|symbol id price q]; cbn [omap list_omap reg_name a_apply] in *; rewrite ?app_nil_r in *.
  - destruct (register_fresh names (ae_registry ae) name Hreg) as (r' & Hi & Hreg'); [|done|].
    { intros Hin. apply NoDup_app in Hnd as (_ & Hd & _). apply (Hd name Hin). left. }
    rewrite Hi in *. cbn [snd] in *. split; [done|]. split; [|done]. cbn [ae_books].
    rewrite emplace_last; [|apply Forall_forall; intros s Hs; assert (s.1 ∈ map fst (ae_books ae)) as Hin by (by apply list_elem_of_fmap_2); rewrite Hkeys in Hin; apply elem_of_seqZ in Hin; lia].
    rewrite map_app, Hkeys, length_app, Nat2Z.inj_add, seqZ_app by lia. f_equal.
  - destruct (om_find symbol (ae_books ae)) as [b|]; [|done]. case_if; [done|]. destruct (a_add_limit _ _ _ _ _ _) as [ts b']. by apply respond_named.
  - destruct (om_find symbol (ae_books ae)) as [b|]; [|done]. case_if; [done|]. destruct (a_add_market _ _ _ _) as [ts b']. by apply respond_named.
  - destruct (om_find symbol (ae_books ae)) as [b|]; [|done]. case_if; [|done]. by apply respond_named.
  - destruct (om_find symbol (ae_books ae)) as [b|]; [|done]. case_if; [done|]. destruct (a_modify _ _ _ _) as [ts b']. by apply respond_named.
Qed.

Lemma flow_named flow : forall names ae,
  named names ae -> Forall command_ok flow -> NoDup (names ++ reg_names flow) -> Z.of_nat (length (names ++ reg_names flow)) + 1 < 2 ^ 32 ->
  named (names ++ reg_names flow) (a_apply_all ae (map (pair true) flow)).2.
Proof.
  induction flow as [|c flow IH]; intros names ae Hn Hok Hnd Hlen; [cbn; by rewrite app_nil_r|]. apply Forall_cons in Hok as [Hc Hok].
  assert (reg_names (c :: flow) = reg_names [c] ++ reg_names flow) as E by (unfold reg_names; by rewrite <- omap_app). rewrite E, app_assoc in *.
  cbn [map a_apply_all]. pose proof (apply_named names ae c Hn Hc) as H1. rewrite !length_app in Hlen.
  assert (NoDup (names ++ reg_names [c])) as Hnd1 by (by apply NoDup_app in Hnd as [Hnd _]). specialize (H1 Hnd1 ltac:(lia)).
  destruct (a_apply true ae c) as [evs ae1]. specialize (IH (names ++ reg_names [c]) ae1 H1 Hok Hnd). rewrite !length_app in IH. specialize (IH ltac:(lia)).
  by destruct (a_apply_all ae1 _).
Qed.

Lemma reference_engine flow : forall names e, fold_left reference_step flow (names, e) = (names ++ reg_names flow, (apply_all e flow).2).
Proof.
  induction flow as [|c flow IH]; intros names e; [cbn; by rewrite app_nil_r|]. cbn [fold_left apply_all]. unfold reference_step at 2. cbn [fst snd]. rewrite IH.
  unfold reg_names. cbn [omap list_omap]. destruct (Engine.apply e c) as [evs e1]. cbn [snd]. f_equal; [|by destruct (apply_all e1 flow)].
  rewrite <- app_assoc. f_equal. by destruct c.
Qed.

Lemma reference_listed flow :
  Forall command_ok flow -> NoDup (reg_names flow) -> Z.of_nat (length (reg_names flow)) + 1 < 2 ^ 32 ->
  let ref := build_reference flow in
  fr_names ref = reg_names flow /\ fr_engine ref = (apply_all (new_engine Baseline) flow).2 /\
  fr_snapshot ref = Engine.snapshot (fr_engine ref) /\ listed (reg_names flow) (fr_engine ref).
Proof.
  intros Hok Hnd Hlen. cbv zeta. unfold build_reference. rewrite reference_engine. cbn [app fr_names fr_engine fr_snapshot]. split_and!; try done.
  pose proof (apply_all_refines (H0 := baseline_laws) flow (new_engine Baseline) unbounded_baseline (new_engine_wf _) Hok) as [Hwf Ha].
  pose proof (flow_named flow [] (e_abs (new_engine (B := OrderBook) Baseline))) as Hn. rewrite Ha in Hn. cbn [snd app] in Hn.
  destruct Hn as (_ & Hk & Hb); [split; [apply registered_nil|by split; [|constructor]]|done|done|done|]. split; [done|split; [done|lia]|done|done].
Qed.

(** ** The log *)

Lemma imap_records (ios : nat -> WriteIO) (rs : list LogRecord) : map fst (imap (fun i r => (r, ios i)) rs) = rs.
Proof. revert ios. induction rs as [|r rs IH]; intros ios; [done|]. cbn. f_equal. apply (IH (ios ∘ S)). Qed.

Lemma written_log opened io ios flow w :
  write_flow_log opened io ios flow = Some w -> exists d, w_file w = Some d /\ dk_stable d ++ dk_page_cache d = log_bytes (log_commands 0 flow).
Proof.
  unfold write_flow_log. destruct opened; [|done]. set (w0 := mkEventLogWriter true (Some (mkDisk [] [] [])) FlushOnAppend).
  change (open_writer None true FlushOnAppend io) with w0. change (negb (good w0)) with false. intros Ha.
  destruct (append_all_durable _ w0 w (mkDisk [] [] []) eq_refl Ha (durable_fresh FlushOnAppend [])) as (d & Hd & _ & Hall & Hdur). cbn [w_mode durable] in Hdur.
  exists d. split; [done|]. rewrite Hdur, Hall, imap_records. done.
Qed.

Lemma log_commands_length flow : forall n, length (log_commands n flow) = length flow.
Proof. induction flow as [|c flow IH]; intros n; [done|]. cbn. by rewrite IH. Qed.

(** For a flow of commands that fit a log and register different names: recovery
    returns the whole log with a clean tail, replaying it gives the reference
    snapshot, and entering the captured resting orders into a fresh engine rebuilds
    every book. *)
Lemma recovery_checks flow :
  Forall loggable flow -> NoDup (reg_names flow) -> Z.of_nat (length flow) + 1 < 2 ^ 32 ->
  let ref := build_reference flow in
  restart_checks (log_bytes (log_commands 0 flow)) (length flow) (fr_snapshot ref) = true /\
  bench_capture_and_rebuild (fr_engine ref) (fr_names ref) = true.
Proof.
  intros Hl Hnd Hlen. assert (Forall command_ok flow) as Hok by (eapply Forall_impl; [exact Hl|]; by intros c []).
  assert (length (reg_names flow) <= length flow)%nat as Hn by (clear; unfold reg_names; induction flow as [|[] flow IH]; cbn; lia).
  destruct (reference_listed flow Hok Hnd ltac:(lia)) as (Hnames & He & Hsnap & Hlisted). cbv zeta. rewrite Hnames, Hsnap. split; [|by apply rebuilt_verified].
  unfold restart_checks, clean_full_log. rewrite recover_log_file_ok, recover_log_frames by (apply log_commands_ok; [done|lia|lia]).
  cbn [rec_error rec_tail rec_records]. rewrite log_commands_length, Nat.eqb_refl, !bool_decide_true by done. cbn [andb].
  apply bool_decide_eq_true. rewrite replay_spec, commands_of_log by done. by rewrite He.
Qed.

Definition log_written (opened : bool) (io : WriteIO) (ios : nat -> WriteIO) (flow : list Command) : bool :=
  bool_decide (is_Some (write_flow_log opened io ios flow)).

Lemma recovery_at_size opened io ios seed symbols orders :
  0 <= symbols < 2 ^ 31 -> Z.of_nat orders < 2 ^ 31 - 1 ->
  bench_recovery_at_size opened io ios seed symbols orders = log_written opened io ios (generate_flow (B := OrderBook) seed symbols orders).
Proof.
  intros Hs Ho. assert (in_u32 symbols) as Hs32 by (unfold in_u32; lia). unfold bench_recovery_at_size, log_written.
  pose proof (generate_flow_loggable (B := OrderBook) seed symbols orders Hs32 ltac:(lia)) as Hl. pose proof (generate_flow_names (B := OrderBook) seed symbols orders ltac:(lia)) as Hn.
  destruct (generate_flow_ok (B := OrderBook) seed symbols orders Hs32 ltac:(lia)) as [_ Hlen]. set (flow := generate_flow _ _ _) in *. clearbody flow.
  destruct (write_flow_log opened io ios flow) as [w|] eqn:Hw; [|done]. rewrite bool_decide_true by done. destruct (written_log _ _ _ _ _ Hw) as (d & -> & ->).
  apply andb_true_iff. apply recovery_checks; [done|done|lia].
Qed.

(** ** Synthetic books *)

(** The book of a symbol after the orders up to [i]: bids below 100, asks above. *)
Definition depth_book (i : Z) (b : ABook) : Prop :=
  Forall (fun o => o_price o <= 99) (a_bids b) /\ Forall (fun o => 101 <= o_price o) (a_asks b) /\ Forall (fun id => id <= i) (a_ids b).

Lemma rest_sides o b :
  a_bids (a_rest o b) ≡ₚ (if is_buy (o_side o) then o :: a_bids b else a_bids b) /\
  a_asks (a_rest o b) ≡ₚ (if is_buy (o_side o) then a_asks b else o :: a_asks b).
Proof. unfold a_rest. destruct (is_buy (o_side o)); cbn; by rewrite a_insert_Permutation. Qed.

Lemma depth_rest symbols i b :
  0 <= i -> depth_book i b ->
  let side := if depth_buy symbols i then Buy else Sell in
  let r := a_add_limit b (i + 1) side (depth_price symbols i) (1 + i mod 100) GTC in
  a_contains b (i + 1) = false /\ r.1 = [] /\ depth_book (i + 1) r.2.
Proof.
  intros Hi (Hb & Ha & Hids) side. set (o := mkOrder (i + 1) side (depth_price symbols i) (1 + i mod 100)).
  pose proof (Z.mod_pos_bound i 50 ltac:(lia)) as H50. pose proof (Z.mod_pos_bound i 100 ltac:(lia)) as H100.
  assert (i + 1 ∉ a_ids b) as Hf by (rewrite Forall_forall in Hids; intros Hin; specialize (Hids _ Hin); lia).
  assert (a_add_limit b (i + 1) side (depth_price symbols i) (1 + i mod 100) GTC = ([], a_rest o b)) as E.
  { apply (a_add_resting b o); [done|cbn [o o_quantity]; lia|]. unfold o, side, depth_price. cbn [o_side o_price].
    destruct (depth_buy symbols i); cbn [is_buy negb a_side]; (eapply Forall_impl; [eassumption|]); intros y Hy; cbv beta in Hy; unfold can_match_level; [change (is_buy Buy) with true|change (is_buy Sell) with false]; cbv iota; lia. }
  cbv zeta. rewrite E. cbn [fst snd]. split; [by apply a_contains_false|]. split; [done|]. unfold depth_book. destruct (rest_sides o b) as [-> ->].
  assert (Forall (fun id => id <= i + 1) (a_ids (a_rest o b))) as Hids'.
  { unfold a_ids, a_orders. apply Forall_map, Forall_app. destruct (rest_sides o b) as [-> ->]. unfold a_ids, a_orders in Hids. apply (proj1 (Forall_map _ _ _)), Forall_app in Hids as [H1 H2].
    assert (forall l, Forall (fun x => o_id x <= i) l -> Forall (fun x => o_id x <= i + 1) l) as Hup by (intros l Hl; eapply Forall_impl; [exact Hl|]; cbn; lia).
    destruct (is_buy (o_side o)); split; auto; constructor; auto; cbn; lia. }
  unfold o, side, depth_price in *. cbn [o_side] in *. destruct (depth_buy symbols i); cbn [is_buy] in *; split_and!; try done; constructor; try done; cbn [o_price]; lia.
Qed.

(** The reference after [n] submissions. *)
Definition depth_ok (names : list string) (i : Z) (e : MatchingEngine OrderBook) : Prop :=
  engine_wf e /\ named names (e_abs e) /\ Forall (fun s => depth_book i s.2) (ae_books (e_abs e)).

Lemma depth_book_up i b : depth_book i b -> depth_book (i + 1) b.
Proof. intros (H1 & H2 & H3). split_and!; [done|done|]. eapply Forall_impl; [exact H3|]. cbn. lia. Qed.

Lemma depth_step_ok names i e :
  names <> [] -> Z.of_nat (length names) + 1 < 2 ^ 32 -> NoDup names -> 0 <= i < 2 ^ 64 - 1 -> depth_ok names i e ->
  exists e', depth_step (Z.of_nat (length names)) (Some e) i = Some e' /\ depth_ok names (i + 1) e'.
Proof.
  intros Hne Hlen Hnd Hi (Hwf & Hn & Hb). set (n := Z.of_nat (length names)). assert (0 < n) as Hn0 by (unfold n; destruct names; [done|cbn; lia]).
  pose proof (Z.mod_pos_bound i n Hn0) as Hs. pose proof (Z.mod_pos_bound i 50 ltac:(lia)). pose proof (Z.mod_pos_bound i 100 ltac:(lia)).
  unfold depth_step. set (c := NewLimit (depth_symbol n i) (i + 1) (if depth_buy n i then Buy else Sell) (depth_price n i) (1 + i mod 100) GTC).
  assert (command_ok c) as Hok.
  { unfold c, depth_symbol, depth_price. cbn [command_ok]. unfold in_u32, in_u64, in_i64. destruct (depth_buy n i); split_and!; try done; lia. }
  change (new_limit e _ _ _ _ _ _) with (Engine.apply e c).2. change (events_ (Engine.apply e c).2) with (Engine.apply e c).1.
  pose proof (apply_refines (HL := baseline_laws) e c Hwf ltac:(by apply Forall_true) Hok) as [Hwf' Ha]. rewrite (unbounded_admits e c unbounded_baseline) in Ha.
  assert (reg_names [c] = []) as Hfl by done. pose proof (apply_named names (e_abs e) c Hn Hok) as Hn'. rewrite Hfl, app_nil_r in Hn'. specialize (Hn' Hnd Hlen). rewrite <- Ha in Hn'. cbn [snd] in Hn'.
  assert (depth_symbol n i ∈ map fst (ae_books (e_abs e))) as Hin by (destruct Hn as (_ & -> & _); apply elem_of_seqZ; unfold depth_symbol; lia).
  destruct (om_find (depth_symbol n i) (ae_books (e_abs e))) as [b|] eqn:Eb; [|by apply om_find_None in Eb].
  assert (depth_book i b) as Hdb by (apply om_find_Some in Eb as (l & r & E & _); rewrite E in Hb; by apply Forall_app in Hb as [_ [Hb _]%Forall_cons]).
  destruct (depth_rest n i b ltac:(lia) Hdb) as (Hc & Ht & Hd'). unfold c in Ha. cbn [a_apply] in Ha. rewrite Eb, Hc in Ha. cbn [negb orb] in Ha.
  destruct (a_add_limit b _ _ _ _ _) as [ts b']. cbn [fst snd] in Ht, Hd'. subst ts. fold c in Ha.
  destruct (Engine.apply e c) as [evs e']. cbn [fst snd] in *. injection Ha as -> _ Hbk _. cbn [map]. exists e'. split; [done|]. split_and!; [done|done|].
  change (ae_books (e_abs e')) with (om_map abs (books_ e')). rewrite Hbk. apply (om_alter_Forall (depth_book (i + 1))); [|done].
  eapply Forall_impl; [exact Hb|]. intros s. apply depth_book_up.
Qed.

Lemma depth_steps_ok names k : forall i e,
  names <> [] -> Z.of_nat (length names) + 1 < 2 ^ 32 -> NoDup names -> 0 <= i -> i + Z.of_nat k < 2 ^ 64 -> depth_ok names i e ->
  exists e', fold_left (depth_step (Z.of_nat (length names))) (seqZ i (Z.of_nat k)) (Some e) = Some e' /\ depth_ok names (i + Z.of_nat k) e'.
Proof.
  induction k as [|k IH]; intros i e Hne Hlen Hnd Hi Hb Hok; [exists e; cbn; by rewrite Z.add_0_r|]. rewrite seqZ_cons by lia. cbn [fold_left].
  destruct (depth_step_ok names i e Hne Hlen Hnd ltac:(lia) Hok) as (e1 & -> & Hok1).
  replace (Z.pred (Z.of_nat (S k))) with (Z.of_nat k) by lia. replace (Z.succ i) with (i + 1) by lia.
  destruct (IH (i + 1) e1 Hne Hlen Hnd ltac:(lia) ltac:(lia) Hok1) as (e2 & He2 & Hok2). exists e2. split; [done|]. by replace (i + Z.of_nat (S k)) with (i + 1 + Z.of_nat k) by lia.
Qed.

Lemma depth_names_NoDup n : Z.of_nat n < 2 ^ 32 -> NoDup (map depth_name (seq 0 n)).
Proof.
  intros Hn. apply (NoDup_fmap_2_strong depth_name); [|apply NoDup_seq]. intros a b Ha%elem_of_seq Hb%elem_of_seq E.
  assert (Z.of_nat a = Z.of_nat b); [|lia]. apply number_string_inj; [unfold in_u64; lia..|]. by injection E.
Qed.

(** The engine with the symbols registered. *)
Lemma depth_registered names : NoDup names -> Z.of_nat (length names) + 1 < 2 ^ 32 ->
  depth_ok names 0 (fold_left (fun e name => (register_symbol e name).2) names (new_engine Baseline)).
Proof.
  intros Hnd Hlen. set (flow := map RegisterSymbol names).
  assert (forall l e, fold_left (fun e name => (register_symbol e name).2) l e = (apply_all e (map RegisterSymbol l)).2) as E.
  { induction l as [|x l IH]; intros e; [done|]. cbn. rewrite IH. by destruct (apply_all _ _). }
  assert (reg_names flow = names) as Hf by (unfold flow, reg_names; clear; induction names as [|x l IH]; [done|]; cbn; by f_equal).
  assert (Forall command_ok flow) as Hok by (apply Forall_map, Forall_true; done).
  rewrite E. fold flow.
  pose proof (apply_all_refines (H0 := baseline_laws) flow (new_engine Baseline) unbounded_baseline (new_engine_wf _) Hok) as [Hwf Ha].
  pose proof (flow_named flow [] (e_abs (new_engine (B := OrderBook) Baseline))) as Hn. rewrite Hf, Ha in Hn. cbn [snd app] in Hn. split_and!; [done| |].
  - apply Hn; [split; [apply registered_nil|by split; [|constructor]]|done|done|done].
  - replace (e_abs (apply_all (new_engine Baseline) flow).2) with (a_apply_all (e_abs (new_engine (B := OrderBook) Baseline)) (map (pair true) flow)).2 by (by rewrite Ha).
    assert (forall l ae, Forall (fun s => depth_book 0 s.2) (ae_books ae) -> Forall (fun s => depth_book 0 s.2) (ae_books (a_apply_all ae (map (pair true) (map RegisterSymbol l))).2)) as Hall.
    { induction l as [|x l IH]; intros ae Hae; [done|]. cbn [map a_apply_all a_apply]. destruct (intern (ae_registry ae) x) as [k r].
      specialize (IH (mkAEngine r (om_try_emplace symbol_before k a_empty (ae_books ae)) (ae_seq ae))). destruct (a_apply_all (mkAEngine r _ _) _). apply IH. cbn.
      apply (om_try_emplace_Forall symbol_before (depth_book 0)); [done|]. by repeat split; constructor. }
    by apply Hall.
Qed.

(** The synthetic books of the recovery benchmark never cross: for any number
    of symbols and orders every order is acknowledged with a single event, so the
    benchmark does not give up, and the books it rebuilds are the books it
    captured. *)
Lemma depth_bench_sound (symbols : Z) (total_orders : nat) :
  0 < symbols < 2 ^ 32 - 1 -> Z.of_nat total_orders < 2 ^ 64 -> bench_rebuild_at_depth symbols total_orders = true.
Proof.
  intros Hs Ht. unfold bench_rebuild_at_depth. set (names := map depth_name (seq 0 (Z.to_nat symbols))).
  assert (length names = Z.to_nat symbols) as Hlen by (unfold names; by rewrite List.length_map, length_seq).
  assert (NoDup names) as Hnd by (apply depth_names_NoDup; lia). pose proof (depth_registered names Hnd ltac:(lia)) as Hok.
  destruct (depth_steps_ok names total_orders 0 _ ltac:(intros E; rewrite E in Hlen; cbn in Hlen; lia) ltac:(lia) Hnd ltac:(lia) ltac:(lia) Hok) as (e' & He & Hwf & (_ & Hk & Hb) & _).
  replace (Z.of_nat (length names)) with symbols in He by lia. rewrite He. apply rebuilt_verified. split; [done|split; [done|lia]|done|done].
Qed.

