(* ===== verification/BenchStorageTheorems.v ===== *)
(** * BenchStorageTheorems: the storages are interchangeable

    Engines over any two storages emit the same events and answer alike on every
    stream within the limits of all storages, and the storage benchmark compares
    like with like: its loops end, its workloads stay within the limits, and every
    storage reports the figures of the shape it is printed under. *)
From Stdlib Require Import ZifyBool.
From S2P Require Import Prelude Core Endian Text Book BookSpec BookRun OrderBook Contiguous Intrusive Storage StorageTheorems Command Engine EngineSpec Gateway GatewaySpec Shrink Renumber Flow FlowSpec BenchStorage.

(** ** Engines over a storage *)

Section EveryBook.
Context {B : Type} `{BookStore B} (P : B -> Prop).
Hypothesis P_limit : forall b id side price q tif, P b -> P (bs_add_limit b id side price q tif).2.
Hypothesis P_market : forall b id side q, P b -> P (bs_add_market b id side q).2.
Hypothesis P_cancel : forall b id, P b -> P (bs_cancel b id).2.
Hypothesis P_modify : forall b id price q, P b -> P (bs_modify b id price q).2.

Lemma emit_trades_store symbol ts : forall e : MatchingEngine B, books_ (emit_trades symbol ts e) = books_ e /\ book_storage_ (emit_trades symbol ts e) = book_storage_ e.
Proof.
  unfold emit_trades. induction ts as [|t ts IH]; intros e; [done|]. cbn [fold_left]. match goal with |- context [fold_left _ ts ?x] => destruct (IH x) as [-> ->] end. done.
Qed.

(** A property of books that every operation keeps holds of every book. *)
Lemma apply_books (e : MatchingEngine B) c :
  P (bs_new (book_storage_ e)) -> Forall (fun s => P s.2) (books_ e) ->
  Forall (fun s => P s.2) (books_ (Engine.apply e c).2) /\ book_storage_ (Engine.apply e c).2 = book_storage_ e.
Proof.
  intros Hn Hb. assert (forall symbol b', P b' -> Forall (fun s => P s.2) (om_alter (fun _ => b') symbol (books_ e))) as Hput.
  { intros. by apply (om_alter_Forall P). }
  assert (forall symbol b, find_book (reset_events e) symbol = Some b -> P b) as Hf.
  { intros symbol b Hf. apply om_find_Some in Hf as (l & r & E & _). cbn in E. rewrite E in Hb. by apply Forall_app in Hb as [_ [Hb _]%Forall_cons]. }
  destruct c as [name|symbol id side price q tif|symbol id side q|symbol id|symbol id price q]; cbn [Engine.apply snd].
  - unfold register_symbol. destruct (intern _ _) as [id reg]. cbn. split; [|done]. by apply (om_try_emplace_Forall _ P).
  - unfold new_limit. destruct (find_book _ _) as [b|] eqn:E; [|done]. apply Hf in E. repeat (case_if; [done|]).
    pose proof (P_limit b id side price q tif E) as HP. destruct (bs_add_limit _ _ _ _ _ _) as [ts b']. destruct (emit_trades_store symbol ts (put_book symbol b' (emit (fun s => OrderAccepted s symbol id) (reset_events e)))) as [-> ->].
    split; [by apply Hput|done].
  - unfold new_market. destruct (find_book _ _) as [b|] eqn:E; [|done]. apply Hf in E. repeat (case_if; [done|]).
    pose proof (P_market b id side q E) as HP. destruct (bs_add_market _ _ _ _) as [ts b']. destruct (emit_trades_store symbol ts (put_book symbol b' (emit (fun s => OrderAccepted s symbol id) (reset_events e)))) as [-> ->].
    split; [by apply Hput|done].
  - unfold Engine.cancel. destruct (find_book _ _) as [b|] eqn:E; [|done]. apply Hf in E.
    pose proof (P_cancel b id E) as HP. destruct (bs_cancel b id) as [[] b']; cbn; split; try done; by apply Hput.
  - unfold Engine.modify. destruct (find_book _ _) as [b|] eqn:E; [|done]. apply Hf in E. repeat (case_if; [done|]).
    pose proof (P_modify b id price q E) as HP. destruct (bs_modify _ _ _ _) as [ts b']. destruct (emit_trades_store symbol ts (put_book symbol b' (emit (fun s => OrderModified s symbol id) (reset_events e)))) as [-> ->].
    split; [by apply Hput|done].
Qed.
End EveryBook.

(** The ids and prices that every storage can hold. *)
Definition banded (id : OrderId) (price : Price) : Prop := in_u64 id /\ kContiguousMinPrice <= price <= kContiguousMaxPrice.

(** An engine over storage [st] with at most [n] orders in each book, all of them
    within the limits of every storage. *)
Record fits (st : Storage) (n : nat) (e : MatchingEngine Book) : Prop := {
  fi_wf : engine_wf e;
  fi_storage : book_storage_ e = st;
  fi_uses : Forall (fun s => uses st s.2) (books_ e);
  fi_banded : books_ok banded (e_abs e);
  fi_small : books_small n (e_abs e)
}.

Lemma new_engine_fits st : fits st 0 (new_engine st).
Proof. split; [apply new_engine_wf|done|constructor|constructor|constructor]. Qed.

Lemma fits_find st n e symbol b :
  fits st n e -> om_find symbol (books_ e) = Some b ->
  any_wf b /\ uses st b /\ book_ok banded (any_abs b) /\ (length (a_orders (any_abs b)) <= n)%nat /\ om_find symbol (ae_books (e_abs e)) = Some (any_abs b).
Proof.
  intros [Hwf _ Hu Hb Hs] Hf. assert (om_find symbol (ae_books (e_abs e)) = Some (any_abs b)) as Ha by (cbn; rewrite om_find_map, Hf; done).
  split_and!; [| |by eapply books_ok_find| |done].
  - apply ew_books in Hwf. apply om_find_Some in Hf as (l & r & E & _). rewrite E in Hwf. by apply Forall_app in Hwf as [_ [Hwf _]%Forall_cons].
  - apply om_find_Some in Hf as (l & r & E & _). rewrite E in Hu. by apply Forall_app in Hu as [_ [Hu _]%Forall_cons].
  - unfold books_small in Hs. apply om_find_Some in Ha as (l & r & E & _). rewrite E in Hs. by apply Forall_app in Hs as [_ [Hs _]%Forall_cons].
Qed.

Lemma fits_representable st b : (Z.of_nat (length (a_orders b)) <= 65536) -> book_ok banded b -> representable st b.
Proof.
  intros Hl [_ Hb]. destruct st; cbn [representable]; [done|done|unfold kIntrusivePoolCapacity; lia|].
  eapply Forall_impl; [exact Hb|]. by intros o [[_ Ho] _].
Qed.

(** No admission check refuses. *)
Lemma fits_admits st n e c :
  fits st n e -> Z.of_nat n < 65536 -> command_ok c -> command_from banded c ->
  a_apply (engine_admits e c) (e_abs e) c = a_apply true (e_abs e) c.
Proof.
  intros Hfit Hn Hok Hfrom. destruct c as [name|symbol id side price q tif|symbol id side q|symbol id|symbol id price q]; try done;
    cbn [engine_admits a_apply command_ok command_from] in *; unfold can_store_limit, can_apply_modify.
  - destruct (om_find symbol (books_ e)) as [b|] eqn:E; [|cbn; by rewrite om_find_map, E].
    destruct (fits_find _ _ _ _ _ Hfit E) as (Hwf & Hu & Hb & Hl & ->). destruct (a_contains (any_abs b) id) eqn:Hc; [done|].
    destruct Hok as (_ & _ & Hside & _ & Hq & Htif). replace (bs_can_store_limit b side price q tif) with true; [done|]. symmetry.
    destruct tif; [| |done].
    + apply (limit_admission st b id); try done; [unfold few; lia|]. destruct (a_add_limit_from banded (any_abs b) id side price q GTC Hb Hside Hq Hfrom) as [_ Hb'].
      apply fits_representable; [|done]. pose proof (a_add_limit_length (any_abs b) id side price q GTC ltac:(unfold in_u32 in Hq; lia)). lia.
    + cbn. unfold Storage.can_store_limit, dispatch_const, Intrusive.can_store_limit, Contiguous.can_store_limit. by repeat case_match.
  - destruct (om_find symbol (books_ e)) as [b|] eqn:E; [|cbn; by rewrite om_find_map, E].
    destruct (fits_find _ _ _ _ _ Hfit E) as (Hwf & Hu & Hb & Hl & ->). destruct Hok as (_ & _ & _ & Hq). destruct (a_contains (any_abs b) id); [|done].
    replace (bs_can_apply_modify b id price q) with true; [done|]. symmetry.
    apply (modify_admission st b); try done; [unfold few; lia|]. destruct (a_modify_from banded (any_abs b) id price q Hb Hq Hfrom) as [_ Hb'].
    apply fits_representable; [|done]. pose proof (a_modify_length (any_abs b) id price q ltac:(unfold in_u32 in Hq; lia)). lia.
Qed.

(** A command takes an engine over any storage where it takes the abstract one. *)
Lemma fits_step st n e c :
  fits st n e -> Z.of_nat n < 65536 -> command_ok c -> command_from banded c ->
  let r := Engine.apply e c in fits st (S n) r.2 /\ (r.1, e_abs r.2) = a_apply true (e_abs e) c.
Proof.
  intros Hfit Hn Hok Hfrom. assert (engine_room e) as Hroom.
  { unfold engine_room. apply Forall_forall. intros [s b] Hin. cbn. pose proof (fi_wf _ _ _ Hfit) as Hwf. apply ew_books in Hwf. rewrite Forall_forall in Hwf. specialize (Hwf _ Hin). cbn in Hwf.
    apply few_room; [done|]. pose proof (fi_small _ _ _ Hfit) as Hs. unfold books_small in Hs. cbn in Hs. unfold om_map in Hs. apply Forall_map in Hs. rewrite Forall_forall in Hs.
    specialize (Hs _ Hin). cbn in Hs. unfold few. lia. }
  pose proof (apply_refines e c (fi_wf _ _ _ Hfit) Hroom Hok) as [Hwf Ha]. rewrite (fits_admits st n) in Ha by done. cbv zeta. split; [|done].
  pose proof (a_apply_ok banded (e_abs e) c (fi_banded _ _ _ Hfit) Hok Hfrom) as [_ Hb]. pose proof (a_apply_small n (e_abs e) c (fi_small _ _ _ Hfit) Hok) as [_ Hs].
  rewrite <- Ha in Hb, Hs. destruct (apply_books (uses st)) with (e := e) (c := c) as [Hu Hst].
  1-4: intros; by apply dispatch_uses.
  { rewrite (fi_storage _ _ _ Hfit). apply new_book_uses. }
  { apply Hfit. }
  split; try done. rewrite Hst. apply Hfit.
Qed.

Lemma fits_run st cmds : forall n e,
  fits st n e -> Z.of_nat n + Z.of_nat (length cmds) <= 65536 -> Forall command_ok cmds -> Forall (command_from banded) cmds ->
  let r := apply_all e cmds in fits st (n + length cmds) r.2 /\ (r.1, e_abs r.2) = a_apply_all (e_abs e) (map (pair true) cmds).
Proof.
  induction cmds as [|c cmds IH]; intros n e Hf Hn Hok Hfrom; [by rewrite Nat.add_0_r|]. apply Forall_cons in Hok as [Hc Hok]. apply Forall_cons in Hfrom as [Hcf Hfrom].
  cbn [length] in Hn. destruct (fits_step st n e c Hf ltac:(lia) Hc Hcf) as [Hf1 Ha]. cbn [apply_all map a_apply_all]. destruct (Engine.apply e c) as [evs e1]. cbn [fst snd] in *.
  destruct (IH (S n) e1 Hf1 ltac:(lia) Hok Hfrom) as [Hf2 Ha2]. rewrite <- Ha. destruct (apply_all e1 cmds) as [evs2 e2]. cbn [fst snd length] in *. rewrite <- Ha2.
  split; [|done]. by replace (n + S (length cmds))%nat with (S n + length cmds)%nat by lia.
Qed.

(** What an engine answers is a function of its abstraction. *)
Lemma engine_answers (e : MatchingEngine Book) :
  engine_wf e ->
  Engine.snapshot e = a_snapshot (e_abs e) /\ Engine.last_seq e = ae_seq (e_abs e) /\
  (forall symbol, Engine.best_bid e symbol = om_find symbol (ae_books (e_abs e)) ≫= (fun b => a_best (a_bids b))) /\
  (forall symbol, Engine.best_ask e symbol = om_find symbol (ae_books (e_abs e)) ≫= (fun b => a_best (a_asks b))) /\
  (forall symbol, Engine.resting_orders e symbol = default [] (a_orders <$> om_find symbol (ae_books (e_abs e)))).
Proof.
  intros Hwf. assert (forall symbol b, om_find symbol (books_ e) = Some b -> bs_wf b) as Hf.
  { intros symbol b Hb. apply ew_books in Hwf. apply om_find_Some in Hb as (l & r & E & _). rewrite E in Hwf. by apply Forall_app in Hwf as [_ [Hwf _]%Forall_cons]. }
  split; [by apply snapshot_spec|]. split; [done|]. unfold Engine.best_bid, Engine.best_ask, Engine.resting_orders. cbn [e_abs ae_books].
  split_and!; intros symbol; rewrite om_find_map; destruct (om_find symbol (books_ e)) as [b|] eqn:E; cbn; try done; apply Hf in E.
  - by apply (bs_best_bid_ok (BookStoreLaws := any_laws)).
  - by apply (bs_best_ask_ok (BookStoreLaws := any_laws)).
  - by apply (bs_resting_orders_ok (BookStoreLaws := any_laws)).
Qed.

(** C3: The storages are interchangeable in the engine.  On every stream of at most
    65536 well-typed commands whose prices lie in the band of the contiguous
    storage, engines over any two storages emit the same events, have the same
    snapshot and the same resting orders: no pool runs out and no price is refused. *)
Theorem storage_interchangeable (st1 st2 : Storage) (cmds : list Command) :
  Forall command_ok cmds -> Forall (command_from banded) cmds -> Z.of_nat (length cmds) <= 65536 ->
  let '(events1, e1) := apply_all (new_engine (B := Book) st1) cmds in
  let '(events2, e2) := apply_all (new_engine (B := Book) st2) cmds in
  events1 = events2 /\ Engine.snapshot e1 = Engine.snapshot e2 /\ forall symbol, Engine.resting_orders e1 symbol = Engine.resting_orders e2 symbol.
Proof.
  intros Hok Hfrom Hn. destruct (fits_run st1 cmds 0 _ (new_engine_fits st1) Hn Hok Hfrom) as [H1 A1]. destruct (fits_run st2 cmds 0 _ (new_engine_fits st2) Hn Hok Hfrom) as [H2 A2].
  destruct (apply_all (new_engine st1) cmds) as [events1 e1], (apply_all (new_engine st2) cmds) as [events2 e2]. cbn [fst snd] in *.
  change (e_abs (new_engine st1)) with (e_abs (new_engine st2)) in A1. rewrite <- A2 in A1. apply pair_equal_spec in A1 as [-> Ea].
  destruct (engine_answers e1 (fi_wf _ _ _ H1)) as (S1 & _ & _ & _ & R1). destruct (engine_answers e2 (fi_wf _ _ _ H2)) as (S2 & _ & _ & _ & R2). rewrite Ea in S1, R1.
  split; [done|]. split; [by rewrite S1, S2|]. intros symbol. by rewrite R1, R2.
Qed.

Lemma storage_interchangeable_witness :
  let cmds := [RegisterSymbol "S0"; NewLimit 0 1 Buy 100 5 GTC; NewLimit 0 2 Sell 100 2 GTC; Modify 0 1 99 4] in
  let '(events1, e1) := apply_all (new_engine (B := Book) IntrusivePooled) cmds in
  let '(events2, e2) := apply_all (new_engine (B := Book) Contiguous) cmds in
  events1 = events2 /\ Engine.snapshot e1 = Engine.snapshot e2 /\ forall symbol, Engine.resting_orders e1 symbol = Engine.resting_orders e2 symbol.
Proof.
  apply (storage_interchangeable IntrusivePooled Contiguous); [by repeat constructor| |done].
  repeat constructor; by unfold in_u64, kContiguousMinPrice, kContiguousMaxPrice.
Defined.

(** ** Running a workload *)

(** The workloads that every storage can run. *)
Record workload_ok (w : Workload) : Prop := {
  wo_typed : Forall command_ok (wl_commands w);
  wo_banded : Forall (command_from banded) (wl_commands w);
  wo_length : Z.of_nat (length (wl_commands w)) <= 65536
}.

(** Two engines that cannot be told apart. *)
Definition alike (n : nat) (e1 e2 : MatchingEngine Book) : Prop :=
  exists st1 st2, fits st1 n e1 /\ fits st2 n e2 /\ e_abs e1 = e_abs e2.

Lemma alike_step n e1 e2 c :
  alike n e1 e2 -> Z.of_nat n < 65536 -> command_ok c -> command_from banded c ->
  (Engine.apply e1 c).1 = (Engine.apply e2 c).1 /\ alike (S n) (Engine.apply e1 c).2 (Engine.apply e2 c).2.
Proof.
  intros (st1 & st2 & F1 & F2 & E) Hn Hok Hfrom. destruct (fits_step st1 n e1 c F1 Hn Hok Hfrom) as [F1' A1]. destruct (fits_step st2 n e2 c F2 Hn Hok Hfrom) as [F2' A2].
  cbv zeta in *. rewrite E, <- A2 in A1. apply pair_equal_spec in A1 as [E1 E2]. split; [done|]. by exists st1, st2.
Qed.

Lemma alike_answers n e1 e2 symbols :
  alike n e1 e2 ->
  Engine.snapshot e1 = Engine.snapshot e2 /\ Engine.last_seq e1 = Engine.last_seq e2 /\ probe_top_of_book e1 symbols = probe_top_of_book e2 symbols.
Proof.
  intros (st1 & st2 & F1 & F2 & E). destruct (engine_answers e1 (fi_wf _ _ _ F1)) as (S1 & L1 & B1 & K1 & _). destruct (engine_answers e2 (fi_wf _ _ _ F2)) as (S2 & L2 & B2 & K2 & _).
  rewrite E in S1, L1, B1, K1. split; [by rewrite S1, S2|]. split; [by rewrite L1, L2|]. unfold probe_top_of_book. generalize 0 at 2 4.
  induction (seqZ 0 symbols) as [|symbol l IH]; intros z; [done|]. cbn [fold_left]. by rewrite B1, K1, B2, K2, IH.
Qed.

Lemma alike_registered cmds : forall n e1 e2,
  alike n e1 e2 -> Z.of_nat n + Z.of_nat (length cmds) <= 65536 -> Forall command_ok cmds -> Forall (command_from banded) cmds ->
  let f := fold_left (fun e c => (Engine.apply e c).2) cmds in alike (n + length cmds) (f e1) (f e2).
Proof.
  induction cmds as [|c cmds IH]; intros n e1 e2 Ha Hn Hok Hfrom; [by rewrite Nat.add_0_r|]. apply Forall_cons in Hok as [Hc Hok]. apply Forall_cons in Hfrom as [Hcf Hfrom].
  cbn [length] in Hn. destruct (alike_step n e1 e2 c Ha ltac:(lia) Hc Hcf) as [_ Ha1]. cbn [fold_left length]. replace (n + S (length cmds))%nat with (S n + length cmds)%nat by lia.
  by apply IH; [|lia| |].
Qed.

Lemma alike_trading w cmds : forall n i e1 e2 s probes,
  alike n e1 e2 -> Z.of_nat n + Z.of_nat (length cmds) <= 65536 -> Forall command_ok cmds -> Forall (command_from banded) cmds ->
  exists e1' e2' s' probes', fold_left (trading_step w) cmds (i, e1, s, probes) = ((i + length cmds)%nat, e1', s', probes') /\
    fold_left (trading_step w) cmds (i, e2, s, probes) = ((i + length cmds)%nat, e2', s', probes') /\ alike (n + length cmds) e1' e2'.
Proof.
  induction cmds as [|c cmds IH]; intros n i e1 e2 s probes Ha Hn Hok Hfrom; [exists e1, e2, s, probes; by rewrite !Nat.add_0_r|].
  apply Forall_cons in Hok as [Hc Hok]. apply Forall_cons in Hfrom as [Hcf Hfrom]. cbn [length] in Hn. destruct (alike_step n e1 e2 c Ha ltac:(lia) Hc Hcf) as [Hev Ha1].
  cbn [fold_left length]. rewrite !(Nat.add_succ_r). unfold trading_step at 2 4. destruct (Engine.apply e1 c) as [ev1 e1'], (Engine.apply e2 c) as [ev2 e2']. cbn [fst snd] in *. subst ev2.
  destruct (alike_answers _ e1' e2' (wl_symbols w) Ha1) as (_ & _ & ->).
  destruct (should_probe w i); match goal with |- context [fold_left _ cmds (S i, e1', ?s', ?p')] => destruct (IH (S n) (S i) e1' e2' s' p' Ha1 ltac:(lia) Hok Hfrom) as (x1 & x2 & s2 & p2 & E1 & E2 & Hx) end;
    exists x1, x2, s2, p2; rewrite E1, E2; by cbn [Nat.add] in *.
Qed.

(** Every storage reports the same figures and the same probes. *)
Lemma run_once_alike st1 st2 w : workload_ok w -> run_once st1 w = run_once st2 w.
Proof.
  intros [Ht Hb Hl]. unfold run_once, apply_registration, apply_trading. set (k := registration_prefix_len w).
  assert (alike 0 (new_engine st1) (new_engine st2)) as Ha by (exists st1, st2; split_and!; [apply new_engine_fits..|done]).
  assert (Forall command_ok (take k (wl_commands w)) /\ Forall command_ok (drop k (wl_commands w))) as [T1 T2] by (rewrite <- Forall_app, take_drop; done).
  assert (Forall (command_from banded) (take k (wl_commands w)) /\ Forall (command_from banded) (drop k (wl_commands w))) as [B1 B2] by (rewrite <- Forall_app, take_drop; done).
  assert (length (take k (wl_commands w)) + length (drop k (wl_commands w)) = length (wl_commands w))%nat as Hlen by (rewrite <- length_app, take_drop; done).
  pose proof (alike_registered (take k (wl_commands w)) 0 _ _ Ha ltac:(lia) T1 B1) as Hr. cbn zeta in Hr. cbn [Nat.add] in Hr. set (e1 := fold_left _ _ (new_engine st1)) in *. set (e2 := fold_left _ _ (new_engine st2)) in *.
  destruct (alike_trading w (drop k (wl_commands w)) _ k e1 e2 (mkRunSummary 0 0 0 0) [] Hr ltac:(lia) T2 B2) as (x1 & x2 & s & p & -> & -> & Hx).
  destruct (alike_answers _ _ _ 0 Hx) as (Hs & Hq & _). unfold finalize_run. by rewrite Hs, Hq.
Qed.

(** ** The shape and the runs *)

Lemma observe_command_keeps c s :
  sh_events (observe_command c s) = sh_events s /\ sh_top_probe_calls (observe_command c s) = sh_top_probe_calls s /\
  sh_canceled_events (observe_command c s) = sh_canceled_events s /\ sh_modified_events (observe_command c s) = sh_modified_events s.
Proof. by destruct c. Qed.

Lemma observe_events_keeps evs s :
  let s' := observe_events evs s in
  sh_commands s' = sh_commands s /\ sh_events s' = u64 (sh_events s + Z.of_nat (length evs)) /\ sh_top_probe_calls s' = sh_top_probe_calls s /\
  sh_cancel_cmds s' = sh_cancel_cmds s /\ sh_modify_cmds s' = sh_modify_cmds s.
Proof.
  unfold observe_events. set (s0 := mkWorkloadShape _ _ _ (u64 _) _ _ _ _ _ _ _ _ _ _ _ _ _ _ _ _ _).
  assert (forall l x, let y := fold_left observe_event l x in sh_commands y = sh_commands x /\ sh_events y = sh_events x /\ sh_top_probe_calls y = sh_top_probe_calls x /\
            sh_cancel_cmds y = sh_cancel_cmds x /\ sh_modify_cmds y = sh_modify_cmds x) as H; [|apply (H evs s0)].
  induction l as [|ev l IH]; intros x; [done|]. cbn [fold_left]. destruct (IH (observe_event x ev)) as (-> & -> & -> & -> & ->). by destruct ev.
Qed.

(** The baseline run and the characterisation go through the same engines. *)
Lemma characterize_run w cmds : forall i e sh s probes,
  sh_events sh = rs_events s -> sh_top_probe_calls sh = rs_top_probe_calls s -> rs_resting_orders s = 0 ->
  exists e' sh' s' probes', fold_left (characterize_step w) cmds (i, e, sh) = ((i + length cmds)%nat, e', sh') /\
    fold_left (trading_step w) cmds (i, e, s, probes) = ((i + length cmds)%nat, e', s', probes') /\
    sh_events sh' = rs_events s' /\ sh_top_probe_calls sh' = rs_top_probe_calls s' /\ rs_resting_orders s' = 0 /\
    (cmds <> [] -> sh_final_resting_orders sh' = count_resting (Engine.snapshot e')).
Proof.
  induction cmds as [|c cmds IH]; intros i e sh s probes He Hp Hr; [exists e, sh, s, probes; by rewrite Nat.add_0_r|].
  cbn [fold_left length]. rewrite Nat.add_succ_r. unfold characterize_step at 2, trading_step at 2. destruct (Engine.apply e c) as [evs e1].
  destruct (observe_command_keeps c sh) as (C1 & C2 & _). destruct (observe_events_keeps evs (observe_command c sh)) as (_ & E1 & E2 & _).
  set (sh1 := observe_snapshot (Engine.snapshot e1) (observe_events evs (observe_command c sh))).
  assert (sh_events sh1 = u64 (rs_events s + Z.of_nat (length evs))) as H1 by (cbn; by rewrite E1, C1, He).
  assert (sh_top_probe_calls sh1 = rs_top_probe_calls s) as H2 by (cbn; by rewrite E2, C2, Hp).
  destruct cmds as [|c2 cmds].
  { cbn [fold_left length]. rewrite Nat.add_0_r. destruct (should_probe w i); do 4 eexists; split_and!; try reflexivity; cbn in *; congruence. }
  destruct (should_probe w i); match goal with |- context [fold_left (trading_step w) _ (S i, e1, ?s', ?p')] =>
    match goal with |- context [fold_left (characterize_step w) _ (S i, e1, ?sh')] => destruct (IH (S i) e1 sh' s' p') as (e' & sh2 & s2 & p2 & R1 & R2 & Q1 & Q2 & Q3 & Q4) end end;
    try (cbn in *; congruence); exists e', sh2, s2, p2; rewrite R1, R2; cbn [Nat.add]; by split_and!; auto.
Qed.

Lemma fold_apply_seq cmds : forall e : MatchingEngine Book, in_u64 (seq_ e) -> in_u64 (seq_ (fold_left (fun e c => (Engine.apply e c).2) cmds e)).
Proof.
  induction cmds as [|c cmds IH]; intros e He; [done|]. cbn [fold_left]. apply IH. destruct (apply_continues e c He) as (evs & _ & _ & ->). apply u64_range.
Qed.

(** The sequence number counts the events. *)
Lemma trading_seq w cmds : forall i (e : MatchingEngine Book) s probes base,
  in_u64 (seq_ e) -> in_u64 (rs_events s) -> seq_ e = u64 (base + rs_events s) ->
  let '(_, e', s', _) := fold_left (trading_step w) cmds (i, e, s, probes) in seq_ e' = u64 (base + rs_events s') /\ in_u64 (rs_events s').
Proof.
  induction cmds as [|c cmds IH]; intros i e s probes base Hq Hu Hb; [done|]. cbn [fold_left]. unfold trading_step at 2.
  pose proof (apply_continues e c Hq) as (evs & _ & Hp & Hs). destruct (Engine.apply e c) as [produced e1]. cbn [fst snd] in *.
  assert (length produced = length evs) as Hl by (rewrite Hp; apply number_length).
  assert (seq_ e1 = u64 (base + u64 (rs_events s + Z.of_nat (length produced)))) as Hs1.
  { rewrite Hs, Hb, Hl, u64_u64_add. unfold u64, wrap. rewrite Zplus_mod_idemp_r. f_equal. lia. }
  destruct (should_probe w i); apply IH; try (by rewrite Hs; apply u64_range); try apply u64_range; done.
Qed.

Lemma registered_seq cmds : forall e : MatchingEngine Book,
  Forall (fun c => is_order c = false) cmds -> seq_ (fold_left (fun e c => (Engine.apply e c).2) cmds e) = seq_ e.
Proof.
  induction cmds as [|c cmds IH]; intros e Hc; [done|]. apply Forall_cons in Hc as [Hc Hcs]. cbn [fold_left]. rewrite IH by done. destruct c; try done.
  cbn. unfold register_symbol. by destruct (intern _ _).
Qed.

Lemma leading_spec cmds : Forall (fun c => is_order c = false) (take (leading_registrations cmds) cmds).
Proof. induction cmds as [|[] cmds IH]; cbn; by constructor. Qed.

(** The figures printed beside the times are those of the shape. *)
Lemma summary_of_shape st w reps :
  workload_ok w -> (registration_prefix_len w < length (wl_commands w))%nat -> (0 < reps)%nat ->
  let sh := characterize w in
  time_storage st w reps =
    (mkRunSummary (sh_events sh) (sh_final_resting_orders sh) (sh_events sh) (sh_top_probe_calls sh), (length (wl_commands w) - registration_prefix_len w)%nat).
Proof.
  intros Hw Hk Hr sh. unfold time_storage. replace (_ || _) with false by lia. f_equal. destruct reps as [|reps]; [lia|]. cbn [Nat.iter nat_rect].
  rewrite (run_once_alike st Baseline w Hw). unfold sh, run_once, characterize, apply_registration, apply_trading. set (k := registration_prefix_len w) in *.
  set (e0 := fold_left _ (take k (wl_commands w)) (new_engine Baseline)).
  assert (seq_ e0 = 0) as Hq by (unfold e0; rewrite registered_seq; [done|apply leading_spec]).
  destruct (characterize_run w (drop k (wl_commands w)) k e0 empty_shape (mkRunSummary 0 0 0 0) [] eq_refl eq_refl eq_refl) as (e' & sh' & s' & p' & -> & R2 & Q1 & Q2 & Q3 & Q4).
  pose proof (trading_seq w (drop k (wl_commands w)) k e0 (mkRunSummary 0 0 0 0) [] 0 ltac:(rewrite Hq; done) ltac:(done) ltac:(rewrite Hq; done)) as Hs. rewrite R2 in *. destruct Hs as [Hs Hu].
  assert (drop k (wl_commands w) <> []) as Hne by (intros E%(f_equal length); rewrite length_drop in E; cbn in E; lia). specialize (Q4 Hne).
  cbn [fst snd]. unfold finalize_run. rewrite Q1, Q2, Q4, Q3. unfold count_resting. f_equal. unfold Engine.last_seq. rewrite Hs, Z.add_0_l. by apply u64_small.
Qed.

(** ** Cancels and modifies that find their order *)

Definition hit (e : MatchingEngine Book) (c : Command) : Prop :=
  match c with Cancel symbol id | Modify symbol id _ _ => Engine.contains e symbol id = true | _ => True end.

Definition after (e : MatchingEngine Book) (cmds : list Command) : MatchingEngine Book := fold_left (fun e c => (Engine.apply e c).2) cmds e.

Fixpoint hits (e : MatchingEngine Book) (cmds : list Command) : Prop :=
  match cmds with [] => True | c :: cmds' => hit e c /\ hits (Engine.apply e c).2 cmds' end.

Lemma hits_app cmds1 cmds2 : forall e, hits e (cmds1 ++ cmds2) <-> hits e cmds1 /\ hits (after e cmds1) cmds2.
Proof. induction cmds1 as [|c cmds1 IH]; intros e; [cbn; tauto|]. cbn [app hits]. rewrite IH. unfold after. cbn [fold_left]. tauto. Qed.

Definition is_canceled (ev : EngineEvent) : bool := match ev with OrderCanceled _ _ _ => true | _ => false end.
Definition is_modified (ev : EngineEvent) : bool := match ev with OrderModified _ _ _ => true | _ => false end.
Definition counting (f : EngineEvent -> bool) (evs : list EngineEvent) : Z := Z.of_nat (length (List.filter f evs)).

Lemma observe_events_counts evs s :
  in_u64 (sh_canceled_events s) -> in_u64 (sh_modified_events s) ->
  sh_canceled_events (observe_events evs s) = u64 (sh_canceled_events s + counting is_canceled evs) /\
  sh_modified_events (observe_events evs s) = u64 (sh_modified_events s + counting is_modified evs).
Proof.
  unfold observe_events. set (s0 := mkWorkloadShape _ _ _ (u64 _) _ _ _ _ _ _ _ _ _ _ _ _ _ _ _ _ _).
  change (sh_canceled_events s) with (sh_canceled_events s0). change (sh_modified_events s) with (sh_modified_events s0). generalize s0. clear s0. unfold counting.
  induction evs as [|ev evs IH]; intros x H1 H2; cbn [fold_left List.filter]; [cbn; by rewrite !Z.add_0_r, !u64_small|].
  destruct (IH (observe_event x ev)) as [-> ->]; [destruct ev; apply u64_range..|]. destruct ev; cbn [observe_event sh_canceled_events sh_modified_events is_canceled is_modified length];
    rewrite !u64_u64_add; split; f_equal; lia.
Qed.

Lemma counting_trades symbol ts s : counting is_canceled (number s (map (trade_event symbol) ts)) = 0 /\ counting is_modified (number s (map (trade_event symbol) ts)) = 0.
Proof. unfold counting. revert s. induction ts as [|t ts IH]; intros s; cbn [map number List.filter]; [done|]. cbn. apply IH. Qed.

(** A cancel or modify that finds its order says so once, other commands never. *)
Lemma hit_counts st n e c :
  fits st n e -> Z.of_nat n < 65536 -> command_ok c -> command_from banded c -> hit e c ->
  counting is_canceled (Engine.apply e c).1 = (match c with Cancel _ _ => 1 | _ => 0 end) /\
  counting is_modified (Engine.apply e c).1 = (match c with Modify _ _ _ _ => 1 | _ => 0 end).
Proof.
  intros Hf Hn Hok Hfrom Hh. destruct (fits_step st n e c Hf Hn Hok Hfrom) as [_ Ha]. cbv zeta in Ha. apply (f_equal fst) in Ha. cbn [fst] in Ha. rewrite Ha.
  assert (forall symbol id, Engine.contains e symbol id = true -> exists b, om_find symbol (ae_books (e_abs e)) = Some b /\ a_contains b id = true) as Hc.
  { intros symbol id. unfold Engine.contains. destruct (om_find symbol (books_ e)) as [b|] eqn:E; [|done]. destruct (fits_find _ _ _ _ _ Hf E) as (Hwf & _ & _ & _ & ->).
    rewrite (bs_contains_ok (BookStoreLaws := any_laws)) by done. intros. by exists (any_abs b). }
  destruct c as [name|symbol id side price q tif|symbol id side q|symbol id|symbol id price q]; cbn [a_apply hit] in *.
  - by destruct (intern _ _).
  - destruct (om_find _ _) as [b|]; [|done]. destruct (_ || _); [done|]. destruct (a_add_limit _ _ _ _ _ _) as [ts b']. unfold a_respond. cbn [fst number]. apply counting_trades.
  - destruct (om_find _ _) as [b|]; [|done]. destruct (a_contains b id); [done|]. destruct (a_add_market _ _ _ _) as [ts b']. unfold a_respond. cbn [fst number]. apply counting_trades.
  - destruct (Hc symbol id Hh) as (b & -> & ->). done.
  - destruct (Hc symbol id Hh) as (b & -> & ->). cbn [negb orb]. destruct (a_modify _ _ _ _) as [ts b']. unfold a_respond. cbn [fst number].
    destruct (counting_trades symbol ts (u64 (ae_seq (e_abs e) + 1))) as [H1 H2]. unfold counting in *. cbn. cbn in H1, H2. lia.
Qed.

Lemma characterize_hits w cmds : forall n i e sh,
  fits Baseline n e -> Z.of_nat n + Z.of_nat (length cmds) <= 65536 -> Forall command_ok cmds -> Forall (command_from banded) cmds -> hits e cmds ->
  in_u64 (sh_cancel_cmds sh) -> in_u64 (sh_modify_cmds sh) -> sh_canceled_events sh = sh_cancel_cmds sh -> sh_modified_events sh = sh_modify_cmds sh ->
  let sh' := (fold_left (characterize_step w) cmds (i, e, sh)).2 in
  sh_canceled_events sh' = sh_cancel_cmds sh' /\ sh_modified_events sh' = sh_modify_cmds sh'.
Proof.
  induction cmds as [|c cmds IH]; intros n i e sh Hf Hn Hok Hfrom Hh U1 U2 E1 E2; [done|]. apply Forall_cons in Hok as [Hc Hok]. apply Forall_cons in Hfrom as [Hcf Hfrom].
  destruct Hh as [Hh Hhs]. cbn [length] in Hn. destruct (hit_counts Baseline n e c Hf ltac:(lia) Hc Hcf Hh) as [K1 K2]. destruct (fits_step Baseline n e c Hf ltac:(lia) Hc Hcf) as [Hf1 _].
  cbn [fold_left]. destruct (Engine.apply e c) as [evs e1] eqn:Ea. cbn [fst snd] in *.
  destruct (observe_command_keeps c sh) as (_ & _ & C1 & C2). destruct (observe_events_keeps evs (observe_command c sh)) as (_ & _ & _ & D1 & D2).
  destruct (observe_events_counts evs (observe_command c sh)) as [F1 F2]; [by rewrite C1, E1|by rewrite C2, E2|]. rewrite C1, E1, K1 in F1. rewrite C2, E2, K2 in F2.
  set (sh1 := observe_snapshot (Engine.snapshot e1) (observe_events evs (observe_command c sh))).
  assert (sh_cancel_cmds sh1 = u64 (sh_cancel_cmds sh + match c with Cancel _ _ => 1 | _ => 0 end)) as G1 by (unfold sh1; cbn; rewrite D1; by destruct c).
  assert (sh_modify_cmds sh1 = u64 (sh_modify_cmds sh + match c with Modify _ _ _ _ => 1 | _ => 0 end)) as G2 by (unfold sh1; cbn; rewrite D2; by destruct c).
  assert (sh_canceled_events sh1 = sh_cancel_cmds sh1 /\ sh_modified_events sh1 = sh_modify_cmds sh1) as [G3 G4] by (rewrite G1, G2; done).
  assert (characterize_step w (i, e, sh) c = (S i, e1, if should_probe w i then add_probes (probe_calls w) sh1 else sh1)) as -> by (unfold characterize_step; by rewrite Ea).
  destruct (should_probe w i); apply (IH (S n)); try done; try lia; cbn [add_probes sh_cancel_cmds sh_modify_cmds]; rewrite ?G1, ?G2; apply u64_range.
Qed.

(** ** The builder *)

Record builder_ok (b : WorkloadBuilder) : Prop := {
  bo_model : wb_model b = after (new_engine Baseline) (wb_commands b);
  bo_fits : fits Baseline (length (wb_commands b)) (wb_model b);
  bo_active : forall s o, mkActiveOrder s o ∈ wb_active b -> 0 <= s < wb_symbols b /\ o ∈ Engine.resting_orders (wb_model b) s;
  bo_typed : Forall command_ok (wb_commands b);
  bo_banded : Forall (command_from banded) (wb_commands b);
  bo_hits : hits (new_engine Baseline) (wb_commands b);
  bo_id : 1 <= wb_next_id b <= 1 + Z.of_nat (length (wb_commands b));
  bo_symbols : wb_symbols b < 2 ^ 32
}.

(** [b'] is [b] after [k] more orders. *)
Definition grown (k : nat) (b b' : WorkloadBuilder) : Prop :=
  builder_ok b' /\ length (wb_commands b') = (k + length (wb_commands b))%nat /\ wb_symbols b' = wb_symbols b /\ regs (wb_commands b') = regs (wb_commands b).

Lemma grown_trans j k b1 b2 b3 : grown j b1 b2 -> grown k b2 b3 -> grown (k + j) b1 b3.
Proof. intros (_ & L1 & S1 & R1) (H2 & L2 & S2 & R2). split; [done|]. split; [lia|]. split; congruence. Qed.

Definition with_id (next : OrderId) (b : WorkloadBuilder) : WorkloadBuilder :=
  mkWorkloadBuilder (wb_symbols b) (wb_model b) (wb_commands b) (wb_active b) next.

Definition small_enough (b : WorkloadBuilder) (k : nat) : Prop := Z.of_nat (k + length (wb_commands b)) <= 65536.

Lemma push_builder c next b :
  builder_ok b -> small_enough b 1 -> command_ok c -> command_from banded c -> hit (wb_model b) c -> 1 <= next <= 2 + Z.of_nat (length (wb_commands b)) ->
  builder_ok (push c (with_id next b)).
Proof.
  unfold small_enough. intros [Hm Hf Ha Ht Hb Hh Hi Hs] Hn Hc Hcf Hhit Hnext. destruct (fits_step Baseline _ _ c Hf ltac:(lia) Hc Hcf) as [Hf' _].
  assert (after (new_engine Baseline) (wb_commands b ++ [c]) = (Engine.apply (wb_model b) c).2) as Hm' by (unfold after; rewrite fold_left_app; unfold after in Hm; by rewrite <- Hm).
  split; cbn [push refresh_active with_id wb_model wb_commands wb_symbols wb_next_id wb_active].
  - done.
  - rewrite length_app, Nat.add_1_r. exact Hf'.
  - intros s o Hin. apply list_elem_of_In, in_concat in Hin as (l & Hl%list_elem_of_In & Ho%list_elem_of_In). apply list_elem_of_fmap in Hl as (s' & -> & Hs'%elem_of_seqZ). apply list_elem_of_fmap in Ho as (o' & [= -> ->] & Ho). split; [lia|done].
  - apply Forall_app. by split; [|apply Forall_singleton].
  - apply Forall_app. by split; [|apply Forall_singleton].
  - apply hits_app. split; [done|]. rewrite <- Hm. done.
  - rewrite length_app. cbn. lia.
  - done.
Qed.

Lemma push_grown c next b :
  is_order c = true -> builder_ok b -> small_enough b 1 -> command_ok c -> command_from banded c -> hit (wb_model b) c -> 1 <= next <= 2 + Z.of_nat (length (wb_commands b)) ->
  grown 1 b (push c (with_id next b)).
Proof.
  intros Ho Hb Hn Hc Hcf Hh Hnext. split; [by apply push_builder|]. cbn [push refresh_active with_id wb_commands wb_symbols]. rewrite length_app, regs_app. cbn [length].
  split; [lia|]. split; [done|]. rewrite (regs_other c) by (by destruct c). lia.
Qed.

Definition spec_ok (spec : LimitSpec) : Prop :=
  in_u32 (sp_symbol spec) /\ is_valid_side (sp_side spec) = true /\ 1 <= sp_price spec <= 1024 /\ in_u32 (sp_quantity spec) /\ is_valid_tif (sp_tif spec) = true.

Lemma id_in_range b : builder_ok b -> small_enough b 1 -> in_u64 (wb_next_id b) /\ u64 (wb_next_id b + 1) = wb_next_id b + 1.
Proof. intros Hb Hn. pose proof (bo_id _ Hb). unfold small_enough, in_u64 in *. split; [lia|]. apply u64_small. lia. Qed.

Lemma add_limit_grown spec b : builder_ok b -> small_enough b 1 -> spec_ok spec -> grown 1 b (add_limit spec b).
Proof.
  intros Hb Hn (H1 & H2 & H3 & H4 & H5). destruct (id_in_range b Hb Hn) as [Hi Hnext]. pose proof (bo_id _ Hb). unfold add_limit, take_id. rewrite Hnext.
  apply (push_grown _ (wb_next_id b + 1)); try done; [|lia]. cbn. split_and!; try done. unfold in_i64. lia.
Qed.

Lemma add_market_grown symbol side q b : builder_ok b -> small_enough b 1 -> in_u32 symbol -> is_valid_side side = true -> in_u32 q -> grown 1 b (add_market symbol side q b).
Proof.
  intros Hb Hn H1 H2 H3. destruct (id_in_range b Hb Hn) as [Hi Hnext]. pose proof (bo_id _ Hb). unfold add_market, take_id. rewrite Hnext.
  apply (push_grown _ (wb_next_id b + 1)); try done. lia.
Qed.

(** What is known of an order that rests. *)
Lemma active_order b s o :
  builder_ok b -> mkActiveOrder s o ∈ wb_active b ->
  Engine.contains (wb_model b) s (o_id o) = true /\ in_u32 s /\ banded (o_id o) (o_price o) /\ is_valid_side (o_side o) = true /\ in_u32 (o_quantity o) /\ 0 < o_quantity o.
Proof.
  intros Hb Hin. destruct (bo_active _ Hb s o Hin) as [Hs Ho]. pose proof (bo_symbols _ Hb) as Hsym. pose proof (bo_fits _ Hb) as Hf. revert Ho. unfold Engine.resting_orders, Engine.contains.
  destruct (om_find s (books_ (wb_model b))) as [book|] eqn:E; [|by intros ?%elem_of_nil]. destruct (fits_find _ _ _ _ _ Hf E) as (Hwf & _ & [Hawf Hfrom] & _ & _).
  rewrite (bs_resting_orders_ok (BookStoreLaws := any_laws)), (bs_contains_ok (BookStoreLaws := any_laws)) by done. change (bs_abs book) with (any_abs book). intros Ho.
  rewrite Forall_forall in Hfrom. destruct (Hfrom o Ho) as [Hband Hside].
  assert (Forall (fun o => in_u32 (o_quantity o) /\ 0 < o_quantity o) (a_orders (any_abs book))) as Hq by (apply Forall_app; split; [apply (sw_quantity _ _ (aw_bids _ Hawf))|apply (sw_quantity _ _ (aw_asks _ Hawf))]).
  rewrite Forall_forall in Hq. destruct (Hq o Ho). split_and!; try done; [|unfold in_u32; lia]. apply bool_decide_eq_true. unfold a_ids. by apply list_elem_of_fmap_2.
Qed.

Lemma pick_active_spec salt b : match pick_active salt b with Some a => a ∈ wb_active b | None => wb_active b = [] end.
Proof.
  unfold pick_active. destruct (wb_active b) as [|a l] eqn:E; [done|]. destruct ((a :: l) !! _) as [x|] eqn:Ex; [by eapply list_elem_of_lookup_2|].
  apply lookup_ge_None in Ex. cbn [length] in Ex. pose proof (Z.mod_pos_bound salt (Z.of_nat (S (length l))) ltac:(lia)). lia.
Qed.

(** Either there is nothing to pick from, or one order is added. *)
Definition grown_or_idle (b b' : WorkloadBuilder) : Prop := grown 1 b b' \/ (wb_active b = [] /\ b' = b).

Lemma push_active c b :
  is_order c = true -> builder_ok b -> small_enough b 1 -> command_ok c -> command_from banded c -> hit (wb_model b) c -> grown 1 b (push c b).
Proof.
  intros Ho Hb Hn Hc Hcf Hh. pose proof (bo_id _ Hb). replace (push c b) with (push c (with_id (wb_next_id b) b)) by (by destruct b). apply push_grown; try done. lia.
Qed.

Lemma banded_i64 id price : banded id price -> in_u64 id /\ in_i64 price.
Proof. unfold banded, in_i64, kContiguousMinPrice, kContiguousMaxPrice. intros [H1 H2]. split; [done|lia]. Qed.

Lemma cancel_active_grown salt b : builder_ok b -> small_enough b 1 -> grown_or_idle b (cancel_active salt b).
Proof.
  intros Hb Hn. unfold cancel_active. pose proof (pick_active_spec salt b) as Hp. destruct (pick_active salt b) as [[s o]|]; [left|by right].
  destruct (active_order b s o Hb Hp) as (Hc & Hs & Hband & _). apply push_active; try done. split; [done|apply (banded_i64 _ _ Hband)].
Qed.

Lemma duplicate_active_grown salt b : builder_ok b -> small_enough b 1 -> grown_or_idle b (duplicate_active salt b).
Proof.
  intros Hb Hn. unfold duplicate_active. pose proof (pick_active_spec salt b) as Hp. destruct (pick_active salt b) as [[s o]|]; [left|by right].
  destruct (active_order b s o Hb Hp) as (Hc & Hs & Hband & Hside & Hq & _). destruct (banded_i64 _ _ Hband). by apply push_active.
Qed.

Lemma reduce_active_grown salt b : builder_ok b -> small_enough b 1 -> grown_or_idle b (reduce_active salt b).
Proof.
  intros Hb Hn. unfold reduce_active. pose proof (pick_active_spec salt b) as Hp. destruct (pick_active salt b) as [[s o]|]; [left|by right].
  destruct (active_order b s o Hb Hp) as (Hc & Hs & Hband & Hside & Hq & Hpos). destruct (banded_i64 _ _ Hband). apply push_active; try done.
  split_and!; try done. unfold reduced_quantity, in_u32 in *. case_if; [|lia]. unfold u32, wrap. rewrite Z.mod_small; lia.
Qed.

(** ** Loops over the builder *)

Lemma fold_grown {A} (f : WorkloadBuilder -> A -> WorkloadBuilder) (k : nat) (P : A -> Prop) :
  (forall b x, builder_ok b -> small_enough b k -> P x -> grown k b (f b x)) ->
  forall l b, Forall P l -> builder_ok b -> small_enough b (k * length l) -> grown (k * length l) b (fold_left f l b).
Proof.
  intros Hf l. induction l as [|x l IH]; intros b Hl Hb Hn; cbn [fold_left length]; [rewrite Nat.mul_0_r; split; [done|by split_and!]|]. apply Forall_cons in Hl as [Hx Hl].
  unfold small_enough in *. cbn [length] in Hn. assert (grown k b (f b x)) as Hg by (apply Hf; try done; unfold small_enough; lia).
  destruct Hg as (Hb1 & L1 & Hg'). replace (k * S (length l))%nat with (k * length l + k)%nat by lia. apply (grown_trans k _ b (f b x)); [by split|].
  apply IH; [done|done|]. rewrite L1. lia.
Qed.

Lemma seqZ_bounds first n : Forall (fun p => first <= p < first + n) (seqZ first n).
Proof. apply Forall_forall. intros p Hp%elem_of_seqZ. lia. Qed.

Lemma for_prices_grown first n (k : nat) body b :
  0 <= n -> (forall b p, builder_ok b -> small_enough b k -> first <= p < first + n -> grown k b (body p b)) ->
  builder_ok b -> small_enough b (k * Z.to_nat n) -> grown (k * Z.to_nat n) b (for_prices first n body b).
Proof.
  intros H0 Hf Hb Hn. unfold for_prices. assert (length (seqZ first n) = Z.to_nat n) as Hl by (apply length_seqZ). rewrite <- Hl in *.
  apply (fold_grown _ k (fun p => first <= p < first + n)); try done. apply seqZ_bounds.
Qed.

Lemma new_builder_ok symbols : 0 <= symbols < 65536 -> builder_ok (new_builder symbols) /\ length (wb_commands (new_builder symbols)) = Z.to_nat symbols /\ wb_symbols (new_builder symbols) = symbols.
Proof.
  intros Hs. unfold new_builder. set (b0 := mkWorkloadBuilder symbols (new_engine Baseline) [] [] 1).
  assert (builder_ok b0) as H0. { split; try done; [apply new_engine_fits|by intros s o ?%elem_of_nil|cbn; lia]. }
  assert (forall l b, builder_ok b -> Z.of_nat (length l) + Z.of_nat (length (wb_commands b)) <= 65536 ->
    let b' := fold_left (fun b symbol => push (RegisterSymbol (symbol_name symbol)) b) l b in
    builder_ok b' /\ length (wb_commands b') = (length l + length (wb_commands b))%nat /\ wb_symbols b' = wb_symbols b) as Hreg.
  { induction l as [|s l IH]; intros b Hb Hn; [done|]. cbn [fold_left length] in *. pose proof (bo_id _ Hb).
    assert (builder_ok (push (RegisterSymbol (symbol_name s)) b)) as Hb1.
    { replace (push (RegisterSymbol (symbol_name s)) b) with (push (RegisterSymbol (symbol_name s)) (with_id (wb_next_id b) b)) by (by destruct b). apply push_builder; try done; [unfold small_enough; lia|lia]. }
    destruct (IH _ Hb1) as (R1 & R2 & R3); [cbn; rewrite length_app; cbn; lia|]. split; [done|]. split; [|by rewrite R3]. rewrite R2. cbn. rewrite length_app. cbn. lia. }
  destruct (Hreg (seqZ 0 symbols) b0 H0) as (R1 & R2 & R3); [rewrite length_seqZ; cbn; lia|]. split; [done|]. split; [|done]. rewrite R2, length_seqZ. cbn. lia.
Qed.

(** A finished loop: 5004 commands. *)
Definition completed (b b' : WorkloadBuilder) : Prop :=
  builder_ok b' /\ length (wb_commands b') = Z.to_nat 5004 /\ wb_symbols b' = wb_symbols b /\ regs (wb_commands b') = regs (wb_commands b).

Definition size (b : WorkloadBuilder) : Z := Z.of_nat (length (wb_commands b)).

(** A loop whose steps add an order, but for at most two in a row, ends. *)
Lemma building_finishes {X} (step : WorkloadBuilder * X -> WorkloadBuilder * X) (inv : WorkloadBuilder -> X -> Prop) (r : X -> Z) b x :
  (forall x, 0 <= r x <= 2) ->
  (forall b x, builder_ok b -> size b < 5004 -> inv b x ->
    let s := step (b, x) in inv s.1 s.2 /\ (grown 1 b s.1 \/ (s.1 = b /\ r s.2 < r x))) ->
  builder_ok b -> size b <= 5004 -> inv b x -> completed b (building step (b, x)).
Proof.
  intros Hr Hstep Hb Hn Hi. unfold building. set (cond := fun s : WorkloadBuilder * X => Z.of_nat (length (wb_commands s.1)) <? 5004).
  set (P := fun s : WorkloadBuilder * X => builder_ok s.1 /\ size s.1 <= 5004 /\ inv s.1 s.2 /\ wb_symbols s.1 = wb_symbols b /\ regs (wb_commands s.1) = regs (wb_commands b)).
  assert (forall s, P s -> cond s = true -> P (step s) /\ (Z.to_nat (3 * (5004 - size (step s).1) + r (step s).2) < Z.to_nat (3 * (5004 - size s.1) + r s.2))%nat) as Hdec.
  { intros [b1 x1] (P1 & P2 & P3 & P4 & P5) Hc. unfold cond in Hc. cbn [fst snd] in *. fold (size b1) in Hc. destruct (Hstep b1 x1 P1 ltac:(lia) P3) as [Hi' Hg].
    pose proof (Hr x1). pose proof (Hr (step (b1, x1)).2). destruct (step (b1, x1)) as [b2 x2]. cbn [fst snd] in *. destruct Hg as [(G1 & G2 & G3 & G4)|[-> Hlt]].
    - assert (size b2 = size b1 + 1) as Hs by (unfold size; lia). split; [|lia]. unfold P. cbn [fst snd]. split_and!; try done; [lia|congruence|congruence].
    - split; [by split_and!|]. lia. }
  assert (P (b, x)) as HP by (by split_and!).
  pose proof (while_inv cond step P (fun s Hs Hc => proj1 (Hdec s Hs Hc)) (Z.to_nat 50040) (b, x) HP) as (Q1 & Q2 & _ & Q4 & Q5).
  pose proof (while_exits_inv cond step P (fun s => Z.to_nat (3 * (5004 - size s.1) + r s.2)) Hdec (Z.to_nat 50040) (b, x) HP) as Hend.
  cbn [fst snd] in Hend. pose proof (Hr x). unfold size in *. specialize (Hend ltac:(lia)). unfold cond in Hend at 1. split; [done|]. split; [lia|done].
Qed.

(** The counter of a counted loop stays small. *)
Lemma counted_finishes (step : Z -> WorkloadBuilder -> WorkloadBuilder) (r : Z -> Z) b :
  (forall i, 0 <= r i <= 2) ->
  (forall b i, builder_ok b -> small_enough b 1 -> 0 <= i -> grown 1 b (step i b) \/ (step i b = b /\ r (i + 1) < r i)) ->
  builder_ok b -> size b <= 5004 -> completed b (building (counted step) (b, 0)).
Proof.
  intros Hr Hstep Hb Hn. apply (building_finishes _ (fun b i => 0 <= i <= 3 * size b + 2 - r i) r); try done; [|pose proof (Hr 0); unfold size in *; lia].
  intros b1 i Hb1 Hs Hi. unfold counted. cbn [fst snd]. pose proof (Hr i). pose proof (Hr (i + 1)). rewrite u64_small by lia.
  destruct (Hstep b1 i Hb1 ltac:(unfold small_enough, size in *; lia) ltac:(lia)) as [Hg|[E Hlt]].
  - split; [|by left]. destruct Hg as (_ & G2 & _). unfold size in *. lia.
  - rewrite E. split; [lia|by right].
Qed.

#[local] Hint Extern 1 (spec_ok _) => (unfold spec_ok, gtc, in_u32; cbn [sp_symbol sp_side sp_price sp_quantity sp_tif]; split_and!; (lia || done)) : bench.
#[local] Hint Resolve add_limit_grown : bench.
#[local] Hint Extern 1 (small_enough _ _) => (unfold small_enough in *; lia) : bench.

(** A step that found nothing to pick, in a phase that allows it. *)
Lemma idle_step b b' (lt : Prop) : grown_or_idle b b' -> lt -> grown 1 b b' \/ (b' = b /\ lt).
Proof. intros [Hg|[_ ->]] Hlt; [by left|by right]. Qed.

Lemma dense_finishes b : builder_ok b -> size b <= 5004 -> completed b (building (counted append_dense_bounded_step) (b, 0)).
Proof.
  apply (counted_finishes _ (fun i => if i mod 10 =? 8 then 2 else if i mod 10 =? 9 then 1 else 0)); [intros i; repeat case_if; lia|].
  intros b1 i Hb Hn Hi. unfold append_dense_bounded_step. pose proof (Z.mod_pos_bound i 16 ltac:(lia)). pose proof (Z.mod_pos_bound i 10 ltac:(lia)).
  repeat (case_if; [left; first [by apply add_limit_grown; auto with bench|by apply add_market_grown]|]).
  case_if.
  - apply idle_step; [by apply reduce_active_grown|]. replace ((i + 1) mod 10) with 9 by (Z.div_mod_to_equations; lia). repeat case_if; lia.
  - apply idle_step; [by apply duplicate_active_grown|]. replace ((i + 1) mod 10) with 0 by (Z.div_mod_to_equations; lia). repeat case_if; lia.
Qed.

Lemma sparse_finishes b : builder_ok b -> size b <= 5004 -> completed b (building (counted append_sparse_wide_step) (b, 0)).
Proof.
  apply (counted_finishes _ (fun i => if i mod 6 =? 4 then 2 else if i mod 6 =? 5 then 1 else 0)); [intros i; repeat case_if; lia|].
  intros b1 i Hb Hn Hi. unfold append_sparse_wide_step. pose proof (Z.mod_pos_bound i 4 ltac:(lia)). pose proof (Z.mod_pos_bound i 6 ltac:(lia)).
  assert (forall l, Forall (fun p => 1 <= p <= 1024) l -> length l = 4%nat -> 1 <= nth (Z.to_nat (i mod 4)) l 0 <= 1024) as Hp.
  { intros l Hl Hlen. rewrite Forall_forall in Hl. apply Hl, list_elem_of_In, nth_In. lia. }
  pose proof (Hp bid_prices ltac:(repeat constructor; lia) eq_refl). pose proof (Hp ask_prices ltac:(repeat constructor; lia) eq_refl).
  repeat (case_if; [left; by apply add_limit_grown; auto with bench|]).
  case_if.
  - apply idle_step; [by apply cancel_active_grown|]. replace ((i + 1) mod 6) with 5 by (Z.div_mod_to_equations; lia). repeat case_if; lia.
  - apply idle_step; [by apply reduce_active_grown|]. replace ((i + 1) mod 6) with 0 by (Z.div_mod_to_equations; lia). repeat case_if; lia.
Qed.

Lemma match_finishes b : builder_ok b -> size b <= 5004 -> completed b (building (counted append_match_traversal_step) (b, 0)).
Proof.
  apply (counted_finishes _ (fun _ => 0)); [lia|]. intros b1 i Hb Hn Hi. left. unfold append_match_traversal_step. pose proof (Z.mod_pos_bound i 40 ltac:(lia)).
  repeat match goal with |- context [if ?c then _ else _] => destruct c end; first [by apply add_limit_grown; auto with bench|by apply add_market_grown].
Qed.

Lemma cancel_modify_finishes b rng : builder_ok b -> size b <= 5004 -> completed b (building append_cancel_modify_step (b, rng)).
Proof.
  intros Hb Hn. apply (building_finishes _ (fun _ _ => True) (fun _ => 0)); try done. clear b rng Hb Hn. intros b rng Hb Hs _. split; [done|]. left.
  assert (small_enough b 1) as Hn by (unfold small_enough, size in *; lia). unfold append_cancel_modify_step. case_bool_decide as Ha; [by apply add_limit_grown; auto with bench|].
  destruct (draw 100 rng) as [pick rng1]. case_if.
  - unfold add_cancel_modify_replenishment. destruct (draw 3 rng1) as [symbol rng2] eqn:E1. apply draw_eq in E1; [|lia]. destruct (draw 2 rng2) as [coin rng3].
    destruct (draw 10 rng3) as [offset rng4] eqn:E2. apply draw_eq in E2; [|lia]. cbn [fst]. apply add_limit_grown; [done|done|]. destruct (coin =? 0); auto with bench.
  - destruct (mt_next rng1) as [salt rng2].
    assert (forall b', grown_or_idle b b' -> grown 1 b b') as Hno by (intros b' [Hg|[E _]]; done).
    repeat case_if; cbn [fst]; apply Hno; [by apply cancel_active_grown|by apply reduce_active_grown|by apply duplicate_active_grown].
Qed.

(** ** The seeded books *)

Lemma dense_seed b : builder_ok b -> size b <= 100 -> grown 80 b (seed_dense_bounded_book b).
Proof.
  intros Hb Hn. unfold seed_dense_bounded_book. unfold size in Hn.
  pose proof (for_prices_grown 90 24 1 (fun price => add_limit (gtc 0 Buy price 8)) b ltac:(lia) ltac:(intros; cbn beta; auto with bench) Hb ltac:(auto with bench)) as G1. set (b1 := for_prices 90 24 _ b) in *.
  pose proof G1 as (Hb1 & L1 & _). pose proof (for_prices_grown 115 24 1 (fun price => add_limit (gtc 0 Sell price 8)) b1 ltac:(lia) ltac:(intros; cbn beta; auto with bench) Hb1 ltac:(auto with bench)) as G2.
  set (b2 := for_prices 115 24 _ b1) in *. pose proof G2 as (Hb2 & L2 & _). apply (grown_trans 48 32 b b2); [exact (grown_trans _ _ _ _ _ G1 G2)|].
  apply (for_prices_grown 190 16 2); [lia| |done|auto with bench]. intros b3 p Hb3 Hn3 Hp. assert (grown 1 b3 (add_limit (gtc 1 Buy p 6) b3)) as G by auto with bench.
  apply (grown_trans 1 1 _ _ _ G). destruct G as (Hb4 & L4 & _). auto with bench.
Qed.

Lemma sparse_seed b : builder_ok b -> size b <= 100 -> grown 32 b (seed_sparse_wide_book b).
Proof.
  intros Hb Hn. unfold size in Hn. unfold seed_sparse_wide_book. apply (fold_grown _ 8 (fun s => 0 <= s < 0 + 4)); [|apply seqZ_bounds|done|change (length (seqZ 0 4)) with 4%nat; auto with bench].
  intros b1 s Hb1 Hn1 Hs. assert (Forall (fun p => 1 <= p <= 1024) bid_prices /\ Forall (fun p => 1 <= p <= 1024) ask_prices) as [Hbid Hask] by (split; repeat constructor; lia).
  assert (forall side l b, is_valid_side side = true -> Forall (fun p => 1 <= p <= 1024) l -> length l = 4%nat -> builder_ok b -> small_enough b 4 ->
            grown 4 b (fold_left (fun b price => add_limit (gtc s side price 3) b) l b)) as Hside.
  { intros side l b2 Hside Hl Hlen Hb2 Hn2. change 4%nat with (1 * 4)%nat. rewrite <- Hlen. apply (fold_grown _ 1 (fun p => 1 <= p <= 1024)); [|done|done|by rewrite Hlen]. intros b3 p Hb3 Hn3 Hp. auto with bench. }
  pose proof (Hside Buy bid_prices b1 eq_refl Hbid eq_refl Hb1 ltac:(auto with bench)) as G1. apply (grown_trans 4 4 _ _ _ G1). destruct G1 as (Hb2 & L2 & _).
  apply Hside; auto with bench.
Qed.

Lemma cancel_modify_seed b : builder_ok b -> size b <= 100 -> grown 60 b (seed_cancel_modify_book b).
Proof.
  intros Hb Hn. unfold size in Hn. unfold seed_cancel_modify_book. apply (fold_grown _ 20 (fun s => 0 <= s < 0 + 3)); [|apply seqZ_bounds|done|change (length (seqZ 0 3)) with 3%nat; auto with bench].
  intros b1 s Hb1 Hn1 Hs. apply (for_prices_grown 90 10 2); [lia| |done|auto with bench]. intros b3 p Hb3 Hn3 Hp.
  assert (grown 1 b3 (add_limit (gtc s Buy p 5) b3)) as G by auto with bench. apply (grown_trans 1 1 _ _ _ G). destruct G as (Hb4 & L4 & _). auto with bench.
Qed.

Lemma match_seed b : builder_ok b -> size b <= 100 -> grown 60 b (seed_match_traversal_book b).
Proof.
  intros Hb Hn. unfold size in Hn. unfold seed_match_traversal_book.
  pose proof (for_prices_grown 80 20 1 (fun price => add_limit (gtc 0 Buy price 1)) b ltac:(lia) ltac:(intros; cbn beta; auto with bench) Hb ltac:(auto with bench)) as G1. set (b1 := for_prices 80 20 _ b) in *.
  apply (grown_trans 20 40 _ _ _ G1). destruct G1 as (Hb1 & L1 & _). apply (for_prices_grown 100 40 1); [lia|intros; cbn beta; auto with bench|done|auto with bench].
Qed.

(** ** The workloads of the benchmark *)

Lemma fits_after st cmds : forall n e,
  fits st n e -> Z.of_nat n + Z.of_nat (length cmds) <= 65536 -> Forall command_ok cmds -> Forall (command_from banded) cmds -> fits st (n + length cmds) (after e cmds).
Proof.
  unfold after. induction cmds as [|c cmds IH]; intros n e Hf Hn Hok Hfrom; [by rewrite Nat.add_0_r|]. apply Forall_cons in Hok as [Hc Hok]. apply Forall_cons in Hfrom as [Hcf Hfrom].
  cbn [length fold_left] in *. replace (n + S (length cmds))%nat with (S n + length cmds)%nat by lia. apply IH; try done; [|lia]. by apply fits_step; [|lia| |].
Qed.

Lemma leading_le_regs cmds : (leading_registrations cmds <= regs cmds)%nat.
Proof. induction cmds as [|[] cmds IH]; unfold regs, reg_names in *; cbn in *; lia. Qed.

(** What every workload of a builder has. *)
Definition sound_workload (w : Workload) : Prop :=
  length (wl_commands w) = Z.to_nat 5004 /\ workload_ok w /\ (registration_prefix_len w < length (wl_commands w))%nat /\
  let sh := characterize w in sh_canceled_events sh = sh_cancel_cmds sh /\ sh_modified_events sh = sh_modify_cmds sh.

Lemma finished_sound name seed interval b0 b :
  completed b0 b -> (regs (wb_commands b0) <= 10)%nat -> sound_workload (finish name seed interval b).
Proof.
  intros (Hb & Hl & _ & Hr) H0. assert (workload_ok (finish name seed interval b)) as Hw. { split; cbn [finish wl_commands]; [apply Hb|apply Hb|lia]. }
  pose proof (leading_le_regs (wb_commands b)) as Hk. split; [done|]. split; [done|]. split; [unfold registration_prefix_len; cbn [finish wl_commands]; lia|].
  unfold characterize, apply_registration. set (w := finish name seed interval b). set (k := registration_prefix_len w). change (wl_commands w) with (wb_commands b).
  pose proof (bo_typed _ Hb) as Ht. pose proof (bo_banded _ Hb) as Hd. pose proof (bo_hits _ Hb) as Hh. rewrite <- (take_drop k (wb_commands b)) in Ht, Hd, Hh.
  apply Forall_app in Ht as [T1 T2]. apply Forall_app in Hd as [D1 D2]. apply hits_app in Hh as [_ Hh].
  assert (length (take k (wb_commands b)) + length (drop k (wb_commands b)) = Z.to_nat 5004)%nat as Hlen by (rewrite <- length_app, take_drop; done).
  pose proof (fits_after Baseline (take k (wb_commands b)) 0 _ (new_engine_fits Baseline) ltac:(lia) T1 D1) as Hf.
  by apply (characterize_hits w (drop k (wb_commands b)) _ k _ empty_shape Hf); [lia|..].
Qed.

Definition synthetic_workloads : list Workload := [dense_bounded_flow; sparse_wide_flow; cancel_modify_heavy_flow; match_traversal_heavy_flow].

Lemma seeded_sound symbols k (seed_book : WorkloadBuilder -> WorkloadBuilder) {X} (step : WorkloadBuilder * X -> WorkloadBuilder * X) x name seed interval :
  0 <= symbols <= 10 -> (k <= 100)%nat -> (forall b, builder_ok b -> size b <= 100 -> grown k b (seed_book b)) ->
  (forall b, builder_ok b -> size b <= 5004 -> completed b (building step (b, x))) ->
  sound_workload (finish name seed interval (building step (seed_book (new_builder symbols), x))).
Proof.
  intros Hs Hk Hseed Hloop. destruct (new_builder_ok symbols ltac:(lia)) as (Hb & Hl & _). destruct (Hseed _ Hb ltac:(unfold size; lia)) as (Hb1 & L1 & _ & R1).
  eapply finished_sound; [apply (Hloop _ Hb1); unfold size; lia|]. rewrite R1. pose proof (regs_length (wb_commands (new_builder symbols))). lia.
Qed.

Lemma synthetic_sound w : w ∈ synthetic_workloads -> sound_workload w.
Proof.
  unfold synthetic_workloads. rewrite !elem_of_cons, elem_of_nil. intros [->|[->|[->|[->|[]]]]].
  - apply (seeded_sound 2 80); [lia|lia|apply dense_seed|apply dense_finishes].
  - apply (seeded_sound 4 32); [lia|lia|apply sparse_seed|apply sparse_finishes].
  - apply (seeded_sound 3 60); [lia|lia|apply cancel_modify_seed|]. intros. by apply cancel_modify_finishes.
  - apply (seeded_sound 1 60); [lia|lia|apply match_seed|apply match_finishes].
Qed.

(** C37: The storage benchmark compares like with like.  The loops that build its
    synthetic workloads end with exactly 5004 commands; every cancel and every
    modify in them finds its order; and with every storage a run handles the
    timed commands that the shape describes, with the same probes, and reports
    the events, resting orders and probe calls of the shape, its sequence number
    being the number of events. *)
Theorem storage_benchmark_sound (w : Workload) (st : Storage) (reps : nat) :
  w ∈ synthetic_workloads -> (0 < reps)%nat ->
  let sh := characterize w in
  length (wl_commands w) = Z.to_nat 5004 /\
  sh_canceled_events sh = sh_cancel_cmds sh /\ sh_modified_events sh = sh_modify_cmds sh /\
  run_once st w = run_once Baseline w /\
  time_storage st w reps =
    (mkRunSummary (sh_events sh) (sh_final_resting_orders sh) (sh_events sh) (sh_top_probe_calls sh), (length (wl_commands w) - registration_prefix_len w)%nat).
Proof.
  intros Hin Hr sh. destruct (synthetic_sound w Hin) as (Hl & Hw & Hk & Hc & Hm). split; [done|]. split; [done|]. split; [done|].
  split; [by apply run_once_alike|by apply summary_of_shape].
Qed.

Lemma storage_benchmark_sound_witness :
  length (wl_commands match_traversal_heavy_flow) = Z.to_nat 5004 /\ run_once Contiguous match_traversal_heavy_flow = run_once Baseline match_traversal_heavy_flow.
Proof.
  destruct (storage_benchmark_sound match_traversal_heavy_flow Contiguous 30) as (H1 & _ & _ & H2 & _); [|lia|split; [exact H1|exact H2]].
  unfold synthetic_workloads. do 3 apply list_elem_of_further. apply list_elem_of_here.
Defined.
