(* ===== verification/BenchTheorems.v ===== *)
(** * BenchTheorems: every timed operation does the work it is meant to time

    The state an iteration leaves is the state the next one needs: the book and
    the pools are empty again, the deep order still rests, and each run over a
    flow starts afresh.  So the sink ends with a value that can be stated. *)
From Stdlib Require Import ZifyBool.
From S2P Require Import Prelude Core Endian Book BookSpec OrderBook Pool Command EventLog Protocol Engine EngineSpec Gateway GatewaySpec Session SessionSpec Recovery Flow Shrink FixtureSpec FlowSpec Bench BenchRecoveryTheorems.

(** ** Repetition *)

(** The operations of a [latency] run, with the warm-up. *)
Definition latency_ops (iters : nat) : nat := (iters + (iters / 10 + 1))%nat.

Lemma latency_ops_eq n m : 0 <= n -> n + n / 10 + 1 = m -> Z.of_nat (latency_ops (Z.to_nat n)) = m.
Proof. intros Hn <-. unfold latency_ops. rewrite !Nat2Z.inj_add, Nat2Z.inj_div, Z2Nat.id by lia. change (Z.of_nat 10) with 10. lia. Qed.

Lemma iter_inv {S} (I : nat -> S -> Prop) (op : S -> S) n s m :
  I m s -> (forall k s, (m <= k < m + n)%nat -> I k s -> I (Datatypes.S k) (op s)) -> I (m + n)%nat (Nat.iter n op s).
Proof.
  intros H0 Hop. induction n as [|n IH]; [by rewrite Nat.add_0_r|]. rewrite Nat.add_succ_r. change (Nat.iter (Datatypes.S n) op s) with (op (Nat.iter n op s)).
  apply Hop; [lia|]. apply IH. intros k s' Hk. apply Hop. lia.
Qed.

Lemma latency_inv {S} (I : nat -> S -> Prop) iters (op : S -> S) s :
  I 0%nat s -> (forall k s, (k < latency_ops iters)%nat -> I k s -> I (Datatypes.S k) (op s)) -> I (latency_ops iters) (latency iters op s).
Proof.
  unfold latency_ops. intros H0 Hop. unfold latency. rewrite (Nat.add_comm iters). apply iter_inv; [|intros; apply Hop; [lia|done]].
  apply (iter_inv I op (iters / 10 + 1) s 0); [done|]. intros; apply Hop; [lia|done].
Qed.

Lemma throughput_inv {S} (I : nat -> S -> Prop) reps (op : S -> S) s :
  I 0%nat s -> (forall k s, (k < reps + 1)%nat -> I k s -> I (Datatypes.S k) (op s)) -> I (reps + 1)%nat (throughput reps op s).
Proof. intros H0 Hop. unfold throughput. rewrite (Nat.add_comm reps). apply iter_inv; [|intros; apply Hop; [lia|done]]. apply Hop; [lia|done]. Qed.

(** ** The sink *)

Lemma sunk_sunk a b s : sunk b (sunk a s) = sunk (a + b) s.
Proof. unfold sunk. rewrite u64_u64_add. f_equal. lia. Qed.

Lemma sunk_zero s : in_u64 s -> sunk 0 s = s.
Proof. intros Hs. unfold sunk. rewrite Z.add_0_r. by apply u64_small. Qed.

Lemma sunk_wrapped n s : sunk (u64 n) s = sunk n s.
Proof. unfold sunk. rewrite Z.add_comm, u64_u64_add. f_equal. lia. Qed.

Lemma sunk_range n s : in_u64 (sunk n s).
Proof. apply u64_range. Qed.

(** A constant amount per iteration. *)
Lemma latency_sunk n m amount op sink :
  0 <= n -> n + n / 10 + 1 = m -> in_u64 sink -> (forall s, op s = sunk amount s) -> latency (Z.to_nat n) op sink = sunk (m * amount) sink.
Proof.
  intros Hn Hm Hs Hop. rewrite <- (latency_ops_eq n m) by done. apply (latency_inv (fun k s => s = sunk (Z.of_nat k * amount) sink)).
  - by rewrite Z.mul_0_l, sunk_zero.
  - intros k s _ ->. rewrite Hop, sunk_sunk. f_equal. lia.
Qed.

Lemma throughput_sunk reps amount op sink :
  in_u64 sink -> (forall s, in_u64 s -> op s = sunk amount s) -> throughput reps op sink = sunk ((Z.of_nat reps + 1) * amount) sink.
Proof.
  intros Hs Hop. replace (Z.of_nat reps + 1) with (Z.of_nat (reps + 1)) by lia.
  assert (throughput reps op sink = sunk (Z.of_nat (reps + 1) * amount) sink /\ in_u64 (throughput reps op sink)) as [H _]; [|done].
  apply (throughput_inv (fun k s => s = sunk (Z.of_nat k * amount) sink /\ in_u64 s)).
  - by rewrite Z.mul_0_l, sunk_zero.
  - intros k s _ [-> Hr]. rewrite Hop by done. split; [rewrite sunk_sunk; f_equal; lia|apply sunk_range].
Qed.

(** ** The order book *)

(** The same operations on the abstract book. *)
Lemma a_add_mod_cancel oid price :
  a_add_limit a_empty oid Buy price 5 GTC = ([], mkABook [mkOrder oid Buy price 5] []) /\
  a_modify (mkABook [mkOrder oid Buy price 5] []) oid price 3 = ([], mkABook [mkOrder oid Buy price 3] []) /\
  a_cancel (mkABook [mkOrder oid Buy price 3] []) oid = (true, a_empty).
Proof.
  split; [done|]. split.
  - unfold a_modify, a_find, a_orders, a_assign. cbn. rewrite decide_True by done. cbn. by rewrite !Z.eqb_refl.
  - unfold a_cancel, a_contains, a_ids, a_orders, a_remove. cbn. rewrite bool_decide_true by set_solver. by rewrite decide_False by (intros Hn; by apply Hn).
Qed.

Lemma add_mod_cancel_spec book oid sink :
  wf book -> abs book = a_empty -> in_u64 sink ->
  exists book', add_mod_cancel_op (book, oid, sink) = (book', u64 (oid + 1), sunk 1 sink) /\ wf book' /\ abs book' = a_empty.
Proof.
  intros Hwf Ha Hs. unfold add_mod_cancel_op. set (price := 100 + oid mod 10). destruct (a_add_mod_cancel oid price) as (S1 & S2 & S3). assert (in_u32 5 /\ in_u32 3) as [H5 H3] by (unfold in_u32; lia).
  pose proof (add_limit_refines book oid Buy price 5 GTC Hwf H5) as [Hwf1 Ha1]. destruct (OrderBook.add_limit book oid Buy price 5 GTC) as [ts1 b1]. cbn [fst snd] in *.
  rewrite Ha, S1 in Ha1. apply pair_equal_spec in Ha1 as [-> Ha1].
  pose proof (modify_refines b1 oid price 3 Hwf1 H3) as [Hwf2 Ha2]. destruct (OrderBook.modify b1 oid price 3) as [ts2 b2]. cbn [fst snd] in *.
  rewrite Ha1, S2 in Ha2. apply pair_equal_spec in Ha2 as [-> Ha2].
  pose proof (cancel_refines b2 oid Hwf2) as [Hwf3 Ha3]. destruct (OrderBook.cancel b2 oid) as [found b3]. cbn [fst snd] in *.
  rewrite Ha2, S3 in Ha3. apply pair_equal_spec in Ha3 as [-> Ha3].
  exists b3. split_and!; [|done|done]. unfold sunk_size. change (Z.of_nat (length (@nil Trade))) with 0. by rewrite !(sunk_zero sink Hs).
Qed.

Lemma bench_order_book_spec sink : in_u64 sink -> (bench_order_book sink).2 = sunk 220001 sink.
Proof.
  intros Hs. unfold bench_order_book.
  assert (exists b, latency (Z.to_nat 200000) add_mod_cancel_op (bs_new Baseline, 1, sink) = (b, 1 + Z.of_nat (latency_ops (Z.to_nat 200000)), sunk (Z.of_nat (latency_ops (Z.to_nat 200000))) sink) /\ wf b /\ abs b = a_empty) as (b & -> & _); [|by rewrite (latency_ops_eq 200000 220001)].
  pose proof (latency_ops_eq 200000 220001 ltac:(lia) eq_refl) as Hn.
  apply (latency_inv (fun k s => exists b, s = (b, 1 + Z.of_nat k, sunk (Z.of_nat k) sink) /\ wf b /\ abs b = a_empty)).
  - exists (bs_new Baseline). split_and!; [by rewrite sunk_zero|apply empty_book_wf|done].
  - intros k s Hk (b & -> & Hwf & Ha). destruct (add_mod_cancel_spec b (1 + Z.of_nat k) _ Hwf Ha (sunk_range (Z.of_nat k) sink)) as (b' & -> & Hwf' & Ha').
    exists b'. split_and!; [|done|done]. rewrite sunk_sunk, (u64_small (1 + Z.of_nat k + 1)) by lia. replace (Z.of_nat (S k)) with (Z.of_nat k + 1) by lia. by rewrite Z.add_assoc.
Qed.

(** ** The codec *)

Lemma bench_codec_spec sink : in_u64 sink -> bench_codec sink = sunk 550001 sink.
Proof.
  intros Hs. unfold bench_codec. rewrite (latency_sunk 500000 550001 1) by (done || lia). done.
Qed.

(** ** The session *)

Definition ask_left (k : Z) : ABook := mkABook [] [mkOrder 999999 Sell 100 (4000000 - 5 * k)].

(** After [k] iterations. *)
Definition filling (k : nat) (s : Session OrderBook) : Prop :=
  exists e, s = mkSession [] false e /\ engine_wf e /\ ae_books (e_abs e) = [(0, ask_left (Z.of_nat k))] /\ seq_ e = 1 + 2 * Z.of_nat k.

Lemma fill_session_ok : filling 0 fill_session.
Proof.
  unfold fill_session, filling. destruct (register_symbol (new_engine Baseline) "AAPL") as [s0 e0] eqn:E0.
  pose proof (new_engine_wf (B := OrderBook) Baseline) as Hwf0. pose proof (gateway_refines unbounded_baseline session_config _ (RegisterSymbol "AAPL") Hwf0 I) as [Hwf1 Ha1].
  cbn [apply_command Engine.apply snd fst] in *. rewrite E0 in *. cbn [fst snd] in *.
  assert (command_ok (NewLimit 0 999999 Sell 100 4000000 GTC)) as Hc by (cbn; unfold in_u32, in_u64, in_i64; split_and!; (lia || done)).
  pose proof (gateway_refines unbounded_baseline session_config e0 _ Hwf1 Hc) as [Hwf2 Ha2]. cbn [apply_command] in *.
  destruct (gw_new_limit session_config e0 0 999999 Sell 100 4000000 GTC) as [r1 e1]. cbn [fst snd] in *.
  exists e1. split; [done|]. split; [done|]. apply pair_equal_spec in Ha1 as [_ Ha1]. rewrite <- Ha1 in Ha2. apply pair_equal_spec in Ha2 as [_ Ha2].
  change (seq_ e1) with (ae_seq (e_abs e1)). rewrite <- Ha2. by vm_compute.
Qed.

Definition fill_order : NewOrder := mkNewOrder 1 0 100 5 Buy Limit GTC.

(** The reply to the frame after [k] iterations. *)
Definition fill_reply (k : nat) : bytes :=
  encode_ack (mkAck 1 (2 + 2 * Z.of_nat k)) ++ encode_fill (mkFill 1 999999 100 5 (3 + 2 * Z.of_nat k)).

Lemma a_fill ae k :
  0 <= k < 700000 -> ae_books ae = [(0, ask_left k)] -> ae_seq ae = 1 + 2 * k ->
  a_gateway session_config ae (order_command fill_order) =
    (gateway_accept [OrderAccepted (2 + 2 * k) 0 1; TradeEvent (3 + 2 * k) 0 1 999999 100 5], mkAEngine (ae_registry ae) [(0, ask_left (k + 1))] (3 + 2 * k)).
Proof.
  intros Hk Hb Hs. change (order_command fill_order) with (NewLimit 0 1 Buy 100 5 GTC). unfold a_gateway, a_verdict.
  rewrite Hb. cbn [om_find Z.eqb]. change (a_contains (ask_left k) 1) with false. change (check_limit session_config Buy 100 5) with ReasonNone. rewrite bool_decide_true by done.
  unfold a_apply. rewrite Hb. cbn [om_find Z.eqb]. change (a_contains (ask_left k) 1) with false. cbn [orb negb].
  assert (a_add_limit (ask_left k) 1 Buy 100 5 GTC = ([mkTrade 1 999999 100 5], ask_left (k + 1))) as ->.
  { unfold a_add_limit. change (a_contains (ask_left k) 1) with false. unfold a_take, ask_left. change (is_buy Buy) with true. cbn [negb a_side a_asks a_match o_price]. change ((0 <? 5) && can_match_level true false 100 100) with true.
    cbn [o_quantity]. replace (4000000 - 5 * k <=? 5) with false by lia. cbn [a_set_side a_bids set_quantity o_id o_side o_price]. change ((0 <? 0) && _) with false. cbn iota. by replace (4000000 - 5 * k - 5) with (4000000 - 5 * (k + 1)) by lia. }
  unfold a_respond. rewrite Hs, Hb. cbn [map number length]. rewrite !u64_small by lia. cbn [om_alter Z.eqb trade_event t_taker_id t_maker_id t_price t_quantity].
  replace (1 + 2 * k + 1) with (2 + 2 * k) by lia. replace (2 + 2 * k + 1) with (3 + 2 * k) by lia. by replace (1 + 2 * k + Z.of_nat 2) with (3 + 2 * k) by lia.
Qed.

Lemma session_step k s : (k < Z.to_nat 700000)%nat -> filling k s -> (on_bytes session_config s fill_frame).1 = fill_reply k /\ filling (S k) (on_bytes session_config s fill_frame).2.
Proof.
  intros Hk (e & -> & Hwf & Hb & Hs). unfold on_bytes. change fill_frame with (encode_request (ReqNewOrder fill_order 1)).
  assert (request_ok (ReqNewOrder fill_order 1)) as Hok by (cbn; unfold new_order_ok, in_u32, in_u64, in_i64; cbn; split_and!; (lia || done)).
  pose proof (a_fill (e_abs e) (Z.of_nat k) ltac:(lia) Hb Hs) as Ha. assert (engine_room e) as Hroom by (by apply Forall_true).
  pose proof (gateway_refines unbounded_baseline session_config e (order_command fill_order) Hwf (order_command_ok _ (proj1 Hok))) as [Hwf' Hg]. rewrite Ha in Hg.
  destruct (request_reply session_config e (ReqNewOrder fill_order 1)) as [reply e'] eqn:Er. cbn [request_reply] in Er. destruct (apply_command session_config e (order_command fill_order)) as [r e1] eqn:Ec.
  cbn [fst snd] in *. apply pair_equal_spec in Er as [Er <-]. apply pair_equal_spec in Hg as [<- Hg]. assert (reply = fill_reply k) as Hreply by (rewrite <- Er; unfold response, fill_reply; cbn [g_accepted gateway_accept g_events omap list_omap fill_of map concat seq_of]; by rewrite app_nil_r).
  assert (length (fill_reply k) = 84%nat) as Hlen by (unfold fill_reply; by rewrite length_app, length_encode_ack, length_encode_fill).
  assert (request_reply session_config e (ReqNewOrder fill_order 1) = (fill_reply k, e1)) as Hrr by (cbn [request_reply]; rewrite Ec; by rewrite Er, Hreply).
  pose proof (on_bytes_request session_config e (ReqNewOrder fill_order 1) [] size_max Hwf Hroom Hok ltac:(lia)) as Ho. rewrite Hrr in Ho. cbn [fst snd] in Ho. rewrite Hlen in Ho.
  rewrite Ho by (by apply Z.leb_le). cbn [fst snd app]. split; [done|]. exists e1. split; [done|]. split; [done|]. rewrite <- Hg. cbn [ae_books]. replace (Z.of_nat (S k)) with (Z.of_nat k + 1) by lia.
  split; [done|]. change (seq_ e1) with (ae_seq (e_abs e1)). rewrite <- Hg. cbn [ae_seq]. lia.
Qed.

Lemma session_steps n sink : (n <= Z.to_nat 700000)%nat -> in_u64 sink ->
  filling n (Nat.iter n session_op (fill_session, sink)).1 /\ (Nat.iter n session_op (fill_session, sink)).2 = sunk (84 * Z.of_nat n) sink.
Proof.
  intros Hn Hs. induction n as [|n IH]; [split; [apply fill_session_ok|by rewrite sunk_zero]|]. change (Nat.iter (S n) session_op ?x) with (session_op (Nat.iter n session_op x)).
  destruct IH as [IH1 IH2]; [lia|]. destruct (Nat.iter n session_op (fill_session, sink)) as [s k]. cbn [fst snd] in *. subst k. unfold session_op. cbn [fst snd].
  destruct (session_step n s ltac:(lia) IH1) as [H1 H2]. destruct (on_bytes session_config s fill_frame) as [out s']. cbn [fst snd] in *. split; [done|]. subst out. unfold sunk_size, fill_reply.
  rewrite length_app, length_encode_ack, length_encode_fill, sunk_sunk. f_equal. change (Z.of_nat _) with 84 at 2. lia.
Qed.

Lemma bench_session_spec sink : in_u64 sink -> (bench_session sink).2 = sunk (84 * 220001) sink.
Proof.
  intros Hs. unfold bench_session, latency. rewrite <- Nat.iter_add. fold (latency_ops (Z.to_nat 200000)). pose proof (latency_ops_eq 200000 220001 ltac:(lia) eq_refl) as Hn.
  rewrite <- Hn. apply session_steps; [lia|done].
Qed.

(** ** The flows *)

(** The number of events a flow has. *)
Definition flow_events (flow : list Command) : Z := Z.of_nat (length (apply_all (new_engine (B := OrderBook) Baseline) flow).1).

Lemma engine_flow_fold flow : forall e sink, in_u64 sink ->
  fold_left engine_flow_step flow (e, sink) = ((apply_all e flow).2, sunk_size (apply_all e flow).1 sink).
Proof.
  unfold sunk_size. induction flow as [|c flow IH]; intros e sink Hs; cbn [fold_left apply_all]; [by rewrite sunk_zero|]. unfold engine_flow_step at 2. cbn [fst snd].
  destruct (Engine.apply e c) as [evs e1]. rewrite IH by apply sunk_range. destruct (apply_all e1 flow) as [evs2 e2]. cbn [fst snd]. unfold sunk_size. by rewrite sunk_sunk, length_app, Nat2Z.inj_add.
Qed.

Lemma engine_flow_run_spec flow sink : in_u64 sink -> engine_flow_run flow sink = sunk (2 * flow_events flow) sink.
Proof.
  intros Hs. unfold engine_flow_run, flow_events. rewrite engine_flow_fold by done. destruct (apply_all_continues flow (new_engine (B := OrderBook) Baseline) ltac:(done)) as (evs & _ & Hp & Hq).
  destruct (apply_all (new_engine Baseline) flow) as [events e]. cbn [fst snd] in *. unfold last_seq, sunk_size. rewrite Hq, sunk_wrapped, sunk_sunk, Hp, number_length. f_equal. cbn [seq_ new_engine]. lia.
Qed.

Lemma record_steps flow : forall recs seq, Forall command_ok flow -> commands_of (fold_left record_step flow (recs, seq)).1 = commands_of recs ++ flow.
Proof.
  induction flow as [|c flow IH]; intros recs seq Hok; cbn [fold_left]; [by rewrite app_nil_r|]. apply Forall_cons in Hok as [Hc Hok]. unfold record_step at 2. cbn [fst snd].
  rewrite IH by done. unfold commands_of. rewrite omap_app. cbn [omap list_omap]. change (mkLogRecord seq CommandRecord seq (encode_command c)) with (command_record seq seq c).
  by rewrite command_of_record, <- app_assoc.
Qed.

Lemma replay_run_spec flow sink : Forall command_ok flow -> replay_run (flow_records flow) sink = sunk (flow_events flow) sink.
Proof. intros Hok. unfold replay_run, flow_records, flow_events, sunk_size. by rewrite replay_spec, record_steps. Qed.

Lemma bench_flow_ok : Forall command_ok bench_flow.
Proof.
  pose proof (generate_flow_loggable (B := OrderBook) 42 4 (Z.to_nat 5000) ltac:(unfold in_u32; lia) ltac:(lia)) as H. eapply Forall_impl; [exact H|]. by intros c [? _].
Qed.

(** The suite: the replies of the session, and the sink. *)
Lemma bench_suite_spec :
  (forall k, (k < Z.to_nat 220001)%nat -> (on_bytes session_config (Nat.iter k session_op (fill_session, 0)).1 fill_frame).1 = fill_reply k) /\
  run_suite 0 = u64 (220001 + 550001 + 220001 * 84 + 21 * (2 * flow_events bench_flow) + 21 * flow_events bench_flow).
Proof.
  assert (in_u64 0) as H0 by (unfold in_u64; lia). split.
  - intros k Hk. apply session_step; [lia|]. apply session_steps; [lia|done].
  - unfold run_suite. pose proof (bench_order_book_spec 0 H0) as E1. set (s1 := (bench_order_book 0).2) in *. clearbody s1.
    pose proof (bench_codec_spec s1 ltac:(rewrite E1; apply sunk_range)) as E2. set (s2 := bench_codec s1) in *. clearbody s2.
    pose proof (bench_session_spec s2 ltac:(rewrite E2; apply sunk_range)) as E3. set (s3 := (bench_session s2).2) in *. clearbody s3.
    pose proof (throughput_sunk 20 _ (engine_flow_run bench_flow) s3 ltac:(rewrite E3; apply sunk_range) (fun s => engine_flow_run_spec bench_flow s)) as E4.
    set (s4 := throughput 20 (engine_flow_run bench_flow) s3) in *. clearbody s4.
    rewrite (throughput_sunk 20 (flow_events bench_flow) _ s4); [|rewrite E4; apply sunk_range|intros; apply replay_run_spec, bench_flow_ok].
    rewrite E4, E3, E2, E1, !sunk_sunk. unfold sunk. generalize (flow_events bench_flow). intros n. f_equal. lia.
Qed.

(** ** The differential harness *)

(** The events of a flow that passes the gateway. *)
Definition gateway_events (flow : list Command) : Z :=
  Z.of_nat (length (concat (map g_events (gateway_all diff_config (new_engine (B := OrderBook) Baseline) flow).1))).

Lemma gateway_flow_fold flow : forall e sink, in_u64 sink -> engine_wf e -> Forall command_ok flow ->
  let r := gateway_all diff_config e flow in
  fold_left gateway_flow_step flow (e, sink) = (r.2, sunk_size (concat (map g_events r.1)) sink) /\
  seq_ r.2 = u64 (seq_ e + Z.of_nat (length (concat (map g_events r.1)))).
Proof.
  unfold sunk_size. induction flow as [|c flow IH]; intros e sink Hs Hwf Hok; cbn [fold_left gateway_all].
  { cbn. rewrite Z.add_0_r, sunk_zero by done. split; [done|]. symmetry. apply u64_small, Hwf. }
  apply Forall_cons in Hok as [Hc Hok]. unfold gateway_flow_step at 2. cbn [fst snd]. pose proof (gateway_refines unbounded_baseline diff_config e c Hwf Hc) as [Hwf1 _].
  assert (seq_ (apply_command diff_config e c).2 = u64 (seq_ e + Z.of_nat (length (g_events (apply_command diff_config e c).1)))) as Hq.
  { rewrite (apply_command_verdict unbounded_baseline diff_config e c Hwf). cbv zeta. destruct (apply_continues e c (ew_seq _ Hwf)) as (evs & _ & Hp & Hq).
    case_bool_decide; cbn [fst snd g_events gateway_accept gateway_reject length]; [by rewrite Hq, Hp, number_length|]. rewrite Z.add_0_r, u64_small; [done|apply Hwf]. }
  destruct (apply_command diff_config e c) as [r e1]. cbn [fst snd] in *. destruct (IH e1 (sunk_size (g_events r) sink) (sunk_range _ _) Hwf1 Hok) as [-> Hq2].
  destruct (gateway_all diff_config e1 flow) as [rs e2]. cbn [fst snd map concat] in *. unfold sunk_size. rewrite length_app, Nat2Z.inj_add, sunk_sunk. split; [done|].
  rewrite Hq2, Hq, u64_u64_add. f_equal. lia.
Qed.

Lemma gateway_flow_run_spec flow sink : in_u64 sink -> Forall command_ok flow -> gateway_flow_run flow sink = sunk (2 * gateway_events flow) sink.
Proof.
  intros Hs Hok. unfold gateway_flow_run, gateway_events. destruct (gateway_flow_fold flow (new_engine Baseline) sink Hs (new_engine_wf _) Hok) as [-> Hq]. unfold last_seq.
  rewrite Hq, sunk_wrapped. unfold sunk_size. rewrite sunk_sunk. f_equal. cbn [seq_ new_engine]. lia.
Qed.

Lemma property_ops reps sink : in_u64 sink -> Z.of_nat reps < 2 ^ 32 -> (throughput reps property_op (1, sink)).2 = sunk ((Z.of_nat reps + 1) * 123) sink.
Proof.
  intros Hs Hr. assert (throughput reps property_op (1, sink) = (1 + Z.of_nat (reps + 1), sunk (Z.of_nat (reps + 1) * 123) sink)) as ->; [|cbn [snd]; f_equal; lia].
  apply (throughput_inv (fun k s => s = (1 + Z.of_nat k, sunk (Z.of_nat k * 123) sink))); [by rewrite sunk_zero|].
  intros k s Hk ->. unfold property_op, sunk_size. cbn [fst snd]. rewrite (proj2 (property_flow_ok _ 3 120 ltac:(lia) ltac:(lia))), sunk_sunk.
  rewrite (u64_small (1 + Z.of_nat k + 1)) by lia. change (Z.of_nat (Z.to_nat 3 + 120)) with 123. f_equal; [lia|f_equal; lia].
Qed.

(** The differential benchmark: every property flow has 123 commands, every run
    through the gateway the same events, every shrink the same result. *)
Lemma bench_diff_spec :
  let flow := generate_property_flow 1 3 120 in
  length flow = 123%nat /\
  run_diff_benchmarks 0 = u64 (201 * 123 + 201 * (2 * gateway_events flow) + 331 * Z.of_nat (length (shrink produces_trade flow).1)).
Proof.
  cbv zeta. unfold run_diff_benchmarks. destruct (property_flow_ok 1 3 120 ltac:(lia) ltac:(lia)) as [Hok Hl]. set (flow := generate_property_flow 1 3 120) in *. clearbody flow.
  split; [exact Hl|]. assert (in_u64 0) as H0 by (unfold in_u64; lia). pose proof (property_ops 200 0 H0 ltac:(lia)) as E1. set (s1 := (throughput 200 property_op (1, 0)).2) in *. clearbody s1.
  assert (Forall command_ok flow) as Hc by (eapply Forall_impl; [exact Hok|]; by intros c [? _]).
  pose proof (throughput_sunk 200 _ (gateway_flow_run flow) s1 ltac:(rewrite E1; apply sunk_range) (fun s Hs => gateway_flow_run_spec flow s Hs Hc)) as E2.
  set (s2 := throughput 200 (gateway_flow_run flow) s1) in *. clearbody s2. generalize dependent (gateway_events flow). intros n E2.
  generalize (shrink produces_trade flow). intros [r passes]. cbn [fst]. unfold sunk_size. change 300%nat with (Z.to_nat 300).
  rewrite (latency_sunk 300 331 (Z.of_nat (length r))); [|lia|done|rewrite E2; apply sunk_range|done]. rewrite E2, E1, !sunk_sunk. unfold sunk. f_equal. lia.
Qed.

(** ** The pools *)

Section Pools.
Context (base width alignment : Z) (Hl : layout_ok base width alignment).

Lemma empty_available (pool : Pool Order) : pool_ok kPool pool -> storage_ pool = ∅ -> 0 < available pool.
Proof. intros Hp He. pose proof (pool_count _ _ Hp) as Hc. rewrite He, map_size_empty in Hc. unfold available, kPool in *. lia. Qed.

Lemma acquire_spec (pool : Pool Order) order :
  pool_ok kPool pool -> 0 < available pool ->
  exists slot pool', acquire_or_abort base width order pool = Some (slot_ptr base width slot, order, pool') /\ pool_ok kPool pool' /\
    storage_ pool !! slot = None /\ storage_ pool' = <[slot := order]> (storage_ pool).
Proof.
  intros Hp Ha. destruct (try_acquire_ok kPool pool order Hp Ha) as (slot & pool' & E & Hp' & _ & Hn & Hs). exists slot, pool'. split; [|by split_and!].
  unfold acquire_or_abort. rewrite E. cbn. by rewrite Hs, lookup_insert_eq.
Qed.

Lemma release_spec (pool : Pool Order) slot :
  pool_ok kPool pool -> is_Some (storage_ pool !! slot) ->
  exists pool', release_or_abort base width alignment (slot_ptr base width slot) pool = Some pool' /\ pool_ok kPool pool' /\ storage_ pool' = delete slot (storage_ pool).
Proof.
  intros Hp [v Hv]. destruct Hl as [L1 L2 L3 L4 L5]. destruct (release_slot_ok kPool pool slot v Hp Hv) as (pool' & E & Hp' & Hs & _). exists pool'. split; [|done].
  unfold release_or_abort. rewrite release_slot_ptr; [by rewrite E|done..|]. apply (pool_range kPool pool); [done|by exists v].
Qed.

Definition triangle (k : Z) : Z := k * (k + 1) / 2.

Lemma triangle_next k : triangle (k + 1) = triangle k + (k + 1).
Proof. unfold triangle. replace ((k + 1) * (k + 1 + 1)) with (k * (k + 1) + (k + 1) * 2) by lia. by rewrite Z.div_add. Qed.

Lemma acquire_release_ops sink : in_u64 sink ->
  bench_acquire_release base width alignment sink = Some (sunk (triangle 550001) sink).
Proof.
  intros Hs. unfold bench_acquire_release, kIters. pose proof (latency_ops_eq 500000 550001 ltac:(lia) eq_refl) as Hn.
  assert (exists pool, latency (Z.to_nat 500000) (acquire_release_op base width alignment) (Some (new_pool kPool, 1, sink)) =
    Some (pool, 1 + Z.of_nat (latency_ops (Z.to_nat 500000)), sunk (triangle (Z.of_nat (latency_ops (Z.to_nat 500000)))) sink) /\ pool_ok kPool pool /\ storage_ pool = ∅) as (pool & E & _); [|by rewrite E, Hn].
  apply (latency_inv (fun k s => exists pool, s = Some (pool, 1 + Z.of_nat k, sunk (triangle (Z.of_nat k)) sink) /\ pool_ok kPool pool /\ storage_ pool = ∅)).
  - exists (new_pool kPool). split; [by rewrite sunk_zero|]. apply new_pool_ok.
  - intros k s Hk (pool & -> & Hp & He). destruct (acquire_spec pool (mkOrder (1 + Z.of_nat k) Buy 100 5) Hp (empty_available pool Hp He)) as (slot & p1 & E1 & Hp1 & _ & S1).
    destruct (release_spec p1 slot Hp1) as (p2 & E2 & Hp2 & S2); [rewrite S1, lookup_insert_eq; by eexists|]. unfold acquire_release_op. cbn [mbind option_bind]. rewrite E1. cbn [mbind option_bind]. rewrite E2. cbn [mbind option_bind o_id].
    exists p2. split_and!; [|done|by rewrite S2, S1, He, insert_empty, delete_singleton_eq]. rewrite (u64_small (1 + Z.of_nat k + 1)), sunk_sunk by lia.
    replace (Z.of_nat (S k)) with (Z.of_nat k + 1) by lia. rewrite triangle_next. replace (1 + Z.of_nat k) with (Z.of_nat k + 1) by lia. by rewrite (Z.add_comm 1).
Qed.

(** The slots handed out are exactly those in use. *)
Definition holding (slots : list Z) (pool : Pool Order) : Prop :=
  pool_ok kPool pool /\ NoDup slots /\ (forall slot, is_Some (storage_ pool !! slot) <-> slot ∈ slots) /\ size (storage_ pool) = length slots.

Lemma burst_acquires l : forall pool slots sink, in_u64 sink ->
  holding slots pool -> (length slots + length l <= kPool)%nat ->
  exists slots' pool', fold_left (burst_acquire base width) l (Some (pool, map (slot_ptr base width) slots, sink)) =
    Some (pool', map (slot_ptr base width) slots', sunk (3 * Z.of_nat (length l)) sink) /\ holding slots' pool'.
Proof.
  induction l as [|i l IH]; intros pool slots sink Hs Hh Hn; cbn [fold_left length] in *.
  { exists slots, pool. by rewrite sunk_zero. }
  destruct Hh as (Hp & Hnd & Hin & Hsize). assert (0 < available pool) as Ha by (pose proof (pool_count _ _ Hp); unfold available; lia).
  destruct (acquire_spec pool (mkOrder (i + 1) Sell 101 3) Hp Ha) as (slot & p1 & E1 & Hp1 & Hfree & S1). unfold burst_acquire at 2. cbn [mbind option_bind]. rewrite E1. cbn [mbind option_bind o_quantity].
  change ([slot_ptr base width slot]) with (map (slot_ptr base width) [slot]). rewrite <- map_app.
  destruct (IH p1 (slots ++ [slot]) (sunk 3 sink) (sunk_range _ _)) as (slots' & p2 & E2 & H2); [|rewrite length_app; cbn; lia|].
  - split; [done|]. split; [|split].
    + apply NoDup_app. split; [done|]. split; [|apply NoDup_singleton]. intros x Hx ->%list_elem_of_singleton. apply Hin in Hx. rewrite Hfree in Hx. by destruct Hx.
    + intros x. rewrite S1, lookup_insert_is_Some', elem_of_app, list_elem_of_singleton, Hin. naive_solver.
    + rewrite S1, map_size_insert_None, Hsize, length_app by done. cbn. lia.
  - exists slots', p2. split; [|done]. rewrite E2, sunk_sunk. do 2 f_equal. f_equal. lia.
Qed.

Lemma burst_releases slots : forall pool, holding slots pool ->
  exists pool', fold_left (fun p order => p ≫= release_or_abort base width alignment order) (map (slot_ptr base width) slots) (Some pool) = Some pool' /\ pool_ok kPool pool' /\ storage_ pool' = ∅.
Proof.
  induction slots as [|slot slots IH]; intros pool (Hp & Hnd & Hin & Hsize); cbn [map fold_left].
  { exists pool. split_and!; [done|done|]. by apply map_size_empty_inv. }
  destruct (release_spec pool slot Hp) as (p1 & E1 & Hp1 & S1); [apply Hin; by left|]. cbn [mbind option_bind]. rewrite E1. apply NoDup_cons in Hnd as [Hfresh Hnd]. apply IH. split; [done|]. split; [done|]. split.
  - intros x. rewrite S1, lookup_delete_is_Some, Hin, elem_of_cons. naive_solver.
  - rewrite S1, map_size_delete_Some, Hsize by (apply Hin; by left). cbn. lia.
Qed.

Lemma burst_ops sink : in_u64 sink ->
  bench_burst base width alignment sink = Some (sunk (2201 * (3 * 1024)) sink).
Proof.
  intros Hs. unfold bench_burst. pose proof (latency_ops_eq 2000 2201 ltac:(lia) eq_refl) as Hn.
  assert (exists pool, latency (Z.to_nat 2000) (burst_op base width alignment) (Some (new_pool kPool, sink)) =
    Some (pool, sunk (Z.of_nat (latency_ops (Z.to_nat 2000)) * (3 * 1024)) sink) /\ pool_ok kPool pool /\ storage_ pool = ∅) as (pool & E & _); [|by rewrite E, Hn].
  apply (latency_inv (fun k s => exists pool, s = Some (pool, sunk (Z.of_nat k * (3 * 1024)) sink) /\ pool_ok kPool pool /\ storage_ pool = ∅)).
  - exists (new_pool kPool). split; [by rewrite sunk_zero|]. apply new_pool_ok.
  - intros k s Hk (pool & -> & Hp & He). assert (holding [] pool) as Hh.
    { split; [done|]. split; [constructor|]. split; [|by rewrite He]. intros x. rewrite He, lookup_empty, elem_of_nil. split; [by intros [? ?]|done]. }
    unfold burst_op. cbn [mbind option_bind]. destruct (burst_acquires (seqZ 0 1024) pool [] (sunk (Z.of_nat k * (3 * 1024)) sink) (sunk_range _ _) Hh) as (slots & p1 & E1 & H1); [rewrite length_seqZ; unfold kPool; cbn [length]; lia|].
    change (map (slot_ptr base width) []) with (@nil Z) in E1. rewrite E1. cbn [mbind option_bind]. destruct (burst_releases slots p1 H1) as (p2 & E2 & Hp2). rewrite E2. cbn [mbind option_bind].
    exists p2. split; [|done]. rewrite sunk_sunk, length_seqZ, Z2Nat.id by lia. by replace (Z.of_nat (S k) * (3 * 1024)) with (Z.of_nat k * (3 * 1024) + 3 * 1024) by lia.
Qed.
End Pools.

(** The pool benchmark never aborts. *)
Lemma bench_pool_spec (base width alignment : Z) :
  layout_ok base width alignment ->
  run_order_pool_benchmarks base width alignment 0 = Some (u64 (550001 + 550001 * 550002 / 2 + 2201 * (3 * 1024))).
Proof.
  intros Hl. unfold run_order_pool_benchmarks, kIters. assert (in_u64 0) as H0 by (unfold in_u64; lia).
  rewrite (latency_sunk 500000 550001 1 new_delete_op 0 ltac:(lia) eq_refl H0 ltac:(done)).
  rewrite acquire_release_ops by (done || apply sunk_range). cbn [mbind option_bind]. rewrite burst_ops by (done || apply sunk_range).
  by rewrite !sunk_sunk.
Qed.


