(* ===== verification/Flame.v ===== *)
(** * Flame: the flame graph of a profile

    scripts/flamegraph.py: folding the output of [perf script] into counted
    stacks, reading and writing folded stacks, the tree of frames, its layout and
    the SVG text.  A string is the list of its code points and a dict is the list
    of its items in the order of insertion.  The regular expressions are written
    as the scans they amount to on a line, which contains no line feed.  Floating
    point is IEEE double precision (SpecFloat).  The arguments come as the record
    that argparse fills.

    The theorems: the picture depends only on the counts of the stacks, so that
    going through folded stacks changes nothing; and the picture of a profile as
    perf prints it shows exactly its samples, with frames that nest. *)
From Stdlib Require Import SpecFloat ZifyBool.
From S2P Require Import Prelude Endian Text.

Notation str := (list Z) (only parsing).

(** ** What the script uses of Python's strings *)

(** [str.isspace], which is also what a regular expression calls white space. *)
Definition isspace (c : Z) : bool :=
  ((9 <=? c) && (c <=? 13)) || ((28 <=? c) && (c <=? 32)) || (c =? 133) || (c =? 160) || (c =? 5760) ||
  ((8192 <=? c) && (c <=? 8202)) || (c =? 8232) || (c =? 8233) || (c =? 8239) || (c =? 8287) || (c =? 12288).

(** The longest prefix on which [p] holds, and the rest. *)
Fixpoint span (p : Z -> bool) (s : str) : str * str :=
  match s with
  | [] => ([], [])
  | c :: s' => if p c then let '(a, b) := span p s' in (c :: a, b) else ([], s)
  end.

Definition lstrip (s : str) : str := (span isspace s).2.
Definition rstrip (s : str) : str := rev (lstrip (rev s)).
Definition strip (s : str) : str := rstrip (lstrip s).

(** [s.rstrip('\n')]. *)
Definition rstrip_newline (s : str) : str := rev (span (fun c => c =? 10) (rev s)).2.

(** [s.split()[0]]. *)
Definition first_word (s : str) : str := (span (fun c => negb (isspace c)) (lstrip s)).1.

(** [s.split(c)]. *)
Fixpoint split_on (sep : Z) (s : str) : list str :=
  match s with
  | [] => [[]]
  | c :: s' =>
      if c =? sep then [] :: split_on sep s'
      else match split_on sep s' with [] => [[c]] | w :: ws => (c :: w) :: ws end
  end.

(** [sep.join(words)]. *)
Fixpoint join (sep : Z) (words : list str) : str :=
  match words with
  | [] => []
  | [w] => w
  | w :: ws => w ++ sep :: join sep ws
  end.

(** [s.rpartition(sep)]; [None] when the separator is not found. *)
Definition rpartition (sep : Z) (s : str) : option (str * str) :=
  let '(tail, rest) := span (fun c => negb (c =? sep)) (rev s) in
  match rest with [] => None | _ :: head => Some (rev head, rev tail) end.

(** [a < b] on strings. *)
Fixpoint str_ltb (a b : str) : bool :=
  match a, b with
  | _, [] => false
  | [], _ :: _ => true
  | x :: a', y :: b' => (x <? y) || ((x =? y) && str_ltb a' b')
  end.

(** [sorted] by a key. *)
Fixpoint insert_by {A : Type} (key : A -> str) (x : A) (l : list A) : list A :=
  match l with
  | [] => [x]
  | y :: l' => if str_ltb (key y) (key x) then y :: insert_by key x l' else x :: l
  end.
Definition sort_by {A : Type} (key : A -> str) (l : list A) : list A := foldr (insert_by key) [] l.

(** [str] of an integer. *)
Definition py_nat_str (n : Z) : str := digits (S (Z.to_nat (Z.log2 n))) n.
Definition py_str (n : Z) : str := if n <? 0 then 45 :: py_nat_str (- n) else py_nat_str n.

(** The zeros of the decimal digits of Unicode, each followed by the other nine. *)
Definition decimal_zeros : list Z :=
  [48; 1632; 1776; 1984; 2406; 2534; 2662; 2790; 2918; 3046; 3174; 3302; 3430; 3558; 3664; 3792; 3872; 4160; 4240; 6112; 6160; 6470; 6608;
   6784; 6800; 6992; 7088; 7232; 7248; 42528; 43216; 43264; 43472; 43504; 43600; 44016; 65296; 66720; 68912; 69734; 69872; 69942; 70096;
   70384; 70736; 70864; 71248; 71360; 71472; 71904; 72016; 72784; 73040; 73120; 92768; 92864; 93008; 120782; 120792; 120802; 120812; 120822;
   123200; 123632; 125264; 130032].

Definition decimal (c : Z) : option Z :=
  match find (fun z => (z <=? c) && (c <? z + 10)) decimal_zeros with Some z => Some (c - z) | None => None end.

(** The digits of [int]: single underscores may stand between digits. *)
Fixpoint int_digits (s : str) (acc : list Z) : option (list Z) :=
  match s with
  | [] => Some acc
  | c :: s' =>
      match decimal c with
      | Some d => int_digits s' (acc ++ [d])
      | None =>
          match s' with
          | c2 :: s'' =>
              if (c =? 95) && negb (is_nil acc)
              then match decimal c2 with Some d => int_digits s'' (acc ++ [d]) | None => None end
              else None
          | [] => None
          end
      end
  end.

(** The longest decimal text that [int] converts. *)
Definition int_max_str_digits : nat := Z.to_nat 4300.

(** The white space [int] skips: not the separators 28 to 31. *)
Definition int_space (c : Z) : bool := isspace c && negb ((28 <=? c) && (c <=? 31)).

(** [int(s)]; [None] is [ValueError]. *)
Definition py_int (s : str) : option Z :=
  let s := rev (span int_space (rev (span int_space s).2)).2 in
  let '(negative, s) := match s with [] => (false, s) | c :: s' => if c =? 45 then (true, s') else if c =? 43 then (false, s') else (false, s) end in
  match int_digits s [] with
  | Some (d :: ds) =>
      if (int_max_str_digits <? length (d :: ds))%nat then None
      else let n := fold_left (fun acc d => acc * 10 + d) (d :: ds) 0 in Some (if negative : bool then - n else n)
  | _ => None
  end.

(** [html.escape]. *)
Definition escape_char (c : Z) : str :=
  if c =? 38 then text "&amp;" else if c =? 60 then text "&lt;" else if c =? 62 then text "&gt;"
  else if c =? 34 then text "&quot;" else if c =? 39 then text "&#x27;" else [c].
Definition html_escape (s : str) : str := concat (map escape_char s).

(** UTF-8; [None] is the [UnicodeEncodeError] on a surrogate. *)
Definition utf8_char (c : Z) : option bytes :=
  if c <? 128 then Some [c]
  else if c <? 2048 then Some [192 + c / 64; 128 + c mod 64]
  else if (55296 <=? c) && (c <=? 57343) then None
  else if c <? 65536 then Some [224 + c / 4096; 128 + c / 64 mod 64; 128 + c mod 64]
  else Some [240 + c / 262144; 128 + c / 4096 mod 64; 128 + c / 64 mod 64; 128 + c mod 64].

Fixpoint utf8 (s : str) : option bytes :=
  match s with [] => Some [] | c :: s' => b ← utf8_char c; bs ← utf8 s'; Some (b ++ bs) end.

(** [zlib.crc32]. *)
Definition crc_bit (c : Z) : Z := if Z.testbit c 0 then Z.lxor (Z.shiftr c 1) 0xEDB88320 else Z.shiftr c 1.
Definition crc32 (bs : bytes) : Z :=
  Z.lxor (fold_left (fun c b => Nat.iter 8 crc_bit (Z.lxor c b)) bs 0xFFFFFFFF) 0xFFFFFFFF.

(** ** Floating point *)

Notation float := spec_float (only parsing).

Definition float_of_int (n : Z) : float := binary_normalize 53 1024 n 0 false.

(** [a / b] of two integers, [0 <= a] and [0 < b], rounded once. *)
Definition true_divide (a b : Z) : float :=
  match a, b with
  | Zpos p, Zpos q => let '(m, e, loc) := SFdiv_core_binary 53 1024 (Zpos p) 0 (Zpos q) 0 in binary_round_aux 53 1024 false m e loc
  | _, _ => S754_zero false
  end.

Definition fmul (x y : float) : float := SFmul 53 1024 x y.
Definition fdiv (x y : float) : float := SFdiv 53 1024 x y.
Definition fadd (x y : float) : float := SFadd 53 1024 x y.
Definition fsub (x y : float) : float := SFsub 53 1024 x y.

(** The integer nearest to [a / b], ties to even. *)
Definition round_div (a b : Z) : Z :=
  let q := a / b in
  let r := a mod b in
  if 2 * r <? b then q else if b <? 2 * r then q + 1 else if Z.even q then q else q + 1.

(** [format(x, '.<d>f')] of a finite float. *)
Definition format_fixed (d : nat) (x : float) : str :=
  let '(s, m, e) := match x with S754_finite s m e => (s, Zpos m, e) | S754_zero s => (s, 0, 0) | _ => (false, 0, 0) end in
  let scaled := if 0 <=? e then m * 2 ^ e * 10 ^ Z.of_nat d else round_div (m * 10 ^ Z.of_nat d) (2 ^ (- e)) in
  let frac := py_nat_str (scaled mod 10 ^ Z.of_nat d) in
  (if s : bool then [45] else []) ++ py_nat_str (scaled / 10 ^ Z.of_nat d) ++ 46 :: replicate (d - length frac) 48 ++ frac.

(** [int(x)]: towards zero. *)
Definition truncate_float (x : float) : Z :=
  match x with
  | S754_finite s m e => let n := if 0 <=? e then Zpos m * 2 ^ e else Zpos m / 2 ^ (- e) in if s : bool then - n else n
  | _ => 0
  end.

(** ** Folding the output of perf script *)

Definition is_hex (c : Z) : bool := is_digit c || ((97 <=? c) && (c <=? 102)) || ((65 <=? c) && (c <=? 70)).

(** [_FRAME_RE]: the group [rest]. *)
Definition match_frame (line : str) : option str :=
  let '(ws, line) := span isspace line in
  let '(addr, line) := span is_hex line in
  let '(ws', line) := span isspace line in
  let rest := rstrip line in
  if is_nil ws || is_nil addr || is_nil ws' || is_nil rest then None else Some rest.

(** [_DSO_RE.sub] with the empty string: a parenthesized group at the end and the
    white space before it. *)
Definition sub_dso (rest : str) : str :=
  match rev rest with
  | [] => rest
  | close :: r =>
      let '(_, r) := span (fun c => negb ((c =? 40) || (c =? 41))) r in
      match r with
      | [] => rest
      | open :: r =>
          let '(ws, r) := span isspace r in
          if (close =? 41) && (open =? 40) && negb (is_nil ws) then rev r else rest
      end
  end.

(** [_OFFSET_RE.sub] with the empty string. *)
Definition sub_offset (rest : str) : str :=
  let '(hex, r) := span is_hex (rev rest) in
  match r with
  | c1 :: c2 :: c3 :: r => if negb (is_nil hex) && (c1 =? 120) && (c2 =? 48) && (c3 =? 43) then rev r else rest
  | _ => rest
  end.

Definition unknown : str := text "[unknown]".

Definition clean_symbol (rest : str) : str :=
  let rest := strip (sub_offset (sub_dso rest)) in
  if is_nil rest then unknown else rest.

(** [d[key] = d.get(key, 0) + n]. *)
Fixpoint dict_add (key : str) (n : Z) (d : list (str * Z)) : list (str * Z) :=
  match d with
  | [] => [(key, 0 + n)]
  | (k, v) :: d' => if bool_decide (k = key) then (k, v + n) :: d' else (k, v) :: dict_add key n d'
  end.

Record Folder := mkFolder {
  folded : list (str * Z);
  dropped_unknown : Z;
  drop_unknown_ : bool;
  comm_ : str;
  stack_ : list str
}.

Definition new_folder (drop_unknown : bool) : Folder := mkFolder [] 0 drop_unknown [] [].

(** The frames that [_flush] keeps and the number of those it drops. *)
Definition kept_frames (drop_unknown : bool) (stack : list str) : list str * Z :=
  let frames := rev stack in
  if drop_unknown then
    let kept := filter (fun f => f <> unknown) frames in
    (kept, Z.of_nat (length frames) - Z.of_nat (length kept))
  else (frames, 0).

Definition flush (f : Folder) : Folder :=
  if is_nil (stack_ f) then mkFolder (folded f) (dropped_unknown f) (drop_unknown_ f) (comm_ f) []
  else
    let '(frames, dropped) := kept_frames (drop_unknown_ f) (stack_ f) in
    let frames := if is_nil (comm_ f) then frames else comm_ f :: frames in
    let folded := if is_nil frames then folded f else dict_add (join 59 frames) 1 (folded f) in
    mkFolder folded (dropped_unknown f + dropped) (drop_unknown_ f) (comm_ f) [].

Definition with_comm (comm : str) (f : Folder) : Folder :=
  mkFolder (folded f) (dropped_unknown f) (drop_unknown_ f) comm (stack_ f).

Definition start_sample (header : str) (f : Folder) : Folder := with_comm (first_word header) (flush f).

Definition add_frame (line : str) (f : Folder) : Folder :=
  match match_frame line with
  | Some rest => mkFolder (folded f) (dropped_unknown f) (drop_unknown_ f) (comm_ f) (stack_ f ++ [clean_symbol rest])
  | None => f
  end.

Definition end_sample (f : Folder) : Folder := with_comm [] (flush f).

Definition fold_line (f : Folder) (raw : str) : Folder :=
  let line := rstrip_newline raw in
  match line with
  | [] => end_sample f
  | c :: _ => if is_nil (strip line) then end_sample f else if isspace c then add_frame line f else start_sample line f
  end.

(** The folded stacks, and the number of frames that the message on standard
    error names. *)
Definition fold_perf_script (lines : list str) (drop_unknown : bool) : list (str * Z) * Z :=
  let f := flush (fold_left fold_line lines (new_folder drop_unknown)) in
  (folded f, dropped_unknown f).

(** ** Folded stacks *)

Definition collapsed_step (d : list (str * Z)) (raw : str) : list (str * Z) :=
  let line := rstrip_newline raw in
  if is_nil (strip line) then d
  else
    let sep := if bool_decide (9 ∈ line) then 9 else 32 in
    match rpartition sep line with
    | None => d
    | Some (stack, count) =>
        match py_int count with
        | None => d
        | Some n => if n <=? 0 then d else dict_add stack n d
        end
    end.

Definition parse_collapsed (lines : list str) : list (str * Z) := fold_left collapsed_step lines [].

(** The lines that [--collapse-only] writes. *)
Definition collapsed_line (e : str * Z) : str := e.1 ++ 32 :: py_str e.2 ++ [10].
Definition collapsed_lines (d : list (str * Z)) : list str := map collapsed_line (sort_by fst d).

(** ** The tree *)

Inductive Node := mkNode (name : str) (value : Z) (children : list Node).

Definition node_name (n : Node) : str := let '(mkNode name _ _) := n in name.
Definition node_value (n : Node) : Z := let '(mkNode _ value _) := n in value.
Definition node_children (n : Node) : list Node := let '(mkNode _ _ children) := n in children.

(** The loop over the frames of a stack, from the children of the current node. *)
Fixpoint add_path (frames : list str) (count : Z) (children : list Node) : list Node :=
  match frames with
  | [] => children
  | frame :: frames' =>
      if is_nil frame then add_path frames' count children
      else
        (fix visit (l : list Node) : list Node :=
           match l with
           | [] => [mkNode frame (0 + count) (add_path frames' count [])]
           | mkNode name value below :: l' =>
               if bool_decide (name = frame) then mkNode name (value + count) (add_path frames' count below) :: l'
               else mkNode name value below :: visit l'
           end) children
  end.

Definition tree_step (root : Node) (e : str * Z) : Node :=
  let '(mkNode name value children) := root in mkNode name (value + e.2) (add_path (split_on 59 e.1) e.2 children).

Definition build_tree (d : list (str * Z)) (root_name : str) : Node := fold_left tree_step d (mkNode root_name 0 []).

(** ** The layout *)

(** One placed frame: the node, its depth and its offset in samples. *)
Record Placed := mkPlaced { p_node : Node; p_depth : Z; p_x : Z }.

(** The loop over the sorted children: the frames placed so far and the cursor. *)
Definition layout_child (depth : Z) (s : list Placed * Z) (child : str * (Z * (Z -> Z -> list Placed))) : list Placed * Z :=
  (s.1 ++ child.2.2 (depth + 1) s.2, s.2 + child.2.1).

Fixpoint layout (node : Node) (depth x : Z) {struct node} : list Placed :=
  match node with
  | mkNode _ _ children =>
      let named := map (fun child => (node_name child, (node_value child, layout child))) children in
      mkPlaced node depth x :: (fold_left (layout_child depth) (sort_by fst named) ([], x)).1
  end.

(** ** The SVG *)

Definition kSide : Z := 10.
Definition kPadTop : Z := 54.
Definition kPadBottom : Z := 16.

Record FlameOptions := mkFlameOptions {
  fo_title : str;
  fo_subtitle : str;
  fo_countname : str;
  fo_width : Z;
  fo_frame_height : Z;
  fo_min_px : float
}.

(** [0.1]. *)
Definition kMinPx : float := S754_finite false 7205759403792794 (-56).

Record Canvas := mkCanvas {
  cv_total : Z;
  cv_max_depth : Z;
  cv_height : Z;
  cv_plot_width : Z;
  cv_frame_height : Z;
  cv_min_px : float;
  cv_countname : str
}.

(** Text with a backquote for every double quote. *)
Definition quoted (s : string) : str := map (fun c => if c =? 96 then 34 else c) (text s).

Definition color (name : str) : option str :=
  bs ← utf8 name;
  let h := Z.land (crc32 bs) 0xFFFFFFFF in
  let r := 205 + h mod 51 in
  let g := Z.shiftr h 8 mod 231 in
  let b := Z.shiftr h 16 mod 56 in
  Some (text "rgb(" ++ py_str r ++ text "," ++ py_str g ++ text "," ++ py_str b ++ text ")").

Definition search_js : str :=
  quoted "<script type=`text/ecmascript`><![CDATA[" ++ [10] ++
  quoted "function qslSearch(){" ++ [10] ++
  quoted "  var term=prompt('Search frame (regex):','');" ++ [10] ++
  quoted "  var detail=document.getElementById('qsl-detail');" ++ [10] ++
  quoted "  var gs=document.getElementsByClassName('func');" ++ [10] ++
  quoted "  var i;" ++ [10] ++
  quoted "  if(!term){for(i=0;i<gs.length;i++){gs[i].getElementsByTagName('rect')[0]" ++
  quoted ".classList.remove('hl');}if(detail)detail.textContent=' ';return;}" ++ [10] ++
  quoted "  var re;try{re=new RegExp(term);}catch(e){return;}" ++ [10] ++
  quoted "  for(i=0;i<gs.length;i++){var r=gs[i].getElementsByTagName('rect')[0];" ++ [10] ++
  quoted "    if(re.test(gs[i].getAttribute('data-name'))){r.classList.add('hl');}" ++ [10] ++
  quoted "    else{r.classList.remove('hl');}}" ++ [10] ++
  quoted "  if(detail)detail.textContent='Search: '+term;" ++ [10] ++
  quoted "}" ++ [10] ++
  quoted "]]></script>".

Definition chrome (opts : FlameOptions) (height : Z) : str :=
  let width := fo_width opts in
  quoted "<?xml version=`1.0` encoding=`UTF-8` standalone=`no`?>" ++ [10] ++
  quoted "<svg version=`1.1` width=`" ++ py_str width ++ quoted "` height=`" ++ py_str height ++
  quoted "` xmlns=`http://www.w3.org/2000/svg` xmlns:xlink=`http://www.w3.org/1999/xlink` viewBox=`0 0 " ++
  py_str width ++ [32] ++ py_str height ++ quoted "` font-family=`Verdana,Helvetica,sans-serif` font-size=`12`>" ++
  quoted "<style>.frame:hover{stroke:#000;stroke-width:0.5} .hl{stroke:#000;stroke-width:1}</style>" ++
  search_js ++
  quoted "<rect width=`" ++ py_str width ++ quoted "` height=`" ++ py_str height ++ quoted "` fill=`#f8f8f8`/>" ++
  quoted "<text x=`" ++ py_str (width / 2) ++ quoted "` y=`24` text-anchor=`middle` font-size=`17` font-weight=`bold`>" ++
  html_escape (fo_title opts) ++ quoted "</text>" ++
  quoted "<text x=`" ++ py_str (width / 2) ++ quoted "` y=`40` text-anchor=`middle` fill=`#555`>" ++
  html_escape (fo_subtitle opts) ++ quoted "</text>" ++
  quoted "<text id=`qsl-search` x=`" ++ py_str (width - kSide) ++
  quoted "` y=`24` text-anchor=`end` fill=`#990000` onclick=`qslSearch()` style=`cursor:pointer`>Search</text>" ++
  quoted "<text id=`qsl-detail` x=`" ++ py_str kSide ++ quoted "` y=`" ++ py_str (height - 4) ++ quoted "` fill=`#333`> </text>".

Definition truncate (label : str) (width_px : float) : str :=
  let maxchars := truncate_float (fdiv (fsub width_px (float_of_int 6)) (float_of_int 7)) in
  if maxchars <? 3 then []
  else if Z.of_nat (length label) <=? maxchars then label
  else take (Z.to_nat (maxchars - 2)) label ++ text "..".

Definition frame_svg (c : Canvas) (p : Placed) : option str :=
  let '(mkPlaced node depth x) := p in
  let w := fmul (true_divide (node_value node) (cv_total c)) (float_of_int (cv_plot_width c)) in
  if SFltb w (cv_min_px c) then Some []
  else
    let x_px := fadd (float_of_int kSide) (fmul (true_divide x (cv_total c)) (float_of_int (cv_plot_width c))) in
    let y := kPadTop + (cv_max_depth c - depth) * cv_frame_height c in
    let pct := fmul (true_divide (node_value node) (cv_total c)) (float_of_int 100) in
    let tip := node_name node ++ text " (" ++ py_str (node_value node) ++ [32] ++ cv_countname c ++ text ", " ++ format_fixed 2 pct ++ text "%)" in
    fill ← color (node_name node);
    let label := truncate (node_name node) w in
    Some (
      quoted "<g class=`func` data-name=`" ++ html_escape (node_name node) ++ quoted "`>" ++
      quoted "<title>" ++ html_escape tip ++ quoted "</title>" ++
      quoted "<rect class=`frame` x=`" ++ format_fixed 1 x_px ++ quoted "` y=`" ++ py_str y ++ quoted "` width=`" ++ format_fixed 1 w ++
      quoted "` height=`" ++ py_str (cv_frame_height c - 1) ++ quoted "` fill=`" ++ fill ++ quoted "` rx=`2` ry=`2`/>" ++
      (if is_nil label then []
       else quoted "<text x=`" ++ format_fixed 1 (fadd x_px (float_of_int 3)) ++ quoted "` y=`" ++ py_str (y + cv_frame_height c - 4) ++
              quoted "` fill=`#000`>" ++ html_escape label ++ quoted "</text>") ++
      quoted "</g>").

(** [None] is the exception on a name that has no UTF-8 encoding. *)
Definition render_svg (root : Node) (opts : FlameOptions) : option str :=
  let total := if node_value root =? 0 then 1 else node_value root in
  let placed := layout root 0 0 in
  let max_depth := fold_left Z.max (map p_depth placed) 0 in
  let height := kPadTop + (max_depth + 1) * fo_frame_height opts + kPadBottom in
  let canvas := mkCanvas total max_depth height (fo_width opts - 2 * kSide) (fo_frame_height opts) (fo_min_px opts) (fo_countname opts) in
  frames ← mapM (frame_svg canvas) placed;
  Some (chrome opts height ++ concat frames ++ quoted "</svg>" ++ [10]).

(** ** The program *)

Record FlameArgs := mkFlameArgs {
  fa_collapse_only : bool;
  fa_from_collapsed : bool;
  fa_title : str;
  fa_subtitle : str;
  fa_countname : str;
  fa_root_name : str;
  fa_width : Z;
  fa_keep_unknown : bool
}.

(** The lines that iterating over a text file gives, each with its line feed. *)
Fixpoint stdin_lines (s : str) : list str :=
  match s with
  | [] => []
  | c :: s' =>
      if c =? 10 then [10] :: stdin_lines s'
      else match stdin_lines s' with [] => [[c]] | line :: lines => (c :: line) :: lines end
  end.

(** What is written on standard output and the exit code; [None] is the exception
    of [render_svg].  A width too large for a float is not considered. *)
Definition flame_main (args : FlameArgs) (stdin : str) : option (str * Z) :=
  let lines := stdin_lines stdin in
  let folded := if fa_from_collapsed args then parse_collapsed lines else (fold_perf_script lines (negb (fa_keep_unknown args))).1 in
  if fa_collapse_only args then Some (concat (collapsed_lines folded), 0)
  else if is_nil folded then Some ([], 1)
  else
    let root := build_tree folded (fa_root_name args) in
    svg ← render_svg root (mkFlameOptions (fa_title args) (fa_subtitle args) (fa_countname args) (fa_width args) 16 kMinPx);
    Some (svg, 0).

(** ** Sorting *)

Section Sorting.
Context {A : Type} (key : A -> str).

Definition key_lt (x y : A) : Prop := str_ltb (key x) (key y) = true.

Lemma str_ltb_irrefl s : str_ltb s s = false.
Proof. induction s as [|c s IH]; [done|]. cbn. rewrite Z.ltb_irrefl, Z.eqb_refl, IH. done. Qed.

Lemma str_ltb_trans a : forall b c, str_ltb a b = true -> str_ltb b c = true -> str_ltb a c = true.
Proof.
  induction a as [|x a IH]; intros [|y b] [|z c]; cbn; try done. rewrite !orb_true_iff, !andb_true_iff. intros [H1|[H1 H1']] [H2|[H2 H2']]; [left; lia..|].
  right. split; [lia|]. by apply (IH b c).
Qed.

Lemma str_ltb_total a : forall b, a <> b -> str_ltb a b = true \/ str_ltb b a = true.
Proof.
  induction a as [|x a IH]; intros [|y b] Hab; cbn; auto. rewrite !orb_true_iff, !andb_true_iff. destruct (Z.lt_trichotomy x y) as [H|[->|H]]; [left; left; lia| |right; left; lia].
  destruct (IH b) as [H|H]; [congruence|left|right]; right; (split; [lia|done]).
Qed.

Lemma insert_by_perm x l : insert_by key x l ≡ₚ x :: l.
Proof. induction l as [|y l IH]; [done|]. cbn. destruct (str_ltb _ _); [|done]. rewrite IH. constructor. Qed.

Lemma sort_by_perm l : sort_by key l ≡ₚ l.
Proof. induction l as [|x l IH]; [done|]. cbn. by rewrite insert_by_perm, IH. Qed.

Lemma insert_by_sorted x l : key x ∉ map key l -> StronglySorted key_lt l -> StronglySorted key_lt (insert_by key x l).
Proof.
  induction l as [|y l IH]; intros Hx Hs; [repeat constructor|]. apply StronglySorted_inv in Hs as [Hs Hy]. cbn [insert_by map] in *. apply not_elem_of_cons in Hx as [Hxy Hx].
  destruct (str_ltb (key y) (key x)) eqn:E.
  - constructor; [by apply IH|]. rewrite insert_by_perm. by constructor.
  - assert (key_lt x y) as Hlt by (destruct (str_ltb_total (key x) (key y) Hxy) as [H|H]; [done|congruence]).
    constructor; [by constructor|]. constructor; [done|]. eapply Forall_impl; [exact Hy|]. intros z Hz. unfold key_lt in *. by eapply str_ltb_trans.
Qed.

Lemma sort_by_sorted l : NoDup (map key l) -> StronglySorted key_lt (sort_by key l).
Proof.
  induction l as [|x l IH]; intros Hn; [constructor|]. cbn [map] in Hn. apply NoDup_cons in Hn as [Hx Hn]. cbn. apply insert_by_sorted; [|by apply IH].
  assert (map key (sort_by key l) ≡ₚ map key l) as -> by (apply Permutation_map, sort_by_perm). done.
Qed.

(** The order of the elements does not matter when the keys are distinct. *)
Lemma sort_by_unique l l' : NoDup (map key l) -> l ≡ₚ l' -> sort_by key l = sort_by key l'.
Proof.
  intros Hn Hp. assert (NoDup (map key l')) as Hn' by (assert (map key l ≡ₚ map key l') as <- by (by apply Permutation_map); done).
  assert (AntiSymm (=) key_lt) as Hanti. { intros x y H1 H2. unfold key_lt in *. pose proof (str_ltb_trans _ _ _ H1 H2) as H. by rewrite str_ltb_irrefl in H. }
  eapply (StronglySorted_unique key_lt); [by apply sort_by_sorted..|]. by rewrite !sort_by_perm.
Qed.

Lemma insert_by_front x l : Forall (fun y => str_ltb (key y) (key x) = false) l -> insert_by key x l = x :: l.
Proof. destruct 1 as [|y l Hy _]; [done|]. cbn. by rewrite Hy. Qed.
End Sorting.

Lemma insert_by_map {A B} (key : A -> str) (key' : B -> str) (f : A -> B) x l :
  (forall a, key' (f a) = key a) -> insert_by key' (f x) (map f l) = map f (insert_by key x l).
Proof. intros Hf. induction l as [|y l IH]; [done|]. cbn. rewrite !Hf. destruct (str_ltb _ _); [|done]. cbn. by rewrite IH. Qed.

Lemma sort_by_map {A B} (key : A -> str) (key' : B -> str) (f : A -> B) l :
  (forall a, key' (f a) = key a) -> sort_by key' (map f l) = map f (sort_by key l).
Proof.
  intros Hf. induction l as [|x l IH]; [done|]. change (sort_by key' (map f (x :: l))) with (insert_by key' (f x) (sort_by key' (map f l))).
  rewrite IH. by apply insert_by_map.
Qed.

(** ** Trees up to the order of the children *)

Section NodeInd.
Context (P : Node -> Prop) (Hnode : forall name value children, Forall P children -> P (mkNode name value children)).

Fixpoint node_forall_ind (n : Node) : P n :=
  match n with
  | mkNode name value children =>
      Hnode name value children
        ((fix all (l : list Node) : Forall P l :=
            match l with [] => Forall_nil_2 P | c :: l' => Forall_cons_2 P c l' (node_forall_ind c) (all l') end) children)
  end.
End NodeInd.

(** The children sorted by name, at every level. *)
Fixpoint normal (n : Node) : Node :=
  match n with mkNode name value children => mkNode name value (sort_by node_name (map normal children)) end.

Definition normals (l : list Node) : list Node := sort_by node_name (map normal l).

Lemma normal_name n : node_name (normal n) = node_name n.
Proof. by destruct n. Qed.
Lemma normal_value n : node_value (normal n) = node_value n.
Proof. by destruct n. Qed.
Lemma normal_children n : node_children (normal n) = normals (node_children n).
Proof. by destruct n. Qed.

Lemma map_normal_names l : map node_name (map normal l) = map node_name l.
Proof. rewrite map_map. apply map_ext, normal_name. Qed.

(** Names are distinct among siblings. *)
Inductive tidy : Node -> Prop :=
| tidy_node name value children : NoDup (map node_name children) -> Forall tidy children -> tidy (mkNode name value children).

Definition tidy_list (l : list Node) : Prop := NoDup (map node_name l) /\ Forall tidy l.

Lemma tidy_children n : tidy n -> tidy_list (node_children n).
Proof. by destruct 1. Qed.

(** [children.get(frame)]. *)
Definition child_at (frame : str) (l : list Node) : option Node := find (fun n => bool_decide (node_name n = frame)) l.

Lemma child_at_in frame l n : child_at frame l = Some n -> n ∈ l /\ node_name n = frame.
Proof. intros [Hin Hn]%find_some. apply bool_decide_eq_true in Hn. split; [by apply list_elem_of_In|done]. Qed.

Lemma in_child_at l n : NoDup (map node_name l) -> n ∈ l -> child_at (node_name n) l = Some n.
Proof.
  induction l as [|m l IH]; intros Hn Hin; [by apply elem_of_nil in Hin|]. cbn [map] in Hn. apply NoDup_cons in Hn as [Hm Hn]. unfold child_at. cbn [find]. apply elem_of_cons in Hin as [->|Hin].
  - by rewrite bool_decide_true.
  - rewrite bool_decide_false; [by apply IH|]. intros Heq. apply Hm. rewrite Heq. apply list_elem_of_fmap. by exists n.
Qed.

(** The step into one frame. *)
Definition visit (frame : str) (count : Z) (below : list Node -> list Node) : list Node -> list Node :=
  fix visit (l : list Node) : list Node :=
    match l with
    | [] => [mkNode frame (0 + count) (below [])]
    | mkNode name value children :: l' =>
        if bool_decide (name = frame) then mkNode name (value + count) (below children) :: l' else mkNode name value children :: visit l'
    end.

Lemma add_path_cons frame frames count l : frame <> [] -> add_path (frame :: frames) count l = visit frame count (add_path frames count) l.
Proof. intros Hf. cbn [add_path]. by destruct frame. Qed.

Lemma visit_same frame count below l :
  child_at frame (visit frame count below l) =
    match child_at frame l with
    | Some n => Some (mkNode frame (node_value n + count) (below (node_children n)))
    | None => Some (mkNode frame (0 + count) (below []))
    end.
Proof.
  induction l as [|[name value children] l IH]; cbn [visit]; [unfold child_at; cbn; by rewrite bool_decide_true|].
  unfold child_at in *. cbn [find node_name]. case_bool_decide as E; cbn [find node_name]; [by rewrite E, bool_decide_true|]. rewrite bool_decide_false by done. exact IH.
Qed.

Lemma visit_other frame count below l g : g <> frame -> child_at g (visit frame count below l) = child_at g l.
Proof.
  intros Hg. induction l as [|[name value children] l IH]; cbn [visit]; unfold child_at in *; cbn [find node_name]; [by rewrite bool_decide_false by congruence|].
  case_bool_decide as E; cbn [find node_name]; [subst name; by rewrite !bool_decide_false by congruence|]. by rewrite IH.
Qed.

Lemma visit_names frame count below l :
  map node_name (visit frame count below l) = if bool_decide (frame ∈ map node_name l) then map node_name l else map node_name l ++ [frame].
Proof.
  induction l as [|[name value children] l IH]; cbn [visit map node_name]; [by rewrite bool_decide_false by apply not_elem_of_nil|].
  destruct (decide (name = frame)) as [->|E].
  - rewrite !bool_decide_true by (done || apply list_elem_of_here). done.
  - rewrite (bool_decide_false (name = frame)) by done. cbn [map node_name]. rewrite IH. repeat case_bool_decide; set_solver.
Qed.

Lemma add_path_tidy frames count : forall l, tidy_list l -> tidy_list (add_path frames count l).
Proof.
  induction frames as [|f frames IH]; intros l Hl; [done|]. destruct (decide (f = [])) as [->|Hf]; [by apply IH|]. rewrite add_path_cons by done. destruct Hl as [Hn Ht]. split.
  - rewrite visit_names. case_bool_decide; [done|]. apply NoDup_app. split; [done|]. split; [|apply NoDup_singleton]. intros x Hx ->%list_elem_of_singleton. done.
  - clear Hn. induction Ht as [|n l Hn Ht IHl]; cbn [visit].
    + constructor; [|constructor]. destruct (IH [] ltac:(by split; constructor)). by constructor.
    + destruct n as [name value children]. case_bool_decide; [|by constructor]. constructor; [|done]. destruct (IH children (tidy_children _ Hn)). by constructor.
Qed.

(** Two lists of children that differ in their order only, at every level. *)
Definition same (l l' : list Node) : Prop := normals l = normals l'.

#[export] Instance same_equivalence : Equivalence same.
Proof. split; unfold same; [by intros l|by intros l l' ->|by intros l l' l'' -> ->]. Qed.

(** Children are told apart by name. *)
Lemma same_ext l l' :
  tidy_list l -> tidy_list l' -> (forall g, normal <$> child_at g l = normal <$> child_at g l') -> same l l'.
Proof.
  intros [Hn _] [Hn' _] Hg. unfold same, normals. apply sort_by_unique; [by rewrite map_normal_names|].
  assert (forall l l', NoDup (map node_name l) -> (forall g, normal <$> child_at g l = normal <$> child_at g l') -> forall n, n ∈ map normal l -> n ∈ map normal l') as Hincl.
  { intros k k' Hk Hkk n Hin. apply list_elem_of_fmap in Hin as (m & -> & Hm). specialize (Hkk (node_name m)). rewrite (in_child_at k m Hk Hm) in Hkk.
    destruct (child_at (node_name m) k') as [m'|] eqn:E; [|done]. injection Hkk as ->. apply list_elem_of_fmap. exists m'. split; [done|]. by eapply child_at_in. }
  apply NoDup_Permutation.
  - apply (NoDup_fmap_1 node_name). unfold fmap. by rewrite map_normal_names.
  - apply (NoDup_fmap_1 node_name). unfold fmap. by rewrite map_normal_names.
  - intros n. split; [by apply Hincl|apply Hincl; [done|]]. intros g. by rewrite Hg.
Qed.

Lemma same_child l l' g : tidy_list l -> tidy_list l' -> same l l' -> normal <$> child_at g l = normal <$> child_at g l'.
Proof.
  assert (forall l l', tidy_list l' -> same l l' -> forall n, child_at g l = Some n -> exists n', child_at g l' = Some n' /\ normal n' = normal n) as Hone.
  { intros k k' [Hk' _] Hs n [Hin Hn]%child_at_in. assert (normal n ∈ map normal k') as Hin'.
    { unfold same, normals in Hs. rewrite <- (sort_by_perm node_name (map normal k')), <- Hs, (sort_by_perm node_name). apply list_elem_of_fmap. by exists n. }
    apply list_elem_of_fmap in Hin' as (n' & E & Hn'). exists n'. split; [|done]. rewrite <- Hn, <- (normal_name n), E, normal_name. by apply in_child_at. }
  intros Hl Hl' Hs. destruct (child_at g l) as [n|] eqn:E1; [destruct (Hone l l' Hl' Hs n E1) as (n' & -> & E); cbn; by rewrite E|].
  destruct (child_at g l') as [n'|] eqn:E2; [|done]. symmetry in Hs. destruct (Hone l' l Hl Hs n' E2) as (n & E & _). congruence.
Qed.

Lemma normal_eq n m : normal n = normal m -> node_name n = node_name m /\ node_value n = node_value m /\ same (node_children n) (node_children m).
Proof. destruct n, m. cbn. unfold same, normals. by intros [= -> -> ->]. Qed.

Lemma normal_node name value l l' : same l l' -> normal (mkNode name value l) = normal (mkNode name value l').
Proof. unfold same, normals. cbn. by intros ->. Qed.

Lemma add_path_same frames count : forall l l', tidy_list l -> tidy_list l' -> same l l' -> same (add_path frames count l) (add_path frames count l').
Proof.
  induction frames as [|f frames IH]; intros l l' Hl Hl' Hs; [done|]. destruct (decide (f = [])) as [->|Hf]; [by apply IH|].
  apply same_ext; [by apply add_path_tidy..|]. intros g. rewrite !add_path_cons by done. destruct (decide (g = f)) as [->|Hg]; [|rewrite !visit_other by done; by apply same_child].
  rewrite !visit_same. pose proof (same_child l l' f Hl Hl' Hs) as Hc. destruct Hl as [_ Ht], Hl' as [_ Ht']. rewrite Forall_forall in Ht, Ht'.
  destruct (child_at f l) as [n|] eqn:E1, (child_at f l') as [n'|] eqn:E2; try done. cbn [fmap option_fmap option_map] in *. injection Hc as Hc. apply normal_eq in Hc as (_ & -> & Hc).
  f_equal. apply normal_node, IH; [apply tidy_children, Ht; by eapply child_at_in|apply tidy_children, Ht'; by eapply child_at_in|done].
Qed.

Lemma nil_tidy : tidy_list [].
Proof. split; constructor. Qed.

(** The order in which two stacks are added does not matter. *)
Lemma add_path_comm p c : forall q d l, tidy_list l -> same (add_path p c (add_path q d l)) (add_path q d (add_path p c l)).
Proof.
  induction p as [|f p IHp]; intros q d l Hl; [done|]. destruct (decide (f = [])) as [->|Hf]; [by apply IHp|]. induction q as [|g q IHq]; [done|].
  destruct (decide (g = [])) as [->|Hg]; [exact IHq|]. clear IHq. apply same_ext; [by do 2 apply add_path_tidy..|]. intros h. rewrite !add_path_cons by done.
  destruct (decide (f = g)) as [<-|Hfg].
  - destruct (decide (h = f)) as [->|Hh]; [|by rewrite !visit_other by done]. rewrite !visit_same. destruct Hl as [_ Ht]. rewrite Forall_forall in Ht.
    destruct (child_at f l) as [n|] eqn:E; cbn [node_value node_children fmap option_fmap option_map]; f_equal.
    + replace (node_value n + d + c) with (node_value n + c + d) by lia. apply normal_node, IHp, tidy_children, Ht. by eapply child_at_in.
    + replace (0 + d + c) with (0 + c + d) by lia. apply normal_node, IHp, nil_tidy.
  - destruct (decide (h = f)) as [->|Hh1].
    { rewrite visit_same, !(visit_other g) by done. by rewrite visit_same. }
    rewrite (visit_other f) by done. destruct (decide (h = g)) as [->|Hh2]; [by rewrite !visit_same, visit_other by done|]. by rewrite !visit_other by done.
Qed.

(** ** The picture depends only on the counts *)

Definition total (d : list (str * Z)) : Z := foldr (fun e n => e.2 + n) 0 d.

Definition add_stack (l : list Node) (e : str * Z) : list Node := add_path (split_on 59 e.1) e.2 l.

Lemma tree_steps d : forall name value l, fold_left tree_step d (mkNode name value l) = mkNode name (value + total d) (fold_left add_stack d l).
Proof.
  unfold total. induction d as [|e d IH]; intros name value l; cbn [fold_left foldr]; [by rewrite Z.add_0_r|]. unfold tree_step at 2. rewrite IH. f_equal. lia.
Qed.

Lemma add_stacks_tidy d : forall l, tidy_list l -> tidy_list (fold_left add_stack d l).
Proof. induction d as [|e d IH]; intros l Hl; [done|]. cbn. by apply IH, add_path_tidy. Qed.

Lemma add_stacks_same d : forall l l', tidy_list l -> tidy_list l' -> same l l' -> same (fold_left add_stack d l) (fold_left add_stack d l').
Proof. induction d as [|e d IH]; intros l l' Hl Hl' Hs; [done|]. cbn. apply IH; [by apply add_path_tidy..|by apply add_path_same]. Qed.

Lemma add_stacks_perm d d' : d ≡ₚ d' -> forall l, tidy_list l -> same (fold_left add_stack d l) (fold_left add_stack d' l).
Proof.
  induction 1 as [|e d d' _ IH|e1 e2 d|d d' d'' _ IH1 _ IH2]; intros l Hl; cbn [fold_left]; [done| | |by etransitivity; [apply IH1|apply IH2]].
  - by apply IH, add_path_tidy.
  - apply add_stacks_same; [by do 2 apply add_path_tidy..|]. by apply add_path_comm.
Qed.

Lemma total_perm d d' : d ≡ₚ d' -> total d = total d'.
Proof. unfold total. induction 1 as [|e d d' _ IH|e1 e2 d|d d' d'' _ IH1 _ IH2]; cbn [foldr]; lia. Qed.

Lemma build_tree_perm d d' root_name : d ≡ₚ d' -> normal (build_tree d root_name) = normal (build_tree d' root_name).
Proof.
  intros Hp. unfold build_tree. rewrite !tree_steps, (total_perm d d' Hp). apply normal_node. by apply (add_stacks_perm d d' Hp), nil_tidy.
Qed.

Definition normal_placed (p : Placed) : Placed := mkPlaced (normal (p_node p)) (p_depth p) (p_x p).

Definition named (child : Node) : str * (Z * (Z -> Z -> list Placed)) := (node_name child, (node_value child, layout child)).

Lemma layout_eq name value children depth x :
  layout (mkNode name value children) depth x =
    mkPlaced (mkNode name value children) depth x :: (fold_left (layout_child depth) (map named (sort_by node_name children)) ([], x)).1.
Proof. cbn [layout]. f_equal. rewrite (sort_by_map node_name fst named) by done. done. Qed.

Lemma layout_child_named depth out x child : layout_child depth (out, x) (named child) = (out ++ layout child (depth + 1) x, x + node_value child).
Proof. done. Qed.

Lemma sort_by_idem {A} (key : A -> str) l : sort_by key (sort_by key l) = sort_by key l.
Proof.
  assert (forall l, StronglySorted (fun x y => str_ltb (key y) (key x) = false) l -> sort_by key l = l) as Hfix.
  { induction 1 as [|x k _ IH Hx]; [done|]. change (sort_by key (x :: k)) with (insert_by key x (sort_by key k)). rewrite IH. by apply insert_by_front. }
  apply Hfix. induction l as [|x l IH]; [constructor|]. change (sort_by key (x :: l)) with (insert_by key x (sort_by key l)). induction IH as [|y k Hk IH Hy]; [repeat constructor|].
  cbn [insert_by]. destruct (str_ltb (key y) (key x)) eqn:E.
  - constructor; [done|]. rewrite insert_by_perm. constructor; [|done]. destruct (str_ltb (key x) (key y)) eqn:E2; [|done]. pose proof (str_ltb_trans _ _ _ E E2) as H. by rewrite str_ltb_irrefl in H.
  - constructor; [by constructor|]. constructor; [done|]. eapply Forall_impl; [exact Hy|]. intros z Hz. destruct (str_ltb (key z) (key x)) eqn:E2; [|done].
    destruct (decide (key y = key x)) as [Heq|Hne]; [congruence|]. destruct (str_ltb_total _ _ Hne) as [H|H]; [congruence|]. pose proof (str_ltb_trans _ _ _ E2 H). congruence.
Qed.

Lemma layout_normal n : forall depth x, layout (normal n) depth x = map normal_placed (layout n depth x).
Proof.
  induction n as [name value children IH] using node_forall_ind. intros depth x. cbn [normal]. rewrite !layout_eq. cbn [map]. unfold normal_placed at 1. cbn [p_node p_depth p_x normal]. f_equal.
  rewrite sort_by_idem, (sort_by_map node_name node_name normal) by apply normal_name.
  assert (Forall (fun n => forall depth x, layout (normal n) depth x = map normal_placed (layout n depth x)) (sort_by node_name children)) as Hs by (by rewrite (sort_by_perm node_name)).
  clear IH. generalize (sort_by node_name children) Hs. clear Hs. intros l Hl.
  assert (forall out x, (fold_left (layout_child depth) (map named (map normal l)) (map normal_placed out, x)).1 = map normal_placed (fold_left (layout_child depth) (map named l) (out, x)).1) as H.
  { clear x. induction Hl as [|c l Hc Hl IHl]; intros out x; [done|]. cbn [map fold_left]. rewrite !layout_child_named, Hc, <- map_app, normal_value. apply IHl. }
  exact (H [] x).
Qed.

Lemma frame_svg_normal c p : frame_svg c (normal_placed p) = frame_svg c p.
Proof. destruct p as [n depth x]. unfold normal_placed, frame_svg. cbn [p_node p_depth p_x]. by rewrite normal_name, normal_value. Qed.

Lemma mapM_map {A B C} (f : B -> option C) (g : A -> B) l : mapM f (map g l) = mapM (fun x => f (g x)) l.
Proof. induction l as [|x l IH]; [done|]. cbn. by rewrite IH. Qed.

(** The SVG is a function of the tree up to the order of the children. *)
Lemma render_normal root opts : render_svg (normal root) opts = render_svg root opts.
Proof.
  unfold render_svg. rewrite normal_value, layout_normal. set (placed := layout root 0 0).
  assert (map p_depth (map normal_placed placed) = map p_depth placed) as -> by (rewrite map_map; by apply map_ext).
  rewrite mapM_map. by rewrite (mapM_ext _ (frame_svg _)) by (intros; apply frame_svg_normal).
Qed.

Lemma render_perm d d' root_name opts : d ≡ₚ d' -> render_svg (build_tree d root_name) opts = render_svg (build_tree d' root_name) opts.
Proof. intros Hp. rewrite <- render_normal, (build_tree_perm d d' root_name Hp). apply render_normal. Qed.

(** ** The samples of a frame *)

(** The frames of a folded stack. *)
Definition frames_of (stack : str) : list str := filter (fun f => f <> []) (split_on 59 stack).

(** The samples whose stack starts with a path. *)
Definition samples (path : list str) (d : list (str * Z)) : Z :=
  foldr (fun e n => (if bool_decide (path `prefix_of` frames_of e.1) then e.2 else 0) + n) 0 d.

Fixpoint node_at (path : list str) (n : Node) : option Node :=
  match path with [] => Some n | f :: path' => child_at f (node_children n) ≫= node_at path' end.

Definition path_value (path : list str) (l : list Node) : Z := default 0 (node_value <$> node_at path (mkNode [] 0 l)).

Lemma path_value_cons f path l :
  path <> [] -> path_value (f :: path) l = path_value path (match child_at f l with Some n => node_children n | None => [] end).
Proof.
  intros Hp. unfold path_value. cbn [node_at node_children]. destruct (child_at f l) as [n|]; cbn [mbind option_bind]; [by destruct path, n|]. by destruct path.
Qed.

Lemma add_path_filter frames count : forall l, add_path frames count l = add_path (filter (fun f => f <> []) frames) count l.
Proof.
  induction frames as [|f frames IH]; intros l; [done|]. rewrite filter_cons. case_decide as Hf.
  - rewrite !add_path_cons by done. induction l as [|[name value children] l IHl]; cbn [visit]; [by rewrite IH|]. case_bool_decide; [by rewrite IH|by rewrite IHl].
  - destruct f; [|by contradict Hf]. cbn [add_path is_nil]. apply IH.
Qed.

Lemma value_add path : path <> [] -> forall frames count l, Forall (fun f => f <> []) frames ->
  path_value path (add_path frames count l) = path_value path l + (if bool_decide (path `prefix_of` frames) then count else 0).
Proof.
  induction path as [|f path IH]; intros Hp frames count l Hf; [done|]. clear Hp. destruct Hf as [|g frames Hg Hf].
  { rewrite bool_decide_false by (by intros [k [=]]). cbn [add_path]. lia. }
  rewrite add_path_cons by done. destruct (decide (f = g)) as [<-|Hfg].
  2:{ rewrite bool_decide_false by (intros [k [=]]; congruence). unfold path_value. cbn [node_at node_children]. rewrite visit_other by done. lia. }
  assert (bool_decide (f :: path `prefix_of` f :: frames) = bool_decide (path `prefix_of` frames)) as -> by (apply bool_decide_ext; split; [apply prefix_cons_inv_2|apply prefix_cons]).
  destruct (decide (path = [])) as [->|Hp].
  - rewrite bool_decide_true by apply prefix_nil. unfold path_value. cbn [node_at node_children]. rewrite visit_same. by destruct (child_at f l).
  - rewrite !path_value_cons, visit_same by done. destruct (child_at f l) as [n|]; cbn [node_children]; by apply IH.
Qed.

Lemma value_stacks path d : path <> [] -> forall l, path_value path (fold_left add_stack d l) = path_value path l + samples path d.
Proof.
  intros Hp. unfold samples. induction d as [|e d IH]; intros l; cbn [fold_left foldr]; [lia|]. rewrite IH. unfold add_stack. rewrite add_path_filter, value_add; [|done|].
  - unfold frames_of. lia.
  - apply Forall_forall. intros f Hf. apply list_elem_of_filter in Hf as [Hf _]. exact Hf.
Qed.

Lemma samples_all d : samples [] d = total d.
Proof. unfold samples, total. induction d as [|e d IH]; [done|]. cbn [foldr]. rewrite bool_decide_true by apply prefix_nil. lia. Qed.

Lemma build_tree_eq d root_name : build_tree d root_name = mkNode root_name (total d) (fold_left add_stack d []).
Proof. unfold build_tree. by rewrite tree_steps. Qed.

(** The value of a node counts the samples of its path. *)
Lemma tree_value d root_name path n : node_at path (build_tree d root_name) = Some n -> node_value n = samples path d.
Proof.
  rewrite build_tree_eq. destruct path as [|f path]; [intros [= <-]; exact (eq_sym (samples_all d))|]. intros Hn.
  pose proof (value_stacks (f :: path) d ltac:(done) []) as Hv. unfold path_value in Hv. cbn [node_at node_children] in *. rewrite Hn in Hv. cbn in Hv. lia.
Qed.

Lemma tree_node d root_name path : samples path d <> 0 -> exists n, node_at path (build_tree d root_name) = Some n.
Proof.
  rewrite build_tree_eq. destruct path as [|f path]; [by eexists|]. intros Hs. pose proof (value_stacks (f :: path) d ltac:(done) []) as Hv. unfold path_value in Hv. cbn [node_at node_children] in *.
  destruct (child_at f (fold_left add_stack d []) ≫= node_at path) as [n|]; [by exists n|]. cbn in Hv. lia.
Qed.

(** ** Geometry *)

Definition sum_values (l : list Node) : Z := foldr (fun n s => node_value n + s) 0 l.

(** The children of a node never have more samples than the node. *)
Inductive weighted : Node -> Prop :=
| weighted_node name value children : 0 <= value -> sum_values children <= value -> Forall weighted children -> weighted (mkNode name value children).

Lemma weighted_value n : weighted n -> 0 <= node_value n.
Proof. by destruct 1. Qed.

Lemma sum_values_pos l : Forall weighted l -> 0 <= sum_values l.
Proof. unfold sum_values. induction 1 as [|n l Hn _ IH]; cbn [foldr]; [lia|]. pose proof (weighted_value n Hn). lia. Qed.

Lemma add_path_weighted frames count : 0 <= count -> forall l, Forall weighted l ->
  Forall weighted (add_path frames count l) /\ sum_values (add_path frames count l) <= sum_values l + count.
Proof.
  intros Hc. induction frames as [|f frames IH]; intros l Hl; cbn [add_path]; [split; [done|lia]|]. destruct (decide (f = [])) as [->|Hf]; [by apply IH|].
  replace (is_nil f) with false by (by destruct f). change (Forall weighted (visit f count (add_path frames count) l) /\ sum_values (visit f count (add_path frames count) l) <= sum_values l + count).
  induction Hl as [|[name value children] l Hn Hl IHl]; cbn [visit].
  - destruct (IH [] ltac:(constructor)) as [H1 H2]. unfold sum_values in *. cbn [foldr node_value] in *. split; [|lia]. constructor; [|constructor]. constructor; [lia|unfold sum_values; lia|done].
  - destruct IHl as [H1 H2]. inversion Hn as [name' value' children' Hv Hs Hch]; subst. case_bool_decide.
    + destruct (IH children Hch) as [H3 H4]. unfold sum_values in *. cbn [foldr node_value] in *. split; [|lia]. constructor; [|done]. constructor; [lia|unfold sum_values; lia|done].
    + unfold sum_values in *. cbn [foldr node_value] in *. split; [by constructor|lia].
Qed.

Lemma add_stacks_weighted d : Forall (fun e => 0 <= e.2) d -> forall l, Forall weighted l ->
  Forall weighted (fold_left add_stack d l) /\ sum_values (fold_left add_stack d l) <= sum_values l + total d.
Proof.
  unfold total. induction 1 as [|e d He _ IH]; intros l Hl; cbn [fold_left foldr]; [split; [done|lia]|]. destruct (add_path_weighted (split_on 59 e.1) e.2 He l Hl) as [H1 H2].
  destruct (IH _ H1) as [H3 H4]. split; [done|]. unfold add_stack in *. lia.
Qed.

Lemma build_tree_weighted d root_name : Forall (fun e => 0 <= e.2) d -> weighted (build_tree d root_name).
Proof.
  intros Hd. rewrite build_tree_eq. destruct (add_stacks_weighted d Hd [] ltac:(constructor)) as [H1 H2]. cbn in H2. constructor; [|lia|done]. pose proof (sum_values_pos _ H1). lia.
Qed.

(** The children with the offsets at which they are placed. *)
Fixpoint cursors (x : Z) (l : list Node) : list (Node * Z) :=
  match l with [] => [] | n :: l' => (n, x) :: cursors (x + node_value n) l' end.

Lemma layout_children depth l : forall out x,
  (fold_left (layout_child depth) (map named l) (out, x)).1 = out ++ concat (map (fun c => layout c.1 (depth + 1) c.2) (cursors x l)).
Proof.
  induction l as [|n l IH]; intros out x; cbn [map fold_left cursors concat]; [by rewrite app_nil_r|]. by rewrite layout_child_named, IH, <- app_assoc.
Qed.

(** What the layout of a node consists of. *)
Lemma layout_parts n depth x :
  layout n depth x = mkPlaced n depth x :: concat (map (fun c => layout c.1 (depth + 1) c.2) (cursors x (sort_by node_name (node_children n)))).
Proof. destruct n as [name value children]. by rewrite layout_eq, layout_children. Qed.

Lemma cursors_bounds l : forall x n y, Forall weighted l -> (n, y) ∈ cursors x l -> n ∈ l /\ x <= y /\ y + node_value n <= x + sum_values l.
Proof.
  unfold sum_values. induction l as [|m l IH]; intros x n y Hl Hin; [by apply elem_of_nil in Hin|]. apply Forall_cons in Hl as [Hm Hl]. cbn [cursors foldr] in *.
  pose proof (weighted_value m Hm). pose proof (sum_values_pos l Hl) as Hs. unfold sum_values in Hs. apply elem_of_cons in Hin as [[= -> ->]|Hin]; [split; [by apply list_elem_of_here|lia]|].
  destruct (IH _ _ _ Hl Hin) as (H1 & H2 & H3). split; [by apply list_elem_of_further|lia].
Qed.

Lemma cursors_in l : forall x n, n ∈ l -> exists y, (n, y) ∈ cursors x l.
Proof.
  induction l as [|m l IH]; intros x n Hin; [by apply elem_of_nil in Hin|]. cbn [cursors]. apply elem_of_cons in Hin as [->|Hin]; [exists x; apply list_elem_of_here|].
  destruct (IH (x + node_value m) n Hin) as [y Hy]. exists y. by apply list_elem_of_further.
Qed.

Lemma sum_values_perm l l' : l ≡ₚ l' -> sum_values l = sum_values l'.
Proof. unfold sum_values. induction 1; cbn [foldr]; lia. Qed.

(** The children of a weighted node, where they are placed. *)
Lemma weighted_cursors n x : weighted n ->
  Forall weighted (sort_by node_name (node_children n)) /\
  (forall c y, (c, y) ∈ cursors x (sort_by node_name (node_children n)) -> c ∈ node_children n /\ weighted c /\ x <= y /\ y + node_value c <= x + node_value n).
Proof.
  intros [name value children Hv Hs Hch]. cbn [node_children node_value]. assert (Forall weighted (sort_by node_name children)) as Hw by (by rewrite (sort_by_perm node_name)).
  split; [done|]. intros c y Hc. destruct (cursors_bounds _ _ _ _ Hw Hc) as (H1 & H2 & H3). rewrite (sum_values_perm _ children) in H3 by apply sort_by_perm. rewrite (sort_by_perm node_name) in H1.
  rewrite Forall_forall in Hch. split_and!; [done|by apply Hch|lia|lia].
Qed.

Lemma in_layout n depth x p :
  p ∈ layout n depth x <-> p = mkPlaced n depth x \/ exists c y, (c, y) ∈ cursors x (sort_by node_name (node_children n)) /\ p ∈ layout c (depth + 1) y.
Proof.
  rewrite layout_parts, elem_of_cons. apply or_iff_compat_l. rewrite list_elem_of_In, in_concat. split.
  - intros (l & Hl & Hp). apply list_elem_of_In, list_elem_of_fmap in Hl as ([c y] & -> & Hc). exists c, y. split; [done|]. by apply list_elem_of_In.
  - intros (c & y & Hc & Hp). exists (layout c (depth + 1) y). split; [|by apply list_elem_of_In]. apply list_elem_of_In, list_elem_of_fmap. by exists (c, y).
Qed.

(** A placed frame lies within the node it was placed under, and deeper. *)
Definition inside (n : Node) (depth x : Z) (p : Placed) : Prop :=
  depth <= p_depth p /\ x <= p_x p /\ p_x p + node_value (p_node p) <= x + node_value n.

Lemma layout_inside n : weighted n -> forall depth x, Forall (inside n depth x) (layout n depth x).
Proof.
  induction n as [name value children IH] using node_forall_ind. intros Hw depth x. apply Forall_forall. intros p Hp. apply in_layout in Hp as [->|(c & y & Hc & Hp)].
  - unfold inside. cbn. pose proof (weighted_value _ Hw). lia.
  - destruct (weighted_cursors _ x Hw) as [_ Hcur]. destruct (Hcur c y Hc) as (Hin & Hwc & H1 & H2). cbn [node_children] in Hin. rewrite Forall_forall in IH.
    pose proof (IH c Hin Hwc (depth + 1) y) as Hi. rewrite Forall_forall in Hi. specialize (Hi p Hp). unfold inside in *. cbn [node_value] in *. lia.
Qed.

(** Two frames of one depth do not overlap. *)
Definition apart (p q : Placed) : Prop := p_depth p = p_depth q -> p_x p + node_value (p_node p) <= p_x q.

Lemma sorted_app {A} (R : A -> A -> Prop) l l' :
  StronglySorted R l -> StronglySorted R l' -> (forall x y, x ∈ l -> y ∈ l' -> R x y) -> StronglySorted R (l ++ l').
Proof.
  induction 1 as [|a l Hl IH Ha]; intros Hl' Hc; [done|]. cbn. constructor; [apply IH; [done|]; intros; apply Hc; [by apply list_elem_of_further|done]|].
  apply Forall_app. split; [done|]. apply Forall_forall. intros y Hy. apply Hc; [apply list_elem_of_here|done].
Qed.

Lemma layouts_apart depth l : Forall weighted l -> Forall (fun n => forall depth x, StronglySorted apart (layout n depth x)) l ->
  forall x, StronglySorted apart (concat (map (fun c => layout c.1 (depth + 1) c.2) (cursors x l))).
Proof.
  intros Hw. induction 1 as [|n l Hn _ IH]; intros x; cbn [cursors map concat fst snd]; [constructor|]. apply Forall_cons in Hw as [Hwn Hw]. apply sorted_app; [apply Hn|by apply IH|].
  intros p q Hp Hq _. pose proof (layout_inside n Hwn (depth + 1) x) as Hi. rewrite Forall_forall in Hi. destruct (Hi p Hp) as (_ & _ & H1).
  apply list_elem_of_In, in_concat in Hq as (k & Hk%list_elem_of_In & Hq%list_elem_of_In). apply list_elem_of_fmap in Hk as ([c y] & -> & Hc). cbn [fst snd] in Hq.
  destruct (cursors_bounds _ _ _ _ Hw Hc) as (Hin & H2 & _). rewrite Forall_forall in Hw. pose proof (layout_inside c (Hw c Hin) (depth + 1) y) as Hj. rewrite Forall_forall in Hj.
  destruct (Hj q Hq) as (_ & H3 & _). lia.
Qed.

Lemma layout_apart n : weighted n -> forall depth x, StronglySorted apart (layout n depth x).
Proof.
  induction n as [name value children IH] using node_forall_ind. intros Hw depth x. rewrite layout_parts. destruct (weighted_cursors _ x Hw) as [Hws Hcur]. constructor.
  - apply layouts_apart; [done|]. cbn [node_children] in *. rewrite (sort_by_perm node_name). rewrite Forall_forall in IH. inversion Hw as [name' value' children' Hv Hs Hch]; subst. rewrite Forall_forall in Hch.
    apply Forall_forall. intros c Hc. by apply IH, Hch.
  - apply Forall_forall. intros q Hq. apply list_elem_of_In, in_concat in Hq as (k & Hk%list_elem_of_In & Hq%list_elem_of_In). apply list_elem_of_fmap in Hk as ([c y] & -> & Hc). cbn [fst snd] in Hq.
    destruct (Hcur c y Hc) as (_ & Hwc & _). pose proof (layout_inside c Hwc (depth + 1) y) as Hi. rewrite Forall_forall in Hi. destruct (Hi q Hq) as (Hd & _). unfold apart. cbn [p_depth]. lia.
Qed.

(** [p] stands on [q]. *)
Definition stands_on (q p : Placed) : Prop :=
  p_depth p = p_depth q + 1 /\ p_node p ∈ node_children (p_node q) /\ p_x q <= p_x p /\ p_x p + node_value (p_node p) <= p_x q + node_value (p_node q).

Lemma layout_parent n : weighted n -> forall depth x p, p ∈ layout n depth x -> p = mkPlaced n depth x \/ exists q, q ∈ layout n depth x /\ stands_on q p.
Proof.
  induction n as [name value children IH] using node_forall_ind. intros Hw depth x p Hp. apply in_layout in Hp as [->|(c & y & Hc & Hp)]; [by left|]. right.
  destruct (weighted_cursors _ x Hw) as [_ Hcur]. destruct (Hcur c y Hc) as (Hin & Hwc & H1 & H2). rewrite Forall_forall in IH. destruct (IH c Hin Hwc (depth + 1) y p Hp) as [->|(q & Hq & Hs)].
  - exists (mkPlaced (mkNode name value children) depth x). split; [apply in_layout; by left|]. unfold stands_on. cbn [p_depth p_node p_x]. split_and!; [lia|done|lia|lia].
  - exists q. split; [|done]. apply in_layout. right. by exists c, y.
Qed.

Lemma layout_path n : tidy n -> forall depth x p, p ∈ layout n depth x -> exists path, node_at path n = Some (p_node p) /\ p_depth p = depth + Z.of_nat (length path).
Proof.
  induction n as [name value children IH] using node_forall_ind. intros Ht depth x p Hp. apply in_layout in Hp as [->|(c & y & Hc & Hp)]; [exists []; cbn; split; [done|lia]|].
  assert (c ∈ children) as Hin. { rewrite <- (sort_by_perm node_name children). clear -Hc. cbn [node_children] in Hc. revert x Hc. generalize (sort_by node_name children). intros l.
    induction l as [|m l IH]; intros x Hc; [by apply elem_of_nil in Hc|]. apply elem_of_cons in Hc as [[= -> ->]|Hc]; [apply list_elem_of_here|]. by eapply list_elem_of_further, IH. }
  rewrite Forall_forall in IH. destruct (tidy_children _ Ht) as [Hn Hch]. cbn [node_children] in *. rewrite Forall_forall in Hch. destruct (IH c Hin (Hch c Hin) (depth + 1) y p Hp) as (path & Hpath & Hd).
  exists (node_name c :: path). cbn [node_at node_children length]. rewrite (in_child_at children c Hn Hin). split; [done|lia].
Qed.

Lemma path_layout path : forall n m depth x, node_at path n = Some m -> exists y, mkPlaced m (depth + Z.of_nat (length path)) y ∈ layout n depth x.
Proof.
  induction path as [|f path IH]; intros n m depth x Hm.
  - injection Hm as <-. exists x. rewrite Z.add_0_r. apply in_layout. by left.
  - cbn [node_at] in Hm. destruct (child_at f (node_children n)) as [c|] eqn:Ec; [|done]. apply child_at_in in Ec as [Hin _]. rewrite <- (sort_by_perm node_name) in Hin.
    destruct (cursors_in _ x c Hin) as [y Hy]. destruct (IH c m (depth + 1) y Hm) as [z Hz]. exists z. apply in_layout. right. exists c, y. split; [done|].
    cbn [length]. by replace (depth + Z.of_nat (S (length path))) with (depth + 1 + Z.of_nat (length path)) by lia.
Qed.

Lemma build_tree_tidy d root_name : tidy (build_tree d root_name).
Proof. rewrite build_tree_eq. destruct (add_stacks_tidy d [] nil_tidy). by constructor. Qed.

(** Every path that some sample has is drawn at its depth, with a width of exactly
    the samples whose stacks start with it, and nothing else is drawn; frames
    stand on their callers, and those of one depth do not overlap. *)
Lemma layout_shows (d : list (list Z * Z)) (root_name : list Z) :
  Forall (fun e => 0 < e.2) d ->
  let root := build_tree d root_name in
  let placed := layout root 0 0 in
  (forall path, 0 < samples path d -> exists n x, mkPlaced n (Z.of_nat (length path)) x ∈ placed /\ node_at path root = Some n) /\
  (forall p, p ∈ placed -> exists path, node_at path root = Some (p_node p) /\ p_depth p = Z.of_nat (length path) /\ node_value (p_node p) = samples path d) /\
  (forall p, p ∈ placed -> p = mkPlaced root 0 0 \/ exists q, q ∈ placed /\ stands_on q p) /\
  StronglySorted apart placed.
Proof.
  intros Hd root placed. assert (weighted root) as Hw by (apply build_tree_weighted; eapply Forall_impl; [exact Hd|]; cbn; lia). split_and!.
  - intros path Hs. destruct (tree_node d root_name path ltac:(lia)) as [n Hn]. destruct (path_layout path root n 0 0 Hn) as [x Hx]. by exists n, x.
  - intros p Hp. destruct (layout_path root (build_tree_tidy d root_name) 0 0 p Hp) as (path & Hn & Hdp). exists path. split; [done|]. split; [lia|]. by eapply tree_value.
  - by apply layout_parent.
  - by apply layout_apart.
Qed.

(** ** Scans *)

Lemma span_app p a b : Forall (fun c => p c = true) a -> (forall c b', b = c :: b' -> p c = false) -> span p (a ++ b) = (a, b).
Proof.
  induction 1 as [|c a Hc _ IH]; intros Hb; cbn [app span]; [|by rewrite Hc, IH]. destruct b as [|c b]; [done|]. cbn [span]. by rewrite (Hb c b eq_refl).
Qed.

Lemma span_parts p s : (span p s).1 ++ (span p s).2 = s.
Proof. induction s as [|c s IH]; [done|]. cbn [span]. destruct (p c); [|done]. destruct (span p s) as [a b]. cbn in *. by rewrite IH. Qed.

Lemma span_holds p s c : c ∈ (span p s).1 -> p c = true.
Proof.
  induction s as [|x s IH]; cbn [span]; [by intros ?%elem_of_nil|]. destruct (p x) eqn:E; [|by intros ?%elem_of_nil]. destruct (span p s) as [a b]. cbn [fst] in *. by intros [->|H]%elem_of_cons; [|apply IH].
Qed.

Lemma span_in p s c : c ∈ (span p s).2 -> c ∈ s.
Proof. intros H. rewrite <- (span_parts p s). apply elem_of_app. by right. Qed.

Lemma span_keeps p s c : p c = false -> c ∈ s -> c ∈ (span p s).2.
Proof.
  intros Hp Hin. rewrite <- (span_parts p s) in Hin. apply elem_of_app in Hin as [Hin|Hin]; [|done]. apply span_holds in Hin. congruence.
Qed.

Lemma rev_in (s : str) c : c ∈ rev s <-> c ∈ s.
Proof. rewrite !list_elem_of_In. symmetry. apply in_rev. Qed.

Lemma rev_head (s : str) P : (forall c, c ∈ s -> P c) -> forall c s', rev s = c :: s' -> P c.
Proof. intros H c s' E. apply H, rev_in. rewrite E. apply list_elem_of_here. Qed.

Lemma rstrip_newline_line s : 10 ∉ s -> rstrip_newline (s ++ [10]) = s.
Proof.
  intros Hs. unfold rstrip_newline. rewrite rev_app_distr. rewrite (span_app _ [10] (rev s)); [apply rev_involutive|by repeat constructor|].
  apply (rev_head s (fun c => (c =? 10) = false)). intros c Hc. apply Z.eqb_neq. by intros ->.
Qed.

Lemma strip_in s c : c ∈ strip s -> c ∈ s.
Proof. unfold strip, rstrip, lstrip. intros H. by apply rev_in, span_in, rev_in, span_in in H. Qed.

(** A string with a character that is not white space is not blank. *)
Lemma not_blank s c : isspace c = false -> c ∈ s -> is_nil (strip s) = false.
Proof.
  intros Hc Hin. assert (c ∈ strip s) as H by (unfold strip, rstrip, lstrip; by apply rev_in, span_keeps, rev_in, span_keeps). by destruct (strip s); [apply elem_of_nil in H|].
Qed.

Lemma lstrip_id c s : isspace c = false -> lstrip (c :: s) = c :: s.
Proof. intros Hc. unfold lstrip. cbn [span]. by rewrite Hc. Qed.

Lemma rstrip_id s c : isspace c = false -> rstrip (s ++ [c]) = s ++ [c].
Proof. intros Hc. unfold rstrip. rewrite rev_app_distr. cbn [rev app]. rewrite lstrip_id by done. cbn [rev]. by rewrite rev_involutive. Qed.

Lemma digit_not_space c : is_digit c = true -> isspace c = false /\ int_space c = false.
Proof. unfold int_space, is_digit, isspace. lia. Qed.

(** ** Folded stacks round trip *)

Lemma py_str_digits n : 0 <= n < 2 ^ 64 ->
  Forall (fun c => is_digit c = true) (py_str n) /\ digits_value (py_str n) = n /\ py_str n <> [] /\ (length (py_str n) <= 64)%nat.
Proof.
  intros Hn. unfold py_str, py_nat_str. replace (n <? 0) with false by lia. set (k := S (Z.to_nat (Z.log2 n))).
  assert (0 <= Z.log2 n < 64) as Hl. { split; [apply Z.log2_nonneg|]. destruct (Z.eq_dec n 0) as [->|]; [done|]. apply Z.log2_lt_pow2; lia. }
  assert (n < 10 ^ Z.of_nat k) as Hb.
  { destruct (Z.eq_dec n 0) as [->|Hz]; [apply Z.pow_pos_nonneg; lia|]. pose proof (Z.log2_spec n ltac:(lia)) as [_ H]. eapply Z.lt_le_trans; [exact H|].
    replace (Z.of_nat k) with (Z.succ (Z.log2 n)) by (unfold k; lia). apply Z.pow_le_mono_l. lia. }
  destruct (digits_spec k n ltac:(lia)) as (H1 & H2 & H3 & H4). split_and!; [done|done|by apply H3|unfold k in *; lia].
Qed.

Lemma decimal_digit c : is_digit c = true -> decimal c = Some (c - 48).
Proof. intros Hc. unfold decimal, decimal_zeros. cbn [find]. unfold is_digit in Hc. by replace ((48 <=? c) && (c <? 48 + 10)) with true by lia. Qed.

Lemma int_digits_all ds : Forall (fun c => is_digit c = true) ds -> forall acc, int_digits ds acc = Some (acc ++ map (fun c => c - 48) ds).
Proof. induction 1 as [|c ds Hc _ IH]; intros acc; cbn [int_digits map]; [by rewrite app_nil_r|]. by rewrite decimal_digit, IH, <- app_assoc. Qed.

Lemma fold_digits ds : forall acc, fold_left (fun acc d => acc * 10 + d) (map (fun c => c - 48) ds) acc = fold_left (fun acc c => acc * 10 + (c - 48)) ds acc.
Proof. induction ds as [|c ds IH]; intros acc; [done|]. cbn. apply IH. Qed.

Lemma py_int_str n : 0 <= n < 2 ^ 64 -> py_int (py_str n) = Some n.
Proof.
  intros Hn. destruct (py_str_digits n Hn) as (Hd & Hv & Hne & Hl). unfold py_int. set (s := py_str n) in *. clearbody s.
  assert (forall s, Forall (fun c => is_digit c = true) s -> (span int_space s).2 = s) as Hspan.
  { intros s' Hs'. destruct Hs' as [|c s' Hc _]; [done|]. cbn [span]. by rewrite (proj2 (digit_not_space c Hc)). }
  rewrite (Hspan s Hd), (Hspan (rev s)), rev_involutive by (by apply Forall_rev). destruct s as [|c s]; [done|].
  assert ((c =? 45) = false /\ (c =? 43) = false) as [-> ->] by (apply Forall_cons in Hd as [Hc _]; unfold is_digit in Hc; lia).
  rewrite int_digits_all by done. cbn [app map]. unfold digits_value in Hv. change (c - 48 :: map (fun c => c - 48) s) with (map (fun c => c - 48) (c :: s)). rewrite length_map, fold_digits, Hv.
  replace (int_max_str_digits <? length (c :: s))%nat with false; [done|]. symmetry. apply Nat.ltb_ge. unfold int_max_str_digits. lia.
Qed.

Lemma dict_add_fresh key n d : key ∉ map fst d -> dict_add key n d = d ++ [(key, n)].
Proof.
  induction d as [|[k v] d IH]; intros Hk; [done|]. cbn [dict_add map fst] in *. apply not_elem_of_cons in Hk as [Hne Hk]. rewrite bool_decide_false by congruence. by rewrite IH.
Qed.

(** A stack that fits on a line and does not use the preferred separator. *)
Definition plain (s : str) : Prop := 9 ∉ s /\ 10 ∉ s.

Lemma collapsed_step_line k n d : plain k -> 0 < n < 2 ^ 64 -> collapsed_step d (collapsed_line (k, n)) = dict_add k n d.
Proof.
  intros [H9 H10] Hn. destruct (py_str_digits n ltac:(lia)) as (Hd & _ & Hne & _). pose proof (py_int_str n ltac:(lia)) as Hi. unfold collapsed_step, collapsed_line. cbn [fst snd].
  set (ds := py_str n) in *. clearbody ds. rewrite Forall_forall in Hd. assert (forall c, c ∈ ds -> c <> 9 /\ c <> 10 /\ c <> 32) as Hds by (intros c Hc; specialize (Hd c Hc); unfold is_digit in Hd; lia).
  change (k ++ 32 :: ds ++ [10]) with (k ++ (32 :: ds) ++ [10]). rewrite app_assoc. rewrite rstrip_newline_line.
  2:{ rewrite elem_of_app, elem_of_cons. intros [?|[?|Hc]]; [done|done|]. by apply Hds in Hc as (_ & ? & _). }
  destruct ds as [|c ds]; [done|]. pose proof (digit_not_space c (Hd c (list_elem_of_here _ _))) as [Hsp _].
  rewrite (not_blank _ c Hsp) by (rewrite elem_of_app, !elem_of_cons; auto). rewrite bool_decide_false.
  2:{ rewrite elem_of_app, elem_of_cons. intros [?|[?|Hc]]; [done|done|]. by apply Hds in Hc as (? & _). }
  unfold rpartition. rewrite rev_app_distr. cbn [rev]. rewrite <- app_assoc. change ((rev ds ++ [c]) ++ [32] ++ rev k) with (rev (c :: ds) ++ 32 :: rev k).
  rewrite (span_app _ (rev (c :: ds)) (32 :: rev k)); [|apply Forall_forall; intros x Hx; apply (proj1 (rev_in _ _)), Hds in Hx; lia|by intros x b [= <- _]].
  rewrite !rev_involutive, Hi. by replace (n <=? 0) with false by lia.
Qed.

Lemma parse_lines l : forall acc, NoDup (map fst (acc ++ l)) -> Forall (fun e => plain e.1 /\ 0 < e.2 < 2 ^ 64) l ->
  fold_left collapsed_step (map collapsed_line l) acc = acc ++ l.
Proof.
  induction l as [|[k n] l IH]; intros acc Hn Hl; cbn [map fold_left]; [by rewrite app_nil_r|]. apply Forall_cons in Hl as [[Hk Hc] Hl]. cbn [fst snd] in *. rewrite collapsed_step_line by done.
  assert (k ∉ map fst acc) as Hfresh. { rewrite map_app in Hn. apply NoDup_app in Hn as (_ & Hdis & _). intros Hin. apply (Hdis k Hin). apply list_elem_of_here. }
  rewrite dict_add_fresh by done. rewrite IH; [by rewrite <- app_assoc| |done]. by rewrite <- app_assoc.
Qed.

(** What folding produces. *)
Definition folded_ok (bound : Z) (d : list (str * Z)) : Prop :=
  NoDup (map fst d) /\ Forall (fun e => plain e.1 /\ 0 < e.2) d /\ total d <= bound.

Lemma total_bounds d : Forall (fun e => plain e.1 /\ 0 < e.2) d -> Forall (fun e => e.2 <= total d) d /\ 0 <= total d.
Proof.
  unfold total. induction 1 as [|e d [_ He] _ [IH1 IH2]]; cbn [foldr]; [split; [constructor|lia]|]. split; [|lia]. constructor; [lia|]. eapply Forall_impl; [exact IH1|]. cbn. intros e' H. lia.
Qed.

Lemma parse_collapsed_lines d : folded_ok (2 ^ 64 - 1) d -> parse_collapsed (collapsed_lines d) = sort_by fst d.
Proof.
  intros (Hn & Hd & Ht). destruct (total_bounds d Hd) as [Hb _]. unfold parse_collapsed, collapsed_lines. rewrite parse_lines; [done| |].
  - cbn [app]. assert (map fst (sort_by fst d) ≡ₚ map fst d) as -> by (apply Permutation_map, sort_by_perm). done.
  - rewrite (sort_by_perm fst). rewrite Forall_forall in Hd, Hb. apply Forall_forall. intros e He. destruct (Hd e He) as [H1 H2]. specialize (Hb e He). cbn in Hb. split; [done|lia].
Qed.

Lemma dict_add_total key n d : total (dict_add key n d) = total d + n.
Proof. unfold total. induction d as [|[k v] d IH]; cbn [dict_add foldr snd]; [lia|]. case_bool_decide; cbn [foldr snd]; lia. Qed.

Lemma dict_add_keys key n d : map fst (dict_add key n d) = if bool_decide (key ∈ map fst d) then map fst d else map fst d ++ [key].
Proof.
  destruct (decide (key ∈ map fst d)) as [Hk|Hk]; [rewrite bool_decide_true by done|by rewrite bool_decide_false, dict_add_fresh, map_app by done].
  induction d as [|[k v] d IH]; [by apply elem_of_nil in Hk|]. cbn [dict_add map fst] in *. case_bool_decide; [done|]. cbn [map fst]. rewrite IH; [done|]. apply elem_of_cons in Hk as [?|?]; [congruence|done].
Qed.

Lemma dict_add_ok bound key d : plain key -> folded_ok bound d -> folded_ok (bound + 1) (dict_add key 1 d).
Proof.
  intros Hk (Hn & Hd & Ht). split_and!; [| |rewrite dict_add_total; lia].
  - rewrite dict_add_keys. case_bool_decide; [done|]. apply NoDup_app. split; [done|]. split; [|apply NoDup_singleton]. intros x Hx ->%list_elem_of_singleton. done.
  - clear Hn Ht. induction Hd as [|[k v] d [H1 H2] Hd IH]; cbn [dict_add]; [constructor; [by split|constructor]|]. case_bool_decide; constructor; try done. cbn [fst snd] in *. split; [done|lia].
Qed.

Lemma join_in sep ws c : c ∈ join sep ws -> c = sep \/ exists w, w ∈ ws /\ c ∈ w.
Proof.
  induction ws as [|w ws IH]; [by intros ?%elem_of_nil|]. intros Hc. destruct ws as [|w' ws]; [right; exists w; split; [apply list_elem_of_here|done]|].
  change (c ∈ w ++ sep :: join sep (w' :: ws)) in Hc. apply elem_of_app in Hc as [Hc|[->|Hc]%elem_of_cons]; [right; exists w; split; [apply list_elem_of_here|done]|by left|].
  destruct (IH Hc) as [->|(x & Hx & Hxc)]; [by left|]. right. exists x. split; [by apply list_elem_of_further|done].
Qed.

Lemma join_plain ws : Forall plain ws -> plain (join 59 ws).
Proof. rewrite Forall_forall. intros Hw. split; intros [?|(w & Hin & Hc)]%join_in; try done; by destruct (Hw w Hin). Qed.

(** A line with tabs only in front. *)
Definition tabs_in_front (raw : str) : Prop := 9 ∉ lstrip (rstrip_newline raw).

(** A line of the profile. *)
Definition line_ok (raw : str) : Prop := tabs_in_front raw /\ 10 ∉ rstrip_newline raw.

Lemma sub_dso_in s c : c ∈ sub_dso s -> c ∈ s.
Proof.
  unfold sub_dso. destruct (rev s) as [|c1 r] eqn:E; [done|]. pose proof (span_parts (fun c => negb ((c =? 40) || (c =? 41))) r) as Hp. destruct (span _ r) as [a b]. cbn [fst snd] in Hp.
  destruct b as [|c2 b]; [done|]. pose proof (span_parts isspace b) as Hp2. destruct (span isspace b) as [ws b2]. cbn [fst snd] in Hp2. case_match; [|done]. intros Hc. apply (proj1 (rev_in b2 c)) in Hc.
  apply (proj1 (rev_in s c)). rewrite E, <- Hp, <- Hp2. set_solver.
Qed.

Lemma sub_offset_in s c : c ∈ sub_offset s -> c ∈ s.
Proof.
  unfold sub_offset. pose proof (span_parts is_hex (rev s)) as Hp. destruct (span is_hex (rev s)) as [a b]. cbn [fst snd] in Hp. destruct b as [|c1 [|c2 [|c3 b]]]; try done. case_match; [|done].
  intros Hc. apply (proj1 (rev_in s c)). rewrite <- Hp. apply (proj1 (rev_in b c)) in Hc. set_solver.
Qed.

Lemma clean_symbol_plain rest : plain rest -> plain (clean_symbol rest).
Proof.
  intros [H9 H10]. unfold clean_symbol. destruct (is_nil (strip (sub_offset (sub_dso rest)))); [split; apply (bool_decide_unpack _); by vm_compute|].
  split; intros Hc%strip_in%sub_offset_in%sub_dso_in; done.
Qed.

Lemma match_frame_in line rest c : match_frame line = Some rest -> c ∈ rest -> c ∈ lstrip line.
Proof.
  unfold match_frame, lstrip. destruct (span isspace line) as [ws l1]. cbn [snd]. pose proof (span_parts is_hex l1) as H1. destruct (span is_hex l1) as [addr l2]. cbn [fst snd] in H1.
  pose proof (span_parts isspace l2) as H2. destruct (span isspace l2) as [ws' l3]. cbn [fst snd] in H2. case_match; [done|]. intros [= <-] Hc. rewrite <- H1, <- H2. unfold rstrip, lstrip in Hc.
  apply (proj1 (rev_in _ _)), span_in, (proj1 (rev_in _ _)) in Hc. set_solver.
Qed.

Lemma first_word_plain s : plain (first_word s).
Proof. unfold first_word. split; intros Hc%span_holds; done. Qed.

(** The state of the folder after lines that give at most [bound] samples. *)
Record folder_ok (bound : Z) (f : Folder) : Prop := {
  fok_folded : folded_ok (bound - if is_nil (stack_ f) then 0 else 1) (folded f);
  fok_comm : plain (comm_ f);
  fok_stack : Forall plain (stack_ f)
}.

Lemma folded_ok_mono m n d : m <= n -> folded_ok m d -> folded_ok n d.
Proof. intros Hm (H1 & H2 & H3). split_and!; [done|done|lia]. Qed.

Lemma kept_plain drop stack : Forall plain stack -> Forall plain (kept_frames drop stack).1.
Proof.
  intros Hs. unfold kept_frames. assert (Forall plain (rev stack)) as Hr by (by apply Forall_rev). destruct drop; cbn [fst]; [|done].
  rewrite Forall_forall in *. intros x [_ Hx]%list_elem_of_filter. by apply Hr.
Qed.

Lemma flush_ok bound f : folder_ok bound f -> folder_ok bound (flush f) /\ stack_ (flush f) = [].
Proof.
  intros [Hd Hc Hs]. unfold flush. destruct (is_nil (stack_ f)) eqn:En.
  - split; [|done]. split; cbn [stack_ folded comm_ is_nil]; [done|done|constructor].
  - pose proof (kept_plain (drop_unknown_ f) (stack_ f) Hs) as Hk. destruct (kept_frames (drop_unknown_ f) (stack_ f)) as [frames dropped]. cbn [fst] in Hk. split; [|done].
    split; cbn [stack_ folded comm_ is_nil]; [|done|constructor]. set (fr := if is_nil (comm_ f) then frames else comm_ f :: frames). assert (Forall plain fr) as Hf by (unfold fr; destruct (is_nil (comm_ f)); [done|by constructor]).
    destruct (is_nil fr); [by eapply folded_ok_mono; [|exact Hd]; lia|]. replace (bound - 0) with (bound - 1 + 1) by lia. apply dict_add_ok; [by apply join_plain|done].
Qed.

Lemma with_comm_ok bound comm f : plain comm -> folder_ok bound f -> folder_ok bound (with_comm comm f).
Proof. intros Hc [Hd _ Hs]. by split. Qed.

Lemma folder_ok_mono m n f : m <= n -> folder_ok m f -> folder_ok n f.
Proof. intros Hm [Hd Hc Hs]. split; [|done|done]. eapply folded_ok_mono; [|exact Hd]. lia. Qed.

Lemma fold_line_ok bound f raw : line_ok raw -> folder_ok bound f -> folder_ok (bound + 1) (fold_line f raw).
Proof.
  intros [H9 H10] Hf. unfold fold_line. set (line := rstrip_newline raw) in *. destruct line as [|c line'] eqn:El.
  { apply (folder_ok_mono bound); [lia|]. apply with_comm_ok; [split; by intros ?%elem_of_nil|]. by apply flush_ok. }
  rewrite <- El in *. destruct (is_nil (strip line)).
  { apply (folder_ok_mono bound); [lia|]. apply with_comm_ok; [split; by intros ?%elem_of_nil|]. by apply flush_ok. }
  destruct (isspace c).
  - unfold add_frame. destruct (match_frame line) as [rest|] eqn:Em; [|apply (folder_ok_mono bound); [lia|done]]. destruct Hf as [Hd Hc Hs].
    assert (plain rest) as Hr by (split; intros Hin; pose proof (match_frame_in _ _ _ Em Hin) as Hin'; [done|apply span_in in Hin'; done]).
    split; cbn [stack_ folded comm_]; [|done|apply Forall_app; split; [done|by apply Forall_singleton, clean_symbol_plain]].
    eapply folded_ok_mono; [|exact Hd]. destruct (stack_ f); cbn [is_nil app]; lia.
  - apply (folder_ok_mono bound); [lia|]. apply with_comm_ok; [apply first_word_plain|by apply flush_ok].
Qed.

Lemma fold_lines_ok lines : Forall line_ok lines -> forall bound f, folder_ok bound f -> folder_ok (bound + Z.of_nat (length lines)) (fold_left fold_line lines f).
Proof.
  induction 1 as [|raw lines Hr _ IH]; intros bound f Hf; cbn [fold_left length]; [by rewrite Z.add_0_r|]. replace (bound + Z.of_nat (S (length lines))) with (bound + 1 + Z.of_nat (length lines)) by lia.
  by apply IH, fold_line_ok.
Qed.

Lemma fold_perf_ok lines drop : Forall line_ok lines -> folded_ok (Z.of_nat (length lines)) (fold_perf_script lines drop).1.
Proof.
  intros Hl. assert (folder_ok 0 (new_folder drop)) as H0. { split; cbn; [|split; by intros ?%elem_of_nil|constructor]. split_and!; [constructor|constructor|done]. }
  pose proof (fold_lines_ok lines Hl 0 _ H0) as Hf. destruct (flush_ok _ _ Hf) as [[Hd _ _] Hs]. rewrite Hs in Hd. cbn [is_nil] in Hd. unfold fold_perf_script. cbn [fst].
  eapply folded_ok_mono; [|exact Hd]. lia.
Qed.

Definition whole_line (l : str) : Prop := exists a, 10 ∉ a /\ l = a ++ [10].

Lemma stdin_lines_line a s : 10 ∉ a -> stdin_lines (a ++ 10 :: s) = (a ++ [10]) :: stdin_lines s.
Proof.
  induction a as [|c a IH]; intros Ha; [done|]. apply not_elem_of_cons in Ha as [Hc Ha]. cbn [app stdin_lines]. replace (c =? 10) with false by lia. by rewrite IH.
Qed.

Lemma stdin_lines_concat ls : Forall whole_line ls -> stdin_lines (concat ls) = ls.
Proof. induction 1 as [|l ls (a & Ha & ->) _ IH]; [done|]. cbn [concat]. rewrite <- app_assoc. cbn [app]. by rewrite stdin_lines_line, IH. Qed.

Lemma stdin_lines_spec s : Forall (fun l => whole_line l \/ 10 ∉ l) (stdin_lines s) /\ (length (stdin_lines s) <= length s)%nat.
Proof.
  induction s as [|c s [IH1 IH2]]; [split; [constructor|done]|]. cbn [stdin_lines]. destruct (c =? 10) eqn:Ec.
  - split; [|cbn; lia]. constructor; [|done]. left. exists []. split; [by intros ?%elem_of_nil|done].
  - destruct IH1 as [|l ls Hl Hls]; (split; [|cbn in *; lia]).
    + constructor; [|constructor]. right. rewrite list_elem_of_singleton. lia.
    + constructor; [|done]. destruct Hl as [(a & Ha & ->)|Hl]; [left; exists (c :: a); split; [|done]|right]; rewrite elem_of_cons; intros [?|?]; (lia || done).
Qed.

Lemma stdin_line_ok s : Forall tabs_in_front (stdin_lines s) -> Forall line_ok (stdin_lines s).
Proof.
  intros Ht. destruct (stdin_lines_spec s) as [Hl _]. rewrite Forall_forall in *. intros l Hin. split; [by apply Ht|]. destruct (Hl l Hin) as [(a & Ha & ->)|Ha]; [by rewrite rstrip_newline_line|].
  unfold rstrip_newline. intros Hc. by apply (proj1 (rev_in _ _)), span_in, (proj1 (rev_in _ _)) in Hc.
Qed.

Lemma collapsed_whole d : folded_ok (2 ^ 64 - 1) d -> Forall whole_line (collapsed_lines d).
Proof.
  intros (_ & Hd & Ht). destruct (total_bounds d Hd) as [Hb _]. unfold collapsed_lines. rewrite Forall_map, (sort_by_perm fst). rewrite Forall_forall in *. intros e He. destruct (Hd e He) as [[_ H10] H0]. specialize (Hb e He). cbn in Hb.
  exists (e.1 ++ 32 :: py_str e.2). unfold collapsed_line. split; [|by rewrite <- app_assoc]. destruct (py_str_digits e.2 ltac:(lia)) as (Hds & _). rewrite Forall_forall in Hds.
  rewrite elem_of_app, elem_of_cons. intros [?|[?|Hc]]; [done|done|]. specialize (Hds 10 Hc). done.
Qed.

(** The arguments with the two modes set. *)
Definition with_modes (args : FlameArgs) (collapse_only from_collapsed : bool) : FlameArgs :=
  mkFlameArgs collapse_only from_collapsed (fa_title args) (fa_subtitle args) (fa_countname args) (fa_root_name args) (fa_width args) (fa_keep_unknown args).


Definition default_args : FlameArgs := mkFlameArgs false false (text "QSL Flame Graph") [] (text "samples") (text "all") 1200 false.

(** Two samples of one stack and one of another. *)
Definition small_profile : list Z :=
  text "qsl-bench 100 1.0: 1000 cpu-clock:u:" ++ 10 :: 9 :: text "415cd0 f(unsigned long, Side)+0x310 (/path/qsl-bench)" ++ 10 :: 9 :: text "402887 main+0x127 (/path/qsl-bench)" ++ 10 ::
  10 :: text "qsl-bench 100 2.0: 1000 cpu-clock:u:" ++ 10 :: 9 :: text "aaaa [unknown] (/lib/libc.so)" ++ 10 :: 9 :: text "402887 main+0x10 (/path/qsl-bench)" ++ 10 :: 10 ::
  text "qsl-bench 100 3.0: 1000 cpu-clock:u:" ++ 10 :: 9 :: text "415cd0 f(unsigned long, Side)+0x2 (/path/qsl-bench)" ++ 10 :: 9 :: text "402887 main+0x127 (/path/qsl-bench)" ++ [10].


(** ** Folding a printed profile *)

(** One line of a stack as perf prints it, innermost first; the offset is
    optional. *)
Record PerfFrame := mkPerfFrame { pf_addr : list Z; pf_symbol : list Z; pf_offset : option (list Z); pf_dso : list Z }.
Record PerfSample := mkPerfSample { ps_comm : list Z; ps_detail : list Z; ps_frames : list PerfFrame }.

Definition offset_text (offset : option (list Z)) : list Z := match offset with Some h => 43 :: 48 :: 120 :: h | None => [] end.

Definition frame_text (f : PerfFrame) : list Z :=
  9 :: pf_addr f ++ 32 :: (pf_symbol f ++ offset_text (pf_offset f)) ++ 32 :: 40 :: pf_dso f ++ [41].
Definition frame_line (f : PerfFrame) : list Z := frame_text f ++ [10].

Definition sample_lines (s : PerfSample) : list (list Z) :=
  ((ps_comm s ++ 32 :: ps_detail s) ++ [10]) :: map frame_line (ps_frames s) ++ [[10]].

Definition all_hex (s : list Z) : Prop := s <> [] /\ Forall (fun c => is_hex c = true) s.

(** A symbol starts and ends with a character that is not white space; without an
    offset it does not look as if it had one. *)
Record perf_frame_ok (f : PerfFrame) : Prop := {
  fo_addr : all_hex (pf_addr f);
  fo_first : exists c s, pf_symbol f = c :: s /\ isspace c = false;
  fo_last : exists s c, pf_symbol f = s ++ [c] /\ isspace c = false;
  fo_line : 10 ∉ pf_symbol f;
  fo_offset : match pf_offset f with Some h => all_hex h | None => sub_offset (pf_symbol f) = pf_symbol f end;
  fo_dso : 10 ∉ pf_dso f /\ 40 ∉ pf_dso f /\ 41 ∉ pf_dso f
}.

Definition perf_sample_ok (s : PerfSample) : Prop :=
  ps_comm s <> [] /\ Forall (fun c => isspace c = false) (ps_comm s) /\ 10 ∉ ps_detail s /\ Forall perf_frame_ok (ps_frames s).

Lemma hex_not_space c : is_hex c = true -> isspace c = false /\ c <> 10.
Proof. unfold is_hex, is_digit, isspace. lia. Qed.

Lemma body_last f : perf_frame_ok f -> exists s c, pf_symbol f ++ offset_text (pf_offset f) = s ++ [c] /\ isspace c = false.
Proof.
  intros Hf. pose proof (fo_offset _ Hf) as Ho. destruct (pf_offset f) as [h|]; cbn [offset_text]; [|rewrite app_nil_r; apply (fo_last _ Hf)].
  destruct Ho as [Hne Hh]. destruct (exists_last Hne) as (h' & c & ->). exists (pf_symbol f ++ 43 :: 48 :: 120 :: h'), c. split; [by rewrite <- app_assoc|].
  apply hex_not_space. apply Forall_app in Hh as [_ Hh]. by apply Forall_inv in Hh.
Qed.

Lemma sub_dso_frame body dso s c : 40 ∉ dso -> 41 ∉ dso -> body = s ++ [c] -> isspace c = false -> sub_dso (body ++ 32 :: 40 :: dso ++ [41]) = body.
Proof.
  intros H40 H41 -> Hc. unfold sub_dso. replace (rev ((s ++ [c]) ++ 32 :: 40 :: dso ++ [41])) with (41 :: rev dso ++ 40 :: [32] ++ c :: rev s).
  2:{ rewrite !rev_app_distr. cbn [rev app]. rewrite !rev_app_distr. cbn [rev app]. by rewrite <- !app_assoc. }
  rewrite (span_app _ (rev dso)); [|apply Forall_forall; intros x Hx; apply (proj1 (rev_in _ _)) in Hx|by intros x b [= <- _]].
  2:{ apply negb_true_iff, orb_false_iff. split; apply Z.eqb_neq; by intros ->. }
  rewrite (span_app isspace [32]); [|by repeat constructor|by intros x b [= <- _]]. cbn [is_nil negb andb Z.eqb Pos.eqb]. cbn [rev]. by rewrite rev_involutive.
Qed.

Lemma sub_offset_frame s h : all_hex h -> sub_offset (s ++ 43 :: 48 :: 120 :: h) = s.
Proof.
  intros [Hne Hh]. unfold sub_offset. replace (rev (s ++ 43 :: 48 :: 120 :: h)) with (rev h ++ 120 :: 48 :: 43 :: rev s) by (rewrite rev_app_distr; cbn [rev]; by rewrite <- !app_assoc).
  rewrite (span_app is_hex (rev h)); [|by apply Forall_rev|by intros x b [= <- _]]. destruct (rev h) as [|c r] eqn:E; [|cbn; apply rev_involutive]. apply (f_equal (@rev Z)) in E. rewrite rev_involutive in E. done.
Qed.

Lemma strip_id s c s' c' s'' : s = c :: s' -> s = s'' ++ [c'] -> isspace c = false -> isspace c' = false -> strip s = s.
Proof. intros E E' Hc Hc'. unfold strip. rewrite E, lstrip_id, <- E, E' by done. by apply rstrip_id. Qed.

Lemma frame_text_line f : perf_frame_ok f -> 10 ∉ frame_text f.
Proof.
  intros Hf. destruct (fo_addr _ Hf) as [_ Hah]. destruct (fo_dso _ Hf) as (Hd & _). pose proof (fo_line _ Hf). rewrite Forall_forall in Hah.
  assert (10 ∉ pf_addr f) by (intros H'; by apply Hah, hex_not_space in H' as [_ ?]).
  assert (10 ∉ offset_text (pf_offset f)).
  { pose proof (fo_offset _ Hf) as Ho. destruct (pf_offset f) as [h|]; [|by apply not_elem_of_nil]. destruct Ho as [_ Hh]. rewrite Forall_forall in Hh. cbn [offset_text].
    rewrite !elem_of_cons. intros [?|[?|[?|H']]]; try done. by apply Hh, hex_not_space in H' as [_ ?]. }
  unfold frame_text. rewrite !elem_of_cons, !elem_of_app, !elem_of_cons, !elem_of_app, !elem_of_cons, !elem_of_app, list_elem_of_singleton. intuition lia.
Qed.

Lemma frame_name f : perf_frame_ok f ->
  let line := rstrip_newline (frame_line f) in
  is_nil (strip line) = false /\ (exists l, line = 9 :: l) /\ clean_symbol <$> match_frame line = Some (pf_symbol f).
Proof.
  intros Hf. destruct (body_last f Hf) as (s & c & Eb & Hc). destruct (fo_addr _ Hf) as [Ha Hah]. destruct (fo_first _ Hf) as (c1 & s1 & E1 & Hc1). destruct (fo_last _ Hf) as (s2 & c2 & E2 & Hc2).
  destruct (fo_dso _ Hf) as (_ & Hd40 & Hd41). unfold frame_line. cbv zeta. rewrite rstrip_newline_line by (by apply frame_text_line). unfold frame_text.
  set (body := pf_symbol f ++ offset_text (pf_offset f)) in *. split.
  { apply (not_blank _ 41); [done|]. rewrite !elem_of_cons, !elem_of_app, !elem_of_cons, !elem_of_app, !elem_of_cons, !elem_of_app, list_elem_of_singleton. auto 10. }
  split; [by eexists|]. unfold match_frame. change (9 :: pf_addr f ++ ?r) with ([9] ++ pf_addr f ++ r).
  rewrite (span_app isspace [9]); [|by repeat constructor|].
  2:{ intros x b E. destruct (pf_addr f) as [|a0 a]; [done|]. cbn in E. injection E as <- _. apply Forall_cons in Hah as [Hah _]. by apply hex_not_space. }
  rewrite (span_app is_hex (pf_addr f)); [|done|by intros x b [= <- _]].
  change (32 :: body ++ ?r) with ([32] ++ body ++ r). rewrite (span_app isspace [32]); [|by repeat constructor|].
  2:{ intros x b E. unfold body in E. rewrite E1 in E. cbn in E. by injection E as <- _. }
  assert (rstrip (body ++ 32 :: 40 :: pf_dso f ++ [41]) = body ++ 32 :: 40 :: pf_dso f ++ [41]) as ->.
  { change (32 :: 40 :: pf_dso f ++ [41]) with ((32 :: 40 :: pf_dso f) ++ [41]). rewrite app_assoc. by apply rstrip_id. }
  replace (is_nil (body ++ 32 :: 40 :: pf_dso f ++ [41])) with false by (by destruct body). replace (is_nil (pf_addr f)) with false by (by destruct (pf_addr f)). cbn [is_nil orb].
  cbn [fmap option_fmap option_map]. f_equal. unfold clean_symbol. rewrite (sub_dso_frame body (pf_dso f) s c) by done.
  assert (sub_offset body = pf_symbol f) as ->. { unfold body. pose proof (fo_offset _ Hf) as Ho. destruct (pf_offset f) as [h|]; cbn [offset_text]; [by apply sub_offset_frame|by rewrite app_nil_r]. }
  rewrite (strip_id _ c1 s1 c2 s2) by done. by rewrite E1.
Qed.

(** The folded stack of a sample, outermost frame first, and the unresolved
    frames it leaves out. *)
Definition stack_key (drop : bool) (s : PerfSample) : list Z := join 59 (ps_comm s :: (kept_frames drop (map pf_symbol (ps_frames s))).1).
Definition left_out (drop : bool) (s : PerfSample) : Z := (kept_frames drop (map pf_symbol (ps_frames s))).2.

Lemma fold_frames fs : Forall perf_frame_ok fs -> forall d n drop comm st,
  fold_left fold_line (map frame_line fs) (mkFolder d n drop comm st) = mkFolder d n drop comm (st ++ map pf_symbol fs).
Proof.
  induction 1 as [|f fs Hf _ IH]; intros d n drop comm st; cbn [map fold_left]; [by rewrite app_nil_r|]. destruct (frame_name f Hf) as (Hnb & [l El] & Hm). unfold fold_line at 2. set (line := rstrip_newline (frame_line f)) in *.
  clearbody line. rewrite El. rewrite <- El, Hnb. change (isspace 9) with true. cbn iota. unfold add_frame. destruct (match_frame line) as [rest|]; [|done]. cbn in Hm. injection Hm as Hm. cbn [folded dropped_unknown drop_unknown_ comm_ stack_].
  rewrite Hm, IH. by rewrite <- app_assoc.
Qed.

Lemma fold_sample d n drop s : perf_sample_ok s ->
  fold_left fold_line (sample_lines s) (mkFolder d n drop [] []) =
    mkFolder (if is_nil (ps_frames s) then d else dict_add (stack_key drop s) 1 d) (n + if is_nil (ps_frames s) then 0 else left_out drop s) drop [] [].
Proof.
  intros (Hne & Hcomm & Hdet & Hfs). unfold sample_lines. cbn [fold_left]. unfold fold_line at 2.
  assert (10 ∉ ps_comm s ++ 32 :: ps_detail s) as H10 by (rewrite elem_of_app, elem_of_cons; rewrite Forall_forall in Hcomm; intros [H|[H|H]]; [by apply Hcomm in H|done|done]).
  rewrite rstrip_newline_line by done. destruct (ps_comm s) as [|c comm] eqn:Ec; [done|]. cbn [app]. apply Forall_cons in Hcomm as [Hc Hcomm]. rewrite (not_blank _ c), Hc by (done || apply list_elem_of_here).
  unfold start_sample, flush. cbn [stack_ is_nil with_comm folded dropped_unknown drop_unknown_ comm_]. unfold first_word. rewrite lstrip_id by done.
  change (c :: comm ++ 32 :: ps_detail s) with ((c :: comm) ++ 32 :: ps_detail s). rewrite (span_app _ (c :: comm)); [|constructor; [by rewrite Hc|eapply Forall_impl; [exact Hcomm|]; cbn; intros x ->; done]|by intros x b [= <- _]].
  unfold with_comm at 1. cbn [fst folded dropped_unknown drop_unknown_ stack_]. rewrite fold_left_app, fold_frames by done. cbn [app fold_left]. unfold fold_line. change (rstrip_newline [10]) with (@nil Z). cbn iota. unfold end_sample, flush, stack_key, left_out. cbn [stack_ comm_ is_nil folded dropped_unknown drop_unknown_].
  rewrite Ec. destruct (ps_frames s) as [|f fs]; cbn [map is_nil]; [unfold with_comm; cbn; by rewrite Z.add_0_r|].
  by destruct (kept_frames drop (pf_symbol f :: map pf_symbol fs)) as [frames dropped].
Qed.

(** The samples with a stack: all of them, those of one folded stack, and the
    unresolved frames left out of them. *)
Definition count_samples (samples : list PerfSample) : Z := foldr (fun s n => (if is_nil (ps_frames s) then 0 else 1) + n) 0 samples.
Definition count_stack (drop : bool) (key : list Z) (samples : list PerfSample) : Z :=
  foldr (fun s n => (if negb (is_nil (ps_frames s)) && bool_decide (stack_key drop s = key) then 1 else 0) + n) 0 samples.
Definition count_left_out (drop : bool) (samples : list PerfSample) : Z := foldr (fun s n => (if is_nil (ps_frames s) then 0 else left_out drop s) + n) 0 samples.

(** [d.get(key, 0)]. *)
Definition dict_get (key : list Z) (d : list (list Z * Z)) : Z := default 0 (snd <$> find (fun e => bool_decide (e.1 = key)) d).

Lemma dict_get_add key key' n d : dict_get key' (dict_add key n d) = dict_get key' d + if bool_decide (key = key') then n else 0.
Proof.
  unfold dict_get. induction d as [|[k v] d IH]; cbn [dict_add find fst]; [case_bool_decide; cbn; lia|]. destruct (decide (k = key)) as [->|Hk].
  - rewrite (bool_decide_true (key = key)) by done. cbn [find fst]. case_bool_decide; cbn; lia.
  - rewrite (bool_decide_false (k = key)) by done. cbn [find fst]. destruct (decide (k = key')) as [->|Hk']; [rewrite (bool_decide_true (key' = key')), bool_decide_false by congruence; cbn; lia|].
    rewrite (bool_decide_false (k = key')) by done. exact IH.
Qed.

Lemma dict_add_positive key d : Forall (fun e => 0 < e.2) d -> Forall (fun e => 0 < e.2) (dict_add key 1 d).
Proof. induction 1 as [|[k v] d Hv Hd IH]; cbn [dict_add]; [by repeat constructor|]. case_bool_decide; constructor; try done. cbn in *. lia. Qed.

Lemma fold_samples drop samples : Forall perf_sample_ok samples -> forall d n, NoDup (map fst d) ->
  exists d', fold_left fold_line (concat (map sample_lines samples)) (mkFolder d n drop [] []) = mkFolder d' (n + count_left_out drop samples) drop [] [] /\
    (Forall (fun e => 0 < e.2) d -> Forall (fun e => 0 < e.2) d') /\ NoDup (map fst d') /\ total d' = total d + count_samples samples /\ forall key, dict_get key d' = dict_get key d + count_stack drop key samples.
Proof.
  unfold count_left_out, count_samples, count_stack. induction 1 as [|s samples Hs _ IH]; intros d n Hd; cbn [map concat fold_left foldr]; [exists d; rewrite Z.add_0_r; split_and!; [done|done|done|lia|intros; lia]|].
  rewrite fold_left_app, fold_sample by done. set (d1 := if is_nil (ps_frames s) then d else dict_add (stack_key drop s) 1 d).
  assert (NoDup (map fst d1)) as Hd1. { unfold d1. destruct (is_nil _); [done|]. rewrite dict_add_keys. case_bool_decide; [done|]. apply NoDup_app. split; [done|]. split; [|apply NoDup_singleton]. by intros x Hx ->%list_elem_of_singleton. }
  destruct (IH d1 (n + if is_nil (ps_frames s) then 0 else left_out drop s) Hd1) as (d' & -> & Hpos & Hn & Ht & Hg). exists d'. split_and!; [f_equal; lia| |done| |].
  - intros Hd0. apply Hpos. unfold d1. destruct (is_nil _); [done|]. by apply dict_add_positive.
  - rewrite Ht. unfold d1. destruct (is_nil _); [lia|]. rewrite dict_add_total. lia.
  - intros key. rewrite Hg. unfold d1. destruct (is_nil _); cbn [negb andb]; [lia|]. rewrite dict_get_add. lia.
Qed.

Lemma sample_lines_whole s : perf_sample_ok s -> Forall whole_line (sample_lines s).
Proof.
  intros (_ & Hcomm & Hdet & Hfs). unfold sample_lines. constructor.
  - exists (ps_comm s ++ 32 :: ps_detail s). split; [|done]. rewrite elem_of_app, elem_of_cons. rewrite Forall_forall in Hcomm. intros [H|[H|H]]; [by apply Hcomm in H|done|done].
  - apply Forall_app. split; [|constructor; [|constructor]; exists []; split; [by intros ?%elem_of_nil|done]]. rewrite Forall_map. eapply Forall_impl; [exact Hfs|]. intros f Hf. exists (frame_text f). split; [by apply frame_text_line|done].
Qed.

(** Each folded stack has as many samples as were printed with it; no sample with
    a stack is lost or counted twice, and the number reported on standard error
    is that of the frames left out. *)
Lemma folding_counts (drop : bool) (samples : list PerfSample) :
  Forall perf_sample_ok samples ->
  let r := fold_perf_script (stdin_lines (concat (concat (map sample_lines samples)))) drop in
  NoDup (map fst r.1) /\ total r.1 = count_samples samples /\ r.2 = count_left_out drop samples /\
  forall key, dict_get key r.1 = count_stack drop key samples.
Proof.
  intros Hs r. assert (Forall whole_line (concat (map sample_lines samples))) as Hw.
  { apply Forall_concat, Forall_map. eapply Forall_impl; [exact Hs|]. apply sample_lines_whole. }
  unfold r. rewrite stdin_lines_concat by done. unfold fold_perf_script, new_folder. destruct (fold_samples drop samples Hs [] 0 ltac:(constructor)) as (d' & -> & _ & Hn & Ht & Hg).
  unfold flush. cbn [stack_ is_nil folded dropped_unknown fst snd]. split_and!; [done|rewrite Ht; unfold total; cbn; lia|lia|]. intros key. rewrite Hg. unfold dict_get. cbn. lia.
Qed.

Definition small_samples : list PerfSample :=
  [mkPerfSample (text "qsl-bench") (text "100 1.0: 1000 cpu-clock:u:")
     [mkPerfFrame (text "415cd0") (text "f(unsigned long, Side)") (Some (text "310")) (text "/path/qsl-bench"); mkPerfFrame (text "402887") (text "main") (Some (text "127")) (text "/path/qsl-bench")];
   mkPerfSample (text "qsl-bench") (text "100 2.0: 1000 cpu-clock:u:")
     [mkPerfFrame (text "aaaa") (text "[unknown]") None (text "/lib/libc.so"); mkPerfFrame (text "415cd0") (text "f(unsigned long, Side)") (Some (text "2")) (text "/path/qsl-bench");
      mkPerfFrame (text "402887") (text "main") (Some (text "10")) (text "/path/qsl-bench")]].

Lemma small_samples_ok : Forall perf_sample_ok small_samples.
Proof.
  assert (forall addr sym offset dso, all_hex addr -> sym = removelast sym ++ [List.last sym 0] -> isspace (hd 32 sym) = false -> isspace (List.last sym 0) = false -> bool_decide (10 ∉ sym) = true ->
    match offset with Some h => all_hex h | None => sub_offset sym = sym end -> bool_decide (10 ∉ dso /\ 40 ∉ dso /\ 41 ∉ dso) = true -> perf_frame_ok (mkPerfFrame addr sym offset dso)) as Hframe.
  { intros addr sym offset dso H1 H2 H3 H4 H5 H6 H7. apply bool_decide_eq_true in H5, H7. split; cbn [pf_addr pf_symbol pf_offset pf_dso]; try done; [|by exists (removelast sym), (List.last sym 0)].
    destruct sym as [|c sym]; [done|]. by exists c, sym. }
  repeat constructor; try (by apply (bool_decide_unpack _)); apply Hframe; try (by vm_compute); by repeat constructor.
Qed.

(** ** From the printed profile to the picture *)

(** The frames of a sample, outermost first, under its command name. *)
Definition sample_frames (drop : bool) (s : PerfSample) : list (list Z) := ps_comm s :: (kept_frames drop (map pf_symbol (ps_frames s))).1.

(** No name contains the character that separates frames. *)
Definition no_separator (s : PerfSample) : Prop := 59 ∉ ps_comm s /\ Forall (fun f => 59 ∉ pf_symbol f) (ps_frames s).

(** The printed samples, of those with a stack, that start with a path. *)
Definition printed (drop : bool) (path : list (list Z)) (samples : list PerfSample) : Z :=
  foldr (fun s n => (if negb (is_nil (ps_frames s)) && bool_decide (path `prefix_of` sample_frames drop s) then 1 else 0) + n) 0 samples.

Lemma split_on_word w s : 59 ∉ w -> split_on 59 (w ++ 59 :: s) = w :: split_on 59 s.
Proof. induction w as [|c w IH]; intros Hw; [done|]. apply not_elem_of_cons in Hw as [Hc Hw]. cbn [app split_on]. replace (c =? 59) with false by lia. by rewrite IH. Qed.

Lemma split_on_last w : 59 ∉ w -> split_on 59 w = [w].
Proof. induction w as [|c w IH]; intros Hw; [done|]. apply not_elem_of_cons in Hw as [Hc Hw]. cbn [split_on]. replace (c =? 59) with false by lia. by rewrite IH. Qed.

Lemma split_join ws : ws <> [] -> Forall (fun w => 59 ∉ w) ws -> split_on 59 (join 59 ws) = ws.
Proof.
  induction ws as [|w ws IH]; intros Hne Hws; [done|]. apply Forall_cons in Hws as [Hw Hws]. destruct ws as [|w' ws]; [by apply split_on_last|].
  change (join 59 (w :: w' :: ws)) with (w ++ 59 :: join 59 (w' :: ws)). by rewrite split_on_word, IH.
Qed.

Lemma kept_symbols drop s f : f ∈ (kept_frames drop (map pf_symbol (ps_frames s))).1 -> exists g, g ∈ ps_frames s /\ f = pf_symbol g.
Proof.
  intros Hin. assert (f ∈ rev (map pf_symbol (ps_frames s))) as Hr by (unfold kept_frames in Hin; destruct drop; cbn [fst] in Hin; [by apply list_elem_of_filter in Hin as [_ ?]|done]).
  apply list_elem_of_In, in_rev, list_elem_of_In, list_elem_of_fmap in Hr as (g & -> & Hg). by exists g.
Qed.

Lemma stack_key_frames drop s : perf_sample_ok s -> no_separator s -> frames_of (stack_key drop s) = sample_frames drop s.
Proof.
  intros Hok [Hc Hf]. unfold frames_of, stack_key. fold (sample_frames drop s). assert (Forall (fun w => 59 ∉ w /\ w <> []) (sample_frames drop s)) as Hw.
  { unfold sample_frames. constructor; [by split; [|apply Hok]|]. rewrite Forall_forall in Hf. apply Forall_forall. intros f Hin. destruct (kept_symbols drop s f Hin) as (g & Hg & ->). split; [by apply Hf|].
    destruct Hok as (_ & _ & _ & Hfs). rewrite Forall_forall in Hfs. destruct (fo_first _ (Hfs g Hg)) as (c & r & -> & _). done. }
  rewrite split_join; [|done|eapply Forall_impl; [exact Hw|]; by intros w [? _]]. clear -Hw. induction Hw as [|w ws [_ Hne] _ IH]; [done|]. rewrite filter_cons, decide_True by done. by rewrite IH.
Qed.

Lemma samples_add path key n d : samples path (dict_add key n d) = samples path d + if bool_decide (path `prefix_of` frames_of key) then n else 0.
Proof.
  unfold samples. induction d as [|[k v] d IH]; cbn [dict_add foldr fst snd]; [case_bool_decide; lia|]. destruct (decide (k = key)) as [->|Hk].
  - rewrite (bool_decide_true (key = key)) by done. cbn [foldr fst snd]. case_bool_decide; lia.
  - rewrite (bool_decide_false (k = key)) by done. cbn [foldr fst snd]. lia.
Qed.

Lemma fold_printed drop path l : Forall perf_sample_ok l -> Forall no_separator l -> forall d n,
  samples path (folded (fold_left fold_line (concat (map sample_lines l)) (mkFolder d n drop [] []))) = samples path d + printed drop path l.
Proof.
  unfold printed. induction 1 as [|s l Hs _ IH]; intros Hsep d n; cbn [map concat fold_left foldr]; [cbn [folded]; lia|]. apply Forall_cons in Hsep as [Hsep1 Hsep]. rewrite fold_left_app, fold_sample by done. rewrite IH by done.
  destruct (is_nil (ps_frames s)); cbn [negb andb]; [lia|]. rewrite samples_add, stack_key_frames by done. lia.
Qed.



(** ** A stack that is not read back *)

(** A frame name with a tab in it is folded, but the line written for it splits at
    the tab when it is read back, so its samples are lost. *)
Definition tab_profile : list Z := text "bench 1" ++ 10 :: 9 :: text "1 operator" ++ 9 :: text "new (lib)" ++ [10].

Lemma tab_stack_lost :
  exists stacks, flame_main (with_modes default_args true false) tab_profile = Some (stacks, 0) /\ stacks <> [] /\
    flame_main (with_modes default_args true true) stacks = Some ([], 0) /\ flame_main (with_modes default_args false true) stacks = Some ([], 1).
Proof. eexists. split; [vm_compute; reflexivity|]. split; [done|]. split; by vm_compute. Qed.
