(* ===== verification/MdFeedTheorems.v ===== *)
(** * MdFeedTheorems: the market-data feed from the flow to the subscriber's report *)
From Stdlib Require Import ZifyBool.
From S2P Require Import Prelude Core Endian Text Book BookSpec OrderBook Command Protocol Engine EngineSpec Gateway GatewaySpec Feed Fixture FixtureSpec ReplaySpec Flow FlowSpec MdFeed.

(** ** Any subscriber hears what a recorder records *)

Section Heard.
Context {Sub : Type} `{HS : Subscriber Sub} {B : Type} `{BookStore B}.
Variable s0 : Sub.

Definition heard_as (log : list MarketDataMessage) : Sub := fold_left on_market_data log s0.

(** The publisher with its recorders replaced by subscribers. *)
Definition with_subs (p : MarketDataPublisher (list MarketDataMessage)) : MarketDataPublisher Sub :=
  mkMarketDataPublisher (map heard_as (subscribers_ p)) (last_tob_ p) (md_seq_ p).

Lemma with_subs_emit msg p : md_emit_next msg (with_subs p) = with_subs (md_emit_next msg p).
Proof.
  unfold md_emit_next, md_emit, with_subs. cbn [subscribers_ last_tob_ md_seq_]. f_equal. rewrite !map_map.
  apply map_ext. intros log. unfold heard_as. cbn [on_market_data recorder]. by rewrite fold_left_app.
Qed.

Lemma with_subs_events evs : forall p touched,
  fold_left publish_event evs (with_subs p, touched) = let r := fold_left publish_event evs (p, touched) in (with_subs r.1, r.2).
Proof.
  induction evs as [|ev evs IH]; intros p touched; [done|]. cbn [fold_left].
  assert (publish_event (with_subs p, touched) ev = let r := publish_event (p, touched) ev in (with_subs r.1, r.2)) as ->.
  { unfold publish_event. destruct ev; cbn [fst snd]; by rewrite ?with_subs_emit. }
  destruct (publish_event (p, touched) ev) as [p1 t1]. apply IH.
Qed.

Lemma with_subs_symbols (e : MatchingEngine B) symbols : forall p,
  fold_left (publish_symbol e) symbols (with_subs p) = with_subs (fold_left (publish_symbol e) symbols p).
Proof.
  induction symbols as [|s symbols IH]; intros p; [done|]. cbn [fold_left]. rewrite <- IH. f_equal.
  unfold publish_symbol. cbn [with_subs last_tob_]. destruct (last_tob_ p !! s) as [t|].
  - case_match; [|done]. by rewrite with_subs_emit.
  - case_match; [|done]. change (set_tob s _ (with_subs p)) with (with_subs (set_tob s (mkTob (Engine.best_bid e s) (Engine.best_ask e s)) p)). by rewrite with_subs_emit.
Qed.

Lemma with_subs_publish p (e : MatchingEngine B) evs : Feed.publish (with_subs p) e evs = with_subs (Feed.publish p e evs).
Proof.
  unfold Feed.publish. rewrite with_subs_events. cbv zeta. destruct (fold_left publish_event evs (p, [])) as [p1 t1]. apply with_subs_symbols.
Qed.
End Heard.

(** ** The messages are in range *)

Definition md_price (id : OrderId) (price : Price) : Prop := in_i64 price.

Section Range.
Context {B : Type} `{HL : BookStoreLaws B}.
Implicit Types e : MatchingEngine B.
Implicit Types p : MarketDataPublisher (list MarketDataMessage).

(** A publisher with one recorder, whose messages are in range. *)
Definition records_ok p : Prop := Forall (Forall md_ok) (subscribers_ p).

Lemma emit_records_ok msg p : (forall q, in_u64 q -> md_ok (msg q)) -> records_ok p -> records_ok (md_emit_next msg p).
Proof.
  intros Hm Hp. unfold records_ok, md_emit_next, md_emit. cbn. apply Forall_map. eapply Forall_impl; [exact Hp|]. intros log Hl. cbn.
  apply Forall_app. split; [done|]. apply Forall_singleton, Hm, u64_range.
Qed.

Lemma events_records_ok evs : forall p touched,
  Forall (event_ok md_price) evs -> records_ok p -> Forall in_u32 touched ->
  let r := fold_left publish_event evs (p, touched) in records_ok r.1 /\ Forall in_u32 r.2.
Proof.
  induction evs as [|ev evs IH]; intros p touched Hev Hp Ht; [done|]. apply Forall_cons in Hev as [Hv Hev]. cbn [fold_left]. unfold publish_event at 2.
  assert (in_u32 (symbol_of ev)) as Hs by (destruct ev; apply Hv).
  apply IH; [done| |case_bool_decide; [done|]; apply Forall_app; split; [done|by apply Forall_singleton]].
  destruct ev as [| |seq symbol taker maker price q|]; try done. destruct Hv as (_ & Hsym & _ & Hpr & Hq). by apply emit_records_ok.
Qed.

Lemma symbols_records_ok e symbols : forall p,
  (forall s, (forall x, tob_bid (engine_tob e s) = Some x -> in_i64 x) /\ (forall x, tob_ask (engine_tob e s) = Some x -> in_i64 x)) ->
  Forall in_u32 symbols -> records_ok p -> records_ok (fold_left (publish_symbol e) symbols p).
Proof.
  intros p Hb. revert p. induction symbols as [|s symbols IH]; intros p Hs Hp; [done|]. apply Forall_cons in Hs as [H1 Hs]. cbn [fold_left]. apply IH; [done|].
  assert (forall q, in_u64 q -> md_ok (MdTopOfBook q s (Engine.best_bid e s) (Engine.best_ask e s))) as Hm by (intros q Hq; destruct (Hb s); done).
  unfold publish_symbol. destruct (last_tob_ p !! s); case_match; try done; by apply (emit_records_ok _ _ Hm).
Qed.

Lemma tob_in_range ae s :
  books_ok md_price ae -> (forall x, tob_bid (a_tob ae s) = Some x -> in_i64 x) /\ (forall x, tob_ask (a_tob ae s) = Some x -> in_i64 x).
Proof.
  intros Hb. unfold a_tob. destruct (om_find s (ae_books ae)) as [b|] eqn:E; [|done]. destruct (books_ok_find _ _ _ _ Hb E) as [_ [Hbid Hask]%Forall_app].
  assert (forall l x, Forall (order_from md_price) l -> a_best l = Some x -> in_i64 x) as Hbest.
  { intros [|o l] x Hl; [done|]. apply Forall_cons in Hl as [[Ho _] _]. by intros [= <-]. }
  split; intros x; by apply Hbest.
Qed.
End Range.

(** ** The published stream *)

Section Run.
Context {B : Type} `{HL : BookStoreLaws B} (Hu : unbounded B).
Implicit Types e : MatchingEngine B.

(** The messages of a run are in range, and the events are few. *)
Lemma feed_run_range cmds : forall n e p,
  engine_wf e -> books_ok md_price (e_abs e) -> books_small n (e_abs e) -> records_ok p ->
  Forall command_ok cmds -> Forall (command_from md_price) cmds ->
  let '(evs, e', p') := feed_run e p cmds in
  records_ok p' /\ (length evs <= length cmds * (n + length cmds))%nat.
Proof.
  induction cmds as [|c cmds IH]; intros n e p Hwf Hb Hs Hp Hok Hf; cbn [feed_run]; [split; [done|cbn; lia]|].
  apply Forall_cons in Hok as [Hc Hok]. apply Forall_cons in Hf as [Hcf Hf].
  pose proof (apply_refines e c Hwf ltac:(apply Forall_true; intros; apply Hu) Hc) as [Hwf1 Ha]. rewrite (unbounded_admits e c Hu) in Ha.
  pose proof (a_apply_ok md_price (e_abs e) c Hb Hc Hcf) as [Hev Hb1]. pose proof (a_apply_small n (e_abs e) c Hs Hc) as [Hl Hs1]. rewrite <- Ha in *. cbn [fst snd] in *.
  destruct (apply e c) as [evs e1]. cbn [fst snd] in *.
  assert (records_ok (Feed.publish p e1 evs)) as Hp1.
  { unfold Feed.publish. pose proof (events_records_ok evs p [] Hev Hp ltac:(constructor)) as [Hp1 Ht]. destruct (fold_left publish_event evs (p, [])) as [p1 touched].
    apply symbols_records_ok; [|done|done]. intros s. rewrite (engine_tob_abs e1 s Hwf1). by apply tob_in_range. }
  specialize (IH (S n) e1 (Feed.publish p e1 evs) Hwf1 Hb1 Hs1 Hp1 Hok Hf). destruct (feed_run e1 _ cmds) as [[evs' e2] p2]. destruct IH as [H1 H2]. split; [done|].
  rewrite length_app. cbn [length]. nia.
Qed.
End Run.

(** The loop of qsl-mdfeed is the run of the publisher. *)
Lemma publish_loop `{HS : Subscriber Sub} (s0 : Sub) cmds : forall e p,
  fold_left publish_command cmds (e, with_subs s0 p) = let '(_, e', p') := feed_run e p cmds in (e', with_subs s0 p').
Proof.
  induction cmds as [|c cmds IH]; intros e p; [done|]. cbn [fold_left feed_run]. unfold publish_command at 2. cbn [fst snd].
  destruct (apply e c) as [evs e1]. rewrite with_subs_publish, IH. by destruct (feed_run e1 _ cmds) as [[evs' e2] p2].
Qed.

(** A good socket sends every message as one datagram. *)
Lemma udp_sends sendto log : forall s,
  udp_publisher_good (us_udp s) = true ->
  us_sent (heard_as (HS := udp_subscriber sendto) s log) = us_sent s ++ map encode_md log.
Proof.
  unfold heard_as. induction log as [|msg log IH]; intros s Hg; cbn [fold_left map]; [by rewrite app_nil_r|].
  unfold udp_publisher_good in Hg.
  assert (up_fd (us_udp (udp_send sendto s msg)) = up_fd (us_udp s) /\ us_sent (udp_send sendto s msg) = us_sent s ++ [encode_md msg]) as [H1 H2].
  { unfold udp_send, udp_on_market_data. replace (up_fd (us_udp s) <? 0) with false by lia. by case_if. }
  change (on_market_data s msg) with (udp_send sendto s msg). rewrite IH by (unfold udp_publisher_good; lia). rewrite H2, <- app_assoc. done.
Qed.

(** The messages of the flow of [seed] and [orders]. *)
Definition flow_log (seed orders : Z) : list MarketDataMessage :=
  let '(_, _, p) := feed_run (new_engine (B := OrderBook) Baseline) (Feed.subscribe new_publisher []) (generate_flow (B := OrderBook) seed 3 (Z.to_nat orders)) in
  concat (subscribers_ p).

Lemma flow_log_ok seed orders :
  0 <= orders < 2 ^ 30 ->
  exists p, (feed_run (new_engine (B := OrderBook) Baseline) (Feed.subscribe new_publisher []) (generate_flow (B := OrderBook) seed 3 (Z.to_nat orders))).2 = p /\
    pub_ok p (flow_log seed orders) /\ Forall md_ok (flow_log seed orders).
Proof.
  intros Ho. unfold flow_log. destruct (generate_flow_ok (B := OrderBook) seed 3 (Z.to_nat orders) ltac:(by unfold in_u32) ltac:(lia)) as [Hf Hl].
  set (flow := generate_flow _ _ _) in *. clearbody flow.
  assert (Forall command_ok flow) as Hok by (eapply Forall_impl; [exact Hf|]; by intros c []).
  assert (Forall (command_from md_price) flow) as Hfrom.
  { eapply Forall_impl; [exact Hok|]. intros c Hc. destruct c; cbn in *; try done; apply Hc. }
  assert (unbounded OrderBook) as Hu by done.
  pose proof (feed_run_range (HL := baseline_laws) Hu flow 0 (new_engine Baseline) (Feed.subscribe new_publisher []) (new_engine_wf _)
                ltac:(constructor) ltac:(constructor) ltac:(by repeat constructor) Hok Hfrom) as Hr.
  pose proof (feed_run_ok (HL := baseline_laws) flow (new_engine Baseline) (Feed.subscribe new_publisher []) [] ltac:(done) (new_engine_wf _) Hok new_publisher_ok ltac:(done)) as Hp.
  destruct (feed_run _ _ flow) as [[evs e] p]. destruct Hr as [Hr Hn]. exists p. split; [done|]. destruct Hp as (log & Hp & _).
  { cbn [length]. nia. }
  cbn [app] in Hp. unfold records_ok in Hr. rewrite (po_log _ _ Hp) in *. cbn [concat]. rewrite app_nil_r. split; [done|]. by apply Forall_cons in Hr as [Hr _].
Qed.

(** ** The subscriber *)

(** The calls of [recvfrom] deliver these messages, [None] being a timeout, and
    nothing after them. *)
Definition delivers (rs : list (option MarketDataMessage)) (i : nat) : option bytes :=
  match rs !! i with Some (Some msg) => Some (encode_md msg) | _ => None end.

(** The messages received within [count] calls, before three idle ones in a row. *)
Fixpoint heard (count idle : nat) (rs : list (option MarketDataMessage)) : list MarketDataMessage :=
  match count, rs with
  | S count', Some msg :: rs' => msg :: heard count' 0 rs'
  | S count', None :: rs' => if (3 <=? S idle)%nat then [] else heard count' (S idle) rs'
  | _, _ => []
  end.

(** The report of a stream of messages, by a tracker that has seen a prefix. *)
Fixpoint feed_lines (t : SequenceTracker) (msgs : list MarketDataMessage) : bytes :=
  match msgs with
  | [] => []
  | msg :: msgs' => let '(gap, t') := observe t (md_seq_of msg) in md_line msg gap ++ feed_lines t' msgs'
  end.

Definition after_hearing (msgs : list MarketDataMessage) (idle : Z) (st : Listening) : Listening :=
  let u := (udp_receive_all (ls_client st) (map encode_md msgs)).2 in
  mkListening u (u64 (ls_received st + Z.of_nat (length msgs))) idle (ls_out st ++ feed_lines (uc_tracker (ls_client st)) msgs).

Lemma listen_idle n : forall recv i st,
  0 <= uc_fd (ls_client st) -> (forall j, (i <= j)%nat -> recv j = None) ->
  exists idle, listen recv n i st = mkListening (ls_client st) (ls_received st) idle (ls_out st).
Proof.
  induction n as [|n IH]; intros recv i st Hfd Hr; cbn [listen]; [exists (ls_idle_ticks st); by destruct st|]. rewrite Hr by lia.
  unfold listen_step, udp_receive. replace (uc_fd (ls_client st) <? 0) with false by lia.
  case_if; [by eexists|]. destruct (IH recv (S i) (mkListening (ls_client st) (ls_received st) (ls_idle_ticks st + 1) (ls_out st)) Hfd) as [idle ->]; [intros; apply Hr; lia|].
  by exists idle.
Qed.

Lemma listen_heard rs : forall pre n idle st,
  0 <= uc_fd (ls_client st) -> ls_idle_ticks st = Z.of_nat idle -> in_u64 (ls_received st) -> Forall md_ok (omap id rs) ->
  exists idle', listen (delivers (pre ++ rs)) n (length pre) st = after_hearing (heard n idle rs) idle' st.
Proof.
  assert (forall st idle, in_u64 (ls_received st) -> after_hearing [] idle st = mkListening (ls_client st) (ls_received st) idle (ls_out st)) as Hnil.
  { intros st idle Hr. unfold after_hearing, in_u64 in *. cbn. rewrite app_nil_r, u64_small by lia. f_equal. lia. }
  induction rs as [|[msg|] rs IH]; intros pre n idle st Hfd Hi Hr Hok.
  - destruct (listen_idle n (delivers (pre ++ [])) (length pre) st Hfd) as [idle' ->].
    { intros j Hj. unfold delivers. by rewrite app_nil_r, lookup_ge_None_2. }
    exists idle'. replace (heard n idle []) with (@nil MarketDataMessage) by (by destruct n). by rewrite Hnil.
  - cbn in Hok. apply Forall_cons in Hok as [Hm Hok]. destruct n as [|n]; [exists (ls_idle_ticks st); cbn [heard listen]; rewrite Hnil by done; by destruct st|].
    cbn [listen heard]. unfold delivers at 1. rewrite list_lookup_middle by done. unfold listen_step. rewrite udp_receive_encoded by done.
    unfold after_hearing. cbn [map udp_receive_all feed_lines]. rewrite udp_receive_encoded by done. destruct (observe _ _) as [gap tracker].
    set (u1 := mkUdpFeedClient _ _ _ _ _). cbn [fst snd].
    destruct (IH (pre ++ [Some msg]) n 0%nat (mkListening u1 (u64 (ls_received st + 1)) 0 (ls_out st ++ md_line msg gap)) Hfd eq_refl (u64_range _) Hok) as [idle' E].
    rewrite <- app_assoc, length_app, Nat.add_1_r in E. cbn [app] in E. exists idle'. rewrite E. unfold after_hearing. cbn [ls_client ls_received ls_out].
    destruct (udp_receive_all u1 _) as [got u2]. cbn [snd length]. rewrite <- app_assoc, u64_u64_add. f_equal. f_equal. lia.
  - cbn in Hok. destruct n as [|n]; [exists (ls_idle_ticks st); cbn [heard listen]; rewrite Hnil by done; by destruct st|].
    cbn [listen heard]. unfold delivers at 1. rewrite list_lookup_middle by done. unfold listen_step, udp_receive. replace (uc_fd (ls_client st) <? 0) with false by lia.
    rewrite Hi. replace (3 <=? Z.of_nat idle + 1) with (3 <=? S idle)%nat by lia. destruct (3 <=? S idle)%nat; [eexists; by rewrite Hnil|].
    destruct (IH (pre ++ [None]) n (S idle) (mkListening (ls_client st) (ls_received st) (Z.of_nat idle + 1) (ls_out st)) Hfd ltac:(cbn; lia) Hr Hok) as [idle' E].
    rewrite <- app_assoc, length_app, Nat.add_1_r in E. exists idle'. exact E.
Qed.

Lemma heard_sublist rs : forall n idle, heard n idle rs `sublist_of` omap id rs.
Proof.
  induction rs as [|[msg|] rs IH]; intros [|n] idle; cbn [heard]; try apply sublist_nil_l; [apply sublist_skip, IH|].
  case_if; [apply sublist_nil_l|apply IH].
Qed.

Lemma heard_all log n idle : (length log <= n)%nat -> heard n idle (map Some log) = log.
Proof. revert n idle. induction log as [|m log IH]; intros [|n] idle Hn; cbn in *; try done; [lia|]. by rewrite IH by lia. Qed.

(** The numbers skipped between the first and the last of some messages. *)
Definition skipped (msgs : list MarketDataMessage) : Z :=
  match msgs with [] => 0 | m :: ms => md_seq_of (List.last ms m) - md_seq_of m - Z.of_nat (length ms) end.

Lemma last_default (ms : list MarketDataMessage) : forall m m', List.last (m' :: ms) m = List.last ms m'.
Proof.
  induction ms as [|x ms IH]; intros m m'; [done|]. change (List.last (m' :: x :: ms) m) with (List.last (x :: ms) m). by rewrite !IH.
Qed.

Lemma foldl_max_last ms : forall m, StronglySorted Z.lt (map md_seq_of (m :: ms)) -> foldl Z.max (md_seq_of m) (map md_seq_of ms) = md_seq_of (List.last ms m).
Proof.
  induction ms as [|m' ms IH]; intros m Hs; [done|]. cbn [map foldl]. apply StronglySorted_inv in Hs as [Hs Hlt]. apply Forall_cons in Hlt as [Hlt _].
  rewrite Z.max_r by lia. rewrite IH by done. by rewrite last_default.
Qed.

Lemma gaps_skipped u msgs :
  0 <= uc_fd u -> uc_tracker u = new_tracker -> uc_total_gaps u = 0 -> Forall md_ok msgs -> StronglySorted Z.lt (map md_seq_of msgs) ->
  uc_total_gaps (udp_receive_all u (map encode_md msgs)).2 = skipped msgs.
Proof.
  intros Hfd Ht Hz Hok Hs. destruct msgs as [|m ms]; [done|]. destruct (udp_loss_total u m ms Hfd Ht Hz Hok) as [_ ->].
  rewrite foldl_max_last, advances_increasing, List.length_map by done. done.
Qed.

Lemma udp_receive_all_config msgs : forall u,
  uc_port (udp_receive_all u msgs).2 = uc_port u /\ uc_recv_buffer_bytes (udp_receive_all u msgs).2 = uc_recv_buffer_bytes u.
Proof.
  induction msgs as [|d msgs IH]; intros u; [done|]. cbn [udp_receive_all].
  assert (uc_port (udp_receive u (Some d)).2 = uc_port u /\ uc_recv_buffer_bytes (udp_receive u (Some d)).2 = uc_recv_buffer_bytes u) as [<- <-].
  { unfold udp_receive. by repeat case_match. }
  destruct (udp_receive u (Some d)) as [[m g] u1]. specialize (IH u1). by destruct (udp_receive_all u1 msgs).
Qed.

Lemma parse_u64_to_string n : in_u64 n -> MdFeed.parse_u64 (to_string n) = Some n.
Proof.
  intros Hn. unfold MdFeed.parse_u64. rewrite <- (app_nil_r (to_string n)), from_chars_unsigned; [done|done|unfold in_u64 in Hn; cbn; lia|done].
Qed.

Lemma parse_port_to_string n : 0 <= n <= 65535 -> MdFeed.parse_port (to_string n) = Some n.
Proof. intros Hn. unfold MdFeed.parse_port. rewrite parse_u64_to_string by (unfold in_u64; lia). by rewrite (proj2 (Z.ltb_ge _ _)) by lia. Qed.

(** The command lines of the two sides. *)
Definition publish_argv (port seed orders : Z) : list bytes :=
  [text "qsl-mdfeed"; text "publish"; to_string port; to_string seed; to_string orders].
Definition subscribe_argv (port count : Z) : list bytes := [text "qsl-mdfeed"; text "subscribe"; to_string port; to_string count].

(** What a subscriber that heard [msgs] prints. *)
Definition subscriber_report (io : MdIO) (msgs : list MarketDataMessage) : bytes :=
  let rcvbuf := text " (SO_RCVBUF=" ++ to_string_signed (default 0 (mi_granted io)) ++ text " bytes)" ++ nl in
  text "listening for market data on 127.0.0.1:" ++ to_string (default 0 (mi_port io)) ++ rcvbuf ++ feed_lines new_tracker msgs ++
  text "received " ++ to_string (Z.of_nat (length msgs)) ++ text " datagrams" ++ nl ++ text "total gaps detected: " ++ to_string (skipped msgs) ++ rcvbuf.

Lemma published io port seed orders :
  0 <= port <= 65535 -> in_u64 seed -> 0 <= orders < 2 ^ 30 -> mi_parsed io <> None -> 0 <= mi_socket io ->
  mdfeed_main io (publish_argv port seed orders) =
    mkMdResult 0 (text "published market data (md_seq up to " ++ to_string (Z.of_nat (length (flow_log seed orders))) ++ text ") to 127.0.0.1:" ++ to_string port ++ nl)
      (map encode_md (flow_log seed orders)).
Proof.
  intros Hp Hseed Ho Hparsed Hsock. change (mdfeed_main io (publish_argv port seed orders)) with (run_publish io (publish_argv port seed orders)).
  unfold run_publish, arg_or. cbn [publish_argv lookup list_lookup]. change (default [] (Some (to_string port))) with (to_string port).
  rewrite parse_port_to_string, !parse_u64_to_string by (done || unfold in_u64; lia). unfold publish.
  destruct (mi_parsed io) as [addr|]; [|done]. cbn [new_udp_publisher]. set (udp := mkUdpPublisher _ _ _ _).
  assert (udp_publisher_good udp = true) as Hg by (unfold udp_publisher_good; cbn; lia). rewrite Hg. cbn [negb].
  change (Feed.subscribe new_publisher (mkUdpSub udp [])) with (with_subs (HS := udp_subscriber (mi_sendto io)) (mkUdpSub udp []) (Feed.subscribe new_publisher [])).
  rewrite publish_loop. destruct (flow_log_ok seed orders Ho) as (p & Hrun & Hpub & _). destruct (feed_run _ _ _) as [[evs e'] p']. cbn [snd] in Hrun. subst p'.
  cbn [with_subs md_seq_ subscribers_]. destruct (po_seq _ _ Hpub) as [_ ->]. rewrite (po_log _ _ Hpub). cbn [map concat]. by rewrite udp_sends, app_nil_r.
Qed.

Lemma sublist_Forall (P : MarketDataMessage -> Prop) l k : l `sublist_of` k -> Forall P k -> Forall P l.
Proof. intros Hl. rewrite !Forall_forall. intros Hk x Hx. by eapply Hk, elem_of_sublist. Qed.

Lemma sublist_sorted (l k : list MarketDataMessage) :
  l `sublist_of` k -> StronglySorted Z.lt (map md_seq_of k) -> StronglySorted Z.lt (map md_seq_of l).
Proof.
  induction 1 as [|x l k Hl IH|x l k Hl IH]; intros Hs; [done| |].
  - apply StronglySorted_inv in Hs as [Hs Hx]. constructor; [auto|]. apply Forall_map. apply (proj1 (Forall_map _ _ _)) in Hx. by eapply sublist_Forall.
  - apply StronglySorted_inv in Hs as [Hs _]. auto.
Qed.

Lemma heard_length rs : forall n idle, (length (heard n idle rs) <= n)%nat.
Proof.
  induction rs as [|[m|] rs IH]; intros [|n] idle; cbn [heard length]; try lia; [by apply le_n_S|]. case_if; [cbn; lia|by apply le_S].
Qed.

Lemma omap_map_Some (log : list MarketDataMessage) : omap id (map Some log) = log.
Proof. induction log as [|m log IH]; [done|]. cbn. f_equal. exact IH. Qed.

Lemma omap_cons_map_Some (log : list MarketDataMessage) : omap id (None :: map Some log) = log.
Proof. exact (omap_map_Some log). Qed.

(** What the subscriber prints once its socket is bound, in terms of the state
    its loop ends in. *)
Definition bound_client (io : MdIO) : UdpFeedClient :=
  mkUdpFeedClient (mi_socket io) (default 0 (mi_port io)) new_tracker 0 (default 0 (mi_granted io)).

Definition final_report (io : MdIO) (st : Listening) : bytes :=
  let rcvbuf := text " (SO_RCVBUF=" ++ to_string_signed (default 0 (mi_granted io)) ++ text " bytes)" ++ nl in
  text "listening for market data on 127.0.0.1:" ++ to_string (default 0 (mi_port io)) ++ rcvbuf ++ ls_out st ++
  text "received " ++ to_string (ls_received st) ++ text " datagrams" ++ nl ++ text "total gaps detected: " ++ to_string (uc_total_gaps (ls_client st)) ++ rcvbuf.

Lemma subscriber_runs io port count :
  0 <= port <= 65535 -> in_u64 count -> 0 <= mi_socket io -> mi_bound io = true ->
  mdfeed_main io (subscribe_argv port count) =
    mkMdResult 0 (final_report io (listen (mi_recv io) (Z.to_nat count) 0 (mkListening (bound_client io) 0 0 []))) [].
Proof.
  intros Hp Hc Hsock Hbound. change (mdfeed_main io (subscribe_argv port count)) with (run_subscribe io (subscribe_argv port count)).
  unfold run_subscribe, arg_or. cbn [subscribe_argv lookup list_lookup]. change (default [] (Some (to_string port))) with (to_string port).
  rewrite parse_port_to_string, parse_u64_to_string by done. unfold subscribe, new_udp_feed_client. rewrite Hbound. cbn [negb].
  replace (mi_socket io <? 0) with false by lia. cbn [uc_fd uc_port uc_recv_buffer_bytes]. by replace (mi_socket io <? 0) with false by lia.
Qed.

Lemma reported io port count rs :
  0 <= port <= 65535 -> in_u64 count -> 0 <= mi_socket io -> mi_bound io = true -> (forall i, mi_recv io i = delivers rs i) ->
  Forall md_ok (omap id rs) -> StronglySorted Z.lt (map md_seq_of (omap id rs)) ->
  mdfeed_main io (subscribe_argv port count) = mkMdResult 0 (subscriber_report io (heard (Z.to_nat count) 0 rs)) [].
Proof.
  intros Hp Hc Hsock Hbound Hrecv Hok Hs. rewrite subscriber_runs by done. set (st := mkListening (bound_client io) 0 0 []).
  assert (forall n i s, listen (mi_recv io) n i s = listen (delivers rs) n i s) as ->.
  { induction n as [|n IH]; intros i s; cbn [listen]; [done|]. rewrite Hrecv. by destruct (listen_step _ s) as [s' []]. }
  destruct (listen_heard rs [] (Z.to_nat count) 0 st Hsock eq_refl ltac:(done) Hok) as [idle Hh]. cbn [app length] in Hh. rewrite Hh.
  pose proof (heard_sublist rs (Z.to_nat count) 0) as Hsub. pose proof (heard_length rs (Z.to_nat count) 0) as Hlen. set (msgs := heard _ _ _) in *.
  unfold final_report, after_hearing. cbn [ls_client ls_received ls_out st app].
  rewrite gaps_skipped; [|done|done|done|by eapply sublist_Forall|by eapply sublist_sorted].
  unfold in_u64 in Hc. by rewrite u64_small by lia.
Qed.

Lemma numbered_last ms : forall m, map md_seq_of ms = seqZ (md_seq_of m + 1) (Z.of_nat (length ms)) -> md_seq_of (List.last ms m) = md_seq_of m + Z.of_nat (length ms).
Proof.
  induction ms as [|m' ms IH]; intros m Hn; [cbn; lia|]. rewrite last_default. cbn [map length] in Hn. rewrite seqZ_cons in Hn by lia. injection Hn as Hm Hn.
  rewrite IH; [cbn; lia|]. rewrite Hn, Hm. f_equal; cbn; lia.
Qed.

(** Consecutive messages skip nothing. *)
Lemma skipped_none msgs : map md_seq_of msgs = seqZ 1 (Z.of_nat (length msgs)) -> skipped msgs = 0.
Proof.
  destruct msgs as [|m ms]; [done|]. cbn [map length]. rewrite seqZ_cons by lia. intros [= Hm Hn]. unfold skipped. rewrite numbered_last; [lia|].
  rewrite Hn, Hm. f_equal; cbn; lia.
Qed.



(** A datagram that does not decode counts as an idle call: three of them in a
    row end the subscriber, whatever is sent after them. *)
Theorem malformed_ends_listening io port count :
  0 <= port <= 65535 -> in_u64 count -> 3 <= count -> 0 <= mi_socket io -> mi_bound io = true ->
  (forall i, (i < 3)%nat -> exists d, mi_recv io i = Some d /\ decode_market_data (take kDatagramMax d) = None) ->
  mdfeed_main io (subscribe_argv port count) = mkMdResult 0 (subscriber_report io []) [].
Proof.
  intros Hp Hc H3 Hsock Hbound Hd. rewrite subscriber_runs by done. replace (Z.to_nat count) with (S (S (S (Z.to_nat (count - 3))))) by lia.
  assert (forall i st, (i < 3)%nat -> uc_fd (ls_client st) = mi_socket io ->
            listen_step (mi_recv io i) st = (mkListening (ls_client st) (ls_received st) (ls_idle_ticks st + 1) (ls_out st), 3 <=? ls_idle_ticks st + 1)) as Hstep.
  { intros i st Hi Hfd. destruct (Hd i Hi) as (d & -> & Hdec). unfold listen_step, udp_receive. replace (uc_fd (ls_client st) <? 0) with false by lia.
    destruct d; [done|]. by rewrite Hdec. }
  cbn [listen]. by rewrite !Hstep by (done || lia).
Qed.
