(* ===== verification/GatewayAppTheorems.v ===== *)
(** * GatewayAppTheorems: what qsl-gateway guarantees *)
From Stdlib Require Import ZifyBool.
From S2P Require Import Prelude Core Endian Text Book BookSpec OrderBook Command Engine EngineSpec Gateway Protocol Session SessionSpec Fixture Sys Epoll Server EpollTheorems Tcp TcpTheorems GatewayApp.

(** ** The command line *)

Lemma skip_space_digits ds rest :
  Forall (fun c => is_digit c = true) ds -> ds <> [] -> skip_space (ds ++ rest) = ds ++ rest.
Proof.
  intros Hd Hne. destruct ds as [|c ds]; [done|]. apply Forall_cons in Hd as [Hc _]. cbn [app skip_space].
  unfold is_digit in Hc. unfold is_space. by replace (_ || _) with false by lia.
Qed.

Lemma sign_digits ds rest : Forall (fun c => is_digit c = true) ds -> ds <> [] -> sign (ds ++ rest) = (false, ds ++ rest).
Proof.
  intros Hd Hne. destruct ds as [|c ds]; [done|]. apply Forall_cons in Hd as [Hc _]. cbn [app sign].
  unfold is_digit in Hc. replace (c =? 45) with false by lia. by replace (c =? 43) with false by lia.
Qed.

Lemma stoul_digits ds rest :
  Forall (fun c => is_digit c = true) ds -> ds <> [] -> (forall c, head rest = Some c -> is_digit c = false) ->
  digits_value ds < 2 ^ 64 -> 0 <= digits_value ds -> stoul (ds ++ rest) = Some (digits_value ds, length ds).
Proof.
  intros Hd Hne Hr Hv H0. unfold stoul. rewrite skip_space_digits, sign_digits, span_digits_app by done.
  destruct ds as [|c ds]; [done|]. rewrite (proj2 (Z.ltb_lt _ _)) by done. rewrite u64_small by lia. f_equal. f_equal. rewrite length_app. lia.
Qed.

Lemma stoul_to_string n : in_u64 n -> stoul (to_string n) = Some (n, length (to_string n)).
Proof.
  intros Hn. destruct (to_string_spec n Hn) as (H1 & H2 & H3 & _). unfold in_u64 in Hn. rewrite <- (app_nil_r (to_string n)) at 1.
  rewrite stoul_digits; rewrite ?H2; done || lia.
Qed.

(** The port a token stands for. *)
Definition port_token (p : bytes) : option Z :=
  match stoul p with
  | Some (value, consumed) => if (consumed =? length p)%nat && (value <=? 65535) then Some value else None
  | None => if is_nil p then Some 0 else None
  end.

Lemma gateway_arg_spec st arg :
  gateway_arg st arg =
    if bool_decide (arg = text "--epoll") then Some (mkGatewayArgs (ga_port st) true (ga_port_set st))
    else if ga_port_set st then None
    else (fun v => mkGatewayArgs v (ga_use_epoll st) true) <$> port_token arg.
Proof.
  unfold gateway_arg, port_token. case_bool_decide; [done|]. destruct (stoul arg) as [[value consumed]|].
  - destruct (ga_port_set st); [done|]. cbn [orb]. rewrite (Z.ltb_antisym value 65535). by destruct (consumed =? length arg)%nat, (value <=? 65535).
  - destruct (ga_port_set st); [done|]. by destruct arg.
Qed.

(** What the tokens other than the flag make of the state. *)
Definition ports_result (st : GatewayArgs) (epoll : bool) (ports : list bytes) : option GatewayArgs :=
  match ports with
  | [] => Some (mkGatewayArgs (ga_port st) epoll (ga_port_set st))
  | [p] => if ga_port_set st then None else (fun v => mkGatewayArgs v epoll true) <$> port_token p
  | _ => None
  end.

Lemma gateway_args_loop_spec args : forall st,
  gateway_args_loop st args =
    ports_result st (ga_use_epoll st || bool_decide (text "--epoll" ∈ args)) (filter (fun a => a <> text "--epoll") args).
Proof.
  induction args as [|arg args IH]; intros st; cbn [gateway_args_loop].
  { cbn. rewrite orb_false_r. by destruct st. }
  rewrite gateway_arg_spec. destruct (decide (arg = text "--epoll")) as [E|E]; [rewrite (bool_decide_true (arg = _)) by done|rewrite (bool_decide_false (arg = _)) by done].
  - rewrite E, IH, filter_cons_False by naive_solver. cbn [ga_use_epoll ga_port ga_port_set]. rewrite (bool_decide_true (_ ∈ _ :: _)) by set_solver.
    rewrite orb_true_r. done.
  - rewrite filter_cons_True by done. replace (bool_decide (text "--epoll" ∈ arg :: args)) with (bool_decide (text "--epoll" ∈ args)) by (apply bool_decide_ext; set_solver).
    destruct (ga_port_set st) eqn:Es; [cbn; rewrite Es; by destruct (filter _ args)|]. unfold ports_result at 1. rewrite Es.
    destruct (port_token arg) as [v|]; cbn [fmap option_fmap option_map]; [|by destruct (filter _ args)]. rewrite IH. unfold ports_result. cbn [ga_use_epoll ga_port ga_port_set].
    by destruct (filter _ args) as [|? [|? ?]].
Qed.

(** The command line of qsl-gateway is read exactly as intended but for one
    token: the flag may stand anywhere and any number of times, the other tokens
    are at most one, and that one is the port, a number that fills the token and
    is at most 65535.  Every port number is accepted as it is printed.  The empty
    token, on which [std::stoul] throws, is taken as port 0: zero characters
    consumed is the length of the token. *)
Theorem gateway_args_exact name args :
  gateway_args (name :: args) =
    ports_result (mkGatewayArgs 9009 false false) (bool_decide (text "--epoll" ∈ args)) (filter (fun a => a <> text "--epoll") args) /\
  (forall n, 0 <= n <= 65535 -> port_token (to_string n) = Some n) /\
  (forall p v, port_token p = Some v -> 0 <= v <= 65535 /\ (p = [] \/ exists c, c ∈ p /\ is_digit c = true)) /\
  port_token [] = Some 0.
Proof.
  split; [apply gateway_args_loop_spec|]. split_and!; [| |done].
  - intros n Hn. unfold port_token. rewrite stoul_to_string by (unfold in_u64; lia). rewrite Nat.eqb_refl. cbn [andb]. by rewrite (proj2 (Z.leb_le _ _)) by lia.
  - intros p v. unfold port_token. destruct (stoul p) as [[v' n]|] eqn:E; [|destruct p; [|done]; cbn; intros [= <-]; split; [lia|by left]].
    destruct (_ && _) eqn:E2; [|done]. intros [= <-]. apply andb_true_iff in E2 as [_ E2]. revert E. unfold stoul.
    destruct (sign (skip_space p)) as [neg s1] eqn:Es. destruct (span_digits s1) as [[|d ds] rest] eqn:Ed; [done|]. case_if; [|done]. intros [= <-].
    pose proof (u64_range (if neg then - digits_value (d :: ds) else digits_value (d :: ds))) as Hu. unfold in_u64 in Hu. split; [lia|]. right. exists d.
    apply span_digits_spec in Ed as [-> Hd]. apply Forall_cons in Hd as [Hd _]. split; [|done].
    assert (forall s, d ∈ skip_space s -> d ∈ s) as Hsk. { induction s as [|c s IH]; cbn; [done|]. case_if; [|done]. intros. constructor. auto. }
    apply Hsk. revert Es. unfold sign. destruct (skip_space p) as [|c s]; [by intros|]. repeat case_if; intros; simplify_eq; set_solver.
Qed.

(** ** The servers *)

Lemma gateway_engine_wf : engine_wf gateway_engine.
Proof. apply (apply_all_refines (H0 := baseline_laws) [RegisterSymbol "AAPL"; RegisterSymbol "MSFT"] (new_engine Baseline)); [done|apply new_engine_wf|repeat constructor; done]. Qed.

Definition app_transport (argv : list bytes) : Transport :=
  match gateway_args argv with
  | Some args => if ga_use_epoll args then epoll_transport default_epoll_options else tcp_transport default_tcp_options
  | None => tcp_transport default_tcp_options
  end.

Lemma app_idle tp fds answers : idle gateway_config tp (new_server gateway_engine) fds gateway_engine ∅ (mkWorld answers fds []).
Proof. exists (new_server gateway_engine). repeat split; cbn; set_solver. Qed.

