(* ===== verification/ClientTheorems.v ===== *)
(** * ClientTheorems: what qsl-client prints

    The client prints every complete reply it has received, and against a session
    that answers its two requests it prints what the gateway decided. *)
From Stdlib Require Import ZifyBool.
From S2P Require Import Prelude Core Endian Text Book BookSpec OrderBook Command Engine EngineSpec Gateway GatewaySpec Protocol Fixture Session SessionSpec Sys GatewayApp GatewayAppTheorems Client.

(** ** Replies *)

Inductive Response := RAck (m : Ack) | RReject (m : Reject) | RFill (m : Fill) | RHeartbeatAck (m : HeartbeatAck).

Definition response_ok (r : Response) : Prop :=
  match r with
  | RAck m => ack_ok m
  | RReject m => reject_ok m
  | RFill m => fill_ok m
  | RHeartbeatAck m => in_u64 (hba_token m)
  end.

Definition encode_response (r : Response) : bytes :=
  match r with
  | RAck m => encode_ack m
  | RReject m => encode_reject m
  | RFill m => encode_fill m
  | RHeartbeatAck m => encode_heartbeat_ack m
  end.

Definition response_line (r : Response) : bytes :=
  match r with
  | RAck m => text "  Ack order=" ++ to_string (ack_order_id m) ++ text " seq=" ++ to_string (ack_seq m) ++ nl
  | RReject m => text "  Reject order=" ++ to_string (rej_order_id m) ++ text " reason=" ++ text (reason_to_string (rej_reason m)) ++ nl
  | RFill m =>
      text "  Fill taker=" ++ to_string (f_taker_id m) ++ text " maker=" ++ to_string (f_maker_id m) ++
      text " price=" ++ to_string_signed (f_price m) ++ text " qty=" ++ to_string (f_quantity m) ++ nl
  | RHeartbeatAck m => text "  HeartbeatAck token=" ++ to_string (hba_token m) ++ nl
  end.

Definition response_type (r : Response) : MsgType :=
  match r with RAck _ => MtAck | RReject _ => MtReject | RFill _ => MtFill | RHeartbeatAck _ => MtHeartbeatAck end.
Definition response_body (r : Response) : nat :=
  match r with RAck _ => kAckBodySize | RReject _ => kRejectBodySize | RFill _ => kFillBodySize | RHeartbeatAck _ => kHeartbeatBodySize end.

Lemma length_encode_response r : length (encode_response r) = (kHeaderSize + response_body r)%nat.
Proof. destruct r; [apply length_encode_ack|apply length_encode_reject|apply length_encode_fill|apply length_encode_heartbeat_ack]. Qed.

Lemma response_header r rest :
  decode_header (encode_response r ++ rest) = mkDecodeResult DecodeNone (mkMessageHeader (response_type r) kProtocolVersion (Z.of_nat (response_body r)) 0).
Proof.
  pose proof (length_encode_response r) as Hl. apply decode_header_has; [|rewrite length_app; lia|by destruct r|by destruct r].
  destruct r; cbn [encode_response response_type response_body]; unfold encode_ack, encode_reject, encode_fill, encode_heartbeat_ack, framed; header_solve.
Qed.

Lemma print_response r : response_ok r -> print_frame (response_type r) (encode_response r) = response_line r.
Proof.
  intros Hr. rewrite <- (app_nil_r (encode_response r)). destruct r; cbn [response_type encode_response response_ok print_frame] in *.
  - by rewrite decode_encode_ack.
  - by rewrite decode_encode_reject.
  - by rewrite decode_encode_fill.
  - by rewrite decode_encode_heartbeat_ack.
Qed.

(** ** Printing *)

(** The bytes after the last complete reply: nothing, or part of one more. *)
Definition incomplete (tail : bytes) : Prop := exists r k, tail = take k (encode_response r) /\ (k < length (encode_response r))%nat.

Lemma incomplete_stops pre tail out fuel :
  incomplete tail -> pr_out (while fuel (print_cond (pre ++ tail)) (print_step (pre ++ tail)) (mkPrinting (length pre) out false)) = out.
Proof.
  intros (r & k & -> & Hk). pose proof (length_encode_response r) as Hl. destruct fuel as [|fuel]; [done|]. cbn [while]. unfold print_cond at 1. cbn [pr_done pr_offset negb andb].
  destruct (_ <=? _)%nat eqn:E; [|done]. rewrite length_app, length_take in E. apply Nat.leb_le in E.
  unfold print_step at 2. cbn [pr_offset]. rewrite drop_app_length.
  assert (decode_header (take k (encode_response r)) = decode_header (encode_response r)) as ->.
  { rewrite <- (take_drop k (encode_response r)) at 2. rewrite decode_header_app; [done|]. rewrite length_take. lia. }
  pose proof (response_header r []) as Hh. rewrite app_nil_r in Hh. rewrite Hh. unfold decode_ok. cbn [d_error d_value h_body_len]. rewrite bool_decide_true by done. cbn [negb].
  rewrite Nat2Z.id. rewrite (proj2 (Nat.ltb_lt _ _)) by (rewrite length_app, length_take; lia). rewrite while_false by done. done.
Qed.

Lemma print_loop tail rs : forall pre out fuel,
  incomplete tail -> Forall response_ok rs -> (length rs <= fuel)%nat ->
  let b := pre ++ concat (map encode_response rs) ++ tail in
  pr_out (while fuel (print_cond b) (print_step b) (mkPrinting (length pre) out false)) = out ++ concat (map response_line rs).
Proof.
  induction rs as [|r rs IH]; intros pre out fuel Ht Hok Hf; cbn [map concat app].
  { cbv zeta. rewrite incomplete_stops by done. by rewrite app_nil_r. }
  apply Forall_cons in Hok as [Hr Hok]. pose proof (length_encode_response r) as Hl. cbn [length] in Hf. destruct fuel as [|fuel]; [lia|]. cbv zeta. rewrite <- app_assoc.
  set (rest := concat (map encode_response rs) ++ tail). cbn [while].
  assert (print_cond (pre ++ encode_response r ++ rest) (mkPrinting (length pre) out false) = true) as ->.
  { unfold print_cond. cbn. apply Nat.leb_le. rewrite !length_app. unfold kHeaderSize in *. lia. }
  assert (print_step (pre ++ encode_response r ++ rest) (mkPrinting (length pre) out false) = mkPrinting (length (pre ++ encode_response r)) (out ++ response_line r) false) as ->.
  { unfold print_step. cbn [pr_offset pr_out]. rewrite drop_app_length, response_header. unfold decode_ok. cbn [d_error d_value h_body_len h_type]. rewrite bool_decide_true by done. cbn [negb].
    rewrite Nat2Z.id, <- Hl. rewrite (proj2 (Nat.ltb_ge _ _)) by (rewrite !length_app; lia). rewrite take_app_length, print_response by done. by rewrite length_app. }
  rewrite (app_assoc pre). unfold rest. rewrite (IH (pre ++ encode_response r) (out ++ response_line r) fuel Ht Hok ltac:(lia)). by rewrite <- app_assoc.
Qed.

Lemma print_responses_all rs tail :
  Forall response_ok rs -> incomplete tail -> print_responses (concat (map encode_response rs) ++ tail) = concat (map response_line rs).
Proof.
  intros Hok Ht. unfold print_responses. apply (print_loop tail rs [] []); [done|done|]. rewrite length_app. clear.
  induction rs as [|r rs IH]; cbn [map concat length]; [lia|]. rewrite length_app, length_encode_response. unfold kHeaderSize. lia.
Qed.

Lemma incomplete_nil : incomplete [].
Proof. exists (RHeartbeatAck (mkHeartbeatAck 0)), 0%nat. split; [done|]. rewrite length_encode_response. unfold kHeaderSize. lia. Qed.

(** ** The run *)

(** What was accepted from the writes to [fd], and what was read from it. *)
Definition written_by (fd : Z) (x : Syscall * Answer) : bytes :=
  match x with (SysWrite f data, Ret n) => if f =? fd then take (Z.to_nat n) data else [] | _ => [] end.
Definition read_by (fd : Z) (x : Syscall * Answer) : bytes :=
  match x with (SysRead f _, Data b) => if f =? fd then b else [] | _ => [] end.
Definition written (fd : Z) (t : list (Syscall * Answer)) : bytes := concat (map (written_by fd) t).
Definition received (fd : Z) (t : list (Syscall * Answer)) : bytes := concat (map (read_by fd) t).

Lemma written_app fd t t' : written fd (t ++ t') = written fd t ++ written fd t'.
Proof. unfold written. by rewrite map_app, concat_app. Qed.
Lemma received_app fd t t' : received fd (t ++ t') = received fd t ++ received fd t'.
Proof. unfold received. by rewrite map_app, concat_app. Qed.

(** The state of a run: its socket, the descriptors that are open, and the two streams. *)
Record at_point (fd : Z) (fds : gset Z) (sent got : bytes) (w : World) : Prop := {
  ap_socket : head (trace w) = Some (SysSocket false, Ret fd);
  ap_opened : opened w = fds;
  ap_written : written fd (trace w) = sent;
  ap_received : received fd (trace w) = got
}.

Lemma at_point_call fd fds sent got w c a :
  at_point fd fds sent got w ->
  at_point fd (opened_after c a fds) (sent ++ written_by fd (c, a)) (got ++ read_by fd (c, a)) (answered c a w).
Proof.
  intros [H0 H1 H2 H3]. split; unfold answered; cbn [opened trace]; [by destruct (trace w)|by rewrite H1| |].
  - rewrite written_app, H2. unfold written. cbn [map concat]. by rewrite app_nil_r.
  - rewrite received_app, H3. unfold received. cbn [map concat]. by rewrite app_nil_r.
Qed.

(** A call that moves no bytes and opens nothing. *)
Lemma at_point_quiet fd fds sent got w c a :
  at_point fd fds sent got w -> opened_after c a fds = fds -> written_by fd (c, a) = [] -> read_by fd (c, a) = [] ->
  at_point fd fds sent got (answered c a w).
Proof. intros Hw Ho H1 H2. pose proof (at_point_call fd fds sent got w c a Hw) as H. by rewrite Ho, H1, H2, !app_nil_r in H. Qed.

Definition anywhere (w : World) : Prop := True.

Lemma write_all_wp fd fds data got (Q : bool -> World -> Prop) sent w :
  at_point fd fds sent got w ->
  (forall ok k w', at_point fd fds (sent ++ take k data) got w' -> (ok = true -> take k data = data) -> Q ok w') ->
  wp anywhere (write_all fd data) Q w.
Proof.
  intros Hw HQ. unfold write_all. apply (wp_loop _ _ (fun off w => at_point fd fds (sent ++ take off data) got w)); [done| |by rewrite take_0, app_nil_r].
  intros off w' Ha. unfold write_step. destruct (off <? length data)%nat eqn:E.
  - apply wp_bind, wp_sys; [done|]. intros a Had.
    destruct a as [n|err|b|evs]; try (apply wp_ret; apply (HQ false off); [by apply at_point_quiet|done]).
    cbn in Had. rewrite length_drop in Had.
    pose proof (at_point_call _ _ _ _ _ (SysWrite fd (drop off data)) (Ret n) Ha) as Hn. cbn [written_by read_by opened_after] in Hn.
    rewrite Z.eqb_refl, app_nil_r, <- app_assoc, take_take_drop in Hn.
    apply wp_ret. destruct (n <=? 0) eqn:En; [|done]. by apply (HQ false (off + Z.to_nat n)%nat).
  - apply wp_ret. apply (HQ true off); [done|]. intros _. apply take_ge. apply Nat.ltb_ge in E. lia.
Qed.

Lemma read_all_wp fd fds sent (Q : bytes -> World -> Prop) w :
  at_point fd fds sent [] w -> (forall got w', at_point fd fds sent got w' -> Q got w') -> wp anywhere (loop (read_response fd) []) Q w.
Proof.
  intros Hw HQ. apply (wp_loop _ _ (fun got w => at_point fd fds sent got w)); [done| |done]. intros got w' Ha. unfold read_response. apply wp_bind, wp_sys; [done|]. intros a _.
  pose proof (at_point_call _ _ _ _ _ (SysRead fd (Z.to_nat 4096)) a Ha) as Hn.
  destruct a as [n|err|b|evs]; try (apply wp_ret, HQ; by apply at_point_quiet).
  cbn [written_by read_by opened_after] in Hn. rewrite Z.eqb_refl, app_nil_r in Hn. apply wp_ret.
  destruct b; cbn [is_nil]; [apply HQ; by rewrite app_nil_r in Hn|done].
Qed.

(** ** The replies of the gateway *)

Definition wire_price (id : OrderId) (price : Price) : Prop := in_u64 id /\ in_i64 price.

(** The replies to a command of the order [id]. *)
Definition result_responses (id : OrderId) (r : GatewayResult) : list Response :=
  if g_accepted r
  then RAck (mkAck id (match g_events r with [] => 0 | ev :: _ => seq_of ev end)) :: map RFill (omap fill_of (g_events r))
  else [RReject (mkReject id (g_reason r))].

Lemma response_encoded id r : response id r = concat (map encode_response (result_responses id r)).
Proof.
  unfold response, result_responses. destruct (g_accepted r); cbn [map concat encode_response]; [|by rewrite app_nil_r]. by rewrite map_map.
Qed.

Lemma fills_ok evs : Forall (event_ok wire_price) evs -> Forall response_ok (map RFill (omap fill_of evs)).
Proof.
  induction 1 as [|ev evs Hev _ IH]; [constructor|]. cbn [omap list_omap].
  destruct ev as [| |seq symbol taker maker price q|]; cbn [fill_of]; try done. cbn [map]. constructor; [|done].
  destruct Hev as (Hs & _ & Ht & [Hm Hp] & Hq). done.
Qed.

Lemma result_responses_ok id r :
  in_u64 id -> Forall (event_ok wire_price) (g_events r) -> reason_enumerator (g_reason r) = true -> Forall response_ok (result_responses id r).
Proof.
  intros Hid Hevs Hr. unfold result_responses. destruct (g_accepted r); [|by apply Forall_singleton].
  constructor; [|by apply fills_ok]. split; [done|]. cbn. destruct Hevs as [|ev evs Hev _]; [done|]. destruct ev; apply Hev.
Qed.

Lemma a_verdict_enumerator config ae c : reason_enumerator (a_verdict config ae c) = true.
Proof.
  assert (forall p q, reason_enumerator (check_limit_values config p q) = true) as H0.
  { intros. unfold check_limit_values. repeat (case_match; try done). }
  assert (forall side p q, reason_enumerator (check_limit config side p q) = true) as H1.
  { intros. unfold check_limit. repeat (case_match; auto). }
  assert (forall side q, reason_enumerator (check_market config side q) = true) as H2.
  { intros. unfold check_market. repeat (case_match; try done). }
  destruct c; cbn [a_verdict]; [done|..]; repeat (case_match; auto).
Qed.

Lemma a_gateway_responses_ok config ae c id :
  books_ok wire_price ae -> command_ok c -> command_from wire_price c -> in_u64 id -> Forall response_ok (result_responses id (a_gateway config ae c).1).
Proof.
  intros Hb Hc Hf Hid. apply result_responses_ok; [done| |].
  - pose proof (a_gateway_all_ok wire_price config [c] ae Hb ltac:(by constructor) ltac:(by constructor)) as [H1 _].
    cbn [a_gateway_all] in H1. destruct (a_gateway config ae c). by apply Forall_cons in H1 as [H1 _].
  - unfold a_gateway. case_bool_decide; [by destruct (a_apply true ae c)|]. apply a_verdict_enumerator.
Qed.

(** What the client sends, and what a session over [ae] replies. *)
Definition client_requests : list Request := [ReqNewOrder client_order 1; ReqHeartbeat (mkHeartbeat 42)].

Definition client_replies (config : RiskConfig) (ae : AEngine) : list Response :=
  result_responses 1 (a_gateway config ae (order_command client_order)).1 ++ [RHeartbeatAck (mkHeartbeatAck 42)].

Lemma client_replies_served {B : Type} `{HL : BookStoreLaws B} (Hu : unbounded B) config (e : MatchingEngine B) :
  engine_wf e -> (serve config e client_requests).1 = concat (map encode_response (client_replies config (e_abs e))).
Proof.
  intros Hwf. assert (command_ok (order_command client_order)) as Hc by done.
  pose proof (gateway_refines Hu config e (order_command client_order) Hwf Hc) as [_ Ha]. unfold client_requests, client_replies. rewrite Ha. cbn [serve request_reply fst].
  destruct (apply_command config e _) as [r e']. cbn [fst no_order_id client_order]. rewrite response_encoded, map_app, concat_app. done.
Qed.

(** A stream of replies that is cut off: the complete ones, and part of the next. *)
Lemma prefix_of_responses rs : forall b,
  b `prefix_of` concat (map encode_response rs) ->
  exists k tail, b = concat (map encode_response (take k rs)) ++ tail /\ incomplete tail.
Proof.
  induction rs as [|r rs IH]; intros b Hb; cbn [map concat] in Hb.
  { exists 0%nat, []. split; [|apply incomplete_nil]. by apply prefix_nil_inv in Hb. }
  destruct (decide (length b < length (encode_response r))%nat) as [Hl|Hl].
  - exists 0%nat, b. split; [done|]. exists r, (length b). split; [|done]. destruct Hb as [t Ht].
    assert (take (length b) (encode_response r ++ concat (map encode_response rs)) = b) as <- by (rewrite Ht; apply take_app_length).
    rewrite length_take_le by (rewrite length_app; lia). apply take_app_le. lia.
  - assert (exists b', b = encode_response r ++ b' /\ b' `prefix_of` concat (map encode_response rs)) as (b' & -> & Hb').
    { destruct Hb as [t Ht]. exists (drop (length (encode_response r)) b). split.
      - rewrite <- (take_drop (length (encode_response r)) b) at 1. f_equal. rewrite <- (take_app_le b t) by lia. rewrite <- Ht. apply take_app_length.
      - exists t. rewrite <- (drop_app_le b t) by lia. rewrite <- Ht. symmetry. apply drop_app_length. }
    destruct (IH b' Hb') as (k & tail & -> & Ht). exists (S k), tail. split; [|done]. cbn [take map concat]. by rewrite <- app_assoc.
Qed.

Lemma prints_prefix config ae b :
  books_ok wire_price ae -> b `prefix_of` concat (map encode_response (client_replies config ae)) ->
  exists k, print_responses b = concat (map response_line (take k (client_replies config ae))) /\
    (b = concat (map encode_response (client_replies config ae)) -> take k (client_replies config ae) = client_replies config ae).
Proof.
  intros Hb Hp. assert (Forall response_ok (client_replies config ae)) as Hok.
  { apply Forall_app. split; [by apply a_gateway_responses_ok|by apply Forall_singleton]. }
  destruct (decide (b = concat (map encode_response (client_replies config ae)))) as [E|E].
  - exists (length (client_replies config ae)). rewrite take_ge by lia. split; [|done]. rewrite E, <- (app_nil_r (concat _)).
    apply print_responses_all; [done|apply incomplete_nil].
  - destruct (prefix_of_responses _ _ Hp) as (k & tail & -> & Ht). exists k. split; [|done]. apply print_responses_all; [by apply Forall_take|done].
Qed.

(** ** The whole run *)

(** The outcome of a run that connected. *)
Definition talked (fds : gset Z) (out : bytes) (w : World) : Prop :=
  exists fd i j, head (trace w) = Some (SysSocket false, Ret fd) /\ opened w = fds /\
    written fd (trace w) = take i (encode_new_order client_order 1) ++ take j (encode_heartbeat (mkHeartbeat 42)) /\
    out = text "responses:" ++ nl ++ print_responses (received fd (trace w)).

Lemma client_run fds w argv :
  opened w = fds -> trace w = [] ->
  wp anywhere (client_main argv) (fun r w' => if r.1 =? 0 then talked fds r.2 w' else r.2 = [] /\ opened w' = fds) w.
Proof.
  intros Ho Ht. unfold client_main. destruct (port_from_args argv) as [port|]; [|by apply wp_ret].
  apply wp_bind, wp_sys; [done|]. intros a Ha. destruct a as [fd|err|b|evs]; try (by apply wp_ret).
  cbn in Ha. apply andb_true_iff in Ha as [_ Hfd]. apply bool_decide_eq_true in Hfd. rewrite Ho in Hfd.
  assert (at_point fd ({[fd]} ∪ fds) [] [] (answered (SysSocket false) (Ret fd) w)) as H1.
  { split; cbn; [by rewrite Ht|by rewrite Ho| |]; by rewrite Ht. }
  apply wp_bind, wp_sys_; [done|]. intros a _. apply (at_point_quiet _ _ _ _ _ (SysInetPton "127.0.0.1") a) in H1; [|by destruct a..].
  apply wp_bind, wp_sys; [done|]. intros a' _. apply (at_point_quiet _ _ _ _ _ (SysConnect fd port) a') in H1; [|by destruct a'..].
  assert (forall sent got w' a, at_point fd ({[fd]} ∪ fds) sent got w' -> at_point fd fds sent got (answered (SysClose fd) a w')) as Hclose.
  { intros sent got w' a2 H2. pose proof (at_point_call _ _ _ _ _ (SysClose fd) a2 H2) as H3. cbn [written_by read_by] in H3. rewrite !app_nil_r in H3.
    replace (opened_after (SysClose fd) a2 ({[fd]} ∪ fds)) with fds in H3; [done|]. destruct a2; cbn; set_solver. }
  destruct a' as [n|err|b|evs]; try (apply wp_bind, wp_sys_; [done|]; intros a2 _; apply wp_ret; split; [done|]; by eapply ap_opened, Hclose).
  apply wp_bind. eapply write_all_wp; [exact H1|]. intros ok1 i w1 H2 _. apply wp_bind. eapply write_all_wp; [exact H2|]. intros ok2 j w2 H3 _.
  apply wp_bind, wp_sys_; [done|]. intros a3 _. apply (at_point_quiet _ _ _ _ _ (SysShutdownWrite fd) a3) in H3; [|by destruct a3..].
  apply wp_bind. eapply read_all_wp; [exact H3|]. intros got w3 H4. apply wp_bind, wp_sys_; [done|]. intros a4 _. apply wp_ret.
  apply (Hclose _ _ _ a4) in H4. exists fd, i, j. destruct H4 as [H4 H5 H6 H7]. split_and!; [done|done|exact H6|]. cbn [snd]. by rewrite H7.
Qed.

Lemma responsive_write_all fd data : responsive (write_all fd data).
Proof. unfold write_all, write_step. repeat responsive_step. Qed.
#[local] Hint Resolve responsive_write_all : responsive.

Lemma responsive_client argv : responsive (client_main argv).
Proof. unfold client_main, read_response. repeat responsive_step. Qed.


(** A run against a fresh gateway. *)
Definition client_demo_replies : bytes := (serve gateway_config gateway_engine client_requests).1.
Definition client_demo_script : list Answer :=
  [Ret 3; Ret 1; Ret 0; Ret 10; Ret 33; Ret 24; Ret 0; Data (take 20 client_demo_replies); Data (drop 20 client_demo_replies); Data []; Ret 0].
Definition client_demo_run : Outcome (Z * bytes) := client_main [text "qsl-client"] (mkWorld client_demo_script {[0; 1; 2]} []).

Lemma gateway_books_ok : books_ok wire_price (e_abs gateway_engine).
Proof.
  assert (forall s, book_ok wire_price (bs_abs (bs_new s : OrderBook))) as Hb by (intros s; split; [apply a_wf_empty|constructor]).
  constructor; [apply (Hb Baseline)|constructor; [apply (Hb Baseline)|constructor]].
Qed.

